(* ===== verification/_CoqProject ===== *)
-Q . S2P
Prelude.v
Decimal.v
Js.v
JsMap.v
StableJson.v
HashChain.v
Monetary.v
Parameters.v
GrantBounds.v
GrantAttenuation.v
GrantStore.v
ExerciseControl.v
ExerciseLedger.v
ExerciseGate.v
EmergencyControl.v
GrantExercise.v
AdapterPort.v
Execution.v
System.v
Obligations.v
AuthorityGraph.v
AuthorityChain.v
AuthorityRuntime.v
AuthoritySafety.v
Approval.v
ApprovalRuntime.v
ApprovalSafety.v
ApprovalAuthority.v
RailAmounts.v
Bech32.v
Bolt11.v
RailProgram.v
Payments.v
LightningRail.v
TradeDomain.v
TradeProposal.v
TradeDelegation.v
TradeRisk.v
TradeFacts.v
TradeProfile.v
TradeAssessment.v
TradeReliance.v
ContextResolution.v
ContextSafety.v
ContextStep.v
Enforcement.v
EnforcementRuntime.v
EnforcementSafety.v
Kernel.v
KernelSafety.v
Recognition.v
RecognitionSafety.v
KernelAuthority.v
KernelAuthoritySafety.v
RecognitionBridge.v
RecognitionBridgeSafety.v
KernelHydration.v
KernelHydrationSafety.v
