(* ===== verification/Prelude.v ===== *)
(** * Frontera: a verification library for bounded execution authority

    Frontera turns an authorization decision into a bounded grant, and lets a
    provider act only within that grant. The code verified here lives under
    [src/src/features], [src/src/kernel] and [src/src/enterprise/kernel-authority].
    This file is the root: after this documentation it holds
    what the other files share (the host class, the error type, tactics, hints,
    list and sorting lemmas).

    ** The program and how its parts interact

    - [monetary-runtime] and [governed-parameter-runtime] are the data every
      other part reasons about: exact decimal texts, amounts in registered
      assets, and typed action parameters with their bounds.
    - [obligation-runtime] derives, from independent observations, the state of
      every duty attached to an authorization, and so whether the authorization
      may be exercised.
    - [grant-runtime] derives a bounded grant from an eligible authorization: the
      scope may only be narrowed (attenuation), the expiry only shortened, and
      the store writes a grant once and revokes it for ever.
    - [exercise-control-runtime] limits what many exercises of one authority may
      consume together: a host policy states limits, the ledger admits
      reservations under them, the gate binds both to the grant.
    - [emergency-control-runtime] is a kill switch, read before every effect.
    - [execution-runtime] composes the previous three: it reads the grant, assesses
      the attempt, reserves capacity, reads and assesses again, consults the
      emergency control and only then calls one provider adapter, whose answer it
      reads as untrusted data and records as an outcome.
    - [authority-graph] records who may issue and delegate authority: grants,
      delegations and role assignments form chains that are resolved to a root and
      verified hop by hop, with every event in a hash-chained ledger.
    - [approval-runtime] collects independent decisions on a request until a rule is
      met; it asks the authority graph whether an approver may approve, and its
      proof is what an action is checked against.
    - [payment-runtime] and [trade-runtime] are domains above that core: each reads
      an applicant's proposal, compiles it to a governed action, and hands a rail or
      a risk assessment exact quantities. The Lightning rail is an adapter of
      [execution-runtime]; a trade additionally needs evidence that a delegation on
      the ledger and sixteen risk controls hold, which later consumers re-check
      before relying on it.
    - [context-resolution-runtime] turns what connectors read into facts with a
      trust class, which a deployment may require of a request.
    - [action-enforcement] stands between a caller and an executor: a chain of
      policies over what recognition, policy packs, adapters, an emergency switch
      and an idempotency record say decides whether the executor runs, and every
      call leaves a hash-linked trail.
    - [kernel] produces the decision everything above starts from. It asks its ports
      (governed authority and representation, constraints, context, obligations, an
      external authorization), hands the request to the guard of
      [action-enforcement], and composes the answers into a result that can only be
      narrower than each of them; from an allowed result a grant may be derived.
    - [recognition-runtime] answers the guard's first question: is this actor, with
      this passport and this capability token, recognized for this action in this
      trust domain. It asks the authority graph and the approval runtime in turn.
    - [enterprise/kernel-authority] keeps what recognition and the authority graph
      know: operators append provisioning and revocation events to hash-linked
      chains, hydration replays the records of an organization into new runtimes,
      and the recognition bridge serves the guard from them.

    ** Files, and the source each one models

    - [Prelude]: no source; class [JsHost] (what the host provides), [result]
      (a function that may throw), JavaScript array operations as list
      functions.
    - [Decimal]: [monetary-runtime/domain/canonical-decimal.ts]. [BigInt] is [Z];
      the meaning of a text is the rational [dec_value].
    - [Js]: [unknown] values ([JsValue]), numbers ([JsNumber], with [NaN] and the
      infinities), the character classes of the regular expressions, and the
      texts of [JSON.stringify] with the lemmas that make them uniquely readable.
    - [Monetary]: [monetary-asset.ts], [monetary-amount.ts],
      [financial-action.ts].
    - [Parameters]: [governed-parameter-runtime/domain] (identifiers, values,
      bounds, dimension registry, action semantics).
    - [GrantBounds]: [grant-bound.ts], [grant-scope.ts].
    - [GrantAttenuation]: [grant-attenuation.ts], [grant-validity.ts],
      [grant-correlation.ts], [grant-source-authorization.ts],
      [grant-eligibility.ts].
    - [GrantStore]: [bounded-grant.ts], [grant-exercise.ts],
      [grant-revocation.ts], the store port (class [GrantStorePort] with
      [GrantStoreLaws]), the in-memory store (an instance) and the issuance
      service [issueGrant], proved against the laws.
    - [ExerciseControl]: [exercise-control-limits.ts], [exercise-reservation.ts],
      [exercise-decimal.ts], [exercise-reservation-resolution.ts],
      [exercise-authority-binding.ts].
    - [ExerciseLedger]: [in-memory-exercise-control-ledger.ts]. The closure's three
      maps are the record [Ledger]; a history is a sequence of [reserve],
      [terminal] and [reconcileResolution] steps (the relation [ledger_step]).
    - [ExerciseGate]: [exercise-control-gate.ts], over the class
      [ExerciseLedgerPort] with [ExerciseLedgerLaws]; the in-memory ledger is an
      instance.
    - [EmergencyControl]: the [emergency-control-runtime] port, signal, reader and
      process-local store.
    - [GrantExercise]: [grant-exercise-request.ts] and
      [grant-exercise-assessment.ts].
    - [AdapterPort]: [execution-adapter-port.ts], [provider-reference.ts],
      [provider-certainty.ts], [execution-outcome.ts].
    - [Execution]: [execution-adapter-registry.ts] and
      [grant-execution-service.ts], as programs ([prog]) over the calls they make
      to the parties they are composed with.
    - [Obligations]: [obligation-runtime/domain] and the lifecycle service.
    - [System]: the composition: any number of exercises of [Execution] over one
      ledger, interleaved call by call with reconciliations that reach the ledger
      at any time ([handle_event], [run_system]).
    - [JsMap], [StableJson], [HashChain]: a JavaScript [Map] as an association list,
      canonical JSON texts and their readability, and hash-chained event logs.
    - [AuthorityGraph], [AuthorityChain], [AuthorityRuntime], [AuthoritySafety]:
      [authority-graph] (store and services; resolver and verifiers; the runtime
      and its ledgers; the theorems about its histories).
    - [Approval], [ApprovalRuntime], [ApprovalSafety], [ApprovalAuthority]:
      [approval-runtime] in the same order, and its composition with the authority
      graph.
    - [RailAmounts], [Bech32], [Bolt11]: amounts of the payment rails and the reader
      of Lightning invoices under [payment-runtime/rails].
    - [RailProgram], [LightningRail]: a rail as a program over the calls it makes,
      and [rails/lightning] as such a program, served by an interlock that survives
      crashes.
    - [Payments]: [payment-runtime/domain] and the execution adapter of a rail.
    - [TradeDomain], [TradeProposal], [TradeDelegation]: [trade-runtime/domain]
      (grammar, assets and prices; proposals and their compilation; observations of
      a delegation, their assessment and the reliance on it).
    - [TradeRisk], [TradeFacts], [TradeProfile], [TradeAssessment], [TradeReliance]:
      [trade-runtime/policy] (exact arithmetic and inventories; market, exposure
      and order snapshots; profiles; the assessment as one verdict per control
      recorded in the code's order; reliance and context readings).
    - [ContextResolution], [ContextSafety], [ContextStep]:
      [context-resolution-runtime] (sources, declarations, readings, derivations on
      doubles, the resolution with its digest and reads; the theorems about them),
      and the kernel's effective profile and context step.
    - [Enforcement], [EnforcementRuntime], [EnforcementSafety]: [action-enforcement]
      (requests, policies and their evaluator; the runtime as computations on one
      state, split where the executor is awaited; histories of any number of
      interleaved calls).
    - [Kernel], [KernelSafety]: [kernel/AocKernel.ts] with the adapters of
      [kernel/orchestration], its contracts and reason codes, the coverages of
      [packages/governed-authority] and [grant-declaration.ts]. [evaluate] and
      [enforce] are split where they await: what the ports answered may meet the
      enforcement runtime in any later state.
    - [Recognition], [RecognitionSafety]: [recognition-runtime] (registries, the ten
      policies, revocation, the evidence ledger and [verifyAction], as computations
      on one state; the theorems about its histories).
    - [KernelAuthority], [KernelAuthoritySafety]: [kernel-authority-store.ts],
      [append-rules.ts], [in-memory-kernel-authority-store.ts],
      [monetary-constraints.ts], [parameter-bounds.ts] and
      [provisioning-service.ts].
    - [RecognitionBridge], [RecognitionBridgeSafety]: [recognition-bridge.ts], and
      its composition with [EnforcementRuntime].
    - [KernelHydration], [KernelHydrationSafety]: [hydration.ts], and the
      composition of the records, the bridge and the guard.

    Names are the source's names. A method of an object that the source closes
    over is a function from the closure's state to an answer and the next state.
    A field the TypeScript type declares as a union of literals is an inductive
    type; a value that enters from outside the trust boundary is a [JsValue], and
    the validators of the source are the functions that read it.

    ** What the theorems show

    - Exact quantities ([Decimal], [Monetary]): addition and comparison of
      canonical texts are exact and throw precisely on non-canonical operands; a
      value has one canonical text; the boundary canonicalizer and the amount
      parser accept precisely what their grammar says.
    - Bounds ([Parameters], [GrantBounds]): comparing two bounds decides inclusion
      of the sets of values they admit; scope equality is equality of canonical
      scopes.
    - Attenuation and issuance ([GrantAttenuation], [GrantStore]): a derived scope
      admits no more than its source on any axis or dimension, broadening is
      refused with the axis named, validity is contained by every ceiling; an
      issued grant was permitted at commit and is readable, and every other
      outcome leaves the store as it was; histories never alter a grant nor undo a
      revocation; identity and digest determine what they are computed from (given
      a collision-free digest, a named hypothesis with a witness).
    - Aggregate capacity ([ExerciseControl], [ExerciseLedger], [ExerciseGate]): the
      verdict of a rule is the comparison of exact sums; under a lifetime limit the
      host leaves as it is, the load of what no reconciliation declared undone stays
      within it in every history, and the whole load where executions are reconciled
      once finished; entries are append-only, and the gate admits precisely one
      fresh reservation under the policy's own limits.
    - Emergency control: the store answers a query by exactly the controls that
      stand, and every unusable answer of a reader withholds.
    - Execution ([GrantExercise], [AdapterPort], [Execution]): over all behaviours
      of the store, the clock, the control, the gate and the adapters, a provider
      is called at most once and only behind the complete chain of checks; an
      admitted reservation is finalized once, in agreement with the outcome; and
      an outcome never claims other than what happened at the provider.
    - The composed system ([System]): in every interleaving of exercises and
      reconciliations, whatever the other parties answer, the effects that happened
      or may have happened under an unchanged lifetime limit and that no
      reconciliation declared undone stay within it, and those declared undone were
      not executed where reconciliation follows the terminal event; every
      reservation is accounted for by one exercise, its outcome and its
      reconciliation; and each exercise ends within eleven calls,
      none waiting for another.
    - Obligations: no obligation is satisfied except by an observation of an
      independent registered source about this very obligation; eligibility and
      expiry are characterized exactly; observations are idempotent.
    - Authority and approval: where no grant is filed under the empty id,
      verification of a chain is its declarative justification; withdrawal of any record of a chain ends what rests on it, equal
      last hashes mean equal histories; where no request is filed under a taken id
      the approval runtime refines an abstract ballot, and with the graph composed no decision counts without authority.
    - Payments: a Lightning payment is sent at most once whatever crashes or
      interleaves, it is sent exactly when its checks clear in their order, and its
      reported outcome is what the node proved; a decoded invoice
      is exactly a well-formed, signed one; what reaches a rail is the validated,
      granted payment.
    - Trading: a compiled order states the accepted proposal and nothing else; a
      delegation assessment and the reliance on it are exact; risk evidence is
      satisfied exactly when each control that is not switched off holds,
      declaratively and over the rationals; evidence lasts exactly as long as it
      says, and readings never outlive it.
    - Context: a satisfied read rests only on admitted readings of sources of the
      required class, through any number of derivations; its status is exact; a
      result that stays viable stands under the declaration the deployment's options
      determine, with every requirement met; the digest determines the resolution.
    - Enforcement: the executor runs exactly when the default chain of policies has
      no objection; an idempotency key invokes it once when retries are off and
      succeeds once when retries take turns; every call is documented by linked,
      verifiable, truthful records.
    - Kernel: an evaluation is allowed, and an executor invoked, exactly when the
      rights, the context, the policies, the obligations and the external port all
      permit, however the runtime moves between the ports and the guard, and the
      ways an evaluation throws are all named; an execution is reported as it
      happened, with the three ways its report can be lost; a grant is derivable exactly from such a result.
    - Recognition: a request is allowed exactly when the registries entitle it and
      the integrations agree; a revoked credential stays out of every later history;
      verification records itself and nothing else.
    - Kernel authority: an append acts on its entity as a machine with the states
      absent, live and withdrawn; terms never change and revocation is final; the
      recorded head of a chain determines its events (given a digest that tells them
      apart, a hypothesis with a witness).
    - Hydration and bridge: the order of replay ends, is complete and respects
      dependencies, and fails exactly on a cycle; the bridge allows exactly what the
      runtime sanctions for its organization; composed with the guard, an executor
      is invoked only on active records whose terms cover the action.

    ** Bounds, fuel and widths

    Every function of the models is total. [Array.prototype.sort]
    with a comparison is the library's merge sort; the regular-expression matcher recurses
    on the expression, and its repetition operator on fuel that is the length of
    the text, which suffices because a repetition that consumes nothing is not
    repeated. Digits of a [Z] are printed with fuel from its bit length, shown
    to be enough by the round trip of printing and reading. A [prog] is a finite
    tree, so every exercise ends: the source has no loop around its calls.
    Ancestry walks are bounded by the source's own limit of fifty hops. The field
    loop of an invoice has one unit of fuel per data word, since a field takes at
    least three; UTF-8 decoding one more than the bytes; a copy of a plain value one
    level more than the depth bound; the gcd and the removal of factors two and five
    more than the bit length, and each is shown to be enough by its exactness lemma.
    The search that orders the records for replay has two units more than the number
    of records: the records on its path are different.
    [BigInt] is unbounded in the source and here. A [number] is kept with [NaN],
    infinities and non-integers, and integer fields carry the source's
    [Number.isSafeInteger] guards.

    Texts are sequences of 8-bit code units, where the source has UTF-16; all
    grammars involved are ASCII.

    ** What is a parameter

    [Date.parse], SHA-256 and [localeCompare] are the fields of [JsHost]; of the
    last only totality is assumed, and collision freedom of the digest is a
    hypothesis of the theorems that need it. Host callbacks (policy, binding
    resolver, commit guard, adapters, emergency readers, grant stores other than
    the in-memory one) are arguments, and a callback that throws or answers
    nonsense is among their behaviours. The curve library of the invoice decoder
    is class [Secp256k1], date texts and the text of a fraction are class
    [ContextHost], the hash functions of the XRP Ledger are class
    [LedgerHash]; a Lightning node, the interlock's medium and the source of
    invoices are answers a run is quantified over. Policy packs, connectors, the
    ports of the kernel, the recognition a guard is given and the integrations of
    the recognition runtime are functions of the question (and of the number of
    calls so far, for recognition, its integrations and policy packs), which may
    throw; [RecognitionBridgeSafety] instantiates the first of these;
    the clock and the generator of ids are functions of the number of calls, and
    uniqueness of ids is a hypothesis where a theorem needs it. The race of the
    external port with its timer is one of the port's answers.

    Restrictions of these models: freshness bounds and grant lifetimes are whole
    seconds; names of context sources hold no NUL; recognition types are not names
    of [Object.prototype]; policies given to the enforcement runtime are total;
    the ports of the kernel leave the caller's request as it is (an executor may
    write to it, which the kernel detects), and the metadata a full trace adds is
    left out. Delegation
    depths and the numbers of a provisioning payload are integers, and a payload has
    the fields its type declares; the theorem about hydrated worlds asks that a
    record is filed under the id its payload names, as the provisioning service
    files it.

    ** What is not modelled

    Object identity, freezing, symbol-keyed and non-enumerable properties, holes of
    arrays; an accessor property is a value of its own kind and is never run.
    Observers, loggers and evidence sinks whose answers the code never reads;
    timers; message texts of errors; a sealed price object whose price holds
    integers while its other fields are malformed; inputs that are no record where
    a function takes one from trusted code. The Stripe and XRP Ledger rails, payment
    protocols, settlement and refunds, the ledger readers of [trade-runtime], the
    external agent handshake, the engine of domain policy packs, the resolvers of
    financial and parameter authority and the rest of the enterprise orchestration,
    durable (database) stores, HTTP adapters, the
    published packages other than the coverages the kernel reads, web applications
    and demos.

    ** What could follow

    In order: the engine of domain policy packs and the external agent handshake,
    which are ports here; the resolvers of [enterprise/kernel-authority] that read
    the hydrated authority graph; the remaining rails and protocols of
    [payment-runtime] over [RailProgram]; the ledger readers of [trade-runtime];
    then the orchestration above them. *)

From Stdlib Require Export ZArith Ascii Lia.
From stdpp Require Export base list gmap strings sorting.

Set Default Goal Selector "!".

(** ** Notation scope and hint database of the development *)

Declare Scope frontera_scope.
Delimit Scope frontera_scope with frontera.

Create HintDb frontera.

(** ** The host environment

    The services of the JavaScript host that the modelled code calls and that
    cannot be read in the repository: [Date.parse] ([None] is [NaN], the value
    is the number of milliseconds since the epoch), the SHA-256 of Node's
    [crypto] as the hexadecimal digest of a text, and the order of
    [String.prototype.localeCompare] ([locale_le a b] is
    [a.localeCompare(b) <= 0]), of which only totality is used. Every component
    is parametric in them. *)
Class JsHost := {
  date_parse : string → option Z;
  sha256_hex : string → string;
  locale_le : string → string → bool;
  locale_le_total : ∀ a b, locale_le a b = true ∨ locale_le b a = true;
}.

(** ** Errors as values

    A JavaScript function that may throw returns [result]; the error carries
    the source's error class or code. *)
Inductive result (E A : Type) : Type :=
  | Ok (a : A)
  | Throw (e : E).
Arguments Ok {E A} a.
Arguments Throw {E A} e.

Definition result_bind {E A B} (m : result E A) (f : A → result E B) : result E B :=
  match m with
  | Ok a => f a
  | Throw e => Throw e
  end.

Notation "'let*' x ':=' m 'in' k" := (result_bind m (fun x => k))
  (at level 10, x name, m at level 100, k at level 200) : frontera_scope.
Notation "'guard*' b 'else' e 'in' k" := (if b then k else Throw e)
  (at level 10, b at level 100, e at level 100, k at level 200) : frontera_scope.

Lemma result_bind_Ok {E A B} (m : result E A) (f : A → result E B) (b : B) :
  result_bind m f = Ok b ↔ ∃ a, m = Ok a ∧ f a = Ok b.
Proof. destruct m; naive_solver. Qed.

(** ** Booleans and options *)

(** [value === other] on strings. *)
Definition str_eqb (a b : string) : bool := bool_decide (a = b).

Definition is_some {A} (o : option A) : bool :=
  match o with Some _ => true | None => false end.

(** [text.length > 0]. *)
Definition nonempty (s : string) : bool :=
  match s with EmptyString => false | _ => true end.

(** [left < right] on strings: code-unit order. *)
Definition str_ltb (a b : string) : bool := String.ltb a b.

Lemma str_eqb_eq a b : str_eqb a b = true ↔ a = b.
Proof. unfold str_eqb. apply bool_decide_eq_true. Qed.
Lemma str_eqb_neq a b : str_eqb a b = false ↔ a ≠ b.
Proof. unfold str_eqb. apply bool_decide_eq_false. Qed.
Lemma str_eqb_refl a : str_eqb a a = true.
Proof. by apply str_eqb_eq. Qed.
Lemma is_some_true {A} (o : option A) : is_some o = true ↔ is_Some o.
Proof. destruct o; unfold is_Some; naive_solver. Qed.

Lemma str_ltb_irrefl a : str_ltb a a = false.
Proof.
  unfold str_ltb, String.ltb. destruct (String.compare a a) eqn:E; try done.
  pose proof (String.compare_antisym a a) as H. rewrite E in H. done.
Qed.

Lemma str_ltb_neq a b : str_ltb a b = true → a ≠ b.
Proof. intros H ->. by rewrite str_ltb_irrefl in H. Qed.

(** ** Tactics

    [split_and_bool] turns boolean conjunctions and the boolean tests of the
    modelled code into propositions; [break_if] and [break_match] case-split
    on the next scrutinee. *)
Ltac split_and_bool :=
  repeat match goal with
  | H : (_ && _)%bool = true |- _ => apply andb_true_iff in H; destruct H
  | H : negb _ = true |- _ => apply negb_true_iff in H
  | H : negb _ = false |- _ => apply negb_false_iff in H
  | H : (_ || _)%bool = false |- _ => apply orb_false_iff in H; destruct H
  | H : str_eqb _ _ = true |- _ => apply str_eqb_eq in H
  | H : str_eqb _ _ = false |- _ => apply str_eqb_neq in H
  end.

Ltac break_if :=
  match goal with
  | |- context [if ?b then _ else _] => destruct b eqn:?
  | H : context [if ?b then _ else _] |- _ => destruct b eqn:?
  end.

Ltac break_match :=
  match goal with
  | |- context [match ?x with _ => _ end] => destruct x eqn:?
  | H : context [match ?x with _ => _ end] |- _ => destruct x eqn:?
  end.

Ltac break_match_hyp H :=
  match type of H with
  | context [match ?x with _ => _ end] => destruct x eqn:?
  end.

#[export] Hint Rewrite @result_bind_Ok str_eqb_refl : frontera.
#[export] Hint Resolve str_eqb_refl : frontera.

(** ** Lists as JavaScript arrays *)

(** [xs.every((x, index) => p(xs[index - 1], x))]: the checks of a list
    against its predecessor, [None] at index 0. *)
Fixpoint every_with_previous {A} (p : option A → A → bool) (previous : option A) (l : list A) : bool :=
  match l with
  | [] => true
  | x :: l => p previous x && every_with_previous p (Some x) l
  end.

(** [[...new Set(values)]]: first occurrences, in order. *)
Fixpoint nub `{EqDecision A} (l : list A) : list A :=
  match l with
  | [] => []
  | x :: l => x :: filter (λ y, y ≠ x) (nub l)
  end.

(** A [flatMap] that yields nothing. *)
Lemma bind_nil {A B} (f : A → list B) l : l ≫= f = [] ↔ Forall (λ x, f x = []) l.
Proof. induction l as [|x l IH]; cbn; [split; [constructor|done]|]. rewrite Forall_cons, <-IH, app_nil. done. Qed.

Lemma elem_of_nub `{EqDecision A} (x : A) l : x ∈ nub l ↔ x ∈ l.
Proof.
  induction l as [|y l IH]; simpl; [done|].
  rewrite !elem_of_cons, list_elem_of_filter, IH.
  destruct (decide (x = y)); naive_solver.
Qed.

Lemma NoDup_nub `{EqDecision A} (l : list A) : NoDup (nub l).
Proof.
  induction l as [|y l IH]; simpl; [constructor|].
  constructor; [|by apply NoDup_filter].
  rewrite list_elem_of_filter. naive_solver.
Qed.

Lemma nub_NoDup_id `{EqDecision A} (l : list A) : NoDup l → nub l = l.
Proof.
  induction 1 as [|x l Hx Hl IH]; simpl; [done|]. f_equal. rewrite IH.
  clear IH Hl. induction l as [|y l IH]; [done|].
  rewrite filter_cons. rewrite decide_True by set_solver.
  f_equal. apply IH. set_solver.
Qed.

(** [text.sort()] with no comparator: ascending code-unit order. *)
Definition sort_strings : list string → list string := merge_sort String.le.

Lemma sort_strings_perm l : sort_strings l ≡ₚ l.
Proof. apply merge_sort_Permutation. Qed.

Lemma sort_strings_sorted l : StronglySorted String.le (sort_strings l).
Proof. apply Sorted_StronglySorted; [apply _|]. apply Sorted_merge_sort, _. Qed.

Lemma sort_strings_unique l k : l ≡ₚ k → sort_strings l = sort_strings k.
Proof.
  intros H. apply (StronglySorted_unique String.le); try apply sort_strings_sorted.
  by rewrite !sort_strings_perm.
Qed.

Lemma elem_of_sort_strings x l : x ∈ sort_strings l ↔ x ∈ l.
Proof. by rewrite sort_strings_perm. Qed.

(** ** Lists strictly ascending by a key

    The canonical form of every keyed list in the repository: sorted by
    code-unit order without duplicates. *)

Definition slt (a b : string) : Prop := String.compare a b = Lt.

Lemma slt_iff a b : slt a b ↔ String.le a b ∧ a ≠ b.
Proof.
  unfold slt, String.le, String.leb. destruct (String.compare a b) eqn:E.
  - apply String.compare_eq_iff in E. naive_solver.
  - split; [|done]. intros _. split; [done|]. intros ->.
    pose proof (str_ltb_irrefl b) as H. unfold str_ltb, String.ltb in H. by rewrite E in H.
  - naive_solver.
Qed.

Global Instance slt_trans : Transitive slt.
Proof.
  intros a b c. rewrite !slt_iff. intros [H1 N1] [H2 N2]. split; [by etrans|].
  intros ->. apply N1. by apply (anti_symm String.le).
Qed.

Lemma slt_irrefl a : ¬ slt a a.
Proof. rewrite slt_iff. naive_solver. Qed.

Lemma strictly_sorted_NoDup l : StronglySorted slt l → NoDup l.
Proof.
  induction 1 as [|x l Hl IH Hx]; constructor; [|done]. intros Hin.
  rewrite Forall_forall in Hx. by apply (slt_irrefl x), Hx.
Qed.

Lemma sorted_NoDup_strict l : StronglySorted String.le l → NoDup l → StronglySorted slt l.
Proof.
  induction 1 as [|x l Hl IH Hx]; intros Hn; [constructor|]. inversion_clear Hn as [|?? Hni Hnd].
  constructor; [by apply IH|]. rewrite Forall_forall in Hx |- *. intros y Hy. apply slt_iff.
  split; [by apply Hx|]. by intros ->.
Qed.

Lemma strictly_sorted_unique l k : StronglySorted slt l → StronglySorted slt k → (∀ x, x ∈ l ↔ x ∈ k) → l = k.
Proof.
  intros Hl Hk Hx. assert (l ≡ₚ k) as Hp.
  { apply NoDup_Permutation; auto using strictly_sorted_NoDup. }
  apply (StronglySorted_unique_strong slt); [|done..].
  intros x y _ _ Hxy Hyx. exfalso. apply (slt_irrefl x). by trans y.
Qed.

Section Keyed.
Context {A : Type} (key : A → string).

Definition ascending_check (p : A → bool) (previous : option A) (x : A) : bool :=
  p x && match previous with None => true | Some q => bool_decide (String.compare (key q) (key x) = Lt) end.

Lemma every_with_previous_ascending p l :
  every_with_previous (ascending_check p) None l = true ↔
  Forall (λ x, p x = true) l ∧ StronglySorted slt (key <$> l).
Proof.
  assert (∀ previous, every_with_previous (ascending_check p) previous l = true ↔
    Forall (λ x, p x = true) l ∧ Sorted slt (key <$> l) ∧
    match previous with None => True | Some q => HdRel slt (key q) (key <$> l) end) as Hgen.
  { induction l as [|x l IH]; intros previous; cbn [every_with_previous].
    - split; [intros _|done]. split; [constructor|]. split; [constructor|]. destruct previous; [constructor|done].
    - unfold ascending_check at 1. rewrite !andb_true_iff, IH, Forall_cons. cbn [fmap list_fmap].
      destruct previous as [q|]; rewrite ?bool_decide_eq_true.
      + split.
        * intros [[??] (?&?&?)]. split; [done|]. split; [by constructor|]. by constructor.
        * intros ([??]&Hs&Hh). inversion_clear Hs. inversion_clear Hh. done.
      + split.
        * intros [[??] (?&?&?)]. split; [done|]. split; [by constructor|done].
        * intros ([??]&Hs&_). inversion_clear Hs. done. }
  rewrite (Hgen None). split.
  - intros (?&?&_). split; [done|]. by apply Sorted_StronglySorted; [apply _|].
  - intros (?&?). split; [done|]. split; [by apply StronglySorted_Sorted|done].
Qed.

Lemma find_key l d e :
  NoDup (key <$> l) → List.find (λ x, str_eqb (key x) d) l = Some e ↔ e ∈ l ∧ key e = d.
Proof.
  induction l as [|x l IH]; cbn; intros Hn.
  { split; [done|]. intros [H _]. by apply elem_of_nil in H. }
  apply NoDup_cons in Hn as [Hx Hn]. destruct (str_eqb (key x) d) eqn:E; split_and_bool.
  - split.
    + intros [= <-]. split; [left|done].
    + intros [[->|Hin]%elem_of_cons He]; [done|]. exfalso. apply Hx. rewrite E, <-He. by apply list_elem_of_fmap_2.
  - rewrite IH by done. rewrite elem_of_cons. naive_solver.
Qed.

Lemma find_key_None l d : List.find (λ x, str_eqb (key x) d) l = None ↔ d ∉ key <$> l.
Proof.
  induction l as [|x l IH]; cbn; [set_solver|]. destruct (str_eqb (key x) d) eqn:E; split_and_bool; set_solver.
Qed.

End Keyed.
