(* ===== verification/Decimal.v ===== *)
(** * Exact canonical decimals

    Model of [src/src/features/monetary-runtime/domain/canonical-decimal.ts]:
    the grammar of canonical decimal text, the boundary canonicalizer, and the
    [BigInt] coefficient/scale arithmetic. Texts are [string]s; the functions
    work on their code units. [BigInt] values are [Z] with truncating [/] and
    [%]. A thrown [RangeError] is [Throw RangeError]. The quantity a text
    denotes is the rational [dec_value]; the theorems relate every operation
    to it. *)

From Stdlib Require Import QArith.
From S2P Require Import Prelude.

Local Open Scope Z_scope.
Local Open Scope frontera_scope.

(** ** Characters and digit strings *)

Notation chars := String.list_ascii_of_string.
Notation text := String.string_of_list_ascii.

Definition POINT : ascii := "."%char.
Definition ZERO : ascii := "0"%char.

Definition code (c : ascii) : Z := Z.of_N (N_of_ascii c).
Definition is_digit (c : ascii) : bool := (48 <=? code c) && (code c <=? 57).
Definition is_nonzero_digit (c : ascii) : bool := (49 <=? code c) && (code c <=? 57).
Definition digit_value (c : ascii) : Z := code c - 48.
Definition digit_char (d : Z) : ascii := ascii_of_N (Z.to_N (d + 48)).

(** [BigInt(digits)] for a string of decimal digits. *)
Definition digits_value (l : list ascii) : Z := foldl (λ a c, 10 * a + digit_value c) 0 l.

(** [coefficient.toString()]: the decimal digits of a non-negative [BigInt],
    most significant first. [print_fuel n] steps always suffice. *)
Fixpoint print_digits (fuel : nat) (n : Z) (acc : list ascii) : list ascii :=
  match fuel with
  | O => acc
  | S fuel =>
      let acc := digit_char (Z.rem n 10) :: acc in
      if Z.quot n 10 =? 0 then acc else print_digits fuel (Z.quot n 10) acc
  end.
Definition print_fuel (n : Z) : nat := S (Z.to_nat (Z.log2 n)).
Definition bigint_to_string (n : Z) : list ascii :=
  if n <? 0 then "-"%char :: print_digits (print_fuel (- n)) (- n) []
  else print_digits (print_fuel n) n [].

(** ** The grammar *)

Definition MONETARY_DECIMAL_MAXIMUM_DIGITS : Z := 128.
Definition MONETARY_DECIMAL_MAXIMUM_TEXT_LENGTH : Z := 256.
Definition MAX_SAFE_INTEGER : Z := 9007199254740991.

(** [text.indexOf('.')], [None] for [-1]. *)
Fixpoint index_of_point (l : list ascii) : option nat :=
  match l with
  | [] => None
  | c :: l => if bool_decide (c = POINT) then Some O else S <$> index_of_point l
  end.

(** The integer part of both grammars: a lone zero, or a non-zero digit
    followed by digits. *)
Definition integer_part_ok (l : list ascii) : bool :=
  match l with
  | [] => false
  | c :: rest =>
      if bool_decide (c = ZERO) then match rest with [] => true | _ => false end
      else is_nonzero_digit c && forallb is_digit rest
  end.

(** The fraction of a canonical decimal: digits ending in a non-zero one. *)
Fixpoint canonical_fraction_ok (l : list ascii) : bool :=
  match l with
  | [] => false
  | [c] => is_nonzero_digit c
  | c :: rest => is_digit c && canonical_fraction_ok rest
  end.

(** The fraction of a plain decimal: one digit or more. *)
Definition plain_fraction_ok (l : list ascii) : bool :=
  match l with [] => false | _ => forallb is_digit l end.

(** [CANONICAL_DECIMAL.test(value)] *)
Definition canonical_grammar (l : list ascii) : bool :=
  match index_of_point l with
  | None => integer_part_ok l
  | Some p => integer_part_ok (take p l) && canonical_fraction_ok (drop (S p) l)
  end.

(** [PLAIN_DECIMAL.test(value)] *)
Definition plain_grammar (l : list ascii) : bool :=
  match index_of_point l with
  | None => integer_part_ok l
  | Some p => integer_part_ok (take p l) && plain_fraction_ok (drop (S p) l)
  end.

(** [text.replace('.', '').length] *)
Definition digitCount (l : list ascii) : Z :=
  Z.of_nat (length l) - (if index_of_point l then 1 else 0).

Definition isCanonicalDecimal (value : string) (maximumDigits : Z) : bool :=
  canonical_grammar (chars value) && (digitCount (chars value) <=? maximumDigits).

(** The [while] of [canonicalizeDecimalText]: [end] moves left over trailing
    fractional zeros, never past [point + 1]. *)
Fixpoint strip_end (l : list ascii) (point : nat) (e : nat) : nat :=
  match e with
  | O => O
  | S e' =>
      if (point + 1 <? e)%nat && bool_decide (l !! e' = Some ZERO)
      then strip_end l point e' else e
  end.

Definition canonicalizeDecimalText (value : string) : option string :=
  let l := chars value in
  let len := Z.of_nat (length l) in
  if (len =? 0) || (MONETARY_DECIMAL_MAXIMUM_TEXT_LENGTH <? len) then None
  else if negb (plain_grammar l) then None
  else
    let canonical :=
      match index_of_point l with
      | None => l
      | Some point =>
          let e := strip_end l point (length l) in
          if (e =? point + 1)%nat then take point l else take e l
      end in
    if isCanonicalDecimal (text canonical) MONETARY_DECIMAL_MAXIMUM_DIGITS
    then Some (text canonical) else None.

(** ** Exact arithmetic *)

Record ExactDecimal := { coefficient : Z; scale : nat }.

Definition parse_decimal (l : list ascii) : ExactDecimal :=
  match index_of_point l with
  | None => {| coefficient := digits_value l; scale := 0 |}
  | Some point =>
      {| coefficient := digits_value (take point l ++ drop (S point) l);
         scale := length l - point - 1 |}
  end.

(** The [while] of [format]: drops common factors of ten. *)
Fixpoint strip_scale (c : Z) (k : nat) : Z * nat :=
  match k with
  | O => (c, O)
  | S k' => if Z.rem c 10 =? 0 then strip_scale (Z.quot c 10) k' else (c, k)
  end.

(** [digits.padStart(n, '0')] *)
Definition pad_start (n : nat) (l : list ascii) : list ascii :=
  replicate (n - length l) ZERO ++ l.

Definition format_decimal (v : ExactDecimal) : list ascii :=
  let '(c, k) := strip_scale (coefficient v) (scale v) in
  if c =? 0 then [ZERO]
  else
    let digits := bigint_to_string c in
    if (k =? 0)%nat then digits
    else
      let padded := pad_start (k + 1) digits in
      take (length padded - k) padded ++ POINT :: drop (length padded - k) padded.

Definition align (l r : ExactDecimal) : Z * Z * nat :=
  let k := Nat.max (scale l) (scale r) in
  (coefficient l * 10 ^ Z.of_nat (k - scale l),
   coefficient r * 10 ^ Z.of_nat (k - scale r), k).

Inductive DecimalError := RangeError.

Definition requireCanonical (value : string) : result DecimalError unit :=
  if isCanonicalDecimal value MAX_SAFE_INTEGER then Ok tt else Throw RangeError.

Definition canonicalDecimalScale (value : string) : result DecimalError nat :=
  let* _ := requireCanonical value in
  Ok (match index_of_point (chars value) with
      | None => O
      | Some point => (length (chars value) - point - 1)%nat
      end).

Definition addCanonicalDecimals (left right : string) : result DecimalError string :=
  let* _ := requireCanonical left in
  let* _ := requireCanonical right in
  let '(a, b, k) := align (parse_decimal (chars left)) (parse_decimal (chars right)) in
  Ok (text (format_decimal {| coefficient := a + b; scale := k |})).

Definition subtractCanonicalDecimals (left right : string) : result DecimalError string :=
  let* _ := requireCanonical left in
  let* _ := requireCanonical right in
  let '(a, b, k) := align (parse_decimal (chars left)) (parse_decimal (chars right)) in
  if a <? b then Throw RangeError
  else Ok (text (format_decimal {| coefficient := a - b; scale := k |})).

Definition compareCanonicalDecimals (left right : string) : result DecimalError comparison :=
  let* _ := requireCanonical left in
  let* _ := requireCanonical right in
  let '(a, b, k) := align (parse_decimal (chars left)) (parse_decimal (chars right)) in
  Ok (if a <? b then Lt else if b <? a then Gt else Eq).

(** ** The quantity a text denotes *)

Definition exact_value (v : ExactDecimal) : Q := coefficient v # Z.to_pos (10 ^ Z.of_nat (scale v)).
Definition dec_value (s : string) : Q := exact_value (parse_decimal (chars s)).

Example add_ex : addCanonicalDecimals "0.1" "0.2" = Ok "0.3".
Proof. reflexivity. Qed.
Example add_ex2 : addCanonicalDecimals "9007199254740993.5" "0.5" = Ok "9007199254740994".
Proof. reflexivity. Qed.
Example canon_ex : canonicalizeDecimalText "10.50" = Some "10.5" ∧ canonicalizeDecimalText "1.00" = Some "1"
  ∧ canonicalizeDecimalText "01" = None ∧ canonicalizeDecimalText "1." = None.
Proof. repeat split; reflexivity. Qed.
Example cmp_ex : compareCanonicalDecimals "0.30" "0.3" = Throw RangeError ∧ compareCanonicalDecimals "0.31" "0.3" = Ok Gt.
Proof. split; reflexivity. Qed.

(** ** Digit strings: value and printing *)

Lemma is_digit_range c : is_digit c = true ↔ 0 ≤ digit_value c < 10.
Proof. unfold is_digit, digit_value. rewrite andb_true_iff, !Z.leb_le. lia. Qed.

Lemma is_nonzero_digit_range c : is_nonzero_digit c = true ↔ 1 ≤ digit_value c < 10.
Proof. unfold is_nonzero_digit, digit_value. rewrite andb_true_iff, !Z.leb_le. lia. Qed.

Lemma nonzero_is_digit c : is_nonzero_digit c = true → is_digit c = true.
Proof. rewrite is_nonzero_digit_range, is_digit_range. lia. Qed.

Lemma digit_value_inj c d : digit_value c = digit_value d → c = d.
Proof.
  unfold digit_value, code. intros H.
  assert (N_of_ascii c = N_of_ascii d) as E by lia.
  by rewrite <-(ascii_N_embedding c), E, ascii_N_embedding.
Qed.

Lemma digit_value_char d : 0 ≤ d < 10 → digit_value (digit_char d) = d.
Proof.
  intros H. unfold digit_value, digit_char, code.
  rewrite N_ascii_embedding by lia. lia.
Qed.

Lemma digit_value_zero : digit_value ZERO = 0.
Proof. reflexivity. Qed.

Lemma digits_value_app_aux l a :
  foldl (λ a c, 10 * a + digit_value c) a l = a * 10 ^ Z.of_nat (length l) + digits_value l.
Proof.
  unfold digits_value. revert a. induction l as [|c l IH]; intros a; cbn [foldl length].
  - rewrite Z.pow_0_r. lia.
  - rewrite (IH (10 * a + digit_value c)), (IH (10 * 0 + digit_value c)), Nat2Z.inj_succ, Z.pow_succ_r by lia. ring.
Qed.

Lemma digits_value_app l k :
  digits_value (l ++ k) = digits_value l * 10 ^ Z.of_nat (length k) + digits_value k.
Proof. unfold digits_value at 1. rewrite foldl_app. apply digits_value_app_aux. Qed.

Lemma digits_value_cons c l :
  digits_value (c :: l) = digit_value c * 10 ^ Z.of_nat (length l) + digits_value l.
Proof. change (c :: l) with ([c] ++ l). rewrite digits_value_app. cbn. ring_simplify. lia. Qed.

Lemma digits_value_snoc l c : digits_value (l ++ [c]) = 10 * digits_value l + digit_value c.
Proof. rewrite digits_value_app. cbn. lia. Qed.

Lemma pow10_pos n : 0 < 10 ^ Z.of_nat n.
Proof. apply Z.pow_pos_nonneg; lia. Qed.

Lemma pow10_S n : 10 ^ Z.of_nat (S n) = 10 * 10 ^ Z.of_nat n.
Proof. rewrite Nat2Z.inj_succ, Z.pow_succ_r by lia. done. Qed.

Definition all_digits (l : list ascii) : Prop := Forall (λ c, is_digit c = true) l.

Lemma forallb_all_digits l : forallb is_digit l = true ↔ all_digits l.
Proof. unfold all_digits. rewrite forallb_forall, Forall_forall. setoid_rewrite list_elem_of_In. done. Qed.

Lemma digits_value_bound l : all_digits l → 0 ≤ digits_value l < 10 ^ Z.of_nat (length l).
Proof.
  induction 1 as [|c l Hc Hl IH]; [cbn; lia|].
  rewrite digits_value_cons. cbn [length]. rewrite pow10_S. apply is_digit_range in Hc.
  pose proof (pow10_pos (length l)). nia.
Qed.

Lemma digits_value_inj_length l k :
  all_digits l → all_digits k → length l = length k → digits_value l = digits_value k → l = k.
Proof.
  intros Hl. revert k. induction Hl as [|c l Hc Hl IH]; intros k Hk Hlen Hv.
  { by destruct k. }
  destruct k as [|d k]; [done|]. apply Forall_cons in Hk as [Hd Hk].
  injection Hlen as Hlen. rewrite !digits_value_cons, Hlen in Hv.
  pose proof (digits_value_bound l Hl). pose proof (digits_value_bound k Hk).
  rewrite Hlen in *. pose proof (pow10_pos (length k)).
  assert (digit_value c = digit_value d) as E by nia.
  f_equal; [by apply digit_value_inj|]. apply IH; auto. nia.
Qed.

(** *** Integer parts without leading zeros *)

Lemma integer_part_ok_inv l :
  integer_part_ok l = true ↔
    l = [ZERO] ∨ ∃ c r, l = c :: r ∧ is_nonzero_digit c = true ∧ all_digits r.
Proof.
  destruct l as [|c r]; cbn; [naive_solver|]. case_bool_decide as E.
  - subst c. destruct r.
    + naive_solver.
    + split; [done|]. intros [?|(?&?&[= <- <-]&?&?)]; done.
  - rewrite andb_true_iff, forallb_all_digits. naive_solver.
Qed.

Lemma integer_part_digits l : integer_part_ok l = true → all_digits l.
Proof.
  rewrite integer_part_ok_inv. intros [->|(c&r&->&Hc&Hr)].
  - by repeat constructor.
  - constructor; [by apply nonzero_is_digit|done].
Qed.

Lemma integer_part_length l :
  integer_part_ok l = true →
  (l = [ZERO] ∧ digits_value l = 0) ∨ 10 ^ (Z.of_nat (length l) - 1) ≤ digits_value l ∧ 1 ≤ digits_value l.
Proof.
  rewrite integer_part_ok_inv. intros [->|(c&r&->&Hc&Hr)]; [by left|]. right.
  rewrite digits_value_cons. cbn [length]. apply is_nonzero_digit_range in Hc.
  pose proof (digits_value_bound r Hr). pose proof (pow10_pos (length r)).
  replace (Z.of_nat (S (length r)) - 1) with (Z.of_nat (length r)) by lia. nia.
Qed.

Lemma integer_part_inj l k :
  integer_part_ok l = true → integer_part_ok k = true → digits_value l = digits_value k → l = k.
Proof.
  intros Hl Hk Hv. pose proof (integer_part_digits _ Hl) as Dl. pose proof (integer_part_digits _ Hk) as Dk.
  destruct (integer_part_length l Hl) as [[-> Vl]|[Bl Pl]], (integer_part_length k Hk) as [[-> Vk]|[Bk Pk]];
    try done; try lia.
  apply digits_value_inj_length; auto.
  pose proof (digits_value_bound l Dl). pose proof (digits_value_bound k Dk).
  destruct (Nat.lt_trichotomy (length l) (length k)) as [L|[L|L]]; [exfalso|done|exfalso].
  - assert (10 ^ Z.of_nat (length l) ≤ 10 ^ (Z.of_nat (length k) - 1)) by (apply Z.pow_le_mono_r; lia). lia.
  - assert (10 ^ Z.of_nat (length k) ≤ 10 ^ (Z.of_nat (length l) - 1)) by (apply Z.pow_le_mono_r; lia). lia.
Qed.

(** *** Printing *)

Lemma print_digits_app fuel n acc : print_digits fuel n acc = print_digits fuel n [] ++ acc.
Proof.
  revert n acc. induction fuel as [|fuel IH]; intros n acc; cbn; [done|]. break_if; [done|].
  rewrite IH, (IH _ [_]), <-app_assoc. done.
Qed.

Lemma print_digits_spec fuel n :
  0 < n < 10 ^ Z.of_nat fuel →
  integer_part_ok (print_digits fuel n []) = true ∧ print_digits fuel n [] ≠ [ZERO] ∧
  digits_value (print_digits fuel n []) = n.
Proof.
  revert n. induction fuel as [|fuel IH]; intros n Hn.
  { cbn in Hn. lia. }
  rewrite pow10_S in Hn. cbn [print_digits]. rewrite Z.rem_mod_nonneg, Z.quot_div_nonneg by lia.
  pose proof (Z.mod_pos_bound n 10 ltac:(lia)) as Hr. pose proof (Z.div_mod n 10 ltac:(lia)) as Hdm.
  set (d := digit_char (n mod 10)).
  assert (digit_value d = n mod 10) as Vd by (by apply digit_value_char).
  break_if.
  - assert (n / 10 = 0) by lia.
    assert (is_nonzero_digit d = true) by (apply is_nonzero_digit_range; lia).
    assert (d ≠ ZERO) as Hd by (intros E; rewrite E, digit_value_zero in Vd; lia).
    split; [|split].
    + apply integer_part_ok_inv. right. exists d, []. repeat split; [done..|constructor].
    + intros [=]; done.
    + rewrite digits_value_cons. cbn. lia.
  - destruct (IH (n / 10)) as (Hi & Hz & Hv); [lia|].
    rewrite print_digits_app. split; [|split].
    + apply integer_part_ok_inv in Hi as [?|(c&r&E&Hc&Hr')]; [done|].
      apply integer_part_ok_inv. right. exists c, (r ++ [d]). rewrite E. split; [done|]. split; [done|].
      apply Forall_app. split; [done|]. constructor; [|constructor]. apply is_digit_range. lia.
    + destruct (print_digits fuel (n / 10) []) as [|? [|]]; done.
    + rewrite digits_value_snoc. lia.
Qed.

Lemma bigint_to_string_spec n :
  0 ≤ n → integer_part_ok (bigint_to_string n) = true ∧ digits_value (bigint_to_string n) = n.
Proof.
  intros Hn. unfold bigint_to_string. destruct (Z.ltb_spec n 0); [lia|].
  destruct (decide (n = 0)) as [->|Hz]; [done|].
  destruct (print_digits_spec (print_fuel n) n) as (?&?&?); [|done].
  split; [lia|]. unfold print_fuel. rewrite Nat2Z.inj_succ, Z2Nat.id by apply Z.log2_nonneg.
  pose proof (Z.log2_spec n ltac:(lia)). pose proof (Z.log2_nonneg n).
  assert (2 ^ Z.succ (Z.log2 n) ≤ 10 ^ Z.succ (Z.log2 n)) by (apply Z.pow_le_mono_l; lia). lia.
Qed.

(** ** The shape of canonical text

    Every canonical text is [render i f]: an integer part without leading
    zeros and a fraction that is empty or ends in a non-zero digit. *)

Definition render (i f : list ascii) : list ascii :=
  match f with [] => i | _ => i ++ POINT :: f end.
Definition fraction_canonical (f : list ascii) : Prop := f = [] ∨ canonical_fraction_ok f = true.
Definition shape (i f : list ascii) : Prop := integer_part_ok i = true ∧ fraction_canonical f.

Lemma canonical_fraction_inv f :
  canonical_fraction_ok f = true ↔ ∃ g c, f = g ++ [c] ∧ all_digits g ∧ is_nonzero_digit c = true.
Proof.
  induction f as [|c f IH]; cbn.
  - split; [done|]. intros (g&c&E&_). by destruct g.
  - destruct f as [|d f].
    + split; [intros H; exists [], c; split; [done|]; by split; [constructor|]|].
      intros (g&c'&E&_&H). destruct g as [|? [|]]; naive_solver.
    + rewrite andb_true_iff, IH. split.
      * intros (Hc&g&e&->&Hg&He). exists (c :: g), e. by split; [|split; [constructor|]].
      * intros (g&e&E&Hg&He). destruct g as [|x g]; [done|]. injection E as -> E.
        apply Forall_cons in Hg as [??]. split; [done|]. exists g, e. by rewrite E.
Qed.

Lemma fraction_digits f : fraction_canonical f → all_digits f.
Proof.
  intros [->|H]; [constructor|]. apply canonical_fraction_inv in H as (g&c&->&Hg&Hc).
  apply Forall_app. split; [done|]. constructor; [by apply nonzero_is_digit|constructor].
Qed.

Lemma fraction_canonical_mod i f :
  fraction_canonical f → f ≠ [] → digits_value (i ++ f) mod 10 ≠ 0.
Proof.
  intros [->|H] Hne; [done|]. apply canonical_fraction_inv in H as (g&c&->&Hg&Hc).
  rewrite app_assoc, digits_value_snoc, Z.add_comm, Z.mul_comm, Z.mod_add by lia.
  apply is_nonzero_digit_range in Hc. rewrite Z.mod_small; lia.
Qed.

Lemma digits_no_point l : all_digits l → index_of_point l = None.
Proof.
  induction 1 as [|c l Hc _ IH]; cbn; [done|]. rewrite bool_decide_false, IH; [done|]. by intros ->.
Qed.

Lemma index_of_point_app i f : all_digits i → index_of_point (i ++ POINT :: f) = Some (length i).
Proof.
  induction 1 as [|c l Hc _ IH]; cbn; [done|]. rewrite bool_decide_false, IH; [done|]. by intros ->.
Qed.

Lemma index_of_point_split l p :
  index_of_point l = Some p → l = take p l ++ POINT :: drop (S p) l.
Proof.
  revert p. induction l as [|c l IH]; intros p; cbn; [done|]. case_bool_decide as E.
  - intros [= <-]. by subst.
  - intros H. apply fmap_Some in H as (q&Hq&->). cbn. f_equal. by apply IH.
Qed.

Lemma render_index i f :
  all_digits i → all_digits f →
  index_of_point (render i f) = if f is [] then None else Some (length i).
Proof.
  intros Hi Hf. destruct f; cbn; [by apply digits_no_point|by apply index_of_point_app].
Qed.

Lemma canonical_grammar_inv l :
  canonical_grammar l = true ↔ ∃ i f, l = render i f ∧ shape i f.
Proof.
  unfold canonical_grammar. split.
  - destruct (index_of_point l) as [p|] eqn:E.
    + rewrite andb_true_iff. intros [Hi Hf]. exists (take p l), (drop (S p) l).
      split; [|split; [done|by right]].
      unfold render. destruct (drop (S p) l) eqn:Ed; [done|]. rewrite <-Ed. by apply index_of_point_split.
    + intros Hi. exists l, []. split; [done|]. split; [done|by left].
  - intros (i&f&->&Hi&Hf). pose proof (integer_part_digits _ Hi). pose proof (fraction_digits _ Hf).
    rewrite render_index by done. destruct f as [|c f]; cbn; [done|].
    rewrite take_app_length, andb_true_iff. split; [done|].
    replace (S (length i)) with (length (i ++ [POINT])) by (rewrite length_app; cbn; lia).
    change (i ++ POINT :: c :: f) with (i ++ [POINT] ++ c :: f). rewrite app_assoc, drop_app_length.
    by destruct Hf.
Qed.

Lemma parse_render i f :
  all_digits i → all_digits f →
  parse_decimal (render i f) = {| coefficient := digits_value (i ++ f); scale := length f |}.
Proof.
  intros Hi Hf. unfold parse_decimal. rewrite render_index by done.
  destruct f as [|c f]; cbn [render]; [by rewrite app_nil_r|].
  rewrite take_app_length.
  replace (S (length i)) with (length (i ++ [POINT])) at 1 by (rewrite length_app; cbn; lia).
  change (i ++ POINT :: c :: f) with (i ++ [POINT] ++ c :: f) at 1. rewrite app_assoc, drop_app_length.
  f_equal. rewrite length_app. cbn. lia.
Qed.

(** ** Equality of quantities at the level of coefficients *)

Lemma exact_value_eq v w :
  (exact_value v == exact_value w)%Q ↔
  coefficient v * 10 ^ Z.of_nat (scale w) = coefficient w * 10 ^ Z.of_nat (scale v).
Proof.
  unfold exact_value, Qeq. cbn [Qnum Qden]. rewrite !Z2Pos.id by apply pow10_pos. done.
Qed.

Lemma scaled_too_fine (x y : Z) (k m : nat) :
  x * 10 ^ Z.of_nat m = y * 10 ^ Z.of_nat k → (k < m)%nat → y mod 10 = 0.
Proof.
  intros E L. assert (y = x * 10 ^ Z.of_nat (m - k - 1) * 10) as ->; [|apply Z.mod_mul; lia].
  apply (Z.mul_cancel_r _ _ (10 ^ Z.of_nat k)); [pose proof (pow10_pos k); lia|].
  rewrite <-E. replace m with (S (m - k - 1) + k)%nat at 1 by lia.
  rewrite Nat2Z.inj_add, Z.pow_add_r, pow10_S by lia. ring.
Qed.

Lemma scaled_unique (a b : Z) (k m : nat) :
  a * 10 ^ Z.of_nat m = b * 10 ^ Z.of_nat k →
  (k = O ∨ a mod 10 ≠ 0) → (m = O ∨ b mod 10 ≠ 0) → k = m ∧ a = b.
Proof.
  intros E Ha Hb. destruct (Nat.lt_trichotomy k m) as [L|[->|L]].
  - exfalso. destruct Hb as [->|Hb]; [lia|]. apply Hb. by eapply scaled_too_fine.
  - split; [done|]. pose proof (pow10_pos m). nia.
  - exfalso. destruct Ha as [->|Ha]; [lia|]. apply Ha. by eapply scaled_too_fine.
Qed.

Lemma shape_unique i f i' f' :
  shape i f → shape i' f' →
  digits_value (i ++ f) * 10 ^ Z.of_nat (length f') = digits_value (i' ++ f') * 10 ^ Z.of_nat (length f) →
  i = i' ∧ f = f'.
Proof.
  intros [Hi Hf] [Hi' Hf'] E.
  destruct (scaled_unique _ _ (length f) (length f') E) as [El Ev].
  { destruct (decide (f = [])) as [->|]; [by left|]. right. by apply fraction_canonical_mod. }
  { destruct (decide (f' = [])) as [->|]; [by left|]. right. by apply fraction_canonical_mod. }
  pose proof (digits_value_bound f (fraction_digits _ Hf)).
  pose proof (digits_value_bound f' (fraction_digits _ Hf')).
  rewrite !digits_value_app, El in Ev. rewrite El in *. pose proof (pow10_pos (length f')).
  assert (digits_value i = digits_value i') by nia.
  split; [by apply integer_part_inj|].
  apply digits_value_inj_length; [by apply fraction_digits..|done|nia].
Qed.

Lemma canonical_text_unique_aux (l k : list ascii) :
  canonical_grammar l = true → canonical_grammar k = true →
  (exact_value (parse_decimal l) == exact_value (parse_decimal k))%Q → l = k.
Proof.
  rewrite !canonical_grammar_inv. intros (i&f&->&Hs) (i'&f'&->&Hs').
  pose proof Hs as [Hi Hf]. pose proof Hs' as [Hi' Hf'].
  rewrite !parse_render by (by auto using integer_part_digits, fraction_digits).
  rewrite exact_value_eq. cbn. intros E. by destruct (shape_unique i f i' f' Hs Hs' E) as [-> ->].
Qed.

(** ** Formatting *)

Lemma strip_scale_spec c k :
  0 ≤ c →
  let '(c', k') := strip_scale c k in
  0 ≤ c' ∧ c' * 10 ^ Z.of_nat k = c * 10 ^ Z.of_nat k' ∧ (k' = O ∨ c' mod 10 ≠ 0).
Proof.
  revert c. induction k as [|k IH]; intros c Hc; cbn [strip_scale].
  { split; [done|]. split; [done|by left]. }
  rewrite Z.rem_mod_nonneg, Z.quot_div_nonneg by lia.
  destruct (Z.eqb_spec (c mod 10) 0) as [E|E].
  - specialize (IH (c / 10) ltac:(apply Z.div_pos; lia)).
    destruct (strip_scale (c / 10) k) as [c' k']. destruct IH as (?&IH&?).
    split; [done|]. split; [|done]. rewrite pow10_S.
    replace c with (10 * (c / 10)) by (pose proof (Z.div_mod c 10); lia). nia.
  - split; [done|]. split; [done|by right].
Qed.

Lemma digits_value_replicate_zero n l : digits_value (replicate n ZERO ++ l) = digits_value l.
Proof.
  induction n as [|n IH]; [done|]. cbn [replicate]. rewrite <-app_comm_cons, digits_value_cons.
  rewrite digit_value_zero, IH. lia.
Qed.

Lemma all_digits_replicate n : all_digits (replicate n ZERO).
Proof. apply Forall_replicate. done. Qed.

Lemma fraction_of_digits f :
  f ≠ [] → all_digits f → digits_value f mod 10 ≠ 0 → fraction_canonical f.
Proof.
  intros Hne Hf Hm. right. apply canonical_fraction_inv.
  destruct (exists_last Hne) as (g&c&->). apply Forall_app in Hf as [Hg Hc].
  exists g, c. split; [done|]. split; [done|].
  apply Forall_inv, is_digit_range in Hc. apply is_nonzero_digit_range.
  rewrite digits_value_snoc, Z.add_comm, Z.mul_comm, Z.mod_add in Hm by lia.
  rewrite Z.mod_small in Hm; lia.
Qed.

(** The padded digits, cut [k] digits from the right, are an integer part
    followed by [k] digits. *)
Lemma padded_split c k (padded := pad_start (k + 1) (bigint_to_string c))
  (i := take (length padded - k) padded) (f := drop (length padded - k) padded) :
  0 < c → (0 < k)%nat → c mod 10 ≠ 0 →
  shape i f ∧ length f = k ∧ digits_value (i ++ f) = c ∧ f ≠ [].
Proof.
  intros Hc Hk Hm. destruct (bigint_to_string_spec c ltac:(lia)) as [Hok Hv].
  pose proof (integer_part_digits _ Hok) as Hd.
  assert (all_digits padded) as Hp by (apply Forall_app; split; [apply all_digits_replicate|done]).
  assert (k + 1 ≤ length padded)%nat as Hlen.
  { unfold padded, pad_start. rewrite length_app, length_replicate. lia. }
  assert (length f = k) as Hf by (unfold f; rewrite length_drop; lia).
  assert (i ++ f = padded) as Eif by apply take_drop.
  assert (digits_value (i ++ f) = c) as Vif.
  { rewrite Eif. unfold padded, pad_start. by rewrite digits_value_replicate_zero. }
  rewrite <-Eif in Hp. apply Forall_app in Hp as [Hi Hfd].
  assert (f ≠ []) as Hne by (intros E; rewrite E in Hf; cbn in Hf; lia).
  split; [|done]. split.
  - unfold i, padded, pad_start. rewrite length_app, length_replicate.
    destruct (Nat.le_gt_cases (k + 1) (length (bigint_to_string c))) as [L|L].
    + replace (k + 1 - length (bigint_to_string c))%nat with O by lia. cbn [replicate app].
      apply integer_part_ok_inv in Hok as [E|(d&r&E&Hnz&Hr)].
      { rewrite E in L. cbn in L. lia. }
      rewrite E in *. cbn [length] in *.
      replace (0 + S (length r) - k)%nat with (S (length r - k)) by lia. cbn [take].
      apply integer_part_ok_inv. right. exists d, (take (length r - k) r).
      split; [done|]. split; [done|]. by apply Forall_take.
    + replace (k + 1 - length (bigint_to_string c) + length (bigint_to_string c) - k)%nat with 1%nat by lia.
      replace (k + 1 - length (bigint_to_string c))%nat with (S (k - length (bigint_to_string c))) by lia.
      done.
  - apply fraction_of_digits; [done..|].
    intros E. apply Hm. rewrite <-Vif, digits_value_app, Hf.
    replace k with (S (k - 1)) by lia. rewrite pow10_S, Z.add_comm.
    replace (digits_value i * (10 * 10 ^ Z.of_nat (k - 1))) with (digits_value i * 10 ^ Z.of_nat (k - 1) * 10) by ring.
    by rewrite Z.mod_add by lia.
Qed.

Lemma format_spec v :
  0 ≤ coefficient v →
  canonical_grammar (format_decimal v) = true ∧
  (exact_value (parse_decimal (format_decimal v)) == exact_value v)%Q.
Proof.
  intros Hc. assert (∃ i f, format_decimal v = render i f ∧ shape i f ∧
    digits_value (i ++ f) * 10 ^ Z.of_nat (scale v) = coefficient v * 10 ^ Z.of_nat (length f))
    as (i&f&E&Hs&Hv).
  { unfold format_decimal. pose proof (strip_scale_spec (coefficient v) (scale v) Hc) as H.
    destruct (strip_scale (coefficient v) (scale v)) as [c k]. destruct H as (Hc'&Hv&Hk).
    destruct (Z.eqb_spec c 0) as [->|Hz].
    - exists [ZERO], []. split; [done|]. split; [split; [done|by left]|].
      rewrite Z.mul_0_l in Hv. symmetry in Hv. apply Z.mul_eq_0 in Hv. pose proof (pow10_pos k).
      destruct Hv as [->|]; [done|lia].
    - destruct (Nat.eqb_spec k 0) as [->|Hk0].
      + exists (bigint_to_string c), []. destruct (bigint_to_string_spec c Hc') as [Hi Hd].
        split; [done|]. split; [split; [done|by left]|]. by rewrite app_nil_r, Hd.
      + destruct Hk as [?|Hm]; [done|].
        destruct (padded_split c k) as (Hs&Hl&Hd&Hne); [lia..|done|].
        eexists _, _. split; [|split; [exact Hs|]].
        * unfold render. by destruct (drop _ _) eqn:?.
        * by rewrite Hd, Hl. }
  rewrite E. split; [apply canonical_grammar_inv; eauto|].
  destruct Hs as [Hi Hf]. rewrite parse_render by auto using integer_part_digits, fraction_digits.
  by apply exact_value_eq.
Qed.

(** ** Alignment *)

Lemma canonical_coefficient_nonneg l : canonical_grammar l = true → 0 ≤ coefficient (parse_decimal l).
Proof.
  rewrite canonical_grammar_inv. intros (i&f&->&Hi&Hf).
  rewrite parse_render by auto using integer_part_digits, fraction_digits. cbn.
  apply digits_value_bound, Forall_app. split; [by apply integer_part_digits|by apply fraction_digits].
Qed.

Lemma aligned_value v k :
  (scale v ≤ k)%nat →
  (exact_value v == coefficient v * 10 ^ Z.of_nat (k - scale v) # Z.to_pos (10 ^ Z.of_nat k))%Q.
Proof.
  intros Hk. unfold exact_value, Qeq. cbn [Qnum Qden]. rewrite !Z2Pos.id by apply pow10_pos.
  replace k with (k - scale v + scale v)%nat at 1 by lia. rewrite Nat2Z.inj_add, Z.pow_add_r by lia. ring.
Qed.

Lemma Qplus_same_den a b d : ((a # d) + (b # d) == a + b # d)%Q.
Proof. unfold Qeq, Qplus. cbn [Qnum Qden]. rewrite Pos2Z.inj_mul. ring. Qed.

Lemma Qminus_same_den a b d : ((a # d) - (b # d) == a - b # d)%Q.
Proof. unfold Qeq, Qminus, Qplus, Qopp. cbn [Qnum Qden]. rewrite Pos2Z.inj_mul. ring. Qed.

Lemma Qcompare_same_den a b d : Qcompare (a # d) (b # d) = Z.compare a b.
Proof. unfold Qcompare. cbn [Qnum Qden].
  destruct (Z.compare_spec a b) as [->|L|L].
  - apply Z.compare_refl.
  - apply Z.compare_lt_iff. nia.
  - apply Z.compare_gt_iff. nia.
Qed.

Lemma requireCanonical_Ok s u : requireCanonical s = Ok u ↔ isCanonicalDecimal s MAX_SAFE_INTEGER = true.
Proof. unfold requireCanonical. destruct u, (isCanonicalDecimal _ _); naive_solver. Qed.

Lemma requireCanonical_spec s :
  requireCanonical s = if isCanonicalDecimal s MAX_SAFE_INTEGER then Ok tt else Throw RangeError.
Proof. done. Qed.

Lemma chars_text l : chars (text l) = l.
Proof. apply String.list_ascii_of_string_of_list_ascii. Qed.
Lemma text_chars s : text (chars s) = s.
Proof. apply String.string_of_list_ascii_of_string. Qed.
#[export] Hint Rewrite chars_text text_chars : frontera.

Lemma isCanonicalDecimal_grammar s m : isCanonicalDecimal s m = true → canonical_grammar (chars s) = true.
Proof. unfold isCanonicalDecimal. intros. by split_and_bool. Qed.

(** ** Boundary canonicalization *)

Lemma strip_end_spec l p e :
  (p < e)%nat →
  (p + 1 ≤ strip_end l p e ≤ e)%nat ∧
  (strip_end l p e = (p + 1)%nat ∨ l !! (strip_end l p e - 1)%nat ≠ Some ZERO) ∧
  (∀ j, (strip_end l p e ≤ j < e)%nat → l !! j = Some ZERO).
Proof.
  induction e as [|e IH]; intros Hp; [lia|]. cbn [strip_end].
  destruct (Nat.ltb_spec (p + 1) (S e)) as [L|L]; cbn [andb].
  - case_bool_decide as E.
    + destruct IH as (?&?&Hj); [lia|]. split; [lia|]. split; [done|].
      intros j Hjr. destruct (decide (j = e)) as [->|]; [done|]. apply Hj. lia.
    + split; [lia|]. split; [right|intros; lia]. by replace (S e - 1)%nat with e by lia.
  - split; [lia|]. split; [left; lia|intros; lia].
Qed.

Lemma trailing_zeros (f : list ascii) (m : nat) :
  (m ≤ length f)%nat → (∀ j, (m ≤ j < length f)%nat → f !! j = Some ZERO) →
  f = take m f ++ replicate (length f - m) ZERO.
Proof.
  intros Hm Hj. rewrite <-(take_drop m f) at 1. f_equal.
  apply list_eq. intros n. rewrite lookup_drop.
  destruct (decide (n < length f - m)%nat).
  - rewrite Hj by lia. by rewrite lookup_replicate_2.
  - rewrite lookup_ge_None_2 by lia. symmetry. apply lookup_replicate_None. lia.
Qed.

(** The text [canonicalizeDecimalText] rewrites a plain decimal to, before the
    digit-count check. *)
Definition drop_trailing_zeros (l : list ascii) : list ascii :=
  match index_of_point l with
  | None => l
  | Some point =>
      let e := strip_end l point (length l) in
      if (e =? point + 1)%nat then take point l else take e l
  end.

Lemma plain_grammar_inv l :
  plain_grammar l = true ↔
  ∃ i f, integer_part_ok i = true ∧ all_digits f ∧ l = render i f.
Proof.
  unfold plain_grammar. split.
  - destruct (index_of_point l) as [p|] eqn:E.
    + rewrite andb_true_iff. intros [Hi Hf]. exists (take p l), (drop (S p) l).
      assert (all_digits (drop (S p) l)) by (apply forallb_all_digits; by destruct (drop (S p) l)).
      split; [done|]. split; [done|]. unfold render. destruct (drop (S p) l) eqn:Ed; [done|].
      rewrite <-Ed. by apply index_of_point_split.
    + intros Hi. exists l, []. split; [done|]. split; [constructor|done].
  - intros (i&f&Hi&Hf&->). pose proof (integer_part_digits _ Hi).
    rewrite render_index by done. destruct f as [|c f]; cbn; [done|].
    rewrite take_app_length, andb_true_iff. split; [done|].
    replace (S (length i)) with (length (i ++ [POINT])) by (rewrite length_app; cbn; lia).
    change (i ++ POINT :: c :: f) with (i ++ [POINT] ++ c :: f). rewrite app_assoc, drop_app_length.
    unfold plain_fraction_ok. by apply forallb_all_digits.
Qed.

Lemma nonzero_last (f : list ascii) m :
  all_digits f → (0 < m ≤ length f)%nat → f !! (m - 1)%nat ≠ Some ZERO → fraction_canonical (take m f).
Proof.
  intros Hf Hm Hz. right. apply canonical_fraction_inv.
  destruct (lookup_lt_is_Some_2 f (m - 1)) as [c Hc]; [lia|].
  exists (take (m - 1) f), c. split; [|split; [by apply Forall_take|]].
  - replace m with (S (m - 1)) at 1 by lia. by apply take_S_r.
  - assert (is_digit c = true) as Hd by (eapply (Forall_lookup_1 _ _ _ _ Hf Hc)).
    apply is_digit_range in Hd. apply is_nonzero_digit_range.
    assert (digit_value c ≠ 0); [|lia].
    intros E. apply Hz. rewrite Hc. f_equal. by apply digit_value_inj.
Qed.

Lemma drop_trailing_zeros_spec l :
  plain_grammar l = true →
  canonical_grammar (drop_trailing_zeros l) = true ∧
  (exact_value (parse_decimal (drop_trailing_zeros l)) == exact_value (parse_decimal l))%Q.
Proof.
  rewrite plain_grammar_inv. intros (i&f&Hi&Hf&->). pose proof (integer_part_digits _ Hi) as Di.
  destruct (decide (f = [])) as [->|Hne].
  { unfold drop_trailing_zeros. rewrite render_index by done. split; [|done].
    apply canonical_grammar_inv. exists i, []. split; [done|]. split; [done|by left]. }
  assert (∃ m, (m ≤ length f)%nat ∧ drop_trailing_zeros (render i f) = render i (take m f) ∧
    fraction_canonical (take m f) ∧ (∀ j, (m ≤ j < length f)%nat → f !! j = Some ZERO))
    as (m&Hm&->&Hc&Hj).
  { unfold drop_trailing_zeros. rewrite render_index by done.
    destruct f as [|c0 f0] eqn:Ef; [done|]. rewrite <-Ef in *. clear c0 f0 Ef.
    assert (render i f = i ++ [POINT] ++ f) as El by (unfold render; by destruct f).
    rewrite El. set (l := i ++ [POINT] ++ f).
    assert (length l = length i + 1 + length f)%nat as Hlen.
    { unfold l. rewrite !length_app. cbn. lia. }
    assert (∀ j, l !! (length i + 1 + j)%nat = f !! j) as Hl.
    { intros j. unfold l. rewrite app_assoc, lookup_app_r; rewrite length_app; cbn; [f_equal|]; lia. }
    destruct (strip_end_spec l (length i) (length l)) as (Hr&Hz&Hj); [lia|].
    set (e := strip_end l (length i) (length l)) in *.
    exists (e - (length i + 1))%nat. split; [lia|]. split; [|split].
    - destruct (Nat.eqb_spec e (length i + 1)) as [->|Hn].
      + rewrite Nat.sub_diag. unfold l. by rewrite take_app_length.
      + unfold l. rewrite app_assoc, take_app_ge; rewrite length_app; cbn; [|lia].
        rewrite <-app_assoc. unfold render. destruct (take _ f) eqn:Et; [|done].
        apply (f_equal length) in Et. rewrite length_take in Et. cbn in Et. lia.
    - destruct (decide (e = length i + 1)%nat) as [->|Hn]; [rewrite Nat.sub_diag; by left|].
      destruct Hz as [?|Hz]; [lia|]. apply nonzero_last; [done|lia|].
      rewrite <-Hl. by replace (length i + 1 + (e - (length i + 1) - 1))%nat with (e - 1)%nat by lia.
    - intros j ?. rewrite <-Hl. apply Hj. lia. }
  split; [apply canonical_grammar_inv; exists i, (take m f); done|].
  rewrite !parse_render by (done || by apply Forall_take).
  apply exact_value_eq. cbn [coefficient scale].
  assert (digits_value (i ++ f) = digits_value (i ++ take m f) * 10 ^ Z.of_nat (length f - m)) as ->.
  { rewrite (trailing_zeros f m Hm Hj) at 1.
    rewrite app_assoc, (digits_value_app (i ++ take m f)), length_replicate.
    rewrite <-(app_nil_r (replicate _ _)), digits_value_replicate_zero. cbn [digits_value foldl]. ring. }
  rewrite length_take_le by done. replace (length f) with (length f - m + m)%nat at 1 by lia.
  rewrite Nat2Z.inj_add, Z.pow_add_r by lia. ring.
Qed.

(** ** Scales *)

(** A quantity an asset of [k] fractional digits can represent exactly. *)
Definition representable (q : Q) (k : Z) : Prop := ∃ n : Z, (q == n # Z.to_pos (10 ^ k))%Q.

Lemma canonicalDecimalScale_Ok s :
  isCanonicalDecimal s MAX_SAFE_INTEGER = true →
  canonicalDecimalScale s = Ok (scale (parse_decimal (chars s))).
Proof.
  intros H. unfold canonicalDecimalScale. rewrite requireCanonical_spec, H. cbn.
  unfold parse_decimal. by destruct (index_of_point _).
Qed.

Lemma isCanonicalDecimal_weaken s m n : m ≤ n → isCanonicalDecimal s m = true → isCanonicalDecimal s n = true.
Proof.
  unfold isCanonicalDecimal. intros L H. split_and_bool. apply andb_true_iff. split; [done|].
  rewrite Z.leb_le in *. lia.
Qed.

Lemma isCanonicalDecimal_safe s :
  isCanonicalDecimal s MONETARY_DECIMAL_MAXIMUM_DIGITS = true → isCanonicalDecimal s MAX_SAFE_INTEGER = true.
Proof. apply isCanonicalDecimal_weaken. unfold MONETARY_DECIMAL_MAXIMUM_DIGITS, MAX_SAFE_INTEGER. lia. Qed.

Lemma representable_scale s k :
  canonical_grammar (chars s) = true →
  representable (dec_value s) (Z.of_nat k) ↔ (scale (parse_decimal (chars s)) ≤ k)%nat.
Proof.
  intros Hc. unfold representable, dec_value. split.
  - apply canonical_grammar_inv in Hc as (i&f&E&Hi&Hf). rewrite E.
    rewrite parse_render by auto using integer_part_digits, fraction_digits.
    intros [n Hn]. change (exact_value {| coefficient := digits_value (i ++ f); scale := length f |} ==
      exact_value {| coefficient := n; scale := k |})%Q in Hn. apply exact_value_eq in Hn. cbn in *.
    destruct (Nat.le_gt_cases (length f) k) as [L|L]; [done|exfalso].
    apply (fraction_canonical_mod i f Hf); [intros ->; cbn in L; lia|].
    by eapply scaled_too_fine.
  - intros L. eexists. apply aligned_value, L.
Qed.

Lemma compareCanonicalDecimals_eq (a b : string) :
  compareCanonicalDecimals a b =
  if isCanonicalDecimal a MAX_SAFE_INTEGER && isCanonicalDecimal b MAX_SAFE_INTEGER
  then Ok (Qcompare (dec_value a) (dec_value b)) else Throw RangeError.
Proof.
  unfold compareCanonicalDecimals. rewrite !requireCanonical_spec.
  destruct (isCanonicalDecimal a _) eqn:Ea; cbn [result_bind andb]; [|done].
  destruct (isCanonicalDecimal b _) eqn:Eb; cbn [result_bind]; [|done].
  unfold align. set (k := Nat.max _ _). unfold dec_value.
  rewrite (aligned_value (parse_decimal (chars a)) k), (aligned_value (parse_decimal (chars b)) k) by lia.
  rewrite Qcompare_same_den. f_equal. unfold Z.ltb. rewrite (Z.compare_antisym (coefficient (parse_decimal (chars a)) * _)).
  by destruct (_ ?= _).
Qed.

Lemma compareCanonicalDecimals_value a b :
  isCanonicalDecimal a MAX_SAFE_INTEGER = true → isCanonicalDecimal b MAX_SAFE_INTEGER = true →
  compareCanonicalDecimals a b = Ok (Qcompare (dec_value a) (dec_value b)).
Proof. intros Ha Hb. by rewrite compareCanonicalDecimals_eq, Ha, Hb. Qed.

Lemma canonicalizeDecimalText_inv (s r : string) :
  canonicalizeDecimalText s = Some r ↔
    (0 < Z.of_nat (length (chars s)) ≤ MONETARY_DECIMAL_MAXIMUM_TEXT_LENGTH) ∧
    plain_grammar (chars s) = true ∧
    isCanonicalDecimal r MONETARY_DECIMAL_MAXIMUM_DIGITS = true ∧ (dec_value r == dec_value s)%Q.
Proof.
  unfold canonicalizeDecimalText.
  change (match index_of_point (chars s) with None => chars s | Some _ => _ end)
    with (drop_trailing_zeros (chars s)).
  destruct (Z.eqb_spec (Z.of_nat (length (chars s))) 0); cbn [orb]; [split; [done|lia]|].
  destruct (Z.ltb_spec MONETARY_DECIMAL_MAXIMUM_TEXT_LENGTH (Z.of_nat (length (chars s)))); [split; [done|lia]|].
  destruct (plain_grammar (chars s)) eqn:Ep; cbn [negb]; [|naive_solver].
  destruct (drop_trailing_zeros_spec _ Ep) as [Hg Hv].
  unfold dec_value. split.
  - break_if; [|done]. intros [= <-]. rewrite chars_text. split; [lia|]. done.
  - intros (_&_&Hr&E). assert (text (drop_trailing_zeros (chars s)) = r) as ->.
    { rewrite <-(text_chars r). f_equal. apply canonical_text_unique_aux; [done| |by rewrite Hv, E].
      by eapply isCanonicalDecimal_grammar. }
    by rewrite Hr.
Qed.

Lemma addCanonicalDecimals_spec (a b : string) :
  match addCanonicalDecimals a b with
  | Ok r =>
      isCanonicalDecimal a MAX_SAFE_INTEGER = true ∧ isCanonicalDecimal b MAX_SAFE_INTEGER = true ∧
      canonical_grammar (chars r) = true ∧ (dec_value r == dec_value a + dec_value b)%Q
  | Throw RangeError =>
      isCanonicalDecimal a MAX_SAFE_INTEGER && isCanonicalDecimal b MAX_SAFE_INTEGER = false
  end.
Proof.
  unfold addCanonicalDecimals. rewrite !requireCanonical_spec.
  destruct (isCanonicalDecimal a _) eqn:Ea; cbn [result_bind andb]; [|done].
  destruct (isCanonicalDecimal b _) eqn:Eb; cbn [result_bind]; [|done].
  pose proof (canonical_coefficient_nonneg _ (isCanonicalDecimal_grammar _ _ Ea)) as Pa.
  pose proof (canonical_coefficient_nonneg _ (isCanonicalDecimal_grammar _ _ Eb)) as Pb.
  unfold align. set (k := Nat.max _ _). unfold dec_value. rewrite chars_text.
  match goal with |- context [format_decimal ?v] => destruct (format_spec v) as [Hg Hv] end.
  { cbn. pose proof (pow10_pos (k - scale (parse_decimal (chars a)))).
    pose proof (pow10_pos (k - scale (parse_decimal (chars b)))). nia. }
  do 3 (split; [done|]). rewrite Hv, (aligned_value (parse_decimal (chars a)) k), (aligned_value (parse_decimal (chars b)) k) by lia.
  by rewrite Qplus_same_den.
Qed.

(** ** Digit counts *)

Lemma digitCount_render i f : all_digits i → all_digits f → digitCount (render i f) = Z.of_nat (length i + length f).
Proof.
  intros Hi Hf. unfold digitCount. rewrite render_index by done.
  destruct f as [|c f]; cbn [render length]; [lia|]. rewrite length_app. cbn [length]. lia.
Qed.

Lemma dec_value_render i f (s := text (render i f)) :
  all_digits i → all_digits f → dec_value s = (digits_value (i ++ f) # Z.to_pos (10 ^ Z.of_nat (length f)))%Q.
Proof. intros Hi Hf. unfold dec_value, s. by rewrite chars_text, parse_render. Qed.

Definition pow10 (n : nat) : Q := inject_Z (10 ^ Z.of_nat n).

Lemma dec_value_lt_pow10 i f n :
  all_digits i → all_digits f →
  (dec_value (text (render i f)) < pow10 n)%Q ↔ digits_value (i ++ f) < 10 ^ Z.of_nat (n + length f).
Proof.
  intros Hi Hf. rewrite dec_value_render by done. unfold Qlt, pow10. cbn [Qnum Qden inject_Z].
  rewrite Z2Pos.id by apply pow10_pos. rewrite Nat2Z.inj_add, Z.pow_add_r by lia. lia.
Qed.

(** A canonical text of at most [d] digits is below [10^d] and states at most
    [d] fractional digits; conversely such bounds limit the digit count. *)
Lemma canonical_digits_bound s d :
  isCanonicalDecimal s (Z.of_nat d) = true → (dec_value s < pow10 d)%Q ∧ (scale (parse_decimal (chars s)) ≤ d)%nat.
Proof.
  intros H. unfold isCanonicalDecimal in H. split_and_bool.
  apply canonical_grammar_inv in H as (i&f&E&Hi&Hf). pose proof (integer_part_digits _ Hi). pose proof (fraction_digits _ Hf).
  rewrite E, digitCount_render, Z.leb_le in H0 by done.
  rewrite <-(text_chars s), E, chars_text, parse_render by done. split; [|cbn; lia].
  apply dec_value_lt_pow10; [done..|].
  pose proof (digits_value_bound (i ++ f) ltac:(by apply Forall_app)) as [_ Hb]. rewrite length_app in Hb.
  assert (10 ^ Z.of_nat (length i + length f) ≤ 10 ^ Z.of_nat (d + length f)) by (apply Z.pow_le_mono_r; lia). lia.
Qed.

Lemma canonical_digitCount_bound s n k :
  canonical_grammar (chars s) = true → (0 < n)%nat → (dec_value s < pow10 n)%Q →
  (scale (parse_decimal (chars s)) ≤ k)%nat → digitCount (chars s) ≤ Z.of_nat (n + k).
Proof.
  intros Hg Hn Hv Hk. apply canonical_grammar_inv in Hg as (i&f&E&Hi&Hf).
  pose proof (integer_part_digits _ Hi) as Di. pose proof (fraction_digits _ Hf) as Df.
  rewrite <-(text_chars s), E in Hv. rewrite E, parse_render in Hk by done. cbn in Hk.
  rewrite E, digitCount_render by done. apply dec_value_lt_pow10 in Hv; [|done..].
  assert (length i ≤ n)%nat; [|lia].
  destruct (integer_part_length i Hi) as [[-> _]|[Hlow _]]; [cbn; lia|].
  destruct (Nat.le_gt_cases (length i) n) as [L|L]; [done|exfalso].
  rewrite digits_value_app in Hv. pose proof (digits_value_bound f Df) as [Hf0 _].
  rewrite Nat2Z.inj_add, Z.pow_add_r in Hv by lia.
  assert (10 ^ Z.of_nat n ≤ 10 ^ (Z.of_nat (length i) - 1)) by (apply Z.pow_le_mono_r; lia).
  pose proof (pow10_pos (length f)). nia.
Qed.

(** The scale of a sum is at most the larger scale of its terms. *)
Lemma add_scale a b r :
  addCanonicalDecimals a b = Ok r →
  (scale (parse_decimal (chars r)) ≤ Nat.max (scale (parse_decimal (chars a))) (scale (parse_decimal (chars b))))%nat.
Proof.
  intros E. pose proof (addCanonicalDecimals_spec a b) as H. rewrite E in H. destruct H as (_&_&Hg&Hv).
  apply representable_scale; [done|]. set (k := Nat.max _ _). unfold representable, dec_value in *. eexists. rewrite Hv.
  rewrite (aligned_value (parse_decimal (chars a)) k), (aligned_value (parse_decimal (chars b)) k) by lia.
  apply Qplus_same_den.
Qed.

Lemma dec_value_nonneg s : canonical_grammar (chars s) = true → (0 <= dec_value s)%Q.
Proof.
  intros H%canonical_coefficient_nonneg. unfold dec_value, exact_value, Qle. cbn [Qnum Qden]. lia.
Qed.

(** ** The contract of the module *)

(** Canonical text is a unique name of a quantity: two canonical decimals
    that denote the same rational are the same text, so comparing and digesting
    amounts as strings agrees with comparing the amounts. *)
Theorem canonical_decimal_unique (a b : string) (m n : Z) :
  isCanonicalDecimal a m = true → isCanonicalDecimal b n = true →
  (dec_value a == dec_value b)%Q → a = b.
Proof.
  intros Ha%isCanonicalDecimal_grammar Hb%isCanonicalDecimal_grammar E.
  rewrite <-(text_chars a), <-(text_chars b). f_equal. by apply canonical_text_unique_aux.
Qed.

Lemma canonical_decimal_unique_witness : "10.5"%string = "10.5"%string.
Proof. apply (canonical_decimal_unique "10.5" "10.5" 128 128); reflexivity. Defined.

(** [addCanonicalDecimals] returns exactly when both operands are canonical,
    and then the canonical text of the exact sum; otherwise it throws. *)
Theorem addCanonicalDecimals_exact (a b : string) :
  match addCanonicalDecimals a b with
  | Ok r =>
      isCanonicalDecimal a MAX_SAFE_INTEGER = true ∧ isCanonicalDecimal b MAX_SAFE_INTEGER = true ∧
      canonical_grammar (chars r) = true ∧ (dec_value r == dec_value a + dec_value b)%Q
  | Throw RangeError =>
      isCanonicalDecimal a MAX_SAFE_INTEGER && isCanonicalDecimal b MAX_SAFE_INTEGER = false
  end.
Proof. apply addCanonicalDecimals_spec. Qed.

(** [subtractCanonicalDecimals] is exact where it returns, and throws
    precisely when an operand is not canonical or the difference is negative. *)
Theorem subtractCanonicalDecimals_exact (a b : string) :
  match subtractCanonicalDecimals a b with
  | Ok r =>
      isCanonicalDecimal a MAX_SAFE_INTEGER = true ∧ isCanonicalDecimal b MAX_SAFE_INTEGER = true ∧
      canonical_grammar (chars r) = true ∧ (dec_value b <= dec_value a)%Q ∧
      (dec_value r == dec_value a - dec_value b)%Q
  | Throw RangeError =>
      isCanonicalDecimal a MAX_SAFE_INTEGER && isCanonicalDecimal b MAX_SAFE_INTEGER = false ∨
      (dec_value a < dec_value b)%Q
  end.
Proof.
  unfold subtractCanonicalDecimals. rewrite !requireCanonical_spec.
  destruct (isCanonicalDecimal a _) eqn:Ea; cbn [result_bind andb]; [|by left].
  destruct (isCanonicalDecimal b _) eqn:Eb; cbn [result_bind]; [|by left].
  unfold align. set (k := Nat.max _ _). unfold dec_value.
  pose proof (aligned_value (parse_decimal (chars a)) k ltac:(lia)) as Va.
  pose proof (aligned_value (parse_decimal (chars b)) k ltac:(lia)) as Vb.
  destruct (Z.ltb_spec (coefficient (parse_decimal (chars a)) * 10 ^ Z.of_nat (k - scale (parse_decimal (chars a))))
    (coefficient (parse_decimal (chars b)) * 10 ^ Z.of_nat (k - scale (parse_decimal (chars b))))) as [L|L].
  - right. rewrite Va, Vb. apply Qlt_alt. rewrite Qcompare_same_den. by apply Z.compare_lt_iff.
  - do 2 (split; [done|]). rewrite chars_text.
    match goal with |- context [format_decimal ?v] => destruct (format_spec v) as [Hg Hv] end.
    { cbn. lia. }
    split; [done|]. rewrite Va, Vb. split.
    + apply Qle_alt. rewrite Qcompare_same_den, Z.compare_gt_iff. lia.
    + by rewrite Hv, Qminus_same_den.
Qed.

(** [compareCanonicalDecimals] is the order of the rationals: on canonical
    operands it returns [Qcompare] of the quantities; on others it throws. *)
Theorem compareCanonicalDecimals_exact (a b : string) :
  compareCanonicalDecimals a b =
  if isCanonicalDecimal a MAX_SAFE_INTEGER && isCanonicalDecimal b MAX_SAFE_INTEGER
  then Ok (Qcompare (dec_value a) (dec_value b)) else Throw RangeError.
Proof. apply compareCanonicalDecimals_eq. Qed.

(** Boundary canonicalization is total and exact: a text is rewritten to
    [r] if and only if it is a plain decimal within the text bound, [r] is
    canonical within the digit bound, and [r] denotes the same quantity. *)
Theorem canonicalizeDecimalText_spec (s r : string) :
  canonicalizeDecimalText s = Some r ↔
    (0 < Z.of_nat (length (chars s)) ≤ MONETARY_DECIMAL_MAXIMUM_TEXT_LENGTH) ∧
    plain_grammar (chars s) = true ∧
    isCanonicalDecimal r MONETARY_DECIMAL_MAXIMUM_DIGITS = true ∧ (dec_value r == dec_value s)%Q.
Proof. apply canonicalizeDecimalText_inv. Qed.
