(* ===== verification/Js.v ===== *)
(** * JavaScript data at the trust boundary

    The [unknown] values that the modelled validators receive, the character
    classes of their regular expressions, and the text [JSON.stringify]
    produces for strings and integers, with the lemmas that make serialized
    texts unambiguous. Texts are sequences of 8-bit code units. *)

From S2P Require Import Prelude Decimal.

Local Open Scope Z_scope.

(** ** Values *)

(** A number is an integer, the negative zero, a fraction (of which the
    shortest round-trip text is kept), [NaN] or an infinity. Integers of
    magnitude [10^21] or more, which print with an exponent, are outside every
    safe-integer check. *)
Inductive JsNumber :=
  | JInt (z : Z)
  | JNegZero
  | JFraction (digits : string)
  | JNaN
  | JInfinity (negative : bool).

(** A property read may meet an accessor instead of a value; an object is plain
    when its prototype is [Object.prototype] or [null]. *)
Inductive JsValue :=
  | JsUndefined
  | JsNull
  | JsBool (b : bool)
  | JsNum (n : JsNumber)
  | JsString (s : string)
  | JsArray (elements : list JsValue)
  | JsObject (plain : bool) (properties : list (string * JsValue))
  | JsFunction
  | JsAccessor.

Definition own_property (key : string) (properties : list (string * JsValue)) : option JsValue :=
  (λ x, x.2.2) <$> list_find (λ p, p.1 = key) properties.

(** [Number.isSafeInteger] *)
Definition isSafeInteger (n : JsNumber) : bool :=
  match n with
  | JInt z => (- MAX_SAFE_INTEGER <=? z) && (z <=? MAX_SAFE_INTEGER)
  | JNegZero => true
  | _ => false
  end.

(** The integer a safe integer denotes: [-0 < 0] and [0 < -0] are both false. *)
Definition integer_value (n : JsNumber) : Z := match n with JInt z => z | _ => 0 end.

Global Instance JsNumber_eq_dec : EqDecision JsNumber.
Proof. solve_decision. Defined.

(** [left === right] on numbers. *)
Definition number_strict_equals (l r : JsNumber) : bool :=
  match l, r with
  | JNaN, _ | _, JNaN => false
  | (JInt 0 | JNegZero), (JInt 0 | JNegZero) => true
  | _, _ => bool_decide (l = r)
  end.

(** ** Character classes *)

Definition in_range (lo hi : Z) (c : ascii) : bool := (lo <=? code c) && (code c <=? hi).
Definition is_lower : ascii → bool := in_range 97 122.
Definition is_upper : ascii → bool := in_range 65 90.
Definition is_alnum (c : ascii) : bool := is_digit c || is_lower c || is_upper c.
Definition one_of (s : string) (c : ascii) : bool := bool_decide (c ∈ chars s).

(** White space and line terminators among the 8-bit code units, as
    [String.prototype.trim] removes them. *)
Definition is_space (c : ascii) : bool := in_range 9 13 c || (code c =? 32) || (code c =? 160).
(** The class of C0 and C1 controls with DEL. *)
Definition is_control (c : ascii) : bool := in_range 0 31 c || in_range 127 159 c.

Fixpoint drop_while (p : ascii → bool) (l : list ascii) : list ascii :=
  match l with
  | [] => []
  | c :: l' => if p c then drop_while p l' else l
  end.
Definition js_trim (l : list ascii) : list ascii :=
  reverse (drop_while is_space (reverse (drop_while is_space l))).

(** [value === value.trim()] *)
Definition is_trimmed (s : string) : bool := bool_decide (js_trim (chars s) = chars s).

Definition js_length (s : string) : Z := Z.of_nat (length (chars s)).

(** [text.toLowerCase()] of ASCII text. *)
Definition ascii_lower (c : ascii) : ascii :=
  if is_upper c then ascii_of_N (Z.to_N (code c + 32)) else c.
Definition toLowerCase (s : string) : string := text (ascii_lower <$> chars s).

(** A lowercase hexadecimal digit. *)
Definition is_hex (c : ascii) : bool := is_digit c || in_range 97 102 c.

(** ** JSON texts *)

Definition QUOTE : ascii := ascii_of_N 34.
Definition BACKSLASH : ascii := ascii_of_N 92.

Definition hex_char (d : Z) : ascii :=
  if d <? 10 then ascii_of_N (Z.to_N (48 + d)) else ascii_of_N (Z.to_N (87 + d)).

(** The escapes of [JSON.stringify]. *)
Definition json_char (c : ascii) : list ascii :=
  let n := code c in
  if (n =? 34) || (n =? 92) then [BACKSLASH; c]
  else if n =? 8 then [BACKSLASH; "b"%char]
  else if n =? 9 then [BACKSLASH; "t"%char]
  else if n =? 10 then [BACKSLASH; "n"%char]
  else if n =? 12 then [BACKSLASH; "f"%char]
  else if n =? 13 then [BACKSLASH; "r"%char]
  else if n <? 32 then [BACKSLASH; "u"%char; ZERO; ZERO; hex_char (n / 16); hex_char (n mod 16)]
  else [c].

(** [JSON.stringify(text)] *)
Definition json_chars (l : list ascii) : list ascii := QUOTE :: (l ≫= json_char) ++ [QUOTE].
Definition json_string (s : string) : string := text (json_chars (chars s)).

(** [JSON.stringify(number)] *)
Definition json_number (n : JsNumber) : string :=
  match n with
  | JInt z => text (bigint_to_string z)
  | JNegZero => "0"
  | JFraction digits => digits
  | JNaN | JInfinity _ => "null"
  end.

(** [parts.join(',')] *)
Fixpoint join (sep : string) (parts : list string) : string :=
  match parts with
  | [] => ""
  | [p] => p
  | p :: parts => p +:+ sep +:+ join sep parts
  end.

Definition quoted (s : string) : string := text [QUOTE] +:+ s +:+ text [QUOTE].

Example json_ex : json_string "ab" = quoted "ab" ∧ json_number (JInt (-12)) = "-12".
Proof. split; reflexivity. Qed.

(** ** Unambiguous texts

    A serializer is unambiguous on [P] when no text it produces is a proper
    prefix of another: whatever follows, the value and the rest can be told
    apart. The property composes along concatenation, which is how every
    canonical serialization of the repository is shown to determine its value. *)

Definition unambiguous {A} (P : A → Prop) (f : A → string) : Prop :=
  ∀ a b r1 r2, P a → P b → f a +:+ r1 = f b +:+ r2 → a = b ∧ r1 = r2.

Lemma string_app_assoc (a b c : string) : (a +:+ b) +:+ c = a +:+ (b +:+ c).
Proof.
  induction a as [|x a IH]; [done|].
  change (String x ((a +:+ b) +:+ c) = String x (a +:+ (b +:+ c))). by rewrite IH.
Qed.

Lemma string_app_cancel (a b c : string) : a +:+ b = a +:+ c ↔ b = c.
Proof. split; [|by intros ->]. intros H. by apply (inj (String.append a)). Qed.

Lemma string_app_peel (a b c : string) : a +:+ b = a +:+ c → b = c.
Proof. apply string_app_cancel. Qed.

Lemma chars_app (a b : string) : chars (a +:+ b) = chars a ++ chars b.
Proof.
  induction a as [|x a IH]; [done|].
  change (x :: chars (a +:+ b) = x :: chars a ++ chars b). by rewrite IH.
Qed.

Lemma chars_inj (a b : string) : chars a = chars b → a = b.
Proof. intros H. by rewrite <-(text_chars a), H, text_chars. Qed.

(** The inverse of [json_char] on the front of a text. *)
Definition unescape (e : ascii) : ascii :=
  let n := code e in
  if n =? 98 then ascii_of_N 8 else if n =? 116 then ascii_of_N 9 else if n =? 110 then ascii_of_N 10
  else if n =? 102 then ascii_of_N 12 else if n =? 114 then ascii_of_N 13 else e.
Definition hex_value (c : ascii) : Z := if code c <? 58 then code c - 48 else code c - 87.
Definition decode_char (l : list ascii) : option (ascii * list ascii) :=
  match l with
  | [] => None
  | c :: l =>
      if code c =? 34 then None
      else if code c =? 92 then
        match l with
        | "u"%char :: _ :: _ :: a :: b :: r => Some (ascii_of_N (Z.to_N (16 * hex_value a + hex_value b)), r)
        | e :: r => Some (unescape e, r)
        | [] => None
        end
      else Some (c, l)
  end.

Lemma decode_json_char c r : decode_char (json_char c ++ r) = Some (c, r).
Proof. destruct c as [[] [] [] [] [] [] [] []]; reflexivity. Qed.

Lemma json_chars_unambiguous l k r1 r2 :
  json_chars l ++ r1 = json_chars k ++ r2 → l = k ∧ r1 = r2.
Proof.
  unfold json_chars. rewrite <-!app_comm_cons, <-!app_assoc. intros [= H]. revert k H.
  induction l as [|c l IH]; intros [|d k] H; cbn in H.
  - by injection H.
  - apply (f_equal decode_char) in H. rewrite <-app_assoc, decode_json_char in H. done.
  - apply (f_equal decode_char) in H. rewrite <-app_assoc, decode_json_char in H. done.
  - apply (f_equal decode_char) in H. rewrite <-!app_assoc, !decode_json_char in H.
    injection H as -> H. destruct (IH k H) as [-> ->]. done.
Qed.

Lemma json_string_unambiguous : unambiguous (λ _, True) json_string.
Proof.
  intros a b r1 r2 _ _ H. apply (f_equal chars) in H.
  rewrite !chars_app in H. unfold json_string in H. rewrite !chars_text in H.
  apply json_chars_unambiguous in H as [->%chars_inj ->%chars_inj]. done.
Qed.

Lemma json_string_inj a b r1 r2 : json_string a +:+ r1 = json_string b +:+ r2 → a = b ∧ r1 = r2.
Proof. by apply json_string_unambiguous. Qed.

(** *** Integers, followed by a character that is not a digit *)

Lemma digits_prefix_unique l k r1 r2 :
  all_digits l → all_digits k →
  match r1 with [] => True | c :: _ => is_digit c = false end →
  match r2 with [] => True | c :: _ => is_digit c = false end →
  l ++ r1 = k ++ r2 → l = k ∧ r1 = r2.
Proof.
  intros Hl. revert k. induction Hl as [|c l Hc Hl IH]; intros k Hk H1 H2 E.
  - destruct Hk as [|d k Hd Hk]; [done|]. cbn in E. subst r1. cbn in H1. congruence.
  - destruct Hk as [|d k Hd Hk]; cbn in E.
    + subst r2. cbn in H2. congruence.
    + injection E as -> E. destruct (IH k Hk H1 H2 E) as [-> ->]. done.
Qed.

Lemma bigint_digits n : 0 ≤ n → all_digits (bigint_to_string n).
Proof. intros H. by apply integer_part_digits, bigint_to_string_spec. Qed.

Lemma bigint_negative n : n < 0 → bigint_to_string n = "-"%char :: bigint_to_string (- n).
Proof.
  intros H. unfold bigint_to_string. destruct (Z.ltb_spec n 0); [|lia].
  destruct (Z.ltb_spec (- n) 0); [lia|done].
Qed.

Definition starts_nondigit (s : string) : Prop :=
  match s with EmptyString => True | String c _ => is_digit c = false end.

Lemma starts_nondigit_chars s :
  starts_nondigit s → match chars s with [] => True | c :: _ => is_digit c = false end.
Proof. by destruct s. Qed.

Lemma bigint_unambiguous a b r1 r2 :
  starts_nondigit r1 → starts_nondigit r2 →
  text (bigint_to_string a) +:+ r1 = text (bigint_to_string b) +:+ r2 → a = b ∧ r1 = r2.
Proof.
  intros H1%starts_nondigit_chars H2%starts_nondigit_chars H. apply (f_equal chars) in H.
  rewrite !chars_app, !chars_text in H.
  assert (∀ x, 0 ≤ x → ∃ c l, bigint_to_string x = c :: l ∧ c ≠ "-"%char) as Hhead.
  { intros x Hx. pose proof (bigint_digits x Hx) as Hd. destruct (bigint_to_string_spec x Hx) as [Hok _].
    destruct (bigint_to_string x) as [|c l]; [done|]. exists c, l. split; [done|].
    apply Forall_inv in Hd. by intros ->. }
  assert (∀ x y, 0 ≤ x → 0 ≤ y → bigint_to_string x ++ chars r1 = bigint_to_string y ++ chars r2 →
    x = y ∧ r1 = r2) as Hpos.
  { intros x y Hx Hy E. apply digits_prefix_unique in E as [E ->%chars_inj]; auto using bigint_digits.
    destruct (bigint_to_string_spec x Hx) as [_ <-]. destruct (bigint_to_string_spec y Hy) as [_ <-].
    by rewrite E. }
  destruct (Z.lt_ge_cases a 0) as [La|La], (Z.lt_ge_cases b 0) as [Lb|Lb].
  - rewrite (bigint_negative a), (bigint_negative b) in H by done. apply (f_equal tail) in H. cbn [tail app] in H.
    apply Hpos in H as [H ->]; [split; [lia|done]|lia..].
  - rewrite (bigint_negative a) in H by done. destruct (Hhead b Lb) as (c&l&E&Hc).
    rewrite E in H. apply (f_equal head) in H. cbn [head app] in H. congruence.
  - rewrite (bigint_negative b) in H by done. destruct (Hhead a La) as (c&l&E&Hc).
    rewrite E in H. apply (f_equal head) in H. cbn [head app] in H. congruence.
  - auto.
Qed.

(** *** Texts delimited by a character they do not contain *)

Lemma delimited_unique (c : ascii) (l k r1 r2 : list ascii) :
  c ∉ l → c ∉ k → l ++ c :: r1 = k ++ c :: r2 → l = k ∧ r1 = r2.
Proof.
  revert k. induction l as [|x l IH]; intros k Hl Hk E.
  - destruct k as [|y k]; [by injection E|]. injection E as -> _. set_solver.
  - destruct k as [|y k]; [injection E as -> _; set_solver|]. injection E as -> E.
    destruct (IH k) as [-> ->]; [set_solver..|done|done].
Qed.

Lemma delimited_text (c : ascii) (a b r1 r2 : string) :
  c ∉ chars a → c ∉ chars b → a +:+ String c r1 = b +:+ String c r2 → a = b ∧ r1 = r2.
Proof.
  intros Ha Hb E. apply (f_equal chars) in E. rewrite !chars_app in E. cbn in E.
  apply delimited_unique in E as [->%chars_inj ->%chars_inj]; done.
Qed.

(** *** Peeling a serialized text *)

(** [text_peel E] cancels the constant pieces that both sides of [E] start
    with. *)
Ltac text_peel E :=
  repeat rewrite string_app_assoc in E;
  repeat (apply string_app_peel in E; repeat rewrite string_app_assoc in E).

Definition starts_with_not (c : ascii) (s : string) : Prop := ∃ d t, s = String d t ∧ d ≠ c.

Lemma join_cons sep p q parts : join sep (p :: q :: parts) = p +:+ sep +:+ join sep (q :: parts).
Proof. done. Qed.

(** A bracketed, comma-separated list of unambiguous items is unambiguous. *)
Lemma join_unambiguous {A} (P : A → Prop) (f : A → string) (close : ascii) (l k : list A) r1 r2 :
  unambiguous P f → (∀ a, P a → starts_with_not close (f a)) → close ≠ ","%char →
  Forall P l → Forall P k →
  join "," (f <$> l) +:+ String close r1 = join "," (f <$> k) +:+ String close r2 → l = k ∧ r1 = r2.
Proof.
  intros Hf Hs Hc Hl. revert k.
  assert (∀ a t r, P a → f a +:+ t = String close r → False) as Hstart.
  { intros a t r Pa E. destruct (Hs a Pa) as (d&u&Ed&Hd). rewrite Ed in E.
    change (String d (u +:+ t) = String close r) in E. injection E as -> _. done. }
  assert (∀ a b l' k' s1 s2, String close s1 = ("," +:+ join "," (f <$> (a :: l'))) +:+ s2 ∨
     String close s1 = ("," +:+ join "," (f <$> (b :: k'))) +:+ s2 → False) as Hsep.
  { intros a b l' k' s1 s2 [E|E]; apply (f_equal chars) in E; rewrite chars_app in E; injection E as E _; done. }
  induction Hl as [|a l Pa Hl IH]; intros k Hk E.
  - destruct Hk as [|b k Pb Hk]; [cbn in E; by injection E|]. exfalso.
    destruct k; [by apply (Hstart b (String close r2) r1 Pb)|].
    cbn [fmap list_fmap] in E. rewrite join_cons, string_app_assoc in E. by apply (Hstart b _ r1 Pb (eq_sym E)).
  - destruct Hk as [|b k Pb Hk].
    { exfalso. destruct l; [by apply (Hstart a (String close r1) r2 Pa)|].
      cbn [fmap list_fmap] in E. rewrite join_cons, string_app_assoc in E. by apply (Hstart a _ r2 Pa E). }
    destruct l as [|a' l], k as [|b' k].
    + cbn [fmap list_fmap join] in E. apply Hf in E as [-> [= ->]]; done.
    + cbn [fmap list_fmap] in E. rewrite join_cons, string_app_assoc in E. cbn [join] in E.
      apply Hf in E as [-> E]; [|done..]. exfalso. eapply (Hsep b' b' k k _ _). by left.
    + cbn [fmap list_fmap] in E. rewrite join_cons, string_app_assoc in E. cbn [join] in E.
      apply Hf in E as [-> E]; [|done..]. exfalso. eapply (Hsep a' a' l l _ _). left. by symmetry.
    + cbn [fmap list_fmap] in E. rewrite !join_cons, !string_app_assoc in E.
      apply Hf in E as [-> E]; [|done..]. apply string_app_cancel in E.
      destruct (IH (b' :: k) Hk E) as [[= -> ->] ->]. done.
Qed.

(** ** A concrete host

    An instance of the host on which the witnesses are evaluated: instants are
    decimal texts, the digest is a 64-digit polynomial checksum, and the locale
    order is code-unit order. *)

Fixpoint digits_lsb (n : nat) (z : Z) : list ascii :=
  match n with O => [] | S n => digit_char (z mod 10) :: digits_lsb n (z / 10) end.
Definition checksum (s : string) : Z := foldl (λ a c, (a * 263 + code c + 1) mod 1000000007) 7 (chars s).

Lemma leb_total_true a b : String.leb a b = true ∨ String.leb b a = true.
Proof. apply String.leb_total. Qed.

Definition demo_host : JsHost := {|
  date_parse := λ s, if nonempty s && forallb is_digit (chars s) then Some (digits_value (chars s)) else None;
  sha256_hex := λ s, text (digits_lsb 64 (checksum s));
  locale_le := String.leb;
  locale_le_total := leb_total_true;
|}.
