(* ===== verification/JsMap.v ===== *)
(** * Insertion-ordered maps

    The JavaScript [Map] with string keys: a list of entries in insertion order,
    in which setting an existing key replaces its value in place. Iteration
    ([values()], [find], [filter]) follows the order. *)

From S2P Require Import Prelude.

Definition JsMap (V : Type) : Type := list (string * V).

Section JsMap.
Context {V : Type}.
Implicit Types (k : string) (v : V) (m : JsMap V).

Fixpoint map_get k m : option V :=
  match m with
  | [] => None
  | (k', v) :: m => if str_eqb k' k then Some v else map_get k m
  end.

Fixpoint map_set k v m : JsMap V :=
  match m with
  | [] => [(k, v)]
  | (k', v') :: m => if str_eqb k' k then (k, v) :: m else (k', v') :: map_set k v m
  end.

Definition map_values m : list V := snd <$> m.
Definition map_keys m : list string := fst <$> m.

Lemma map_get_set k k' v m : map_get k' (map_set k v m) = if str_eqb k k' then Some v else map_get k' m.
Proof.
  induction m as [|[k0 v0] m IH]; cbn; [done|].
  destruct (str_eqb k0 k) eqn:E; cbn.
  - split_and_bool. subst. by destruct (str_eqb k k').
  - rewrite IH. destruct (str_eqb k0 k') eqn:E0, (str_eqb k k') eqn:E1; try done. split_and_bool. congruence.
Qed.

Lemma map_get_set_eq k v m : map_get k (map_set k v m) = Some v.
Proof. by rewrite map_get_set, str_eqb_refl. Qed.
Lemma map_get_set_ne k k' v m : k ≠ k' → map_get k' (map_set k v m) = map_get k' m.
Proof. intros H. by rewrite map_get_set, (proj2 (str_eqb_neq k k')). Qed.

(** Setting an existing key keeps the keys and their order. *)
Lemma map_keys_set k v m :
  map_keys (map_set k v m) = if is_some (map_get k m) then map_keys m else map_keys m ++ [k].
Proof.
  unfold map_keys. induction m as [|[k0 v0] m IH]; cbn; [done|].
  destruct (str_eqb k0 k) eqn:E; cbn; [split_and_bool; by subst|].
  rewrite IH. by destruct (is_some (map_get k m)).
Qed.

Lemma map_get_None k m : map_get k m = None ↔ k ∉ map_keys m.
Proof.
  induction m as [|[k0 v0] m IH]; cbn; [set_solver|]. destruct (str_eqb k0 k) eqn:E; split_and_bool; set_solver.
Qed.

Lemma map_get_elem k v m : NoDup (map_keys m) → map_get k m = Some v ↔ (k, v) ∈ m.
Proof.
  induction m as [|[k0 v0] m IH]; cbn; intros Hn; [set_solver|]. apply NoDup_cons in Hn as [Hk Hn].
  rewrite elem_of_cons. destruct (str_eqb k0 k) eqn:E; split_and_bool.
  - subst k0. split; [intros [= ->]; by left|]. intros [[= ->]|Hin]; [done|]. exfalso. apply Hk.
    by apply (list_elem_of_fmap_2 fst) in Hin.
  - rewrite IH by done. split; [by right|]. intros [[= ? ?]|?]; [congruence|done].
Qed.

Lemma NoDup_keys_set k v m : NoDup (map_keys m) → NoDup (map_keys (map_set k v m)).
Proof.
  intros Hn. rewrite map_keys_set. destruct (map_get k m) eqn:E; cbn; [done|].
  apply NoDup_app. split; [done|]. split; [|apply NoDup_singleton].
  intros x Hx ->%list_elem_of_singleton. by apply map_get_None in E.
Qed.

(** Updating a stored value by a function that keeps what [f] selects. *)
Lemma map_values_update k v v' m :
  NoDup (map_keys m) → map_get k m = Some v →
  ∃ l1 l2, map_values m = l1 ++ v :: l2 ∧ map_values (map_set k v' m) = l1 ++ v' :: l2.
Proof.
  unfold map_values. induction m as [|[k0 v0] m IH]; cbn; intros Hn Hg; [done|].
  apply NoDup_cons in Hn as [_ Hn]. destruct (str_eqb k0 k) eqn:E; cbn.
  - injection Hg as ->. by exists [], (snd <$> m).
  - destruct (IH Hn Hg) as (l1&l2&->&->). by exists (v0 :: l1), l2.
Qed.

Lemma map_values_elem m v : NoDup (map_keys m) → v ∈ map_values m ↔ ∃ k, map_get k m = Some v.
Proof.
  intros Hn. unfold map_values. rewrite list_elem_of_fmap. split.
  - intros ([k v']&->&Hin). exists k. by apply map_get_elem.
  - intros [k Hk]. exists (k, v). split; [done|]. by apply map_get_elem.
Qed.

End JsMap.

(** A map whose entries are filed under their own key. *)
Definition filed {V} (key : V → string) (m : JsMap V) : Prop :=
  NoDup (map_keys m) ∧ ∀ k v, map_get k m = Some v → key v = k.

Lemma filed_nil {V} (key : V → string) : filed key [].
Proof. split; [constructor|done]. Qed.

Lemma filed_set {V} (key : V → string) v m : filed key m → filed key (map_set (key v) v m).
Proof.
  intros [Hn Hk]. split; [by apply NoDup_keys_set|]. intros k' v'. rewrite map_get_set.
  destruct (str_eqb (key v) k') eqn:E; split_and_bool; [by intros [= <-]|apply Hk].
Qed.

Lemma filed_values {V} (key : V → string) m v : filed key m → v ∈ map_values m ↔ map_get (key v) m = Some v.
Proof.
  intros [Hn Hk]. rewrite map_values_elem by done. split; [|eauto]. intros [k Hg]. by rewrite (Hk k v Hg).
Qed.

(** ** Mapping and extending *)

Lemma map_get_perm {V} k (m m' : JsMap V) : NoDup (map_keys m) → m ≡ₚ m' → map_get k m = map_get k m'.
Proof.
  intros Hn Hp. assert (NoDup (map_keys m')) as Hn' by (unfold map_keys in *; by rewrite <-Hp).
  apply option_eq. intros v. rewrite !map_get_elem by done. by rewrite Hp.
Qed.

Lemma map_get_fmap {V W} (f : V → W) k (m : JsMap V) : map_get k (prod_map id f <$> m) = f <$> map_get k m.
Proof. induction m as [|[k' v] m IH]; cbn; [done|]. by destruct (str_eqb k' k). Qed.

Lemma map_keys_fmap {V W} (f : V → W) (m : JsMap V) : map_keys (prod_map id f <$> m) = map_keys m.
Proof. unfold map_keys. rewrite <-list_fmap_compose. by apply list_fmap_ext. Qed.

Lemma map_get_app {V} k (m n : JsMap V) : map_get k (m ++ n) = match map_get k m with Some v => Some v | None => map_get k n end.
Proof. induction m as [|[k' v] m IH]; cbn; [done|]. by destruct (str_eqb k' k). Qed.

Lemma map_values_fmap {V W} (f : V → W) (m : JsMap V) : map_values (prod_map id f <$> m) = f <$> map_values m.
Proof. unfold map_values. rewrite <-!list_fmap_compose. by apply list_fmap_ext. Qed.

Lemma find_fmap {A} (p : A → bool) (f : A → A) l : (∀ x, p (f x) = p x) → List.find p (f <$> l) = f <$> List.find p l.
Proof. intros Hp. induction l as [|x l IH]; cbn; [done|]. rewrite Hp. by destruct (p x). Qed.

Lemma find_of_app {A} (p : A → bool) l k : List.find p (l ++ k) = match List.find p l with Some x => Some x | None => List.find p k end.
Proof. induction l as [|x l IH]; cbn; [done|]. by destruct (p x). Qed.

Lemma filter_fmap {A} (p : A → bool) (f : A → A) l : (∀ x, p (f x) = p x) → List.filter p (f <$> l) = f <$> List.filter p l.
Proof. intros Hp. induction l as [|x l IH]; cbn; [done|]. rewrite Hp, IH. by destruct (p x). Qed.

(** Replacing a stored record is mapping over the entries. *)
Lemma map_set_mapped {V} (key : V → string) (F : V → V) i v (m : JsMap V) :
  filed key m → map_get i m = Some v → (∀ w, key w ≠ i → F w = w) → map_set i (F v) m = prod_map id F <$> m.
Proof.
  intros [Hn Hk] Hg HF. induction m as [|[k w] m IH]; [done|]. cbn in *. apply NoDup_cons in Hn as [Hni Hn].
  destruct (str_eqb k i) eqn:E; split_and_bool.
  - injection Hg as ->. subst k. f_equal. rewrite <-(list_fmap_id m) at 1. apply list_fmap_ext. intros j [k w] Hj. cbn. f_equal. symmetry. apply HF.
    rewrite (Hk k w); [intros ->; apply Hni; apply list_elem_of_lookup_2 in Hj; by apply (list_elem_of_fmap_2 fst) in Hj|].
    assert (k ≠ i) by (intros ->; apply Hni; apply list_elem_of_lookup_2 in Hj; by apply (list_elem_of_fmap_2 fst) in Hj).
    destruct (str_eqb i k) eqn:E'; split_and_bool; [congruence|]. apply map_get_elem; [done|]. by apply list_elem_of_lookup_2 in Hj.
  - f_equal; [f_equal; symmetry; apply HF|].
    + rewrite (Hk k w); [done|]. by rewrite str_eqb_refl.
    + apply IH; [done| |done]. intros k' w' Hg'. apply Hk. destruct (str_eqb k k') eqn:E'; split_and_bool; [|done]. subst k'.
      assert (map_get k m = None) by (by apply map_get_None). congruence.
Qed.

Lemma prod_map_id {A B} (l : list (A * B)) : prod_map id id <$> l = l.
Proof. rewrite <-(list_fmap_id l) at 2. apply list_fmap_ext. by intros i [a b] _. Qed.

Lemma map_set_fresh {V} k (v : V) m : map_get k m = None → map_set k v m = m ++ [(k, v)].
Proof. induction m as [|[k' w] m IH]; cbn; [done|]. destruct (str_eqb k' k); [done|]. intros Hm. by rewrite IH. Qed.
