(* ===== verification/StableJson.v ===== *)
(** * Canonical JSON texts and digests

    Model of [stableStringify], [sortValue] and [createDigest] of
    [authority-graph/domain/authority-proof.ts], which other runtimes repeat
    verbatim ([approval-runtime/domain/approval-proof.ts] among them): the JSON
    text of a value with the keys of every object in code-unit order, and its
    SHA-256. Numbers of the digested payloads are integers, and no key is an
    array index (JavaScript would enumerate those first). An absent field is
    [JUndef], which [JSON.stringify] leaves out of objects. *)

From S2P Require Import Prelude Decimal Js.

Local Open Scope Z_scope.
Local Open Scope frontera_scope.

Inductive Json :=
  | JUndef
  | JNul
  | JBol (b : bool)
  | JNo (n : Z)
  | JTxt (s : string)
  | JArr (elements : list Json)
  | JObj (entries : list (string * Json)).

Section JsonInd.
Context (P : Json → Prop).
Context (P_undef : P JUndef) (P_nul : P JNul) (P_bol : ∀ b, P (JBol b)) (P_no : ∀ n, P (JNo n)) (P_txt : ∀ s, P (JTxt s)).
Context (P_arr : ∀ l, Forall P l → P (JArr l)) (P_obj : ∀ fs, Forall (λ p, P p.2) fs → P (JObj fs)).

Fixpoint Json_nested_ind (v : Json) : P v :=
  match v with
  | JUndef => P_undef
  | JNul => P_nul
  | JBol b => P_bol b
  | JNo n => P_no n
  | JTxt s => P_txt s
  | JArr l => P_arr l ((fix go l := match l return Forall P l with
                        | [] => Forall_nil_2 _
                        | x :: l => Forall_cons_2 _ _ _ (Json_nested_ind x) (go l) end) l)
  | JObj fs => P_obj fs ((fix go fs := match fs return Forall (λ p, P p.2) fs with
                        | [] => Forall_nil_2 _
                        | p :: fs => Forall_cons_2 _ _ _ (Json_nested_ind p.2) (go fs) end) fs)
  end.
End JsonInd.

Fixpoint json_eqb (v w : Json) {struct v} : bool :=
  match v, w with
  | JUndef, JUndef | JNul, JNul => true
  | JBol x, JBol y => Bool.eqb x y
  | JNo x, JNo y => x =? y
  | JTxt x, JTxt y => str_eqb x y
  | JArr l, JArr k =>
      (fix go l k := match l, k with [], [] => true | x :: l, y :: k => json_eqb x y && go l k | _, _ => false end) l k
  | JObj fs, JObj gs =>
      (fix go fs gs := match fs, gs with
       | [], [] => true
       | p :: fs, p' :: gs => str_eqb p.1 p'.1 && json_eqb p.2 p'.2 && go fs gs
       | _, _ => false end) fs gs
  | _, _ => false
  end.

Lemma json_eqb_eq v w : json_eqb v w = true ↔ v = w.
Proof.
  revert w. induction v as [| |b|n|s|l IH|fs IH] using Json_nested_ind; intros w; destruct w as [| |b'|n'|s'|k|gs]; cbn [json_eqb]; try done.
  - rewrite eqb_true_iff. split; congruence.
  - rewrite Z.eqb_eq. split; congruence.
  - rewrite str_eqb_eq. split; congruence.
  - transitivity (l = k); [|split; congruence]. revert k. induction IH as [|x l Hx _ IHl]; intros [|y k]; try done.
    rewrite andb_true_iff, Hx, IHl. split; [by intros [-> ->]|by intros [= -> ->]].
  - transitivity (fs = gs); [|split; congruence]. revert gs. induction IH as [|[key x] fs Hx _ IHl]; intros [|[key' y] gs]; try done.
    rewrite !andb_true_iff, str_eqb_eq. cbn [fst snd] in *. rewrite Hx, IHl. split; [by intros [[-> ->] ->]|by intros [= -> -> ->]].
Qed.
#[export] Instance Json_eq_dec : EqDecision Json.
Proof. intros v w. destruct (json_eqb v w) eqn:E; [left; by apply json_eqb_eq|right; intros Hw%json_eqb_eq; congruence]. Defined.

(** ** The code *)

Definition entry_le {A} (p q : string * A) : Prop := String.le p.1 q.1.
#[export] Instance entry_le_dec {A} : RelDecision (@entry_le A).
Proof. intros p q. unfold entry_le. apply _. Defined.
#[export] Instance entry_le_total {A} : Total (@entry_le A).
Proof. intros p q. unfold entry_le. apply (total String.le). Qed.
#[export] Instance entry_le_trans {A} : Transitive (@entry_le A).
Proof. intros p q s. unfold entry_le. apply transitivity. Qed.

Definition sort_entries {A} : list (string * A) → list (string * A) := merge_sort entry_le.

Fixpoint sortValue (v : Json) : Json :=
  match v with
  | JArr l => JArr (sortValue <$> l)
  | JObj fs => JObj (sort_entries (prod_map id sortValue <$> fs))
  | v => v
  end.

(** [JSON.stringify(value)]; [None] is [undefined]. *)
Fixpoint json_stringify (v : Json) : option string :=
  match v with
  | JUndef => None
  | JNul => Some "null"
  | JBol b => Some (if b then "true" else "false")
  | JNo n => Some (text (bigint_to_string n))
  | JTxt s => Some (json_string s)
  | JArr l => Some ("[" +:+ join "," ((λ x, default "null" (json_stringify x)) <$> l) +:+ "]")
  | JObj fs => Some ("{" +:+ join "," (omap (λ p, (λ t, json_string p.1 +:+ ":" +:+ t) <$> json_stringify p.2) fs) +:+ "}")
  end.

Definition stableStringify (v : Json) : string := default "" (json_stringify (sortValue v)).

Definition createDigest `{JsHost} (payload : Json) : string := sha256_hex (stableStringify payload).

(** An optional field of a payload. *)
Definition opt_txt (o : option string) : Json := match o with Some s => JTxt s | None => JUndef end.
Definition json_texts (l : list string) : Json := JArr (JTxt <$> l).

(** ** What a text determines

    The value with absent fields left out, absent elements [null] and keys in
    order. *)

Definition is_undef (v : Json) : bool := match v with JUndef => true | _ => false end.
Definition null_undef (v : Json) : Json := match v with JUndef => JNul | v => v end.
Definition present {A} (p : A * Json) : bool := negb (is_undef p.2).

Fixpoint cleaned (v : Json) : Json :=
  match v with
  | JArr l => JArr ((λ x, null_undef (cleaned x)) <$> l)
  | JObj fs => JObj (List.filter present (prod_map id cleaned <$> fs))
  | v => v
  end.

Definition normal (v : Json) : Json := cleaned (sortValue v).

(** Values without absent parts below the root. *)
Fixpoint solid (v : Json) : bool :=
  match v with
  | JUndef => false
  | JArr l => forallb solid l
  | JObj fs => forallb (λ p, solid p.2) fs
  | _ => true
  end.

Fixpoint print_json (v : Json) : string :=
  match v with
  | JUndef => ""
  | JNul => "null"
  | JBol b => if b then "true" else "false"
  | JNo n => text (bigint_to_string n)
  | JTxt s => json_string s
  | JArr l => "[" +:+ join "," (print_json <$> l) +:+ "]"
  | JObj fs => "{" +:+ join "," ((λ p, json_string p.1 +:+ ":" +:+ print_json p.2) <$> fs) +:+ "}"
  end.

Lemma cleaned_undef v : is_undef (cleaned v) = is_undef v.
Proof. by destruct v. Qed.

Lemma cleaned_solid v : is_undef v = false → solid (cleaned v) = true.
Proof.
  induction v as [| | | | |l IH|fs IH] using Json_nested_ind; intros Hu; try done; cbn.
  - apply forallb_forall. intros x (y&->&Hy)%list_elem_of_In%list_elem_of_fmap. rewrite Forall_forall in IH.
    specialize (IH y Hy). pose proof (cleaned_undef y) as E. destruct (cleaned y) eqn:Ec; try done; by apply IH.
  - apply forallb_forall. intros p Hp. apply filter_In in Hp as [Hp%list_elem_of_In Hpr].
    apply list_elem_of_fmap in Hp as ([k w]&->&Hin). rewrite Forall_forall in IH. cbn in *.
    unfold present in Hpr. cbn in Hpr. rewrite cleaned_undef in Hpr. apply negb_true_iff in Hpr. exact (IH (k, w) Hin Hpr).
Qed.

Lemma stringify_cleaned v : is_undef v = false → json_stringify v = Some (print_json (cleaned v)).
Proof.
  induction v as [| | | | |l IH|fs IH] using Json_nested_ind; intros Hu; try done; cbn.
  - do 4 f_equal. rewrite <-list_fmap_compose. apply list_fmap_ext. intros i x Hx. cbn.
    rewrite Forall_lookup in IH. specialize (IH i x Hx). destruct (is_undef x) eqn:Ex; [by destruct x|].
    rewrite IH by done. cbn. pose proof (cleaned_undef x) as E. rewrite Ex in E. by destruct (cleaned x).
  - do 4 f_equal. clear Hu. induction IH as [|[k w] fs IHw _ IHfs]; [done|]. cbn in *.
    destruct (is_undef w) eqn:Ew.
    + by destruct w.
    + rewrite IHw by done. unfold present at 1. cbn. rewrite cleaned_undef, Ew. cbn. f_equal. apply IHfs.
Qed.

(** ** The text is unambiguous *)

Definition tag (c : ascii) : Z :=
  let n := code c in
  if n =? 110 then 0 else if (n =? 116) || (n =? 102) then 1 else if is_digit c || (n =? 45) then 2
  else if n =? 34 then 3 else if n =? 91 then 4 else if n =? 123 then 5 else 6.
Definition kind (v : Json) : Z :=
  match v with JUndef => 7 | JNul => 0 | JBol _ => 1 | JNo _ => 2 | JTxt _ => 3 | JArr _ => 4 | JObj _ => 5 end.

Lemma bigint_head n : ∃ c l, bigint_to_string n = c :: l ∧ tag c = 2.
Proof.
  destruct (Z.lt_ge_cases n 0) as [Hn|Hn].
  - rewrite bigint_negative by done. by eexists _, _.
  - pose proof (bigint_digits n Hn) as Hd. destruct (bigint_to_string_spec n Hn) as [Hok _].
    destruct (bigint_to_string n) as [|c l]; [done|]. exists c, l. split; [done|].
    apply Forall_inv in Hd. unfold tag. destruct c as [[] [] [] [] [] [] [] []]; done.
Qed.

Lemma print_head v : solid v = true → ∃ c t, print_json v = String c t ∧ tag c = kind v.
Proof.
  destruct v as [| |[]|n|s|l|fs]; intros Hs; try done; try (by eexists _, _).
  destruct (bigint_head n) as (c&l&E&Hc). exists c, (text l). cbn [print_json]. rewrite E. done.
Qed.

Lemma kinds_agree v w r1 r2 :
  solid v = true → solid w = true → print_json v +:+ r1 = print_json w +:+ r2 → kind v = kind w.
Proof.
  intros Hv Hw E. destruct (print_head v Hv) as (c&t&Ev&<-), (print_head w Hw) as (d&u&Ew&<-).
  rewrite Ev, Ew in E. change (String c (t +:+ r1) = String d (u +:+ r2)) in E. by injection E as -> _.
Qed.

(** A closed, comma-separated list of items, each unambiguous before a
    character that is not a digit. *)
Lemma items_unambiguous {A} (f : A → string) (close : ascii) (l k : list A) r1 r2 :
  is_digit close = false → close ≠ ","%char →
  Forall (λ a, ∃ c t, f a = String c t ∧ c ≠ close ∧ c ≠ ","%char) (l ++ k) →
  Forall (λ a, ∀ b s1 s2, b ∈ k → starts_nondigit s1 → starts_nondigit s2 → f a +:+ s1 = f b +:+ s2 → a = b ∧ s1 = s2) l →
  join "," (f <$> l) +:+ String close r1 = join "," (f <$> k) +:+ String close r2 → l = k ∧ r1 = r2.
Proof.
  intros Hd Hcl Hh Hu. revert k Hh Hu. induction l as [|a l IH]; intros k Hh Hu E.
  - destruct k as [|b k]; [cbn in E; by injection E|]. exfalso. apply Forall_cons in Hh as [(c&t&Eb&Hc&_) _].
    destruct k; cbn [fmap list_fmap] in E; rewrite ?join_cons, ?string_app_assoc in E; cbn [join] in E; rewrite Eb in E; by injection E.
  - apply Forall_cons in Hu as [Ha Hu].
    destruct k as [|b k].
    { exfalso. apply Forall_cons in Hh as [(c&t&Ea&Hc&_) _].
      destruct l; cbn [fmap list_fmap] in E; rewrite ?join_cons, ?string_app_assoc in E; cbn [join] in E; rewrite Ea in E; by injection E. }
    assert (Forall (λ a, ∃ c t, f a = String c t ∧ c ≠ close ∧ c ≠ ","%char) (l ++ k)) as Hh'.
    { apply Forall_cons in Hh as [_ Hh]. apply Forall_app in Hh as [? [_ ?]%Forall_cons]. by apply Forall_app. }
    assert (∀ s, starts_nondigit ("," +:+ s)) as Hcomma by done.
    destruct l as [|a' l], k as [|b' k]; cbn [fmap list_fmap] in E; rewrite ?join_cons, ?string_app_assoc in E; cbn [join] in E.
    + apply Ha in E as [-> [= ->]]; [done|by left|done|done].
    + apply Ha in E as [_ E]; [|by left|done|apply Hcomma]. by injection E.
    + apply Ha in E as [_ E]; [|by left|apply Hcomma|done]. by injection E.
    + apply Ha in E as [-> E]; [|by left|apply Hcomma|apply Hcomma]. apply string_app_cancel in E.
      destruct (IH (b' :: k) Hh') as [-> ->]; [|done|done].
      eapply Forall_impl; [exact Hu|]. intros x Hx y s1 s2 Hy. apply Hx. by right.
Qed.

Lemma print_head_ok v close : solid v = true → (close = "]"%char ∨ close = "}"%char) →
  ∃ c t, print_json v = String c t ∧ c ≠ close ∧ c ≠ ","%char.
Proof.
  intros Hs Hcl. destruct (print_head v Hs) as (c&t&E&Ht). exists c, t. split; [done|].
  destruct v; try done; cbn in Ht; split; intros ->; try done; by destruct Hcl as [-> | ->].
Qed.

Lemma print_unambiguous v : ∀ w r1 r2,
  solid v = true → solid w = true → starts_nondigit r1 → starts_nondigit r2 →
  print_json v +:+ r1 = print_json w +:+ r2 → v = w ∧ r1 = r2.
Proof.
  induction v as [| |b|n|s|l IH|fs IH] using Json_nested_ind; intros w r1 r2 Hv Hw Hr1 Hr2 E; [done|..];
    pose proof (kinds_agree _ _ _ _ Hv Hw E) as Hk; destruct w as [| |b'|n'|s'|k|gs]; try done; cbn [print_json] in E.
  - by apply string_app_cancel in E as ->.
  - destruct b, b'; try done; by apply string_app_cancel in E as ->.
  - by apply bigint_unambiguous in E as [-> ->].
  - by apply json_string_inj in E as [-> ->].
  - rewrite !string_app_assoc in E. apply string_app_cancel in E. cbn in Hv, Hw. rewrite forallb_forall in Hv, Hw.
    apply items_unambiguous in E as [-> ->]; [done|done|done| |].
    + apply Forall_app. split; apply Forall_forall; intros x Hx%list_elem_of_In; apply print_head_ok; auto.
    + rewrite Forall_forall in IH |- *. intros x Hx y s1 s2 Hy. apply IH; [done|apply Hv|apply Hw]; by apply list_elem_of_In.
  - rewrite !string_app_assoc in E. apply string_app_cancel in E. cbn in Hv, Hw. rewrite forallb_forall in Hv, Hw.
    apply items_unambiguous in E as [-> ->]; [done|done|done| |].
    + apply Forall_forall. intros p _. by eexists _, _.
    + rewrite Forall_forall in IH |- *. intros [a x] Hx [b y] s1 s2 Hy H1 H2 E'. cbn in E'. rewrite !string_app_assoc in E'.
      apply json_string_inj in E' as [-> E']. apply string_app_cancel in E'.
      destruct (IH (b, x) Hx y s1 s2) as [Exy ->]; [apply (Hv (b, x))|apply (Hw (b, y))|done|done|exact E'|by cbn in Exy; subst];
        by apply list_elem_of_In.
Qed.

(** The canonical text determines the normal form of the value. *)
Lemma stableStringify_inj v w :
  is_undef v = false → is_undef w = false → stableStringify v = stableStringify w → normal v = normal w.
Proof.
  unfold stableStringify, normal. intros Hv Hw.
  assert (∀ x, is_undef x = false → is_undef (sortValue x) = false) as Hs by (by intros []).
  rewrite !stringify_cleaned by auto. intros E.
  assert (print_json (cleaned (sortValue v)) = print_json (cleaned (sortValue w))) as E' by exact E.
  apply (print_unambiguous _ _ "" ""); [by apply cleaned_solid, Hs|by apply cleaned_solid, Hs|done|done|].
  by rewrite E'.
Qed.

(** ** The text does not depend on insertion order *)

(** The same value, with the entries of its objects written in another order. *)
Inductive reordered : Json → Json → Prop :=
  | ro_same v : reordered v v
  | ro_arr l k : Forall2 reordered l k → reordered (JArr l) (JArr k)
  | ro_obj fs gs hs : NoDup (fst <$> fs) → Forall2 (λ p q, p.1 = q.1 ∧ reordered p.2 q.2) fs gs → gs ≡ₚ hs →
      reordered (JObj fs) (JObj hs).

Lemma sort_entries_perm {A} (fs gs : list (string * A)) : NoDup (fst <$> fs) → fs ≡ₚ gs → sort_entries fs = sort_entries gs.
Proof.
  intros Hn Hp. unfold sort_entries. apply (StronglySorted_unique_strong entry_le).
  - intros p q Hp1 Hq Hpq Hqp. rewrite merge_sort_Permutation in Hp1. rewrite merge_sort_Permutation, <-Hp in Hq.
    assert (p.1 = q.1) as E by (by apply (anti_symm String.le)). destruct p as [a x], q as [b y]. cbn in E. subst b. f_equal.
    apply list_elem_of_lookup in Hp1 as [i Hi], Hq as [j Hj].
    assert (i = j) as ->; [|congruence]. apply (NoDup_lookup (fst <$> fs) i j a Hn); rewrite list_lookup_fmap; by rewrite ?Hi, ?Hj.
  - apply Sorted_StronglySorted; [apply _|apply Sorted_merge_sort, _].
  - apply Sorted_StronglySorted; [apply _|apply Sorted_merge_sort, _].
  - by rewrite !merge_sort_Permutation.
Qed.

Lemma sortValue_reordered v : ∀ w, reordered v w → sortValue v = sortValue w.
Proof.
  induction v as [| | | | |l IH|fs IH] using Json_nested_ind; intros w Hr; inversion Hr as [|l' k Hf|fs' gs hs Hn Hf Hp]; subst; try done; cbn.
  - f_equal. clear Hr. induction Hf as [|x y l k Hxy Hf IHf]; [done|]. apply Forall_cons in IH as [IHx IH]. cbn. f_equal; auto.
  - f_equal. apply sort_entries_perm; [by rewrite <-list_fmap_compose|]. rewrite <-Hp. clear Hr Hp Hn.
    induction Hf as [|[a x] [b y] fs gs [E Hxy] Hf IHf]; [done|]. apply Forall_cons in IH as [IHx IH]. cbn in *. subst b.
    rewrite (IHx y Hxy). f_equiv. auto.
Qed.

Lemma stableStringify_reordered v w : reordered v w → stableStringify v = stableStringify w.
Proof. intros Hr%sortValue_reordered. unfold stableStringify. by rewrite Hr. Qed.

(** ** Plain data *)

(** Plain data, as the object that code hashes. *)
Fixpoint js_of (v : Json) : JsValue :=
  match v with
  | JUndef => JsUndefined
  | JNul => JsNull
  | JBol b => JsBool b
  | JNo n => JsNum (JInt n)
  | JTxt s => JsString s
  | JArr l => JsArray (js_of <$> l)
  | JObj fs => JsObject true (prod_map id js_of <$> fs)
  end.

(** The results of a list of computations; one that throws makes the whole throw. *)
Fixpoint results {E A} (l : list (result E A)) : result E (list A) :=
  match l with
  | [] => Ok []
  | r :: l => let* a := r in let* k := results l in Ok (a :: k)
  end.
Lemma results_Ok {E A B} (f : A → result E B) (g : A → B) l : Forall (λ x, f x = Ok (g x)) l → results (f <$> l) = Ok (g <$> l).
Proof. induction 1 as [|x l Hx Hl IH]; [done|]. cbn. rewrite Hx. cbn. by rewrite IH. Qed.

Lemma sort_entries_map {A B} (f : A → B) (l : list (string * A)) : NoDup l.*1 → sort_entries (prod_map id f <$> l) = prod_map id f <$> sort_entries l.
Proof.
  intros Hn. assert (NoDup (prod_map id f <$> l).*1) as Hn'. { rewrite <-list_fmap_compose. erewrite list_fmap_ext; [exact Hn|]. by intros i [a b] _. }
  assert (sort_entries (prod_map id f <$> l) = sort_entries (prod_map id f <$> sort_entries l)) as ->.
  { apply sort_entries_perm; [done|]. unfold sort_entries. by rewrite merge_sort_Permutation. }
  unfold sort_entries at 1. apply (StronglySorted_unique_strong entry_le).
  - intros p q Hp Hq Hpq Hqp. rewrite merge_sort_Permutation in Hp. assert (p.1 = q.1) as E by (by apply (anti_symm String.le)).
    assert (NoDup (prod_map id f <$> sort_entries l).*1) as Hs by (unfold sort_entries; by rewrite merge_sort_Permutation).
    destruct p as [a x], q as [b y]. cbn in E. subst b. f_equal. apply list_elem_of_lookup in Hp as [i Hi], Hq as [j Hj].
    assert (i = j) as ->; [|congruence]. apply (NoDup_lookup _ i j a Hs); rewrite list_lookup_fmap; by rewrite ?Hi, ?Hj.
  - apply Sorted_StronglySorted; [apply _|apply Sorted_merge_sort, _].
  - assert (StronglySorted entry_le (sort_entries l)) as Hs by (apply Sorted_StronglySorted; [apply _|apply Sorted_merge_sort, _]).
    induction Hs as [|p k Hk IH Hp]; cbn; constructor; [apply IH|]. apply Forall_fmap. eapply Forall_impl; [exact Hp|]. done.
  - by rewrite merge_sort_Permutation.
Qed.
Lemma solid_sortValue v : solid v = true → solid (sortValue v) = true.
Proof.
  induction v as [| | | | |l IH|fs IH] using Json_nested_ind; try done; cbn; rewrite !forallb_forall, Forall_forall in *.
  - intros Hc x (y&->&Hy)%list_elem_of_In%list_elem_of_fmap. apply IH; [done|]. by apply Hc, list_elem_of_In.
  - intros Hc x Hx%list_elem_of_In. unfold sort_entries in Hx. rewrite merge_sort_Permutation in Hx. apply list_elem_of_fmap in Hx as (y&->&Hy).
    cbn. apply IH; [done|]. by apply Hc, list_elem_of_In.
Qed.
Lemma cleaned_id v : solid v = true → cleaned v = v.
Proof.
  induction v as [| | | | |l IH|fs IH] using Json_nested_ind; try done; cbn; rewrite forallb_forall, Forall_forall in *; intros Hs; f_equal.
  - rewrite <-(list_fmap_id l) at 2. apply list_fmap_ext. intros i x Hx%list_elem_of_lookup_2. specialize (Hs x ltac:(by apply list_elem_of_In)). rewrite IH by done. by destruct x.
  - assert (prod_map id cleaned <$> fs = fs) as ->.
    { rewrite <-(list_fmap_id fs) at 2. apply list_fmap_ext. intros i [k x] Hx%list_elem_of_lookup_2. cbn. f_equal. apply (IH (k, x) Hx), (Hs (k, x)). by apply list_elem_of_In. }
    clear IH. induction fs as [|[k x] fs IHf]; [done|]. cbn. unfold present at 1. cbn. pose proof (Hs (k, x) ltac:(by left)) as Hx. cbn in Hx.
    rewrite IHf by (intros y Hy; apply Hs; by right). by destruct x.
Qed.
Lemma stable_print v : solid v = true → stableStringify v = print_json (sortValue v).
Proof.
  intros Hs. unfold stableStringify. pose proof (solid_sortValue v Hs) as Hs'. rewrite stringify_cleaned by (by destruct (sortValue v)). cbn. by rewrite cleaned_id.
Qed.
