(* ===== verification/HashChain.v ===== *)
(** * Hash-linked logs

    The runtimes of the repository keep their events and proofs in append-only
    arrays in which every entry carries the digest of the entry before it
    ([authority-graph/services/authority-lineage-ledger.ts],
    [approval-runtime/services/approval-ledger.ts] and their proof services).
    This file holds what such a log promises, over any entry type: appending
    keeps it linked, and the last hash vouches for the whole of it. *)

From S2P Require Import Prelude Decimal Js JsMap StableJson.

Local Open Scope frontera_scope.

(** ** Fields of a digested payload *)

Definition json_field (k : string) (v : Json) : option Json := match v with JObj fs => map_get k fs | _ => None end.

Definition found (v : Json) : option Json := if is_undef v then None else Some v.

Lemma map_get_present k (m : JsMap Json) : NoDup (map_keys m) → map_get k (List.filter present m) = map_get k m ≫= found.
Proof.
  induction m as [|[k' v] m IH]; cbn; intros Hn; [done|]. apply NoDup_cons in Hn as [Hk Hn]. specialize (IH Hn).
  unfold present at 1. unfold found in *. cbn. destruct (is_undef v) eqn:Ev; cbn; destruct (str_eqb k' k) eqn:E; cbn; rewrite ?Ev; try done.
  split_and_bool. subst k'. rewrite IH. by rewrite (proj2 (map_get_None k m)).
Qed.

(** What is filed under a key of a normal form. *)
Lemma normal_field k fs : NoDup (map_keys fs) → json_field k (normal (JObj fs)) = (normal <$> map_get k fs) ≫= found.
Proof.
  intros Hn. unfold normal. cbn [sortValue cleaned json_field].
  assert (sort_entries (prod_map id sortValue <$> fs) ≡ₚ prod_map id sortValue <$> fs) as Hp by apply merge_sort_Permutation.
  assert (NoDup (map_keys (sort_entries (prod_map id sortValue <$> fs)))) as Hs.
  { unfold map_keys in *. rewrite Hp. change (NoDup (map_keys (prod_map id sortValue <$> fs))). by rewrite map_keys_fmap. }
  rewrite map_get_present by (by rewrite map_keys_fmap). rewrite map_get_fmap, (map_get_perm _ _ _ Hs Hp), map_get_fmap.
  by destruct (map_get k fs).
Qed.

Lemma normal_opt_txt o : found (normal (opt_txt o)) = JTxt <$> o.
Proof. by destruct o. Qed.

(** The field of a normal form, for data without absent parts. *)
Lemma field_of_normal fs gs k : NoDup (map_keys fs) → NoDup (map_keys gs) → normal (JObj fs) = normal (JObj gs) →
  (normal <$> map_get k fs) ≫= found = (normal <$> map_get k gs) ≫= found.
Proof. intros Hf Hg E. by rewrite <-!normal_field, E. Qed.
Lemma found_normal x y : is_undef x = false → is_undef y = false → (normal <$> Some x) ≫= found = (normal <$> Some y) ≫= found → normal x = normal y.
Proof.
  assert (∀ z, is_undef (normal z) = is_undef z) as Hu by (by intros []). intros Hx Hy. cbn. unfold found. rewrite !Hu, Hx, Hy. by intros [= ->].
Qed.
#[export] Instance JTxt_inj : Inj (=) (=) JTxt.
Proof. by intros ?? [=]. Qed.
Lemma normal_text_list l : normal (JArr (JTxt <$> l)) = JArr (JTxt <$> l).
Proof. unfold normal. cbn. f_equal. rewrite <-!list_fmap_compose. by apply list_fmap_ext. Qed.

Lemma normal_texts l : normal (json_texts l) = json_texts l.
Proof. unfold normal, json_texts. cbn. f_equal. rewrite <-!list_fmap_compose. by apply list_fmap_ext. Qed.
Lemma json_texts_inj l l' : json_texts l = json_texts l' → l = l'.
Proof. intros [= E]. apply (list_fmap_eq_inj JTxt); [by intros ? ? [=]|done]. Qed.

(** The fields of two payloads with the same normal form. *)
Section SameNormal.
Context {fs fs' : JsMap Json}.
Context (Hn : bool_decide (NoDup (map_keys fs)) = true) (Hn' : bool_decide (NoDup (map_keys fs')) = true).
Context (E : normal (JObj fs) = normal (JObj fs')).

Lemma same_value k v v' : map_get k fs = Some v → map_get k fs' = Some v' → normal v = normal v'.
Proof.
  apply bool_decide_eq_true in Hn, Hn'. intros Hv Hv'. pose proof (f_equal (json_field k) E) as F. rewrite !normal_field, Hv, Hv' in F by done.
  cbn in F. unfold found in F. destruct (is_undef (normal v)) eqn:U, (is_undef (normal v')) eqn:U'; simplify_eq; [|done].
  by destruct (normal v), (normal v').
Qed.
Lemma same_text k t t' : map_get k fs = Some (JTxt t) → map_get k fs' = Some (JTxt t') → t = t'.
Proof. intros Hv Hv'. by pose proof (same_value k _ _ Hv Hv') as [= ->]. Qed.
Lemma same_option k o o' : map_get k fs = Some (opt_txt o) → map_get k fs' = Some (opt_txt o') → o = o'.
Proof. intros Hv Hv'. pose proof (same_value k _ _ Hv Hv') as F. destruct o, o'; by simplify_eq. Qed.
Lemma same_texts k l l' : map_get k fs = Some (json_texts l) → map_get k fs' = Some (json_texts l') → l = l'.
Proof. intros Hv Hv'. pose proof (same_value k _ _ Hv Hv') as F. rewrite !normal_texts in F. by apply json_texts_inj. Qed.
End SameNormal.

Ltac field lemma E k := refine (lemma _ _ _ _ E k _ _ _ _); reflexivity.

(** ** Logs *)

Section Log.
Context {R : Type} `{JsHost}.
Context (payload : R → Json) (prev : R → option string) (hash : R → string).

Fixpoint linked_from (p : option string) (l : list R) : Prop :=
  match l with
  | [] => True
  | x :: l => prev x = p ∧ hash x = createDigest (payload x) ∧ linked_from (Some (hash x)) l
  end.
Definition linked (l : list R) : Prop := linked_from None l.

Definition head_hash (l : list R) : option string := hash <$> last l.

Lemma linked_from_snoc p l x :
  linked_from p (l ++ [x]) ↔
  linked_from p l ∧ prev x = (match head_hash l with Some h => Some h | None => p end) ∧ hash x = createDigest (payload x).
Proof.
  unfold head_hash. revert p. induction l as [|y l IH]; intros p; cbn [app linked_from]; [cbn; tauto|].
  rewrite IH. destruct l as [|z l]; [cbn; tauto|]. rewrite last_cons_cons. destruct (last (z :: l)) eqn:E; [tauto|]. by apply last_None in E.
Qed.

Lemma linked_snoc l x : linked (l ++ [x]) ↔ linked l ∧ prev x = head_hash l ∧ hash x = createDigest (payload x).
Proof. unfold linked. rewrite linked_from_snoc. by destruct (head_hash l). Qed.

(** No two different texts among the digested payloads share a digest. *)
Definition collision_free (l k : list R) : Prop :=
  ∀ x y, x ∈ l → y ∈ k → createDigest (payload x) = createDigest (payload y) →
    stableStringify (payload x) = stableStringify (payload y).

Context (payload_some : ∀ x, is_undef (payload x) = false).
Context (payload_prev : ∀ x y, normal (payload x) = normal (payload y) → prev x = prev y).

(** The last hash vouches for the log: two linked logs that end in the same
    hash have the same number of entries, with the same content in the same
    order. *)
Lemma linked_tamper_evident l k :
  linked l → linked k → collision_free l k → head_hash l = head_hash k →
  Forall2 (λ x y, normal (payload x) = normal (payload y)) l k.
Proof.
  revert k. induction l as [|x l IH] using rev_ind; intros k Hl Hk Hc Hh; destruct k as [|y k _] using rev_ind; [done| | |].
  - unfold head_hash in Hh. by rewrite last_snoc in Hh.
  - unfold head_hash in Hh. by rewrite last_snoc in Hh.
  - unfold head_hash in Hh. rewrite !last_snoc in Hh. injection Hh as Hh.
    apply linked_snoc in Hl as (Hl&Hpx&Hx), Hk as (Hk&Hpy&Hy).
    assert (normal (payload x) = normal (payload y)) as Exy.
    { apply stableStringify_inj; [done|done|]. apply Hc; [set_solver|set_solver|congruence]. }
    apply Forall2_app; [|by constructor]. apply IH; [done|done| |].
    + intros a b Ha Hb. apply Hc; set_solver.
    + rewrite <-Hpx, <-Hpy. by apply payload_prev.
Qed.

End Log.
