(* ===== verification/Monetary.v ===== *)
(** * Monetary amounts, assets and financial actions

    Model of [monetary-runtime/domain/monetary-asset.ts],
    [monetary-amount.ts] and [financial-action.ts]. A registry is the map that
    the closure of [createMonetaryAssetRegistry] holds together with the sorted
    identifier list; a refused configuration is [Throw MonetaryConfigurationError]. *)

From Stdlib Require Import QArith.
From S2P Require Import Prelude Decimal Js.

Local Open Scope Z_scope.
Local Open Scope frontera_scope.

Inductive MonetaryError := MonetaryConfigurationError.

(** ** Assets *)

Definition MONETARY_ASSET_MAXIMUM_SCALE : Z := 36.
Definition MONETARY_ASSET_REGISTRY_MAXIMUM_ASSETS : Z := 256.

Record MonetaryAssetDefinition := { assetId : string; asset_scale : Z }.

(** [MONETARY_ASSET_ID_PATTERN.test(value)] on text. *)
Definition asset_id_pattern (s : string) : bool :=
  match chars s with
  | [] => false
  | c :: rest =>
      is_alnum c && forallb (λ c, is_alnum c || one_of "._:/-" c) rest
      && (Z.of_nat (length rest) <=? 127)
  end.

Definition isCanonicalMonetaryAssetId (value : JsValue) : bool :=
  match value with JsString s => asset_id_pattern s | _ => false end.

Definition ownData (properties : list (string * JsValue)) (key : string) : result MonetaryError JsValue :=
  match own_property key properties with
  | None => Ok JsUndefined
  | Some JsAccessor => Throw MonetaryConfigurationError
  | Some v => Ok v
  end.

Definition snapshotDefinition (raw : JsValue) : result MonetaryError MonetaryAssetDefinition :=
  match raw with
  | JsObject true properties =>
      let keys := properties.*1 in
      guard* (length keys =? 2)%nat && forallb (λ key, str_eqb key "assetId" || str_eqb key "scale") keys
        else MonetaryConfigurationError in
      let* assetId := ownData properties "assetId" in
      let* scale := ownData properties "scale" in
      match assetId, scale with
      | JsString id, JsNum n =>
          guard* asset_id_pattern id else MonetaryConfigurationError in
          guard* isSafeInteger n && (0 <=? integer_value n) && (integer_value n <=? MONETARY_ASSET_MAXIMUM_SCALE)
            else MonetaryConfigurationError in
          Ok {| assetId := id; asset_scale := integer_value n |}
      | _, _ => Throw MonetaryConfigurationError
      end
  | _ => Throw MonetaryConfigurationError
  end.

Record MonetaryAssetRegistry := {
  byId : gmap string MonetaryAssetDefinition;
  assetIds : list string;
}.

(** The [forEach] that fills [byId]; the keys are kept in insertion order. *)
Fixpoint register_assets (byId : gmap string MonetaryAssetDefinition) (keys : list string)
    (definitions : list JsValue) : result MonetaryError (gmap string MonetaryAssetDefinition * list string) :=
  match definitions with
  | [] => Ok (byId, keys)
  | raw :: definitions =>
      let* definition := snapshotDefinition raw in
      guard* negb (is_some (byId !! assetId definition)) else MonetaryConfigurationError in
      register_assets (<[assetId definition := definition]> byId) (keys ++ [assetId definition]) definitions
  end.

Definition createMonetaryAssetRegistry (definitions : JsValue) : result MonetaryError MonetaryAssetRegistry :=
  match definitions with
  | JsArray definitions =>
      guard* Z.of_nat (length definitions) <=? MONETARY_ASSET_REGISTRY_MAXIMUM_ASSETS
        else MonetaryConfigurationError in
      let* filled := register_assets ∅ [] definitions in
      Ok {| byId := filled.1; assetIds := sort_strings filled.2 |}
  | _ => Throw MonetaryConfigurationError
  end.

(** [registry.resolve(assetId)] *)
Definition resolve (assets : MonetaryAssetRegistry) (id : JsValue) : option MonetaryAssetDefinition :=
  match id with JsString s => byId assets !! s | _ => None end.

(** ** Amounts *)

Record MonetaryAmount := { value : string; unit_ : string }.

Inductive MonetaryAmountViolation :=
  | MONETARY_VALUE_NOT_TEXT
  | MONETARY_VALUE_MALFORMED
  | MONETARY_UNIT_UNKNOWN
  | MONETARY_SCALE_EXCEEDED.

Inductive MonetaryAmountParse :=
  | Valid (amount : MonetaryAmount)
  | Invalid (violation : MonetaryAmountViolation).

(** [canonicalDecimalScale] cannot throw here: its argument came out of the
    canonicalizer. A [RangeError] would propagate, hence the [result]. *)
Definition parseMonetaryAmount (input_value input_unit : JsValue) (assets : MonetaryAssetRegistry) :
    result DecimalError MonetaryAmountParse :=
  match input_value with
  | JsString s =>
      match canonicalizeDecimalText s with
      | None => Ok (Invalid MONETARY_VALUE_MALFORMED)
      | Some v =>
          match resolve assets input_unit with
          | None => Ok (Invalid MONETARY_UNIT_UNKNOWN)
          | Some asset =>
              let* k := canonicalDecimalScale v in
              if asset_scale asset <? Z.of_nat k then Ok (Invalid MONETARY_SCALE_EXCEEDED)
              else Ok (Valid {| value := v; unit_ := assetId asset |})
          end
      end
  | _ => Ok (Invalid MONETARY_VALUE_NOT_TEXT)
  end.

Definition isWellFormedMonetaryAmount (a : MonetaryAmount) : bool :=
  isCanonicalDecimal (value a) MONETARY_DECIMAL_MAXIMUM_DIGITS && asset_id_pattern (unit_ a).

Definition isPositiveMonetaryAmount (a : MonetaryAmount) : bool :=
  isWellFormedMonetaryAmount a && negb (str_eqb (value a) "0").

(** [None] is ['incomparable']; the comparison itself cannot throw on
    well-formed amounts, which [compareMonetaryAmounts_total] states. *)
Definition compareMonetaryAmounts (left right : MonetaryAmount) : result DecimalError (option comparison) :=
  if negb (isWellFormedMonetaryAmount left) || negb (isWellFormedMonetaryAmount right) then Ok None
  else if negb (str_eqb (unit_ left) (unit_ right)) then Ok None
  else let* order := compareCanonicalDecimals (value left) (value right) in Ok (Some order).

(** ** Financial action classification *)

Inductive GovernedActionClass := financial | non_financial.

Definition isActionIdentifier (v : JsValue) : bool :=
  match v with
  | JsString s =>
      nonempty s && (js_length s <=? 256) && is_trimmed s && negb (existsb is_control (chars s))
  | _ => false
  end.

Record FinancialActionClassifier := { financial_set : gset string; financialActions : list string }.

Fixpoint collect_actions (listed : list JsValue) : result MonetaryError (list string) :=
  match listed with
  | [] => Ok []
  | v :: listed =>
      match v with
      | JsString s =>
          guard* isActionIdentifier v else MonetaryConfigurationError in
          let* rest := collect_actions listed in Ok (s :: rest)
      | _ => Throw MonetaryConfigurationError
      end
  end.

Definition createFinancialActionClassifier (listed : JsValue) : result MonetaryError FinancialActionClassifier :=
  match listed with
  | JsArray listed =>
      let* actions := collect_actions listed in
      Ok {| financial_set := list_to_set actions; financialActions := sort_strings (nub actions) |}
  | _ => Throw MonetaryConfigurationError
  end.

Definition classify (c : FinancialActionClassifier) (action : JsValue) : GovernedActionClass :=
  match action with
  | JsString s => if bool_decide (s ∈ financial_set c) then financial else non_financial
  | _ => non_financial
  end.

(** ** Registries *)

(** What a deployment's registry promises its readers. *)
Definition definition_ok (d : MonetaryAssetDefinition) : Prop :=
  asset_id_pattern (assetId d) = true ∧ 0 ≤ asset_scale d ≤ MONETARY_ASSET_MAXIMUM_SCALE.
Definition registry_ok (r : MonetaryAssetRegistry) : Prop :=
  (∀ id d, byId r !! id = Some d → assetId d = id ∧ definition_ok d) ∧
  NoDup (assetIds r) ∧ StronglySorted String.le (assetIds r) ∧
  (∀ id, id ∈ assetIds r ↔ is_Some (byId r !! id)).

Lemma snapshotDefinition_ok raw d : snapshotDefinition raw = Ok d → definition_ok d.
Proof.
  unfold snapshotDefinition. intros H. destruct raw as [| | | | | |[] ps| |]; try done.
  break_if; [|done]. apply result_bind_Ok in H as (vi&_&H). apply result_bind_Ok in H as (vs&_&H).
  destruct vi; try done. destruct vs; try done. break_if; [|done]. break_if; [|done].
  injection H as <-. split_and_bool. rewrite !Z.leb_le in *. by split; [|split].
Qed.

Lemma register_assets_ok m keys defs m' keys' :
  register_assets m keys defs = Ok (m', keys') →
  (∀ id d, m !! id = Some d → assetId d = id ∧ definition_ok d) → NoDup keys →
  (∀ id, id ∈ keys ↔ is_Some (m !! id)) →
  (∀ id d, m' !! id = Some d → assetId d = id ∧ definition_ok d) ∧ NoDup keys' ∧
  (∀ id, id ∈ keys' ↔ is_Some (m' !! id)).
Proof.
  revert m keys. induction defs as [|raw defs IH]; intros m keys H Hm Hn Hk; cbn in H.
  { by injection H as -> ->. }
  apply result_bind_Ok in H as (d&Hd%snapshotDefinition_ok&H). break_if; [|done].
  split_and_bool. apply IH in H; [done|..].
  - intros id d'. rewrite lookup_insert_Some. intros [[<- <-]|[_ ?]]; auto.
  - apply NoDup_app. split; [done|]. split; [|apply NoDup_singleton].
    intros x Hx ->%list_elem_of_singleton. apply Hk, is_some_true in Hx. congruence.
  - intros id. rewrite elem_of_app, list_elem_of_singleton, Hk, lookup_insert_is_Some.
    destruct (decide (assetId d = id)) as [E|E]; [by split; auto|].
    split; [intros [?| ->]; auto|intros [?|[??]]; auto].
Qed.

Lemma createMonetaryAssetRegistry_ok definitions r :
  createMonetaryAssetRegistry definitions = Ok r → registry_ok r.
Proof.
  unfold createMonetaryAssetRegistry. intros H. destruct definitions; try done.
  break_if; [|done]. apply result_bind_Ok in H as ([m keys]&H&[= <-]).
  apply register_assets_ok in H as (?&?&Hk).
  - split; [done|]. cbn. split; [by rewrite sort_strings_perm|].
    split; [apply sort_strings_sorted|]. intros id. by rewrite elem_of_sort_strings.
  - intros id d. by rewrite lookup_empty.
  - constructor.
  - intros id. rewrite lookup_empty, elem_of_nil. split; [done|by intros []].
Qed.

(** ** The ingress and the comparison *)

Lemma canonicalized_is_canonical s r :
  canonicalizeDecimalText s = Some r →
  isCanonicalDecimal r MONETARY_DECIMAL_MAXIMUM_DIGITS = true ∧ (dec_value r == dec_value s)%Q ∧
  canonicalDecimalScale r = Ok (scale (parse_decimal (chars r))).
Proof.
  intros H%canonicalizeDecimalText_inv. destruct H as (_&_&Hr&Hv). split; [done|]. split; [done|].
  by apply canonicalDecimalScale_Ok, isCanonicalDecimal_safe.
Qed.

(** The single ingress of money is exact on every branch. An accepted
    amount is well formed, names a registered asset by its own identifier,
    denotes the quantity the caller wrote, and that quantity is representable
    at the asset's registered scale; each refusal states its cause, and a
    scale refusal really is a quantity the asset cannot represent (nothing is
    rounded). The call never throws. *)
Theorem parseMonetaryAmount_spec (assets : MonetaryAssetRegistry) (v u : JsValue) :
  registry_ok assets →
  match parseMonetaryAmount v u assets with
  | Ok (Valid a) => ∃ s d,
      v = JsString s ∧ u = JsString (unit_ a) ∧ byId assets !! unit_ a = Some d ∧
      isWellFormedMonetaryAmount a = true ∧ (dec_value (value a) == dec_value s)%Q ∧
      representable (dec_value s) (asset_scale d)
  | Ok (Invalid MONETARY_VALUE_NOT_TEXT) => ∀ s, v ≠ JsString s
  | Ok (Invalid MONETARY_VALUE_MALFORMED) => ∃ s, v = JsString s ∧ canonicalizeDecimalText s = None
  | Ok (Invalid MONETARY_UNIT_UNKNOWN) => resolve assets u = None
  | Ok (Invalid MONETARY_SCALE_EXCEEDED) => ∃ s d,
      v = JsString s ∧ resolve assets u = Some d ∧ ¬ representable (dec_value s) (asset_scale d)
  | Throw _ => False
  end.
Proof.
  intros (Hreg&_). unfold parseMonetaryAmount. destruct v as [| | | |s| | | |]; try done.
  destruct (canonicalizeDecimalText s) as [r|] eqn:Hs; [|by exists s].
  destruct (canonicalized_is_canonical _ _ Hs) as (Hr&Hv&Hk).
  destruct (resolve assets u) as [d|] eqn:Hu; [|done]. rewrite Hk. cbn [result_bind].
  destruct u as [| | | |id| | | |]; try done. cbn in Hu. destruct (Hreg _ _ Hu) as (Hid&Hpat&Hsc).
  pose proof (representable_scale r (Z.to_nat (asset_scale d)) (isCanonicalDecimal_grammar _ _ Hr)) as Hrep.
  rewrite Z2Nat.id in Hrep by lia.
  assert (representable (dec_value r) (asset_scale d) ↔ representable (dec_value s) (asset_scale d)) as Hiff.
  { unfold representable. by setoid_rewrite Hv. }
  destruct (Z.ltb_spec (asset_scale d) (Z.of_nat (scale (parse_decimal (chars r))))) as [L|L].
  - exists s, d. split; [done|]. split; [done|]. rewrite <-Hiff, Hrep. lia.
  - exists s, d. cbn. rewrite Hid. do 3 (split; [done|]). split.
    + unfold isWellFormedMonetaryAmount. cbn. rewrite Hr, <-Hid, Hpat. done.
    + split; [done|]. apply Hiff, Hrep. lia.
Qed.

(** A deployment of two assets. *)
Definition sample_assets : JsValue := JsArray
  [ JsObject true [("assetId", JsString "USD"); ("scale", JsNum (JInt 2))];
    JsObject true [("scale", JsNum (JInt 6)); ("assetId", JsString "xrpl:XRP")] ].
Definition sample_registry : MonetaryAssetRegistry :=
  match createMonetaryAssetRegistry sample_assets with Ok r => r | Throw _ => {| byId := ∅; assetIds := [] |} end.

Lemma sample_registry_ok : registry_ok sample_registry.
Proof. by apply (createMonetaryAssetRegistry_ok sample_assets). Qed.

Lemma parseMonetaryAmount_spec_witness :
  parseMonetaryAmount (JsString "10.50") (JsString "USD") sample_registry
    = Ok (Valid {| value := "10.5"; unit_ := "USD" |}) ∧
  (∃ s d, JsString "10.001" = JsString s ∧ resolve sample_registry (JsString "USD") = Some d ∧
    ¬ representable (dec_value s) (asset_scale d)).
Proof.
  split; [reflexivity|].
  exact (parseMonetaryAmount_spec sample_registry (JsString "10.001") (JsString "USD") sample_registry_ok).
Defined.

Lemma compareMonetaryAmounts_total l r :
  isWellFormedMonetaryAmount l = true → isWellFormedMonetaryAmount r = true → unit_ l = unit_ r →
  compareMonetaryAmounts l r = Ok (Some (Qcompare (dec_value (value l)) (dec_value (value r)))).
Proof.
  intros Hl Hr E. unfold compareMonetaryAmounts. rewrite Hl, Hr, E, str_eqb_refl. cbn.
  unfold isWellFormedMonetaryAmount in *. split_and_bool.
  rewrite compareCanonicalDecimals_value; [done| |]; by apply isCanonicalDecimal_safe.
Qed.
