(* ===== verification/Parameters.v ===== *)
(** * Typed governed-action parameters

    Model of [governed-parameter-runtime/domain]: the identifier grammar
    ([semantic-identifier.ts]), typed values ([parameter-value.ts]), the bound
    algebra ([parameter-bound.ts]), the dimension registry
    ([parameter-dimension.ts]) and the action semantics
    ([governed-action-semantics.ts]). A value or bound carries its declared
    type as its constructor; the numbers inside are arbitrary [JsNumber]s, as
    the code re-checks them. *)

From S2P Require Import Prelude Decimal Js.

Local Open Scope Z_scope.
Local Open Scope frontera_scope.

(** ** Semantic identifiers *)

Definition SEMANTIC_IDENTIFIER_MAX_LENGTH : Z := 64.

(** The tail of [SEMANTIC_IDENTIFIER]: letters and digits joined by single
    separators; [after] says that the previous character was a separator. *)
Fixpoint semantic_tail (after : bool) (l : list ascii) : bool :=
  match l with
  | [] => negb after
  | c :: l =>
      if is_alnum c then semantic_tail false l
      else one_of "._-" c && negb after && semantic_tail true l
  end.

Definition isSemanticIdentifier (s : string) : bool :=
  nonempty s && (js_length s <=? SEMANTIC_IDENTIFIER_MAX_LENGTH) &&
  match chars s with [] => false | c :: l => is_lower c && semantic_tail false l end.

Definition semanticIdentifierFold (identifier : string) : string := toLowerCase identifier.

(** ** Values *)

Inductive GovernedParameterType := t_boolean | t_integer | t_token.
Global Instance GovernedParameterType_eq_dec : EqDecision GovernedParameterType.
Proof. solve_decision. Defined.

Inductive GovernedParameterValue :=
  | VInteger (n : JsNumber)
  | VToken (s : string)
  | VBoolean (b : bool).
Global Instance GovernedParameterValue_eq_dec : EqDecision GovernedParameterValue.
Proof. solve_decision. Defined.

Definition value_type (v : GovernedParameterValue) : GovernedParameterType :=
  match v with VInteger _ => t_integer | VToken _ => t_token | VBoolean _ => t_boolean end.

Record GovernedParameter := { dimension : string; parameter_value : GovernedParameterValue }.

Definition GOVERNED_PARAMETER_TOKEN_MAX_LENGTH : Z := 128.

Definition isGovernedParameterToken (s : string) : bool :=
  nonempty s && (js_length s <=? GOVERNED_PARAMETER_TOKEN_MAX_LENGTH) &&
  match chars s with [] => false | c :: l => is_alnum c && forallb (λ c, is_alnum c || one_of "._:@-" c) l end.

Definition isGovernedParameterInteger (n : JsNumber) : bool :=
  isSafeInteger n && negb (bool_decide (n = JNegZero)).

Inductive GovernedParameterViolation :=
  | PARAMETER_VALUE_WRONG_TYPE
  | PARAMETER_INTEGER_NOT_SAFE
  | PARAMETER_TOKEN_MALFORMED.

Inductive GovernedParameterParse :=
  | ParameterValid (value : GovernedParameterValue)
  | ParameterInvalid (violation : GovernedParameterViolation).

Definition parseGovernedParameterValue (type : GovernedParameterType) (raw : JsValue) : GovernedParameterParse :=
  match type with
  | t_integer =>
      match raw with
      | JsNum n =>
          if negb (isGovernedParameterInteger n) then ParameterInvalid PARAMETER_INTEGER_NOT_SAFE
          else ParameterValid (VInteger n)
      | _ => ParameterInvalid PARAMETER_VALUE_WRONG_TYPE
      end
  | t_token =>
      match raw with
      | JsString s =>
          if negb (isGovernedParameterToken s) then ParameterInvalid PARAMETER_TOKEN_MALFORMED
          else ParameterValid (VToken s)
      | _ => ParameterInvalid PARAMETER_VALUE_WRONG_TYPE
      end
  | t_boolean =>
      match raw with
      | JsBool b => ParameterValid (VBoolean b)
      | _ => ParameterInvalid PARAMETER_VALUE_WRONG_TYPE
      end
  end.

Definition isWellFormedGovernedParameterValue (v : GovernedParameterValue) : bool :=
  match v with
  | VInteger n => isGovernedParameterInteger n
  | VToken s => isGovernedParameterToken s
  | VBoolean _ => true
  end.

Definition isWellFormedGovernedParameter (p : GovernedParameter) : bool :=
  isSemanticIdentifier (dimension p) && isWellFormedGovernedParameterValue (parameter_value p).

Definition governedParameterValuesEqual (l r : GovernedParameterValue) : bool :=
  match l, r with
  | VInteger a, VInteger b => number_strict_equals a b
  | VToken a, VToken b => str_eqb a b
  | VBoolean a, VBoolean b => Bool.eqb a b
  | _, _ => false
  end.

(** ** Bounds *)

Inductive GovernedParameterBoundKind := k_exact | k_maximum.

Inductive GovernedParameterBound :=
  | BExact (value : GovernedParameterValue)
  | BMaximum (limit : JsNumber).
Global Instance GovernedParameterBound_eq_dec : EqDecision GovernedParameterBound.
Proof. solve_decision. Defined.

(** The four outcomes both bound algebras share. *)
Inductive BoundComparison := equal | narrower | broader | incomparable.
Global Instance BoundComparison_eq_dec : EqDecision BoundComparison.
Proof. solve_decision. Defined.

Definition bound_type (b : GovernedParameterBound) : GovernedParameterType :=
  match b with BExact v => value_type v | BMaximum _ => t_integer end.

Definition governedParameterBoundKindSupports (kind : GovernedParameterBoundKind) (type : GovernedParameterType) : bool :=
  match kind with k_exact => true | k_maximum => bool_decide (type = t_integer) end.

Definition isWellFormedGovernedParameterBound (b : GovernedParameterBound) : bool :=
  match b with
  | BExact v => isWellFormedGovernedParameterValue v
  | BMaximum limit => isGovernedParameterInteger limit
  end.

Definition governedParameterBoundFor (kind : GovernedParameterBoundKind) (v : GovernedParameterValue) : option GovernedParameterBound :=
  if negb (isWellFormedGovernedParameterValue v) || negb (governedParameterBoundKindSupports kind (value_type v)) then None
  else match kind with
       | k_maximum => match v with VInteger n => Some (BMaximum n) | _ => None end
       | k_exact => Some (BExact v)
       end.

Definition compareGovernedParameterBound (source requested : GovernedParameterBound) : BoundComparison :=
  if negb (isWellFormedGovernedParameterBound source) || negb (isWellFormedGovernedParameterBound requested) then incomparable
  else match source, requested with
       | BExact s, BExact r =>
           if negb (bool_decide (value_type s = value_type r)) then incomparable
           else if governedParameterValuesEqual s r then equal else incomparable
       | BMaximum s, BMaximum r =>
           if integer_value s <? integer_value r then broader
           else if integer_value r =? integer_value s then equal else narrower
       | _, _ => incomparable
       end.

Definition boundComparisonPermits (c : BoundComparison) : bool :=
  match c with equal | narrower => true | _ => false end.

Definition governedParameterBoundAdmits (b : GovernedParameterBound) (v : GovernedParameterValue) : bool :=
  if negb (isWellFormedGovernedParameterBound b) || negb (isWellFormedGovernedParameterValue v) then false
  else if negb (bool_decide (bound_type b = value_type v)) then false
  else match b with
       | BExact e => governedParameterValuesEqual e v
       | BMaximum limit => match v with VInteger n => integer_value n <=? integer_value limit | _ => false end
       end.

Definition type_name (t : GovernedParameterType) : string :=
  match t with t_boolean => "boolean" | t_integer => "integer" | t_token => "token" end.
Definition json_parameter_value (v : GovernedParameterValue) : string :=
  match v with
  | VInteger n => json_number n
  | VToken s => json_string s
  | VBoolean b => if b then "true" else "false"
  end.

(** The fields after the opening brace, which [serializeGrantParameterBound]
    reuses through [bound.slice(1)]. *)
Definition serialize_bound_fields (b : GovernedParameterBound) : string :=
  match b with
  | BMaximum limit => quoted "kind" +:+ ":" +:+ quoted "maximum" +:+ "," +:+ quoted "limit" +:+ ":" +:+
      json_number limit +:+ "," +:+ quoted "type" +:+ ":" +:+ quoted "integer" +:+ "}"
  | BExact v => quoted "kind" +:+ ":" +:+ quoted "exact" +:+ "," +:+ quoted "type" +:+ ":" +:+
      json_string (type_name (value_type v)) +:+ "," +:+ quoted "value" +:+ ":" +:+ json_parameter_value v +:+ "}"
  end.
Definition serializeGovernedParameterBound (b : GovernedParameterBound) : string :=
  "{" +:+ serialize_bound_fields b.

(** ** The dimension registry *)

Record ParameterDimensionDeclaration := {
  dimension_id : string;
  dimension_type : GovernedParameterType;
  dimension_bound : GovernedParameterBoundKind;
}.

(** A typed value with how its declared dimension bounds. *)
Record DeclaredGovernedParameter := {
  declared : GovernedParameter;
  declared_bound : GovernedParameterBoundKind;
}.

Definition PARAMETER_DIMENSION_REGISTRY_MAX_DIMENSIONS : Z := 64.

Inductive DimensionError := ParameterDimensionConfigurationError.

Record ParameterDimensionRegistry := {
  dimensions : list ParameterDimensionDeclaration;
  dimension_map : gmap string ParameterDimensionDeclaration;
}.

Definition isGovernedParameterType (v : JsValue) : option GovernedParameterType :=
  match v with
  | JsString s =>
      if str_eqb s "boolean" then Some t_boolean
      else if str_eqb s "integer" then Some t_integer
      else if str_eqb s "token" then Some t_token else None
  | _ => None
  end.
Definition isGovernedParameterBoundKind (v : JsValue) : option GovernedParameterBoundKind :=
  match v with
  | JsString s =>
      if str_eqb s "exact" then Some k_exact else if str_eqb s "maximum" then Some k_maximum else None
  | _ => None
  end.

(** [raw[key]] *)
Definition read_property (key : string) (properties : list (string * JsValue)) : JsValue :=
  default JsUndefined (own_property key properties).

Definition DECLARATION_KEYS : list string := ["id"; "type"; "bound"].

(** One iteration of the loop, up to the duplicate check. *)
Definition snapshot_declaration (raw : JsValue) : result DimensionError ParameterDimensionDeclaration :=
  match raw with
  | JsObject true properties =>
      guard* forallb (λ key, bool_decide (key ∈ DECLARATION_KEYS)) properties.*1
        else ParameterDimensionConfigurationError in
      match read_property "id" properties with
      | JsString id =>
          guard* isSemanticIdentifier id else ParameterDimensionConfigurationError in
          match isGovernedParameterType (read_property "type" properties),
                isGovernedParameterBoundKind (read_property "bound" properties) with
          | Some type, Some bound =>
              guard* governedParameterBoundKindSupports bound type else ParameterDimensionConfigurationError in
              Ok {| dimension_id := id; dimension_type := type; dimension_bound := bound |}
          | _, _ => Throw ParameterDimensionConfigurationError
          end
      | _ => Throw ParameterDimensionConfigurationError
      end
  | _ => Throw ParameterDimensionConfigurationError
  end.

Fixpoint register_dimensions (byId : gmap string ParameterDimensionDeclaration)
    (order : list ParameterDimensionDeclaration) (folds : gset string) (declarations : list JsValue) :
    result DimensionError (gmap string ParameterDimensionDeclaration * list ParameterDimensionDeclaration) :=
  match declarations with
  | [] => Ok (byId, order)
  | raw :: declarations =>
      let* d := snapshot_declaration raw in
      let fold := semanticIdentifierFold (dimension_id d) in
      guard* negb (bool_decide (fold ∈ folds)) else ParameterDimensionConfigurationError in
      register_dimensions (<[dimension_id d := d]> byId) (order ++ [d]) ({[ fold ]} ∪ folds) declarations
  end.

Definition dimension_le (l r : ParameterDimensionDeclaration) : Prop :=
  String.le (dimension_id l) (dimension_id r).
Global Instance dimension_le_dec : RelDecision dimension_le.
Proof. intros l r. unfold dimension_le. apply _. Defined.
Global Instance dimension_le_total : Total dimension_le.
Proof. intros l r. unfold dimension_le. apply (total String.le). Qed.

Definition createParameterDimensionRegistry (declarations : JsValue) : result DimensionError ParameterDimensionRegistry :=
  match declarations with
  | JsArray declarations =>
      guard* Z.of_nat (length declarations) <=? PARAMETER_DIMENSION_REGISTRY_MAX_DIMENSIONS
        else ParameterDimensionConfigurationError in
      let* filled := register_dimensions ∅ [] ∅ declarations in
      Ok {| dimensions := merge_sort dimension_le filled.2; dimension_map := filled.1 |}
  | _ => Throw ParameterDimensionConfigurationError
  end.

Definition get_dimension (r : ParameterDimensionRegistry) (id : string) : option ParameterDimensionDeclaration :=
  dimension_map r !! id.

(** [compareDimensionIds(left, right) < 0] *)
Definition compareDimensionIds (left right : string) : comparison := String.compare left right.

(** ** Action semantics *)

Record GovernanceProfileReference := { profile_id : string; profile_version : JsNumber; profile_digest : string }.
Record GovernedActionSemantics := {
  actionClass : string;
  resourceClass : string;
  governanceProfile : GovernanceProfileReference;
}.

Definition GOVERNANCE_PROFILE_VERSION_MAX : Z := 2147483647.
Definition GOVERNED_PARAMETERS_MAX : Z := 32.

(** [DIGEST.test(value)]: [sha256:] and 64 lowercase hexadecimal digits. *)
Definition is_sha256_digest (s : string) : bool :=
  String.prefix "sha256:" s && forallb is_hex (drop 7 (chars s)) && (js_length s =? 71).

Definition isGovernanceProfileVersion (n : JsNumber) : bool :=
  isSafeInteger n && (1 <=? integer_value n) && (integer_value n <=? GOVERNANCE_PROFILE_VERSION_MAX).

Definition isWellFormedGovernanceProfileReference (r : GovernanceProfileReference) : bool :=
  isSemanticIdentifier (profile_id r) && isGovernanceProfileVersion (profile_version r) &&
  is_sha256_digest (profile_digest r).

Definition formatGovernanceProfileReference (r : GovernanceProfileReference) : string :=
  profile_id r +:+ "@" +:+ json_number (profile_version r) +:+ "#" +:+ profile_digest r.

Definition isWellFormedGovernedActionSemantics (s : GovernedActionSemantics) : bool :=
  isSemanticIdentifier (actionClass s) && isSemanticIdentifier (resourceClass s) &&
  isWellFormedGovernanceProfileReference (governanceProfile s).

Definition isWellFormedDeclaredGovernedParameters (ps : list DeclaredGovernedParameter) : bool :=
  (0 <? Z.of_nat (length ps)) && (Z.of_nat (length ps) <=? GOVERNED_PARAMETERS_MAX) &&
  every_with_previous (λ previous p,
    isWellFormedGovernedParameter (declared p) &&
    governedParameterBoundKindSupports (declared_bound p) (value_type (parameter_value (declared p))) &&
    match previous with
    | None => true
    | Some q => bool_decide (compareDimensionIds (dimension (declared q)) (dimension (declared p)) = Lt)
    end) None ps.

(** ** The bound algebra agrees with what bounds admit *)

Lemma isGovernedParameterInteger_inv n :
  isGovernedParameterInteger n = true ↔ ∃ z, n = JInt z ∧ - MAX_SAFE_INTEGER ≤ z ≤ MAX_SAFE_INTEGER.
Proof.
  unfold isGovernedParameterInteger. destruct n as [z| | | |]; cbn; try naive_solver.
  rewrite !andb_true_iff, !Z.leb_le. split; [intros [? _]; eauto|]. by intros (?&[= <-]&?).
Qed.

Lemma governedParameterValuesEqual_eq v w :
  isWellFormedGovernedParameterValue v = true → isWellFormedGovernedParameterValue w = true →
  governedParameterValuesEqual v w = true ↔ v = w.
Proof.
  destruct v as [n| |], w as [m| |]; cbn; intros Hv Hw; try (split; congruence).
  - apply isGovernedParameterInteger_inv in Hv as (a&->&_). apply isGovernedParameterInteger_inv in Hw as (b&->&_).
    unfold number_strict_equals. destruct a, b; rewrite ?bool_decide_eq_true; split; congruence.
  - rewrite str_eqb_eq. split; congruence.
  - rewrite Bool.eqb_true_iff. split; congruence.
Qed.

(** What a bound admits, as a predicate on values. *)
Definition admitted (b : GovernedParameterBound) (v : GovernedParameterValue) : Prop :=
  governedParameterBoundAdmits b v = true.

Lemma admitted_exact e v :
  admitted (BExact e) v ↔ isWellFormedGovernedParameterValue e = true ∧ v = e.
Proof.
  unfold admitted, governedParameterBoundAdmits. cbn.
  destruct (isWellFormedGovernedParameterValue e) eqn:He; cbn; [|naive_solver].
  destruct (isWellFormedGovernedParameterValue v) eqn:Hv; cbn; [|naive_solver].
  case_bool_decide as Ht; cbn; [|naive_solver].
  rewrite governedParameterValuesEqual_eq by done. naive_solver.
Qed.

Lemma admitted_maximum l v :
  admitted (BMaximum l) v ↔
  ∃ limit z, l = JInt limit ∧ v = VInteger (JInt z) ∧ z ≤ limit ∧
    - MAX_SAFE_INTEGER ≤ limit ≤ MAX_SAFE_INTEGER ∧ - MAX_SAFE_INTEGER ≤ z ≤ MAX_SAFE_INTEGER.
Proof.
  unfold admitted, governedParameterBoundAdmits. cbn.
  destruct (isGovernedParameterInteger l) eqn:Hl; cbn.
  - apply isGovernedParameterInteger_inv in Hl as (limit&->&?).
    destruct v as [n| |]; cbn [isWellFormedGovernedParameterValue bound_type value_type].
    + destruct (isGovernedParameterInteger n) eqn:Hn; cbn [negb orb].
      * apply isGovernedParameterInteger_inv in Hn as (z&->&?). rewrite bool_decide_true by done. cbn [negb integer_value]. rewrite Z.leb_le.
        split; [eauto 10|]. by intros (?&?&[= <-]&[= <-]&?&_).
      * split; [done|]. intros (?&z&_&[= ->]&_&_&?).
        assert (isGovernedParameterInteger (JInt z) = true); [|congruence].
        apply isGovernedParameterInteger_inv. eauto.
    + split; [by destruct (isGovernedParameterToken s)|by intros (?&?&_&?&_)].
    + split; [done|by intros (?&?&_&?&_)].
  - split; [done|]. intros (limit&?&->&_&_&?&_).
    assert (isGovernedParameterInteger (JInt limit) = true); [|congruence].
    apply isGovernedParameterInteger_inv. eauto.
Qed.

Lemma compareGovernedParameterBound_sound (source requested : GovernedParameterBound) :
  match compareGovernedParameterBound source requested with
  | equal => ∀ v, admitted requested v ↔ admitted source v
  | narrower => (∀ v, admitted requested v → admitted source v) ∧ ∃ v, admitted source v ∧ ¬ admitted requested v
  | broader => (∀ v, admitted source v → admitted requested v) ∧ ∃ v, admitted requested v ∧ ¬ admitted source v
  | incomparable =>
      isWellFormedGovernedParameterBound source && isWellFormedGovernedParameterBound requested = false ∨
      match source, requested with BExact a, BExact b => a ≠ b | BMaximum _, BMaximum _ => False | _, _ => True end
  end.
Proof.
  unfold compareGovernedParameterBound.
  destruct (isWellFormedGovernedParameterBound source) eqn:Hs; cbn [negb orb andb]; [|by left].
  destruct (isWellFormedGovernedParameterBound requested) eqn:Hr; cbn [negb]; [|by left].
  destruct source as [s|s], requested as [r|r]; cbn in Hs, Hr; try by right.
  - case_bool_decide as Ht; cbn [negb]; [|right; by intros ->].
    destruct (governedParameterValuesEqual s r) eqn:E.
    + apply governedParameterValuesEqual_eq in E as ->; done.
    + right. intros ->. assert (governedParameterValuesEqual r r = true); [|congruence].
      by apply governedParameterValuesEqual_eq.
  - apply isGovernedParameterInteger_inv in Hs as (a&->&?). apply isGovernedParameterInteger_inv in Hr as (b&->&?).
    cbn [integer_value]. destruct (Z.ltb_spec a b) as [L|L]; [|destruct (Z.eqb_spec b a) as [->|N]]; [|done|].
    + split.
      * intros v. rewrite !admitted_maximum. intros (?&z&[= <-]&->&?&?&?). exists b, z. by repeat split; try lia.
      * exists (VInteger (JInt b)). rewrite !admitted_maximum. split; [exists b, b; by repeat split; try lia|].
        intros (?&?&[= <-]&[= <-]&?&_). lia.
    + split.
      * intros v. rewrite !admitted_maximum. intros (?&z&[= <-]&->&?&?&?). exists a, z. by repeat split; try lia.
      * exists (VInteger (JInt a)). rewrite !admitted_maximum. split; [exists a, a; by repeat split; try lia|].
        intros (?&?&[= <-]&[= <-]&?&_). lia.
Qed.

Lemma parameter_permits_admits source requested v :
  boundComparisonPermits (compareGovernedParameterBound source requested) = true →
  admitted requested v → admitted source v.
Proof.
  pose proof (compareGovernedParameterBound_sound source requested) as H.
  destruct (compareGovernedParameterBound source requested); try done; intros _; [apply H|by apply H].
Qed.

(** The bound a decision stands under admits the evaluated value; an exact one
    admits nothing else, a maximum only integers at or below it. *)
Lemma governedParameterBoundFor_spec kind v b :
  governedParameterBoundFor kind v = Some b →
  admitted b v ∧
  match kind with
  | k_exact => ∀ w, admitted b w → w = v
  | k_maximum => ∀ w, admitted b w → ∃ z limit, w = VInteger (JInt z) ∧ v = VInteger (JInt limit) ∧ z ≤ limit
  end.
Proof.
  unfold governedParameterBoundFor. destruct (isWellFormedGovernedParameterValue v) eqn:Hv; cbn; [|done].
  destruct kind; cbn.
  - intros [= <-]. split; [by apply admitted_exact|]. intros w Hw. by apply admitted_exact in Hw as [_ ->].
  - case_bool_decide; [|done]. destruct v as [n| |]; try done. cbn. intros [= <-].
    apply isGovernedParameterInteger_inv in Hv as (a&->&?). split.
    + apply admitted_maximum. exists a, a. by repeat split; try lia.
    + intros w Hw. apply admitted_maximum in Hw as (?&z&[= <-]&->&?&_). eauto.
Qed.

(** ** Registered dimensions *)

Definition declaration_ok (d : ParameterDimensionDeclaration) : Prop :=
  isSemanticIdentifier (dimension_id d) = true ∧
  governedParameterBoundKindSupports (dimension_bound d) (dimension_type d) = true.

Lemma snapshot_declaration_ok raw d : snapshot_declaration raw = Ok d → declaration_ok d.
Proof.
  unfold snapshot_declaration. intros H. destruct raw as [| | | | | |[] ps| |]; try done.
  break_if; [|done]. destruct (read_property "id" ps); try done. break_if; [|done].
  destruct (isGovernedParameterType _); [|done]. destruct (isGovernedParameterBoundKind _); [|done].
  break_if; [|done]. injection H as <-. done.
Qed.

Lemma register_dimensions_ok m order folds l m' order' :
  register_dimensions m order folds l = Ok (m', order') →
  Forall declaration_ok order → NoDup ((semanticIdentifierFold ∘ dimension_id) <$> order) →
  (∀ f, f ∈ folds ↔ f ∈ (semanticIdentifierFold ∘ dimension_id) <$> order) →
  (∀ id d, m !! id = Some d ↔ d ∈ order ∧ dimension_id d = id) →
  Forall declaration_ok order' ∧ NoDup ((semanticIdentifierFold ∘ dimension_id) <$> order') ∧
  (∀ id d, m' !! id = Some d ↔ d ∈ order' ∧ dimension_id d = id).
Proof.
  revert m order folds. induction l as [|raw l IH]; intros m order folds H Ho Hn Hf Hm; cbn in H.
  { by injection H as -> ->. }
  apply result_bind_Ok in H as (d&Hd%snapshot_declaration_ok&H).
  case_bool_decide as Hin; cbn in H; [done|]. apply IH in H; [done|..].
  - apply Forall_app. split; [done|]. by constructor.
  - rewrite fmap_app. apply NoDup_app. split; [done|]. split; [|apply NoDup_singleton].
    intros f Hff Hs%list_elem_of_singleton. subst f. by apply Hin, Hf.
  - intros f. rewrite fmap_app, elem_of_app, elem_of_union, elem_of_singleton, Hf.
    change ((semanticIdentifierFold ∘ dimension_id) <$> [d]) with [semanticIdentifierFold (dimension_id d)].
    rewrite list_elem_of_singleton. tauto.
  - intros id d'. rewrite lookup_insert_Some, elem_of_app, list_elem_of_singleton, Hm.
    assert (∀ d0, d0 ∈ order → dimension_id d0 ≠ dimension_id d) as Hne.
    { intros d0 Hd0 E. apply Hin, Hf. apply list_elem_of_fmap. exists d0. cbn. by rewrite E. }
    split; [intros [[<- <-]|[? [? ?]]]; auto|].
    intros [[?| ->] <-]; [right|by left]. split; [|done]. intros E. by apply (Hne d').
Qed.

(** A registry that is built is a closed world without shadows: lookup
    returns precisely the listed declarations, sorted by identifier; no two
    declarations have identifiers equal up to case; each is a semantic
    identifier with a bound kind its type supports. *)
Theorem createParameterDimensionRegistry_spec (declarations : JsValue) (r : ParameterDimensionRegistry) :
  createParameterDimensionRegistry declarations = Ok r →
  Forall declaration_ok (dimensions r) ∧
  NoDup ((semanticIdentifierFold ∘ dimension_id) <$> dimensions r) ∧
  Sorted dimension_le (dimensions r) ∧
  (∀ id d, get_dimension r id = Some d ↔ d ∈ dimensions r ∧ dimension_id d = id).
Proof.
  unfold createParameterDimensionRegistry. intros H. destruct declarations; try done.
  break_if; [|done]. apply result_bind_Ok in H as ([m order]&H&[= <-]).
  apply register_dimensions_ok in H as (Ho&Hn&Hm).
  - cbn. split; [by rewrite merge_sort_Permutation|]. split; [by rewrite merge_sort_Permutation|].
    split; [apply Sorted_merge_sort, _|]. intros id d.
    unfold get_dimension. cbn [dimension_map]. rewrite merge_sort_Permutation. apply Hm.
  - constructor.
  - constructor.
  - set_solver.
  - intros id d. rewrite lookup_empty. set_solver.
Qed.

Definition sample_dimensions : JsValue := JsArray
  [ JsObject true [("id", JsString "recordCount"); ("type", JsString "integer"); ("bound", JsString "maximum")];
    JsObject true [("id", JsString "environment"); ("type", JsString "token"); ("bound", JsString "exact")] ].

Lemma createParameterDimensionRegistry_spec_witness :
  ∃ r, createParameterDimensionRegistry sample_dimensions = Ok r ∧ Sorted dimension_le (dimensions r).
Proof.
  eexists. split; [reflexivity|].
  eapply (createParameterDimensionRegistry_spec sample_dimensions). reflexivity.
Defined.

(** ** Profile references *)

Lemma semantic_tail_class after l : semantic_tail after l = true → Forall (λ c, is_alnum c = true ∨ one_of "._-" c = true) l.
Proof.
  revert after. induction l as [|c l IH]; intros after H; cbn in H; [constructor|].
  destruct (is_alnum c) eqn:E; [constructor; eauto|]. split_and_bool. constructor; eauto.
Qed.

Lemma semantic_identifier_class s :
  isSemanticIdentifier s = true → Forall (λ c, is_alnum c = true ∨ one_of "._-" c = true) (chars s).
Proof.
  unfold isSemanticIdentifier. intros H. split_and_bool. destruct (chars s) as [|c l]; [done|].
  split_and_bool. constructor; [|by eapply semantic_tail_class]. left. unfold is_alnum. rewrite !orb_true_iff. auto.
Qed.

Lemma not_in_class (p : ascii → Prop) (c : ascii) l : Forall p l → ¬ p c → c ∉ l.
Proof. intros Hf Hc Hin. apply Hc. by eapply Forall_forall in Hf. Qed.

(** A profile reference's one-string form is unambiguous: two well-formed
    references with the same text agree in identifier, version and digest. *)
Theorem formatGovernanceProfileReference_inj (a b : GovernanceProfileReference) :
  isWellFormedGovernanceProfileReference a = true → isWellFormedGovernanceProfileReference b = true →
  formatGovernanceProfileReference a = formatGovernanceProfileReference b → a = b.
Proof.
  intros Ha Hb E. unfold isWellFormedGovernanceProfileReference, isGovernanceProfileVersion in *. split_and_bool.
  destruct a as [ia va da], b as [ib vb db]. unfold formatGovernanceProfileReference in E. cbn in *.
  assert (∀ s, isSemanticIdentifier s = true → "@"%char ∉ chars s) as Hat.
  { intros s Hs%semantic_identifier_class. eapply not_in_class; [done|]. vm_compute. naive_solver. }
  apply delimited_text in E as [-> E]; [|by apply Hat..].
  assert (∀ v, (1 <=? integer_value v) = true → ∃ z, v = JInt z) as Hint.
  { intros [] Hv; eauto; cbn in Hv; discriminate. }
  destruct (Hint va) as [za ->]; [done|]. destruct (Hint vb) as [zb ->]; [done|].
  cbn in E. apply bigint_unambiguous in E as [-> E]; [|done..].
  apply (string_app_cancel "#" da db) in E. by subst da.
Qed.

Lemma formatGovernanceProfileReference_inj_witness :
  let r := {| profile_id := "customer-export"; profile_version := JInt 1;
    profile_digest := "sha256:0123456789abcdef0123456789abcdef0123456789abcdef0123456789abcdef" |} in
  isWellFormedGovernanceProfileReference r = true ∧ r = r.
Proof. split; [reflexivity|]. apply formatGovernanceProfileReference_inj; reflexivity. Defined.

(** The parameter-bound comparison says exactly how the two bounds' admitted
    values relate: [equal] bounds admit the same values, a [narrower] request a
    strict subset, a [broader] one a strict superset; and the comparison is
    [incomparable] precisely when a bound is malformed, the kinds differ, or
    two exact values differ. *)
Theorem compareGovernedParameterBound_admits (source requested : GovernedParameterBound) :
  match compareGovernedParameterBound source requested with
  | equal => ∀ v, admitted requested v ↔ admitted source v
  | narrower => (∀ v, admitted requested v → admitted source v) ∧ ∃ v, admitted source v ∧ ¬ admitted requested v
  | broader => (∀ v, admitted source v → admitted requested v) ∧ ∃ v, admitted requested v ∧ ¬ admitted source v
  | incomparable =>
      isWellFormedGovernedParameterBound source && isWellFormedGovernedParameterBound requested = false ∨
      match source, requested with BExact a, BExact b => a ≠ b | BMaximum _, BMaximum _ => False | _, _ => True end
  end.
Proof. apply compareGovernedParameterBound_sound. Qed.
