(* ===== verification/GrantBounds.v ===== *)
(** * Grant bounds and grant scopes

    Model of [grant-runtime/domain/grant-bound.ts] (the closed bound algebra)
    and [grant-scope.ts] (the axes, their well-formedness, canonical form and
    serialization). The clock text of a window is read by the host's
    [Date.parse]. *)

From Stdlib Require Import QArith.
From S2P Require Import Prelude Decimal Js Monetary Parameters.

Local Open Scope Z_scope.
Local Open Scope frontera_scope.

(** ** Bounds *)

Inductive GrantBound :=
  | Identity (value : string)
  | SetOf (values : list string)
  | Ceiling (limit unit : string)
  | Window (notAfter : string).
Global Instance GrantBound_eq_dec : EqDecision GrantBound.
Proof. solve_decision. Defined.

Inductive GrantBoundKind := k_identity | k_set | k_ceiling | k_window.
Global Instance GrantBoundKind_eq_dec : EqDecision GrantBoundKind.
Proof. solve_decision. Defined.

Definition bound_kind (b : GrantBound) : GrantBoundKind :=
  match b with Identity _ => k_identity | SetOf _ => k_set | Ceiling _ _ => k_ceiling | Window _ => k_window end.

Definition canonicalGrantSetValues (values : list string) : list string := sort_strings (nub values).

Definition setsEqual (left right : list string) : bool :=
  (length left =? length right)%nat && forallb (λ p, str_eqb p.1 p.2) (zip left right).

Section Bounds.
Context `{JsHost}.

Definition isWellFormedGrantBound (b : GrantBound) : bool :=
  match b with
  | Identity v => nonempty v
  | SetOf values => (0 <? Z.of_nat (length values)) && forallb nonempty values
  | Ceiling limit u => isWellFormedMonetaryAmount {| value := limit; unit_ := u |}
  | Window notAfter => is_some (date_parse notAfter)
  end.

(** The monetary comparison cannot throw on the well-formed ceilings that reach
    it; [compareGrantBound_ceiling_no_throw] is the proof that the [Throw]
    branch below is not reached. *)
Definition compareGrantBound (source requested : GrantBound) : BoundComparison :=
  if negb (isWellFormedGrantBound source) || negb (isWellFormedGrantBound requested) then incomparable
  else match source, requested with
       | Identity s, Identity r => if str_eqb s r then equal else incomparable
       | SetOf s, SetOf r =>
           let parentValues := canonicalGrantSetValues s in
           let childValues := canonicalGrantSetValues r in
           if negb (forallb (λ v, bool_decide (v ∈ parentValues)) childValues) then broader
           else if setsEqual parentValues childValues then equal else narrower
       | Ceiling sl su, Ceiling rl ru =>
           match compareMonetaryAmounts {| value := rl; unit_ := ru |} {| value := sl; unit_ := su |} with
           | Ok None => incomparable
           | Ok (Some Gt) => broader
           | Ok (Some Eq) => equal
           | Ok (Some Lt) => narrower
           | Throw _ => incomparable
           end
       | Window s, Window r =>
           match date_parse s, date_parse r with
           | Some parentInstant, Some childInstant =>
               if parentInstant <? childInstant then broader
               else if childInstant =? parentInstant then equal else narrower
           | _, _ => incomparable
           end
       | _, _ => incomparable
       end.

End Bounds.

Definition canonicalGrantBound (b : GrantBound) : GrantBound :=
  match b with SetOf values => SetOf (canonicalGrantSetValues values) | _ => b end.

(** ** Scopes *)

Inductive GrantBoundKey :=
  | Action | ActionClass | Amount | Counterparty | GovernanceProfile | Organization | ResourceClass | Resources.
Global Instance GrantBoundKey_eq_dec : EqDecision GrantBoundKey.
Proof. solve_decision. Defined.

Definition GRANT_BOUND_KEYS : list GrantBoundKey :=
  [Action; ActionClass; Amount; Counterparty; GovernanceProfile; Organization; ResourceClass; Resources].

Definition GRANT_BOUND_KINDS_BY_KEY (k : GrantBoundKey) : GrantBoundKind :=
  match k with
  | Amount => k_ceiling
  | Resources => k_set
  | _ => k_identity
  end.

Record GrantParameterBound := { pb_dimension : string; pb_bound : GovernedParameterBound }.
Global Instance GrantParameterBound_eq_dec : EqDecision GrantParameterBound.
Proof. solve_decision. Defined.

Record GrantScope := {
  s_action : option GrantBound;
  s_actionClass : option GrantBound;
  s_amount : option GrantBound;
  s_counterparty : option GrantBound;
  s_governanceProfile : option GrantBound;
  s_organization : option GrantBound;
  s_resourceClass : option GrantBound;
  s_resources : option GrantBound;
  s_parameters : option (list GrantParameterBound);
}.
Global Instance GrantScope_eq_dec : EqDecision GrantScope.
Proof. solve_decision. Defined.

(** [scope[key]] *)
Definition grantScopeBound (s : GrantScope) (k : GrantBoundKey) : option GrantBound :=
  match k with
  | Action => s_action s
  | ActionClass => s_actionClass s
  | Amount => s_amount s
  | Counterparty => s_counterparty s
  | GovernanceProfile => s_governanceProfile s
  | Organization => s_organization s
  | ResourceClass => s_resourceClass s
  | Resources => s_resources s
  end.

(** The scope a loop over [GRANT_BOUND_KEYS] fills, axis by axis. *)
Definition scope_of (axis : GrantBoundKey → option GrantBound) (parameters : option (list GrantParameterBound)) : GrantScope := {|
  s_action := axis Action;
  s_actionClass := axis ActionClass;
  s_amount := axis Amount;
  s_counterparty := axis Counterparty;
  s_governanceProfile := axis GovernanceProfile;
  s_organization := axis Organization;
  s_resourceClass := axis ResourceClass;
  s_resources := axis Resources;
  s_parameters := parameters;
|}.

Definition GRANT_SEMANTICS_FORMAT_V1 : string := "frontera.grant-semantics.v1".
Definition GRANT_SEMANTIC_AXES : list GrantBoundKey := [ActionClass; GovernanceProfile; ResourceClass].

Definition stated (s : GrantScope) (k : GrantBoundKey) : bool := is_some (grantScopeBound s k).

Definition grantScopeCarriesSemantics (s : GrantScope) : bool :=
  existsb (stated s) GRANT_SEMANTIC_AXES || is_some (s_parameters s).

Definition hasCompleteGrantSemantics (s : GrantScope) : bool :=
  let n := length (List.filter (stated s) GRANT_SEMANTIC_AXES) in
  if (n =? 0)%nat then negb (is_some (s_parameters s)) else (n =? length GRANT_SEMANTIC_AXES)%nat.

Definition isConsistentGrantSemantics (s : GrantScope) (semanticsFormat : option string) : bool :=
  match semanticsFormat with
  | None => negb (grantScopeCarriesSemantics s)
  | Some f => str_eqb f GRANT_SEMANTICS_FORMAT_V1 && grantScopeCarriesSemantics s && hasCompleteGrantSemantics s
  end.

Definition GRANT_PARAMETER_BOUNDS_MAX : Z := 64.

Definition statedGrantBoundKeys (s : GrantScope) : list GrantBoundKey := List.filter (stated s) GRANT_BOUND_KEYS.

Definition isWellFormedGrantParameterBounds (ps : list GrantParameterBound) : bool :=
  (0 <? Z.of_nat (length ps)) && (Z.of_nat (length ps) <=? GRANT_PARAMETER_BOUNDS_MAX) &&
  every_with_previous (λ previous entry,
    isSemanticIdentifier (pb_dimension entry) && isWellFormedGovernedParameterBound (pb_bound entry) &&
    match previous with
    | None => true
    | Some p => bool_decide (compareDimensionIds (pb_dimension p) (pb_dimension entry) = Lt)
    end) None ps.

Definition isWellFormedGrantScope `{JsHost} (s : GrantScope) : bool :=
  forallb (λ k,
    match grantScopeBound s k with
    | None => false
    | Some b => bool_decide (bound_kind b = GRANT_BOUND_KINDS_BY_KEY k) && isWellFormedGrantBound b
    end) (statedGrantBoundKeys s) &&
  hasCompleteGrantSemantics s &&
  match s_parameters s with None => true | Some ps => isWellFormedGrantParameterBounds ps end.

(** Rebuilding an entry from its declared fields is the identity on the typed
    model; what remains is the sort. *)
Definition parameter_bound_le (l r : GrantParameterBound) : Prop := String.le (pb_dimension l) (pb_dimension r).
Global Instance parameter_bound_le_dec : RelDecision parameter_bound_le.
Proof. intros l r. unfold parameter_bound_le. apply _. Defined.
Global Instance parameter_bound_le_total : Total parameter_bound_le.
Proof. intros l r. unfold parameter_bound_le. apply (total String.le). Qed.

Definition canonicalGrantParameterBounds (ps : list GrantParameterBound) : list GrantParameterBound :=
  merge_sort parameter_bound_le ps.

(** [parameters?.find((entry) => entry.dimension === dimension)] *)
Definition grantParameterBound (ps : option (list GrantParameterBound)) (d : string) : option GrantParameterBound :=
  match ps with
  | None => None
  | Some ps => List.find (λ entry, str_eqb (pb_dimension entry) d) ps
  end.

Definition canonicalGrantScope (s : GrantScope) : GrantScope :=
  scope_of (λ k, canonicalGrantBound <$> grantScopeBound s k) (canonicalGrantParameterBounds <$> s_parameters s).

Definition serializeBound (b : GrantBound) : string :=
  match b with
  | Identity v => "{" +:+ quoted "kind" +:+ ":" +:+ quoted "identity" +:+ "," +:+ quoted "value" +:+ ":" +:+ json_string v +:+ "}"
  | SetOf values => "{" +:+ quoted "kind" +:+ ":" +:+ quoted "set" +:+ "," +:+ quoted "values" +:+ ":[" +:+
      join "," (json_string <$> values) +:+ "]}"
  | Ceiling limit u => "{" +:+ quoted "kind" +:+ ":" +:+ quoted "ceiling" +:+ "," +:+ quoted "limit" +:+ ":" +:+ json_string limit +:+
      "," +:+ quoted "unit" +:+ ":" +:+ json_string u +:+ "}"
  | Window notAfter => "{" +:+ quoted "kind" +:+ ":" +:+ quoted "window" +:+ "," +:+ quoted "notAfter" +:+ ":" +:+ json_string notAfter +:+ "}"
  end.

Definition serializeGrantParameterBound (entry : GrantParameterBound) : string :=
  "{" +:+ quoted "dimension" +:+ ":" +:+ json_string (pb_dimension entry) +:+ "," +:+ serialize_bound_fields (pb_bound entry).

Definition key_name (k : GrantBoundKey) : string :=
  match k with
  | Action => "action"
  | ActionClass => "actionClass"
  | Amount => "amount"
  | Counterparty => "counterparty"
  | GovernanceProfile => "governanceProfile"
  | Organization => "organization"
  | ResourceClass => "resourceClass"
  | Resources => "resources"
  end.

(** [SERIALIZED_SCOPE_KEYS]; [None] is ['parameters']. *)
Definition SERIALIZED_SCOPE_KEYS : list (option GrantBoundKey) :=
  [Some Action; Some ActionClass; Some Amount; Some Counterparty; Some GovernanceProfile; Some Organization; None;
   Some ResourceClass; Some Resources].

Definition serialize_key (s : GrantScope) (k : option GrantBoundKey) : option string :=
  match k with
  | None => (λ ps, quoted "parameters" +:+ ":[" +:+ join "," (serializeGrantParameterBound <$> ps) +:+ "]") <$> s_parameters s
  | Some k => (λ b, json_string (key_name k) +:+ ":" +:+ serializeBound b) <$> grantScopeBound s k
  end.

Definition serializeGrantScope (s : GrantScope) : string :=
  let canonical := canonicalGrantScope s in
  "{" +:+ join "," (omap (serialize_key canonical) SERIALIZED_SCOPE_KEYS) +:+ "}".

Definition grantScopeEquals (left right : GrantScope) : bool :=
  str_eqb (serializeGrantScope left) (serializeGrantScope right).

(** ** Canonical sets *)

Lemma elem_of_canonical_set x l : x ∈ canonicalGrantSetValues l ↔ x ∈ l.
Proof. unfold canonicalGrantSetValues. by rewrite elem_of_sort_strings, elem_of_nub. Qed.

Lemma canonical_set_NoDup l : NoDup (canonicalGrantSetValues l).
Proof. unfold canonicalGrantSetValues. rewrite sort_strings_perm. apply NoDup_nub. Qed.

Lemma canonical_set_eq l k :
  canonicalGrantSetValues l = canonicalGrantSetValues k ↔ ∀ x, x ∈ l ↔ x ∈ k.
Proof.
  split.
  - intros E x. by rewrite <-(elem_of_canonical_set x l), E, elem_of_canonical_set.
  - intros Hx. unfold canonicalGrantSetValues. apply sort_strings_unique, NoDup_Permutation; [apply NoDup_nub..|].
    intros x. by rewrite !elem_of_nub.
Qed.

Lemma setsEqual_eq l k : setsEqual l k = true ↔ l = k.
Proof.
  unfold setsEqual. rewrite andb_true_iff, Nat.eqb_eq. split.
  - intros [Hl Hf]. revert k Hl Hf. induction l as [|x l IH]; intros [|y k] Hl Hf; try done.
    cbn in *. split_and_bool. f_equal; [done|]. apply IH; [lia|done].
  - intros ->. split; [done|]. induction k; cbn; [done|]. by rewrite str_eqb_refl.
Qed.

Lemma canonicalGrantBound_idemp b : canonicalGrantBound (canonicalGrantBound b) = canonicalGrantBound b.
Proof. destruct b; try done. cbn. f_equal. apply canonical_set_eq. intros x. apply elem_of_canonical_set. Qed.

(** ** What a bound admits

    The points of the four axes' value spaces, and the meaning of a bound as a
    set of points. *)

Inductive Point :=
  | PText (s : string)
  | PAmount (q : Q) (asset : string)
  | PInstant (t : Z).

Section Meaning.
Context `{JsHost}.

Definition admits (b : GrantBound) (p : Point) : Prop :=
  match b, p with
  | Identity v, PText s => s = v
  | SetOf values, PText s => s ∈ values
  | Ceiling limit u, PAmount q asset => asset = u ∧ (q <= dec_value limit)%Q
  | Window notAfter, PInstant t => ∃ n, date_parse notAfter = Some n ∧ t ≤ n
  | _, _ => False
  end.

Lemma compareGrantBound_ceiling_no_throw l u l' u' e :
  compareMonetaryAmounts {| value := l; unit_ := u |} {| value := l'; unit_ := u' |} ≠ Throw e.
Proof.
  unfold compareMonetaryAmounts. intros E.
  destruct (isWellFormedMonetaryAmount _) eqn:H1 in E; [|done].
  destruct (isWellFormedMonetaryAmount _) eqn:H2 in E; [|done]. cbn [negb orb] in E.
  destruct (str_eqb _ _) eqn:H3 in E; [|done]. split_and_bool.
  pose proof (compareMonetaryAmounts_total _ _ H1 H2 H3) as H4. unfold compareMonetaryAmounts in H4.
  rewrite H1, H2, H3, str_eqb_refl in H4. cbn in E, H4. rewrite H4 in E. done.
Qed.

(** The four outcomes of the comparison, read as relations between the sets of
    points the bounds admit. *)
Definition comparison_means (c : BoundComparison) (source requested : GrantBound) : Prop :=
  match c with
  | equal => ∀ p, admits requested p ↔ admits source p
  | narrower => (∀ p, admits requested p → admits source p) ∧ ∃ p, admits source p ∧ ¬ admits requested p
  | broader => ∃ p, admits requested p ∧ ¬ admits source p
  | incomparable =>
      isWellFormedGrantBound source && isWellFormedGrantBound requested = false ∨
      match source, requested with
      | Identity a, Identity b => a ≠ b
      | Ceiling _ u, Ceiling _ w => u ≠ w
      | SetOf _, SetOf _ | Window _, Window _ => False
      | _, _ => True
      end
  end.

Lemma compare_sets_sound s r :
  comparison_means
    (if negb (forallb (λ v, bool_decide (v ∈ canonicalGrantSetValues s)) (canonicalGrantSetValues r)) then broader
     else if setsEqual (canonicalGrantSetValues s) (canonicalGrantSetValues r) then equal else narrower)
    (SetOf s) (SetOf r).
Proof.
  destruct (forallb _ _) eqn:Hsub; cbn [negb].
  - assert (∀ x, x ∈ r → x ∈ s) as Hin.
    { rewrite forallb_forall in Hsub. intros x. rewrite <-(elem_of_canonical_set x r), list_elem_of_In.
      intros Hx%Hsub. apply bool_decide_eq_true in Hx. by apply elem_of_canonical_set. }
    destruct (setsEqual _ _) eqn:E.
    + apply setsEqual_eq in E. pose proof (proj1 (canonical_set_eq s r) E) as E'. intros []; cbn; naive_solver.
    + split; [intros []; cbn; naive_solver|].
      destruct (decide (Forall (λ x, x ∈ r) s)) as [Hall|Hall].
      * rewrite Forall_forall in Hall. assert (setsEqual (canonicalGrantSetValues s) (canonicalGrantSetValues r) = true);
          [|congruence]. apply setsEqual_eq, canonical_set_eq. naive_solver.
      * apply not_Forall_Exists, Exists_exists in Hall; [|apply _]. destruct Hall as (x&?&?). exists (PText x). done.
  - destruct (decide (Forall (λ x, x ∈ s) r)) as [Hall|Hall].
    + rewrite Forall_forall in Hall. exfalso. assert (forallb (λ v, bool_decide (v ∈ canonicalGrantSetValues s)) (canonicalGrantSetValues r) = true);
        [|congruence]. apply forallb_forall. intros x Hx%list_elem_of_In.
      apply bool_decide_eq_true, elem_of_canonical_set, Hall. by apply elem_of_canonical_set.
    + apply not_Forall_Exists, Exists_exists in Hall; [|apply _]. destruct Hall as (x&?&?). exists (PText x). done.
Qed.

Lemma compare_ceilings_sound sl su rl ru :
  isWellFormedGrantBound (Ceiling sl su) = true → isWellFormedGrantBound (Ceiling rl ru) = true →
  comparison_means
    (match compareMonetaryAmounts {| value := rl; unit_ := ru |} {| value := sl; unit_ := su |} with
     | Ok None => incomparable | Ok (Some Gt) => broader | Ok (Some Eq) => equal | Ok (Some Lt) => narrower
     | Throw _ => incomparable end) (Ceiling sl su) (Ceiling rl ru).
Proof.
  intros Hs Hr. destruct (decide (ru = su)) as [->|Hu].
  - rewrite (compareMonetaryAmounts_total _ _ Hr Hs) by done. cbn [value].
    destruct (Qcompare (dec_value rl) (dec_value sl)) eqn:E.
    + apply Qeq_alt in E. intros []; cbn; try done. by rewrite E.
    + apply Qlt_alt in E. split.
      * intros []; cbn; try done. intros [-> ?]. split; [done|]. apply Qlt_le_weak. by eapply Qle_lt_trans.
      * exists (PAmount (dec_value sl) su). cbn. split; [by split; [|apply Qle_refl]|].
        intros [_ ?]. by apply (Qlt_not_le _ _ E).
    + apply Qgt_alt in E. exists (PAmount (dec_value rl) su). cbn. split; [by split; [|apply Qle_refl]|].
      intros [_ ?]. by apply (Qlt_not_le _ _ E).
  - unfold compareMonetaryAmounts. cbn in Hs, Hr. rewrite Hs, Hr. cbn [negb orb unit_].
    destruct (str_eqb ru su) eqn:E; split_and_bool; [done|]. right. congruence.
Qed.

Lemma compareGrantBound_sound source requested :
  comparison_means (compareGrantBound source requested) source requested.
Proof.
  unfold compareGrantBound.
  destruct (isWellFormedGrantBound source) eqn:Hs; cbn [negb orb]; [|left; by rewrite Hs].
  destruct (isWellFormedGrantBound requested) eqn:Hr; cbn [negb]; [|left; by rewrite Hs, Hr].
  destruct source as [a|a|a u|a], requested as [b|b|b w|b]; try by right.
  - destruct (str_eqb a b) eqn:E; split_and_bool; [by subst b|by right].
  - apply compare_sets_sound.
  - by apply compare_ceilings_sound.
  - cbn in Hs, Hr. destruct (date_parse a) as [n|] eqn:Ea; [|done]. destruct (date_parse b) as [m|] eqn:Eb; [|done].
    destruct (Z.ltb_spec n m) as [L|L]; [|destruct (Z.eqb_spec m n) as [->|N]].
    + exists (PInstant m). cbn. rewrite Ea, Eb. split; [eauto with lia|]. intros (?&[= <-]&?). lia.
    + intros []; cbn; try done. by rewrite Ea, Eb.
    + split; [intros []; cbn; try done; rewrite Ea, Eb; intros (?&[= <-]&?); eauto with lia|].
      exists (PInstant n). cbn. rewrite Ea, Eb. split; [eauto with lia|]. intros (?&[= <-]&?). lia.
Qed.

Lemma permits_admits source requested p :
  boundComparisonPermits (compareGrantBound source requested) = true → admits requested p → admits source p.
Proof.
  pose proof (compareGrantBound_sound source requested) as Hc.
  destruct (compareGrantBound source requested); try done; intros _; [apply Hc|by apply Hc].
Qed.

Lemma compareGrantBound_wf source requested :
  boundComparisonPermits (compareGrantBound source requested) = true →
  isWellFormedGrantBound source = true ∧ isWellFormedGrantBound requested = true ∧ bound_kind source = bound_kind requested.
Proof.
  unfold compareGrantBound.
  destruct (isWellFormedGrantBound source); cbn [negb orb]; [|done].
  destruct (isWellFormedGrantBound requested); cbn [negb]; [|done].
  by destruct source, requested.
Qed.

(** On bounds of the same shape the comparison decides inclusion. *)
Lemma permits_complete source requested :
  isWellFormedGrantBound source = true → isWellFormedGrantBound requested = true →
  bound_kind source = bound_kind requested → (∀ p, admits requested p → admits source p) →
  boundComparisonPermits (compareGrantBound source requested) = true.
Proof.
  intros Hs Hr Hk Hsub. pose proof (compareGrantBound_sound source requested) as Hc.
  destruct (compareGrantBound source requested); try done; cbn in Hc.
  - destruct Hc as (p&?&Hn). by destruct Hn; apply Hsub.
  - rewrite Hs, Hr in Hc. destruct Hc as [?|Hc]; [done|]. exfalso.
    destruct source as [a|a|a u|a], requested as [b|b|b w|b]; try done.
    + specialize (Hsub (PText b) eq_refl). cbn in Hsub. congruence.
    + destruct (Hsub (PAmount (dec_value b) w)) as [? _]; [split; [done|apply Qle_refl]|congruence].
Qed.

Lemma compareGrantBound_refl b : isWellFormedGrantBound b = true → compareGrantBound b b = equal.
Proof.
  intros Hb. pose proof (permits_complete b b Hb Hb eq_refl (λ p Hp, Hp)) as Hp.
  pose proof (compareGrantBound_sound b b) as Hc. destruct (compareGrantBound b b); try done.
  cbn in Hc. naive_solver.
Qed.

Lemma permits_trans a b c :
  boundComparisonPermits (compareGrantBound a b) = true → boundComparisonPermits (compareGrantBound b c) = true →
  boundComparisonPermits (compareGrantBound a c) = true.
Proof.
  intros Hab Hbc. destruct (compareGrantBound_wf _ _ Hab) as (?&?&?), (compareGrantBound_wf _ _ Hbc) as (?&?&?).
  apply permits_complete; [done|done|congruence|]. eauto using permits_admits.
Qed.

(** The grant bound comparison decides inclusion of authority: it is sound
    on every outcome ([equal]: the same admitted points; [narrower]: a strict
    subset; [broader]: a point outside the source), and for two well-formed
    bounds of one shape it permits exactly when everything the requested bound
    admits is admitted by the source. *)
Theorem compareGrantBound_decides_inclusion (source requested : GrantBound) :
  comparison_means (compareGrantBound source requested) source requested ∧
  (isWellFormedGrantBound source = true → isWellFormedGrantBound requested = true →
   bound_kind source = bound_kind requested →
   boundComparisonPermits (compareGrantBound source requested) = true ↔ ∀ p, admits requested p → admits source p).
Proof.
  split; [apply compareGrantBound_sound|]. intros Hs Hr Hk.
  split; [eauto using permits_admits|by apply permits_complete].
Qed.

End Meaning.

(** ** Serialized scopes determine their canonical form *)

Definition kind_name (b : GrantBound) : string :=
  match b with Identity _ => "identity" | SetOf _ => "set" | Ceiling _ _ => "ceiling" | Window _ => "window" end.
Definition bound_body (b : GrantBound) : string :=
  match b with
  | Identity v => "," +:+ quoted "value" +:+ ":" +:+ json_string v +:+ "}"
  | SetOf values => "," +:+ quoted "values" +:+ ":[" +:+ join "," (json_string <$> values) +:+ "]}"
  | Ceiling limit u => "," +:+ quoted "limit" +:+ ":" +:+ json_string limit +:+ "," +:+ quoted "unit" +:+ ":" +:+ json_string u +:+ "}"
  | Window notAfter => "," +:+ quoted "notAfter" +:+ ":" +:+ json_string notAfter +:+ "}"
  end.

Lemma serializeBound_split b :
  serializeBound b = "{" +:+ quoted "kind" +:+ ":" +:+ json_string (kind_name b) +:+ bound_body b.
Proof. by destruct b. Qed.

Lemma json_string_starts s c : c ≠ QUOTE → starts_with_not c (json_string s).
Proof. intros Hc. eexists QUOTE, _. split; [reflexivity|done]. Qed.

Lemma serializeBound_unambiguous : unambiguous (λ _, True) serializeBound.
Proof.
  intros a b r1 r2 _ _ E. rewrite !serializeBound_split in E. text_peel E.
  apply json_string_inj in E as [Ek E].
  destruct a as [v|v|l u|n], b as [v'|v'|l' u'|n']; try done; cbn [bound_body] in E; text_peel E.
  - apply json_string_inj in E as [-> E]. text_peel E. by subst.
  - apply (join_unambiguous (λ _, True) json_string) in E as [-> E]; [|apply json_string_unambiguous| |done|..].
    + apply (string_app_peel "}") in E. by subst.
    + intros ? _. by apply json_string_starts.
    + by apply Forall_true.
    + by apply Forall_true.
  - apply json_string_inj in E as [-> E]. text_peel E. apply json_string_inj in E as [-> E]. text_peel E. by subst.
  - apply json_string_inj in E as [-> E]. text_peel E. by subst.
Qed.

Definition parameter_body (b : GovernedParameterBound) : string :=
  match b with
  | BMaximum limit => "," +:+ quoted "limit" +:+ ":" +:+ json_number limit +:+ "," +:+ quoted "type" +:+ ":" +:+ quoted "integer" +:+ "}"
  | BExact v => "," +:+ quoted "type" +:+ ":" +:+ json_string (type_name (value_type v)) +:+ "," +:+ quoted "value" +:+ ":" +:+ json_parameter_value v +:+ "}"
  end.
Lemma serialize_bound_fields_split b :
  serialize_bound_fields b =
  quoted "kind" +:+ ":" +:+ json_string (match b with BMaximum _ => "maximum" | BExact _ => "exact" end) +:+ parameter_body b.
Proof. by destruct b. Qed.

Lemma json_parameter_value_unambiguous v w r1 r2 :
  isWellFormedGovernedParameterValue v = true → isWellFormedGovernedParameterValue w = true →
  value_type v = value_type w →
  json_parameter_value v +:+ "}" +:+ r1 = json_parameter_value w +:+ "}" +:+ r2 → v = w ∧ r1 = r2.
Proof.
  destruct v as [n|s|x], w as [m|s'|y]; intros Hv Hw Ht E; try done; cbn in Hv, Hw, E.
  - apply isGovernedParameterInteger_inv in Hv as (a&->&_), Hw as (b&->&_).
    apply bigint_unambiguous in E as [-> E]; [|done..]. apply (string_app_peel "}") in E. by subst.
  - apply json_string_inj in E as [-> E]. apply (string_app_peel "}") in E. by subst.
  - destruct x, y; try done.
    + apply (string_app_peel "true}") in E. by subst.
    + apply (string_app_peel "false}") in E. by subst.
Qed.

Lemma serialize_bound_fields_unambiguous :
  unambiguous (λ b, isWellFormedGovernedParameterBound b = true) serialize_bound_fields.
Proof.
  intros a b r1 r2 Ha Hb E. rewrite !serialize_bound_fields_split in E. text_peel E.
  apply json_string_inj in E as [Ek E].
  destruct a as [v|n], b as [w|m]; try done; cbn [parameter_body] in E; text_peel E.
  - apply json_string_inj in E as [Et E]. text_peel E.
    apply json_parameter_value_unambiguous in E as [-> ->]; try done. by destruct v, w.
  - cbn in Ha, Hb. apply isGovernedParameterInteger_inv in Ha as (x&->&_), Hb as (y&->&_).
    cbn [json_number] in E. apply bigint_unambiguous in E as [-> E]; [|done..]. text_peel E. by subst.
Qed.

Definition parameter_entry_wf (e : GrantParameterBound) : Prop := isWellFormedGovernedParameterBound (pb_bound e) = true.

Lemma serializeGrantParameterBound_unambiguous : unambiguous parameter_entry_wf serializeGrantParameterBound.
Proof.
  intros [d b] [d' b'] r1 r2 Ha Hb E. unfold serializeGrantParameterBound in E. cbn [pb_dimension pb_bound] in E.
  text_peel E. apply json_string_inj in E as [-> E]. text_peel E.
  apply serialize_bound_fields_unambiguous in E as [-> ->]; done.
Qed.

(** A scope as the list of its stated entries, in serialization order. *)
Definition field (s : GrantScope) (k : option GrantBoundKey) : option (GrantBound + list GrantParameterBound) :=
  match k with None => inr <$> s_parameters s | Some k => inl <$> grantScopeBound s k end.
Definition Entry : Type := option GrantBoundKey * (GrantBound + list GrantParameterBound).
Definition entries (s : GrantScope) : list Entry := omap (λ k, pair k <$> field s k) SERIALIZED_SCOPE_KEYS.
Definition entry_name (k : option GrantBoundKey) : string := match k with None => "parameters" | Some k => key_name k end.
Definition entry_body (v : GrantBound + list GrantParameterBound) : string :=
  match v with
  | inl b => ":" +:+ serializeBound b
  | inr ps => ":[" +:+ join "," (serializeGrantParameterBound <$> ps) +:+ "]"
  end.
Definition serialize_entry (e : Entry) : string := json_string (entry_name e.1) +:+ entry_body e.2.
Definition entry_wf (e : Entry) : Prop :=
  match e with
  | (Some _, inl _) => True
  | (None, inr ps) => Forall parameter_entry_wf ps
  | _ => False
  end.

Lemma entry_name_inj k k' : entry_name k = entry_name k' → k = k'.
Proof. destruct k as [[]|], k' as [[]|]; cbn; congruence. Qed.

Lemma serialize_entry_unambiguous : unambiguous entry_wf serialize_entry.
Proof.
  intros [k v] [k' v'] r1 r2 Ha Hb E. unfold serialize_entry in E. cbn [fst snd] in E.
  rewrite !string_app_assoc in E. apply json_string_inj in E as [Ek%entry_name_inj E]. subst k'.
  destruct k as [k|], v as [b|ps], v' as [b'|ps']; try done; cbn [entry_body] in E; text_peel E.
  - apply serializeBound_unambiguous in E as [-> ->]; done.
  - apply (join_unambiguous parameter_entry_wf) in E as [-> ->];
      [done|apply serializeGrantParameterBound_unambiguous| |done..].
    intros e _. eexists _, _. split; [reflexivity|done].
Qed.

Lemma serialize_entries s :
  omap (serialize_key s) SERIALIZED_SCOPE_KEYS = serialize_entry <$> entries s.
Proof.
  unfold entries. generalize SERIALIZED_SCOPE_KEYS as ks. induction ks as [|k ks IH]; [done|].
  cbn [omap list_omap]. rewrite IH. destruct k as [k|]; cbn [serialize_key field].
  - by destruct (grantScopeBound s k).
  - by destruct (s_parameters s).
Qed.

Lemma elem_of_entries s k v : (k, v) ∈ entries s ↔ k ∈ SERIALIZED_SCOPE_KEYS ∧ field s k = Some v.
Proof.
  unfold entries. rewrite list_elem_of_omap. split.
  - intros (k'&Hk&E). apply fmap_Some in E as (v'&Hf&[= -> ->]). done.
  - intros [Hk Hf]. exists k. by rewrite Hf.
Qed.

Lemma scope_ext s s' : (∀ k, field s k = field s' k) → s = s'.
Proof.
  intros E. assert (∀ k, grantScopeBound s k = grantScopeBound s' k) as Ek.
  { intros k. specialize (E (Some k)). cbn in E. destruct (grantScopeBound s k), (grantScopeBound s' k); naive_solver. }
  pose proof (E None) as Ep. cbn in Ep. assert (s_parameters s = s_parameters s') as Ep'.
  { destruct (s_parameters s), (s_parameters s'); naive_solver. }
  destruct s, s'. cbn in Ep'. f_equal; [apply (Ek Action)|apply (Ek ActionClass)|apply (Ek Amount)|apply (Ek Counterparty)
    |apply (Ek GovernanceProfile)|apply (Ek Organization)|apply (Ek ResourceClass)|apply (Ek Resources)|done].
Qed.

Lemma entries_inj s s' : entries s = entries s' → s = s'.
Proof.
  intros E. apply scope_ext. intros k.
  assert (k ∈ SERIALIZED_SCOPE_KEYS) as Hk by (unfold SERIALIZED_SCOPE_KEYS; destruct k as [[]|]; set_solver).
  destruct (field s k) as [v|] eqn:F, (field s' k) as [v'|] eqn:F'; try done.
  - assert ((k, v) ∈ entries s') as H by (rewrite <-E; by apply elem_of_entries). apply elem_of_entries in H as [_ H]. congruence.
  - assert ((k, v) ∈ entries s') as H by (rewrite <-E; by apply elem_of_entries). apply elem_of_entries in H as [_ H]. congruence.
  - assert ((k, v') ∈ entries s) as H by (rewrite E; by apply elem_of_entries). apply elem_of_entries in H as [_ H]. congruence.
Qed.

(** The scopes whose parameter bounds are well formed, entry by entry. *)
Definition parameters_serializable (s : GrantScope) : Prop :=
  match s_parameters s with None => True | Some ps => Forall parameter_entry_wf ps end.

Lemma entries_wf s : parameters_serializable s → Forall entry_wf (entries s).
Proof.
  intros Hp. apply Forall_forall. intros [k v] [_ Hf]%elem_of_entries. destruct k as [k|]; cbn in Hf.
  - apply fmap_Some in Hf as (b&_&->). done.
  - apply fmap_Some in Hf as (ps&Eq&->). unfold parameters_serializable in Hp. by rewrite Eq in Hp.
Qed.

Lemma scope_text_unambiguous s s' r1 r2 :
  parameters_serializable s → parameters_serializable s' →
  ("{" +:+ join "," (omap (serialize_key s) SERIALIZED_SCOPE_KEYS) +:+ "}") +:+ r1 =
  ("{" +:+ join "," (omap (serialize_key s') SERIALIZED_SCOPE_KEYS) +:+ "}") +:+ r2 → s = s' ∧ r1 = r2.
Proof.
  intros Hs Hs' E. rewrite !serialize_entries in E. text_peel E.
  apply (join_unambiguous entry_wf) in E as [E%entries_inj ->];
    [done|apply serialize_entry_unambiguous| |done|by apply entries_wf..].
  intros [k v] _. eexists _, _. split; [reflexivity|done].
Qed.

Lemma canonical_parameters_serializable s : parameters_serializable s → parameters_serializable (canonicalGrantScope s).
Proof.
  unfold parameters_serializable. cbn. destruct (s_parameters s) as [ps|]; cbn; [|done].
  intros H. unfold canonicalGrantParameterBounds. by rewrite merge_sort_Permutation.
Qed.

Lemma serializeGrantScope_unambiguous a b r1 r2 :
  parameters_serializable a → parameters_serializable b →
  serializeGrantScope a +:+ r1 = serializeGrantScope b +:+ r2 →
  canonicalGrantScope a = canonicalGrantScope b ∧ r1 = r2.
Proof.
  intros Ha Hb E. unfold serializeGrantScope in E.
  apply scope_text_unambiguous in E; [done|by apply canonical_parameters_serializable..].
Qed.

(** Scope equality is equality of meaning, not of spelling: two scopes with
    well-formed parameter bounds serialize to the same text exactly when their
    canonical forms are the same, so set order and duplicates never distinguish
    scopes and no two different canonical scopes share a text. *)
Theorem grantScopeEquals_canonical (a b : GrantScope) :
  parameters_serializable a → parameters_serializable b →
  grantScopeEquals a b = true ↔ canonicalGrantScope a = canonicalGrantScope b.
Proof.
  intros Ha Hb. unfold grantScopeEquals. rewrite str_eqb_eq. split.
  - intros E. apply (f_equal (λ s, s +:+ "")) in E. by destruct (serializeGrantScope_unambiguous _ _ _ _ Ha Hb E).
  - intros E. unfold serializeGrantScope. by rewrite E.
Qed.

Lemma grantScopeEquals_canonical_witness :
  let a := scope_of (λ k, match k with Resources => Some (SetOf ["b"; "a"; "b"]) | _ => None end) None in
  let b := scope_of (λ k, match k with Resources => Some (SetOf ["a"; "b"]) | _ => None end) None in
  canonicalGrantScope a = canonicalGrantScope b.
Proof. apply grantScopeEquals_canonical; vm_compute; constructor. Defined.
