(* ===== verification/GrantAttenuation.v ===== *)
(** * Attenuation: a grant is within the authority it derives from

    Model of [grant-runtime/domain/grant-attenuation.ts],
    [grant-validity.ts], [grant-correlation.ts],
    [grant-source-authorization.ts] and [grant-eligibility.ts]: deriving the
    scope of a grant from the scope that was authorized, containing its expiry
    under the upstream ceilings, and the conditions an authorization must meet
    before anything is derived from it. *)

From Stdlib Require Import QArith.
From S2P Require Import Prelude Decimal Js Monetary Parameters GrantBounds.

Local Open Scope Z_scope.
Local Open Scope frontera_scope.

Inductive GrantReasonCode :=
  | GRANT_AUTHORIZATION_NOT_PERMITTED
  | GRANT_OBLIGATIONS_UNSATISFIED
  | GRANT_SOURCE_BOUNDS_INCOMPLETE
  | GRANT_SCOPE_BROADENING
  | GRANT_BOUND_INCOMPARABLE
  | GRANT_SUBJECT_INVALID
  | GRANT_CORRELATION_INVALID
  | GRANT_VALIDITY_INVALID
  | GRANT_ELIGIBILITY_CHANGED
  | GRANT_ALREADY_ISSUED
  | GRANT_EXPIRED
  | GRANT_REVOKED
  | GRANT_NOT_FOUND
  | GRANT_SEMANTICS_FORMAT_INVALID.
Global Instance GrantReasonCode_eq_dec : EqDecision GrantReasonCode.
Proof. solve_decision. Defined.

(** ** Attenuation *)

Inductive GrantAttenuationKey :=
  | AxisKey (k : GrantBoundKey)
  | ParametersKey
  | ParameterKey (dimension : string).

Record GrantBoundAttenuation := {
  ba_key : GrantAttenuationKey;
  ba_comparison : BoundComparison;
  ba_narrowingRequested : bool;
  ba_permitted : bool;
}.

Record GrantAttenuationViolation := {
  av_key : GrantAttenuationKey;
  av_reasonCode : GrantReasonCode;
  av_comparison : BoundComparison;
}.

Inductive GrantAttenuationOutcome :=
  | Attenuated (scope : GrantScope) (bounds : list GrantBoundAttenuation)
  | AttenuationRefused (violations : list GrantAttenuationViolation) (bounds : list GrantBoundAttenuation).

(** A requested narrowing has the shape of a scope: at most one bound per axis,
    and an optional parameter list. *)
Definition RequestedGrantBounds : Type := GrantScope.

Definition violationFor (key : GrantAttenuationKey) (comparison : BoundComparison) : GrantAttenuationViolation := {|
  av_key := key;
  av_comparison := comparison;
  av_reasonCode := match comparison with broader => GRANT_SCOPE_BROADENING | _ => GRANT_BOUND_INCOMPARABLE end;
|}.

(** What one loop iteration contributes: the derived bound, the report entries
    and the violations. *)
Record Step (A : Type) := { derived : option A; reported : list GrantBoundAttenuation; refused : list GrantAttenuationViolation }.
Arguments derived {A}.
Arguments reported {A}.
Arguments refused {A}.

Definition refuse {A} (key : GrantAttenuationKey) (comparison : BoundComparison) (requested : bool) : Step A := {|
  derived := None;
  reported := [{| ba_key := key; ba_comparison := comparison; ba_narrowingRequested := requested; ba_permitted := false |}];
  refused := [violationFor key comparison];
|}.
Definition accept {A} (key : GrantAttenuationKey) (b : A) (comparison : BoundComparison) (requested : bool) : Step A := {|
  derived := Some b;
  reported := [{| ba_key := key; ba_comparison := comparison; ba_narrowingRequested := requested; ba_permitted := true |}];
  refused := [];
|}.
Definition nothing {A} : Step A := {| derived := None; reported := []; refused := [] |}.

Section Attenuation.
Context `{JsHost}.

Definition attenuate_axis (source requested : GrantScope) (key : GrantBoundKey) : Step GrantBound :=
  match grantScopeBound requested key with
  | None =>
      match grantScopeBound source key with
      | None => nothing
      | Some sourceBound =>
          if negb (isWellFormedGrantBound sourceBound) ||
             negb (bool_decide (bound_kind sourceBound = GRANT_BOUND_KINDS_BY_KEY key))
          then refuse (AxisKey key) incomparable false
          else accept (AxisKey key) sourceBound equal false
      end
  | Some requestedBound =>
      match grantScopeBound source key with
      | None => refuse (AxisKey key) incomparable true
      | Some sourceBound =>
          if negb (bool_decide (bound_kind requestedBound = GRANT_BOUND_KINDS_BY_KEY key)) ||
             negb (bool_decide (bound_kind sourceBound = GRANT_BOUND_KINDS_BY_KEY key))
          then refuse (AxisKey key) incomparable true
          else
            let comparison := compareGrantBound sourceBound requestedBound in
            if boundComparisonPermits comparison then accept (AxisKey key) requestedBound comparison true
            else refuse (AxisKey key) comparison true
      end
  end.

Definition attenuate_dimension (source requested : option (list GrantParameterBound)) (d : string) : Step GrantParameterBound :=
  let key := ParameterKey d in
  match grantParameterBound requested d with
  | None =>
      match grantParameterBound source d with
      | None => nothing
      | Some sourceBound => accept key sourceBound equal false
      end
  | Some requestedBound =>
      match grantParameterBound source d with
      | None => refuse key incomparable true
      | Some sourceBound =>
          let comparison := compareGovernedParameterBound (pb_bound sourceBound) (pb_bound requestedBound) in
          if boundComparisonPermits comparison then accept key requestedBound comparison true
          else refuse key comparison true
      end
  end.

Definition attenuateParameterBounds (source requested : option (list GrantParameterBound)) : Step (list GrantParameterBound) :=
  match source, requested with
  | None, None => nothing
  | _, _ =>
      if match source with Some ps => negb (isWellFormedGrantParameterBounds ps) | None => false end ||
         match requested with Some ps => negb (isWellFormedGrantParameterBounds ps) | None => false end
      then refuse ParametersKey incomparable (is_some requested)
      else
        let dims := sort_strings (nub (pb_dimension <$> (default [] source ++ default [] requested))) in
        let steps := attenuate_dimension source requested <$> dims in
        let kept := omap derived steps in
        {| derived := match kept with [] => None | _ => Some kept end;
           reported := steps ≫= reported;
           refused := steps ≫= refused |}
  end.

Definition attenuateGrantScope (source : GrantScope) (requested : RequestedGrantBounds) : GrantAttenuationOutcome :=
  let steps := attenuate_axis source requested <$> GRANT_BOUND_KEYS in
  let parameters := attenuateParameterBounds (s_parameters source) (s_parameters requested) in
  let bounds := (steps ≫= reported) ++ reported parameters in
  match (steps ≫= refused) ++ refused parameters with
  | [] =>
      Attenuated (canonicalGrantScope
        (scope_of (λ key, derived (attenuate_axis source requested key)) (derived parameters))) bounds
  | violations => AttenuationRefused violations bounds
  end.

Definition parameterBoundsAreWithin (parent child : option (list GrantParameterBound)) : bool :=
  match child, parent with
  | None, _ => negb (is_some parent)
  | Some _, None => false
  | Some c, Some p =>
      isWellFormedGrantParameterBounds p && isWellFormedGrantParameterBounds c && (length c =? length p)%nat &&
      forallb (λ parentBound,
        match grantParameterBound child (pb_dimension parentBound) with
        | None => false
        | Some childBound => boundComparisonPermits (compareGovernedParameterBound (pb_bound parentBound) (pb_bound childBound))
        end) p
  end.

Definition grantScopeIsWithin (parent child : GrantScope) : bool :=
  forallb (λ key,
    match grantScopeBound child key, grantScopeBound parent key with
    | None, _ => true
    | Some _, None => false
    | Some childBound, Some parentBound => boundComparisonPermits (compareGrantBound parentBound childBound)
    end) GRANT_BOUND_KEYS &&
  parameterBoundsAreWithin (s_parameters parent) (s_parameters child).

End Attenuation.

(** ** Validity *)

Inductive GrantValidityCeilingSource := c_decision | c_authority | c_deployment.
Definition ceiling_source_name (s : GrantValidityCeilingSource) : string :=
  match s with c_decision => "decision" | c_authority => "authority" | c_deployment => "deployment" end.

Record GrantValidityCeiling := { ceiling_source : GrantValidityCeilingSource; notAfter : string }.

Inductive GrantValidityResolution :=
  | ValidityAccepted (expiresAt : string) (effectiveCeiling : option GrantValidityCeiling)
  | ValidityRefused (effectiveCeiling : option GrantValidityCeiling) (reasonCodes : list GrantReasonCode).

Section Validity.
Context `{JsHost}.

(** The comparator of [orderedCeilings] is not positive; [sort] reads the [NaN]
    of an unreadable instant as zero. *)
Definition ceiling_le (l r : GrantValidityCeiling) : Prop :=
  match date_parse (notAfter l), date_parse (notAfter r) with
  | Some a, Some b =>
      a < b ∨ (a = b ∧ locale_le (ceiling_source_name (ceiling_source l)) (ceiling_source_name (ceiling_source r)) = true)
  | _, _ => True
  end.
Global Instance ceiling_le_dec : RelDecision ceiling_le.
Proof.
  intros l r. unfold ceiling_le.
  destruct (date_parse (notAfter l)), (date_parse (notAfter r)); apply _.
Defined.

Definition orderedCeilings (ceilings : list GrantValidityCeiling) : list GrantValidityCeiling :=
  merge_sort ceiling_le ceilings.

Definition effectiveGrantValidityCeiling (ceilings : list GrantValidityCeiling) : option GrantValidityCeiling :=
  let parseable := List.filter (λ c, is_some (date_parse (notAfter c))) ceilings in
  if negb (length parseable =? length ceilings)%nat then None else head (orderedCeilings parseable).

Definition resolveGrantValidity (issuedAt : string) (requestedExpiresAt : option string)
    (ceilings : list GrantValidityCeiling) : GrantValidityResolution :=
  match requestedExpiresAt with
  | None | Some EmptyString => ValidityRefused None [GRANT_VALIDITY_INVALID]
  | Some requestedText =>
      match date_parse issuedAt, date_parse requestedText with
      | Some issued, Some requested =>
          if requested <=? issued then ValidityRefused None [GRANT_VALIDITY_INVALID]
          else if existsb (λ c, negb (is_some (date_parse (notAfter c)))) ceilings
          then ValidityRefused None [GRANT_VALIDITY_INVALID]
          else match effectiveGrantValidityCeiling ceilings with
               | None => ValidityAccepted requestedText None
               | Some effectiveCeiling =>
                   if negb (boundComparisonPermits
                        (compareGrantBound (Window (notAfter effectiveCeiling)) (Window requestedText)))
                   then ValidityRefused (Some effectiveCeiling) [GRANT_SCOPE_BROADENING]
                   else ValidityAccepted requestedText (Some effectiveCeiling)
               end
      | _, _ => ValidityRefused None [GRANT_VALIDITY_INVALID]
      end
  end.

End Validity.

(** ** Correlations and source authorizations *)

Record GrantCorrelation := {
  requestId : string;
  decisionId : string;
  cor_action : string;
  resourceScope : string;
}.
Global Instance GrantCorrelation_eq_dec : EqDecision GrantCorrelation.
Proof. solve_decision. Defined.

Definition grantCorrelationMatches (l r : GrantCorrelation) : bool :=
  str_eqb (requestId l) (requestId r) && str_eqb (decisionId l) (decisionId r) &&
  str_eqb (cor_action l) (cor_action r) && str_eqb (resourceScope l) (resourceScope r).

Definition serializeGrantCorrelation (c : GrantCorrelation) : string :=
  quoted "action" +:+ ":" +:+ json_string (cor_action c) +:+ "," +:+
  quoted "decisionId" +:+ ":" +:+ json_string (decisionId c) +:+ "," +:+
  quoted "requestId" +:+ ":" +:+ json_string (requestId c) +:+ "," +:+
  quoted "resourceScope" +:+ ":" +:+ json_string (resourceScope c).

Definition isWellFormedGrantCorrelation (c : GrantCorrelation) : bool :=
  nonempty (requestId c) && nonempty (decisionId c) && nonempty (cor_action c) && nonempty (resourceScope c).

Record GrantSourceAuthorization := {
  correlation : GrantCorrelation;
  subject : string;
  scope : GrantScope;
  authorizationPermitsExercise : bool;
  allBlockingObligationsSatisfied : bool;
  evaluatedAt : string;
  validityCeilings : list GrantValidityCeiling;
  contextDigest : option string;
  approvalDigest : option string;
}.

Definition MANDATORY_GRANT_BOUND_KEYS : list GrantBoundKey := [Action; Resources].

Definition missingMandatoryGrantBounds (source : GrantSourceAuthorization) : list GrantBoundKey :=
  List.filter (λ key, negb (bool_decide (key ∈ statedGrantBoundKeys (scope source)))) MANDATORY_GRANT_BOUND_KEYS.

Definition grantSourceMatchesCorrelation (source : GrantSourceAuthorization) (c : GrantCorrelation) : bool :=
  grantCorrelationMatches (correlation source) c.

Definition withGrantValidityCeiling (source : GrantSourceAuthorization) (ceiling : GrantValidityCeiling) : GrantSourceAuthorization := {|
  correlation := correlation source; subject := subject source; scope := scope source;
  authorizationPermitsExercise := authorizationPermitsExercise source;
  allBlockingObligationsSatisfied := allBlockingObligationsSatisfied source;
  evaluatedAt := evaluatedAt source;
  validityCeilings := validityCeilings source ++ [ceiling];
  contextDigest := contextDigest source; approvalDigest := approvalDigest source |}.

(** [{ ...scope, amount }] *)
Definition with_amount (s : GrantScope) (b : GrantBound) : GrantScope :=
  scope_of (λ k, if decide (k = Amount) then Some b else grantScopeBound s k) (s_parameters s).

Definition with_scope (source : GrantSourceAuthorization) (s : GrantScope) : GrantSourceAuthorization := {|
  correlation := correlation source; subject := subject source; scope := s;
  authorizationPermitsExercise := authorizationPermitsExercise source;
  allBlockingObligationsSatisfied := allBlockingObligationsSatisfied source;
  evaluatedAt := evaluatedAt source; validityCeilings := validityCeilings source;
  contextDigest := contextDigest source; approvalDigest := approvalDigest source |}.

Inductive GrantEligibility := eligible | ineligible.

Section Source.
Context `{JsHost}.

Definition isDerivableGrantSource (source : GrantSourceAuthorization) : bool :=
  isWellFormedGrantCorrelation (correlation source) && nonempty (subject source) &&
  is_some (date_parse (evaluatedAt source)) && isWellFormedGrantScope (scope source) &&
  (length (missingMandatoryGrantBounds source) =? 0)%nat.

(** The comparator of [orderedValidityCeilings] is not positive. *)
Definition validity_ceiling_le (l r : GrantValidityCeiling) : Prop :=
  (if str_eqb (ceiling_source_name (ceiling_source l)) (ceiling_source_name (ceiling_source r))
   then locale_le (notAfter l) (notAfter r)
   else locale_le (ceiling_source_name (ceiling_source l)) (ceiling_source_name (ceiling_source r))) = true.
Global Instance validity_ceiling_le_dec : RelDecision validity_ceiling_le.
Proof. intros l r. unfold validity_ceiling_le. apply _. Defined.

Definition orderedValidityCeilings (ceilings : list GrantValidityCeiling) : list GrantValidityCeiling :=
  merge_sort validity_ceiling_le ceilings.

Definition serialize_ceiling (c : GrantValidityCeiling) : string :=
  "{" +:+ quoted "notAfter" +:+ ":" +:+ json_string (notAfter c) +:+ "," +:+
  quoted "source" +:+ ":" +:+ json_string (ceiling_source_name (ceiling_source c)) +:+ "}".

Definition js_bool (b : bool) : string := if b then "true" else "false".

Definition serializeGrantSourceAuthorization (source : GrantSourceAuthorization) : string :=
  join "," (
    [quoted "allBlockingObligationsSatisfied" +:+ ":" +:+ js_bool (allBlockingObligationsSatisfied source)] ++
    match approvalDigest source with Some d => [quoted "approvalDigest" +:+ ":" +:+ json_string d] | None => [] end ++
    [quoted "authorizationPermitsExercise" +:+ ":" +:+ js_bool (authorizationPermitsExercise source)] ++
    match contextDigest source with Some d => [quoted "contextDigest" +:+ ":" +:+ json_string d] | None => [] end ++
    [quoted "correlation" +:+ ":{" +:+ serializeGrantCorrelation (correlation source) +:+ "}";
     quoted "evaluatedAt" +:+ ":" +:+ json_string (evaluatedAt source);
     quoted "scope" +:+ ":" +:+ serializeGrantScope (scope source);
     quoted "validityCeilings" +:+ ":[" +:+ join "," (serialize_ceiling <$> orderedValidityCeilings (validityCeilings source)) +:+ "]";
     quoted "subject" +:+ ":" +:+ json_string (subject source)]).

Definition withGrantAmountCeiling (source : GrantSourceAuthorization) (ceiling : GrantBound) : option GrantSourceAuthorization :=
  if negb (bool_decide (bound_kind ceiling = k_ceiling)) || negb (isWellFormedGrantBound ceiling) then None
  else
    match s_amount (scope source) with
    | None => Some (with_scope source (canonicalGrantScope (with_amount (scope source) ceiling)))
    | Some existing =>
        if negb (bool_decide (bound_kind existing = k_ceiling)) then None
        else match compareGrantBound existing ceiling with
             | incomparable => None
             | broader => Some (with_scope source (canonicalGrantScope (with_amount (scope source) existing)))
             | _ => Some (with_scope source (canonicalGrantScope (with_amount (scope source) ceiling)))
             end
    end.

Definition assessGrantEligibility (source : GrantSourceAuthorization) : GrantEligibility * list GrantReasonCode :=
  let reasonCodes :=
    (if negb (authorizationPermitsExercise source) then [GRANT_AUTHORIZATION_NOT_PERMITTED] else []) ++
    (if negb (allBlockingObligationsSatisfied source) then [GRANT_OBLIGATIONS_UNSATISFIED] else []) ++
    (if negb (isDerivableGrantSource source) then [GRANT_SOURCE_BOUNDS_INCOMPLETE] else []) in
  match reasonCodes with [] => (eligible, []) | _ => (ineligible, reasonCodes) end.

End Source.

(** ** Parameter lists *)

Lemma wf_parameters_inv ps :
  isWellFormedGrantParameterBounds ps = true ↔
  (0 < Z.of_nat (length ps) ≤ GRANT_PARAMETER_BOUNDS_MAX) ∧
  Forall (λ e, isSemanticIdentifier (pb_dimension e) = true ∧ parameter_entry_wf e) ps ∧
  StronglySorted slt (pb_dimension <$> ps).
Proof.
  unfold isWellFormedGrantParameterBounds.
  change (every_with_previous _ None ps) with
    (every_with_previous (ascending_check pb_dimension
      (λ e, isSemanticIdentifier (pb_dimension e) && isWellFormedGovernedParameterBound (pb_bound e))) None ps).
  rewrite !andb_true_iff, every_with_previous_ascending, Z.ltb_lt, Z.leb_le.
  assert (Forall (λ e, isSemanticIdentifier (pb_dimension e) && isWellFormedGovernedParameterBound (pb_bound e) = true) ps ↔
    Forall (λ e, isSemanticIdentifier (pb_dimension e) = true ∧ parameter_entry_wf e) ps) as ->.
  { apply Forall_iff. intros e. apply andb_true_iff. }
  tauto.
Qed.

Lemma grantParameterBound_lookup ps d e :
  NoDup (pb_dimension <$> ps) → grantParameterBound (Some ps) d = Some e ↔ e ∈ ps ∧ pb_dimension e = d.
Proof. intros Hn. cbn. by apply find_key. Qed.

Lemma canonical_parameters_sorted ps :
  NoDup (pb_dimension <$> ps) → StronglySorted slt (pb_dimension <$> canonicalGrantParameterBounds ps).
Proof.
  intros Hn. unfold canonicalGrantParameterBounds. apply sorted_NoDup_strict.
  - apply (StronglySorted_fmap _ parameter_bound_le); [done|].
    apply Sorted_StronglySorted; [intros a b c; unfold parameter_bound_le; by etrans|].
    apply Sorted_merge_sort, _.
  - by rewrite merge_sort_Permutation.
Qed.

(** Well-formed lists are already canonical. *)
Lemma canonical_parameters_id ps :
  StronglySorted slt (pb_dimension <$> ps) → canonicalGrantParameterBounds ps = ps.
Proof.
  intros Hs. assert (StronglySorted parameter_bound_le ps) as Hle.
  { induction ps as [|e ps IH]; [constructor|].
    change (StronglySorted slt (pb_dimension e :: (pb_dimension <$> ps))) in Hs. apply StronglySorted_cons in Hs as [He Hs].
    constructor; [by apply IH|]. rewrite Forall_fmap in He. eapply Forall_impl; [exact He|].
    intros x Hx. by apply slt_iff in Hx as [? _]. }
  unfold canonicalGrantParameterBounds.
  apply (StronglySorted_unique_strong parameter_bound_le); [| |done|apply merge_sort_Permutation].
  - intros x y Hx Hy Hxy Hyx. rewrite merge_sort_Permutation in Hx.
    assert (pb_dimension x = pb_dimension y) as E by (by apply (anti_symm String.le)).
    pose proof (strictly_sorted_NoDup _ Hs) as Hn.
    assert (grantParameterBound (Some ps) (pb_dimension y) = Some x) as F1 by (by apply grantParameterBound_lookup).
    assert (grantParameterBound (Some ps) (pb_dimension y) = Some y) as F2 by (by apply grantParameterBound_lookup).
    congruence.
  - apply Sorted_StronglySorted; [intros a b c; unfold parameter_bound_le; by etrans|].
    apply Sorted_merge_sort, _.
Qed.

(** ** Bounds after canonicalization *)

Section AttenuationProofs.
Context `{JsHost}.

Lemma admits_canonical b p : admits (canonicalGrantBound b) p ↔ admits b p.
Proof. destruct b, p; cbn; try done. apply elem_of_canonical_set. Qed.

Lemma wf_canonical b : isWellFormedGrantBound b = true → isWellFormedGrantBound (canonicalGrantBound b) = true.
Proof.
  destruct b as [|values| |]; try done. cbn. rewrite !andb_true_iff, !Z.ltb_lt, !forallb_forall.
  setoid_rewrite <-list_elem_of_In. setoid_rewrite elem_of_canonical_set. intros [Hl Hn]. split; [|done].
  destruct values as [|v values]; [cbn in Hl; lia|].
  assert (v ∈ canonicalGrantSetValues (v :: values)) as Hin by (apply elem_of_canonical_set; left).
  destruct (canonicalGrantSetValues (v :: values)); [by apply elem_of_nil in Hin|cbn; lia].
Qed.

Lemma kind_canonical b : bound_kind (canonicalGrantBound b) = bound_kind b.
Proof. by destruct b. Qed.

Lemma permits_canonical a b :
  boundComparisonPermits (compareGrantBound a b) = true →
  boundComparisonPermits (compareGrantBound a (canonicalGrantBound b)) = true.
Proof.
  intros Hp. destruct (compareGrantBound_wf _ _ Hp) as (?&?&?).
  apply permits_complete; [done|by apply wf_canonical|by rewrite kind_canonical|].
  intros p Hc. eapply permits_admits; [done|]. by apply admits_canonical.
Qed.

(** ** One axis, one dimension *)

Lemma attenuate_axis_spec source requested k :
  refused (attenuate_axis source requested k) = [] →
  match grantScopeBound source k with
  | None => derived (attenuate_axis source requested k) = None ∧ grantScopeBound requested k = None
  | Some b => ∃ c, derived (attenuate_axis source requested k) = Some c ∧
      (c = b ∧ grantScopeBound requested k = None ∨ grantScopeBound requested k = Some c) ∧
      bound_kind c = GRANT_BOUND_KINDS_BY_KEY k ∧ boundComparisonPermits (compareGrantBound b c) = true
  end.
Proof.
  unfold attenuate_axis. destruct (grantScopeBound requested k) as [r|], (grantScopeBound source k) as [b|]; try done.
  - do 2 case_bool_decide; try done. cbn. destruct (boundComparisonPermits _) eqn:Hp; [|done].
    intros _. exists r. auto.
  - destruct (isWellFormedGrantBound b) eqn:Hb; [|done]. case_bool_decide; [|done]. intros _. exists b. cbn.
    rewrite compareGrantBound_refl by done. auto.
Qed.

Lemma attenuate_dimension_spec source requested d :
  refused (attenuate_dimension source requested d) = [] →
  match grantParameterBound source d with
  | None => grantParameterBound requested d = None ∧ derived (attenuate_dimension source requested d) = None
  | Some b => ∃ c, derived (attenuate_dimension source requested d) = Some c ∧
      (c = b ∧ grantParameterBound requested d = None ∨ grantParameterBound requested d = Some c ∧
       boundComparisonPermits (compareGovernedParameterBound (pb_bound b) (pb_bound c)) = true)
  end.
Proof.
  unfold attenuate_dimension.
  destruct (grantParameterBound requested d) as [r|], (grantParameterBound source d) as [b|]; try done.
  - destruct (boundComparisonPermits _) eqn:Hp; [|done]. intros _. exists r. auto.
  - intros _. exists b. auto.
Qed.

Lemma compareGovernedParameterBound_refl b :
  isWellFormedGovernedParameterBound b = true → compareGovernedParameterBound b b = equal.
Proof.
  intros Hb. unfold compareGovernedParameterBound. rewrite Hb. cbn. destruct b as [v|n].
  - rewrite bool_decide_true by done. cbn.
    by rewrite (proj2 (governedParameterValuesEqual_eq v v Hb Hb) eq_refl).
  - by rewrite Z.ltb_irrefl, Z.eqb_refl.
Qed.

Lemma compareGovernedParameterBound_wf a b :
  boundComparisonPermits (compareGovernedParameterBound a b) = true →
  isWellFormedGovernedParameterBound a = true ∧ isWellFormedGovernedParameterBound b = true.
Proof.
  unfold compareGovernedParameterBound.
  destruct (isWellFormedGovernedParameterBound a), (isWellFormedGovernedParameterBound b); by cbn.
Qed.


(** ** The parameter list *)

Lemma wf_option_list (o : option (list GrantParameterBound)) :
  match o with Some ps => negb (isWellFormedGrantParameterBounds ps) | None => false end = false ↔
  ∀ ps, o = Some ps → isWellFormedGrantParameterBounds ps = true.
Proof. destruct o as [ps|]; [rewrite negb_false_iff|]; naive_solver. Qed.

(** A list of narrower entries, dimension by dimension. *)
Definition entry_narrows (b c : GrantParameterBound) : Prop :=
  pb_dimension c = pb_dimension b ∧
  boundComparisonPermits (compareGovernedParameterBound (pb_bound b) (pb_bound c)) = true.

Lemma entries_narrow_dimensions ps cs : Forall2 entry_narrows ps cs → pb_dimension <$> cs = pb_dimension <$> ps.
Proof.
  induction 1 as [|b c l l' [E _] _ IH]; [done|].
  change (pb_dimension c :: (pb_dimension <$> l') = pb_dimension b :: (pb_dimension <$> l)). by rewrite E, IH.
Qed.

Lemma omap_derived_narrows (step : string → Step GrantParameterBound) l :
  (∀ b, b ∈ l → ∃ c, derived (step (pb_dimension b)) = Some c ∧ entry_narrows b c) →
  Forall2 entry_narrows l (omap derived (step <$> (pb_dimension <$> l))).
Proof.
  induction l as [|b l IH]; intros Hl; [constructor|].
  destruct (Hl b ltac:(set_solver)) as (c&Ec&Hc).
  change (Forall2 entry_narrows (b :: l)
    (match derived (step (pb_dimension b)) with Some y => y :: omap derived (step <$> (pb_dimension <$> l))
     | None => omap derived (step <$> (pb_dimension <$> l)) end)).
  rewrite Ec. constructor; [done|]. apply IH. set_solver.
Qed.

(** The dimensions visited are the source's own as soon as every requested
    dimension is one of them. *)
Lemma visited_dimensions ps requested :
  isWellFormedGrantParameterBounds ps = true →
  (∀ d, d ∈ pb_dimension <$> requested → is_Some (grantParameterBound (Some ps) d)) →
  sort_strings (nub (pb_dimension <$> (ps ++ requested))) = pb_dimension <$> ps.
Proof.
  intros Hwf Hreq. apply wf_parameters_inv in Hwf as (_&_&Hs). pose proof (strictly_sorted_NoDup _ Hs) as Hn.
  apply strictly_sorted_unique; [|done|].
  - apply sorted_NoDup_strict; [apply sort_strings_sorted|]. rewrite sort_strings_perm. apply NoDup_nub.
  - intros d. rewrite elem_of_sort_strings, elem_of_nub, fmap_app, elem_of_app.
    split; [intros [?|Hd]; [done|]|by left].
    destruct (Hreq d Hd) as [e He]. apply grantParameterBound_lookup in He as [Hin <-]; [|done].
    by apply list_elem_of_fmap_2.
Qed.

(** A step over a source dimension that is not refused derives a narrower
    entry. *)
Lemma attenuate_dimension_narrows ps requested b :
  isWellFormedGrantParameterBounds ps = true →
  (∀ rs, requested = Some rs → isWellFormedGrantParameterBounds rs = true) → b ∈ ps →
  refused (attenuate_dimension (Some ps) requested (pb_dimension b)) = [] →
  ∃ c, derived (attenuate_dimension (Some ps) requested (pb_dimension b)) = Some c ∧ entry_narrows b c.
Proof.
  intros Hwf Hwr Hb Hr. apply wf_parameters_inv in Hwf as (_&Hf&Hs). pose proof (strictly_sorted_NoDup _ Hs) as Hn.
  apply attenuate_dimension_spec in Hr.
  rewrite (proj2 (grantParameterBound_lookup ps (pb_dimension b) b Hn)) in Hr by done.
  destruct Hr as (c&Hc&Hcase). exists c. split; [done|]. unfold entry_narrows.
  rewrite Forall_forall in Hf. destruct (Hf b Hb) as [_ Hb'].
  destruct Hcase as [[-> _]|[Hc' Hp]]; [by rewrite compareGovernedParameterBound_refl|].
  destruct requested as [rs|]; [|done]. apply grantParameterBound_lookup in Hc'; [naive_solver|].
  pose proof (proj1 (wf_parameters_inv rs) (Hwr rs eq_refl)) as (_&_&Hs'). by apply strictly_sorted_NoDup.
Qed.

Lemma attenuateParameterBounds_spec source requested :
  refused (attenuateParameterBounds source requested) = [] →
  match source with
  | None => requested = None ∧ derived (attenuateParameterBounds source requested) = None
  | Some ps => isWellFormedGrantParameterBounds ps = true ∧
      ∃ cs, derived (attenuateParameterBounds source requested) = Some cs ∧ Forall2 entry_narrows ps cs
  end.
Proof.
  intros Hr. unfold attenuateParameterBounds in *.
  destruct (decide (source = None ∧ requested = None)) as [[-> ->]|Hsome]; [done|].
  assert (∀ {X} (a b : X), match source, requested with None, None => a | _, _ => b end = b) as Hbr.
  { intros X a b. destruct source, requested; naive_solver. }
  rewrite Hbr in Hr |- *. clear Hbr.
  destruct (match source with Some ps => negb (isWellFormedGrantParameterBounds ps) | None => false end) eqn:Hws; [done|].
  destruct (match requested with Some ps => negb (isWellFormedGrantParameterBounds ps) | None => false end) eqn:Hwr; [done|].
  rewrite wf_option_list in Hws, Hwr. cbn [orb refused derived] in *.
  rewrite bind_nil, Forall_fmap, Forall_forall in Hr. cbn in Hr.
  assert (∀ d, d ∈ pb_dimension <$> default [] requested → is_Some (grantParameterBound source d)) as Hreq.
  { intros d Hd. specialize (Hr d).
    rewrite elem_of_sort_strings, elem_of_nub, fmap_app, elem_of_app in Hr. specialize (Hr (or_intror Hd)).
    apply attenuate_dimension_spec in Hr. destruct (grantParameterBound source d); [done|]. exfalso.
    destruct Hr as [Hn _]. destruct requested as [rs|]; [|by apply elem_of_nil in Hd].
    by apply find_key_None in Hn. }
  destruct source as [ps|].
  2: { destruct requested as [rs|]; [|naive_solver]. exfalso.
    pose proof (proj1 (wf_parameters_inv rs) (Hwr rs eq_refl)) as (Hl&_). destruct rs as [|r rs]; [cbn in Hl; lia|].
    destruct (Hreq (pb_dimension r)) as [? Hx]; [cbn; left|done]. }
  specialize (Hws ps eq_refl). split; [done|]. cbn [default] in *.
  change (id ps) with ps in *.
  rewrite visited_dimensions in Hr |- * by done.
  assert (Forall2 entry_narrows ps (omap derived (attenuate_dimension (Some ps) requested <$> (pb_dimension <$> ps)))) as Hcs.
  { apply omap_derived_narrows. intros b Hb. apply attenuate_dimension_narrows; [done..|].
    apply Hr. by apply list_elem_of_fmap_2. }
  eexists. split; [|exact Hcs].
  destruct (omap derived _); [|done]. apply Forall2_nil_inv_r in Hcs as ->. done.
Qed.

(** ** Scopes as authority

    A scope leaves an axis or a dimension it does not state unrestricted; one
    scope is included in another when it admits nothing more, on any axis or
    dimension. *)

Definition axis_admits (s : GrantScope) (k : GrantBoundKey) (p : Point) : Prop :=
  match grantScopeBound s k with None => True | Some b => admits b p end.
Definition dimension_admits (s : GrantScope) (d : string) (v : GovernedParameterValue) : Prop :=
  match grantParameterBound (s_parameters s) d with None => True | Some e => admitted (pb_bound e) v end.
Definition scope_included (child parent : GrantScope) : Prop :=
  (∀ k p, axis_admits child k p → axis_admits parent k p) ∧
  (∀ d v, dimension_admits child d v → dimension_admits parent d v).

Lemma scope_of_bound f ps k : grantScopeBound (scope_of f ps) k = f k.
Proof. by destruct k. Qed.

Lemma canonicalGrantScope_bound s k : grantScopeBound (canonicalGrantScope s) k = canonicalGrantBound <$> grantScopeBound s k.
Proof. unfold canonicalGrantScope. by rewrite scope_of_bound. Qed.

Lemma canonicalGrantScope_idemp_axis s k :
  grantScopeBound (canonicalGrantScope (canonicalGrantScope s)) k = grantScopeBound (canonicalGrantScope s) k.
Proof.
  rewrite !canonicalGrantScope_bound. destruct (grantScopeBound s k); cbn; [|done]. by rewrite canonicalGrantBound_idemp.
Qed.

Lemma within_axis parent child k b :
  grantScopeIsWithin parent child = true → grantScopeBound child k = Some b →
  ∃ a, grantScopeBound parent k = Some a ∧ boundComparisonPermits (compareGrantBound a b) = true.
Proof.
  unfold grantScopeIsWithin. rewrite andb_true_iff, forallb_forall. intros [Hax _] Hk.
  specialize (Hax k). rewrite Hk in Hax. destruct (grantScopeBound parent k) as [a|].
  - exists a. split; [done|]. apply Hax. apply list_elem_of_In. destruct k; unfold GRANT_BOUND_KEYS; set_solver.
  - exfalso. assert (false = true); [|done]. apply Hax, list_elem_of_In. destruct k; unfold GRANT_BOUND_KEYS; set_solver.
Qed.

Lemma within_parameters parent child :
  parameterBoundsAreWithin parent child = true →
  match parent with
  | None => child = None
  | Some ps => ∃ cs, child = Some cs ∧ isWellFormedGrantParameterBounds ps = true ∧
      isWellFormedGrantParameterBounds cs = true ∧ length cs = length ps ∧
      ∀ b, b ∈ ps → ∃ c, grantParameterBound child (pb_dimension b) = Some c ∧
        boundComparisonPermits (compareGovernedParameterBound (pb_bound b) (pb_bound c)) = true
  end.
Proof.
  unfold parameterBoundsAreWithin. destruct child as [cs|], parent as [ps|]; try done.
  rewrite !andb_true_iff, forallb_forall, Nat.eqb_eq. intros [[[??]?] Hf]. exists cs. do 4 (split; [done|]).
  intros b Hb. specialize (Hf b). rewrite <-list_elem_of_In in Hf. specialize (Hf Hb).
  destruct (grantParameterBound (Some cs) (pb_dimension b)) as [c|]; [|done]. eauto.
Qed.

(** A scope that is within another and states every axis the other states is
    included in it: the containment check decides inclusion of authority on
    scopes with the same axes. *)
Lemma within_included parent child :
  grantScopeIsWithin parent child = true → (∀ k, stated parent k = true → stated child k = true) →
  scope_included child parent.
Proof.
  intros Hw Hst. split.
  - intros k p. unfold axis_admits. specialize (Hst k). unfold stated in Hst.
    destruct (grantScopeBound child k) as [b|] eqn:Hb.
    + destruct (within_axis _ _ _ _ Hw Hb) as (a&->&Hp). by apply permits_admits.
    + destruct (grantScopeBound parent k); [|done]. by specialize (Hst eq_refl).
  - intros d v. unfold dimension_admits.
    unfold grantScopeIsWithin in Hw. apply andb_true_iff in Hw as [_ Hp]. apply within_parameters in Hp.
    destruct (s_parameters parent) as [ps|]; [|done].
    destruct Hp as (cs&_&Hwf&_&_&Hall). destruct (grantParameterBound (Some ps) d) as [b|] eqn:Hb; [|done].
    apply wf_parameters_inv in Hwf as (_&_&Hs). apply grantParameterBound_lookup in Hb as [Hin <-];
      [|by apply strictly_sorted_NoDup].
    destruct (Hall b Hin) as (c&->&Hc). by apply parameter_permits_admits.
Qed.

Lemma narrowed_list_within ps cs :
  isWellFormedGrantParameterBounds ps = true → Forall2 entry_narrows ps cs →
  parameterBoundsAreWithin (Some ps) (Some (canonicalGrantParameterBounds cs)) = true.
Proof.
  intros Hwf Hcs. pose proof (entries_narrow_dimensions _ _ Hcs) as Ed.
  pose proof (proj1 (wf_parameters_inv ps) Hwf) as (Hl&Hf&Hs).
  rewrite canonical_parameters_id by (by rewrite Ed).
  assert (isWellFormedGrantParameterBounds cs = true) as Hwc.
  { apply wf_parameters_inv. rewrite <-(Forall2_length _ _ _ Hcs), Ed. split; [done|]. split; [|done].
    apply Forall_forall. intros c Hc. apply list_elem_of_lookup in Hc as (i&Hi).
    destruct (Forall2_lookup_r _ _ _ _ _ Hcs Hi) as (b&Hb&Edim&Hp). split.
    - rewrite Edim. rewrite Forall_forall in Hf. eapply Hf, list_elem_of_lookup_2, Hb.
    - by apply compareGovernedParameterBound_wf in Hp as [_ ?]. }
  cbn. rewrite Hwf, Hwc, <-(Forall2_length _ _ _ Hcs), Nat.eqb_refl. cbn [andb].
  apply forallb_forall. intros b Hb%list_elem_of_In. apply list_elem_of_lookup in Hb as (i&Hi).
  destruct (Forall2_lookup_l _ _ _ _ _ Hcs Hi) as (c&Hc&Edim&Hp).
  assert (grantParameterBound (Some cs) (pb_dimension b) = Some c) as E.
  { apply grantParameterBound_lookup; [rewrite Ed; by apply strictly_sorted_NoDup|].
    split; [by eapply list_elem_of_lookup_2|done]. }
  cbn in E. by rewrite E.
Qed.

(** The three facts about an attenuation that is not refused. *)
Lemma attenuated_inv source requested sc bounds :
  attenuateGrantScope source requested = Attenuated sc bounds →
  (∀ k, refused (attenuate_axis source requested k) = []) ∧
  refused (attenuateParameterBounds (s_parameters source) (s_parameters requested)) = [] ∧
  sc = canonicalGrantScope (scope_of (λ k, derived (attenuate_axis source requested k))
    (derived (attenuateParameterBounds (s_parameters source) (s_parameters requested)))).
Proof.
  unfold attenuateGrantScope. destruct (_ ++ refused _) eqn:E; [|done]. intros [= <- <-].
  apply app_nil in E as [Ha Hp]. split; [|done]. rewrite bind_nil, Forall_fmap, Forall_forall in Ha.
  intros k. apply Ha. destruct k; unfold GRANT_BOUND_KEYS; set_solver.
Qed.

Lemma attenuated_axis source requested sc bounds k :
  attenuateGrantScope source requested = Attenuated sc bounds →
  match grantScopeBound source k with
  | None => grantScopeBound sc k = None ∧ grantScopeBound requested k = None
  | Some b => ∃ c, grantScopeBound sc k = Some c ∧ boundComparisonPermits (compareGrantBound b c) = true ∧
      c = canonicalGrantBound (default b (grantScopeBound requested k))
  end.
Proof.
  intros (Ha&_&->)%attenuated_inv. pose proof (attenuate_axis_spec _ _ _ (Ha k)) as Hk.
  rewrite canonicalGrantScope_bound, scope_of_bound.
  destruct (grantScopeBound source k) as [b|].
  - destruct Hk as (c&Hd&Hcase&_&Hp). rewrite Hd. cbn. eexists. split; [done|]. split; [by apply permits_canonical|].
    by destruct Hcase as [[-> ->]| ->].
  - destruct Hk as [-> ->]. done.
Qed.

Lemma attenuated_within source requested sc bounds :
  attenuateGrantScope source requested = Attenuated sc bounds → grantScopeIsWithin source sc = true.
Proof.
  intros Hat. unfold grantScopeIsWithin. apply andb_true_iff. split.
  - apply forallb_forall. intros k _. pose proof (attenuated_axis _ _ _ _ k Hat) as Hk.
    destruct (grantScopeBound source k) as [b|].
    + destruct Hk as (c&->&Hp&_). done.
    + destruct Hk as [-> _]. done.
  - destruct (attenuated_inv _ _ _ _ Hat) as (_&Hp&->).
    change (s_parameters (canonicalGrantScope ?s)) with (canonicalGrantParameterBounds <$> s_parameters s).
    cbn [s_parameters scope_of].
    apply attenuateParameterBounds_spec in Hp. destruct (s_parameters source) as [ps|].
    + destruct Hp as (Hwf&cs&->&Hcs). by apply narrowed_list_within.
    + destruct Hp as [_ ->]. done.
Qed.

Lemma attenuated_bound source requested sc bounds k :
  attenuateGrantScope source requested = Attenuated sc bounds →
  grantScopeBound sc k =
    match grantScopeBound source k with
    | None => None
    | Some b => Some (canonicalGrantBound (default b (grantScopeBound requested k)))
    end.
Proof.
  intros Hat. pose proof (attenuated_axis _ _ _ _ k Hat) as Hk.
  destruct (grantScopeBound source k); [destruct Hk as (c&->&_&->); done|by destruct Hk].
Qed.

Lemma attenuated_included source requested sc bounds :
  attenuateGrantScope source requested = Attenuated sc bounds → scope_included sc source.
Proof.
  intros Hat. apply within_included; [by eapply attenuated_within|]. intros k. unfold stated.
  rewrite (attenuated_bound _ _ _ _ k Hat). by destruct (grantScopeBound source k).
Qed.

(** C28. A grant's scope is within the authority it derives from. Whenever the
    attenuation engine derives a scope, that scope passes the independent
    containment check, states exactly the axes the source states, holds on
    each axis the requested bound (or, where nothing was requested, the
    source's own) in canonical form, and admits nothing the source does not
    admit on any axis or parameter dimension. *)
Theorem attenuateGrantScope_contained (source requested sc : GrantScope) (bounds : list GrantBoundAttenuation) :
  attenuateGrantScope source requested = Attenuated sc bounds →
  grantScopeIsWithin source sc = true ∧
  (∀ k, grantScopeBound sc k =
    match grantScopeBound source k with
    | None => None
    | Some b => Some (canonicalGrantBound (default b (grantScopeBound requested k)))
    end) ∧
  scope_included sc source.
Proof.
  intros Hat. split; [by eapply attenuated_within|].
  split; [intros k; by eapply attenuated_bound|by eapply attenuated_included].
Qed.

(** A request that widens is refused: if a requested bound is on an axis the
    source does not state, or admits a point the source's bound does not, the
    engine derives no scope. *)
Theorem attenuateGrantScope_refuses_broadening (source requested : GrantScope) (k : GrantBoundKey) (r : GrantBound) :
  grantScopeBound requested k = Some r →
  (grantScopeBound source k = None ∨ ∃ p, admits r p ∧ ¬ axis_admits source k p) →
  ∃ violations bounds, attenuateGrantScope source requested = AttenuationRefused violations bounds ∧
    Exists (λ v, av_key v = AxisKey k) violations.
Proof.
  intros Hr Hw. assert (∃ c, refused (attenuate_axis source requested k) = [violationFor (AxisKey k) c]) as [c Hv].
  { unfold attenuate_axis. rewrite Hr. destruct (grantScopeBound source k) as [b|] eqn:Hb; [|by eexists].
    do 2 case_bool_decide; try by eexists. cbn [negb orb].
    destruct (boundComparisonPermits (compareGrantBound b r)) eqn:Hp; [|by eexists]. exfalso.
    destruct Hw as [?|(p&Hp1&Hp2)]; [done|]. apply Hp2. unfold axis_admits. rewrite Hb. by eapply permits_admits. }
  assert (violationFor (AxisKey k) c ∈ (attenuate_axis source requested <$> GRANT_BOUND_KEYS) ≫= refused) as Hin.
  { apply list_elem_of_bind. exists (attenuate_axis source requested k). rewrite Hv. split; [by left|].
    apply list_elem_of_fmap_2. destruct k; unfold GRANT_BOUND_KEYS; set_solver. }
  unfold attenuateGrantScope. destruct (_ ++ refused _) as [|v vs] eqn:E.
  - apply app_nil in E as [E _]. rewrite E in Hin. by apply elem_of_nil in Hin.
  - rewrite <-E. eexists _, _. split; [reflexivity|]. apply Exists_exists.
    exists (violationFor (AxisKey k) c). split; [|done]. apply elem_of_app. by left.
Qed.

End AttenuationProofs.

(** ** Witnesses for attenuation *)

Definition sample_scope : GrantScope := {|
  s_action := Some (Identity "payment");
  s_actionClass := Some (Identity "transfer");
  s_amount := Some (Ceiling "100" "USD");
  s_counterparty := Some (Identity "acme");
  s_governanceProfile := Some (Identity "profile@1");
  s_organization := None;
  s_resourceClass := Some (Identity "account");
  s_resources := Some (SetOf ["acct-2"; "acct-1"]);
  s_parameters := Some
    [ {| pb_dimension := "environment"; pb_bound := BExact (VToken "prod") |};
      {| pb_dimension := "recordCount"; pb_bound := BMaximum (JInt 100) |} ];
|}.
Definition sample_request : GrantScope := {|
  s_action := None; s_actionClass := None; s_amount := Some (Ceiling "60.5" "USD"); s_counterparty := None;
  s_governanceProfile := None; s_organization := None; s_resourceClass := None; s_resources := Some (SetOf ["acct-1"]);
  s_parameters := Some [ {| pb_dimension := "recordCount"; pb_bound := BMaximum (JInt 7) |} ];
|}.
Definition sample_attenuated : GrantScope :=
  match @attenuateGrantScope demo_host sample_scope sample_request with
  | Attenuated sc _ => sc
  | AttenuationRefused _ _ => sample_scope
  end.

Lemma attenuateGrantScope_contained_witness :
  s_amount sample_attenuated = Some (Ceiling "60.5" "USD") ∧
  @grantScopeIsWithin demo_host sample_scope sample_attenuated = true.
Proof.
  split; [vm_compute; reflexivity|].
  eapply (@attenuateGrantScope_contained demo_host sample_scope sample_request). vm_compute. reflexivity.
Defined.

Lemma attenuateGrantScope_refuses_broadening_witness :
  ∃ violations bounds,
    @attenuateGrantScope demo_host sample_scope
      (scope_of (λ k, match k with Organization => Some (Identity "other") | _ => None end) None)
      = AttenuationRefused violations bounds ∧
    Exists (λ v, av_key v = AxisKey Organization) violations.
Proof.
  apply (@attenuateGrantScope_refuses_broadening demo_host _ _ Organization (Identity "other")); [reflexivity|].
  left. reflexivity.
Defined.

(** ** Validity windows are contained by every ceiling *)

Section ValidityProofs.
Context `{JsHost}.

Global Instance ceiling_le_total : Total ceiling_le.
Proof.
  intros l r. unfold ceiling_le.
  destruct (date_parse (notAfter l)) as [a|], (date_parse (notAfter r)) as [b|]; auto.
  destruct (Z.lt_trichotomy a b) as [?|[->|?]]; auto.
  destruct (locale_le_total (ceiling_source_name (ceiling_source l)) (ceiling_source_name (ceiling_source r))); auto.
Qed.

(** The instant order that the ceiling order refines. *)
Definition instant_le (l r : GrantValidityCeiling) : Prop :=
  ∃ a b, date_parse (notAfter l) = Some a ∧ date_parse (notAfter r) = Some b ∧ a ≤ b.

Lemma instant_le_trans : Transitive instant_le.
Proof. intros x y z (a&b&?&?&?) (b'&c&?&?&?). exists a, c. simplify_eq. do 2 (split; [done|]). lia. Qed.

Definition readable (c : GrantValidityCeiling) : Prop := is_Some (date_parse (notAfter c)).

Lemma ceiling_le_instant l r : readable l → readable r → ceiling_le l r → instant_le l r.
Proof.
  intros [a Ha] [b Hb]. unfold ceiling_le. rewrite Ha, Hb. intros Hle. exists a, b. do 2 (split; [done|]). lia.
Qed.

Lemma sorted_readable_min l c :
  Forall readable (c :: l) → Sorted ceiling_le (c :: l) → Forall (instant_le c) l.
Proof.
  intros Hf Hs. assert (Sorted instant_le (c :: l)) as Hi.
  { revert c Hf Hs. induction l as [|x l IH]; intros c Hf Hs; [by repeat constructor|].
    apply Forall_cons in Hf as [Hc Hf]. inversion_clear Hs as [|?? Hs' Hh].
    constructor; [by apply IH|]. inversion_clear Hh. constructor. apply Forall_cons in Hf as [Hx _].
    by apply ceiling_le_instant. }
  apply Sorted.Sorted_StronglySorted in Hi; [|by apply instant_le_trans].
  by apply StronglySorted_cons in Hi as [? _].
Qed.

Lemma filter_readable l : List.filter (λ c, is_some (date_parse (notAfter c))) l = l ↔ Forall readable l.
Proof.
  induction l as [|c l IH]; cbn; [split; [constructor|done]|].
  rewrite Forall_cons. unfold readable at 1. destruct (date_parse (notAfter c)) as [n|] eqn:E; cbn.
  - rewrite <-IH. split; [intros [= ?]; eauto|intros [_ ->]; done].
  - split; [|intros [[? ?] _]; done]. intros Hf.
    pose proof (filter_length_le (λ c, is_some (date_parse (notAfter c))) l) as Hl. rewrite Hf in Hl. cbn in Hl. lia.
Qed.

Lemma effective_ceiling_spec l :
  Forall readable l →
  match effectiveGrantValidityCeiling l with
  | None => l = []
  | Some c => c ∈ l ∧ Forall (instant_le c) l
  end.
Proof.
  intros Hr. unfold effectiveGrantValidityCeiling. rewrite (proj2 (filter_readable l) Hr), Nat.eqb_refl. cbn [negb].
  unfold orderedCeilings. pose proof (merge_sort_Permutation ceiling_le l) as Hp.
  pose proof (Sorted_merge_sort ceiling_le l) as Hs. rewrite <-Hp in Hr.
  destruct (merge_sort ceiling_le l) as [|c k]; cbn; [by apply Permutation_nil_l in Hp|].
  split; [rewrite <-Hp; left|]. rewrite <-Hp. constructor; [|by apply sorted_readable_min].
  apply Forall_cons in Hr as [[n Hn] _]. exists n, n. by repeat split.
Qed.

Lemma existsb_unreadable l :
  existsb (λ c, negb (is_some (date_parse (notAfter c)))) l = false ↔ Forall readable l.
Proof.
  induction l as [|c l IH]; cbn; [split; [constructor|done]|].
  rewrite orb_false_iff, negb_false_iff, is_some_true, IH, Forall_cons. done.
Qed.

Lemma window_permits a r na nr :
  date_parse a = Some na → date_parse r = Some nr →
  boundComparisonPermits (compareGrantBound (Window a) (Window r)) = true ↔ nr ≤ na.
Proof.
  intros Ha Hr. unfold compareGrantBound. cbn. rewrite Ha, Hr. cbn.
  destruct (Z.ltb_spec na nr); [split; [done|lia]|]. destruct (Z.eqb_spec nr na); split; done || lia.
Qed.

Lemma resolveGrantValidity_iff issuedAt requested ceilings expiresAt :
  (∃ c, resolveGrantValidity issuedAt requested ceilings = ValidityAccepted expiresAt c) ↔
  requested = Some expiresAt ∧ nonempty expiresAt = true ∧
  ∃ i r, date_parse issuedAt = Some i ∧ date_parse expiresAt = Some r ∧ i < r ∧
    Forall (λ c, ∃ n, date_parse (notAfter c) = Some n ∧ r ≤ n) ceilings.
Proof.
  unfold resolveGrantValidity. destruct requested as [[|x t]|]; [naive_solver| |naive_solver].
  destruct (date_parse issuedAt) as [i|] eqn:Hi; [|naive_solver].
  destruct (date_parse (String x t)) as [r|] eqn:Hq; [|naive_solver].
  destruct (Z.leb_spec r i) as [L|L]; [naive_solver lia|].
  destruct (existsb _ ceilings) eqn:Hex.
  { split; [naive_solver|]. intros (_&_&?&?&_&_&_&Hf).
    assert (Forall readable ceilings) as Hrd by (eapply Forall_impl; [exact Hf|]; intros c (n&?&_); by exists n).
    apply existsb_unreadable in Hrd. congruence. }
  apply existsb_unreadable in Hex. pose proof (effective_ceiling_spec ceilings Hex) as Heff.
  destruct (effectiveGrantValidityCeiling ceilings) as [c|].
  - destruct Heff as [Hin Hmin]. rewrite Forall_forall in Hex. destruct (Hex c Hin) as [n Hn].
    pose proof (window_permits _ _ _ _ Hn Hq) as Hw.
    destruct (boundComparisonPermits _); cbn [negb].
    + split; [|naive_solver]. intros [? [= <- _]]. do 2 (split; [done|]). exists i, r. do 3 (split; [done|]).
      eapply Forall_impl; [exact Hmin|]. intros c' (a&b&Ha&Hb&?). exists b. simplify_eq. split; [done|].
      pose proof (proj1 Hw eq_refl). lia.
    + split; [naive_solver|]. intros ([= <-]&_&i'&r'&_&Hr'&_&Hf). exfalso.
      rewrite Forall_forall in Hf. destruct (Hf c Hin) as (n'&Hn'&?). simplify_eq.
      assert (false = true); [|done]. by apply Hw.
  - subst ceilings. naive_solver.
Qed.

(** A grant's expiry is accepted exactly as proposed or not at all: the
    resolution accepts if and only if the proposal is a readable instant
    strictly after issuance and at or before every upstream ceiling, all of
    which must be readable; nothing is clamped or defaulted. *)
Theorem resolveGrantValidity_accepts (issuedAt : string) (requested : option string)
    (ceilings : list GrantValidityCeiling) (expiresAt : string) :
  (∃ c, resolveGrantValidity issuedAt requested ceilings = ValidityAccepted expiresAt c) ↔
  requested = Some expiresAt ∧ nonempty expiresAt = true ∧
  ∃ i r, date_parse issuedAt = Some i ∧ date_parse expiresAt = Some r ∧ i < r ∧
    Forall (λ c, ∃ n, date_parse (notAfter c) = Some n ∧ r ≤ n) ceilings.
Proof. apply resolveGrantValidity_iff. Qed.

End ValidityProofs.

Lemma resolveGrantValidity_accepts_example :
  @resolveGrantValidity demo_host "100" (Some "250")
    [{| ceiling_source := c_authority; notAfter := "300" |}; {| ceiling_source := c_deployment; notAfter := "250" |}]
    = ValidityAccepted "250" (Some {| ceiling_source := c_deployment; notAfter := "250" |}) ∧
  @resolveGrantValidity demo_host "100" (Some "251") [{| ceiling_source := c_deployment; notAfter := "250" |}]
    = ValidityRefused (Some {| ceiling_source := c_deployment; notAfter := "250" |}) [GRANT_SCOPE_BROADENING].
Proof. split; vm_compute; reflexivity. Qed.

(** ** Eligibility and amount ceilings *)

Section SourceProofs.
Context `{JsHost}.

Lemma assessGrantEligibility_eligible source codes :
  assessGrantEligibility source = (eligible, codes) ↔
  codes = [] ∧ authorizationPermitsExercise source = true ∧
  allBlockingObligationsSatisfied source = true ∧ isDerivableGrantSource source = true.
Proof.
  unfold assessGrantEligibility.
  destruct (authorizationPermitsExercise source), (allBlockingObligationsSatisfied source),
    (isDerivableGrantSource source); cbn; naive_solver.
Qed.

Lemma derivable_scope_wf source : isDerivableGrantSource source = true → isWellFormedGrantScope (scope source) = true.
Proof. unfold isDerivableGrantSource. intros. by split_and_bool. Qed.

(** Ceilings in one asset are totally ordered. *)
Lemma ceilings_broader_reverse a b :
  bound_kind a = k_ceiling → compareGrantBound a b = broader →
  boundComparisonPermits (compareGrantBound b a) = true.
Proof.
  intros Hk Hc. pose proof (compareGrantBound_sound a b) as Hs. rewrite Hc in Hs. cbn in Hs.
  unfold compareGrantBound in Hc. destruct (isWellFormedGrantBound a) eqn:Ha; [|done].
  destruct (isWellFormedGrantBound b) eqn:Hb; [|done]. cbn [negb orb] in Hc.
  destruct a as [| |la ua|]; try done. destruct b as [| |lb ub|]; try done.
  apply permits_complete; try done. intros [| q asset|]; cbn; try done.
  destruct (decide (ub = ua)) as [->|Hne].
  - destruct Hs as ([|q' asset'|]&H1&H2); try done. cbn in H1, H2. destruct H1 as [-> H1].
    assert (~ (q' <= dec_value la)%Q) as Hn by naive_solver. apply Qnot_le_lt in Hn.
    intros [-> ?]. split; [done|]. apply Qle_trans with (dec_value la); [done|].
    apply Qlt_le_weak. by apply Qlt_le_trans with q'.
  - cbn in Ha, Hb. unfold compareMonetaryAmounts in Hc. rewrite Ha, Hb in Hc. cbn [negb orb unit_] in Hc.
    destruct (str_eqb ub ua) eqn:E; split_and_bool; done.
Qed.

(** An authority-sourced amount ceiling only narrows. When the composition
    adds one, the amount bound of the result is within the added ceiling and
    within the ceiling the source already stated, it is one of the two, and no
    other axis changes meaning; a ceiling in another asset, a malformed one, or
    one of the wrong shape yields no source at all. *)
Theorem withGrantAmountCeiling_narrows (source source' : GrantSourceAuthorization) (ceiling : GrantBound) :
  withGrantAmountCeiling source ceiling = Some source' →
  ∃ a, s_amount (scope source') = Some a ∧
    boundComparisonPermits (compareGrantBound ceiling a) = true ∧
    (∀ e, s_amount (scope source) = Some e → boundComparisonPermits (compareGrantBound e a) = true) ∧
    (a = ceiling ∨ Some a = s_amount (scope source)) ∧
    (∀ k p, k ≠ Amount → axis_admits (scope source') k p ↔ axis_admits (scope source) k p) ∧
    subject source' = subject source ∧ correlation source' = correlation source.
Proof.
  unfold withGrantAmountCeiling. case_bool_decide as Hk; cbn [negb orb]; [|done].
  destruct (isWellFormedGrantBound ceiling) eqn:Hwf; cbn [negb]; [|done].
  assert (∀ b, bound_kind b = k_ceiling →
    s_amount (canonicalGrantScope (with_amount (scope source) b)) = Some b ∧
    ∀ k p, k ≠ Amount → axis_admits (canonicalGrantScope (with_amount (scope source) b)) k p ↔ axis_admits (scope source) k p)
    as Hw.
  { intros b Hb. split; [by destruct b|]. intros k p Hne. unfold axis_admits, with_amount.
    rewrite canonicalGrantScope_bound, scope_of_bound, decide_False by done.
    destruct (grantScopeBound (scope source) k); [apply admits_canonical|done]. }
  pose proof (compareGrantBound_refl _ Hwf) as Hrefl.
  destruct (s_amount (scope source)) as [e|] eqn:He.
  - case_bool_decide as Hke; cbn [negb]; [|done].
    destruct (compareGrantBound e ceiling) eqn:Hc; intros [= <-]; cbn [scope with_scope].
    + exists ceiling. destruct (Hw ceiling Hk). rewrite Hrefl. do 2 (split; [done|]).
      split; [intros ? [= <-]; by rewrite Hc|]. by split; [left|].
    + exists ceiling. destruct (Hw ceiling Hk). rewrite Hrefl. do 2 (split; [done|]).
      split; [intros ? [= <-]; by rewrite Hc|]. by split; [left|].
    + exists e. destruct (Hw e Hke). split; [done|]. split; [|split; [|by split; [right|]]].
      * by apply ceilings_broader_reverse.
      * intros ? [= <-]. rewrite compareGrantBound_refl; [done|]. unfold compareGrantBound in Hc.
        by destruct (isWellFormedGrantBound e).
  - intros [= <-]. exists ceiling. destruct (Hw ceiling Hk). rewrite Hrefl. cbn [scope with_scope].
    do 3 (split; [done|]). by split; [left|].
Qed.

End SourceProofs.

Definition sample_source : GrantSourceAuthorization := {|
  correlation := {| requestId := "req-1"; decisionId := "dec-1"; cor_action := "payment"; resourceScope := "acct-1" |};
  subject := "agent-7"; scope := sample_scope;
  authorizationPermitsExercise := true; allBlockingObligationsSatisfied := true; evaluatedAt := "100";
  validityCeilings := [{| ceiling_source := c_authority; notAfter := "900" |}];
  contextDigest := None; approvalDigest := None |}.

Definition sample_capped : GrantSourceAuthorization :=
  default sample_source (@withGrantAmountCeiling demo_host sample_source (Ceiling "250" "USD")).

Lemma withGrantAmountCeiling_narrows_witness :
  @withGrantAmountCeiling demo_host sample_source (Ceiling "250" "USD") = Some sample_capped ∧
  ∃ a, s_amount (scope sample_capped) = Some a ∧
    boundComparisonPermits (@compareGrantBound demo_host (Ceiling "250" "USD") a) = true.
Proof.
  assert (@withGrantAmountCeiling demo_host sample_source (Ceiling "250" "USD") = Some sample_capped) as E
    by (vm_compute; reflexivity).
  split; [exact E|].
  destruct (@withGrantAmountCeiling_narrows demo_host sample_source sample_capped _ E) as (a&Ha&Hp&_).
  exists a. split; [exact Ha|exact Hp].
Defined.

(** ** What the containment predicate does not check

    Unlike its parameter half, the axis half of [grantScopeIsWithin] does not
    require the child to state the axes the parent states. *)

(** [grantScopeIsWithin] accepts a child scope that drops an axis its parent
    states, although the child then admits values on that axis that the parent
    does not: the predicate alone is not containment of authority on every axis
    the parent states. *)
Theorem grantScopeIsWithin_dropped_axis `{JsHost} :
  ∃ parent child k p,
    grantScopeIsWithin parent child = true ∧ axis_admits child k p ∧ ¬ axis_admits parent k p.
Proof.
  exists (scope_of (λ k, match k with Amount => Some (Ceiling "100" "USD") | _ => None end) None),
    (scope_of (λ _, None) None), Amount, (PAmount (1000 # 1) "USD").
  split; [reflexivity|]. split; [done|]. intros [_ Hle]. by apply Hle.
Qed.
