(* ===== verification/GrantStore.v ===== *)
(** * Bounded grants, their store and their issuance

    Model of [grant-runtime/domain/bounded-grant.ts], [grant-exercise.ts],
    [grant-revocation.ts], [grant-store-port.ts] and of
    [services/in-memory-bounded-grant-store.ts] and
    [grant-issuance-service.ts]. The port is the class [GrantStorePort] with
    its laws; the issuance service is proved against the laws and the in-memory
    store is an instance of them. *)

From S2P Require Import Prelude Decimal Js Monetary Parameters GrantBounds GrantAttenuation.

Local Open Scope Z_scope.
Local Open Scope frontera_scope.

(** ** Grants *)

Record BoundedGrant := {
  id : string;
  g_correlation : GrantCorrelation;
  g_subject : string;
  g_scope : GrantScope;
  issuedAt : string;
  expiresAt : string;
  sourceDigest : string;
  authorityBindingDigest : option string;
  semanticsFormat : option string;
  digest : string;
}.

Definition isWellFormedBoundedGrantSemantics (s : GrantScope) (format : option string) : bool :=
  isConsistentGrantSemantics s format.

(** [`"key":${JSON.stringify(value)}`], present or not. *)
Definition json_field (key : string) (v : string) : string := json_string key +:+ ":" +:+ json_string v.
Definition optional_field (key : string) (v : option string) : list string :=
  match v with Some v => [json_field key v] | None => [] end.

(** The canonical string under the identity hash. *)
Definition grant_identity_text (c : GrantCorrelation) (sub : string) (sc : GrantScope) (exp : string)
    (binding format : option string) : string :=
  "{" +:+ match binding with Some d => json_field "authorityBindingDigest" d +:+ "," | None => "" end +:+
  serializeGrantCorrelation c +:+ "," +:+ json_field "expiresAt" exp +:+ "," +:+
  json_string "scope" +:+ ":" +:+ serializeGrantScope sc +:+ "," +:+
  match format with Some f => json_field "semanticsFormat" f +:+ "," | None => "" end +:+
  json_field "subject" sub +:+ "}".

Definition serializeBoundedGrant (g : BoundedGrant) : string :=
  "{" +:+ join "," (
    optional_field "authorityBindingDigest" (authorityBindingDigest g) ++
    [json_string "correlation" +:+ ":{" +:+ serializeGrantCorrelation (g_correlation g) +:+ "}";
     json_field "digest" (digest g);
     json_field "expiresAt" (expiresAt g);
     json_field "id" (id g);
     json_field "issuedAt" (issuedAt g);
     json_string "scope" +:+ ":" +:+ serializeGrantScope (g_scope g)] ++
    optional_field "semanticsFormat" (semanticsFormat g) ++
    [json_field "sourceDigest" (sourceDigest g);
     json_field "subject" (g_subject g)]) +:+ "}".

(** [{ ...grant, digest }] *)
Definition with_digest (g : BoundedGrant) (d : string) : BoundedGrant := {|
  id := id g; g_correlation := g_correlation g; g_subject := g_subject g; g_scope := g_scope g;
  issuedAt := issuedAt g; expiresAt := expiresAt g; sourceDigest := sourceDigest g;
  authorityBindingDigest := authorityBindingDigest g; semanticsFormat := semanticsFormat g; digest := d |}.

Record GrantRevocation := {
  rv_grantId : string;
  rv_revokedAt : string;
  rv_reason : string;
  rv_issuerRef : string;
}.

Definition GRANT_REVOCATION_REASONS : list string :=
  ["administrator-revoked"; "expired"; "manual-revocation"; "policy-changed"; "principal-disabled";
   "resource-removed"; "security-incident"].
Definition isGrantRevocationReason (value : string) : bool := bool_decide (value ∈ GRANT_REVOCATION_REASONS).

Inductive GrantExerciseEligibility := exercisable | unusable.

Section Digests.
Context `{JsHost}.

Definition boundedGrantId (c : GrantCorrelation) (sub : string) (sc : GrantScope) (exp : string)
    (binding format : option string) : string :=
  "aoc.grant:" +:+ String.substring 0 32 (sha256_hex (grant_identity_text c sub sc exp binding format)).

Definition grantSourceDigest (source : GrantSourceAuthorization) : string :=
  "sha256:" +:+ sha256_hex ("{" +:+ serializeGrantSourceAuthorization source +:+ "}").

Definition boundedGrantDigest (g : BoundedGrant) : string :=
  "sha256:" +:+ sha256_hex (serializeBoundedGrant (with_digest g "")).

Definition boundedGrantDigestMatches (g : BoundedGrant) : bool := str_eqb (digest g) (boundedGrantDigest g).

Definition assessGrantExercise (g : BoundedGrant) (revocation : option GrantRevocation) (at_ : string) :
    GrantExerciseEligibility * list GrantReasonCode :=
  let reasonCodes :=
    (if negb (boundedGrantDigestMatches g) then [GRANT_CORRELATION_INVALID] else []) ++
    (if negb (isWellFormedBoundedGrantSemantics (g_scope g) (semanticsFormat g)) then [GRANT_SEMANTICS_FORMAT_INVALID] else []) ++
    (if is_some revocation then [GRANT_REVOKED] else []) ++
    (match date_parse (expiresAt g), date_parse at_ with
     | Some expiry, Some now => if expiry <=? now then [GRANT_EXPIRED] else []
     | _, _ => [GRANT_EXPIRED]
     end) in
  match reasonCodes with [] => (exercisable, []) | _ => (unusable, reasonCodes) end.

End Digests.

(** ** The store port *)

Record GrantCommitPrecondition := { permitted : bool; pre_reasonCodes : list GrantReasonCode }.

Inductive IssueBoundedGrantOutcome :=
  | Issued (g : BoundedGrant)
  | AlreadyIssued (g : BoundedGrant)
  | IssueRefused (reasonCodes : list GrantReasonCode).

Inductive RevokeBoundedGrantOutcome :=
  | Revoked (r : GrantRevocation)
  | AlreadyRevoked (r : GrantRevocation)
  | RevokeRefused (reasonCodes : list GrantReasonCode).

(** [commitGuard] is synchronous and reads nothing of the store, so its answer
    at the commit is an argument of [issue]. *)
Class GrantStorePort (S : Type) := {
  store_issue : S → BoundedGrant → GrantCommitPrecondition → IssueBoundedGrantOutcome * S;
  store_read : S → string → option BoundedGrant * option GrantRevocation;
  store_revoke : S → GrantRevocation → RevokeBoundedGrantOutcome * S;
}.

(** What the port promises its clients: a committed grant is readable under its
    identity and was permitted at the commit; an existing identity is returned
    unchanged; a refusal changes nothing; no operation ever alters or removes a
    grant or a recorded revocation. *)
Class GrantStoreLaws (S : Type) `{GrantStorePort S} := {
  issue_law s g pre :
    match store_issue s g pre with
    | (Issued g', s') => g' = g ∧ permitted pre = true ∧ (store_read s (id g)).1 = None ∧
        isWellFormedBoundedGrantSemantics (g_scope g) (semanticsFormat g) = true ∧
        store_read s' (id g) = (Some g, (store_read s (id g)).2) ∧
        (store_read s (id g)).2 = None ∧
        ∀ i, i ≠ id g → store_read s' i = store_read s i
    | (AlreadyIssued g', s') => (store_read s (id g)).1 = Some g' ∧ s' = s
    | (IssueRefused codes, s') => s' = s ∧ codes ≠ []
    end;
  revoke_law s r :
    match store_revoke s r with
    | (Revoked r', s') => r' = r ∧ is_Some (store_read s (rv_grantId r)).1 ∧ (store_read s (rv_grantId r)).2 = None ∧
        store_read s' (rv_grantId r) = ((store_read s (rv_grantId r)).1, Some r) ∧
        ∀ i, i ≠ rv_grantId r → store_read s' i = store_read s i
    | (AlreadyRevoked r', s') => (store_read s (rv_grantId r)).2 = Some r' ∧ s' = s
    | (RevokeRefused codes, s') => s' = s ∧ codes ≠ []
    end;
}.

(** ** The in-memory store *)

Record GrantStore := {
  grants : gmap string BoundedGrant;
  revocations : gmap string GrantRevocation;
}.

Definition issue (s : GrantStore) (g : BoundedGrant) (pre : GrantCommitPrecondition) : IssueBoundedGrantOutcome * GrantStore :=
  if negb (isWellFormedBoundedGrantSemantics (g_scope g) (semanticsFormat g)) then (IssueRefused [GRANT_SEMANTICS_FORMAT_INVALID], s)
  else match grants s !! id g with
       | Some existing => (AlreadyIssued existing, s)
       | None =>
           if is_some (revocations s !! id g) then (IssueRefused [GRANT_REVOKED], s)
           else if negb (permitted pre) then
             (IssueRefused (match pre_reasonCodes pre with [] => [GRANT_ELIGIBILITY_CHANGED] | codes => codes end), s)
           else (Issued g, {| grants := <[id g := g]> (grants s); revocations := revocations s |})
       end.

Definition read (s : GrantStore) (grantId : string) : option BoundedGrant * option GrantRevocation :=
  (grants s !! grantId, revocations s !! grantId).

(** The stored revocation is rebuilt from the input's own fields. *)
Definition revoke (s : GrantStore) (r : GrantRevocation) : RevokeBoundedGrantOutcome * GrantStore :=
  if negb (isGrantRevocationReason (rv_reason r)) then (RevokeRefused [GRANT_REVOKED], s)
  else if negb (is_some (grants s !! rv_grantId r)) then (RevokeRefused [GRANT_NOT_FOUND], s)
  else match revocations s !! rv_grantId r with
       | Some existing => (AlreadyRevoked existing, s)
       | None => (Revoked r, {| grants := grants s; revocations := <[rv_grantId r := r]> (revocations s) |})
       end.

Definition empty_store : GrantStore := {| grants := ∅; revocations := ∅ |}.

Global Instance memory_port : GrantStorePort GrantStore := {|
  store_issue := issue; store_read := read; store_revoke := revoke |}.

Global Instance memory_laws : GrantStoreLaws GrantStore.
Proof.
  split.
  - intros s g pre. cbn. unfold issue.
    destruct (isWellFormedBoundedGrantSemantics _ _) eqn:Hs; cbn [negb]; [|done].
    destruct (grants s !! id g) as [e|] eqn:Hg; [done|].
    destruct (revocations s !! id g) as [r|] eqn:Hr; cbn; [done|].
    destruct (permitted pre) eqn:Hp; cbn; [|by destruct (pre_reasonCodes pre)].
    repeat split; try done.
    + unfold read. cbn. by rewrite lookup_insert_eq, Hr.
    + intros i Hi. unfold read. cbn. by rewrite lookup_insert_ne.
  - intros s r. cbn. unfold revoke. destruct (isGrantRevocationReason _); cbn; [|done].
    destruct (grants s !! rv_grantId r) as [g|] eqn:Hg; cbn; [|done].
    destruct (revocations s !! rv_grantId r) as [e|] eqn:Hr; [done|].
    repeat split; try done.
    + unfold read. cbn. by rewrite lookup_insert_eq, Hg.
    + intros i Hi. unfold read. cbn. by rewrite lookup_insert_ne.
Qed.

(** ** The issuance service *)

Record GrantIssuanceRequest := {
  rq_source : GrantSourceAuthorization;
  rq_requestedBounds : option RequestedGrantBounds;
  rq_subject : string;
  rq_correlation : GrantCorrelation;
  rq_issuedAt : string;
  rq_expiresAt : string;
  rq_additionalValidityCeilings : option (list GrantValidityCeiling);
  rq_authorityBindingDigest : option string;
}.

Inductive GrantIssuanceOutcome :=
  | GrantIssued (g : BoundedGrant) (bounds : list GrantBoundAttenuation) (ceiling : option GrantValidityCeiling)
  | GrantAlreadyIssued (g : BoundedGrant) (bounds : list GrantBoundAttenuation) (ceiling : option GrantValidityCeiling)
  | GrantRefused (reasonCodes : list GrantReasonCode) (violations : list GrantAttenuationViolation)
      (ceiling : option GrantValidityCeiling).

Definition empty_scope : GrantScope := scope_of (λ _, None) None.

Section Service.
Context `{JsHost}.

Definition issuance_ceilings (request : GrantIssuanceRequest) (source : GrantSourceAuthorization) : list GrantValidityCeiling :=
  validityCeilings source ++ default [] (rq_additionalValidityCeilings request).

(** The grant an accepted request describes. *)
Definition build_grant (request : GrantIssuanceRequest) (sc : GrantScope) (exp : string) (format : option string) : BoundedGrant :=
  let g := {|
    id := boundedGrantId (rq_correlation request) (rq_subject request) sc exp (rq_authorityBindingDigest request) format;
    g_correlation := rq_correlation request; g_subject := rq_subject request; g_scope := sc;
    issuedAt := rq_issuedAt request; expiresAt := exp; sourceDigest := grantSourceDigest (rq_source request);
    authorityBindingDigest := rq_authorityBindingDigest request; semanticsFormat := format; digest := "" |} in
  with_digest g (boundedGrantDigest g).

(** [revalidate] answers [revalidateSource] at the commit; [None] when the
    option is not supplied. *)
Definition commitGuard (request : GrantIssuanceRequest) (g : BoundedGrant)
    (revalidate : option (GrantCorrelation → option GrantSourceAuthorization)) : GrantCommitPrecondition :=
  match revalidate with
  | None => {| permitted := true; pre_reasonCodes := [] |}
  | Some revalidate =>
      match revalidate (rq_correlation request) with
      | None => {| permitted := false; pre_reasonCodes := [GRANT_CORRELATION_INVALID] |}
      | Some current =>
          match assessGrantEligibility current with
          | (ineligible, codes) => {| permitted := false; pre_reasonCodes := codes |}
          | (eligible, _) =>
              if negb (str_eqb (subject current) (rq_subject request))
              then {| permitted := false; pre_reasonCodes := [GRANT_SUBJECT_INVALID] |}
              else if negb (grantScopeIsWithin (scope current) (g_scope g))
              then {| permitted := false; pre_reasonCodes := [GRANT_SCOPE_BROADENING] |}
              else match resolveGrantValidity (rq_issuedAt request) (Some (expiresAt g)) (issuance_ceilings request current) with
                   | ValidityRefused _ codes => {| permitted := false; pre_reasonCodes := codes |}
                   | ValidityAccepted _ _ => {| permitted := true; pre_reasonCodes := [] |}
                   end
          end
      end
  end.

Definition issueGrant {S} `{GrantStorePort S} (revalidate : option (GrantCorrelation → option GrantSourceAuthorization))
    (s : S) (request : GrantIssuanceRequest) : GrantIssuanceOutcome * S :=
  let source := rq_source request in
  if negb (isWellFormedGrantCorrelation (rq_correlation request)) ||
     negb (grantSourceMatchesCorrelation source (rq_correlation request))
  then (GrantRefused [GRANT_CORRELATION_INVALID] [] None, s)
  else match assessGrantEligibility source with
  | (ineligible, codes) => (GrantRefused codes [] None, s)
  | (eligible, _) =>
  if negb (str_eqb (rq_subject request) (subject source)) then (GrantRefused [GRANT_SUBJECT_INVALID] [] None, s)
  else match attenuateGrantScope (scope source) (default empty_scope (rq_requestedBounds request)) with
  | AttenuationRefused violations _ => (GrantRefused (nub (av_reasonCode <$> violations)) violations None, s)
  | Attenuated sc bounds =>
  if negb (grantScopeIsWithin (scope source) sc) then (GrantRefused [GRANT_SCOPE_BROADENING] [] None, s)
  else match resolveGrantValidity (rq_issuedAt request) (Some (rq_expiresAt request)) (issuance_ceilings request source) with
  | ValidityRefused ceiling codes =>
      (GrantRefused (match codes with [] => [GRANT_VALIDITY_INVALID] | _ => codes end) [] ceiling, s)
  | ValidityAccepted exp ceiling =>
  let format := if grantScopeCarriesSemantics sc then Some GRANT_SEMANTICS_FORMAT_V1 else None in
  if negb (isWellFormedBoundedGrantSemantics sc format) then (GrantRefused [GRANT_SEMANTICS_FORMAT_INVALID] [] None, s)
  else
    let g := build_grant request sc exp format in
    match store_issue s g (commitGuard request g revalidate) with
    | (IssueRefused codes, s') => (GrantRefused codes [] None, s')
    | (Issued g', s') => (GrantIssued g' bounds ceiling, s')
    | (AlreadyIssued g', s') => (GrantAlreadyIssued g' bounds ceiling, s')
    end
  end
  end
  end.

Definition assessExercise {S} `{GrantStorePort S} (s : S) (grantId at_ : string) : GrantExerciseEligibility * list GrantReasonCode :=
  match store_read s grantId with
  | (None, _) => (unusable, [GRANT_NOT_FOUND])
  | (Some g, revocation) => assessGrantExercise g revocation at_
  end.

(** The service forwards the store's outcome unchanged. *)
Definition revokeGrant {S} `{GrantStorePort S} (s : S) (r : GrantRevocation) : RevokeBoundedGrantOutcome * S := store_revoke s r.

End Service.

(** ** Exercise *)

Section ExerciseProofs.
Context `{JsHost}.

Lemma assessGrantExercise_exercisable g revocation at_ codes :
  assessGrantExercise g revocation at_ = (exercisable, codes) ↔
  codes = [] ∧ boundedGrantDigestMatches g = true ∧
  isWellFormedBoundedGrantSemantics (g_scope g) (semanticsFormat g) = true ∧ revocation = None ∧
  ∃ e n, date_parse (expiresAt g) = Some e ∧ date_parse at_ = Some n ∧ n < e.
Proof.
  unfold assessGrantExercise.
  destruct (boundedGrantDigestMatches g); cbn [negb app]; [|naive_solver].
  destruct (isWellFormedBoundedGrantSemantics _ _); cbn [negb app]; [|naive_solver].
  destruct revocation; cbn [is_some app]; [naive_solver|].
  destruct (date_parse (expiresAt g)) as [e|]; [|naive_solver].
  destruct (date_parse at_) as [n|]; [|naive_solver].
  destruct (Z.leb_spec e n); naive_solver lia.
Qed.

Lemma with_digest_idemp g d d' : with_digest (with_digest g d) d' = with_digest g d'.
Proof. done. Qed.

Lemma build_grant_digest request sc exp format : boundedGrantDigestMatches (build_grant request sc exp format) = true.
Proof. unfold boundedGrantDigestMatches. apply str_eqb_eq. done. Qed.

Lemma grantCorrelationMatches_eq l r : grantCorrelationMatches l r = true ↔ l = r.
Proof.
  unfold grantCorrelationMatches. rewrite !andb_true_iff, !str_eqb_eq. destruct l, r; cbn. naive_solver.
Qed.

End ExerciseProofs.

(** ** Issuance against the port's laws *)

Section IssuanceProofs.
Context `{JsHost} {S : Type} `{GrantStoreLaws S}.
Implicit Types (s : S) (request : GrantIssuanceRequest).

(** What it takes for a request to reach the store. *)
Record request_admitted (request : GrantIssuanceRequest) (g : BoundedGrant) : Prop := {
  admitted_correlation : g_correlation g = correlation (rq_source request) ∧ isWellFormedGrantCorrelation (g_correlation g) = true;
  admitted_eligible : assessGrantEligibility (rq_source request) = (eligible, []);
  admitted_subject : g_subject g = subject (rq_source request);
  admitted_within : grantScopeIsWithin (scope (rq_source request)) (g_scope g) = true;
  admitted_included : scope_included (g_scope g) (scope (rq_source request));
  admitted_validity : ∃ c, resolveGrantValidity (issuedAt g) (Some (expiresAt g)) (issuance_ceilings request (rq_source request)) = ValidityAccepted (expiresAt g) c;
  admitted_digest : boundedGrantDigestMatches g = true;
  admitted_semantics : isWellFormedBoundedGrantSemantics (g_scope g) (semanticsFormat g) = true;
  admitted_identity : id g = boundedGrantId (g_correlation g) (g_subject g) (g_scope g) (expiresAt g) (authorityBindingDigest g) (semanticsFormat g);
}.

(** Every run either refuses before the store, leaving it alone, or submits one
    admitted grant under the commit guard and reports the store's answer. *)
Lemma issueGrant_cases revalidate s request :
  (∃ codes violations c, issueGrant revalidate s request = (GrantRefused codes violations c, s)) ∨
  (∃ g bounds c, request_admitted request g ∧ g_subject g = rq_subject request ∧
    issueGrant revalidate s request =
      match store_issue s g (commitGuard request g revalidate) with
      | (IssueRefused codes, s') => (GrantRefused codes [] None, s')
      | (Issued g', s') => (GrantIssued g' bounds c, s')
      | (AlreadyIssued g', s') => (GrantAlreadyIssued g' bounds c, s')
      end).
Proof.
  unfold issueGrant.
  destruct (isWellFormedGrantCorrelation _) eqn:Hc; cbn [negb orb]; [|by left; do 3 eexists].
  destruct (grantSourceMatchesCorrelation _ _) eqn:Hm; cbn [negb]; [|by left; do 3 eexists].
  destruct (assessGrantEligibility _) as [[] codes] eqn:He; [|by left; do 3 eexists].
  destruct (str_eqb _ _) eqn:Hs; cbn [negb]; [|by left; do 3 eexists].
  destruct (attenuateGrantScope _ _) as [sc bounds|] eqn:Ha; [|by left; do 3 eexists].
  destruct (grantScopeIsWithin _ sc) eqn:Hw; cbn [negb]; [|by left; do 3 eexists].
  destruct (resolveGrantValidity _ _ _) as [exp c|] eqn:Hv; [|by left; do 3 eexists].
  destruct (isWellFormedBoundedGrantSemantics sc _) eqn:Hf; cbn [negb]; [|by left; do 3 eexists].
  right. exists (build_grant request sc exp (if grantScopeCarriesSemantics sc then Some GRANT_SEMANTICS_FORMAT_V1 else None)),
    bounds, c. split; [|split; [reflexivity|reflexivity]].
  split_and_bool. apply grantCorrelationMatches_eq in Hm.
  pose proof (assessGrantEligibility_eligible (rq_source request) codes) as Hel.
  assert (codes = []) as -> by (by apply Hel in He as [-> _]).
  assert (exp = rq_expiresAt request) as ->.
  { assert (∃ c, resolveGrantValidity (rq_issuedAt request) (Some (rq_expiresAt request))
      (issuance_ceilings request (rq_source request)) = ValidityAccepted exp c) as Hx by eauto.
    by apply resolveGrantValidity_iff in Hx as ([= ->]&_). }
  constructor; try done.
  - by apply (attenuated_included _ (default empty_scope (rq_requestedBounds request)) sc bounds).
  - by exists c.
  - apply build_grant_digest.
Qed.

(** What the commit guard of a deployment that re-reads its authority settles. *)
Lemma commitGuard_permitted request g f :
  permitted (commitGuard request g (Some f)) = true →
  ∃ current, f (rq_correlation request) = Some current ∧ assessGrantEligibility current = (eligible, []) ∧
    subject current = rq_subject request ∧ grantScopeIsWithin (scope current) (g_scope g) = true ∧
    ∃ c, resolveGrantValidity (rq_issuedAt request) (Some (expiresAt g)) (issuance_ceilings request current) = ValidityAccepted (expiresAt g) c.
Proof.
  unfold commitGuard. destruct (f _) as [current|]; [|done].
  destruct (assessGrantEligibility current) as [[] codes] eqn:He; [|done].
  destruct (str_eqb _ _) eqn:Hs; cbn [negb]; [|done].
  destruct (grantScopeIsWithin _ _) eqn:Hw; cbn [negb]; [|done].
  destruct (resolveGrantValidity _ _ _) as [exp c|] eqn:Hv; [|done]. intros _. split_and_bool.
  pose proof (proj1 (assessGrantEligibility_eligible current codes) He) as [-> _].
  exists current. do 4 (split; [done|]). exists c.
  assert (∃ c, resolveGrantValidity (rq_issuedAt request) (Some (expiresAt g))
      (issuance_ceilings request current) = ValidityAccepted exp c) as Hx by eauto.
  apply resolveGrantValidity_iff in Hx as ([= Hx]&_). congruence.
Qed.

(** C29. Issuance is sound over any lawful store. A grant that is issued derives
    from an authorization that permitted exercise with its obligations
    satisfied, names that authorization's subject and correlation, is included
    in its scope, expires after issuance and by every ceiling, carries a
    matching digest and its own identity; the authority re-read at the commit
    also permitted, contained and outlived it; and it is the readable,
    unrevoked, immediately exercisable record under its identity, everything
    else in the store being untouched. *)
Theorem issueGrant_sound (revalidate : option (GrantCorrelation → option GrantSourceAuthorization))
    (s s' : S) (request : GrantIssuanceRequest) (g : BoundedGrant) (bounds : list GrantBoundAttenuation)
    (c : option GrantValidityCeiling) :
  issueGrant revalidate s request = (GrantIssued g bounds c, s') →
  request_admitted request g ∧
  match revalidate with
  | None => True
  | Some f => ∃ current, f (rq_correlation request) = Some current ∧ assessGrantEligibility current = (eligible, []) ∧
      subject current = g_subject g ∧ grantScopeIsWithin (scope current) (g_scope g) = true ∧
      ∃ c', resolveGrantValidity (rq_issuedAt request) (Some (expiresAt g)) (issuance_ceilings request current) = ValidityAccepted (expiresAt g) c'
  end ∧
  store_read s' (id g) = (Some g, None) ∧ (∀ i, i ≠ id g → store_read s' i = store_read s i) ∧
  assessExercise s' (id g) (issuedAt g) = (exercisable, []).
Proof.
  intros E. destruct (issueGrant_cases revalidate s request) as [(?&?&?&Hr)|(g0&b0&c0&Hadm&Hsubj&Hr)]; [congruence|].
  rewrite Hr in E. pose proof (issue_law s g0 (commitGuard request g0 revalidate)) as Hl.
  destruct (store_issue s g0 _) as [[]]; try done. simplify_eq. destruct Hl as (->&Hp&_&_&Hread&Hnone&Hoth).
  split; [done|]. split.
  { destruct revalidate as [f|]; [|done]. apply commitGuard_permitted in Hp as (cur&?&?&Hsub&?&?).
    exists cur. by rewrite Hsub, Hsubj. }
  rewrite Hnone in Hread. split; [done|]. split; [done|].
  unfold assessExercise. rewrite Hread. apply assessGrantExercise_exercisable.
  destruct Hadm. split; [done|]. do 3 (split; [done|]).
  apply resolveGrantValidity_iff in admitted_validity0 as (_&_&i&r&?&?&?&_). eauto.
Qed.

(** An issuance that does not issue changes nothing: a refusal, whatever its
    cause, and a repeated issuance of a standing identity leave the store as it
    was, and the latter returns the standing grant. *)
Theorem issueGrant_otherwise_unchanged (revalidate : option (GrantCorrelation → option GrantSourceAuthorization))
    (s : S) (request : GrantIssuanceRequest) :
  match issueGrant revalidate s request with
  | (GrantIssued _ _ _, _) => True
  | (GrantAlreadyIssued g _ _, s') => s' = s ∧ ∃ i, (store_read s i).1 = Some g
  | (GrantRefused _ _ _, s') => s' = s
  end.
Proof.
  destruct (issueGrant_cases revalidate s request) as [(?&?&?&->)|(g&b&c&_&_&->)]; [done|].
  pose proof (issue_law s g (commitGuard request g revalidate)) as Hl.
  destruct (store_issue s g _) as [[]]; [done| |by destruct Hl]. destruct Hl as [? ->]. eauto.
Qed.

(** ** Histories of a store *)

Inductive store_step : S → S → Prop :=
  | step_issue s g pre : store_step s (store_issue s g pre).2
  | step_revoke s r : store_step s (store_revoke s r).2.

Definition store_history : S → S → Prop := rtc store_step.

(** The service is a client of the store: it moves it along a history. *)
Lemma issueGrant_history revalidate s request : store_history s (issueGrant revalidate s request).2.
Proof.
  destruct (issueGrant_cases revalidate s request) as [(?&?&?&->)|(g&b&c&_&_&->)]; [apply rtc_refl|].
  apply rtc_once. pose proof (step_issue s g (commitGuard request g revalidate)) as Hs.
  by destruct (store_issue s g _) as [[] ?].
Qed.

Lemma store_step_keeps s s' i :
  store_step s s' →
  (∀ g, (store_read s i).1 = Some g → (store_read s' i).1 = Some g) ∧
  (∀ r, (store_read s i).2 = Some r → (store_read s' i).2 = Some r).
Proof.
  destruct 1 as [s g pre|s r].
  - pose proof (issue_law s g pre) as Hl. destruct (store_issue s g pre) as [[] s']; cbn.
    + destruct Hl as (_&_&Hn&_&Hr&Hn2&Ho). destruct (decide (i = id g)) as [->|Hi]; [|by rewrite Ho].
      rewrite Hr, Hn, Hn2. done.
    + by destruct Hl as [_ ->].
    + by destruct Hl as [-> _].
  - pose proof (revoke_law s r) as Hl. destruct (store_revoke s r) as [[] s']; cbn.
    + destruct Hl as (_&_&Hn&Hr&Ho). destruct (decide (i = rv_grantId r)) as [->|Hi]; [|by rewrite Ho].
      rewrite Hr, Hn. done.
    + by destruct Hl as [_ ->].
    + by destruct Hl as [-> _].
Qed.

Lemma store_history_keeps s s' i :
  store_history s s' →
  (∀ g, (store_read s i).1 = Some g → (store_read s' i).1 = Some g) ∧
  (∀ r, (store_read s i).2 = Some r → (store_read s' i).2 = Some r).
Proof.
  induction 1 as [|x y z Hxy _ [IHg IHr]]; [done|]. destruct (store_step_keeps _ _ i Hxy) as [Hg Hr]. split; auto.
Qed.

(** Grants are immutable and the first revocation stands: along any history
    of a lawful store a stored grant stays exactly as it was issued, a recorded
    revocation is never re-dated, replaced or lifted, and a revoked identity is
    never exercisable again, at any instant. *)
Theorem grants_immutable_revocation_final (s s' : S) (i : string) :
  store_history s s' →
  (∀ g, (store_read s i).1 = Some g → (store_read s' i).1 = Some g) ∧
  (∀ r, (store_read s i).2 = Some r →
    (store_read s' i).2 = Some r ∧ ∀ at_, (assessExercise s' i at_).1 = unusable).
Proof.
  intros Hh. destruct (store_history_keeps _ _ i Hh) as [Hg Hr]. split; [done|].
  intros r Hrv. specialize (Hr r Hrv). split; [done|]. intros at_. unfold assessExercise.
  destruct (store_read s' i) as [[g|] rv]; [|done]. cbn in Hr. subst rv.
  destruct (assessGrantExercise g (Some r) at_) as [[] codes] eqn:E; [|done].
  by apply assessGrantExercise_exercisable in E as (_&_&_&?&_).
Qed.

End IssuanceProofs.

(** ** Reachable in-memory stores *)

Definition store_ok (s : GrantStore) : Prop :=
  (∀ i g, grants s !! i = Some g → id g = i ∧ isWellFormedBoundedGrantSemantics (g_scope g) (semanticsFormat g) = true) ∧
  (∀ i r, revocations s !! i = Some r →
    rv_grantId r = i ∧ isGrantRevocationReason (rv_reason r) = true ∧ is_Some (grants s !! i)).

Lemma issue_ok s g pre : store_ok s → store_ok (issue s g pre).2.
Proof.
  intros [Hg Hr]. unfold issue. destruct (isWellFormedBoundedGrantSemantics _ _) eqn:Hs; [|done]. cbn [negb].
  destruct (grants s !! id g); [done|]. break_if; [done|]. break_if; [done|]. split; cbn.
  - intros i g' [[<- <-]|[_ ?]]%lookup_insert_Some; [done|auto].
  - intros i r Hir. destruct (Hr i r Hir) as (?&?&?). do 2 (split; [done|]).
    destruct (decide (id g = i)) as [->|]; [by rewrite lookup_insert_eq|by rewrite lookup_insert_ne].
Qed.

Lemma revoke_ok s r : store_ok s → store_ok (revoke s r).2.
Proof.
  intros [Hg Hr]. unfold revoke. destruct (isGrantRevocationReason _) eqn:Hq; [|done]. cbn [negb].
  destruct (grants s !! rv_grantId r) eqn:Hgr; cbn; [|done].
  destruct (revocations s !! rv_grantId r); [done|]. split; cbn; [done|].
  intros i r' [[<- <-]|[_ ?]]%lookup_insert_Some; [by rewrite Hgr|auto].
Qed.

(** In every store reachable from the empty one each grant sits under its
    own identity with consistent semantics, and a revocation is recorded only
    for a stored grant, under its identity and with an admitted reason. *)
Theorem memory_store_invariant (s : GrantStore) : store_history empty_store s → store_ok s.
Proof.
  intros Hh. cut (store_ok empty_store → store_ok s).
  { intros Hi. apply Hi. split; intros i ?; cbn; by rewrite lookup_empty. }
  induction Hh as [|x y z Hxy _ IH]; [done|]. intros Hx. apply IH.
  destruct Hxy; [by apply issue_ok|by apply revoke_ok].
Qed.

(** ** Identity and integrity

    The canonical texts determine the fields, so an identity or a digest
    determines them wherever the hash does not collide on the two texts at
    hand. *)

Lemma json_field_inj k v w r1 r2 : json_field k v +:+ r1 = json_field k w +:+ r2 → v = w ∧ r1 = r2.
Proof. unfold json_field. intros E. text_peel E. by apply json_string_inj in E. Qed.

Lemma quoted_json k : forallb (λ c, Z.leb 32 (code c) && negb (Z.eqb (code c) 34) && negb (Z.eqb (code c) 92)) (chars k) = true →
  quoted k = json_string k.
Proof.
  intros Hk. apply chars_inj. unfold quoted, json_string. rewrite !chars_app, !chars_text. unfold json_chars.
  assert (chars k ≫= json_char = chars k) as ->; [|done].
  induction (chars k) as [|c l IH]; [done|]. cbn in Hk. split_and_bool.
  cbn [mbind list_bind]. rewrite IH by done. unfold json_char.
  assert (code c =? 34 = false) as -> by done. assert (code c =? 92 = false) as -> by done. cbn [orb].
  apply Z.leb_le in H. repeat (rewrite (proj2 (Z.eqb_neq _ _)) by lia).
  by rewrite (proj2 (Z.ltb_ge _ _)) by lia.
Qed.

Lemma serializeGrantCorrelation_inj a b r1 r2 :
  serializeGrantCorrelation a +:+ r1 = serializeGrantCorrelation b +:+ r2 → a = b ∧ r1 = r2.
Proof.
  unfold serializeGrantCorrelation. intros E. destruct a as [a1 a2 a3 a4], b as [b1 b2 b3 b4]. cbn [cor_action decisionId requestId resourceScope] in E.
  text_peel E. apply json_string_inj in E as [-> E]. text_peel E. apply json_string_inj in E as [-> E].
  text_peel E. apply json_string_inj in E as [-> E]. text_peel E. apply json_string_inj in E as [-> E]. done.
Qed.

Lemma correlation_head c : ∃ t, serializeGrantCorrelation c = json_string "action" +:+ t.
Proof. unfold serializeGrantCorrelation. rewrite (quoted_json "action") by done. eauto. Qed.

(** A field that may be absent, followed by a text that starts with another
    key, is unambiguous. *)
Lemma optional_head_inj k k' a b t1 t2 :
  k ≠ k' →
  match a with Some v => json_field k v +:+ "," | None => "" end +:+ json_string k' +:+ t1 =
  match b with Some v => json_field k v +:+ "," | None => "" end +:+ json_string k' +:+ t2 →
  a = b ∧ t1 = t2.
Proof.
  intros Hk E. destruct a as [v|], b as [w|]; rewrite ?string_app_assoc in E.
  - apply json_field_inj in E as [-> E]. text_peel E. done.
  - unfold json_field in E. rewrite string_app_assoc in E. apply json_string_inj in E as [? _]. done.
  - unfold json_field in E. rewrite string_app_assoc in E. apply json_string_inj in E as [? _]. done.
  - apply json_string_inj in E as [_ ->]. done.
Qed.

Lemma optional_correlation_inj k a b c d t1 t2 :
  k ≠ "action" →
  match a with Some v => json_field k v +:+ "," | None => "" end +:+ serializeGrantCorrelation c +:+ t1 =
  match b with Some v => json_field k v +:+ "," | None => "" end +:+ serializeGrantCorrelation d +:+ t2 →
  a = b ∧ c = d ∧ t1 = t2.
Proof.
  intros Hk E. destruct (correlation_head c) as [u Hu], (correlation_head d) as [w Hw].
  rewrite Hu, Hw, !(string_app_assoc (json_string "action")) in E. apply optional_head_inj in E as [-> E]; [|done].
  assert (serializeGrantCorrelation c +:+ t1 = serializeGrantCorrelation d +:+ t2) as E'.
  { rewrite Hu, Hw, !string_app_assoc. by rewrite E. }
  apply serializeGrantCorrelation_inj in E' as [-> ->]. done.
Qed.

Lemma grant_identity_text_inj c d sub sub' sc sc' exp exp' bd bd' f f' :
  parameters_serializable sc → parameters_serializable sc' →
  grant_identity_text c sub sc exp bd f = grant_identity_text d sub' sc' exp' bd' f' →
  c = d ∧ sub = sub' ∧ canonicalGrantScope sc = canonicalGrantScope sc' ∧ exp = exp' ∧ bd = bd' ∧ f = f'.
Proof.
  intros Hs Hs' E. unfold grant_identity_text in E. apply string_app_peel in E.
  apply optional_correlation_inj in E as (->&->&E); [|done].
  apply (string_app_peel ",") in E. apply json_field_inj in E as [-> E]. text_peel E.
  apply serializeGrantScope_unambiguous in E as [Esc E]; [|done..]. apply (string_app_peel ",") in E.
  unfold json_field at 2 4 in E. rewrite !(string_app_assoc (json_string "subject")) in E.
  apply optional_head_inj in E as [-> E]; [|done]. rewrite !string_app_assoc in E.
  apply (string_app_peel ":") in E. apply json_string_inj in E as [-> _]. done.
Qed.

Section Integrity.
Context `{JsHost}.

(** A grant's identity is a function of what it authorizes and determines
    it: where the truncated hash does not collide on the two canonical texts,
    two grants with one identity have the same correlation, subject, expiry,
    authority binding, semantic format and canonical scope. *)
Theorem boundedGrantId_determines (c d : GrantCorrelation) (sub sub' : string) (sc sc' : GrantScope)
    (exp exp' : string) (bd bd' f f' : option string) :
  parameters_serializable sc → parameters_serializable sc' →
  (String.substring 0 32 (sha256_hex (grant_identity_text c sub sc exp bd f)) =
   String.substring 0 32 (sha256_hex (grant_identity_text d sub' sc' exp' bd' f')) →
   grant_identity_text c sub sc exp bd f = grant_identity_text d sub' sc' exp' bd' f') →
  boundedGrantId c sub sc exp bd f = boundedGrantId d sub' sc' exp' bd' f' →
  c = d ∧ sub = sub' ∧ canonicalGrantScope sc = canonicalGrantScope sc' ∧ exp = exp' ∧ bd = bd' ∧ f = f'.
Proof.
  intros Hs Hs' Hcol E. unfold boundedGrantId in E. apply string_app_peel in E.
  by apply grant_identity_text_inj, Hcol.
Qed.

(** [serializeBoundedGrant] with the commas of [join] written out. *)
Lemma serializeBoundedGrant_flat g :
  serializeBoundedGrant g =
  "{" +:+ match authorityBindingDigest g with Some d => json_field "authorityBindingDigest" d +:+ "," | None => "" end +:+
  json_string "correlation" +:+ ":{" +:+ serializeGrantCorrelation (g_correlation g) +:+ "}," +:+
  json_field "digest" (digest g) +:+ "," +:+ json_field "expiresAt" (expiresAt g) +:+ "," +:+ json_field "id" (id g) +:+ "," +:+
  json_field "issuedAt" (issuedAt g) +:+ "," +:+ json_string "scope" +:+ ":" +:+ serializeGrantScope (g_scope g) +:+ "," +:+
  match semanticsFormat g with Some f => json_field "semanticsFormat" f +:+ "," | None => "" end +:+
  json_string "sourceDigest" +:+ ":" +:+ json_string (sourceDigest g) +:+ "," +:+ json_field "subject" (g_subject g) +:+ "}".
Proof.
  unfold serializeBoundedGrant.
  destruct (authorityBindingDigest g), (semanticsFormat g); cbn [optional_field app join];
    rewrite !string_app_assoc; unfold json_field; rewrite ?string_app_assoc; reflexivity.
Qed.

Lemma serializeBoundedGrant_inj g h :
  parameters_serializable (g_scope g) → parameters_serializable (g_scope h) →
  serializeBoundedGrant g = serializeBoundedGrant h →
  id g = id h ∧ g_correlation g = g_correlation h ∧ g_subject g = g_subject h ∧
  canonicalGrantScope (g_scope g) = canonicalGrantScope (g_scope h) ∧ issuedAt g = issuedAt h ∧
  expiresAt g = expiresAt h ∧ sourceDigest g = sourceDigest h ∧
  authorityBindingDigest g = authorityBindingDigest h ∧ semanticsFormat g = semanticsFormat h.
Proof.
  intros Hs Hs' E. rewrite !serializeBoundedGrant_flat in E. apply string_app_peel in E.
  apply optional_head_inj in E as [Eb E]; [|done]. apply (string_app_peel ":{") in E.
  apply serializeGrantCorrelation_inj in E as [Ec E]. apply (string_app_peel "},") in E.
  apply json_field_inj in E as [_ E]. apply (string_app_peel ",") in E.
  apply json_field_inj in E as [Eexp E]. apply (string_app_peel ",") in E.
  apply json_field_inj in E as [Eid E]. apply (string_app_peel ",") in E.
  apply json_field_inj in E as [Eiss E]. text_peel E.
  apply serializeGrantScope_unambiguous in E as [Esc E]; [|done..]. apply (string_app_peel ",") in E.
  apply optional_head_inj in E as [Ef E]; [|done]. apply (string_app_peel ":") in E.
  apply json_string_inj in E as [Esd E]. apply (string_app_peel ",") in E.
  apply json_field_inj in E as [Esub _]. done.
Qed.

(** The digest is tamper-evident: two grants whose recorded digests both
    match and agree are the same grant in every field (scopes up to canonical
    form), wherever SHA-256 does not collide on their two canonical texts. *)
Theorem boundedGrantDigest_tamper_evident (g h : BoundedGrant) :
  parameters_serializable (g_scope g) → parameters_serializable (g_scope h) →
  (sha256_hex (serializeBoundedGrant (with_digest g "")) = sha256_hex (serializeBoundedGrant (with_digest h "")) →
   serializeBoundedGrant (with_digest g "") = serializeBoundedGrant (with_digest h "")) →
  boundedGrantDigestMatches g = true → boundedGrantDigestMatches h = true → digest g = digest h →
  id g = id h ∧ g_correlation g = g_correlation h ∧ g_subject g = g_subject h ∧
  canonicalGrantScope (g_scope g) = canonicalGrantScope (g_scope h) ∧ issuedAt g = issuedAt h ∧
  expiresAt g = expiresAt h ∧ sourceDigest g = sourceDigest h ∧
  authorityBindingDigest g = authorityBindingDigest h ∧ semanticsFormat g = semanticsFormat h.
Proof.
  intros Hs Hs' Hcol Hg Hh E. unfold boundedGrantDigestMatches, boundedGrantDigest in *. split_and_bool.
  rewrite Hg, Hh in E. apply string_app_peel, Hcol in E. exact (serializeBoundedGrant_inj (with_digest g "") (with_digest h "") Hs Hs' E).
Qed.

End Integrity.

Definition sample_issuance : GrantIssuanceRequest := {|
  rq_source := sample_source; rq_requestedBounds := Some sample_request; rq_subject := "agent-7";
  rq_correlation := correlation sample_source; rq_issuedAt := "120"; rq_expiresAt := "500";
  rq_additionalValidityCeilings := None; rq_authorityBindingDigest := Some "sha256:ab" |}.
Definition sample_revalidate : option (GrantCorrelation → option GrantSourceAuthorization) := Some (λ _, Some sample_source).
Definition sample_outcome := @issueGrant demo_host GrantStore _ sample_revalidate empty_store sample_issuance.
Definition sample_grant : BoundedGrant :=
  match sample_outcome.1 with
  | GrantIssued g _ _ => g
  | _ => @build_grant demo_host sample_issuance empty_scope "" None
  end.
Definition sample_bounds := match sample_outcome.1 with GrantIssued _ b _ => b | _ => [] end.
Definition sample_ceiling := match sample_outcome.1 with GrantIssued _ _ c => c | _ => None end.
Definition sample_store : GrantStore := sample_outcome.2.
Definition sample_revocation : GrantRevocation := {|
  rv_grantId := id sample_grant; rv_revokedAt := "300"; rv_reason := "security-incident"; rv_issuerRef := "ops" |}.
Definition sample_revoked_store : GrantStore := (revoke sample_store sample_revocation).2.

Lemma issueGrant_sound_witness :
  store_read sample_store (id sample_grant) = (Some sample_grant, None) ∧
  @assessExercise demo_host GrantStore _ sample_store (id sample_grant) (issuedAt sample_grant) = (exercisable, []).
Proof.
  assert (sample_outcome = (GrantIssued sample_grant sample_bounds sample_ceiling, sample_store)) as E.
  { rewrite (surjective_pairing sample_outcome).
    assert (sample_outcome.1 = GrantIssued sample_grant sample_bounds sample_ceiling) as -> by (vm_compute; reflexivity).
    reflexivity. }
  destruct (@issueGrant_sound demo_host GrantStore _ _ sample_revalidate empty_store sample_store sample_issuance
    sample_grant sample_bounds sample_ceiling E) as (_&_&Hread&_&Hex).
  split; [exact Hread|exact Hex].
Defined.

Definition sample_repeat := @issueGrant demo_host GrantStore _ sample_revalidate sample_store sample_issuance.

Lemma issueGrant_otherwise_unchanged_witness :
  (∃ b c, sample_repeat.1 = GrantAlreadyIssued sample_grant b c) ∧ sample_repeat.2 = sample_store.
Proof.
  assert ((match sample_repeat.1 with GrantAlreadyIssued g _ _ => Some g | _ => None end) = Some sample_grant) as E
    by (vm_compute; reflexivity).
  pose proof (@issueGrant_otherwise_unchanged demo_host GrantStore _ _ sample_revalidate sample_store sample_issuance) as Hs.
  change (issueGrant sample_revalidate sample_store sample_issuance) with sample_repeat in Hs.
  destruct sample_repeat as [[g b c|g b c|codes v bs] s']; cbn in E; try discriminate E.
  injection E as ->. split; [by exists b, c|apply Hs].
Defined.

Lemma sample_history : store_history empty_store sample_store ∧ store_history sample_store sample_revoked_store.
Proof.
  split; [apply issueGrant_history|]. apply rtc_once. exact (step_revoke sample_store sample_revocation).
Qed.

Lemma grants_immutable_revocation_final_witness :
  (store_read sample_store (id sample_grant)).1 = Some sample_grant ∧
  (store_read sample_revoked_store (id sample_grant)).1 = Some sample_grant.
Proof.
  assert ((store_read sample_store (id sample_grant)).1 = Some sample_grant) as E by (vm_compute; reflexivity).
  split; [exact E|].
  destruct (@grants_immutable_revocation_final demo_host GrantStore _ _ sample_store sample_revoked_store (id sample_grant))
    as [Hg _]; [apply sample_history|]. exact (Hg _ E).
Defined.

Lemma memory_store_invariant_witness : store_ok sample_store.
Proof. apply memory_store_invariant. apply sample_history. Defined.

Lemma boundedGrantId_determines_witness :
  let sc := scope_of (λ k, match k with Resources => Some (SetOf ["b"; "a"]) | _ => None end) None in
  let sc' := scope_of (λ k, match k with Resources => Some (SetOf ["a"; "b"; "a"]) | _ => None end) None in
  canonicalGrantScope sc = canonicalGrantScope sc'.
Proof.
  cbv zeta.
  refine (proj1 (proj2 (proj2 (@boundedGrantId_determines demo_host (correlation sample_source) (correlation sample_source)
    "agent-7" "agent-7" _ _ "500" "500" None None None None _ _ _ _)))).
  - exact I.
  - exact I.
  - intros _. vm_compute. reflexivity.
  - vm_compute. reflexivity.
Defined.

Lemma boundedGrantDigest_tamper_evident_witness :
  @boundedGrantDigestMatches demo_host sample_grant = true ∧ id sample_grant = id sample_grant.
Proof.
  assert (parameters_serializable (g_scope sample_grant)) as Hs.
  { unfold parameters_serializable.
    assert (s_parameters (g_scope sample_grant) = Some
      [ {| pb_dimension := "environment"; pb_bound := BExact (VToken "prod") |};
        {| pb_dimension := "recordCount"; pb_bound := BMaximum (JInt 7) |} ]) as -> by (vm_compute; reflexivity).
    repeat constructor. }
  assert (@boundedGrantDigestMatches demo_host sample_grant = true) as Hd by (vm_compute; reflexivity).
  split; [exact Hd|].
  exact (proj1 (@boundedGrantDigest_tamper_evident demo_host sample_grant sample_grant Hs Hs
    (λ _, eq_refl) Hd Hd eq_refl)).
Defined.
