(* ===== verification/ExerciseControl.v ===== *)
(** * Aggregate exercise controls: limits and reservations

    Model of [exercise-control-runtime/domain]: the closed limit contract and
    the snapshot of the host policy's answer ([exercise-control-limits.ts]),
    reservations and the shared admission rule ([exercise-reservation.ts],
    [exercise-decimal.ts]), later resolutions
    ([exercise-reservation-resolution.ts]) and the authority-binding
    comparison ([exercise-authority-binding.ts]). A [TypeError] of the source
    is [Throw TypeError]. *)

From Stdlib Require Import QArith.
From S2P Require Import Prelude Decimal Js Monetary Parameters.

Local Open Scope Z_scope.
Local Open Scope frontera_scope.

Inductive ControlError := TypeError.

(** ** Reason codes *)

Inductive ExerciseControlReasonCode :=
  | EXERCISE_CONTROL_POLICY_INVALID
  | EXERCISE_CONTROL_LEDGER_UNAVAILABLE
  | EXERCISE_CONTROL_LIMIT_EXCEEDED
  | EXERCISE_CONTROL_AMOUNT_REQUIRED
  | EXERCISE_CONTROL_UNIT_MISMATCH
  | EXERCISE_CONTROL_EXECUTION_ALREADY_RESERVED
  | EXERCISE_CONTROL_RESERVATION_CONFLICT
  | EXERCISE_CONTROL_AUTHORITY_BINDING_UNVERIFIABLE
  | EXERCISE_CONTROL_AUTHORITY_BINDING_CHANGED
  | EXERCISE_CONTROL_ACTION_CLASS_MISMATCH.
Global Instance ExerciseControlReasonCode_eq_dec : EqDecision ExerciseControlReasonCode.
Proof. solve_decision. Defined.

(** ** Limits *)

Definition EXERCISE_DECIMAL_MAXIMUM_DIGITS : Z := 128.
Definition EXERCISE_DECIMAL_USAGE_DIGITS : Z := 400.
Definition EXERCISE_CONTROL_MAXIMUM_LIMITS : Z := 32.
Definition EXERCISE_CONTROL_MAXIMUM_ROLLING_SECONDS : Z := 31536000.
Definition EXERCISE_CONTROL_SCOPE_KEY_MAXIMUM_BYTES : Z := 512.
Definition EXERCISE_CONTROL_UNIT_MAXIMUM_BYTES : Z := 128.

Inductive ExerciseControlWindow := lifetime | rolling (seconds : Z).
Global Instance ExerciseControlWindow_eq_dec : EqDecision ExerciseControlWindow.
Proof. solve_decision. Defined.

Inductive LimitMetric :=
  | m_count (maximum : Z)
  | m_amount (maximum unit : string).
Global Instance LimitMetric_eq_dec : EqDecision LimitMetric.
Proof. solve_decision. Defined.

Record ExerciseControlLimit := {
  limitId : string;
  scopeKey : string;
  metric : LimitMetric;
  window : ExerciseControlWindow;
}.
Global Instance ExerciseControlLimit_eq_dec : EqDecision ExerciseControlLimit.
Proof. solve_decision. Defined.

(** The UTF-8 size of a text of 8-bit code units. *)
Definition utf8Bytes (s : string) : Z := foldr (λ c n, n + if code c <? 128 then 1 else 2) 0 (chars s).

(** 8-bit code units hold no surrogates, so the [LONE_SURROGATE] test never
    fires. *)
Definition isBoundedOpaqueText (v : JsValue) (maximumBytes : Z) : bool :=
  match v with
  | JsString s => nonempty s && is_trimmed s && negb (existsb is_control (chars s)) && (utf8Bytes s <=? maximumBytes)
  | _ => false
  end.

(** [EXERCISE_CONTROL_LIMIT_ID_PATTERN] is the grammar of asset identifiers. *)
Definition isCanonicalExerciseControlLimitId (v : JsValue) : bool :=
  match v with JsString s => asset_id_pattern s | _ => false end.
Definition isCanonicalExerciseControlScopeKey (v : JsValue) : bool :=
  isBoundedOpaqueText v EXERCISE_CONTROL_SCOPE_KEY_MAXIMUM_BYTES.
Definition isCanonicalExerciseControlUnit (v : JsValue) : bool :=
  isBoundedOpaqueText v EXERCISE_CONTROL_UNIT_MAXIMUM_BYTES.

(** [ownData(source, key).value]: [undefined] when absent, a throw on an
    accessor. *)
Definition own_data (properties : list (string * JsValue)) (key : string) : result ControlError JsValue :=
  match own_property key properties with
  | None => Ok JsUndefined
  | Some JsAccessor => Throw TypeError
  | Some v => Ok v
  end.

Definition hasExactlyKeys (properties : list (string * JsValue)) (permitted : list string) : bool :=
  (length properties =? length permitted)%nat && forallb (λ key, bool_decide (key ∈ permitted)) properties.*1.

Definition js_is (v : JsValue) (s : string) : bool := match v with JsString t => str_eqb t s | _ => false end.

Definition snapshotWindow (raw : JsValue) : result ControlError (option ExerciseControlWindow) :=
  match raw with
  | JsObject true ps =>
      let* kind := own_data ps "kind" in
      if js_is kind "lifetime" then Ok (if hasExactlyKeys ps ["kind"] then Some lifetime else None)
      else if js_is kind "rolling" then
        if negb (hasExactlyKeys ps ["kind"; "seconds"]) then Ok None
        else
          let* seconds := own_data ps "seconds" in
          match seconds with
          | JsNum n =>
              if negb (isSafeInteger n) || (integer_value n <? 1) || (EXERCISE_CONTROL_MAXIMUM_ROLLING_SECONDS <? integer_value n)
              then Ok None else Ok (Some (rolling (integer_value n)))
          | _ => Ok None
          end
      else Ok None
  | _ => Ok None
  end.

Definition snapshotLimit (raw : JsValue) : result ControlError (option ExerciseControlLimit) :=
  match raw with
  | JsObject true ps =>
      let* limitId := own_data ps "limitId" in
      let* scopeKey := own_data ps "scopeKey" in
      let* metric := own_data ps "metric" in
      let* maximum := own_data ps "maximum" in
      match limitId, scopeKey with
      | JsString id, JsString scope =>
          if negb (isCanonicalExerciseControlLimitId limitId) || negb (isCanonicalExerciseControlScopeKey scopeKey) then Ok None
          else
            let* rawWindow := own_data ps "window" in
            let* w := snapshotWindow rawWindow in
            match w with
            | None => Ok None
            | Some w =>
                if js_is metric "count" then
                  if negb (hasExactlyKeys ps ["limitId"; "scopeKey"; "metric"; "maximum"; "window"]) then Ok None
                  else match maximum with
                       | JsNum n =>
                           if negb (isSafeInteger n) || (integer_value n <? 1) then Ok None
                           else Ok (Some {| limitId := id; scopeKey := scope; metric := m_count (integer_value n); window := w |})
                       | _ => Ok None
                       end
                else if js_is metric "amount" then
                  if negb (hasExactlyKeys ps ["limitId"; "scopeKey"; "metric"; "maximum"; "unit"; "window"]) then Ok None
                  else
                    let* u := own_data ps "unit" in
                    match maximum, u with
                    | JsString maximum, JsString unit =>
                        if negb (isCanonicalDecimal maximum EXERCISE_DECIMAL_MAXIMUM_DIGITS) || negb (isCanonicalExerciseControlUnit u)
                        then Ok None
                        else Ok (Some {| limitId := id; scopeKey := scope; metric := m_amount maximum unit; window := w |})
                    | _, _ => Ok None
                    end
                else Ok None
            end
      | _, _ => Ok None
      end
  | _ => Ok None
  end.

(** [JSON.stringify([limitId, scopeKey])] *)
Definition bucket_text (limitId scopeKey : string) : string :=
  "[" +:+ json_string limitId +:+ "," +:+ json_string scopeKey +:+ "]".
Definition exerciseControlBucketKey (l : ExerciseControlLimit) : string := bucket_text (limitId l) (scopeKey l).

(** The comparator of [sortExerciseControlLimits] is not positive. *)
Definition limit_le (l r : ExerciseControlLimit) : Prop :=
  slt (limitId l) (limitId r) ∨ limitId l = limitId r ∧ String.le (scopeKey l) (scopeKey r).
Global Instance slt_dec : RelDecision slt.
Proof. intros a b. unfold slt. apply _. Defined.
Global Instance limit_le_dec : RelDecision limit_le.
Proof. intros l r. unfold limit_le. apply _. Defined.

Definition sortExerciseControlLimits (limits : list ExerciseControlLimit) : list ExerciseControlLimit :=
  merge_sort limit_le limits.

(** The [for] loop of [snapshotExerciseControlLimits]. *)
Fixpoint snapshot_limits (buckets : gset string) (raw : list JsValue) : result ControlError (option (list ExerciseControlLimit)) :=
  match raw with
  | [] => Ok (Some [])
  | r :: raw =>
      let* l := snapshotLimit r in
      match l with
      | None => Ok None
      | Some l =>
          if bool_decide (exerciseControlBucketKey l ∈ buckets) then Ok None
          else
            let* rest := snapshot_limits ({[ exerciseControlBucketKey l ]} ∪ buckets) raw in
            Ok (cons l <$> rest)
      end
  end.

Definition snapshotExerciseControlLimits (raw : JsValue) : result ControlError (option (list ExerciseControlLimit)) :=
  match raw with
  | JsArray elements =>
      if EXERCISE_CONTROL_MAXIMUM_LIMITS <? Z.of_nat (length elements) then Ok None
      else
        let* limits := snapshot_limits ∅ elements in
        Ok (sortExerciseControlLimits <$> limits)
  | _ => Ok None
  end.

Definition serializeWindow (w : ExerciseControlWindow) : string :=
  match w with
  | lifetime => "{" +:+ quoted "kind" +:+ ":" +:+ quoted "lifetime" +:+ "}"
  | rolling seconds => "{" +:+ quoted "kind" +:+ ":" +:+ quoted "rolling" +:+ "," +:+ quoted "seconds" +:+ ":" +:+
      text (bigint_to_string seconds) +:+ "}"
  end.

Definition serializeExerciseControlLimit (l : ExerciseControlLimit) : string :=
  let maximum := match metric l with m_count n => text (bigint_to_string n) | m_amount m _ => json_string m end in
  "{" +:+ join "," (
    [quoted "limitId" +:+ ":" +:+ json_string (limitId l);
     quoted "maximum" +:+ ":" +:+ maximum;
     quoted "metric" +:+ ":" +:+ json_string (match metric l with m_count _ => "count" | m_amount _ _ => "amount" end);
     quoted "scopeKey" +:+ ":" +:+ json_string (scopeKey l)] ++
    match metric l with m_count _ => [] | m_amount _ u => [quoted "unit" +:+ ":" +:+ json_string u] end ++
    [quoted "window" +:+ ":" +:+ serializeWindow (window l)]) +:+ "}".

Definition policy_text (limits : list ExerciseControlLimit) : string :=
  "[" +:+ join "," (serializeExerciseControlLimit <$> sortExerciseControlLimits limits) +:+ "]".
Definition exerciseControlPolicyDigest `{JsHost} (limits : list ExerciseControlLimit) : string :=
  "sha256:" +:+ sha256_hex (policy_text limits).

(** A limit as the object the policy would return it as. *)
Definition window_value (w : ExerciseControlWindow) : JsValue :=
  match w with
  | lifetime => JsObject true [("kind", JsString "lifetime")]
  | rolling seconds => JsObject true [("kind", JsString "rolling"); ("seconds", JsNum (JInt seconds))]
  end.
Definition limit_value (l : ExerciseControlLimit) : JsValue :=
  match metric l with
  | m_count n => JsObject true
      [("limitId", JsString (limitId l)); ("scopeKey", JsString (scopeKey l)); ("metric", JsString "count");
       ("maximum", JsNum (JInt n)); ("window", window_value (window l))]
  | m_amount m u => JsObject true
      [("limitId", JsString (limitId l)); ("scopeKey", JsString (scopeKey l)); ("metric", JsString "amount");
       ("maximum", JsString m); ("unit", JsString u); ("window", window_value (window l))]
  end.

(** ** Reservations *)

Record ExerciseCorrelation := { ec_requestId : string; ec_decisionId : string; ec_action : string; ec_resourceScope : string }.

Record ExerciseReservationSubject := {
  rs_boundedGrantId : string;
  rs_executionId : string;
  rs_subject : string;
  rs_action : string;
  rs_resource : string;
  rs_counterparty : option string;
  rs_organization : option string;
  rs_amount : option MonetaryAmount;
  rs_correlation : ExerciseCorrelation;
}.

Record ExerciseControlRuleUsage := { limit : ExerciseControlLimit; usage : string }.

Record ExerciseReservationRequest := {
  reservationId : string;
  executionId : string;
  boundedGrantId : string;
  requestDigest : string;
  policyDigest : string;
  rq_authorityBindingDigest : string;
  rules : list ExerciseControlRuleUsage;
}.

Record ExerciseReservationRecord := { request : ExerciseReservationRequest; reservedAt : string }.

Inductive ExerciseReservationTerminalKind := settled | released.
Global Instance ExerciseReservationTerminalKind_eq_dec : EqDecision ExerciseReservationTerminalKind.
Proof. solve_decision. Defined.

Definition EXERCISE_RESERVATION_SETTLE_REASONS : list string := ["executed"; "execution-unconfirmed"].
Definition EXERCISE_RESERVATION_RELEASE_REASONS : list string :=
  ["execution-failed"; "emergency-control"; "exercise-control"; "grant-exercise"].

Definition isExerciseReservationSettleReason (r : string) : bool := bool_decide (r ∈ EXERCISE_RESERVATION_SETTLE_REASONS).
Definition isExerciseReservationReleaseReason (r : string) : bool := bool_decide (r ∈ EXERCISE_RESERVATION_RELEASE_REASONS).

Definition exerciseReservationTerminalReasonMatches (kind : ExerciseReservationTerminalKind) (reason : string) : bool :=
  match kind with settled => isExerciseReservationSettleReason reason | released => isExerciseReservationReleaseReason reason end.

Record ExerciseReservationTerminalEvent := {
  te_reservationId : string;
  te_kind : ExerciseReservationTerminalKind;
  te_reason : string;
  te_recordedAt : string;
}.

(** [SHA256_DIGEST.test(value)] *)
Definition isWellFormedExerciseDigest (s : string) : bool := is_sha256_digest s.

Definition isWellFormedExerciseRuleUsage (r : ExerciseControlRuleUsage) : bool :=
  match metric (limit r) with
  | m_count _ => str_eqb (usage r) "1"
  | m_amount _ _ => isCanonicalDecimal (usage r) EXERCISE_DECIMAL_USAGE_DIGITS
  end.

Record ExerciseControlActiveUsage := {
  au_metric_is_amount : bool;
  au_unit : option string;
  au_usage : string;
  au_reservedAtMs : option Z;
}.

Inductive ExerciseControlRuleVerdict := within | exceeded | unit_mismatch.
Global Instance ExerciseControlRuleVerdict_eq_dec : EqDecision ExerciseControlRuleVerdict.
Proof. solve_decision. Defined.

(** [windowed]: a [NaN] instant, on the usage or at admission, is handled by
    the comparison: an unreadable usage instant counts, an unreadable [atMs]
    makes every readable usage fall outside. *)
Definition windowed (w : ExerciseControlWindow) (active : list ExerciseControlActiveUsage) (atMs : option Z) : list ExerciseControlActiveUsage :=
  match w with
  | lifetime => active
  | rolling seconds =>
      List.filter (λ e,
        match au_reservedAtMs e, atMs with
        | None, _ => true
        | Some t, Some at_ => at_ - seconds * 1000 <? t
        | Some _, None => false
        end) active
  end.

Definition usage_matches (u : string) (e : ExerciseControlActiveUsage) : bool :=
  au_metric_is_amount e && bool_decide (au_unit e = Some u) && isCanonicalDecimal (au_usage e) EXERCISE_DECIMAL_USAGE_DIGITS.

(** The summing loop; [None] is the early ['unit-mismatch'] return. *)
Fixpoint sum_usage (u total : string) (l : list ExerciseControlActiveUsage) : result DecimalError (option string) :=
  match l with
  | [] => Ok (Some total)
  | e :: l =>
      if negb (usage_matches u e) then Ok None
      else let* total := addCanonicalDecimals total (au_usage e) in sum_usage u total l
  end.

Definition exerciseControlRuleVerdict (r : ExerciseControlRuleUsage) (active : list ExerciseControlActiveUsage)
    (atMs : option Z) : result DecimalError ExerciseControlRuleVerdict :=
  let w := windowed (window (limit r)) active atMs in
  match metric (limit r) with
  | m_count maximum => Ok (if Z.of_nat (length w) + 1 <=? maximum then within else exceeded)
  | m_amount maximum u =>
      let* total := sum_usage u (usage r) w in
      match total with
      | None => Ok unit_mismatch
      | Some total =>
          let* order := compareCanonicalDecimals total maximum in
          Ok (match order with Gt => exceeded | _ => within end)
      end
  end.

Inductive Admission :=
  | WithinLimits
  | OutsideLimits (reasonCodes : list ExerciseControlReasonCode) (refusedBuckets : list (string * string)).

(** The verdict of every rule, in order. *)
Fixpoint rule_verdicts (atMs : option Z) (activeUsageFor : ExerciseControlRuleUsage → list ExerciseControlActiveUsage)
    (rules : list ExerciseControlRuleUsage) : result DecimalError (list (ExerciseControlRuleUsage * ExerciseControlRuleVerdict)) :=
  match rules with
  | [] => Ok []
  | r :: rules =>
      let* v := exerciseControlRuleVerdict r (activeUsageFor r) atMs in
      let* rest := rule_verdicts atMs activeUsageFor rules in
      Ok ((r, v) :: rest)
  end.

Definition has_verdict (v : ExerciseControlRuleVerdict) (l : list (ExerciseControlRuleUsage * ExerciseControlRuleVerdict)) : bool :=
  existsb (λ p, bool_decide (p.2 = v)) l.

(** ** Resolutions *)

Inductive ExerciseReservationResolution := confirmed_completed | confirmed_not_completed.
Global Instance ExerciseReservationResolution_eq_dec : EqDecision ExerciseReservationResolution.
Proof. solve_decision. Defined.
Inductive ExerciseReservationResolutionBasis := initial_observation_unconfirmed | no_initial_observation.
Global Instance ExerciseReservationResolutionBasis_eq_dec : EqDecision ExerciseReservationResolutionBasis.
Proof. solve_decision. Defined.

Record ExerciseReservationResolutionEvent := {
  re_reservationId : string;
  re_executionId : string;
  re_resolutionDigest : string;
  re_resolution : ExerciseReservationResolution;
  re_recordedAt : string;
}.

Record ExerciseReservationResolutionInput := {
  ri_event : ExerciseReservationResolutionEvent;
  ri_basis : ExerciseReservationResolutionBasis;
}.

Definition exerciseReservationResolutionConsistent (terminal : option ExerciseReservationTerminalEvent)
    (resolution : ExerciseReservationResolution) (basis : ExerciseReservationResolutionBasis) : bool :=
  match terminal with
  | None => true
  | Some t =>
      if bool_decide (te_kind t = settled) && str_eqb (te_reason t) "execution-unconfirmed" then true
      else if bool_decide (basis = initial_observation_unconfirmed) then false
      else if bool_decide (te_kind t = settled) then bool_decide (resolution = confirmed_completed)
      else bool_decide (resolution = confirmed_not_completed)
  end.

Definition exerciseReservationConsumes (terminal : option ExerciseReservationTerminalEvent)
    (resolution : option ExerciseReservationResolutionEvent) : bool :=
  match resolution with
  | None => match terminal with Some t => negb (bool_decide (te_kind t = released)) | None => true end
  | Some r =>
      if negb (exerciseReservationResolutionConsistent terminal (re_resolution r) no_initial_observation) then true
      else negb (bool_decide (re_resolution r = confirmed_not_completed))
  end.

Definition exerciseReservationResolutionMatches (e : ExerciseReservationResolutionEvent) (i : ExerciseReservationResolutionInput) : bool :=
  str_eqb (re_reservationId e) (re_reservationId (ri_event i)) && str_eqb (re_executionId e) (re_executionId (ri_event i)) &&
  str_eqb (re_resolutionDigest e) (re_resolutionDigest (ri_event i)) &&
  bool_decide (re_resolution e = re_resolution (ri_event i)).

Section Hosted.
Context `{JsHost}.

Definition exerciseReservationId (boundedGrantId executionId : string) : string :=
  "aoc.exercise-reservation:" +:+ String.substring 0 32 (sha256_hex
    ("{" +:+ quoted "boundedGrantId" +:+ ":" +:+ json_string boundedGrantId +:+ "," +:+
     quoted "executionId" +:+ ":" +:+ json_string executionId +:+ "}")).

Definition request_text (s : ExerciseReservationSubject) : string :=
  "{" +:+ join "," (
    match rs_amount s with
    | Some a => [quoted "amount" +:+ ":{" +:+ quoted "unit" +:+ ":" +:+ json_string (unit_ a) +:+ "," +:+
        quoted "value" +:+ ":" +:+ json_string (value a) +:+ "}"]
    | None => []
    end ++
    [quoted "action" +:+ ":" +:+ json_string (rs_action s);
     quoted "boundedGrantId" +:+ ":" +:+ json_string (rs_boundedGrantId s);
     quoted "correlation" +:+ ":{" +:+ quoted "action" +:+ ":" +:+ json_string (ec_action (rs_correlation s)) +:+ "," +:+
       quoted "decisionId" +:+ ":" +:+ json_string (ec_decisionId (rs_correlation s)) +:+ "," +:+
       quoted "requestId" +:+ ":" +:+ json_string (ec_requestId (rs_correlation s)) +:+ "," +:+
       quoted "resourceScope" +:+ ":" +:+ json_string (ec_resourceScope (rs_correlation s)) +:+ "}"] ++
    match rs_counterparty s with Some c => [quoted "counterparty" +:+ ":" +:+ json_string c] | None => [] end ++
    [quoted "executionId" +:+ ":" +:+ json_string (rs_executionId s)] ++
    match rs_organization s with Some o => [quoted "organization" +:+ ":" +:+ json_string o] | None => [] end ++
    [quoted "resource" +:+ ":" +:+ json_string (rs_resource s);
     quoted "subject" +:+ ":" +:+ json_string (rs_subject s)]) +:+ "}".

Definition exerciseReservationRequestDigest (s : ExerciseReservationSubject) : string :=
  "sha256:" +:+ sha256_hex (request_text s).

Definition isExerciseReservationInstant (s : string) : bool := nonempty s && is_some (date_parse s).

(** The [try] turns a throw of the snapshot into [false]. *)
Definition isWellFormedExerciseReservationRequest (r : ExerciseReservationRequest) : bool :=
  nonempty (boundedGrantId r) && nonempty (executionId r) &&
  str_eqb (reservationId r) (exerciseReservationId (boundedGrantId r) (executionId r)) &&
  isWellFormedExerciseDigest (requestDigest r) && isWellFormedExerciseDigest (policyDigest r) &&
  isWellFormedExerciseDigest (rq_authorityBindingDigest r) &&
  match snapshotExerciseControlLimits (JsArray ((λ rule, limit_value (limit rule)) <$> rules r)) with
  | Ok (Some limits) =>
      forallb (λ p, str_eqb (exerciseControlBucketKey p.1) (exerciseControlBucketKey (limit p.2))) (zip limits (rules r)) &&
      str_eqb (exerciseControlPolicyDigest limits) (policyDigest r) &&
      forallb isWellFormedExerciseRuleUsage (rules r)
  | _ => false
  end.

Definition isWellFormedExerciseReservation (r : ExerciseReservationRecord) : bool :=
  isExerciseReservationInstant (reservedAt r) && isWellFormedExerciseReservationRequest (request r).

Definition assessExerciseReservationAdmission (r : ExerciseReservationRequest) (reservedAt : string)
    (activeUsageFor : ExerciseControlRuleUsage → list ExerciseControlActiveUsage) : result DecimalError Admission :=
  let* verdicts := rule_verdicts (date_parse reservedAt) activeUsageFor (rules r) in
  let mismatch := has_verdict unit_mismatch verdicts in
  let exceeded_ := has_verdict exceeded verdicts in
  if negb mismatch && negb exceeded_ then Ok WithinLimits
  else Ok (OutsideLimits
    ((if mismatch then [EXERCISE_CONTROL_UNIT_MISMATCH] else []) ++ (if exceeded_ then [EXERCISE_CONTROL_LIMIT_EXCEEDED] else []))
    (omap (λ p, if bool_decide (p.2 = within) then None else Some (limitId (limit p.1), scopeKey (limit p.1))) verdicts)).

Definition exerciseReservationsDescribeSameAttempt (l r : ExerciseReservationRequest) : bool :=
  str_eqb (reservationId l) (reservationId r) && str_eqb (executionId l) (executionId r) &&
  str_eqb (boundedGrantId l) (boundedGrantId r) && str_eqb (requestDigest l) (requestDigest r) &&
  str_eqb (policyDigest l) (policyDigest r) && str_eqb (rq_authorityBindingDigest l) (rq_authorityBindingDigest r).

Definition isWellFormedExerciseReservationResolutionInput (i : ExerciseReservationResolutionInput) : bool :=
  nonempty (re_reservationId (ri_event i)) && nonempty (re_executionId (ri_event i)) &&
  isWellFormedExerciseDigest (re_resolutionDigest (ri_event i)) && isExerciseReservationInstant (re_recordedAt (ri_event i)).

End Hosted.

(** ** The authority binding *)

Inductive BindingVerification := Verified | NotVerified (reasonCode : ExerciseControlReasonCode).

(** [resolved] is the resolver's answer: [None] when it threw or answered
    [undefined]. *)
Definition verifyExerciseAuthorityBinding (recorded resolved : option string) : BindingVerification :=
  match recorded with
  | Some r =>
      if negb (isWellFormedExerciseDigest r) then NotVerified EXERCISE_CONTROL_AUTHORITY_BINDING_UNVERIFIABLE
      else match resolved with
           | Some c =>
               if negb (isWellFormedExerciseDigest c) then NotVerified EXERCISE_CONTROL_AUTHORITY_BINDING_UNVERIFIABLE
               else if str_eqb c r then Verified else NotVerified EXERCISE_CONTROL_AUTHORITY_BINDING_CHANGED
           | None => NotVerified EXERCISE_CONTROL_AUTHORITY_BINDING_UNVERIFIABLE
           end
  | None => NotVerified EXERCISE_CONTROL_AUTHORITY_BINDING_UNVERIFIABLE
  end.

(** ** The exact sum *)

Fixpoint sum_values (l : list ExerciseControlActiveUsage) : Q :=
  match l with [] => 0 | e :: l => dec_value (au_usage e) + sum_values l end%Q.

(** A partial total: canonical, at most 400 fractional digits, below [m] times
    the largest usage. It stays far below the digit limit of the arithmetic. *)
Definition partial_total (m : Z) (s : string) : Prop :=
  canonical_grammar (chars s) = true ∧ (scale (parse_decimal (chars s)) ≤ 400)%nat ∧
  (dec_value s < inject_Z m * pow10 400)%Q.

Lemma pow10_410 m : m ≤ 10 ^ 10 → (inject_Z m * pow10 400 <= pow10 410)%Q.
Proof.
  intros Hm. unfold pow10. change (10 ^ Z.of_nat 410) with (10 ^ 10 * 10 ^ Z.of_nat 400).
  rewrite inject_Z_mult. apply Qmult_le_compat_r; [by rewrite <-Zle_Qle|].
  rewrite <-(Zle_Qle 0). apply Z.lt_le_incl, pow10_pos.
Qed.

Lemma partial_total_canonical m s : m ≤ 10 ^ 10 → partial_total m s → isCanonicalDecimal s MAX_SAFE_INTEGER = true.
Proof.
  intros Hm (Hg&Hs&Hv). unfold isCanonicalDecimal. rewrite Hg. cbn [andb]. apply Z.leb_le.
  assert (digitCount (chars s) ≤ Z.of_nat (410 + 400)) as H.
  { apply canonical_digitCount_bound; [done|lia| |done]. eapply Qlt_le_trans; [done|]. by apply pow10_410. }
  unfold MAX_SAFE_INTEGER. lia.
Qed.

Lemma usage_partial_total s : isCanonicalDecimal s EXERCISE_DECIMAL_USAGE_DIGITS = true → partial_total 1 s.
Proof.
  intros H. destruct (canonical_digits_bound s 400 H) as [Hv Hs].
  split; [by eapply isCanonicalDecimal_grammar|]. split; [done|]. by rewrite Qmult_1_l.
Qed.

Lemma add_partial_total m a b :
  m ≤ 10 ^ 10 → partial_total m a → isCanonicalDecimal b EXERCISE_DECIMAL_USAGE_DIGITS = true →
  ∃ r, addCanonicalDecimals a b = Ok r ∧ partial_total (m + 1) r ∧ (dec_value r == dec_value a + dec_value b)%Q.
Proof.
  intros Hm Ha Hb. pose proof (partial_total_canonical m a Hm Ha) as Ca.
  assert (isCanonicalDecimal b MAX_SAFE_INTEGER = true) as Cb.
  { eapply isCanonicalDecimal_weaken; [|exact Hb]. unfold EXERCISE_DECIMAL_USAGE_DIGITS, MAX_SAFE_INTEGER. lia. }
  apply usage_partial_total in Hb as (Gb&Sb&Vb). destruct Ha as (Ga&Sa&Va).
  pose proof (addCanonicalDecimals_spec a b) as H. destruct (addCanonicalDecimals a b) as [r|[]] eqn:E.
  - destruct H as (_&_&Hg&Hv). exists r. split; [done|]. split; [|done]. split; [done|]. split.
    + apply add_scale in E. lia.
    + rewrite Hv, inject_Z_plus, Qmult_plus_distr_l. by apply Qplus_lt_le_compat; [|apply Qlt_le_weak].
  - rewrite Ca, Cb in H. done.
Qed.

Lemma sum_usage_spec u l total m :
  partial_total m total → m + Z.of_nat (length l) ≤ 10 ^ 10 →
  if forallb (usage_matches u) l
  then ∃ r, sum_usage u total l = Ok (Some r) ∧ isCanonicalDecimal r MAX_SAFE_INTEGER = true ∧
       (dec_value r == dec_value total + sum_values l)%Q
  else sum_usage u total l = Ok None.
Proof.
  revert total m. induction l as [|e l IH]; intros total m Ht Hm; cbn [forallb sum_usage sum_values].
  - exists total. split; [done|]. split; [|by rewrite Qplus_0_r]. eapply partial_total_canonical; [|done]. cbn in Hm. lia.
  - cbn [length] in Hm. destruct (usage_matches u e) eqn:He; cbn [andb negb]; [|done].
    unfold usage_matches in He. split_and_bool.
    destruct (add_partial_total m total (au_usage e)) as (r&->&Hr&Hv); [lia|done..|]. cbn [result_bind].
    specialize (IH r (m + 1) Hr ltac:(lia)). destruct (forallb (usage_matches u) l); [|done].
    destruct IH as (r'&->&Hr'&Hv'). exists r'. split; [done|]. split; [done|]. by rewrite Hv', Hv, Qplus_assoc.
Qed.

(** What a rule's bucket holds when one more usage fits it. *)
Definition fits (r : ExerciseControlRuleUsage) (w : list ExerciseControlActiveUsage) : Prop :=
  match metric (limit r) with
  | m_count maximum => Z.of_nat (length w) + 1 ≤ maximum
  | m_amount maximum u =>
      forallb (usage_matches u) w = true ∧ (dec_value (usage r) + sum_values w <= dec_value maximum)%Q
  end.

Lemma exerciseControlRuleVerdict_spec r active atMs :
  isWellFormedExerciseRuleUsage r = true →
  match metric (limit r) with m_count _ => True | m_amount m _ => isCanonicalDecimal m EXERCISE_DECIMAL_MAXIMUM_DIGITS = true end →
  Z.of_nat (length active) < 2 ^ 32 →
  match exerciseControlRuleVerdict r active atMs with
  | Ok within => fits r (windowed (window (limit r)) active atMs)
  | Ok exceeded =>
      match metric (limit r) with
      | m_count maximum => maximum < Z.of_nat (length (windowed (window (limit r)) active atMs)) + 1
      | m_amount maximum u => forallb (usage_matches u) (windowed (window (limit r)) active atMs) = true ∧
          (dec_value maximum < dec_value (usage r) + sum_values (windowed (window (limit r)) active atMs))%Q
      end
  | Ok unit_mismatch => ∃ m u, metric (limit r) = m_amount m u ∧
      forallb (usage_matches u) (windowed (window (limit r)) active atMs) = false
  | Throw _ => False
  end.
Proof.
  intros Hu Hmax Hlen. unfold exerciseControlRuleVerdict, fits, isWellFormedExerciseRuleUsage in *.
  destruct (metric (limit r)) as [maximum|maximum u] eqn:Em.
  { destruct (Z.leb_spec (Z.of_nat (length (windowed (window (limit r)) active atMs)) + 1) maximum); lia. }
  assert (length (windowed (window (limit r)) active atMs) ≤ length active)%nat as Hw.
  { unfold windowed. destruct (window (limit r)); [done|]. apply filter_length_le. }
  set (w := windowed (window (limit r)) active atMs) in *.
  pose proof (sum_usage_spec u w (usage r) 1 (usage_partial_total _ Hu)) as Hs.
  assert (1 + Z.of_nat (length w) ≤ 10 ^ 10) as Hb by lia. specialize (Hs Hb).
  destruct (forallb (usage_matches u) w) eqn:Hm.
  - destruct Hs as (t&->&Ht&Hv). cbn [result_bind].
    rewrite compareCanonicalDecimals_value; [|done|].
    2: { eapply isCanonicalDecimal_weaken; [|exact Hmax]. unfold EXERCISE_DECIMAL_MAXIMUM_DIGITS, MAX_SAFE_INTEGER. lia. }
    cbn [result_bind]. destruct (Qcompare (dec_value t) (dec_value maximum)) eqn:E.
    + split; [done|]. rewrite <-Hv. apply Qle_alt. by rewrite E.
    + split; [done|]. rewrite <-Hv. apply Qle_alt. by rewrite E.
    + split; [done|]. rewrite <-Hv. by apply Qgt_alt in E.
  - rewrite Hs. cbn. eauto.
Qed.

(** The admission rule is exact. On a well-formed rule it always answers: a
    count rule is within exactly when one more active use stays at or below the
    maximum, an amount rule exactly when every active use in the window is in
    the rule's unit and the exact decimal sum including this use stays at or
    below the maximum. No rounding, no overflow, no throw. *)
Theorem exerciseControlRuleVerdict_exact (r : ExerciseControlRuleUsage) (active : list ExerciseControlActiveUsage) (atMs : option Z) :
  isWellFormedExerciseRuleUsage r = true →
  match metric (limit r) with m_count _ => True | m_amount m _ => isCanonicalDecimal m EXERCISE_DECIMAL_MAXIMUM_DIGITS = true end →
  Z.of_nat (length active) < 2 ^ 32 →
  (∃ v, exerciseControlRuleVerdict r active atMs = Ok v) ∧
  (exerciseControlRuleVerdict r active atMs = Ok within ↔ fits r (windowed (window (limit r)) active atMs)).
Proof.
  intros Hu Hm Hl. pose proof (exerciseControlRuleVerdict_spec r active atMs Hu Hm Hl) as Hs. unfold fits in *.
  destruct (exerciseControlRuleVerdict r active atMs) as [[]|]; (split; [eauto|]); try done.
  - split; [done|]. destruct (metric (limit r)); [lia|]. intros [_ Hle]. destruct Hs as [_ Hlt].
    by destruct (Qlt_not_le _ _ Hlt).
  - split; [done|]. destruct Hs as (m&u&->&Hf). intros [Ht _]. congruence.
Qed.

Lemma exerciseControlRuleVerdict_exact_witness :
  let rule := {| limit := {| limitId := "daily"; scopeKey := "org"; metric := m_amount "0.3" "USD"; window := lifetime |}; usage := "0.2" |} in
  let active := [{| au_metric_is_amount := true; au_unit := Some "USD"; au_usage := "0.1"; au_reservedAtMs := Some 5 |}] in
  exerciseControlRuleVerdict rule active (Some 10) = Ok within ∧ fits rule active.
Proof.
  cbv zeta. split; [vm_compute; reflexivity|].
  apply (exerciseControlRuleVerdict_exact {| limit := {| limitId := "daily"; scopeKey := "org"; metric := m_amount "0.3" "USD"; window := lifetime |}; usage := "0.2" |}
    [{| au_metric_is_amount := true; au_unit := Some "USD"; au_usage := "0.1"; au_reservedAtMs := Some 5 |}] (Some 10)); vm_compute; reflexivity.
Defined.

(** ** Snapshots of the policy's answer *)

Lemma bucket_text_inj a b c d : bucket_text a b = bucket_text c d → a = c ∧ b = d.
Proof.
  unfold bucket_text. intros E. text_peel E. apply json_string_inj in E as [-> E]. text_peel E.
  by apply json_string_inj in E as [-> _].
Qed.

Lemma bucket_key_inj l r : exerciseControlBucketKey l = exerciseControlBucketKey r ↔ limitId l = limitId r ∧ scopeKey l = scopeKey r.
Proof. unfold exerciseControlBucketKey. split; [apply bucket_text_inj|by intros [-> ->]]. Qed.

Global Instance limit_le_trans : Transitive limit_le.
Proof.
  intros a b c [H1|[E1 H1]] [H2|[E2 H2]].
  - left. by trans (limitId b).
  - left. by rewrite <-E2.
  - left. by rewrite E1.
  - right. split; [congruence|by trans (scopeKey b)].
Qed.

Global Instance limit_le_total : Total limit_le.
Proof.
  intros a b. unfold limit_le. destruct (decide (limitId a = limitId b)) as [E|N].
  - destruct (total String.le (scopeKey a) (scopeKey b)); auto.
  - destruct (total String.le (limitId a) (limitId b)); [left|right]; left; apply slt_iff; auto.
Qed.

Lemma limit_le_antisymm a b : limit_le a b → limit_le b a → exerciseControlBucketKey a = exerciseControlBucketKey b.
Proof.
  intros [H1|[E1 H1]] [H2|[E2 H2]]; apply bucket_key_inj.
  - exfalso. apply (slt_irrefl (limitId a)). by trans (limitId b).
  - exfalso. rewrite E2 in H1. by apply slt_irrefl in H1.
  - exfalso. rewrite E1 in H2. by apply slt_irrefl in H2.
  - split; [done|]. by apply (anti_symm String.le).
Qed.

(** A limit the runtime can enforce. *)
Definition limit_ok (l : ExerciseControlLimit) : Prop :=
  isCanonicalExerciseControlLimitId (JsString (limitId l)) = true ∧
  isCanonicalExerciseControlScopeKey (JsString (scopeKey l)) = true ∧
  match metric l with
  | m_count n => 1 ≤ n ≤ MAX_SAFE_INTEGER
  | m_amount m u => isCanonicalDecimal m EXERCISE_DECIMAL_MAXIMUM_DIGITS = true ∧ isCanonicalExerciseControlUnit (JsString u) = true
  end ∧
  match window l with lifetime => True | rolling s => 1 ≤ s ≤ EXERCISE_CONTROL_MAXIMUM_ROLLING_SECONDS end.

Lemma snapshotWindow_ok raw w :
  snapshotWindow raw = Ok (Some w) →
  match w with lifetime => True | rolling s => 1 ≤ s ≤ EXERCISE_CONTROL_MAXIMUM_ROLLING_SECONDS end.
Proof.
  unfold snapshotWindow. intros H. destruct raw as [| | | | | |[] ps| |]; try done.
  apply result_bind_Ok in H as (k&_&H). break_if.
  { break_if; [|done]. by injection H as <-. }
  break_if; [|done]. break_if; [done|]. apply result_bind_Ok in H as (s&_&H). destruct s; try done.
  break_if; [done|]. injection H as <-. split_and_bool. lia.
Qed.

Lemma isSafeInteger_bound n : isSafeInteger n = true → integer_value n ≤ MAX_SAFE_INTEGER.
Proof. destruct n; cbn [isSafeInteger integer_value]; intros; split_and_bool; unfold MAX_SAFE_INTEGER in *; lia. Qed.

Lemma snapshotLimit_ok raw l : snapshotLimit raw = Ok (Some l) → limit_ok l.
Proof.
  unfold snapshotLimit. intros H. destruct raw as [| | | | | |[] ps| |]; try done.
  do 4 (apply result_bind_Ok in H as (?&_&H)). destruct x; try done. destruct x0; try done.
  break_if; [done|]. apply orb_false_iff in Heqb as [Hid Hsc]. apply negb_false_iff in Hid, Hsc.
  apply result_bind_Ok in H as (rw&_&H). apply result_bind_Ok in H as (w&Hw&H).
  destruct w as [w|]; [|done]. apply snapshotWindow_ok in Hw. break_if.
  - break_if; [done|]. destruct x2; try done. break_if; [done|]. injection H as <-. split_and_bool.
    pose proof (isSafeInteger_bound n ltac:(done)). repeat split; cbn; try done; lia.
  - break_if; [|done]. break_if; [done|]. apply result_bind_Ok in H as (u&_&H).
    destruct x2; try done. destruct u; try done. break_if; [done|]. injection H as <-. split_and_bool. repeat split; done.
Qed.

Lemma snapshot_limits_ok buckets raw ls :
  snapshot_limits buckets raw = Ok (Some ls) →
  Forall limit_ok ls ∧ NoDup (exerciseControlBucketKey <$> ls) ∧
  Forall (λ l, exerciseControlBucketKey l ∉ buckets) ls ∧ length ls = length raw.
Proof.
  revert buckets ls. induction raw as [|r raw IH]; intros buckets ls H; cbn in H.
  { injection H as <-. repeat split; constructor. }
  apply result_bind_Ok in H as ([l|]&Hl&H); [|done]. apply snapshotLimit_ok in Hl.
  case_bool_decide as Hin; [done|]. apply result_bind_Ok in H as ([rest|]&Hr&[= <-]).
  apply IH in Hr as (Hok&Hn&Hb&Hlen). rewrite Forall_forall in Hb. repeat split.
  - by constructor.
  - apply NoDup_cons. split; [|done]. intros (x&E&Hx)%list_elem_of_fmap.
    apply (Hb x Hx), elem_of_union_l. rewrite E. by apply elem_of_singleton.
  - constructor; [done|]. apply Forall_forall. intros x Hx Hin'. by apply (Hb x Hx), elem_of_union_r.
  - cbn. by rewrite Hlen.
Qed.

(** What the gate enforces is what the host can be held to: a snapshot is at
    most 32 limits, each inside the closed contract (positive safe counts,
    canonical decimal maxima, bounded identifiers and windows), no bucket
    stated twice, in canonical order, one per element of the policy's answer. *)
Theorem snapshotExerciseControlLimits_sound (raw : JsValue) (limits : list ExerciseControlLimit) :
  snapshotExerciseControlLimits raw = Ok (Some limits) →
  Z.of_nat (length limits) ≤ EXERCISE_CONTROL_MAXIMUM_LIMITS ∧ Forall limit_ok limits ∧
  NoDup (exerciseControlBucketKey <$> limits) ∧ Sorted limit_le limits ∧
  ∃ elements, raw = JsArray elements ∧ length elements = length limits.
Proof.
  unfold snapshotExerciseControlLimits. intros H. destruct raw; try done.
  destruct (Z.ltb_spec EXERCISE_CONTROL_MAXIMUM_LIMITS (Z.of_nat (length elements))) as [|L]; [done|].
  apply result_bind_Ok in H as ([ls|]&Hs&[= <-]). apply snapshot_limits_ok in Hs as (Hok&Hn&_&Hlen).
  unfold sortExerciseControlLimits. pose proof (merge_sort_Permutation limit_le ls) as Hp.
  split; [rewrite Hp; lia|]. split; [by rewrite Hp|]. split; [by rewrite Hp|].
  split; [apply Sorted_merge_sort, _|]. exists elements. split; [done|]. by rewrite Hp.
Qed.

Lemma snapshotExerciseControlLimits_sound_witness :
  ∃ limits, snapshotExerciseControlLimits (JsArray
    [limit_value {| limitId := "z"; scopeKey := "s"; metric := m_count 5; window := rolling 60 |};
     limit_value {| limitId := "a"; scopeKey := "s"; metric := m_amount "100" "USD"; window := lifetime |}]) = Ok (Some limits) ∧
  Sorted limit_le limits.
Proof.
  eexists. split; [vm_compute; reflexivity|].
  eapply (snapshotExerciseControlLimits_sound (JsArray
    [limit_value {| limitId := "z"; scopeKey := "s"; metric := m_count 5; window := rolling 60 |};
     limit_value {| limitId := "a"; scopeKey := "s"; metric := m_amount "100" "USD"; window := lifetime |}])).
  vm_compute. reflexivity.
Defined.

(** ** Policy digests *)

Lemma sorted_limits_unique l k :
  l ≡ₚ k → NoDup (exerciseControlBucketKey <$> l) → sortExerciseControlLimits l = sortExerciseControlLimits k.
Proof.
  intros Hp Hn. unfold sortExerciseControlLimits.
  apply (StronglySorted_unique_strong limit_le).
  - intros x y Hx Hy Hxy Hyx. rewrite merge_sort_Permutation in Hx. rewrite merge_sort_Permutation, <-Hp in Hy.
    pose proof (limit_le_antisymm x y Hxy Hyx) as E.
    apply list_elem_of_lookup in Hx as (i&Hi), Hy as (j&Hj).
    assert (i = j) as ->; [|congruence].
    eapply (NoDup_lookup (exerciseControlBucketKey <$> l)); [done| |].
    + rewrite list_lookup_fmap, Hi. done.
    + rewrite list_lookup_fmap, Hj. cbn. by rewrite E.
  - apply Sorted_StronglySorted; [apply _|apply Sorted_merge_sort, _].
  - apply Sorted_StronglySorted; [apply _|apply Sorted_merge_sort, _].
  - by rewrite !merge_sort_Permutation.
Qed.

Definition metric_name (l : ExerciseControlLimit) : string :=
  match metric l with m_count _ => "count" | m_amount _ _ => "amount" end.
Definition maximum_text (m : LimitMetric) : string :=
  match m with m_count n => text (bigint_to_string n) | m_amount v _ => json_string v end.

Lemma serializeExerciseControlLimit_flat l :
  serializeExerciseControlLimit l =
  "{" +:+ quoted "limitId" +:+ ":" +:+ json_string (limitId l) +:+ "," +:+ quoted "maximum" +:+ ":" +:+
  maximum_text (metric l) +:+ "," +:+ quoted "metric" +:+ ":" +:+ json_string (metric_name l) +:+ "," +:+
  quoted "scopeKey" +:+ ":" +:+ json_string (scopeKey l) +:+ "," +:+
  match metric l with m_count _ => "" | m_amount _ u => quoted "unit" +:+ ":" +:+ json_string u +:+ "," end +:+
  quoted "window" +:+ ":" +:+ serializeWindow (window l) +:+ "}".
Proof.
  unfold serializeExerciseControlLimit, metric_name, maximum_text. destruct (metric l); cbn [app join];
    rewrite !string_app_assoc; reflexivity.
Qed.

Lemma bigint_not_quote a l r k : bigint_to_string a ++ l = json_chars k ++ r → False.
Proof.
  intros E. destruct (Z.lt_ge_cases a 0) as [L|L].
  - rewrite bigint_negative in E by done. unfold json_chars in E. discriminate.
  - pose proof (bigint_digits a L) as Hd. destruct (bigint_to_string_spec a L) as [Hok _].
    destruct (bigint_to_string a) as [|c t]; [done|]. apply (f_equal head) in E. cbn in E.
    injection E as ->. apply Forall_inv in Hd. done.
Qed.

Lemma maximum_text_unambiguous m n r1 r2 :
  maximum_text m +:+ "," +:+ r1 = maximum_text n +:+ "," +:+ r2 →
  r1 = r2 ∧ match m, n with
  | m_count a, m_count b => a = b
  | m_amount a _, m_amount b _ => a = b
  | _, _ => False
  end.
Proof.
  intros E. destruct m as [a|a u], n as [b|b w]; cbn [maximum_text] in E.
  - apply bigint_unambiguous in E as [-> E]; [|done..]. apply (string_app_peel ",") in E. by subst.
  - exfalso. apply (f_equal chars) in E. rewrite !chars_app in E. unfold json_string in E. rewrite !chars_text in E.
    eapply bigint_not_quote, E.
  - exfalso. apply (f_equal chars) in E. rewrite !chars_app in E. unfold json_string in E. rewrite !chars_text in E.
    eapply bigint_not_quote, eq_sym, E.
  - apply json_string_inj in E as [-> E]. apply (string_app_peel ",") in E. by subst.
Qed.

Lemma serializeWindow_unambiguous : unambiguous (λ _, True) serializeWindow.
Proof.
  intros a b r1 r2 _ _ E. destruct a as [|s], b as [|t]; cbn [serializeWindow] in E; text_peel E.
  - by subst.
  - exfalso. apply (f_equal chars) in E. rewrite !chars_app in E. done.
  - exfalso. apply (f_equal chars) in E. rewrite !chars_app in E. done.
  - apply bigint_unambiguous in E as [-> E]; [|done..]. text_peel E. by subst.
Qed.

Lemma serializeExerciseControlLimit_unambiguous : unambiguous (λ _, True) serializeExerciseControlLimit.
Proof.
  intros [i k m w] [i' k' m' w'] r1 r2 _ _ E. rewrite !serializeExerciseControlLimit_flat in E.
  cbn [limitId scopeKey metric window] in E. text_peel E. apply json_string_inj in E as [-> E]. text_peel E.
  apply maximum_text_unambiguous in E as [E Hm]. text_peel E. apply json_string_inj in E as [_ E]. text_peel E.
  apply json_string_inj in E as [-> E]. text_peel E.
  destruct m as [a|a u], m' as [b|b v]; try done; subst b; text_peel E.
  - apply serializeWindow_unambiguous in E as [-> E]; [|done..]. text_peel E. by subst.
  - apply json_string_inj in E as [-> E]. text_peel E.
    apply serializeWindow_unambiguous in E as [-> E]; [|done..]. text_peel E. by subst.
Qed.

(** The policy digest identifies the limit set: for limit sets that state no
    bucket twice, any reordering has the same digest; and where SHA-256 does not
    collide on the two canonical texts, equal digests mean the same set of
    limits, so a changed maximum, metric, unit, window or bucket changes it. *)
Theorem exerciseControlPolicyDigest_identifies `{JsHost} (l k : list ExerciseControlLimit) :
  NoDup (exerciseControlBucketKey <$> l) →
  (sha256_hex (policy_text l) = sha256_hex (policy_text k) → policy_text l = policy_text k) →
  exerciseControlPolicyDigest l = exerciseControlPolicyDigest k ↔ l ≡ₚ k.
Proof.
  intros Hn Hcol. unfold exerciseControlPolicyDigest. split.
  - intros E%string_app_peel. apply Hcol in E. unfold policy_text in E. apply string_app_peel in E.
    apply (join_unambiguous (λ _, True)) in E as [E _];
      [|apply serializeExerciseControlLimit_unambiguous| |done|by apply Forall_true|by apply Forall_true].
    + rewrite <-(merge_sort_Permutation limit_le l), <-(merge_sort_Permutation limit_le k).
      unfold sortExerciseControlLimits in E. by rewrite E.
    + intros x _. eexists _, _. split; [reflexivity|done].
  - intros Hp. unfold policy_text. by rewrite (sorted_limits_unique l k Hp Hn).
Qed.

Lemma exerciseControlPolicyDigest_identifies_witness :
  let a := {| limitId := "a"; scopeKey := "s"; metric := m_count 5; window := lifetime |} in
  let b := {| limitId := "b"; scopeKey := "s"; metric := m_amount "10.5" "USD"; window := rolling 60 |} in
  @exerciseControlPolicyDigest demo_host [a; b] = @exerciseControlPolicyDigest demo_host [b; a].
Proof.
  cbv zeta. apply exerciseControlPolicyDigest_identifies.
  - apply (bool_decide_unpack _). vm_compute. exact I.
  - intros _. vm_compute. reflexivity.
  - apply Permutation_swap.
Defined.
