(* ===== verification/ExerciseLedger.v ===== *)
(** * The exercise-control ledger

    Model of [exercise-control-runtime/domain/exercise-control-ledger-port.ts]
    and of [services/in-memory-exercise-control-ledger.ts]. The three maps of
    the closure are the record [Ledger]; the reservation map is kept in
    insertion order, because admission iterates over it. Every method is one
    synchronous section, so a history is a sequence of operations. A throw
    leaves the ledger as it was. *)

From Stdlib Require Import QArith.
From S2P Require Import Prelude Decimal Js Monetary Parameters ExerciseControl.

Local Open Scope Z_scope.
Local Open Scope frontera_scope.

Record Ledger := {
  reservations : list ExerciseReservationRecord;
  terminals : gmap string ExerciseReservationTerminalEvent;
  resolutions : gmap string ExerciseReservationResolutionEvent;
}.

Definition empty_ledger : Ledger := {| reservations := []; terminals := ∅; resolutions := ∅ |}.

Inductive LedgerError := LedgerTypeError | LedgerRangeError.

Inductive ExerciseReservationOutcome :=
  | Reserved (r : ExerciseReservationRecord)
  | AlreadyReserved (r : ExerciseReservationRecord)
  | ReserveConflict
  | ReserveRefused (reasonCodes : list ExerciseControlReasonCode) (refusedBuckets : list (string * string)).

Record TerminalInput := { ti_reservationId : string; ti_reason : string; ti_recordedAt : string }.

Inductive ExerciseReservationTerminalOutcome :=
  | TerminalRecorded (e : ExerciseReservationTerminalEvent)
  | TerminalAlready (e : ExerciseReservationTerminalEvent)
  | TerminalConflict (e : ExerciseReservationTerminalEvent)
  | TerminalNotFound.

Inductive ExerciseReservationResolutionOutcome :=
  | ResolutionApplied (e : ExerciseReservationResolutionEvent)
  | ResolutionAlready (e : ExerciseReservationResolutionEvent)
  | ResolutionConflict (e : ExerciseReservationResolutionEvent)
  | ResolutionInconsistent
  | ResolutionNotFound.

Inductive ExerciseReservationState := st_reserved | st_settled | st_released.

Record ExerciseReservationView := {
  v_reservation : ExerciseReservationRecord;
  v_state : ExerciseReservationState;
  v_terminal : option ExerciseReservationTerminalEvent;
  v_resolution : option ExerciseReservationResolutionEvent;
}.

Definition record_id (r : ExerciseReservationRecord) : string := reservationId (request r).

(** [reservations.get(id)] *)
Definition lookup_reservation (s : Ledger) (id : string) : option ExerciseReservationRecord :=
  List.find (λ r, str_eqb (record_id r) id) (reservations s).

Definition consumes (s : Ledger) (r : ExerciseReservationRecord) : bool :=
  exerciseReservationConsumes (terminals s !! record_id r) (resolutions s !! record_id r).

(** [reservation.rules.find((entry) => bucketKey(entry.limit) === bucket)] *)
Definition recorded_rule (bucket : string) (r : ExerciseReservationRecord) : option ExerciseControlRuleUsage :=
  List.find (λ entry, str_eqb (exerciseControlBucketKey (limit entry)) bucket) (rules (request r)).

Section Ledger.
Context `{JsHost}.

Definition usage_entry (r : ExerciseReservationRecord) (entry : ExerciseControlRuleUsage) : ExerciseControlActiveUsage := {|
  au_metric_is_amount := match metric (limit entry) with m_amount _ _ => true | m_count _ => false end;
  au_unit := match metric (limit entry) with m_amount _ u => Some u | m_count _ => None end;
  au_usage := usage entry;
  au_reservedAtMs := date_parse (reservedAt r);
|}.

Definition activeUsageFor (s : Ledger) (rule : ExerciseControlRuleUsage) : list ExerciseControlActiveUsage :=
  omap (λ r, if consumes s r then usage_entry r <$> recorded_rule (exerciseControlBucketKey (limit rule)) r else None)
    (reservations s).

(** [now] is the clock's answer inside the section; [frozenCopy] keeps the
    request field by field. *)
Definition reserve (s : Ledger) (now : string) (rq : ExerciseReservationRequest) :
    result LedgerError (ExerciseReservationOutcome * Ledger) :=
  if negb (isWellFormedExerciseReservationRequest rq) then Throw LedgerTypeError
  else if negb (isExerciseReservationInstant now) then Throw LedgerTypeError
  else match lookup_reservation s (reservationId rq) with
  | Some existing =>
      Ok (if exerciseReservationsDescribeSameAttempt (request existing) rq then AlreadyReserved existing else ReserveConflict, s)
  | None =>
      if existsb (λ other, str_eqb (executionId (request other)) (executionId rq)) (reservations s) then Ok (ReserveConflict, s)
      else match assessExerciseReservationAdmission rq now (activeUsageFor s) with
      | Throw _ => Throw LedgerRangeError
      | Ok (OutsideLimits codes buckets) => Ok (ReserveRefused codes buckets, s)
      | Ok WithinLimits =>
          let record := {| request := rq; reservedAt := now |} in
          Ok (Reserved record,
            {| reservations := reservations s ++ [record]; terminals := terminals s; resolutions := resolutions s |})
      end
  end.

Definition terminal (s : Ledger) (kind : ExerciseReservationTerminalKind) (i : TerminalInput) :
    result LedgerError (ExerciseReservationTerminalOutcome * Ledger) :=
  if negb (exerciseReservationTerminalReasonMatches kind (ti_reason i)) || negb (is_some (date_parse (ti_recordedAt i)))
  then Throw LedgerTypeError
  else if negb (is_some (lookup_reservation s (ti_reservationId i))) then Ok (TerminalNotFound, s)
  else match terminals s !! ti_reservationId i with
  | Some existing =>
      Ok (if bool_decide (te_kind existing = kind) && str_eqb (te_reason existing) (ti_reason i)
          then TerminalAlready existing else TerminalConflict existing, s)
  | None =>
      let event := {| te_reservationId := ti_reservationId i; te_kind := kind; te_reason := ti_reason i; te_recordedAt := ti_recordedAt i |} in
      Ok (TerminalRecorded event,
        {| reservations := reservations s; terminals := <[ti_reservationId i := event]> (terminals s); resolutions := resolutions s |})
  end.

Definition settle (s : Ledger) (i : TerminalInput) := terminal s settled i.
Definition release (s : Ledger) (i : TerminalInput) := terminal s released i.

Definition read_ledger (s : Ledger) (id : string) : option ExerciseReservationView :=
  (λ r, {| v_reservation := r;
     v_state := match terminals s !! id with
                | None => st_reserved
                | Some e => match te_kind e with settled => st_settled | released => st_released end
                end;
     v_terminal := terminals s !! id;
     v_resolution := resolutions s !! id |}) <$> lookup_reservation s id.

Definition reconcileResolution (s : Ledger) (i : ExerciseReservationResolutionInput) :
    result LedgerError (ExerciseReservationResolutionOutcome * Ledger) :=
  let e := ri_event i in
  if negb (isWellFormedExerciseReservationResolutionInput i) then Throw LedgerTypeError
  else match lookup_reservation s (re_reservationId e) with
  | None => Ok (ResolutionNotFound, s)
  | Some r =>
      if negb (str_eqb (executionId (request r)) (re_executionId e)) then Ok (ResolutionNotFound, s)
      else match resolutions s !! re_reservationId e with
      | Some existing =>
          Ok (if exerciseReservationResolutionMatches existing i then ResolutionAlready existing else ResolutionConflict existing, s)
      | None =>
          if negb (exerciseReservationResolutionConsistent (terminals s !! re_reservationId e) (re_resolution e) (ri_basis i))
          then Ok (ResolutionInconsistent, s)
          else Ok (ResolutionApplied e,
            {| reservations := reservations s; terminals := terminals s;
               resolutions := <[re_reservationId e := e]> (resolutions s) |})
      end
  end.

(** ** Histories *)

Inductive ledger_step (s : Ledger) : Ledger → Prop :=
  | do_reserve now rq o s' : reserve s now rq = Ok (o, s') → ledger_step s s'
  | do_terminal kind i o s' : terminal s kind i = Ok (o, s') → ledger_step s s'
  | do_reconcile i o s' : reconcileResolution s i = Ok (o, s') → ledger_step s s'.

Definition ledger_history : Ledger → Ledger → Prop := rtc ledger_step.
Definition reachable (s : Ledger) : Prop := ledger_history empty_ledger s.

(** ** The invariant of reachable ledgers *)

Record ledger_ok (s : Ledger) : Prop := {
  ids_unique : NoDup (record_id <$> reservations s);
  executions_unique : NoDup ((λ r, executionId (request r)) <$> reservations s);
  requests_ok : Forall (λ r, isWellFormedExerciseReservation r = true) (reservations s);
  terminals_ok : ∀ id e, terminals s !! id = Some e →
    te_reservationId e = id ∧ exerciseReservationTerminalReasonMatches (te_kind e) (te_reason e) = true ∧
    is_Some (lookup_reservation s id);
  resolutions_ok : ∀ id e, resolutions s !! id = Some e → re_reservationId e = id ∧ is_Some (lookup_reservation s id);
}.

Lemma lookup_reservation_Some s id r :
  NoDup (record_id <$> reservations s) → lookup_reservation s id = Some r ↔ r ∈ reservations s ∧ record_id r = id.
Proof. intros Hn. unfold lookup_reservation. by apply find_key. Qed.

Lemma lookup_reservation_None s id : lookup_reservation s id = None ↔ id ∉ record_id <$> reservations s.
Proof. unfold lookup_reservation. apply find_key_None. Qed.

Lemma find_app {A} (p : A → bool) l k :
  List.find p (l ++ k) = match List.find p l with Some x => Some x | None => List.find p k end.
Proof. induction l as [|x l IH]; cbn; [done|]. by destruct (p x). Qed.

Lemma lookup_reservation_app s r ts rs id :
  lookup_reservation {| reservations := reservations s ++ [r]; terminals := ts; resolutions := rs |} id =
  match lookup_reservation s id with
  | Some x => Some x
  | None => if str_eqb (record_id r) id then Some r else None
  end.
Proof. unfold lookup_reservation. cbn. rewrite find_app. destruct (List.find _ (reservations s)); [done|]. cbn. by destruct (str_eqb _ _). Qed.

Lemma reserve_cases s now rq o s' :
  reserve s now rq = Ok (o, s') →
  (s' = s ∧ ∀ r, o ≠ Reserved r) ∨
  (∃ r, r = {| request := rq; reservedAt := now |} ∧ o = Reserved r ∧
    isWellFormedExerciseReservation r = true ∧ lookup_reservation s (reservationId rq) = None ∧
    (∀ other, other ∈ reservations s → executionId (request other) ≠ executionId rq) ∧
    assessExerciseReservationAdmission rq now (activeUsageFor s) = Ok WithinLimits ∧
    s' = {| reservations := reservations s ++ [r]; terminals := terminals s; resolutions := resolutions s |}).
Proof.
  unfold reserve. destruct (isWellFormedExerciseReservationRequest rq) eqn:Hw; cbn [negb]; [|done].
  destruct (isExerciseReservationInstant now) eqn:Hn; cbn [negb]; [|done].
  destruct (lookup_reservation s (reservationId rq)) eqn:Hl.
  { intros [= <- <-]. left. split; [done|]. intros r. by destruct (exerciseReservationsDescribeSameAttempt _ _). }
  destruct (existsb _ _) eqn:Hx; [intros [= <- <-]; by left|].
  destruct (assessExerciseReservationAdmission rq now (activeUsageFor s)) as [[|codes bs]|] eqn:Ha; [|intros [= <- <-]; by left|done].
  intros [= <- <-]. right. eexists. do 2 (split; [done|]). split; [unfold isWellFormedExerciseReservation; cbn; by rewrite Hn, Hw|].
  do 2 (split; [try done|]); [|done]. intros other Hin E.
  assert (existsb (λ o, str_eqb (executionId (request o)) (executionId rq)) (reservations s) = true); [|congruence].
  apply existsb_exists. exists other. split; [by apply list_elem_of_In|by apply str_eqb_eq].
Qed.

Lemma terminal_cases s kind i o s' :
  terminal s kind i = Ok (o, s') →
  (s' = s ∧ ∀ e, o ≠ TerminalRecorded e) ∨
  (∃ e, e = {| te_reservationId := ti_reservationId i; te_kind := kind; te_reason := ti_reason i; te_recordedAt := ti_recordedAt i |} ∧
    o = TerminalRecorded e ∧ exerciseReservationTerminalReasonMatches kind (ti_reason i) = true ∧
    is_Some (lookup_reservation s (ti_reservationId i)) ∧ terminals s !! ti_reservationId i = None ∧
    s' = {| reservations := reservations s; terminals := <[ti_reservationId i := e]> (terminals s); resolutions := resolutions s |}).
Proof.
  unfold terminal. destruct (exerciseReservationTerminalReasonMatches kind (ti_reason i)) eqn:Hr; cbn [negb orb]; [|done].
  destruct (is_some (date_parse (ti_recordedAt i))) eqn:Hd; cbn [negb]; [|done].
  destruct (lookup_reservation s (ti_reservationId i)) eqn:Hl; cbn [is_some negb]; [|intros [= <- <-]; by left].
  destruct (terminals s !! ti_reservationId i) eqn:Ht.
  { intros [= <- <-]. left. split; [done|]. intros e'. by destruct (_ && _)%bool. }
  intros [= <- <-]. right. eexists. repeat split; done.
Qed.

Lemma reconcile_cases s i o s' :
  reconcileResolution s i = Ok (o, s') →
  s' = s ∨
  (o = ResolutionApplied (ri_event i) ∧ is_Some (lookup_reservation s (re_reservationId (ri_event i))) ∧
    resolutions s !! re_reservationId (ri_event i) = None ∧
    exerciseReservationResolutionConsistent (terminals s !! re_reservationId (ri_event i)) (re_resolution (ri_event i)) (ri_basis i) = true ∧
    s' = {| reservations := reservations s; terminals := terminals s;
            resolutions := <[re_reservationId (ri_event i) := ri_event i]> (resolutions s) |}).
Proof.
  unfold reconcileResolution. destruct (isWellFormedExerciseReservationResolutionInput i); cbn [negb]; [|done].
  destruct (lookup_reservation s _) eqn:Hl; [|intros [= <- <-]; by left].
  destruct (str_eqb _ _); cbn [negb]; [|intros [= <- <-]; by left].
  destruct (resolutions s !! _) eqn:Hr; [intros [= <- <-]; by left|].
  destruct (exerciseReservationResolutionConsistent _ _ _) eqn:Hc; cbn [negb]; [|intros [= <- <-]; by left].
  intros [= <- <-]. right. repeat split; done.
Qed.

Lemma ledger_step_ok s s' : ledger_step s s' → ledger_ok s → ledger_ok s'.
Proof.
  intros [now rq o s1 E|kind i o s1 E|i o s1 E] Hok.
  - apply reserve_cases in E as [[-> _]|(r&Er&_&Hw&Hl&Hx&_&->)]; [done|]. destruct Hok.
    assert (record_id r = reservationId rq) as Eid by (by subst r).
    apply lookup_reservation_None in Hl. constructor; cbn [reservations terminals resolutions].
    + rewrite fmap_app. apply NoDup_app. split; [done|]. split; [|apply NoDup_singleton].
      intros x Hin ->%list_elem_of_singleton. by rewrite Eid in Hin.
    + rewrite fmap_app. apply NoDup_app. split; [done|]. split; [|apply NoDup_singleton].
      intros x (other&->&Hin)%list_elem_of_fmap Hs%list_elem_of_singleton. subst r. by apply (Hx other).
    + apply Forall_app. split; [done|]. by constructor.
    + intros id e He. rewrite lookup_reservation_app. destruct (terminals_ok0 id e He) as (?&?&[x Hx']). by rewrite Hx'.
    + intros id e He. rewrite lookup_reservation_app. destruct (resolutions_ok0 id e He) as (?&[x Hx']). by rewrite Hx'.
  - apply terminal_cases in E as [[-> _]|(e&Ee&_&Hr&Hl&_&->)]; [done|]. destruct Hok. constructor; try done.
    cbn [terminals]. intros id e' [[<- <-]|[_ ?]]%lookup_insert_Some; [by subst e|].
    by apply terminals_ok0.
  - apply reconcile_cases in E as [->|(_&Hl&_&_&->)]; [done|]. destruct Hok. constructor; try done.
    cbn [resolutions]. intros id e' [[<- <-]|[_ ?]]%lookup_insert_Some; [done|]. by apply resolutions_ok0.
Qed.

Lemma empty_ledger_ok : ledger_ok empty_ledger.
Proof.
  constructor; cbn [reservations terminals resolutions empty_ledger];
    [apply NoDup_nil_2|apply NoDup_nil_2|apply Forall_nil_2|intros ??; by rewrite lookup_empty|intros ??; by rewrite lookup_empty].
Qed.

Lemma ledger_history_ok s s' : ledger_history s s' → ledger_ok s → ledger_ok s'.
Proof. induction 1 as [|x y z Hxy _ IH]; [done|]. eauto using ledger_step_ok. Qed.

(** One identity is one attempt: in every reachable ledger no two
    reservations share a reservation id or an execution id, whichever grants
    they name; every reservation is well formed, with the id its grant and
    execution derive; and terminal events and resolutions stand only for
    existing reservations, with reasons their kind admits. *)
Theorem reachable_ledger_ok (s : Ledger) : reachable s → ledger_ok s.
Proof. intros Hr. exact (ledger_history_ok _ _ Hr empty_ledger_ok). Qed.

(** Reservations, terminal events and resolutions are append-only: along any
    history every recorded reservation stays as admitted, and the first
    terminal event and the first resolution of a reservation are never changed
    or removed. *)
Theorem ledger_append_only (s s' : Ledger) (id : string) :
  ledger_history s s' →
  (∀ r, lookup_reservation s id = Some r → lookup_reservation s' id = Some r) ∧
  (∀ e, terminals s !! id = Some e → terminals s' !! id = Some e) ∧
  (∀ e, resolutions s !! id = Some e → resolutions s' !! id = Some e).
Proof.
  induction 1 as [|x y z Hxy _ IH]; [done|]. destruct IH as (I1&I2&I3).
  cut ((∀ r, lookup_reservation x id = Some r → lookup_reservation y id = Some r) ∧
    (∀ e, terminals x !! id = Some e → terminals y !! id = Some e) ∧
    (∀ e, resolutions x !! id = Some e → resolutions y !! id = Some e)); [naive_solver|]. clear I1 I2 I3.
  destruct Hxy as [now rq o s1 E|kind i o s1 E|i o s1 E].
  - apply reserve_cases in E as [[-> _]|(r&_&_&_&_&_&_&->)]; [done|]. split; [|done].
    intros r' Hr'. by rewrite lookup_reservation_app, Hr'.
  - apply terminal_cases in E as [[-> _]|(e&_&_&_&_&Hn&->)]; [done|]. split; [done|]. split; [|done].
    intros e' He'. cbn. rewrite lookup_insert_ne; [done|]. congruence.
  - apply reconcile_cases in E as [->|(_&_&Hn&_&->)]; [done|]. split; [done|]. split; [done|].
    intros e' He'. cbn. rewrite lookup_insert_ne; [done|]. congruence.
Qed.

(** ** Capacity *)

(** The load of the bucket of a limit: what its consuming reservations use. *)
Definition load (s : Ledger) (l : ExerciseControlLimit) : list ExerciseControlActiveUsage :=
  activeUsageFor s {| limit := l; usage := "" |}.

(** What these reservations use respects the limit's maximum. *)
Definition entries_within (l : ExerciseControlLimit) (entries : list ExerciseControlActiveUsage) : Prop :=
  match metric l with
  | m_count n => Z.of_nat (length entries) ≤ n
  | m_amount m u => forallb (usage_matches u) entries = true ∧ (sum_values entries <= dec_value m)%Q
  end.
Definition within_capacity (s : Ledger) (l : ExerciseControlLimit) : Prop := entries_within l (load s l).

(** Every reservation that names the bucket was admitted under this limit: the
    host has not changed the bucket's policy. *)
Definition uniform (s : Ledger) (l : ExerciseControlLimit) : Prop :=
  ∀ r rule, r ∈ reservations s → recorded_rule (exerciseControlBucketKey l) r = Some rule → limit rule = l.

(** A history in which a reservation is reconciled only after its execution
    reached a terminal event. *)
Inductive settled_step (s : Ledger) : Ledger → Prop :=
  | q_reserve now rq o s' : reserve s now rq = Ok (o, s') → settled_step s s'
  | q_terminal kind i o s' : terminal s kind i = Ok (o, s') → settled_step s s'
  | q_reconcile i o s' :
      is_Some (terminals s !! re_reservationId (ri_event i)) → reconcileResolution s i = Ok (o, s') → settled_step s s'.

Definition resolved_after_terminal (s : Ledger) : Prop :=
  ∀ id e, resolutions s !! id = Some e → is_Some (terminals s !! id).

Lemma settled_step_ledger_step s s' : settled_step s s' → ledger_step s s'.
Proof. destruct 1; [by eapply do_reserve|by eapply do_terminal|by eapply do_reconcile]. Qed.

Lemma settled_step_resolved s s' : settled_step s s' → resolved_after_terminal s → resolved_after_terminal s'.
Proof.
  intros [now rq o s1 E|kind i o s1 E|i o s1 Ht E] Hr id e.
  - apply reserve_cases in E as [[-> _]|(r&_&_&_&_&_&_&->)]; apply Hr.
  - apply terminal_cases in E as [[-> _]|(t&_&_&_&_&_&->)]; [apply Hr|]. cbn [terminals resolutions].
    intros He%Hr. by apply lookup_insert_is_Some'; right.
  - apply reconcile_cases in E as [->|(_&_&_&_&->)]; [apply Hr|]. cbn [terminals resolutions].
    intros [[<- <-]|[_ He]]%lookup_insert_Some; [done|by eapply Hr].
Qed.

(** *** Recording a terminal event or a later resolution never adds load *)

Lemma consumes_shrinks s s' r :
  settled_step s s' → resolved_after_terminal s → r ∈ reservations s → consumes s' r = true → consumes s r = true.
Proof.
  intros [now rq o s1 E|kind i o s1 E|i o s1 Ht E] Hr Hin; unfold consumes.
  - apply reserve_cases in E as [[-> _]|(x&_&_&_&_&_&_&->)]; done.
  - apply terminal_cases in E as [[-> _]|(t&_&_&_&_&Hn&->)]; [done|]. cbn [terminals resolutions].
    destruct (decide (ti_reservationId i = record_id r)) as [Eid|]; [|by rewrite lookup_insert_ne].
    rewrite Eid in *. destruct (resolutions s !! record_id r) as [e|] eqn:Hre.
    + destruct (Hr _ _ Hre) as [t' Ht']. congruence.
    + intros _. by rewrite Hn.
  - apply reconcile_cases in E as [->|(_&_&Hn&Hc&->)]; [done|]. cbn [terminals resolutions].
    destruct (decide (re_reservationId (ri_event i) = record_id r)) as [Eid|]; [|by rewrite lookup_insert_ne].
    rewrite Eid in *. rewrite lookup_insert_eq, Hn. destruct Ht as [t Ht]. rewrite Ht in Hc |- *.
    unfold exerciseReservationConsumes, exerciseReservationResolutionConsistent in *.
    destruct (te_kind t); [done|]. cbn in Hc |- *.
    destruct (ri_basis i); [done|]. cbn in Hc. by destruct (re_resolution (ri_event i)).
Qed.

Lemma omap_sublist {A B} (f g : A → option B) l :
  (∀ x, x ∈ l → f x = None ∨ f x = g x) → sublist (omap f l) (omap g l).
Proof.
  induction l as [|x l IH]; intros Hx; [constructor|].
  assert (sublist (omap f l) (omap g l)) as Hs by (apply IH; intros y Hy; apply Hx; by right).
  change (sublist (match f x with Some y => y :: omap f l | None => omap f l end)
    (match g x with Some y => y :: omap g l | None => omap g l end)).
  destruct (Hx x ltac:(left)) as [->| ->]; destruct (g x); try done; by constructor.
Qed.

Lemma load_shrinks s s' l :
  settled_step s s' → reservations s' = reservations s → resolved_after_terminal s → sublist (load s' l) (load s l).
Proof.
  intros Hst Er Hr. unfold load, activeUsageFor. rewrite Er. apply omap_sublist. intros r Hin.
  destruct (consumes s' r) eqn:Hc; [|by left]. right. by rewrite (consumes_shrinks s s' r Hst Hr Hin Hc).
Qed.

Lemma sum_values_sublist u k l :
  sublist k l → forallb (usage_matches u) l = true →
  forallb (usage_matches u) k = true ∧ (sum_values k <= sum_values l)%Q.
Proof.
  induction 1 as [|x k l Hs IH|x k l Hs IH]; cbn [forallb sum_values].
  - intros _. split; [done|]. apply Qle_refl.
  - intros [Hx Hl]%andb_true_iff. destruct (IH Hl) as [-> Hle]. rewrite Hx. split; [done|]. by apply Qplus_le_compat; [apply Qle_refl|].
  - intros [Hx Hl]%andb_true_iff. destruct (IH Hl) as [-> Hle]. split; [done|].
    unfold usage_matches in Hx. split_and_bool.
    pose proof (dec_value_nonneg _ (isCanonicalDecimal_grammar _ _ ltac:(done))) as Hp.
    rewrite <-(Qplus_0_l (sum_values k)). by apply Qplus_le_compat.
Qed.

Lemma entries_shrink l k k' : sublist k' k → entries_within l k → entries_within l k'.
Proof.
  intros Hs. unfold entries_within. destruct (metric l) as [n|m u].
  - apply sublist_length in Hs. lia.
  - intros [Hf Hle]. destruct (sum_values_sublist u _ _ Hs Hf) as [? ?]. split; [done|]. by eapply Qle_trans.
Qed.

(** *** An admitted reservation fits *)

Lemma sum_usage_Some u total l r :
  sum_usage u total l = Ok (Some r) →
  forallb (usage_matches u) l = true ∧ (dec_value r == dec_value total + sum_values l)%Q.
Proof.
  revert total. induction l as [|e l IH]; intros total E; cbn [sum_usage forallb sum_values] in *.
  - injection E as ->. split; [done|]. by rewrite Qplus_0_r.
  - destruct (usage_matches u e) eqn:He; cbn [negb andb] in *; [|done].
    apply result_bind_Ok in E as (t&Ht&E). apply IH in E as [-> Hv]. split; [done|].
    pose proof (addCanonicalDecimals_spec total (au_usage e)) as Ha. rewrite Ht in Ha. destruct Ha as (_&_&_&Hs).
    by rewrite Hv, Hs, Qplus_assoc.
Qed.

Lemma verdict_within_fits r active atMs :
  exerciseControlRuleVerdict r active atMs = Ok within → fits r (windowed (window (limit r)) active atMs).
Proof.
  unfold exerciseControlRuleVerdict, fits. destruct (metric (limit r)) as [n|m u].
  - destruct (Z.leb_spec (Z.of_nat (length (windowed (window (limit r)) active atMs)) + 1) n); [lia|done].
  - intros E. apply result_bind_Ok in E as ([t|]&Ht&E); [|done]. apply sum_usage_Some in Ht as [? Hv]. split; [done|].
    apply result_bind_Ok in E as (o&Ho&E). rewrite compareCanonicalDecimals_eq in Ho. break_if; [|done].
    injection Ho as <-. rewrite <-Hv. apply Qle_alt. by destruct (Qcompare _ _).
Qed.

Lemma admitted_verdicts rq now f :
  assessExerciseReservationAdmission rq now f = Ok WithinLimits →
  Forall (λ r, exerciseControlRuleVerdict r (f r) (date_parse now) = Ok within) (rules rq).
Proof.
  unfold assessExerciseReservationAdmission. intros E. apply result_bind_Ok in E as (vs&Hv&E).
  assert (has_verdict unit_mismatch vs = false ∧ has_verdict exceeded vs = false) as [Hm He].
  { destruct (has_verdict unit_mismatch vs), (has_verdict exceeded vs); done. }
  clear E. revert vs Hv Hm He. induction (rules rq) as [|r rs IH]; intros vs Hv Hm He; [constructor|].
  cbn in Hv. apply result_bind_Ok in Hv as (v&Hr&Hv). apply result_bind_Ok in Hv as (rest&Hrest&[= <-]).
  unfold has_verdict in Hm, He. cbn in Hm, He. apply orb_false_iff in Hm as [Hm1 Hm2], He as [He1 He2].
  constructor; [|by eapply IH]. by destruct v.
Qed.

Lemma load_reserved s r l :
  ledger_ok s → lookup_reservation s (record_id r) = None →
  load {| reservations := reservations s ++ [r]; terminals := terminals s; resolutions := resolutions s |} l =
  load s l ++ match recorded_rule (exerciseControlBucketKey l) r with Some rule => [usage_entry r rule] | None => [] end.
Proof.
  intros Hok Hn. unfold load, activeUsageFor. cbn [reservations limit]. rewrite omap_app. f_equal. cbn.
  assert (terminals s !! record_id r = None) as Ht.
  { destruct (terminals s !! record_id r) eqn:E; [|done]. destruct (terminals_ok _ Hok _ _ E) as (_&_&[? ?]). congruence. }
  assert (resolutions s !! record_id r = None) as Hr.
  { destruct (resolutions s !! record_id r) eqn:E; [|done]. destruct (resolutions_ok _ Hok _ _ E) as (_&[? ?]). congruence. }
  unfold consumes. cbn [terminals resolutions]. rewrite Ht, Hr. cbn. by destruct (recorded_rule _ r).
Qed.

Lemma recorded_rule_in bucket r rule :
  recorded_rule bucket r = Some rule → rule ∈ rules (request r) ∧ exerciseControlBucketKey (limit rule) = bucket.
Proof.
  unfold recorded_rule. intros E. apply List.find_some in E as [Hin E]. apply list_elem_of_In in Hin. by split_and_bool.
Qed.

Lemma sum_values_app l k : (sum_values (l ++ k) == sum_values l + sum_values k)%Q.
Proof. induction l as [|e l IH]; cbn; [by rewrite Qplus_0_l|]. by rewrite IH, Qplus_assoc. Qed.

Lemma request_rule_usage_ok rq rule :
  isWellFormedExerciseReservationRequest rq = true → rule ∈ rules rq → isWellFormedExerciseRuleUsage rule = true.
Proof.
  unfold isWellFormedExerciseReservationRequest. intros Hw Hin. split_and_bool.
  destruct (snapshotExerciseControlLimits _) as [[ls|]|]; try done. split_and_bool.
  rewrite forallb_forall in *. match goal with Hf : ∀ x, In x (rules rq) → _ |- _ => by apply Hf, list_elem_of_In end.
Qed.

(** The load after an admission fits every limit the admitted reservation names. *)
Lemma reserve_fits s now rq r l rule :
  ledger_ok s → lookup_reservation s (reservationId rq) = None → r = {| request := rq; reservedAt := now |} →
  isWellFormedExerciseReservation r = true → assessExerciseReservationAdmission rq now (activeUsageFor s) = Ok WithinLimits →
  window l = lifetime → recorded_rule (exerciseControlBucketKey l) r = Some rule → limit rule = l →
  within_capacity {| reservations := reservations s ++ [r]; terminals := terminals s; resolutions := resolutions s |} l.
Proof.
  intros Hok Hl Er Hw Ha Hlife Hrec Hu. unfold within_capacity, entries_within.
  rewrite load_reserved by (by subst r). rewrite Hrec. apply recorded_rule_in in Hrec as [Hin Hb].
  assert (rule ∈ rules rq) as Hin' by (by subst r).
  pose proof (admitted_verdicts _ _ _ Ha) as Hv. rewrite Forall_forall in Hv. specialize (Hv rule Hin').
  apply verdict_within_fits in Hv. rewrite Hu, Hlife in Hv. cbn [windowed] in Hv.
  assert (activeUsageFor s rule = load s l) as El by (unfold load, activeUsageFor; cbn [limit]; by rewrite Hu).
  rewrite El in Hv. unfold fits in Hv. rewrite Hu in Hv.
  unfold isWellFormedExerciseReservation in Hw. apply andb_true_iff in Hw as [_ Hw]. rewrite Er in Hw. cbn [request] in Hw.
  pose proof (request_rule_usage_ok rq rule Hw Hin') as Husage. unfold isWellFormedExerciseRuleUsage in Husage. rewrite Hu in Husage.
  destruct (metric l) as [n|m u] eqn:Em.
  - rewrite length_app. cbn [length]. lia.
  - destruct Hv as [Hf Hle]. rewrite forallb_app, Hf, sum_values_app. cbn [forallb sum_values andb]. split.
    + unfold usage_matches, usage_entry. cbn. rewrite Hu, Em, Husage. by rewrite bool_decide_true.
    + rewrite Qplus_0_r. cbn [usage_entry au_usage]. by rewrite Qplus_comm.
Qed.

(** A step either keeps the reservation list or appends one admitted record. *)
Lemma reservations_step x y :
  ledger_step x y →
  reservations y = reservations x ∨
  ∃ now rq r, r = {| request := rq; reservedAt := now |} ∧ lookup_reservation x (reservationId rq) = None ∧
    isWellFormedExerciseReservation r = true ∧
    assessExerciseReservationAdmission rq now (activeUsageFor x) = Ok WithinLimits ∧
    y = {| reservations := reservations x ++ [r]; terminals := terminals x; resolutions := resolutions x |}.
Proof.
  intros [now rq o s1 E|kind i o s1 E|i o s1 E].
  - apply reserve_cases in E as [[-> _]|(r&?&_&?&?&_&?&->)]; [by left|right]. eauto 10.
  - apply terminal_cases in E as [[-> _]|(t&_&_&_&_&_&->)]; by left.
  - apply reconcile_cases in E as [->|(_&_&_&_&->)]; by left.
Qed.

Lemma settled_reachable s : rtc settled_step empty_ledger s → ledger_ok s ∧ resolved_after_terminal s.
Proof.
  revert s. apply (rtc_ind_r (R := settled_step) (λ s, ledger_ok s ∧ resolved_after_terminal s) empty_ledger).
  - split; [apply empty_ledger_ok|]. intros id e. cbn. by rewrite lookup_empty.
  - intros x y _ Hxy [Hok Hres]. split; [by eapply ledger_step_ok; [apply settled_step_ledger_step|]|by eapply settled_step_resolved].
Qed.

Lemma empty_within_capacity l : limit_ok l → within_capacity empty_ledger l.
Proof.
  intros (_&_&Hm&_). unfold within_capacity, entries_within. change (load empty_ledger l) with (@nil ExerciseControlActiveUsage).
  destruct (metric l) as [n|m u]; [cbn; lia|]. split; [done|].
  destruct Hm as [Hm _]. apply dec_value_nonneg. by eapply isCanonicalDecimal_grammar.
Qed.

Lemma settled_capacity s l :
  rtc settled_step empty_ledger s → limit_ok l → window l = lifetime → uniform s l → within_capacity s l.
Proof.
  intros Hr Hl Hlife. revert s Hr.
  apply (rtc_ind_r (R := settled_step) (λ s, uniform s l → within_capacity s l) empty_ledger);
    [intros _; by apply empty_within_capacity|]. intros x y Hx Hxy IH Hu.
  apply settled_reachable in Hx as [Hok Hres].
  destruct (reservations_step x y (settled_step_ledger_step _ _ Hxy)) as [Er|(now&rq&r&Er&Hn&Hw&Ha&->)].
  - eapply entries_shrink; [by apply load_shrinks|]. apply IH. unfold uniform in *. by rewrite Er in Hu.
  - destruct (recorded_rule (exerciseControlBucketKey l) r) as [rule|] eqn:Hrule.
    + eapply reserve_fits; try done. apply (Hu r rule); [|done]. cbn. apply elem_of_app. right. by left.
    + unfold within_capacity. rewrite load_reserved, Hrule, app_nil_r by (by subst r). apply IH. intros r' rule Hin. apply (Hu r' rule). cbn. apply elem_of_app. by left.
Qed.

(** *** In any history

    A reservation that a resolution declared not completed while its execution
    was in flight gives its capacity back, and takes it again when the execution
    settles as executed after all. The other reservations keep within the limit,
    whenever anything is reconciled. *)

Definition denied (s : Ledger) (id : string) : bool :=
  match resolutions s !! id with Some e => bool_decide (re_resolution e = confirmed_not_completed) | None => false end.
Definition kept (s : Ledger) (r : ExerciseReservationRecord) : bool := consumes s r && negb (denied s (record_id r)).
Definition kept_load (s : Ledger) (l : ExerciseControlLimit) : list ExerciseControlActiveUsage :=
  omap (λ r, if kept s r then usage_entry r <$> recorded_rule (exerciseControlBucketKey l) r else None) (reservations s).

Lemma kept_load_sublist s l : sublist (kept_load s l) (load s l).
Proof.
  unfold kept_load, load, activeUsageFor. cbn [limit]. apply omap_sublist. intros r _. unfold kept. destruct (consumes s r); cbn [andb]; [|by left].
  destruct (negb (denied s (record_id r))); [by right|by left].
Qed.

Lemma kept_shrinks s s' r : ledger_step s s' → reservations s' = reservations s → kept s' r = true → kept s r = true.
Proof.
  intros [now rq o s1 E|kind i o s1 E|i o s1 E] Er; unfold kept, denied, consumes.
  - apply reserve_cases in E as [[-> _]|(x&_&_&_&_&_&_&->)]; done.
  - apply terminal_cases in E as [[-> _]|(t&_&_&_&_&Hn&->)]; [done|]. cbn [terminals resolutions].
    destruct (decide (ti_reservationId i = record_id r)) as [Eid|]; [|by rewrite lookup_insert_ne].
    rewrite Eid in *. rewrite Hn. destruct (resolutions s !! record_id r) as [e|]; [|done]. unfold exerciseReservationConsumes. by destruct (re_resolution e); [|rewrite andb_false_r].
  - apply reconcile_cases in E as [->|(_&_&Hn&Hc&->)]; [done|]. cbn [terminals resolutions].
    destruct (decide (re_reservationId (ri_event i) = record_id r)) as [Eid|]; [|by rewrite lookup_insert_ne].
    rewrite Eid in *. rewrite lookup_insert_eq, Hn. destruct (re_resolution (ri_event i)); [|by rewrite andb_false_r].
    intros _. unfold exerciseReservationConsumes, exerciseReservationResolutionConsistent in *. destruct (terminals s !! record_id r) as [t|]; [|done].
    destruct (te_kind t); [done|]. cbn in Hc. by destruct (ri_basis i).
Qed.

Lemma kept_load_shrinks s s' l : ledger_step s s' → reservations s' = reservations s → sublist (kept_load s' l) (kept_load s l).
Proof.
  intros Hst Er. unfold kept_load. rewrite Er. apply omap_sublist. intros r _.
  destruct (kept s' r) eqn:Hc; [|by left]. right. by rewrite (kept_shrinks s s' r Hst Er Hc).
Qed.

Lemma kept_load_reserved s r l :
  ledger_ok s → lookup_reservation s (record_id r) = None → recorded_rule (exerciseControlBucketKey l) r = None →
  kept_load {| reservations := reservations s ++ [r]; terminals := terminals s; resolutions := resolutions s |} l = kept_load s l.
Proof.
  intros Hok Hn Hr. unfold kept_load. cbn [reservations]. rewrite omap_app. cbn. rewrite Hr. destruct (kept _ r); cbn; apply app_nil_r.
Qed.

Lemma kept_capacity s l : reachable s → limit_ok l → window l = lifetime → uniform s l → entries_within l (kept_load s l).
Proof.
  intros Hr Hl Hlife. revert s Hr.
  apply (rtc_ind_r (R := ledger_step) (λ s, uniform s l → entries_within l (kept_load s l)) empty_ledger).
  { intros _. eapply entries_shrink; [apply kept_load_sublist|]. by apply empty_within_capacity. }
  intros x y Hx Hxy IH Hu. assert (ledger_ok x) as Hok by (by apply (ledger_history_ok _ _ Hx), empty_ledger_ok).
  destruct (reservations_step x y Hxy) as [Er|(now&rq&r&Er&Hn&Hw&Ha&->)].
  - eapply entries_shrink; [by apply kept_load_shrinks|]. apply IH. unfold uniform in *. by rewrite Er in Hu.
  - destruct (recorded_rule (exerciseControlBucketKey l) r) as [rule|] eqn:Hrule.
    + eapply entries_shrink; [apply kept_load_sublist|]. eapply reserve_fits; try done. apply (Hu r rule); [|done]. cbn. apply elem_of_app. right. by left.
    + rewrite kept_load_reserved by (done || by subst r). apply IH. intros r' rule Hin. apply (Hu r' rule). cbn. apply elem_of_app. by left.
Qed.

(** Reconciled only once finished, a resolution agrees with the terminal event. *)
Definition resolutions_agree (s : Ledger) : Prop := ∀ id e, resolutions s !! id = Some e →
  ∃ t, terminals s !! id = Some t ∧ exerciseReservationResolutionConsistent (Some t) (re_resolution e) no_initial_observation = true.
Lemma settled_step_agree s s' : settled_step s s' → resolutions_agree s → resolutions_agree s'.
Proof.
  intros [now rq o s1 E|kind i o s1 E|i o s1 Ht E] Hr id e.
  - apply reserve_cases in E as [[-> _]|(r&_&_&_&_&_&_&->)]; apply Hr.
  - apply terminal_cases in E as [[-> _]|(t&_&_&_&_&Hn&->)]; [apply Hr|]. cbn [terminals resolutions].
    intros (t'&Ht'&Hc)%Hr. exists t'. split; [|done]. rewrite lookup_insert_ne; [done|]. congruence.
  - apply reconcile_cases in E as [->|(_&_&_&Hc&->)]; [apply Hr|]. cbn [terminals resolutions].
    intros [[<- <-]|[_ He]]%lookup_insert_Some; [|by eapply Hr]. destruct Ht as [t Ht]. rewrite Ht in *. exists t. split; [done|].
    unfold exerciseReservationResolutionConsistent in *. destruct (te_kind t); destruct (ri_basis i); try done; cbn in *; by destruct (str_eqb _ _).
Qed.

(** Aggregate capacity is never exceeded: in every ledger reached by
    reservations, settlements, releases and reconciliations of finished
    executions, in any order, a lifetime limit under which all of its bucket's
    reservations were admitted holds its exact load at or below its maximum. *)
Theorem capacity_never_exceeded (s : Ledger) (l : ExerciseControlLimit) :
  rtc settled_step empty_ledger s → limit_ok l → window l = lifetime → uniform s l → within_capacity s l.
Proof. apply settled_capacity. Qed.

End Ledger.

(** ** Sample histories *)

Definition run {A} (r : result LedgerError (A * Ledger)) (s : Ledger) : Ledger :=
  match r with Ok (_, s') => s' | Throw _ => s end.

Section Runs.
Context `{JsHost}.

Lemma run_reserve s now rq : rtc settled_step s (run (reserve s now rq) s).
Proof. destruct (reserve s now rq) as [[o s']|] eqn:E; [|done]. apply rtc_once. by eapply q_reserve. Qed.
Lemma run_terminal s kind i : rtc settled_step s (run (terminal s kind i) s).
Proof. destruct (terminal s kind i) as [[o s']|] eqn:E; [|done]. apply rtc_once. by eapply q_terminal. Qed.
Lemma run_reconcile s i : ledger_history s (run (reconcileResolution s i) s).
Proof. destruct (reconcileResolution s i) as [[o s']|] eqn:E; [|apply rtc_refl]. apply rtc_once. by eapply do_reconcile. Qed.

Lemma settled_history s s' : rtc settled_step s s' → ledger_history s s'.
Proof. induction 1; [apply rtc_refl|]. eapply rtc_l; [by apply settled_step_ledger_step|done]. Qed.

Lemma uniform_check s l :
  forallb (λ r, match recorded_rule (exerciseControlBucketKey l) r with
                | Some rule => bool_decide (limit rule = l) | None => true end) (reservations s) = true → uniform s l.
Proof.
  rewrite forallb_forall. intros Hf r rule Hin Hr. specialize (Hf r). rewrite <-list_elem_of_In, Hr in Hf.
  specialize (Hf Hin). by apply bool_decide_eq_true in Hf.
Qed.

End Runs.

Definition sample_limit : ExerciseControlLimit := {| limitId := "uses"; scopeKey := "grant-1"; metric := m_count 1; window := lifetime |}.
Definition sample_reservation (execution : string) : ExerciseReservationRequest := {|
  reservationId := @exerciseReservationId demo_host "grant-1" execution;
  executionId := execution; boundedGrantId := "grant-1";
  requestDigest := "sha256:" +:+ @sha256_hex demo_host execution;
  policyDigest := @exerciseControlPolicyDigest demo_host [sample_limit];
  rq_authorityBindingDigest := "sha256:" +:+ @sha256_hex demo_host "binding";
  rules := [{| limit := sample_limit; usage := "1" |}] |}.

Definition ledger_1 : Ledger := run (@reserve demo_host empty_ledger "100" (sample_reservation "exec-a")) empty_ledger.
Definition ledger_2 : Ledger :=
  run (@terminal demo_host ledger_1 settled
    {| ti_reservationId := reservationId (sample_reservation "exec-a"); ti_reason := "executed"; ti_recordedAt := "110" |}) ledger_1.

Lemma sample_ledger_history : rtc (@settled_step demo_host) empty_ledger ledger_1 ∧ rtc (@settled_step demo_host) ledger_1 ledger_2.
Proof. split; [apply run_reserve|apply run_terminal]. Qed.

Lemma sample_limit_ok : limit_ok sample_limit.
Proof. repeat split; vm_compute; reflexivity || discriminate. Qed.

Lemma capacity_never_exceeded_witness :
  length (reservations ledger_2) = 1%nat ∧ @within_capacity demo_host ledger_2 sample_limit.
Proof.
  split; [vm_compute; reflexivity|].
  apply (@capacity_never_exceeded demo_host ledger_2 sample_limit).
  - etrans; apply sample_ledger_history.
  - apply sample_limit_ok.
  - reflexivity.
  - apply uniform_check. vm_compute. reflexivity.
Defined.

Lemma reachable_ledger_ok_witness : length (reservations ledger_2) = 1%nat ∧ @ledger_ok demo_host ledger_2.
Proof.
  split; [vm_compute; reflexivity|]. apply (@reachable_ledger_ok demo_host ledger_2).
  apply settled_history. etrans; apply sample_ledger_history.
Defined.

Lemma ledger_append_only_witness :
  lookup_reservation ledger_2 (reservationId (sample_reservation "exec-a")) =
  Some {| request := sample_reservation "exec-a"; reservedAt := "100" |}.
Proof.
  destruct (@ledger_append_only demo_host ledger_1 ledger_2 (reservationId (sample_reservation "exec-a"))) as [Hr _].
  { apply settled_history, sample_ledger_history. }
  apply Hr. vm_compute. reflexivity.
Defined.

(** ** Reconciling an execution in flight

    The hypothesis of the capacity theorem is needed: a not-completed
    resolution recorded while the execution is still in flight frees the
    capacity, another reservation takes it, and the first one's later
    settlement consumes again. *)

Definition flight_2 : Ledger :=
  run (@reconcileResolution demo_host ledger_1 {|
    ri_event := {| re_reservationId := reservationId (sample_reservation "exec-a"); re_executionId := "exec-a";
      re_resolutionDigest := "sha256:" +:+ @sha256_hex demo_host "resolution"; re_resolution := confirmed_not_completed; re_recordedAt := "120" |};
    ri_basis := no_initial_observation |}) ledger_1.
Definition flight_3 : Ledger := run (@reserve demo_host flight_2 "130" (sample_reservation "exec-b")) flight_2.
Definition flight_4 : Ledger :=
  run (@terminal demo_host flight_3 settled
    {| ti_reservationId := reservationId (sample_reservation "exec-a"); ti_reason := "executed"; ti_recordedAt := "140" |}) flight_3.

(** Reconciling an execution as not completed while it is still in flight
    can take a bucket above its maximum: a reachable ledger holds two consuming
    reservations under a lifetime limit of one. *)
Theorem inflight_reconciliation_exceeds :
  ∃ s l, @reachable demo_host s ∧ limit_ok l ∧ window l = lifetime ∧ uniform s l ∧ ¬ @within_capacity demo_host s l.
Proof.
  exists flight_4, sample_limit. split; [|split; [apply sample_limit_ok|split; [done|split]]].
  - unfold reachable. trans flight_3; [|apply settled_history, run_terminal].
    trans flight_2; [|apply settled_history, run_reserve]. trans ledger_1; [apply settled_history, run_reserve|apply run_reconcile].
  - apply uniform_check. vm_compute. reflexivity.
  - unfold within_capacity, entries_within. cbn [metric sample_limit].
    assert (length (@load demo_host flight_4 sample_limit) = 2%nat) as -> by (vm_compute; reflexivity). lia.
Qed.
