(* ===== verification/ExerciseGate.v ===== *)
(** * The exercise-control gate

    Model of [exercise-control-runtime/services/exercise-control-gate.ts]:
    admission (class, authority binding, policy snapshot, reservation), the
    revalidation after the reservation, and finalization. The ledger is the
    class [ExerciseLedgerPort] with its laws, of which the in-memory ledger is
    an instance. The observer is write-only (its answer is never read and its
    failure is swallowed), so it has no part in the model. A callback that
    throws answers [None]. *)

From S2P Require Import Prelude Decimal Js Monetary Parameters ExerciseControl ExerciseLedger.

Local Open Scope Z_scope.
Local Open Scope frontera_scope.

(** ** The ledger port *)

(** [now] is the answer of the ledger's own clock inside the section. *)
Class ExerciseLedgerPort (S : Type) := {
  port_reserve : S → string → ExerciseReservationRequest → result LedgerError (ExerciseReservationOutcome * S);
  port_terminal : S → ExerciseReservationTerminalKind → TerminalInput → result LedgerError (ExerciseReservationTerminalOutcome * S);
  port_read : S → string → option ExerciseReservationView;
}.

Definition fresh_view (r : ExerciseReservationRecord) : ExerciseReservationView :=
  {| v_reservation := r; v_state := st_reserved; v_terminal := None; v_resolution := None |}.

(** What the port promises: a reservation is recorded as requested, under its
    id, and only if none stood there; one terminal event, immutable; every
    other answer writes nothing. *)
Class ExerciseLedgerLaws (S : Type) `{ExerciseLedgerPort S} (ok : S → Prop) := {
  reserve_law s now rq : ok s →
    match port_reserve s now rq with
    | Throw _ => True
    | Ok (Reserved r, s') => ok s' ∧ request r = rq ∧ port_read s (reservationId rq) = None ∧
        port_read s' (reservationId rq) = Some (fresh_view r) ∧
        ∀ i, i ≠ reservationId rq → port_read s' i = port_read s i
    | Ok (_, s') => s' = s
    end;
  terminal_law s kind i : ok s →
    match port_terminal s kind i with
    | Throw _ => True
    | Ok (TerminalRecorded e, s') => ok s' ∧ te_kind e = kind ∧ te_reason e = ti_reason i ∧
        (∃ v, port_read s (ti_reservationId i) = Some v ∧ v_terminal v = None ∧
          ∃ v', port_read s' (ti_reservationId i) = Some v' ∧ v_reservation v' = v_reservation v ∧ v_terminal v' = Some e) ∧
        ∀ j, j ≠ ti_reservationId i → port_read s' j = port_read s j
    | Ok (TerminalAlready e, s') => s' = s ∧ te_kind e = kind ∧ te_reason e = ti_reason i ∧
        ∃ v, port_read s (ti_reservationId i) = Some v ∧ v_terminal v = Some e
    | Ok (_, s') => s' = s
    end;
}.

(** ** The gate's data *)

Record GateGrant := {
  gg_id : string;
  gg_subject : string;
  gg_issuedAt : string;
  gg_expiresAt : string;
  gg_correlation : ExerciseCorrelation;
  gg_authorityBindingDigest : option string;
}.

Record GateAttempt := {
  ga_action : string;
  ga_resource : string;
  ga_counterparty : option string;
  ga_organization : option string;
  ga_amount : option MonetaryAmount;
}.

Record ExerciseControlAdmissionInput := {
  ai_grant : GateGrant;
  ai_attempt : GateAttempt;
  ai_executionId : string;
  ai_at : string;
}.

Record ExerciseControlQuery := {
  q_boundedGrantId : string;
  q_subject : string;
  q_action : string;
  q_resource : string;
  q_counterparty : option string;
  q_organization : option string;
  q_amount : option MonetaryAmount;
  q_actionClass : GovernedActionClass;
  q_correlation : ExerciseCorrelation;
  q_grantIssuedAt : string;
  q_grantExpiresAt : string;
  q_at : string;
}.

Record ExerciseReservationHandle := { h_reservationId : string; h_authorityBindingDigest : string }.

Inductive ExerciseControlAdmission :=
  | GateAdmitted (reservation : ExerciseReservationHandle)
  | GateWithheld (reasonCodes : list ExerciseControlReasonCode).

Inductive ExerciseControlRevalidation :=
  | RevalidationVerified
  | RevalidationWithheld (reasonCodes : list ExerciseControlReasonCode).

Record ExerciseReservationDisposition := { d_kind : ExerciseReservationTerminalKind; d_reason : string }.

Inductive ExerciseReservationFinalization := f_settled | f_released | f_retained.

(** The host's composition: its policy, its binding resolver and its classifier.
    A policy answer is raw data; both callbacks may throw. *)
Record GateOptions := {
  policy : ExerciseControlQuery → option JsValue;
  authorityBinding : ExerciseControlQuery → option string;
  actionClassifier : FinancialActionClassifier;
}.

Definition queryFor (input : ExerciseControlAdmissionInput) (at_ : string) (actionClass : GovernedActionClass) : ExerciseControlQuery :=
  let g := ai_grant input in
  let a := ai_attempt input in {|
  q_boundedGrantId := gg_id g; q_subject := gg_subject g; q_action := ga_action a; q_resource := ga_resource a;
  q_counterparty := ga_counterparty a; q_organization := ga_organization a; q_amount := ga_amount a;
  q_actionClass := actionClass; q_correlation := gg_correlation g;
  q_grantIssuedAt := gg_issuedAt g; q_grantExpiresAt := gg_expiresAt g; q_at := at_ |}.

Definition classOf (o : GateOptions) (input : ExerciseControlAdmissionInput) : GovernedActionClass :=
  classify (actionClassifier o) (JsString (ec_action (gg_correlation (ai_grant input)))).

Definition isLedgerRefusalCode (c : ExerciseControlReasonCode) : bool :=
  match c with EXERCISE_CONTROL_LIMIT_EXCEEDED | EXERCISE_CONTROL_UNIT_MISMATCH => true | _ => false end.

(** The loop over the limits: the rules, and whether an amount was required or
    a unit differed. *)
Inductive RuleFor := ruleUsage (r : ExerciseControlRuleUsage) | ruleAmountRequired | ruleUnitMismatch.
Definition rule_for (amount : option MonetaryAmount) (l : ExerciseControlLimit) : RuleFor :=
  match metric l with
  | m_count _ => ruleUsage {| limit := l; usage := "1" |}
  | m_amount _ u =>
      match amount with
      | None => ruleAmountRequired
      | Some a => if negb (str_eqb (unit_ a) u) then ruleUnitMismatch else ruleUsage {| limit := l; usage := value a |}
      end
  end.
Definition rule_usages (l : list RuleFor) : list ExerciseControlRuleUsage :=
  omap (λ r, match r with ruleUsage u => Some u | _ => None end) l.
Definition some_amount_required (l : list RuleFor) : bool := existsb (λ r, match r with ruleAmountRequired => true | _ => false end) l.
Definition some_unit_mismatch (l : list RuleFor) : bool := existsb (λ r, match r with ruleUnitMismatch => true | _ => false end) l.

Definition financial_b (c : GovernedActionClass) : bool := match c with financial => true | non_financial => false end.

Section Gate.
Context `{JsHost} (o : GateOptions).

(** The snapshot of the policy's answer; a throw of either is [None]. *)
Definition policy_limits (q : ExerciseControlQuery) : option (list ExerciseControlLimit) :=
  match policy o q with
  | None => None
  | Some raw => match snapshotExerciseControlLimits raw with Ok limits => limits | Throw _ => None end
  end.

Definition reservation_subject (input : ExerciseControlAdmissionInput) (q : ExerciseControlQuery) : ExerciseReservationSubject := {|
  rs_boundedGrantId := gg_id (ai_grant input); rs_executionId := ai_executionId input;
  rs_subject := q_subject q; rs_action := q_action q; rs_resource := q_resource q;
  rs_counterparty := q_counterparty q; rs_organization := q_organization q;
  rs_amount := ga_amount (ai_attempt input); rs_correlation := q_correlation q |}.

Definition reservation_request (input : ExerciseControlAdmissionInput) (q : ExerciseControlQuery) (binding : string)
    (limits : list ExerciseControlLimit) (rules : list ExerciseControlRuleUsage) : ExerciseReservationRequest := {|
  reservationId := exerciseReservationId (gg_id (ai_grant input)) (ai_executionId input);
  executionId := ai_executionId input;
  boundedGrantId := gg_id (ai_grant input);
  requestDigest := exerciseReservationRequestDigest (reservation_subject input q);
  policyDigest := exerciseControlPolicyDigest limits;
  rq_authorityBindingDigest := binding;
  rules := rules |}.

Definition amount_ok (amount : option MonetaryAmount) : bool :=
  match amount with
  | None => true
  | Some a => isWellFormedMonetaryAmount a && isCanonicalDecimal (value a) EXERCISE_DECIMAL_USAGE_DIGITS
  end.

Definition gate_admit {S} `{ExerciseLedgerPort S} (s : S) (ledgerNow : string) (input : ExerciseControlAdmissionInput) :
    ExerciseControlAdmission * S :=
  let actionClass := classOf o input in
  let query := queryFor input (ai_at input) actionClass in
  let amount := ga_amount (ai_attempt input) in
  if negb (amount_ok amount) then (GateWithheld [EXERCISE_CONTROL_AMOUNT_REQUIRED], s)
  else if negb (Bool.eqb (financial_b actionClass) (is_some amount)) then (GateWithheld [EXERCISE_CONTROL_ACTION_CLASS_MISMATCH], s)
  else match verifyExerciseAuthorityBinding (gg_authorityBindingDigest (ai_grant input)) (authorityBinding o query) with
  | NotVerified code => (GateWithheld [code], s)
  | Verified =>
  let binding := default "" (gg_authorityBindingDigest (ai_grant input)) in
  match policy_limits query with
  | None => (GateWithheld [EXERCISE_CONTROL_POLICY_INVALID], s)
  | Some limits =>
  let decided := rule_for amount <$> limits in
  let amountRequired := some_amount_required decided in
  let unitMismatch := some_unit_mismatch decided in
  if amountRequired || unitMismatch then
    (GateWithheld ((if amountRequired then [EXERCISE_CONTROL_AMOUNT_REQUIRED] else []) ++
                   (if unitMismatch then [EXERCISE_CONTROL_UNIT_MISMATCH] else [])), s)
  else
    let rq := reservation_request input query binding limits (rule_usages decided) in
    match port_reserve s ledgerNow rq with
    | Throw _ => (GateWithheld [EXERCISE_CONTROL_LEDGER_UNAVAILABLE], s)
    | Ok (AlreadyReserved _, s') => (GateWithheld [EXERCISE_CONTROL_EXECUTION_ALREADY_RESERVED], s')
    | Ok (ReserveConflict, s') => (GateWithheld [EXERCISE_CONTROL_RESERVATION_CONFLICT], s')
    | Ok (ReserveRefused reported _, s') =>
        let codes := if (0 <? Z.of_nat (length reported)) && forallb isLedgerRefusalCode reported then nub reported else [] in
        (GateWithheld (match codes with [] => [EXERCISE_CONTROL_LEDGER_UNAVAILABLE] | _ => codes end), s')
    | Ok (Reserved _, s') =>
        (GateAdmitted {| h_reservationId := reservationId rq; h_authorityBindingDigest := binding |}, s')
    end
  end
  end.

Definition revalidate (reservation : ExerciseReservationHandle) (input : ExerciseControlAdmissionInput) : ExerciseControlRevalidation :=
  if negb (str_eqb (exerciseReservationId (gg_id (ai_grant input)) (ai_executionId input)) (h_reservationId reservation))
  then RevalidationWithheld [EXERCISE_CONTROL_RESERVATION_CONFLICT]
  else match verifyExerciseAuthorityBinding (gg_authorityBindingDigest (ai_grant input))
               (authorityBinding o (queryFor input (ai_at input) (classOf o input))) with
  | NotVerified code => RevalidationWithheld [code]
  | Verified =>
      if negb (bool_decide (gg_authorityBindingDigest (ai_grant input) = Some (h_authorityBindingDigest reservation)))
      then RevalidationWithheld [EXERCISE_CONTROL_AUTHORITY_BINDING_CHANGED]
      else RevalidationVerified
  end.

(** [now] is the gate clock's answer, [None] when it throws. *)
Definition finalize {S} `{ExerciseLedgerPort S} (s : S) (now : option string) (reservation : ExerciseReservationHandle)
    (d : ExerciseReservationDisposition) : ExerciseReservationFinalization * S :=
  match now with
  | None => (f_retained, s)
  | Some at_ =>
  match port_terminal s (d_kind d) {| ti_reservationId := h_reservationId reservation; ti_reason := d_reason d; ti_recordedAt := at_ |} with
  | Throw _ => (f_retained, s)
  | Ok (TerminalRecorded _, s') | Ok (TerminalAlready _, s') =>
      (match d_kind d with settled => f_settled | released => f_released end, s')
  | Ok (_, s') => (f_retained, s')
  end
  end.

(** ** What the gate promises, against the port's laws *)

Lemma rule_usages_all amount limits :
  some_amount_required (rule_for amount <$> limits) = false → some_unit_mismatch (rule_for amount <$> limits) = false →
  limit <$> rule_usages (rule_for amount <$> limits) = limits.
Proof.
  unfold some_amount_required, some_unit_mismatch, rule_usages.
  induction limits as [|l ls IH]; [done|]. cbn -[rule_for]. intros [Ha ?]%orb_false_iff [Hu ?]%orb_false_iff.
  specialize (IH ltac:(done) ltac:(done)). unfold rule_for at 1 in Ha. unfold rule_for at 1 in Hu. unfold rule_for at 1.
  destruct (metric l) as [n|m u]; cbn; [by f_equal|]. destruct amount as [a|]; [|done].
  destruct (str_eqb (unit_ a) u); cbn in *; [by f_equal|done].
Qed.

(** What one execution consumes of a limit. *)
Definition consumes_of (amount : option MonetaryAmount) (rule : ExerciseControlRuleUsage) : Prop :=
  match metric (limit rule) with
  | m_count _ => usage rule = "1"
  | m_amount _ u => ∃ a, amount = Some a ∧ unit_ a = u ∧ usage rule = value a
  end.

Lemma rule_usages_consume amount limits : Forall (consumes_of amount) (rule_usages (rule_for amount <$> limits)).
Proof.
  unfold rule_usages. induction limits as [|l ls IH]; [constructor|]. cbn -[rule_for]. unfold rule_for at 1.
  destruct (metric l) as [n|m u] eqn:Em; [constructor; [|done]; unfold consumes_of; cbn; by rewrite Em|].
  destruct amount as [a|]; [|done]. destruct (str_eqb (unit_ a) u) eqn:Eu; cbn; [|done].
  constructor; [|done]. unfold consumes_of. cbn. rewrite Em. exists a. split; [done|]. by apply str_eqb_eq in Eu.
Qed.

Lemma verified_binding recorded resolved :
  verifyExerciseAuthorityBinding recorded resolved = Verified ↔
  ∃ d, recorded = Some d ∧ resolved = Some d ∧ isWellFormedExerciseDigest d = true.
Proof.
  unfold verifyExerciseAuthorityBinding. split.
  - intros Hv. destruct recorded as [r|]; [|done]. destruct (isWellFormedExerciseDigest r) eqn:Hr; [|done].
    destruct resolved as [c|]; [|done]. destruct (isWellFormedExerciseDigest c); [|done]. cbn in Hv.
    destruct (str_eqb c r) eqn:E; [|done]. apply str_eqb_eq in E as ->. eauto.
  - intros (d&->&->&Hd). by rewrite Hd, str_eqb_refl.
Qed.

(** An admission holds the reservation [r] in [s'], and nothing else changed. *)
Definition admission_holds {S} `{ExerciseLedgerPort S} (s s' : S) (input : ExerciseControlAdmissionInput) (h : ExerciseReservationHandle) : Prop :=
  let q := queryFor input (ai_at input) (classOf o input) in
  let amount := ga_amount (ai_attempt input) in
  ∃ d limits rules_ r,
    gg_authorityBindingDigest (ai_grant input) = Some d ∧ authorityBinding o q = Some d ∧ isWellFormedExerciseDigest d = true ∧
    amount_ok amount = true ∧ (classOf o input = financial ↔ is_Some amount) ∧
    policy_limits q = Some limits ∧ limit <$> rules_ = limits ∧ Forall (consumes_of amount) rules_ ∧
    h = {| h_reservationId := exerciseReservationId (gg_id (ai_grant input)) (ai_executionId input); h_authorityBindingDigest := d |} ∧
    request r = reservation_request input q d limits rules_ ∧
    port_read s (h_reservationId h) = None ∧ port_read s' (h_reservationId h) = Some (fresh_view r) ∧
    ∀ i, i ≠ h_reservationId h → port_read s' i = port_read s i.

Lemma gate_admit_holds {S} (ok : S → Prop) `{ExerciseLedgerLaws S ok} (s : S) ledgerNow input :
  ok s →
  match gate_admit s ledgerNow input with
  | (GateWithheld codes, s') => s' = s ∧ codes ≠ []
  | (GateAdmitted h, s') => ok s' ∧ admission_holds s s' input h
  end.
Proof.
  intros Hok. unfold gate_admit. destruct (amount_ok (ga_amount (ai_attempt input))) eqn:Ham; cbn [negb]; [|done].
  destruct (Bool.eqb _ _) eqn:Hc; cbn [negb]; [|done].
  destruct (verifyExerciseAuthorityBinding _ _) eqn:Hv; [|done]. apply verified_binding in Hv as (d&Hd&Hr&Hw).
  destruct (policy_limits _) as [limits|] eqn:Hp; [|done].
  destruct (some_amount_required _) eqn:Ha, (some_unit_mismatch _) eqn:Hu; try done. cbn [orb]. rewrite Hd. cbn [default].
  match goal with |- context [port_reserve s ledgerNow ?rq] => pose proof (reserve_law s ledgerNow rq Hok) as Hl; set (rq0 := rq) in * end.
  destruct (port_reserve s ledgerNow rq0) as [[[r|r| |codes bs] s']|]; [|done|done| |done].
  - destruct Hl as (Hok'&Hreq&Hn&Hs&Hother). split; [done|].
    exists d, limits, (rule_usages (rule_for (ga_amount (ai_attempt input)) <$> limits)), r.
    do 4 (split; [done|]). split; [|split; [done|split; [by apply rule_usages_all|split; [apply rule_usages_consume|done]]]].
    destruct (classOf o input), (ga_amount (ai_attempt input)); try done; split; eauto; intros []; done.
  - split; [done|]. by destruct (if _ && _ then _ else _)%bool.
Qed.

(** Admission is sound: an admitted exercise carries the binding the
    resolver confirms, an amount exactly when its action is financial, and one
    new reservation of exactly the policy's limits, each with what the attempt
    consumes of it; a withheld one says why and leaves the ledger as it was. *)
Theorem admit_sound {S} (ok : S → Prop) `{ExerciseLedgerLaws S ok} (s : S) ledgerNow input :
  ok s →
  match gate_admit s ledgerNow input with
  | (GateWithheld codes, s') => s' = s ∧ codes ≠ []
  | (GateAdmitted h, s') => ok s' ∧ admission_holds s s' input h
  end.
Proof. exact (gate_admit_holds ok s ledgerNow input). Qed.

(** Revalidation is exact: it verifies exactly when the re-read grant
    still names this reservation, carries the binding it was admitted under,
    and the resolver still answers that binding at the fresh instant. *)
Theorem revalidate_exact reservation input :
  revalidate reservation input = RevalidationVerified ↔
  h_reservationId reservation = exerciseReservationId (gg_id (ai_grant input)) (ai_executionId input) ∧
  gg_authorityBindingDigest (ai_grant input) = Some (h_authorityBindingDigest reservation) ∧
  authorityBinding o (queryFor input (ai_at input) (classOf o input)) = Some (h_authorityBindingDigest reservation) ∧
  isWellFormedExerciseDigest (h_authorityBindingDigest reservation) = true.
Proof.
  unfold revalidate. destruct (str_eqb _ _) eqn:Ei; cbn [negb].
  - apply str_eqb_eq in Ei. destruct (verifyExerciseAuthorityBinding _ _) eqn:Hv.
    + apply verified_binding in Hv as (d&Hd&Hr&Hw). rewrite Hd. destruct (bool_decide _) eqn:Hb; cbn [negb].
      * apply bool_decide_eq_true in Hb as [= ->]. naive_solver.
      * apply bool_decide_eq_false in Hb. split; [done|]. naive_solver.
    + split; [done|]. intros (_&Hg&Hr&Hw). assert (NotVerified reasonCode = Verified) as [=].
      rewrite <-Hv. apply verified_binding. eauto.
  - apply str_eqb_neq in Ei. split; [done|]. naive_solver.
Qed.

(** Finalization never lies: a settled or released answer means the ledger
    holds exactly that terminal event for the reservation, and a retained one
    means nothing was written. *)
Theorem finalize_sound {S} (ok : S → Prop) `{ExerciseLedgerLaws S ok} (s : S) now reservation d :
  ok s →
  match finalize s now reservation d with
  | (f_retained, s') => s' = s
  | (f, s') => ok s' ∧ f = match d_kind d with settled => f_settled | released => f_released end ∧
      (∃ v e, port_read s' (h_reservationId reservation) = Some v ∧ v_terminal v = Some e ∧ te_kind e = d_kind d ∧ te_reason e = d_reason d) ∧
      ∀ j, j ≠ h_reservationId reservation → port_read s' j = port_read s j
  end.
Proof.
  intros Hok. unfold finalize. destruct now as [at_|]; [|done].
  match goal with |- context [port_terminal s ?k ?i] => pose proof (terminal_law s k i Hok) as Hl; set (i0 := i) in * end.
  destruct (port_terminal s (d_kind d) i0) as [[[e|e|e|] s']|]; try done.
  - destruct Hl as (?&Hk&Hr&(v&_&_&v'&Hv'&_&Ht)&Hother).
    destruct (d_kind d); (do 2 (split; [done|]); split; [by exists v', e|done]).
  - destruct Hl as (->&Hk&Hr&v&Hv&Ht). destruct (d_kind d); (do 2 (split; [done|]); split; [by exists v, e|done]).
Qed.

End Gate.

Section MemoryLedger.
Context `{JsHost}.

(** ** The in-memory ledger is a ledger *)

#[export] Instance memory_ledger_port : ExerciseLedgerPort Ledger := {
  port_reserve := reserve;
  port_terminal := terminal;
  port_read := read_ledger;
}.

Lemma read_fresh s r :
  ledger_ok s → lookup_reservation s (record_id r) = None →
  read_ledger {| reservations := reservations s ++ [r]; terminals := terminals s; resolutions := resolutions s |} (record_id r) =
  Some (fresh_view r).
Proof.
  intros Hok Hn. unfold read_ledger. rewrite lookup_reservation_app, Hn, str_eqb_refl. cbn [terminals resolutions fmap option_fmap option_map].
  destruct (terminals s !! record_id r) eqn:Et; [destruct (terminals_ok _ Hok _ _ Et) as (_&_&[? ?]); congruence|].
  destruct (resolutions s !! record_id r) eqn:Er; [destruct (resolutions_ok _ Hok _ _ Er) as (_&[? ?]); congruence|]. done.
Qed.

Lemma read_ledger_None s id : read_ledger s id = None ↔ lookup_reservation s id = None.
Proof. unfold read_ledger. by destruct (lookup_reservation s id). Qed.

Lemma memory_reserve_law s now rq : ledger_ok s →
  match reserve s now rq with
  | Throw _ => True
  | Ok (Reserved r, s') => ledger_ok s' ∧ request r = rq ∧ read_ledger s (reservationId rq) = None ∧
      read_ledger s' (reservationId rq) = Some (fresh_view r) ∧ ∀ i, i ≠ reservationId rq → read_ledger s' i = read_ledger s i
  | Ok (_, s') => s' = s
  end.
Proof.
  intros Hok. destruct (reserve s now rq) as [[o s']|] eqn:E; [|done].
  pose proof (ledger_step_ok s s' ltac:(by eapply do_reserve) Hok) as Hok'.
  apply reserve_cases in E as [[-> Ho]|(r&Er&->&_&Hn&_&_&->)]; [by destruct o as [r| | |]; [destruct (Ho r)|..]|].
  assert (record_id r = reservationId rq) as Eid by (by subst r).
  split; [done|]. split; [by subst r|]. split; [by apply read_ledger_None|]. rewrite <-Eid in *.
  split; [by apply read_fresh|]. intros i Hi. unfold read_ledger. cbn [terminals resolutions]. rewrite lookup_reservation_app.
  destruct (lookup_reservation s i); [done|]. by rewrite (proj2 (str_eqb_neq _ _)) by done.
Qed.

Lemma memory_terminal_law s kind i : ledger_ok s →
  match terminal s kind i with
  | Throw _ => True
  | Ok (TerminalRecorded e, s') => ledger_ok s' ∧ te_kind e = kind ∧ te_reason e = ti_reason i ∧
      (∃ v, read_ledger s (ti_reservationId i) = Some v ∧ v_terminal v = None ∧
        ∃ v', read_ledger s' (ti_reservationId i) = Some v' ∧ v_reservation v' = v_reservation v ∧ v_terminal v' = Some e) ∧
      ∀ j, j ≠ ti_reservationId i → read_ledger s' j = read_ledger s j
  | Ok (TerminalAlready e, s') => s' = s ∧ te_kind e = kind ∧ te_reason e = ti_reason i ∧
      ∃ v, read_ledger s (ti_reservationId i) = Some v ∧ v_terminal v = Some e
  | Ok (_, s') => s' = s
  end.
Proof.
  intros Hok. destruct (terminal s kind i) as [[o s']|] eqn:E; [|done].
  pose proof (ledger_step_ok s s' ltac:(by eapply do_terminal) Hok) as Hok'.
  pose proof E as E'. apply terminal_cases in E as [[-> Ho]|(e&Ee&->&_&[r Hr]&Ht&->)].
  - destruct o as [e|e|e|]; [by destruct (Ho e)| |done|done].
    unfold terminal in E'. destruct (_ || _)%bool; [done|]. destruct (is_some (lookup_reservation s _)) eqn:Hl; [|done]. cbn [negb] in E'.
    destruct (lookup_reservation s (ti_reservationId i)) as [r|] eqn:Hr; [|done].
    destruct (terminals s !! ti_reservationId i) as [x|] eqn:Ht; [|done].
    destruct (_ && _)%bool eqn:Hb; [|done]. injection E' as ->. apply andb_true_iff in Hb as [Hk Hs].
    apply bool_decide_eq_true in Hk. apply str_eqb_eq in Hs. do 3 (split; [done|]).
    eexists. unfold read_ledger. rewrite Hr. cbn. by rewrite Ht.
  - split; [done|]. do 2 (split; [by subst e|]). split.
    + eexists. unfold read_ledger. unfold lookup_reservation in *. cbn [reservations terminals] in *. rewrite Hr. cbn. split; [done|].
      split; [done|]. eexists. split; [done|]. split; [done|]. cbn. by rewrite lookup_insert_eq.
    + intros j Hj. unfold read_ledger, lookup_reservation. cbn [reservations terminals resolutions].
      by rewrite lookup_insert_ne.
Qed.

#[export] Instance memory_ledger_laws : ExerciseLedgerLaws Ledger ledger_ok := {
  reserve_law := memory_reserve_law;
  terminal_law := memory_terminal_law;
}.

End MemoryLedger.

(** ** A sample gate over the in-memory ledger *)

Definition sample_binding : string := "sha256:" +:+ @sha256_hex demo_host "binding".
Definition sample_gate : GateOptions := {|
  policy := λ _, Some (JsArray [limit_value sample_limit]);
  authorityBinding := λ _, Some sample_binding;
  actionClassifier := {| financial_set := {["pay"]}; financialActions := ["pay"] |} |}.
Definition sample_admission : ExerciseControlAdmissionInput := {|
  ai_grant := {| gg_id := "grant-1"; gg_subject := "agent"; gg_issuedAt := "10"; gg_expiresAt := "900";
    gg_correlation := {| ec_requestId := "rq"; ec_decisionId := "d"; ec_action := "read"; ec_resourceScope := "docs" |};
    gg_authorityBindingDigest := Some sample_binding |};
  ai_attempt := {| ga_action := "read"; ga_resource := "docs"; ga_counterparty := None; ga_organization := None; ga_amount := None |};
  ai_executionId := "exec-a"; ai_at := "90" |}.
Definition sample_handle : ExerciseReservationHandle := {|
  h_reservationId := @exerciseReservationId demo_host "grant-1" "exec-a"; h_authorityBindingDigest := sample_binding |}.
Definition sample_disposition : ExerciseReservationDisposition := {| d_kind := settled; d_reason := "executed" |}.

Lemma sample_admitted : (@gate_admit demo_host sample_gate Ledger (@memory_ledger_port demo_host) empty_ledger "100" sample_admission).1 = GateAdmitted sample_handle.
Proof. vm_compute. reflexivity. Qed.

Lemma admit_sound_witness :
  ∃ s', @ledger_ok demo_host s' ∧
    @admission_holds demo_host sample_gate Ledger (@memory_ledger_port demo_host) empty_ledger s' sample_admission sample_handle.
Proof.
  pose proof (@admit_sound demo_host sample_gate Ledger (@ledger_ok demo_host) _ (@memory_ledger_laws demo_host) empty_ledger "100" sample_admission (@empty_ledger_ok demo_host)) as Hs.
  pose proof sample_admitted as Ha. destruct (gate_admit _ _ _ _) as [[h|codes] s']; [|discriminate Ha]. cbn in Ha. injection Ha as ->. by exists s'.
Defined.

Lemma finalize_sound_witness :
  ∃ s' v e, read_ledger s' (h_reservationId sample_handle) = Some v ∧ v_terminal v = Some e ∧ te_kind e = settled.
Proof.
  pose proof (@finalize_sound Ledger (@ledger_ok demo_host) (@memory_ledger_port demo_host) (@memory_ledger_laws demo_host) ledger_1 (Some "110") sample_handle sample_disposition) as Hf.
  assert ((@finalize Ledger (@memory_ledger_port demo_host) ledger_1 (Some "110") sample_handle sample_disposition).1 = f_settled) as Ha
    by (vm_compute; reflexivity).
  destruct (finalize _ _ _ _) as [f s']. cbn in Ha. subst f.
  destruct Hf as (_&_&(v&e&?&?&?&_)&_).
  { eapply ledger_history_ok; [apply settled_history, sample_ledger_history|apply empty_ledger_ok]. }
  by exists s', v, e.
Defined.
