(* ===== verification/EmergencyControl.v ===== *)
(** * The emergency control

    Model of [emergency-control-runtime]: the port
    ([domain/emergency-control-port.ts]), the withholding signal
    ([domain/emergency-control-signal.ts]), the read-only capability
    ([services/emergency-control-reader.ts]) and the process-local store
    ([services/in-memory-emergency-control-store.ts]). A query comes from trusted
    server-side material, so its fields are texts; what an operator declares
    and what a reader returns are raw. *)

From S2P Require Import Prelude Decimal Js.

Local Open Scope Z_scope.
Local Open Scope frontera_scope.

Inductive EmergencyControlReasonCode := EMERGENCY_CONTROL_ACTIVE | EMERGENCY_CONTROL_UNAVAILABLE.

Inductive EmergencyControlScope := sc_global | sc_organization | sc_actor | sc_workflow | sc_adapter | sc_resource.

Global Instance EmergencyControlScope_eq_dec : EqDecision EmergencyControlScope.
Proof. solve_decision. Defined.

Definition scope_name (s : EmergencyControlScope) : string :=
  match s with
  | sc_global => "global" | sc_organization => "organization" | sc_actor => "actor"
  | sc_workflow => "workflow" | sc_adapter => "adapter" | sc_resource => "resource"
  end.

Definition EMERGENCY_CONTROL_SCOPES : list EmergencyControlScope :=
  [sc_global; sc_organization; sc_actor; sc_workflow; sc_adapter; sc_resource].

(** The type guard, with the scope it narrows to. *)
Definition isEmergencyControlScope (v : JsValue) : option EmergencyControlScope :=
  match v with
  | JsString s => List.find (λ sc, str_eqb (scope_name sc) s) EMERGENCY_CONTROL_SCOPES
  | _ => None
  end.

Record EmergencyControlQuery := {
  eq_organizationId : option string;
  eq_actorId : option string;
  eq_workflowId : option string;
  eq_adapterId : option string;
  eq_resource : option string;
}.

Record EmergencyControlScopeMatch := { em_scope : EmergencyControlScope; em_value : option string }.

Global Instance EmergencyControlScopeMatch_eq_dec : EqDecision EmergencyControlScopeMatch.
Proof. solve_decision. Defined.

Inductive EmergencyControlAssessment :=
  | EmergencyClear
  | EmergencyBlocked (reasonCodes : list EmergencyControlReasonCode) (matchedScopes : list EmergencyControlScopeMatch)
  | EmergencyUnavailable (reasonCodes : list EmergencyControlReasonCode).

Definition emergency_reasonCodes (a : EmergencyControlAssessment) : list EmergencyControlReasonCode :=
  match a with EmergencyClear => [] | EmergencyBlocked codes _ | EmergencyUnavailable codes => codes end.
Definition emergency_matchedScopes (a : EmergencyControlAssessment) : list EmergencyControlScopeMatch :=
  match a with EmergencyBlocked _ matched => matched | _ => [] end.

Definition emergencyControlUnavailable : EmergencyControlAssessment := EmergencyUnavailable [EMERGENCY_CONTROL_UNAVAILABLE].
Definition emergencyControlBlocked (matchedScopes : list EmergencyControlScopeMatch) : EmergencyControlAssessment :=
  EmergencyBlocked [EMERGENCY_CONTROL_ACTIVE] matchedScopes.
Definition emergencyControlPermits (a : EmergencyControlAssessment) : bool :=
  match a with EmergencyClear => true | _ => false end.

(** What calling [reader.read] yields: a throw, something that is not an
    object, or an object with its [state] and, when it is an array, its
    [matchedScopes]. *)
Inductive ReaderAnswer :=
  | ReaderThrew
  | ReaderNonObject
  | ReaderObject (state : JsValue) (matchedScopes : option (list EmergencyControlScopeMatch)).

(** [reader] is the answer of the composed reader, [None] when none is. *)
Definition readEmergencyControl (reader : option ReaderAnswer) : EmergencyControlAssessment :=
  match reader with
  | None => EmergencyClear
  | Some ReaderThrew | Some ReaderNonObject => emergencyControlUnavailable
  | Some (ReaderObject state matched) =>
      match state with
      | JsString st =>
          if str_eqb st "clear" then EmergencyClear
          else if str_eqb st "blocked" then emergencyControlBlocked (default [] matched)
          else emergencyControlUnavailable
      | _ => emergencyControlUnavailable
      end
  end.

(** A typed assessment as the object a reader returns. *)
Definition assessment_object (a : EmergencyControlAssessment) : ReaderAnswer :=
  match a with
  | EmergencyClear => ReaderObject (JsString "clear") None
  | EmergencyBlocked _ matched => ReaderObject (JsString "blocked") (Some matched)
  | EmergencyUnavailable _ => ReaderObject (JsString "unavailable") None
  end.

Definition stated_well (v : option string) : bool := match v with None => true | Some s => nonempty s end.
Definition isWellFormedEmergencyControlQuery (q : EmergencyControlQuery) : bool :=
  forallb stated_well [eq_organizationId q; eq_actorId q; eq_workflowId q; eq_adapterId q; eq_resource q].

Definition stated_scope (s : EmergencyControlScope) (v : option string) : list EmergencyControlScopeMatch :=
  match v with None => [] | Some _ => [{| em_scope := s; em_value := v |}] end.
Definition applicableEmergencyControlScopes (q : EmergencyControlQuery) : list EmergencyControlScopeMatch :=
  [{| em_scope := sc_global; em_value := None |}] ++
  stated_scope sc_organization (eq_organizationId q) ++ stated_scope sc_actor (eq_actorId q) ++
  stated_scope sc_workflow (eq_workflowId q) ++ stated_scope sc_adapter (eq_adapterId q) ++
  stated_scope sc_resource (eq_resource q).

Definition emergencyControlKey (s : EmergencyControlScope) (v : option string) : string :=
  match s with sc_global => "global" | _ => scope_name s +:+ ":" +:+ default "" v end.

(** A declaration and a release carry the same fields; [od_at] is [declaredAt]
    or [releasedAt]. *)
Record EmergencyControlDeclaration := { od_scope : JsValue; od_value : JsValue; od_issuerRef : JsValue; od_at : JsValue }.

Definition nonblank_string (v : JsValue) : bool := match v with JsString s => nonempty s | _ => false end.

Definition isWellFormedEmergencyControlDeclaration (d : EmergencyControlDeclaration) : bool :=
  match isEmergencyControlScope (od_scope d) with
  | None => false
  | Some sc_global => match od_value d with JsUndefined => true | _ => false end && (nonblank_string (od_issuerRef d) && nonblank_string (od_at d))
  | Some _ => nonblank_string (od_value d) && (nonblank_string (od_issuerRef d) && nonblank_string (od_at d))
  end.
Definition isWellFormedEmergencyControlRelease (r : EmergencyControlDeclaration) : bool :=
  match isEmergencyControlScope (od_scope r) with
  | None => false
  | Some sc_global => match od_value r with JsUndefined => true | _ => false end && (nonblank_string (od_issuerRef r) && nonblank_string (od_at r))
  | Some _ => nonblank_string (od_value r) && (nonblank_string (od_issuerRef r) && nonblank_string (od_at r))
  end.

(** The control a well-formed declaration or release names. *)
Definition named_control (d : EmergencyControlDeclaration) : EmergencyControlScopeMatch :=
  match isEmergencyControlScope (od_scope d) with
  | Some sc_global | None => {| em_scope := sc_global; em_value := None |}
  | Some sc => {| em_scope := sc; em_value := match od_value d with JsString v => Some v | _ => None end |}
  end.

Definition match_key (m : EmergencyControlScopeMatch) : string := emergencyControlKey (em_scope m) (em_value m).

(** ** The signal *)

Record EmergencyControlWithheldError := { we_reasonCodes : list EmergencyControlReasonCode; we_matchedScopes : list EmergencyControlScopeMatch }.

Definition new_EmergencyControlWithheldError (a : EmergencyControlAssessment) : EmergencyControlWithheldError := {|
  we_reasonCodes := match emergency_reasonCodes a with [] => [EMERGENCY_CONTROL_UNAVAILABLE] | codes => codes end;
  we_matchedScopes := emergency_matchedScopes a |}.

(** [createEmergencyControlReader(store).read] over the store's answer. *)
Definition reader_read (store : ReaderAnswer) : ReaderAnswer :=
  match store with ReaderThrew => assessment_object emergencyControlUnavailable | a => a end.

(** ** The process-local store

    The [Map] in insertion order. *)

Record EmergencyStore := { controls : list (string * EmergencyControlScopeMatch); unavailable : bool }.

Definition empty_controls : EmergencyStore := {| controls := []; unavailable := false |}.

Inductive EmergencyError := EmergencyRangeError.

Definition has_control (s : EmergencyStore) (key : string) : bool := existsb (λ c, str_eqb c.1 key) (controls s).

Definition read_controls (s : EmergencyStore) (q : EmergencyControlQuery) : EmergencyControlAssessment :=
  if unavailable s then emergencyControlUnavailable
  else if negb (isWellFormedEmergencyControlQuery q) then emergencyControlUnavailable
  else match List.filter (λ m, has_control s (match_key m)) (applicableEmergencyControlScopes q) with
       | [] => EmergencyClear
       | matched => emergencyControlBlocked matched
       end.

Definition activate (s : EmergencyStore) (d : EmergencyControlDeclaration) : result EmergencyError EmergencyStore :=
  if negb (isWellFormedEmergencyControlDeclaration d) then Throw EmergencyRangeError
  else let control := named_control d in
       if has_control s (match_key control) then Ok s
       else Ok {| controls := controls s ++ [(match_key control, control)]; unavailable := unavailable s |}.

Definition release_control (s : EmergencyStore) (r : EmergencyControlDeclaration) : result EmergencyError EmergencyStore :=
  if negb (isWellFormedEmergencyControlRelease r) then Throw EmergencyRangeError
  else Ok {| controls := List.filter (λ c, negb (str_eqb c.1 (match_key (named_control r)))) (controls s); unavailable := unavailable s |}.

Definition active (s : EmergencyStore) : list EmergencyControlScopeMatch := (controls s).*2.

Definition simulateUnavailable (s : EmergencyStore) (next : bool) : EmergencyStore :=
  {| controls := controls s; unavailable := next |}.

(** An operator's mutation; one that throws changes nothing. *)
Inductive EmergencyOp := op_activate (d : EmergencyControlDeclaration) | op_release (r : EmergencyControlDeclaration).
Definition emergency_step (s : EmergencyStore) (op : EmergencyOp) : EmergencyStore :=
  match (match op with op_activate d => activate s d | op_release r => release_control s r end) with
  | Ok s' => s'
  | Throw _ => s
  end.
Definition emergency_run : EmergencyStore → list EmergencyOp → EmergencyStore := foldl emergency_step.

(** ** Keys identify controls *)

(** [global] states no value; every other scope states a text. *)
Definition control_ok (m : EmergencyControlScopeMatch) : Prop :=
  match em_scope m with sc_global => em_value m = None | _ => is_Some (em_value m) end.

Lemma scope_name_inj_app s s' t t' :
  scope_name s +:+ ":" +:+ t = scope_name s' +:+ ":" +:+ t' → s = s' ∧ t = t'.
Proof. destruct s, s'; cbn; intros [=]; by subst. Qed.

Lemma match_key_inj m m' : control_ok m → control_ok m' → match_key m = match_key m' → m = m'.
Proof.
  destruct m as [s v], m' as [s' v']. unfold control_ok, match_key, emergencyControlKey. cbn.
  intros H H' E.
  assert (s = s') as <-.
  { destruct s, s'; first [reflexivity | exfalso; cbn in E; discriminate E]. }
  destruct s; subst; try done; destruct H as [x ->], H' as [y ->]; apply scope_name_inj_app in E as [_ E]; cbn in E; by subst.
Qed.

Lemma named_control_ok d : isWellFormedEmergencyControlDeclaration d = true → control_ok (named_control d).
Proof.
  unfold isWellFormedEmergencyControlDeclaration, named_control, control_ok.
  destruct (isEmergencyControlScope (od_scope d)) as [[]|]; cbn; try done;
    destruct (od_value d); cbn; done || eauto.
Qed.

Lemma release_declaration r : isWellFormedEmergencyControlRelease r = isWellFormedEmergencyControlDeclaration r.
Proof. done. Qed.

Lemma applicable_ok q : Forall control_ok (applicableEmergencyControlScopes q).
Proof.
  assert (∀ sc v, sc ≠ sc_global → Forall control_ok (stated_scope sc v)) as Hs.
  { intros sc [x|] Hn; [|constructor]. constructor; [|constructor]. unfold control_ok. cbn. by destruct sc; eauto. }
  unfold applicableEmergencyControlScopes. constructor; [done|]. repeat (apply Forall_app; split); by apply Hs.
Qed.

(** The controls that stand: activated, in effect since, and not released. *)
Fixpoint stands (m : EmergencyControlScopeMatch) (ops : list EmergencyOp) : bool :=
  match ops with
  | [] => false
  | op :: older =>
      match op with
      | op_activate d =>
          if isWellFormedEmergencyControlDeclaration d && bool_decide (named_control d = m) then true else stands m older
      | op_release r =>
          if isWellFormedEmergencyControlRelease r && bool_decide (named_control r = m) then false else stands m older
      end
  end.

Lemma has_control_app l k key :
  existsb (λ c : string * EmergencyControlScopeMatch, str_eqb c.1 key) (l ++ k) =
  existsb (λ c, str_eqb c.1 key) l || existsb (λ c, str_eqb c.1 key) k.
Proof. apply existsb_app. Qed.

Lemma has_control_removed l key key' :
  existsb (λ c : string * EmergencyControlScopeMatch, str_eqb c.1 key) (List.filter (λ c, negb (str_eqb c.1 key')) l) =
  negb (str_eqb key key') && existsb (λ c, str_eqb c.1 key) l.
Proof.
  induction l as [|[k m] l IH]; cbn; [by rewrite andb_false_r|].
  destruct (str_eqb k key') eqn:E; cbn; rewrite IH.
  - apply str_eqb_eq in E as ->. destruct (str_eqb key' key) eqn:E2; [|done].
    apply str_eqb_eq in E2 as ->. by rewrite str_eqb_refl.
  - destruct (str_eqb k key) eqn:E2; [|done]. apply str_eqb_eq in E2 as ->. by rewrite E.
Qed.

Lemma step_stands s op m ops :
  control_ok m → has_control s (match_key m) = stands m ops →
  has_control (emergency_step s op) (match_key m) = stands m (op :: ops).
Proof.
  intros Hm IH. unfold emergency_step, activate, release_control. destruct op as [d|r]; cbn [stands].
  - destruct (isWellFormedEmergencyControlDeclaration d) eqn:Hw; cbn [negb andb]; [|done].
    pose proof (named_control_ok d Hw) as Hd.
    destruct (bool_decide (named_control d = m)) eqn:E.
    + apply bool_decide_eq_true in E as <-. destruct (has_control s (match_key (named_control d))) eqn:Hh; [done|].
      unfold has_control in *. cbn [controls]. rewrite has_control_app, Hh. cbn. by rewrite str_eqb_refl.
    + apply bool_decide_eq_false in E. destruct (has_control s (match_key (named_control d))) eqn:Hh; [done|].
      unfold has_control in *. cbn [controls]. rewrite has_control_app. cbn. rewrite orb_false_r.
      rewrite (proj2 (str_eqb_neq _ _)); [by rewrite orb_false_r|]. intros Ek. apply E. by apply match_key_inj.
  - rewrite release_declaration. destruct (isWellFormedEmergencyControlDeclaration r) eqn:Hw; cbn [negb andb]; [|done].
    pose proof (named_control_ok r Hw) as Hr. unfold has_control in *. cbn [controls]. rewrite has_control_removed, IH.
    destruct (bool_decide (named_control r = m)) eqn:E.
    + apply bool_decide_eq_true in E as ->. by rewrite str_eqb_refl.
    + apply bool_decide_eq_false in E. rewrite (proj2 (str_eqb_neq _ _)); [done|].
      intros Ek. apply E. symmetry. by apply match_key_inj.
Qed.

Lemma run_stands ops m : control_ok m → has_control (emergency_run empty_controls ops) (match_key m) = stands m (rev ops).
Proof.
  intros Hm. induction ops as [|op ops IH] using rev_ind; [done|].
  unfold emergency_run. rewrite foldl_snoc, rev_app_distr. cbn [rev app]. by apply step_stands.
Qed.

Lemma emergency_step_available s op : unavailable (emergency_step s op) = unavailable s.
Proof. unfold emergency_step, activate, release_control. by destruct op; repeat case_match; simplify_eq. Qed.

Lemma emergency_run_available ops : unavailable (emergency_run empty_controls ops) = false.
Proof.
  induction ops as [|op ops IH] using rev_ind; [done|]. unfold emergency_run. rewrite foldl_snoc.
  by rewrite emergency_step_available.
Qed.

(** The interlock is exact: after any sequence of operator declarations
    and releases, malformed ones included, a well-formed query reads clear
    exactly when no applicable control stands, where a control stands when the
    last well-formed mutation that names it is a declaration; otherwise it is
    blocked by precisely the applicable controls that stand. A malformed query
    is never clear. *)
Theorem emergency_read_exact (ops : list EmergencyOp) (q : EmergencyControlQuery) :
  read_controls (emergency_run empty_controls ops) q =
  if isWellFormedEmergencyControlQuery q then
    match List.filter (λ m, stands m (rev ops)) (applicableEmergencyControlScopes q) with
    | [] => EmergencyClear
    | matched => emergencyControlBlocked matched
    end
  else emergencyControlUnavailable.
Proof.
  unfold read_controls. rewrite emergency_run_available.
  destruct (isWellFormedEmergencyControlQuery q); cbn [negb]; [|done].
  assert (List.filter (λ m, has_control (emergency_run empty_controls ops) (match_key m)) (applicableEmergencyControlScopes q) =
    List.filter (λ m, stands m (rev ops)) (applicableEmergencyControlScopes q)) as ->; [|done].
  pose proof (applicable_ok q) as Hok. induction Hok as [|m l Hm _ IH]; [done|]. cbn [List.filter].
  rewrite run_stands by done. by destruct (stands m (rev ops)); rewrite IH.
Qed.

(** Reading the interlock fails closed: execution may proceed only when no
    reader is composed or the reader answered an object whose state is exactly
    clear; a throw, a non-object or any other state withholds, and always with
    a reason. *)
Theorem readEmergencyControl_fails_closed (reader : option ReaderAnswer) :
  (emergencyControlPermits (readEmergencyControl reader) = true ↔
    reader = None ∨ ∃ matched, reader = Some (ReaderObject (JsString "clear") matched)) ∧
  (emergencyControlPermits (readEmergencyControl reader) = false → emergency_reasonCodes (readEmergencyControl reader) ≠ []).
Proof.
  destruct reader as [[| |state matched]|]; cbn; [naive_solver|naive_solver| |naive_solver].
  destruct state as [| | | |st| | | |]; cbn; try naive_solver.
  destruct (str_eqb st "clear") eqn:E; cbn.
  { apply str_eqb_eq in E as ->. naive_solver. }
  apply str_eqb_neq in E. destruct (str_eqb st "blocked"); cbn; naive_solver.
Qed.
