(* ===== verification/GrantExercise.v ===== *)
(** * The exercise of a grant: request and assessment

    Model of [execution-runtime/domain/grant-exercise-request.ts],
    [grant-exercise-assessment.ts] and [exercise-reason-codes.ts]. The request is
    the snapshot the service takes before anything else, so it is plain data. *)

From Stdlib Require Import QArith.
From S2P Require Import Prelude Decimal Js Monetary Parameters GrantBounds GrantAttenuation GrantStore ExerciseControl ExerciseLedger ExerciseGate EmergencyControl.

Local Open Scope Z_scope.
Local Open Scope frontera_scope.

(** ** The request *)

Record GrantExerciseRequest := {
  gx_boundedGrantId : string;
  gx_subject : string;
  gx_action : string;
  gx_resource : string;
  gx_counterparty : option string;
  gx_organization : option string;
  gx_amount : option MonetaryAmount;
  gx_governanceProfile : option string;
  gx_actionClass : option string;
  gx_resourceClass : option string;
  gx_parameters : option (list GovernedParameter);
  gx_correlation : GrantCorrelation;
  gx_executionId : string;
}.

Definition isWellFormedGrantExerciseAmount (a : MonetaryAmount) : bool := isWellFormedMonetaryAmount a.

Definition isWellFormedExerciseParameters (ps : list GovernedParameter) : bool :=
  negb (Z.of_nat (length ps) =? 0) &&
  every_with_previous (λ previous p,
    isWellFormedGovernedParameter p &&
    match previous with None => true | Some q => bool_decide (compareDimensionIds (dimension q) (dimension p) = Lt) end) None ps.

(** An optional field, when present, satisfies [p]. *)
Definition when_present {A} (p : A → bool) (v : option A) : bool := match v with None => true | Some x => p x end.

Definition isWellFormedGrantExerciseRequest (r : GrantExerciseRequest) : bool :=
  nonempty (gx_boundedGrantId r) && nonempty (gx_subject r) && nonempty (gx_action r) && nonempty (gx_resource r) &&
  nonempty (gx_executionId r) && when_present nonempty (gx_counterparty r) && when_present nonempty (gx_organization r) &&
  when_present isWellFormedGrantExerciseAmount (gx_amount r) && when_present nonempty (gx_governanceProfile r) &&
  when_present nonempty (gx_actionClass r) && when_present nonempty (gx_resourceClass r) &&
  when_present isWellFormedExerciseParameters (gx_parameters r) &&
  (nonempty (requestId (gx_correlation r)) && nonempty (decisionId (gx_correlation r)) &&
   nonempty (cor_action (gx_correlation r)) && nonempty (resourceScope (gx_correlation r))).

(** ** The assessment *)

Inductive GrantExerciseReasonCode :=
  | GRANT_EXERCISE_REQUEST_MALFORMED | GRANT_EXERCISE_NOT_FOUND | GRANT_EXERCISE_INTEGRITY_INVALID
  | GRANT_EXERCISE_EXPIRED | GRANT_EXERCISE_REVOKED | GRANT_EXERCISE_SUBJECT_MISMATCH
  | GRANT_EXERCISE_CORRELATION_INVALID | GRANT_EXERCISE_ACTION_OUT_OF_SCOPE | GRANT_EXERCISE_RESOURCE_OUT_OF_SCOPE
  | GRANT_EXERCISE_COUNTERPARTY_OUT_OF_SCOPE | GRANT_EXERCISE_ORGANIZATION_OUT_OF_SCOPE | GRANT_EXERCISE_AMOUNT_EXCEEDED
  | GRANT_EXERCISE_GOVERNANCE_PROFILE_MISMATCH | GRANT_EXERCISE_PARAMETER_OUT_OF_SCOPE | GRANT_EXERCISE_SEMANTIC_CLASS_MISMATCH.

Record BoundedGrantExerciseAssessment := {
  ba_usable : bool;
  ba_reasonCodes : list GrantExerciseReasonCode;
  ba_boundedGrantId : string;
  ba_correlation : GrantCorrelation;
  ba_executionId : string;
}.

(** [usable(identity)] and [unusable(identity, reasonCodes)] *)
Definition assessed (r : GrantExerciseRequest) (codes : list GrantExerciseReasonCode) : BoundedGrantExerciseAssessment := {|
  ba_usable := match codes with [] => true | _ => false end; ba_reasonCodes := codes;
  ba_boundedGrantId := gx_boundedGrantId r; ba_correlation := gx_correlation r; ba_executionId := gx_executionId r |}.

Definition parametersAgree (granted : option (list GrantParameterBound)) (attempted : option (list GovernedParameter)) : bool :=
  match granted, attempted with
  | None, None => true
  | Some bounds, Some ps =>
      (length ps =? length bounds)%nat &&
      forallb (λ p, match grantParameterBound (Some bounds) (dimension p) with
                    | Some b => governedParameterBoundAdmits (pb_bound b) (parameter_value p)
                    | None => false
                    end) ps
  | _, _ => false
  end.

Definition report (refused : bool) (code : GrantExerciseReasonCode) : list GrantExerciseReasonCode := if refused then [code] else [].

Section Assessment.
Context `{JsHost}.

Definition attemptIsWithin (granted attempted : option GrantBound) : bool :=
  match granted, attempted with
  | Some g, Some a => boundComparisonPermits (compareGrantBound g a)
  | _, _ => false
  end.

Definition axisAgrees (granted attempted : option GrantBound) : bool :=
  match granted, attempted with
  | None, None => true
  | _, _ => attemptIsWithin granted attempted
  end.

Definition amount_bound (a : MonetaryAmount) : GrantBound := Ceiling (value a) (unit_ a).

Definition expired_at (g : BoundedGrant) (at_ : string) : bool :=
  match date_parse (expiresAt g), date_parse at_ with Some expiry, Some now => expiry <=? now | _, _ => true end.

Definition exercise_reasons (g : BoundedGrant) (revocation : option GrantRevocation) (r : GrantExerciseRequest) (at_ : string) :
    list GrantExerciseReasonCode :=
  let s := g_scope g in
  report (negb (boundedGrantDigestMatches g) || negb (isWellFormedBoundedGrantSemantics s (semanticsFormat g))) GRANT_EXERCISE_INTEGRITY_INVALID ++
  report (is_some revocation) GRANT_EXERCISE_REVOKED ++
  report (expired_at g at_) GRANT_EXERCISE_EXPIRED ++
  report (negb (str_eqb (gx_subject r) (g_subject g))) GRANT_EXERCISE_SUBJECT_MISMATCH ++
  report (negb (grantCorrelationMatches (g_correlation g) (gx_correlation r))) GRANT_EXERCISE_CORRELATION_INVALID ++
  report (negb (attemptIsWithin (s_action s) (Some (Identity (gx_action r))))) GRANT_EXERCISE_ACTION_OUT_OF_SCOPE ++
  report (negb (attemptIsWithin (s_resources s) (Some (SetOf [gx_resource r])))) GRANT_EXERCISE_RESOURCE_OUT_OF_SCOPE ++
  report (negb (axisAgrees (s_counterparty s) (Identity <$> gx_counterparty r))) GRANT_EXERCISE_COUNTERPARTY_OUT_OF_SCOPE ++
  report (negb (axisAgrees (s_organization s) (Identity <$> gx_organization r))) GRANT_EXERCISE_ORGANIZATION_OUT_OF_SCOPE ++
  report (negb (axisAgrees (s_amount s) (amount_bound <$> gx_amount r))) GRANT_EXERCISE_AMOUNT_EXCEEDED ++
  report (negb (axisAgrees (s_governanceProfile s) (Identity <$> gx_governanceProfile r))) GRANT_EXERCISE_GOVERNANCE_PROFILE_MISMATCH ++
  report (negb (axisAgrees (s_actionClass s) (Identity <$> gx_actionClass r)) ||
          negb (axisAgrees (s_resourceClass s) (Identity <$> gx_resourceClass r))) GRANT_EXERCISE_SEMANTIC_CLASS_MISMATCH ++
  report (negb (parametersAgree (s_parameters s) (gx_parameters r))) GRANT_EXERCISE_PARAMETER_OUT_OF_SCOPE.

Definition assessBoundedGrantExercise (g : BoundedGrant) (revocation : option GrantRevocation) (r : GrantExerciseRequest) (at_ : string) :
    BoundedGrantExerciseAssessment :=
  if negb (isWellFormedGrantExerciseRequest r) then assessed r [GRANT_EXERCISE_REQUEST_MALFORMED]
  else assessed r (exercise_reasons g revocation r at_).

(** ** What a usable assessment means *)

(** Every stated parameter is admitted by the bound of its dimension, and every
    bounded dimension is stated. *)
Definition parameters_covered (granted : option (list GrantParameterBound)) (attempted : option (list GovernedParameter)) : Prop :=
  match granted, attempted with
  | None, None => True
  | Some bounds, Some ps =>
      (∀ p, p ∈ ps → ∃ b, b ∈ bounds ∧ pb_dimension b = dimension p ∧ admitted (pb_bound b) (parameter_value p)) ∧
      (∀ b, b ∈ bounds → ∃ p, p ∈ ps ∧ dimension p = pb_dimension b)
  | _, _ => False
  end.

(** The attempt lies inside the trusted grant, axis by axis, at the instant. *)
Record covered (g : BoundedGrant) (revocation : option GrantRevocation) (r : GrantExerciseRequest) (at_ : string) : Prop := {
  cv_integrity : digest g = boundedGrantDigest g;
  cv_semantics : isConsistentGrantSemantics (g_scope g) (semanticsFormat g) = true;
  cv_unrevoked : revocation = None;
  cv_live : ∃ expiry now, date_parse (expiresAt g) = Some expiry ∧ date_parse at_ = Some now ∧ now < expiry;
  cv_subject : gx_subject r = g_subject g;
  cv_correlation : gx_correlation r = g_correlation g;
  cv_action : s_action (g_scope g) = Some (Identity (gx_action r));
  cv_resource : ∃ values, s_resources (g_scope g) = Some (SetOf values) ∧ gx_resource r ∈ values ∧ forallb nonempty values = true;
  cv_counterparty : s_counterparty (g_scope g) = Identity <$> gx_counterparty r;
  cv_organization : s_organization (g_scope g) = Identity <$> gx_organization r;
  cv_amount : match s_amount (g_scope g), gx_amount r with
    | None, None => True
    | Some (Ceiling limit u), Some a => u = unit_ a ∧ (dec_value (value a) <= dec_value limit)%Q ∧ isWellFormedGrantBound (Ceiling limit u) = true
    | _, _ => False
    end;
  cv_governanceProfile : s_governanceProfile (g_scope g) = Identity <$> gx_governanceProfile r;
  cv_actionClass : s_actionClass (g_scope g) = Identity <$> gx_actionClass r;
  cv_resourceClass : s_resourceClass (g_scope g) = Identity <$> gx_resourceClass r;
  cv_parameters : parameters_covered (s_parameters (g_scope g)) (gx_parameters r);
}.

Lemma report_nil b code : report b code = [] ↔ b = false.
Proof. by destruct b. Qed.

Lemma identity_within g v : nonempty v = true →
  attemptIsWithin g (Some (Identity v)) = true ↔ g = Some (Identity v).
Proof.
  intros Hv. destruct g as [g|]; [|done]. cbn. split.
  - unfold compareGrantBound. destruct (isWellFormedGrantBound g); cbn [negb orb]; [|done]. cbn [isWellFormedGrantBound]. rewrite Hv. cbn [negb].
    destruct g; try done. destruct (str_eqb _ _) eqn:E; [|done]. apply str_eqb_eq in E. congruence.
  - intros [= ->]. by rewrite compareGrantBound_refl.
Qed.

Lemma identity_axis g v : when_present nonempty v = true →
  axisAgrees g (Identity <$> v) = true ↔ g = Identity <$> v.
Proof.
  destruct v as [v|]; cbn [when_present fmap option_fmap option_map].
  - intros Hv. rewrite <-(identity_within g v Hv). by destruct g.
  - intros _. unfold axisAgrees, attemptIsWithin. by destruct g.
Qed.

Lemma resource_within g v : nonempty v = true →
  attemptIsWithin g (Some (SetOf [v])) = true ↔ ∃ values, g = Some (SetOf values) ∧ v ∈ values ∧ forallb nonempty values = true.
Proof.
  intros Hv. destruct g as [g|]; cbn [attemptIsWithin]; [|naive_solver]. split.
  - intros Hp. destruct (compareGrantBound_wf _ _ Hp) as (Hw&_&Hk). destruct g as [|values| |]; try done. exists values.
    split; [done|]. split; [|cbn in Hw; by apply andb_true_iff in Hw as [_ ?]].
    apply (permits_admits _ _ (PText v) Hp). cbn. by left.
  - intros (values&[= ->]&Hin&Hne). apply permits_complete; [|by cbn; rewrite Hv|done|].
    + cbn. rewrite Hne, andb_true_r. apply Z.ltb_lt. destruct values; [by apply elem_of_nil in Hin|cbn; lia].
    + intros [s|q a|t]; cbn; [|done|done]. by intros ->%list_elem_of_singleton.
Qed.

Lemma amount_axis g a : when_present isWellFormedGrantExerciseAmount a = true →
  axisAgrees g (amount_bound <$> a) = true ↔
  match g, a with
  | None, None => True
  | Some (Ceiling limit u), Some a => u = unit_ a ∧ (dec_value (value a) <= dec_value limit)%Q ∧ isWellFormedGrantBound (Ceiling limit u) = true
  | _, _ => False
  end.
Proof.
  destruct a as [a|]; cbn [fmap option_fmap option_map when_present]; [|by destruct g as [[]|]].
  intros Ha. destruct g as [g|]; [|done]. cbn [axisAgrees attemptIsWithin]. unfold amount_bound. split.
  - intros Hp. destruct (compareGrantBound_wf _ _ Hp) as (Hw&_&Hk). destruct g as [| |limit u|]; try done.
    destruct (permits_admits _ _ (PAmount (dec_value (value a)) (unit_ a)) Hp) as [-> Hle]; [split; [done|apply Qle_refl]|]. done.
  - destruct g as [| |limit u|]; try done. intros (->&Hle&Hw). apply permits_complete; [done|by destruct a|done|].
    intros [s|q x|t]; cbn; try done. intros [-> ?]. split; [done|]. by eapply Qle_trans.
Qed.

Lemma parameters_NoDup ps : isWellFormedExerciseParameters ps = true → NoDup (dimension <$> ps).
Proof.
  unfold isWellFormedExerciseParameters. intros [_ Hs]%andb_true_iff.
  apply (every_with_previous_ascending dimension isWellFormedGovernedParameter) in Hs as [_ Hs]. by apply strictly_sorted_NoDup.
Qed.

Lemma grantParameterBound_in bounds d b :
  grantParameterBound (Some bounds) d = Some b → b ∈ bounds ∧ pb_dimension b = d.
Proof. cbn. intros [Hin E]%List.find_some. apply str_eqb_eq in E. by apply list_elem_of_In in Hin. Qed.

Lemma parameters_axis granted attempted : when_present isWellFormedExerciseParameters attempted = true →
  parametersAgree granted attempted = true → parameters_covered granted attempted.
Proof.
  destruct granted as [bounds|], attempted as [ps|]; cbn [when_present parametersAgree parameters_covered]; try done. intros Hps.
  pose proof (parameters_NoDup ps Hps) as Hn. rewrite andb_true_iff, Nat.eqb_eq, forallb_forall. intros [Hl Hf].
  assert (∀ p, p ∈ ps → ∃ b, b ∈ bounds ∧ pb_dimension b = dimension p ∧ admitted (pb_bound b) (parameter_value p)) as Hin.
  { intros p Hp%list_elem_of_In. specialize (Hf p Hp). destruct (grantParameterBound _ _) as [b|] eqn:Hb; [|done].
    apply grantParameterBound_in in Hb as [? ?]. by exists b. }
  split; [done|]. intros b Hb.
  assert (pb_dimension b ∈ dimension <$> ps) as (p&E&?)%list_elem_of_fmap; [|by exists p].
  apply list_elem_of_In, (NoDup_length_incl (l := dimension <$> ps) (l' := pb_dimension <$> bounds)).
  - by apply NoDup_ListNoDup.
  - rewrite !length_fmap. lia.
  - intros d Hd%list_elem_of_In. apply list_elem_of_In. apply list_elem_of_fmap in Hd as (p&->&Hp).
    destruct (Hin p Hp) as (b'&?&<-&_). by apply list_elem_of_fmap_2.
  - by apply list_elem_of_In, list_elem_of_fmap_2.
Qed.

Lemma parameters_axis_complete granted attempted : when_present isWellFormedExerciseParameters attempted = true →
  when_present isWellFormedGrantParameterBounds granted = true →
  parameters_covered granted attempted → parametersAgree granted attempted = true.
Proof.
  destruct granted as [bounds|], attempted as [ps|]; cbn [when_present parametersAgree parameters_covered]; try done.
  intros Hn%parameters_NoDup Hb [Hin Hcov].
  apply wf_parameters_inv in Hb as (_&_&Hbs%strictly_sorted_NoDup).
  rewrite andb_true_iff, Nat.eqb_eq, forallb_forall. split.
  - apply Nat.le_antisymm; rewrite <-(length_fmap dimension ps), <-(length_fmap pb_dimension bounds); apply NoDup_incl_length;
      (try by apply NoDup_ListNoDup); intros d Hd%list_elem_of_In; apply list_elem_of_In;
      apply list_elem_of_fmap in Hd as (x&->&Hx).
    + destruct (Hin x Hx) as (b&?&<-&_). by apply list_elem_of_fmap_2.
    + destruct (Hcov x Hx) as (q&?&<-). by apply list_elem_of_fmap_2.
  - intros p Hp%list_elem_of_In. destruct (Hin p Hp) as (b&Hb&Hd&Ha). cbn [grantParameterBound].
    by rewrite (proj2 (find_key pb_dimension bounds (dimension p) b Hbs)).
Qed.

Lemma expired_at_false g at_ :
  expired_at g at_ = false ↔ ∃ expiry now, date_parse (expiresAt g) = Some expiry ∧ date_parse at_ = Some now ∧ now < expiry.
Proof.
  unfold expired_at. destruct (date_parse (expiresAt g)) as [e|]; [|naive_solver].
  destruct (date_parse at_) as [n|]; [|naive_solver]. rewrite Z.leb_gt. naive_solver.
Qed.

Lemma exercise_reasons_nil g revocation r at_ :
  exercise_reasons g revocation r at_ = [] ↔
  let s := g_scope g in
  boundedGrantDigestMatches g = true ∧ isConsistentGrantSemantics s (semanticsFormat g) = true ∧ revocation = None ∧
  expired_at g at_ = false ∧ gx_subject r = g_subject g ∧ g_correlation g = gx_correlation r ∧
  attemptIsWithin (s_action s) (Some (Identity (gx_action r))) = true ∧
  attemptIsWithin (s_resources s) (Some (SetOf [gx_resource r])) = true ∧
  axisAgrees (s_counterparty s) (Identity <$> gx_counterparty r) = true ∧
  axisAgrees (s_organization s) (Identity <$> gx_organization r) = true ∧
  axisAgrees (s_amount s) (amount_bound <$> gx_amount r) = true ∧
  axisAgrees (s_governanceProfile s) (Identity <$> gx_governanceProfile r) = true ∧
  axisAgrees (s_actionClass s) (Identity <$> gx_actionClass r) = true ∧
  axisAgrees (s_resourceClass s) (Identity <$> gx_resourceClass r) = true ∧
  parametersAgree (s_parameters s) (gx_parameters r) = true.
Proof.
  unfold exercise_reasons. cbn zeta. rewrite !app_nil, !report_nil, !orb_false_iff, !negb_false_iff, str_eqb_eq, grantCorrelationMatches_eq.
  assert (is_some revocation = false ↔ revocation = None) as -> by (by destruct revocation).
  unfold isWellFormedBoundedGrantSemantics. tauto.
Qed.

Lemma usable_reasons g revocation r at_ :
  ba_usable (assessBoundedGrantExercise g revocation r at_) = true ↔
  isWellFormedGrantExerciseRequest r = true ∧ exercise_reasons g revocation r at_ = [].
Proof.
  unfold assessBoundedGrantExercise. destruct (isWellFormedGrantExerciseRequest r); cbn; [|naive_solver].
  destruct (exercise_reasons g revocation r at_); naive_solver.
Qed.

Lemma usable_covered g revocation r at_ :
  ba_usable (assessBoundedGrantExercise g revocation r at_) = true →
  isWellFormedGrantExerciseRequest r = true ∧ covered g revocation r at_.
Proof.
  intros [Hw Hr]%usable_reasons. split; [done|]. unfold isWellFormedGrantExerciseRequest in Hw. split_and_bool.
  apply exercise_reasons_nil in Hr as (Hi&?&?&He&?&?&Ha&Hres&Hc&Ho&Ham&Hg&Hac&Hrc&Hp).
  constructor; try done.
  - unfold boundedGrantDigestMatches in Hi. by apply str_eqb_eq in Hi.
  - by apply expired_at_false.
  - by apply identity_within.
  - by apply resource_within.
  - by apply identity_axis.
  - by apply identity_axis.
  - by apply amount_axis.
  - by apply identity_axis.
  - by apply identity_axis.
  - by apply identity_axis.
  - by apply parameters_axis.
Qed.

(** C30. The assessment of an attempt is exact: it is usable precisely when the
    request is well formed and the trusted grant covers it at the instant:
    intact, unrevoked, unexpired, held by the same subject under the same
    correlation, with the same action, a member resource, the same stated or
    unstated counterparty, organization, profile and classes, an amount at or
    below the ceiling in the same asset, and each bounded dimension stated and
    admitted. *)
Theorem assessBoundedGrantExercise_exact g revocation r at_ :
  when_present isWellFormedGrantParameterBounds (s_parameters (g_scope g)) = true →
  ba_usable (assessBoundedGrantExercise g revocation r at_) = true ↔
  isWellFormedGrantExerciseRequest r = true ∧ covered g revocation r at_.
Proof.
  intros Hps. split; [apply usable_covered|]. intros [Hw Hc]. apply usable_reasons. split; [done|].
  unfold isWellFormedGrantExerciseRequest in Hw. split_and_bool. destruct Hc. apply exercise_reasons_nil. cbn zeta.
  split; [by apply str_eqb_eq|]. do 2 (split; [done|]). split; [by apply expired_at_false|]. do 2 (split; [done|]).
  split; [by apply identity_within|]. split; [by apply resource_within|].
  do 2 (split; [by apply identity_axis|]). split; [by apply amount_axis|].
  do 3 (split; [by apply identity_axis|]). by apply parameters_axis_complete.
Qed.

(** The two exercise assessments never disagree on the facts they share: an
    attempt found usable names a grant the grant layer itself finds
    exercisable at that instant, with no reason against it. *)
Theorem usable_is_exercisable g revocation r at_ :
  ba_usable (assessBoundedGrantExercise g revocation r at_) = true →
  assessGrantExercise g revocation at_ = (exercisable, []).
Proof.
  intros [_ (Hi&Hs&->&He&_)%exercise_reasons_nil]%usable_reasons. unfold assessGrantExercise, isWellFormedBoundedGrantSemantics.
  rewrite Hi, Hs. unfold expired_at in He. cbn. destruct (date_parse (expiresAt g)), (date_parse at_); try done. by rewrite He.
Qed.

End Assessment.

(** ** A sample attempt under the sample grant *)

Definition sample_exercise : GrantExerciseRequest := {|
  gx_boundedGrantId := id sample_grant; gx_subject := "agent-7"; gx_action := "payment"; gx_resource := "acct-1";
  gx_counterparty := Some "acme"; gx_organization := None; gx_amount := Some {| value := "60.25"; unit_ := "USD" |};
  gx_governanceProfile := Some "profile@1"; gx_actionClass := Some "transfer"; gx_resourceClass := Some "account";
  gx_parameters := Some
    [ {| dimension := "environment"; parameter_value := VToken "prod" |};
      {| dimension := "recordCount"; parameter_value := VInteger (JInt 7) |} ];
  gx_correlation := correlation sample_source; gx_executionId := "exec-1" |}.

Lemma sample_usable : ba_usable (@assessBoundedGrantExercise demo_host sample_grant None sample_exercise "450") = true.
Proof. vm_compute. reflexivity. Qed.

Lemma assessBoundedGrantExercise_exact_witness : @covered demo_host sample_grant None sample_exercise "450".
Proof.
  apply (proj1 (@assessBoundedGrantExercise_exact demo_host sample_grant None sample_exercise "450" ltac:(vm_compute; reflexivity)) sample_usable).
Defined.

Lemma usable_is_exercisable_witness : @assessGrantExercise demo_host sample_grant None "450" = (exercisable, []).
Proof. apply (@usable_is_exercisable demo_host sample_grant None sample_exercise "450"). exact sample_usable. Defined.
