(* ===== verification/AdapterPort.v ===== *)
(** * The execution adapter port and the outcome vocabulary

    Model of [execution-runtime/domain]: [execution-adapter-port.ts] (the
    validated action, the adapter's result and how an untrusted one is read),
    [provider-reference.ts] (with its regular expressions),
    [provider-certainty.ts] and [execution-outcome.ts]. *)

From S2P Require Import Prelude Decimal Js Monetary Parameters GrantAttenuation EmergencyControl ExerciseControl GrantExercise.

Local Open Scope Z_scope.
Local Open Scope frontera_scope.

(** ** The validated action *)

Record ValidatedExecutionCorrelation := { vc_requestId : string; vc_decisionId : string; vc_executionId : string }.

Record ValidatedExecutionAction := {
  va_boundedGrantId : string;
  va_subject : string;
  va_action : string;
  va_resource : string;
  va_counterparty : option string;
  va_organization : option string;
  va_amount : option MonetaryAmount;
  va_parameters : option (list GovernedParameter);
  va_notAfter : string;
  va_correlation : ValidatedExecutionCorrelation;
}.

(** ** Adapter results *)

Inductive ExecutionFailureReason := PROVIDER_REJECTED | PROVIDER_UNAVAILABLE | PROVIDER_RESPONSE_INVALID | ADAPTER_ERROR.

Definition failure_reason_name (r : ExecutionFailureReason) : string :=
  match r with
  | PROVIDER_REJECTED => "PROVIDER_REJECTED" | PROVIDER_UNAVAILABLE => "PROVIDER_UNAVAILABLE"
  | PROVIDER_RESPONSE_INVALID => "PROVIDER_RESPONSE_INVALID" | ADAPTER_ERROR => "ADAPTER_ERROR"
  end.
Definition EXECUTION_FAILURE_REASON_VALUES : list ExecutionFailureReason :=
  [PROVIDER_REJECTED; PROVIDER_UNAVAILABLE; PROVIDER_RESPONSE_INVALID; ADAPTER_ERROR].

Inductive ExecutionAdapterResult :=
  | Completed (providerRef adapterId : option string)
  | Failed (reason : ExecutionFailureReason) (providerRef detail adapterId : option string)
  | Unconfirmed (providerRef detail adapterId : option string).

(** What adapter code may throw: the emergency signal (any module can build
    one), another [Error] with its [message] when that reads as a string, or
    anything else. *)
Inductive Thrown :=
  | ThrownEmergency (e : EmergencyControlWithheldError)
  | ThrownError (message : option string)
  | ThrownOther.

Definition withheld_message : string := "Execution was withheld by an active or unreadable emergency control.".

Definition adapterErrorDetail (error : Thrown) : option string :=
  match error with
  | ThrownEmergency _ => Some withheld_message
  | ThrownError (Some message) => if nonempty message then Some message else None
  | _ => None
  end.

(** Reading a property runs the adapter's accessor, if it is one; [raised] is
    what a throwing accessor throws. *)
Definition read_property (raised : Thrown) (key : string) (properties : list (string * JsValue)) : result Thrown JsValue :=
  match own_property key properties with
  | Some JsAccessor => Throw raised
  | Some v => Ok v
  | None => Ok JsUndefined
  end.

(** A field that must be a string when it is not [undefined]. *)
Definition string_field (v : JsValue) : option (option string) :=
  match v with JsUndefined => Some None | JsString s => Some (Some s) | _ => None end.

Definition string_or_absent (v : JsValue) : option string := match v with JsString s => Some s | _ => None end.

Definition readExecutionAdapterResult (raised : Thrown) (v : JsValue) : result Thrown (option ExecutionAdapterResult) :=
  match v with
  | JsObject _ source =>
      let* outcome := read_property raised "outcome" source in
      let* adapterId := read_property raised "adapterId" source in
      match string_field adapterId with
      | None => Ok None
      | Some adapterId =>
          let* providerRef := read_property raised "providerRef" source in
          let reference := string_or_absent providerRef in
          match outcome with
          | JsString outcome =>
              if str_eqb outcome "completed" then
                match string_field providerRef with None => Ok None | Some _ => Ok (Some (Completed reference adapterId)) end
              else if str_eqb outcome "failed" then
                let* reason := read_property raised "reason" source in
                let* detail := read_property raised "detail" source in
                match List.find (λ r, match reason with JsString s => str_eqb (failure_reason_name r) s | _ => false end)
                        EXECUTION_FAILURE_REASON_VALUES with
                | None => Ok None
                | Some reason => match string_field detail with None => Ok None | Some detail => Ok (Some (Failed reason reference detail adapterId)) end
                end
              else if str_eqb outcome "unconfirmed" then
                let* detail := read_property raised "detail" source in
                match string_field detail with None => Ok None | Some detail => Ok (Some (Unconfirmed reference detail adapterId)) end
              else Ok None
          | _ => Ok None
          end
      end
  | JsArray _ => Ok None
  | _ => Ok None
  end.

(** The object a trusted layer builds from a result, absent fields omitted. *)
Definition object_field (key : string) (v : option string) : list (string * JsValue) :=
  match v with Some s => [(key, JsString s)] | None => [] end.
Definition result_object (r : ExecutionAdapterResult) : JsValue :=
  JsObject true (match r with
  | Completed ref by_ => [("outcome", JsString "completed")] ++ object_field "providerRef" ref ++ object_field "adapterId" by_
  | Failed reason ref detail by_ => [("outcome", JsString "failed"); ("reason", JsString (failure_reason_name reason))] ++
      object_field "providerRef" ref ++ object_field "detail" detail ++ object_field "adapterId" by_
  | Unconfirmed ref detail by_ => [("outcome", JsString "unconfirmed")] ++
      object_field "providerRef" ref ++ object_field "detail" detail ++ object_field "adapterId" by_
  end).

(** ** Regular expressions

    Backtracking search over the code units. [matches] lists every way to
    match a prefix: the code unit before what remains, and what remains. A
    repetition goes on only while it consumes, so the length bounds it. *)

Inductive Regex :=
  | RClass (p : ascii → bool)
  | RSeq (a b : Regex)
  | RAlt (a b : Regex)
  | RStar (a : Regex)
  | REmpty
  | RStart
  | RBoundary.

Definition is_word (c : ascii) : bool := is_alnum c || (code c =? 95).
Definition word_at (c : option ascii) : bool := match c with Some c => is_word c | None => false end.

Definition Position : Type := option ascii * list ascii.

Fixpoint repeated (step : Position → list Position) (fuel : nat) (p : Position) : list Position :=
  match fuel with
  | O => [p]
  | S fuel => p :: mbind (repeated step fuel) (List.filter (λ q, (length q.2 <? length p.2)%nat) (step p))
  end.

Fixpoint matches (r : Regex) (p : Position) : list Position :=
  match r with
  | RClass f => match p.2 with c :: rest => if f c then [(Some c, rest)] else [] | [] => [] end
  | RSeq a b => mbind (matches b) (matches a p)
  | RAlt a b => matches a p ++ matches b p
  | RStar a => repeated (matches a) (length p.2) p
  | REmpty => [p]
  | RStart => match p.1 with None => [p] | Some _ => [] end
  | RBoundary => if negb (Bool.eqb (word_at p.1) (word_at (head p.2))) then [p] else []
  end.

(** [pattern.test(text)]: some position has a match. *)
Fixpoint search_from (r : Regex) (previous : option ascii) (l : list ascii) : bool :=
  match matches r (previous, l) with
  | _ :: _ => true
  | [] => match l with [] => false | c :: l => search_from r (Some c) l end
  end.
Definition regex_test (r : Regex) (s : string) : bool := search_from r None (chars s).

Definition rseq : list Regex → Regex := foldr RSeq REmpty.
Definition rlit (s : string) : Regex := rseq ((λ c, RClass (λ x, bool_decide (x = c))) <$> chars s).
(** A literal under the [i] flag, written in lower case. *)
Definition rlit_i (s : string) : Regex := rseq ((λ c, RClass (λ x, bool_decide (ascii_lower x = c))) <$> chars s).
Definition rplus (r : Regex) : Regex := RSeq r (RStar r).
Definition ropt (r : Regex) : Regex := RAlt r REmpty.
Definition at_least (n : nat) (r : Regex) : Regex := RSeq (rseq (replicate n r)) (RStar r).
Definition rspace : Regex := RClass is_space.
Definition colon_or_equals : Regex := RClass (one_of ":=").

Definition UNSAFE_REFERENCE_PATTERNS : list Regex := [
  rseq [RBoundary; rlit_i "bearer"; rspace];
  rseq [RBoundary; rlit_i "basic"; rplus rspace; at_least 8 (RClass (λ c, is_alnum c || one_of "+/=" c))];
  rseq [RStart; rlit "eyJ"; at_least 4 (RClass (λ c, is_alnum c || one_of "_-" c)); rlit ".";
        at_least 4 (RClass (λ c, is_alnum c || one_of "_-" c))];
  rseq [rlit "-----BEGIN "; RStar (RClass (λ c, is_upper c || one_of " " c));
        RAlt (rlit "PRIVATE KEY") (rlit "CERTIFICATE"); rlit "-----"];
  rseq [RClass (λ c, is_lower c || is_upper c); RStar (RClass (λ c, is_alnum c || one_of "+.-" c)); rlit "://"];
  rseq [RAlt RStart (RClass (λ c, one_of ";" c || is_space c)); ropt (rlit_i "set-"); rlit_i "cookie"; RStar rspace; colon_or_equals];
  rseq [RBoundary; rlit_i "authorization"; RStar rspace; colon_or_equals]
].

Definition PROVIDER_REFERENCE_MAXIMUM_LENGTH : Z := 512.

(** Printable ASCII, starting and ending with a code unit other than the space. *)
Definition PRINTABLE_TRIMMED (s : string) : bool :=
  match chars s with
  | [] => false
  | c :: l => in_range 33 126 c && forallb (in_range 32 126) l && match last l with None => true | Some e => in_range 33 126 e end
  end.

Definition isRecordableProviderRef (v : option string) : bool :=
  match v with
  | None => false
  | Some s => nonempty s && (js_length s <=? PROVIDER_REFERENCE_MAXIMUM_LENGTH) && PRINTABLE_TRIMMED s &&
      forallb (λ pattern, negb (regex_test pattern s)) UNSAFE_REFERENCE_PATTERNS
  end.

(** ** Outcomes *)

Record EmergencyWithholding := { ew_reasonCodes : list EmergencyControlReasonCode; ew_matchedScopes : list EmergencyControlScopeMatch }.

Record Performer := { adapterId : string; routedBy : option string }.

(** The cases of [ExecutionOutcome]; the assessment, the correlation and the
    instant they all carry are the fields of [ExecutionOutcome]. *)
Inductive ExecutionStatus :=
  | Executed (by_ : Performer) (providerRef : option string)
  | WithheldByGrant
  | WithheldByEmergency (e : EmergencyWithholding)
  | WithheldByExerciseControl (reasonCodes : list ExerciseControlReasonCode)
  | ExecutionFailed (by_ : Performer) (reason : ExecutionFailureReason) (providerRef detail : option string)
  | ExecutionUnconfirmed (by_ : Performer) (providerRef detail : option string).

Record ExecutionOutcome := {
  eo_status : ExecutionStatus;
  eo_assessment : BoundedGrantExerciseAssessment;
  eo_correlation : ValidatedExecutionCorrelation;
  eo_exercisedAt : string;
}.

Inductive ProviderEffectCertainty := confirmed_completed | confirmed_not_completed_effect | unconfirmed_effect.
Inductive ProviderObservedExecutionStatus := ps_executed | ps_execution_failed | ps_execution_unconfirmed.

Definition providerEffectCertaintyOf (s : ProviderObservedExecutionStatus) : ProviderEffectCertainty :=
  match s with
  | ps_executed => confirmed_completed
  | ps_execution_failed => confirmed_not_completed_effect
  | ps_execution_unconfirmed => unconfirmed_effect
  end.
Definition executionStatusOfCertainty (c : ProviderEffectCertainty) : ProviderObservedExecutionStatus :=
  match c with
  | confirmed_completed => ps_executed
  | confirmed_not_completed_effect => ps_execution_failed
  | unconfirmed_effect => ps_execution_unconfirmed
  end.

(** ** Round trip *)

(** A result a trusted layer built reads back as itself, whatever accessors
    elsewhere would throw. *)
Lemma read_result_object raised r : readExecutionAdapterResult raised (result_object r) = Ok (Some r).
Proof. destruct r as [[ref|] [by_|]|[] [ref|] [d|] [by_|]|[ref|] [d|] [by_|]]; reflexivity. Qed.

(** Reading an adapter's answer is a round trip on well-formed results and
    fails closed on everything else: a result object reads back exactly; and
    whatever is read is one whose own object the port accepts, so an answer
    that is no object, names no known outcome, gives a failure no reason of the
    closed vocabulary, or types a carried field otherwise yields no result. *)
Theorem adapter_result_roundtrip raised :
  (∀ r, readExecutionAdapterResult raised (result_object r) = Ok (Some r)) ∧
  (∀ v r, readExecutionAdapterResult raised v = Ok (Some r) →
    ∃ plain properties, v = JsObject plain properties ∧
      own_property "outcome" properties = Some (JsString (match r with Completed _ _ => "completed" | Failed _ _ _ _ => "failed" | Unconfirmed _ _ _ => "unconfirmed" end)) ∧
      match r with
      | Failed reason _ _ _ => own_property "reason" properties = Some (JsString (failure_reason_name reason))
      | _ => True
      end).
Proof.
  split; [apply read_result_object|]. intros v r E. destruct v as [| | | | | |plain props| |]; try done. exists plain, props.
  split; [done|]. cbn [readExecutionAdapterResult] in E. apply result_bind_Ok in E as (o&Ho&E). apply result_bind_Ok in E as (i&_&E).
  destruct (string_field i); [|done]. apply result_bind_Ok in E as (p&_&E). destruct o as [| | | |o| | | |]; try done.
  assert (own_property "outcome" props = Some (JsString o)) as ->.
  { unfold read_property in Ho. destruct (own_property "outcome" props) as [[]|]; try done. congruence. }
  destruct (str_eqb o "completed") eqn:E1; [|destruct (str_eqb o "failed") eqn:E2; [|destruct (str_eqb o "unconfirmed") eqn:E3; [|done]]].
  - apply str_eqb_eq in E1 as ->. destruct (string_field p); [|done]. by injection E as <-.
  - apply str_eqb_eq in E2 as ->. apply result_bind_Ok in E as (reason&Hr&E). apply result_bind_Ok in E as (d&_&E).
    destruct (List.find _ _) as [rs|] eqn:Hf; [|done]. destruct (string_field d); [|done]. injection E as <-. split; [done|].
    apply List.find_some in Hf as [_ Hf]. destruct reason as [| | | |reason| | | |]; try done. apply str_eqb_eq in Hf as <-.
    unfold read_property in Hr. destruct (own_property "reason" props) as [[]|]; try done. congruence.
  - apply str_eqb_eq in E3 as ->. apply result_bind_Ok in E as (d&_&E). destruct (string_field d); [|done]. by injection E as <-.
Qed.

(** ** What a recordable reference cannot hold *)

Lemma matches_seq a b p q r : q ∈ matches a p → r ∈ matches b q → r ∈ matches (RSeq a b) p.
Proof. intros Ha Hb. cbn. apply list_elem_of_bind. by exists q. Qed.

Lemma matches_star_stop a p : p ∈ matches (RStar a) p.
Proof. cbn. destruct (length p.2); cbn; by left. Qed.

Lemma matches_class f prev c l : f c = true → (Some c, l) ∈ matches (RClass f) (prev, c :: l).
Proof. intros Hf. cbn. rewrite Hf. by left. Qed.

(** The code unit before a position reached by reading [l]. *)
Definition before (prev : option ascii) (l : list ascii) : option ascii := match last l with Some c => Some c | None => prev end.

Lemma before_cons prev c l : before prev (c :: l) = before (Some c) l.
Proof. unfold before. rewrite last_cons. by destruct (last l). Qed.

(** A literal matches its own text. *)
Lemma matches_literal (f : ascii → ascii → bool) s t prev l :
  Forall2 (λ c x, f x c = true) s t →
  (before prev t, l) ∈ matches (rseq ((λ c, RClass (λ x, f x c)) <$> s)) (prev, t ++ l).
Proof.
  intros Hst. revert prev. induction Hst as [|c x s t Hc _ IH]; intros prev; [by left|].
  cbn [fmap list_fmap rseq foldr app]. rewrite before_cons. eapply matches_seq; [by apply matches_class|]. apply IH.
Qed.

Lemma search_from_here r prev l q : q ∈ matches r (prev, l) → search_from r prev l = true.
Proof. intros Hq. destruct (matches r (prev, l)) eqn:E; [by apply elem_of_nil in Hq|]. destruct l; cbn [search_from]; by rewrite E. Qed.

Lemma search_from_app r prev l k q : q ∈ matches r (before prev l, k) → search_from r prev (l ++ k) = true.
Proof.
  revert prev. induction l as [|c l IH]; intros prev Hq; [by eapply search_from_here|].
  rewrite before_cons in Hq. cbn [app search_from]. destruct (matches r (prev, c :: (l ++ k))); [by apply IH|done].
Qed.

Lemma recordable_avoids s r : isRecordableProviderRef (Some s) = true → r ∈ UNSAFE_REFERENCE_PATTERNS → regex_test r s = false.
Proof.
  cbn [isRecordableProviderRef]. intros [_ Hf]%andb_true_iff Hr. rewrite forallb_forall in Hf.
  specialize (Hf r ltac:(by apply list_elem_of_In)). by apply negb_true_iff in Hf.
Qed.

(** A recordable provider reference is bounded, printable and trimmed, and
    smuggles neither a destination nor a bearer credential: it holds no URL (a
    letter followed by the scheme separator, anywhere) and no bearer keyword
    in any letter case at a word start followed by a space. *)
Theorem recordable_reference_safe s :
  isRecordableProviderRef (Some s) = true →
  0 < js_length s ≤ 512 ∧ Forall (λ c, in_range 32 126 c = true) (chars s) ∧
  (∀ l c k, chars s = l ++ [c] ++ chars "://" ++ k → is_lower c || is_upper c = false) ∧
  (∀ l w c k, chars s = l ++ w ++ [c] ++ k → ascii_lower <$> w = chars "bearer" → is_space c = true → word_at (last l) = true).
Proof.
  intros Hr. pose proof (recordable_avoids s) as Ha. specialize (λ r, Ha r Hr).
  cbn [isRecordableProviderRef] in Hr. rewrite !andb_true_iff, Z.leb_le in Hr. destruct Hr as [[[Hn Hl] Hp] _].
  split; [|split; [|split]].
  - unfold js_length, PRINTABLE_TRIMMED, PROVIDER_REFERENCE_MAXIMUM_LENGTH in *. destruct (chars s); cbn in *; [done|lia].
  - unfold PRINTABLE_TRIMMED in Hp. destruct (chars s) as [|c l]; [constructor|]. rewrite !andb_true_iff, forallb_forall in Hp.
    destruct Hp as [[Hc Hf] _]. constructor; [unfold in_range in *; lia|].
    apply Forall_forall. intros x Hx. apply Hf. by apply list_elem_of_In.
  - intros l c k E. apply not_true_iff_false. intros Hc.
    assert (regex_test (rseq [RClass (λ c, is_lower c || is_upper c); RStar (RClass (λ c, is_alnum c || one_of "+.-" c)); rlit "://"]) s = true) as Ht;
      [|by rewrite Ha in Ht by (do 4 right; by left)].
    unfold regex_test. rewrite E. eapply search_from_app. cbn [rseq foldr].
    eapply matches_seq; [by apply matches_class|]. eapply matches_seq; [apply matches_star_stop|].
    eapply matches_seq; [|by left]. apply (matches_literal (λ x c, bool_decide (x = c))). repeat constructor.
  - intros l w c k E Hw Hc. apply not_false_iff_true. intros Hb.
    assert (regex_test (rseq [RBoundary; rlit_i "bearer"; rspace]) s = true) as Ht; [|by rewrite Ha in Ht by (by left)].
    unfold regex_test. rewrite E. eapply search_from_app. cbn [rseq foldr].
    assert (before None l = last l) as -> by (unfold before; by destruct (last l)).
    destruct w as [|x w']; [done|].
    assert (is_word x = true) as Hx.
    { injection Hw as Hx _. unfold ascii_lower in Hx. destruct (is_upper x) eqn:U; [unfold is_word, is_alnum; by rewrite U, !orb_true_r|by subst x]. }
    eapply matches_seq.
    { cbn [matches fst snd app head]. rewrite Hb. cbn [word_at]. rewrite Hx. by left. }
    eapply matches_seq; [apply (matches_literal (λ x c, bool_decide (ascii_lower x = c)) _ (x :: w'))|].
    + rewrite <-Hw. clear. generalize (x :: w'). intros t. induction t; constructor; [by rewrite bool_decide_true|done].
    + eapply matches_seq; [by apply matches_class|by left].
Qed.

Lemma recordable_reference_safe_witness :
  isRecordableProviderRef (Some "job 42: bearer-of-news") = true ∧
  is_lower "y" || is_upper "y" = true ∧ isRecordableProviderRef (Some "see https://example.test") = false ∧
  isRecordableProviderRef (Some "Bearer abc") = false ∧ (0 < js_length "job 42: bearer-of-news" ≤ 512).
Proof.
  do 4 (split; [vm_compute; reflexivity|]). apply (recordable_reference_safe "job 42: bearer-of-news"). vm_compute. reflexivity.
Defined.
