(* ===== verification/Execution.v ===== *)
(** * Execution: adapter routing and the grant execution service

    Model of [execution-runtime/services/execution-adapter-registry.ts] and
    [grant-execution-service.ts]. The services are programs over the calls they
    make to what they are composed with (grant store, clock, emergency reader,
    exercise-control gate, adapters), so that a statement over all traces of a
    program is a statement over every behaviour of those parties. A clock that
    throws rejects the whole exercise before any later call and has no trace
    here. *)

From S2P Require Import Prelude Decimal Js Monetary Parameters GrantBounds GrantAttenuation GrantStore ExerciseControl ExerciseLedger ExerciseGate EmergencyControl GrantExercise AdapterPort.

Local Open Scope Z_scope.
Local Open Scope frontera_scope.

(** ** Composing a registry *)

Inductive ExecutionAdapterRegistryErrorCode :=
  | EXECUTION_ADAPTER_REGISTRY_EMPTY
  | EXECUTION_ADAPTER_MALFORMED
  | EXECUTION_ADAPTER_ID_DUPLICATE
  | EXECUTION_ADAPTER_REGISTRY_RECURSIVE
  | EXECUTION_ADAPTER_SELECTOR_INVALID.

(** A candidate: what its [adapterId] reads as, the one time it is read,
    whether [execute] is a function, and whether the object is in
    [COMPOSED_REGISTRIES]. *)
Inductive AdapterCandidate :=
  | CandidateNonObject
  | Candidate (adapterId : JsValue) (hasExecute composedRegistry : bool).

(** [selectAdapter] answers [None] when it throws. *)
Record AdapterRegistry := {
  reg_adapterId : string;
  reg_members : list string;
  reg_selectAdapter : ValidatedExecutionAction → option JsValue;
  reg_emergencyControl : bool;
}.

Record ExecutionAdapterRegistryOptions := {
  ro_adapterId : JsValue;
  ro_adapters : option (list AdapterCandidate);
  ro_selectAdapter : option (ValidatedExecutionAction → option JsValue);
  ro_emergencyControl : bool;
}.

Definition DEFAULT_REGISTRY_ADAPTER_ID : string := "frontera.execution-adapter-registry".

Definition isRecordableExecutionAdapterId (s : string) : bool :=
  match chars s with
  | [] => false
  | c :: l => is_alnum c && forallb (λ c, is_alnum c || one_of "._:/-" c) l && (length l <=? 63)%nat
  end.

Definition usableAdapterId (c : AdapterCandidate) : option string :=
  match c with
  | CandidateNonObject => None
  | Candidate i hasExecute _ => match i with JsString s => if hasExecute then Some s else None | _ => None end
  end.

Definition in_composed_registries (c : AdapterCandidate) : bool :=
  match c with CandidateNonObject => false | Candidate _ _ r => r end.

Definition is_blank (s : string) : bool := bool_decide (js_trim (chars s) = []).

Fixpoint resolve_members (own : string) (resolved : list string) (candidates : list AdapterCandidate) :
    result ExecutionAdapterRegistryErrorCode (list string) :=
  match candidates with
  | [] => Ok resolved
  | c :: candidates =>
      match usableAdapterId c with
      | None => Throw EXECUTION_ADAPTER_MALFORMED
      | Some memberId =>
          if is_blank memberId then Throw EXECUTION_ADAPTER_MALFORMED
          else if str_eqb memberId own || in_composed_registries c then Throw EXECUTION_ADAPTER_REGISTRY_RECURSIVE
          else if negb (isRecordableExecutionAdapterId memberId) then Throw EXECUTION_ADAPTER_MALFORMED
          else if bool_decide (memberId ∈ resolved) then Throw EXECUTION_ADAPTER_ID_DUPLICATE
          else resolve_members own (resolved ++ [memberId]) candidates
      end
  end.

Definition createExecutionAdapterRegistry (o : ExecutionAdapterRegistryOptions) : result ExecutionAdapterRegistryErrorCode AdapterRegistry :=
  let adapterId := match ro_adapterId o with JsUndefined | JsNull => JsString DEFAULT_REGISTRY_ADAPTER_ID | v => v end in
  match adapterId with
  | JsString own =>
      if is_blank own then Throw EXECUTION_ADAPTER_MALFORMED
      else match ro_selectAdapter o with
      | None => Throw EXECUTION_ADAPTER_SELECTOR_INVALID
      | Some select =>
          match ro_adapters o with
          | None | Some [] => Throw EXECUTION_ADAPTER_REGISTRY_EMPTY
          | Some candidates =>
              let* members := resolve_members own [] candidates in
              Ok {| reg_adapterId := own; reg_members := members; reg_selectAdapter := select; reg_emergencyControl := ro_emergencyControl o |}
          end
      end
  | _ => Throw EXECUTION_ADAPTER_MALFORMED
  end.

(** ** Programs *)

(** What awaiting [adapter.execute] yields; [raised] is what reading the
    returned object throws, when it throws. *)
Inductive AdapterAnswer := AdapterThrew (error : Thrown) | AdapterReturned (returned : JsValue) (raised : Thrown).

Definition StoreAnswer : Type := option (option BoundedGrant * option GrantRevocation).

Inductive prog (A : Type) :=
  | Ret (a : A)
  | DoRead (grantId : string) (k : StoreAnswer → prog A)
  | DoNow (k : string → prog A)
  | DoEmergency (q : EmergencyControlQuery) (k : ReaderAnswer → prog A)
  | DoAdmit (i : ExerciseControlAdmissionInput) (k : ExerciseControlAdmission → prog A)
  | DoRevalidate (h : ExerciseReservationHandle) (i : ExerciseControlAdmissionInput) (k : ExerciseControlRevalidation → prog A)
  | DoFinalize (h : ExerciseReservationHandle) (d : ExerciseReservationDisposition) (k : ExerciseReservationFinalization → prog A)
  | DoExecute (target : string) (action : ValidatedExecutionAction) (k : AdapterAnswer → prog A).
Arguments Ret {A}. Arguments DoRead {A}. Arguments DoNow {A}. Arguments DoEmergency {A}. Arguments DoAdmit {A}.
Arguments DoRevalidate {A}. Arguments DoFinalize {A}. Arguments DoExecute {A}.

#[export] Instance prog_ret : MRet prog := @Ret.
#[export] Instance prog_bind : MBind prog := λ A B f, fix go p :=
  match p with
  | Ret a => f a
  | DoRead i k => DoRead i (λ x, go (k x))
  | DoNow k => DoNow (λ x, go (k x))
  | DoEmergency q k => DoEmergency q (λ x, go (k x))
  | DoAdmit i k => DoAdmit i (λ x, go (k x))
  | DoRevalidate h i k => DoRevalidate h i (λ x, go (k x))
  | DoFinalize h d k => DoFinalize h d (λ x, go (k x))
  | DoExecute t a k => DoExecute t a (λ x, go (k x))
  end.

Definition do_read (i : string) : prog StoreAnswer := DoRead i Ret.
Definition do_now : prog string := DoNow Ret.
Definition do_emergency (q : EmergencyControlQuery) : prog ReaderAnswer := DoEmergency q Ret.
Definition do_admit (i : ExerciseControlAdmissionInput) : prog ExerciseControlAdmission := DoAdmit i Ret.
Definition do_revalidate (h : ExerciseReservationHandle) (i : ExerciseControlAdmissionInput) : prog ExerciseControlRevalidation := DoRevalidate h i Ret.
Definition do_finalize (h : ExerciseReservationHandle) (d : ExerciseReservationDisposition) : prog ExerciseReservationFinalization := DoFinalize h d Ret.
Definition do_execute (t : string) (a : ValidatedExecutionAction) : prog AdapterAnswer := DoExecute t a Ret.

(** One call with its answer. *)
Inductive obs :=
  | ORead (grantId : string) (answer : StoreAnswer)
  | ONow (answer : string)
  | OEmergency (q : EmergencyControlQuery) (answer : ReaderAnswer)
  | OAdmit (i : ExerciseControlAdmissionInput) (answer : ExerciseControlAdmission)
  | ORevalidate (h : ExerciseReservationHandle) (i : ExerciseControlAdmissionInput) (answer : ExerciseControlRevalidation)
  | OFinalize (h : ExerciseReservationHandle) (d : ExerciseReservationDisposition) (answer : ExerciseReservationFinalization)
  | OExecute (target : string) (action : ValidatedExecutionAction) (answer : AdapterAnswer).

(** [runs p tr a]: given the answers of [tr], [p] makes exactly the calls of
    [tr] and returns [a]. *)
Fixpoint runs {A} (p : prog A) (tr : list obs) (a : A) : Prop :=
  match p with
  | Ret x => tr = [] ∧ x = a
  | DoRead i k => match tr with ORead i' x :: tr => i' = i ∧ runs (k x) tr a | _ => False end
  | DoNow k => match tr with ONow x :: tr => runs (k x) tr a | _ => False end
  | DoEmergency q k => match tr with OEmergency q' x :: tr => q' = q ∧ runs (k x) tr a | _ => False end
  | DoAdmit i k => match tr with OAdmit i' x :: tr => i' = i ∧ runs (k x) tr a | _ => False end
  | DoRevalidate h i k => match tr with ORevalidate h' i' x :: tr => (h' = h ∧ i' = i) ∧ runs (k x) tr a | _ => False end
  | DoFinalize h d k => match tr with OFinalize h' d' x :: tr => (h' = h ∧ d' = d) ∧ runs (k x) tr a | _ => False end
  | DoExecute t c k => match tr with OExecute t' c' x :: tr => (t' = t ∧ c' = c) ∧ runs (k x) tr a | _ => False end
  end.

(** ** The registry's [execute] *)

Definition emergency_read (composed : bool) (q : EmergencyControlQuery) : prog EmergencyControlAssessment :=
  if composed then answer ← do_emergency q; mret (readEmergencyControl (Some answer)) else mret (readEmergencyControl None).

(** The [try] around reading what an adapter returned: the result, or what was
    caught ([ThrownOther] when nothing was and the value is no result). *)
Definition normalized (answer : AdapterAnswer) : ExecutionAdapterResult + Thrown :=
  match answer with
  | AdapterThrew error => inr error
  | AdapterReturned v raised =>
      match readExecutionAdapterResult raised v with
      | Ok (Some r) => inl r
      | Ok None => inr ThrownOther
      | Throw error => inr error
      end
  end.

Definition attributed (memberId : string) (answer : AdapterAnswer) : ExecutionAdapterResult :=
  match normalized answer with
  | inr failure => Failed ADAPTER_ERROR None (adapterErrorDetail failure) (Some memberId)
  | inl (Completed ref _) => Completed ref (Some memberId)
  | inl (Unconfirmed ref detail _) => Unconfirmed ref detail (Some memberId)
  | inl (Failed reason ref detail _) => Failed reason ref detail (Some memberId)
  end.

Definition selected_member (r : AdapterRegistry) (action : ValidatedExecutionAction) : option string :=
  match reg_selectAdapter r action with
  | Some (JsString selected) => if bool_decide (selected ∈ reg_members r) then Some selected else None
  | _ => None
  end.

Definition registry_query (action : ValidatedExecutionAction) (memberId : string) : EmergencyControlQuery := {|
  eq_organizationId := va_organization action; eq_actorId := Some (va_subject action); eq_workflowId := None;
  eq_adapterId := Some memberId; eq_resource := Some (va_resource action) |}.

Definition no_route : ExecutionAdapterResult := Failed ADAPTER_ERROR None (Some "No execution adapter is configured for this action.") None.

Definition registry_execute (r : AdapterRegistry) (action : ValidatedExecutionAction) : prog AdapterAnswer :=
  match selected_member r action with
  | None => mret (AdapterReturned (result_object no_route) ThrownOther)
  | Some memberId =>
      assessment ← emergency_read (reg_emergencyControl r) (registry_query action memberId);
      if negb (emergencyControlPermits assessment) then
        mret (AdapterThrew (ThrownEmergency (new_EmergencyControlWithheldError assessment)))
      else answer ← do_execute memberId action;
        mret (AdapterReturned (result_object (attributed memberId answer)) ThrownOther)
  end.

(** ** The grant execution service *)

Inductive ComposedAdapter := DirectAdapter (adapterId : string) | RegistryAdapter (r : AdapterRegistry).

Definition composedAdapterId (a : ComposedAdapter) : string := match a with DirectAdapter i => i | RegistryAdapter r => reg_adapterId r end.
Definition adapterIsTrustedRegistry (a : ComposedAdapter) : bool := match a with DirectAdapter _ => false | RegistryAdapter _ => true end.
Definition adapter_execute (a : ComposedAdapter) (action : ValidatedExecutionAction) : prog AdapterAnswer :=
  match a with DirectAdapter i => do_execute i action | RegistryAdapter r => registry_execute r action end.

(** Which collaborators the deployment composed. *)
Record GrantExecutionServiceOptions := { xo_adapter : ComposedAdapter; xo_emergencyControl : bool; xo_exerciseControl : bool }.

Definition reservationDispositionFor (s : ExecutionStatus) : ExerciseReservationDisposition :=
  match s with
  | Executed _ _ => {| d_kind := settled; d_reason := "executed" |}
  | ExecutionUnconfirmed _ _ _ => {| d_kind := settled; d_reason := "execution-unconfirmed" |}
  | ExecutionFailed _ _ _ _ => {| d_kind := released; d_reason := "execution-failed" |}
  | WithheldByEmergency _ => {| d_kind := released; d_reason := "emergency-control" |}
  | WithheldByExerciseControl _ => {| d_kind := released; d_reason := "exercise-control" |}
  | WithheldByGrant => {| d_kind := released; d_reason := "grant-exercise" |}
  end.

Definition emergencyQueryFor (r : GrantExerciseRequest) (g : BoundedGrant) : EmergencyControlQuery := {|
  eq_organizationId := gx_organization r; eq_actorId := Some (g_subject g); eq_workflowId := None;
  eq_adapterId := None; eq_resource := Some (gx_resource r) |}.

Definition exerciseControlInputFor (r : GrantExerciseRequest) (g : BoundedGrant) (at_ : string) : ExerciseControlAdmissionInput := {|
  ai_grant := {| gg_id := id g; gg_subject := g_subject g; gg_issuedAt := issuedAt g; gg_expiresAt := expiresAt g;
    gg_correlation := {| ec_requestId := requestId (g_correlation g); ec_decisionId := decisionId (g_correlation g);
      ec_action := cor_action (g_correlation g); ec_resourceScope := resourceScope (g_correlation g) |};
    gg_authorityBindingDigest := authorityBindingDigest g |};
  ai_attempt := {| ga_action := gx_action r; ga_resource := gx_resource r; ga_counterparty := gx_counterparty r;
    ga_organization := gx_organization r; ga_amount := gx_amount r |};
  ai_executionId := gx_executionId r; ai_at := at_ |}.

Definition correlation_for (r : GrantExerciseRequest) : ValidatedExecutionCorrelation := {|
  vc_requestId := requestId (gx_correlation r); vc_decisionId := decisionId (gx_correlation r); vc_executionId := gx_executionId r |}.

Definition validated_action (r : GrantExerciseRequest) (g : BoundedGrant) : ValidatedExecutionAction := {|
  va_boundedGrantId := gx_boundedGrantId r; va_subject := g_subject g; va_action := gx_action r; va_resource := gx_resource r;
  va_counterparty := gx_counterparty r; va_organization := gx_organization r; va_amount := gx_amount r;
  va_parameters := gx_parameters r; va_notAfter := expiresAt g; va_correlation := correlation_for r |}.

Definition withholding (a : EmergencyControlAssessment) : EmergencyWithholding :=
  {| ew_reasonCodes := emergency_reasonCodes a; ew_matchedScopes := emergency_matchedScopes a |}.

Section Service.
Context `{JsHost} (o : GrantExecutionServiceOptions) (r : GrantExerciseRequest).

(** A read with its assessment: the assessment, the grant and the instant. *)
Record ReadAssessment := { ra_assessment : BoundedGrantExerciseAssessment; ra_grant : option BoundedGrant; ra_at : string }.

Definition read_assessment (answer : StoreAnswer) (at_ : string) : ReadAssessment :=
  match answer with
  | Some (Some g, revocation) => {| ra_assessment := assessBoundedGrantExercise g revocation r at_; ra_grant := Some g; ra_at := at_ |}
  | _ => {| ra_assessment := assessed r [GRANT_EXERCISE_NOT_FOUND]; ra_grant := None; ra_at := at_ |}
  end.

Definition readAndAssess : prog ReadAssessment :=
  answer ← do_read (gx_boundedGrantId r);
  at_ ← do_now;
  mret (read_assessment answer at_).

(** [service.assess]: the assessment alone. A throw of the store is not found. *)
Definition assess : prog BoundedGrantExerciseAssessment :=
  answer ← do_read (gx_boundedGrantId r);
  match answer with
  | None => mret (assessed r [GRANT_EXERCISE_NOT_FOUND])
  | Some _ => at_ ← do_now; mret (ra_assessment (read_assessment answer at_))
  end.

Definition outcome (ra : ReadAssessment) (s : ExecutionStatus) : ExecutionOutcome :=
  {| eo_status := s; eo_assessment := ra_assessment ra; eo_correlation := correlation_for r; eo_exercisedAt := ra_at ra |}.

Definition performedBy (resultAdapterId : option string) : Performer :=
  match resultAdapterId with
  | Some i => if negb (adapterIsTrustedRegistry (xo_adapter o)) || str_eqb i (composedAdapterId (xo_adapter o))
              then {| adapterId := composedAdapterId (xo_adapter o); routedBy := None |}
              else {| adapterId := i; routedBy := Some (composedAdapterId (xo_adapter o)) |}
  | None => {| adapterId := composedAdapterId (xo_adapter o); routedBy := None |}
  end.

Definition referenceOf (ref : option string) : option string := if isRecordableProviderRef ref then ref else None.

Definition own_failure (detail : option string) : ExecutionStatus :=
  ExecutionFailed {| adapterId := composedAdapterId (xo_adapter o); routedBy := None |} ADAPTER_ERROR None detail.

(** The status an adapter's answer produces. *)
Definition status_of (answer : AdapterAnswer) : ExecutionStatus :=
  match answer with
  | AdapterThrew error =>
      match error with
      | ThrownEmergency e =>
          if adapterIsTrustedRegistry (xo_adapter o)
          then WithheldByEmergency {| ew_reasonCodes := we_reasonCodes e; ew_matchedScopes := we_matchedScopes e |}
          else own_failure (adapterErrorDetail error)
      | _ => own_failure (adapterErrorDetail error)
      end
  | AdapterReturned _ _ =>
      match normalized answer with
      | inr unreadable => own_failure (adapterErrorDetail unreadable)
      | inl (Unconfirmed ref detail by_) => ExecutionUnconfirmed (performedBy by_) (referenceOf ref) detail
      | inl (Failed reason ref detail by_) => ExecutionFailed (performedBy by_) reason (referenceOf ref) detail
      | inl (Completed ref by_) => Executed (performedBy by_) (referenceOf ref)
      end
  end.

Definition finish (reservation : option ExerciseReservationHandle) (out : ExecutionOutcome) : prog ExecutionOutcome :=
  match reservation with
  | Some h => _ ← do_finalize h (reservationDispositionFor (eo_status out)); mret out
  | None => mret out
  end.

Definition cross (reservation : option ExerciseReservationHandle) (ra : ReadAssessment) (g : BoundedGrant) : prog ExecutionOutcome :=
  answer ← adapter_execute (xo_adapter o) (validated_action r g);
  finish reservation (outcome ra (status_of answer)).

(** From the reservation on: the second read, the second binding check and the
    second emergency read guard the crossing. *)
Definition exercise_reserved (h : ExerciseReservationHandle) : prog ExecutionOutcome :=
  second ← readAndAssess;
  match ra_grant second with
  | Some g =>
      if negb (ba_usable (ra_assessment second)) then finish (Some h) (outcome second WithheldByGrant)
      else
        revalidation ← do_revalidate h (exerciseControlInputFor r g (ra_at second));
        match revalidation with
        | RevalidationWithheld codes => finish (Some h) (outcome second (WithheldByExerciseControl codes))
        | RevalidationVerified =>
            recheck ← emergency_read (xo_emergencyControl o) (emergencyQueryFor r g);
            if negb (emergencyControlPermits recheck) then finish (Some h) (outcome second (WithheldByEmergency (withholding recheck)))
            else cross (Some h) second g
        end
  | None => finish (Some h) (outcome second WithheldByGrant)
  end.

Definition exercise : prog ExecutionOutcome :=
  first ← readAndAssess;
  match ra_grant first with
  | Some g =>
      if negb (ba_usable (ra_assessment first)) then mret (outcome first WithheldByGrant)
      else
        emergency ← emergency_read (xo_emergencyControl o) (emergencyQueryFor r g);
        if negb (emergencyControlPermits emergency) then mret (outcome first (WithheldByEmergency (withholding emergency)))
        else if xo_exerciseControl o then
          admission ← do_admit (exerciseControlInputFor r g (ra_at first));
          match admission with
          | GateWithheld codes => mret (outcome first (WithheldByExerciseControl codes))
          | GateAdmitted h => exercise_reserved h
          end
        else cross None first g
  | None => mret (outcome first WithheldByGrant)
  end.

End Service.

(** ** Composition yields a sound registry *)

Lemma resolve_members_ok own resolved candidates members :
  resolve_members own resolved candidates = Ok members → NoDup resolved →
  Forall (λ m, isRecordableExecutionAdapterId m = true ∧ m ≠ own) resolved →
  NoDup members ∧ Forall (λ m, isRecordableExecutionAdapterId m = true ∧ m ≠ own) members ∧
  (Some <$> members) = (Some <$> resolved) ++ (usableAdapterId <$> candidates) ∧
  Forall (λ c, in_composed_registries c = false) candidates.
Proof.
  revert resolved. induction candidates as [|c candidates IH]; intros resolved E Hn Hf; cbn [resolve_members] in E.
  { injection E as <-. split; [done|]. split; [done|]. cbn. by rewrite app_nil_r. }
  destruct (usableAdapterId c) as [m|] eqn:Hu; [|done]. destruct (is_blank m); [done|].
  destruct (str_eqb m own || in_composed_registries c) eqn:Ho; [done|]. apply orb_false_iff in Ho as [Ho%str_eqb_neq Hc].
  destruct (isRecordableExecutionAdapterId m) eqn:Hr; [|done]. cbn [negb] in E. case_bool_decide as Hin; [done|].
  destruct (IH _ E) as (?&?&Eq&?).
  - apply NoDup_app. split; [done|]. split; [|apply NoDup_singleton]. by intros x Hx ->%list_elem_of_singleton.
  - apply Forall_app. split; [done|]. by repeat constructor.
  - split; [done|]. split; [done|]. split; [|by constructor]. rewrite Eq, fmap_app. cbn. by rewrite Hu, <-app_assoc.
Qed.

(** A registry that composes is sound: its members are the usable ids of the
    candidates, in order, pairwise distinct, each recordable, none the
    registry's own, at least one, and no candidate is itself a registry, so a
    routing decision resolves to one provider adapter. *)
Theorem createExecutionAdapterRegistry_sound options registry :
  createExecutionAdapterRegistry options = Ok registry →
  ∃ candidates, ro_adapters options = Some candidates ∧
    (Some <$> reg_members registry) = (usableAdapterId <$> candidates) ∧ reg_members registry ≠ [] ∧
    NoDup (reg_members registry) ∧
    Forall (λ m, isRecordableExecutionAdapterId m = true ∧ m ≠ reg_adapterId registry) (reg_members registry) ∧
    Forall (λ c, in_composed_registries c = false) candidates ∧ is_blank (reg_adapterId registry) = false.
Proof.
  unfold createExecutionAdapterRegistry.
  destruct (match ro_adapterId options with JsUndefined | JsNull => JsString DEFAULT_REGISTRY_ADAPTER_ID | v => v end) as [| | | |own| | | |]; try done.
  destruct (is_blank own) eqn:Hb; [done|]. destruct (ro_selectAdapter options) as [select|]; [|done].
  destruct (ro_adapters options) as [[|c candidates]|]; [done| |done]. intros E.
  apply result_bind_Ok in E as (members&Hm&[= <-]). exists (c :: candidates). cbn [reg_members reg_adapterId].
  apply resolve_members_ok in Hm as (?&?&Eq&?); [|apply NoDup_nil_2|constructor].
  split; [done|]. split; [done|]. split; [by intros ->|done].
Qed.

(** ** Traces of programs *)

Lemma runs_bind {A B} (p : prog A) (f : A → prog B) tr b :
  runs (p ≫= f) tr b ↔ ∃ tr1 tr2 a, tr = tr1 ++ tr2 ∧ runs p tr1 a ∧ runs (f a) tr2 b.
Proof.
  unfold mbind. revert tr. induction p as [a|i k IH|k IH|q k IH|i k IH|h i k IH|h d k IH|t c k IH]; intros tr; cbn.
  { split; [intros Hr; by exists [], tr, a|]. by intros (?&?&?&->&[-> ->]&?). }
  all: split;
    [ destruct tr as [|[] tr]; try done; intros Hr; try destruct Hr as [Heq Hr];
      apply IH in Hr as (tr1&tr2&a&->&?&?); eexists (_ :: tr1), tr2, a; (split; [reflexivity|]); cbn; tauto
    | intros (tr1&tr2&a&->&Hr&?); destruct tr1 as [|[] tr1]; try done; cbn [app];
      try (destruct Hr as [? Hr]; split; [done|]); apply IH; eauto 10 ].
Qed.

Lemma runs_ret {A} (a b : A) tr : runs (mret a) tr b ↔ tr = [] ∧ a = b.
Proof. done. Qed.

Lemma runs_do_read i tr x : runs (do_read i) tr x ↔ tr = [ORead i x].
Proof. cbn. split; [destruct tr as [|[] tr]; try done; by intros (->&->&->)|by intros ->]. Qed.
Lemma runs_do_now tr x : runs do_now tr x ↔ tr = [ONow x].
Proof. cbn. split; [destruct tr as [|[] tr]; try done; by intros (->&->)|by intros ->]. Qed.
Lemma runs_do_emergency q tr x : runs (do_emergency q) tr x ↔ tr = [OEmergency q x].
Proof. cbn. split; [destruct tr as [|[] tr]; try done; by intros (->&->&->)|by intros ->]. Qed.
Lemma runs_do_admit i tr x : runs (do_admit i) tr x ↔ tr = [OAdmit i x].
Proof. cbn. split; [destruct tr as [|[] tr]; try done; by intros (->&->&->)|by intros ->]. Qed.
Lemma runs_do_revalidate h i tr x : runs (do_revalidate h i) tr x ↔ tr = [ORevalidate h i x].
Proof. cbn. split; [destruct tr as [|[] tr]; try done; by intros ([-> ->]&->&->)|by intros ->]. Qed.
Lemma runs_do_finalize h d tr x : runs (do_finalize h d) tr x ↔ tr = [OFinalize h d x].
Proof. cbn. split; [destruct tr as [|[] tr]; try done; by intros ([-> ->]&->&->)|by intros ->]. Qed.
Lemma runs_do_execute t a tr x : runs (do_execute t a) tr x ↔ tr = [OExecute t a x].
Proof. cbn. split; [destruct tr as [|[] tr]; try done; by intros ([-> ->]&->&->)|by intros ->]. Qed.

(** ** The traces of an exercise, exit by exit *)

Definition emergency_obs (composed : bool) (q : EmergencyControlQuery) (a : EmergencyControlAssessment) (tr : list obs) : Prop :=
  if composed then ∃ answer, tr = [OEmergency q answer] ∧ a = readEmergencyControl (Some answer) else tr = [] ∧ a = EmergencyClear.

Lemma runs_emergency composed q tr a : runs (emergency_read composed q) tr a ↔ emergency_obs composed q a tr.
Proof.
  unfold emergency_read, emergency_obs. destruct composed; [|rewrite runs_ret; naive_solver].
  rewrite runs_bind. setoid_rewrite runs_do_emergency. setoid_rewrite runs_ret. split.
  - intros (?&?&x&->&->&->&<-). by exists x.
  - intros (x&->&->). by exists [OEmergency q x], [], x.
Qed.

(** The calls a composed adapter makes, and its answer. *)
Inductive adapter_trace (action : ValidatedExecutionAction) : ComposedAdapter → list obs → AdapterAnswer → Prop :=
  | at_direct i answer : adapter_trace action (DirectAdapter i) [OExecute i action answer] answer
  | at_no_route reg : selected_member reg action = None →
      adapter_trace action (RegistryAdapter reg) [] (AdapterReturned (result_object no_route) ThrownOther)
  | at_stopped reg m em tr : selected_member reg action = Some m →
      emergency_obs (reg_emergencyControl reg) (registry_query action m) em tr → emergencyControlPermits em = false →
      adapter_trace action (RegistryAdapter reg) tr (AdapterThrew (ThrownEmergency (new_EmergencyControlWithheldError em)))
  | at_routed reg m em tr answer : selected_member reg action = Some m →
      emergency_obs (reg_emergencyControl reg) (registry_query action m) em tr → emergencyControlPermits em = true →
      adapter_trace action (RegistryAdapter reg) (tr ++ [OExecute m action answer])
        (AdapterReturned (result_object (attributed m answer)) ThrownOther).

Lemma runs_adapter a action tr answer : runs (adapter_execute a action) tr answer → adapter_trace action a tr answer.
Proof.
  destruct a as [i|reg]; cbn [adapter_execute].
  - intros ->%runs_do_execute. constructor.
  - unfold registry_execute. destruct (selected_member reg action) as [m|] eqn:Hs.
    + intros (t1&t2&em&->&He%runs_emergency&Hr)%runs_bind. destruct (emergencyControlPermits em) eqn:Hp; cbn [negb] in Hr.
      * apply runs_bind in Hr as (t3&t4&x&->&->%runs_do_execute&[-> <-]). rewrite app_nil_r. by econstructor.
      * destruct Hr as [-> <-]. rewrite app_nil_r. by econstructor.
    + intros [-> <-]. by constructor.
Qed.

Section Traces.
Context `{JsHost} (o : GrantExecutionServiceOptions) (r : GrantExerciseRequest).

Inductive read_usable : list obs → ReadAssessment → BoundedGrant → Prop :=
  | usable_read g revocation at_ : ba_usable (assessBoundedGrantExercise g revocation r at_) = true →
      read_usable [ORead (gx_boundedGrantId r) (Some (Some g, revocation)); ONow at_] (read_assessment r (Some (Some g, revocation)) at_) g.
Inductive read_unusable : list obs → ReadAssessment → Prop :=
  | unusable_read answer at_ : ba_usable (ra_assessment (read_assessment r answer at_)) = false →
      read_unusable [ORead (gx_boundedGrantId r) answer; ONow at_] (read_assessment r answer at_).

Definition stop_obs (g : BoundedGrant) : EmergencyControlAssessment → list obs → Prop :=
  emergency_obs (xo_emergencyControl o) (emergencyQueryFor r g).

Inductive reserved_trace (h : ExerciseReservationHandle) : list obs → ExecutionOutcome → Prop :=
  | rt_grant tr ra : read_unusable tr ra → reserved_trace h tr (outcome r ra WithheldByGrant)
  | rt_binding t1 ra g codes : read_usable t1 ra g →
      reserved_trace h (t1 ++ [ORevalidate h (exerciseControlInputFor r g (ra_at ra)) (RevalidationWithheld codes)])
        (outcome r ra (WithheldByExerciseControl codes))
  | rt_emergency t1 ra g em t2 : read_usable t1 ra g → stop_obs g em t2 → emergencyControlPermits em = false →
      reserved_trace h (t1 ++ [ORevalidate h (exerciseControlInputFor r g (ra_at ra)) RevalidationVerified] ++ t2)
        (outcome r ra (WithheldByEmergency (withholding em)))
  | rt_cross t1 ra g em t2 t3 answer : read_usable t1 ra g → stop_obs g em t2 → emergencyControlPermits em = true →
      adapter_trace (validated_action r g) (xo_adapter o) t3 answer →
      reserved_trace h (t1 ++ [ORevalidate h (exerciseControlInputFor r g (ra_at ra)) RevalidationVerified] ++ t2 ++ t3)
        (outcome r ra (status_of o answer)).

Inductive exercise_trace : list obs → ExecutionOutcome → Prop :=
  | et_grant tr ra : read_unusable tr ra → exercise_trace tr (outcome r ra WithheldByGrant)
  | et_emergency t1 ra g em t2 : read_usable t1 ra g → stop_obs g em t2 → emergencyControlPermits em = false →
      exercise_trace (t1 ++ t2) (outcome r ra (WithheldByEmergency (withholding em)))
  | et_cross t1 ra g em t2 t3 answer : xo_exerciseControl o = false → read_usable t1 ra g → stop_obs g em t2 →
      emergencyControlPermits em = true → adapter_trace (validated_action r g) (xo_adapter o) t3 answer →
      exercise_trace (t1 ++ t2 ++ t3) (outcome r ra (status_of o answer))
  | et_gate t1 ra g em t2 codes : xo_exerciseControl o = true → read_usable t1 ra g → stop_obs g em t2 →
      emergencyControlPermits em = true →
      exercise_trace (t1 ++ t2 ++ [OAdmit (exerciseControlInputFor r g (ra_at ra)) (GateWithheld codes)])
        (outcome r ra (WithheldByExerciseControl codes))
  | et_reserved t1 ra g em t2 h t3 out f : xo_exerciseControl o = true → read_usable t1 ra g → stop_obs g em t2 →
      emergencyControlPermits em = true → reserved_trace h t3 out →
      exercise_trace (t1 ++ t2 ++ [OAdmit (exerciseControlInputFor r g (ra_at ra)) (GateAdmitted h)] ++ t3 ++
        [OFinalize h (reservationDispositionFor (eo_status out)) f]) out.

Lemma runs_readAndAssess tr ra :
  runs (readAndAssess r) tr ra →
  (∃ g, ra_grant ra = Some g ∧ ba_usable (ra_assessment ra) = true ∧ read_usable tr ra g) ∨
  (ba_usable (ra_assessment ra) = false ∧ read_unusable tr ra).
Proof.
  unfold readAndAssess. intros (t1&t2&ans&->&->%runs_do_read&Hr)%runs_bind.
  apply runs_bind in Hr as (t3&t4&at_&->&->%runs_do_now&[-> <-]). cbn [app].
  destruct (ba_usable (ra_assessment (read_assessment r ans at_))) eqn:Hu; [left|right; split; [done|by constructor]].
  destruct ans as [[[g|] rev]|]; [|done|done]. exists g. split; [done|]. split; [done|]. by constructor.
Qed.

Lemma runs_finish h out tr x :
  runs (finish (Some h) out) tr x → x = out ∧ ∃ f, tr = [OFinalize h (reservationDispositionFor (eo_status out)) f].
Proof.
  unfold finish. intros (t1&t2&f&->&->%runs_do_finalize&[-> <-])%runs_bind. split; [done|]. by exists f.
Qed.

Lemma runs_reserved h tr out :
  runs (exercise_reserved o r h) tr out →
  ∃ tr' f, tr = tr' ++ [OFinalize h (reservationDispositionFor (eo_status out)) f] ∧ reserved_trace h tr' out.
Proof.
  unfold exercise_reserved. intros (t1&t2&ra&->&Hra%runs_readAndAssess&Hr)%runs_bind.
  destruct Hra as [(g&Hg&Hu&Hra)|[Hu Hra]].
  - rewrite Hg, Hu in Hr. cbn [negb] in Hr. apply runs_bind in Hr as (t3&t4&rv&->&->%runs_do_revalidate&Hr). destruct rv as [|codes].
    + apply runs_bind in Hr as (t5&t6&em&->&He%runs_emergency&Hr). destruct (emergencyControlPermits em) eqn:Hp; cbn [negb] in Hr.
      * apply runs_bind in Hr as (t7&t8&ans&->&Ha%runs_adapter&[-> [f ->]]%runs_finish).
        eexists _, f. split; [|by eapply rt_cross]. by rewrite <-!app_assoc.
      * apply runs_finish in Hr as [-> [f ->]]. eexists _, f. split; [|by eapply rt_emergency]. by rewrite <-!app_assoc.
    + apply runs_finish in Hr as [-> [f ->]]. eexists _, f. split; [|by eapply rt_binding]. by rewrite <-!app_assoc.
  - assert (runs (finish (Some h) (outcome r ra WithheldByGrant)) t2 out) as [-> [f ->]]%runs_finish.
    { destruct (ra_grant ra); [|done]. by rewrite Hu in Hr. }
    eexists _, f. split; [done|]. by constructor.
Qed.

Lemma runs_exercise tr out : runs (exercise o r) tr out → exercise_trace tr out.
Proof.
  unfold exercise. intros (t1&t2&ra&->&Hra%runs_readAndAssess&Hr)%runs_bind.
  destruct Hra as [(g&Hg&Hu&Hra)|[Hu Hra]].
  - rewrite Hg, Hu in Hr. cbn [negb] in Hr. apply runs_bind in Hr as (t3&t4&em&->&He%runs_emergency&Hr).
    destruct (emergencyControlPermits em) eqn:Hp; cbn [negb] in Hr; [|destruct Hr as [-> <-]; rewrite app_nil_r; by econstructor].
    destruct (xo_exerciseControl o) eqn:Hx.
    + apply runs_bind in Hr as (t5&t6&adm&->&->%runs_do_admit&Hr). destruct adm as [h|codes].
      * apply runs_reserved in Hr as (t7&f&->&Hr). by eapply et_reserved.
      * destruct Hr as [-> <-]. by eapply et_gate.
    + apply runs_bind in Hr as (t5&t6&ans&->&Ha%runs_adapter&Hr). destruct Hr as [-> <-]. rewrite app_nil_r. by eapply et_cross.
  - assert (runs (mret (outcome r ra WithheldByGrant)) t2 out) as [-> <-].
    { destruct (ra_grant ra); [|done]. by rewrite Hu in Hr. }
    rewrite app_nil_r. by constructor.
Qed.

End Traces.

(** ** What the traces show *)

Definition is_crossing (x : obs) : bool := match x with OExecute _ _ _ => true | _ => false end.
Definition is_finalization (x : obs) : bool := match x with OFinalize _ _ _ => true | _ => false end.
(** The calls that reach a provider adapter. *)
Definition crossings (tr : list obs) : list obs := List.filter is_crossing tr.
Definition finalizations (tr : list obs) : list obs := List.filter is_finalization tr.

Definition clear_obs (composed : bool) (q : EmergencyControlQuery) (tr : list obs) : Prop :=
  if composed then ∃ matched, tr = [OEmergency q (ReaderObject (JsString "clear") matched)] else tr = [].

Lemma emergency_obs_clear composed q em tr :
  emergency_obs composed q em tr → emergencyControlPermits em = true → clear_obs composed q tr.
Proof.
  unfold emergency_obs, clear_obs. destruct composed; [|naive_solver]. intros (x&->&->) Hp.
  destruct x as [| |st m]; [done|done|]. destruct st as [| | | |st| | | |]; try done. cbn in Hp.
  destruct (str_eqb st "clear") eqn:E; [apply str_eqb_eq in E as ->; by exists m|]. by destruct (str_eqb st "blocked").
Qed.

Lemma emergency_obs_quiet composed q em tr :
  emergency_obs composed q em tr → crossings tr = [] ∧ finalizations tr = [].
Proof. unfold emergency_obs. destruct composed; naive_solver. Qed.

Definition routed (a : ComposedAdapter) (action : ValidatedExecutionAction) (target : string) (tr : list obs) : Prop :=
  match a with
  | DirectAdapter i => target = i ∧ tr = []
  | RegistryAdapter reg => reg_selectAdapter reg action = Some (JsString target) ∧ target ∈ reg_members reg ∧
      clear_obs (reg_emergencyControl reg) (registry_query action target) tr
  end.

Lemma selected_member_in reg action m :
  selected_member reg action = Some m → reg_selectAdapter reg action = Some (JsString m) ∧ m ∈ reg_members reg.
Proof.
  unfold selected_member. destruct (reg_selectAdapter reg action) as [[]|]; try done. case_bool_decide; [|done]. by intros [= ->].
Qed.

(** An adapter trace calls no provider, or ends with the one call. *)
Lemma adapter_trace_crossing action a tr answer :
  adapter_trace action a tr answer →
  finalizations tr = [] ∧
  (crossings tr = [] ∨ ∃ route target x, tr = route ++ [OExecute target action x] ∧ crossings route = [] ∧ routed a action target route).
Proof.
  intros [i x|reg _|reg m em t _ He _|reg m em t x Hs He Hp].
  - split; [done|]. right. by exists [], i, x.
  - split; [done|]. by left.
  - apply emergency_obs_quiet in He as [? ?]. split; [done|]. by left.
  - pose proof (emergency_obs_quiet _ _ _ _ He) as [Hc Hf]. split.
    { unfold finalizations in *. rewrite List.filter_app, Hf. done. }
    right. exists t, m, x. split; [done|]. split; [done|]. apply selected_member_in in Hs as [? ?].
    split; [done|]. split; [done|]. by eapply emergency_obs_clear.
Qed.

(** The reservations a run was admitted. *)
Definition admissions (tr : list obs) : list ExerciseReservationHandle :=
  omap (λ x, match x with OAdmit _ (GateAdmitted h) => Some h | _ => None end) tr.

Lemma admissions_app l k : admissions (l ++ k) = admissions l ++ admissions k.
Proof. apply omap_app. Qed.

Lemma emergency_obs_admissions composed q em tr : emergency_obs composed q em tr → admissions tr = [].
Proof. unfold emergency_obs. destruct composed; naive_solver. Qed.

Lemma adapter_admissions action a tr answer : adapter_trace action a tr answer → admissions tr = [].
Proof.
  intros [i x|reg _|reg m em t _ He _|reg m em t x Hs He Hp]; [done|done|by eapply emergency_obs_admissions|].
  by rewrite admissions_app, (emergency_obs_admissions _ _ _ _ He).
Qed.

Section Guarantees.
Context `{JsHost} (o : GrantExecutionServiceOptions) (r : GrantExerciseRequest).

Lemma read_usable_covered tr ra g :
  read_usable r tr ra g →
  isWellFormedGrantExerciseRequest r = true ∧ covered g None r (ra_at ra) ∧ ba_usable (ra_assessment ra) = true ∧
  tr = [ORead (gx_boundedGrantId r) (Some (Some g, None)); ONow (ra_at ra)].
Proof.
  intros [g' rev at_ Hu]. pose proof (usable_covered _ _ _ _ Hu) as [? Hc]. pose proof (cv_unrevoked _ _ _ _ Hc) as ->. done.
Qed.

Lemma read_unusable_quiet tr ra :
  read_unusable r tr ra → ba_usable (ra_assessment ra) = false ∧ crossings tr = [] ∧ finalizations tr = [] ∧ admissions tr = [].
Proof. by intros [answer at_ Hu]. Qed.

Lemma crossings_app l k : crossings (l ++ k) = crossings l ++ crossings k.
Proof. apply List.filter_app. Qed.
Lemma finalizations_app l k : finalizations (l ++ k) = finalizations l ++ finalizations k.
Proof. apply List.filter_app. Qed.

(** The calls that guard a provider crossing, in order. *)
Definition guarded (pre : list obs) (target : string) (action : ValidatedExecutionAction) : Prop :=
  ∃ g at_ em route,
    covered g None r at_ ∧ action = validated_action r g ∧
    clear_obs (xo_emergencyControl o) (emergencyQueryFor r g) em ∧ routed (xo_adapter o) action target route ∧
    let authoritative_read := [ORead (gx_boundedGrantId r) (Some (Some g, None)); ONow at_] in
    if xo_exerciseControl o then
      ∃ g1 at1 em1 h, covered g1 None r at1 ∧ clear_obs (xo_emergencyControl o) (emergencyQueryFor r g1) em1 ∧
        pre = [ORead (gx_boundedGrantId r) (Some (Some g1, None)); ONow at1] ++ em1 ++
          [OAdmit (exerciseControlInputFor r g1 at1) (GateAdmitted h)] ++ authoritative_read ++
          [ORevalidate h (exerciseControlInputFor r g at_) RevalidationVerified] ++ em ++ route
    else pre = authoritative_read ++ em ++ route.

Lemma no_crossing_in tr t a x : crossings tr = [] → OExecute t a x ∈ tr → False.
Proof.
  intros Hc Hin. assert (OExecute t a x ∈ crossings tr) as Hx; [|rewrite Hc in Hx; by apply elem_of_nil in Hx].
  apply list_elem_of_In, filter_In. split; [by apply list_elem_of_In|done].
Qed.

Lemma crossing_unique pre t a x post t' a' x' :
  crossings pre = [] → crossings post = [] →
  OExecute t' a' x' ∈ pre ++ [OExecute t a x] ++ post → OExecute t' a' x' = OExecute t a x.
Proof.
  intros Hpre Hpost [?|[E|?]%elem_of_cons]%elem_of_app; [by destruct (no_crossing_in pre t' a' x')|done|by destruct (no_crossing_in post t' a' x')].
Qed.

(** The guard of the last read, of the stop and of the route before a crossing. *)
Lemma stop_quiet g em tr : stop_obs o r g em tr → crossings tr = [] ∧ finalizations tr = [].
Proof. apply emergency_obs_quiet. Qed.

(** What a trace tells about its provider calls: none, or exactly one, guarded
    by everything before it and followed at most by the finalization. *)
Definition crossing_guarded (tr : list obs) : Prop :=
  crossings tr = [] ∨
  ∃ pre target action x post, tr = pre ++ [OExecute target action x] ++ post ∧
    crossings pre = [] ∧ crossings post = [] ∧ Forall (λ y, is_finalization y = true) post ∧ guarded pre target action.

Ltac use_guards :=
  repeat match goal with
  | H : read_usable _ _ _ _ |- _ => apply read_usable_covered in H as (?&?&?&->)
  | H : read_unusable _ _ _ |- _ => apply read_unusable_quiet in H as (?&?&?&?)
  | H : stop_obs _ _ _ ?em ?t |- _ =>
      lazymatch goal with
      | _ : crossings t = [] |- _ => fail
      | _ => pose proof (proj1 (stop_quiet _ _ _ H)); pose proof (proj2 (stop_quiet _ _ _ H))
      end
  end.

Ltac quiet := rewrite ?crossings_app, ?finalizations_app;
  repeat match goal with
  | H : crossings _ = [] |- _ => rewrite !H
  | H : finalizations _ = [] |- _ => rewrite !H
  end; try reflexivity.

Lemma reserved_crossing h t1 g1 at1 em1 f d tr out :
  xo_exerciseControl o = true → covered g1 None r at1 → clear_obs (xo_emergencyControl o) (emergencyQueryFor r g1) em1 →
  crossings em1 = [] → t1 = [ORead (gx_boundedGrantId r) (Some (Some g1, None)); ONow at1] →
  reserved_trace o r h tr out →
  crossing_guarded (t1 ++ em1 ++ [OAdmit (exerciseControlInputFor r g1 at1) (GateAdmitted h)] ++ tr ++ [OFinalize h d f]).
Proof.
  intros Hx Hc1 Hclear Hem1 -> Ht. destruct Ht as [t ra Hu|t ra g codes Hu|t ra g em t2 Hu Hs Hp|t ra g em t2 t3 ans Hu Hs Hp Ha]; use_guards.
  - left. quiet.
  - left. quiet.
  - left. quiet.
  - destruct (adapter_trace_crossing _ _ _ _ Ha) as [_ [Hc|(route&target&x&->&Hroute&Hr)]]; [left; quiet|]. right.
    exists ([ORead (gx_boundedGrantId r) (Some (Some g1, None)); ONow at1] ++ em1 ++
      [OAdmit (exerciseControlInputFor r g1 at1) (GateAdmitted h)] ++
      [ORead (gx_boundedGrantId r) (Some (Some g, None)); ONow (ra_at ra)] ++
      [ORevalidate h (exerciseControlInputFor r g (ra_at ra)) RevalidationVerified] ++ t2 ++ route),
      target, (validated_action r g), x, [OFinalize h d f].
    split; [by rewrite <-!app_assoc|]. split; [quiet|]. split; [done|]. split; [by repeat constructor|].
    exists g, (ra_at ra), t2, route. split; [done|]. split; [done|]. split; [by eapply emergency_obs_clear|]. split; [done|].
    rewrite Hx. by exists g1, at1, em1, h.
Qed.

Lemma exercise_crossing tr out : exercise_trace o r tr out → crossing_guarded tr.
Proof.
  intros [t ra Hu|t1 ra g em t2 Hu Hs Hp|t1 ra g em t2 t3 ans Hx Hu Hs Hp Ha|t1 ra g em t2 codes Hx Hu Hs Hp|t1 ra g em t2 h t3 out' f Hx Hu Hs Hp Ht];
    use_guards.
  - by left.
  - left. quiet.
  - destruct (adapter_trace_crossing _ _ _ _ Ha) as [_ [Hc|(route&target&x&->&Hroute&Hr)]]; [left; quiet|]. right.
    exists ([ORead (gx_boundedGrantId r) (Some (Some g, None)); ONow (ra_at ra)] ++ t2 ++ route), target, (validated_action r g), x, [].
    split; [by rewrite <-!app_assoc|]. split; [quiet|]. split; [done|]. split; [constructor|].
    exists g, (ra_at ra), t2, route. split; [done|]. split; [done|]. split; [by eapply emergency_obs_clear|]. split; [done|].
    by rewrite Hx.
  - left. quiet.
  - eapply reserved_crossing; try done. by eapply emergency_obs_clear.
Qed.

(** C2. No bypass: in every run of an exercise, whatever the store, the clock,
    the interlock, the gate and the adapters answer, the provider is called at
    most once, and only after, in this order: an authoritative read of a
    grant that covers the attempt at the instant sampled after the read, a
    clear interlock and, when exercise control is composed, an admitted
    reservation, a second covering read, the verified revalidation against it
    and a second clear interlock; a registry adds its own routing decision and
    adapter-scoped clear read. The action handed over is built from that last
    read, and only the finalization follows the call. *)
Theorem exercise_no_bypass tr out target action answer :
  runs (exercise o r) tr out → OExecute target action answer ∈ tr →
  ∃ pre post, tr = pre ++ [OExecute target action answer] ++ post ∧
    crossings pre = [] ∧ crossings post = [] ∧ Forall (λ y, is_finalization y = true) post ∧ guarded pre target action.
Proof.
  intros Hr%runs_exercise%exercise_crossing Hin. destruct Hr as [Hc|(pre&t&a&x&post&->&Hpre&Hpost&Hf&Hg)].
  { by destruct (no_crossing_in _ _ _ _ Hc Hin). }
  apply crossing_unique in Hin as [= -> -> ->]; [|done|done]. by exists pre, post.
Qed.

Lemma reserved_quiet h tr out : reserved_trace o r h tr out → finalizations tr = [] ∧ admissions tr = [].
Proof.
  intros [t ra Hu|t ra g codes Hu|t ra g em t2 Hu Hs Hp|t ra g em t2 t3 ans Hu Hs Hp Ha]; use_guards.
  - done.
  - done.
  - split; [quiet|]. rewrite !admissions_app, (emergency_obs_admissions _ _ _ _ Hs). done.
  - destruct (adapter_trace_crossing _ _ _ _ Ha) as [Hf _]. split; [quiet|].
    rewrite !admissions_app, (emergency_obs_admissions _ _ _ _ Hs), (adapter_admissions _ _ _ _ Ha). done.
Qed.

Lemma trace_finalizations tr out :
  exercise_trace o r tr out →
  (admissions tr = [] ∧ finalizations tr = []) ∨
  ∃ pre h f, admissions tr = [h] ∧ tr = pre ++ [OFinalize h (reservationDispositionFor (eo_status out)) f] ∧ finalizations pre = [].
Proof.
  intros [t ra Hu|t1 ra g em t2 Hu Hs Hp|t1 ra g em t2 t3 ans Hx Hu Hs Hp Ha|t1 ra g em t2 codes Hx Hu Hs Hp|t1 ra g em t2 h t3 out' f Hx Hu Hs Hp Ht].
  - left. use_guards. done.
  - left. pose proof (emergency_obs_admissions _ _ _ _ Hs) as E. use_guards. rewrite admissions_app, E. split; [done|]. quiet.
  - left. pose proof (emergency_obs_admissions _ _ _ _ Hs) as E. use_guards.
    destruct (adapter_trace_crossing _ _ _ _ Ha) as [Hf _]. rewrite !admissions_app, E, (adapter_admissions _ _ _ _ Ha). split; [done|]. quiet.
  - left. pose proof (emergency_obs_admissions _ _ _ _ Hs) as E. use_guards. rewrite !admissions_app, E. split; [done|]. quiet.
  - right. pose proof (emergency_obs_admissions _ _ _ _ Hs) as E. use_guards. destruct (reserved_quiet _ _ _ Ht) as [Hf Ha].
    exists ([ORead (gx_boundedGrantId r) (Some (Some g, None)); ONow (ra_at ra)] ++ t2 ++
      [OAdmit (exerciseControlInputFor r g (ra_at ra)) (GateAdmitted h)] ++ t3), h, f.
    split; [by rewrite !admissions_app, E, Ha|]. split; [by rewrite <-!app_assoc|]. quiet.
Qed.

(** Every reservation is finalized exactly once: a run is admitted at most
    one reservation; when it is, the run ends with that reservation's only
    finalization, under the disposition of the outcome the run returns; when
    it is not, nothing is finalized. *)
Theorem exercise_finalizes_once tr out :
  runs (exercise o r) tr out →
  (admissions tr = [] ∧ finalizations tr = []) ∨
  ∃ pre h f, admissions tr = [h] ∧ tr = pre ++ [OFinalize h (reservationDispositionFor (eo_status out)) f] ∧ finalizations pre = [].
Proof. intros Hr%runs_exercise. by apply trace_finalizations. Qed.









End Guarantees.

(** ** Scripted runs

    An executable runner: it answers each call from a script and records the
    trace. *)

Inductive answer :=
  | ARead (x : StoreAnswer) | ANow (x : string) | AEmergency (x : ReaderAnswer) | AAdmit (x : ExerciseControlAdmission)
  | ARevalidate (x : ExerciseControlRevalidation) | AFinalize (x : ExerciseReservationFinalization) | AExecute (x : AdapterAnswer).

Fixpoint play {A} (p : prog A) (script : list answer) : option (list obs * A) :=
  match p, script with
  | Ret a, [] => Some ([], a)
  | DoRead i k, ARead x :: script => (λ q, (ORead i x :: q.1, q.2)) <$> play (k x) script
  | DoNow k, ANow x :: script => (λ q, (ONow x :: q.1, q.2)) <$> play (k x) script
  | DoEmergency e k, AEmergency x :: script => (λ q, (OEmergency e x :: q.1, q.2)) <$> play (k x) script
  | DoAdmit i k, AAdmit x :: script => (λ q, (OAdmit i x :: q.1, q.2)) <$> play (k x) script
  | DoRevalidate h i k, ARevalidate x :: script => (λ q, (ORevalidate h i x :: q.1, q.2)) <$> play (k x) script
  | DoFinalize h d k, AFinalize x :: script => (λ q, (OFinalize h d x :: q.1, q.2)) <$> play (k x) script
  | DoExecute t c k, AExecute x :: script => (λ q, (OExecute t c x :: q.1, q.2)) <$> play (k x) script
  | _, _ => None
  end.

Lemma play_runs {A} (p : prog A) script tr a : play p script = Some (tr, a) → runs p tr a.
Proof.
  revert script tr. induction p as [x|i k IH|k IH|q k IH|i k IH|h i k IH|h d k IH|t c k IH]; intros [|[] script] tr E; cbn in E; try done;
    try (apply fmap_Some in E as ([tr' a']&Hp&[= -> ->]); apply IH in Hp; by cbn).
  by injection E as <- <-.
Qed.

Definition sample_registry_options : ExecutionAdapterRegistryOptions := {|
  ro_adapterId := JsUndefined;
  ro_adapters := Some [Candidate (JsString "bank-a") true false; Candidate (JsString "bank-b") true false];
  ro_selectAdapter := Some (λ action, Some (JsString (if str_eqb (va_resource action) "acct-1" then "bank-b" else "bank-a")));
  ro_emergencyControl := true |}.
Definition sample_registry : AdapterRegistry :=
  match createExecutionAdapterRegistry sample_registry_options with
  | Ok reg => reg
  | Throw _ => {| reg_adapterId := ""; reg_members := []; reg_selectAdapter := λ _, None; reg_emergencyControl := true |}
  end.

Lemma createExecutionAdapterRegistry_sound_witness :
  reg_members sample_registry = ["bank-a"; "bank-b"] ∧ NoDup (reg_members sample_registry).
Proof.
  split; [vm_compute; reflexivity|].
  destruct (createExecutionAdapterRegistry_sound sample_registry_options sample_registry) as (_&_&_&_&Hn&_); [reflexivity|exact Hn].
Defined.

(** The sample attempt through the registry with every control composed: the
    provider answers that its effect is unconfirmed, and the child claims
    another adapter's identity. *)
Definition sample_options : GrantExecutionServiceOptions := {|
  xo_adapter := RegistryAdapter sample_registry; xo_emergencyControl := true; xo_exerciseControl := true |}.
Definition clear_answer : answer := AEmergency (assessment_object EmergencyClear).
Definition sample_provider_answer : AdapterAnswer :=
  AdapterReturned (result_object (Unconfirmed (Some "job-7") None (Some "bank-a"))) ThrownOther.
Definition sample_script : list answer := [
  ARead (Some (Some sample_grant, None)); ANow "400"; clear_answer; AAdmit (GateAdmitted sample_handle);
  ARead (Some (Some sample_grant, None)); ANow "410"; ARevalidate RevalidationVerified; clear_answer; clear_answer;
  AExecute sample_provider_answer; AFinalize f_settled].
Definition sample_play : option (list obs * ExecutionOutcome) := @play ExecutionOutcome (@exercise demo_host sample_options sample_exercise) sample_script.
Definition sample_trace : list obs := default [] (fst <$> sample_play).
Definition sample_executed : ExecutionOutcome :=
  default (outcome sample_exercise (@read_assessment demo_host sample_exercise None "0") WithheldByGrant) (snd <$> sample_play).

Lemma sample_runs : runs (@exercise demo_host sample_options sample_exercise) sample_trace sample_executed.
Proof.
  apply play_runs with sample_script. change (@play ExecutionOutcome (@exercise demo_host sample_options sample_exercise) sample_script) with sample_play.
  assert (is_some sample_play = true) as Hs by (vm_compute; reflexivity).
  unfold sample_trace, sample_executed. destruct sample_play as [[tr out]|]; [reflexivity|discriminate Hs].
Qed.

Lemma exercise_no_bypass_witness :
  ∃ pre post, sample_trace = pre ++ [OExecute "bank-b" (validated_action sample_exercise sample_grant) sample_provider_answer] ++ post ∧
    @guarded demo_host sample_options sample_exercise pre "bank-b" (validated_action sample_exercise sample_grant).
Proof.
  destruct (@exercise_no_bypass demo_host sample_options sample_exercise sample_trace sample_executed "bank-b"
    (validated_action sample_exercise sample_grant) sample_provider_answer sample_runs) as (pre&post&E&_&_&_&Hg).
  - apply (list_elem_of_lookup_2 _ 9). vm_compute. reflexivity.
  - exists pre, post. split; [exact E|exact Hg].
Defined.

Lemma exercise_finalizes_once_witness :
  ∃ pre f, sample_trace = pre ++ [OFinalize sample_handle {| d_kind := settled; d_reason := "execution-unconfirmed" |} f].
Proof.
  assert (admissions sample_trace = [sample_handle]) as Ha by (vm_compute; reflexivity).
  destruct (@exercise_finalizes_once demo_host sample_options sample_exercise sample_trace sample_executed sample_runs)
    as [[Hn _]|(pre&h&f&Hh&E&_)]; [rewrite Ha in Hn; discriminate Hn|].
  rewrite Ha in Hh. injection Hh as <-. exists pre, f.
  assert (reservationDispositionFor (eo_status sample_executed) = {| d_kind := settled; d_reason := "execution-unconfirmed" |}) as Hd
    by (vm_compute; reflexivity).
  rewrite <-Hd. exact E.
Defined.

