(* ===== verification/System.v ===== *)
(** * The composed system: interleaved exercises over one ledger

    What a deployment runs: the grant execution service of [Execution] with the
    gate of [ExerciseGate] over the one in-memory ledger of [ExerciseLedger].
    Requests arrive at any time and their exercises interleave at every call;
    between two calls of an exercise any number of others may run. The grant
    store, the clocks, the interlock, the host's policy and binding callbacks
    and the providers answer anything at every call, and reconciliations reach
    the ledger at any time, of executions in flight too. The theorems say what
    holds of the whole: the effects that stand together never exceed a limit,
    and every reservation is accounted for by one exercise. *)

From Stdlib Require Import QArith.
From S2P Require Import Prelude Decimal Js Monetary Parameters GrantBounds GrantAttenuation GrantStore ExerciseControl ExerciseLedger ExerciseGate EmergencyControl GrantExercise AdapterPort Execution.

Local Open Scope Z_scope.
Local Open Scope frontera_scope.

(** ** Lists *)

Lemma sublist_omap_filter {A B} (f : A → option B) (p : A → bool) l : sublist (omap f (List.filter p l)) (omap f l).
Proof.
  induction l as [|x l IH]; [constructor|]. cbn. destruct (p x); cbn; destruct (f x); try done; by constructor.
Qed.

Lemma omap_lookup_unique {A B} (f : A → option B) l i j x y b :
  NoDup (omap f l) → l !! i = Some x → l !! j = Some y → f x = Some b → f y = Some b → i = j.
Proof.
  revert i j. induction l as [|z l IH]; intros [|i] [|j] Hn Hi Hj Hx Hy; try done; cbn in *.
  - injection Hi as ->. rewrite Hx in Hn. apply NoDup_cons in Hn as [Hn _]. destruct Hn. apply list_elem_of_omap.
    exists y. split; [by eapply list_elem_of_lookup_2|done].
  - injection Hj as ->. rewrite Hy in Hn. apply NoDup_cons in Hn as [Hn _]. destruct Hn. apply list_elem_of_omap.
    exists x. split; [by eapply list_elem_of_lookup_2|done].
  - f_equal. eapply IH; try done. destruct (f z); [by apply NoDup_cons in Hn as [_ ?]|done].
Qed.

(** ** Exercises in flight *)

(** One call of a program with its answer. *)
Inductive next {A} : prog A → obs → prog A → Prop :=
  | n_read i k x : next (DoRead i k) (ORead i x) (k x)
  | n_now k x : next (DoNow k) (ONow x) (k x)
  | n_emergency q k x : next (DoEmergency q k) (OEmergency q x) (k x)
  | n_admit i k x : next (DoAdmit i k) (OAdmit i x) (k x)
  | n_revalidate h i k x : next (DoRevalidate h i k) (ORevalidate h i x) (k x)
  | n_finalize h d k x : next (DoFinalize h d k) (OFinalize h d x) (k x)
  | n_execute t a k x : next (DoExecute t a k) (OExecute t a x) (k x).

(** [reaches p tr q]: after the calls of [tr], [p] has become [q]. *)
Inductive reaches {A} (p : prog A) : list obs → prog A → Prop :=
  | reaches_refl : reaches p [] p
  | reaches_next tr q x q' : reaches p tr q → next q x q' → reaches p (tr ++ [x]) q'.

(** An exercise: its request, the calls it made, and what remains of it. *)
Record Thread := { t_request : GrantExerciseRequest; t_done : list obs; t_rest : prog ExecutionOutcome }.
Record System := { sys_ledger : Ledger; sys_threads : list Thread }.

Definition empty_system : System := {| sys_ledger := empty_ledger; sys_threads := [] |}.

(** What the parties outside the ledger answer at one call. At the gate's calls
    the host's callbacks and the clock inside the section; [None] is a clock
    that throws. *)
Inductive Choice :=
  | ChRead (x : StoreAnswer)
  | ChNow (x : string)
  | ChEmergency (x : ReaderAnswer)
  | ChGate (o : GateOptions) (now : option string)
  | ChExecute (x : AdapterAnswer).

Section System.
Context `{JsHost} (o : GrantExecutionServiceOptions).

Definition respond {A} (s : Ledger) (p : prog A) (c : Choice) : option (obs * prog A * Ledger) :=
  match p, c with
  | DoRead i k, ChRead x => Some (ORead i x, k x, s)
  | DoNow k, ChNow x => Some (ONow x, k x, s)
  | DoEmergency q k, ChEmergency x => Some (OEmergency q x, k x, s)
  | DoAdmit i k, ChGate go (Some now) => let '(a, s') := gate_admit go s now i in Some (OAdmit i a, k a, s')
  | DoRevalidate h i k, ChGate go _ => let a := revalidate go h i in Some (ORevalidate h i a, k a, s)
  | DoFinalize h d k, ChGate _ now => let '(f, s') := finalize s now h d in Some (OFinalize h d f, k f, s')
  | DoExecute t a k, ChExecute x => Some (OExecute t a x, k x, s)
  | _, _ => None
  end.

(** What happens next: a request arrives, exercise [i] makes its next call, or
    the outcome of an execution is reconciled, whether it finished or not. *)
Inductive Event :=
  | EvRequest (r : GrantExerciseRequest)
  | EvCall (i : nat) (c : Choice)
  | EvReconcile (i : ExerciseReservationResolutionInput).

Definition arrive (r : GrantExerciseRequest) : Thread := {| t_request := r; t_done := []; t_rest := exercise o r |}.

Definition handle_event (sys : System) (e : Event) : option System :=
  match e with
  | EvRequest r => Some {| sys_ledger := sys_ledger sys; sys_threads := sys_threads sys ++ [arrive r] |}
  | EvCall i c =>
      t ← sys_threads sys !! i;
      '(x, q, s') ← respond (sys_ledger sys) (t_rest t) c;
      Some {| sys_ledger := s';
              sys_threads := <[i := {| t_request := t_request t; t_done := t_done t ++ [x]; t_rest := q |}]> (sys_threads sys) |}
  | EvReconcile i =>
      match reconcileResolution (sys_ledger sys) i with
      | Ok (_, s') => Some {| sys_ledger := s'; sys_threads := sys_threads sys |}
      | Throw _ => Some sys
      end
  end.

(** The system after a schedule of events. *)
Fixpoint run_system (sys : System) (events : list Event) : option System :=
  match events with
  | [] => Some sys
  | e :: events => sys' ← handle_event sys e; run_system sys' events
  end.

(** A schedule in which a resolution is filed only for a reservation that has
    its terminal event. *)
Definition in_order (sys : System) (e : Event) : bool :=
  match e with
  | EvReconcile i => is_some (terminals (sys_ledger sys) !! re_reservationId (ri_event i))
  | EvRequest _ | EvCall _ _ => true
  end.
Fixpoint orderly (sys : System) (events : list Event) : bool :=
  match events with
  | [] => true
  | e :: events => in_order sys e && match handle_event sys e with Some sys' => orderly sys' events | None => true end
  end.

(** ** What stands *)

Definition thread_id (t : Thread) : option string := h_reservationId <$> head (admissions (t_done t)).
Definition thread_record (s : Ledger) (t : Thread) : option ExerciseReservationRecord :=
  id ← thread_id t; lookup_reservation s id.

(** The actions an exercise handed to a provider. *)
Definition handed (tr : list obs) : list ValidatedExecutionAction :=
  omap (λ x, match x with OExecute _ a _ => Some a | _ => None end) tr.

(** A reconciliation declared the exercise's effect not completed. *)
Definition declared_undone (s : Ledger) (t : Thread) : bool :=
  match thread_id t with Some id => denied s id | None => false end.

(** An effect that happened or may have happened: its exercise is still in
    flight, was executed or stayed unconfirmed, and no reconciliation declared
    it not completed. *)
Definition stands (s : Ledger) (t : Thread) : bool :=
  negb (declared_undone s t) &&
  match t_rest t with
  | Ret out => match eo_status out with Executed _ _ | ExecutionUnconfirmed _ _ _ => true | _ => false end
  | _ => true
  end.

(** The exercise was admitted under a limit of this bucket. *)
Definition governed (s : Ledger) (l : ExerciseControlLimit) (t : Thread) : bool :=
  match thread_record s t with
  | Some r => is_some (recorded_rule (exerciseControlBucketKey l) r)
  | None => false
  end.

(** The effects that stand under a limit. *)
Definition standing (sys : System) (l : ExerciseControlLimit) : list Thread :=
  List.filter (λ t, stands (sys_ledger sys) t && governed (sys_ledger sys) l t) (sys_threads sys).
Definition effects (sys : System) (l : ExerciseControlLimit) : list ValidatedExecutionAction :=
  mbind (λ t, handed (t_done t)) (standing sys l).

Definition spent (a : ValidatedExecutionAction) : Q :=
  match va_amount a with Some x => dec_value (value x) | None => 0%Q end.
Definition total_spent (l : list ValidatedExecutionAction) : Q := foldr (λ a q, (spent a + q)%Q) 0%Q l.

Definition effects_within (sys : System) (l : ExerciseControlLimit) : Prop :=
  match metric l with
  | m_count n => Z.of_nat (length (effects sys l)) ≤ n
  | m_amount m u =>
      Forall (λ a, ∃ x, va_amount a = Some x ∧ unit_ x = u) (effects sys l) ∧ (total_spent (effects sys l) <= dec_value m)%Q
  end.

(** ** Prefixes of runs *)

Lemma next_runs {A} (p q : prog A) x tr a : next p x q → runs q tr a → runs p (x :: tr) a.
Proof. by intros []. Qed.

Lemma reaches_runs {A} (p q : prog A) tr tr' a : reaches p tr q → runs q tr' a → runs p (tr ++ tr') a.
Proof.
  intros Hr. revert tr'. induction Hr as [|tr q x q' Hr IH Hn]; intros tr' Hq; [done|].
  rewrite <-app_assoc. apply IH. by eapply next_runs.
Qed.

(** Every program can be run to its end from wherever it is. *)
Lemma completes {A} (p : prog A) : ∃ tr a, runs p tr a.
Proof.
  assert (∀ x (k : x → prog A), inhabited x → (∀ y, ∃ tr a, runs (k y) tr a) → ∃ y tr a, runs (k y) tr a) as Hk
    by (intros x k [y] Hy; exists y; apply Hy).
  induction p as [a|i k IH|k IH|q k IH|i k IH|h i k IH|h d k IH|t c k IH]; [by exists [], a|..];
    (destruct (Hk _ k) as (y&tr&a&Hr); [|exact IH|]).
  - repeat constructor.
  - by exists (ORead i y :: tr), a.
  - repeat constructor.
  - by exists (ONow y :: tr), a.
  - exact (inhabits ReaderThrew).
  - by exists (OEmergency q y :: tr), a.
  - exact (inhabits (GateWithheld [])).
  - by exists (OAdmit i y :: tr), a.
  - exact (inhabits RevalidationVerified).
  - by exists (ORevalidate h i y :: tr), a.
  - exact (inhabits f_retained).
  - by exists (OFinalize h d y :: tr), a.
  - exact (inhabits (AdapterThrew ThrownOther)).
  - by exists (OExecute t c y :: tr), a.
Qed.

Lemma runs_nil {A} (p : prog A) a : runs p [] a → p = Ret a.
Proof. destruct p; try done. by intros [_ ->]. Qed.

Lemma elem_of_finalizations h d f tr : OFinalize h d f ∈ tr → OFinalize h d f ∈ finalizations tr.
Proof. intros Hin. apply list_elem_of_In, filter_In. split; [by apply list_elem_of_In|done]. Qed.

Section Prefix.
Context (r : GrantExerciseRequest).

Lemma reaches_completes tr q :
  reaches (exercise o r) tr q → ∃ tr' out, runs q tr' out ∧ exercise_trace o r (tr ++ tr') out.
Proof.
  intros Hr. destruct (completes q) as (tr'&out&Hq). exists tr', out. split; [done|].
  by apply runs_exercise, reaches_runs with q.
Qed.

Lemma reaches_admissions tr q : reaches (exercise o r) tr q → admissions tr = [] ∨ ∃ h, admissions tr = [h].
Proof.
  intros (tr'&out&_&He)%reaches_completes. apply trace_finalizations in He as [[Ha _]|(pre&h&f&Ha&_&_)]; rewrite admissions_app in Ha.
  - left. by apply app_nil in Ha as [? _].
  - destruct (admissions tr) as [|h' l]; [by left|]. injection Ha as -> Ha. apply app_nil in Ha as [-> _]. right. by exists h.
Qed.

(** A finalized exercise is finished, and its one finalization is the outcome's. *)
Lemma reaches_finalized tr q h d f :
  reaches (exercise o r) tr q → OFinalize h d f ∈ tr →
  ∃ out, q = Ret out ∧ d = reservationDispositionFor (eo_status out) ∧ finalizations tr = [OFinalize h d f].
Proof.
  intros (tr'&out&Hq&He)%reaches_completes Hin. apply trace_finalizations in He as [[_ Hf]|(pre&h'&f'&_&E&Hf)].
  { rewrite finalizations_app in Hf. apply app_nil in Hf as [Hf _]. apply elem_of_finalizations in Hin.
    rewrite Hf in Hin. by apply elem_of_nil in Hin. }
  destruct tr' as [|y tr' _] using rev_ind.
  - rewrite app_nil_r in E. exists out. split; [by apply runs_nil|]. subst tr. rewrite finalizations_app, Hf. cbn.
    apply elem_of_app in Hin as [Hin|Hin%list_elem_of_singleton]; [|by injection Hin as -> -> ->].
    apply elem_of_finalizations in Hin. rewrite Hf in Hin. by apply elem_of_nil in Hin.
  - rewrite app_assoc in E. apply app_inj_tail in E as [<- _]. rewrite finalizations_app in Hf. apply app_nil in Hf as [Hf _].
    apply elem_of_finalizations in Hin. rewrite Hf in Hin. by apply elem_of_nil in Hin.
Qed.

Lemma reaches_DoFinalize tr h d k :
  reaches (exercise o r) tr (DoFinalize h d k) → admissions tr = [h] ∧ finalizations tr = [].
Proof.
  intros Hr. split.
  - assert (reaches (exercise o r) (tr ++ [OFinalize h d f_retained]) (k f_retained)) as Hr' by exact (reaches_next _ _ _ _ _ Hr (n_finalize h d k _)).
    destruct (reaches_finalized _ _ h d f_retained Hr') as (out&Hk&_&Hfin); [apply elem_of_app; right; by left|].
    assert (exercise_trace o r (tr ++ [OFinalize h d f_retained]) out) as Ht.
    { apply runs_exercise. rewrite <-(app_nil_r (tr ++ _)). apply reaches_runs with (k f_retained); [done|]. by rewrite Hk. }
    apply trace_finalizations in Ht as [[_ Hf]|(pre&h'&f'&Ha&E&_)]; [by rewrite Hfin in Hf|].
    apply app_inj_tail in E as [_ [= <- _ _]]. by rewrite admissions_app, app_nil_r in Ha.
  - destruct (finalizations tr) as [|y l] eqn:E; [done|]. assert (y ∈ finalizations tr) as Hy by (rewrite E; by left).
    apply list_elem_of_In, filter_In in Hy as [Hy%list_elem_of_In Hf]. destruct y; try done.
    by destruct (reaches_finalized _ _ _ _ _ Hr Hy) as (out&[=]&_).
Qed.

(** The gate is asked about the request itself. *)
Definition asks_for (x : obs) : Prop :=
  match x with OAdmit i _ => ∃ g at_, i = exerciseControlInputFor r g at_ | _ => True end.

Lemma emergency_asks composed q em tr : emergency_obs composed q em tr → Forall asks_for tr.
Proof. unfold emergency_obs. destruct composed; [intros (x&->&_); by repeat constructor|by intros [-> _]]. Qed.

Lemma adapter_asks action a tr answer : adapter_trace action a tr answer → Forall asks_for tr.
Proof.
  intros [i x|reg _|reg m em t _ He _|reg m em t x Hs He Hp]; [by repeat constructor|constructor|by eapply emergency_asks|].
  apply Forall_app. split; [by eapply emergency_asks|by repeat constructor].
Qed.

Lemma usable_asks tr ra g : read_usable r tr ra g → Forall asks_for tr.
Proof. intros []. by repeat constructor. Qed.
Lemma unusable_asks tr ra : read_unusable r tr ra → Forall asks_for tr.
Proof. intros []. by repeat constructor. Qed.

Lemma reserved_asks h tr out : reserved_trace o r h tr out → Forall asks_for tr.
Proof.
  intros []; rewrite ?Forall_app, ?Forall_singleton;
    repeat split; eauto using usable_asks, unusable_asks, emergency_asks, adapter_asks.
Qed.

Lemma exercise_asks tr out : exercise_trace o r tr out → Forall asks_for tr.
Proof.
  intros []; rewrite ?Forall_app, ?Forall_singleton;
    repeat split; eauto using usable_asks, unusable_asks, emergency_asks, adapter_asks, reserved_asks; cbn; eauto.
Qed.

Lemma reaches_DoAdmit tr i k :
  reaches (exercise o r) tr (DoAdmit i k) → admissions tr = [] ∧ ∃ g at_, i = exerciseControlInputFor r g at_.
Proof.
  intros Hr. pose (h := {| h_reservationId := ""; h_authorityBindingDigest := "" |}).
  pose proof (reaches_next _ _ _ _ _ Hr (n_admit i k (GateAdmitted h))) as Hr'. split.
  - destruct (reaches_admissions _ _ Hr') as [E|[h' E]]; rewrite admissions_app in E; [by apply app_nil in E as [? _]|].
    destruct (admissions tr) as [|h0 l]; [done|]. injection E as _ E. by apply app_nil in E as [_ ?].
  - apply reaches_completes in Hr' as (tr'&out&_&He). apply exercise_asks in He. rewrite !Forall_app in He. destruct He as [[_ He] _].
    by rewrite Forall_singleton in He.
Qed.

Lemma handed_crossings tr : crossings tr = [] → handed tr = [].
Proof. unfold crossings, handed. induction tr as [|[] tr IH]; cbn; try done. Qed.
Lemma handed_app l k : handed (l ++ k) = handed l ++ handed k.
Proof. apply omap_app. Qed.

(** With exercise control composed, whatever was handed over was built from the
    request, once, after an admission. *)
Lemma reaches_handed tr q :
  xo_exerciseControl o = true → reaches (exercise o r) tr q →
  handed tr = [] ∨ ∃ g h, handed tr = [validated_action r g] ∧ admissions tr = [h].
Proof.
  intros Hx Hr. pose proof (reaches_admissions _ _ Hr) as Hadm.
  apply reaches_completes in Hr as (tr'&out&_&He). apply exercise_crossing in He as [Hc|(pre&t&a&x&post&E&Hpre&Hpost&_&Hg)].
  { left. rewrite crossings_app in Hc. apply app_nil in Hc as [Hc _]. by apply handed_crossings. }
  destruct Hg as (g&at_&em&route&_&->&_&_&Hg). rewrite Hx in Hg. destruct Hg as (g1&at1&em1&h&_&_&Epre).
  apply app_eq_inv in E as [(mid&->&E)|(mid&Epre'&_)]; cycle 1.
  { left. apply handed_crossings. rewrite Epre', crossings_app in Hpre. by apply app_nil in Hpre as [? _]. }
  destruct mid as [|y mid]; [left; rewrite app_nil_r; by apply handed_crossings|]. injection E as <- Epost.
  right. rewrite handed_app, (handed_crossings pre Hpre).
  assert (handed mid = []) as Hm by (apply handed_crossings; rewrite Epost, crossings_app in Hpost; by apply app_nil in Hpost as [? _]).
  change (handed (OExecute t (validated_action r g) x :: mid)) with (validated_action r g :: handed mid). rewrite Hm. destruct Hadm as [Ha|[h' Ha]]; [|by exists g, h'].
  exfalso. rewrite Epre, !admissions_app in Ha. cbn in Ha. by destruct (admissions em1).
Qed.

End Prefix.

(** ** The invariant of the system *)

(** The reservation's terminal event is what the exercise's finalization
    reported. *)
Definition recorded (s : Ledger) (id : string) (tr : list obs) : Prop :=
  match terminals s !! id with
  | None => ∀ h d f, OFinalize h d f ∈ tr → f = f_retained
  | Some e => ∃ h d f, OFinalize h d f ∈ tr ∧ f ≠ f_retained ∧ te_kind e = d_kind d ∧ te_reason e = d_reason d
  end.

Definition thread_ok (s : Ledger) (t : Thread) : Prop :=
  reaches (exercise o (t_request t)) (t_done t) (t_rest t) ∧
  ∀ id, thread_id t = Some id → ∃ rec, lookup_reservation s id = Some rec ∧
    Forall (consumes_of (gx_amount (t_request t))) (rules (request rec)) ∧ recorded s id (t_done t).

Record system_ok (sys : System) : Prop := {
  so_history : reachable (sys_ledger sys);
  so_threads : Forall (thread_ok (sys_ledger sys)) (sys_threads sys);
  so_owned : omap thread_id (sys_threads sys) ≡ₚ record_id <$> reservations (sys_ledger sys);
}.

Lemma thread_ok_ext s s' t :
  (∀ id, thread_id t = Some id → lookup_reservation s' id = lookup_reservation s id ∧ terminals s' !! id = terminals s !! id) →
  thread_ok s t → thread_ok s' t.
Proof.
  intros Heq [Hr Ht]. split; [done|]. intros id Hid. destruct (Heq id Hid) as [E1 E2].
  destruct (Ht id Hid) as (rec&?&?&?). exists rec. unfold recorded. by rewrite E1, E2.
Qed.

Lemma gate_admit_reserves go s now i a s' :
  gate_admit go s now i = (a, s') →
  (∃ codes, a = GateWithheld codes ∧ s' = s) ∨
  (∃ h rq, a = GateAdmitted h ∧ h_reservationId h = reservationId rq ∧ Forall (consumes_of (ga_amount (ai_attempt i))) (rules rq) ∧
    lookup_reservation s (reservationId rq) = None ∧ reserve s now rq = Ok (Reserved {| request := rq; reservedAt := now |}, s') ∧
    s' = {| reservations := reservations s ++ [{| request := rq; reservedAt := now |}]; terminals := terminals s; resolutions := resolutions s |}).
Proof.
  unfold gate_admit. destruct (negb _); [intros [= <- <-]; eauto|]. destruct (negb _); [intros [= <- <-]; eauto|].
  destruct (verifyExerciseAuthorityBinding _ _); [|intros [= <- <-]; eauto].
  destruct (policy_limits _ _) as [limits|]; [|intros [= <- <-]; eauto]. destruct (_ || _)%bool; [intros [= <- <-]; eauto|].
  match goal with |- context [port_reserve s now ?x] => set (rq := x) end. cbn [port_reserve memory_ledger_port].
  destruct (reserve s now rq) as [[out s1]|] eqn:E; [|intros [= <- <-]; eauto].
  pose proof E as E'. apply reserve_cases in E' as [[-> Hn]|(rec&->&->&_&Hl&_&_&->)].
  - destruct out as [rec| | |codes bs]; [by destruct (Hn rec)|intros [= <- <-]; eauto..].
  - intros [= <- <-]. right. eexists _, rq. split; [done|]. split; [done|]. split; [apply rule_usages_consume|]. done.
Qed.

Lemma finalize_records s now h d f s' :
  finalize s now h d = (f, s') → terminals s !! h_reservationId h = None → is_Some (lookup_reservation s (h_reservationId h)) →
  (f = f_retained ∧ s' = s) ∨
  (f ≠ f_retained ∧ ∃ e, te_kind e = d_kind d ∧ te_reason e = d_reason d ∧
    s' = {| reservations := reservations s; terminals := <[h_reservationId h := e]> (terminals s); resolutions := resolutions s |}).
Proof.
  unfold finalize. intros E Hn [rec Hl]. destruct now as [at_|]; [|injection E as <- <-; by left].
  cbn [port_terminal memory_ledger_port] in E.
  destruct (terminal s (d_kind d) _) as [[out s1]|] eqn:Et; [|injection E as <- <-; by left].
  pose proof Et as Et'. apply terminal_cases in Et' as [[-> Ho]|(e&->&->&_&_&_&->)].
  - unfold terminal in Et. cbn [ti_reservationId] in Et. rewrite Hl, Hn in Et. cbn [is_some negb] in Et. destruct (_ || _)%bool; [done|].
    injection Et as <- Es. by destruct (Ho _ eq_refl).
  - injection E as <- <-. right. split; [by destruct (d_kind d)|]. eexists. split; [|split; [|reflexivity]]; done.
Qed.

(** *** Each event keeps it *)

Definition advanced (t : Thread) (x : obs) (q : prog ExecutionOutcome) : Thread :=
  {| t_request := t_request t; t_done := t_done t ++ [x]; t_rest := q |}.

(** A call that neither reserves nor finalizes. *)
Definition silent (x : obs) : bool :=
  match x with OAdmit _ (GateAdmitted _) | OFinalize _ _ _ => false | _ => true end.

Lemma silent_thread_id t x q : silent x = true → thread_id (advanced t x q) = thread_id t.
Proof.
  intros Hx. unfold thread_id. cbn [t_done advanced]. rewrite admissions_app.
  by destruct x as [| | |i []| | |]; try done; cbn; rewrite app_nil_r.
Qed.

Lemma silent_recorded s id tr x : silent x = true → recorded s id tr → recorded s id (tr ++ [x]).
Proof.
  intros Hx. unfold recorded. destruct (terminals s !! id) as [e|].
  - intros (h&d&f&Hin&?). exists h, d, f. split; [|done]. apply elem_of_app. by left.
  - intros Hr h d f [Hin|<-%list_elem_of_singleton]%elem_of_app; [by eapply Hr|done].
Qed.

Lemma silent_thread_ok s t x q :
  silent x = true → next (t_rest t) x q → thread_ok s t → thread_ok s (advanced t x q).
Proof.
  intros Hx Hn [Hr Ht]. split; [by eapply reaches_next|]. intros id. rewrite silent_thread_id by done. intros Hid.
  destruct (Ht id Hid) as (rec&?&?&?). exists rec. do 2 (split; [done|]). by apply silent_recorded.
Qed.

Lemma reserved_thread_ok s t i k h rq now :
  t_rest t = DoAdmit i k → thread_ok s t → lookup_reservation s (reservationId rq) = None →
  ledger_ok s → h_reservationId h = reservationId rq → Forall (consumes_of (ga_amount (ai_attempt i))) (rules rq) →
  thread_id t = None ∧ thread_id (advanced t (OAdmit i (GateAdmitted h)) (k (GateAdmitted h))) = Some (reservationId rq) ∧
  thread_ok {| reservations := reservations s ++ [{| request := rq; reservedAt := now |}]; terminals := terminals s; resolutions := resolutions s |}
    (advanced t (OAdmit i (GateAdmitted h)) (k (GateAdmitted h))).
Proof.
  intros Ek [Hr Ht] Hl Hok Eh Hc. rewrite Ek in Hr. destruct (reaches_DoAdmit _ _ _ _ Hr) as [Ha (g&at_&Ei)].
  assert (thread_id (advanced t (OAdmit i (GateAdmitted h)) (k (GateAdmitted h))) = Some (reservationId rq)) as Eid.
  { unfold thread_id. cbn [t_done advanced]. rewrite admissions_app, Ha. cbn. by rewrite Eh. }
  split; [unfold thread_id; by rewrite Ha|]. split; [done|]. split.
  - cbn [t_rest t_done t_request advanced]. eapply reaches_next; [exact Hr|constructor].
  - intros id. rewrite Eid. intros [= <-]. exists {| request := rq; reservedAt := now |}. split.
    { rewrite lookup_reservation_app, Hl. unfold record_id. cbn. by rewrite str_eqb_refl. }
    split; [by rewrite Ei in Hc|]. unfold recorded. cbn [terminals].
    destruct (terminals s !! reservationId rq) as [e|] eqn:Et; [destruct (terminals_ok _ Hok _ _ Et) as (_&_&[? ?]); congruence|].
    cbn [t_done advanced]. intros h' d f [Hin|[=]%list_elem_of_singleton]%elem_of_app.
    by destruct (reaches_finalized _ _ _ _ _ _ Hr Hin) as (out&[=]&_).
Qed.

Lemma finalized_thread_ok s now t h d k f s' :
  t_rest t = DoFinalize h d k → thread_ok s t → finalize s now h d = (f, s') →
  reservations s' = reservations s ∧ thread_id t = Some (h_reservationId h) ∧
  thread_id (advanced t (OFinalize h d f) (k f)) = Some (h_reservationId h) ∧
  (∀ id, id ≠ h_reservationId h → terminals s' !! id = terminals s !! id) ∧
  thread_ok s' (advanced t (OFinalize h d f) (k f)).
Proof.
  intros Ek [Hr Ht] Ef. rewrite Ek in Hr. destruct (reaches_DoFinalize _ _ _ _ _ Hr) as [Ha Hf].
  assert (thread_id t = Some (h_reservationId h)) as Eid by (unfold thread_id; by rewrite Ha).
  assert (thread_id (advanced t (OFinalize h d f) (k f)) = Some (h_reservationId h)) as Eid'.
  { unfold thread_id. cbn [t_done advanced]. by rewrite admissions_app, Ha. }
  assert (∀ h' d' f', OFinalize h' d' f' ∉ t_done t) as Hno.
  { intros h' d' f' Hin%elem_of_finalizations. rewrite Hf in Hin. by apply elem_of_nil in Hin. }
  destruct (Ht _ Eid) as (rec&Hl&Hc&Hrec). unfold recorded in Hrec.
  destruct (terminals s !! h_reservationId h) as [e|] eqn:Et; [destruct Hrec as (h'&d'&f'&Hin&_); by destruct (Hno h' d' f')|].
  assert (reaches (exercise o (t_request t)) (t_done t ++ [OFinalize h d f]) (k f)) as Hr' by (eapply reaches_next; [exact Hr|constructor]).
  apply finalize_records in Ef as [[-> ->]|(Hne&e&Hk&Hreason&->)]; [| |done|by eexists].
  - do 4 (split; [done|]). split; [done|]. intros id. rewrite Eid'. intros [= <-]. exists rec. do 2 (split; [done|]).
    unfold recorded. rewrite Et. cbn [t_done advanced]. intros h' d' f' [Hin|[= _ _ ->]%list_elem_of_singleton]%elem_of_app; [by destruct (Hno h' d' f')|done].
  - do 3 (split; [done|]). split; [intros id Hid; cbn; by rewrite lookup_insert_ne|].
    split; [done|]. intros id. rewrite Eid'. intros [= <-]. exists rec. do 2 (split; [done|]).
    unfold recorded. cbn [terminals]. rewrite lookup_insert_eq. exists h, d, f. split; [|done].
    cbn. apply elem_of_app. right. by left.
Qed.

Lemma respond_cases {A} s (p : prog A) c x q s' :
  respond s p c = Some (x, q, s') →
  (next p x q ∧ silent x = true ∧ s' = s) ∨
  (∃ i k h go now, p = DoAdmit i k ∧ x = OAdmit i (GateAdmitted h) ∧ q = k (GateAdmitted h) ∧ gate_admit go s now i = (GateAdmitted h, s')) ∨
  (∃ h d k f now, p = DoFinalize h d k ∧ x = OFinalize h d f ∧ q = k f ∧ finalize s now h d = (f, s')).
Proof.
  destruct p as [a|i k|k|e k|i k|h i k|h d k|t b k], c as [y|y|y|go now|y]; cbn [respond]; try done;
    try (intros [= <- <- <-]; left; split; [constructor|done]).
  - destruct now as [now|]; [|done]. destruct (gate_admit go s now i) as [a s1] eqn:E. intros [= <- <- <-].
    destruct a as [h|codes]; [right; left; by exists i, k, h, go, now|].
    apply gate_admit_reserves in E as [(codes'&_&->)|(h&rq&[=]&_)]. left. split; [constructor|done].
  - destruct (finalize s now h d) as [f s1] eqn:E. intros [= <- <- <-]. right. right. by exists h, d, k, f, now.
Qed.

(** The calls of an exercise reserve and finalize; none reconciles. *)
Lemma respond_settled {A} s (p : prog A) c x q s' : respond s p c = Some (x, q, s') → rtc settled_step s s'.
Proof.
  intros [(_&_&->)|[(i&k&h&go&now&_&_&_&Ha)|(h&d&k&f&now&_&_&_&Hf)]]%respond_cases; [done|..].
  - apply gate_admit_reserves in Ha as [(codes&[=]&_)|(h'&rq&_&_&_&_&Hr&_)]. apply rtc_once. by eapply q_reserve.
  - unfold finalize in Hf. destruct now as [at_|]; [|by injection Hf as _ <-]. cbn [port_terminal memory_ledger_port] in Hf.
    destruct (terminal s (d_kind d) _) as [[out s1]|] eqn:Et; [|by injection Hf as _ <-].
    apply rtc_once. assert (s1 = s') as <- by (by destruct out; injection Hf). by eapply q_terminal.
Qed.

Lemma other_threads s s' l1 t l2 id :
  NoDup (omap thread_id (l1 ++ t :: l2)) → thread_id t = Some id →
  (∀ j, j ≠ id → lookup_reservation s' j = lookup_reservation s j ∧ terminals s' !! j = terminals s !! j) →
  Forall (thread_ok s) l1 → Forall (thread_ok s) l2 → Forall (thread_ok s') l1 ∧ Forall (thread_ok s') l2.
Proof.
  intros Hn Hid Hs H1 H2. rewrite omap_app in Hn. cbn in Hn. rewrite Hid in Hn. apply NoDup_app in Hn as (_&Hd&Hn2).
  apply NoDup_cons in Hn2 as [Hni _]. rewrite !Forall_forall in *.
  split; intros u Hu; (apply (thread_ok_ext s); [intros j Hj; apply Hs; intros ->|by auto]).
  - apply (Hd id); [|by left]. apply list_elem_of_omap. eauto.
  - apply Hni. apply list_elem_of_omap. eauto.
Qed.

Lemma call_ok s l1 t l2 c x q s' :
  system_ok {| sys_ledger := s; sys_threads := l1 ++ t :: l2 |} → respond s (t_rest t) c = Some (x, q, s') →
  system_ok {| sys_ledger := s'; sys_threads := l1 ++ advanced t x q :: l2 |}.
Proof.
  intros [Hh Ht Ho] Hx. cbn [sys_ledger sys_threads] in *. apply Forall_app in Ht as [H1 [Ht H2]%Forall_cons].
  pose proof (ledger_history_ok _ _ Hh empty_ledger_ok) as Hok.
  assert (reachable s') as Hh' by (unfold reachable, ledger_history in *; etrans; [exact Hh|]; by eapply settled_history, respond_settled).
  assert (NoDup (omap thread_id (l1 ++ t :: l2))) as Hnd by (rewrite Ho; by apply ids_unique).
  rewrite omap_app in Ho. cbn in Ho.
  apply respond_cases in Hx as [(Hn&Hsil&->)|[(i&k&h&go&now&Ek&->&->&Ha)|(h&d&k&f&now&Ek&->&->&Hf)]].
  - split; cbn [sys_ledger sys_threads]; [done| |].
    + apply Forall_app. split; [done|]. constructor; [by apply silent_thread_ok|done].
    + rewrite omap_app. cbn. by rewrite silent_thread_id.
  - apply gate_admit_reserves in Ha as [(codes&[=]&_)|(h'&rq&[= <-]&Eh&Hc&Hl&Hr&->)].
    destruct (reserved_thread_ok s t i k h rq now Ek Ht Hl Hok Eh Hc) as (Hid&Hid'&Hok').
    split; cbn [sys_ledger sys_threads].
    + done.
    + assert (∀ u, thread_ok s u → thread_ok {| reservations := reservations s ++ [{| request := rq; reservedAt := now |}];
        terminals := terminals s; resolutions := resolutions s |} u) as Hmono.
      { intros u [Hr1 Hr2]. split; [done|]. intros id Hu. destruct (Hr2 id Hu) as (rec&Hrec&?&?). exists rec.
        rewrite lookup_reservation_app, Hrec. done. }
      apply Forall_app. split; [by eapply Forall_impl|]. constructor; [done|by eapply Forall_impl].
    + rewrite omap_app. cbn. rewrite Hid in Ho. rewrite Hid', fmap_app. cbn.
      rewrite <-Ho, <-Permutation_middle. apply Permutation_cons_append.
  - destruct (finalized_thread_ok s now t h d k f s' Ek Ht Hf) as (Er&Hid&Hid'&Hter&Hok').
    destruct (other_threads s s' l1 t l2 (h_reservationId h) Hnd Hid) as [H1' H2']; [|done|done|].
    { intros j Hj. split; [unfold lookup_reservation; by rewrite Er|by apply Hter]. }
    split; cbn [sys_ledger sys_threads].
    + done.
    + apply Forall_app. split; [done|]. by constructor.
    + rewrite omap_app. cbn. rewrite Hid', Er. by rewrite Hid in Ho.
Qed.

Lemma empty_system_ok : system_ok empty_system.
Proof. split; cbn; [apply rtc_refl|apply Forall_nil_2|done]. Qed.

Lemma event_ok sys e sys' : handle_event sys e = Some sys' → system_ok sys → system_ok sys'.
Proof.
  destruct e as [r|i c|i]; cbn [handle_event].
  - intros [= <-] [Hh Ht Ho]. split; cbn [sys_ledger sys_threads]; [done| |].
    + apply Forall_app. split; [done|]. apply Forall_singleton. split; [constructor|done].
    + rewrite omap_app. cbn. by rewrite app_nil_r.
  - intros (t&Hi&([[x q] s']&Hr&[= <-])%bind_Some)%bind_Some Hok. destruct sys as [s ts]. cbn [sys_ledger sys_threads] in *.
    pose proof (take_drop_middle _ _ _ Hi) as Es. rewrite insert_take_drop by (by eapply lookup_lt_Some).
    eapply call_ok; [|exact Hr]. by rewrite Es.
  - destruct (reconcileResolution _ i) as [[out s']|] eqn:E; [|by intros [= <-]]. intros [= <-] [Hh Ht Ho].
    split; cbn [sys_ledger sys_threads]; [by eapply rtc_r, do_reconcile| |].
    + eapply Forall_impl; [exact Ht|]. intros u. apply thread_ok_ext. intros id _.
      by apply reconcile_cases in E as [->|(_&_&_&_&->)].
    + by apply reconcile_cases in E as [->|(_&_&_&_&->)].
Qed.

Lemma run_system_ok sys events sys' : run_system sys events = Some sys' → system_ok sys → system_ok sys'.
Proof.
  revert sys. induction events as [|e events IH]; intros sys; cbn [run_system]; [by intros [= <-]|].
  intros (sys1&He&Hr)%bind_Some Hok. eapply IH; [done|]. by eapply event_ok.
Qed.

(** In an orderly schedule every reconciliation finds its terminal event. *)
Lemma orderly_settled sys events sys' :
  run_system sys events = Some sys' → orderly sys events = true → rtc settled_step (sys_ledger sys) (sys_ledger sys').
Proof.
  revert sys. induction events as [|e events IH]; intros sys; cbn [run_system orderly]; [by intros [= <-]|].
  intros (sys1&He&Hr)%bind_Some [Ho Hrest]%andb_true_iff. rewrite He in Hrest. trans (sys_ledger sys1); [|by apply IH]. clear IH Hr Hrest.
  destruct e as [r|i c|i]; cbn [handle_event in_order] in *.
  - by injection He as <-.
  - apply bind_Some in He as (t&_&([[x q] s']&Hr&[= <-])%bind_Some). by eapply respond_settled.
  - destruct (reconcileResolution _ i) as [[out s']|] eqn:E; injection He as <-; [|done].
    apply rtc_once. eapply q_reconcile; [by apply is_some_true|exact E].
Qed.

Lemma settled_agree s : rtc settled_step empty_ledger s → resolutions_agree s.
Proof.
  revert s. apply (rtc_ind_r (R := settled_step) resolutions_agree empty_ledger); [|eauto using settled_step_agree].
  intros id e. cbn. by rewrite lookup_empty.
Qed.

(** ** What a reservation consumes *)

Definition confirmed (s : Ledger) (id : string) : bool :=
  match resolutions s !! id with Some e => bool_decide (re_resolution e = ExerciseControl.confirmed_completed) | None => false end.

(** What an exercise's effect costs: an executed one always, one that did not
    happen only when a reconciliation says it completed, and an unconfirmed one
    unless a reconciliation says it did not. *)
Definition costs (s : Ledger) (id : string) (status : ExecutionStatus) : bool :=
  match status with
  | Executed _ _ => true
  | ExecutionUnconfirmed _ _ _ => negb (denied s id)
  | _ => confirmed s id
  end.

Lemma terminal_consumes s rec e status :
  terminals s !! record_id rec = Some e → te_kind e = d_kind (reservationDispositionFor status) →
  te_reason e = d_reason (reservationDispositionFor status) → consumes s rec = costs s (record_id rec) status.
Proof.
  intros Et Hk Hr. unfold consumes, costs, confirmed, denied, exerciseReservationConsumes, exerciseReservationResolutionConsistent.
  rewrite Et, Hk, Hr. destruct (resolutions s !! record_id rec) as [x|], status; try done; by destruct (re_resolution x).
Qed.

Lemma unsettled_consumes s rec : terminals s !! record_id rec = None → consumes s rec = negb (denied s (record_id rec)).
Proof.
  intros Et. unfold consumes, denied, exerciseReservationConsumes. rewrite Et. destruct (resolutions s !! record_id rec) as [x|]; [|done].
  by destruct (re_resolution x).
Qed.

(** ** Effects that stand are paid for *)

Lemma standing_kept sys t id rec :
  system_ok sys → t ∈ sys_threads sys → stands (sys_ledger sys) t = true → thread_id t = Some id →
  lookup_reservation (sys_ledger sys) id = Some rec → kept (sys_ledger sys) rec = true.
Proof.
  intros [Hh Ht _] Hin Hs Hid Hl. pose proof (ledger_history_ok _ _ Hh empty_ledger_ok) as Hok.
  rewrite Forall_forall in Ht. destruct (Ht t Hin) as [Hr Hrec]. destruct (Hrec id Hid) as (rec'&Hl'&_&Hr').
  apply lookup_reservation_Some in Hl as [_ <-]; [|by apply ids_unique]. clear Hl' rec'.
  unfold stands, declared_undone in Hs. rewrite Hid in Hs. apply andb_true_iff in Hs as [Hd Hs].
  unfold kept. rewrite Hd, andb_true_r. unfold recorded in Hr'. destruct (terminals (sys_ledger sys) !! record_id rec) as [e|] eqn:Et.
  - destruct Hr' as (h&d&f&Hfin&_&Hk&Hreason). destruct (reaches_finalized _ _ _ _ _ _ Hr Hfin) as (out&Hrest&->&_).
    rewrite (terminal_consumes _ _ _ _ Et Hk Hreason). rewrite Hrest in Hs. by destruct (eo_status out).
  - by rewrite unsettled_consumes.
Qed.

(** What the ledger was told did not complete never executed, when it was told
    so in order. *)
Lemma undone_not_executed sys t :
  system_ok sys → resolutions_agree (sys_ledger sys) → t ∈ sys_threads sys → declared_undone (sys_ledger sys) t = true →
  ∃ out, t_rest t = Ret out ∧ ∀ by_ ref, eo_status out ≠ Executed by_ ref.
Proof.
  intros [_ Ht _] Hagree Hin Hu. unfold declared_undone, denied in Hu. destruct (thread_id t) as [id|] eqn:Hid; [|done].
  destruct (resolutions (sys_ledger sys) !! id) as [e|] eqn:Er; [|done]. apply bool_decide_eq_true in Hu.
  destruct (Hagree _ _ Er) as (x&Ex&Hc). rewrite Forall_forall in Ht. destruct (Ht t Hin) as [Hr Hrec].
  destruct (Hrec id Hid) as (rec&_&_&Hr'). unfold recorded in Hr'. rewrite Ex in Hr'. destruct Hr' as (h&d&f&Hfin&_&Hk&Hreason).
  destruct (reaches_finalized _ _ _ _ _ _ Hr Hfin) as (out&Hrest&->&_). exists out. split; [done|]. intros by_ ref Es.
  rewrite Es in Hk, Hreason. cbn in Hk, Hreason. unfold exerciseReservationResolutionConsistent in Hc. by rewrite Hk, Hreason, Hu in Hc.
Qed.

(** What a reservation adds to the load of a limit. *)
Definition charge (s : Ledger) (l : ExerciseControlLimit) (rec : ExerciseReservationRecord) : option ExerciseControlActiveUsage :=
  if kept s rec then usage_entry rec <$> recorded_rule (exerciseControlBucketKey l) rec else None.

(** The exercise's reservation is charged at least what it handed over. *)
Definition paid (s : Ledger) (l : ExerciseControlLimit) (t : Thread) (rec : ExerciseReservationRecord) : Prop :=
  thread_id t = Some (record_id rec) ∧ rec ∈ reservations s ∧ ∃ e, charge s l rec = Some e ∧
    (handed (t_done t) = [] ∨ ∃ a, handed (t_done t) = [a] ∧
      match metric l with
      | m_count _ => True
      | m_amount _ u => ∃ x, va_amount a = Some x ∧ unit_ x = u ∧ au_usage e = value x
      end).

Lemma standing_paid sys l t :
  xo_exerciseControl o = true → system_ok sys → uniform (sys_ledger sys) l → t ∈ standing sys l →
  ∃ rec, paid (sys_ledger sys) l t rec.
Proof.
  intros Hx Hok Hu Hin. unfold standing in Hin. apply list_elem_of_In, filter_In in Hin as [Hin%list_elem_of_In [Hs Hg]%andb_true_iff].
  unfold governed, thread_record in Hg. destruct (thread_id t) as [id|] eqn:Hid; [|done]. cbn in Hg.
  destruct (lookup_reservation (sys_ledger sys) id) as [rec|] eqn:Hl; [|done].
  destruct (recorded_rule _ rec) as [rule|] eqn:Hrule; [|done]. clear Hg.
  pose proof (standing_kept _ _ _ _ Hok Hin Hs Hid Hl) as Hc.
  pose proof (so_threads _ Hok) as Ht. rewrite Forall_forall in Ht. destruct (Ht t Hin) as [Hr Hrec].
  destruct (Hrec id Hid) as (rec'&Hl'&Hcons&_). rewrite Hl in Hl'. injection Hl' as <-.
  pose proof (ledger_history_ok _ _ (so_history _ Hok) empty_ledger_ok) as Hlok.
  apply lookup_reservation_Some in Hl as [Hinr <-]; [|by apply ids_unique].
  pose proof (Hu _ _ Hinr Hrule) as Hlim. apply recorded_rule_in in Hrule as Hrule'. destruct Hrule' as [Hinrule _].
  rewrite Forall_forall in Hcons. specialize (Hcons _ Hinrule). unfold consumes_of in Hcons. rewrite Hlim in Hcons.
  exists rec. split; [done|]. split; [done|]. exists (usage_entry rec rule). split; [unfold charge; by rewrite Hc, Hrule|].
  destruct (reaches_handed _ _ _ Hx Hr) as [Hh|(g&h&Hh&_)]; [by left|right]. eexists. split; [exact Hh|].
  destruct (metric l) as [n|m u]; [done|]. destruct Hcons as (x&Ha&Hunit&Husage). by exists x.
Qed.

Lemma paid_list s l ts : (∀ t, t ∈ ts → ∃ rec, paid s l t rec) → ∃ recs, Forall2 (paid s l) ts recs.
Proof.
  induction ts as [|t ts IH]; intros Hp; [exists []; constructor|].
  destruct (Hp t) as [rec Hrec]; [by left|]. destruct IH as [recs Hrecs]; [intros u Hu; apply Hp; by right|].
  exists (rec :: recs). by constructor.
Qed.

Lemma paid_ids s l ts recs : Forall2 (paid s l) ts recs → omap thread_id ts = record_id <$> recs ∧ Forall (λ r, r ∈ reservations s) recs.
Proof. induction 1 as [|t rec ts recs (Hid&Hin&_) _ [IH1 IH2]]; [done|]. cbn. rewrite Hid, IH1. split; [done|]. by constructor. Qed.

Lemma paid_count s l ts recs :
  Forall2 (paid s l) ts recs → (length (mbind (λ t, handed (t_done t)) ts) ≤ length (omap (charge s l) recs))%nat.
Proof.
  induction 1 as [|t rec ts recs (_&_&e&He&Hh) _ IH]; [done|]. cbn. rewrite He, length_app. cbn.
  destruct Hh as [->|(a&->&_)]; cbn; lia.
Qed.

Lemma total_spent_app l k : (total_spent (l ++ k) == total_spent l + total_spent k)%Q.
Proof. induction l as [|a l IH]; cbn; [by rewrite Qplus_0_l|]. by rewrite IH, Qplus_assoc. Qed.

Lemma usage_matches_nonneg u e : usage_matches u e = true → (0 <= dec_value (au_usage e))%Q.
Proof.
  unfold usage_matches. intros Hm. split_and_bool. by apply dec_value_nonneg, (isCanonicalDecimal_grammar _ _ ltac:(done)).
Qed.

Lemma sum_values_nonneg u l : forallb (usage_matches u) l = true → (0 <= sum_values l)%Q.
Proof.
  induction l as [|e l IH]; cbn; [intros _; apply Qle_refl|]. intros [He%usage_matches_nonneg Hl]%andb_true_iff.
  rewrite <-(Qplus_0_r 0). apply Qplus_le_compat; auto.
Qed.

Lemma paid_amount s l m u ts recs :
  metric l = m_amount m u → Forall2 (paid s l) ts recs → forallb (usage_matches u) (omap (charge s l) recs) = true →
  Forall (λ a, ∃ x, va_amount a = Some x ∧ unit_ x = u) (mbind (λ t, handed (t_done t)) ts) ∧
  (total_spent (mbind (λ t, handed (t_done t)) ts) <= sum_values (omap (charge s l) recs))%Q.
Proof.
  intros Hm. induction 1 as [|t rec ts recs (_&_&e&He&Hh) _ IH]; intros Hf; [split; [constructor|apply Qle_refl]|].
  cbn [omap list_omap] in Hf |- *. rewrite He in Hf |- *. cbn [forallb] in Hf. apply andb_true_iff in Hf as [Hfe Hf].
  destruct (IH Hf) as [IH1 IH2]. cbn [mbind list_bind]. rewrite Forall_app, total_spent_app. cbn [sum_values].
  rewrite Hm in Hh. destruct Hh as [->|(a&->&x&Hx&Hunit&Husage)].
  - split; [split; [constructor|done]|]. apply Qplus_le_compat; [by eapply usage_matches_nonneg|done].
  - split; [split; [repeat constructor; by exists x|done]|]. apply Qplus_le_compat; [|done]. cbn. unfold spent. rewrite Hx, Husage, Qplus_0_r. apply Qle_refl.
Qed.

Lemma sum_values_Permutation l k : l ≡ₚ k → (sum_values l == sum_values k)%Q.
Proof.
  induction 1 as [|x l k _ IH|x y l|l1 l2 l3 _ IH1 _ IH2]; cbn; [reflexivity|by rewrite IH| |by rewrite IH1].
  by rewrite !Qplus_assoc, (Qplus_comm (dec_value (au_usage y))).
Qed.

Lemma forallb_Permutation {A} (p : A → bool) l k : l ≡ₚ k → forallb p l = forallb p k.
Proof.
  induction 1 as [|x l k _ IH|x y l|l1 l2 l3 _ IH1 _ IH2]; cbn; [done|by rewrite IH|by rewrite !andb_assoc, (andb_comm (p y))|by rewrite IH1].
Qed.

(** The charges of distinct reservations are part of what is kept. *)
Lemma charges_within_load s l recs :
  NoDup recs → Forall (λ r, r ∈ reservations s) recs → ∃ rest, kept_load s l ≡ₚ omap (charge s l) recs ++ rest.
Proof.
  intros Hn Hin. destruct (submseteq_Permutation recs (reservations s)) as [k Hk].
  { apply NoDup_submseteq; [done|]. intros x Hx. rewrite Forall_forall in Hin. by apply Hin. }
  exists (omap (charge s l) k). unfold kept_load. change (omap _ (reservations s)) with (omap (charge s l) (reservations s)). by rewrite Hk, omap_app.
Qed.

Lemma standing_within sys l :
  xo_exerciseControl o = true → system_ok sys → limit_ok l → window l = lifetime → uniform (sys_ledger sys) l → effects_within sys l.
Proof.
  intros Hx Hok Hl Hlife Hu. pose proof (kept_capacity _ _ (so_history _ Hok) Hl Hlife Hu) as Hcap.
  destruct (paid_list (sys_ledger sys) l (standing sys l)) as [recs Hrecs]; [intros t; by apply standing_paid|].
  destruct (paid_ids _ _ _ _ Hrecs) as [Hids Hin].
  destruct (charges_within_load (sys_ledger sys) l recs) as [rest Hload]; [|done|].
  { apply (NoDup_fmap_1 record_id). rewrite <-Hids.
    assert (sublist (omap thread_id (standing sys l)) (omap thread_id (sys_threads sys))) as Hsub by apply sublist_omap_filter.
    eapply sublist_NoDup; [|exact Hsub]. rewrite (so_owned _ Hok). by apply ids_unique, (ledger_history_ok _ _ (so_history _ Hok)), empty_ledger_ok. }
  unfold entries_within in Hcap. unfold effects_within, effects. destruct (metric l) as [n|m u] eqn:Em.
  - rewrite Hload, length_app in Hcap. apply paid_count in Hrecs. lia.
  - destruct Hcap as [Hf Hle]. rewrite (forallb_Permutation _ _ _ Hload), forallb_app in Hf. apply andb_true_iff in Hf as [Hf1 Hf2].
    destruct (paid_amount _ _ _ _ _ _ Em Hrecs Hf1) as [Hunits Htotal]. split; [done|]. eapply Qle_trans; [exact Htotal|].
    eapply Qle_trans; [|exact Hle]. rewrite (sum_values_Permutation _ _ Hload), sum_values_app.
    rewrite <-(Qplus_0_r (sum_values _)) at 1. apply Qplus_le_compat; [apply Qle_refl|by eapply sum_values_nonneg].
Qed.

(** C1. Effects together never exceed a limit. In a deployment that composes
    exercise control, take any interleaving of any number of exercises and
    reconciliations over one ledger, whatever the stores, clocks, policies and
    providers answer, and a lifetime limit which the host did not change while
    reservations were made under it ([uniform]). The actions handed to
    providers under the limit whose effect happened or may have happened
    (executed, in flight or unconfirmed), those apart which a reconciliation
    declared not completed, number at most the limit's count, or are all in its
    unit with an exact total at or below its maximum. Where reconciliations are
    filed only for reservations that have their terminal event ([orderly]),
    those declared not completed have returned and were not executed, so the
    exception takes out no executed effect. (Filed earlier it can:
    [inflight_reconciliation_exceeds].) *)
Theorem effects_within_limits (events : list Event) (sys : System) (l : ExerciseControlLimit) :
  xo_exerciseControl o = true → run_system empty_system events = Some sys →
  limit_ok l → window l = lifetime → uniform (sys_ledger sys) l →
  effects_within sys l ∧
  (orderly empty_system events = true → ∀ t, t ∈ sys_threads sys → declared_undone (sys_ledger sys) t = true →
    ∃ out, t_rest t = Ret out ∧ ∀ by_ ref, eo_status out ≠ Executed by_ ref).
Proof.
  intros Hx Hrun Hl Hlife Hu. pose proof (run_system_ok _ _ _ Hrun empty_system_ok) as Hok. split; [by apply standing_within|].
  intros Ho t Hin. apply undone_not_executed; [done| |done]. by apply settled_agree, (orderly_settled _ _ _ Hrun).
Qed.

(** C32. Every reservation is accounted for: in every interleaving of
    exercises and reconciliations each reservation of the ledger belongs to
    exactly one exercise. A terminal event is the one demanded by the outcome
    its exercise returned, so there is none while that exercise is in flight.
    What it consumes is determined: an executed effect always consumes; an
    unconfirmed one, and a reservation without a terminal event, consumes unless
    a reconciliation declared it not completed; any other outcome consumes only
    if a reconciliation declared it completed. *)
Theorem reservations_accounted (events : list Event) (sys : System) (rec : ExerciseReservationRecord) :
  run_system empty_system events = Some sys → rec ∈ reservations (sys_ledger sys) →
  ∃ i t, sys_threads sys !! i = Some t ∧ thread_id t = Some (record_id rec) ∧
    (∀ j u, sys_threads sys !! j = Some u → thread_id u = Some (record_id rec) → j = i) ∧
    match terminals (sys_ledger sys) !! record_id rec with
    | Some e => ∃ out, t_rest t = Ret out ∧ te_kind e = d_kind (reservationDispositionFor (eo_status out)) ∧
        te_reason e = d_reason (reservationDispositionFor (eo_status out)) ∧
        consumes (sys_ledger sys) rec = costs (sys_ledger sys) (record_id rec) (eo_status out)
    | None => consumes (sys_ledger sys) rec = negb (denied (sys_ledger sys) (record_id rec))
    end.
Proof.
  intros Hrun Hin. pose proof (run_system_ok _ _ _ Hrun empty_system_ok) as [Hh Ht Ho].
  pose proof (ledger_history_ok _ _ Hh empty_ledger_ok) as Hlok.
  assert (record_id rec ∈ omap thread_id (sys_threads sys)) as (t&Hint&Hid)%list_elem_of_omap.
  { rewrite Ho. by apply list_elem_of_fmap_2. }
  apply list_elem_of_lookup in Hint as [i Hi].
  exists i, t. split; [done|]. split; [done|]. split.
  - intros j u Hj Hu. eapply omap_lookup_unique; [|exact Hj|exact Hi|exact Hu|exact Hid]. rewrite Ho. by apply ids_unique.
  - rewrite Forall_forall in Ht. destruct (Ht t) as [Hr Hrec]; [by apply list_elem_of_lookup_2 in Hi|].
    destruct (Hrec _ Hid) as (_&_&_&Hter). unfold recorded in Hter. destruct (terminals _ !! record_id rec) as [e|] eqn:Et; [|by apply unsettled_consumes].
    destruct Hter as (h&d&f&Hf&_&Hk&Hreason). destruct (reaches_finalized _ _ _ _ _ _ Hr Hf) as (out&Hout&->&_).
    exists out. do 3 (split; [done|]). by apply (terminal_consumes _ _ _ _ Et).
Qed.

(** ** Progress *)

Definition EXERCISE_MAXIMUM_CALLS : nat := 11.

Lemma emergency_length composed q em tr : emergency_obs composed q em tr → (length tr ≤ 1)%nat.
Proof. unfold emergency_obs. destruct composed; [intros (x&->&_); cbn; lia|intros [-> _]; cbn; lia]. Qed.
Lemma adapter_length action a tr answer : adapter_trace action a tr answer → (length tr ≤ 2)%nat.
Proof.
  intros [i x|reg _|reg m em t _ He _|reg m em t x Hs He Hp]; try (apply emergency_length in He); rewrite ?length_app; cbn; lia.
Qed.
Lemma usable_length r tr ra g : read_usable r tr ra g → length tr = 2%nat.
Proof. by intros []. Qed.
Lemma unusable_length r tr ra : read_unusable r tr ra → length tr = 2%nat.
Proof. by intros []. Qed.

Ltac call_lengths :=
  repeat match goal with
  | H : read_usable _ _ _ _ |- _ => apply usable_length in H
  | H : read_unusable _ _ _ |- _ => apply unusable_length in H
  | H : stop_obs _ _ _ _ _ |- _ => apply emergency_length in H
  | H : adapter_trace _ _ _ _ |- _ => apply adapter_length in H
  end; rewrite ?length_app; cbn [length] in *; lia.

Lemma reserved_length r h tr out : reserved_trace o r h tr out → (length tr ≤ 6)%nat.
Proof. intros []; call_lengths. Qed.

Lemma exercise_length r tr out : exercise_trace o r tr out → (length tr ≤ EXERCISE_MAXIMUM_CALLS)%nat.
Proof.
  unfold EXERCISE_MAXIMUM_CALLS. intros []; try call_lengths.
  match goal with H : reserved_trace _ _ _ _ _ |- _ => apply reserved_length in H end. call_lengths.
Qed.

Lemma respond_progress {A} s (p : prog A) : (∃ a, p = Ret a) ∨ ∃ c y, respond s p c = Some y.
Proof.
  destruct p as [a|i k|k|e k|i k|h i k|h d k|t b k]; [by left; eexists|right..].
  - by eexists (ChRead None), _.
  - by eexists (ChNow ""), _.
  - by eexists (ChEmergency ReaderThrew), _.
  - exists (ChGate {| policy := λ _, None; authorityBinding := λ _, None; actionClassifier := {| financial_set := ∅; financialActions := [] |} |} (Some "")).
    cbn. by destruct (gate_admit _ s "" i); eexists.
  - by eexists (ChGate {| policy := λ _, None; authorityBinding := λ _, None; actionClassifier := {| financial_set := ∅; financialActions := [] |} |} None), _.
  - exists (ChGate {| policy := λ _, None; authorityBinding := λ _, None; actionClassifier := {| financial_set := ∅; financialActions := [] |} |} None).
    cbn. by eexists.
  - by eexists (ChExecute (AdapterThrew ThrownOther)), _.
Qed.

(** Exercises end: in every interleaving an exercise has made at most eleven
    calls, and one that has not returned can always make its next call,
    whatever the others are waiting for; so none blocks another and each
    returns once its calls are answered. *)
Theorem exercises_end (events : list Event) (sys : System) (i : nat) (t : Thread) :
  run_system empty_system events = Some sys → sys_threads sys !! i = Some t →
  (length (t_done t) ≤ EXERCISE_MAXIMUM_CALLS)%nat ∧
  ((∃ out, t_rest t = Ret out) ∨ ∃ c sys', handle_event sys (EvCall i c) = Some sys').
Proof.
  intros Hrun Hi. pose proof (so_threads _ (run_system_ok _ _ _ Hrun empty_system_ok)) as Ht.
  rewrite Forall_forall in Ht. destruct (Ht t) as [Hr _]; [by eapply list_elem_of_lookup_2|]. split.
  - apply reaches_completes in Hr as (tr'&out&_&He%exercise_length). rewrite length_app in He. lia.
  - destruct (respond_progress (sys_ledger sys) (t_rest t)) as [?|(c&[[x q] s']&Hc)]; [by left|right].
    exists c. eexists. cbn [handle_event]. rewrite Hi. cbn. by rewrite Hc.
Qed.

End System.

(** ** A sample deployment: two attempts race for one budget

    Two attempts of 60.25 under one grant and one lifetime limit of 100. Both
    are assessed before either reserves; the first reserves and its effect is
    left unconfirmed by the provider, the second is refused by the ledger. *)

Definition race_issuance : GrantIssuanceRequest := {|
  rq_source := sample_source; rq_requestedBounds := Some sample_request; rq_subject := "agent-7";
  rq_correlation := correlation sample_source; rq_issuedAt := "120"; rq_expiresAt := "500";
  rq_additionalValidityCeilings := None; GrantStore.rq_authorityBindingDigest := Some sample_binding |}.
Definition race_grant : BoundedGrant :=
  match (@issueGrant demo_host GrantStore _ sample_revalidate empty_store race_issuance).1 with
  | GrantIssued g _ _ => g
  | _ => sample_grant
  end.
Definition race_request (execution : string) : GrantExerciseRequest := {|
  gx_boundedGrantId := id race_grant; gx_subject := gx_subject sample_exercise; gx_action := gx_action sample_exercise;
  gx_resource := gx_resource sample_exercise; gx_counterparty := gx_counterparty sample_exercise;
  gx_organization := gx_organization sample_exercise; gx_amount := gx_amount sample_exercise;
  gx_governanceProfile := gx_governanceProfile sample_exercise; gx_actionClass := gx_actionClass sample_exercise;
  gx_resourceClass := gx_resourceClass sample_exercise; gx_parameters := gx_parameters sample_exercise;
  gx_correlation := gx_correlation sample_exercise; gx_executionId := execution |}.
Definition race_limit : ExerciseControlLimit := {|
  limitId := "spend"; scopeKey := "agent-7"; metric := m_amount "100" "USD"; window := lifetime |}.
Definition race_gate : GateOptions := {|
  policy := λ _, Some (JsArray [limit_value race_limit]);
  authorityBinding := λ _, Some sample_binding;
  actionClassifier := {| financial_set := {["payment"]}; financialActions := ["payment"] |} |}.
Definition race_read : Choice := ChRead (Some (Some race_grant, None)).
Definition race_clear : Choice := ChEmergency (assessment_object EmergencyClear).
Definition race_turn (i : nat) (cs : list Choice) : list Event := EvCall i <$> cs.
Definition race_events : list Event :=
  [EvRequest (race_request "exec-1"); EvRequest (race_request "exec-2")] ++
  race_turn 0 [race_read; ChNow "400"; race_clear] ++ race_turn 1 [race_read; ChNow "400"; race_clear] ++
  race_turn 0 [ChGate race_gate (Some "401")] ++ race_turn 1 [ChGate race_gate (Some "402")] ++
  race_turn 0 [race_read; ChNow "403"; ChGate race_gate None; race_clear; race_clear; ChExecute sample_provider_answer;
    ChGate race_gate (Some "410")].
Definition race_system : System := default empty_system (@run_system demo_host sample_options empty_system race_events).

Definition returned (t : Thread) : option ExecutionStatus := match t_rest t with Ret out => Some (eo_status out) | _ => None end.

Lemma race_runs : @run_system demo_host sample_options empty_system race_events = Some race_system.
Proof.
  assert (is_some (@run_system demo_host sample_options empty_system race_events) = true) as Hs by (vm_compute; reflexivity).
  unfold race_system. destruct (run_system _ _ race_events); [reflexivity|discriminate Hs].
Qed.

Lemma race_limit_ok : limit_ok race_limit.
Proof. repeat split; vm_compute; reflexivity || discriminate. Qed.

Lemma race_outcomes : returned <$> sys_threads race_system =
  [Some (ExecutionUnconfirmed {| adapterId := "bank-b"; routedBy := Some DEFAULT_REGISTRY_ADAPTER_ID |} (Some "job-7") None);
   Some (WithheldByExerciseControl [EXERCISE_CONTROL_LIMIT_EXCEEDED])].
Proof. vm_compute. reflexivity. Qed.

(** The unconfirmed effect is found not to have completed, and a third attempt
    takes its place. *)
Definition race_resolution : ExerciseReservationResolutionInput := {|
  ri_event := {| re_reservationId := @exerciseReservationId demo_host (id race_grant) "exec-1"; re_executionId := "exec-1";
    re_resolutionDigest := "sha256:" +:+ @sha256_hex demo_host "resolution"; re_resolution := ExerciseControl.confirmed_not_completed;
    re_recordedAt := "420" |};
  ri_basis := initial_observation_unconfirmed |}.
Definition second_race_events : list Event :=
  race_events ++ [EvReconcile race_resolution; EvRequest (race_request "exec-3")] ++
  race_turn 2 [race_read; ChNow "430"; race_clear; ChGate race_gate (Some "431"); race_read; ChNow "432"; ChGate race_gate None;
    race_clear; race_clear; ChExecute sample_provider_answer; ChGate race_gate (Some "433")].
Definition second_race : System := default empty_system (@run_system demo_host sample_options empty_system second_race_events).

Lemma second_race_runs : @run_system demo_host sample_options empty_system second_race_events = Some second_race.
Proof.
  assert (is_some (@run_system demo_host sample_options empty_system second_race_events) = true) as Hs by (vm_compute; reflexivity).
  unfold second_race. destruct (run_system _ _ second_race_events); [reflexivity|discriminate Hs].
Qed.

Lemma effects_within_limits_witness :
  length (sys_threads second_race) = 3%nat ∧ declared_undone (sys_ledger second_race) <$> sys_threads second_race = [true; false; false] ∧
  length (effects second_race race_limit) = 1%nat ∧ (total_spent (effects second_race race_limit) <= dec_value "100")%Q ∧
  ∃ t out, t ∈ sys_threads second_race ∧ t_rest t = Ret out ∧ ∀ by_ ref, eo_status out ≠ Executed by_ ref.
Proof.
  destruct (@effects_within_limits demo_host sample_options second_race_events second_race race_limit) as [Hw Ho].
  - reflexivity.
  - exact second_race_runs.
  - exact race_limit_ok.
  - reflexivity.
  - apply uniform_check. vm_compute. reflexivity.
  - assert (existsb (declared_undone (sys_ledger second_race)) (sys_threads second_race) = true) as He by (vm_compute; reflexivity).
    apply existsb_exists in He as (t&Hin&Ht). apply list_elem_of_In in Hin.
    destruct (Ho ltac:(vm_compute; reflexivity) t Hin Ht) as (out&Hout&Hne).
    split; [vm_compute; reflexivity|]. split; [vm_compute; reflexivity|]. split; [vm_compute; reflexivity|].
    exact (conj (proj2 Hw) (ex_intro _ t (ex_intro _ out (conj Hin (conj Hout Hne))))).
Defined.

(** The only reservation of a ledger, settled as unconfirmed. *)
Definition one_unconfirmed (s : Ledger) : bool :=
  match reservations s with
  | [rec] => match terminals s !! record_id rec with Some e => str_eqb (te_reason e) "execution-unconfirmed" | None => false end
  | _ => false
  end.

Lemma one_unconfirmed_spec s : one_unconfirmed s = true →
  ∃ rec e, reservations s = [rec] ∧ terminals s !! record_id rec = Some e ∧ te_reason e = "execution-unconfirmed".
Proof.
  unfold one_unconfirmed. destruct (reservations s) as [|rec [|]]; [done| |done].
  destruct (terminals s !! record_id rec) as [e|] eqn:Et; [|done]. intros Hr%str_eqb_eq. by exists rec, e.
Qed.

Lemma race_unconfirmed : one_unconfirmed (sys_ledger race_system) = true.
Proof. vm_compute. reflexivity. Qed.

Lemma reservations_accounted_witness :
  ∃ rec i t out, reservations (sys_ledger race_system) = [rec] ∧ sys_threads race_system !! i = Some t ∧
    t_rest t = Ret out ∧ d_reason (reservationDispositionFor (eo_status out)) = "execution-unconfirmed".
Proof.
  destruct (one_unconfirmed_spec _ race_unconfirmed) as (rec&e&Hrec&Ht&He).
  assert (rec ∈ reservations (sys_ledger race_system)) as Hin by (rewrite Hrec; left).
  destruct (@reservations_accounted demo_host sample_options race_events race_system rec race_runs Hin) as (i&t&Hi&_&_&Hter).
  rewrite Ht in Hter. destruct Hter as (out&Ho&_&Hr&_). exists rec, i, t, out. rewrite <-Hr. exact (conj Hrec (conj Hi (conj Ho He))).
Defined.

Lemma exercises_end_witness : ∃ t, sys_threads race_system !! 0%nat = Some t ∧ (length (t_done t) ≤ EXERCISE_MAXIMUM_CALLS)%nat.
Proof.
  assert (is_some (sys_threads race_system !! 0%nat) = true) as Hs by (vm_compute; reflexivity).
  destruct (sys_threads race_system !! 0%nat) as [t|] eqn:Ht; [|discriminate Hs].
  exists t. split; [reflexivity|].
  exact (proj1 (@exercises_end demo_host sample_options race_events race_system 0 t race_runs Ht)).
Defined.
