(* ===== verification/Obligations.v ===== *)
(** * Obligations

    Model of [obligation-runtime]: the six-state lifecycle
    ([domain/obligation-state.ts], [obligation-transition.ts],
    [obligation-instance.ts]), requirements, sources and observations with
    their validation, and the lifecycle service that derives the state of every
    declared obligation from the observations
    ([services/obligation-lifecycle-service.ts],
    [obligation-source-registry.ts]). Fields the types declare as strings or
    booleans are that; the message texts of violations are their kinds. *)

From S2P Require Import Prelude Decimal Js Monetary Parameters.

Local Open Scope Z_scope.
Local Open Scope frontera_scope.

(** ** States and transitions *)

Inductive ObligationState := ob_required | ob_pending | ob_discharged | ob_verified | ob_waived | ob_expired.
Global Instance ObligationState_eq_dec : EqDecision ObligationState.
Proof. solve_decision. Defined.

Definition TERMINAL_OBLIGATION_STATES : list ObligationState := [ob_verified; ob_waived; ob_expired].
Definition SATISFYING_OBLIGATION_STATES : list ObligationState := [ob_verified; ob_waived].

Definition OBLIGATION_STATE_TRANSITIONS (s : ObligationState) : list ObligationState :=
  match s with
  | ob_required => [ob_pending; ob_waived; ob_expired]
  | ob_pending => [ob_discharged; ob_waived; ob_expired]
  | ob_discharged => [ob_verified; ob_expired]
  | ob_verified | ob_waived | ob_expired => []
  end.

Definition isTerminalObligationState (s : ObligationState) : bool := bool_decide (s ∈ TERMINAL_OBLIGATION_STATES).
Definition obligationStateSatisfies (s : ObligationState) : bool := bool_decide (s ∈ SATISFYING_OBLIGATION_STATES).
Definition isLegalObligationTransition (from to : ObligationState) : bool := bool_decide (to ∈ OBLIGATION_STATE_TRANSITIONS from).

Definition OBLIGATION_PROGRESS_CHAIN : list ObligationState := [ob_required; ob_pending; ob_discharged; ob_verified].
Definition obligationProgressRank (s : ObligationState) : option nat := fst <$> list_find (λ x, x = s) OBLIGATION_PROGRESS_CHAIN.

Inductive ObligationTransitionReason := activated | discharge_reported | discharge_confirmed | waiver_recorded | deadline_passed.

Record ObligationTransition := { ot_from : ObligationState; ot_to : ObligationState; ot_at : string; ot_reason : ObligationTransitionReason }.

Record ObligationCorrelation := { oc_requestId : string; oc_action : string; oc_resourceScope : string }.
Global Instance ObligationCorrelation_eq_dec : EqDecision ObligationCorrelation.
Proof. solve_decision. Defined.

Definition obligationCorrelationMatches (l r : ObligationCorrelation) : bool :=
  str_eqb (oc_requestId l) (oc_requestId r) && str_eqb (oc_action l) (oc_action r) && str_eqb (oc_resourceScope l) (oc_resourceScope r).

Definition obligationInstanceId (c : ObligationCorrelation) (obligationType : string) : string :=
  "aoc.obligation:" +:+ oc_requestId c +:+ ":" +:+ oc_action c +:+ ":" +:+ oc_resourceScope c +:+ ":" +:+ obligationType.

(** ** Sources, observations, records *)

Definition OBLIGATION_DISCHARGE_SOURCE_KINDS : list string :=
  ["request"; "internal_store"; "approval_runtime"; "provider_adapter"; "signed_attestation"; "external_api"].
Definition OBLIGATION_DISCHARGE_VERIFICATION_CLASSES : list string := ["independent"; "self_reported"].

Record ObligationDischargeSource := { src_id : string; src_kind : string; src_name : string; src_verificationClass : string }.

Inductive SourceViolation :=
  | SourceIdMissing | SourceNameMissing | SourceKindUnknown | SourceClassUnknown | SourceRequestNotSelfReported
  | SourceNotIndependent | SourceDuplicate.

Definition blank (s : string) : bool := bool_decide (js_trim (chars s) = []).
Definition violation {A} (b : bool) (v : A) : list A := if b then [v] else [].

Definition validateObligationDischargeSource (s : ObligationDischargeSource) : list SourceViolation :=
  violation (blank (src_id s)) SourceIdMissing ++
  violation (blank (src_name s)) SourceNameMissing ++
  violation (negb (bool_decide (src_kind s ∈ OBLIGATION_DISCHARGE_SOURCE_KINDS))) SourceKindUnknown ++
  violation (negb (bool_decide (src_verificationClass s ∈ OBLIGATION_DISCHARGE_VERIFICATION_CLASSES))) SourceClassUnknown ++
  violation (str_eqb (src_kind s) "request" && negb (str_eqb (src_verificationClass s) "self_reported")) SourceRequestNotSelfReported ++
  violation (str_eqb (src_verificationClass s) "independent" &&
    negb (bool_decide (src_kind s ∈ ["approval_runtime"; "provider_adapter"; "signed_attestation"]))) SourceNotIndependent.

Inductive ObligationDischargeOutcome := oo_pending | oo_discharged | oo_refused | oo_waived.
Global Instance ObligationDischargeOutcome_eq_dec : EqDecision ObligationDischargeOutcome.
Proof. solve_decision. Defined.
Definition outcome_name (o : ObligationDischargeOutcome) : string :=
  match o with oo_pending => "pending" | oo_discharged => "discharged" | oo_refused => "refused" | oo_waived => "waived" end.

Record ObligationDischargeObservation := {
  obs_obligationType : string;
  obs_correlation : ObligationCorrelation;
  obs_sourceId : string;
  obs_outcome : ObligationDischargeOutcome;
  obs_observedAt : string;
  obs_subjectId : option string;
  obs_reference : option string;
}.

Record ObligationDischargeRecord := {
  dr_sourceId : string; dr_sourceKind : string; dr_verificationClass : string; dr_outcome : ObligationDischargeOutcome;
  dr_observedAt : string; dr_subjectId : option string; dr_reference : option string }.
Record ObligationVerificationRecord := {
  vr_sourceId : string; vr_sourceKind : string; vr_verificationClass : string;
  vr_observedAt : string; vr_subjectId : option string; vr_reference : option string }.

Inductive ObligationObservationDisregardReason :=
  | unregistered_source | undeclared_obligation | correlation_mismatch | waiver_not_independent
  | verification_not_applicable | illegal_transition.
Definition reason_name (r : ObligationObservationDisregardReason) : string :=
  match r with
  | unregistered_source => "unregistered_source" | undeclared_obligation => "undeclared_obligation"
  | correlation_mismatch => "correlation_mismatch" | waiver_not_independent => "waiver_not_independent"
  | verification_not_applicable => "verification_not_applicable" | illegal_transition => "illegal_transition"
  end.

Record DisregardedObligationObservation := {
  dg_obligationType : string; dg_sourceId : string; dg_outcome : ObligationDischargeOutcome; dg_observedAt : string;
  dg_reason : ObligationObservationDisregardReason }.

(** ** Requirements *)

Definition OBLIGATION_TYPE_MAX_LENGTH : Z := 64.
(** The grammar is that of semantic identifiers. *)
Definition isObligationType (s : string) : bool :=
  nonempty s && (js_length s <=? OBLIGATION_TYPE_MAX_LENGTH) &&
  match chars s with [] => false | c :: l => is_lower c && semantic_tail false l end.

Record ObligationRequirement := { req_obligationType : string; req_blocking : bool; req_expiresAt : option string }.

Inductive DeclarationViolation := RequirementTypeMalformed | RequirementDuplicate | RequirementDeadlineMalformed.

Section Declarations.
Context `{JsHost}.

Fixpoint validate_requirements (seen : list string) (rs : list ObligationRequirement) : list DeclarationViolation :=
  match rs with
  | [] => []
  | r :: rs =>
      if negb (isObligationType (req_obligationType r)) then RequirementTypeMalformed :: validate_requirements seen rs
      else
        let folded := toLowerCase (req_obligationType r) in
        violation (bool_decide (folded ∈ seen)) RequirementDuplicate ++
        violation (match req_expiresAt r with Some e => negb (is_some (date_parse e)) | None => false end) RequirementDeadlineMalformed ++
        validate_requirements (folded :: seen) rs
  end.
Definition validateObligationDeclaration (rs : list ObligationRequirement) : list DeclarationViolation := validate_requirements [] rs.

Definition isObligationExpiredAt (expiresAt at_ : string) : bool :=
  match date_parse expiresAt, date_parse at_ with Some deadline, Some now => deadline <=? now | _, _ => false end.

Inductive ObservationViolation := ObservationTypeMissing | ObservationSourceMissing | ObservationInstantMalformed.
Definition validateObligationDischargeObservation (x : ObligationDischargeObservation) : list ObservationViolation :=
  violation (blank (obs_obligationType x)) ObservationTypeMissing ++
  violation (blank (obs_sourceId x)) ObservationSourceMissing ++
  violation (negb (is_some (date_parse (obs_observedAt x)))) ObservationInstantMalformed.

End Declarations.

(** ** Instances *)

Record ObligationInstance := {
  oi_id : string;
  oi_obligationType : string;
  oi_blocking : bool;
  oi_correlation : ObligationCorrelation;
  oi_state : ObligationState;
  oi_declaredAt : string;
  oi_transitions : list ObligationTransition;
  oi_discharge : option ObligationDischargeRecord;
  oi_verification : option ObligationVerificationRecord;
  oi_expiresAt : option string;
}.

Definition declareObligation (obligationType : string) (blocking : bool) (c : ObligationCorrelation) (declaredAt : string)
    (expiresAt : option string) : ObligationInstance := {|
  oi_id := obligationInstanceId c obligationType; oi_obligationType := obligationType; oi_blocking := blocking; oi_correlation := c;
  oi_state := ob_required; oi_declaredAt := declaredAt; oi_transitions := []; oi_discharge := None; oi_verification := None;
  oi_expiresAt := expiresAt |}.

Definition obligationWithholdsExercise (i : ObligationInstance) : bool :=
  if negb (oi_blocking i) then false else negb (obligationStateSatisfies (oi_state i)).
Definition obligationIsSatisfied (i : ObligationInstance) : bool := obligationStateSatisfies (oi_state i).
Definition obligationIsTerminal (i : ObligationInstance) : bool := isTerminalObligationState (oi_state i).

Inductive ObligationTransitionOutcome := StepApplied (i : ObligationInstance) | StepUnchanged (i : ObligationInstance) | StepIllegal (i : ObligationInstance) (from to : ObligationState).

(** [{ ...instance, state: to, transitions, ...(discharge ? { discharge } : {}) }] *)
Definition moved (i : ObligationInstance) (to : ObligationState) (at_ : string) (reason : ObligationTransitionReason)
    (discharge : option ObligationDischargeRecord) : ObligationInstance := {|
  oi_id := oi_id i; oi_obligationType := oi_obligationType i; oi_blocking := oi_blocking i; oi_correlation := oi_correlation i;
  oi_state := to; oi_declaredAt := oi_declaredAt i;
  oi_transitions := oi_transitions i ++ [{| ot_from := oi_state i; ot_to := to; ot_at := at_; ot_reason := reason |}];
  oi_discharge := match discharge with Some d => Some d | None => oi_discharge i end;
  oi_verification := oi_verification i; oi_expiresAt := oi_expiresAt i |}.

Definition transitionObligation (i : ObligationInstance) (to : ObligationState) (at_ : string) (reason : ObligationTransitionReason)
    (discharge : option ObligationDischargeRecord) : ObligationTransitionOutcome :=
  if bool_decide (oi_state i = to) then StepUnchanged i
  else if match obligationProgressRank (oi_state i), obligationProgressRank to with
          | Some currentRank, Some targetRank => (targetRank <? currentRank)%nat
          | _, _ => false
          end then StepUnchanged i
  else if negb (isLegalObligationTransition (oi_state i) to) then StepIllegal i (oi_state i) to
  else StepApplied (moved i to at_ reason discharge).

(** ** The lifecycle service *)

Notation Instances := (gmap string ObligationInstance).

Inductive ObligationError := ObligationConfigurationError.

Fixpoint source_violations (seen : list string) (sources : list ObligationDischargeSource) : list SourceViolation :=
  match sources with
  | [] => []
  | s :: sources => validateObligationDischargeSource s ++ violation (bool_decide (src_id s ∈ seen)) SourceDuplicate ++
      source_violations (src_id s :: seen) sources
  end.

(** A registry that composes has unique ids, so the map is the list. *)
Definition createObligationDischargeSourceRegistry (sources : list ObligationDischargeSource) : result ObligationError (list ObligationDischargeSource) :=
  match source_violations [] sources with [] => Ok sources | _ => Throw ObligationConfigurationError end.
Definition get_source (registry : list ObligationDischargeSource) (sourceId : string) : option ObligationDischargeSource :=
  List.find (λ s, str_eqb (src_id s) sourceId) registry.

Record ObligationLifecycleService := {
  svc_registry : list ObligationDischargeSource;
  svc_requirements : list ObligationRequirement;
  svc_declared : list string;
}.

Section Lifecycle.
Context `{JsHost}.

Definition createObligationLifecycleService (sources : list ObligationDischargeSource) (rs : list ObligationRequirement) :
    result ObligationError ObligationLifecycleService :=
  match validateObligationDeclaration rs with
  | _ :: _ => Throw ObligationConfigurationError
  | [] =>
      let* registry := createObligationDischargeSourceRegistry sources in
      Ok {| svc_registry := registry; svc_requirements := rs; svc_declared := sort_strings (nub (req_obligationType <$> rs)) |}
  end.

(** [this.requirementsByType.get(type)] *)
Definition requirement_for (svc : ObligationLifecycleService) (t : string) : option ObligationRequirement :=
  List.find (λ r, str_eqb (req_obligationType r) t) (svc_requirements svc).

Definition declare_one (svc : ObligationLifecycleService) (c : ObligationCorrelation) (at_ : string) (t : string) : ObligationInstance :=
  let requirement := requirement_for svc t in
  declareObligation t (match requirement with Some r => req_blocking r | None => false end) c at_ (requirement ≫= req_expiresAt).

Definition declare (svc : ObligationLifecycleService) (c : ObligationCorrelation) (at_ : string) : list ObligationInstance :=
  declare_one svc c at_ <$> svc_declared svc.

Record AdmissibleObservation := { ao_observation : ObligationDischargeObservation; ao_source : ObligationDischargeSource }.

Definition disregard (x : ObligationDischargeObservation) (reason : ObligationObservationDisregardReason) : DisregardedObligationObservation := {|
  dg_obligationType := obs_obligationType x; dg_sourceId := obs_sourceId x; dg_outcome := obs_outcome x;
  dg_observedAt := obs_observedAt x; dg_reason := reason |}.

(** One turn of the admission loop. *)
Definition admissibility (svc : ObligationLifecycleService) (c : ObligationCorrelation) (x : ObligationDischargeObservation) :
    ObligationObservationDisregardReason + AdmissibleObservation :=
  if negb (is_some (requirement_for svc (obs_obligationType x))) then inl undeclared_obligation
  else if negb (obligationCorrelationMatches (obs_correlation x) c) then inl correlation_mismatch
  else match get_source (svc_registry svc) (obs_sourceId x) with
  | None => inl unregistered_source
  | Some source =>
      if match obs_outcome x with oo_waived => true | _ => false end && negb (str_eqb (src_verificationClass source) "independent")
      then inl waiver_not_independent
      else inr {| ao_observation := x; ao_source := source |}
  end.

Definition stepsFor (o : ObligationDischargeOutcome) (verificationClass : string) : list (ObligationState * ObligationTransitionReason) :=
  match o with
  | oo_pending => [(ob_pending, activated)]
  | oo_discharged =>
      if str_eqb verificationClass "independent"
      then [(ob_pending, activated); (ob_discharged, discharge_reported); (ob_verified, discharge_confirmed)]
      else [(ob_pending, activated); (ob_discharged, discharge_reported)]
  | oo_waived => [(ob_waived, waiver_recorded)]
  | oo_refused => []
  end.

Definition dischargeRecordFor (e : AdmissibleObservation) : option ObligationDischargeRecord :=
  match obs_outcome (ao_observation e) with
  | oo_pending => None
  | o => Some {| dr_sourceId := src_id (ao_source e); dr_sourceKind := src_kind (ao_source e);
      dr_verificationClass := src_verificationClass (ao_source e); dr_outcome := o; dr_observedAt := obs_observedAt (ao_observation e);
      dr_subjectId := obs_subjectId (ao_observation e); dr_reference := obs_reference (ao_observation e) |}
  end.

Definition verificationRecordFor (e : AdmissibleObservation) : ObligationVerificationRecord := {|
  vr_sourceId := src_id (ao_source e); vr_sourceKind := src_kind (ao_source e);
  vr_verificationClass := src_verificationClass (ao_source e); vr_observedAt := obs_observedAt (ao_observation e);
  vr_subjectId := obs_subjectId (ao_observation e); vr_reference := obs_reference (ao_observation e) |}.

Definition with_verification (i : ObligationInstance) (v : ObligationVerificationRecord) : ObligationInstance := {|
  oi_id := oi_id i; oi_obligationType := oi_obligationType i; oi_blocking := oi_blocking i; oi_correlation := oi_correlation i;
  oi_state := oi_state i; oi_declaredAt := oi_declaredAt i; oi_transitions := oi_transitions i; oi_discharge := oi_discharge i;
  oi_verification := Some v; oi_expiresAt := oi_expiresAt i |}.

(** The inner loop: every step in order, the record on the last; [None] when a
    step is illegal. *)
Fixpoint take_steps (i : ObligationInstance) (at_ : string) (record : option ObligationDischargeRecord)
    (steps : list (ObligationState * ObligationTransitionReason)) : option ObligationInstance :=
  match steps with
  | [] => Some i
  | (to, reason) :: rest =>
      match transitionObligation i to at_ reason (match rest with [] => record | _ => None end) with
      | StepIllegal _ _ _ => None
      | StepApplied i' | StepUnchanged i' => take_steps i' at_ record rest
      end
  end.

(** What one admissible observation does to the instance of its obligation. *)
Definition observe_one (at_ : string) (i : ObligationInstance) (e : AdmissibleObservation) :
    ObligationObservationDisregardReason + ObligationInstance :=
  match obs_outcome (ao_observation e) with
  | oo_refused => if bool_decide (oi_state i = ob_discharged) then inr (with_verification i (verificationRecordFor e)) else inl verification_not_applicable
  | o => match take_steps i at_ (dischargeRecordFor e) (stepsFor o (src_verificationClass (ao_source e))) with
         | Some i' => inr i'
         | None => inl illegal_transition
         end
  end.

Definition observe (at_ : string) (st : Instances * list DisregardedObligationObservation) (e : AdmissibleObservation) :
    Instances * list DisregardedObligationObservation :=
  let t := obs_obligationType (ao_observation e) in
  match st.1 !! t with
  | None => st
  | Some current =>
      match observe_one at_ current e with
      | inl reason => (st.1, st.2 ++ [disregard (ao_observation e) reason])
      | inr i => (<[t := i]> st.1, st.2)
      end
  end.

Definition expire_one (at_ : string) (i : ObligationInstance) : ObligationInstance :=
  match oi_expiresAt i with
  | None => i
  | Some deadline =>
      if negb (isObligationExpiredAt deadline at_) then i
      else if negb (isLegalObligationTransition (oi_state i) ob_expired) then i
      else match transitionObligation i ob_expired at_ deadline_passed None with StepApplied i' => i' | _ => i end
  end.

(** [compare] on the key texts, as an order. *)
Fixpoint keys_le (l r : list string) : bool :=
  match l, r with
  | a :: l, b :: r => if bool_decide (String.compare a b = Lt) then true else if bool_decide (String.compare a b = Gt) then false else keys_le l r
  | _, _ => true
  end.
Definition observation_key (x : ObligationDischargeObservation) : list string :=
  [obs_observedAt x; obs_obligationType x; obs_sourceId x; outcome_name (obs_outcome x)].
Definition observation_le (l r : ObligationDischargeObservation) : Prop := keys_le (observation_key l) (observation_key r) = true.
Global Instance observation_le_dec : RelDecision observation_le.
Proof. intros l r. unfold observation_le. apply _. Defined.
Definition sortObservations : list ObligationDischargeObservation → list ObligationDischargeObservation := merge_sort observation_le.

Definition disregarded_key (x : DisregardedObligationObservation) : list string :=
  [dg_obligationType x; dg_observedAt x; dg_sourceId x; outcome_name (dg_outcome x); reason_name (dg_reason x)].
Definition disregarded_le (l r : DisregardedObligationObservation) : Prop := keys_le (disregarded_key l) (disregarded_key r) = true.
Global Instance disregarded_le_dec : RelDecision disregarded_le.
Proof. intros l r. unfold disregarded_le. apply _. Defined.
Definition sortDisregarded : list DisregardedObligationObservation → list DisregardedObligationObservation := merge_sort disregarded_le.

Inductive ObligationExerciseEligibility := ob_eligible | ob_blocked.

Record ObligationResolution := {
  or_resolved : bool;
  or_declaredTypes : list string;
  or_obligations : list ObligationInstance;
  or_disregarded : list DisregardedObligationObservation;
  or_exerciseEligibility : ObligationExerciseEligibility;
  or_resolvedAt : string;
}.

(** The state after the admission and observation loops. *)
Definition observed (svc : ObligationLifecycleService) (observations : list ObligationDischargeObservation) (c : ObligationCorrelation)
    (at_ : string) : Instances * list DisregardedObligationObservation :=
  let sorted := sortObservations observations in
  let judged := (λ x, (x, admissibility svc c x)) <$> sorted in
  let refused := omap (λ p, match p.2 with inl reason => Some (disregard p.1 reason) | inr _ => None end) judged in
  let admissible := omap (λ p, match p.2 with inl _ => None | inr e => Some e end) judged in
  let instances := list_to_map ((λ i, (oi_obligationType i, i)) <$> declare svc c at_) in
  foldl (observe at_) (instances, refused) admissible.

Definition resolve_obligations (svc : ObligationLifecycleService) (observations : list ObligationDischargeObservation) (c : ObligationCorrelation)
    (at_ : string) : ObligationResolution :=
  let st := observed svc observations c at_ in
  let resolvedInstances := omap (λ t, expire_one at_ <$> st.1 !! t) (svc_declared svc) in {|
  or_resolved := true; or_declaredTypes := svc_declared svc; or_obligations := resolvedInstances;
  or_disregarded := sortDisregarded st.2;
  or_exerciseEligibility := if existsb obligationWithholdsExercise resolvedInstances then ob_blocked else ob_eligible;
  or_resolvedAt := at_ |}.

Definition unresolvedObligationResolution (declaredTypes : list string) (obligations : list ObligationInstance) (resolvedAt : string) :
    ObligationResolution := {|
  or_resolved := false; or_declaredTypes := sort_strings declaredTypes; or_obligations := obligations; or_disregarded := [];
  or_exerciseEligibility := if existsb oi_blocking obligations then ob_blocked else ob_eligible; or_resolvedAt := resolvedAt |}.

End Lifecycle.

Definition OBLIGATION_RESERVED_REQUEST_KEY_PREFIX : string := "aoc.obligations".
Definition isReservedObligationKey (key : string) : bool :=
  str_eqb key OBLIGATION_RESERVED_REQUEST_KEY_PREFIX || String.prefix (OBLIGATION_RESERVED_REQUEST_KEY_PREFIX +:+ ".") key.

(** ** The lifecycle is a walk of the transition table *)

Fixpoint legal_walk (s : ObligationState) (ts : list ObligationTransition) (s' : ObligationState) : Prop :=
  match ts with
  | [] => s = s'
  | t :: ts => ot_from t = s ∧ isLegalObligationTransition (ot_from t) (ot_to t) = true ∧ legal_walk (ot_to t) ts s'
  end.

Lemma legal_walk_snoc s ts s' t :
  legal_walk s ts s' → ot_from t = s' → isLegalObligationTransition (ot_from t) (ot_to t) = true → legal_walk s (ts ++ [t]) (ot_to t).
Proof. revert s. induction ts as [|x ts IH]; intros s; cbn; [by intros ->|]. intros (?&?&?) ??. eauto. Qed.

Lemma transition_cases i to at_ reason d :
  match transitionObligation i to at_ reason d with
  | StepApplied i' => i' = moved i to at_ reason d ∧ isLegalObligationTransition (oi_state i) to = true
  | StepUnchanged i' => i' = i
  | StepIllegal i' _ _ => i' = i
  end.
Proof.
  unfold transitionObligation. case_bool_decide; [done|]. break_if; [done|].
  by destruct (isLegalObligationTransition (oi_state i) to).
Qed.

(** What identifies an instance, which no step changes. *)
Definition same_obligation (i i' : ObligationInstance) : Prop :=
  oi_id i' = oi_id i ∧ oi_obligationType i' = oi_obligationType i ∧ oi_blocking i' = oi_blocking i ∧
  oi_correlation i' = oi_correlation i ∧ oi_expiresAt i' = oi_expiresAt i.

Definition walked (i : ObligationInstance) : Prop := legal_walk ob_required (oi_transitions i) (oi_state i).

Lemma moved_walked i to at_ reason d :
  walked i → isLegalObligationTransition (oi_state i) to = true → walked (moved i to at_ reason d).
Proof. intros Hw Hl. by apply (legal_walk_snoc _ _ _ {| ot_from := oi_state i; ot_to := to; ot_at := at_; ot_reason := reason |} Hw). Qed.

Lemma take_steps_ok i at_ record steps i' :
  take_steps i at_ record steps = Some i' → walked i →
  walked i' ∧ same_obligation i i' ∧ (oi_state i' = oi_state i ∨ oi_state i' ∈ steps.*1).
Proof.
  revert i. induction steps as [|[to reason] rest IH]; intros i E Hw; cbn [take_steps] in E.
  { injection E as <-. split; [done|]. split; [done|]. by left. }
  pose proof (transition_cases i to at_ reason (match rest with [] => record | _ => None end)) as Hc.
  destruct (transitionObligation _ _ _ _ _) as [j|j|]; [destruct Hc as [-> Hl]|subst j|done].
  - destruct (IH _ E (moved_walked _ _ _ _ _ Hw Hl)) as (?&(?&?&?&?&?)&Hs). split; [done|]. split; [done|].
    right. destruct Hs as [->|Hs]; [by left|by right].
  - destruct (IH _ E Hw) as (?&?&[Hs|Hs]); (split; [done|]; split; [done|]); [by left|right; by right].
Qed.

(** Only an independent discharge walks to [verified], and only a waiver to
    [waived]. *)
Lemma steps_verified o cls : ob_verified ∈ (stepsFor o cls).*1 → o = oo_discharged ∧ cls = "independent".
Proof.
  destruct o; cbn; try (intros Hin; exfalso; set_solver). destruct (str_eqb cls "independent") eqn:E; cbn; intros Hin; [|exfalso; set_solver].
  by apply str_eqb_eq in E.
Qed.
Lemma steps_waived o cls : ob_waived ∈ (stepsFor o cls).*1 → o = oo_waived.
Proof. destruct o; cbn; try done; try (intros Hin; exfalso; set_solver). destruct (str_eqb cls "independent"); cbn; intros Hin; exfalso; set_solver. Qed.
Lemma steps_expired o cls : ob_expired ∉ (stepsFor o cls).*1.
Proof. destruct o; cbn; try set_solver. destruct (str_eqb cls "independent"); cbn; set_solver. Qed.

Section Resolution.
Context `{JsHost}.

(** The observation that satisfied an obligation. *)
Definition satisfied_by (svc : ObligationLifecycleService) (observations : list ObligationDischargeObservation) (c : ObligationCorrelation)
    (t : string) (o : ObligationDischargeOutcome) : Prop :=
  ∃ x source, x ∈ observations ∧ obs_obligationType x = t ∧ obs_correlation x = c ∧ obs_outcome x = o ∧
    get_source (svc_registry svc) (obs_sourceId x) = Some source ∧ src_verificationClass source = "independent".

Record instance_ok (svc : ObligationLifecycleService) (observations : list ObligationDischargeObservation) (c : ObligationCorrelation)
    (at_ t : string) (i : ObligationInstance) : Prop := {
  io_walked : walked i;
  io_declared : same_obligation (declare_one svc c at_ t) i;
  io_verified : oi_state i = ob_verified → satisfied_by svc observations c t oo_discharged;
  io_waived : oi_state i = ob_waived → satisfied_by svc observations c t oo_waived;
}.

Lemma admissibility_ok svc c x e :
  admissibility svc c x = inr e →
  ao_observation e = x ∧ is_Some (requirement_for svc (obs_obligationType x)) ∧ obs_correlation x = c ∧
  get_source (svc_registry svc) (obs_sourceId x) = Some (ao_source e) ∧
  (obs_outcome x = oo_waived → src_verificationClass (ao_source e) = "independent").
Proof.
  unfold admissibility. destruct (requirement_for svc (obs_obligationType x)) eqn:Hr; cbn [is_some negb]; [|done].
  destruct (obligationCorrelationMatches (obs_correlation x) c) eqn:Hc; cbn [negb]; [|done].
  destruct (get_source _ _) as [source|] eqn:Hs; [|done].
  destruct (_ && _)%bool eqn:Hw; [done|]. intros [= <-]. split; [done|]. split; [by eauto|]. split.
  - unfold obligationCorrelationMatches in Hc. destruct (obs_correlation x), c. cbn in Hc. split_and_bool. congruence.
  - split; [done|]. intros Ho. rewrite Ho in Hw. cbn in Hw. apply negb_false_iff in Hw. by apply str_eqb_eq.
Qed.

Lemma observe_one_ok svc observations c at_ t i e i' :
  instance_ok svc observations c at_ t i → ao_observation e ∈ observations → obs_obligationType (ao_observation e) = t →
  admissibility svc c (ao_observation e) = inr e → observe_one at_ i e = inr i' →
  instance_ok svc observations c at_ t i' ∧ (oi_state i ≠ ob_expired → oi_state i' ≠ ob_expired).
Proof.
  intros [Hw Hd Hv Hwv] Hin Ht Ha E. apply admissibility_ok in Ha as (_&_&Hc&Hs&Hind). unfold observe_one in E.
  assert (∀ o, obs_outcome (ao_observation e) = o → src_verificationClass (ao_source e) = "independent" → satisfied_by svc observations c t o) as Hsat.
  { intros o Ho Hi. by exists (ao_observation e), (ao_source e). }
  destruct (decide (obs_outcome (ao_observation e) = oo_refused)) as [Er|Er].
  - rewrite Er in E. case_bool_decide as Hst; [|done]. injection E as <-. split; [|done]. constructor; try done.
  - assert (take_steps i at_ (dischargeRecordFor e) (stepsFor (obs_outcome (ao_observation e)) (src_verificationClass (ao_source e))) = Some i') as Et.
    { destruct (obs_outcome (ao_observation e)); try done; by destruct (take_steps _ _ _ _); simplify_eq. }
    clear E. apply take_steps_ok in Et as (Hw'&Hsame&Hst); [|done]. split.
    + constructor; [done| | |].
      * destruct Hd as (?&?&?&?&?), Hsame as (?&?&?&?&?). by repeat split; etrans.
      * intros E'. destruct Hst as [Est|Hst]; [apply Hv; congruence|]. rewrite E' in Hst. apply steps_verified in Hst as [? ?]. by apply Hsat.
      * intros E'. destruct Hst as [Est|Hst]; [apply Hwv; congruence|]. rewrite E' in Hst. pose proof (steps_waived _ _ Hst) as Ho. eauto.
    + intros Hne E'. destruct Hst as [Est|Hst]; [congruence|]. rewrite E' in Hst. by apply steps_expired in Hst.
Qed.

(** The invariant of the instance map during the loops. *)
Definition instances_ok (svc : ObligationLifecycleService) (observations : list ObligationDischargeObservation) (c : ObligationCorrelation)
    (at_ : string) (m : Instances) : Prop :=
  (∀ t, is_Some (m !! t) ↔ t ∈ svc_declared svc) ∧
  ∀ t i, m !! t = Some i → instance_ok svc observations c at_ t i ∧ oi_state i ≠ ob_expired.

Lemma observe_ok svc observations c at_ st e :
  instances_ok svc observations c at_ st.1 → ao_observation e ∈ observations → admissibility svc c (ao_observation e) = inr e →
  instances_ok svc observations c at_ (observe at_ st e).1.
Proof.
  intros [Hdom Hok] Hin Ha. unfold observe. destruct (st.1 !! _) as [i|] eqn:Hi; [|done].
  destruct (observe_one at_ i e) as [reason|i'] eqn:E; [done|]. cbn [fst]. destruct (Hok _ _ Hi) as [Hio Hne].
  destruct (observe_one_ok _ _ _ _ _ _ _ _ Hio Hin eq_refl Ha E) as [Hio' Hne']. split.
  - intros t. rewrite <-Hdom. destruct (decide (t = obs_obligationType (ao_observation e))) as [->|Hn].
    + rewrite lookup_insert_eq, Hi. split; eauto.
    + by rewrite lookup_insert_ne.
  - intros t j [[<- <-]|[_ Hj]]%lookup_insert_Some; [by eauto|by apply Hok].
Qed.

Lemma fold_observe_ok svc observations c at_ es st :
  Forall (λ e, ao_observation e ∈ observations ∧ admissibility svc c (ao_observation e) = inr e) es →
  instances_ok svc observations c at_ st.1 → instances_ok svc observations c at_ (foldl (observe at_) st es).1.
Proof. intros Hes. revert st. induction Hes as [|e es [? ?] _ IH]; intros st Hst; [done|]. cbn. apply IH. by apply observe_ok. Qed.

Lemma declared_instances_ok svc observations c at_ :
  NoDup (svc_declared svc) →
  instances_ok svc observations c at_ (list_to_map ((λ i, (oi_obligationType i, i)) <$> declare svc c at_)).
Proof.
  intros Hn. unfold declare. rewrite <-list_fmap_compose.
  assert (∀ l, NoDup l → ∀ t, (list_to_map (((λ i, (oi_obligationType i, i)) ∘ declare_one svc c at_) <$> l) : Instances) !! t =
    if decide (t ∈ l) then Some (declare_one svc c at_ t) else None) as Hl.
  { induction l as [|x l IH]; intros Hnd t; [cbn; by rewrite lookup_empty|]. apply NoDup_cons in Hnd as [Hx Hnd]. cbn [fmap list_fmap list_to_map foldr].
    change (list_to_map _) with (list_to_map (((λ i, (oi_obligationType i, i)) ∘ declare_one svc c at_) <$> l) : Instances).
    destruct (decide (t = x)) as [->|Hne].
    - cbn. rewrite lookup_insert_eq. by rewrite decide_True by (by left).
    - cbn. rewrite lookup_insert_ne by done. rewrite IH by done. destruct (decide (t ∈ l)) as [Hin|Hin].
      + by rewrite decide_True by (by right).
      + rewrite decide_False; [done|]. by intros [?|?]%elem_of_cons. }
  split.
  - intros t. rewrite Hl by done. destruct (decide (t ∈ svc_declared svc)); split; try done; by intros [].
  - intros t i Hi. rewrite Hl in Hi by done. destruct (decide (t ∈ svc_declared svc)); [|done]. injection Hi as <-.
    split; [|done]. constructor; done.
Qed.

Lemma observed_ok svc observations c at_ :
  NoDup (svc_declared svc) → instances_ok svc observations c at_ (observed svc observations c at_).1.
Proof.
  intros Hn. unfold observed. apply fold_observe_ok; [|by apply declared_instances_ok].
  apply Forall_forall. intros e (p&Hp&E)%list_elem_of_omap. apply list_elem_of_fmap in Hp as (x&->&Hx). cbn in E.
  destruct (admissibility svc c x) as [reason|e'] eqn:Ha; [done|]. injection E as ->.
  pose proof (admissibility_ok _ _ _ _ Ha) as (->&_). split; [|done].
  unfold sortObservations in Hx. by rewrite merge_sort_Permutation in Hx.
Qed.

Lemma expire_one_ok svc observations c at_ t i :
  instance_ok svc observations c at_ t i → oi_state i ≠ ob_expired →
  instance_ok svc observations c at_ t (expire_one at_ i) ∧
  (oi_state (expire_one at_ i) = ob_expired ↔
    obligationStateSatisfies (oi_state i) = false ∧ ∃ deadline, oi_expiresAt i = Some deadline ∧ isObligationExpiredAt deadline at_ = true) ∧
  (oi_state (expire_one at_ i) = oi_state i ∨ oi_state (expire_one at_ i) = ob_expired).
Proof.
  intros Hio Hne. unfold expire_one. destruct (oi_expiresAt i) as [deadline|] eqn:Hd.
  2:{ split; [done|]. split; [|by left]. split; [done|]. by intros [_ (?&?&_)]. }
  destruct (isObligationExpiredAt deadline at_) eqn:He; cbn [negb]; [|split; [done|]; split; [split; [done|intros [_ (?&[= <-]&?)]; congruence]|by left]].
  destruct (isLegalObligationTransition (oi_state i) ob_expired) eqn:Hl; cbn [negb].
  - pose proof (transition_cases i ob_expired at_ deadline_passed None) as Hc.
    assert (∃ j, transitionObligation i ob_expired at_ deadline_passed None = StepApplied j) as [j Ej].
    { unfold transitionObligation. rewrite bool_decide_false by done. destruct (obligationProgressRank (oi_state i)); cbn; rewrite Hl; cbn; eauto. }
    rewrite Ej in *. destruct Hc as [-> _]. destruct Hio as [Hw Hs _ _]. split; [|split; [|by right]].
    + constructor; [by apply moved_walked|done|done|done].
    + split; [|done]. intros _. split; [|by exists deadline]. by destruct (oi_state i).
  - split; [done|]. split; [|by left]. split; [done|]. intros [Hs _]. by destruct (oi_state i).
Qed.

Lemma resolved_instance svc observations c at_ i :
  NoDup (svc_declared svc) → i ∈ or_obligations (resolve_obligations svc observations c at_) →
  ∃ t i0, t ∈ svc_declared svc ∧ i = expire_one at_ i0 ∧ instance_ok svc observations c at_ t i0 ∧ oi_state i0 ≠ ob_expired.
Proof.
  intros Hn. cbn. intros (t&Ht&E)%list_elem_of_omap. apply fmap_Some in E as (i0&Hi0&->).
  destruct (proj2 (observed_ok svc observations c at_ Hn) t i0 Hi0). by exists t, i0.
Qed.

Lemma createService_ok sources rs svc :
  createObligationLifecycleService sources rs = Ok svc →
  svc_registry svc = sources ∧ svc_requirements svc = rs ∧ NoDup (svc_declared svc) ∧
  (∀ t, t ∈ svc_declared svc ↔ t ∈ req_obligationType <$> rs) ∧
  Forall (λ source, validateObligationDischargeSource source = []) sources.
Proof.
  unfold createObligationLifecycleService, createObligationDischargeSourceRegistry.
  destruct (validateObligationDeclaration rs); [|done]. destruct (source_violations [] sources) eqn:Hv; [|done]. intros [= <-]. cbn.
  split; [done|]. split; [done|]. split; [rewrite sort_strings_perm; apply NoDup_nub|]. split.
  - intros t. by rewrite elem_of_sort_strings, elem_of_nub.
  - revert Hv. generalize (@nil string). induction sources as [|x sources IH]; intros seen; cbn; [constructor|].
    intros [? [_ ?]%app_nil]%app_nil. constructor; [done|]. by eapply IH.
Qed.

Lemma get_source_in registry i source : get_source registry i = Some source → source ∈ registry ∧ src_id source = i.
Proof. unfold get_source. intros [Hin E]%List.find_some. apply str_eqb_eq in E. by apply list_elem_of_In in Hin. Qed.

Lemma independent_kind source :
  validateObligationDischargeSource source = [] → src_verificationClass source = "independent" →
  src_kind source ∈ ["approval_runtime"; "provider_adapter"; "signed_attestation"].
Proof.
  unfold validateObligationDischargeSource. intros Hv Hi. rewrite !app_nil in Hv. destruct Hv as (_&_&_&_&_&Hv).
  rewrite Hi, str_eqb_refl in Hv. by case_bool_decide.
Qed.

(** C33. Nobody satisfies an obligation by saying so: an obligation that resolves
    as verified or waived was discharged, or waived, by an observation of
    exactly this obligation and authorization, from a registered source that
    the deployment classified independent, and whose kind is one of the three
    that can be independent of the beneficiary. *)
Theorem obligations_not_self_discharged sources rs svc observations c at_ i :
  createObligationLifecycleService sources rs = Ok svc →
  i ∈ or_obligations (resolve_obligations svc observations c at_) → obligationIsSatisfied i = true →
  ∃ x source, x ∈ observations ∧ obs_obligationType x = oi_obligationType i ∧ obs_correlation x = c ∧
    obs_outcome x = match oi_state i with ob_waived => oo_waived | _ => oo_discharged end ∧
    source ∈ sources ∧ src_id source = obs_sourceId x ∧ src_verificationClass source = "independent" ∧
    src_kind source ∈ ["approval_runtime"; "provider_adapter"; "signed_attestation"].
Proof.
  intros (Hreg&_&Hn&_&Hvalid)%createService_ok Hi Hs. destruct (resolved_instance _ _ _ _ _ Hn Hi) as (t&i0&_&->&Hio&Hne).
  destruct (expire_one_ok _ _ _ _ _ _ Hio Hne) as ([_ (_&Ht&_) Hv Hw]&_&_). cbn in Ht. rewrite Ht.
  assert (∀ o, satisfied_by svc observations c t o → ∃ x source, x ∈ observations ∧ obs_obligationType x = t ∧ obs_correlation x = c ∧
    obs_outcome x = o ∧ source ∈ sources ∧ src_id source = obs_sourceId x ∧ src_verificationClass source = "independent" ∧
    src_kind source ∈ ["approval_runtime"; "provider_adapter"; "signed_attestation"]) as Hsat.
  { intros o (x&source&?&?&?&?&[? ?]%get_source_in&?). rewrite Hreg in *. rewrite Forall_forall in Hvalid.
    exists x, source. repeat (split; [done|]). by apply independent_kind; [apply Hvalid|]. }
  unfold obligationIsSatisfied in Hs. destruct (oi_state (expire_one at_ i0)); try done; apply Hsat; eauto.
Qed.

Lemma resolved_types svc observations c at_ :
  NoDup (svc_declared svc) → oi_obligationType <$> or_obligations (resolve_obligations svc observations c at_) = svc_declared svc.
Proof.
  intros Hn. cbn. destruct (observed_ok svc observations c at_ Hn) as [Hdom Hok].
  assert (∀ l : list string, (∀ t, t ∈ l → t ∈ svc_declared svc) →
    oi_obligationType <$> omap (λ t, expire_one at_ <$> (observed svc observations c at_).1 !! t) l = l) as Hl; [|by apply Hl].
  induction l as [|t l IH]; intros Hsub; [done|]. cbn. destruct (proj2 (Hdom t)) as [i Hi]; [apply Hsub; by left|]. rewrite Hi. cbn.
  f_equal; [|apply IH; intros; apply Hsub; by right]. destruct (Hok t i Hi) as [Hio Hne].
  destruct (expire_one_ok _ _ _ _ _ _ Hio Hne) as ([_ (_&Ht&_) _ _]&_). done.
Qed.

(** Resolution covers the declaration exactly: one obligation per declared
    type, in order, blocking and with the deadline it was declared with, each
    with a history that is a legal walk of the lifecycle from required to its
    state; and exercise is eligible exactly when every blocking one is
    verified or waived. *)
Theorem resolve_obligations_exact sources rs svc observations c at_ :
  createObligationLifecycleService sources rs = Ok svc →
  let resolution := resolve_obligations svc observations c at_ in
  oi_obligationType <$> or_obligations resolution = svc_declared svc ∧
  (∀ t, t ∈ svc_declared svc ↔ t ∈ req_obligationType <$> rs) ∧
  Forall (λ i, walked i ∧ same_obligation (declare_one svc c at_ (oi_obligationType i)) i) (or_obligations resolution) ∧
  (or_exerciseEligibility resolution = ob_eligible ↔
    ∀ i, i ∈ or_obligations resolution → oi_blocking i = true → oi_state i = ob_verified ∨ oi_state i = ob_waived).
Proof.
  intros (_&_&Hn&Hd&_)%createService_ok. cbn zeta. split; [by apply resolved_types|]. split; [done|]. split.
  - apply Forall_forall. intros i Hi. destruct (resolved_instance _ _ _ _ _ Hn Hi) as (t&i0&_&->&Hio&Hne).
    destruct (expire_one_ok _ _ _ _ _ _ Hio Hne) as ([Hw Hs _ _]&_). destruct Hs as (?&Ht&?). cbn in Ht. rewrite Ht. done.
  - cbn [or_exerciseEligibility resolve_obligations or_obligations].
    match goal with |- context [existsb _ ?l] => generalize l end. intros l. destruct (existsb obligationWithholdsExercise l) eqn:E.
    + apply existsb_exists in E as (i&Hi%list_elem_of_In&Hw). split; [done|]. intros Hall. exfalso. unfold obligationWithholdsExercise in Hw.
      destruct (oi_blocking i) eqn:Hb; [|done]. by destruct (Hall i Hi Hb) as [E|E]; rewrite E in Hw.
    + split; [|done]. intros _ i Hi Hb. destruct (obligationWithholdsExercise i) eqn:Hw.
      * assert (existsb obligationWithholdsExercise l = true); [|congruence]. apply existsb_exists. exists i. split; [by apply list_elem_of_In|done].
      * unfold obligationWithholdsExercise in Hw. rewrite Hb in Hw. destruct (oi_state i); first [done | by left | by right].
Qed.

(** Expiry is derived exactly: an obligation resolves as expired precisely
    when the declaration gives it a deadline, that deadline has passed at the
    instant, and no observation had satisfied it; so a passed deadline leaves
    no obligation open, and no deadline means no expiry. *)
Theorem obligations_expiry_exact sources rs svc observations c at_ i :
  createObligationLifecycleService sources rs = Ok svc → i ∈ or_obligations (resolve_obligations svc observations c at_) →
  let passed := match oi_expiresAt i with Some deadline => isObligationExpiredAt deadline at_ | None => false end in
  (oi_state i = ob_expired ↔ passed = true ∧ obligationIsSatisfied i = false) ∧ (passed = true → obligationIsTerminal i = true).
Proof.
  intros (_&_&Hn&_)%createService_ok Hi. destruct (resolved_instance _ _ _ _ _ Hn Hi) as (t&i0&_&->&Hio&Hne).
  destruct (expire_one_ok _ _ _ _ _ _ Hio Hne) as (_&Hx&Hst).
  assert (oi_expiresAt (expire_one at_ i0) = oi_expiresAt i0) as ->.
  { unfold expire_one. destruct (oi_expiresAt i0) eqn:E; [|done]. repeat (break_if; [done|]).
    pose proof (transition_cases i0 ob_expired at_ deadline_passed None) as Hc. destruct (transitionObligation _ _ _ _ _); [|done..].
    by destruct Hc as [-> _]. }
  assert (match oi_expiresAt i0 with Some deadline => isObligationExpiredAt deadline at_ | None => false end = true ↔
    ∃ deadline, oi_expiresAt i0 = Some deadline ∧ isObligationExpiredAt deadline at_ = true) as Hp.
  { destruct (oi_expiresAt i0); [|by split; [|intros (?&?&_)]]. split; [eauto|]. by intros (?&[= <-]&?). }
  unfold obligationIsSatisfied, obligationIsTerminal. cbn zeta. rewrite Hp. split.
  - destruct Hst as [Es|Es].
    + rewrite Es. rewrite Es in Hx. rewrite Hx. tauto.
    + rewrite Es. split; [|done]. intros _. apply Hx in Es as [_ ?]. done.
  - intros Hpass. destruct Hst as [Es|Es]; rewrite Es; [|done]. destruct (obligationStateSatisfies (oi_state i0)) eqn:Hs.
    + by destruct (oi_state i0).
    + destruct (Hne). rewrite <-Es. by apply Hx.
Qed.

(** Re-delivery is idempotent: an observation that was applied to an
    obligation changes nothing when it is applied again, neither the state nor
    the history nor the record. *)
Theorem observe_one_idempotent at_ i e i' : observe_one at_ i e = inr i' → observe_one at_ i' e = inr i'.
Proof.
  unfold observe_one, dischargeRecordFor. destruct i as [id_ ty bl co st da tr di ve ex]. destruct (obs_outcome (ao_observation e)).
  - destruct st; cbn; by intros [= <-].
  - unfold stepsFor. destruct (str_eqb (src_verificationClass (ao_source e)) "independent"); destruct st; cbn; by intros [= <-].
  - destruct st; cbn; by intros [= <-].
  - destruct st; cbn; by intros [= <-].
Qed.

End Resolution.

(** ** A sample deployment *)

Definition sample_sources : list ObligationDischargeSource := [
  {| src_id := "finance"; src_kind := "approval_runtime"; src_name := "Finance approvals"; src_verificationClass := "independent" |};
  {| src_id := "agent"; src_kind := "request"; src_name := "The requester"; src_verificationClass := "self_reported" |}].
Definition sample_requirements : list ObligationRequirement := [
  {| req_obligationType := "second.signer"; req_blocking := false; req_expiresAt := Some "300" |};
  {| req_obligationType := "finance.approval"; req_blocking := true; req_expiresAt := Some "500" |}].
Definition sample_service : ObligationLifecycleService := {|
  svc_registry := sample_sources; svc_requirements := sample_requirements; svc_declared := ["finance.approval"; "second.signer"] |}.
Definition sample_authorization : ObligationCorrelation := {| oc_requestId := "req-1"; oc_action := "pay"; oc_resourceScope := "acct-1" |}.
Definition sample_observation (source : string) (o : ObligationDischargeOutcome) (observedAt reference : string) : ObligationDischargeObservation := {|
  obs_obligationType := "finance.approval"; obs_correlation := sample_authorization; obs_sourceId := source; obs_outcome := o;
  obs_observedAt := observedAt; obs_subjectId := None; obs_reference := Some reference |}.

Lemma sample_service_ok : @createObligationLifecycleService demo_host sample_sources sample_requirements = Ok sample_service.
Proof. vm_compute. reflexivity. Qed.

Definition sample_observations : list ObligationDischargeObservation :=
  [sample_observation "agent" oo_discharged "200" "claim"; sample_observation "finance" oo_discharged "210" "approval-1"].
Definition sample_approved : ObligationInstance :=
  default (declareObligation "" false sample_authorization "" None)
    (or_obligations (@resolve_obligations demo_host sample_service sample_observations sample_authorization "400") !! 0%nat).

Lemma sample_approved_in :
  sample_approved ∈ or_obligations (@resolve_obligations demo_host sample_service sample_observations sample_authorization "400").
Proof. apply (list_elem_of_lookup_2 _ 0). vm_compute. reflexivity. Qed.

Lemma obligations_not_self_discharged_witness :
  oi_state sample_approved = ob_verified ∧
  ∃ x source, x ∈ sample_observations ∧ source ∈ sample_sources ∧ src_id source = obs_sourceId x ∧ src_verificationClass source = "independent".
Proof.
  split; [vm_compute; reflexivity|].
  destruct (@obligations_not_self_discharged demo_host sample_sources sample_requirements sample_service sample_observations
    sample_authorization "400" sample_approved sample_service_ok sample_approved_in) as (x&source&?&_&_&_&?&?&?&_).
  - vm_compute. reflexivity.
  - by exists x, source.
Defined.

Lemma resolve_obligations_exact_witness :
  or_exerciseEligibility (@resolve_obligations demo_host sample_service [sample_observation "agent" oo_discharged "200" "claim"] sample_authorization "400") = ob_blocked ∧
  oi_obligationType <$> or_obligations (@resolve_obligations demo_host sample_service sample_observations sample_authorization "400") =
    ["finance.approval"; "second.signer"].
Proof.
  split; [vm_compute; reflexivity|].
  exact (proj1 (@resolve_obligations_exact demo_host sample_sources sample_requirements sample_service sample_observations
    sample_authorization "400" sample_service_ok)).
Defined.

Lemma obligations_expiry_exact_witness : oi_expiresAt sample_approved = Some "500" ∧ oi_state sample_approved ≠ ob_expired.
Proof.
  assert (oi_expiresAt sample_approved = Some "500") as E by (vm_compute; reflexivity). split; [exact E|].
  destruct (@obligations_expiry_exact demo_host sample_sources sample_requirements sample_service sample_observations
    sample_authorization "400" sample_approved sample_service_ok sample_approved_in) as [Hx _].
  rewrite E in Hx. intros [Hp _]%Hx. vm_compute in Hp. discriminate Hp.
Defined.

Definition sample_declared : ObligationInstance := declare_one sample_service sample_authorization "400" "finance.approval".
Definition sample_entry : AdmissibleObservation := {|
  ao_observation := sample_observation "finance" oo_discharged "210" "approval-1";
  ao_source := {| src_id := "finance"; src_kind := "approval_runtime"; src_name := "Finance approvals"; src_verificationClass := "independent" |} |}.
Definition sample_verified : ObligationInstance := match observe_one "400" sample_declared sample_entry with inr i => i | inl _ => sample_declared end.

Lemma observe_one_idempotent_witness :
  length (oi_transitions sample_verified) = 3%nat ∧ observe_one "400" sample_verified sample_entry = inr sample_verified.
Proof.
  split; [reflexivity|]. apply (observe_one_idempotent "400" sample_declared sample_entry sample_verified). reflexivity.
Defined.

(** ** Where the service and its documentation differ *)

(** The order of observations is not total: two that differ only in what they
    cite are equivalent to it, so the order of arrival decides which one the
    obligation comes to rest on. *)
Theorem observation_order_not_total :
  ∃ svc xs ys c at_, xs ≡ₚ ys ∧ sortObservations xs ≠ sortObservations ys ∧
    oi_discharge <$> or_obligations (@resolve_obligations demo_host svc xs c at_) ≠
    oi_discharge <$> or_obligations (@resolve_obligations demo_host svc ys c at_).
Proof.
  exists sample_service, [sample_observation "finance" oo_discharged "210" "approval-1"; sample_observation "finance" oo_discharged "210" "approval-2"],
    [sample_observation "finance" oo_discharged "210" "approval-2"; sample_observation "finance" oo_discharged "210" "approval-1"],
    sample_authorization, "400".
  split; [apply perm_swap|]. split; vm_compute; discriminate.
Qed.

(** A refusal by an independent source does not count against a discharge by
    another: the refused verification of a verified obligation is disregarded
    and exercise stays eligible. *)
Theorem contradicted_discharge_eligible :
  ∃ svc xs c at_, Forall (λ x, is_Some (match admissibility svc c x with inr e => Some e | inl _ => None end)) xs ∧
    Exists (λ x, obs_outcome x = oo_discharged) xs ∧ Exists (λ x, obs_outcome x = oo_refused) xs ∧
    or_exerciseEligibility (@resolve_obligations demo_host svc xs c at_) = ob_eligible ∧
    Exists (λ i, oi_blocking i = true) (or_obligations (@resolve_obligations demo_host svc xs c at_)).
Proof.
  exists sample_service, [sample_observation "finance" oo_discharged "210" "approval-1"; sample_observation "finance" oo_refused "220" "approval-1"],
    sample_authorization, "400".
  split; [repeat constructor; eexists; reflexivity|]. split; [by constructor|]. split; [by right; constructor|].
  split; [vm_compute; reflexivity|]. apply Exists_exists. exists (default (declareObligation "" false sample_authorization "" None)
    (or_obligations (@resolve_obligations demo_host sample_service
      [sample_observation "finance" oo_discharged "210" "approval-1"; sample_observation "finance" oo_refused "220" "approval-1"] sample_authorization "400") !! 0%nat)).
  split; [apply (list_elem_of_lookup_2 _ 0); vm_compute; reflexivity|vm_compute; reflexivity].
Qed.
