(* ===== verification/AuthorityGraph.v ===== *)
(** * The authority graph: grants, delegations, roles and their store

    Model of [authority-graph]: the domain records, the in-memory store
    ([services/authority-graph-store.ts]), and the services that issue grants
    ([authority-grant-service.ts]), delegate ([delegation-service.ts]) and
    assign roles ([role-assignment-service.ts]). Every [Map] of the store is an
    insertion-ordered map. The clock and the id generator are the runtime's
    context: their [n]-th call answers what the context says. A service that
    throws does so before it writes, so a throw leaves the runtime as it was.
    Depths are integers. *)

From S2P Require Import Prelude Decimal Js JsMap StableJson.

Local Open Scope Z_scope.
Local Open Scope frontera_scope.

(** ** Records *)

(** [AuthorityGrantStatus], [DelegationGrantStatus] and [RoleAssignmentStatus]
    are the same union. *)
Inductive RecordStatus := as_active | as_expired | as_suspended | as_revoked.
#[export] Instance RecordStatus_eq_dec : EqDecision RecordStatus.
Proof. solve_decision. Defined.

Inductive AuthorityActorType := at_human | at_organization | at_agent | at_system.
#[export] Instance AuthorityActorType_eq_dec : EqDecision AuthorityActorType.
Proof. solve_decision. Defined.

Inductive SpendingWindow := sw_lifetime | sw_rolling (seconds : Z).

Inductive AuthorityConstraint :=
  | resource_scope (allowedScopes : list string)
  | prohibited_action (actions : list string)
  | max_amount (currency value : string)
  | spending_limit (limitId currency maximum : string) (window : SpendingWindow)
  | time_window (startsAt endsAt : option string)
  | data_boundary (allowedDataDomains prohibitedDataDomains : list string)
  | human_approval_required (actions : list string).

Record AuthorityGrant := {
  g_id : string;
  g_issuerActorId : string;
  g_subjectActorId : string;
  g_trustDomainId : string;
  g_roleId : option string;
  g_capability : string;
  g_actions : list string;
  g_resourceScopes : list string;
  g_canDelegate : bool;
  g_allowedDelegateActorTypes : option (list AuthorityActorType);
  g_maxDelegationDepth : option Z;
  g_nonDelegableActions : option (list string);
  g_constraints : option (list AuthorityConstraint);
  g_status : RecordStatus;
  g_issuedAt : string;
  g_expiresAt : option string;
  g_parentGrantId : option string;
  g_metadata : option Json;
}.

Record DelegationGrant := {
  d_id : string;
  d_delegatorActorId : string;
  d_delegateActorId : string;
  d_principalActorId : string;
  d_trustDomainId : string;
  d_sourceAuthorityGrantId : string;
  d_capability : string;
  d_actions : list string;
  d_resourceScopes : list string;
  d_delegationDepth : Z;
  d_canRedelegate : bool;
  d_maxDelegationDepth : option Z;
  d_nonDelegableActions : option (list string);
  d_constraints : option (list AuthorityConstraint);
  d_status : RecordStatus;
  d_issuedAt : string;
  d_expiresAt : option string;
  d_metadata : option Json;
}.

Record RoleAssignment := {
  ra_id : string;
  ra_actorId : string;
  ra_roleId : string;
  ra_assignedByActorId : string;
  ra_trustDomainId : string;
  ra_resourceScopes : list string;
  ra_status : RecordStatus;
  ra_assignedAt : string;
  ra_expiresAt : option string;
  ra_metadata : option Json;
}.

Inductive RevocableAuthorityEntityType := re_authority_grant | re_delegation_grant | re_role_assignment.
Record RevocationLink := {
  rl_id : string;
  rl_revokedEntityType : RevocableAuthorityEntityType;
  rl_revokedEntityId : string;
  rl_revokedByActorId : string;
  rl_trustDomainId : string;
  rl_reason : string;
  rl_revokedAt : string;
}.

Definition grant_with_status (g : AuthorityGrant) (s : RecordStatus) : AuthorityGrant := {|
  g_id := g_id g; g_issuerActorId := g_issuerActorId g; g_subjectActorId := g_subjectActorId g;
  g_trustDomainId := g_trustDomainId g; g_roleId := g_roleId g; g_capability := g_capability g; g_actions := g_actions g;
  g_resourceScopes := g_resourceScopes g; g_canDelegate := g_canDelegate g;
  g_allowedDelegateActorTypes := g_allowedDelegateActorTypes g; g_maxDelegationDepth := g_maxDelegationDepth g;
  g_nonDelegableActions := g_nonDelegableActions g; g_constraints := g_constraints g; g_status := s;
  g_issuedAt := g_issuedAt g; g_expiresAt := g_expiresAt g; g_parentGrantId := g_parentGrantId g; g_metadata := g_metadata g |}.

Definition delegation_with_status (d : DelegationGrant) (s : RecordStatus) : DelegationGrant := {|
  d_id := d_id d; d_delegatorActorId := d_delegatorActorId d; d_delegateActorId := d_delegateActorId d;
  d_principalActorId := d_principalActorId d; d_trustDomainId := d_trustDomainId d;
  d_sourceAuthorityGrantId := d_sourceAuthorityGrantId d; d_capability := d_capability d; d_actions := d_actions d;
  d_resourceScopes := d_resourceScopes d; d_delegationDepth := d_delegationDepth d; d_canRedelegate := d_canRedelegate d;
  d_maxDelegationDepth := d_maxDelegationDepth d; d_nonDelegableActions := d_nonDelegableActions d;
  d_constraints := d_constraints d; d_status := s; d_issuedAt := d_issuedAt d; d_expiresAt := d_expiresAt d;
  d_metadata := d_metadata d |}.

Definition role_with_status (r : RoleAssignment) (s : RecordStatus) : RoleAssignment := {|
  ra_id := ra_id r; ra_actorId := ra_actorId r; ra_roleId := ra_roleId r; ra_assignedByActorId := ra_assignedByActorId r;
  ra_trustDomainId := ra_trustDomainId r; ra_resourceScopes := ra_resourceScopes r; ra_status := s;
  ra_assignedAt := ra_assignedAt r; ra_expiresAt := ra_expiresAt r; ra_metadata := ra_metadata r |}.

(** ** Errors *)

Inductive AuthorityGraphError :=
  | AuthorityGrantNotFoundError (id : string)
  | DelegationGrantNotFoundError (id : string)
  | RoleAssignmentNotFoundError (id : string)
  | SourceAuthorityNotFoundError (id : string)
  | IssuerNotAuthorizedError
  | SelfIssuanceNotPermittedError
  | DelegationNotPermittedError
  | NonDelegableActionError (action : string)
  | DelegationScopeExpansionError
  | DelegationDepthExceededError.

(** ** The store *)

Inductive AuthorityNodeType :=
  | nt_human | nt_organization | nt_agent | nt_system | nt_role | nt_trust_domain | nt_authority_grant | nt_delegation_grant.
Record AuthorityNode := {
  an_id : string;
  an_type : AuthorityNodeType;
  an_label : string;
  an_trustDomainId : option string;
  an_actorId : option string;
  an_metadata : option Json;
  an_createdAt : string;
  an_updatedAt : string;
}.
Inductive AuthorityEdgeType :=
  | et_owns | et_employs | et_assigns_role | et_grants_authority | et_delegates_to | et_acts_on_behalf_of
  | et_issues_passport | et_issues_capability | et_revokes | et_supervises | et_approves.
Record AuthorityEdge := {
  ae_id : string;
  ae_type : AuthorityEdgeType;
  ae_fromNodeId : string;
  ae_toNodeId : string;
  ae_trustDomainId : string;
  ae_status : RecordStatus;
  ae_createdAt : string;
  ae_expiresAt : option string;
  ae_metadata : option Json;
}.

Record AuthorityGraphStore := {
  nodes : JsMap AuthorityNode;
  edges : JsMap AuthorityEdge;
  grants : JsMap AuthorityGrant;
  delegations : JsMap DelegationGrant;
  roleAssignments : JsMap RoleAssignment;
  revocationLinks : JsMap RevocationLink;
  rootIssuersByTrustDomain : gmap string (gset string);
  crossDomainAcceptance : gset string;
}.

Definition empty_graph : AuthorityGraphStore := {|
  nodes := []; edges := []; grants := []; delegations := []; roleAssignments := []; revocationLinks := [];
  rootIssuersByTrustDomain := ∅; crossDomainAcceptance := ∅ |}.

Definition putNode (n : AuthorityNode) (s : AuthorityGraphStore) : AuthorityGraphStore := {|
  nodes := map_set (an_id n) n (nodes s); edges := edges s; grants := grants s; delegations := delegations s;
  roleAssignments := roleAssignments s; revocationLinks := revocationLinks s;
  rootIssuersByTrustDomain := rootIssuersByTrustDomain s; crossDomainAcceptance := crossDomainAcceptance s |}.
Definition putEdge (e : AuthorityEdge) (s : AuthorityGraphStore) : AuthorityGraphStore := {|
  nodes := nodes s; edges := map_set (ae_id e) e (edges s); grants := grants s; delegations := delegations s;
  roleAssignments := roleAssignments s; revocationLinks := revocationLinks s;
  rootIssuersByTrustDomain := rootIssuersByTrustDomain s; crossDomainAcceptance := crossDomainAcceptance s |}.
Definition getNode (s : AuthorityGraphStore) (id : string) : option AuthorityNode := map_get id (nodes s).
Definition getEdge (s : AuthorityGraphStore) (id : string) : option AuthorityEdge := map_get id (edges s).

Definition getGrant (s : AuthorityGraphStore) (id : string) : option AuthorityGrant := map_get id (grants s).
Definition getDelegation (s : AuthorityGraphStore) (id : string) : option DelegationGrant := map_get id (delegations s).
Definition getRoleAssignment (s : AuthorityGraphStore) (id : string) : option RoleAssignment := map_get id (roleAssignments s).

Definition putGrant (g : AuthorityGrant) (s : AuthorityGraphStore) : AuthorityGraphStore := {|
  nodes := nodes s; edges := edges s; grants := map_set (g_id g) g (grants s); delegations := delegations s; roleAssignments := roleAssignments s;
  revocationLinks := revocationLinks s; rootIssuersByTrustDomain := rootIssuersByTrustDomain s;
  crossDomainAcceptance := crossDomainAcceptance s |}.
Definition putDelegation (d : DelegationGrant) (s : AuthorityGraphStore) : AuthorityGraphStore := {|
  nodes := nodes s; edges := edges s; grants := grants s; delegations := map_set (d_id d) d (delegations s); roleAssignments := roleAssignments s;
  revocationLinks := revocationLinks s; rootIssuersByTrustDomain := rootIssuersByTrustDomain s;
  crossDomainAcceptance := crossDomainAcceptance s |}.
Definition putRoleAssignment (r : RoleAssignment) (s : AuthorityGraphStore) : AuthorityGraphStore := {|
  nodes := nodes s; edges := edges s; grants := grants s; delegations := delegations s; roleAssignments := map_set (ra_id r) r (roleAssignments s);
  revocationLinks := revocationLinks s; rootIssuersByTrustDomain := rootIssuersByTrustDomain s;
  crossDomainAcceptance := crossDomainAcceptance s |}.
Definition putRevocationLink (l : RevocationLink) (s : AuthorityGraphStore) : AuthorityGraphStore := {|
  nodes := nodes s; edges := edges s; grants := grants s; delegations := delegations s; roleAssignments := roleAssignments s;
  revocationLinks := map_set (rl_id l) l (revocationLinks s); rootIssuersByTrustDomain := rootIssuersByTrustDomain s;
  crossDomainAcceptance := crossDomainAcceptance s |}.

Definition getGrantsBySubjectActor (s : AuthorityGraphStore) (actorId : string) : list AuthorityGrant :=
  List.filter (λ g, str_eqb (g_subjectActorId g) actorId) (map_values (grants s)).
Definition getDelegationsByDelegateActor (s : AuthorityGraphStore) (actorId : string) : list DelegationGrant :=
  List.filter (λ d, str_eqb (d_delegateActorId d) actorId) (map_values (delegations s)).
Definition getGrantsByIssuerActor (s : AuthorityGraphStore) (actorId : string) : list AuthorityGrant :=
  List.filter (λ g, str_eqb (g_issuerActorId g) actorId) (map_values (grants s)).
Definition getGrantsByTrustDomain (s : AuthorityGraphStore) (trustDomainId : string) : list AuthorityGrant :=
  List.filter (λ g, str_eqb (g_trustDomainId g) trustDomainId) (map_values (grants s)).
Definition getDelegationsByDelegatorActor (s : AuthorityGraphStore) (actorId : string) : list DelegationGrant :=
  List.filter (λ d, str_eqb (d_delegatorActorId d) actorId) (map_values (delegations s)).
Definition getDelegationsByTrustDomain (s : AuthorityGraphStore) (trustDomainId : string) : list DelegationGrant :=
  List.filter (λ d, str_eqb (d_trustDomainId d) trustDomainId) (map_values (delegations s)).
Definition getRoleAssignmentsForActor (s : AuthorityGraphStore) (actorId : string) : list RoleAssignment :=
  List.filter (λ r, str_eqb (ra_actorId r) actorId) (map_values (roleAssignments s)).
Definition getRoleAssignmentsForTrustDomain (s : AuthorityGraphStore) (trustDomainId : string) : list RoleAssignment :=
  List.filter (λ r, str_eqb (ra_trustDomainId r) trustDomainId) (map_values (roleAssignments s)).
Definition getRevocationLink (s : AuthorityGraphStore) (id : string) : option RevocationLink := map_get id (revocationLinks s).
Definition getRevocationLinksForEntity (s : AuthorityGraphStore) (entityId : string) : list RevocationLink :=
  List.filter (λ l, str_eqb (rl_revokedEntityId l) entityId) (map_values (revocationLinks s)).

Definition updateGrantStatus (id : string) (st : RecordStatus) (s : AuthorityGraphStore) :
    result AuthorityGraphError (AuthorityGrant * AuthorityGraphStore) :=
  match map_get id (grants s) with
  | None => Throw (AuthorityGrantNotFoundError id)
  | Some existing =>
      let updated := grant_with_status existing st in
      Ok (updated, {| nodes := nodes s; edges := edges s; grants := map_set id updated (grants s); delegations := delegations s; roleAssignments := roleAssignments s;
        revocationLinks := revocationLinks s; rootIssuersByTrustDomain := rootIssuersByTrustDomain s;
        crossDomainAcceptance := crossDomainAcceptance s |})
  end.
Definition updateDelegationStatus (id : string) (st : RecordStatus) (s : AuthorityGraphStore) :
    result AuthorityGraphError (DelegationGrant * AuthorityGraphStore) :=
  match map_get id (delegations s) with
  | None => Throw (DelegationGrantNotFoundError id)
  | Some existing =>
      let updated := delegation_with_status existing st in
      Ok (updated, {| nodes := nodes s; edges := edges s; grants := grants s; delegations := map_set id updated (delegations s); roleAssignments := roleAssignments s;
        revocationLinks := revocationLinks s; rootIssuersByTrustDomain := rootIssuersByTrustDomain s;
        crossDomainAcceptance := crossDomainAcceptance s |})
  end.
Definition updateRoleAssignmentStatus (id : string) (st : RecordStatus) (s : AuthorityGraphStore) :
    result AuthorityGraphError (RoleAssignment * AuthorityGraphStore) :=
  match map_get id (roleAssignments s) with
  | None => Throw (RoleAssignmentNotFoundError id)
  | Some existing =>
      let updated := role_with_status existing st in
      Ok (updated, {| nodes := nodes s; edges := edges s; grants := grants s; delegations := delegations s; roleAssignments := map_set id updated (roleAssignments s);
        revocationLinks := revocationLinks s; rootIssuersByTrustDomain := rootIssuersByTrustDomain s;
        crossDomainAcceptance := crossDomainAcceptance s |})
  end.

Definition store_registerRootIssuer (trustDomainId actorId : string) (s : AuthorityGraphStore) : AuthorityGraphStore := {|
  nodes := nodes s; edges := edges s; grants := grants s; delegations := delegations s; roleAssignments := roleAssignments s; revocationLinks := revocationLinks s;
  rootIssuersByTrustDomain := <[trustDomainId := {[actorId]} ∪ default ∅ (rootIssuersByTrustDomain s !! trustDomainId)]>
    (rootIssuersByTrustDomain s);
  crossDomainAcceptance := crossDomainAcceptance s |}.
Definition isRootIssuer (s : AuthorityGraphStore) (trustDomainId actorId : string) : bool :=
  bool_decide (actorId ∈ default ∅ (rootIssuersByTrustDomain s !! trustDomainId)).
Definition store_acceptCrossDomainAuthority (trustDomainId : string) (s : AuthorityGraphStore) : AuthorityGraphStore := {|
  nodes := nodes s; edges := edges s; grants := grants s; delegations := delegations s; roleAssignments := roleAssignments s; revocationLinks := revocationLinks s;
  rootIssuersByTrustDomain := rootIssuersByTrustDomain s; crossDomainAcceptance := {[trustDomainId]} ∪ crossDomainAcceptance s |}.
Definition isCrossDomainAuthorityAccepted (s : AuthorityGraphStore) (trustDomainId : string) : bool :=
  bool_decide (trustDomainId ∈ crossDomainAcceptance s).

(** [values.includes(value)] *)
Definition includes (l : list string) (x : string) : bool := bool_decide (x ∈ l).

(** [findAuthorityForActorAction] *)
Definition findAuthorityForActorAction (s : AuthorityGraphStore) (actorId action trustDomainId : string) : list AuthorityGrant :=
  List.filter (λ g, str_eqb (g_trustDomainId g) trustDomainId && includes (g_actions g) action) (getGrantsBySubjectActor s actorId).

(** ** Issuing a grant *)

Record IssueAuthorityGrantInput := {
  ig_id : option string;
  ig_issuerActorId : string;
  ig_subjectActorId : string;
  ig_trustDomainId : string;
  ig_roleId : option string;
  ig_capability : string;
  ig_actions : list string;
  ig_resourceScopes : list string;
  ig_canDelegate : option bool;
  ig_allowedDelegateActorTypes : option (list AuthorityActorType);
  ig_maxDelegationDepth : option Z;
  ig_nonDelegableActions : option (list string);
  ig_constraints : option (list AuthorityConstraint);
  ig_expiresAt : option string;
  ig_parentGrantId : option string;
  ig_metadata : option Json;
  ig_allowRootBootstrap : option bool;
}.

(** The parent checks of a non-root issuer. *)
Definition parent_permits (s : AuthorityGraphStore) (i : IssueAuthorityGrantInput) : result AuthorityGraphError unit :=
  match ig_parentGrantId i with
  | None => Throw IssuerNotAuthorizedError
  | Some parentId =>
      if negb (nonempty parentId) then Throw IssuerNotAuthorizedError
      else match getGrant s parentId with
      | None => Throw (AuthorityGrantNotFoundError parentId)
      | Some parent =>
          guard* str_eqb (g_subjectActorId parent) (ig_issuerActorId i) else IssuerNotAuthorizedError in
          guard* bool_decide (g_status parent = as_active) else IssuerNotAuthorizedError in
          guard* g_canDelegate parent else IssuerNotAuthorizedError in
          guard* forallb (includes (g_actions parent)) (ig_actions i) else IssuerNotAuthorizedError in
          guard* forallb (includes (g_resourceScopes parent)) (ig_resourceScopes i) else IssuerNotAuthorizedError in
          Ok ()
      end
  end.

Definition build_authority_grant (i : IssueAuthorityGrantInput) (id issuedAt : string) : AuthorityGrant := {|
  g_id := id; g_issuerActorId := ig_issuerActorId i; g_subjectActorId := ig_subjectActorId i;
  g_trustDomainId := ig_trustDomainId i; g_roleId := ig_roleId i; g_capability := ig_capability i; g_actions := ig_actions i;
  g_resourceScopes := ig_resourceScopes i; g_canDelegate := default false (ig_canDelegate i);
  g_allowedDelegateActorTypes := ig_allowedDelegateActorTypes i; g_maxDelegationDepth := ig_maxDelegationDepth i;
  g_nonDelegableActions := ig_nonDelegableActions i; g_constraints := ig_constraints i; g_status := as_active;
  g_issuedAt := issuedAt; g_expiresAt := ig_expiresAt i; g_parentGrantId := ig_parentGrantId i; g_metadata := ig_metadata i |}.

Definition issue_checks (s : AuthorityGraphStore) (i : IssueAuthorityGrantInput) : result AuthorityGraphError unit :=
  if str_eqb (ig_issuerActorId i) (ig_subjectActorId i) && negb (default false (ig_allowRootBootstrap i))
  then Throw SelfIssuanceNotPermittedError
  else if isRootIssuer s (ig_trustDomainId i) (ig_issuerActorId i) then Ok () else parent_permits s i.

(** ** Delegating *)

Record CreateDelegationGrantInput := {
  cd_id : option string;
  cd_delegatorActorId : string;
  cd_delegateActorId : string;
  cd_delegateActorType : AuthorityActorType;
  cd_principalActorId : option string;
  cd_trustDomainId : string;
  cd_sourceAuthorityGrantId : string;
  cd_capability : string;
  cd_actions : list string;
  cd_resourceScopes : list string;
  cd_canRedelegate : option bool;
  cd_nonDelegableActions : option (list string);
  cd_constraints : option (list AuthorityConstraint);
  cd_expiresAt : option string;
  cd_metadata : option Json;
}.

Record ResolvedSourceAuthority := {
  sa_holderActorId : string;
  sa_trustDomainId : string;
  sa_actions : list string;
  sa_resourceScopes : list string;
  sa_status : RecordStatus;
  sa_canDelegateFurther : bool;
  sa_allowedDelegateActorTypes : option (list AuthorityActorType);
  sa_maxDelegationDepth : option Z;
  sa_nonDelegableActions : option (list string);
  sa_delegationDepth : Z;
  sa_principalActorId : option string;
}.

Definition resolveSourceAuthority (s : AuthorityGraphStore) (id : string) : option ResolvedSourceAuthority :=
  match getGrant s id with
  | Some g => Some {| sa_holderActorId := g_subjectActorId g; sa_trustDomainId := g_trustDomainId g; sa_actions := g_actions g;
      sa_resourceScopes := g_resourceScopes g; sa_status := g_status g; sa_canDelegateFurther := g_canDelegate g;
      sa_allowedDelegateActorTypes := g_allowedDelegateActorTypes g; sa_maxDelegationDepth := g_maxDelegationDepth g;
      sa_nonDelegableActions := g_nonDelegableActions g; sa_delegationDepth := 0; sa_principalActorId := None |}
  | None =>
      match getDelegation s id with
      | Some d => Some {| sa_holderActorId := d_delegateActorId d; sa_trustDomainId := d_trustDomainId d; sa_actions := d_actions d;
          sa_resourceScopes := d_resourceScopes d; sa_status := d_status d; sa_canDelegateFurther := d_canRedelegate d;
          sa_allowedDelegateActorTypes := None; sa_maxDelegationDepth := d_maxDelegationDepth d;
          sa_nonDelegableActions := d_nonDelegableActions d; sa_delegationDepth := d_delegationDepth d;
          sa_principalActorId := Some (d_principalActorId d) |}
      | None => None
      end
  end.

Definition non_delegable (i : CreateDelegationGrantInput) (src : ResolvedSourceAuthority) : list string :=
  nub (default [] (sa_nonDelegableActions src) ++ default [] (cd_nonDelegableActions i)).

(** [if (prohibited) throw]: the empty action is falsy. *)
Definition prohibited_action_of (i : CreateDelegationGrantInput) (src : ResolvedSourceAuthority) : option string :=
  match List.find (includes (non_delegable i src)) (cd_actions i) with
  | Some a => if nonempty a then Some a else None
  | None => None
  end.

Definition delegation_checks (s : AuthorityGraphStore) (i : CreateDelegationGrantInput) :
    result AuthorityGraphError ResolvedSourceAuthority :=
  guard* negb (str_eqb (cd_delegatorActorId i) (cd_delegateActorId i)) else SelfIssuanceNotPermittedError in
  match resolveSourceAuthority s (cd_sourceAuthorityGrantId i) with
  | None => Throw (SourceAuthorityNotFoundError (cd_sourceAuthorityGrantId i))
  | Some src =>
      guard* str_eqb (sa_holderActorId src) (cd_delegatorActorId i) else DelegationNotPermittedError in
      guard* str_eqb (sa_trustDomainId src) (cd_trustDomainId i) else DelegationNotPermittedError in
      guard* bool_decide (sa_status src = as_active) else DelegationNotPermittedError in
      guard* sa_canDelegateFurther src else DelegationNotPermittedError in
      guard* (match sa_allowedDelegateActorTypes src with
              | Some types => bool_decide (cd_delegateActorType i ∈ types)
              | None => true
              end) else DelegationNotPermittedError in
      match prohibited_action_of i src with
      | Some a => Throw (NonDelegableActionError a)
      | None =>
          guard* forallb (includes (sa_actions src)) (cd_actions i) else DelegationNotPermittedError in
          guard* forallb (includes (sa_resourceScopes src)) (cd_resourceScopes i) else DelegationScopeExpansionError in
          guard* negb (default 0 (sa_maxDelegationDepth src) <? sa_delegationDepth src + 1) else DelegationDepthExceededError in
          Ok src
      end
  end.

Definition build_delegation (i : CreateDelegationGrantInput) (src : ResolvedSourceAuthority) (id issuedAt : string) : DelegationGrant :=
  let delegationDepth := sa_delegationDepth src + 1 in
  let maxDelegationDepth := default 0 (sa_maxDelegationDepth src) in {|
  d_id := id; d_delegatorActorId := cd_delegatorActorId i; d_delegateActorId := cd_delegateActorId i;
  d_principalActorId := match cd_principalActorId i with
    | Some p => p
    | None => default (cd_delegatorActorId i) (sa_principalActorId src)
    end;
  d_trustDomainId := cd_trustDomainId i; d_sourceAuthorityGrantId := cd_sourceAuthorityGrantId i;
  d_capability := cd_capability i; d_actions := cd_actions i; d_resourceScopes := cd_resourceScopes i;
  d_delegationDepth := delegationDepth;
  d_canRedelegate := default false (cd_canRedelegate i) && (delegationDepth <? maxDelegationDepth);
  d_maxDelegationDepth := Some maxDelegationDepth;
  d_nonDelegableActions := match non_delegable i src with [] => None | l => Some l end;
  d_constraints := cd_constraints i; d_status := as_active; d_issuedAt := issuedAt; d_expiresAt := cd_expiresAt i;
  d_metadata := cd_metadata i |}.

(** ** Roles *)

Record AssignRoleInput := {
  ar_id : option string;
  ar_actorId : string;
  ar_roleId : string;
  ar_assignedByActorId : string;
  ar_trustDomainId : string;
  ar_resourceScopes : list string;
  ar_expiresAt : option string;
  ar_metadata : option Json;
}.

Definition build_role (i : AssignRoleInput) (id assignedAt : string) : RoleAssignment := {|
  ra_id := id; ra_actorId := ar_actorId i; ra_roleId := ar_roleId i; ra_assignedByActorId := ar_assignedByActorId i;
  ra_trustDomainId := ar_trustDomainId i; ra_resourceScopes := ar_resourceScopes i; ra_status := as_active;
  ra_assignedAt := assignedAt; ra_expiresAt := ar_expiresAt i; ra_metadata := ar_metadata i |}.

(** The issuance a role assignment turns into. *)
Definition role_issuance (r : RoleAssignment) (i : IssueAuthorityGrantInput) : IssueAuthorityGrantInput := {|
  ig_id := ig_id i; ig_issuerActorId := ig_issuerActorId i; ig_subjectActorId := ra_actorId r; ig_trustDomainId := ra_trustDomainId r;
  ig_roleId := Some (ra_roleId r); ig_capability := ig_capability i; ig_actions := ig_actions i;
  ig_resourceScopes := List.filter (includes (ra_resourceScopes r)) (ig_resourceScopes i); ig_canDelegate := ig_canDelegate i;
  ig_allowedDelegateActorTypes := ig_allowedDelegateActorTypes i; ig_maxDelegationDepth := ig_maxDelegationDepth i;
  ig_nonDelegableActions := ig_nonDelegableActions i; ig_constraints := ig_constraints i; ig_expiresAt := ig_expiresAt i;
  ig_parentGrantId := ig_parentGrantId i; ig_metadata := ig_metadata i; ig_allowRootBootstrap := ig_allowRootBootstrap i |}.
