(* ===== verification/AuthorityChain.v ===== *)
(** * Verifying an authority chain

    Model of the decision path of [authority-graph]: the resolver that
    assembles a chain ([services/authority-resolver.ts]), the walk that
    re-derives its lineage from the store
    ([services/delegation-lineage-verifier.ts],
    [domain/delegation-lineage.ts]) and the ten policies
    ([policies]). The walks of the source are loops with a hop counter; here
    they recurse on what remains of the horizon. The message texts of
    outcomes are left out; reason codes and decision types are kept. *)

From S2P Require Import Prelude Decimal Js JsMap StableJson AuthorityGraph.

Local Open Scope Z_scope.
Local Open Scope frontera_scope.

(** ** Chains *)

Record AuthorityChainRequest := {
  cr_id : string;
  cr_actorId : string;
  cr_principalActorId : option string;
  cr_trustDomainId : string;
  cr_action : string;
  cr_resourceScope : string;
  cr_capability : option string;
  cr_requestedAt : string;
  cr_capabilityTokenId : option string;
}.

Inductive AuthorityChainStatus := chain_valid | chain_invalid | chain_partial.
#[export] Instance AuthorityChainStatus_eq_dec : EqDecision AuthorityChainStatus.
Proof. solve_decision. Defined.

Record AuthorityChain := {
  ch_id : string;
  ch_requestId : string;
  ch_trustDomainId : string;
  ch_actorId : string;
  ch_principalActorId : option string;
  ch_grants : list AuthorityGrant;
  ch_delegations : list DelegationGrant;
  ch_rootIssuerActorId : option string;
  ch_terminalActorId : string;
  ch_depth : Z;
  ch_status : AuthorityChainStatus;
  ch_createdAt : string;
}.

(** ** The resolver *)

Definition MAX_ANCESTRY_HOPS : nat := 50.

(** [while (current.parentGrantId && guard < MAX_ANCESTRY_HOPS)]; [room] is what
    remains of the guard. *)
Fixpoint grant_parents (s : AuthorityGraphStore) (room : nat) (current : AuthorityGrant) : list AuthorityGrant :=
  match room, g_parentGrantId current with
  | S room, Some parentId =>
      if nonempty parentId then
        match getGrant s parentId with
        | Some parent => parent :: grant_parents s room parent
        | None => []
        end
      else []
  | _, _ => []
  end.
Definition collectGrantAncestry (s : AuthorityGraphStore) (g : AuthorityGrant) : list AuthorityGrant :=
  g :: grant_parents s MAX_ANCESTRY_HOPS g.

Fixpoint delegation_sources (s : AuthorityGraphStore) (room : nat) (sourceId : string) : list DelegationGrant * list AuthorityGrant :=
  match room with
  | O => ([], [])
  | S room =>
      match getGrant s sourceId with
      | Some sourceGrant => ([], collectGrantAncestry s sourceGrant)
      | None =>
          match getDelegation s sourceId with
          | Some sourceDelegation =>
              let rest := delegation_sources s room (d_sourceAuthorityGrantId sourceDelegation) in
              (sourceDelegation :: rest.1, rest.2)
          | None => ([], [])
          end
      end
  end.
Definition collectDelegationAncestry (s : AuthorityGraphStore) (d : DelegationGrant) : list DelegationGrant * list AuthorityGrant :=
  let rest := delegation_sources s MAX_ANCESTRY_HOPS (d_sourceAuthorityGrantId d) in (d :: rest.1, rest.2).

Definition actor_grants (s : AuthorityGraphStore) (r : AuthorityChainRequest) : list AuthorityGrant :=
  List.filter (λ g, str_eqb (g_trustDomainId g) (cr_trustDomainId r)) (getGrantsBySubjectActor s (cr_actorId r)).
Definition actor_delegations (s : AuthorityGraphStore) (r : AuthorityChainRequest) : list DelegationGrant :=
  List.filter (λ d, str_eqb (d_trustDomainId d) (cr_trustDomainId r)) (getDelegationsByDelegateActor s (cr_actorId r)).

(** The records of the resolved chain and its status. *)
Definition resolve_records (s : AuthorityGraphStore) (r : AuthorityChainRequest) :
    list AuthorityGrant * list DelegationGrant * AuthorityChainStatus :=
  match List.find (λ g, includes (g_actions g) (cr_action r)) (actor_grants s r) with
  | Some matchingGrant => (collectGrantAncestry s matchingGrant, [], chain_valid)
  | None =>
      match List.find (λ d, includes (d_actions d) (cr_action r)) (actor_delegations s r) with
      | Some matchingDelegation =>
          let c := collectDelegationAncestry s matchingDelegation in (c.2, c.1, chain_valid)
      | None =>
          match actor_grants s r, actor_delegations s r with
          | [], [] => ([], [], chain_invalid)
          | gs, ds => (gs, ds, chain_partial)
          end
      end
  end.

Definition build_chain (r : AuthorityChainRequest) (gs : list AuthorityGrant) (ds : list DelegationGrant)
    (st : AuthorityChainStatus) (id createdAt : string) : AuthorityChain := {|
  ch_id := id; ch_requestId := cr_id r; ch_trustDomainId := cr_trustDomainId r; ch_actorId := cr_actorId r;
  ch_principalActorId := match cr_principalActorId r with Some p => Some p | None => d_principalActorId <$> head ds end;
  ch_grants := gs; ch_delegations := ds; ch_rootIssuerActorId := g_issuerActorId <$> last gs;
  ch_terminalActorId := cr_actorId r; ch_depth := Z.of_nat (length ds); ch_status := st; ch_createdAt := createdAt |}.

Definition resolved_chain (s : AuthorityGraphStore) (r : AuthorityChainRequest) (id createdAt : string) : AuthorityChain :=
  let '(gs, ds, st) := resolve_records s r in build_chain r gs ds st id createdAt.

(** ** The lineage walk *)

Inductive DelegationLineageBreach :=
  | source_missing (delegationGrantId sourceAuthorityGrantId : string)
  | lineage_cycle (delegationGrantId : string)
  | delegator_not_source_holder (delegationGrantId delegatorActorId sourceHolderActorId : string)
  | action_expanded (delegationGrantId action : string)
  | source_not_delegable (delegationGrantId sourceAuthorityGrantId : string)
  | depth_exceeds_source (depth maxDelegationDepth : Z)
  | beyond_policy_horizon (hops : Z).

Record DelegationLineageAssessment := {
  la_rooted : bool;
  la_breach : option DelegationLineageBreach;
  la_chainRefs : list string;
}.

Definition NO_DELEGATION_LINEAGE : DelegationLineageAssessment := {| la_rooted := true; la_breach := None; la_chainRefs := [] |}.
Definition breached (refs : list string) (b : DelegationLineageBreach) : DelegationLineageAssessment :=
  {| la_rooted := false; la_breach := Some b; la_chainRefs := refs |}.

Record DelegationLineageSource := {
  ls_id : string;
  ls_holderActorId : string;
  ls_actions : list string;
  ls_is_grant : bool;
  ls_canDelegateFurther : bool;
  ls_maxDelegationDepth : option Z;
}.
Definition lineageSourceFromGrant (g : AuthorityGrant) : DelegationLineageSource := {|
  ls_id := g_id g; ls_holderActorId := g_subjectActorId g; ls_actions := g_actions g; ls_is_grant := true;
  ls_canDelegateFurther := g_canDelegate g; ls_maxDelegationDepth := g_maxDelegationDepth g |}.
Definition lineageSourceFromDelegation (d : DelegationGrant) : DelegationLineageSource := {|
  ls_id := d_id d; ls_holderActorId := d_delegateActorId d; ls_actions := d_actions d; ls_is_grant := false;
  ls_canDelegateFurther := d_canRedelegate d; ls_maxDelegationDepth := None |}.

Definition lineage_resolveSource (s : AuthorityGraphStore) (id : string) : option DelegationLineageSource :=
  match getGrant s id with
  | Some g => Some (lineageSourceFromGrant g)
  | None => lineageSourceFromDelegation <$> getDelegation s id
  end.

(** The walk over [parentGrantId]. [refs] is [chainRefs], whose elements are
    exactly the visited ids, and [hops] is their number; [room] is
    [MAX_ANCESTRY_HOPS + 1 - hops], so [O] is [hops > MAX_ANCESTRY_HOPS]. *)
Fixpoint assertGrantRooted (s : AuthorityGraphStore) (room : nat) (currentId : string) (refs : list string) :
    DelegationLineageAssessment :=
  match room with
  | O => breached refs (beyond_policy_horizon (Z.of_nat (length refs)))
  | S room =>
      if includes refs currentId then breached refs (lineage_cycle currentId)
      else
        let refs := refs ++ [currentId] in
        match getGrant s currentId with
        | None => breached refs (source_missing currentId currentId)
        | Some g =>
            match g_parentGrantId g with
            | None => {| la_rooted := true; la_breach := None; la_chainRefs := refs |}
            | Some parentId =>
                match getGrant s parentId with
                | None => breached refs (source_missing (g_id g) parentId)
                | Some _ => assertGrantRooted s room parentId refs
                end
            end
        end
  end.

Fixpoint walk_delegations (s : AuthorityGraphStore) (terminalDepth : Z) (room : nat) (current : DelegationGrant) (refs : list string) :
    DelegationLineageAssessment :=
  match room with
  | O => breached refs (beyond_policy_horizon (Z.of_nat (length refs)))
  | S room =>
      if includes refs (d_id current) then breached refs (lineage_cycle (d_id current))
      else
        let refs := refs ++ [d_id current] in
        match lineage_resolveSource s (d_sourceAuthorityGrantId current) with
        | None => breached refs (source_missing (d_id current) (d_sourceAuthorityGrantId current))
        | Some source =>
            if negb (str_eqb (d_delegatorActorId current) (ls_holderActorId source)) then
              breached refs (delegator_not_source_holder (d_id current) (d_delegatorActorId current) (ls_holderActorId source))
            else if negb (ls_canDelegateFurther source) then breached refs (source_not_delegable (d_id current) (ls_id source))
            else match List.find (λ a, negb (includes (ls_actions source) a)) (d_actions current) with
            | Some widerAction => breached refs (action_expanded (d_id current) widerAction)
            | None =>
                if ls_is_grant source then
                  let ceiling := default 0 (ls_maxDelegationDepth source) in
                  if ceiling <? terminalDepth then breached refs (depth_exceeds_source terminalDepth ceiling)
                  else assertGrantRooted s room (ls_id source) refs
                else match getDelegation s (ls_id source) with
                | None => breached refs (source_missing (default "" (last refs)) (ls_id source))
                | Some next => walk_delegations s terminalDepth room next refs
                end
            end
        end
  end.

Definition lineage_assess (s : AuthorityGraphStore) (gs : list AuthorityGrant) (ds : list DelegationGrant) : DelegationLineageAssessment :=
  match ds with
  | d :: _ => walk_delegations s (d_delegationDepth d) (S MAX_ANCESTRY_HOPS) d []
  | [] =>
      match gs with
      | [] => NO_DELEGATION_LINEAGE
      | g :: _ => assertGrantRooted s (S MAX_ANCESTRY_HOPS) (g_id g) []
      end
  end.

(** ** The policies *)

Inductive AuthorityDecisionType :=
  | authority_valid
  | authority_missing
  | issuer_not_authorized
  | delegation_not_allowed
  | delegation_depth_exceeded
  | scope_expansion_detected
  | non_delegable_action
  | ancestor_revoked
  | ancestor_expired
  | self_issuance_detected
  | delegation_lineage_broken
  | cross_domain_authority_denied.
#[export] Instance AuthorityDecisionType_eq_dec : EqDecision AuthorityDecisionType.
Proof. solve_decision. Defined.

Record AuthorityPolicyContext := {
  pc_now : string;
  pc_chain : AuthorityChain;
  pc_rootIssuerAccepted : bool;
  pc_crossDomainAccepted : bool;
  pc_lineage : DelegationLineageAssessment;
}.

(** What a policy answers: [None] when it passes, the reason code and the
    decision type when it does not. *)
Definition PolicyOutcome : Type := option (string * AuthorityDecisionType).
Definition deny (reasonCode : string) (t : AuthorityDecisionType) : PolicyOutcome := Some (reasonCode, t).

Definition AuthorityChainRequiredPolicy (r : AuthorityChainRequest) (c : AuthorityPolicyContext) : PolicyOutcome :=
  match ch_status (pc_chain c) with
  | chain_invalid | chain_partial => deny "AUTHORITY_CHAIN_MISSING" authority_missing
  | chain_valid => None
  end.

Definition SelfIssuancePolicy (r : AuthorityChainRequest) (c : AuthorityPolicyContext) : PolicyOutcome :=
  if existsb (λ g, str_eqb (g_issuerActorId g) (g_subjectActorId g)) (ch_grants (pc_chain c))
  then deny "SELF_ISSUED_AUTHORITY_GRANT" self_issuance_detected
  else if existsb (λ d, str_eqb (d_delegatorActorId d) (d_delegateActorId d)) (ch_delegations (pc_chain c))
  then deny "SELF_ISSUED_DELEGATION_GRANT" self_issuance_detected
  else None.

(** The pairs [grants[i]], [grants[i + 1]]. *)
Fixpoint issuers_hold (gs : list AuthorityGrant) : bool :=
  match gs with
  | child :: (parent :: _) as rest => str_eqb (g_issuerActorId child) (g_subjectActorId parent) && issuers_hold rest
  | _ => true
  end.

Definition IssuerAuthorityPolicy (r : AuthorityChainRequest) (c : AuthorityPolicyContext) : PolicyOutcome :=
  match last (ch_grants (pc_chain c)) with
  | None => None
  | Some rootGrant =>
      if negb (issuers_hold (ch_grants (pc_chain c))) then deny "ISSUER_DOES_NOT_HOLD_PARENT_AUTHORITY" issuer_not_authorized
      else if negb (is_some (g_parentGrantId rootGrant)) && negb (pc_rootIssuerAccepted c)
      then deny "ROOT_ISSUER_NOT_ACCEPTED" issuer_not_authorized
      else None
  end.

Definition withdrawn (s : RecordStatus) : bool := bool_decide (s = as_revoked) || bool_decide (s = as_suspended).
Definition AncestorRevocationPolicy (r : AuthorityChainRequest) (c : AuthorityPolicyContext) : PolicyOutcome :=
  if existsb (λ g, withdrawn (g_status g)) (ch_grants (pc_chain c)) then deny "ANCESTOR_AUTHORITY_GRANT_REVOKED" ancestor_revoked
  else if existsb (λ d, withdrawn (d_status d)) (ch_delegations (pc_chain c)) then deny "ANCESTOR_DELEGATION_GRANT_REVOKED" ancestor_revoked
  else None.

(** [expiresAt !== undefined && expiresAt <= now] is a comparison of texts. *)
Definition lapsed (s : RecordStatus) (expiresAt : option string) (now : string) : bool :=
  bool_decide (s = as_expired) || match expiresAt with Some e => negb (str_ltb now e) | None => false end.
Definition AncestorExpirationPolicy (r : AuthorityChainRequest) (c : AuthorityPolicyContext) : PolicyOutcome :=
  if existsb (λ g, lapsed (g_status g) (g_expiresAt g) (pc_now c)) (ch_grants (pc_chain c))
  then deny "ANCESTOR_AUTHORITY_GRANT_EXPIRED" ancestor_expired
  else if existsb (λ d, lapsed (d_status d) (d_expiresAt d) (pc_now c)) (ch_delegations (pc_chain c))
  then deny "ANCESTOR_DELEGATION_GRANT_EXPIRED" ancestor_expired
  else None.

Definition describe_breach (b : DelegationLineageBreach) : string * AuthorityDecisionType :=
  match b with
  | source_missing _ _ => ("DELEGATION_SOURCE_AUTHORITY_MISSING", delegation_lineage_broken)
  | lineage_cycle _ => ("DELEGATION_LINEAGE_CYCLE", delegation_lineage_broken)
  | delegator_not_source_holder _ _ _ => ("DELEGATOR_DOES_NOT_HOLD_SOURCE_AUTHORITY", issuer_not_authorized)
  | action_expanded _ _ => ("DELEGATION_ACTION_EXCEEDS_PARENT", scope_expansion_detected)
  | source_not_delegable _ _ => ("SOURCE_AUTHORITY_NOT_DELEGABLE", delegation_not_allowed)
  | depth_exceeds_source _ _ => ("DELEGATION_DEPTH_EXCEEDS_SOURCE_AUTHORITY", delegation_depth_exceeded)
  | beyond_policy_horizon _ => ("DELEGATION_LINEAGE_BEYOND_POLICY_HORIZON", delegation_lineage_broken)
  end.
Definition DelegationLineagePolicy (r : AuthorityChainRequest) (c : AuthorityPolicyContext) : PolicyOutcome :=
  match la_breach (pc_lineage c) with
  | Some b => Some (describe_breach b)
  | None => if la_rooted (pc_lineage c) then None else deny "DELEGATION_LINEAGE_UNROOTED" delegation_lineage_broken
  end.

(** [requested === scope || requested.startsWith(`${scope}:`)] for some scope. *)
Definition isInScope (requested : string) (granted : list string) : bool :=
  existsb (λ scope, str_eqb requested scope || String.prefix (scope +:+ ":") requested) granted.

(** The containment of each delegation in its parent, [delegations[i + 1] ??
    grants[0]]. *)
Fixpoint scopes_contained (ds : list DelegationGrant) (grantScopes : option (list string)) : bool :=
  match ds with
  | [] => true
  | d :: rest =>
      match (match rest with p :: _ => Some (d_resourceScopes p) | [] => grantScopes end) with
      | Some parentScopes => forallb (λ scope, isInScope scope parentScopes) (d_resourceScopes d)
      | None => true
      end && scopes_contained rest grantScopes
  end.

Definition terminal_scopes (c : AuthorityChain) : option (list string) :=
  match ch_delegations c, ch_grants c with
  | d :: _, _ => Some (d_resourceScopes d)
  | [], g :: _ => Some (g_resourceScopes g)
  | [], [] => None
  end.
Definition DelegationScopePolicy (r : AuthorityChainRequest) (c : AuthorityPolicyContext) : PolicyOutcome :=
  match terminal_scopes (pc_chain c) with
  | None => None
  | Some scopes =>
      if negb (isInScope (cr_resourceScope r) scopes) then deny "RESOURCE_SCOPE_NOT_GRANTED" scope_expansion_detected
      else if negb (scopes_contained (ch_delegations (pc_chain c)) (g_resourceScopes <$> head (ch_grants (pc_chain c))))
      then deny "DELEGATION_SCOPE_EXCEEDS_PARENT" scope_expansion_detected
      else None
  end.

Definition DelegationDepthPolicy (r : AuthorityChainRequest) (c : AuthorityPolicyContext) : PolicyOutcome :=
  if existsb (λ d, default 0 (d_maxDelegationDepth d) <? d_delegationDepth d) (ch_delegations (pc_chain c))
  then deny "DELEGATION_DEPTH_EXCEEDED" delegation_depth_exceeded
  else if existsb (λ parent, negb (d_canRedelegate parent)) (tail (ch_delegations (pc_chain c)))
  then deny "REDELEGATION_NOT_PERMITTED" delegation_not_allowed
  else None.

Definition NonDelegableActionPolicy (r : AuthorityChainRequest) (c : AuthorityPolicyContext) : PolicyOutcome :=
  match ch_delegations (pc_chain c) with
  | [] => None
  | ds =>
      if existsb (λ l, includes (default [] l) (cr_action r))
           ((d_nonDelegableActions <$> ds) ++ (g_nonDelegableActions <$> ch_grants (pc_chain c)))
      then deny "ACTION_NON_DELEGABLE" non_delegable_action
      else None
  end.

Definition CrossDomainAuthorityPolicy (r : AuthorityChainRequest) (c : AuthorityPolicyContext) : PolicyOutcome :=
  if pc_crossDomainAccepted c then None
  else if existsb (λ t, negb (str_eqb t (cr_trustDomainId r)))
            ((g_trustDomainId <$> ch_grants (pc_chain c)) ++ (d_trustDomainId <$> ch_delegations (pc_chain c)))
  then deny "AUTHORITY_CROSSES_TRUST_DOMAIN" cross_domain_authority_denied
  else None.

Definition createDefaultAuthorityPolicyChain : list (AuthorityChainRequest → AuthorityPolicyContext → PolicyOutcome) :=
  [AuthorityChainRequiredPolicy; SelfIssuancePolicy; IssuerAuthorityPolicy; AncestorRevocationPolicy; AncestorExpirationPolicy;
   DelegationLineagePolicy; DelegationScopePolicy; DelegationDepthPolicy; NonDelegableActionPolicy; CrossDomainAuthorityPolicy].

(** The first policy that does not pass decides. *)
Fixpoint first_denial (ps : list (AuthorityChainRequest → AuthorityPolicyContext → PolicyOutcome))
    (r : AuthorityChainRequest) (c : AuthorityPolicyContext) : PolicyOutcome :=
  match ps with
  | [] => None
  | p :: ps => match p r c with Some denial => Some denial | None => first_denial ps r c end
  end.

(** The context of an evaluation over the store at an instant. *)
Definition policy_context (s : AuthorityGraphStore) (r : AuthorityChainRequest) (chain : AuthorityChain) (now : string) : AuthorityPolicyContext := {|
  pc_now := now; pc_chain := chain;
  pc_rootIssuerAccepted := match last (ch_grants chain) with
    | Some rootGrant => isRootIssuer s (ch_trustDomainId chain) (g_issuerActorId rootGrant)
    | None => false
    end;
  pc_crossDomainAccepted := isCrossDomainAuthorityAccepted s (cr_trustDomainId r);
  pc_lineage := lineage_assess s (ch_grants chain) (ch_delegations chain) |}.

Definition decide_chain (s : AuthorityGraphStore) (r : AuthorityChainRequest) (chain : AuthorityChain) (now : string) : AuthorityDecisionType * string :=
  match first_denial createDefaultAuthorityPolicyChain r (policy_context s r chain now) with
  | Some (reasonCode, t) => (t, reasonCode)
  | None => (authority_valid, "AUTHORITY_CHAIN_VALID")
  end.

(** ** Legitimate lines of authority

    What the walk is for, stated over the store without hop counters or visited
    sets: grants linked by parent to a grant that names none, and delegations
    handed over by the holder of what they derive from. *)

Definition graph_ok (s : AuthorityGraphStore) : Prop := filed g_id (grants s) ∧ filed d_id (delegations s).

Inductive grant_line (s : AuthorityGraphStore) : list AuthorityGrant → Prop :=
  | gl_root g : getGrant s (g_id g) = Some g → g_parentGrantId g = None → grant_line s [g]
  | gl_child g p rest : getGrant s (g_id g) = Some g → g_parentGrantId g = Some (g_id p) →
      grant_line s (p :: rest) → grant_line s (g :: p :: rest).

Definition handed_over (d : DelegationGrant) (source : DelegationLineageSource) : Prop :=
  d_sourceAuthorityGrantId d = ls_id source ∧ d_delegatorActorId d = ls_holderActorId source ∧
  ls_canDelegateFurther source = true ∧ ∀ a, a ∈ d_actions d → a ∈ ls_actions source.

Inductive delegation_line (s : AuthorityGraphStore) : list DelegationGrant → list AuthorityGrant → Prop :=
  | dl_grant d g gs : handed_over d (lineageSourceFromGrant g) → grant_line s (g :: gs) → delegation_line s [d] (g :: gs)
  | dl_hop d p ds gs : handed_over d (lineageSourceFromDelegation p) → getGrant s (d_id p) = None →
      getDelegation s (d_id p) = Some p → delegation_line s (p :: ds) gs → delegation_line s (d :: p :: ds) gs.

Definition refs_of (ds : list DelegationGrant) (gs : list AuthorityGrant) : list string := (d_id <$> ds) ++ (g_id <$> gs).

Ltac count_refs := unfold refs_of in *; rewrite ?length_app, ?length_fmap in *; cbn [length fmap list_fmap] in *; rewrite ?length_fmap in *; lia.

Lemma includes_true l x : includes l x = true ↔ x ∈ l.
Proof. apply bool_decide_eq_true. Qed.
Lemma includes_false l x : includes l x = false ↔ x ∉ l.
Proof. apply bool_decide_eq_false. Qed.

Lemma grant_line_head s g gs : grant_line s (g :: gs) → getGrant s (g_id g) = Some g.
Proof. by inversion 1. Qed.

Lemma NoDup_snoc_fresh (refs : list string) i : NoDup refs → includes refs i = false → NoDup (refs ++ [i]).
Proof.
  intros Hn Hi%includes_false. apply NoDup_app. split; [done|]. split; [|apply NoDup_singleton].
  by intros x Hx ->%list_elem_of_singleton.
Qed.

Section Walk.
Context (s : AuthorityGraphStore) (Hok : graph_ok s).

Lemma getGrant_id i g : getGrant s i = Some g → g_id g = i.
Proof. apply Hok. Qed.
Lemma getDelegation_id i d : getDelegation s i = Some d → d_id d = i.
Proof. apply Hok. Qed.

Definition rooted_with (refs : list string) : DelegationLineageAssessment := {| la_rooted := true; la_breach := None; la_chainRefs := refs |}.

(** The grant walk answers rooted exactly along a line of grants that meets no
    id twice and fits what remains of the horizon. *)
Lemma assertGrantRooted_exact room i refs out :
  NoDup refs →
  assertGrantRooted s room i refs = rooted_with out ↔
  ∃ g gs, g_id g = i ∧ grant_line s (g :: gs) ∧ out = refs ++ (g_id <$> g :: gs) ∧ NoDup out ∧ (length (g :: gs) ≤ room)%nat.
Proof.
  revert i refs. induction room as [|room IH]; intros i refs Hnd; cbn [assertGrantRooted].
  { split; [done|]. intros (g&gs&_&_&_&_&Hl). cbn in Hl. lia. }
  destruct (includes refs i) eqn:Hi.
  { split; [done|]. intros (g&gs&<-&_&->&Hn&_). apply includes_true in Hi. apply NoDup_app in Hn as (_&Hn&_).
    destruct (Hn _ Hi). by left. }
  pose proof (NoDup_snoc_fresh _ _ Hnd Hi) as Hnd'. destruct (getGrant s i) as [g|] eqn:Hg; cycle 1.
  { split; [done|]. intros (g&gs&<-&Hl&_). apply grant_line_head in Hl. congruence. }
  pose proof (getGrant_id _ _ Hg) as Eid. destruct (g_parentGrantId g) as [p|] eqn:Hp.
  - destruct (getGrant s p) as [pg|] eqn:Hpg.
    + rewrite (IH _ _ Hnd'). pose proof (getGrant_id _ _ Hpg) as Ep. split.
      * intros (g'&gs&Eg'&Hl&->&Hn&Hlen). pose proof (grant_line_head _ _ _ Hl) as Hg'. rewrite Eg' in Hg'. rewrite Hpg in Hg'. injection Hg' as <-.
        exists g, (pg :: gs). split; [done|]. split; [constructor; [by rewrite Eid|by rewrite Ep|done]|].
        split; [cbn; by rewrite <-app_assoc, Eid|]. split; [done|]. cbn in *. lia.
      * intros (g'&gs&Eg'&Hl&->&Hn&Hlen). pose proof (grant_line_head _ _ _ Hl) as Hg'. rewrite Eg', Hg in Hg'. injection Hg' as <-.
        inversion Hl as [g0 H1 H2|g0 p0 rest H1 H2 H3]; subst; [congruence|]. rewrite Hp in H2. injection H2 as ->.
        exists p0, rest. split; [done|]. split; [done|]. split; [cbn; by rewrite <-app_assoc|]. split; [done|]. cbn in *. lia.
    + split; [done|]. intros (g'&gs&Eg'&Hl&_). pose proof (grant_line_head _ _ _ Hl) as Hg'. rewrite Eg', Hg in Hg'. injection Hg' as <-.
      inversion Hl as [g0 H1 H2|g0 p0 rest H1 H2 H3]; subst; [congruence|]. rewrite Hp in H2. injection H2 as ->.
      apply grant_line_head in H3. congruence.
  - split.
    + intros [= <-]. exists g, []. split; [done|]. split; [constructor; [by rewrite Eid|done]|]. cbn. rewrite Eid.
      split; [done|]. split; [done|]. lia.
    + intros (g'&gs&Eg'&Hl&->&_&_). pose proof (grant_line_head _ _ _ Hl) as Hg'. rewrite Eg', Hg in Hg'. injection Hg' as <-.
      inversion Hl as [g0 H1 H2|g0 p0 rest H1 H2 H3]; subst; [done|congruence].
Qed.

Lemma find_wider_None (src l : list string) :
  List.find (λ a, negb (includes src a)) l = None ↔ ∀ a, a ∈ l → a ∈ src.
Proof.
  split.
  - intros Hf a Ha%list_elem_of_In. pose proof (List.find_none _ _ Hf a Ha) as Hn. cbn in Hn. apply negb_false_iff in Hn. by apply includes_true.
  - intros Ha. destruct (List.find _ l) as [x|] eqn:E; [|done]. apply List.find_some in E as [Hin Hn].
    apply list_elem_of_In, Ha, includes_true in Hin. by rewrite Hin in Hn.
Qed.

Definition ceiling_ok (terminalDepth : Z) (gs : list AuthorityGrant) : Prop :=
  match gs with g :: _ => terminalDepth ≤ default 0 (g_maxDelegationDepth g) | [] => False end.

(** The checks of one hop against its source pass exactly when it was handed
    over; anything else is a breach. *)
Lemma hop_exact d src refs b1 b2 b3 (rest : DelegationLineageAssessment) out :
  d_sourceAuthorityGrantId d = ls_id src →
  (if negb (str_eqb (d_delegatorActorId d) (ls_holderActorId src)) then breached refs b1
   else if negb (ls_canDelegateFurther src) then breached refs b2
   else match List.find (λ a, negb (includes (ls_actions src) a)) (d_actions d) with
        | Some w => breached refs (b3 w) | None => rest end) = rooted_with out ↔
  handed_over d src ∧ rest = rooted_with out.
Proof.
  intros Hsrc. unfold handed_over. destruct (str_eqb _ _) eqn:Eh; cbn [negb]; split_and_bool; [|by split; [|intros [(_&?&_) _]]].
  destruct (ls_canDelegateFurther src) eqn:Ec; cbn [negb]; [|by split; [|intros [(_&_&?&_) _]]].
  destruct (List.find _ _) as [w|] eqn:Ef.
  - split; [done|]. intros [(_&_&_&Ha) _]. rewrite (proj2 (find_wider_None _ _) Ha) in Ef. done.
  - pose proof (proj1 (find_wider_None _ _) Ef). tauto.
Qed.

(** A line is determined by what its first hop's source resolves to. *)
Lemma line_from_grant d g ds gs : getGrant s (d_sourceAuthorityGrantId d) = Some g →
  delegation_line s (d :: ds) gs ↔ ds = [] ∧ handed_over d (lineageSourceFromGrant g) ∧ ∃ gs', gs = g :: gs' ∧ grant_line s (g :: gs').
Proof.
  intros Hg. split; [|intros (->&?&gs'&->&?); by constructor].
  inversion 1 as [d0 g0 gs0 Hh Hgl|d0 p ds0 gs0 [Hsrc _] Hn Hs Hd]; subst; [|cbn in Hsrc; congruence].
  pose proof (grant_line_head _ _ _ Hgl) as Hg0. pose proof Hh as [Hsrc _]. cbn in Hsrc.
  rewrite Hsrc, Hg0 in Hg. injection Hg as ->. eauto.
Qed.
Lemma line_from_delegation d p ds gs :
  getGrant s (d_sourceAuthorityGrantId d) = None → getDelegation s (d_sourceAuthorityGrantId d) = Some p →
  delegation_line s (d :: ds) gs ↔ ∃ ds', ds = p :: ds' ∧ handed_over d (lineageSourceFromDelegation p) ∧ delegation_line s (p :: ds') gs.
Proof.
  intros Hg Hp. pose proof (getDelegation_id _ _ Hp) as Ep. split.
  - inversion 1 as [d0 g0 gs0 [Hsrc _] Hgl|d0 p' ds0 gs0 Hh Hn Hs Hd]; subst.
    + cbn in Hsrc. apply grant_line_head in Hgl. congruence.
    + pose proof Hh as [Hsrc _]. cbn in Hsrc. rewrite Hsrc, Hs in Hp. injection Hp as ->. eauto.
  - intros (ds'&->&Hh&Hl). constructor; [done|congruence|congruence|done].
Qed.
Lemma line_from_nothing d ds gs :
  getGrant s (d_sourceAuthorityGrantId d) = None → getDelegation s (d_sourceAuthorityGrantId d) = None → ¬ delegation_line s (d :: ds) gs.
Proof.
  intros Hg Hp. inversion 1 as [d0 g0 gs0 [Hsrc _] Hgl|d0 p' ds0 gs0 [Hsrc _] Hn Hs Hd]; subst; cbn in Hsrc; [|congruence].
  apply grant_line_head in Hgl. congruence.
Qed.

Lemma walk_delegations_exact td room d refs out :
  NoDup refs →
  walk_delegations s td room d refs = rooted_with out ↔
  ∃ ds gs, delegation_line s (d :: ds) gs ∧ ceiling_ok td gs ∧ out = refs ++ refs_of (d :: ds) gs ∧ NoDup out ∧
    (length (refs_of (d :: ds) gs) ≤ room)%nat.
Proof.
  revert d refs. induction room as [|room IH]; intros d refs Hnd; cbn [walk_delegations].
  { split; [done|]. intros (ds&gs&_&_&_&_&Hl). cbn in Hl. lia. }
  destruct (includes refs (d_id d)) eqn:Hi.
  { split; [done|]. intros (ds&gs&_&_&->&Hn&_). apply includes_true in Hi. apply NoDup_app in Hn as (_&Hn&_).
    destruct (Hn _ Hi). by left. }
  pose proof (NoDup_snoc_fresh _ _ Hnd Hi) as Hnd'. unfold lineage_resolveSource.
  destruct (getGrant s (d_sourceAuthorityGrantId d)) as [g|] eqn:Hg.
  - pose proof (getGrant_id _ _ Hg) as Eg. rewrite hop_exact by done. cbn [lineageSourceFromGrant ls_is_grant ls_maxDelegationDepth ls_id].
    destruct (Z.ltb_spec (default 0 (g_maxDelegationDepth g)) td) as [Hlt|Hle].
    { split; [by intros [_ ?]|]. intros (ds&gs&(_&_&gs'&->&_)%(line_from_grant _ _ _ _ Hg)&Hc&_). cbn in Hc. lia. }
    rewrite (assertGrantRooted_exact _ _ _ _ Hnd'). split.
    + intros [Hh (g'&gs&Eg'&Hl&->&Hn&Hlen)]. pose proof (grant_line_head _ _ _ Hl) as Hg'. rewrite Eg', Eg, Hg in Hg'. injection Hg' as <-.
      exists [], (g :: gs). split; [by constructor|]. split; [done|]. split; [by rewrite <-app_assoc|]. split; [done|]. count_refs.
    + intros (ds&gs&(->&Hh&gs'&->&Hl)%(line_from_grant _ _ _ _ Hg)&_&->&Hn&Hlen). split; [done|]. exists g, gs'. split; [done|].
      split; [done|]. split; [by rewrite <-app_assoc|]. split; [done|]. count_refs.
  - destruct (getDelegation s (d_sourceAuthorityGrantId d)) as [p|] eqn:Hp; cbn [fmap option_fmap option_map]; cycle 1.
    { split; [done|]. by intros (ds&gs&Hl%line_from_nothing&_). }
    pose proof (getDelegation_id _ _ Hp) as Ep. rewrite hop_exact by done.
    cbn [lineageSourceFromDelegation ls_is_grant ls_id]. rewrite Ep, Hp, (IH _ _ Hnd'). split.
    + intros [Hh (ds&gs&Hl&Hc&->&Hn&Hlen)]. exists (p :: ds), gs. split; [apply (line_from_delegation _ _ _ _ Hg Hp); eauto|].
      split; [done|]. split; [by rewrite <-app_assoc|]. split; [done|]. count_refs.
    + intros (ds&gs&(ds'&->&Hh&Hl)%(line_from_delegation _ _ _ _ Hg Hp)&Hc&->&Hn&Hlen). split; [done|]. exists ds', gs.
      split; [done|]. split; [done|]. split; [by rewrite <-app_assoc|]. split; [done|]. count_refs.
Qed.

End Walk.

(** ** The resolver materializes exactly the line *)

Lemma grant_parents_line s room g gs :
  getGrant s "" = None → grant_line s (g :: gs) → (length gs ≤ room)%nat → grant_parents s room g = gs.
Proof.
  intros Hempty. revert room g. induction gs as [|p gs IH]; intros room g Hl Hlen; inversion Hl as [g0 H1 H2|g0 p0 rest H1 H2 H3]; subst.
  - destruct room; cbn; [done|]. by rewrite H2.
  - destruct room as [|room]; [cbn in Hlen; lia|]. cbn. rewrite H2. pose proof (grant_line_head _ _ _ H3) as Hp.
    destruct (nonempty (g_id p)) eqn:En; [|destruct (g_id p); [congruence|done]]. rewrite Hp. f_equal. apply IH; [done|]. cbn in Hlen. lia.
Qed.

Lemma delegation_sources_line s room d ds gs :
  getGrant s "" = None → delegation_line s (d :: ds) gs → (S (length ds) ≤ room)%nat → (length gs ≤ S MAX_ANCESTRY_HOPS)%nat →
  delegation_sources s room (d_sourceAuthorityGrantId d) = (ds, gs).
Proof.
  intros Hempty. revert room d. induction ds as [|p ds IH]; intros room d Hl Hlen Hg;
    inversion Hl as [d0 g0 gs0 [Hsrc _] Hgl|d0 p' ds0 gs0 [Hsrc _] Hn Hs Hd]; subst; cbn in Hsrc;
    (destruct room as [|room]; [cbn in Hlen; lia|]); cbn [delegation_sources]; rewrite Hsrc.
  - rewrite (grant_line_head _ _ _ Hgl). unfold collectGrantAncestry. rewrite (grant_parents_line _ _ _ _ Hempty Hgl); [done|].
    cbn [length] in Hg. lia.
  - rewrite Hn, Hs, (IH room p Hd); [done|cbn [length] in Hlen; lia|done].
Qed.

(** ** What each policy demands *)

Lemma existsb_false_Forall {A} (p : A → bool) l : existsb p l = false ↔ Forall (λ x, p x = false) l.
Proof.
  induction l as [|x l IH]; cbn; [done|]. rewrite orb_false_iff, IH, Forall_cons. done.
Qed.
Lemma deny_iff (b : bool) code t (rest : PolicyOutcome) : (if b then deny code t else rest) = None ↔ b = false ∧ rest = None.
Proof. destruct b; naive_solver. Qed.

Definition live (st : RecordStatus) (expiresAt : option string) (now : string) : Prop :=
  st = as_active ∧ ∀ e, expiresAt = Some e → str_ltb now e = true.

Lemma live_iff st e now : withdrawn st = false ∧ lapsed st e now = false ↔ live st e now.
Proof.
  unfold withdrawn, lapsed, live. split.
  - intros [Hw Hl]. destruct st; try done. split; [done|]. intros e' ->. cbn in Hl. by apply negb_false_iff.
  - intros [-> He]. destruct e as [e|]; [|done]. cbn. by rewrite (He e eq_refl).
Qed.

Lemma first_denial_None ps r c : first_denial ps r c = None ↔ Forall (λ p, p r c = None) ps.
Proof.
  induction ps as [|p ps IH]; cbn; [done|]. rewrite Forall_cons, <-IH. destruct (p r c); naive_solver.
Qed.

Definition hand_to_hand (gs : list AuthorityGrant) : Prop :=
  ∀ i c p, gs !! i = Some c → gs !! S i = Some p → g_issuerActorId c = g_subjectActorId p.

Lemma issuers_hold_iff gs : issuers_hold gs = true ↔ hand_to_hand gs.
Proof.
  unfold hand_to_hand. induction gs as [|c [|p gs] IH].
  - split; [done|]. done.
  - split; [|done]. intros _ [|i] ? ? _ Hp; done.
  - change (issuers_hold (c :: p :: gs)) with (str_eqb (g_issuerActorId c) (g_subjectActorId p) && issuers_hold (p :: gs)).
    rewrite andb_true_iff, str_eqb_eq, IH. split.
    + intros [E Hr] [|i] c' p' Hc Hp; [cbn in *; congruence|by apply (Hr i)].
    + intros Hr. split; [by apply (Hr 0%nat)|]. intros i c' p'. apply (Hr (S i)).
Qed.

(** A chain that stands at an instant. *)
Record legitimate (s : AuthorityGraphStore) (r : AuthorityChainRequest) (now : string)
    (gs : list AuthorityGrant) (ds : list DelegationGrant) : Prop := {
  lg_line : match ds with
    | [] => grant_line s gs
    | d :: _ => delegation_line s ds gs ∧ ceiling_ok (d_delegationDepth d) gs
    end;
  lg_unrepeated : NoDup (refs_of ds gs);
  lg_horizon : (length (refs_of ds gs) ≤ S MAX_ANCESTRY_HOPS)%nat;
  lg_not_self : Forall (λ g, g_issuerActorId g ≠ g_subjectActorId g) gs ∧ Forall (λ d, d_delegatorActorId d ≠ d_delegateActorId d) ds;
  lg_issuers : hand_to_hand gs;
  lg_root : ∃ root, last gs = Some root ∧ isRootIssuer s (cr_trustDomainId r) (g_issuerActorId root) = true;
  lg_live : Forall (λ g, live (g_status g) (g_expiresAt g) now) gs ∧ Forall (λ d, live (d_status d) (d_expiresAt d) now) ds;
  lg_resource : match ds, gs with
    | d :: _, _ => isInScope (cr_resourceScope r) (d_resourceScopes d) = true
    | [], g :: _ => isInScope (cr_resourceScope r) (g_resourceScopes g) = true
    | [], [] => False
    end;
  lg_scopes : scopes_contained ds (g_resourceScopes <$> head gs) = true;
  lg_depth : Forall (λ d, d_delegationDepth d ≤ default 0 (d_maxDelegationDepth d)) ds;
  lg_delegable : ds = [] ∨ Forall (λ l, cr_action r ∉ default [] l) ((d_nonDelegableActions <$> ds) ++ (g_nonDelegableActions <$> gs));
  lg_domain : isCrossDomainAuthorityAccepted s (cr_trustDomainId r) = true ∨
    Forall (λ t, t = cr_trustDomainId r) ((g_trustDomainId <$> gs) ++ (d_trustDomainId <$> ds));
}.

Section Policies.
Context (s : AuthorityGraphStore) (r : AuthorityChainRequest) (gs : list AuthorityGrant) (ds : list DelegationGrant)
  (st : AuthorityChainStatus) (i created now : string).
Let c := policy_context s r (build_chain r gs ds st i created) now.

Lemma required_passes : AuthorityChainRequiredPolicy r c = None ↔ st = chain_valid.
Proof. unfold AuthorityChainRequiredPolicy. cbn. by destruct st. Qed.

Lemma self_issuance_passes : SelfIssuancePolicy r c = None ↔
  Forall (λ g, g_issuerActorId g ≠ g_subjectActorId g) gs ∧ Forall (λ d, d_delegatorActorId d ≠ d_delegateActorId d) ds.
Proof.
  unfold SelfIssuancePolicy. cbn [pc_chain c policy_context build_chain ch_grants ch_delegations]. rewrite !deny_iff, !existsb_false_Forall.
  setoid_rewrite str_eqb_neq. tauto.
Qed.

Lemma issuer_passes : IssuerAuthorityPolicy r c = None ↔
  ∀ root, last gs = Some root → hand_to_hand gs ∧
    (is_Some (g_parentGrantId root) ∨ isRootIssuer s (cr_trustDomainId r) (g_issuerActorId root) = true).
Proof.
  unfold IssuerAuthorityPolicy. cbn. destruct (last gs) as [root|]; [|naive_solver]. rewrite !deny_iff, negb_false_iff, issuers_hold_iff.
  rewrite andb_false_iff, !negb_false_iff, is_some_true. naive_solver.
Qed.

Lemma liveness_passes : AncestorRevocationPolicy r c = None ∧ AncestorExpirationPolicy r c = None ↔
  Forall (λ g, live (g_status g) (g_expiresAt g) now) gs ∧ Forall (λ d, live (d_status d) (d_expiresAt d) now) ds.
Proof.
  unfold AncestorRevocationPolicy, AncestorExpirationPolicy. cbn [pc_chain c policy_context build_chain ch_grants ch_delegations pc_now].
  rewrite !deny_iff, !existsb_false_Forall.
  setoid_rewrite <-live_iff. rewrite !Forall_and. tauto.
Qed.

Lemma lineage_passes : DelegationLineagePolicy r c = None ↔ la_breach (lineage_assess s gs ds) = None ∧ la_rooted (lineage_assess s gs ds) = true.
Proof.
  unfold DelegationLineagePolicy. cbn [c policy_context build_chain pc_lineage ch_grants ch_delegations].
  destruct (la_breach _), (la_rooted _); naive_solver.
Qed.

Lemma scope_passes : DelegationScopePolicy r c = None ↔
  match ds, gs with
  | d :: _, _ => isInScope (cr_resourceScope r) (d_resourceScopes d) = true ∧ scopes_contained ds (g_resourceScopes <$> head gs) = true
  | [], g :: _ => isInScope (cr_resourceScope r) (g_resourceScopes g) = true
  | [], [] => True
  end.
Proof.
  unfold DelegationScopePolicy. cbn [c policy_context build_chain pc_chain ch_grants ch_delegations terminal_scopes].
  destruct ds as [|d ds']; [destruct gs|]; cbn [terminal_scopes build_chain ch_delegations ch_grants]; [done| |]; rewrite !deny_iff, !negb_false_iff; [|tauto].
  cbn. tauto.
Qed.

Lemma depth_passes : DelegationDepthPolicy r c = None ↔
  Forall (λ d, d_delegationDepth d ≤ default 0 (d_maxDelegationDepth d)) ds ∧ Forall (λ d, d_canRedelegate d = true) (tail ds).
Proof.
  unfold DelegationDepthPolicy. cbn [pc_chain c policy_context build_chain ch_grants ch_delegations]. rewrite !deny_iff, !existsb_false_Forall.
  setoid_rewrite Z.ltb_ge. setoid_rewrite negb_false_iff. tauto.
Qed.

Lemma non_delegable_passes : NonDelegableActionPolicy r c = None ↔
  ds = [] ∨ Forall (λ l, cr_action r ∉ default [] l) ((d_nonDelegableActions <$> ds) ++ (g_nonDelegableActions <$> gs)).
Proof.
  unfold NonDelegableActionPolicy. cbn [pc_chain c policy_context build_chain ch_grants ch_delegations].
  destruct ds as [|d ds']; [by split; [left|]|]. rewrite deny_iff, existsb_false_Forall.
  setoid_rewrite includes_false. naive_solver.
Qed.

Lemma domain_passes : CrossDomainAuthorityPolicy r c = None ↔
  isCrossDomainAuthorityAccepted s (cr_trustDomainId r) = true ∨
  Forall (λ t, t = cr_trustDomainId r) ((g_trustDomainId <$> gs) ++ (d_trustDomainId <$> ds)).
Proof.
  unfold CrossDomainAuthorityPolicy. cbn [pc_chain c policy_context build_chain ch_grants ch_delegations pc_crossDomainAccepted].
  destruct (isCrossDomainAuthorityAccepted _ _); [by split; [left|]|]. rewrite deny_iff, existsb_false_Forall.
  setoid_rewrite negb_false_iff. setoid_rewrite str_eqb_eq. naive_solver.
Qed.

(** No policy denies with the type of a valid decision. *)
Lemma denial_types p code t : p ∈ createDefaultAuthorityPolicyChain → p r c = Some (code, t) → t ≠ authority_valid.
Proof.
  assert (∀ (b : bool) code' t' rest, (if b then deny code' t' else rest) = Some (code, t) → t = t' ∨ rest = Some (code, t)) as Hd.
  { intros [] code' t' rest; [intros [= -> ->]; by left|by right]. }
  assert (∀ (b : bool) t', (if b then None else deny code t') = Some (code, t) → t = t') as _ by (by intros [] t'; [|intros [= ->]]).
  unfold createDefaultAuthorityPolicyChain. rewrite !elem_of_cons, elem_of_nil.
  intros [->|[->|[->|[->|[->|[->|[->|[->|[->|[->|[]]]]]]]]]]].
  - unfold AuthorityChainRequiredPolicy. destruct (ch_status _); try done; by intros [= _ <-].
  - intros [->|[->|[=]]%Hd]%Hd; done.
  - unfold IssuerAuthorityPolicy. destruct (last _); [|done]. intros [->|[->|[=]]%Hd]%Hd; done.
  - intros [->|[->|[=]]%Hd]%Hd; done.
  - intros [->|[->|[=]]%Hd]%Hd; done.
  - unfold DelegationLineagePolicy. destruct (la_breach _) as [[]|]; [by intros [= _ <-]..|]. destruct (la_rooted _); [done|by intros [= _ <-]].
  - unfold DelegationScopePolicy. destruct (terminal_scopes _); [|done]. intros [->|[->|[=]]%Hd]%Hd; done.
  - intros [->|[->|[=]]%Hd]%Hd; done.
  - unfold NonDelegableActionPolicy. destruct (ch_delegations _); [done|]. intros [->|[=]]%Hd; done.
  - unfold CrossDomainAuthorityPolicy. destruct (pc_crossDomainAccepted c); [done|]. intros [->|[=]]%Hd; done.
Qed.

Lemma decide_valid : (decide_chain s r (build_chain r gs ds st i created) now).1 = authority_valid ↔
  Forall (λ p, p r c = None) createDefaultAuthorityPolicyChain.
Proof.
  unfold decide_chain. change (policy_context s r _ now) with c. rewrite <-first_denial_None.
  destruct (first_denial _ r c) as [[code t]|] eqn:E; [|done]. split; [|done]. cbn. intros ->. exfalso.
  assert (∃ p, p ∈ createDefaultAuthorityPolicyChain ∧ p r c = Some (code, authority_valid)) as (p&Hp&Ep); [|by eapply denial_types].
  revert E. generalize createDefaultAuthorityPolicyChain. intros ps. induction ps as [|p ps IH]; [done|]. cbn.
  destruct (p r c) as [x|] eqn:Ep.
  - intros [= ->]. exists p. split; [by left|done].
  - intros (p'&Hp'&E')%IH. exists p'. split; [by right|done].
Qed.

End Policies.

Lemma grant_walk_total s room i refs :
  (∃ out, assertGrantRooted s room i refs = rooted_with out) ∨ ∃ out b, assertGrantRooted s room i refs = breached out b.
Proof.
  revert i refs. induction room as [|room IH]; intros i refs; cbn; [by eauto|]. destruct (includes refs i); [by eauto|].
  destruct (getGrant s i) as [g|]; [|by eauto]. destruct (g_parentGrantId g) as [p|]; [|left; by eexists].
  destruct (getGrant s p); [apply IH|by eauto].
Qed.
Lemma walk_total s td room d refs :
  (∃ out, walk_delegations s td room d refs = rooted_with out) ∨ ∃ out b, walk_delegations s td room d refs = breached out b.
Proof.
  revert d refs. induction room as [|room IH]; intros d refs; cbn [walk_delegations]; [by eauto|]. destruct (includes _ _); [by eauto|].
  destruct (lineage_resolveSource _ _) as [src|]; [|by eauto]. destruct (negb _); [by eauto|]. destruct (negb _); [by eauto|].
  destruct (List.find _ _); [by eauto|]. destruct (ls_is_grant src).
  - destruct (_ <? _); [by eauto|apply grant_walk_total].
  - destruct (getDelegation _ _); [apply IH|by eauto].
Qed.

Local Opaque assertGrantRooted walk_delegations grant_parents delegation_sources MAX_ANCESTRY_HOPS.

Section Exact.
Context (s : AuthorityGraphStore) (Hok : graph_ok s) (Hempty : getGrant s "" = None).

Lemma resolve_valid_shape r gs ds :
  resolve_records s r = (gs, ds, chain_valid) →
  (∃ g, ds = [] ∧ gs = collectGrantAncestry s g ∧ getGrant s (g_id g) = Some g ∧ g_subjectActorId g = cr_actorId r ∧
    g_trustDomainId g = cr_trustDomainId r ∧ cr_action r ∈ g_actions g) ∨
  (∃ d, ds = (collectDelegationAncestry s d).1 ∧ gs = (collectDelegationAncestry s d).2 ∧ getDelegation s (d_id d) = Some d ∧
    d_delegateActorId d = cr_actorId r ∧ d_trustDomainId d = cr_trustDomainId r ∧ cr_action r ∈ d_actions d).
Proof.
  unfold resolve_records. destruct (List.find _ (actor_grants s r)) as [g|] eqn:Eg.
  - intros [= <- <-]. left. exists g. apply List.find_some in Eg as [Hin Ha%includes_true].
    unfold actor_grants, getGrantsBySubjectActor in Hin. rewrite !filter_In in Hin. destruct Hin as [[Hin Hs] Ht]. split_and_bool.
    apply list_elem_of_In, (filed_values g_id) in Hin; [|apply Hok]. done.
  - destruct (List.find _ (actor_delegations s r)) as [d|] eqn:Ed; [|by destruct (actor_grants s r), (actor_delegations s r)].
    destruct (collectDelegationAncestry s d) as [ds0 gs0] eqn:Ec. cbn [fst snd]. intros [= <- <-]. right. exists d. rewrite Ec. apply List.find_some in Ed as [Hin Ha%includes_true].
    unfold actor_delegations, getDelegationsByDelegateActor in Hin. rewrite !filter_In in Hin. destruct Hin as [[Hin Hs] Ht]. split_and_bool.
    apply list_elem_of_In, (filed_values d_id) in Hin; [|apply Hok]. done.
Qed.

(** A rooted lineage is the resolved chain itself: everything the walk vouches
    for was handed to the policies, and nothing else. *)
Lemma lineage_exact r gs ds :
  resolve_records s r = (gs, ds, chain_valid) →
  (la_breach (lineage_assess s gs ds) = None ↔
   match ds with [] => grant_line s gs | d :: _ => delegation_line s ds gs ∧ ceiling_ok (d_delegationDepth d) gs end ∧
   NoDup (refs_of ds gs) ∧ (length (refs_of ds gs) ≤ S MAX_ANCESTRY_HOPS)%nat).
Proof.
  intros [(g&->&->&Hg&_)|(d&->&->&Hd&_)]%resolve_valid_shape.
  - unfold collectGrantAncestry at 1, lineage_assess.
    transitivity (∃ out, assertGrantRooted s (S MAX_ANCESTRY_HOPS) (g_id g) [] = rooted_with out).
    { destruct (grant_walk_total s (S MAX_ANCESTRY_HOPS) (g_id g) []) as [[out E]|(out&b&E)]; rewrite E;
        [split; [intros _; by exists out|intros _; reflexivity]|split; [intros [=]|intros [? [=]]]]. }
    split.
    + intros [out (g'&gs&Eg&Hl&->&Hn&Hlen)%(assertGrantRooted_exact s Hok)]; [|constructor].
      pose proof (grant_line_head _ _ _ Hl) as Hg'. rewrite Eg, Hg in Hg'. injection Hg' as <-.
      unfold collectGrantAncestry. rewrite (grant_parents_line _ _ _ _ Hempty Hl); [|cbn [length] in Hlen; lia].
      split; [done|]. split; [done|]. count_refs.
    + intros (Hl&Hn&Hlen). eexists. apply (assertGrantRooted_exact s Hok); [constructor|].
      exists g, (grant_parents s MAX_ANCESTRY_HOPS g). split; [done|]. split; [done|]. split; [done|]. split; [done|].
      unfold collectGrantAncestry in Hlen. count_refs.
  - assert (lineage_assess s (collectDelegationAncestry s d).2 (collectDelegationAncestry s d).1 =
      walk_delegations s (d_delegationDepth d) (S MAX_ANCESTRY_HOPS) d []) as -> by reflexivity.
    transitivity (∃ out, walk_delegations s (d_delegationDepth d) (S MAX_ANCESTRY_HOPS) d [] = rooted_with out).
    { destruct (walk_total s (d_delegationDepth d) (S MAX_ANCESTRY_HOPS) d []) as [[out E]|(out&b&E)]; rewrite E;
        [split; [intros _; by exists out|intros _; reflexivity]|split; [intros [=]|intros [? [=]]]]. }
    split.
    + intros [out (ds&gs&Hl&Hc&->&Hn&Hlen)%(walk_delegations_exact s Hok)]; [|constructor].
      unfold collectDelegationAncestry. rewrite (delegation_sources_line _ _ _ _ _ Hempty Hl); [done| |].
      * destruct gs as [|g gs]; [done|]. count_refs.
      * count_refs.
    + intros ([Hl Hc]&Hn&Hlen). eexists. apply (walk_delegations_exact s Hok); [constructor|]. cbn [fst snd] in *.
      eexists _, _. split; [exact Hl|]. split; [done|]. split; [done|]. done.
Qed.

Lemma grant_line_last gs : grant_line s gs → ∃ root, last gs = Some root ∧ g_parentGrantId root = None.
Proof. induction 1 as [g _ Hp|g p rest _ _ _ IH]; [by exists g|]. by rewrite last_cons_cons. Qed.

Lemma delegation_line_grants ds gs : delegation_line s ds gs → grant_line s gs.
Proof. by induction 1. Qed.
Lemma delegation_line_redelegable ds gs : delegation_line s ds gs → Forall (λ d, d_canRedelegate d = true) (tail ds).
Proof.
  induction 1 as [d g gs _ _|d p ds gs (_&_&Hc&_) _ _ Hl IH]; [constructor|]. cbn. constructor; [done|done].
Qed.

Lemma line_grants ds gs :
  match ds with [] => grant_line s gs | d :: _ => delegation_line s ds gs ∧ ceiling_ok (d_delegationDepth d) gs end → grant_line s gs.
Proof. destruct ds; [done|]. intros [Hl _]. by apply delegation_line_grants in Hl. Qed.

Lemma breach_None_rooted gs ds : la_breach (lineage_assess s gs ds) = None → la_rooted (lineage_assess s gs ds) = true.
Proof.
  unfold lineage_assess. destruct ds as [|d ds]; [destruct gs as [|g gs]; [done|]|].
  - by destruct (grant_walk_total s (S MAX_ANCESTRY_HOPS) (g_id g) []) as [[out ->]|(out&b&->)].
  - by destruct (walk_total s (d_delegationDepth d) (S MAX_ANCESTRY_HOPS) d []) as [[out ->]|(out&b&->)].
Qed.

(** Verification is exact over any store: a request is valid precisely when the
    resolver finds a chain and that chain stands. *)
Lemma verify_legitimate r now i created gs ds st :
  resolve_records s r = (gs, ds, st) →
  (decide_chain s r (resolved_chain s r i created) now).1 = authority_valid ↔ st = chain_valid ∧ legitimate s r now gs ds.
Proof.
  intros Hr. unfold resolved_chain. rewrite Hr, decide_valid. unfold createDefaultAuthorityPolicyChain.
  rewrite !Forall_cons, Forall_nil, required_passes, self_issuance_passes, issuer_passes, lineage_passes, scope_passes,
    depth_passes, non_delegable_passes, domain_passes.
  pose proof (liveness_passes s r gs ds st i created now) as Hlive. split.
  - intros (->&Hself&Hiss&Hrev&Hexp&[Hb _]&Hscope&[Hdep _]&Hnd&Hdom&_). split; [done|].
    apply (lineage_exact r gs ds Hr) in Hb as (Hl&Hn&Hlen). pose proof (line_grants _ _ Hl) as Hgl.
    destruct (grant_line_last _ Hgl) as (root&Hroot&Hp). destruct (Hiss root Hroot) as [Hhand [[? ?]|Hacc]]; [congruence|].
    assert (∃ g gs', gs = g :: gs') as (g&gs'&Egs) by (inversion Hgl; eauto).
    split; try done; [by exists root|by apply Hlive| |].
    + destruct ds; [by rewrite Egs in Hscope |- *|apply Hscope].
    + destruct ds; [done|apply Hscope].
  - intros [-> [Hl Hn Hlen Hself Hhand (root&Hroot&Hacc) Hlv Hres Hsc Hdep Hnd Hdom]].
    apply Hlive in Hlv as [Hrev Hexp]. assert (la_breach (lineage_assess s gs ds) = None) as Hb by (by apply (lineage_exact r gs ds Hr)).
    repeat (split; [done|]). split; [intros root'; rewrite Hroot; intros [= <-]; auto|]. do 2 (split; [done|]).
    split; [split; [done|by apply breach_None_rooted]|]. split; [destruct ds; [by destruct gs|done]|].
    split; [split; [done|]|done]. destruct ds as [|d ds]; [constructor|]. by apply (delegation_line_redelegable _ gs), Hl.
Qed.

End Exact.
