(* ===== verification/AuthorityRuntime.v ===== *)
(** * The authority graph runtime

    Model of [authority-graph/runtime/authority-graph-runtime.ts] with the
    lineage ledger ([services/authority-lineage-ledger.ts]), the proof service
    ([services/authority-proof-service.ts]) and the verifier
    ([services/authority-chain-verifier.ts]). An operation is a computation in a
    state-and-error monad over the runtime; the clock and the id generator are
    a context whose [n]-th call answers [clock_now n] or [ids_nextId n prefix]. *)

From S2P Require Import Prelude Decimal Js JsMap StableJson AuthorityGraph AuthorityChain.

Local Open Scope Z_scope.
Local Open Scope frontera_scope.

(** ** The records in JSON *)

Definition opt_json {A} (f : A → Json) (o : option A) : Json := match o with Some a => f a | None => JUndef end.

Definition status_text (s : RecordStatus) : string :=
  match s with as_active => "active" | as_expired => "expired" | as_suspended => "suspended" | as_revoked => "revoked" end.
Definition actor_type_text (t : AuthorityActorType) : string :=
  match t with at_human => "human" | at_organization => "organization" | at_agent => "agent" | at_system => "system" end.
Definition window_json (w : SpendingWindow) : Json :=
  match w with
  | sw_lifetime => JObj [("kind", JTxt "lifetime")]
  | sw_rolling n => JObj [("kind", JTxt "rolling"); ("seconds", JNo n)]
  end.
Definition constraint_json (c : AuthorityConstraint) : Json :=
  match c with
  | resource_scope l => JObj [("type", JTxt "resource_scope"); ("allowedScopes", json_texts l)]
  | prohibited_action l => JObj [("type", JTxt "prohibited_action"); ("actions", json_texts l)]
  | max_amount cur v => JObj [("type", JTxt "max_amount"); ("currency", JTxt cur); ("value", JTxt v)]
  | spending_limit i cur m w => JObj [("type", JTxt "spending_limit"); ("limitId", JTxt i); ("currency", JTxt cur); ("maximum", JTxt m); ("window", window_json w)]
  | time_window a b => JObj [("type", JTxt "time_window"); ("startsAt", opt_txt a); ("endsAt", opt_txt b)]
  | data_boundary a b => JObj [("type", JTxt "data_boundary"); ("allowedDataDomains", json_texts a); ("prohibitedDataDomains", json_texts b)]
  | human_approval_required l => JObj [("type", JTxt "human_approval_required"); ("actions", json_texts l)]
  end.
Definition grant_json (g : AuthorityGrant) : Json := JObj [
  ("id", JTxt (g_id g)); ("issuerActorId", JTxt (g_issuerActorId g)); ("subjectActorId", JTxt (g_subjectActorId g));
  ("trustDomainId", JTxt (g_trustDomainId g)); ("capability", JTxt (g_capability g)); ("actions", json_texts (g_actions g));
  ("resourceScopes", json_texts (g_resourceScopes g)); ("canDelegate", JBol (g_canDelegate g)); ("status", JTxt (status_text (g_status g)));
  ("issuedAt", JTxt (g_issuedAt g)); ("roleId", opt_txt (g_roleId g));
  ("allowedDelegateActorTypes", opt_json (λ l, json_texts (actor_type_text <$> l)) (g_allowedDelegateActorTypes g));
  ("maxDelegationDepth", opt_json JNo (g_maxDelegationDepth g)); ("nonDelegableActions", opt_json json_texts (g_nonDelegableActions g));
  ("constraints", opt_json (λ l, JArr (constraint_json <$> l)) (g_constraints g)); ("expiresAt", opt_txt (g_expiresAt g));
  ("parentGrantId", opt_txt (g_parentGrantId g)); ("metadata", default JUndef (g_metadata g))].
Definition delegation_json (d : DelegationGrant) : Json := JObj [
  ("id", JTxt (d_id d)); ("delegatorActorId", JTxt (d_delegatorActorId d)); ("delegateActorId", JTxt (d_delegateActorId d));
  ("principalActorId", JTxt (d_principalActorId d)); ("trustDomainId", JTxt (d_trustDomainId d));
  ("sourceAuthorityGrantId", JTxt (d_sourceAuthorityGrantId d)); ("capability", JTxt (d_capability d)); ("actions", json_texts (d_actions d));
  ("resourceScopes", json_texts (d_resourceScopes d)); ("delegationDepth", JNo (d_delegationDepth d));
  ("canRedelegate", JBol (d_canRedelegate d)); ("maxDelegationDepth", opt_json JNo (d_maxDelegationDepth d));
  ("status", JTxt (status_text (d_status d))); ("issuedAt", JTxt (d_issuedAt d));
  ("nonDelegableActions", opt_json json_texts (d_nonDelegableActions d));
  ("constraints", opt_json (λ l, JArr (constraint_json <$> l)) (d_constraints d)); ("expiresAt", opt_txt (d_expiresAt d));
  ("metadata", default JUndef (d_metadata d))].

Definition chain_status_text (s : AuthorityChainStatus) : string :=
  match s with chain_valid => "valid" | chain_invalid => "invalid" | chain_partial => "partial" end.
Definition decision_type_text (t : AuthorityDecisionType) : string :=
  match t with
  | authority_valid => "authority_valid" | authority_missing => "authority_missing" | issuer_not_authorized => "issuer_not_authorized"
  | delegation_not_allowed => "delegation_not_allowed" | delegation_depth_exceeded => "delegation_depth_exceeded"
  | scope_expansion_detected => "scope_expansion_detected" | non_delegable_action => "non_delegable_action"
  | ancestor_revoked => "ancestor_revoked" | ancestor_expired => "ancestor_expired" | self_issuance_detected => "self_issuance_detected"
  | delegation_lineage_broken => "delegation_lineage_broken" | cross_domain_authority_denied => "cross_domain_authority_denied"
  end.

(** ** Events, proofs and the runtime *)

Inductive AuthorityEventType :=
  | authority_grant_issued | authority_grant_revoked | authority_grant_suspended | authority_grant_expired
  | delegation_grant_issued | delegation_grant_revoked | delegation_grant_suspended | delegation_grant_expired
  | authority_chain_resolved | authority_chain_valid | authority_chain_invalid | authority_proof_created.
Definition event_type_text (t : AuthorityEventType) : string :=
  match t with
  | authority_grant_issued => "authority_grant_issued" | authority_grant_revoked => "authority_grant_revoked"
  | authority_grant_suspended => "authority_grant_suspended" | authority_grant_expired => "authority_grant_expired"
  | delegation_grant_issued => "delegation_grant_issued" | delegation_grant_revoked => "delegation_grant_revoked"
  | delegation_grant_suspended => "delegation_grant_suspended" | delegation_grant_expired => "delegation_grant_expired"
  | authority_chain_resolved => "authority_chain_resolved" | authority_chain_valid => "authority_chain_valid"
  | authority_chain_invalid => "authority_chain_invalid" | authority_proof_created => "authority_proof_created"
  end.

(** [RecordAuthorityEventInput] *)
Record AuthorityEventInput := {
  ei_type : AuthorityEventType;
  ei_trustDomainId : string;
  ei_actorId : option string;
  ei_issuerActorId : option string;
  ei_subjectActorId : option string;
  ei_delegatorActorId : option string;
  ei_delegateActorId : option string;
  ei_authorityGrantId : option string;
  ei_delegationGrantId : option string;
  ei_authorityDecisionId : option string;
  ei_authorityProofId : option string;
  ei_payload : Json;
}.
Record AuthorityEvent := {
  ev_id : string;
  ev_input : AuthorityEventInput;
  ev_timestamp : string;
  ev_previousHash : option string;
  ev_eventHash : string;
}.

Record AuthorityProof := {
  pf_id : string;
  pf_requestId : string;
  pf_authorityDecisionId : string;
  pf_trustDomainId : string;
  pf_actorId : string;
  pf_principalActorId : option string;
  pf_chainHash : string;
  pf_evaluatedGrantIds : list string;
  pf_evaluatedDelegationIds : list string;
  pf_decisionType : AuthorityDecisionType;
  pf_valid : bool;
  pf_previousHash : option string;
  pf_proofHash : string;
  pf_createdAt : string;
}.

Record AuthorityDecision := {
  de_id : string;
  de_requestId : string;
  de_type : AuthorityDecisionType;
  de_valid : bool;
  de_reasonCode : string;
  de_actorId : string;
  de_principalActorId : option string;
  de_trustDomainId : string;
  de_chain : AuthorityChain;
  de_proofId : string;
  de_evaluatedAt : string;
}.

(** [proofsByDecisionId] is the last proof of a decision id in [rt_proofs]. *)
Record AuthorityGraphRuntime := {
  rt_store : AuthorityGraphStore;
  rt_proofs : list AuthorityProof;
  rt_events : list AuthorityEvent;
  rt_calls : nat;
}.
Definition new_runtime : AuthorityGraphRuntime := {| rt_store := empty_graph; rt_proofs := []; rt_events := []; rt_calls := 0 |}.

Record AuthorityRuntimeContext := { clock_now : nat → string; ids_nextId : nat → string → string }.

Definition M (A : Type) : Type := AuthorityGraphRuntime → result AuthorityGraphError (A * AuthorityGraphRuntime).
#[export] Instance M_ret : MRet M := λ A a rt, Ok (a, rt).
#[export] Instance M_bind : MBind M := λ A B f m rt, match m rt with Ok (a, rt') => f a rt' | Throw e => Throw e end.

Definition get_store : M AuthorityGraphStore := λ rt, Ok (rt_store rt, rt).
Definition lift_result {A} (r : result AuthorityGraphError A) : M A := λ rt, match r with Ok a => Ok (a, rt) | Throw e => Throw e end.
Definition modify_store (f : AuthorityGraphStore → AuthorityGraphStore) : M unit := λ rt,
  Ok ((), {| rt_store := f (rt_store rt); rt_proofs := rt_proofs rt; rt_events := rt_events rt; rt_calls := rt_calls rt |}).
Definition update_store {A} (f : AuthorityGraphStore → result AuthorityGraphError (A * AuthorityGraphStore)) : M A := λ rt,
  match f (rt_store rt) with
  | Ok (a, s') => Ok (a, {| rt_store := s'; rt_proofs := rt_proofs rt; rt_events := rt_events rt; rt_calls := rt_calls rt |})
  | Throw e => Throw e
  end.
Definition push_event (e : AuthorityEvent) : M unit := λ rt,
  Ok ((), {| rt_store := rt_store rt; rt_proofs := rt_proofs rt; rt_events := rt_events rt ++ [e]; rt_calls := rt_calls rt |}).
Definition push_proof (p : AuthorityProof) : M unit := λ rt,
  Ok ((), {| rt_store := rt_store rt; rt_proofs := rt_proofs rt ++ [p]; rt_events := rt_events rt; rt_calls := rt_calls rt |}).
Definition last_event_hash : M (option string) := λ rt, Ok (ev_eventHash <$> last (rt_events rt), rt).
Definition last_proof_hash : M (option string) := λ rt, Ok (pf_proofHash <$> last (rt_proofs rt), rt).

Section Runtime.
Context `{JsHost} (ctx : AuthorityRuntimeContext).

Definition now_ : M string := λ rt,
  Ok (clock_now ctx (rt_calls rt), {| rt_store := rt_store rt; rt_proofs := rt_proofs rt; rt_events := rt_events rt; rt_calls := S (rt_calls rt) |}).
Definition nextId (prefix : string) : M string := λ rt,
  Ok (ids_nextId ctx (rt_calls rt) prefix, {| rt_store := rt_store rt; rt_proofs := rt_proofs rt; rt_events := rt_events rt; rt_calls := S (rt_calls rt) |}).

(** *** The ledger *)

(** The digested payload of an event. *)
Definition event_json (i : AuthorityEventInput) (timestamp : string) (previousHash : option string) : Json := JObj [
  ("type", JTxt (event_type_text (ei_type i))); ("trustDomainId", JTxt (ei_trustDomainId i)); ("actorId", opt_txt (ei_actorId i));
  ("issuerActorId", opt_txt (ei_issuerActorId i)); ("subjectActorId", opt_txt (ei_subjectActorId i));
  ("delegatorActorId", opt_txt (ei_delegatorActorId i)); ("delegateActorId", opt_txt (ei_delegateActorId i));
  ("authorityGrantId", opt_txt (ei_authorityGrantId i)); ("delegationGrantId", opt_txt (ei_delegationGrantId i));
  ("authorityDecisionId", opt_txt (ei_authorityDecisionId i)); ("authorityProofId", opt_txt (ei_authorityProofId i));
  ("timestamp", JTxt timestamp); ("payload", ei_payload i); ("previousHash", opt_txt previousHash)].

Definition recordEvent (i : AuthorityEventInput) : M unit :=
  timestamp ← now_;
  previousHash ← last_event_hash;
  id ← nextId "authority-event";
  push_event {| ev_id := id; ev_input := i; ev_timestamp := timestamp; ev_previousHash := previousHash;
    ev_eventHash := createDigest (event_json i timestamp previousHash) |}.

Definition grant_event (t : AuthorityEventType) (id : string) (g : AuthorityGrant) (issuer : option string) (payload : Json) : AuthorityEventInput := {|
  ei_type := t; ei_trustDomainId := g_trustDomainId g; ei_actorId := None; ei_issuerActorId := issuer;
  ei_subjectActorId := Some (g_subjectActorId g); ei_delegatorActorId := None; ei_delegateActorId := None;
  ei_authorityGrantId := Some id; ei_delegationGrantId := None; ei_authorityDecisionId := None; ei_authorityProofId := None;
  ei_payload := payload |}.
Definition delegation_event (t : AuthorityEventType) (id : string) (d : DelegationGrant) (delegator : option string) (payload : Json) : AuthorityEventInput := {|
  ei_type := t; ei_trustDomainId := d_trustDomainId d; ei_actorId := None; ei_issuerActorId := None; ei_subjectActorId := None;
  ei_delegatorActorId := delegator; ei_delegateActorId := Some (d_delegateActorId d); ei_authorityGrantId := None;
  ei_delegationGrantId := Some id; ei_authorityDecisionId := None; ei_authorityProofId := None; ei_payload := payload |}.
Definition decision_event (t : AuthorityEventType) (r : AuthorityChainRequest) (decisionId proofId : option string) (payload : Json) : AuthorityEventInput := {|
  ei_type := t; ei_trustDomainId := cr_trustDomainId r; ei_actorId := Some (cr_actorId r); ei_issuerActorId := None;
  ei_subjectActorId := None; ei_delegatorActorId := None; ei_delegateActorId := None; ei_authorityGrantId := None;
  ei_delegationGrantId := None; ei_authorityDecisionId := decisionId; ei_authorityProofId := proofId; ei_payload := payload |}.

(** *** Issuing, delegating, roles *)

Definition service_issueAuthorityGrant (i : IssueAuthorityGrantInput) : M AuthorityGrant :=
  s ← get_store;
  _ ← lift_result (issue_checks s i);
  id ← (match ig_id i with Some id => mret id | None => nextId "authority-grant" end);
  issuedAt ← now_;
  let grant := build_authority_grant i id issuedAt in
  _ ← modify_store (putGrant grant);
  mret grant.

Definition issued_payload (capability : string) (actions scopes : list string) : Json :=
  JObj [("capability", JTxt capability); ("actions", json_texts actions); ("resourceScopes", json_texts scopes)].

Definition issueAuthorityGrant (i : IssueAuthorityGrantInput) : M AuthorityGrant :=
  grant ← service_issueAuthorityGrant i;
  _ ← recordEvent (grant_event authority_grant_issued (g_id grant) grant (Some (g_issuerActorId grant))
        (issued_payload (g_capability grant) (g_actions grant) (g_resourceScopes grant)));
  mret grant.

Definition service_createDelegationGrant (i : CreateDelegationGrantInput) : M DelegationGrant :=
  s ← get_store;
  src ← lift_result (delegation_checks s i);
  id ← (match cd_id i with Some id => mret id | None => nextId "delegation-grant" end);
  issuedAt ← now_;
  let delegation := build_delegation i src id issuedAt in
  _ ← modify_store (putDelegation delegation);
  mret delegation.

Definition createDelegationGrant (i : CreateDelegationGrantInput) : M DelegationGrant :=
  delegation ← service_createDelegationGrant i;
  _ ← recordEvent (delegation_event delegation_grant_issued (d_id delegation) delegation (Some (d_delegatorActorId delegation))
        (issued_payload (d_capability delegation) (d_actions delegation) (d_resourceScopes delegation)));
  mret delegation.

Definition assignRole (i : AssignRoleInput) : M RoleAssignment :=
  id ← (match ar_id i with Some id => mret id | None => nextId "role-assignment" end);
  assignedAt ← now_;
  let role := build_role i id assignedAt in
  _ ← modify_store (putRoleAssignment role);
  mret role.

Definition role_status (id : string) (st : RecordStatus) : M RoleAssignment := update_store (updateRoleAssignmentStatus id st).
Definition revokeRoleAssignment (id : string) : M RoleAssignment := role_status id as_revoked.
Definition suspendRoleAssignment (id : string) : M RoleAssignment := role_status id as_suspended.
Definition expireRoleAssignment (id : string) : M RoleAssignment := role_status id as_expired.

Definition deriveAuthorityGrantFromRole (roleAssignmentId : string) (i : IssueAuthorityGrantInput) : M AuthorityGrant :=
  s ← get_store;
  match getRoleAssignment s roleAssignmentId with
  | None => lift_result (Throw (RoleAssignmentNotFoundError roleAssignmentId))
  | Some role => service_issueAuthorityGrant (role_issuance role i)
  end.

Definition registerRootIssuer (trustDomainId actorId : string) : M unit := modify_store (store_registerRootIssuer trustDomainId actorId).
Definition acceptCrossDomainAuthority (trustDomainId : string) : M unit := modify_store (store_acceptCrossDomainAuthority trustDomainId).
(** The store's escape hatches. *)
Definition importGrant (g : AuthorityGrant) : M AuthorityGrant := _ ← modify_store (putGrant g); mret g.
Definition importDelegation (d : DelegationGrant) : M DelegationGrant := _ ← modify_store (putDelegation d); mret d.

(** *** Withdrawing *)

Definition recordRevocationLink (t : RevocableAuthorityEntityType) (entityId trustDomainId revokedBy reason : string) : M unit :=
  id ← nextId "revocation-link";
  revokedAt ← now_;
  modify_store (putRevocationLink {| rl_id := id; rl_revokedEntityType := t; rl_revokedEntityId := entityId;
    rl_revokedByActorId := revokedBy; rl_trustDomainId := trustDomainId; rl_reason := reason; rl_revokedAt := revokedAt |}).

Definition revokeAuthorityGrant (id revokedByActorId reason : string) : M AuthorityGrant :=
  revoked ← update_store (updateGrantStatus id as_revoked);
  _ ← recordRevocationLink re_authority_grant id (g_trustDomainId revoked) revokedByActorId reason;
  _ ← recordEvent (grant_event authority_grant_revoked id revoked None (JObj [("reason", JTxt reason)]));
  mret revoked.
Definition suspendAuthorityGrant (id : string) : M AuthorityGrant :=
  grant ← update_store (updateGrantStatus id as_suspended);
  _ ← recordEvent (grant_event authority_grant_suspended id grant None (JObj []));
  mret grant.
Definition expireAuthorityGrant (id : string) : M AuthorityGrant :=
  grant ← update_store (updateGrantStatus id as_expired);
  _ ← recordEvent (grant_event authority_grant_expired id grant None (JObj []));
  mret grant.
Definition revokeDelegationGrant (id revokedByActorId reason : string) : M DelegationGrant :=
  revoked ← update_store (updateDelegationStatus id as_revoked);
  _ ← recordRevocationLink re_delegation_grant id (d_trustDomainId revoked) revokedByActorId reason;
  _ ← recordEvent (delegation_event delegation_grant_revoked id revoked None (JObj [("reason", JTxt reason)]));
  mret revoked.
Definition suspendDelegationGrant (id : string) : M DelegationGrant :=
  delegation ← update_store (updateDelegationStatus id as_suspended);
  _ ← recordEvent (delegation_event delegation_grant_suspended id delegation None (JObj []));
  mret delegation.
Definition expireDelegationGrant (id : string) : M DelegationGrant :=
  delegation ← update_store (updateDelegationStatus id as_expired);
  _ ← recordEvent (delegation_event delegation_grant_expired id delegation None (JObj []));
  mret delegation.

(** *** Verifying *)

Definition resolveAuthorityChain (r : AuthorityChainRequest) : M AuthorityChain :=
  s ← get_store;
  id ← nextId "authority-chain";
  createdAt ← now_;
  mret (resolved_chain s r id createdAt).

Definition chain_hash (c : AuthorityChain) : string := createDigest (JObj [
  ("grants", JArr (grant_json <$> ch_grants c)); ("delegations", JArr (delegation_json <$> ch_delegations c));
  ("status", JTxt (chain_status_text (ch_status c))); ("depth", JNo (ch_depth c)); ("terminalActorId", JTxt (ch_terminalActorId c));
  ("rootIssuerActorId", opt_txt (ch_rootIssuerActorId c))]).

Definition createProof (r : AuthorityChainRequest) (decisionId : string) (principal : option string) (c : AuthorityChain)
    (t : AuthorityDecisionType) (valid : bool) : M AuthorityProof :=
  previousHash ← last_proof_hash;
  let grantIds := g_id <$> ch_grants c in
  let delegationIds := d_id <$> ch_delegations c in
  let proofHash := createDigest (JObj [
    ("chainHash", JTxt (chain_hash c)); ("authorityDecisionId", JTxt decisionId); ("decisionType", JTxt (decision_type_text t));
    ("valid", JBol valid); ("evaluatedGrantIds", json_texts grantIds); ("evaluatedDelegationIds", json_texts delegationIds);
    ("previousHash", opt_txt previousHash)]) in
  id ← nextId "authority-proof";
  createdAt ← now_;
  let proof := {| pf_id := id; pf_requestId := cr_id r; pf_authorityDecisionId := decisionId; pf_trustDomainId := cr_trustDomainId r;
    pf_actorId := cr_actorId r; pf_principalActorId := principal; pf_chainHash := chain_hash c; pf_evaluatedGrantIds := grantIds;
    pf_evaluatedDelegationIds := delegationIds; pf_decisionType := t; pf_valid := valid; pf_previousHash := previousHash;
    pf_proofHash := proofHash; pf_createdAt := createdAt |} in
  _ ← push_proof proof;
  mret proof.

Definition verifyAuthority (r : AuthorityChainRequest) : M AuthorityDecision :=
  chain ← resolveAuthorityChain r;
  _ ← recordEvent (decision_event authority_chain_resolved r None None
        (JObj [("status", JTxt (chain_status_text (ch_status chain))); ("depth", JNo (ch_depth chain))]));
  s ← get_store;
  now ← now_;
  let '(decisionType, reasonCode) := decide_chain s r chain now in
  let valid := bool_decide (decisionType = authority_valid) in
  decisionId ← nextId "authority-decision";
  let principal := match cr_principalActorId r with Some p => Some p | None => ch_principalActorId chain end in
  proof ← createProof r decisionId principal chain decisionType valid;
  _ ← recordEvent (decision_event (if valid then authority_chain_valid else authority_chain_invalid) r (Some decisionId) None
        (JObj [("decisionType", JTxt (decision_type_text decisionType)); ("reasonCode", JTxt reasonCode)]));
  _ ← recordEvent (decision_event authority_proof_created r (Some decisionId) (Some (pf_id proof))
        (JObj [("proofHash", JTxt (pf_proofHash proof))]));
  mret {| de_id := decisionId; de_requestId := cr_id r; de_type := decisionType; de_valid := valid; de_reasonCode := reasonCode;
    de_actorId := cr_actorId r; de_principalActorId := principal; de_trustDomainId := cr_trustDomainId r; de_chain := chain;
    de_proofId := pf_id proof; de_evaluatedAt := now |}.

Definition getAuthorityProof (rt : AuthorityGraphRuntime) (decisionId : string) : option AuthorityProof :=
  last (List.filter (λ p, str_eqb (pf_authorityDecisionId p) decisionId) (rt_proofs rt)).

Definition getAllProofs (rt : AuthorityGraphRuntime) : list AuthorityProof := rt_proofs rt.

Record AuthorityEventTrailFilter := {
  tf_actorId : option string;
  tf_trustDomainId : option string;
  tf_authorityDecisionId : option string;
  tf_authorityGrantId : option string;
  tf_delegationGrantId : option string;
}.
Definition unset_or (wanted : option string) (actual : option string) : bool :=
  negb (is_some wanted) || bool_decide (actual = wanted).
Definition getEventTrail (rt : AuthorityGraphRuntime) (filter : option AuthorityEventTrailFilter) : list AuthorityEvent :=
  match filter with
  | None => rt_events rt
  | Some f => List.filter (λ e, let i := ev_input e in
      unset_or (tf_actorId f) (ei_actorId i) && unset_or (tf_trustDomainId f) (Some (ei_trustDomainId i)) &&
      unset_or (tf_authorityDecisionId f) (ei_authorityDecisionId i) && unset_or (tf_authorityGrantId f) (ei_authorityGrantId i) &&
      unset_or (tf_delegationGrantId f) (ei_delegationGrantId i)) (rt_events rt)
  end.

(** The request a caller verifies; [r] carries the fields other than the id and
    the instant. *)
Definition buildAuthorityChainRequest (id : option string) (r : AuthorityChainRequest) : M AuthorityChainRequest :=
  requestId ← (match id with Some id => mret id | None => nextId "authority-chain-request" end);
  requestedAt ← now_;
  mret {| cr_id := requestId; cr_actorId := cr_actorId r; cr_principalActorId := cr_principalActorId r;
    cr_trustDomainId := cr_trustDomainId r; cr_action := cr_action r; cr_resourceScope := cr_resourceScope r;
    cr_capability := cr_capability r; cr_requestedAt := requestedAt; cr_capabilityTokenId := cr_capabilityTokenId r |}.

(** ** Requests on a runtime *)

Inductive RuntimeOp :=
  | OpRegisterRoot (trustDomainId actorId : string)
  | OpAcceptCrossDomain (trustDomainId : string)
  | OpPutNode (n : AuthorityNode)
  | OpPutEdge (e : AuthorityEdge)
  | OpIssue (i : IssueAuthorityGrantInput)
  | OpDelegate (i : CreateDelegationGrantInput)
  | OpAssignRole (i : AssignRoleInput)
  | OpRoleStatus (id : string) (st : RecordStatus)
  | OpDeriveFromRole (id : string) (i : IssueAuthorityGrantInput)
  | OpImportGrant (g : AuthorityGrant)
  | OpImportDelegation (d : DelegationGrant)
  | OpRevokeGrant (id by_ reason : string)
  | OpSuspendGrant (id : string)
  | OpExpireGrant (id : string)
  | OpRevokeDelegation (id by_ reason : string)
  | OpSuspendDelegation (id : string)
  | OpExpireDelegation (id : string)
  | OpVerify (r : AuthorityChainRequest).

Definition void {A} (m : M A) : M unit := _ ← m; mret ().

Definition run_op (op : RuntimeOp) : M unit :=
  match op with
  | OpRegisterRoot t a => registerRootIssuer t a
  | OpAcceptCrossDomain t => acceptCrossDomainAuthority t
  | OpPutNode n => modify_store (putNode n)
  | OpPutEdge e => modify_store (putEdge e)
  | OpIssue i => void (issueAuthorityGrant i)
  | OpDelegate i => void (createDelegationGrant i)
  | OpAssignRole i => void (assignRole i)
  | OpRoleStatus i st => void (role_status i st)
  | OpDeriveFromRole i x => void (deriveAuthorityGrantFromRole i x)
  | OpImportGrant g => void (importGrant g)
  | OpImportDelegation d => void (importDelegation d)
  | OpRevokeGrant i b r => void (revokeAuthorityGrant i b r)
  | OpSuspendGrant i => void (suspendAuthorityGrant i)
  | OpExpireGrant i => void (expireAuthorityGrant i)
  | OpRevokeDelegation i b r => void (revokeDelegationGrant i b r)
  | OpSuspendDelegation i => void (suspendDelegationGrant i)
  | OpExpireDelegation i => void (expireDelegationGrant i)
  | OpVerify r => void (verifyAuthority r)
  end.

(** The runtime after an operation; a throw leaves it as it was. *)
Definition after (rt : AuthorityGraphRuntime) (op : RuntimeOp) : AuthorityGraphRuntime :=
  match run_op op rt with Ok (_, rt') => rt' | Throw _ => rt end.
Definition run_ops (rt : AuthorityGraphRuntime) (ops : list RuntimeOp) : AuthorityGraphRuntime := foldl after rt ops.

End Runtime.
