(* ===== verification/AuthoritySafety.v ===== *)
(** * What the authority graph promises

    Theorems on the runtime of [AuthorityRuntime]: the invariant of every
    reachable runtime (records filed under their own ids, event and proof logs
    hash-linked), exact verification, containment of what a valid decision
    vouches for, the cascade of a withdrawal along a chain, and the checks of
    issuing and delegating. *)

From S2P Require Import Prelude Decimal Js JsMap StableJson HashChain AuthorityGraph AuthorityChain AuthorityRuntime.

Local Open Scope Z_scope.
Local Open Scope frontera_scope.

(** ** Computations that keep an invariant *)

Create HintDb authority.

Definition keeps {A} (P : AuthorityGraphRuntime → Prop) (m : M A) : Prop :=
  ∀ rt a rt', P rt → m rt = Ok (a, rt') → P rt'.

Lemma keeps_ret {A} P (a : A) : keeps P (mret a).
Proof. by intros rt b rt' HP [= <- <-]. Qed.
Lemma keeps_bind {A B} P (m : M A) (f : A → M B) : keeps P m → (∀ a, keeps P (f a)) → keeps P (m ≫= f).
Proof.
  intros Hm Hf rt b rt' HP. unfold mbind, M_bind. destruct (m rt) as [[a rt1]|] eqn:E; [|done].
  intros Hr. by apply (Hf a rt1 b rt'); [apply (Hm rt a)|].
Qed.
Lemma keeps_get_store P : keeps P get_store.
Proof. by intros rt b rt' HP [= <- <-]. Qed.
Lemma keeps_lift {A} P (r : result AuthorityGraphError A) : keeps P (lift_result r).
Proof. intros rt b rt' HP. unfold lift_result. destruct r; [|done]. by intros [= <- <-]. Qed.
Lemma keeps_void {A} P (m : M A) : keeps P m → keeps P (void m).
Proof. intros Hm. apply keeps_bind; [done|]. intros _. apply keeps_ret. Qed.
#[export] Hint Resolve keeps_ret keeps_get_store keeps_lift keeps_void : authority.
#[export] Hint Extern 2 (keeps _ (mbind _ _)) => (apply keeps_bind; [|intros ?]) : authority.

(** ** The invariant *)

Definition event_payload (e : AuthorityEvent) : Json := event_json (ev_input e) (ev_timestamp e) (ev_previousHash e).
Definition proof_payload (p : AuthorityProof) : Json := JObj [
  ("chainHash", JTxt (pf_chainHash p)); ("authorityDecisionId", JTxt (pf_authorityDecisionId p));
  ("decisionType", JTxt (decision_type_text (pf_decisionType p))); ("valid", JBol (pf_valid p));
  ("evaluatedGrantIds", json_texts (pf_evaluatedGrantIds p)); ("evaluatedDelegationIds", json_texts (pf_evaluatedDelegationIds p));
  ("previousHash", opt_txt (pf_previousHash p))].

Section Invariant.
Context `{JsHost} (ctx : AuthorityRuntimeContext).

Record runtime_ok (rt : AuthorityGraphRuntime) : Prop := {
  ok_graph : graph_ok (rt_store rt);
  ok_events : linked event_payload ev_previousHash ev_eventHash (rt_events rt);
  ok_proofs : linked proof_payload pf_previousHash pf_proofHash (rt_proofs rt);
}.

Lemma keeps_now : keeps runtime_ok (now_ ctx).
Proof. by intros rt b rt' [] [= <- <-]. Qed.
Lemma keeps_nextId prefix : keeps runtime_ok (nextId ctx prefix).
Proof. by intros rt b rt' [] [= <- <-]. Qed.

Lemma keeps_recordEvent i : keeps runtime_ok (recordEvent ctx i).
Proof.
  intros rt b rt' [Hg He Hp] [= <- <-]. split; cbn; [done| |done]. by apply linked_snoc.
Qed.
Lemma keeps_createProof r decisionId principal c t valid : keeps runtime_ok (createProof ctx r decisionId principal c t valid).
Proof.
  intros rt b rt' [Hg He Hp] [= <- <-]. split; cbn; [done|done|]. by apply linked_snoc.
Qed.

Lemma keeps_modify f : (∀ s, graph_ok s → graph_ok (f s)) → keeps runtime_ok (modify_store f).
Proof. intros Hf rt b rt' [Hg He Hp] [= <- <-]. split; cbn; auto. Qed.
Lemma keeps_update {A} (f : AuthorityGraphStore → result AuthorityGraphError (A * AuthorityGraphStore)) :
  (∀ s a s', graph_ok s → f s = Ok (a, s') → graph_ok s') → keeps runtime_ok (update_store f).
Proof.
  intros Hf rt b rt' [Hg He Hp]. unfold update_store. destruct (f (rt_store rt)) as [[a s']|] eqn:E; [|done].
  intros [= <- <-]. split; cbn; eauto.
Qed.

Lemma graph_ok_putGrant g s : graph_ok s → graph_ok (putGrant g s).
Proof. intros [Hg Hd]. split; [by apply filed_set|done]. Qed.
Lemma graph_ok_putDelegation d s : graph_ok s → graph_ok (putDelegation d s).
Proof. intros [Hg Hd]. split; [done|by apply filed_set]. Qed.

Lemma updateGrantStatus_put i st s g s' : graph_ok s → updateGrantStatus i st s = Ok (g, s') →
  s' = putGrant g s ∧ ∃ g0, getGrant s i = Some g0 ∧ g = grant_with_status g0 st.
Proof.
  intros [Hg Hd]. unfold updateGrantStatus, getGrant. destruct (map_get i (grants s)) as [g0|] eqn:E; [|done].
  intros [= <- <-]. split; [|eauto]. unfold putGrant. cbn. by rewrite (proj2 Hg i g0 E).
Qed.
Lemma updateDelegationStatus_put i st s d s' : graph_ok s → updateDelegationStatus i st s = Ok (d, s') →
  s' = putDelegation d s ∧ ∃ d0, getDelegation s i = Some d0 ∧ d = delegation_with_status d0 st.
Proof.
  intros [Hg Hd]. unfold updateDelegationStatus, getDelegation. destruct (map_get i (delegations s)) as [d0|] eqn:E; [|done].
  intros [= <- <-]. split; [|eauto]. unfold putDelegation. cbn. by rewrite (proj2 Hd i d0 E).
Qed.

Lemma keeps_grant_status i st : keeps runtime_ok (update_store (updateGrantStatus i st)).
Proof. apply keeps_update. intros s g s' Hs [-> _]%updateGrantStatus_put; [|done]. by apply graph_ok_putGrant. Qed.
Lemma keeps_delegation_status i st : keeps runtime_ok (update_store (updateDelegationStatus i st)).
Proof. apply keeps_update. intros s d s' Hs [-> _]%updateDelegationStatus_put; [|done]. by apply graph_ok_putDelegation. Qed.
Lemma keeps_role_status i st : keeps runtime_ok (role_status i st).
Proof.
  apply keeps_update. intros s r s' Hs. unfold updateRoleAssignmentStatus. destruct (map_get _ _); [|done]. by intros [= <- <-].
Qed.

Lemma keeps_putGrant g : keeps runtime_ok (modify_store (putGrant g)).
Proof. apply keeps_modify. intros s. apply graph_ok_putGrant. Qed.
Lemma keeps_putDelegation d : keeps runtime_ok (modify_store (putDelegation d)).
Proof. apply keeps_modify. intros s. apply graph_ok_putDelegation. Qed.

#[local] Hint Resolve keeps_now keeps_nextId keeps_recordEvent keeps_createProof keeps_grant_status keeps_delegation_status
  keeps_role_status keeps_putGrant keeps_putDelegation : authority.
#[local] Hint Extern 3 (keeps _ (modify_store _)) => (apply keeps_modify; by intros ? []) : authority.
#[local] Hint Extern 3 (keeps _ (match ?x with _ => _ end)) => destruct x : authority.

Ltac keep := eauto 20 with authority.

Lemma keeps_verify r : keeps runtime_ok (verifyAuthority ctx r).
Proof. unfold verifyAuthority, resolveAuthorityChain. keep. Qed.

Lemma run_op_keeps op : keeps runtime_ok (run_op ctx op).
Proof.
  destruct op; cbn [run_op]; try apply keeps_void; unfold registerRootIssuer, acceptCrossDomainAuthority, issueAuthorityGrant,
    createDelegationGrant, service_issueAuthorityGrant, service_createDelegationGrant, assignRole, deriveAuthorityGrantFromRole,
    importGrant, importDelegation, revokeAuthorityGrant, suspendAuthorityGrant, expireAuthorityGrant, revokeDelegationGrant,
    suspendDelegationGrant, expireDelegationGrant, recordRevocationLink, service_issueAuthorityGrant; keep; apply keeps_verify.
Qed.

Lemma after_ok rt op : runtime_ok rt → runtime_ok (after ctx rt op).
Proof. intros Hok. unfold after. destruct (run_op ctx op rt) as [[[] rt']|] eqn:E; [|done]. by apply (run_op_keeps op rt ()). Qed.

Lemma new_runtime_ok : runtime_ok new_runtime.
Proof. split; [split; apply filed_nil|done|done]. Qed.

Lemma run_ops_ok rt ops : runtime_ok rt → runtime_ok (run_ops ctx rt ops).
Proof. revert rt. induction ops as [|op ops IH]; intros rt Hok; cbn; [done|]. by apply IH, after_ok. Qed.

End Invariant.

(** ** Verifying *)

Local Opaque assertGrantRooted walk_delegations grant_parents delegation_sources MAX_ANCESTRY_HOPS resolve_records decide_chain.

Section Verify.
Context `{JsHost} (ctx : AuthorityRuntimeContext).

(** The chain id, its creation time and the instant of the decision are the
    first, second and fifth answers of the context. *)
Definition verify_chain (rt : AuthorityGraphRuntime) (r : AuthorityChainRequest) : AuthorityChain :=
  resolved_chain (rt_store rt) r (ids_nextId ctx (rt_calls rt) "authority-chain") (clock_now ctx (S (rt_calls rt))).
Definition verify_now (rt : AuthorityGraphRuntime) : string := clock_now ctx (4 + rt_calls rt).

Lemma bind_run {A B} (m : M A) (f : A → M B) rt a rt' : m rt = Ok (a, rt') → (m ≫= f) rt = f a rt'.
Proof. unfold mbind, M_bind. by intros ->. Qed.

Definition with_event (rt : AuthorityGraphRuntime) (e : AuthorityEvent) (calls : nat) : AuthorityGraphRuntime :=
  {| rt_store := rt_store rt; rt_proofs := rt_proofs rt; rt_events := rt_events rt ++ [e]; rt_calls := calls |}.
Lemma recordEvent_run i rt : ∃ e, recordEvent ctx i rt = Ok ((), with_event rt e (2 + rt_calls rt)).
Proof. eexists. unfold recordEvent. do 3 erewrite bind_run by reflexivity. reflexivity. Qed.
Lemma createProof_run r i principal c t valid rt : ∃ p, createProof ctx r i principal c t valid rt =
  Ok (p, {| rt_store := rt_store rt; rt_proofs := rt_proofs rt ++ [p]; rt_events := rt_events rt; rt_calls := 2 + rt_calls rt |}).
Proof. eexists. unfold createProof. do 3 erewrite bind_run by reflexivity. erewrite bind_run by reflexivity. reflexivity. Qed.

Lemma verifyAuthority_run r rt : ∃ d rt',
  verifyAuthority ctx r rt = Ok (d, rt') ∧ rt_store rt' = rt_store rt ∧
  (de_type d, de_reasonCode d) = decide_chain (rt_store rt) r (verify_chain rt r) (verify_now rt) ∧
  de_valid d = bool_decide (de_type d = authority_valid) ∧ de_chain d = verify_chain rt r ∧ de_evaluatedAt d = verify_now rt.
Proof.
  unfold verifyAuthority. erewrite bind_run by reflexivity. change (resolved_chain _ _ _ _) with (verify_chain rt r).
  edestruct recordEvent_run as [e0 He0]. rewrite (bind_run _ _ _ _ _ He0); clear He0.
  erewrite bind_run by reflexivity. erewrite bind_run by reflexivity. cbn [rt_store rt_calls with_event].
  change (clock_now ctx _) with (verify_now rt). destruct (decide_chain _ _ _ _) as [t code]. erewrite bind_run by reflexivity. cbn [rt_store rt_calls].
  edestruct createProof_run as [p Hp]. rewrite (bind_run _ _ _ _ _ Hp); clear Hp.
  edestruct recordEvent_run as [e1 He1]. rewrite (bind_run _ _ _ _ _ He1); clear He1.
  edestruct recordEvent_run as [e2 He2]. rewrite (bind_run _ _ _ _ _ He2); clear He2.
  eexists _, _. split; [reflexivity|]. split; [reflexivity|]. split; [reflexivity|]. split; [reflexivity|]. split; reflexivity.
Qed.

Lemma verify_chain_records rt r gs ds st :
  resolve_records (rt_store rt) r = (gs, ds, st) → ch_grants (verify_chain rt r) = gs ∧ ch_delegations (verify_chain rt r) = ds.
Proof. unfold verify_chain, resolved_chain. by intros ->. Qed.

Lemma verify_valid_iff r rt d rt' :
  graph_ok (rt_store rt) → getGrant (rt_store rt) "" = None → verifyAuthority ctx r rt = Ok (d, rt') →
  de_valid d = true ↔ ∃ gs ds, resolve_records (rt_store rt) r = (gs, ds, chain_valid) ∧
    legitimate (rt_store rt) r (de_evaluatedAt d) gs ds.
Proof.
  intros Hok Hempty Hv. destruct (verifyAuthority_run r rt) as (d'&rt''&Hv'&_&Ht&Hva&_&Hn). rewrite Hv in Hv'. injection Hv' as <- <-.
  rewrite Hva, bool_decide_eq_true, Hn. destruct (resolve_records (rt_store rt) r) as [[gs ds] st] eqn:Hr.
  pose proof (verify_legitimate (rt_store rt) Hok Hempty r (verify_now rt) (ids_nextId ctx (rt_calls rt) "authority-chain")
    (clock_now ctx (S (rt_calls rt))) gs ds st Hr) as Hl. unfold verify_chain in Ht. rewrite <-Ht in Hl. cbn [fst] in Hl. rewrite Hl.
  split.
  - intros [-> Hleg]. exists gs, ds. split; [reflexivity|exact Hleg].
  - intros (gs'&ds'&E&Hleg). simplify_eq. split; [reflexivity|exact Hleg].
Qed.

(** C11. Verification is exact in every reachable runtime, imported records
    included, in which no grant is filed under the empty id (a chain can end in
    such a grant without an accepted issuer: [empty_id_escapes_root]): it always
    answers, leaves the store as it was, and answers valid
    precisely when the resolver finds a chain in the store and that chain
    stands at the instant of the decision -- an unbroken, unrepeated line of
    stored records within the horizon, handed over by holders of what they
    delegate, rooted in an accepted issuer, live, and containing the request. *)
Theorem verifyAuthority_exact ops r :
  let rt := run_ops ctx new_runtime ops in
  getGrant (rt_store rt) "" = None →
  ∃ d rt', verifyAuthority ctx r rt = Ok (d, rt') ∧ rt_store rt' = rt_store rt ∧
    (de_valid d = true ↔ ∃ gs ds, resolve_records (rt_store rt) r = (gs, ds, chain_valid) ∧
      legitimate (rt_store rt) r (de_evaluatedAt d) gs ds).
Proof.
  intros rt Hempty. destruct (verifyAuthority_run r rt) as (d&rt'&Hv&Hs&_). exists d, rt'. split; [done|]. split; [done|].
  apply (verify_valid_iff r rt d rt'); [|done|done]. apply ok_graph, run_ops_ok, new_runtime_ok.
Qed.

End Verify.

(** ** Containment *)

Lemma prefix_app a b : String.prefix a (a +:+ b) = true.
Proof.
  induction a as [|c a IH]; [by destruct b|]. change (String c a +:+ b) with (String c (a +:+ b)). cbn.
  destruct (ascii_dec c c); [exact IH|congruence].
Qed.
Lemma prefix_split a t : String.prefix a t = true ↔ ∃ b, t = a +:+ b.
Proof.
  split; [|intros [b ->]; apply prefix_app]. revert t. induction a as [|c a IH]; intros t; [by exists t|].
  destruct t as [|c' t]; cbn; [done|]. destruct (ascii_dec c c') as [->|]; [|done]. intros [b ->]%IH. by exists b.
Qed.

(** A scope covers itself and what is written below it. *)
Lemma isInScope_spec requested granted :
  isInScope requested granted = true ↔ ∃ sc, sc ∈ granted ∧ (requested = sc ∨ ∃ below, requested = sc +:+ ":" +:+ below).
Proof.
  unfold isInScope. rewrite existsb_exists. apply exist_proper. intros sc. rewrite list_elem_of_In, orb_true_iff, str_eqb_eq, prefix_split.
  by setoid_rewrite string_app_assoc.
Qed.

Lemma isInScope_trans requested inner outer :
  isInScope requested inner = true → forallb (λ sc, isInScope sc outer) inner = true → isInScope requested outer = true.
Proof.
  rewrite isInScope_spec. intros (sc&Hsc&Hreq). rewrite forallb_forall. intros Hall.
  apply list_elem_of_In, Hall, isInScope_spec in Hsc as (sc'&Hsc'&Hin). apply isInScope_spec. exists sc'. split; [done|].
  destruct Hreq as [->|[below ->]], Hin as [->|[below' ->]]; [by left|right; eauto..].
  eexists. by rewrite !string_app_assoc.
Qed.

Definition permits (actions scopes : list string) (r : AuthorityChainRequest) : Prop :=
  cr_action r ∈ actions ∧ isInScope (cr_resourceScope r) scopes = true.

Section Containment.
Context (s : AuthorityGraphStore).

Lemma delegation_line_permits r ds gs g d :
  delegation_line s (d :: ds) gs → head gs = Some g → scopes_contained (d :: ds) (Some (g_resourceScopes g)) = true →
  permits (d_actions d) (d_resourceScopes d) r →
  Forall (λ d, permits (d_actions d) (d_resourceScopes d) r) (d :: ds) ∧ permits (g_actions g) (g_resourceScopes g) r.
Proof.
  revert d. induction ds as [|p ds IH]; intros d Hl Hh Hc [Ha Hsc]; inversion Hl as [d0 g0 gs0 (_&_&_&Hact) Hgl|d0 p' ds0 gs0 (_&_&_&Hact) Hn Hs Hd]; subst;
    cbn [scopes_contained] in Hc; apply andb_true_iff in Hc as [Hc1 Hc2].
  - injection Hh as ->. split; [by constructor|]. split; [by apply Hact|]. by apply (isInScope_trans _ (d_resourceScopes d)).
  - destruct (IH p Hd Hh Hc2) as [Hf Hg]; [split; [by apply Hact|by apply (isInScope_trans _ (d_resourceScopes d))]|].
    split; [by constructor|done].
Qed.

End Containment.

Section Contained.
Context (s : AuthorityGraphStore) (Hok : graph_ok s) (Hempty : getGrant s "" = None).

Record contained (r : AuthorityChainRequest) (now : string) (gs : list AuthorityGrant) (ds : list DelegationGrant) : Prop := {
  ct_holder : match ds, gs with
    | d :: _, _ => d_delegateActorId d = cr_actorId r
    | [], g :: _ => g_subjectActorId g = cr_actorId r
    | [], [] => False
    end;
  ct_delegations : Forall (λ d, permits (d_actions d) (d_resourceScopes d) r) ds;
  ct_source : ∃ g, head gs = Some g ∧ permits (g_actions g) (g_resourceScopes g) r;
  ct_root : ∃ root, last gs = Some root ∧ g_parentGrantId root = None ∧ isRootIssuer s (cr_trustDomainId r) (g_issuerActorId root) = true;
  ct_live : Forall (λ g, live (g_status g) (g_expiresAt g) now) gs ∧ Forall (λ d, live (d_status d) (d_expiresAt d) now) ds;
  ct_length : (length ds + length gs ≤ 51)%nat;
}.

Lemma legitimate_contained r now gs ds :
  resolve_records s r = (gs, ds, chain_valid) → legitimate s r now gs ds → contained r now gs ds.
Proof.
  intros Hr [Hl Hn Hlen Hself Hhand (root&Hroot&Hacc) Hlv Hres Hsc Hdep Hnd Hdom].
  pose proof (line_grants _ _ _ Hl) as Hgl. destruct (grant_line_last s gs Hgl) as (root'&Hroot'&Hp).
  rewrite Hroot in Hroot'. injection Hroot' as <-.
  assert ((length ds + length gs ≤ 51)%nat) by (unfold refs_of in Hlen; by rewrite length_app, !length_fmap in Hlen).
  assert (∃ g gs', gs = g :: gs') as (g&gs'&Egs) by (inversion Hgl; eauto).
  destruct (resolve_valid_shape s Hok r gs ds Hr) as [(g0&->&Hgs&_&Hsub&_&Hact)|(d&Hds&_&_&Hdel&_&Hact)].
  - rewrite Egs in Hgs. injection Hgs as -> _. split; [by rewrite Egs|done| |by exists root|done|done].
    exists g0. rewrite Egs. split; [done|]. split; [done|]. by rewrite Egs in Hres.
  - unfold collectDelegationAncestry in Hds. cbn [fst] in Hds. rewrite Hds in *. destruct Hl as [Hl _]. rewrite Egs in Hl, Hsc.
    destruct (delegation_line_permits s r _ (g :: gs') g d Hl eq_refl Hsc) as [Hds' Hg]; [done|].
    split; [done|done| |by exists root|done|done]. exists g. by rewrite Egs.
Qed.

End Contained.

(** What a valid decision vouches for: the requesting actor holds the head
    of the chain; the requested action and resource are within every delegation
    of the chain and within the grant they derive from; the last grant names no
    parent and was issued by an accepted root of the trust domain; every record
    is active and unexpired at the instant of the decision; and the chain has at
    most 51 records. *)
Theorem valid_decision_contained `{JsHost} ctx ops r d rt' :
  let rt := run_ops ctx new_runtime ops in
  getGrant (rt_store rt) "" = None → verifyAuthority ctx r rt = Ok (d, rt') → de_valid d = true →
  contained (rt_store rt) r (de_evaluatedAt d) (ch_grants (de_chain d)) (ch_delegations (de_chain d)).
Proof.
  intros rt Hempty Hv Hval. pose proof (ok_graph _ (run_ops_ok ctx new_runtime ops new_runtime_ok)) as Hok. fold rt in Hok.
  apply (verify_valid_iff ctx r rt d rt' Hok Hempty Hv) in Hval as (gs&ds&Hr&Hl).
  destruct (verifyAuthority_run ctx r rt) as (d'&rt''&Hv'&_&_&_&Hc&_). rewrite Hv in Hv'. injection Hv' as <- <-.
  rewrite Hc. destruct (verify_chain_records ctx rt r _ _ _ Hr) as [-> ->]. by apply legitimate_contained.
Qed.

(** ** Withdrawing authority *)

(** What the resolver assembles. *)
Section Resolve.
Context (s : AuthorityGraphStore) (r : AuthorityChainRequest).
Local Transparent resolve_records.
Lemma resolve_by_grant g :
  List.find (λ g, includes (g_actions g) (cr_action r)) (actor_grants s r) = Some g →
  resolve_records s r = (collectGrantAncestry s g, [], chain_valid).
Proof. unfold resolve_records. by intros ->. Qed.
Lemma resolve_by_delegation d :
  List.find (λ g, includes (g_actions g) (cr_action r)) (actor_grants s r) = None →
  List.find (λ d, includes (d_actions d) (cr_action r)) (actor_delegations s r) = Some d →
  resolve_records s r = ((collectDelegationAncestry s d).2, (collectDelegationAncestry s d).1, chain_valid).
Proof. unfold resolve_records. by intros -> ->. Qed.
Lemma resolve_by_neither :
  List.find (λ g, includes (g_actions g) (cr_action r)) (actor_grants s r) = None →
  List.find (λ d, includes (d_actions d) (cr_action r)) (actor_delegations s r) = None →
  resolve_records s r = match actor_grants s r, actor_delegations s r with
    | [], [] => ([], [], chain_invalid)
    | gs, ds => (gs, ds, chain_partial)
    end.
Proof. unfold resolve_records. by intros -> ->. Qed.
Lemma collectGrantAncestry_cons g : ∃ ps, collectGrantAncestry s g = g :: ps.
Proof. by eexists. Qed.
Lemma collectDelegationAncestry_cons d : ∃ ds gs, collectDelegationAncestry s d = (d :: ds, gs).
Proof. by eexists _, _. Qed.
End Resolve.

(** [s'] holds the records of [s] under the same ids and in the same order, with
    new statuses given by [f] and [h], and then the records of [ng] and [nd]. *)
Record later (f : AuthorityGrant → AuthorityGrant) (h : DelegationGrant → DelegationGrant)
    (ng : JsMap AuthorityGrant) (nd : JsMap DelegationGrant) (s s' : AuthorityGraphStore) : Prop := {
  lt_f : ∀ g, ∃ st, f g = grant_with_status g st;
  lt_h : ∀ d, ∃ st, h d = delegation_with_status d st;
  lt_grants : grants s' = (prod_map id f <$> grants s) ++ ng;
  lt_delegations : delegations s' = (prod_map id h <$> delegations s) ++ nd;
  lt_roots : ∀ t a, isRootIssuer s t a = true → isRootIssuer s' t a = true;
}.

Section Later.
Context {f : AuthorityGrant → AuthorityGrant} {h : DelegationGrant → DelegationGrant} {ng : JsMap AuthorityGrant} {nd : JsMap DelegationGrant}.
Context {s s' : AuthorityGraphStore} (Hlt : later f h ng nd s s') (Hempty : getGrant s "" = None).

Ltac same_fields := match goal with |- context [f ?g] => let st := fresh in let E := fresh in destruct (lt_f _ _ _ _ _ _ Hlt g) as [st E]; rewrite E; clear E
                                  | |- context [h ?d] => let st := fresh in let E := fresh in destruct (lt_h _ _ _ _ _ _ Hlt d) as [st E]; rewrite E; clear E end; reflexivity.

Lemma f_parent g : g_parentGrantId (f g) = g_parentGrantId g.
Proof. same_fields. Qed.
Lemma h_source d : d_sourceAuthorityGrantId (h d) = d_sourceAuthorityGrantId d.
Proof. same_fields. Qed.

Lemma getGrant_later i g : getGrant s i = Some g → getGrant s' i = Some (f g).
Proof. unfold getGrant. rewrite (lt_grants _ _ _ _ _ _ Hlt), map_get_app, map_get_fmap. by intros ->. Qed.
Lemma getGrant_later_None i : ng = [] → getGrant s i = None → getGrant s' i = None.
Proof. unfold getGrant. rewrite (lt_grants _ _ _ _ _ _ Hlt), map_get_app, map_get_fmap. by intros -> ->. Qed.
Lemma getDelegation_later i d : getDelegation s i = Some d → getDelegation s' i = Some (h d).
Proof. unfold getDelegation. rewrite (lt_delegations _ _ _ _ _ _ Hlt), map_get_app, map_get_fmap. by intros ->. Qed.

Local Transparent grant_parents delegation_sources.

Lemma grant_parents_later room g gs : grant_line s (g :: gs) → (length gs ≤ room)%nat → grant_parents s' room (f g) = f <$> gs.
Proof.
  revert room g. induction gs as [|p gs IH]; intros room g Hl Hlen; inversion Hl as [g0 H1 H2|g0 p0 rest H1 H2 H3]; subst.
  - destruct room; cbn [grant_parents]; [done|]. by rewrite f_parent, H2.
  - destruct room as [|room]; [cbn in Hlen; lia|]. cbn [grant_parents]. rewrite f_parent, H2.
    pose proof (grant_line_head _ _ _ H3) as Hp.
    destruct (nonempty (g_id p)) eqn:En; [|destruct (g_id p); [congruence|done]].
    rewrite (getGrant_later _ _ Hp), (IH room p H3); [done|]. cbn in Hlen. lia.
Qed.

Lemma collectGrantAncestry_later g gs : grant_line s (g :: gs) → (length gs ≤ MAX_ANCESTRY_HOPS)%nat →
  collectGrantAncestry s' (f g) = f <$> g :: gs.
Proof. intros Hl Hlen. unfold collectGrantAncestry. by rewrite (grant_parents_later _ _ _ Hl Hlen). Qed.

Lemma delegation_sources_later room d ds gs :
  (∀ i, getGrant s i = None → getGrant s' i = None) → delegation_line s (d :: ds) gs → (S (length ds) ≤ room)%nat → (length gs ≤ S MAX_ANCESTRY_HOPS)%nat →
  delegation_sources s' room (d_sourceAuthorityGrantId d) = (h <$> ds, f <$> gs).
Proof.
  intros Hng. revert room d. induction ds as [|p ds IH]; intros room d Hl Hlen Hg;
    inversion Hl as [d0 g0 gs0 [Hsrc _] Hgl|d0 p' ds0 gs0 [Hsrc _] Hn Hs Hd]; subst; cbn in Hsrc;
    (destruct room as [|room]; [cbn in Hlen; lia|]); cbn [delegation_sources]; rewrite Hsrc.
  - rewrite (getGrant_later _ _ (grant_line_head _ _ _ Hgl)), (collectGrantAncestry_later _ _ Hgl); [done|]. cbn [length] in Hg. lia.
  - rewrite (Hng _ Hn), (getDelegation_later _ _ Hs), h_source, (IH room p Hd); [done|cbn [length] in Hlen; lia|done].
Qed.

Lemma actor_grants_later r : ∃ new, actor_grants s' r = (f <$> actor_grants s r) ++ new ∧ (ng = [] → new = []).
Proof.
  eexists. unfold actor_grants, getGrantsBySubjectActor. rewrite (lt_grants _ _ _ _ _ _ Hlt). unfold map_values. rewrite fmap_app.
  change (snd <$> (prod_map id f <$> grants s)) with (map_values (prod_map id f <$> grants s)). rewrite map_values_fmap, !List.filter_app.
  rewrite !filter_fmap by (intros g; same_fields). split; [reflexivity|by intros ->].
Qed.
Lemma actor_delegations_later r : ∃ new, actor_delegations s' r = (h <$> actor_delegations s r) ++ new.
Proof.
  eexists. unfold actor_delegations, getDelegationsByDelegateActor. rewrite (lt_delegations _ _ _ _ _ _ Hlt). unfold map_values. rewrite fmap_app.
  change (snd <$> (prod_map id h <$> delegations s)) with (map_values (prod_map id h <$> delegations s)). rewrite map_values_fmap, !List.filter_app.
  rewrite !filter_fmap by (intros d; same_fields). reflexivity.
Qed.

Local Opaque grant_parents delegation_sources.

Lemma collectDelegationAncestry_later d ds gs : ng = [] → delegation_line s (d :: ds) gs →
  (length (refs_of (d :: ds) gs) ≤ S MAX_ANCESTRY_HOPS)%nat →
  collectDelegationAncestry s' (h d) = (h <$> d :: ds, f <$> gs).
Proof.
  intros Hng Hl Hlen. unfold collectDelegationAncestry. rewrite h_source.
  rewrite (delegation_sources_later _ _ _ _ (λ i, getGrant_later_None i Hng) Hl); [done| |];
    destruct (delegation_line_grants _ _ _ Hl); count_refs.
Qed.

Lemma find_grant_later r g :
  List.find (λ g, includes (g_actions g) (cr_action r)) (actor_grants s r) = Some g →
  List.find (λ g, includes (g_actions g) (cr_action r)) (actor_grants s' r) = Some (f g).
Proof.
  intros E. destruct (actor_grants_later r) as (new&->&_). rewrite find_of_app, find_fmap by (intros; same_fields). by rewrite E.
Qed.
Lemma find_grant_later_None r : ng = [] →
  List.find (λ g, includes (g_actions g) (cr_action r)) (actor_grants s r) = None →
  List.find (λ g, includes (g_actions g) (cr_action r)) (actor_grants s' r) = None.
Proof.
  intros Hng E. destruct (actor_grants_later r) as (new&->&Hnew). rewrite find_of_app, find_fmap by (intros; same_fields).
  by rewrite E, (Hnew Hng).
Qed.
Lemma find_delegation_later r d :
  List.find (λ d, includes (d_actions d) (cr_action r)) (actor_delegations s r) = Some d →
  List.find (λ d, includes (d_actions d) (cr_action r)) (actor_delegations s' r) = Some (h d).
Proof.
  intros E. destruct (actor_delegations_later r) as (new&->). rewrite find_of_app, find_fmap by (intros; same_fields). by rewrite E.
Qed.

(** A chain that stood is resolved to the same records later. *)
Lemma resolve_later r now gs ds :
  resolve_records s r = (gs, ds, chain_valid) → legitimate s r now gs ds → (ds = [] ∨ ng = []) →
  resolve_records s' r = (f <$> gs, h <$> ds, chain_valid).
Proof.
  intros Hr [Hl _ Hlen _ _ _ _ _ _ _ _ _] Hcase.
  destruct (List.find (λ g, includes (g_actions g) (cr_action r)) (actor_grants s r)) as [g|] eqn:Eg.
  - rewrite (resolve_by_grant _ _ _ Eg) in Hr. rewrite (resolve_by_grant _ _ _ (find_grant_later _ _ Eg)).
    destruct (collectGrantAncestry_cons s g) as [ps Eps]. rewrite Eps in Hr. injection Hr as <- <-.
    rewrite (collectGrantAncestry_later _ _ Hl); [done|]. count_refs.
  - destruct (List.find (λ d, includes (d_actions d) (cr_action r)) (actor_delegations s r)) as [d|] eqn:Ed;
      [|rewrite (resolve_by_neither _ _ Eg Ed) in Hr; by destruct (actor_grants s r), (actor_delegations s r)].
    rewrite (resolve_by_delegation _ _ _ Eg Ed) in Hr.
    destruct Hcase as [->|Hng]; [by destruct (collectDelegationAncestry_cons s d) as (?&?&E); rewrite E in Hr|].
    rewrite (resolve_by_delegation _ _ _ (find_grant_later_None _ Hng Eg) (find_delegation_later _ _ Ed)).
    destruct (collectDelegationAncestry_cons s d) as (ds'&gs'&E). rewrite E in Hr. cbn [fst snd] in Hr. injection Hr as <- <-.
    rewrite (collectDelegationAncestry_later _ _ _ Hng (proj1 Hl) Hlen). reflexivity.
Qed.
End Later.

(** *** One withdrawal *)

Definition set_grant_status (i : string) (st : RecordStatus) (g : AuthorityGrant) : AuthorityGrant :=
  if str_eqb (g_id g) i then grant_with_status g st else g.
Definition set_delegation_status (i : string) (st : RecordStatus) (d : DelegationGrant) : DelegationGrant :=
  if str_eqb (d_id d) i then delegation_with_status d st else d.

Lemma grant_same_status g : grant_with_status g (g_status g) = g.
Proof. by destruct g. Qed.
Lemma delegation_same_status d : delegation_with_status d (d_status d) = d.
Proof. by destruct d. Qed.
Lemma set_grant_status_is i st g : ∃ st', set_grant_status i st g = grant_with_status g st'.
Proof. unfold set_grant_status. destruct (str_eqb _ _); [by eexists|]. exists (g_status g). by rewrite grant_same_status. Qed.
Lemma set_delegation_status_is i st d : ∃ st', set_delegation_status i st d = delegation_with_status d st'.
Proof. unfold set_delegation_status. destruct (str_eqb _ _); [by eexists|]. exists (d_status d). by rewrite delegation_same_status. Qed.
Lemma delegation_is_itself (d : DelegationGrant) : ∃ st', id d = delegation_with_status d st'.
Proof. exists (d_status d). by rewrite delegation_same_status. Qed.
Lemma grant_is_itself (g : AuthorityGrant) : ∃ st', id g = grant_with_status g st'.
Proof. exists (g_status g). by rewrite grant_same_status. Qed.

Lemma later_grant_status i st s g s' s'' : graph_ok s → updateGrantStatus i st s = Ok (g, s') →
  grants s'' = grants s' → delegations s'' = delegations s' → rootIssuersByTrustDomain s'' = rootIssuersByTrustDomain s' →
  later (set_grant_status i st) id [] [] s s''.
Proof.
  intros Hok. unfold updateGrantStatus. destruct (map_get i (grants s)) as [g0|] eqn:E; [|done]. intros [= <- <-]. cbn. intros Hg Hd Hr.
  assert (g_id g0 = i) as Ei by (by apply Hok).
  split; [apply set_grant_status_is|apply delegation_is_itself| | |unfold isRootIssuer; by rewrite Hr].
  - rewrite Hg, app_nil_r. rewrite <-(map_set_mapped g_id (set_grant_status i st) i g0);
      [unfold set_grant_status; by rewrite Ei, str_eqb_refl|apply Hok|done|].
    intros w Hw. unfold set_grant_status. by rewrite (proj2 (str_eqb_neq _ _) Hw).
  - by rewrite Hd, app_nil_r, prod_map_id.
Qed.
Lemma later_delegation_status i st s d s' s'' : graph_ok s → updateDelegationStatus i st s = Ok (d, s') →
  grants s'' = grants s' → delegations s'' = delegations s' → rootIssuersByTrustDomain s'' = rootIssuersByTrustDomain s' →
  later id (set_delegation_status i st) [] [] s s''.
Proof.
  intros Hok. unfold updateDelegationStatus. destruct (map_get i (delegations s)) as [d0|] eqn:E; [|done]. intros [= <- <-]. cbn. intros Hg Hd Hr.
  assert (d_id d0 = i) as Ei by (by apply Hok).
  split; [apply grant_is_itself|apply set_delegation_status_is| | |unfold isRootIssuer; by rewrite Hr].
  - by rewrite Hg, app_nil_r, prod_map_id.
  - rewrite Hd, app_nil_r. rewrite <-(map_set_mapped d_id (set_delegation_status i st) i d0);
      [unfold set_delegation_status; by rewrite Ei, str_eqb_refl|apply Hok|done|].
    intros w Hw. unfold set_delegation_status. by rewrite (proj2 (str_eqb_neq _ _) Hw).
Qed.

(** The record an operation withdraws, and the status it leaves it in. *)
Inductive Target := t_grant (id : string) | t_delegation (id : string).
Definition withdrawal (op : RuntimeOp) : option (Target * RecordStatus) :=
  match op with
  | OpRevokeGrant i _ _ => Some (t_grant i, as_revoked)
  | OpSuspendGrant i => Some (t_grant i, as_suspended)
  | OpExpireGrant i => Some (t_grant i, as_expired)
  | OpRevokeDelegation i _ _ => Some (t_delegation i, as_revoked)
  | OpSuspendDelegation i => Some (t_delegation i, as_suspended)
  | OpExpireDelegation i => Some (t_delegation i, as_expired)
  | _ => None
  end.
Definition in_chain (c : AuthorityChain) (t : Target) : Prop :=
  match t with t_grant i => i ∈ g_id <$> ch_grants c | t_delegation i => i ∈ d_id <$> ch_delegations c end.
Definition denial_of (st : RecordStatus) : AuthorityDecisionType := match st with as_expired => ancestor_expired | _ => ancestor_revoked end.

Definition set_on_grants (t : Target) (st : RecordStatus) : AuthorityGrant → AuthorityGrant :=
  match t with t_grant i => set_grant_status i st | t_delegation _ => id end.
Definition set_on_delegations (t : Target) (st : RecordStatus) : DelegationGrant → DelegationGrant :=
  match t with t_grant _ => id | t_delegation i => set_delegation_status i st end.
Definition stored (s : AuthorityGraphStore) (t : Target) : Prop :=
  match t with t_grant i => is_Some (getGrant s i) | t_delegation i => is_Some (getDelegation s i) end.

Section Withdraw.
Context `{JsHost} (ctx : AuthorityRuntimeContext).

Lemma updateGrantStatus_stored i st s : is_Some (getGrant s i) → ∃ g s', updateGrantStatus i st s = Ok (g, s').
Proof. unfold getGrant, updateGrantStatus. intros [g ->]. by eexists _, _. Qed.
Lemma updateDelegationStatus_stored i st s : is_Some (getDelegation s i) → ∃ d s', updateDelegationStatus i st s = Ok (d, s').
Proof. unfold getDelegation, updateDelegationStatus. intros [g ->]. by eexists _, _. Qed.

Ltac run_withdrawal :=
  unfold after; cbn [run_op]; unfold void, revokeAuthorityGrant, suspendAuthorityGrant, expireAuthorityGrant, revokeDelegationGrant,
    suspendDelegationGrant, expireDelegationGrant, recordRevocationLink, update_store, mbind, M_bind;
  match goal with E : _ = Ok _ |- _ => rewrite E end; cbv beta iota; cbn [nextId now_ modify_store];
  edestruct recordEvent_run as [? ->].

Lemma after_withdrawal rt op t st :
  graph_ok (rt_store rt) → withdrawal op = Some (t, st) → stored (rt_store rt) t →
  later (set_on_grants t st) (set_on_delegations t st) [] [] (rt_store rt) (rt_store (after ctx rt op)).
Proof.
  intros Hok Hw Hs. destruct op; try discriminate Hw; cbn [withdrawal] in Hw; injection Hw as <- <-; cbn [stored set_on_grants set_on_delegations] in *.
  1-3: edestruct updateGrantStatus_stored as (g&s'&E); [exact Hs|]; eapply later_grant_status; [done|exact E|..]; by run_withdrawal.
  1-3: edestruct updateDelegationStatus_stored as (g&s'&E); [exact Hs|]; eapply later_delegation_status; [done|exact E|..]; by run_withdrawal.
Qed.

End Withdraw.

Section Denied.
Context (s : AuthorityGraphStore) (r : AuthorityChainRequest) (gs : list AuthorityGrant) (ds : list DelegationGrant) (i created now : string).
Local Transparent decide_chain.

(** What a chain must satisfy for the withdrawal policies to be reached. *)
Definition issued_properly : Prop :=
  (Forall (λ g, g_issuerActorId g ≠ g_subjectActorId g) gs ∧ Forall (λ d, d_delegatorActorId d ≠ d_delegateActorId d) ds) ∧
  ∀ root, last gs = Some root → hand_to_hand gs ∧
    (is_Some (g_parentGrantId root) ∨ isRootIssuer s (cr_trustDomainId r) (g_issuerActorId root) = true).

Lemma decide_after_issuance ps :
  issued_properly → createDefaultAuthorityPolicyChain = AuthorityChainRequiredPolicy :: SelfIssuancePolicy :: IssuerAuthorityPolicy :: ps →
  (decide_chain s r (build_chain r gs ds chain_valid i created) now).1 =
  match first_denial ps r (policy_context s r (build_chain r gs ds chain_valid i created) now) with Some (_, t) => t | None => authority_valid end.
Proof.
  intros [Hself Hiss] Hps. unfold decide_chain. rewrite Hps. cbn [first_denial].
  rewrite (proj2 (required_passes s r gs ds chain_valid i created now) eq_refl),
    (proj2 (self_issuance_passes s r gs ds chain_valid i created now) Hself), (proj2 (issuer_passes s r gs ds chain_valid i created now) Hiss).
  by destruct (first_denial _ _ _) as [[]|].
Qed.

Lemma existsb_true_Exists {A} (p : A → bool) l : existsb p l = true ↔ Exists (λ x, p x = true) l.
Proof. rewrite existsb_exists, Exists_exists. by setoid_rewrite list_elem_of_In. Qed.

Lemma decide_withdrawn :
  issued_properly → Exists (λ g, withdrawn (g_status g) = true) gs ∨ Exists (λ d, withdrawn (d_status d) = true) ds →
  (decide_chain s r (build_chain r gs ds chain_valid i created) now).1 = ancestor_revoked.
Proof.
  intros Hiss Hw. rewrite (decide_after_issuance _ Hiss eq_refl). cbn [first_denial]. unfold AncestorRevocationPolicy.
  cbn [policy_context build_chain pc_chain ch_grants ch_delegations].
  destruct (existsb (λ g, withdrawn (g_status g)) gs) eqn:E; [done|]. rewrite <-!existsb_true_Exists in Hw. destruct Hw as [Hw|Hw]; [congruence|].
  by rewrite Hw.
Qed.

Lemma decide_lapsed :
  issued_properly → Forall (λ g, withdrawn (g_status g) = false) gs → Forall (λ d, withdrawn (d_status d) = false) ds →
  Exists (λ g, lapsed (g_status g) (g_expiresAt g) now = true) gs ∨ Exists (λ d, lapsed (d_status d) (d_expiresAt d) now = true) ds →
  (decide_chain s r (build_chain r gs ds chain_valid i created) now).1 = ancestor_expired.
Proof.
  intros Hiss Hg%existsb_false_Forall Hd%existsb_false_Forall Hw. rewrite (decide_after_issuance _ Hiss eq_refl). cbn [first_denial].
  unfold AncestorRevocationPolicy, AncestorExpirationPolicy. cbn [policy_context build_chain pc_chain pc_now ch_grants ch_delegations].
  rewrite Hg, Hd. destruct (existsb (λ g, lapsed (g_status g) (g_expiresAt g) now) gs) eqn:E; [done|].
  rewrite <-!existsb_true_Exists in Hw. destruct Hw as [Hw|Hw]; [congruence|]. by rewrite Hw.
Qed.
End Denied.

(** Everything the issuance policies read survives a change of statuses. *)
Lemma issued_properly_later f h ng nd s s' r now gs ds :
  later f h ng nd s s' → legitimate s r now gs ds → issued_properly s' r (f <$> gs) (h <$> ds).
Proof.
  intros Hlt [_ _ _ [Hsg Hsd] Hhand (root&Hroot&Hacc) _ _ _ _ _ _]. split; [split; apply Forall_fmap|].
  - eapply Forall_impl; [exact Hsg|]. intros g. cbn. by destruct (lt_f _ _ _ _ _ _ Hlt g) as [st ->].
  - eapply Forall_impl; [exact Hsd|]. intros d. cbn. by destruct (lt_h _ _ _ _ _ _ Hlt d) as [st ->].
  - intros root'. rewrite fmap_last, Hroot. cbn. intros [= <-]. split.
    + intros k c p. rewrite !list_lookup_fmap. destruct (gs !! k) as [c0|] eqn:Ec, (gs !! S k) as [p0|] eqn:Ep; cbn; try done.
      intros [= <-] [= <-]. destruct (lt_f _ _ _ _ _ _ Hlt c0) as [? ->], (lt_f _ _ _ _ _ _ Hlt p0) as [? ->]. exact (Hhand k c0 p0 Ec Ep).
    + right. destruct (lt_f _ _ _ _ _ _ Hlt root) as [? ->]. by apply (lt_roots _ _ _ _ _ _ Hlt).
Qed.

Section Cascade.
Context `{JsHost} (ctx : AuthorityRuntimeContext).

Lemma verify_decision r rt rt0 d : verifyAuthority ctx r rt = Ok (d, rt0) →
  de_type d = (decide_chain (rt_store rt) r (verify_chain ctx rt r) (verify_now ctx rt)).1 ∧ de_chain d = verify_chain ctx rt r ∧
  rt_store rt0 = rt_store rt.
Proof.
  intros Hv. destruct (verifyAuthority_run ctx r rt) as (d'&rt'&Hv'&Hs&Ht&_&Hc&_). rewrite Hv in Hv'. injection Hv' as <- <-.
  rewrite <-Ht. done.
Qed.

Lemma verify_chain_build rt r gs ds st : resolve_records (rt_store rt) r = (gs, ds, st) →
  ∃ i created, verify_chain ctx rt r = build_chain r gs ds st i created.
Proof. unfold verify_chain, resolved_chain. intros ->. by eexists _, _. Qed.

(** The record a withdrawal names carries the new status in the later chain;
    the others keep theirs. *)
Lemma set_status_hits t st gs ds i created r :
  in_chain (build_chain r gs ds chain_valid i created) t →
  Exists (λ g, g_status g = st) (set_on_grants t st <$> gs) ∨ Exists (λ d, d_status d = st) (set_on_delegations t st <$> ds).
Proof.
  destruct t as [k|k]; cbn [in_chain build_chain ch_grants ch_delegations set_on_grants set_on_delegations];
    intros (x&->&Hx)%list_elem_of_fmap; [left|right]; apply Exists_exists; eexists; (split; [by apply list_elem_of_fmap_2|]).
  - unfold set_grant_status. by rewrite str_eqb_refl.
  - unfold set_delegation_status. by rewrite str_eqb_refl.
Qed.
Lemma set_status_statuses t st gs ds now :
  Forall (λ g, live (g_status g) (g_expiresAt g) now) gs → Forall (λ d, live (d_status d) (d_expiresAt d) now) ds →
  Forall (λ g, g_status g = as_active ∨ g_status g = st) (set_on_grants t st <$> gs) ∧
  Forall (λ d, d_status d = as_active ∨ d_status d = st) (set_on_delegations t st <$> ds).
Proof.
  intros Hg Hd. split; apply Forall_fmap; (eapply Forall_impl; [eassumption|]); intros x [Hx _]; cbn; destruct t as [k|k];
    cbn [set_on_grants set_on_delegations]; unfold set_grant_status, set_delegation_status; try destruct (str_eqb _ _); auto.
Qed.

Lemma stored_in_chain s r gs ds i created now t :
  graph_ok s → resolve_records s r = (gs, ds, chain_valid) → legitimate s r now gs ds →
  in_chain (build_chain r gs ds chain_valid i created) t → stored s t.
Proof.
  intros Hok Hr Hl. destruct t as [k|k]; cbn [in_chain build_chain ch_grants ch_delegations stored];
    intros (x&->&Hx)%list_elem_of_fmap.
  - exists x. pose proof (line_grants _ _ _ (lg_line _ _ _ _ _ Hl)) as Hgl. clear -Hgl Hx.
    induction Hgl as [g Hg _|g p rest Hg _ _ IH]; [by apply list_elem_of_singleton in Hx as ->|].
    apply elem_of_cons in Hx as [->|Hx]; [done|by apply IH].
  - exists x. destruct (resolve_valid_shape s Hok r gs ds Hr) as [(g&->&_)|(d&Hds&_&Hd&_)]; [by apply elem_of_nil in Hx|].
    pose proof (lg_line _ _ _ _ _ Hl) as Hline. unfold collectDelegationAncestry in Hds. cbn [fst] in Hds. rewrite Hds in Hx, Hline.
    destruct Hline as [Hline _]. clear -Hline Hx Hd. apply elem_of_cons in Hx as [->|Hx]; [done|].
    revert Hx Hline. generalize (delegation_sources s MAX_ANCESTRY_HOPS (d_sourceAuthorityGrantId d)).1 as l. intros l. revert d Hd.
    induction l as [|p l IH]; intros d _ Hx Hline; [by apply elem_of_nil in Hx|].
    inversion Hline as [|d0 p' ds0 gs0 _ _ Hp Hrest]; subst. apply elem_of_cons in Hx as [->|Hx]; [done|by apply (IH p)].
Qed.

(** C12. Withdrawal cascades: where no grant is filed under the empty id, once a
    grant or delegation anywhere in the chain of a valid decision is revoked or suspended, the same request is denied as
    resting on a revoked ancestor; once it is expired, on an expired one. *)
Theorem withdrawal_cascades ops r d rt1 op t st :
  let rt := run_ops ctx new_runtime ops in
  getGrant (rt_store rt) "" = None → verifyAuthority ctx r rt = Ok (d, rt1) → de_valid d = true →
  withdrawal op = Some (t, st) → in_chain (de_chain d) t →
  ∃ d' rt2, verifyAuthority ctx r (after ctx rt1 op) = Ok (d', rt2) ∧ de_type d' = denial_of st ∧ de_valid d' = false.
Proof.
  intros rt Hempty Hv Hval Hw Hin. pose proof (run_ops_ok ctx new_runtime ops new_runtime_ok) as Hok. fold rt in Hok.
  apply (verify_valid_iff ctx r rt d rt1 (ok_graph _ Hok) Hempty Hv) in Hval as (gs&ds&Hr&Hl).
  destruct (verify_decision _ _ _ _ Hv) as (_&Hc&Hs1). destruct (verify_chain_build _ _ _ _ _ Hr) as (i&created&Eb). rewrite Hc, Eb in Hin.
  pose proof (stored_in_chain _ _ _ _ _ _ _ _ (ok_graph _ Hok) Hr Hl Hin) as Hst.
  assert (graph_ok (rt_store rt1)) as Hok1 by (rewrite Hs1; apply Hok). rewrite <-Hs1 in Hst.
  pose proof (after_withdrawal ctx rt1 op t st Hok1 Hw Hst) as Hlt. rewrite Hs1 in Hlt.
  pose proof (resolve_later Hlt Hempty r _ _ _ Hr Hl (or_intror eq_refl)) as Hr'.
  destruct (verifyAuthority_run ctx r (after ctx rt1 op)) as (d'&rt2&Hv'&_&_&Hva&_&_). exists d', rt2. split; [done|].
  assert (de_type d' = denial_of st) as Ht; [|split; [done|]; rewrite Hva, Ht; by destruct st].
  destruct (verify_decision _ _ _ _ Hv') as (->&_&_). destruct (verify_chain_build _ _ _ _ _ Hr') as (i'&created'&->).
  pose proof (issued_properly_later _ _ _ _ _ _ _ _ _ _ Hlt Hl) as Hiss.
  pose proof (set_status_hits t st gs ds i created r Hin) as Hhit.
  destruct (lg_live _ _ _ _ _ Hl) as [Hlg Hld]. destruct (set_status_statuses t st _ _ _ Hlg Hld) as [Hsg Hsd].
  assert (st = as_expired ∨ withdrawn st = true) as [->|Hwd] by (destruct op; try discriminate Hw; injection Hw as _ <-; auto).
  - apply decide_lapsed; [done| | |].
    + eapply Forall_impl; [exact Hsg|]. intros g [->| ->]; done.
    + eapply Forall_impl; [exact Hsd|]. intros g [->| ->]; done.
    + destruct Hhit as [Hhit|Hhit]; [left|right]; (eapply Exists_impl; [exact Hhit|]); intros x ->; done.
  - assert (denial_of st = ancestor_revoked) as -> by (by destruct st). apply decide_withdrawn; [done|].
    destruct Hhit as [Hhit|Hhit]; [left|right]; (eapply Exists_impl; [exact Hhit|]); by intros x ->.
Qed.

End Cascade.

(** *** Withdrawn for good *)

(** The store grows: records keep their place and everything but their status,
    none becomes active again, and new ones come last. *)
Definition grows (s s' : AuthorityGraphStore) : Prop :=
  ∃ f h ng nd, later f h ng nd s s' ∧ ∀ g, g_status g ≠ as_active → g_status (f g) ≠ as_active.

Lemma later_same s s' : grants s' = grants s → delegations s' = delegations s →
  (∀ t a, isRootIssuer s t a = true → isRootIssuer s' t a = true) → later id id [] [] s s'.
Proof.
  intros Hg Hd Hr. split; [apply grant_is_itself|apply delegation_is_itself| | |done]; by rewrite ?Hg, ?Hd, app_nil_r, prod_map_id.
Qed.
Lemma grows_same s s' : grants s' = grants s → delegations s' = delegations s →
  (∀ t a, isRootIssuer s t a = true → isRootIssuer s' t a = true) → grows s s'.
Proof. intros Hg Hd Hr. exists id, id, [], []. split; [by apply later_same|done]. Qed.

Lemma later_trans f1 h1 ng1 nd1 f2 h2 ng2 nd2 s1 s2 s3 : later f1 h1 ng1 nd1 s1 s2 → later f2 h2 ng2 nd2 s2 s3 →
  later (f2 ∘ f1) (h2 ∘ h1) ((prod_map id f2 <$> ng1) ++ ng2) ((prod_map id h2 <$> nd1) ++ nd2) s1 s3.
Proof.
  intros [F1 H1 G1 D1 R1] [F2 H2 G2 D2 R2]. split; [| | | |auto].
  - intros g. cbn. destruct (F1 g) as [st1 ->], (F2 (grant_with_status g st1)) as [st2 ->]. by exists st2.
  - intros d. cbn. destruct (H1 d) as [st1 ->], (H2 (delegation_with_status d st1)) as [st2 ->]. by exists st2.
  - rewrite G2, G1, fmap_app, <-app_assoc, <-list_fmap_compose. by do 2 f_equal.
  - rewrite D2, D1, fmap_app, <-app_assoc, <-list_fmap_compose. by do 2 f_equal.
Qed.
#[export] Instance grows_preorder : PreOrder grows.
Proof.
  split; [intros s; by apply grows_same|].
  intros s1 s2 s3 (f1&h1&ng1&nd1&L1&A1) (f2&h2&ng2&nd2&L2&A2). eexists _, _, _, _. split; [by eapply later_trans|]. cbn. auto.
Qed.

Lemma grows_putGrant g s : getGrant s (g_id g) = None → grows s (putGrant g s).
Proof.
  intros Hg. exists id, id, [(g_id g, g)], []. split; [|done]. split; [apply grant_is_itself|apply delegation_is_itself| | |done].
  - cbn. by rewrite (map_set_fresh _ _ _ Hg), prod_map_id.
  - by rewrite app_nil_r, prod_map_id.
Qed.
Lemma grows_putDelegation d s : getDelegation s (d_id d) = None → grows s (putDelegation d s).
Proof.
  intros Hd. exists id, id, [], [(d_id d, d)]. split; [|done]. split; [apply grant_is_itself|apply delegation_is_itself| | |done].
  - by rewrite app_nil_r, prod_map_id.
  - cbn. by rewrite (map_set_fresh _ _ _ Hd), prod_map_id.
Qed.
Lemma set_on_grants_inactive t st g : st ≠ as_active → g_status g ≠ as_active → g_status (set_on_grants t st g) ≠ as_active.
Proof. intros Hst Hg. destruct t; cbn [set_on_grants]; [|done]. unfold set_grant_status. by destruct (str_eqb _ _). Qed.

Section Growth.
Context `{JsHost} (ctx : AuthorityRuntimeContext).

(** The id under which an operation files a grant or a delegation. *)
Definition filed_grant_id (rt : AuthorityGraphRuntime) (op : RuntimeOp) : option string :=
  match op with
  | OpIssue i | OpDeriveFromRole _ i => Some (default (ids_nextId ctx (rt_calls rt) "authority-grant") (ig_id i))
  | OpImportGrant g => Some (g_id g)
  | _ => None
  end.
Definition filed_delegation_id (rt : AuthorityGraphRuntime) (op : RuntimeOp) : option string :=
  match op with
  | OpDelegate i => Some (default (ids_nextId ctx (rt_calls rt) "delegation-grant") (cd_id i))
  | OpImportDelegation d => Some (d_id d)
  | _ => None
  end.
Definition files_fresh (rt : AuthorityGraphRuntime) (op : RuntimeOp) : bool :=
  negb (is_some (filed_grant_id rt op ≫= getGrant (rt_store rt))) && negb (is_some (filed_delegation_id rt op ≫= getDelegation (rt_store rt))).
(** No operation of the sequence files a record under an id that is taken. *)
Fixpoint all_fresh (rt : AuthorityGraphRuntime) (ops : list RuntimeOp) : bool :=
  match ops with [] => true | op :: ops => files_fresh rt op && all_fresh (after ctx rt op) ops end.

Lemma service_issue_store i rt g rt' : service_issueAuthorityGrant ctx i rt = Ok (g, rt') →
  rt_store rt' = putGrant g (rt_store rt) ∧ g_id g = default (ids_nextId ctx (rt_calls rt) "authority-grant") (ig_id i).
Proof.
  unfold service_issueAuthorityGrant. erewrite bind_run by reflexivity. unfold mbind at 1, M_bind at 1, lift_result.
  destruct (issue_checks _ _); [|done]. destruct (ig_id i) as [id|]; by intros [= <- <-].
Qed.
Lemma service_delegate_store i rt d rt' : service_createDelegationGrant ctx i rt = Ok (d, rt') →
  rt_store rt' = putDelegation d (rt_store rt) ∧ d_id d = default (ids_nextId ctx (rt_calls rt) "delegation-grant") (cd_id i) ∧
  ∃ src issuedAt, delegation_checks (rt_store rt) i = Ok src ∧ d = build_delegation i src (d_id d) issuedAt.
Proof.
  unfold service_createDelegationGrant. erewrite bind_run by reflexivity. unfold mbind at 1, M_bind at 1, lift_result.
  destruct (delegation_checks _ _) as [src|] eqn:E; [|done]. destruct (cd_id i) as [id|]; intros [= <- <-]; eauto 10.
Qed.

Lemma modify_store_run f rt a rt' : modify_store f rt = Ok (a, rt') → rt_store rt' = f (rt_store rt).
Proof. by intros [= <- <-]. Qed.

Lemma bind_event_store {A} (m : M A) (ev : A → AuthorityEventInput) rt a rt' :
  (x ← m; _ ← recordEvent ctx (ev x); mret x) rt = Ok (a, rt') → ∃ rt0, m rt = Ok (a, rt0) ∧ rt_store rt' = rt_store rt0.
Proof.
  unfold mbind at 1, M_bind at 1. destruct (m rt) as [[x rt0]|]; [|done]. destruct (recordEvent_run ctx (ev x) rt0) as [e He].
  rewrite (bind_run _ _ _ _ _ He). intros [= <- <-]. by exists rt0.
Qed.

Lemma void_store {A} (m : M A) rt u rt' : void m rt = Ok (u, rt') → ∃ a, m rt = Ok (a, rt').
Proof. unfold void, mbind, M_bind. destruct (m rt) as [[a rt0]|]; [|done]. intros [= _ <-]. by exists a. Qed.

Lemma fresh_grant rt i : negb (is_some (Some i ≫= getGrant (rt_store rt))) = true → getGrant (rt_store rt) i = None.
Proof. cbn. by destruct (getGrant _ _). Qed.
Lemma fresh_delegation rt i : negb (is_some (Some i ≫= getDelegation (rt_store rt))) = true → getDelegation (rt_store rt) i = None.
Proof. cbn. by destruct (getDelegation _ _). Qed.

Lemma withdrawal_inactive op t st : withdrawal op = Some (t, st) → st ≠ as_active.
Proof. destruct op; cbn; try done; by intros [= _ <-]. Qed.

Lemma isRootIssuer_register t a s t' a' : isRootIssuer s t' a' = true → isRootIssuer (store_registerRootIssuer t a s) t' a' = true.
Proof.
  unfold isRootIssuer. rewrite !bool_decide_eq_true. cbn. destruct (decide (t = t')) as [->|Hne]; [|by rewrite lookup_insert_ne].
  rewrite lookup_insert_eq. cbn. set_solver.
Qed.

Lemma withdrawal_unstored rt op t st : withdrawal op = Some (t, st) → ¬ stored (rt_store rt) t → after ctx rt op = rt.
Proof.
  intros Hw Hs. destruct op; try discriminate Hw; injection Hw as <- <-; cbn [stored] in Hs;
    unfold after; cbn [run_op]; unfold void, revokeAuthorityGrant, suspendAuthorityGrant, expireAuthorityGrant, revokeDelegationGrant,
      suspendDelegationGrant, expireDelegationGrant, update_store, updateGrantStatus, updateDelegationStatus, mbind, M_bind;
    unfold getGrant, getDelegation in Hs; (destruct (map_get _ _) in *; [by destruct Hs|done]).
Qed.

Lemma grows_withdrawal rt op t st : graph_ok (rt_store rt) → withdrawal op = Some (t, st) → grows (rt_store rt) (rt_store (after ctx rt op)).
Proof.
  intros Hok Hw. assert (stored (rt_store rt) t ∨ ¬ stored (rt_store rt) t) as [Hs|Hs].
  { destruct t as [i|i]; cbn; [destruct (getGrant _ i)|destruct (getDelegation _ i)]; eauto; right; by intros []. }
  - eexists _, _, _, _. split; [by apply after_withdrawal|]. intros g. by apply set_on_grants_inactive, (withdrawal_inactive op t).
  - by rewrite (withdrawal_unstored _ _ _ _ Hw Hs).
Qed.

Lemma grows_step rt op : graph_ok (rt_store rt) → files_fresh rt op = true → grows (rt_store rt) (rt_store (after ctx rt op)).
Proof.
  intros Hok [Hfg Hfd]%andb_true_iff. destruct (withdrawal op) as [[t st]|] eqn:Hw; [by apply (grows_withdrawal rt op t st)|].
  unfold after. destruct (run_op ctx op rt) as [[u rt']|] eqn:E; [|reflexivity].
  destruct op; try discriminate Hw; cbn [run_op filed_grant_id filed_delegation_id] in *.
  - apply modify_store_run in E as ->. apply grows_same; [done|done|]. intros. by apply isRootIssuer_register.
  - apply modify_store_run in E as ->. by apply grows_same.
  - apply modify_store_run in E as ->. by apply grows_same.
  - apply modify_store_run in E as ->. by apply grows_same.
  - apply void_store in E as [g E]. apply bind_event_store in E as (rt0&E&->). apply service_issue_store in E as [-> Hid].
    apply grows_putGrant. rewrite Hid. by apply fresh_grant.
  - apply void_store in E as [g E]. apply bind_event_store in E as (rt0&E&->). apply service_delegate_store in E as (->&Hid&_).
    apply grows_putDelegation. rewrite Hid. by apply fresh_delegation.
  - apply void_store in E as [g E]. unfold assignRole in E. by destruct (ar_id i); injection E as <- <-; apply grows_same.
  - apply void_store in E as [g E]. unfold role_status, update_store, updateRoleAssignmentStatus in E.
    destruct (map_get _ _); [|done]. injection E as <- <-. by apply grows_same.
  - apply void_store in E as [g E]. unfold deriveAuthorityGrantFromRole in E. unfold mbind, M_bind, get_store in E.
    destruct (getRoleAssignment _ _); [|done]. apply service_issue_store in E as [-> Hid]. apply grows_putGrant. rewrite Hid. by apply fresh_grant.
  - injection E as <- <-. by apply grows_putGrant, fresh_grant.
  - injection E as <- <-. by apply grows_putDelegation, fresh_delegation.
  - apply void_store in E as [d E]. by destruct (verify_decision ctx _ _ _ _ E) as (_&_&->).
Qed.

Lemma grows_run rt ops : runtime_ok rt → all_fresh rt ops = true → grows (rt_store rt) (rt_store (run_ops ctx rt ops)).
Proof.
  revert rt. induction ops as [|op ops IH]; intros rt Hok Hf; cbn in *; [done|]. apply andb_true_iff in Hf as [Hf Hfs].
  etransitivity; [by apply grows_step; [apply Hok|]|]. apply IH; [by apply after_ok|done].
Qed.

Lemma inactive_denied s r gs ds i created now :
  Exists (λ g, g_status g ≠ as_active) gs → (decide_chain s r (build_chain r gs ds chain_valid i created) now).1 ≠ authority_valid.
Proof.
  intros Hex Hv%decide_valid. unfold createDefaultAuthorityPolicyChain in Hv. rewrite !Forall_cons in Hv. destruct Hv as (_&_&_&Hrev&Hexp&_).
  destruct (proj1 (liveness_passes s r gs ds chain_valid i created now) (conj Hrev Hexp)) as [Hlive _].
  apply Exists_exists in Hex as (g&Hg&Hna). rewrite Forall_forall in Hlive. by destruct (Hlive g Hg).
Qed.

(** A withdrawal stands: when a valid decision rested on a grant held
    directly and a record of its chain is withdrawn, no sequence of later
    operations restores the request -- issuing, deriving, delegating,
    importing, changing statuses -- short of filing a record under an id that
    is already taken. *)
Theorem withdrawal_stands ops r d rt1 op t st later_ops :
  let rt := run_ops ctx new_runtime ops in
  getGrant (rt_store rt) "" = None → verifyAuthority ctx r rt = Ok (d, rt1) → de_valid d = true → ch_delegations (de_chain d) = [] →
  withdrawal op = Some (t, st) → in_chain (de_chain d) t → all_fresh (after ctx rt1 op) later_ops = true →
  ∃ d' rt2, verifyAuthority ctx r (run_ops ctx (after ctx rt1 op) later_ops) = Ok (d', rt2) ∧ de_valid d' = false.
Proof.
  intros rt Hempty Hv Hval Hdirect Hw Hin Hfresh. pose proof (run_ops_ok ctx new_runtime ops new_runtime_ok) as Hok. fold rt in Hok.
  apply (verify_valid_iff ctx r rt d rt1 (ok_graph _ Hok) Hempty Hv) in Hval as (gs&ds&Hr&Hl).
  destruct (verify_decision _ _ _ _ _ Hv) as (_&Hc&Hs1). destruct (verify_chain_build ctx _ _ _ _ _ Hr) as (i&created&Eb). rewrite Hc, Eb in Hin, Hdirect.
  cbn in Hdirect. subst ds. pose proof (stored_in_chain _ _ _ _ _ _ _ _ (ok_graph _ Hok) Hr Hl Hin) as Hst.
  pose proof (keeps_verify ctx r rt d rt1 Hok Hv) as Hok1. rewrite <-Hs1 in Hst.
  pose proof (after_withdrawal ctx rt1 op t st (ok_graph _ Hok1) Hw Hst) as Hlt.
  destruct (grows_run _ _ (after_ok ctx rt1 op Hok1) Hfresh) as (f2&h2&ng2&nd2&Hlt2&Hact).
  pose proof (later_trans _ _ _ _ _ _ _ _ _ _ _ Hlt Hlt2) as Hlt3. rewrite Hs1 in Hlt3.
  pose proof (resolve_later Hlt3 Hempty r _ _ _ Hr Hl (or_introl eq_refl)) as Hr'.
  destruct (verifyAuthority_run ctx r (run_ops ctx (after ctx rt1 op) later_ops)) as (d'&rt2&Hv'&_&_&Hva&_&_). exists d', rt2. split; [done|].
  rewrite Hva. apply bool_decide_eq_false. destruct (verify_decision _ _ _ _ _ Hv') as (->&_&_).
  destruct (verify_chain_build ctx _ _ _ _ _ Hr') as (i'&created'&->). apply inactive_denied. rewrite list_fmap_compose.
  destruct (set_status_hits t st gs [] i created r Hin) as [Hhit|Hhit%Exists_nil]; [|done]. apply Exists_exists in Hhit as (g&Hg&Hgs).
  apply Exists_exists. exists (f2 g). split; [by apply list_elem_of_fmap_2|]. apply Hact. rewrite Hgs. by apply (withdrawal_inactive op t).
Qed.

End Growth.

(** ** The logs *)

(** The digested contents of an event: everything but its id and its own hash;
    the payload up to what its text determines. *)
Definition same_event (e e' : AuthorityEvent) : Prop :=
  let i := ev_input e in let i' := ev_input e' in
  ei_type i = ei_type i' ∧ ei_trustDomainId i = ei_trustDomainId i' ∧ ei_actorId i = ei_actorId i' ∧ ei_issuerActorId i = ei_issuerActorId i' ∧
  ei_subjectActorId i = ei_subjectActorId i' ∧ ei_delegatorActorId i = ei_delegatorActorId i' ∧ ei_delegateActorId i = ei_delegateActorId i' ∧
  ei_authorityGrantId i = ei_authorityGrantId i' ∧ ei_delegationGrantId i = ei_delegationGrantId i' ∧
  ei_authorityDecisionId i = ei_authorityDecisionId i' ∧ ei_authorityProofId i = ei_authorityProofId i' ∧
  ev_timestamp e = ev_timestamp e' ∧ normal (ei_payload i) = normal (ei_payload i') ∧ ev_previousHash e = ev_previousHash e'.
Definition same_proof (p p' : AuthorityProof) : Prop :=
  pf_chainHash p = pf_chainHash p' ∧ pf_authorityDecisionId p = pf_authorityDecisionId p' ∧ pf_decisionType p = pf_decisionType p' ∧
  pf_valid p = pf_valid p' ∧ pf_evaluatedGrantIds p = pf_evaluatedGrantIds p' ∧ pf_evaluatedDelegationIds p = pf_evaluatedDelegationIds p' ∧
  pf_previousHash p = pf_previousHash p'.

Lemma event_type_text_inj t t' : event_type_text t = event_type_text t' → t = t'.
Proof. by destruct t, t'. Qed.
Lemma decision_type_text_inj t t' : decision_type_text t = decision_type_text t' → t = t'.
Proof. by destruct t, t'. Qed.

Lemma event_payload_inj e e' : normal (event_payload e) = normal (event_payload e') → same_event e e'.
Proof.
  intros E. unfold event_payload, event_json in E. unfold same_event. cbv zeta.
  split; [apply event_type_text_inj; field @same_text E "type"|]. split; [field @same_text E "trustDomainId"|].
  split; [field @same_option E "actorId"|]. split; [field @same_option E "issuerActorId"|]. split; [field @same_option E "subjectActorId"|].
  split; [field @same_option E "delegatorActorId"|]. split; [field @same_option E "delegateActorId"|].
  split; [field @same_option E "authorityGrantId"|]. split; [field @same_option E "delegationGrantId"|].
  split; [field @same_option E "authorityDecisionId"|]. split; [field @same_option E "authorityProofId"|].
  split; [field @same_text E "timestamp"|]. split; [field @same_value E "payload"|field @same_option E "previousHash"].
Qed.

Lemma proof_payload_inj p p' : normal (proof_payload p) = normal (proof_payload p') → same_proof p p'.
Proof.
  intros E. unfold proof_payload in E. split; [field @same_text E "chainHash"|]. split; [field @same_text E "authorityDecisionId"|].
  split; [apply decision_type_text_inj; field @same_text E "decisionType"|].
  split; [assert (normal (JBol (pf_valid p)) = normal (JBol (pf_valid p'))) as F by (field @same_value E "valid"); by injection F|].
  split; [field @same_texts E "evaluatedGrantIds"|]. split; [field @same_texts E "evaluatedDelegationIds"|field @same_option E "previousHash"].
Qed.

(** The logs are tamper-evident: in the runtimes of any two histories, if
    the last event hashes agree then the event logs record the same events in
    the same order -- type, actors, records, instant, payload, link -- and if
    the last proof hashes agree then the proof logs attest the same decisions,
    as long as no two different digested texts of the logs collide. *)
Theorem logs_tamper_evident `{JsHost} ctx ctx' ops ops' :
  let rt := run_ops ctx new_runtime ops in let rt' := run_ops ctx' new_runtime ops' in
  collision_free event_payload (rt_events rt) (rt_events rt') → collision_free proof_payload (rt_proofs rt) (rt_proofs rt') →
  (head_hash ev_eventHash (rt_events rt) = head_hash ev_eventHash (rt_events rt') → Forall2 same_event (rt_events rt) (rt_events rt')) ∧
  (head_hash pf_proofHash (rt_proofs rt) = head_hash pf_proofHash (rt_proofs rt') → Forall2 same_proof (rt_proofs rt) (rt_proofs rt')).
Proof.
  intros rt rt' Hce Hcp. destruct (run_ops_ok ctx new_runtime ops new_runtime_ok) as [_ He Hp].
  destruct (run_ops_ok ctx' new_runtime ops' new_runtime_ok) as [_ He' Hp']. split; intros Hh.
  - eapply Forall2_impl; [eapply (linked_tamper_evident event_payload); try done|apply event_payload_inj]. by intros x y Hxy%event_payload_inj; apply Hxy.
  - eapply Forall2_impl; [eapply (linked_tamper_evident proof_payload); try done|apply proof_payload_inj]. by intros x y Hxy%proof_payload_inj; apply Hxy.
Qed.

(** ** Issuing and delegating *)

(** What the source of a delegation must be for the delegator to hand it on. *)
Record delegable (s : AuthorityGraphStore) (i : CreateDelegationGrantInput) (src : ResolvedSourceAuthority) : Prop := {
  dg_distinct : cd_delegatorActorId i ≠ cd_delegateActorId i;
  dg_source : resolveSourceAuthority s (cd_sourceAuthorityGrantId i) = Some src;
  dg_held : sa_holderActorId src = cd_delegatorActorId i;
  dg_domain : sa_trustDomainId src = cd_trustDomainId i;
  dg_active : sa_status src = as_active;
  dg_further : sa_canDelegateFurther src = true;
  dg_type : ∀ types, sa_allowedDelegateActorTypes src = Some types → cd_delegateActorType i ∈ types;
  dg_prohibited : prohibited_action_of i src = None;
  dg_actions : ∀ a, a ∈ cd_actions i → a ∈ sa_actions src;
  dg_scopes : ∀ a, a ∈ cd_resourceScopes i → a ∈ sa_resourceScopes src;
  dg_depth : sa_delegationDepth src + 1 ≤ default 0 (sa_maxDelegationDepth src);
}.

Lemma forallb_includes l k : forallb (includes l) k = true ↔ ∀ a, a ∈ k → a ∈ l.
Proof. rewrite forallb_forall. setoid_rewrite <-list_elem_of_In. by setoid_rewrite includes_true. Qed.

Lemma allowed_types_iff (o : option (list AuthorityActorType)) t :
  match o with Some types => bool_decide (t ∈ types) | None => true end = true ↔ ∀ types, o = Some types → t ∈ types.
Proof. destruct o as [l|]; [rewrite bool_decide_eq_true; naive_solver|naive_solver]. Qed.

Lemma delegation_checks_iff s i src : delegation_checks s i = Ok src ↔ delegable s i src.
Proof.
  unfold delegation_checks. split.
  - destruct (str_eqb (cd_delegatorActorId i) _) eqn:E0; cbn [negb]; [done|].
    destruct (resolveSourceAuthority _ _) as [src'|] eqn:Er; [|done].
    destruct (str_eqb (sa_holderActorId src') _) eqn:E1; [|done]. destruct (str_eqb (sa_trustDomainId src') _) eqn:E2; [|done].
    destruct (bool_decide (sa_status src' = as_active)) eqn:E3; [|done]. destruct (sa_canDelegateFurther src') eqn:E4; [|done].
    destruct (match sa_allowedDelegateActorTypes src' with Some _ => _ | None => _ end) eqn:E5; [|done].
    destruct (prohibited_action_of i src') eqn:E6; [done|]. destruct (forallb _ (cd_actions i)) eqn:E7; [|done].
    destruct (forallb _ (cd_resourceScopes i)) eqn:E8; [|done]. destruct (_ <? _) eqn:E9; cbn [negb]; [done|]. intros [= <-].
    apply bool_decide_eq_true in E3. split; split_and_bool; try done;
      [by apply allowed_types_iff|by apply forallb_includes|by apply forallb_includes|by apply Z.ltb_ge].
  - intros [H0 H1 H2 H3 H4 H5 H6%allowed_types_iff H7 H8%forallb_includes H9%forallb_includes H10].
    rewrite (proj2 (str_eqb_neq _ _) H0), H1, H2, H3, H4, !str_eqb_refl, H5, H6, H7, H8, H9, bool_decide_eq_true_2 by done. cbn [negb].
    by rewrite (proj2 (Z.ltb_ge _ _) H10).
Qed.

(** What a created delegation carries, compared with its source. *)
Record attenuates (i : CreateDelegationGrantInput) (src : ResolvedSourceAuthority) (d : DelegationGrant) : Prop := {
  at_actions : ∀ a, a ∈ d_actions d → a ∈ sa_actions src;
  at_scopes : ∀ a, a ∈ d_resourceScopes d → a ∈ sa_resourceScopes src;
  at_depth : d_delegationDepth d = sa_delegationDepth src + 1 ∧ d_maxDelegationDepth d = Some (default 0 (sa_maxDelegationDepth src)) ∧
    d_delegationDepth d ≤ default 0 (sa_maxDelegationDepth src);
  at_redelegation : d_canRedelegate d = true → d_delegationDepth d < default 0 (sa_maxDelegationDepth src);
  at_nondelegable : ∀ a, a ∈ default [] (sa_nonDelegableActions src) → a ∈ default [] (d_nonDelegableActions d);
  at_withheld : "" ∉ default [] (d_nonDelegableActions d) → ∀ a, a ∈ d_actions d → a ∉ default [] (d_nonDelegableActions d);
  at_record : d_status d = as_active ∧ d_delegatorActorId d = sa_holderActorId src ∧ d_trustDomainId d = sa_trustDomainId src ∧
    d_sourceAuthorityGrantId d = cd_sourceAuthorityGrantId i ∧ d_delegateActorId d = cd_delegateActorId i;
}.

Lemma build_delegation_nondelegable i src id at_ : default [] (d_nonDelegableActions (build_delegation i src id at_)) = non_delegable i src.
Proof. cbn. by destruct (non_delegable i src). Qed.

Lemma build_delegation_attenuates s i src id at_ : delegable s i src → attenuates i src (build_delegation i src id at_).
Proof.
  intros [H0 H1 H2 H3 H4 H5 H6 H7 H8 H9 H10]. split; rewrite ?build_delegation_nondelegable; try done.
  - cbn. intros [_ Hlt]%andb_true_iff. by apply Z.ltb_lt.
  - intros a Ha. unfold non_delegable. rewrite elem_of_nub, elem_of_app. by left.
  - cbn. intros Hne a Ha Hn. unfold prohibited_action_of in H7.
    destruct (List.find _ (cd_actions i)) as [b|] eqn:E.
    + apply List.find_some in E as [_ Hb%includes_true]. by destruct b.
    + apply list_elem_of_In in Ha. pose proof (List.find_none _ _ E a Ha) as Hf. cbn in Hf. by apply includes_false in Hf.
Qed.

(** Delegating is exact and attenuating: a delegation is created precisely
    when the delegator holds an active source in the same domain that may be
    delegated further to that type of actor, with room in its depth, covering
    the requested actions and scopes and withholding none of them; what is
    created never exceeds the source in actions, scopes or depth, inherits what
    the source withholds, and is all that changes in the graph. *)
Theorem createDelegationGrant_exact `{JsHost} ctx i rt :
  ((∃ d rt', createDelegationGrant ctx i rt = Ok (d, rt')) ↔ ∃ src, delegable (rt_store rt) i src) ∧
  ∀ d rt', createDelegationGrant ctx i rt = Ok (d, rt') →
    rt_store rt' = putDelegation d (rt_store rt) ∧ ∃ src, delegable (rt_store rt) i src ∧ attenuates i src d.
Proof.
  assert (∀ d rt', createDelegationGrant ctx i rt = Ok (d, rt') →
    rt_store rt' = putDelegation d (rt_store rt) ∧ ∃ src, delegable (rt_store rt) i src ∧ attenuates i src d) as Hs.
  { intros d rt' (rt0&E&->)%bind_event_store. apply service_delegate_store in E as (->&_&src&issuedAt&Hc&->).
    apply delegation_checks_iff in Hc. eauto using build_delegation_attenuates. }
  split; [|done]. split; [intros (d&rt'&E); destruct (Hs d rt' E) as (_&src&Hd&_); eauto|].
  intros (src&Hc%delegation_checks_iff). unfold createDelegationGrant, service_createDelegationGrant, mbind, M_bind, lift_result, get_store.
  rewrite Hc. destruct (cd_id i); cbn [nextId now_ modify_store mret M_ret]; edestruct recordEvent_run as [? ->]; by eexists _, _.
Qed.

(** ** A concrete graph *)

Module Demo.

Definition ctx : AuthorityRuntimeContext := {|
  clock_now := λ _, "2026-03-01T00:00:00.000Z"; ids_nextId := λ n prefix, prefix +:+ "-" +:+ text (bigint_to_string (Z.of_nat n)) |}.

Definition issue : IssueAuthorityGrantInput := {|
  ig_id := Some "g1"; ig_issuerActorId := "org"; ig_subjectActorId := "alice"; ig_trustDomainId := "dom"; ig_roleId := None;
  ig_capability := "payments"; ig_actions := ["pay"; "read"]; ig_resourceScopes := ["invoices"]; ig_canDelegate := Some true;
  ig_allowedDelegateActorTypes := None; ig_maxDelegationDepth := Some 2; ig_nonDelegableActions := Some ["close"];
  ig_constraints := None; ig_expiresAt := Some "2027-01-01T00:00:00.000Z"; ig_parentGrantId := None; ig_metadata := None;
  ig_allowRootBootstrap := None |}.
Definition delegate (id from to_ source : string) : CreateDelegationGrantInput := {|
  cd_id := Some id; cd_delegatorActorId := from; cd_delegateActorId := to_; cd_delegateActorType := at_agent; cd_principalActorId := None;
  cd_trustDomainId := "dom"; cd_sourceAuthorityGrantId := source; cd_capability := "payments"; cd_actions := ["pay"];
  cd_resourceScopes := ["invoices"]; cd_canRedelegate := Some true; cd_nonDelegableActions := None; cd_constraints := None;
  cd_expiresAt := None; cd_metadata := None |}.
Definition history : list RuntimeOp :=
  [OpRegisterRoot "dom" "org"; OpIssue issue; OpDelegate (delegate "d1" "alice" "bob" "g1"); OpDelegate (delegate "d2" "bob" "agent" "d1")].
Definition request (actor : string) : AuthorityChainRequest := {|
  cr_id := "req"; cr_actorId := actor; cr_principalActorId := None; cr_trustDomainId := "dom"; cr_action := "pay";
  cr_resourceScope := "invoices:eu:17"; cr_capability := None; cr_requestedAt := "2026-03-01T00:00:00.000Z"; cr_capabilityTokenId := None |}.

#[local] Existing Instance demo_host.

Definition runtime : AuthorityGraphRuntime := run_ops ctx new_runtime history.

(** What a verification answers, without its records. *)
Definition answer (rt : AuthorityGraphRuntime) (r : AuthorityChainRequest) : option (AuthorityDecisionType * string * list string) :=
  match verifyAuthority ctx r rt with
  | Ok (d, _) => Some (de_type d, de_reasonCode d, refs_of (ch_delegations (de_chain d)) (ch_grants (de_chain d)))
  | Throw _ => None
  end.

Lemma agent_pays : answer runtime (request "agent") = Some (authority_valid, "AUTHORITY_CHAIN_VALID", ["d2"; "d1"; "g1"]).
Proof. vm_compute. reflexivity. Qed.
Lemma stranger_denied : answer runtime (request "mallory") = Some (authority_missing, "AUTHORITY_CHAIN_MISSING", []).
Proof. vm_compute. reflexivity. Qed.
Lemma revoked_upstream :
  answer (after ctx runtime (OpRevokeGrant "g1" "org" "left")) (request "agent") =
  Some (ancestor_revoked, "ANCESTOR_AUTHORITY_GRANT_REVOKED", ["d2"; "d1"; "g1"]).
Proof. vm_compute. reflexivity. Qed.

(** A valid decision of the runtime above, with what the theorems ask of it. *)
Lemma valid_from_answer rt r code refs : answer rt r = Some (authority_valid, code, refs) →
  ∃ d rt', verifyAuthority ctx r rt = Ok (d, rt') ∧ de_valid d = true ∧
    refs = refs_of (ch_delegations (de_chain d)) (ch_grants (de_chain d)) ∧ rt_store rt' = rt_store rt ∧ de_chain d = verify_chain ctx rt r.
Proof.
  unfold answer. destruct (verifyAuthority_run ctx r rt) as (d&rt'&Hv&Hs&_&Hva&Hc&_). rewrite Hv. intros [= Ht _ <-].
  exists d, rt'. rewrite Hva, Ht. done.
Qed.

Lemma no_empty_id : getGrant (rt_store runtime) "" = None.
Proof. vm_compute. reflexivity. Qed.

Lemma verifyAuthority_exact_witness : ∃ d rt', verifyAuthority ctx (request "agent") runtime = Ok (d, rt') ∧ rt_store rt' = rt_store runtime ∧
  (de_valid d = true ↔ ∃ gs ds, resolve_records (rt_store runtime) (request "agent") = (gs, ds, chain_valid) ∧
    legitimate (rt_store runtime) (request "agent") (de_evaluatedAt d) gs ds).
Proof. apply (verifyAuthority_exact ctx history (request "agent")). exact no_empty_id. Defined.

Lemma valid_decision_contained_witness : ∃ d rt', verifyAuthority ctx (request "agent") runtime = Ok (d, rt') ∧
  contained (rt_store runtime) (request "agent") (de_evaluatedAt d) (ch_grants (de_chain d)) (ch_delegations (de_chain d)).
Proof.
  destruct (valid_from_answer _ _ _ _ agent_pays) as (d&rt'&Hv&Hval&_). exists d, rt'. split; [exact Hv|].
  exact (valid_decision_contained ctx history (request "agent") d rt' no_empty_id Hv Hval).
Defined.

Lemma g1_in_chain actor : in_chain (verify_chain ctx runtime (request actor)) (t_grant "g1") ↔
  "g1" ∈ (g_id <$> ch_grants (verify_chain ctx runtime (request actor))).
Proof. done. Qed.
Lemma g1_stands actor : actor = "agent" ∨ actor = "alice" → in_chain (verify_chain ctx runtime (request actor)) (t_grant "g1").
Proof. intros [->| ->]; apply g1_in_chain; apply (bool_decide_unpack _); vm_compute; exact I. Qed.

Lemma withdrawal_cascades_witness : ∃ d rt1 d' rt2, verifyAuthority ctx (request "agent") runtime = Ok (d, rt1) ∧ de_valid d = true ∧
  verifyAuthority ctx (request "agent") (after ctx rt1 (OpSuspendGrant "g1")) = Ok (d', rt2) ∧ de_type d' = ancestor_revoked ∧ de_valid d' = false.
Proof.
  destruct (valid_from_answer _ _ _ _ agent_pays) as (d&rt1&Hv&Hval&_&_&Hc).
  destruct (withdrawal_cascades ctx history (request "agent") d rt1 (OpSuspendGrant "g1") (t_grant "g1") as_suspended no_empty_id Hv Hval eq_refl)
    as (d'&rt2&Hrest); [rewrite Hc; apply g1_stands; auto|].
  exists d, rt1, d', rt2. auto.
Defined.

(** Alice's grant is revoked; a fresh grant of the same actions does not help. *)
Definition reissue : IssueAuthorityGrantInput := {|
  ig_id := Some "g2"; ig_issuerActorId := "org"; ig_subjectActorId := "alice"; ig_trustDomainId := "dom"; ig_roleId := None;
  ig_capability := "payments"; ig_actions := ["pay"]; ig_resourceScopes := ["invoices"]; ig_canDelegate := None;
  ig_allowedDelegateActorTypes := None; ig_maxDelegationDepth := None; ig_nonDelegableActions := None;
  ig_constraints := None; ig_expiresAt := None; ig_parentGrantId := None; ig_metadata := None; ig_allowRootBootstrap := None |}.

Lemma alice_pays : answer runtime (request "alice") = Some (authority_valid, "AUTHORITY_CHAIN_VALID", ["g1"]).
Proof. vm_compute. reflexivity. Qed.
Lemma alice_direct : ch_delegations (verify_chain ctx runtime (request "alice")) = [].
Proof. vm_compute. reflexivity. Qed.

Definition alice_rt1 : AuthorityGraphRuntime := match verifyAuthority ctx (request "alice") runtime with Ok (_, rt) => rt | Throw _ => runtime end.
Lemma alice_fresh : all_fresh ctx (after ctx alice_rt1 (OpRevokeGrant "g1" "org" "left")) [OpIssue reissue] = true.
Proof. vm_compute. reflexivity. Qed.

Lemma withdrawal_stands_witness : ∃ d', (∃ rt2, verifyAuthority ctx (request "alice")
  (run_ops ctx (after ctx alice_rt1 (OpRevokeGrant "g1" "org" "left")) [OpIssue reissue]) = Ok (d', rt2)) ∧ de_valid d' = false.
Proof.
  destruct (valid_from_answer _ _ _ _ alice_pays) as (d&rt1&Hv&Hval&_&_&Hc).
  assert (alice_rt1 = rt1) as E by (unfold alice_rt1; rewrite Hv; reflexivity). pose proof alice_fresh as Hf. rewrite E in Hf |- *.
  destruct (withdrawal_stands ctx history (request "alice") d rt1 (OpRevokeGrant "g1" "org" "left") (t_grant "g1") as_revoked [OpIssue reissue]
    no_empty_id Hv Hval) as (d'&rt2&Hv'&Hd'); [rewrite Hc; exact alice_direct|reflexivity|rewrite Hc; apply g1_stands; auto|exact Hf|].
  exists d'. split; [exists rt2; exact Hv'|exact Hd'].
Defined.

Lemma demo_collision_free : collision_free event_payload (rt_events runtime) (rt_events runtime) ∧
  collision_free proof_payload (rt_proofs runtime) (rt_proofs runtime).
Proof.
  assert (∀ {R} (payload : R → Json) l, forallb (λ x, forallb (λ y, negb (str_eqb (createDigest (payload x)) (createDigest (payload y))) ||
    str_eqb (stableStringify (payload x)) (stableStringify (payload y))) l) l = true → collision_free payload l l) as Hcf.
  { intros R payload l Hall x y Hx%list_elem_of_In Hy%list_elem_of_In E. rewrite forallb_forall in Hall. specialize (Hall x Hx).
    rewrite forallb_forall in Hall. specialize (Hall y Hy). rewrite E, str_eqb_refl in Hall. by apply str_eqb_eq. }
  split; apply Hcf; vm_compute; reflexivity.
Qed.
Lemma logs_tamper_evident_witness : Forall2 same_event (rt_events runtime) (rt_events runtime).
Proof.
  apply (logs_tamper_evident ctx ctx history history); [exact (proj1 demo_collision_free)|exact (proj2 demo_collision_free)|reflexivity].
Defined.

Lemma carol_gets_one : ∃ d rt', createDelegationGrant ctx (delegate "d3" "alice" "carol" "g1") runtime = Ok (d, rt').
Proof.
  assert (match createDelegationGrant ctx (delegate "d3" "alice" "carol" "g1") runtime with Ok _ => true | Throw _ => false end = true) as F
    by (vm_compute; reflexivity).
  destruct (createDelegationGrant _ _ _) as [[d rt']|]; [by exists d, rt'|done].
Qed.
Lemma createDelegationGrant_exact_witness : ∃ src, delegable (rt_store runtime) (delegate "d3" "alice" "carol" "g1") src.
Proof. apply (createDelegationGrant_exact ctx (delegate "d3" "alice" "carol" "g1") runtime). exact carol_gets_one. Defined.

(** *** Where verification and its documentation part *)

(** A grant that may be delegated once, and two imported hops below it that both
    declare depth one: the second hop is accepted. *)
Definition forged (id from to_ source : string) : DelegationGrant := {|
  d_id := id; d_delegatorActorId := from; d_delegateActorId := to_; d_principalActorId := "alice"; d_trustDomainId := "dom";
  d_sourceAuthorityGrantId := source; d_capability := "payments"; d_actions := ["pay"]; d_resourceScopes := ["invoices"];
  d_delegationDepth := 1; d_canRedelegate := true; d_maxDelegationDepth := Some 1; d_nonDelegableActions := None; d_constraints := None;
  d_status := as_active; d_issuedAt := "2026-03-01T00:00:00.000Z"; d_expiresAt := None; d_metadata := None |}.
Definition one_hop_grant : AuthorityGrant := {|
  g_id := "g9"; g_issuerActorId := "org"; g_subjectActorId := "alice"; g_trustDomainId := "dom"; g_roleId := None; g_capability := "payments";
  g_actions := ["pay"]; g_resourceScopes := ["invoices"]; g_canDelegate := true; g_allowedDelegateActorTypes := None;
  g_maxDelegationDepth := Some 1; g_nonDelegableActions := None; g_constraints := None; g_status := as_active;
  g_issuedAt := "2026-03-01T00:00:00.000Z"; g_expiresAt := None; g_parentGrantId := None; g_metadata := None |}.
Lemma forged_depth_accepted :
  answer (run_ops ctx new_runtime [OpRegisterRoot "dom" "org"; OpImportGrant one_hop_grant;
    OpImportDelegation (forged "f1" "alice" "bob" "g9"); OpImportDelegation (forged "f2" "bob" "agent" "f1")]) (request "agent") =
  Some (authority_valid, "AUTHORITY_CHAIN_VALID", ["f2"; "f1"; "g9"]).
Proof. vm_compute. reflexivity. Qed.

(** A grant filed under the empty id, and an imported grant of an unknown issuer
    that names it as parent: the issuer is never asked to be a root. *)
Definition with_ids (id issuer subject : string) (parent : option string) : AuthorityGrant := {|
  g_id := id; g_issuerActorId := issuer; g_subjectActorId := subject; g_trustDomainId := "dom"; g_roleId := None; g_capability := "payments";
  g_actions := ["pay"]; g_resourceScopes := ["invoices"]; g_canDelegate := false; g_allowedDelegateActorTypes := None;
  g_maxDelegationDepth := None; g_nonDelegableActions := None; g_constraints := None; g_status := as_active;
  g_issuedAt := "2026-03-01T00:00:00.000Z"; g_expiresAt := None; g_parentGrantId := parent; g_metadata := None |}.
Lemma empty_id_escapes_root :
  answer (run_ops ctx new_runtime [OpImportGrant (with_ids "" "nobody" "anyone" None); OpImportGrant (with_ids "h" "mallory" "agent" (Some ""))])
    (request "agent") = Some (authority_valid, "AUTHORITY_CHAIN_VALID", ["h"]).
Proof. vm_compute. reflexivity. Qed.

(** A revoked role assignment still yields a grant that verifies. *)
Definition role : AssignRoleInput := {|
  ar_id := Some "r1"; ar_actorId := "agent"; ar_roleId := "payer"; ar_assignedByActorId := "org"; ar_trustDomainId := "dom";
  ar_resourceScopes := ["invoices"]; ar_expiresAt := None; ar_metadata := None |}.
Lemma revoked_role_derives :
  answer (run_ops ctx new_runtime [OpRegisterRoot "dom" "org"; OpAssignRole role; OpRoleStatus "r1" as_revoked; OpDeriveFromRole "r1" reissue])
    (request "agent") = Some (authority_valid, "AUTHORITY_CHAIN_VALID", ["g2"]).
Proof. vm_compute. reflexivity. Qed.

End Demo.
