(* ===== verification/Approval.v ===== *)
(** * Approvals: requests, decisions, proofs, their store and policies

    Model of [approval-runtime]: the domain records ([domain]), the in-memory
    store ([services/approval-store.ts]), the ten policies ([policies]) and the
    evaluator ([services/approval-policy-evaluator.ts]). Explanatory texts
    ([reason]) are left out, except the one an approver supplies; the policy
    results of an evaluation are reduced to the one that failed. Counts of
    approvals are integers. *)

From S2P Require Import Prelude Decimal Js JsMap StableJson.

Local Open Scope Z_scope.
Local Open Scope frontera_scope.

(** ** Records *)

Inductive ApprovalRequestStatus := rs_pending | rs_approved | rs_rejected | rs_expired | rs_revoked | rs_cancelled | rs_superseded.
#[export] Instance ApprovalRequestStatus_eq_dec : EqDecision ApprovalRequestStatus.
Proof. solve_decision. Defined.
Inductive ApprovalProofStatus := ps_valid | ps_expired | ps_revoked.
#[export] Instance ApprovalProofStatus_eq_dec : EqDecision ApprovalProofStatus.
Proof. solve_decision. Defined.
Inductive ApprovalRiskLevel := risk_low | risk_medium | risk_high | risk_critical.

Inductive ApprovalEvidenceType :=
  | ev_draft_action | ev_email_draft | ev_project_context | ev_source_document | ev_authority_proof | ev_recognition_decision
  | ev_policy_result | ev_human_comment | ev_system_log | ev_external_reference | ev_approval_proof.
#[export] Instance ApprovalEvidenceType_eq_dec : EqDecision ApprovalEvidenceType.
Proof. solve_decision. Defined.

Record ApprovalEvidenceRequirement := {
  er_id : string;
  er_type : ApprovalEvidenceType;
  er_required : bool;
  er_description : string;
}.
Record ApprovalEvidenceArtifact := {
  ea_id : string;
  ea_type : ApprovalEvidenceType;
  ea_providedByActorId : string;
  ea_uri : option string;
  ea_hash : option string;
  ea_description : option string;
  ea_createdAt : string;
  ea_metadata : option Json;
}.

Inductive ApprovalRequirementType :=
  | single_approval | dual_approval | quorum_approval | role_based_approval | authority_based_approval | escalated_approval.
Record ApprovalRequirement := {
  rq_id : string;
  rq_type : ApprovalRequirementType;
  rq_trustDomainId : string;
  rq_action : string;
  rq_resourceScope : string;
  rq_riskLevel : ApprovalRiskLevel;
  rq_requiredApproverActorIds : option (list string);
  rq_requiredApproverRoleIds : option (list string);
  rq_requiredAuthorityCapability : option string;
  rq_minimumApprovals : Z;
  rq_requiresSegregationOfDuties : bool;
  rq_evidenceRequirements : list ApprovalEvidenceRequirement;
  rq_expiresInMinutes : option Z;
  rq_metadata : option Json;
}.

Record ApproverRule := {
  rule_id : string;
  rule_trustDomainId : string;
  rule_actionPattern : string;
  rule_resourceScopePattern : option string;
  rule_allowedApproverActorIds : option (list string);
  rule_allowedApproverRoleIds : option (list string);
  rule_requiredAuthorityCapability : option string;
  rule_minApprovals : Z;
  rule_requiresDifferentActorFromRequester : bool;
  rule_requiresDifferentActorFromBeneficiary : bool;
  rule_allowedRiskLevels : list ApprovalRiskLevel;
  rule_expiresInMinutes : option Z;
  rule_metadata : option Json;
}.

Record ApprovalRequest := {
  ar_id : string;
  ar_trustDomainId : string;
  ar_actionRequestId : string;
  ar_recognitionDecisionId : option string;
  ar_authorityDecisionId : option string;
  ar_authorityProofId : option string;
  ar_requestedByActorId : string;
  ar_targetActorId : string;
  ar_principalActorId : option string;
  ar_action : string;
  ar_resourceScope : string;
  ar_resourceId : option string;
  ar_capability : option string;
  ar_riskLevel : ApprovalRiskLevel;
  ar_requirement : ApprovalRequirement;
  ar_status : ApprovalRequestStatus;
  ar_evidence : list ApprovalEvidenceArtifact;
  ar_createdAt : string;
  ar_expiresAt : option string;
  ar_metadata : option Json;
}.

Inductive ApprovalDecisionType :=
  | dt_approved | dt_rejected | dt_requested_changes | dt_escalated | dt_expired | dt_revoked | dt_invalid_approver
  | dt_insufficient_evidence | dt_out_of_scope | dt_conflict_of_interest | dt_quorum_not_met | dt_duplicate_approval.
#[export] Instance ApprovalDecisionType_eq_dec : EqDecision ApprovalDecisionType.
Proof. solve_decision. Defined.

(** [ad_reason] is the approver's text; the policies' own texts are left out. *)
Record ApprovalDecision := {
  ad_id : string;
  ad_approvalRequestId : string;
  ad_trustDomainId : string;
  ad_approverActorId : string;
  ad_type : ApprovalDecisionType;
  ad_approved : bool;
  ad_reasonCode : string;
  ad_reason : option string;
  ad_evidenceReviewed : list ApprovalEvidenceArtifact;
  ad_authorityDecisionId : option string;
  ad_authorityProofId : option string;
  ad_decidedAt : string;
}.

Record ApprovalProof := {
  ap_id : string;
  ap_approvalRequestId : string;
  ap_approvalDecisionId : string;
  ap_trustDomainId : string;
  ap_actionRequestId : string;
  ap_requestedByActorId : string;
  ap_approverActorId : string;
  ap_principalActorId : option string;
  ap_action : string;
  ap_resourceScope : string;
  ap_approved : bool;
  ap_status : ApprovalProofStatus;
  ap_evidenceHashes : list string;
  ap_authorityDecisionId : option string;
  ap_authorityProofId : option string;
  ap_previousHash : option string;
  ap_proofHash : string;
  ap_createdAt : string;
  ap_expiresAt : option string;
  ap_revokedAt : option string;
  ap_revokedByActorId : option string;
  ap_revocationReason : option string;
}.

Definition request_with_status (r : ApprovalRequest) (st : ApprovalRequestStatus) : ApprovalRequest := {|
  ar_id := ar_id r; ar_trustDomainId := ar_trustDomainId r; ar_actionRequestId := ar_actionRequestId r;
  ar_recognitionDecisionId := ar_recognitionDecisionId r; ar_authorityDecisionId := ar_authorityDecisionId r;
  ar_authorityProofId := ar_authorityProofId r; ar_requestedByActorId := ar_requestedByActorId r;
  ar_targetActorId := ar_targetActorId r; ar_principalActorId := ar_principalActorId r; ar_action := ar_action r;
  ar_resourceScope := ar_resourceScope r; ar_resourceId := ar_resourceId r; ar_capability := ar_capability r;
  ar_riskLevel := ar_riskLevel r; ar_requirement := ar_requirement r; ar_status := st; ar_evidence := ar_evidence r;
  ar_createdAt := ar_createdAt r; ar_expiresAt := ar_expiresAt r; ar_metadata := ar_metadata r |}.

(** [{ ...existing, ...patch, status }]: a patch of the revocation fields. *)
Definition proof_with_status (p : ApprovalProof) (st : ApprovalProofStatus) (revocation : option (string * string * string)) : ApprovalProof := {|
  ap_id := ap_id p; ap_approvalRequestId := ap_approvalRequestId p; ap_approvalDecisionId := ap_approvalDecisionId p;
  ap_trustDomainId := ap_trustDomainId p; ap_actionRequestId := ap_actionRequestId p;
  ap_requestedByActorId := ap_requestedByActorId p; ap_approverActorId := ap_approverActorId p;
  ap_principalActorId := ap_principalActorId p; ap_action := ap_action p; ap_resourceScope := ap_resourceScope p;
  ap_approved := ap_approved p; ap_status := st; ap_evidenceHashes := ap_evidenceHashes p;
  ap_authorityDecisionId := ap_authorityDecisionId p; ap_authorityProofId := ap_authorityProofId p;
  ap_previousHash := ap_previousHash p; ap_proofHash := ap_proofHash p; ap_createdAt := ap_createdAt p;
  ap_expiresAt := ap_expiresAt p;
  ap_revokedAt := match revocation with Some (at_, _, _) => Some at_ | None => ap_revokedAt p end;
  ap_revokedByActorId := match revocation with Some (_, by_, _) => Some by_ | None => ap_revokedByActorId p end;
  ap_revocationReason := match revocation with Some (_, _, why) => Some why | None => ap_revocationReason p end |}.

Definition request_status_text (s : ApprovalRequestStatus) : string :=
  match s with
  | rs_pending => "pending" | rs_approved => "approved" | rs_rejected => "rejected" | rs_expired => "expired"
  | rs_revoked => "revoked" | rs_cancelled => "cancelled" | rs_superseded => "superseded"
  end.

Inductive ApprovalRuntimeError :=
  | ApprovalRequestNotFoundError (id : string)
  | ApprovalProofNotFoundError (id : string)
  | InvalidApprovalStatusTransitionError (id from to_ : string)
  | InvalidTimeValue
  | RevokeApprovalInputError.

(** ** The store *)

Record ApprovalStore := {
  requirements : JsMap ApprovalRequirement;
  approverRules : JsMap ApproverRule;
  requests : JsMap ApprovalRequest;
  decisions : JsMap ApprovalDecision;
  proofs : JsMap ApprovalProof;
  proofsByDecisionId : JsMap string;
  approverRecognitionStatus : JsMap string;
}.
Definition empty_approvals : ApprovalStore := {|
  requirements := []; approverRules := []; requests := []; decisions := []; proofs := []; proofsByDecisionId := [];
  approverRecognitionStatus := [] |}.

Definition set_requirements (s : ApprovalStore) m : ApprovalStore := {|
  requirements := m; approverRules := approverRules s; requests := requests s; decisions := decisions s; proofs := proofs s;
  proofsByDecisionId := proofsByDecisionId s; approverRecognitionStatus := approverRecognitionStatus s |}.
Definition set_approverRules (s : ApprovalStore) m : ApprovalStore := {|
  requirements := requirements s; approverRules := m; requests := requests s; decisions := decisions s; proofs := proofs s;
  proofsByDecisionId := proofsByDecisionId s; approverRecognitionStatus := approverRecognitionStatus s |}.
Definition set_requests (s : ApprovalStore) m : ApprovalStore := {|
  requirements := requirements s; approverRules := approverRules s; requests := m; decisions := decisions s; proofs := proofs s;
  proofsByDecisionId := proofsByDecisionId s; approverRecognitionStatus := approverRecognitionStatus s |}.
Definition set_decisions (s : ApprovalStore) m : ApprovalStore := {|
  requirements := requirements s; approverRules := approverRules s; requests := requests s; decisions := m; proofs := proofs s;
  proofsByDecisionId := proofsByDecisionId s; approverRecognitionStatus := approverRecognitionStatus s |}.
Definition set_proofs (s : ApprovalStore) m index : ApprovalStore := {|
  requirements := requirements s; approverRules := approverRules s; requests := requests s; decisions := decisions s; proofs := m;
  proofsByDecisionId := index; approverRecognitionStatus := approverRecognitionStatus s |}.
Definition set_recognition (s : ApprovalStore) m : ApprovalStore := {|
  requirements := requirements s; approverRules := approverRules s; requests := requests s; decisions := decisions s; proofs := proofs s;
  proofsByDecisionId := proofsByDecisionId s; approverRecognitionStatus := m |}.

Definition putRequirement (r : ApprovalRequirement) (s : ApprovalStore) : ApprovalStore := set_requirements s (map_set (rq_id r) r (requirements s)).
Definition getRequirement (s : ApprovalStore) (id : string) : option ApprovalRequirement := map_get id (requirements s).
Definition getRequirementsByTrustDomain (s : ApprovalStore) (trustDomainId : string) : list ApprovalRequirement :=
  List.filter (λ r, str_eqb (rq_trustDomainId r) trustDomainId) (map_values (requirements s)).
Definition putApproverRule (r : ApproverRule) (s : ApprovalStore) : ApprovalStore := set_approverRules s (map_set (rule_id r) r (approverRules s)).
Definition getApproverRule (s : ApprovalStore) (id : string) : option ApproverRule := map_get id (approverRules s).
Definition getApproverRulesByTrustDomain (s : ApprovalStore) (trustDomainId : string) : list ApproverRule :=
  List.filter (λ r, str_eqb (rule_trustDomainId r) trustDomainId) (map_values (approverRules s)).

Definition putRequest (r : ApprovalRequest) (s : ApprovalStore) : ApprovalStore := set_requests s (map_set (ar_id r) r (requests s)).
Definition getRequest (s : ApprovalStore) (id : string) : option ApprovalRequest := map_get id (requests s).
Definition is_pending (r : ApprovalRequest) : bool := bool_decide (ar_status r = rs_pending).
Definition getPendingRequests (s : ApprovalStore) : list ApprovalRequest := List.filter is_pending (map_values (requests s)).
Definition getRequestsByTrustDomain (s : ApprovalStore) (trustDomainId : string) : list ApprovalRequest :=
  List.filter (λ r, str_eqb (ar_trustDomainId r) trustDomainId) (map_values (requests s)).
Definition getRequestsByActionRequestId (s : ApprovalStore) (actionRequestId : string) : list ApprovalRequest :=
  List.filter (λ r, str_eqb (ar_actionRequestId r) actionRequestId) (map_values (requests s)).
Definition updateRequestStatus (id : string) (st : ApprovalRequestStatus) (s : ApprovalStore) : result ApprovalRuntimeError (ApprovalRequest * ApprovalStore) :=
  match map_get id (requests s) with
  | None => Throw (ApprovalRequestNotFoundError id)
  | Some existing => let updated := request_with_status existing st in Ok (updated, set_requests s (map_set id updated (requests s)))
  end.

Definition putDecision (d : ApprovalDecision) (s : ApprovalStore) : ApprovalStore := set_decisions s (map_set (ad_id d) d (decisions s)).
Definition getDecision (s : ApprovalStore) (id : string) : option ApprovalDecision := map_get id (decisions s).
Definition getDecisionsByRequestId (s : ApprovalStore) (approvalRequestId : string) : list ApprovalDecision :=
  List.filter (λ d, str_eqb (ad_approvalRequestId d) approvalRequestId) (map_values (decisions s)).
Definition getDecisionsByApproverActorId (s : ApprovalStore) (approverActorId : string) : list ApprovalDecision :=
  List.filter (λ d, str_eqb (ad_approverActorId d) approverActorId) (map_values (decisions s)).

Definition putProof (p : ApprovalProof) (s : ApprovalStore) : ApprovalStore :=
  set_proofs s (map_set (ap_id p) p (proofs s)) (map_set (ap_approvalDecisionId p) (ap_id p) (proofsByDecisionId s)).
Definition getProof (s : ApprovalStore) (id : string) : option ApprovalProof := map_get id (proofs s).
Definition getProofsByRequestId (s : ApprovalStore) (approvalRequestId : string) : list ApprovalProof :=
  List.filter (λ p, str_eqb (ap_approvalRequestId p) approvalRequestId) (map_values (proofs s)).
Definition getProofByDecisionId (s : ApprovalStore) (approvalDecisionId : string) : option ApprovalProof :=
  match map_get approvalDecisionId (proofsByDecisionId s) with Some proofId => map_get proofId (proofs s) | None => None end.
Definition updateProofStatus (id : string) (st : ApprovalProofStatus) (patch : option (string * string * string)) (s : ApprovalStore) :
    result ApprovalRuntimeError (ApprovalProof * ApprovalStore) :=
  match map_get id (proofs s) with
  | None => Throw (ApprovalProofNotFoundError id)
  | Some existing => let updated := proof_with_status existing st patch in
      Ok (updated, set_proofs s (map_set id updated (proofs s)) (proofsByDecisionId s))
  end.

Definition registerApproverRecognitionStatus (actorId status : string) (s : ApprovalStore) : ApprovalStore :=
  set_recognition s (map_set actorId status (approverRecognitionStatus s)).
Definition getApproverRecognitionStatus (s : ApprovalStore) (actorId : string) : option string := map_get actorId (approverRecognitionStatus s).

(** ** Policies *)

Record ApprovalDecisionAttempt := {
  at_approverActorId : string;
  at_type : ApprovalDecisionType;
  at_evidenceReviewed : list ApprovalEvidenceArtifact;
}.
Record ApprovalApproverRecognitionResult := { rec_recognized : bool; rec_reasonCode : string }.

(** The twelve decision types of the authority graph, by name. *)
Record ApprovalAuthorityCheckResult := {
  ac_valid : bool;
  ac_type : string;
  ac_reasonCode : string;
  ac_authorityDecisionId : option string;
  ac_authorityProofId : option string;
}.

Record ApprovalPolicyContext := {
  pc_now : string;
  pc_request : option ApprovalRequest;
  pc_attempt : ApprovalDecisionAttempt;
  pc_approverRecognition : ApprovalApproverRecognitionResult;
  pc_authorityCheck : option ApprovalAuthorityCheckResult;
  pc_priorDecisions : list ApprovalDecision;
}.

(** [None] when the policy passes; the reason code and the decision type when it
    does not. *)
Definition PolicyOutcome : Type := option (string * ApprovalDecisionType).
Definition deny (reasonCode : string) (t : ApprovalDecisionType) : PolicyOutcome := Some (reasonCode, t).
Record ApprovalPolicy := { policy_id : string; policy_evaluate : ApprovalPolicyContext → PolicyOutcome }.

Definition closed_status_decision_type (s : ApprovalRequestStatus) : ApprovalDecisionType :=
  match s with rs_expired => dt_expired | rs_revoked => dt_revoked | _ => dt_rejected end.

Definition ValidApprovalRequestPolicy : ApprovalPolicy := {| policy_id := "valid_approval_request"; policy_evaluate := λ c,
  match pc_request c with
  | None => deny "APPROVAL_REQUEST_INVALID" dt_rejected
  | Some request =>
      if is_pending request then None else deny "APPROVAL_REQUEST_INVALID" (closed_status_decision_type (ar_status request))
  end |}.

Definition RecognizedApproverPolicy : ApprovalPolicy := {| policy_id := "recognized_approver"; policy_evaluate := λ c,
  if rec_recognized (pc_approverRecognition c) then None else deny "INVALID_APPROVER" dt_invalid_approver |}.

Definition ApproverAuthorityPolicy : ApprovalPolicy := {| policy_id := "approver_authority"; policy_evaluate := λ c,
  match (pc_request c ≫= λ r, rq_requiredAuthorityCapability (ar_requirement r)) with
  | None => None
  | Some _ =>
      match pc_authorityCheck c with
      | None => deny "APPROVER_AUTHORITY_MISSING" dt_invalid_approver
      | Some check =>
          if str_eqb (ac_type check) "scope_expansion_detected" then None
          else if negb (ac_valid check) then
            deny "APPROVER_AUTHORITY_MISSING"
              (if str_eqb (ac_type check) "ancestor_revoked" then dt_revoked
               else if str_eqb (ac_type check) "ancestor_expired" then dt_expired
               else dt_invalid_approver)
          else None
      end
  end |}.

Definition ApprovalScopePolicy : ApprovalPolicy := {| policy_id := "approval_scope"; policy_evaluate := λ c,
  match pc_authorityCheck c with
  | None => None
  | Some check => if str_eqb (ac_type check) "scope_expansion_detected" then deny "APPROVAL_OUT_OF_SCOPE" dt_out_of_scope else None
  end |}.

Definition requiredTypes (r : ApprovalRequest) : list ApprovalEvidenceType :=
  er_type <$> List.filter er_required (rq_evidenceRequirements (ar_requirement r)).
Definition ApprovalEvidencePolicy : ApprovalPolicy := {| policy_id := "approval_evidence"; policy_evaluate := λ c,
  match pc_request c with
  | None => None
  | Some request =>
      if bool_decide (at_type (pc_attempt c) ≠ dt_approved) then None
      else if existsb (λ t, bool_decide (t ∉ ea_type <$> at_evidenceReviewed (pc_attempt c))) (requiredTypes request)
      then deny "APPROVAL_INSUFFICIENT_EVIDENCE" dt_insufficient_evidence
      else None
  end |}.

Definition SegregationOfDutiesPolicy : ApprovalPolicy := {| policy_id := "segregation_of_duties"; policy_evaluate := λ c,
  match pc_request c with
  | None => None
  | Some request =>
      if bool_decide (at_type (pc_attempt c) ≠ dt_approved) || negb (rq_requiresSegregationOfDuties (ar_requirement request)) then None
      else if str_eqb (at_approverActorId (pc_attempt c)) (ar_requestedByActorId request)
      then deny "SEGREGATION_OF_DUTIES_VIOLATION" dt_conflict_of_interest
      else if str_eqb (at_approverActorId (pc_attempt c)) (ar_targetActorId request)
      then deny "SEGREGATION_OF_DUTIES_VIOLATION" dt_conflict_of_interest
      else None
  end |}.

(** Comparisons of instants; with [NaN] they are false. *)
Definition instant_lt `{JsHost} (a b : string) : bool := match date_parse a, date_parse b with Some x, Some y => x <? y | _, _ => false end.
Definition instant_ge `{JsHost} (a b : string) : bool := match date_parse a, date_parse b with Some x, Some y => y <=? x | _, _ => false end.

(** [!request?.expiresAt]: an absent or empty instant never expires. *)
Definition ExpirationPolicy `{JsHost} : ApprovalPolicy := {| policy_id := "expiration"; policy_evaluate := λ c,
  match (pc_request c ≫= ar_expiresAt) with
  | None => None
  | Some expiresAt => if negb (nonempty expiresAt) || instant_lt (pc_now c) expiresAt then None else deny "APPROVAL_EXPIRED" dt_expired
  end |}.

Definition RevocationPolicy : ApprovalPolicy := {| policy_id := "revocation"; policy_evaluate := λ c,
  if bool_decide (ar_status <$> pc_request c = Some rs_revoked) then deny "APPROVAL_REVOKED" dt_revoked
  else if bool_decide (ac_type <$> pc_authorityCheck c = Some "ancestor_revoked") then deny "APPROVAL_REVOKED" dt_revoked
  else None |}.

Definition is_approved (d : ApprovalDecision) : bool := bool_decide (ad_type d = dt_approved).
Definition DuplicateApprovalPolicy : ApprovalPolicy := {| policy_id := "duplicate_approval"; policy_evaluate := λ c,
  if bool_decide (at_type (pc_attempt c) ≠ dt_approved) then None
  else if existsb (λ d, str_eqb (ad_approverActorId d) (at_approverActorId (pc_attempt c)) && is_approved d) (pc_priorDecisions c)
  then deny "DUPLICATE_APPROVAL" dt_duplicate_approval
  else None |}.

(** The distinct approvers: the accepted ones and, if it approves, the attempt's. *)
Definition distinctApprovers (c : ApprovalPolicyContext) : list string :=
  nub ((ad_approverActorId <$> List.filter is_approved (pc_priorDecisions c)) ++
    (if bool_decide (at_type (pc_attempt c) = dt_approved) then [at_approverActorId (pc_attempt c)] else [])).
Definition QuorumPolicy : ApprovalPolicy := {| policy_id := "quorum"; policy_evaluate := λ c,
  let minimumApprovals := match pc_request c with Some r => rq_minimumApprovals (ar_requirement r) | None => 1 end in
  if Z.of_nat (length (distinctApprovers c)) <? minimumApprovals then deny "APPROVAL_QUORUM_NOT_MET" dt_quorum_not_met else None |}.

Definition createDefaultApprovalPolicyChain `{JsHost} : list ApprovalPolicy :=
  [ValidApprovalRequestPolicy; RecognizedApproverPolicy; ApproverAuthorityPolicy; ApprovalScopePolicy; ApprovalEvidencePolicy;
   SegregationOfDutiesPolicy; ExpirationPolicy; RevocationPolicy; DuplicateApprovalPolicy; QuorumPolicy].
Definition createAdmissionApprovalPolicyChain `{JsHost} : list ApprovalPolicy :=
  List.filter (λ p, negb (str_eqb (policy_id p) "quorum")) createDefaultApprovalPolicyChain.

(** The evaluator stops at the first policy that fails; [ev_failed] names it. *)
Record ApprovalPolicyEvaluationResult := {
  ev_passed : bool;
  ev_decisionType : ApprovalDecisionType;
  ev_reasonCode : string;
  ev_failed : option string;
}.
Fixpoint evaluate_policies (ps : list ApprovalPolicy) (c : ApprovalPolicyContext) : ApprovalPolicyEvaluationResult :=
  match ps with
  | [] => {| ev_passed := true; ev_decisionType := at_type (pc_attempt c); ev_reasonCode := "ALL_APPROVAL_POLICIES_SATISFIED"; ev_failed := None |}
  | p :: ps =>
      match policy_evaluate p c with
      | Some (code, t) => {| ev_passed := false; ev_decisionType := t; ev_reasonCode := code; ev_failed := Some (policy_id p) |}
      | None => evaluate_policies ps c
      end
  end.
