(* ===== verification/ApprovalRuntime.v ===== *)
(** * The approval runtime

    Model of [approval-runtime/runtime/approval-runtime.ts] with its services:
    the ledger, the request, decision, proof, expiration, revocation and
    approver-resolution services. An operation is a computation that threads
    the runtime and may throw; a throw keeps what was written before it. The
    clock, the id generator and the composed actor registry answer by call
    number. The composed authority graph is an object with a state of its own,
    known to this runtime only by [AuthorityGraphRuntimeLike]. Explanatory texts
    are left out. *)

From S2P Require Import Prelude Decimal Js JsMap StableJson Approval.

Local Open Scope Z_scope.
Local Open Scope frontera_scope.

(** ** Interfaces of the composed parts *)

Record AuthorityChainRequestLike := {
  acr_id : string;
  acr_actorId : string;
  acr_principalActorId : option string;
  acr_trustDomainId : string;
  acr_action : string;
  acr_resourceScope : string;
  acr_capability : option string;
  acr_requestedAt : string;
}.
Record AuthorityDecisionLike := {
  adl_id : string;
  adl_type : string;
  adl_valid : bool;
  adl_reasonCode : string;
  adl_proofId : option string;
}.
Record AuthorityGraphRuntimeLike (G : Type) := { agr_verifyAuthority : G → AuthorityChainRequestLike → AuthorityDecisionLike * G }.
Arguments agr_verifyAuthority {G} _ _ _.

Record ApprovalAuthorityVerificationInput := {
  av_requestId : string;
  av_actorId : string;
  av_principalActorId : option string;
  av_trustDomainId : string;
  av_action : string;
  av_resourceScope : string;
  av_capability : option string;
  av_requestedAt : string;
}.

Definition createApprovalAuthorityGraphIntegration {G} (authorityGraph : AuthorityGraphRuntimeLike G) (graph : G)
    (input : ApprovalAuthorityVerificationInput) : ApprovalAuthorityCheckResult * G :=
  let '(decision, graph) := agr_verifyAuthority authorityGraph graph {|
    acr_id := av_requestId input; acr_actorId := av_actorId input; acr_principalActorId := av_principalActorId input;
    acr_trustDomainId := av_trustDomainId input; acr_action := av_action input; acr_resourceScope := av_resourceScope input;
    acr_capability := av_capability input; acr_requestedAt := av_requestedAt input |} in
  ({| ac_valid := adl_valid decision; ac_type := adl_type decision; ac_reasonCode := adl_reasonCode decision;
      ac_authorityDecisionId := Some (adl_id decision); ac_authorityProofId := adl_proofId decision |}, graph).

(** What [getActor] answers, reduced to the status, by call number. *)
Definition ActorRegistryLike : Type := nat → string → option string.

Record ApprovalRuntimeOptions (G : Type) := {
  opt_authorityGraph : option (AuthorityGraphRuntimeLike G);
  opt_actorRegistry : option ActorRegistryLike;
  opt_roleLookup : option (string → list string);
}.
Arguments opt_authorityGraph {G} _.
Arguments opt_actorRegistry {G} _.
Arguments opt_roleLookup {G} _.

(** [date_toISOString ms] is [new Date(ms).toISOString()]; [None] is its
    RangeError. *)
Record ApprovalRuntimeContext := {
  clock_now : nat → string;
  ids_nextId : nat → string → string;
  date_toISOString : Z → option string;
}.

(** ** Events *)

Inductive ApprovalEventType :=
  | approval_requested | approvers_resolved | approval_approved | approval_rejected | approval_changes_requested | approval_escalated
  | approval_expired | approval_revoked | approval_proof_created | approval_verified | approval_verification_failed.
Definition event_type_text (t : ApprovalEventType) : string :=
  match t with
  | approval_requested => "approval_requested" | approvers_resolved => "approvers_resolved" | approval_approved => "approval_approved"
  | approval_rejected => "approval_rejected" | approval_changes_requested => "approval_changes_requested"
  | approval_escalated => "approval_escalated" | approval_expired => "approval_expired" | approval_revoked => "approval_revoked"
  | approval_proof_created => "approval_proof_created" | approval_verified => "approval_verified"
  | approval_verification_failed => "approval_verification_failed"
  end.
Record RecordApprovalEventInput := {
  ei_type : ApprovalEventType;
  ei_trustDomainId : string;
  ei_approvalRequestId : option string;
  ei_approvalDecisionId : option string;
  ei_approvalProofId : option string;
  ei_actionRequestId : option string;
  ei_actorId : option string;
  ei_approverActorId : option string;
  ei_requestedByActorId : option string;
  ei_payload : Json;
}.
Record ApprovalEvent := {
  ae_id : string;
  ae_input : RecordApprovalEventInput;
  ae_timestamp : string;
  ae_previousHash : option string;
  ae_eventHash : string;
}.

Definition event_json (i : RecordApprovalEventInput) (timestamp : string) (previousHash : option string) : Json := JObj [
  ("type", JTxt (event_type_text (ei_type i))); ("trustDomainId", JTxt (ei_trustDomainId i));
  ("approvalRequestId", opt_txt (ei_approvalRequestId i)); ("approvalDecisionId", opt_txt (ei_approvalDecisionId i));
  ("approvalProofId", opt_txt (ei_approvalProofId i)); ("actionRequestId", opt_txt (ei_actionRequestId i));
  ("actorId", opt_txt (ei_actorId i)); ("approverActorId", opt_txt (ei_approverActorId i));
  ("requestedByActorId", opt_txt (ei_requestedByActorId i)); ("timestamp", JTxt timestamp); ("payload", ei_payload i);
  ("previousHash", opt_txt previousHash)].

Definition evidence_type_text (t : ApprovalEvidenceType) : string :=
  match t with
  | ev_draft_action => "draft_action" | ev_email_draft => "email_draft" | ev_project_context => "project_context"
  | ev_source_document => "source_document" | ev_authority_proof => "authority_proof" | ev_recognition_decision => "recognition_decision"
  | ev_policy_result => "policy_result" | ev_human_comment => "human_comment" | ev_system_log => "system_log"
  | ev_external_reference => "external_reference" | ev_approval_proof => "approval_proof"
  end.
Definition evidence_json (e : ApprovalEvidenceArtifact) : Json := JObj [
  ("id", JTxt (ea_id e)); ("type", JTxt (evidence_type_text (ea_type e))); ("providedByActorId", JTxt (ea_providedByActorId e));
  ("uri", opt_txt (ea_uri e)); ("hash", opt_txt (ea_hash e)); ("description", opt_txt (ea_description e));
  ("createdAt", JTxt (ea_createdAt e)); ("metadata", default JUndef (ea_metadata e))].
Definition risk_text (r : ApprovalRiskLevel) : string :=
  match r with risk_low => "low" | risk_medium => "medium" | risk_high => "high" | risk_critical => "critical" end.

(** ** The runtime and its computations *)

(** [rt_proofs] is the proof service's own array; a later change of a stored
    proof's status does not touch it. *)
Record ApprovalRuntime (G : Type) := {
  rt_store : ApprovalStore;
  rt_events : list ApprovalEvent;
  rt_proofs : list ApprovalProof;
  rt_calls : nat;
  rt_graph : G;
}.
Arguments rt_store {G} _.
Arguments rt_events {G} _.
Arguments rt_proofs {G} _.
Arguments rt_calls {G} _.
Arguments rt_graph {G} _.
Arguments Build_ApprovalRuntime {G} _ _ _ _ _.

Definition M (G A : Type) : Type := ApprovalRuntime G → result ApprovalRuntimeError A * ApprovalRuntime G.
#[export] Instance M_ret G : MRet (M G) := λ A a rt, (Ok a, rt).
#[export] Instance M_bind G : MBind (M G) := λ A B f m rt, match m rt with (Ok a, rt') => f a rt' | (Throw e, rt') => (Throw e, rt') end.

Section Runtime.
Context {G : Type} `{JsHost} (ctx : ApprovalRuntimeContext) (options : ApprovalRuntimeOptions G).
Implicit Types (rt : ApprovalRuntime G).

Definition throw {A} (e : ApprovalRuntimeError) : M G A := λ rt, (Throw e, rt).
Definition get_store : M G ApprovalStore := λ rt, (Ok (rt_store rt), rt).
Definition with_store rt s : ApprovalRuntime G := Build_ApprovalRuntime s (rt_events rt) (rt_proofs rt) (rt_calls rt) (rt_graph rt).
Definition tick rt : ApprovalRuntime G := Build_ApprovalRuntime (rt_store rt) (rt_events rt) (rt_proofs rt) (S (rt_calls rt)) (rt_graph rt).
Definition modify_store (f : ApprovalStore → ApprovalStore) : M G unit := λ rt, (Ok (), with_store rt (f (rt_store rt))).
Definition update_store {A} (f : ApprovalStore → result ApprovalRuntimeError (A * ApprovalStore)) : M G A := λ rt,
  match f (rt_store rt) with Ok (a, s') => (Ok a, with_store rt s') | Throw e => (Throw e, rt) end.
Definition now_ : M G string := λ rt, (Ok (clock_now ctx (rt_calls rt)), tick rt).
Definition nextId (prefix : string) : M G string := λ rt, (Ok (ids_nextId ctx (rt_calls rt) prefix), tick rt).
Definition push_event (e : ApprovalEvent) : M G unit := λ rt,
  (Ok (), Build_ApprovalRuntime (rt_store rt) (rt_events rt ++ [e]) (rt_proofs rt) (rt_calls rt) (rt_graph rt)).
Definition push_proof (p : ApprovalProof) : M G unit := λ rt,
  (Ok (), Build_ApprovalRuntime (rt_store rt) (rt_events rt) (rt_proofs rt ++ [p]) (rt_calls rt) (rt_graph rt)).
Definition last_event_hash : M G (option string) := λ rt, (Ok (ae_eventHash <$> last (rt_events rt)), rt).
Definition last_proof_hash : M G (option string) := λ rt, (Ok (ap_proofHash <$> last (rt_proofs rt)), rt).

(** *** The ledger *)

Definition recordEvent (i : RecordApprovalEventInput) : M G unit :=
  timestamp ← now_;
  previousHash ← last_event_hash;
  id ← nextId "approval-event";
  push_event {| ae_id := id; ae_input := i; ae_timestamp := timestamp; ae_previousHash := previousHash;
    ae_eventHash := createDigest (event_json i timestamp previousHash) |}.

Record ApprovalEventTrailFilter := {
  tf_trustDomainId : option string;
  tf_approvalRequestId : option string;
  tf_approvalDecisionId : option string;
  tf_approvalProofId : option string;
}.
Definition unset_or (wanted actual : option string) : bool := negb (is_some wanted) || bool_decide (actual = wanted).
Definition getEventTrail rt (filter : option ApprovalEventTrailFilter) : list ApprovalEvent :=
  match filter with
  | None => rt_events rt
  | Some f => List.filter (λ e, let i := ae_input e in
      unset_or (tf_trustDomainId f) (Some (ei_trustDomainId i)) && unset_or (tf_approvalRequestId f) (ei_approvalRequestId i) &&
      unset_or (tf_approvalDecisionId f) (ei_approvalDecisionId i) && unset_or (tf_approvalProofId f) (ei_approvalProofId i)) (rt_events rt)
  end.
Definition getTrailByRequestId rt (approvalRequestId : string) : list ApprovalEvent :=
  getEventTrail rt (Some {| tf_trustDomainId := None; tf_approvalRequestId := Some approvalRequestId; tf_approvalDecisionId := None; tf_approvalProofId := None |}).

(** *** Recognition and authority of an approver *)

Definition recognition_of (status : option string) : ApprovalApproverRecognitionResult :=
  match status with
  | None => {| rec_recognized := false; rec_reasonCode := "APPROVER_UNKNOWN" |}
  | Some status =>
      if str_eqb status "recognized" then {| rec_recognized := true; rec_reasonCode := "APPROVER_RECOGNIZED" |}
      else {| rec_recognized := false; rec_reasonCode := "APPROVER_NOT_RECOGNIZED" |}
  end.
(** The registry when one is composed, the store's statuses otherwise. *)
Definition approver_recognition (actorId : string) : M G ApprovalApproverRecognitionResult := λ rt,
  match opt_actorRegistry options with
  | Some registry => (Ok (recognition_of (registry (rt_calls rt) actorId)), tick rt)
  | None => (Ok (recognition_of (getApproverRecognitionStatus (rt_store rt) actorId)), rt)
  end.
Definition ask_authority (graph : AuthorityGraphRuntimeLike G) (i : ApprovalAuthorityVerificationInput) : M G ApprovalAuthorityCheckResult := λ rt,
  let '(r, g) := createApprovalAuthorityGraphIntegration graph (rt_graph rt) i in
  (Ok r, Build_ApprovalRuntime (rt_store rt) (rt_events rt) (rt_proofs rt) (rt_calls rt) g).

(** *** Requests *)

Record CreateApprovalRequestInput := {
  ci_id : option string;
  ci_expiresAt : option string;
  ci_fields : ApprovalRequest;
}.

Definition MS_PER_MINUTE : Z := 60000.
Definition computeExpiresAt (createdAt : string) (expiresInMinutes : option Z) : M G (option string) :=
  match expiresInMinutes with
  | None => mret None
  | Some minutes =>
      match date_parse createdAt ≫= λ ms, date_toISOString ctx (ms + minutes * MS_PER_MINUTE) with
      | Some text => mret (Some text)
      | None => throw InvalidTimeValue
      end
  end.

(** [ci_fields] carries the fields of the input other than the id and the
    expiry; its own id, status and instants are overwritten. *)
Definition build_request (f : ApprovalRequest) (id createdAt : string) (expiresAt : option string) : ApprovalRequest := {|
  ar_id := id; ar_trustDomainId := ar_trustDomainId f; ar_actionRequestId := ar_actionRequestId f;
  ar_recognitionDecisionId := ar_recognitionDecisionId f; ar_authorityDecisionId := ar_authorityDecisionId f;
  ar_authorityProofId := ar_authorityProofId f; ar_requestedByActorId := ar_requestedByActorId f;
  ar_targetActorId := ar_targetActorId f; ar_principalActorId := ar_principalActorId f; ar_action := ar_action f;
  ar_resourceScope := ar_resourceScope f; ar_resourceId := ar_resourceId f; ar_capability := ar_capability f;
  ar_riskLevel := ar_riskLevel f; ar_requirement := ar_requirement f; ar_status := rs_pending; ar_evidence := ar_evidence f;
  ar_createdAt := createdAt; ar_expiresAt := expiresAt; ar_metadata := ar_metadata f |}.

Definition request_event (t : ApprovalEventType) (r : ApprovalRequest) (requestedBy : option string) (payload : Json) : RecordApprovalEventInput := {|
  ei_type := t; ei_trustDomainId := ar_trustDomainId r; ei_approvalRequestId := Some (ar_id r); ei_approvalDecisionId := None;
  ei_approvalProofId := None; ei_actionRequestId := Some (ar_actionRequestId r); ei_actorId := None; ei_approverActorId := None;
  ei_requestedByActorId := requestedBy; ei_payload := payload |}.

Definition createApprovalRequest (i : CreateApprovalRequestInput) : M G ApprovalRequest :=
  createdAt ← now_;
  expiresAt ← (match ci_expiresAt i with
    | Some e => mret (Some e)
    | None => computeExpiresAt createdAt (rq_expiresInMinutes (ar_requirement (ci_fields i)))
    end);
  id ← (match ci_id i with Some id => mret id | None => nextId "approval-request" end);
  let request := build_request (ci_fields i) id createdAt expiresAt in
  _ ← modify_store (putRequest request);
  _ ← recordEvent (request_event approval_requested request (Some (ar_requestedByActorId request))
        (JObj [("action", JTxt (ar_action request)); ("resourceScope", JTxt (ar_resourceScope request)); ("riskLevel", JTxt (risk_text (ar_riskLevel request)))]));
  mret request.

Definition transition (id : string) (to_ : ApprovalRequestStatus) : M G ApprovalRequest :=
  s ← get_store;
  match getRequest s id with
  | None => throw (InvalidApprovalStatusTransitionError id "unknown" (request_status_text to_))
  | Some existing =>
      if negb (is_pending existing)
      then throw (InvalidApprovalStatusTransitionError id (request_status_text (ar_status existing)) (request_status_text to_))
      else update_store (updateRequestStatus id to_)
  end.
Definition markApproved (id : string) : M G ApprovalRequest := transition id rs_approved.
Definition markRejected (id : string) : M G ApprovalRequest := transition id rs_rejected.
Definition markExpired (id : string) : M G ApprovalRequest := transition id rs_expired.
Definition markRevoked (id : string) : M G ApprovalRequest := transition id rs_revoked.
Definition cancelApprovalRequest (id : string) : M G ApprovalRequest := transition id rs_cancelled.
Definition supersede (id : string) : M G ApprovalRequest := transition id rs_superseded.

(** *** Proofs *)

Record CreateApprovalProofInput := {
  cp_approvalRequestId : string;
  cp_approvalDecisionId : string;
  cp_trustDomainId : string;
  cp_actionRequestId : string;
  cp_requestedByActorId : string;
  cp_approverActorId : string;
  cp_principalActorId : option string;
  cp_action : string;
  cp_resourceScope : string;
  cp_approved : bool;
  cp_evidence : list ApprovalEvidenceArtifact;
  cp_authorityDecisionId : option string;
  cp_authorityProofId : option string;
  cp_expiresAt : option string;
}.
Definition createProof (i : CreateApprovalProofInput) : M G ApprovalProof :=
  let evidenceHashes := (λ e, createDigest (evidence_json e)) <$> cp_evidence i in
  previousHash ← last_proof_hash;
  let proofHash := createDigest (JObj [
    ("approvalRequestId", JTxt (cp_approvalRequestId i)); ("approvalDecisionId", JTxt (cp_approvalDecisionId i));
    ("trustDomainId", JTxt (cp_trustDomainId i)); ("actionRequestId", JTxt (cp_actionRequestId i));
    ("requestedByActorId", JTxt (cp_requestedByActorId i)); ("approverActorId", JTxt (cp_approverActorId i));
    ("principalActorId", opt_txt (cp_principalActorId i)); ("action", JTxt (cp_action i)); ("resourceScope", JTxt (cp_resourceScope i));
    ("approved", JBol (cp_approved i)); ("evidenceHashes", json_texts evidenceHashes);
    ("authorityDecisionId", opt_txt (cp_authorityDecisionId i)); ("authorityProofId", opt_txt (cp_authorityProofId i));
    ("previousHash", opt_txt previousHash)]) in
  id ← nextId "approval-proof";
  createdAt ← now_;
  let proof := {| ap_id := id; ap_approvalRequestId := cp_approvalRequestId i; ap_approvalDecisionId := cp_approvalDecisionId i;
    ap_trustDomainId := cp_trustDomainId i; ap_actionRequestId := cp_actionRequestId i; ap_requestedByActorId := cp_requestedByActorId i;
    ap_approverActorId := cp_approverActorId i; ap_principalActorId := cp_principalActorId i; ap_action := cp_action i;
    ap_resourceScope := cp_resourceScope i; ap_approved := cp_approved i; ap_status := ps_valid; ap_evidenceHashes := evidenceHashes;
    ap_authorityDecisionId := cp_authorityDecisionId i; ap_authorityProofId := cp_authorityProofId i; ap_previousHash := previousHash;
    ap_proofHash := proofHash; ap_createdAt := createdAt; ap_expiresAt := cp_expiresAt i; ap_revokedAt := None;
    ap_revokedByActorId := None; ap_revocationReason := None |} in
  _ ← push_proof proof;
  _ ← modify_store (putProof proof);
  mret proof.

(** The reason code of [verifyApprovalProof]; [None] is valid. *)
Definition verifyApprovalProof (s : ApprovalStore) (id now : string) : option string :=
  match getProof s id with
  | None => Some "APPROVAL_PROOF_NOT_FOUND"
  | Some proof =>
      if bool_decide (ap_status proof = ps_revoked) then Some "APPROVAL_REVOKED"
      else if match ap_expiresAt proof with Some e => instant_ge now e | None => false end then Some "APPROVAL_EXPIRED"
      else if bool_decide (ap_status proof ≠ ps_valid) || negb (ap_approved proof) then Some "APPROVAL_INVALID"
      else None
  end.

Definition service_revokeApprovalProof (id revokedBy reason : string) : M G ApprovalProof :=
  s ← get_store;
  match getProof s id with
  | None => throw (ApprovalProofNotFoundError id)
  | Some _ => revokedAt ← now_; update_store (updateProofStatus id ps_revoked (Some (revokedAt, revokedBy, reason)))
  end.
Definition service_expireApprovalProof (id : string) : M G ApprovalProof :=
  s ← get_store;
  match getProof s id with
  | None => throw (ApprovalProofNotFoundError id)
  | Some _ => update_store (updateProofStatus id ps_expired None)
  end.

(** *** Expiration *)

Definition is_past (expiresAt : option string) (now : string) : bool := match expiresAt with Some e => instant_ge now e | None => false end.
(** [isRequestExpired], [isProofExpired]: the clock is read only when there is an
    expiry. *)
Definition isExpired (expiresAt : option string) : M G bool :=
  match expiresAt with None => mret false | Some e => now ← now_; mret (instant_ge now e) end.

Definition expiry_payload (expiresAt : option string) : Json := JObj [("expiresAt", opt_txt expiresAt)].
Definition expireRequest (r : ApprovalRequest) : M G ApprovalRequest :=
  expired ← markExpired (ar_id r);
  _ ← recordEvent (request_event approval_expired expired None (expiry_payload (ar_expiresAt expired)));
  mret expired.

Fixpoint filterM {A} (p : A → M G bool) (l : list A) : M G (list A) :=
  match l with [] => mret [] | x :: l => b ← p x; rest ← filterM p l; mret (if b : bool then x :: rest else rest) end.
Fixpoint mapM {A B} (f : A → M G B) (l : list A) : M G (list B) :=
  match l with [] => mret [] | x :: l => y ← f x; rest ← mapM f l; mret (y :: rest) end.

Definition detectExpiredRequests : M G (list ApprovalRequest) := s ← get_store; filterM (λ r, isExpired (ar_expiresAt r)) (getPendingRequests s).
Definition expirePendingRequests : M G (list ApprovalRequest) := expired ← detectExpiredRequests; mapM expireRequest expired.
Definition expireRequestIfNeeded (id : string) : M G (option ApprovalRequest) :=
  s ← get_store;
  match getRequest s id with
  | None => mret None
  | Some request =>
      if negb (is_pending request) then mret (Some request)
      else expired ← isExpired (ar_expiresAt request);
           if negb expired then mret (Some request) else r ← expireRequest request; mret (Some r)
  end.
Definition proof_event (t : ApprovalEventType) (p : ApprovalProof) (payload : Json) : RecordApprovalEventInput := {|
  ei_type := t; ei_trustDomainId := ap_trustDomainId p; ei_approvalRequestId := Some (ap_approvalRequestId p);
  ei_approvalDecisionId := Some (ap_approvalDecisionId p); ei_approvalProofId := Some (ap_id p); ei_actionRequestId := None;
  ei_actorId := None; ei_approverActorId := None; ei_requestedByActorId := None; ei_payload := payload |}.
Definition expireProofIfNeeded (id : string) : M G (option ApprovalProof) :=
  s ← get_store;
  match getProof s id with
  | None => mret None
  | Some proof =>
      if bool_decide (ap_status proof ≠ ps_valid) then mret (Some proof)
      else expired ← isExpired (ap_expiresAt proof);
           if negb expired then mret (Some proof)
           else p ← service_expireApprovalProof id;
                _ ← recordEvent (proof_event approval_expired p (expiry_payload (ap_expiresAt p)));
                mret (Some p)
  end.

(** *** Revocation *)

Definition revocation_payload (reason revokedBy : string) : Json := JObj [("reason", JTxt reason); ("revokedByActorId", JTxt revokedBy)].
Definition revokeApprovalRequest (id revokedBy reason : string) : M G ApprovalRequest :=
  revoked ← markRevoked id;
  _ ← recordEvent (request_event approval_revoked revoked None (revocation_payload reason revokedBy));
  mret revoked.
Definition revokeApprovalProof (id revokedBy reason : string) : M G ApprovalProof :=
  revoked ← service_revokeApprovalProof id revokedBy reason;
  _ ← recordEvent (proof_event approval_revoked revoked (revocation_payload reason revokedBy));
  mret revoked.
Definition revokeApproval (approvalProofId approvalRequestId : option string) (revokedBy reason : string) : M G (ApprovalRequest + ApprovalProof) :=
  match approvalProofId, approvalRequestId with
  | Some id, _ => p ← revokeApprovalProof id revokedBy reason; mret (inr p)
  | None, Some id => r ← revokeApprovalRequest id revokedBy reason; mret (inl r)
  | None, None => throw RevokeApprovalInputError
  end.

(** *** Decisions *)

Record SubmitApprovalDecisionInput := {
  sd_approvalRequestId : string;
  sd_approverActorId : string;
  sd_type : ApprovalDecisionType;
  sd_evidenceReviewed : option (list ApprovalEvidenceArtifact);
  sd_reason : option string;
}.
Record ApprovalDecisionSubmissionResult := {
  sr_decision : ApprovalDecision;
  sr_request : option ApprovalRequest;
  sr_proof : option ApprovalProof;
  sr_quorumMet : bool;
}.

Definition TERMINAL_EVENT_BY_DECISION_TYPE (t : ApprovalDecisionType) : option ApprovalEventType :=
  match t with
  | dt_approved => Some approval_approved
  | dt_rejected => Some approval_rejected
  | dt_requested_changes => Some approval_changes_requested
  | dt_escalated => Some approval_escalated
  | dt_expired => Some approval_expired
  | dt_revoked => Some approval_revoked
  | _ => None
  end.

Definition checkApproverAuthority (request : option ApprovalRequest) (approverActorId now : string) : M G (option ApprovalAuthorityCheckResult) :=
  match request, opt_authorityGraph options with
  | Some r, Some graph =>
      match rq_requiredAuthorityCapability (ar_requirement r) with
      | None => mret None
      | Some capability =>
          check ← ask_authority graph {| av_requestId := ar_id r; av_actorId := approverActorId; av_principalActorId := ar_principalActorId r;
            av_trustDomainId := ar_trustDomainId r; av_action := capability; av_resourceScope := ar_resourceScope r;
            av_capability := None; av_requestedAt := now |};
          mret (Some check)
      end
  | _, _ => mret None
  end.

Definition decision_event (t : ApprovalEventType) (r : ApprovalRequest) (d : ApprovalDecision) (payload : Json) : RecordApprovalEventInput := {|
  ei_type := t; ei_trustDomainId := ar_trustDomainId r; ei_approvalRequestId := Some (ar_id r); ei_approvalDecisionId := Some (ad_id d);
  ei_approvalProofId := None; ei_actionRequestId := Some (ar_actionRequestId r); ei_actorId := None;
  ei_approverActorId := Some (ad_approverActorId d); ei_requestedByActorId := None; ei_payload := payload |}.
Definition recordDecisionEvent (t : ApprovalEventType) (r : ApprovalRequest) (d : ApprovalDecision) : M G unit :=
  recordEvent (decision_event t r d (JObj [("reasonCode", JTxt (ad_reasonCode d))])).

Definition decision_context (now : string) (request : option ApprovalRequest) (input : SubmitApprovalDecisionInput)
    (recognition : ApprovalApproverRecognitionResult) (check : option ApprovalAuthorityCheckResult) (prior : list ApprovalDecision) : ApprovalPolicyContext := {|
  pc_now := now; pc_request := request;
  pc_attempt := {| at_approverActorId := sd_approverActorId input; at_type := sd_type input; at_evidenceReviewed := default [] (sd_evidenceReviewed input) |};
  pc_approverRecognition := recognition; pc_authorityCheck := check; pc_priorDecisions := prior |}.

Definition build_decision (id now : string) (request : option ApprovalRequest) (input : SubmitApprovalDecisionInput)
    (evaluation : ApprovalPolicyEvaluationResult) (check : option ApprovalAuthorityCheckResult) : ApprovalDecision := {|
  ad_id := id; ad_approvalRequestId := sd_approvalRequestId input;
  ad_trustDomainId := match request with Some r => ar_trustDomainId r | None => "unknown" end;
  ad_approverActorId := sd_approverActorId input; ad_type := ev_decisionType evaluation;
  ad_approved := bool_decide (ev_decisionType evaluation = dt_approved); ad_reasonCode := ev_reasonCode evaluation;
  ad_reason := sd_reason input; ad_evidenceReviewed := default [] (sd_evidenceReviewed input);
  ad_authorityDecisionId := check ≫= ac_authorityDecisionId; ad_authorityProofId := check ≫= ac_authorityProofId; ad_decidedAt := now |}.

Definition proof_input (r : ApprovalRequest) (d : ApprovalDecision) (evidence : list ApprovalEvidenceArtifact) : CreateApprovalProofInput := {|
  cp_approvalRequestId := ar_id r; cp_approvalDecisionId := ad_id d; cp_trustDomainId := ar_trustDomainId r;
  cp_actionRequestId := ar_actionRequestId r; cp_requestedByActorId := ar_requestedByActorId r; cp_approverActorId := ad_approverActorId d;
  cp_principalActorId := ar_principalActorId r; cp_action := ar_action r; cp_resourceScope := ar_resourceScope r; cp_approved := true;
  cp_evidence := evidence; cp_authorityDecisionId := ad_authorityDecisionId d; cp_authorityProofId := ad_authorityProofId d;
  cp_expiresAt := ar_expiresAt r |}.

Definition submission (d : ApprovalDecision) (r : option ApprovalRequest) (p : option ApprovalProof) (q : bool) : ApprovalDecisionSubmissionResult :=
  {| sr_decision := d; sr_request := r; sr_proof := p; sr_quorumMet := q |}.

(** A refused attempt: the lazily detected expiry, then the event of its type. *)
Definition refuse_attempt (evaluation : ApprovalPolicyEvaluationResult) (request : option ApprovalRequest) (decision : ApprovalDecision) :
    M G ApprovalDecisionSubmissionResult :=
  effective ← (match request with
    | Some r => if bool_decide (ev_failed evaluation = Some "expiration") && is_pending r
        then expired ← markExpired (ar_id r); mret (Some expired)
        else mret (Some r)
    | None => mret None
    end);
  _ ← (match TERMINAL_EVENT_BY_DECISION_TYPE (ad_type decision), effective with
    | Some t, Some r => recordEvent (decision_event t r decision (JObj [("reasonCode", JTxt (ad_reasonCode decision))]))
    | _, _ => mret ()
    end);
  mret (submission decision effective None false).

(** An admitted approval: it is recorded, and when it completes the quorum the
    request is approved and a proof is created. *)
Definition accept_approval (context : ApprovalPolicyContext) (request : ApprovalRequest) (prior : list ApprovalDecision) (decision : ApprovalDecision) :
    M G ApprovalDecisionSubmissionResult :=
  _ ← recordDecisionEvent approval_approved request decision;
  match policy_evaluate QuorumPolicy context with
  | Some _ => mret (submission decision (Some request) None false)
  | None =>
      approvedRequest ← markApproved (ar_id request);
      let combinedEvidence := List.flat_map ad_evidenceReviewed (List.filter is_approved (prior ++ [decision])) in
      proof ← createProof (proof_input approvedRequest decision combinedEvidence);
      _ ← recordEvent {| ei_type := approval_proof_created; ei_trustDomainId := ar_trustDomainId approvedRequest;
            ei_approvalRequestId := Some (ar_id approvedRequest); ei_approvalDecisionId := Some (ad_id decision);
            ei_approvalProofId := Some (ap_id proof); ei_actionRequestId := Some (ar_actionRequestId approvedRequest); ei_actorId := None;
            ei_approverActorId := None; ei_requestedByActorId := None; ei_payload := JObj [("proofHash", JTxt (ap_proofHash proof))] |};
      mret (submission decision (Some approvedRequest) (Some proof) true)
  end.

Definition submitApprovalDecision (input : SubmitApprovalDecisionInput) : M G ApprovalDecisionSubmissionResult :=
  now ← now_;
  s ← get_store;
  let request := getRequest s (sd_approvalRequestId input) in
  let prior := match request with Some r => getDecisionsByRequestId s (ar_id r) | None => [] end in
  check ← checkApproverAuthority request (sd_approverActorId input) now;
  recognition ← approver_recognition (sd_approverActorId input);
  let context := decision_context now request input recognition check prior in
  let evaluation := evaluate_policies createAdmissionApprovalPolicyChain context in
  id ← nextId "approval-decision";
  let decision := build_decision id now request input evaluation check in
  _ ← modify_store (putDecision decision);
  match request with
  | Some r =>
      if negb (ev_passed evaluation) then refuse_attempt evaluation request decision
      else match ad_type decision with
      | dt_rejected => rejected ← markRejected (ar_id r); _ ← recordDecisionEvent approval_rejected rejected decision; mret (submission decision (Some rejected) None false)
      | dt_requested_changes => _ ← recordDecisionEvent approval_changes_requested r decision; mret (submission decision (Some r) None false)
      | dt_escalated => _ ← recordDecisionEvent approval_escalated r decision; mret (submission decision (Some r) None false)
      | _ => accept_approval context r prior decision
      end
  | None => refuse_attempt evaluation None decision
  end.

Definition attempt (t : ApprovalDecisionType) (i : SubmitApprovalDecisionInput) : SubmitApprovalDecisionInput := {|
  sd_approvalRequestId := sd_approvalRequestId i; sd_approverActorId := sd_approverActorId i; sd_type := t;
  sd_evidenceReviewed := sd_evidenceReviewed i; sd_reason := sd_reason i |}.
Definition approve (i : SubmitApprovalDecisionInput) : M G ApprovalDecisionSubmissionResult := submitApprovalDecision (attempt dt_approved i).
Definition reject (i : SubmitApprovalDecisionInput) : M G ApprovalDecisionSubmissionResult := submitApprovalDecision (attempt dt_rejected i).
Definition requestChanges (i : SubmitApprovalDecisionInput) : M G ApprovalDecisionSubmissionResult := submitApprovalDecision (attempt dt_requested_changes i).
Definition escalate (i : SubmitApprovalDecisionInput) : M G ApprovalDecisionSubmissionResult := submitApprovalDecision (attempt dt_escalated i).

(** *** Resolving approvers *)

Inductive ApproverResolutionStatus := approvers_found | no_valid_approver | authority_missing_ | out_of_scope_ | conflict_of_interest_.
#[global] Instance ApproverResolutionStatus_eq_dec : EqDecision ApproverResolutionStatus.
Proof using Type. solve_decision. Defined.
Definition resolution_status_text (s : ApproverResolutionStatus) : string :=
  match s with
  | approvers_found => "approvers_found" | no_valid_approver => "no_valid_approver" | authority_missing_ => "authority_missing"
  | out_of_scope_ => "out_of_scope" | conflict_of_interest_ => "conflict_of_interest"
  end.
Record CandidateRejection := { cj_actorId : string; cj_reasonCode : string; cj_status : ApproverResolutionStatus }.
Record ApproverResolution := {
  res_id : string;
  res_approvalRequestId : string;
  res_trustDomainId : string;
  res_status : ApproverResolutionStatus;
  res_candidateApproverActorIds : list string;
  res_validApproverActorIds : list string;
  res_rejectedCandidateActorIds : list string;
  res_reasonCode : string;
  res_evaluatedAt : string;
}.

Definition drop_last (s : string) : string := String.substring 0 (String.length s - 1) s.
Definition ends_with_star (s : string) : bool := match last (chars s) with Some c => bool_decide (c = "*"%char) | None => false end.
Definition matchesPattern (pattern value : string) : bool :=
  if str_eqb pattern "*" then true
  else if ends_with_star pattern then String.prefix (drop_last pattern) value
  else str_eqb pattern value.

Definition roleLookup (roleId : string) : list string := match opt_roleLookup options with Some f => f roleId | None => [] end.
Definition matching_rules (s : ApprovalStore) (r : ApprovalRequest) : list ApproverRule :=
  List.filter (λ rule, match rule_resourceScopePattern rule with None => true | Some p => matchesPattern p (ar_resourceScope r) end)
    (List.filter (λ rule, matchesPattern (rule_actionPattern rule) (ar_action r)) (getApproverRulesByTrustDomain s (ar_trustDomainId r))).
Definition collectCandidates (explicit : list string) (r : ApprovalRequest) (rules : list ApproverRule) : list string :=
  nub (explicit ++ default [] (rq_requiredApproverActorIds (ar_requirement r)) ++
    List.flat_map roleLookup (default [] (rq_requiredApproverRoleIds (ar_requirement r))) ++
    List.flat_map (λ rule, default [] (rule_allowedApproverActorIds rule) ++ List.flat_map roleLookup (default [] (rule_allowedApproverRoleIds rule))) rules).

Definition explicitly_allowed (actorId : string) (r : ApprovalRequest) (rules : list ApproverRule) : bool :=
  bool_decide (actorId ∈ default [] (rq_requiredApproverActorIds (ar_requirement r))) ||
  existsb (λ roleId, bool_decide (actorId ∈ roleLookup roleId)) (default [] (rq_requiredApproverRoleIds (ar_requirement r))) ||
  existsb (λ rule, bool_decide (actorId ∈ default [] (rule_allowedApproverActorIds rule)) ||
    existsb (λ roleId, bool_decide (actorId ∈ roleLookup roleId)) (default [] (rule_allowedApproverRoleIds rule))) rules.

Definition required_capability (r : ApprovalRequest) (rules : list ApproverRule) : option string :=
  match rq_requiredAuthorityCapability (ar_requirement r) with
  | Some c => Some c
  | None => List.find (λ rule, is_some (rule_requiredAuthorityCapability rule)) rules ≫= rule_requiredAuthorityCapability
  end.

Definition evaluateCandidate (actorId : string) (r : ApprovalRequest) (rules : list ApproverRule) : M G (option CandidateRejection) :=
  recognition ← approver_recognition actorId;
  let reject_as code st := mret (Some {| cj_actorId := actorId; cj_reasonCode := code; cj_status := st |}) in
  if negb (rec_recognized recognition) then reject_as (rec_reasonCode recognition) no_valid_approver
  else if (rq_requiresSegregationOfDuties (ar_requirement r) || existsb rule_requiresDifferentActorFromRequester rules) &&
          str_eqb actorId (ar_requestedByActorId r) then reject_as "APPROVER_IS_REQUESTER" conflict_of_interest_
  else if (rq_requiresSegregationOfDuties (ar_requirement r) || existsb rule_requiresDifferentActorFromBeneficiary rules) &&
          str_eqb actorId (ar_targetActorId r) then reject_as "APPROVER_IS_BENEFICIARY" conflict_of_interest_
  else match required_capability r rules with
  | None => if explicitly_allowed actorId r rules then mret None else reject_as "APPROVER_NOT_AUTHORIZED" no_valid_approver
  | Some capability =>
      match opt_authorityGraph options with
      | None => reject_as "AUTHORITY_GRAPH_UNAVAILABLE" authority_missing_
      | Some graph =>
          requestedAt ← now_;
          check ← ask_authority graph {| av_requestId := ar_id r; av_actorId := actorId; av_principalActorId := ar_principalActorId r;
            av_trustDomainId := ar_trustDomainId r; av_action := capability; av_resourceScope := ar_resourceScope r;
            av_capability := None; av_requestedAt := requestedAt |};
          if ac_valid check then mret None
          else reject_as (ac_reasonCode check) (if str_eqb (ac_type check) "scope_expansion_detected" then out_of_scope_ else authority_missing_)
      end
  end.

Definition resolution_priority : list ApproverResolutionStatus := [out_of_scope_; conflict_of_interest_; authority_missing_; no_valid_approver].
Fixpoint first_rejection (priority : list ApproverResolutionStatus) (rejections : list CandidateRejection) : option CandidateRejection :=
  match priority with
  | [] => None
  | st :: rest => match List.find (λ j, bool_decide (cj_status j = st)) rejections with Some j => Some j | None => first_rejection rest rejections end
  end.
Definition summarize (valid : list string) (rejections : list CandidateRejection) : ApproverResolutionStatus * string :=
  match valid with
  | _ :: _ => (approvers_found, "APPROVERS_FOUND")
  | [] => match first_rejection resolution_priority rejections with Some j => (cj_status j, cj_reasonCode j) | None => (no_valid_approver, "NO_VALID_APPROVER") end
  end.

(** The valid approvers and the rejections, in candidate order. *)
Fixpoint evaluate_candidates (r : ApprovalRequest) (rules : list ApproverRule) (candidates : list string) : M G (list string * list CandidateRejection) :=
  match candidates with
  | [] => mret ([], [])
  | actorId :: rest =>
      rejection ← evaluateCandidate actorId r rules;
      outcome ← evaluate_candidates r rules rest;
      mret (match rejection with Some j => (outcome.1, j :: outcome.2) | None => (actorId :: outcome.1, outcome.2) end)
  end.

Definition resolveApprovers (request : ApprovalRequest) (candidateActorIds : option (list string)) : M G ApproverResolution :=
  s ← get_store;
  let rules := matching_rules s request in
  let candidates := collectCandidates (default [] candidateActorIds) request rules in
  outcome ← evaluate_candidates request rules candidates;
  let '(valid, rejections) := outcome in
  let '(status, reasonCode) := summarize valid rejections in
  id ← nextId "approver-resolution";
  evaluatedAt ← now_;
  let rejected := cj_actorId <$> rejections in
  _ ← recordEvent {| ei_type := approvers_resolved; ei_trustDomainId := ar_trustDomainId request; ei_approvalRequestId := Some (ar_id request);
        ei_approvalDecisionId := None; ei_approvalProofId := None; ei_actionRequestId := None; ei_actorId := None; ei_approverActorId := None;
        ei_requestedByActorId := None; ei_payload := JObj [("status", JTxt (resolution_status_text status));
          ("validApproverActorIds", json_texts valid); ("rejectedCandidateActorIds", json_texts rejected)] |};
  mret {| res_id := id; res_approvalRequestId := ar_id request; res_trustDomainId := ar_trustDomainId request; res_status := status;
    res_candidateApproverActorIds := candidates; res_validApproverActorIds := valid; res_rejectedCandidateActorIds := rejected;
    res_reasonCode := reasonCode; res_evaluatedAt := evaluatedAt |}.

(** *** Requirements, rules and requests for decisions *)

Definition requirement_with_id (r : ApprovalRequirement) (id : string) : ApprovalRequirement := {|
  rq_id := id; rq_type := rq_type r; rq_trustDomainId := rq_trustDomainId r; rq_action := rq_action r; rq_resourceScope := rq_resourceScope r;
  rq_riskLevel := rq_riskLevel r; rq_requiredApproverActorIds := rq_requiredApproverActorIds r;
  rq_requiredApproverRoleIds := rq_requiredApproverRoleIds r; rq_requiredAuthorityCapability := rq_requiredAuthorityCapability r;
  rq_minimumApprovals := rq_minimumApprovals r; rq_requiresSegregationOfDuties := rq_requiresSegregationOfDuties r;
  rq_evidenceRequirements := rq_evidenceRequirements r; rq_expiresInMinutes := rq_expiresInMinutes r; rq_metadata := rq_metadata r |}.
Definition createApprovalRequirement (id : option string) (r : ApprovalRequirement) : M G ApprovalRequirement :=
  id ← (match id with Some id => mret id | None => nextId "approval-requirement" end);
  let requirement := requirement_with_id r id in
  _ ← modify_store (putRequirement requirement);
  mret requirement.
Definition rule_with_id (r : ApproverRule) (id : string) : ApproverRule := {|
  rule_id := id; rule_trustDomainId := rule_trustDomainId r; rule_actionPattern := rule_actionPattern r;
  rule_resourceScopePattern := rule_resourceScopePattern r; rule_allowedApproverActorIds := rule_allowedApproverActorIds r;
  rule_allowedApproverRoleIds := rule_allowedApproverRoleIds r; rule_requiredAuthorityCapability := rule_requiredAuthorityCapability r;
  rule_minApprovals := rule_minApprovals r; rule_requiresDifferentActorFromRequester := rule_requiresDifferentActorFromRequester r;
  rule_requiresDifferentActorFromBeneficiary := rule_requiresDifferentActorFromBeneficiary r;
  rule_allowedRiskLevels := rule_allowedRiskLevels r; rule_expiresInMinutes := rule_expiresInMinutes r; rule_metadata := rule_metadata r |}.
Definition createApproverRule (id : option string) (r : ApproverRule) : M G ApproverRule :=
  id ← (match id with Some id => mret id | None => nextId "approver-rule" end);
  let rule := rule_with_id r id in
  _ ← modify_store (putApproverRule rule);
  mret rule.

Record CreateApprovalRequestForDecisionInput := {
  cf_recognitionDecisionId : string;
  cf_actionRequestId : string;
  cf_trustDomainId : string;
  cf_requestedByActorId : string;
  cf_targetActorId : string;
  cf_principalActorId : option string;
  cf_action : string;
  cf_resourceScope : string;
  cf_capability : option string;
  cf_riskLevel : ApprovalRiskLevel;
}.
Definition findMatchingRequirement (s : ApprovalStore) (i : CreateApprovalRequestForDecisionInput) : option ApprovalRequirement :=
  List.find (λ r, str_eqb (rq_action r) (cf_action i) && (str_eqb (rq_resourceScope r) (cf_resourceScope i) || str_eqb (rq_resourceScope r) "*"))
    (getRequirementsByTrustDomain s (cf_trustDomainId i)).
Definition default_requirement (i : CreateApprovalRequestForDecisionInput) : ApprovalRequirement := {| rq_id := ""; rq_type := single_approval; rq_trustDomainId := cf_trustDomainId i; rq_action := cf_action i;
    rq_resourceScope := cf_resourceScope i; rq_riskLevel := cf_riskLevel i; rq_requiredApproverActorIds := None;
    rq_requiredApproverRoleIds := None; rq_requiredAuthorityCapability := None; rq_minimumApprovals := 1;
    rq_requiresSegregationOfDuties := true; rq_evidenceRequirements := []; rq_expiresInMinutes := None; rq_metadata := None |}.
Definition createDefaultRequirement (i : CreateApprovalRequestForDecisionInput) : M G ApprovalRequirement :=
  createApprovalRequirement None (default_requirement i).
Definition request_for_decision (i : CreateApprovalRequestForDecisionInput) (requirement : ApprovalRequirement) : CreateApprovalRequestInput := {|
  ci_id := None; ci_expiresAt := None; ci_fields := {|
    ar_id := ""; ar_trustDomainId := cf_trustDomainId i; ar_actionRequestId := cf_actionRequestId i;
    ar_recognitionDecisionId := Some (cf_recognitionDecisionId i); ar_authorityDecisionId := None; ar_authorityProofId := None;
    ar_requestedByActorId := cf_requestedByActorId i; ar_targetActorId := cf_targetActorId i; ar_principalActorId := cf_principalActorId i;
    ar_action := cf_action i; ar_resourceScope := cf_resourceScope i; ar_resourceId := None; ar_capability := cf_capability i;
    ar_riskLevel := cf_riskLevel i; ar_requirement := requirement; ar_status := rs_pending; ar_evidence := []; ar_createdAt := "";
    ar_expiresAt := None; ar_metadata := None |} |}.
Definition createApprovalRequestForDecision (i : CreateApprovalRequestForDecisionInput) : M G (string * ApprovalRequestStatus) :=
  s ← get_store;
  requirement ← (match findMatchingRequirement s i with Some r => mret r | None => createDefaultRequirement i end);
  request ← createApprovalRequest (request_for_decision i requirement);
  mret (ar_id request, ar_status request).

(** *** Verifying an approval for an action *)

Record ApprovalVerificationInput := {
  vi_approvalProofId : option string;
  vi_approvalRequestId : option string;
  vi_approvalDecisionId : option string;
  vi_actionRequestId : string;
  vi_actorId : string;
  vi_principalActorId : option string;
  vi_trustDomainId : string;
  vi_action : string;
  vi_resourceScope : string;
  vi_capability : option string;
  vi_requestedAt : string;
  vi_evidence : option (list ApprovalEvidenceArtifact);
}.
Inductive ApprovalVerificationResultType :=
  | vt_valid | vt_missing | vt_invalid | vt_expired | vt_revoked | vt_invalid_approver | vt_out_of_scope | vt_insufficient_evidence
  | vt_segregation_violation | vt_quorum_not_met.
Definition verification_type_text (t : ApprovalVerificationResultType) : string :=
  match t with
  | vt_valid => "approval_valid" | vt_missing => "approval_missing" | vt_invalid => "approval_invalid" | vt_expired => "approval_expired"
  | vt_revoked => "approval_revoked" | vt_invalid_approver => "invalid_approver" | vt_out_of_scope => "approval_out_of_scope"
  | vt_insufficient_evidence => "approval_insufficient_evidence" | vt_segregation_violation => "segregation_of_duties_violation"
  | vt_quorum_not_met => "approval_quorum_not_met"
  end.
Record ApprovalVerificationResult := {
  vr_type : ApprovalVerificationResultType;
  vr_valid : bool;
  vr_approvalRequestId : option string;
  vr_approvalDecisionId : option string;
  vr_approvalProofId : option string;
  vr_reasonCode : string;
}.

Definition latestProofForRequest (s : ApprovalStore) (id : string) : option ApprovalProof := last (getProofsByRequestId s id).

Definition resolveVerificationTarget (s : ApprovalStore) (i : ApprovalVerificationInput) : option ApprovalRequest * option ApprovalProof :=
  match vi_approvalProofId i, vi_approvalDecisionId i, vi_approvalRequestId i with
  | Some proofId, _, _ =>
      match getProof s proofId with None => (None, None) | Some proof => (getRequest s (ap_approvalRequestId proof), Some proof) end
  | None, Some decisionId, _ =>
      (getDecision s decisionId ≫= λ d, getRequest s (ad_approvalRequestId d), getProofByDecisionId s decisionId)
  | None, None, Some requestId =>
      match getRequest s requestId with None => (None, None) | Some request => (Some request, latestProofForRequest s (ar_id request)) end
  | None, None, None =>
      match last (List.filter (λ r, str_eqb (ar_trustDomainId r) (vi_trustDomainId i) && str_eqb (ar_action r) (vi_action i) &&
                    str_eqb (ar_resourceScope r) (vi_resourceScope i)) (getRequestsByActionRequestId s (vi_actionRequestId i))) with
      | None => (None, None)
      | Some request => (Some request, latestProofForRequest s (ar_id request))
      end
  end.

Definition VERIFICATION_TYPE_BY_REQUEST_STATUS (s : ApprovalRequestStatus) : ApprovalVerificationResultType :=
  match s with rs_expired => vt_expired | rs_revoked => vt_revoked | _ => vt_invalid end.
(** [type.toUpperCase()] of the types above. *)
Definition upper_verification_type (t : ApprovalVerificationResultType) : string :=
  match t with vt_expired => "APPROVAL_EXPIRED" | vt_revoked => "APPROVAL_REVOKED" | _ => "APPROVAL_INVALID" end.

Definition failed_on_request (t : ApprovalVerificationResultType) (code : string) (r : ApprovalRequest) : ApprovalVerificationResult :=
  {| vr_type := t; vr_valid := false; vr_approvalRequestId := Some (ar_id r); vr_approvalDecisionId := None; vr_approvalProofId := None; vr_reasonCode := code |}.
Definition about_proof (t : ApprovalVerificationResultType) (valid : bool) (code : string) (p : ApprovalProof) : ApprovalVerificationResult :=
  {| vr_type := t; vr_valid := valid; vr_approvalRequestId := Some (ap_approvalRequestId p);
     vr_approvalDecisionId := Some (ap_approvalDecisionId p); vr_approvalProofId := Some (ap_id p); vr_reasonCode := code |}.

Definition verification_of (s : ApprovalStore) (i : ApprovalVerificationInput) : ApprovalVerificationResult :=
  match resolveVerificationTarget s i with
  | (None, None) => {| vr_type := vt_missing; vr_valid := false; vr_approvalRequestId := None; vr_approvalDecisionId := None;
      vr_approvalProofId := None; vr_reasonCode := "APPROVAL_MISSING" |}
  | (Some request, None) =>
      if is_pending request then
        if existsb is_approved (getDecisionsByRequestId s (ar_id request))
        then failed_on_request vt_quorum_not_met "APPROVAL_QUORUM_NOT_MET" request
        else failed_on_request vt_missing "APPROVAL_MISSING" request
      else let t := VERIFICATION_TYPE_BY_REQUEST_STATUS (ar_status request) in failed_on_request t (upper_verification_type t) request
  | (_, Some proof) =>
      match verifyApprovalProof s (ap_id proof) (vi_requestedAt i) with
      | Some code =>
          about_proof (if str_eqb code "APPROVAL_REVOKED" then vt_revoked else if str_eqb code "APPROVAL_EXPIRED" then vt_expired else vt_invalid) false code proof
      | None =>
          if negb (str_eqb (ap_action proof) (vi_action i)) || negb (str_eqb (ap_resourceScope proof) (vi_resourceScope i))
          then about_proof vt_out_of_scope false "APPROVAL_OUT_OF_SCOPE" proof
          else about_proof vt_valid true "APPROVAL_VALID" proof
      end
  end.

Definition finishVerification (i : ApprovalVerificationInput) (r : ApprovalVerificationResult) : M G ApprovalVerificationResult :=
  _ ← recordEvent {| ei_type := if vr_valid r then approval_verified else approval_verification_failed; ei_trustDomainId := vi_trustDomainId i;
        ei_approvalRequestId := vr_approvalRequestId r; ei_approvalDecisionId := vr_approvalDecisionId r;
        ei_approvalProofId := vr_approvalProofId r; ei_actionRequestId := Some (vi_actionRequestId i); ei_actorId := Some (vi_actorId i);
        ei_approverActorId := None; ei_requestedByActorId := None;
        ei_payload := JObj [("type", JTxt (verification_type_text (vr_type r))); ("reasonCode", JTxt (vr_reasonCode r))] |};
  mret r.
Definition verifyApprovalForAction (i : ApprovalVerificationInput) : M G ApprovalVerificationResult :=
  s ← get_store; finishVerification i (verification_of s i).

(** *** Histories *)

Inductive RuntimeOp :=
  | OpRegisterRecognition (actorId status : string)
  | OpCreateRequirement (id : option string) (r : ApprovalRequirement)
  | OpCreateRule (id : option string) (r : ApproverRule)
  | OpCreateRequest (i : CreateApprovalRequestInput)
  | OpCreateRequestForDecision (i : CreateApprovalRequestForDecisionInput)
  | OpResolveApprovers (r : ApprovalRequest) (candidates : option (list string))
  | OpApprove (i : SubmitApprovalDecisionInput)
  | OpReject (i : SubmitApprovalDecisionInput)
  | OpRequestChanges (i : SubmitApprovalDecisionInput)
  | OpEscalate (i : SubmitApprovalDecisionInput)
  | OpCancel (id : string)
  | OpSupersede (id : string)
  | OpExpireRequest (id : string)
  | OpExpirePending
  | OpExpireProof (id : string)
  | OpRevoke (approvalProofId approvalRequestId : option string) (revokedBy reason : string)
  | OpVerify (i : ApprovalVerificationInput)
  | OpGraph (step : G → G).

Definition void {A} (m : M G A) : M G unit := _ ← m; mret ().
Definition run_op (op : RuntimeOp) : M G unit :=
  match op with
  | OpRegisterRecognition a st => modify_store (registerApproverRecognitionStatus a st)
  | OpCreateRequirement id r => void (createApprovalRequirement id r)
  | OpCreateRule id r => void (createApproverRule id r)
  | OpCreateRequest i => void (createApprovalRequest i)
  | OpCreateRequestForDecision i => void (createApprovalRequestForDecision i)
  | OpResolveApprovers r c => void (resolveApprovers r c)
  | OpApprove i => void (approve i)
  | OpReject i => void (reject i)
  | OpRequestChanges i => void (requestChanges i)
  | OpEscalate i => void (escalate i)
  | OpCancel id => void (cancelApprovalRequest id)
  | OpSupersede id => void (supersede id)
  | OpExpireRequest id => void (expireRequestIfNeeded id)
  | OpExpirePending => void expirePendingRequests
  | OpExpireProof id => void (expireProofIfNeeded id)
  | OpRevoke p r b why => void (revokeApproval p r b why)
  | OpVerify i => void (verifyApprovalForAction i)
  | OpGraph step => λ rt, (Ok (), Build_ApprovalRuntime (rt_store rt) (rt_events rt) (rt_proofs rt) (rt_calls rt) (step (rt_graph rt)))
  end.
(** The runtime after an operation, whether it returned or threw. *)
Definition after rt (op : RuntimeOp) : ApprovalRuntime G := (run_op op rt).2.
Definition run_ops rt (ops : list RuntimeOp) : ApprovalRuntime G := foldl after rt ops.
Definition new_runtime (graph : G) : ApprovalRuntime G := Build_ApprovalRuntime empty_approvals [] [] 0 graph.

End Runtime.
