(* ===== verification/ApprovalSafety.v ===== *)
(** * What the approval runtime promises

    The contract of the runtime as a transition system on the store
    ([approval_step]: filing a request, recording a decision, closing a pending
    request, approving one with a quorum, changing a proof's status), the
    invariant of its reachable stores, the refinement of every operation of
    [ApprovalRuntime] to steps of the system, and the theorems a caller of
    [verifyApprovalForAction] relies on. *)

From S2P Require Import Prelude Decimal Js JsMap StableJson HashChain Approval ApprovalRuntime.

Local Open Scope Z_scope.
Local Open Scope frontera_scope.

(** ** The contract *)

(** The approver is neither the requester nor the target when the requirement
    segregates duties, and reviewed every type of evidence it asks for. *)
Record admissible (r : ApprovalRequest) (d : ApprovalDecision) : Prop := {
  ad_independent : rq_requiresSegregationOfDuties (ar_requirement r) = true →
    ad_approverActorId d ≠ ar_requestedByActorId r ∧ ad_approverActorId d ≠ ar_targetActorId r;
  ad_evidence : ∀ t, t ∈ requiredTypes r → t ∈ ea_type <$> ad_evidenceReviewed d;
}.

(** The accepted approvals of a request, and who gave them. *)
Definition approvals (s : ApprovalStore) (requestId : string) : list ApprovalDecision :=
  List.filter is_approved (getDecisionsByRequestId s requestId).
Definition approvers (s : ApprovalStore) (requestId : string) : list string := ad_approverActorId <$> approvals s requestId.

(** A proof states its request and the decision that completed the quorum. *)
Record attests (r : ApprovalRequest) (d : ApprovalDecision) (p : ApprovalProof) : Prop := {
  pf_request : ap_approvalRequestId p = ar_id r;
  pf_decision : ap_approvalDecisionId p = ad_id d;
  pf_domain : ap_trustDomainId p = ar_trustDomainId r;
  pf_actionRequest : ap_actionRequestId p = ar_actionRequestId r;
  pf_requester : ap_requestedByActorId p = ar_requestedByActorId r;
  pf_approver : ap_approverActorId p = ad_approverActorId d;
  pf_action : ap_action p = ar_action r;
  pf_scope : ap_resourceScope p = ar_resourceScope r;
  pf_expiry : ap_expiresAt p = ar_expiresAt r;
  pf_approved : ap_approved p = true;
}.

Definition set_request_status (id : string) (st : ApprovalRequestStatus) (r : ApprovalRequest) (s : ApprovalStore) : ApprovalStore :=
  set_requests s (map_set id (request_with_status r st) (requests s)).
Definition set_proof_status (id : string) (p : ApprovalProof) (st : ApprovalProofStatus) patch (s : ApprovalStore) : ApprovalStore :=
  set_proofs s (map_set id (proof_with_status p st patch) (proofs s)) (proofsByDecisionId s).

Inductive approval_step (s : ApprovalStore) : ApprovalStore → Prop :=
  | as_other s' : requests s' = requests s → decisions s' = decisions s → proofs s' = proofs s → proofsByDecisionId s' = proofsByDecisionId s →
      approval_step s s'
  | as_request r : getRequest s (ar_id r) = None → ar_status r = rs_pending → approval_step s (putRequest r s)
  | as_decide d :
      getDecision s (ad_id d) = None →
      (ad_type d = dt_approved → ∃ r, getRequest s (ad_approvalRequestId d) = Some r ∧ ar_status r = rs_pending ∧ admissible r d ∧
        ad_approverActorId d ∉ approvers s (ar_id r)) →
      approval_step s (putDecision d s)
  | as_close id r st : getRequest s id = Some r → ar_status r = rs_pending → st ≠ rs_pending → st ≠ rs_approved →
      approval_step s (set_request_status id st r s)
  | as_approve r d p :
      getRequest s (ar_id r) = Some r → ar_status r = rs_pending → getDecision s (ad_id d) = Some d → ad_type d = dt_approved →
      ad_approvalRequestId d = ar_id r → rq_minimumApprovals (ar_requirement r) ≤ Z.of_nat (length (approvers s (ar_id r))) →
      getProof s (ap_id p) = None → ap_status p = ps_valid → attests r d p →
      approval_step s (putProof p (set_request_status (ar_id r) rs_approved r s))
  | as_proof_status id p st patch : getProof s id = Some p → st ≠ ps_valid → (ap_status p = ps_revoked → st = ps_revoked) →
      approval_step s (set_proof_status id p st patch s).

Definition approval_reachable (s : ApprovalStore) : Prop := rtc approval_step empty_approvals s.

(** ** The invariant *)

Record approvals_ok (s : ApprovalStore) : Prop := {
  ok_requests : filed ar_id (requests s);
  ok_decisions : filed ad_id (decisions s);
  ok_proofs : filed ap_id (proofs s);
  (** every accepted approval is admissible for a request on file *)
  ok_admissible : ∀ d i, getDecision s i = Some d → ad_type d = dt_approved →
    ∃ r, getRequest s (ad_approvalRequestId d) = Some r ∧ admissible r d;
  (** nobody approves a request twice *)
  ok_distinct : ∀ i, NoDup (approvers s i);
  (** a proof attests an approved request that reached its quorum *)
  ok_quorum : ∀ p i, getProof s i = Some p → ∃ r d, getRequest s (ap_approvalRequestId p) = Some r ∧ ar_status r = rs_approved ∧
    attests r d p ∧ getDecision s (ad_id d) = Some d ∧ ad_type d = dt_approved ∧ ad_approvalRequestId d = ar_id r ∧
    rq_minimumApprovals (ar_requirement r) ≤ Z.of_nat (length (approvers s (ar_id r)));
  (** an approved request has one proof, and no other request has any *)
  ok_one_proof : ∀ p p' i i', getProof s i = Some p → getProof s i' = Some p' → ap_approvalRequestId p = ap_approvalRequestId p' → i = i';
  ok_has_proof : ∀ r i, getRequest s i = Some r → ar_status r = rs_approved → ∃ p j, getProof s j = Some p ∧ ap_approvalRequestId p = i;
  ok_index : ∀ k i, map_get k (proofsByDecisionId s) = Some i → ∃ p, getProof s i = Some p ∧ ap_approvalDecisionId p = k;
}.

Lemma empty_approvals_ok : approvals_ok empty_approvals.
Proof. split; try apply filed_nil; try done. intros i. constructor. Qed.

Lemma is_approved_iff d : is_approved d = true ↔ ad_type d = dt_approved.
Proof. apply bool_decide_eq_true. Qed.

Lemma approvals_elem s i d : approvals_ok s → d ∈ approvals s i ↔ getDecision s (ad_id d) = Some d ∧ ad_approvalRequestId d = i ∧ ad_type d = dt_approved.
Proof.
  intros Hok. unfold approvals, getDecisionsByRequestId. rewrite list_elem_of_In, !filter_In, <-list_elem_of_In, is_approved_iff, str_eqb_eq.
  rewrite (filed_values ad_id) by apply Hok. unfold getDecision. tauto.
Qed.

Lemma approvals_putDecision s d i : getDecision s (ad_id d) = None →
  approvals (putDecision d s) i = approvals s i ++ (if str_eqb (ad_approvalRequestId d) i && is_approved d then [d] else []).
Proof.
  intros Hd. unfold approvals, getDecisionsByRequestId, putDecision. cbn [decisions set_decisions]. rewrite (map_set_fresh _ _ _ Hd). unfold map_values.
  rewrite fmap_app, !List.filter_app. f_equal. cbn. destruct (str_eqb _ i); [cbn|done]. by destruct (is_approved d).
Qed.

(** What a step leaves of the decisions and requests already on file. *)
Lemma getDecision_put s d i e : getDecision s (ad_id d) = None → getDecision s i = Some e → getDecision (putDecision d s) i = Some e.
Proof.
  intros Hd He. unfold getDecision, putDecision in *. cbn. rewrite map_get_set. destruct (str_eqb (ad_id d) i) eqn:E; [|done]. split_and_bool. congruence.
Qed.

Lemma admissible_status r st d : admissible (request_with_status r st) d ↔ admissible r d.
Proof. split; intros [H1 H2]; split; done. Qed.
Lemma attests_status r st d p : attests (request_with_status r st) d p ↔ attests r d p.
Proof. split; intros []; split; done. Qed.

Section Preserve.
Context (s : ApprovalStore) (Hok : approvals_ok s).

Lemma getRequest_put r i : getRequest (putRequest r s) i = if str_eqb (ar_id r) i then Some r else getRequest s i.
Proof. unfold getRequest, putRequest. cbn. by rewrite map_get_set. Qed.
Lemma getRequest_set id st r i : getRequest (set_request_status id st r s) i = if str_eqb id i then Some (request_with_status r st) else getRequest s i.
Proof. unfold getRequest, set_request_status. cbn. by rewrite map_get_set. Qed.
Lemma getProof_put p i : getProof (putProof p s) i = if str_eqb (ap_id p) i then Some p else getProof s i.
Proof. unfold getProof, putProof. cbn. by rewrite map_get_set. Qed.
Lemma getProof_set id p st patch i : getProof (set_proof_status id p st patch s) i = if str_eqb id i then Some (proof_with_status p st patch) else getProof s i.
Proof. unfold getProof, set_proof_status. cbn. by rewrite map_get_set. Qed.

Lemma ok_step_other s' : requests s' = requests s → decisions s' = decisions s → proofs s' = proofs s → proofsByDecisionId s' = proofsByDecisionId s → approvals_ok s'.
Proof.
  intros Hr Hd Hp Hi. destruct Hok as [H1 H2 H3 H4 H5 H6 H7 H8 H9].
  split; unfold getRequest, getDecision, getProof, approvers, approvals, getDecisionsByRequestId in *; rewrite ?Hr, ?Hd, ?Hp, ?Hi; auto.
Qed.

Lemma ok_step_request r : getRequest s (ar_id r) = None → ar_status r = rs_pending → approvals_ok (putRequest r s).
Proof.
  intros Hn Hst. destruct Hok as [H1 H2 H3 H4 H5 H6 H7 H8 H9].
  assert (∀ i r', getRequest s i = Some r' → getRequest (putRequest r s) i = Some r') as Hkeep.
  { intros i r' Hr'. rewrite getRequest_put. destruct (str_eqb (ar_id r) i) eqn:E; [split_and_bool; congruence|done]. }
  split; [by apply filed_set|done|done| |done| |done| |done].
  - intros d i Hd Ht. destruct (H4 d i Hd Ht) as (r'&Hr'&Ha). eauto.
  - intros p i Hp. destruct (H6 p i Hp) as (r'&d&Hr'&Hrest). exists r', d. split; [by apply Hkeep|done].
  - intros r' i. rewrite getRequest_put. destruct (str_eqb (ar_id r) i); [intros [= <-]; congruence|]. apply H8.
Qed.

Lemma ok_step_decide d :
  getDecision s (ad_id d) = None →
  (ad_type d = dt_approved → ∃ r, getRequest s (ad_approvalRequestId d) = Some r ∧ ar_status r = rs_pending ∧ admissible r d ∧
    ad_approverActorId d ∉ approvers s (ar_id r)) →
  approvals_ok (putDecision d s).
Proof.
  intros Hn Hadm. destruct Hok as [H1 H2 H3 H4 H5 H6 H7 H8 H9]. split; [done|by apply filed_set|done| | | |done|done|done].
  - intros e i. unfold getDecision, putDecision. cbn. rewrite map_get_set. destruct (str_eqb (ad_id d) i); [|apply H4].
    intros [= <-] Ht. destruct (Hadm Ht) as (r&Hr&_&Ha&_). by exists r.
  - intros i. unfold approvers. rewrite (approvals_putDecision _ _ _ Hn), fmap_app. destruct (str_eqb (ad_approvalRequestId d) i) eqn:Ei;
      [|rewrite app_nil_r; apply H5]. destruct (is_approved d) eqn:Ea; [|rewrite app_nil_r; apply H5].
    split_and_bool. apply is_approved_iff in Ea. destruct (Hadm Ea) as (r&Hr&_&_&Hnin). subst i.
    apply NoDup_app. split; [apply H5|]. split; [|apply NoDup_singleton]. intros x Hx ->%list_elem_of_singleton. apply Hnin.
    by rewrite (proj2 H1 _ _ Hr).
  - intros p i Hp. destruct (H6 p i Hp) as (r&e&Hr&Hst&Hat&He&Het&Her&Hq). exists r, e. do 3 (split; [done|]).
    split; [by apply getDecision_put|]. do 2 (split; [done|]). etransitivity; [exact Hq|]. unfold approvers.
    rewrite (approvals_putDecision _ _ _ Hn), fmap_app, length_app. lia.
Qed.

(** Closing or approving: the other requests stand, this one changes status. *)
Lemma set_status_keeps id r st i r0 : getRequest s id = Some r → getRequest s i = Some r0 →
  ∃ st0, getRequest (set_request_status id st r s) i = Some (request_with_status r0 st0).
Proof.
  intros Hr Hr0. rewrite getRequest_set. destruct (str_eqb id i) eqn:E.
  - split_and_bool. subst i. rewrite Hr in Hr0. injection Hr0 as <-. by eexists.
  - rewrite Hr0. exists (ar_status r0). by destruct r0.
Qed.
Lemma filed_request_status id r st : getRequest s id = Some r → filed ar_id (requests (set_request_status id st r s)).
Proof. intros Hr. unfold set_request_status. cbn. rewrite <-(proj2 (ok_requests _ Hok) id r Hr). apply (filed_set ar_id (request_with_status r st)), Hok. Qed.

Lemma admissible_kept id r st d i : getRequest s id = Some r → getDecision s i = Some d → ad_type d = dt_approved →
  ∃ r', getRequest (set_request_status id st r s) (ad_approvalRequestId d) = Some r' ∧ admissible r' d.
Proof.
  intros Hr Hd Ht. destruct (ok_admissible _ Hok d i Hd Ht) as (r0&Hr0&Ha). destruct (set_status_keeps id r st _ _ Hr Hr0) as [st0 Hr'].
  eexists. split; [exact Hr'|]. by apply admissible_status.
Qed.

Lemma ok_step_close id r st : getRequest s id = Some r → ar_status r = rs_pending → st ≠ rs_approved → approvals_ok (set_request_status id st r s).
Proof.
  intros Hr Hp Hst. pose proof Hok as [H1 H2 H3 H4 H5 H6 H7 H8 H9]. split; [by apply filed_request_status|done|done| |done| |done| |done].
  - intros d i Hd Ht. by apply (admissible_kept id r st d i).
  - intros p i Hpf. destruct (H6 p i Hpf) as (r0&d&Hr0&Hst0&Hrest). exists r0, d. split; [|done]. rewrite getRequest_set.
    destruct (str_eqb id _) eqn:E; [split_and_bool; congruence|done].
  - intros r0 i. rewrite getRequest_set. destruct (str_eqb id i); [intros [= <-]; done|apply H8].
Qed.

Lemma ok_step_proof_status id p st patch : getProof s id = Some p → approvals_ok (set_proof_status id p st patch s).
Proof.
  intros Hp. pose proof Hok as [H1 H2 H3 H4 H5 H6 H7 H8 H9]. assert (ap_id p = id) as Eid by (by apply (proj2 H3)).
  assert (∀ i q, getProof (set_proof_status id p st patch s) i = Some q → ∃ q0, getProof s i = Some q0 ∧
    ap_approvalRequestId q = ap_approvalRequestId q0 ∧ ap_approvalDecisionId q = ap_approvalDecisionId q0 ∧ ∀ r d, attests r d q0 → attests r d q) as Hback.
  { intros i q. rewrite getProof_set. destruct (str_eqb id i) eqn:E; [|intros Hq; by exists q]. split_and_bool. subst i. intros [= <-].
    exists p. do 3 (split; [done|]). intros r d []. by split. }
  assert (∀ i q0, getProof s i = Some q0 → ∃ q, getProof (set_proof_status id p st patch s) i = Some q ∧
    ap_approvalRequestId q = ap_approvalRequestId q0 ∧ ap_approvalDecisionId q = ap_approvalDecisionId q0) as Hforth.
  { intros i q0 Hq0. rewrite getProof_set. destruct (str_eqb id i) eqn:E; [|by exists q0]. split_and_bool. subst i. rewrite Hp in Hq0.
    injection Hq0 as <-. by eexists. }
  split; [done|done| |done|done| | | |].
  - unfold set_proof_status. cbn. rewrite <-Eid. apply (filed_set ap_id (proof_with_status p st patch)), H3.
  - intros q i (q0&Hq0&Er&_&Hat)%Hback. destruct (H6 q0 i Hq0) as (r&d&Hr&Hst&Ha&Hrest). exists r, d. rewrite Er. auto 10.
  - intros q q' i i' (q0&Hq0&Er&_)%Hback (q1&Hq1&Er1&_)%Hback Eq. apply (H7 q0 q1 i i' Hq0 Hq1). congruence.
  - intros r i Hr Hst. destruct (H8 r i Hr Hst) as (q0&j&Hq0&Eq). destruct (Hforth j q0 Hq0) as (q&Hq&Er&_). exists q, j. split; [done|congruence].
  - intros k i Hk. destruct (H9 k i Hk) as (q0&Hq0&Eq). destruct (Hforth i q0 Hq0) as (q&Hq&_&Ed). exists q. split; [done|congruence].
Qed.

Lemma no_proof_while_pending r p i : getRequest s (ar_id r) = Some r → ar_status r = rs_pending → getProof s i = Some p → ap_approvalRequestId p ≠ ar_id r.
Proof. intros Hr Hst Hp E. destruct (ok_quorum _ Hok p i Hp) as (r'&_&Hr'&Hst'&_). congruence. Qed.

Lemma ok_step_approve r d p :
  getRequest s (ar_id r) = Some r → ar_status r = rs_pending → getDecision s (ad_id d) = Some d → ad_type d = dt_approved →
  ad_approvalRequestId d = ar_id r → rq_minimumApprovals (ar_requirement r) ≤ Z.of_nat (length (approvers s (ar_id r))) →
  getProof s (ap_id p) = None → attests r d p →
  approvals_ok (putProof p (set_request_status (ar_id r) rs_approved r s)).
Proof.
  intros Hr Hst Hd Hdt Hdr Hq Hn Hat. pose proof Hok as [H1 H2 H3 H4 H5 H6 H7 H8 H9].
  set (s1 := set_request_status (ar_id r) rs_approved r s).
  assert (∀ i, getProof (putProof p s1) i = if str_eqb (ap_id p) i then Some p else getProof s i) as Hgp.
  { intros i. unfold getProof, putProof. cbn. by rewrite map_get_set. }
  assert (∀ i q, getProof s i = Some q → getProof (putProof p s1) i = Some q) as Hkeep.
  { intros i q Hq'. rewrite Hgp. destruct (str_eqb (ap_id p) i) eqn:E; [split_and_bool; congruence|done]. }
  assert (∀ i, getRequest (putProof p s1) i = getRequest s1 i) as Hgr by done.
  split; [by apply filed_request_status|done|by apply filed_set| |done| | | |].
  - intros e i He Ht. by apply (admissible_kept _ r rs_approved e i).
  - intros q i. rewrite Hgp. setoid_rewrite Hgr. destruct (str_eqb (ap_id p) i) eqn:E.
    + intros [= <-]. exists (request_with_status r rs_approved), d. rewrite (pf_request _ _ _ Hat). unfold s1. rewrite getRequest_set, str_eqb_refl.
      split; [done|]. split; [done|]. split; [by apply attests_status|done].
    + intros Hq'. destruct (H6 q i Hq') as (r0&e&Hr0&Hrest). exists r0, e. split; [|done]. unfold s1. rewrite getRequest_set.
      pose proof (no_proof_while_pending r q i Hr Hst Hq'). by rewrite (proj2 (str_eqb_neq _ _)).
  - intros q q' i i'. rewrite !Hgp. destruct (str_eqb (ap_id p) i) eqn:E, (str_eqb (ap_id p) i') eqn:E'; split_and_bool; [congruence| | |apply H7].
    + intros [= <-] Hq' Eq. rewrite (pf_request _ _ _ Hat) in Eq. by destruct (no_proof_while_pending r q' i' Hr Hst Hq').
    + intros Hq' [= <-] Eq. rewrite (pf_request _ _ _ Hat) in Eq. by destruct (no_proof_while_pending r q i Hr Hst Hq').
  - intros r0 i. rewrite Hgr. unfold s1. rewrite getRequest_set. destruct (str_eqb (ar_id r) i) eqn:E.
    + intros _ _. split_and_bool. exists p, (ap_id p). rewrite Hgp, str_eqb_refl. split; [done|]. by rewrite (pf_request _ _ _ Hat).
    + intros Hr0 Hs0. destruct (H8 r0 i Hr0 Hs0) as (q&j&Hq'&Eq). exists q, j. split; [by apply Hkeep|done].
  - intros k i. unfold putProof. cbn [proofsByDecisionId set_proofs]. rewrite map_get_set. destruct (str_eqb _ k) eqn:E.
    + intros [= <-]. split_and_bool. exists p. change (set_proofs _ _ _) with (putProof p s1). rewrite Hgp, str_eqb_refl. done.
    + intros Hk. destruct (H9 k i Hk) as (q&Hq'&Eq). exists q. change (set_proofs _ _ _) with (putProof p s1). split; [by apply Hkeep|done].
Qed.
End Preserve.

Lemma approval_step_ok s s' : approvals_ok s → approval_step s s' → approvals_ok s'.
Proof.
  intros Hok. destruct 1; [by eapply ok_step_other|by apply ok_step_request|by apply ok_step_decide|by apply ok_step_close|
    by eapply ok_step_approve|by apply ok_step_proof_status].
Qed.
Lemma steps_ok s s' : rtc approval_step s s' → approvals_ok s → approvals_ok s'.
Proof. induction 1; eauto using approval_step_ok. Qed.

(** *** What no step undoes *)

Lemma request_step s s' i r : approval_step s s' → getRequest s i = Some r →
  ∃ st, getRequest s' i = Some (request_with_status r st) ∧ (ar_status r ≠ rs_pending → st = ar_status r).
Proof.
  assert (request_with_status r (ar_status r) = r) as Esame by (by destruct r).
  assert (∀ id r0 st, getRequest s id = Some r0 → ar_status r0 = rs_pending → getRequest s i = Some r →
    ∃ st', getRequest (set_request_status id st r0 s) i = Some (request_with_status r st') ∧ (ar_status r ≠ rs_pending → st' = ar_status r)) as Hset.
  { intros id r0 st Hr0 Hp Hr. rewrite getRequest_set. destruct (str_eqb id i) eqn:E; [|exists (ar_status r); by rewrite Esame].
    split_and_bool. subst id. rewrite Hr in Hr0. injection Hr0 as <-. by exists st. }
  destruct 1 as [s' Hr' _ _ _|r0 Hn _|d _ _|id r0 st Hr0 Hp _ _|r0 d p Hr0 Hp _ _ _ _ _ _ _|id p st patch Hp _ _]; intros Hr.
  - exists (ar_status r). unfold getRequest in *. by rewrite Hr', Esame.
  - exists (ar_status r). rewrite getRequest_put, Esame. destruct (str_eqb (ar_id r0) i) eqn:E; [split_and_bool; congruence|done].
  - exists (ar_status r). by rewrite Esame.
  - by apply Hset.
  - apply (Hset (ar_id r0) r0 rs_approved); done.
  - exists (ar_status r). by rewrite Esame.
Qed.

Lemma proof_step s s' i p : approval_step s s' → getProof s i = Some p →
  ∃ p', getProof s' i = Some p' ∧ ap_approvalRequestId p' = ap_approvalRequestId p ∧ (ap_status p = ps_revoked → ap_status p' = ps_revoked).
Proof.
  destruct 1 as [s' _ _ Hp' _|r0 _ _|d _ _|id r0 st _ _ _ _|r0 d q _ _ _ _ _ _ Hn _ _|id q st patch Hq _ Hst]; intros Hp; try (by exists p).
  - exists p. unfold getProof in *. by rewrite Hp'.
  - exists p. split; [|done]. unfold getProof, putProof in *. cbn. rewrite map_get_set. destruct (str_eqb (ap_id q) i) eqn:E; [split_and_bool; congruence|done].
  - rewrite getProof_set. destruct (str_eqb id i) eqn:E; [|by exists p]. split_and_bool. subst id. rewrite Hp in Hq. injection Hq as <-.
    by eexists.
Qed.

Lemma request_steps s s' i r : rtc approval_step s s' → getRequest s i = Some r →
  ∃ st, getRequest s' i = Some (request_with_status r st) ∧ (ar_status r ≠ rs_pending → st = ar_status r).
Proof.
  intros Hs. revert r. induction Hs as [s|s s1 s2 H1 _ IH]; intros r Hr; [exists (ar_status r); by destruct r|].
  destruct (request_step _ _ _ _ H1 Hr) as (st1&Hr1&Hst1). destruct (IH _ Hr1) as (st2&Hr2&Hst2). exists st2. split; [exact Hr2|].
  intros Hne. rewrite <-(Hst1 Hne). apply Hst2. cbn. by rewrite Hst1.
Qed.
Lemma proof_steps s s' i p : rtc approval_step s s' → getProof s i = Some p →
  ∃ p', getProof s' i = Some p' ∧ ap_approvalRequestId p' = ap_approvalRequestId p ∧ (ap_status p = ps_revoked → ap_status p' = ps_revoked).
Proof.
  intros Hs. revert p. induction Hs as [s|s s1 s2 H1 _ IH]; intros p Hp; [by exists p|].
  destruct (proof_step _ _ _ _ H1 Hp) as (p1&Hp1&E1&Hst1). destruct (IH _ Hp1) as (p2&Hp2&E2&Hst2). exists p2. split; [done|]. split; [congruence|auto].
Qed.

(** ** Admission *)

Section Admission.
Context `{JsHost}.

Lemma admission_chain : createAdmissionApprovalPolicyChain =
  [ValidApprovalRequestPolicy; RecognizedApproverPolicy; ApproverAuthorityPolicy; ApprovalScopePolicy; ApprovalEvidencePolicy;
   SegregationOfDutiesPolicy; ExpirationPolicy; RevocationPolicy; DuplicateApprovalPolicy].
Proof. reflexivity. Qed.

Lemma denials_not_approved p c code t : p ∈ createAdmissionApprovalPolicyChain → policy_evaluate p c = Some (code, t) → t ≠ dt_approved.
Proof.
  assert (∀ (b : bool) code' t' rest, (if b then deny code' t' else rest) = Some (code, t) → t = t' ∨ rest = Some (code, t)) as Hd.
  { intros [] code' t' rest; [intros [= -> ->]; by left|by right]. }
  assert (∀ (b : bool) rest, (if b then None else rest) = Some (code, t) → rest = Some (code, t)) as Hn by (by intros []).
  rewrite admission_chain, !elem_of_cons, elem_of_nil. intros [->|[->|[->|[->|[->|[->|[->|[->|[->|[]]]]]]]]]]; cbn.
  - destruct (pc_request c) as [r|]; [|by intros [= _ <-]]. intros [= _ <-]%Hn. by destruct (ar_status r).
  - by intros [= _ <-]%Hn.
  - destruct (_ ≫= _); [|done]. destruct (pc_authorityCheck c) as [k|]; [|by intros [= _ <-]]. intros [->|[=]]%Hn%Hd.
    destruct (str_eqb _ "ancestor_revoked"); [done|]. by destruct (str_eqb _ _).
  - destruct (pc_authorityCheck c) as [k|]; [|done]. by intros [->|[=]]%Hd.
  - destruct (pc_request c) as [r|]; [|done]. by intros [->|[=]]%Hn%Hd.
  - destruct (pc_request c) as [r|]; [|done]. by intros [->|[->|[=]]%Hd]%Hn%Hd.
  - destruct (_ ≫= _); [|done]. by intros [= _ <-]%Hn.
  - by intros [->|[->|[=]]%Hd]%Hd.
  - by intros [->|[=]]%Hn%Hd.
Qed.

Lemma evaluate_spec ps c : (∀ p code t, p ∈ ps → policy_evaluate p c = Some (code, t) → t ≠ dt_approved) →
  let e := evaluate_policies ps c in
  (ev_passed e = true ↔ Forall (λ p, policy_evaluate p c = None) ps) ∧ (ev_passed e = true → ev_decisionType e = at_type (pc_attempt c)) ∧
  (ev_decisionType e = dt_approved → ev_passed e = true).
Proof.
  intros Hps. induction ps as [|p ps IH]; cbn; [done|]. destruct (policy_evaluate p c) as [[code t]|] eqn:E; cbn.
  - split; [split; [done|by intros [? _]%Forall_cons; congruence]|]. split; [done|]. intros ->. exfalso. eapply Hps; [by left|exact E|done].
  - rewrite Forall_cons. destruct IH as (H1&H2&H3); [intros q code t Hq; apply Hps; by right|]. split; [rewrite H1; tauto|]. split; [exact H2|exact H3].
Qed.

(** What admits a decision on a request. *)
Record admits (c : ApprovalPolicyContext) (r : ApprovalRequest) : Prop := {
  am_pending : ar_status r = rs_pending;
  am_recognized : rec_recognized (pc_approverRecognition c) = true;
  am_authority : is_Some (rq_requiredAuthorityCapability (ar_requirement r)) → ∃ k, pc_authorityCheck c = Some k ∧ ac_valid k = true;
  am_check : ∀ k, pc_authorityCheck c = Some k → ac_type k ≠ "scope_expansion_detected" ∧ ac_type k ≠ "ancestor_revoked";
  am_evidence : at_type (pc_attempt c) = dt_approved → ∀ t, t ∈ requiredTypes r → t ∈ ea_type <$> at_evidenceReviewed (pc_attempt c);
  am_independent : at_type (pc_attempt c) = dt_approved → rq_requiresSegregationOfDuties (ar_requirement r) = true →
    at_approverActorId (pc_attempt c) ≠ ar_requestedByActorId r ∧ at_approverActorId (pc_attempt c) ≠ ar_targetActorId r;
  am_unexpired : ∀ e, ar_expiresAt r = Some e → e = "" ∨ instant_lt (pc_now c) e = true;
  am_first : at_type (pc_attempt c) = dt_approved → ∀ d, d ∈ pc_priorDecisions c → ad_approverActorId d = at_approverActorId (pc_attempt c) → ad_type d ≠ dt_approved;
}.

Lemma refuse_iff (b : bool) code t (rest : PolicyOutcome) : (if b then deny code t else rest) = None ↔ b = false ∧ rest = None.
Proof. destruct b; naive_solver. Qed.
Lemma pass_iff (b : bool) (rest : PolicyOutcome) : (if b then None else rest) = None ↔ (b = false → rest = None).
Proof. destruct b; naive_solver. Qed.
Lemma existsb_none {A} (p : A → bool) l : existsb p l = false ↔ ∀ x, x ∈ l → p x = false.
Proof.
  induction l as [|x l IH]; cbn; [split; [intros _ y Hy; by apply elem_of_nil in Hy|done]|]. rewrite orb_false_iff, IH. setoid_rewrite elem_of_cons. naive_solver.
Qed.

Lemma valid_request_passes c : policy_evaluate ValidApprovalRequestPolicy c = None ↔ ∃ r, pc_request c = Some r ∧ ar_status r = rs_pending.
Proof.
  cbn. destruct (pc_request c) as [r|]; [|naive_solver]. rewrite pass_iff. unfold is_pending. rewrite bool_decide_eq_false. split.
  - intros Hp. exists r. split; [done|]. destruct (decide (ar_status r = rs_pending)); [done|]. by apply Hp in n.
  - intros (r'&[= <-]&Hst) Hne. by destruct Hne.
Qed.
Lemma recognized_passes c : policy_evaluate RecognizedApproverPolicy c = None ↔ rec_recognized (pc_approverRecognition c) = true.
Proof. cbn. by destruct (rec_recognized _). Qed.
Lemma authority_passes c r : pc_request c = Some r →
  policy_evaluate ApproverAuthorityPolicy c = None ∧ policy_evaluate ApprovalScopePolicy c = None ∧ bool_decide (ac_type <$> pc_authorityCheck c = Some "ancestor_revoked") = false ↔
  (is_Some (rq_requiredAuthorityCapability (ar_requirement r)) → ∃ k, pc_authorityCheck c = Some k ∧ ac_valid k = true) ∧
  (∀ k, pc_authorityCheck c = Some k → ac_type k ≠ "scope_expansion_detected" ∧ ac_type k ≠ "ancestor_revoked").
Proof.
  intros Hr. cbn. rewrite Hr, bool_decide_eq_false. cbn. destruct (pc_authorityCheck c) as [k|]; cbn.
  - rewrite !refuse_iff. destruct (str_eqb (ac_type k) "scope_expansion_detected") eqn:Es; split_and_bool.
    { split; [intros (_&[? _]&_); done|]. intros [_ Hk]. by destruct (Hk k eq_refl). }
    destruct (rq_requiredAuthorityCapability _) as [cap|].
    + rewrite refuse_iff, negb_false_iff. split; [|intros [Hc Hk]; destruct Hc as (?&[= <-]&?); [done|]; destruct (Hk k eq_refl); naive_solver].
      intros ([Hv _]&_&Hne). split; [intros _; by exists k|]. intros ? [= <-]. split; [done|]. intros E. by rewrite E in Hne.
    + split; [intros (_&_&Hne); split; [by intros [? ?]|]; intros ? [= <-]; split; [done|]; intros E; by rewrite E in Hne|].
      intros [_ Hk]. destruct (Hk k eq_refl). naive_solver.
  - destruct (rq_requiredAuthorityCapability _) as [cap|]; [split; [by intros [? _]|]|split; [|done]].
    + intros [Hc _]. by destruct Hc as (?&?&_).
    + intros _. split; [by intros [? ?]|done].
Qed.
Lemma evidence_passes c r : pc_request c = Some r → policy_evaluate ApprovalEvidencePolicy c = None ↔
  (at_type (pc_attempt c) = dt_approved → ∀ t, t ∈ requiredTypes r → t ∈ ea_type <$> at_evidenceReviewed (pc_attempt c)).
Proof.
  intros Hr. cbn. rewrite Hr, pass_iff, refuse_iff, bool_decide_eq_false, existsb_none. setoid_rewrite bool_decide_eq_false. split.
  - intros Hp Ht t Hin. apply dec_stable. by apply (proj1 (Hp (λ Hne, Hne Ht))).
  - intros Hp Ht%dec_stable. split; [|done]. intros t Hin Hn. by apply Hn, Hp.
Qed.
Lemma segregation_passes c r : pc_request c = Some r → policy_evaluate SegregationOfDutiesPolicy c = None ↔
  (at_type (pc_attempt c) = dt_approved → rq_requiresSegregationOfDuties (ar_requirement r) = true →
    at_approverActorId (pc_attempt c) ≠ ar_requestedByActorId r ∧ at_approverActorId (pc_attempt c) ≠ ar_targetActorId r).
Proof.
  intros Hr. cbn. rewrite Hr, pass_iff, !refuse_iff, orb_false_iff, bool_decide_eq_false, negb_false_iff, !str_eqb_neq. split.
  - intros Hp Ht Hs. by destruct (Hp (conj (λ Hne, Hne Ht) Hs)) as (?&?&_).
  - intros Hp [Ht%dec_stable Hs]. by destruct (Hp Ht Hs).
Qed.
Lemma expiration_passes c r : pc_request c = Some r → policy_evaluate ExpirationPolicy c = None ↔ ∀ e, ar_expiresAt r = Some e → e = "" ∨ instant_lt (pc_now c) e = true.
Proof.
  intros Hr. cbn. rewrite Hr. cbn. destruct (ar_expiresAt r) as [e|]; [|naive_solver].
  assert (negb (nonempty e) = true → e = "") as He by (by destruct e). destruct (negb (nonempty e)) eqn:E1; cbn [orb].
  { split; [intros _ e' [= <-]; left; by apply He|done]. }
  destruct (instant_lt (pc_now c) e) eqn:E2; [split; [intros _ e' [= <-]; by right|done]|]. split; [done|].
  intros Hp. destruct (Hp e eq_refl) as [->|?]; [done|congruence].
Qed.
Lemma duplicate_passes c : policy_evaluate DuplicateApprovalPolicy c = None ↔
  (at_type (pc_attempt c) = dt_approved → ∀ d, d ∈ pc_priorDecisions c → ad_approverActorId d = at_approverActorId (pc_attempt c) → ad_type d ≠ dt_approved).
Proof.
  cbn. rewrite pass_iff, refuse_iff, bool_decide_eq_false, existsb_none. setoid_rewrite andb_false_iff. setoid_rewrite str_eqb_neq. split.
  - intros Hp Ht d Hd Ha Hty. destruct (proj1 (Hp (λ Hne, Hne Ht)) d Hd) as [?|Hn]; [done|]. apply is_approved_iff in Hty. congruence.
  - intros Hp Ht%dec_stable. split; [|done]. intros d Hd. destruct (decide (ad_approverActorId d = at_approverActorId (pc_attempt c))) as [Ha|]; [right|by left].
    destruct (is_approved d) eqn:E; [|done]. apply is_approved_iff in E. by destruct (Hp Ht d Hd Ha).
Qed.

Lemma admission_passes c : Forall (λ p, policy_evaluate p c = None) createAdmissionApprovalPolicyChain ↔ ∃ r, pc_request c = Some r ∧ admits c r.
Proof.
  rewrite admission_chain, !Forall_cons, Forall_nil, valid_request_passes, recognized_passes, duplicate_passes. split.
  - intros ((r&Hr&Hst)&Hrec&Hau&Hsc&Hev&Hseg&Hexp&Hrev&Hdup&_). exists r. split; [done|]. cbn in Hrev. rewrite !refuse_iff in Hrev. destruct Hrev as (_&Hrev&_).
    destruct (proj1 (authority_passes c r Hr) (conj Hau (conj Hsc Hrev))) as [Ha Hk].
    split; [done|done|done|done|by apply evidence_passes|by apply segregation_passes|by apply expiration_passes|done].
  - intros (r&Hr&[H1 H2 H3 H4 H5 H6 H7 H8]). destruct (proj2 (authority_passes c r Hr) (conj H3 H4)) as (Hau&Hsc&Hrev).
    split; [by exists r|]. split; [done|]. split; [done|]. split; [done|]. split; [by apply (evidence_passes c r)|]. split; [by apply (segregation_passes c r)|].
    split; [by apply (expiration_passes c r)|]. split; [|done]. cbn. rewrite !refuse_iff. split; [|by split]. rewrite Hr. cbn. rewrite H1. done.
Qed.

End Admission.

(** ** The operations refine the contract *)

Definition event_payload (e : ApprovalEvent) : Json := event_json (ae_input e) (ae_timestamp e) (ae_previousHash e).
Definition proof_payload (p : ApprovalProof) : Json := JObj [
  ("approvalRequestId", JTxt (ap_approvalRequestId p)); ("approvalDecisionId", JTxt (ap_approvalDecisionId p));
  ("trustDomainId", JTxt (ap_trustDomainId p)); ("actionRequestId", JTxt (ap_actionRequestId p));
  ("requestedByActorId", JTxt (ap_requestedByActorId p)); ("approverActorId", JTxt (ap_approverActorId p));
  ("principalActorId", opt_txt (ap_principalActorId p)); ("action", JTxt (ap_action p)); ("resourceScope", JTxt (ap_resourceScope p));
  ("approved", JBol (ap_approved p)); ("evidenceHashes", json_texts (ap_evidenceHashes p));
  ("authorityDecisionId", opt_txt (ap_authorityDecisionId p)); ("authorityProofId", opt_txt (ap_authorityProofId p));
  ("previousHash", opt_txt (ap_previousHash p))].

Create HintDb approval.

Section Refine.
Context {G : Type} `{JsHost} (ctx : ApprovalRuntimeContext) (options : ApprovalRuntimeOptions G).
Context (Hids : ∀ prefix n m, ids_nextId ctx n prefix = ids_nextId ctx m prefix → n = m).
Implicit Types (rt : ApprovalRuntime G).

(** Decisions and proofs are filed under ids generated so far. *)
Record runtime_ok rt : Prop := {
  rt_ok : approvals_ok (rt_store rt);
  rt_decision_ids : ∀ i d, getDecision (rt_store rt) i = Some d → ∃ n, (n < rt_calls rt)%nat ∧ i = ids_nextId ctx n "approval-decision";
  rt_proof_ids : ∀ i p, getProof (rt_store rt) i = Some p → ∃ n, (n < rt_calls rt)%nat ∧ i = ids_nextId ctx n "approval-proof";
  rt_linked_events : linked event_payload ae_previousHash ae_eventHash (rt_events rt);
  rt_linked_proofs : linked proof_payload ap_previousHash ap_proofHash (rt_proofs rt);
}.

Definition refines rt rt' : Prop := rtc approval_step (rt_store rt) (rt_store rt') ∧ runtime_ok rt'.
Definition safe {A} (m : M G A) : Prop := ∀ rt, runtime_ok rt → refines rt (m rt).2.

Lemma safe_ret {A} (a : A) : safe (mret a).
Proof. intros rt Hok. by split. Qed.
Lemma safe_throw {A} e : safe (@throw G A e).
Proof. intros rt Hok. by split. Qed.
Lemma safe_bind {A B} (m : M G A) (f : A → M G B) : safe m → (∀ a, safe (f a)) → safe (m ≫= f).
Proof.
  intros Hm Hf rt Hok. unfold mbind, M_bind. destruct (Hm rt Hok) as [Hs Hok']. destruct (m rt) as [[a|e] rt1]; cbn in *; [|by split].
  destruct (Hf a rt1 Hok') as [Hs' Hok'']. split; [by etransitivity|done].
Qed.
Lemma safe_void {A} (m : M G A) : safe m → safe (void m).
Proof. intros Hm. apply safe_bind; [done|]. intros _. apply safe_ret. Qed.

(** Reading the store: what follows may use that it is the current one. *)
Lemma safe_get {A} (f : ApprovalStore → M G A) : (∀ rt, runtime_ok rt → refines rt (f (rt_store rt) rt).2) → safe (get_store ≫= f).
Proof. intros Hf rt Hok. by apply Hf. Qed.

Lemma ok_tick rt : runtime_ok rt → runtime_ok (tick rt).
Proof.
  intros [H1 H2 H3 H4 H5]. split; cbn; try done; intros i x Hx; [destruct (H2 i x Hx) as (n&?&?)|destruct (H3 i x Hx) as (n&?&?)]; exists n; split; [lia|done|lia|done].
Qed.
Lemma safe_now : safe (now_ ctx).
Proof. intros rt Hok. split; [done|by apply ok_tick]. Qed.
Lemma safe_nextId prefix : safe (nextId ctx prefix).
Proof. intros rt Hok. split; [done|by apply ok_tick]. Qed.
Lemma safe_recordEvent i : safe (recordEvent ctx i).
Proof.
  intros rt Hok. split; [done|]. destruct (ok_tick _ (ok_tick _ Hok)) as [H1 H2 H3 H4 H5]. split; [done|done|done| |done].
  cbn. by apply linked_snoc.
Qed.
Lemma safe_recognition a : safe (approver_recognition options a).
Proof. intros rt Hok. unfold approver_recognition. destruct (opt_actorRegistry options); (split; [done|]); [by apply ok_tick|done]. Qed.
Lemma safe_ask graph i : safe (@ask_authority G graph i).
Proof. intros rt [H1 H2 H3 H4 H5]. unfold ask_authority. destruct (createApprovalAuthorityGraphIntegration _ _ _). split; [done|by split]. Qed.

(** A change of the store that is a step and files no decision and no proof. *)
Lemma refines_step rt s' : runtime_ok rt → approval_step (rt_store rt) s' →
  (∀ i d, getDecision s' i = Some d → is_Some (getDecision (rt_store rt) i)) → (∀ i p, getProof s' i = Some p → is_Some (getProof (rt_store rt) i)) →
  refines rt (with_store rt s').
Proof.
  intros [H1 H2 H3 H4 H5] Hs Hd Hp. split; [by apply rtc_once|]. split; [by eapply approval_step_ok| | |done|done].
  - intros i d Hi. destruct (Hd i d Hi) as [d0 Hd0]. by apply (H2 i d0).
  - intros i p Hi. destruct (Hp i p Hi) as [p0 Hp0]. by apply (H3 i p0).
Qed.

Lemma safe_modify_other f : (∀ s, requests (f s) = requests s ∧ decisions (f s) = decisions s ∧ proofs (f s) = proofs s ∧ proofsByDecisionId (f s) = proofsByDecisionId s) →
  safe (modify_store f).
Proof.
  intros Hf rt Hok. destruct (Hf (rt_store rt)) as (Hr&Hd&Hp&Hi). apply refines_step; [done|by apply as_other| |];
    unfold getDecision, getProof; rewrite ?Hd, ?Hp; by eauto.
Qed.

Lemma safe_close id st : st ≠ rs_pending → st ≠ rs_approved → safe (transition id st).
Proof.
  intros Hst Hst'. unfold transition. apply safe_get. intros rt Hok. destruct (getRequest (rt_store rt) id) as [r|] eqn:Hr; [|by apply safe_throw].
  destruct (is_pending r) eqn:Hp; cbn [negb]; [|by apply safe_throw]. apply bool_decide_eq_true in Hp.
  unfold update_store, updateRequestStatus. unfold getRequest in Hr. rewrite Hr. cbn. apply refines_step; [done|by apply as_close|by eauto|by eauto].
Qed.

Lemma safe_service_revoke id by_ why : safe (service_revokeApprovalProof ctx id by_ why).
Proof.
  unfold service_revokeApprovalProof. apply safe_get. intros rt Hok. destruct (getProof (rt_store rt) id) as [p|] eqn:Hp; [|by apply safe_throw].
  unfold mbind, M_bind, now_, update_store, updateProofStatus. cbn [rt_store tick]. unfold getProof in Hp. rewrite Hp. cbn.
  eapply (refines_step (tick rt)); [by apply ok_tick|by apply as_proof_status|by eauto|].
  intros i q. unfold getProof. cbn. rewrite map_get_set. destruct (str_eqb id i) eqn:E; [|by eauto]. split_and_bool. subst. by eauto.
Qed.
Lemma refines_expire_proof rt id p : runtime_ok rt → getProof (rt_store rt) id = Some p → ap_status p = ps_valid →
  refines rt (service_expireApprovalProof id rt).2.
Proof.
  intros Hok Hp Hst. unfold service_expireApprovalProof, mbind, M_bind, get_store. rewrite Hp. unfold update_store, updateProofStatus, getProof in *. rewrite Hp. cbn.
  eapply refines_step; [done|apply as_proof_status; [done|done|congruence]|by eauto|].
  intros i q. unfold getProof. cbn. rewrite map_get_set. destruct (str_eqb id i) eqn:E; [|by eauto]. split_and_bool. subst. by eauto.
Qed.

#[local] Hint Resolve safe_ret safe_throw safe_void safe_now safe_nextId safe_recordEvent safe_recognition safe_ask safe_service_revoke : approval.
#[local] Hint Extern 2 (safe (mbind _ _)) => (apply safe_bind; [|intros ?]) : approval.
#[local] Hint Extern 3 (safe (transition _ _)) => (apply safe_close; done) : approval.
#[local] Hint Extern 3 (safe (modify_store _)) => (apply safe_modify_other; done) : approval.
#[local] Hint Extern 4 (safe (match ?x with _ => _ end)) => destruct x : approval.
Ltac safely := eauto 20 with approval.

Lemma safe_isExpired e : safe (isExpired ctx e).
Proof. unfold isExpired. safely. Qed.
Lemma isExpired_store e rt : ∃ b, (isExpired ctx e rt).1 = Ok b ∧ rt_store (isExpired ctx e rt).2 = rt_store rt.
Proof. destruct e; by eexists. Qed.
Lemma safe_expireRequest r : safe (expireRequest ctx r).
Proof. unfold expireRequest, markExpired. safely. Qed.
Lemma safe_filterM {A} (f : A → M G bool) l : (∀ x, safe (f x)) → safe (filterM f l).
Proof. intros Hf. induction l as [|x l IH]; cbn [filterM]; safely. Qed.
Lemma safe_mapM {A B} (f : A → M G B) l : (∀ x, safe (f x)) → safe (mapM f l).
Proof. intros Hf. induction l as [|x l IH]; cbn [mapM]; safely. Qed.
Lemma safe_get_any {A} (f : ApprovalStore → M G A) : (∀ s, safe (f s)) → safe (get_store ≫= f).
Proof. intros Hf. apply safe_get. intros rt Hok. by apply Hf. Qed.
Lemma safe_expirePending : safe (expirePendingRequests ctx).
Proof.
  unfold expirePendingRequests, detectExpiredRequests. apply safe_bind.
  - apply safe_get_any. intros s. apply safe_filterM. intros r. apply safe_isExpired.
  - intros l. apply safe_mapM. intros r. apply safe_expireRequest.
Qed.
Lemma safe_expireRequestIfNeeded id : safe (expireRequestIfNeeded ctx id).
Proof.
  unfold expireRequestIfNeeded. apply safe_get_any. intros s. destruct (getRequest s id) as [r|]; [|safely]. destruct (negb (is_pending r)); [safely|].
  apply safe_bind; [apply safe_isExpired|]. intros b. destruct (negb b); [safely|]. apply safe_bind; [apply safe_expireRequest|safely].
Qed.
Lemma safe_expireProofIfNeeded id : safe (expireProofIfNeeded ctx id).
Proof.
  unfold expireProofIfNeeded. apply safe_get. intros rt Hok. destruct (getProof (rt_store rt) id) as [p|] eqn:Hp; [|by apply safe_ret].
  destruct (bool_decide _) eqn:Hst; [by apply safe_ret|]. apply bool_decide_eq_false, dec_stable in Hst.
  destruct (isExpired_store (ap_expiresAt p) rt) as (b&Hb&Hs). destruct (safe_isExpired (ap_expiresAt p) rt Hok) as [_ Hok1].
  unfold mbind at 1, M_bind at 1. destruct (isExpired ctx (ap_expiresAt p) rt) as [x rt1]. cbn in Hb, Hs, Hok1. subst x. destruct (negb b).
  { cbn. split; [by rewrite Hs|done]. }
  rewrite <-Hs in Hp. destruct (refines_expire_proof rt1 id p Hok1 Hp Hst) as [Hr Hok2].
  unfold mbind at 1, M_bind at 1. destruct (service_expireApprovalProof id rt1) as [[q|e] rt2]; cbn [snd] in *.
  - assert (safe (_ ← recordEvent ctx (proof_event approval_expired q (expiry_payload (ap_expiresAt q))); mret (Some q))) as Hsafe by safely.
    destruct (Hsafe rt2 Hok2) as [Hr2 Hok3]. split; [|done]. rewrite <-Hs. by etransitivity.
  - split; [by rewrite <-Hs|done].
Qed.
Lemma safe_revokeApproval p r b why : safe (revokeApproval ctx p r b why).
Proof. unfold revokeApproval, revokeApprovalProof, revokeApprovalRequest, markRevoked. destruct p, r; safely. Qed.
Lemma safe_verify i : safe (verifyApprovalForAction ctx i).
Proof. unfold verifyApprovalForAction, finishVerification. apply safe_get_any. intros s. safely. Qed.
Lemma safe_createRequirement id r : safe (createApprovalRequirement ctx id r).
Proof. unfold createApprovalRequirement. safely. Qed.
Lemma safe_createRule id r : safe (createApproverRule ctx id r).
Proof. unfold createApproverRule. safely. Qed.

Lemma safe_evaluateCandidate a r rules : safe (evaluateCandidate ctx options a r rules).
Proof.
  unfold evaluateCandidate. apply safe_bind; [safely|]. intros rec. cbv zeta. destruct (negb _); [safely|]. destruct (_ && _); [safely|]. destruct (_ && _); [safely|].
  destruct (required_capability r rules) as [c|]; [|safely]. destruct (opt_authorityGraph options) as [g|]; [|safely]. safely.
Qed.
Lemma safe_evaluate_candidates r rules l : safe (evaluate_candidates ctx options r rules l).
Proof. induction l as [|a l IH]; cbn [evaluate_candidates]; [safely|]. apply safe_bind; [apply safe_evaluateCandidate|]. safely. Qed.
Lemma safe_resolveApprovers r c : safe (resolveApprovers ctx options r c).
Proof.
  unfold resolveApprovers. apply safe_get_any. intros s. apply safe_bind; [apply safe_evaluate_candidates|]. intros [valid rejections].
  destruct (summarize valid rejections). safely.
Qed.

(** *** Filing requests *)

Definition request_id rt (i : CreateApprovalRequestInput) : string := default (ids_nextId ctx (S (rt_calls rt)) "approval-request") (ci_id i).

Lemma computeExpiresAt_run c m rt : (∃ e, computeExpiresAt ctx c m rt = (Ok e, rt)) ∨ computeExpiresAt ctx c m rt = (Throw InvalidTimeValue, rt).
Proof. unfold computeExpiresAt. destruct m; [destruct (_ ≫= _)|]; eauto. Qed.

Lemma refines_trans rt1 rt2 rt3 : refines rt1 rt2 → refines rt2 rt3 → refines rt1 rt3.
Proof. intros [H1 _] [H2 Hok]. split; [by etransitivity|done]. Qed.

Lemma refines_put_request rt r {A} (m : M G A) : runtime_ok rt → getRequest (rt_store rt) (ar_id r) = None → ar_status r = rs_pending → safe m →
  refines rt ((_ ← modify_store (putRequest r); m) rt).2.
Proof.
  intros Hok Hn Hst Hm. unfold mbind, M_bind, modify_store. eapply refines_trans; [by apply (refines_step rt (putRequest r (rt_store rt))); [|apply as_request|eauto|eauto]|].
  apply Hm. by apply (refines_step rt (putRequest r (rt_store rt))); [|apply as_request|eauto|eauto].
Qed.

Lemma refines_createRequest rt i : runtime_ok rt → getRequest (rt_store rt) (request_id rt i) = None → refines rt (createApprovalRequest ctx i rt).2.
Proof.
  intros Hok Hn. unfold createApprovalRequest. unfold mbind at 1, M_bind at 1, now_ at 1. cbv beta iota.
  eapply refines_trans; [by split; [|by apply ok_tick]|]. pose proof (ok_tick rt Hok) as Hok1. unfold mbind at 1, M_bind at 1.
  assert (∃ e, match ci_expiresAt i with Some e => mret (Some e) | None => computeExpiresAt ctx (clock_now ctx (rt_calls rt)) (rq_expiresInMinutes (ar_requirement (ci_fields i))) end (tick rt) = (Ok e, tick rt) ∨
    match ci_expiresAt i with Some e => mret (Some e) | None => computeExpiresAt ctx (clock_now ctx (rt_calls rt)) (rq_expiresInMinutes (ar_requirement (ci_fields i))) end (tick rt) = (Throw InvalidTimeValue, tick rt)) as [e [He|He]].
  { destruct (ci_expiresAt i); [eexists; by left|]. destruct (computeExpiresAt_run (clock_now ctx (rt_calls rt)) (rq_expiresInMinutes (ar_requirement (ci_fields i))) (tick rt)) as [[e He]|He];
      [by exists e; left|by exists None; right]. }
  2: { rewrite He. by split. }
  rewrite He. unfold request_id in Hn. destruct (ci_id i) as [id|]; cbn [default] in Hn; unfold mbind at 1, M_bind at 1.
  - apply refines_put_request; [done|done|done|]. safely.
  - unfold nextId at 1. cbv beta iota. eapply refines_trans; [by split; [|by apply ok_tick]|]. apply refines_put_request; [by apply ok_tick|done|done|]. safely.
Qed.

Definition decision_request_id rt (i : CreateApprovalRequestForDecisionInput) : string :=
  ids_nextId ctx (match findMatchingRequirement (rt_store rt) i with Some _ => S (rt_calls rt) | None => S (S (rt_calls rt)) end) "approval-request".

Lemma refines_bind {A B} rt (m : M G A) (f : A → M G B) : refines rt (m rt).2 → (∀ a, safe (f a)) → refines rt ((m ≫= f) rt).2.
Proof.
  intros [Hs Hok] Hf. unfold mbind, M_bind. destruct (m rt) as [[a|e] rt1]; cbn in *; [|by split]. eapply refines_trans; [by split|by apply Hf].
Qed.

Lemma approval_bind_run {A B} (m : M G A) (f : A → M G B) rt a rt' : m rt = (Ok a, rt') → (m ≫= f) rt = f a rt'.
Proof. unfold mbind, M_bind. by intros ->. Qed.

Lemma refines_createForDecision rt i : runtime_ok rt → getRequest (rt_store rt) (decision_request_id rt i) = None →
  refines rt (createApprovalRequestForDecision ctx i rt).2.
Proof.
  intros Hok Hn. unfold createApprovalRequestForDecision, decision_request_id in *. erewrite approval_bind_run by reflexivity.
  destruct (findMatchingRequirement (rt_store rt) i) as [r|] eqn:E.
  - erewrite approval_bind_run by reflexivity. apply refines_bind; [by apply refines_createRequest|]. intros q. apply safe_ret.
  - pose proof (safe_createRequirement None (default_requirement i) rt Hok) as Hr.
    assert (createDefaultRequirement ctx i rt = (Ok (requirement_with_id (default_requirement i) (ids_nextId ctx (rt_calls rt) "approval-requirement")),
      (createApprovalRequirement ctx None (default_requirement i) rt).2)) as Hrun by reflexivity.
    rewrite (approval_bind_run _ _ _ _ _ Hrun).
    eapply refines_trans; [exact Hr|]. apply refines_bind; [|intros q; apply safe_ret]. by apply refines_createRequest; [apply Hr|].
Qed.

(** *** Deciding *)

Lemma below_fresh {V} (get : string → option V) prefix n :
  (∀ i v, get i = Some v → ∃ m, (m < n)%nat ∧ i = ids_nextId ctx m prefix) → get (ids_nextId ctx n prefix) = None.
Proof. intros Hb. destruct (get _) as [v|] eqn:E; [|done]. destruct (Hb _ _ E) as (m&Hm&Ei). apply Hids in Ei. lia. Qed.

Lemma refines_put_decision rt d : runtime_ok rt → ad_id d = ids_nextId ctx (rt_calls rt) "approval-decision" →
  (ad_type d = dt_approved → ∃ r, getRequest (rt_store rt) (ad_approvalRequestId d) = Some r ∧ ar_status r = rs_pending ∧ admissible r d ∧
    ad_approverActorId d ∉ approvers (rt_store rt) (ar_id r)) →
  getDecision (rt_store rt) (ad_id d) = None ∧ refines rt (with_store (tick rt) (putDecision d (rt_store rt))).
Proof.
  intros Hok Hid Hadm. assert (getDecision (rt_store rt) (ad_id d) = None) as Hn by (rewrite Hid; apply (below_fresh (getDecision (rt_store rt))), Hok).
  split; [done|]. assert (approval_step (rt_store rt) (putDecision d (rt_store rt))) as Hstep by (by apply as_decide).
  split; [by apply rtc_once|]. destruct (ok_tick rt Hok) as [H1 H2 H3 H4 H5]. split; [by eapply approval_step_ok| |done|done|done].
  intros i e. unfold getDecision, putDecision. cbn. rewrite map_get_set. destruct (str_eqb (ad_id d) i) eqn:E; [|apply H2].
  intros _. split_and_bool. exists (rt_calls rt). split; [lia|]. by rewrite <-E.
Qed.

Lemma markApproved_run rt r : getRequest (rt_store rt) (ar_id r) = Some r → ar_status r = rs_pending →
  markApproved (ar_id r) rt = (Ok (request_with_status r rs_approved), with_store rt (set_request_status (ar_id r) rs_approved r (rt_store rt))).
Proof.
  intros Hr Hp. unfold markApproved, transition. erewrite approval_bind_run by reflexivity. rewrite Hr. unfold is_pending. rewrite bool_decide_eq_true_2 by done. cbn [negb].
  unfold update_store, updateRequestStatus. unfold getRequest in Hr. by rewrite Hr.
Qed.

Lemma approval_createProof_run rt i : ∃ p, createProof ctx i rt =
    (Ok p, Build_ApprovalRuntime (putProof p (rt_store rt)) (rt_events rt) (rt_proofs rt ++ [p]) (2 + rt_calls rt) (rt_graph rt)) ∧
  ap_id p = ids_nextId ctx (rt_calls rt) "approval-proof" ∧ ap_status p = ps_valid ∧
  ap_previousHash p = head_hash ap_proofHash (rt_proofs rt) ∧ ap_proofHash p = createDigest (proof_payload p) ∧
  (∀ r d ev, i = proof_input r d ev → attests r d p).
Proof.
  eexists. split; [unfold createProof; do 3 erewrite approval_bind_run by reflexivity; cbv zeta; erewrite approval_bind_run by reflexivity; erewrite approval_bind_run by reflexivity; reflexivity|].
  do 4 (split; [reflexivity|]). intros r d ev ->. by split.
Qed.

Lemma refines_approve rt r d ev {A} (K : ApprovalRequest → ApprovalProof → M G A) :
  runtime_ok rt → getRequest (rt_store rt) (ar_id r) = Some r → ar_status r = rs_pending → getDecision (rt_store rt) (ad_id d) = Some d →
  ad_type d = dt_approved → ad_approvalRequestId d = ar_id r →
  rq_minimumApprovals (ar_requirement r) ≤ Z.of_nat (length (approvers (rt_store rt) (ar_id r))) → (∀ a p, safe (K a p)) →
  refines rt ((a ← markApproved (ar_id r); p ← createProof ctx (proof_input a d ev); K a p) rt).2.
Proof.
  intros Hok Hr Hp Hd Hdt Hdr Hq HK. rewrite (approval_bind_run _ _ _ _ _ (markApproved_run rt r Hr Hp)).
  set (rt1 := with_store rt _). destruct (approval_createProof_run rt1 (proof_input (request_with_status r rs_approved) d ev)) as (p&Hrun&Hid&Hst&Hprev&Hhash&Hat).
  rewrite (approval_bind_run _ _ _ _ _ Hrun). specialize (Hat _ _ _ eq_refl). rewrite (attests_status r rs_approved d p) in Hat.
  assert (getProof (rt_store rt) (ap_id p) = None) as Hn by (rewrite Hid; apply (below_fresh (getProof (rt_store rt))), Hok).
  assert (approval_step (rt_store rt) (putProof p (set_request_status (ar_id r) rs_approved r (rt_store rt)))) as Hstep by (by apply (as_approve _ r d p)).
  assert (refines rt (Build_ApprovalRuntime (putProof p (rt_store rt1)) (rt_events rt1) (rt_proofs rt1 ++ [p]) (2 + rt_calls rt1) (rt_graph rt1))) as Href.
  { split; [by apply rtc_once|]. destruct (ok_tick _ (ok_tick rt Hok)) as [H1 H2 H3 H4 H5]. split; [by eapply approval_step_ok|done| |done|by apply linked_snoc].
    intros i q. unfold getProof, putProof. cbn. rewrite map_get_set. destruct (str_eqb (ap_id p) i) eqn:E; [|apply H3].
    intros _. split_and_bool. exists (rt_calls rt). split; [lia|]. rewrite <-E. apply Hid. }
  eapply refines_trans; [exact Href|apply HK, Href].
Qed.

(** The reads before a decision: they leave the store as it is. *)
Lemma check_run request a now rt : ∃ k rt', checkApproverAuthority options request a now rt = (Ok k, rt') ∧ rt_store rt' = rt_store rt.
Proof.
  unfold checkApproverAuthority. destruct request as [r|]; [|by eexists _, _]. destruct (opt_authorityGraph options) as [g|]; [|by eexists _, _].
  destruct (rq_requiredAuthorityCapability _); [|by eexists _, _]. unfold ask_authority, mbind, M_bind. destruct (createApprovalAuthorityGraphIntegration _ _ _). by eexists _, _.
Qed.
Lemma safe_check request a now : safe (checkApproverAuthority options request a now).
Proof. unfold checkApproverAuthority. destruct request; [|safely]. destruct (opt_authorityGraph options); [|safely]. destruct (rq_requiredAuthorityCapability _); safely. Qed.
Lemma recognition_run a rt : ∃ k rt', approver_recognition options a rt = (Ok k, rt') ∧ rt_store rt' = rt_store rt.
Proof. unfold approver_recognition. destruct (opt_actorRegistry options); by eexists _, _. Qed.

Definition prior_decisions (s : ApprovalStore) (input : SubmitApprovalDecisionInput) : list ApprovalDecision :=
  match getRequest s (sd_approvalRequestId input) with Some r => getDecisionsByRequestId s (ar_id r) | None => [] end.
Definition submit_context (s : ApprovalStore) (input : SubmitApprovalDecisionInput) now recognition check : ApprovalPolicyContext :=
  decision_context now (getRequest s (sd_approvalRequestId input)) input recognition check (prior_decisions s input).

(** What happens once the decision is on file. *)
Definition conclude (input : SubmitApprovalDecisionInput) (s : ApprovalStore) (c : ApprovalPolicyContext) (e : ApprovalPolicyEvaluationResult) (d : ApprovalDecision) :
    M G ApprovalDecisionSubmissionResult :=
  match getRequest s (sd_approvalRequestId input) with
  | Some r =>
      if negb (ev_passed e) then refuse_attempt ctx e (getRequest s (sd_approvalRequestId input)) d
      else match ad_type d with
      | dt_rejected => rejected ← markRejected (ar_id r); _ ← recordDecisionEvent ctx approval_rejected rejected d; mret (submission d (Some rejected) None false)
      | dt_requested_changes => _ ← recordDecisionEvent ctx approval_changes_requested r d; mret (submission d (Some r) None false)
      | dt_escalated => _ ← recordDecisionEvent ctx approval_escalated r d; mret (submission d (Some r) None false)
      | _ => accept_approval ctx c r (prior_decisions s input) d
      end
  | None => refuse_attempt ctx e None d
  end.

(** A submission reads, files its decision and concludes. *)
Lemma submit_run input rt : ∃ rt3 now recognition check,
  (runtime_ok rt → runtime_ok rt3) ∧ rt_store rt3 = rt_store rt ∧
  (checkApproverAuthority options (getRequest (rt_store rt) (sd_approvalRequestId input)) (sd_approverActorId input) now (tick rt)).1 = Ok check ∧
  let c := submit_context (rt_store rt) input now recognition check in
  let e := evaluate_policies createAdmissionApprovalPolicyChain c in
  let d := build_decision (ids_nextId ctx (rt_calls rt3) "approval-decision") now (getRequest (rt_store rt) (sd_approvalRequestId input)) input e check in
  submitApprovalDecision ctx options input rt = conclude input (rt_store rt) c e d (with_store (tick rt3) (putDecision d (rt_store rt))).
Proof.
  unfold submitApprovalDecision. rewrite (approval_bind_run (now_ ctx) _ rt (clock_now ctx (rt_calls rt)) (tick rt) eq_refl).
  rewrite (approval_bind_run get_store _ (tick rt) (rt_store rt) (tick rt) eq_refl). cbv zeta.
  set (request := getRequest (rt_store rt) (sd_approvalRequestId input)).
  destruct (check_run request (sd_approverActorId input) (clock_now ctx (rt_calls rt)) (tick rt)) as (check&rt2&Hc&Hs2).
  rewrite (approval_bind_run _ _ _ _ _ Hc). destruct (recognition_run (sd_approverActorId input) rt2) as (recognition&rt3&Hr&Hs3).
  rewrite (approval_bind_run _ _ _ _ _ Hr). exists rt3, (clock_now ctx (rt_calls rt)), recognition, check. split.
  { intros Hok%ok_tick. destruct (safe_check request (sd_approverActorId input) (clock_now ctx (rt_calls rt)) (tick rt) Hok) as [_ Hok2]. rewrite Hc in Hok2.
    destruct (safe_recognition (sd_approverActorId input) rt2 Hok2) as [_ Hok3]. by rewrite Hr in Hok3. }
  split; [by rewrite Hs3, Hs2|]. split; [by rewrite Hc|].
  rewrite (approval_bind_run (nextId ctx "approval-decision") _ rt3 (ids_nextId ctx (rt_calls rt3) "approval-decision") (tick rt3) eq_refl).
  erewrite (approval_bind_run (modify_store _)) by reflexivity. cbn [rt_store tick]. rewrite Hs3, Hs2. reflexivity.
Qed.

Definition four_types (t : ApprovalDecisionType) : Prop := t = dt_approved ∨ t = dt_rejected ∨ t = dt_requested_changes ∨ t = dt_escalated.

Section Submit.
Context (s : ApprovalStore) (input : SubmitApprovalDecisionInput) (now : string) (recognition : ApprovalApproverRecognitionResult)
  (check : option ApprovalAuthorityCheckResult) (id : string).
Let c := submit_context s input now recognition check.
Let e := evaluate_policies createAdmissionApprovalPolicyChain c.
Let d := build_decision id now (getRequest s (sd_approvalRequestId input)) input e check.

Lemma submit_evaluation : (ev_passed e = true ↔ ∃ r, getRequest s (sd_approvalRequestId input) = Some r ∧ admits c r) ∧
  (ev_passed e = true → ad_type d = sd_type input) ∧ (ad_type d = dt_approved → ev_passed e = true).
Proof.
  destruct (evaluate_spec createAdmissionApprovalPolicyChain c) as (H1&H2&H3); [intros p code t; apply denials_not_approved|].
  split; [|split; [exact H2|exact H3]]. etransitivity; [exact H1|]. apply admission_passes.
Qed.

Lemma submit_admissible : ad_type d = dt_approved →
  ∃ r, getRequest s (ad_approvalRequestId d) = Some r ∧ ar_status r = rs_pending ∧ admissible r d ∧ ad_approverActorId d ∉ approvers s (ar_id r).
Proof.
  destruct submit_evaluation as (H1&H2&H3). intros Ht. pose proof (H3 Ht) as Hp. pose proof (H2 Hp) as Hsd. rewrite Ht in Hsd.
  apply H1 in Hp as (r&Hr&[A1 A2 A3 A4 A5 A6 A7 A8]). exists r. split; [exact Hr|]. split; [done|]. split.
  - split; [intros Hs; apply A6; [by symmetry|done]|apply A5; by symmetry].
  - intros (d0&Ha&Hd0)%list_elem_of_fmap. unfold approvals in Hd0. rewrite list_elem_of_In, filter_In, <-list_elem_of_In, is_approved_iff in Hd0.
    destruct Hd0 as [Hin Hap]. apply (A8 (eq_sym Hsd) d0); [|by symmetry|done]. cbn. unfold prior_decisions. by rewrite Hr.
Qed.

(** The quorum policy counts the approvers on file once the decision is. *)
Lemma quorum_counts r : approvals_ok (putDecision d s) → getDecision s id = None → getRequest s (sd_approvalRequestId input) = Some r → ar_id r = sd_approvalRequestId input →
  ad_type d = dt_approved → policy_evaluate QuorumPolicy c = None →
  rq_minimumApprovals (ar_requirement r) ≤ Z.of_nat (length (approvers (putDecision d s) (ar_id r))).
Proof.
  intros Hok Hn Hr Hid Ht. destruct submit_evaluation as (_&H2&H3). pose proof (H2 (H3 Ht)) as Hsd. rewrite Ht in Hsd.
  assert (distinctApprovers c = nub (approvers (putDecision d s) (ar_id r))) as Ed.
  { unfold distinctApprovers, approvers. rewrite (approvals_putDecision s d _ Hn), fmap_app. do 2 f_equal.
    - cbn. unfold prior_decisions. by rewrite Hr.
    - change (at_type (pc_attempt c)) with (sd_type input). rewrite bool_decide_eq_true_2 by done.
      change (ad_approvalRequestId d) with (sd_approvalRequestId input). rewrite Hid, str_eqb_refl, (proj2 (is_approved_iff d) Ht). done. }
  unfold QuorumPolicy, policy_evaluate. cbv zeta. change (pc_request c) with (getRequest s (sd_approvalRequestId input)). rewrite Ed, Hr.
  rewrite refuse_iff, Z.ltb_ge. intros [Hq _]. etransitivity; [exact Hq|]. apply inj_le, submseteq_length. apply NoDup_submseteq; [apply NoDup_nub|].
  intros x. by rewrite elem_of_nub.
Qed.
End Submit.

Lemma approval_recordEvent_run i rt : ∃ rt', recordEvent ctx i rt = (Ok (), rt') ∧ rt_store rt' = rt_store rt ∧ (runtime_ok rt → runtime_ok rt').
Proof. eexists. split; [unfold recordEvent; do 3 erewrite approval_bind_run by reflexivity; reflexivity|]. split; [done|]. intros Hok. apply (safe_recordEvent i rt Hok). Qed.

Lemma safe_refuse e request d : safe (refuse_attempt ctx e request d).
Proof.
  unfold refuse_attempt, markExpired. apply safe_bind.
  - destruct request as [r|]; [|safely]. destruct (_ && _); safely.
  - intros effective. apply safe_bind; [|safely]. destruct (TERMINAL_EVENT_BY_DECISION_TYPE (ad_type d)); [destruct effective|]; safely.
Qed.

Lemma refines_submit input rt : four_types (sd_type input) → runtime_ok rt → refines rt (submitApprovalDecision ctx options input rt).2.
Proof.
  intros Hfour Hok. destruct (submit_run input rt) as (rt3&now&recognition&check&Hok3&Hs3&_&Hrun). specialize (Hok3 Hok). cbv zeta in Hrun. rewrite Hrun. clear Hrun.
  set (id := ids_nextId ctx (rt_calls rt3) "approval-decision"). set (c := submit_context _ _ _ _ _). set (e := evaluate_policies _ _).
  set (d := build_decision _ _ _ _ _ _).
  destruct (refines_put_decision rt3 d Hok3 eq_refl) as [Hn Href]; [rewrite Hs3; apply submit_admissible|]. rewrite Hs3 in Hn, Href.
  set (rt5 := with_store _ _) in *. assert (refines rt rt5) as Href' by (destruct Href as [Hst Hok5]; rewrite Hs3 in Hst; by split). clear Href.
  eapply refines_trans; [exact Href'|]. destruct Href' as [_ Hok5]. unfold conclude.
  destruct (getRequest (rt_store rt) (sd_approvalRequestId input)) as [r|] eqn:Hr; [|by apply safe_refuse].
  destruct (ev_passed e) eqn:Hp; cbn [negb]; [|by apply safe_refuse].
  destruct (submit_evaluation (rt_store rt) input now recognition check id) as (H1&H2&_). fold c e d in H1, H2. rewrite Hr in H1.
  assert (ad_type d = sd_type input) as Ht by (unfold d; rewrite <-Hr; by apply H2).
  assert (ar_id r = sd_approvalRequestId input) as Hrid by (by apply (ok_requests _ (rt_ok _ Hok))).
  unfold recordDecisionEvent, markRejected. rewrite Ht. destruct Hfour as [E|[E|[E|E]]]; rewrite E;
    [|refine ((_ : safe _) rt5 Hok5); safely|refine ((_ : safe _) rt5 Hok5); safely|refine ((_ : safe _) rt5 Hok5); safely].
  rewrite E in Ht. unfold accept_approval, recordDecisionEvent.
  destruct (approval_recordEvent_run (decision_event approval_approved r d (JObj [("reasonCode", JTxt (ad_reasonCode d))])) rt5) as (rt6&Hrun6&Hs6&Hok6).
  specialize (Hok6 Hok5). rewrite (approval_bind_run _ _ _ _ _ Hrun6).
  assert (refines rt5 rt6) as Href6 by (split; [by rewrite Hs6|done]). eapply refines_trans; [exact Href6|].
  destruct (policy_evaluate QuorumPolicy c) as [x|] eqn:Hq; [by apply safe_ret|].
  pose proof (quorum_counts (rt_store rt) input now recognition check id r) as Hcount. rewrite Hr in Hcount. fold c e d in Hcount.
  apply H1 in Hp as (r0&[= <-]&Hadm).
  apply refines_approve; [done|by rewrite Hs6, Hrid|apply Hadm|rewrite Hs6; unfold getDecision; cbn; by rewrite map_get_set, str_eqb_refl|done|done| |].
  - rewrite Hs6. by apply Hcount; [apply Hok5| | | | |].
  - intros a p. safely.
Qed.

(** *** Histories *)

(** The id under which an operation files a request. *)
Definition filed_request_id rt (op : @RuntimeOp G) : option string :=
  match op with
  | OpCreateRequest i => Some (request_id rt i)
  | OpCreateRequestForDecision i => Some (decision_request_id rt i)
  | _ => None
  end.
Definition files_fresh rt (op : @RuntimeOp G) : bool := negb (is_some (filed_request_id rt op ≫= getRequest (rt_store rt))).
(** No request is filed under an id that is taken. *)
Fixpoint all_fresh rt (ops : list (@RuntimeOp G)) : bool :=
  match ops with [] => true | op :: ops => files_fresh rt op && all_fresh (after ctx options rt op) ops end.

Lemma safe_graph step : safe (run_op ctx options (OpGraph step)).
Proof. intros rt [H1 H2 H3 H4 H5]. by split. Qed.

Lemma fresh_request rt id : negb (is_some (Some id ≫= getRequest (rt_store rt))) = true → getRequest (rt_store rt) id = None.
Proof. cbn. by destruct (getRequest _ _). Qed.

Lemma after_refines rt op : runtime_ok rt → files_fresh rt op = true → refines rt (after ctx options rt op).
Proof.
  intros Hok Hf. unfold after.
  destruct op; cbn [run_op]; try (by apply (safe_graph step));
    try (refine ((_ : safe _) rt Hok); unfold cancelApprovalRequest, supersede; safely; fail).
  - refine ((_ : safe _) rt Hok). apply safe_void, safe_createRequirement.
  - refine ((_ : safe _) rt Hok). apply safe_void, safe_createRule.
  - apply refines_bind; [apply refines_createRequest; [done|by apply fresh_request]|safely].
  - apply refines_bind; [apply refines_createForDecision; [done|by apply fresh_request]|safely].
  - refine ((_ : safe _) rt Hok). apply safe_void, safe_resolveApprovers.
  - apply refines_bind; [apply refines_submit; [by left|done]|safely].
  - apply refines_bind; [apply refines_submit; [by right; left|done]|safely].
  - apply refines_bind; [apply refines_submit; [by right; right; left|done]|safely].
  - apply refines_bind; [apply refines_submit; [by right; right; right|done]|safely].
  - refine ((_ : safe _) rt Hok). apply safe_void, safe_expireRequestIfNeeded.
  - refine ((_ : safe _) rt Hok). apply safe_void, safe_expirePending.
  - refine ((_ : safe _) rt Hok). apply safe_void, safe_expireProofIfNeeded.
  - refine ((_ : safe _) rt Hok). apply safe_void, safe_revokeApproval.
  - refine ((_ : safe _) rt Hok). apply safe_void, safe_verify.
Qed.

Lemma run_refines rt ops : runtime_ok rt → all_fresh rt ops = true → refines rt (run_ops ctx options rt ops).
Proof.
  revert rt. induction ops as [|op ops IH]; intros rt Hok Hf; cbn in *; [by split|]. apply andb_true_iff in Hf as [Hf Hfs].
  pose proof (after_refines rt op Hok Hf) as Href. eapply refines_trans; [exact Href|]. apply IH; [apply Href|done].
Qed.

Lemma approval_new_runtime_ok graph : runtime_ok (new_runtime graph).
Proof. split; [apply empty_approvals_ok|done..]. Qed.

End Refine.

(** ** What callers rely on *)

(** A quorum stands behind a request: enough distinct approvers, each with an
    accepted approval that is admissible for it. *)
Definition quorum_behind (s : ApprovalStore) (r : ApprovalRequest) : Prop :=
  ∃ who, NoDup who ∧ rq_minimumApprovals (ar_requirement r) ≤ Z.of_nat (length who) ∧
    ∀ a, a ∈ who → ∃ d, getDecision s (ad_id d) = Some d ∧ ad_approvalRequestId d = ar_id r ∧ ad_type d = dt_approved ∧
      ad_approverActorId d = a ∧ admissible r d.

Lemma approvers_quorum s r : approvals_ok s → getRequest s (ar_id r) = Some r →
  rq_minimumApprovals (ar_requirement r) ≤ Z.of_nat (length (approvers s (ar_id r))) → quorum_behind s r.
Proof.
  intros Hok Hr Hq. exists (approvers s (ar_id r)). split; [apply Hok|]. split; [done|]. intros a (d&->&Hd)%list_elem_of_fmap.
  apply (approvals_elem s _ d Hok) in Hd as (Hd&Hreq&Ht). exists d. destruct (ok_admissible _ Hok d _ Hd Ht) as (r'&Hr'&Ha).
  rewrite Hreq, Hr in Hr'. injection Hr' as <-. done.
Qed.

Section Verification.
Context `{JsHost} (s : ApprovalStore) (Hok : approvals_ok s).

(** A proof that can be used now. *)
Record usable (i : ApprovalVerificationInput) (p : ApprovalProof) : Prop := {
  us_stored : getProof s (ap_id p) = Some p;
  us_valid : ap_status p = ps_valid;
  us_approved : ap_approved p = true;
  us_unexpired : ∀ e, ap_expiresAt p = Some e → instant_ge (vi_requestedAt i) e = false;
  us_action : ap_action p = vi_action i;
  us_scope : ap_resourceScope p = vi_resourceScope i;
}.

Lemma getProof_id i p : getProof s i = Some p → getProof s (ap_id p) = Some p.
Proof. intros Hp. by rewrite (proj2 (ok_proofs _ Hok) i p Hp). Qed.
Lemma latest_stored i p : latestProofForRequest s i = Some p → getProof s (ap_id p) = Some p.
Proof.
  unfold latestProofForRequest. intros Hl%last_Some_elem_of. unfold getProofsByRequestId in Hl. rewrite list_elem_of_In, filter_In, <-list_elem_of_In in Hl.
  destruct Hl as [Hl _]. apply (filed_values ap_id) in Hl; [done|apply Hok].
Qed.
Lemma target_stored i p : (resolveVerificationTarget s i).2 = Some p → getProof s (ap_id p) = Some p.
Proof.
  unfold resolveVerificationTarget. destruct (vi_approvalProofId i) as [pid|].
  { destruct (getProof s pid) as [q|] eqn:E; cbn; [|done]. intros [= <-]. by apply getProof_id in E. }
  destruct (vi_approvalDecisionId i) as [did|]; cbn.
  { unfold getProofByDecisionId. destruct (map_get did _) as [pid|]; [|done]. apply getProof_id. }
  destruct (vi_approvalRequestId i) as [rid|]; [destruct (getRequest s rid)|destruct (last _)]; cbn; try done; apply latest_stored.
Qed.

Lemma verifyApprovalProof_None id now : verifyApprovalProof s id now = None ↔
  ∃ p, getProof s id = Some p ∧ ap_status p = ps_valid ∧ ap_approved p = true ∧ ∀ e, ap_expiresAt p = Some e → instant_ge now e = false.
Proof.
  unfold verifyApprovalProof. destruct (getProof s id) as [p|]; [|naive_solver]. split.
  - destruct (bool_decide (ap_status p = ps_revoked)) eqn:E1; [done|]. destruct (match ap_expiresAt p with Some e => _ | None => _ end) eqn:E2; [done|].
    destruct (bool_decide (ap_status p ≠ ps_valid)) eqn:E3; [done|]. destruct (ap_approved p) eqn:E4; [|done]. intros _. exists p. split; [done|].
    apply bool_decide_eq_false, dec_stable in E3. split; [done|]. split; [done|]. intros e He. by rewrite He in E2.
  - intros (q&[= <-]&Hst&Hap&He). rewrite Hst, Hap. cbn. destruct (ap_expiresAt p) as [e|]; [|done]. by rewrite (He e eq_refl).
Qed.

Lemma verification_exact i :
  vr_valid (verification_of s i) = true ↔ ∃ p, (resolveVerificationTarget s i).2 = Some p ∧ usable i p.
Proof.
  unfold verification_of. destruct (resolveVerificationTarget s i) as [req [p|]] eqn:Et; cbn [snd].
  - assert (getProof s (ap_id p) = Some p) as Hp by (apply (target_stored i); by rewrite Et).
    pose proof (verifyApprovalProof_None (ap_id p) (vi_requestedAt i)) as Hv. destruct req as [r|];
      destruct (verifyApprovalProof s (ap_id p) (vi_requestedAt i)) as [code|]; cbn.
    1,3: split; [done|]; intros (q&[= <-]&[H1 H2 H3 H4 H5 H6]); assert (Some code = None) by (apply Hv; by exists p); done.
    1,2: destruct (proj1 Hv eq_refl) as (q&Hq&Hst&Hap&He); rewrite Hp in Hq; injection Hq as <-;
      destruct (str_eqb (ap_action p) (vi_action i)) eqn:Ea, (str_eqb (ap_resourceScope p) (vi_resourceScope i)) eqn:Es; cbn; split_and_bool;
      (split; [|by intros (q&[= <-]&[])]); try done; intros _; exists p; (split; [done|by split]).
  - split; [|by intros (p&?&_)]. destruct req as [r|]; [|done]. destruct (is_pending r); [by destruct (existsb _ _)|done].
Qed.

(** The request behind a usable proof. *)
Lemma usable_sanctioned i p : usable i p → ∃ r d, getRequest s (ar_id r) = Some r ∧ ar_status r = rs_approved ∧ attests r d p ∧
  ar_action r = vi_action i ∧ ar_resourceScope r = vi_resourceScope i ∧ quorum_behind s r.
Proof.
  intros [H1 H2 H3 H4 H5 H6]. destruct (ok_quorum _ Hok p _ H1) as (r&d&Hr&Hst&Hat&_&_&_&Hq). exists r, d.
  pose proof Hat as [A1 A2 A3 A4 A5 A6 A7 A8 A9 A10]. rewrite A1 in Hr. split; [done|]. split; [done|]. split; [done|].
  split; [congruence|]. split; [congruence|]. by apply approvers_quorum.
Qed.
End Verification.

Section Promises.
Context {G : Type} `{JsHost} (ctx : ApprovalRuntimeContext) (options : ApprovalRuntimeOptions G).

Lemma history_ok graph ops : (∀ prefix n m, ids_nextId ctx n prefix = ids_nextId ctx m prefix → n = m) →
  all_fresh ctx options (new_runtime graph) ops = true → refines ctx (new_runtime graph) (run_ops ctx options (new_runtime graph) ops).
Proof. intros Hids Hf. apply run_refines; [done|apply approval_new_runtime_ok|done]. Qed.

(** A verification is answered from the store and leaves it alone. *)
Lemma verify_run i (rt : ApprovalRuntime G) : ∃ rt1,
  verifyApprovalForAction ctx i rt = (Ok (verification_of (rt_store rt) i), rt1) ∧ rt_store rt1 = rt_store rt.
Proof.
  unfold verifyApprovalForAction, finishVerification. erewrite approval_bind_run by reflexivity.
  match goal with |- context[(recordEvent ctx ?e ≫= _) ?x] => destruct (approval_recordEvent_run ctx e x) as (rt1&Hrun&Hs&_) end.
  exists rt1. by rewrite (approval_bind_run _ _ _ _ _ Hrun).
Qed.

Lemma usable_named s i p : (resolveVerificationTarget s i).2 = Some p → usable s i p →
  vr_approvalProofId (verification_of s i) = Some (ap_id p).
Proof.
  unfold verification_of. destruct (resolveVerificationTarget s i) as [req q]. cbn. intros -> Hu.
  assert (verifyApprovalProof s (ap_id p) (vi_requestedAt i) = None) as -> by (apply verifyApprovalProof_None; destruct Hu; by exists p).
  destruct Hu as [_ _ _ _ -> ->]. rewrite !str_eqb_refl. by destruct req.
Qed.

(** Revoking a proof leaves it stored as revoked. *)
Lemma revoke_run id by_ why (rt rt1 : ApprovalRuntime G) p : revokeApproval ctx (Some id) None by_ why rt = (Ok (inr p), rt1) →
  ∃ q, getProof (rt_store rt1) id = Some q ∧ ap_status q = ps_revoked.
Proof.
  intros Hrev. unfold revokeApproval, revokeApprovalProof, service_revokeApprovalProof in Hrev.
  unfold mbind, M_bind, get_store, now_, update_store, updateProofStatus in Hrev.
  unfold getProof in *. destruct (map_get id (proofs (rt_store rt))) as [p0|] eqn:E; [|done]. cbn [rt_store tick] in Hrev. rewrite E in Hrev.
  match type of Hrev with context[recordEvent ctx ?e ?x] => destruct (approval_recordEvent_run ctx e x) as (rt2&Hrun&Hs&_) end.
  rewrite Hrun in Hrev. injection Hrev as _ <-. rewrite Hs. cbn. rewrite map_get_set, str_eqb_refl. by eexists.
Qed.

(** C13. The runtime refines its contract. Where generated ids never repeat, every
    history of operations -- returning or throwing -- in which no request is
    filed under a taken id ([all_fresh]; the code overwrites the request there:
    [refiled_request_reopens]) takes the store through steps of the contract: requests are
    filed pending, accepted approvals are admissible and by new approvers, only
    pending requests are closed or approved, a request is approved and proved
    only with its quorum on file, and a proof's status only worsens. *)
Theorem approval_runtime_refines graph ops :
  (∀ prefix n m, ids_nextId ctx n prefix = ids_nextId ctx m prefix → n = m) → all_fresh ctx options (new_runtime graph) ops = true →
  rtc approval_step empty_approvals (rt_store (run_ops ctx options (new_runtime graph) ops)).
Proof. intros Hids Hf. by apply history_ok. Qed.

(** C14. What a valid verification means, after a history in which no request was
    filed under a taken id ([all_fresh]; the code overwrites an approved request
    there and leaves its proof: [refiled_request_reopens]) and generated ids do
    not repeat: a stored
    proof, in force at the instant of the request, for exactly this action and
    scope, whose request was approved with a quorum of distinct approvers, each
    of whom reviewed the required evidence and, where duties are segregated, is
    neither requester nor target. *)
Theorem verifyApprovalForAction_sound graph ops i result rt' :
  (∀ prefix n m, ids_nextId ctx n prefix = ids_nextId ctx m prefix → n = m) → all_fresh ctx options (new_runtime graph) ops = true →
  let rt := run_ops ctx options (new_runtime graph) ops in
  verifyApprovalForAction ctx i rt = (Ok result, rt') → vr_valid result = true →
  rt_store rt' = rt_store rt ∧ ∃ p r d, vr_approvalProofId result = Some (ap_id p) ∧ usable (rt_store rt) i p ∧
    getRequest (rt_store rt) (ar_id r) = Some r ∧ ar_status r = rs_approved ∧ attests r d p ∧ ar_action r = vi_action i ∧
    ar_resourceScope r = vi_resourceScope i ∧ quorum_behind (rt_store rt) r.
Proof.
  intros Hids Hf rt Hv Hval. destruct (history_ok graph ops Hids Hf) as [_ Hok]. fold rt in Hok.
  destruct (verify_run i rt) as (rt1&Hrun&Hs). rewrite Hrun in Hv. injection Hv as <- <-. split; [done|].
  apply verification_exact in Hval as (p&Ht&Hu); [|apply Hok]. destruct (usable_sanctioned _ (rt_ok _ _ Hok) i p Hu) as (r&d&Hrest).
  exists p, r, d. split; [by apply usable_named|by split].
Qed.

(** A revoked proof stays revoked: once a proof has been revoked, no
    verification after any further history is answered with it. *)
Theorem revoked_proof_unusable graph ops id by_ why p rt1 later i result rt' :
  (∀ prefix n m, ids_nextId ctx n prefix = ids_nextId ctx m prefix → n = m) → all_fresh ctx options (new_runtime graph) ops = true →
  revokeApproval ctx (Some id) None by_ why (run_ops ctx options (new_runtime graph) ops) = (Ok (inr p), rt1) →
  all_fresh ctx options rt1 later = true →
  verifyApprovalForAction ctx i (run_ops ctx options rt1 later) = (Ok result, rt') → vr_valid result = true →
  vr_approvalProofId result ≠ Some id.
Proof.
  intros Hids Hf Hrev Hf1 Hv Hval Hid. destruct (history_ok graph ops Hids Hf) as [_ Hok].
  destruct (safe_revokeApproval ctx (Some id) None by_ why _ Hok) as [_ Hok1]. rewrite Hrev in Hok1. cbn [snd] in Hok1.
  destruct (revoke_run _ _ _ _ _ _ Hrev) as (q&Hq&Hst). destruct (run_refines ctx options Hids rt1 later Hok1 Hf1) as [Hsteps Hok2].
  destruct (proof_steps _ _ _ _ Hsteps Hq) as (q2&Hq2&_&Hst2). specialize (Hst2 Hst).
  destruct (verify_run i (run_ops ctx options rt1 later)) as (rt3&Hrun&_). rewrite Hrun in Hv. injection Hv as <- <-.
  apply verification_exact in Hval as (p'&Ht&Hu); [|apply Hok2]. rewrite (usable_named _ i p' Ht Hu) in Hid. injection Hid as Hid.
  destruct Hu as [Hp Hv _ _ _ _]. rewrite Hid, Hq2 in Hp. injection Hp as <-. congruence.
Qed.
End Promises.

(** ** A dual approval *)

Module Demo.

Fixpoint ticks (n : nat) : string := match n with O => "" | S n => String "i" (ticks n) end.
Definition ctx : ApprovalRuntimeContext := {|
  clock_now := λ _, "2026-03-01T00:00:00.000Z"; ids_nextId := λ n prefix, prefix +:+ "-" +:+ ticks n; date_toISOString := λ _, None |}.
Definition options : ApprovalRuntimeOptions unit := {| opt_authorityGraph := None; opt_actorRegistry := None; opt_roleLookup := None |}.

Definition requirement (capability : option string) (minimum : Z) : ApprovalRequirement := {|
  rq_id := "rq"; rq_type := dual_approval; rq_trustDomainId := "dom"; rq_action := "pay"; rq_resourceScope := "invoices:eu:17"; rq_riskLevel := risk_high;
  rq_requiredApproverActorIds := Some ["carol"; "dave"]; rq_requiredApproverRoleIds := None; rq_requiredAuthorityCapability := capability;
  rq_minimumApprovals := minimum; rq_requiresSegregationOfDuties := true;
  rq_evidenceRequirements := [{| er_id := "e"; er_type := ev_draft_action; er_required := true; er_description := "" |}];
  rq_expiresInMinutes := None; rq_metadata := None |}.
Definition fields (rq : ApprovalRequirement) : ApprovalRequest := {|
  ar_id := ""; ar_trustDomainId := "dom"; ar_actionRequestId := "act-1"; ar_recognitionDecisionId := None; ar_authorityDecisionId := None;
  ar_authorityProofId := None; ar_requestedByActorId := "alice"; ar_targetActorId := "vendor"; ar_principalActorId := None; ar_action := "pay";
  ar_resourceScope := "invoices:eu:17"; ar_resourceId := None; ar_capability := None; ar_riskLevel := risk_high; ar_requirement := rq;
  ar_status := rs_pending; ar_evidence := []; ar_createdAt := ""; ar_expiresAt := None; ar_metadata := None |}.
Definition draft : ApprovalEvidenceArtifact := {|
  ea_id := "draft"; ea_type := ev_draft_action; ea_providedByActorId := "alice"; ea_uri := None; ea_hash := Some "h"; ea_description := None;
  ea_createdAt := "2026-03-01T00:00:00.000Z"; ea_metadata := None |}.
Definition by_ (id actor : string) : SubmitApprovalDecisionInput := {|
  sd_approvalRequestId := id; sd_approverActorId := actor; sd_type := dt_approved; sd_evidenceReviewed := Some [draft]; sd_reason := None |}.
Definition approved_by (id first second : string) : list (@RuntimeOp unit) :=
  [OpRegisterRecognition first "recognized"; OpRegisterRecognition second "recognized";
   OpCreateRequest {| ci_id := Some id; ci_expiresAt := None; ci_fields := fields (requirement None 2) |};
   OpApprove (by_ id first); OpApprove (by_ id second)].
Definition history (first second : string) : list (@RuntimeOp unit) := approved_by "req" first second.
Definition use (actionRequestId id : string) : ApprovalVerificationInput := {|
  vi_approvalProofId := None; vi_approvalRequestId := Some id; vi_approvalDecisionId := None; vi_actionRequestId := actionRequestId; vi_actorId := "alice";
  vi_principalActorId := None; vi_trustDomainId := "dom"; vi_action := "pay"; vi_resourceScope := "invoices:eu:17"; vi_capability := None;
  vi_requestedAt := "2026-03-01T01:00:00.000Z"; vi_evidence := None |}.

#[local] Existing Instance demo_host.

Definition runtime (ops : list RuntimeOp) : ApprovalRuntime unit := run_ops ctx options (new_runtime ()) ops.
(** What a verification answers, with the proof it names. *)
Definition answer (rt : ApprovalRuntime unit) (i : ApprovalVerificationInput) : string * bool * option string :=
  let r := verification_of (rt_store rt) i in (vr_reasonCode r, vr_valid r, vr_approvalProofId r).

Definition pid : string := default "" (vr_approvalProofId (verification_of (rt_store (runtime (history "carol" "dave"))) (use "act-1" "req"))).

Lemma ids_distinct prefix n m : ids_nextId ctx n prefix = ids_nextId ctx m prefix → n = m.
Proof.
  assert (∀ a b c, a +:+ b = a +:+ c → b = c) as Hinj by (induction a as [|x a IH]; [done|]; intros b c [= ?]; by apply IH).
  cbn. intros E%Hinj%(Hinj "-"). revert m E. induction n as [|n IH]; intros [|m]; cbn; [done|done|done|]. intros [= E]. f_equal. by apply IH.
Qed.
Lemma history_fresh first second : all_fresh ctx options (new_runtime ()) (history first second) = true.
Proof. reflexivity. Qed.

Lemma two_approve : answer (runtime (history "carol" "dave")) (use "act-1" "req") = ("APPROVAL_VALID", true, Some pid).
Proof. vm_compute. reflexivity. Qed.
Lemma first_valid : vr_valid (verification_of (rt_store (run_ops ctx options (new_runtime ()) (history "carol" "dave"))) (use "act-1" "req")) = true.
Proof. vm_compute. reflexivity. Qed.
Lemma one_twice_is_not_two : answer (runtime (history "carol" "carol")) (use "act-1" "req") = ("APPROVAL_QUORUM_NOT_MET", false, None).
Proof. vm_compute. reflexivity. Qed.
Lemma requester_does_not_count : answer (runtime (history "carol" "alice")) (use "act-1" "req") = ("APPROVAL_QUORUM_NOT_MET", false, None).
Proof. vm_compute. reflexivity. Qed.

Lemma approval_runtime_refines_witness : rtc approval_step empty_approvals (rt_store (runtime (history "carol" "dave"))).
Proof. apply approval_runtime_refines; [exact ids_distinct|apply history_fresh]. Defined.

#[local] Opaque run_ops verification_of verifyApprovalForAction.

Lemma verifyApprovalForAction_sound_witness : let rt := run_ops ctx options (new_runtime ()) (history "carol" "dave") in
  ∃ result rt' p r, verifyApprovalForAction ctx (use "act-1" "req") rt = (Ok result, rt') ∧ vr_approvalProofId result = Some (ap_id p) ∧
    usable (rt_store rt) (use "act-1" "req") p ∧ quorum_behind (rt_store rt) r.
Proof.
  pose proof first_valid as Hvalid. intros rt. fold rt in Hvalid. destruct (verify_run ctx (use "act-1" "req") rt) as (rt'&Hrun&_).
  pose proof (verifyApprovalForAction_sound ctx options () (history "carol" "dave") (use "act-1" "req")
    (verification_of (rt_store rt) (use "act-1" "req")) rt' ids_distinct (history_fresh _ _)) as Hs. cbv zeta in Hs. fold rt in Hs.
  destruct (Hs Hrun Hvalid) as (_&p&r&d&Hid&Hu&_&_&_&_&_&Hq).
  exists (verification_of (rt_store rt) (use "act-1" "req")), rt', p, r. auto.
Defined.

(** The proof is revoked; a second request is approved and verifies. *)
Definition revoked : result ApprovalRuntimeError (ApprovalRequest + ApprovalProof) * ApprovalRuntime unit :=
  revokeApproval ctx (Some pid) None "carol" "mistake" (runtime (history "carol" "dave")).
Definition later : list RuntimeOp := approved_by "req-2" "carol" "dave".
Lemma revocation_answers : ∃ p, revoked = (Ok (inr p), revoked.2).
Proof.
  assert (match revoked.1 with Ok (inr _) => true | _ => false end = true) as F by (vm_compute; reflexivity).
  destruct revoked as [[[r|p]|e] rt]; [done| |done]. by exists p.
Qed.
Lemma later_fresh : all_fresh ctx options revoked.2 later = true.
Proof. vm_compute. reflexivity. Qed.
Lemma revoked_answer : answer (run_ops ctx options revoked.2 later) (use "act-1" "req") = ("APPROVAL_REVOKED", false, Some pid).
Proof. vm_compute. reflexivity. Qed.
Lemma second_valid : vr_valid (verification_of (rt_store (run_ops ctx options revoked.2 later)) (use "act-1" "req-2")) = true.
Proof. vm_compute. reflexivity. Qed.

Lemma revoked_proof_unusable_witness : ∃ result rt', verifyApprovalForAction ctx (use "act-1" "req-2") (run_ops ctx options revoked.2 later) = (Ok result, rt') ∧
  vr_valid result = true ∧ vr_approvalProofId result ≠ Some pid.
Proof.
  destruct (verify_run ctx (use "act-1" "req-2") (run_ops ctx options revoked.2 later)) as (rt'&Hrun&_). destruct revocation_answers as (p&Hrev).
  eexists _, rt'. split; [exact Hrun|]. split; [exact second_valid|].
  exact (revoked_proof_unusable ctx options () (history "carol" "dave") pid "carol" "mistake" p revoked.2 later (use "act-1" "req-2") _ rt'
    ids_distinct (history_fresh _ _) Hrev later_fresh Hrun second_valid).
Defined.

(** *** Where the runtime and its documentation part *)

(** The requirement names carol and dave; two other recognized actors complete
    the quorum. *)
Lemma unlisted_approvers_count : answer (runtime (history "mallory" "eve")) (use "act-1" "req") = ("APPROVAL_VALID", true, Some pid).
Proof. vm_compute. reflexivity. Qed.

(** The proof of one action request verifies for another. *)
Lemma proof_serves_another_action : answer (runtime (history "carol" "dave")) (use "act-2" "req") = ("APPROVAL_VALID", true, Some pid).
Proof. vm_compute. reflexivity. Qed.

(** An approved request filed again under its own id is pending again, with
    nobody's approval asked, and its proof still verifies: what the theorems ask
    of ids is needed. *)
Definition refiled : list (@RuntimeOp unit) :=
  history "carol" "dave" ++ [OpCreateRequest {| ci_id := Some "req"; ci_expiresAt := None; ci_fields := fields (requirement None 2) |}].
Lemma refiled_request_reopens : ar_status <$> getRequest (rt_store (runtime (history "carol" "dave"))) "req" = Some rs_approved ∧
  ar_status <$> getRequest (rt_store (runtime refiled)) "req" = Some rs_pending ∧ answer (runtime refiled) (use "act-1" "req") = ("APPROVAL_VALID", true, Some pid).
Proof. vm_compute. done. Qed.

End Demo.
