(* ===== verification/ApprovalAuthority.v ===== *)
(** * Approvals backed by authority

    The approval runtime composed with the authority graph: an
    [AuthorityGraphRuntime] serves as the runtime's [AuthorityGraphRuntimeLike]
    (approval-authority-graph-integration.ts), so an approver whose capability
    a requirement asks for is checked against the stored chains. *)

From S2P Require Import Prelude Decimal Js JsMap StableJson HashChain AuthorityGraph AuthorityChain AuthorityRuntime AuthoritySafety.
From S2P Require Import Approval ApprovalRuntime ApprovalSafety.

Local Open Scope Z_scope.
Local Open Scope frontera_scope.

(** ** The port *)

Section Port.
Context `{JsHost} (actx : AuthorityRuntime.AuthorityRuntimeContext).

Definition chain_request (q : AuthorityChainRequestLike) : AuthorityChainRequest := {|
  cr_id := acr_id q; cr_actorId := acr_actorId q; cr_principalActorId := acr_principalActorId q; cr_trustDomainId := acr_trustDomainId q;
  cr_action := acr_action q; cr_resourceScope := acr_resourceScope q; cr_capability := acr_capability q;
  cr_requestedAt := acr_requestedAt q; cr_capabilityTokenId := None |}.
Definition decision_like (d : AuthorityDecision) : AuthorityDecisionLike := {|
  adl_id := de_id d; adl_type := decision_type_text (de_type d); adl_valid := de_valid d; adl_reasonCode := de_reasonCode d;
  adl_proofId := Some (de_proofId d) |}.

(** [verifyAuthority] never throws ([authority_port_answers]), so the last
    branch is not taken. *)
Definition authority_port : AuthorityGraphRuntimeLike AuthorityGraphRuntime := {|
  agr_verifyAuthority := λ g q, match AuthorityRuntime.verifyAuthority actx (chain_request q) g with
    | Ok (d, g') => (decision_like d, g')
    | Throw _ => ({| adl_id := ""; adl_type := "authority_missing"; adl_valid := false; adl_reasonCode := ""; adl_proofId := None |}, g)
    end |}.

Lemma authority_port_answers g q : ∃ d g', AuthorityRuntime.verifyAuthority actx (chain_request q) g = Ok (d, g') ∧
  agr_verifyAuthority authority_port g q = (decision_like d, g').
Proof. destruct (verifyAuthority_run actx (chain_request q) g) as (d&g'&Hv&_). exists d, g'. split; [done|]. cbn [agr_verifyAuthority authority_port]. by rewrite Hv. Qed.

(** What the port's valid answers stand for, in a graph that operations built. *)
Lemma port_valid_contained gops q decision g' :
  let g := AuthorityRuntime.run_ops actx AuthorityRuntime.new_runtime gops in
  getGrant (AuthorityRuntime.rt_store g) "" = None →
  agr_verifyAuthority authority_port g q = (decision, g') → adl_valid decision = true →
  ∃ now gs ds, resolve_records (AuthorityRuntime.rt_store g) (chain_request q) = (gs, ds, chain_valid) ∧
    contained (AuthorityRuntime.rt_store g) (chain_request q) now gs ds.
Proof.
  intros g Hempty Hq Hval. destruct (authority_port_answers g q) as (d&g''&Hv&Ha). rewrite Hq in Ha. injection Ha as -> ->.
  pose proof (ok_graph _ (run_ops_ok actx AuthorityRuntime.new_runtime gops AuthoritySafety.new_runtime_ok)) as Hok. fold g in Hok.
  apply (verify_valid_iff actx (chain_request q) g d g'' Hok Hempty Hv) in Hval as (gs&ds&Hr&Hl).
  exists (de_evaluatedAt d), gs, ds. split; [done|]. by apply legitimate_contained.
Qed.
End Port.

(** ** Accepted approvals *)

Section Accepted.
Context {G : Type} `{JsHost} (ctx : ApprovalRuntime.ApprovalRuntimeContext) (options : ApprovalRuntimeOptions G).

(** A submission answers with the decision it filed. *)
Definition answers_with (d : ApprovalDecision) (m : ApprovalRuntime.M G ApprovalDecisionSubmissionResult) : Prop :=
  ∀ rt res rt', m rt = (Ok res, rt') → sr_decision res = d.
Lemma answers_ret d r p q : answers_with d (mret (submission d r p q)).
Proof. intros rt res rt' [= <- <-]. done. Qed.
Lemma answers_bind {A} d (m : ApprovalRuntime.M G A) f : (∀ a, answers_with d (f a)) → answers_with d (m ≫= f).
Proof.
  intros Hf rt res rt'. unfold mbind, ApprovalRuntime.M_bind. destruct (m rt) as [[a|err] rt1]; [apply Hf|done].
Qed.
Lemma conclude_answers input s c e d : answers_with d (conclude ctx input s c e d).
Proof.
  unfold conclude, refuse_attempt, accept_approval. destruct (getRequest s _) as [r|].
  - destruct (negb _); [repeat (apply answers_bind; intros); apply answers_ret|].
    destruct (ad_type d); repeat (apply answers_bind; intros); try apply answers_ret;
      (destruct (policy_evaluate QuorumPolicy c); [|repeat (apply answers_bind; intros)]; apply answers_ret).
  - repeat (apply answers_bind; intros); apply answers_ret.
Qed.

Lemma accepted_checked input rt res rt' r capability port :
  submitApprovalDecision ctx options input rt = (Ok res, rt') → ad_type (sr_decision res) = dt_approved →
  getRequest (ApprovalRuntime.rt_store rt) (sd_approvalRequestId input) = Some r → opt_authorityGraph options = Some port →
  rq_requiredAuthorityCapability (ar_requirement r) = Some capability →
  ∃ now, let q := {| acr_id := ar_id r; acr_actorId := sd_approverActorId input; acr_principalActorId := ar_principalActorId r;
      acr_trustDomainId := ar_trustDomainId r; acr_action := capability; acr_resourceScope := ar_resourceScope r;
      acr_capability := None; acr_requestedAt := now |} in
    adl_valid (agr_verifyAuthority port (ApprovalRuntime.rt_graph rt) q).1 = true.
Proof.
  intros Hsub Ht Hr Hport Hcap. destruct (submit_run ctx options input rt) as (rt3&now&recognition&check&_&_&Hcheck&Hrun).
  cbv zeta in Hrun. rewrite Hrun in Hsub. apply conclude_answers in Hsub as Hd. rewrite Hd in Ht. clear Hrun.
  apply submit_evaluation in Ht as Hp. apply submit_evaluation in Hp as (r'&Hr'&Had); [|exact (ApprovalRuntime.ids_nextId ctx (ApprovalRuntime.rt_calls rt3) "approval-decision")].
  rewrite Hr in Hr'. injection Hr' as <-. destruct (am_authority _ _ Had) as (k&Hk&Hvalid); [by rewrite Hcap|]. cbn in Hk. subst check.
  exists now. revert Hcheck. rewrite Hr. unfold checkApproverAuthority. rewrite Hport, Hcap. unfold ask_authority, mbind, ApprovalRuntime.M_bind.
  unfold createApprovalAuthorityGraphIntegration. cbn [ApprovalRuntime.rt_graph ApprovalRuntime.tick av_requestId av_actorId av_principalActorId av_trustDomainId av_action av_resourceScope av_capability av_requestedAt].
  destruct (agr_verifyAuthority port _ _) as [dl g']. cbn. intros [= <-]. exact Hvalid.
Qed.
End Accepted.

(** C15. An approval that counts is backed by authority. Whatever state an
    approval runtime is in, when a requirement names a capability and the runtime
    is composed with an authority graph that its own operations built and in
    which no grant is filed under the empty id (a chain can end in such a grant
    without an accepted issuer: [empty_id_escapes_root]), an approval is accepted
    only if the store of that graph holds a chain from an accepted issuer down to
    the approver that contains the capability in the request's scope, at every
    link. *)
Theorem approval_requires_authority `{JsHost} ctx actx options rt gops input res rt' r capability :
  opt_authorityGraph options = Some (authority_port actx) →
  ApprovalRuntime.rt_graph rt = AuthorityRuntime.run_ops actx AuthorityRuntime.new_runtime gops →
  getGrant (AuthorityRuntime.rt_store (ApprovalRuntime.rt_graph rt)) "" = None →
  getRequest (ApprovalRuntime.rt_store rt) (sd_approvalRequestId input) = Some r →
  rq_requiredAuthorityCapability (ar_requirement r) = Some capability →
  submitApprovalDecision ctx options input rt = (Ok res, rt') → ad_type (sr_decision res) = dt_approved →
  ∃ q now gs ds, cr_actorId q = sd_approverActorId input ∧ cr_action q = capability ∧ cr_resourceScope q = ar_resourceScope r ∧
    cr_trustDomainId q = ar_trustDomainId r ∧
    resolve_records (AuthorityRuntime.rt_store (ApprovalRuntime.rt_graph rt)) q = (gs, ds, chain_valid) ∧
    contained (AuthorityRuntime.rt_store (ApprovalRuntime.rt_graph rt)) q now gs ds.
Proof.
  intros Hport Hg Hempty Hr Hcap Hsub Ht.
  destruct (accepted_checked ctx options input rt res rt' r capability _ Hsub Ht Hr Hport Hcap) as (at_&Hval). cbv zeta in Hval.
  destruct (agr_verifyAuthority (authority_port actx) (ApprovalRuntime.rt_graph rt) _) as [dl g'] eqn:Hq. rewrite Hg in Hq, Hempty.
  destruct (port_valid_contained actx gops _ _ _ Hempty Hq Hval) as (now&gs&ds&Hres&Hc). rewrite Hg.
  match type of Hres with resolve_records _ ?q = _ => exists q, now, gs, ds end. by do 4 (split; [reflexivity|]).
Qed.

(** ** The agent of the authority example approves *)

Module Composed.

#[local] Existing Instance demo_host.
Definition options : ApprovalRuntimeOptions AuthorityGraphRuntime := {|
  opt_authorityGraph := Some (authority_port AuthoritySafety.Demo.ctx); opt_actorRegistry := None; opt_roleLookup := None |}.
Definition history (approver : string) : list (@ApprovalRuntime.RuntimeOp AuthorityGraphRuntime) :=
  [OpRegisterRecognition approver "recognized";
   OpCreateRequest {| ci_id := Some "req"; ci_expiresAt := None;
     ci_fields := ApprovalSafety.Demo.fields (ApprovalSafety.Demo.requirement (Some "pay") 1) |}].
Definition runtime (approver : string) : ApprovalRuntime AuthorityGraphRuntime :=
  ApprovalRuntime.run_ops ApprovalSafety.Demo.ctx options (ApprovalRuntime.new_runtime AuthoritySafety.Demo.runtime) (history approver).
Definition submitted (approver : string) := submitApprovalDecision ApprovalSafety.Demo.ctx options (ApprovalSafety.Demo.by_ "req" approver) (runtime approver).
Definition verdict (approver : string) : option (string * bool) :=
  match (submitted approver).1 with Ok res => Some (ad_reasonCode (sr_decision res), sr_quorumMet res) | Throw _ => None end.

Lemma agent_approves : verdict "agent" = Some ("ALL_APPROVAL_POLICIES_SATISFIED", true).
Proof. vm_compute. reflexivity. Qed.
Lemma outsider_refused : verdict "mallory" = Some ("APPROVER_AUTHORITY_MISSING", false).
Proof. vm_compute. reflexivity. Qed.

Lemma request_stored : ∃ r, getRequest (ApprovalRuntime.rt_store (runtime "agent")) "req" = Some r ∧ rq_requiredAuthorityCapability (ar_requirement r) = Some "pay".
Proof. eexists. split; vm_compute; reflexivity. Qed.
Lemma graph_built : ApprovalRuntime.rt_graph (runtime "agent") = AuthoritySafety.Demo.runtime.
Proof. reflexivity. Qed.
Lemma agent_accepted : ∃ res rt', submitted "agent" = (Ok res, rt') ∧ ad_type (sr_decision res) = dt_approved.
Proof.
  assert (match (submitted "agent").1 with Ok res => bool_decide (ad_type (sr_decision res) = dt_approved) | Throw _ => false end = true) as F
    by (vm_compute; reflexivity).
  destruct (submitted "agent") as [[res|e] rt']; [|done]. exists res, rt'. split; [done|]. by apply bool_decide_eq_true in F.
Qed.

#[local] Opaque ApprovalRuntime.run_ops AuthorityRuntime.run_ops submitApprovalDecision.

Lemma approval_requires_authority_witness : ∃ q now gs ds, cr_actorId q = "agent" ∧ cr_action q = "pay" ∧
  contained (AuthorityRuntime.rt_store (ApprovalRuntime.rt_graph (runtime "agent"))) q now gs ds.
Proof.
  destruct request_stored as (r&Hr&Hcap). destruct agent_accepted as (res&rt'&Hsub&Ht).
  assert (getGrant (AuthorityRuntime.rt_store (ApprovalRuntime.rt_graph (runtime "agent"))) "" = None) as Hempty
    by (rewrite graph_built; exact AuthoritySafety.Demo.no_empty_id).
  destruct (approval_requires_authority ApprovalSafety.Demo.ctx AuthoritySafety.Demo.ctx options (runtime "agent")
    AuthoritySafety.Demo.history (ApprovalSafety.Demo.by_ "req" "agent") res rt' r "pay" eq_refl
    graph_built Hempty Hr Hcap Hsub Ht) as (q&now&gs&ds&Ha&Hb&_&_&_&Hc).
  exists q, now, gs, ds. auto.
Defined.

End Composed.
