(* ===== verification/RailAmounts.v ===== *)
(** * Amounts at the payment rails

    Model of the exact conversions between canonical decimal text and what the
    rails carry: integer cents (payment-runtime/rails/stripe/stripe-amount.ts),
    integer millisatoshis and BOLT11 amounts (rails/lightning/lightning-amount.ts),
    issued-currency values (rails/xrpl/xrpl-amount.ts), and the JSON number
    lexemes of a wire amount (canonicalDecimalFromJsonNumberLexeme of
    monetary-runtime/domain/canonical-decimal.ts). [BigInt] is [Z]; a value that
    is not of the type a function asks for is refused by the source and is not a
    value here. *)

From Stdlib Require Import QArith.
From S2P Require Import Prelude Decimal.

Local Open Scope Z_scope.
Local Open Scope frontera_scope.

(** ** Text operations *)

(** [decimal.slice(0, point)] and [decimal.slice(point + 1)], the whole text and
    the empty one without a point. *)
Definition integer_of (l : list ascii) : list ascii := match index_of_point l with None => l | Some p => take p l end.
Definition fraction_of (l : list ascii) : list ascii := match index_of_point l with None => [] | Some p => drop (S p) l end.

(** [text.padEnd(n, '0')], [text.replace(/^0+/, '')], [text.replace(/0+$/, '')]
    and [text.replace(/^0+(?=[0-9])/, '')] on digits. *)
Definition pad_end (n : nat) (l : list ascii) : list ascii := l ++ replicate (n - length l) ZERO.
Fixpoint trim_start (l : list ascii) : list ascii :=
  match l with c :: r => if bool_decide (c = ZERO) then trim_start r else l | [] => [] end.
Definition trim_end (l : list ascii) : list ascii := reverse (trim_start (reverse l)).
Fixpoint trim_leading (l : list ascii) : list ascii :=
  match l with c :: ((_ :: _) as r) => if bool_decide (c = ZERO) then trim_leading r else l | _ => l end.

(** ** Cents *)

Definition STRIPE_USD_SCALE : nat := 2.
Definition CENTS_PER_USD : Z := 100.
Definition STRIPE_MAXIMUM_AMOUNT_CENTS : Z := 99999999.

(** [/^(?:0|[1-9][0-9]{0,15})(?:\.[0-9]*[1-9])?$/], of both rails. *)
Definition rail_decimal (l : list ascii) : bool := canonical_grammar l && (length (integer_of l) <=? 16)%nat.

Definition centsOfUsdDecimal (decimal : string) : option Z :=
  let l := chars decimal in
  if negb (rail_decimal l) then None
  else if (STRIPE_USD_SCALE <? length (fraction_of l))%nat then None
  else
    let cents := digits_value (integer_of l) * CENTS_PER_USD + digits_value (pad_end STRIPE_USD_SCALE (fraction_of l)) in
    if (0 <? cents) && (cents <=? STRIPE_MAXIMUM_AMOUNT_CENTS) then Some cents else None.

Definition usdDecimalOfCents (cents : Z) : option string :=
  if (cents <=? 0) || (STRIPE_MAXIMUM_AMOUNT_CENTS <? cents) then None
  else
    let whole := Z.quot cents CENTS_PER_USD in
    let fraction := trim_end (pad_start STRIPE_USD_SCALE (bigint_to_string (Z.rem cents CENTS_PER_USD))) in
    Some (text (match fraction with [] => bigint_to_string whole | _ => bigint_to_string whole ++ POINT :: fraction end)).

(** [/^(?:0|[1-9][0-9]{0,17})$/] *)
Definition centsOfDecimalText (value : string) : option Z :=
  if integer_part_ok (chars value) && (length (chars value) <=? 18)%nat then Some (digits_value (chars value)) else None.

(** ** Millisatoshis *)

Definition MSAT_PER_BTC : Z := 100000000000.
Definition LIGHTNING_BTC_MAXIMUM_SCALE : nat := 11.
Definition LIGHTNING_MAXIMUM_MSAT : Z := 21000000 * MSAT_PER_BTC.

Definition msatOfBtcDecimal (decimal : string) : option Z :=
  let l := chars decimal in
  if negb (rail_decimal l) then None
  else if (LIGHTNING_BTC_MAXIMUM_SCALE <? length (fraction_of l))%nat then None
  else
    let msat := digits_value (integer_of l) * MSAT_PER_BTC + digits_value (pad_end LIGHTNING_BTC_MAXIMUM_SCALE (fraction_of l)) in
    if (0 <? msat) && (msat <=? LIGHTNING_MAXIMUM_MSAT) then Some msat else None.

Definition btcDecimalOfMsat (msat : Z) : option string :=
  if (msat <=? 0) || (LIGHTNING_MAXIMUM_MSAT <? msat) then None
  else
    let whole := Z.quot msat MSAT_PER_BTC in
    let fraction := trim_end (pad_start LIGHTNING_BTC_MAXIMUM_SCALE (bigint_to_string (Z.rem msat MSAT_PER_BTC))) in
    Some (text (match fraction with [] => bigint_to_string whole | _ => bigint_to_string whole ++ POINT :: fraction end)).

Definition msatOfDecimalText (value : string) : option Z :=
  if integer_part_ok (chars value) && (length (chars value) <=? 19)%nat then
    let msat := digits_value (chars value) in if msat <=? LIGHTNING_MAXIMUM_MSAT then Some msat else None
  else None.

(** A BOLT11 amount: [/^([1-9][0-9]{0,19})([munp]?)$/] and its unit. *)
Inductive Bolt11Multiplier := bitcoin | milli | micro | nano | pico.
Definition MULTIPLIER_MSAT (m : Bolt11Multiplier) : Z :=
  match m with bitcoin => MSAT_PER_BTC | milli => 100000000 | micro => 100000 | nano => 100 | pico => 0 end.
Definition multiplier_of (c : ascii) : option Bolt11Multiplier :=
  if bool_decide (c = "m"%char) then Some milli else if bool_decide (c = "u"%char) then Some micro
  else if bool_decide (c = "n"%char) then Some nano else if bool_decide (c = "p"%char) then Some pico else None.
Definition bolt11_digits (l : list ascii) : bool :=
  match l with c :: r => is_nonzero_digit c && forallb is_digit r && (length r <=? 19)%nat | [] => false end.
Definition bolt11_split (l : list ascii) : list ascii * Bolt11Multiplier :=
  match last l ≫= multiplier_of with Some m => (take (length l - 1) l, m) | None => (l, bitcoin) end.
Definition msatOfBolt11Amount (value : string) : option Z :=
  let '(digits, multiplier) := bolt11_split (chars value) in
  if negb (bolt11_digits digits) then None
  else
    let finish msat := if (0 <? msat) && (msat <=? LIGHTNING_MAXIMUM_MSAT) then Some msat else None in
    match multiplier with
    | pico => if negb (bool_decide (last digits = Some ZERO)) then None else finish (Z.quot (digits_value digits) 10)
    | m => finish (digits_value digits * MULTIPLIER_MSAT m)
    end.

(** ** Issued values *)

Definition significantDigits : nat := 15.
Definition mantissaDigits : Z := 16.
Definition minimumExponent : Z := -96.
Definition maximumExponent : Z := 80.

Definition xrplIssuedValueOf (decimal : string) : option string :=
  let l := chars decimal in
  if negb (canonical_grammar l) then None
  else
    let digits := trim_start (integer_of l ++ fraction_of l) in
    if (length digits =? 0)%nat then None
    else
      let significant := trim_end digits in
      let trailingZeros := Z.of_nat (length digits) - Z.of_nat (length significant) in
      if (significantDigits <? length significant)%nat then None
      else
        let exponent := trailingZeros - Z.of_nat (length (fraction_of l)) - (mantissaDigits - Z.of_nat (length significant)) in
        if (exponent <? minimumExponent) || (maximumExponent <? exponent) then None else Some decimal.

(** ** Number lexemes *)

(** [[eE]([+-]?[0-9]{1,k})]: where the exponent starts, and its value. *)
Definition is_e (c : ascii) : bool := bool_decide (c = "e"%char) || bool_decide (c = "E"%char).
Fixpoint before_e (l : list ascii) : list ascii * option (list ascii) :=
  match l with
  | [] => ([], None)
  | c :: r => if is_e c then ([], Some r) else let '(a, b) := before_e r in (c :: a, b)
  end.
Definition exponent_of (k : nat) (l : list ascii) : option Z :=
  let '(sign, digits) := match l with
    | c :: r => if bool_decide (c = "-"%char) then (-1, r) else if bool_decide (c = "+"%char) then (1, r) else (1, l)
    | [] => (1, [])
    end in
  if (1 <=? length digits)%nat && (length digits <=? k)%nat && forallb is_digit digits then Some (sign * digits_value digits) else None.

Record NumberLexeme := { nl_negative : bool; nl_integer : list ascii; nl_fraction : list ascii; nl_exponent : Z }.

(** [^(-?)<integer>(?:\.([0-9]+))?(?:[eE]([+-]?[0-9]{1,k}))?$] *)
Definition match_number (integer_ok : list ascii → bool) (k : nat) (l : list ascii) : option NumberLexeme :=
  let '(negative, l) := match l with c :: r => if bool_decide (c = "-"%char) then (true, r) else (false, l) | [] => (false, l) end in
  let '(mantissa, e) := before_e l in
  let fraction_ok := match index_of_point mantissa with None => true | Some _ => plain_fraction_ok (fraction_of mantissa) end in
  if integer_ok (integer_of mantissa) && fraction_ok then
    exponent ← match e with None => Some 0 | Some t => exponent_of k t end;
    Some {| nl_negative := negative; nl_integer := integer_of mantissa; nl_fraction := fraction_of mantissa; nl_exponent := exponent |}
  else None.

(** [JSON_NUMBER_LEXEME] *)
Definition JSON_NUMBER_LEXEME : list ascii → option NumberLexeme := match_number integer_part_ok 4.
(** [LEDGER_VALUE]: the integer is one digit or more. *)
Definition LEDGER_VALUE : list ascii → option NumberLexeme := match_number plain_fraction_ok 3.

(** The decimal point moved into the digits. *)
Definition place_point (digits : list ascii) (point : Z) : list ascii :=
  if point <=? 0 then ZERO :: POINT :: replicate (Z.to_nat (- point)) ZERO ++ digits
  else if Z.of_nat (length digits) <=? point then digits ++ replicate (Z.to_nat (point - Z.of_nat (length digits))) ZERO
  else take (Z.to_nat point) digits ++ POINT :: drop (Z.to_nat point) digits.

Definition plain_of_lexeme (digits : list ascii) (point : Z) : list ascii :=
  let plain := place_point digits point in
  match index_of_point plain with
  | None => trim_leading plain
  | Some p => trim_leading (take p plain) ++ POINT :: drop (S p) plain
  end.

Definition canonicalDecimalFromJsonNumberLexeme (lexeme : string) : option string :=
  let l := chars lexeme in
  if (Z.of_nat (length l) =? 0) || (MONETARY_DECIMAL_MAXIMUM_TEXT_LENGTH <? Z.of_nat (length l)) then None
  else
    m ← JSON_NUMBER_LEXEME l;
    let digits := nl_integer m ++ nl_fraction m in
    let point := Z.of_nat (length (nl_integer m)) + nl_exponent m in
    if (MONETARY_DECIMAL_MAXIMUM_TEXT_LENGTH <? point) || (point <? - MONETARY_DECIMAL_MAXIMUM_TEXT_LENGTH) then None
    else
      canonical ← canonicalizeDecimalText (text (plain_of_lexeme digits point));
      if nl_negative m then if str_eqb canonical "0" then Some "0" else None else Some canonical.

Definition canonicalDecimalOfLedgerValue (value : string) : option string :=
  let l := chars value in
  if (64 <? length l)%nat then None
  else
    m ← LEDGER_VALUE l;
    if nl_negative m then None
    else
      let shift := nl_exponent m - Z.of_nat (length (nl_fraction m)) in
      let digits := trim_start (nl_integer m ++ nl_fraction m) in
      if (length digits =? 0)%nat then Some "0"
      else if 0 <=? shift then Some (text (digits ++ replicate (Z.to_nat shift) ZERO))
      else
        let places := Z.to_nat (- shift) in
        let digits := if (length digits <=? places)%nat then replicate (places - length digits + 1) ZERO ++ digits else digits in
        let whole := trim_leading (take (length digits - places) digits) in
        let part := trim_end (drop (length digits - places) digits) in
        Some (text (match part with [] => whole | _ => whole ++ POINT :: part end)).

Example cents_ex : centsOfUsdDecimal "75.1" = Some 7510 ∧ usdDecimalOfCents 7510 = Some "75.1" ∧ centsOfUsdDecimal "0.001" = None.
Proof. repeat split; reflexivity. Qed.
Example lexeme_ex : canonicalDecimalFromJsonNumberLexeme "1.5e3" = Some "1500" ∧ canonicalDecimalFromJsonNumberLexeme "-0.0" = Some "0"
  ∧ canonicalDecimalFromJsonNumberLexeme "9007199254740993.010" = Some "9007199254740993.01" ∧ canonicalDecimalFromJsonNumberLexeme "12e-4" = Some "0.0012".
Proof. repeat split; reflexivity. Qed.
Example ledger_ex : canonicalDecimalOfLedgerValue "1e-15" = Some "0.000000000000001" ∧ canonicalDecimalOfLedgerValue "125e1" = Some "1250"
  ∧ canonicalDecimalOfLedgerValue "0012.50" = Some "12.5" ∧ xrplIssuedValueOf "1250.5" = Some "1250.5" ∧ xrplIssuedValueOf "1.234567890123456" = None.
Proof. repeat split; reflexivity. Qed.
Example bolt11_ex : msatOfBolt11Amount "2500u" = Some 250000000 ∧ msatOfBolt11Amount "9678785340p" = Some 967878534 ∧ msatOfBolt11Amount "1" = Some 100000000000
  ∧ msatOfBolt11Amount "15p" = None.
Proof. repeat split; reflexivity. Qed.

(** ** Trimming and padding *)

Lemma trim_start_spec l : ∃ n, l = replicate n ZERO ++ trim_start l ∧ head (trim_start l) ≠ Some ZERO.
Proof.
  induction l as [|c l (n&E&Hh)]; [by exists O|]. cbn. case_bool_decide as Ec; [|by exists O; split; [done|cbn; congruence]].
  exists (S n). subst c. cbn. by rewrite <-E.
Qed.
Lemma trim_end_spec l : ∃ n, l = trim_end l ++ replicate n ZERO ∧ last (trim_end l) ≠ Some ZERO.
Proof.
  unfold trim_end. destruct (trim_start_spec (reverse l)) as (n&E&Hh). exists n. split; [|by rewrite last_reverse].
  rewrite <-(reverse_involutive l) at 1. rewrite E at 1. by rewrite reverse_app, reverse_replicate.
Qed.
Lemma trim_leading_spec l : ∃ n, l = replicate n ZERO ++ trim_leading l ∧ (trim_leading l = [] → l = []) ∧
  (head (trim_leading l) = Some ZERO → trim_leading l = [ZERO]).
Proof.
  induction l as [|c [|c' l] IH]; [by exists O|by exists O; split; [done|]; split; [done|]; intros [= ->]|]. cbn [trim_leading].
  case_bool_decide as Ec; [|by exists O; split; [done|]; split; [done|]; intros [= ?]].
  destruct IH as (n&E&Hn&Hh). exists (S n). subst c. cbn [replicate app]. split; [by f_equal|]. split; [|done]. intros Hl. by apply Hn in Hl.
Qed.

Lemma all_digits_app l k : all_digits (l ++ k) ↔ all_digits l ∧ all_digits k.
Proof. apply Forall_app. Qed.
Lemma trim_start_digits l : all_digits l → all_digits (trim_start l).
Proof. destruct (trim_start_spec l) as (n&E&_). rewrite E at 1. by intros [_ ?]%all_digits_app. Qed.
Lemma trim_end_digits l : all_digits l → all_digits (trim_end l).
Proof. destruct (trim_end_spec l) as (n&E&_). rewrite E at 1. by intros [? _]%all_digits_app. Qed.
Lemma trim_start_value l : digits_value (trim_start l) = digits_value l.
Proof. destruct (trim_start_spec l) as (n&E&_). rewrite E at 2. by rewrite digits_value_replicate_zero. Qed.
Lemma zeros_value n : digits_value (replicate n ZERO) = 0.
Proof. rewrite <-(app_nil_r (replicate _ _)), digits_value_replicate_zero. done. Qed.
Lemma value_then_zeros l n : digits_value (l ++ replicate n ZERO) = digits_value l * 10 ^ Z.of_nat n.
Proof. rewrite digits_value_app, zeros_value, length_replicate. lia. Qed.

(** An integer part from digits without their leading zeros. *)
Lemma trim_leading_integer l : l ≠ [] → all_digits l → integer_part_ok (trim_leading l) = true ∧ digits_value (trim_leading l) = digits_value l.
Proof.
  intros Hne Hd. destruct (trim_leading_spec l) as (n&E&Hn&Hh). split; [|rewrite E at 2; by rewrite digits_value_replicate_zero].
  rewrite E in Hd. apply all_digits_app in Hd as [_ Hd]. apply integer_part_ok_inv. destruct (trim_leading l) as [|c r]; [by destruct Hne; apply Hn|].
  destruct (decide (c = ZERO)) as [->|Hc]; [left; by apply Hh|]. right. exists c, r. split; [done|]. apply Forall_cons in Hd as [Hc' Hr].
  split; [|done]. apply is_digit_range in Hc'. apply is_nonzero_digit_range. assert (digit_value c ≠ 0); [|lia].
  intros Ez. apply Hc, digit_value_inj. by rewrite Ez.
Qed.

(** A fraction from digits without their trailing zeros. *)
Lemma trim_end_fraction l : all_digits l → fraction_canonical (trim_end l) ∧
  ∃ n, length l = (length (trim_end l) + n)%nat ∧ digits_value l = digits_value (trim_end l) * 10 ^ Z.of_nat n.
Proof.
  intros Hd. destruct (trim_end_spec l) as (n&E&Hl). split.
  - destruct (decide (trim_end l = [])) as [->|Hne]; [by left|]. right. apply canonical_fraction_inv.
    destruct (exists_last Hne) as (g&c&Eg). pose proof (trim_end_digits l Hd) as Ht. rewrite Eg in *. apply all_digits_app in Ht as [Hg Hc].
    exists g, c. split; [done|]. split; [done|]. rewrite last_snoc in Hl. apply Forall_inv, is_digit_range in Hc. apply is_nonzero_digit_range.
    assert (digit_value c ≠ 0); [|lia]. intros Ez. apply Hl. f_equal. apply digit_value_inj. by rewrite Ez.
  - exists n. rewrite E at 1 3. rewrite length_app, length_replicate, value_then_zeros. done.
Qed.

Lemma parts_render i f : all_digits i → all_digits f → integer_of (render i f) = i ∧ fraction_of (render i f) = f.
Proof.
  intros Hi Hf. unfold integer_of, fraction_of. rewrite render_index by done. destruct f as [|c f]; cbn [render]; [done|].
  rewrite take_app_length. split; [done|]. replace (S (length i)) with (length (i ++ [POINT])) by (rewrite length_app; cbn; lia).
  change (i ++ POINT :: c :: f) with (i ++ [POINT] ++ c :: f). by rewrite app_assoc, drop_app_length.
Qed.

Lemma integer_part_short i n : (0 < n)%nat → integer_part_ok i = true → digits_value i < 10 ^ Z.of_nat n → (length i ≤ n)%nat.
Proof.
  intros Hn Hi Hv. destruct (integer_part_length i Hi) as [[-> _]|[Hlow _]]; [cbn; lia|]. destruct (Nat.le_gt_cases (length i) n) as [|L]; [done|].
  assert (10 ^ Z.of_nat n ≤ 10 ^ (Z.of_nat (length i) - 1)) by (apply Z.pow_le_mono_r; lia). lia.
Qed.

(** ** Minor units

    Both rails convert the same way, with their own scale and ceiling. *)

Section MinorUnits.
Context (k : nat) (maximum : Z) (Hk : (0 < k)%nat) (Hmax : 0 < maximum < 10 ^ Z.of_nat (16 + k)).

Definition units_of (s : string) : option Z :=
  let l := chars s in
  if negb (rail_decimal l) then None
  else if (k <? length (fraction_of l))%nat then None
  else
    let u := digits_value (integer_of l) * 10 ^ Z.of_nat k + digits_value (pad_end k (fraction_of l)) in
    if (0 <? u) && (u <=? maximum) then Some u else None.
Definition decimal_of (u : Z) : option string :=
  if (u <=? 0) || (maximum <? u) then None
  else
    let whole := Z.quot u (10 ^ Z.of_nat k) in
    let fraction := trim_end (pad_start k (bigint_to_string (Z.rem u (10 ^ Z.of_nat k)))) in
    Some (text (match fraction with [] => bigint_to_string whole | _ => bigint_to_string whole ++ POINT :: fraction end)).

Lemma scaled_up i f : all_digits i → all_digits f → (length f ≤ k)%nat →
  digits_value i * 10 ^ Z.of_nat k + digits_value (pad_end k f) = digits_value (i ++ f) * 10 ^ Z.of_nat (k - length f).
Proof.
  intros Hi Hf Hl. unfold pad_end. rewrite value_then_zeros, digits_value_app.
  replace k with (length f + (k - length f))%nat at 1 by lia. rewrite Nat2Z.inj_add, Z.pow_add_r by lia. ring.
Qed.

Lemma units_exact s u : units_of s = Some u ↔
  canonical_grammar (chars s) = true ∧ 0 < u ≤ maximum ∧ (dec_value s == u # Z.to_pos (10 ^ Z.of_nat k))%Q.
Proof.
  unfold units_of, rail_decimal. destruct (canonical_grammar (chars s)) eqn:Hg; cbn [negb andb]; [|split; [done|by intros [? _]]].
  pose proof Hg as (i&f&E&Hi&Hf)%canonical_grammar_inv. pose proof (integer_part_digits _ Hi) as Di. pose proof (fraction_digits _ Hf) as Df.
  rewrite E. destruct (parts_render i f Di Df) as [-> ->].
  assert ((dec_value s == u # Z.to_pos (10 ^ Z.of_nat k))%Q ↔ digits_value (i ++ f) * 10 ^ Z.of_nat k = u * 10 ^ Z.of_nat (length f)) as Hv.
  { unfold dec_value. rewrite E, parse_render by done. change (u # Z.to_pos (10 ^ Z.of_nat k))%Q with (exact_value {| coefficient := u; scale := k |}).
    by rewrite exact_value_eq. }
  rewrite Hv. destruct (Nat.ltb_spec k (length f)) as [Lk|Lk].
  { split; [by destruct (negb _)|]. intros (_&_&Ev). exfalso. apply (fraction_canonical_mod i f Hf); [intros ->; cbn in Lk; lia|].
    by apply (scaled_too_fine u _ k (length f)). }
  rewrite (scaled_up i f Di Df Lk).
  assert (digits_value (i ++ f) * 10 ^ Z.of_nat k = u * 10 ^ Z.of_nat (length f) ↔ digits_value (i ++ f) * 10 ^ Z.of_nat (k - length f) = u) as ->.
  { replace k with (length f + (k - length f))%nat at 1 by lia. rewrite Nat2Z.inj_add, Z.pow_add_r by lia. pose proof (pow10_pos (length f)). nia. }
  destruct (Nat.leb_spec (length i) 16) as [L16|L16]; cbn [negb].
  - destruct (Z.ltb_spec 0 (digits_value (i ++ f) * 10 ^ Z.of_nat (k - length f))), (Z.leb_spec (digits_value (i ++ f) * 10 ^ Z.of_nat (k - length f)) maximum); cbn [andb];
      (split; [intros [= <-] || done|intros (_&?&<-); try lia]); auto.
  - split; [done|]. intros (_&Hu&<-). exfalso. destruct (integer_part_length i Hi) as [[-> _]|[Hlow _]]; [cbn in L16; lia|].
    assert (10 ^ 16 ≤ digits_value i) by (etransitivity; [|exact Hlow]; apply Z.pow_le_mono_r; lia).
    rewrite digits_value_app in Hu. pose proof (digits_value_bound f Df) as [Hf0 _].
    assert (10 ^ Z.of_nat (16 + k) ≤ digits_value i * 10 ^ Z.of_nat k) by (rewrite Nat2Z.inj_add, Z.pow_add_r by lia; pose proof (pow10_pos k); nia).
    assert (digits_value i * 10 ^ Z.of_nat k ≤ (digits_value i * 10 ^ Z.of_nat (length f) + digits_value f) * 10 ^ Z.of_nat (k - length f)); [|lia].
    replace k with (length f + (k - length f))%nat at 1 by lia. rewrite Nat2Z.inj_add, Z.pow_add_r by lia. pose proof (pow10_pos (k - length f)). nia.
Qed.

Lemma decimal_of_exact u : 0 < u ≤ maximum → ∃ s, decimal_of u = Some s ∧ canonical_grammar (chars s) = true ∧
  (dec_value s == u # Z.to_pos (10 ^ Z.of_nat k))%Q.
Proof.
  intros Hu. unfold decimal_of. destruct (Z.leb_spec u 0), (Z.ltb_spec maximum u); try lia. cbn [orb]. pose proof (pow10_pos k) as Hp.
  rewrite Z.quot_div_nonneg, Z.rem_mod_nonneg by lia. set (w := u / _). set (r := u mod _). pose proof (Z.mod_pos_bound u _ Hp) as Hr. fold r in Hr.
  assert (0 ≤ w) as Hw by (apply Z.div_pos; lia). assert (u = 10 ^ Z.of_nat k * w + r) as Eu by apply Z_div_mod_eq_full.
  destruct (bigint_to_string_spec w Hw) as [Hi Vi]. destruct (bigint_to_string_spec r ltac:(lia)) as [Hf Vf].
  set (padded := pad_start k (bigint_to_string r)).
  assert (all_digits padded) as Dp by (apply all_digits_app; split; [apply all_digits_replicate|by apply integer_part_digits]).
  assert (digits_value padded = r) as Vp by (unfold padded, pad_start; by rewrite digits_value_replicate_zero).
  destruct (trim_end_fraction padded Dp) as (Hc&n&Hl&Hv). eexists. split; [reflexivity|]. set (f := trim_end padded) in *.
  change (match f with [] => bigint_to_string w | _ => _ end) with (render (bigint_to_string w) f).
  pose proof (integer_part_digits _ Hi) as Di. pose proof (fraction_digits _ Hc) as Df. rewrite chars_text.
  split; [apply canonical_grammar_inv; eexists _, _; by split; [|split]|]. rewrite dec_value_render by done.
  change (u # Z.to_pos (10 ^ Z.of_nat k))%Q with (exact_value {| coefficient := u; scale := k |}).
  change (exact_value {| coefficient := digits_value (bigint_to_string w ++ f); scale := length f |} == exact_value {| coefficient := u; scale := k |})%Q.
  apply exact_value_eq. cbn [coefficient scale]. rewrite digits_value_app, Vi, Eu, <-Vp, Hv.
  assert (length padded = k) as Hlen.
  { unfold padded, pad_start. rewrite length_app, length_replicate. pose proof (integer_part_short _ k Hk Hf ltac:(lia)). lia. }
  rewrite Hlen in Hl. rewrite Hl, Nat2Z.inj_add, Z.pow_add_r by lia. ring.
Qed.

Lemma units_roundtrip : (∀ u, 0 < u ≤ maximum → ∃ s, decimal_of u = Some s ∧ units_of s = Some u) ∧
  (∀ s u, units_of s = Some u → decimal_of u = Some s).
Proof.
  split.
  - intros u Hu. destruct (decimal_of_exact u Hu) as (s&Hs&Hg&Hv). exists s. split; [done|]. by apply units_exact.
  - intros s u (Hg&Hu&Hv)%units_exact. destruct (decimal_of_exact u Hu) as (s'&Hs&Hg'&Hv'). rewrite Hs. f_equal.
    rewrite <-(text_chars s), <-(text_chars s'). f_equal. apply canonical_text_unique_aux; [done..|]. unfold dec_value in *. by rewrite Hv, Hv'.
Qed.
End MinorUnits.

(** ** Decimal scaling *)

(** [n * 10^e]. *)
Definition scaled (n e : Z) : Q := if 0 <=? e then inject_Z (n * 10 ^ e) else (n # Z.to_pos (10 ^ (- e)))%Q.

Lemma pow10_pos_Z e : 0 ≤ e → 0 < 10 ^ e.
Proof. intros. by apply Z.pow_pos_nonneg. Qed.

Lemma scaled_common n e d : 0 ≤ d → 0 ≤ e + d → (scaled n e == n * 10 ^ (e + d) # Z.to_pos (10 ^ d))%Q.
Proof.
  intros Hd He. unfold scaled, Qeq, inject_Z. destruct (Z.leb_spec 0 e); cbn [Qnum Qden]; rewrite !Z2Pos.id by (apply pow10_pos_Z; lia).
  - rewrite Z.pow_add_r by lia. ring.
  - rewrite <-Z.mul_assoc, <-Z.pow_add_r by lia. do 2 f_equal. lia.
Qed.
Lemma scaled_eq n e m d k : 0 ≤ k → 0 ≤ e + k → 0 ≤ d + k → (scaled n e == scaled m d)%Q ↔ n * 10 ^ (e + k) = m * 10 ^ (d + k).
Proof.
  intros Hk He Hd. rewrite (scaled_common n e k), (scaled_common m d k) by done. unfold Qeq. cbn [Qnum Qden].
  rewrite Z2Pos.id by by apply pow10_pos_Z. pose proof (pow10_pos_Z k Hk). nia.
Qed.
Lemma scaled_shift n e j : 0 ≤ j → (scaled (n * 10 ^ j) e == scaled n (e + j))%Q.
Proof.
  intros Hj. apply (scaled_eq _ _ _ _ (Z.abs e)); [lia..|]. rewrite <-Z.mul_assoc, <-Z.pow_add_r by lia. do 2 f_equal. lia.
Qed.
Lemma scaled_0 e : (scaled 0 e == 0)%Q.
Proof. unfold scaled. by destruct (0 <=? e). Qed.

Lemma render_scaled i f : all_digits i → all_digits f → (dec_value (text (render i f)) == scaled (digits_value (i ++ f)) (- Z.of_nat (length f)))%Q.
Proof.
  intros Hi Hf. rewrite dec_value_render by done. rewrite (scaled_common _ _ (Z.of_nat (length f))) by lia.
  replace (- Z.of_nat (length f) + Z.of_nat (length f)) with 0 by lia. by rewrite Z.mul_1_r.
Qed.

(** ** Issued values *)

(** The digits of a positive number without zeros at either end. *)
Lemma significant_spec l (d := trim_start l) (g := trim_end d) : all_digits l → d ≠ [] →
  ∃ n, length d = (length g + n)%nat ∧ digits_value l = digits_value g * 10 ^ Z.of_nat n ∧ digits_value g mod 10 ≠ 0 ∧
    10 ^ (Z.of_nat (length g) - 1) ≤ digits_value g < 10 ^ Z.of_nat (length g) ∧ (0 < length g)%nat.
Proof.
  intros Hd Hne. pose proof (trim_start_digits l Hd) as Dd. fold d in Dd. destruct (trim_start_spec l) as (_&_&Hh). fold d in Hh.
  destruct (trim_end_fraction d Dd) as (Hc&n&Hl&Hv). fold g in Hc, Hl, Hv. exists n. split; [done|].
  assert (digits_value l = digits_value d) as Evd by (symmetry; apply trim_start_value). rewrite Evd.
  assert (integer_part_ok d = true ∧ d ≠ [ZERO]) as [Hi Hz].
  { destruct d as [|c r]; [done|]. cbn in Hh. split; [|intros [= -> _]; done]. apply integer_part_ok_inv. right. exists c, r.
    apply Forall_cons in Dd as [Hc' Hr]. split; [done|]. split; [|done]. apply is_digit_range in Hc'. apply is_nonzero_digit_range.
    assert (digit_value c ≠ 0); [|lia]. intros Ez. apply Hh. f_equal. apply digit_value_inj. by rewrite Ez. }
  destruct (integer_part_length d Hi) as [[? _]|[Hlow Hpos]]; [done|]. rewrite Hv in Hlow, Hpos. pose proof (pow10_pos n) as Hn.
  assert (g ≠ []) as Hg by (intros Eg; rewrite Eg in Hpos; cbn in Hpos; lia).
  assert (0 < length g)%nat by (destruct g; [done|cbn; lia]). pose proof (digits_value_bound g (fraction_digits _ Hc)) as Hb.
  split; [done|]. split; [|split; [split; [|apply Hb]|done]].
  - pose proof (fraction_canonical_mod [] g Hc Hg) as Hm. exact Hm.
  - rewrite Hl in Hlow. replace (Z.of_nat (length g + n) - 1) with (Z.of_nat (length g) - 1 + Z.of_nat n) in Hlow by lia.
    rewrite Z.pow_add_r in Hlow by lia. nia.
Qed.

(** A number with a trailing zero digit in a sixteen-digit mantissa. *)
Definition ledger_value (q : Q) : Prop := ∃ mantissa exponent,
  10 ^ 15 ≤ mantissa < 10 ^ 16 ∧ mantissa mod 10 = 0 ∧ minimumExponent ≤ exponent ≤ maximumExponent ∧ (q == scaled mantissa exponent)%Q.

(** The only mantissa and exponent of a number with [n] significant digits. *)
Lemma mantissa_unique g n x m e : g mod 10 ≠ 0 → 10 ^ (Z.of_nat n - 1) ≤ g < 10 ^ Z.of_nat n → (0 < n)%nat →
  10 ^ 15 ≤ m < 10 ^ 16 → m mod 10 = 0 → (scaled g x == scaled m e)%Q → (n ≤ 15)%nat ∧ e = x - (16 - Z.of_nat n).
Proof.
  intros Hg Hb Hn Hm Hz E. set (j := Z.abs x + Z.abs e). apply (scaled_eq _ _ _ _ j) in E; [|lia..].
  destruct (Z.le_gt_cases x e) as [L|L].
  - exfalso. apply Hg. replace (e + j) with (x + j + (e - x)) in E by lia. rewrite (Z.pow_add_r 10 (x + j)) in E by lia.
    pose proof (pow10_pos_Z (x + j) ltac:(lia)). assert (g = m * 10 ^ (e - x)) as -> by nia.
    rewrite Z.mul_mod, Hz by lia. by rewrite Z.mul_0_l, Z.mod_0_l.
  - replace (x + j) with (e + j + (x - e)) in E by lia. rewrite (Z.pow_add_r 10 (e + j)) in E by lia.
    pose proof (pow10_pos_Z (e + j) ltac:(lia)) as Hp. assert (g * 10 ^ (x - e) = m) as Em by nia. pose proof (pow10_pos_Z (x - e) ltac:(lia)) as Hq.
    assert (Z.of_nat n + (x - e) = 16); [|lia].
    assert (10 ^ (Z.of_nat n - 1 + (x - e)) ≤ m < 10 ^ (Z.of_nat n + (x - e))) as [H1 H2] by (rewrite !Z.pow_add_r by lia; nia).
    assert (Z.of_nat n - 1 + (x - e) < 16) by (apply (Z.pow_lt_mono_r_iff 10); lia).
    assert (15 < Z.of_nat n + (x - e)) by (apply (Z.pow_lt_mono_r_iff 10); lia). lia.
Qed.

Lemma xrpl_exact s r : xrplIssuedValueOf s = Some r ↔ r = s ∧ canonical_grammar (chars s) = true ∧ ledger_value (dec_value s).
Proof.
  unfold xrplIssuedValueOf. destruct (canonical_grammar (chars s)) eqn:Hg; cbn [negb]; [|split; [done|by intros (_&?&_)]].
  pose proof Hg as (i&f&E&Hi&Hf)%canonical_grammar_inv. pose proof (integer_part_digits _ Hi) as Di. pose proof (fraction_digits _ Hf) as Df.
  assert (dec_value s == scaled (digits_value (i ++ f)) (- Z.of_nat (length f)))%Q as Hv by (rewrite <-render_scaled, <-E, text_chars by done; reflexivity).
  rewrite E. destruct (parts_render i f Di Df) as [-> ->]. pose proof (proj2 (all_digits_app i f) (conj Di Df)) as Dif. set (x := - Z.of_nat (length f)) in Hv.
  destruct (Nat.eqb_spec (length (trim_start (i ++ f))) 0) as [Hz|Hnz].
  { split; [done|]. intros (_&_&m&e&Hm&_&_&Eq). exfalso. apply nil_length_inv in Hz. pose proof (trim_start_value (i ++ f)) as Ev.
    rewrite Hz in Ev. cbn in Ev. rewrite Eq, <-Ev, (scaled_eq _ _ _ _ (Z.abs x + Z.abs e)) in Hv by lia. pose proof (pow10_pos_Z (e + (Z.abs x + Z.abs e)) ltac:(lia)). nia. }
  destruct (significant_spec (i ++ f) Dif) as (n&Hl&Hval&Hmod&Hb&Hpos); [by intros Ez; rewrite Ez in Hnz|].
  set (g := trim_end (trim_start (i ++ f))) in *. rewrite Hval, scaled_shift in Hv by lia.
  destruct (Nat.ltb_spec significantDigits (length g)) as [L|L]; unfold significantDigits in L.
  { split; [done|]. intros (_&_&m&e&Hm&Hz&_&Eq). rewrite Eq in Hv. symmetry in Hv. destruct (mantissa_unique _ _ _ _ _ Hmod Hb Hpos Hm Hz Hv). lia. }
  rewrite Hl. replace (Z.of_nat (length g + n) - Z.of_nat (length g)) with (Z.of_nat n) by lia. unfold mantissaDigits.
  assert (dec_value s == scaled (digits_value g * 10 ^ (16 - Z.of_nat (length g))) (Z.of_nat n - Z.of_nat (length f) - (16 - Z.of_nat (length g))))%Q as Hm.
  { rewrite Hv, scaled_shift by lia. apply (scaled_eq _ _ _ _ (Z.abs x)); [lia..|]. do 2 f_equal. lia. }
  destruct (Z.ltb_spec (Z.of_nat n - Z.of_nat (length f) - (16 - Z.of_nat (length g))) minimumExponent) as [L1|L1]; cbn [orb];
    [|destruct (Z.ltb_spec maximumExponent (Z.of_nat n - Z.of_nat (length f) - (16 - Z.of_nat (length g)))) as [L2|L2]].
  1,2: split; [done|]; intros (_&_&m&e&Hm'&Hz&He&Eq); rewrite Eq in Hv; symmetry in Hv; destruct (mantissa_unique _ _ _ _ _ Hmod Hb Hpos Hm' Hz Hv); lia.
  split; [intros [= <-]|by intros (->&_)]. split; [done|]. split; [done|]. eexists _, _. split; [|split; [|split; [|exact Hm]]].
  - assert (10 ^ 16 = 10 ^ Z.of_nat (length g) * 10 ^ (16 - Z.of_nat (length g))) by (rewrite <-Z.pow_add_r by lia; f_equal; lia).
    assert (10 ^ 15 = 10 ^ (Z.of_nat (length g) - 1) * 10 ^ (16 - Z.of_nat (length g))) by (rewrite <-Z.pow_add_r by lia; f_equal; lia).
    pose proof (pow10_pos_Z (16 - Z.of_nat (length g)) ltac:(lia)). nia.
  - replace (16 - Z.of_nat (length g)) with (1 + (15 - Z.of_nat (length g))) by lia. rewrite Z.pow_add_r by lia.
    replace (digits_value g * (10 ^ 1 * 10 ^ (15 - Z.of_nat (length g)))) with (digits_value g * 10 ^ (15 - Z.of_nat (length g)) * 10) by ring. by apply Z.mod_mul.
  - lia.
Qed.

(** ** BOLT11 amounts *)

(** Tenths of a millisatoshi per unit, and the letter of a multiplier. *)
Definition tenths (m : Bolt11Multiplier) : Z := match m with pico => 1 | m => 10 * MULTIPLIER_MSAT m end.
Definition letter (m : Bolt11Multiplier) : list ascii :=
  match m with bitcoin => [] | milli => ["m"%char] | micro => ["u"%char] | nano => ["n"%char] | pico => ["p"%char] end.

Lemma multiplier_letter c m : multiplier_of c = Some m → letter m = [c] ∧ is_digit c = false.
Proof. unfold multiplier_of. repeat case_bool_decide; by intros [= <-]; subst. Qed.
Lemma digit_no_multiplier c : is_digit c = true → multiplier_of c = None.
Proof. intros Hd. destruct (multiplier_of c) as [m|] eqn:E; [|done]. apply multiplier_letter in E as [_ E]. congruence. Qed.
Lemma bolt11_digits_inv l : bolt11_digits l = true → all_digits l ∧ l ≠ [] ∧ 0 < digits_value l.
Proof.
  destruct l as [|c r]; [done|]. cbn [bolt11_digits]. intros ((Hc&Hr)%andb_true_iff&_)%andb_true_iff. apply forallb_all_digits in Hr.
  split; [constructor; [by apply nonzero_is_digit|done]|]. split; [done|]. rewrite digits_value_cons.
  apply is_nonzero_digit_range in Hc. pose proof (digits_value_bound r Hr). pose proof (pow10_pos (length r)). nia.
Qed.

Lemma bolt11_split_spec l d m : bolt11_digits d = true → bolt11_split l = (d, m) ↔ l = d ++ letter m.
Proof.
  intros Hd. destruct (bolt11_digits_inv d Hd) as (Dd&Hne&_). unfold bolt11_split. split.
  - destruct l as [|c l _] using rev_ind; [intros [= <- <-]; by destruct Hne|]. rewrite last_snoc. cbn. destruct (multiplier_of c) as [m'|] eqn:Em.
    + intros [= Ed <-]. apply multiplier_letter in Em as [El _]. rewrite El. f_equal. rewrite <-Ed, length_app. cbn.
      replace (length l + 1 - 1)%nat with (length l) by lia. by rewrite take_app_length.
    + intros [= <- <-]. cbn. by rewrite app_nil_r.
  - intros ->. destruct m; cbn [letter]; try (rewrite last_snoc; cbn; rewrite length_app; cbn; replace (length d + 1 - 1)%nat with (length d) by lia; by rewrite take_app_length).
    rewrite app_nil_r. destruct (exists_last Hne) as (k&c&->). apply all_digits_app in Dd as [_ Dc]. rewrite last_snoc. cbn.
    by rewrite (digit_no_multiplier c (Forall_inv Dc)).
Qed.

Lemma bolt11_exact s v : msatOfBolt11Amount s = Some v ↔ ∃ digits m, chars s = digits ++ letter m ∧ bolt11_digits digits = true ∧
  digits_value digits * tenths m = 10 * v ∧ 0 < v ≤ LIGHTNING_MAXIMUM_MSAT.
Proof.
  unfold msatOfBolt11Amount. destruct (bolt11_split (chars s)) as [d m] eqn:Es. destruct (bolt11_digits d) eqn:Hd; cbn [negb].
  - assert ((∃ digits m', chars s = digits ++ letter m' ∧ bolt11_digits digits = true ∧ digits_value digits * tenths m' = 10 * v ∧ 0 < v ≤ LIGHTNING_MAXIMUM_MSAT) ↔
      digits_value d * tenths m = 10 * v ∧ 0 < v ≤ LIGHTNING_MAXIMUM_MSAT) as ->.
    { split; [|intros [??]; exists d, m; split; [by apply bolt11_split_spec|done]]. intros (d'&m'&Ed&Hd'&Hrest).
      apply (bolt11_split_spec _ _ _ Hd') in Ed. rewrite Es in Ed. by injection Ed as -> ->. }
    assert (∀ x, (if (0 <? x) && (x <=? LIGHTNING_MAXIMUM_MSAT) then Some x else None) = Some v ↔ x = v ∧ 0 < v ≤ LIGHTNING_MAXIMUM_MSAT) as Hfin.
    { intros x. destruct (Z.ltb_spec 0 x), (Z.leb_spec x LIGHTNING_MAXIMUM_MSAT); cbn [andb]; (split; [intros [= <-] || done|intros [<- ?]; lia || done]). lia. }
    destruct m; cbn [tenths]; try (rewrite Hfin; split; intros []; split; try done; lia).
    destruct (bolt11_digits_inv d Hd) as (Dd&Hne&Hp). destruct (exists_last Hne) as (k&c&->). rewrite last_snoc. rewrite digits_value_snoc in *.
    apply all_digits_app in Dd as [Dk Dc]. apply Forall_inv, is_digit_range in Dc. pose proof (digits_value_bound k Dk).
    case_bool_decide as Ec; cbn [negb].
    + injection Ec as ->. rewrite digit_value_zero, Z.add_0_r, Z.mul_comm, Z.quot_mul by lia. rewrite Hfin. split; intros []; split; try done; lia.
    + split; [done|]. intros [Ev _]. exfalso. apply Ec. f_equal. apply digit_value_inj. rewrite digit_value_zero. lia.
  - split; [done|]. intros (d'&m'&Ed&Hd'&_). apply (bolt11_split_spec _ _ _ Hd') in Ed. rewrite Es in Ed. injection Ed as -> ->. congruence.
Qed.

(** ** Number lexemes *)

(** The number a lexeme writes. *)
Definition lexeme_value (m : NumberLexeme) : Q :=
  scaled ((if nl_negative m then -1 else 1) * digits_value (nl_integer m ++ nl_fraction m)) (nl_exponent m - Z.of_nat (length (nl_fraction m))).

Lemma match_number_digits ok k l m : (∀ i, ok i = true → all_digits i ∧ i ≠ []) → match_number ok k l = Some m →
  all_digits (nl_integer m) ∧ nl_integer m ≠ [] ∧ all_digits (nl_fraction m).
Proof.
  intros Hok. unfold match_number. destruct (match l with [] => _ | _ => _ end) as [neg l']. destruct (before_e l') as [t e].
  destruct (ok (integer_of t)) eqn:Hi; cbn [andb]; [|done]. apply Hok in Hi as [Hi Hne].
  destruct (match index_of_point t with Some _ => _ | None => _ end) eqn:Hf; [|done]. destruct (match e with Some _ => _ | None => _ end); cbn; [|done].
  intros [= <-]. cbn. split; [done|]. split; [done|]. unfold fraction_of in *. destruct (index_of_point t); [|constructor].
  apply forallb_all_digits. by destruct (drop _ t).
Qed.
Lemma json_integer_ok i : integer_part_ok i = true → all_digits i ∧ i ≠ [].
Proof. intros Hi. split; [by apply integer_part_digits|by intros ->]. Qed.
Lemma ledger_integer_ok i : plain_fraction_ok i = true → all_digits i ∧ i ≠ [].
Proof. destruct i as [|c i]; [done|]. intros Hi. split; [by apply forallb_all_digits|done]. Qed.

Lemma before_e_digits l : Forall (λ c, is_e c = false) l → before_e l = (l, None).
Proof. induction 1 as [|c l Hc _ IH]; cbn; [done|]. by rewrite Hc, IH. Qed.
Lemma digit_not_e c : is_digit c = true → is_e c = false ∧ c ≠ "-"%char.
Proof. intros Hd. split; [unfold is_e; repeat case_bool_decide; by subst|by intros ->]. Qed.

(** A plain text is its own lexeme. *)
Lemma match_number_render ok k i f : ok i = true → i ≠ [] → all_digits i → all_digits f →
  match_number ok k (render i f) = Some {| nl_negative := false; nl_integer := i; nl_fraction := f; nl_exponent := 0 |}.
Proof.
  intros Hok Hne Hi Hf. unfold match_number.
  assert (match render i f with c :: r => if bool_decide (c = "-"%char) then (true, r) else (false, render i f) | [] => (false, render i f) end = (false, render i f)) as ->.
  { destruct i as [|c i]; [done|]. apply Forall_cons in Hi as [Hc _]. assert (render (c :: i) f = c :: render i f) as -> by by destruct f.
    by rewrite bool_decide_eq_false_2 by apply (digit_not_e c Hc). }
  rewrite before_e_digits.
  - destruct (parts_render i f Hi Hf) as [-> ->]. rewrite Hok, render_index by done. destruct f as [|c f]; [done|].
    unfold plain_fraction_ok. by rewrite (proj2 (forallb_all_digits (c :: f)) Hf).
  - assert (∀ l, all_digits l → Forall (λ c, is_e c = false) l) as Hall by (intros l Hl; eapply Forall_impl; [exact Hl|]; intros c Hc; by apply digit_not_e).
    destruct f as [|c f]; [by apply Hall|]. cbn [render]. apply Forall_app. split; [by apply Hall|]. constructor; [done|by apply Hall].
Qed.

Lemma place_point_spec d p : all_digits d → d ≠ [] → ∃ i f, place_point d p = render i f ∧ all_digits i ∧ i ≠ [] ∧ all_digits f ∧
  (scaled (digits_value (i ++ f)) (- Z.of_nat (length f)) == scaled (digits_value d) (p - Z.of_nat (length d)))%Q.
Proof.
  intros Hd Hne. unfold place_point. destruct (Z.leb_spec p 0) as [L|L]; [|destruct (Z.leb_spec (Z.of_nat (length d)) p) as [L'|L']].
  - exists [ZERO], (replicate (Z.to_nat (- p)) ZERO ++ d). assert (replicate (Z.to_nat (- p)) ZERO ++ d ≠ []) by (intros [_ ?]%app_eq_nil; done).
    split; [unfold render; by destruct (_ ++ d)|]. split; [by repeat constructor|]. split; [done|].
    split; [apply all_digits_app; split; [apply all_digits_replicate|done]|]. cbn [app].
    rewrite digits_value_cons, digit_value_zero, digits_value_replicate_zero, length_app, length_replicate, Z.mul_0_l, Z.add_0_l.
    apply (scaled_eq _ _ _ _ (Z.of_nat (length d) - p)); [lia..|]. do 2 f_equal. lia.
  - exists (d ++ replicate (Z.to_nat (p - Z.of_nat (length d))) ZERO), []. split; [done|].
    split; [apply all_digits_app; split; [done|apply all_digits_replicate]|]. split; [intros [? _]%app_eq_nil; done|]. split; [constructor|].
    rewrite app_nil_r, value_then_zeros, Z2Nat.id by lia. cbn [length]. rewrite scaled_shift by lia.
    apply (scaled_eq _ _ _ _ 0); [lia..|]. do 2 f_equal.
  - exists (take (Z.to_nat p) d), (drop (Z.to_nat p) d). assert (length (drop (Z.to_nat p) d) = (length d - Z.to_nat p)%nat) as Hl by apply length_drop.
    split; [unfold render; destruct (drop _ d); [cbn in Hl; lia|done]|]. rewrite <-(take_drop (Z.to_nat p) d) in Hd. apply all_digits_app in Hd as [Ht Hdr].
    split; [done|]. split; [intros Et; apply (f_equal length) in Et; rewrite length_take in Et; cbn in Et; destruct d; [done|cbn in *; lia]|].
    split; [done|]. rewrite take_drop, Hl. apply (scaled_eq _ _ _ _ (Z.of_nat (length d))); [lia..|]. do 2 f_equal. lia.
Qed.

Lemma plain_of_lexeme_spec d p : all_digits d → d ≠ [] → plain_grammar (plain_of_lexeme d p) = true ∧ plain_of_lexeme d p ≠ [] ∧
  (dec_value (text (plain_of_lexeme d p)) == scaled (digits_value d) (p - Z.of_nat (length d)))%Q.
Proof.
  intros Hd Hne. destruct (place_point_spec d p Hd Hne) as (i&f&E&Hi&Hni&Hf&Hv). destruct (trim_leading_integer i Hni Hi) as [Ht Vt].
  assert (plain_of_lexeme d p = render (trim_leading i) f) as Ep.
  { unfold plain_of_lexeme. rewrite E, render_index by done. destruct (parts_render i f Hi Hf) as [Hp Hq]. unfold integer_of, fraction_of in Hp, Hq.
    rewrite render_index in Hp, Hq by done. destruct f; [done|]. by rewrite Hp, Hq. }
  pose proof (integer_part_digits _ Ht) as Dt. rewrite Ep. split; [apply plain_grammar_inv; by exists (trim_leading i), f|].
  split; [destruct f; cbn; [by intros Ez; rewrite Ez in Ht|by intros [_ ?]%app_eq_nil]|].
  rewrite render_scaled, <-Hv by done. by rewrite !digits_value_app, Vt.
Qed.

Lemma scaled_opp n e : (scaled (- n) e == - scaled n e)%Q.
Proof. unfold scaled, Qeq. destruct (0 <=? e); cbn; lia. Qed.
Lemma zero_text r : canonical_grammar (chars r) = true → (dec_value r == 0)%Q → r = "0".
Proof.
  intros Hg Hv. rewrite <-(text_chars r). change "0" with (text [ZERO]). f_equal. by apply canonical_text_unique_aux; [|done|rewrite <-Hv].
Qed.

(** The sign is read after the magnitude: a negative lexeme has a canonical form
    only when it is zero. *)
Lemma signed_canonical (negative : bool) t d e r : 0 ≤ d → (dec_value t == scaled d e)%Q →
  (canonical ← canonicalizeDecimalText t; if negative then if str_eqb canonical "0" then Some "0" else None else Some canonical) = Some r ↔
  0 < Z.of_nat (length (chars t)) ≤ MONETARY_DECIMAL_MAXIMUM_TEXT_LENGTH ∧ plain_grammar (chars t) = true ∧
  isCanonicalDecimal r MONETARY_DECIMAL_MAXIMUM_DIGITS = true ∧ (dec_value r == scaled ((if negative then -1 else 1) * d) e)%Q.
Proof.
  intros Hd Ht. destruct negative.
  - assert ((canonical ← canonicalizeDecimalText t; if str_eqb canonical "0" then Some "0" else None) = Some r ↔
      r = "0" ∧ canonicalizeDecimalText t = Some r) as ->.
    { destruct (canonicalizeDecimalText t) as [c|]; cbn; [|naive_solver]. destruct (str_eqb c "0") eqn:Ec; [apply str_eqb_eq in Ec; subst c; naive_solver|].
      split; [done|]. intros [-> [= ->]]. by rewrite str_eqb_refl in Ec. }
    rewrite canonicalizeDecimalText_inv, Ht. split.
    + intros (->&Hl&Hg&Hc&Hv). do 3 (split; [done|]). rewrite Hv. replace (-1 * d) with (- d) by lia. rewrite scaled_opp, <-Hv. reflexivity.
    + intros (Hl&Hg&Hc&Hv). replace (-1 * d) with (- d) in Hv by lia. rewrite scaled_opp, <-Ht in Hv.
      assert (0 <= dec_value r)%Q as Hr by (apply dec_value_nonneg; by apply isCanonicalDecimal_grammar in Hc).
      assert (0 <= scaled d e)%Q as Hs by (unfold scaled, Qle; destruct (Z.leb_spec 0 e); cbn; [pose proof (pow10_pos_Z e ltac:(lia)); nia|lia]).
      rewrite <-Ht in Hs. assert (dec_value t == 0)%Q as Hz by (apply Qle_antisym; [|done]; rewrite Hv in Hr; by apply Qopp_le_compat in Hr; rewrite Qopp_involutive in Hr).
      rewrite Hz in Hv. rewrite <-Ht, Hz. split; [|by do 3 (split; [done|])]. apply zero_text; [by apply isCanonicalDecimal_grammar in Hc|done].
  - rewrite Z.mul_1_l, <-Ht. assert ((canonical ← canonicalizeDecimalText t; Some canonical) = canonicalizeDecimalText t) as -> by by destruct (canonicalizeDecimalText t).
    apply canonicalizeDecimalText_inv.
Qed.

(** What a JSON lexeme must be to be read, and the text it expands to. *)
Record json_amount (s : string) (m : NumberLexeme) (point := Z.of_nat (length (nl_integer m)) + nl_exponent m) : Prop := {
  ja_match : JSON_NUMBER_LEXEME (chars s) = Some m;
  ja_length : 0 < Z.of_nat (length (chars s)) ≤ MONETARY_DECIMAL_MAXIMUM_TEXT_LENGTH;
  ja_point : Z.abs point ≤ MONETARY_DECIMAL_MAXIMUM_TEXT_LENGTH;
  ja_plain : Z.of_nat (length (plain_of_lexeme (nl_integer m ++ nl_fraction m) point)) ≤ MONETARY_DECIMAL_MAXIMUM_TEXT_LENGTH;
}.

Lemma json_lexeme_exact s r : canonicalDecimalFromJsonNumberLexeme s = Some r ↔
  ∃ m, json_amount s m ∧ isCanonicalDecimal r MONETARY_DECIMAL_MAXIMUM_DIGITS = true ∧ (dec_value r == lexeme_value m)%Q.
Proof.
  unfold canonicalDecimalFromJsonNumberLexeme. 
  destruct (Z.eqb_spec (Z.of_nat (length (chars s))) 0); cbn [orb]; [split; [done|intros (?&[_ ? _ _]&_); lia]|].
  destruct (Z.ltb_spec MONETARY_DECIMAL_MAXIMUM_TEXT_LENGTH (Z.of_nat (length (chars s)))); [split; [done|intros (?&[_ ? _ _]&_); lia]|].
  destruct (JSON_NUMBER_LEXEME (chars s)) as [m|] eqn:Em; cbn [mbind option_bind]; [|split; [done|intros (?&[? _ _ _]&_); congruence]].
  destruct (match_number_digits _ _ _ _ json_integer_ok Em) as (Hi&Hne&Hf). set (point := Z.of_nat _ + _).
  assert (all_digits (nl_integer m ++ nl_fraction m)) as Dd by by apply all_digits_app.
  destruct (plain_of_lexeme_spec (nl_integer m ++ nl_fraction m) point Dd) as (Hg&Hn&Hv); [by intros [? _]%app_eq_nil|].
  destruct (Z.ltb_spec MONETARY_DECIMAL_MAXIMUM_TEXT_LENGTH point), (Z.ltb_spec point (- MONETARY_DECIMAL_MAXIMUM_TEXT_LENGTH)); cbn [orb];
    try (split; [done|]; intros (m'&[E ? Hp ?]&_); rewrite Em in E; injection E as <-; fold point in Hp; lia).
  set (plain := plain_of_lexeme _ _) in *.
  rewrite (signed_canonical (nl_negative m) (text plain) (digits_value (nl_integer m ++ nl_fraction m)) (nl_exponent m - Z.of_nat (length (nl_fraction m))));
    [|apply digits_value_bound, Dd|].
  - rewrite chars_text. fold (lexeme_value m). split.
    + intros (Hl&_&Hc&Hval). exists m. split; [split; [done|lia|fold point; lia|fold point plain; lia]|done].
    + intros (m'&[E Hl Hp Hpl]&Hc&Hval). rewrite Em in E. injection E as <-. fold point plain in Hpl. split; [destruct plain; [done|cbn in *; lia]|done].
  - rewrite Hv. apply (scaled_eq _ _ _ _ (Z.abs point + Z.abs (nl_exponent m) + Z.of_nat (length (nl_integer m ++ nl_fraction m)))); rewrite ?length_app; try lia.
    do 2 f_equal. unfold point. lia.
Qed.

(** The digits of a ledger value with the point moved by [shift]. *)
Definition ledger_text (digits : list ascii) (shift : Z) : list ascii :=
  if (length digits =? 0)%nat then [ZERO]
  else if 0 <=? shift then digits ++ replicate (Z.to_nat shift) ZERO
  else
    let places := Z.to_nat (- shift) in
    let digits := if (length digits <=? places)%nat then replicate (places - length digits + 1) ZERO ++ digits else digits in
    let whole := trim_leading (take (length digits - places) digits) in
    let part := trim_end (drop (length digits - places) digits) in
    match part with [] => whole | _ => whole ++ POINT :: part end.

(** Digits cut [n] from the right, as a canonical text. *)
Lemma cut_spec d n (i := take (length d - n) d) (f := drop (length d - n) d) : all_digits d → (n < length d)%nat →
  canonical_grammar (render (trim_leading i) (trim_end f)) = true ∧
  (dec_value (text (render (trim_leading i) (trim_end f))) == scaled (digits_value d) (- Z.of_nat n))%Q.
Proof.
  intros Hd Hn. assert (length f = n) as Hl by (unfold f; rewrite length_drop; lia). assert (i ++ f = d) as Eif by apply take_drop.
  rewrite <-Eif in Hd. apply all_digits_app in Hd as [Hi Hf]. assert (i ≠ []) as Hne.
  { intros Ei. apply (f_equal length) in Ei. unfold i in Ei. rewrite length_take in Ei. cbn in Ei. lia. }
  destruct (trim_leading_integer i Hne Hi) as [Ht Vt]. destruct (trim_end_fraction f Hf) as (Hc&z&Hz&Vz).
  pose proof (integer_part_digits _ Ht) as Dt. pose proof (fraction_digits _ Hc) as Dc. split; [apply canonical_grammar_inv; by eexists _, _|].
  rewrite render_scaled by done. rewrite <-Eif, !digits_value_app, Vt, Vz, Hl, <-Hl, Hz.
  replace (digits_value i * 10 ^ Z.of_nat (length (trim_end f) + z) + digits_value (trim_end f) * 10 ^ Z.of_nat z)
    with ((digits_value i * 10 ^ Z.of_nat (length (trim_end f)) + digits_value (trim_end f)) * 10 ^ Z.of_nat z)
    by (rewrite Nat2Z.inj_add, Z.pow_add_r by lia; ring).
  rewrite scaled_shift by lia. apply (scaled_eq _ _ _ _ (Z.of_nat (length (trim_end f) + z))); [lia..|]. do 2 f_equal. lia.
Qed.

Lemma ledger_text_spec l shift (d := trim_start l) : all_digits l → canonical_grammar (ledger_text d shift) = true ∧
  (dec_value (text (ledger_text d shift)) == scaled (digits_value l) shift)%Q.
Proof.
  intros Hl. pose proof (trim_start_digits l Hl) as Hd. fold d in Hd. rewrite <-(trim_start_value l). fold d. unfold ledger_text.
  destruct (Nat.eqb_spec (length d) 0) as [E|E].
  { apply nil_length_inv in E. rewrite E. split; [done|]. change (digits_value []) with 0. by rewrite scaled_0. }
  destruct (Z.leb_spec 0 shift) as [L|L].
  - destruct (trim_start_spec l) as (_&_&Hh). fold d in Hh. assert (d ≠ []) as Hne by (intros Ed; by rewrite Ed in E).
    assert (integer_part_ok (d ++ replicate (Z.to_nat shift) ZERO) = true) as Hi.
    { destruct d as [|c r]; [done|]. cbn in Hh. apply integer_part_ok_inv. right. exists c, (r ++ replicate (Z.to_nat shift) ZERO).
      apply Forall_cons in Hd as [Hc Hr]. split; [done|]. split; [|apply all_digits_app; split; [done|apply all_digits_replicate]].
      apply is_digit_range in Hc. apply is_nonzero_digit_range. assert (digit_value c ≠ 0); [|lia]. intros Ez. apply Hh. f_equal. apply digit_value_inj. by rewrite Ez. }
    pose proof (integer_part_digits _ Hi) as Di. change (d ++ replicate (Z.to_nat shift) ZERO) with (render (d ++ replicate (Z.to_nat shift) ZERO) []).
    split; [apply canonical_grammar_inv; eexists _, []; split; [done|]; split; [done|by left]|].
    rewrite render_scaled by (done || constructor). rewrite app_nil_r, value_then_zeros, Z2Nat.id, scaled_shift by lia. reflexivity.
  - set (places := Z.to_nat (- shift)). set (d' := if (length d <=? places)%nat then _ else d).
    assert (all_digits d' ∧ digits_value d' = digits_value d ∧ (places < length d')%nat) as (Hd'&Hv'&Hp).
    { unfold d'. destruct (Nat.leb_spec (length d) places); [|done]. rewrite digits_value_replicate_zero, length_app, length_replicate.
      split; [apply all_digits_app; split; [apply all_digits_replicate|done]|]. split; [done|lia]. }
    destruct (cut_spec d' places Hd' Hp) as [Hg Hv]. split; [exact Hg|]. etransitivity; [exact Hv|]. rewrite Hv'. unfold places.
    rewrite Z2Nat.id by lia. by rewrite Z.opp_involutive.
Qed.

Lemma ledger_lexeme_exact s r : canonicalDecimalOfLedgerValue s = Some r ↔
  ∃ m, LEDGER_VALUE (chars s) = Some m ∧ (length (chars s) ≤ 64)%nat ∧ nl_negative m = false ∧
    canonical_grammar (chars r) = true ∧ (dec_value r == lexeme_value m)%Q.
Proof.
  unfold canonicalDecimalOfLedgerValue. destruct (Nat.ltb_spec 64 (length (chars s))) as [L|L]; [split; [done|intros (?&_&?&_); lia]|].
  destruct (LEDGER_VALUE (chars s)) as [m|] eqn:Em; cbn [mbind option_bind]; [|split; [done|by intros (?&?&_)]].
  destruct (match_number_digits _ _ _ _ ledger_integer_ok Em) as (Hi&Hne&Hf).
  assert ((∃ m', Some m = Some m' ∧ (length (chars s) ≤ 64)%nat ∧ nl_negative m' = false ∧ canonical_grammar (chars r) = true ∧ (dec_value r == lexeme_value m')%Q) ↔
    nl_negative m = false ∧ canonical_grammar (chars r) = true ∧ (dec_value r == lexeme_value m)%Q) as ->.
  { split; [intros (m'&[= <-]&_&?); done|]. intros ?. by exists m. }
  destruct (nl_negative m) eqn:En; [split; [done|by intros [? _]]|].
  destruct (ledger_text_spec (nl_integer m ++ nl_fraction m) (nl_exponent m - Z.of_nat (length (nl_fraction m)))) as [Hg Hv]; [by apply all_digits_app|].
  assert (lexeme_value m == dec_value (text (ledger_text (trim_start (nl_integer m ++ nl_fraction m)) (nl_exponent m - Z.of_nat (length (nl_fraction m))))))%Q as Hm
    by (rewrite Hv; unfold lexeme_value; rewrite En, Z.mul_1_l; reflexivity).
  set (d := trim_start _) in *. set (shift := _ - _) in *.
  transitivity (text (ledger_text d shift) = r).
  - unfold ledger_text. destruct (_ =? 0)%nat; [naive_solver|]. destruct (0 <=? shift); naive_solver.
  - rewrite Hm. split; [intros <-; by rewrite chars_text|]. intros (_&Hgr&Hvr). rewrite <-(text_chars r). f_equal. apply canonical_text_unique_aux; [done..|].
    unfold dec_value in Hvr. rewrite chars_text in Hvr. by symmetry.
Qed.

(** ** The contract of the rails *)

Lemma stripe_units s c : centsOfUsdDecimal s = Some c ↔ units_of 2 STRIPE_MAXIMUM_AMOUNT_CENTS s = Some c.
Proof. reflexivity. Qed.
Lemma lightning_units s c : msatOfBtcDecimal s = Some c ↔ units_of 11 LIGHTNING_MAXIMUM_MSAT s = Some c.
Proof. reflexivity. Qed.
Lemma stripe_bound : 0 < STRIPE_MAXIMUM_AMOUNT_CENTS < 10 ^ Z.of_nat (16 + 2).
Proof. by vm_compute. Qed.
Lemma lightning_bound : 0 < LIGHTNING_MAXIMUM_MSAT < 10 ^ Z.of_nat (16 + 11).
Proof. by vm_compute. Qed.
Lemma lexeme_of_canonical ok k i f : ok i = true → shape i f →
  ∃ m, match_number ok k (render i f) = Some m ∧ m = {| nl_negative := false; nl_integer := i; nl_fraction := f; nl_exponent := 0 |} ∧
    (lexeme_value m == dec_value (text (render i f)))%Q.
Proof.
  intros Hok [Hi Hf]. destruct (json_integer_ok i Hi) as [Di Hne]. pose proof (fraction_digits _ Hf) as Df.
  eexists. split; [by apply match_number_render|]. split; [done|]. rewrite render_scaled by done. unfold lexeme_value. cbn. by rewrite Z.mul_1_l.
Qed.

Lemma plain_of_canonical i f : i ≠ [] → all_digits i → all_digits f →
  (length (plain_of_lexeme (i ++ f) (Z.of_nat (length i) + 0)) ≤ length (render i f))%nat.
Proof.
  intros Hne Hi Hf. assert (place_point (i ++ f) (Z.of_nat (length i) + 0) = render i f) as E.
  { unfold place_point. rewrite Z.add_0_r, length_app, Nat2Z.id. destruct (Z.leb_spec (Z.of_nat (length i)) 0); [destruct i; [done|cbn in *; lia]|].
    rewrite take_app_length, drop_app_length. destruct (Z.leb_spec (Z.of_nat (length i + length f)) (Z.of_nat (length i))) as [L|L].
    - destruct f; [|cbn in L; lia]. cbn [render length]. rewrite app_nil_r. replace (Z.to_nat _) with O by lia. apply app_nil_r.
    - destruct f; [cbn in L; lia|done]. }
  assert (∀ l, (length (trim_leading l) ≤ length l)%nat) as Ht by (intros l; destruct (trim_leading_spec l) as (n&El&_); rewrite El at 2; rewrite length_app; lia).
  unfold plain_of_lexeme. rewrite E, render_index by done. destruct f as [|c f]; [apply Ht|]. destruct (parts_render i (c :: f) Hi Hf) as [Hp Hq].
  unfold integer_of, fraction_of in Hp, Hq. rewrite render_index in Hp, Hq by done. rewrite Hp, Hq. cbn [render]. rewrite !length_app. specialize (Ht i). lia.
Qed.

(** C40. Conversion to a rail's integer units is exact and bounded. A text is
    converted precisely when it is canonical, denotes a whole number of cents
    (millisatoshis) and that number is positive and within the rail's ceiling;
    the result is that number, never rounded. A BOLT11 amount is read the same
    way from its digits and multiplier. *)
Theorem rail_amounts_exact s u :
  (centsOfUsdDecimal s = Some u ↔ canonical_grammar (chars s) = true ∧ 0 < u ≤ STRIPE_MAXIMUM_AMOUNT_CENTS ∧ (dec_value s == u # 100)%Q) ∧
  (msatOfBtcDecimal s = Some u ↔ canonical_grammar (chars s) = true ∧ 0 < u ≤ LIGHTNING_MAXIMUM_MSAT ∧ (dec_value s == u # 100000000000)%Q) ∧
  (msatOfBolt11Amount s = Some u ↔ ∃ digits m, chars s = digits ++ letter m ∧ bolt11_digits digits = true ∧
    digits_value digits * tenths m = 10 * u ∧ 0 < u ≤ LIGHTNING_MAXIMUM_MSAT).
Proof.
  split; [|split].
  - rewrite stripe_units. apply (units_exact 2); [lia|exact stripe_bound].
  - rewrite lightning_units. apply (units_exact 11); [lia|exact lightning_bound].
  - apply bolt11_exact.
Qed.

(** Units and texts are in bijection: every amount of cents (millisatoshis) a
    rail can carry has a text that converts back to it, and every text that
    converts is the text its amount prints as. *)
Theorem rail_amounts_roundtrip :
  (∀ u, 0 < u ≤ STRIPE_MAXIMUM_AMOUNT_CENTS → ∃ s, usdDecimalOfCents u = Some s ∧ centsOfUsdDecimal s = Some u) ∧
  (∀ s u, centsOfUsdDecimal s = Some u → usdDecimalOfCents u = Some s) ∧
  (∀ u, 0 < u ≤ LIGHTNING_MAXIMUM_MSAT → ∃ s, btcDecimalOfMsat u = Some s ∧ msatOfBtcDecimal s = Some u) ∧
  (∀ s u, msatOfBtcDecimal s = Some u → btcDecimalOfMsat u = Some s).
Proof.
  destruct (units_roundtrip 2 STRIPE_MAXIMUM_AMOUNT_CENTS) as [H1 H2]; [lia|exact stripe_bound|].
  destruct (units_roundtrip 11 LIGHTNING_MAXIMUM_MSAT) as [H3 H4]; [lia|exact lightning_bound|].
  split; [exact H1|]. split; [exact H2|]. split; [exact H3|exact H4].
Qed.

(** A value is handed to the XRP ledger, unchanged, precisely when the ledger
    holds it exactly: it is canonical and equals a sixteen-digit mantissa, whose
    last digit is zero, times ten to an exponent between -96 and 80. *)
Theorem xrplIssuedValueOf_exact s r :
  xrplIssuedValueOf s = Some r ↔ r = s ∧ canonical_grammar (chars s) = true ∧ ledger_value (dec_value s).
Proof. apply xrpl_exact. Qed.

(** Numbers written by others are read exactly. A JSON number lexeme becomes
    the canonical decimal of at most 128 digits with its value, and is refused
    when there is none or when its text or its expansion is too long; a
    non-negative ledger value always becomes the canonical decimal with its
    value. On canonical texts both are the identity. *)
Theorem number_lexemes_exact :
  (∀ s r, canonicalDecimalFromJsonNumberLexeme s = Some r ↔
    ∃ m, json_amount s m ∧ isCanonicalDecimal r MONETARY_DECIMAL_MAXIMUM_DIGITS = true ∧ (dec_value r == lexeme_value m)%Q) ∧
  (∀ s r, canonicalDecimalOfLedgerValue s = Some r ↔
    ∃ m, LEDGER_VALUE (chars s) = Some m ∧ (length (chars s) ≤ 64)%nat ∧ nl_negative m = false ∧
      canonical_grammar (chars r) = true ∧ (dec_value r == lexeme_value m)%Q) ∧
  (∀ s, canonical_grammar (chars s) = true → (length (chars s) ≤ 64)%nat →
    canonicalDecimalOfLedgerValue s = Some s ∧ canonicalDecimalFromJsonNumberLexeme s = Some s).
Proof.
  split; [exact json_lexeme_exact|]. split; [exact ledger_lexeme_exact|]. intros s Hg Hl.
  pose proof Hg as (i&f&E&Hs)%canonical_grammar_inv. pose proof Hs as [Hi Hf]. destruct (json_integer_ok i Hi) as [Di Hne].
  pose proof (fraction_digits _ Hf) as Df. assert (s = text (render i f)) as Es by (by rewrite <-E, text_chars). split.
  - apply ledger_lexeme_exact. destruct (lexeme_of_canonical plain_fraction_ok 3 i f) as (m&Hm&->&Hv); [|done|].
    { unfold plain_fraction_ok. destruct i; [done|]. by apply forallb_all_digits. }
    eexists. split; [by rewrite E|]. split; [done|]. split; [done|]. split; [done|]. rewrite Es at 1. by symmetry.
  - apply json_lexeme_exact. destruct (lexeme_of_canonical integer_part_ok 4 i f Hi Hs) as (m&Hm&->&Hv). eexists. split; [split|].
    + unfold JSON_NUMBER_LEXEME. by rewrite E.
    + split; [|unfold MONETARY_DECIMAL_MAXIMUM_TEXT_LENGTH; lia]. rewrite E. destruct i; [done|]. destruct f; cbn; lia.
    + cbn. rewrite E in Hl. unfold MONETARY_DECIMAL_MAXIMUM_TEXT_LENGTH. assert (length i ≤ length (render i f))%nat by (destruct f; cbn [render]; rewrite ?length_app; lia). lia.
    + cbn [nl_integer nl_fraction nl_exponent]. pose proof (plain_of_canonical i f Hne Di Df). rewrite <-E in *. unfold MONETARY_DECIMAL_MAXIMUM_TEXT_LENGTH. lia.
    + split; [|rewrite Es at 1; by symmetry]. unfold isCanonicalDecimal. rewrite Hg. cbn [andb]. apply Z.leb_le. unfold digitCount, MONETARY_DECIMAL_MAXIMUM_DIGITS.
      destruct (index_of_point _); lia.
Qed.

Lemma rail_amounts_roundtrip_witness : ∃ s, usdDecimalOfCents 7510 = Some s ∧ centsOfUsdDecimal s = Some 7510.
Proof. apply (proj1 rail_amounts_roundtrip). vm_compute. split; [reflexivity|discriminate]. Defined.
Lemma number_lexemes_exact_witness : canonicalDecimalOfLedgerValue "12.5" = Some "12.5" ∧ canonicalDecimalFromJsonNumberLexeme "12.5" = Some "12.5".
Proof. apply (proj2 (proj2 number_lexemes_exact)); vm_compute; [reflexivity|repeat constructor]. Defined.
