(* ===== verification/Bech32.v ===== *)
(** * Bech32

    Model of payment-runtime/rails/lightning/lightning-bech32.ts: the BCH
    checksum over five-bit words, decoding with its refusals, and the regrouping
    of words into bytes and back. Numbers are JavaScript numbers under the 32-bit
    operators, written out as [shl] and [ushr]. Texts are byte strings; a code
    unit above 126 is refused by the source and one above 255 is not a value
    here. *)

From S2P Require Import Prelude Decimal.

Local Open Scope Z_scope.
Local Open Scope frontera_scope.

(** ** 32-bit operators *)

(** [ToInt32], [x << n] and [x >>> n] for [0 <= n < 32]; [&], [|] and [^] are
    [Z.land], [Z.lor] and [Z.lxor] on signed 32-bit values. *)
Definition to_int32 (x : Z) : Z := let m := x mod 2 ^ 32 in if m <? 2 ^ 31 then m else m - 2 ^ 32.
Definition shl (x n : Z) : Z := to_int32 (Z.shiftl x n).
Definition ushr (x n : Z) : Z := Z.shiftr (x mod 2 ^ 32) n.

(** ** The checksum *)

Definition CHARSET : list ascii := chars "qpzry9x8gf2tvdw0s3jn54khce6mua7l".
Definition GENERATORS : list Z := [0x3b6a57b2; 0x26508e6d; 0x1ea119fa; 0x3d4233dd; 0x2a1462b3].
Definition CHECKSUM_WORDS : nat := 6.

(** [WORD_OF[c] ?? -1] *)
Fixpoint index_in (c : ascii) (l : list ascii) (i : Z) : Z :=
  match l with [] => -1 | d :: l => if bool_decide (d = c) then i else index_in c l (i + 1) end.
Definition WORD_OF (c : ascii) : Z := index_in c CHARSET 0.

(** The inner loop: the generator of every bit set in [top]. *)
Fixpoint fold_generators (gens : list Z) (bit top checksum : Z) : Z :=
  match gens with
  | [] => checksum
  | g :: gens => fold_generators gens (bit + 1) top (if Z.land (ushr top bit) 1 =? 1 then Z.lxor checksum g else checksum)
  end.
Definition polymod_step (checksum value : Z) : Z :=
  let top := ushr checksum 25 in
  fold_generators GENERATORS 0 top (Z.lxor (shl (Z.land checksum 0x1ffffff) 5) value).
Definition polymod (values : list Z) : Z := foldl polymod_step 1 values.

Definition expandedPrefix (prefix : list ascii) : list Z :=
  map (λ c, ushr (code c) 5) prefix ++ [0] ++ map (λ c, Z.land (code c) 31) prefix.

(** ** Decoding *)

Record Bech32Decoding := { bd_prefix : list ascii; bd_words : list Z; bd_canonical : list ascii }.

Definition is_lower (c : ascii) : bool := (97 <=? code c) && (code c <=? 122).
Definition is_upper (c : ascii) : bool := (65 <=? code c) && (code c <=? 90).
Definition is_printable (c : ascii) : bool := (33 <=? code c) && (code c <=? 126).
Definition to_lower (c : ascii) : ascii := if is_upper c then ascii_of_N (N_of_ascii c + 32) else c.

(** [canonical.lastIndexOf('1')] and the two parts around it. *)
Definition SEPARATOR : ascii := "1"%char.
Fixpoint split_last (l : list ascii) : option (list ascii * list ascii) :=
  match l with
  | [] => None
  | c :: r =>
      match split_last r with
      | Some (a, b) => Some (c :: a, b)
      | None => if bool_decide (c = SEPARATOR) then Some ([], r) else None
      end
  end.

Fixpoint read_words (l : list ascii) : option (list Z) :=
  match l with
  | [] => Some []
  | c :: l => if WORD_OF c <? 0 then None else ws ← read_words l; Some (WORD_OF c :: ws)
  end.

Definition decodeBech32 (value : string) (maximumLength : Z) : option Bech32Decoding :=
  let l := chars value in
  if (Z.of_nat (length l) <? 8) || (maximumLength <? Z.of_nat (length l)) then None
  else if negb (forallb is_printable l) then None
  else if existsb is_lower l && existsb is_upper l then None
  else
    let canonical := map to_lower l in
    '(prefix, data) ← split_last canonical;
    if (length prefix <? 1)%nat || (length data <? CHECKSUM_WORDS)%nat then None
    else
      words ← read_words data;
      if negb (polymod (expandedPrefix prefix ++ words) =? 1) then None
      else Some {| bd_prefix := prefix; bd_words := take (length words - CHECKSUM_WORDS) words; bd_canonical := canonical |}.

(** ** Regrouping *)

(** The inner [while (bits >= 8)] of a step; at most [bits / 8] rounds. *)
Record Regroup := { rg_accumulator : Z; rg_bits : Z; rg_out : list Z }.
Fixpoint drain (width mask : Z) (fuel : nat) (r : Regroup) : Regroup :=
  match fuel with
  | O => r
  | S fuel =>
      if width <=? rg_bits r then
        let bits := rg_bits r - width in
        drain width mask fuel {| rg_accumulator := rg_accumulator r; rg_bits := bits;
          rg_out := rg_out r ++ [Z.land (ushr (rg_accumulator r) bits) mask] |}
      else r
  end.
Definition start : Regroup := {| rg_accumulator := 0; rg_bits := 0; rg_out := [] |}.

Definition push_word (r : Regroup) (word : Z) : Regroup :=
  drain 8 0xff 2 {| rg_accumulator := Z.land (Z.lor (shl (rg_accumulator r) 5) word) 0xfff; rg_bits := rg_bits r + 5; rg_out := rg_out r |}.
Definition push_byte (r : Regroup) (byte : Z) : Regroup :=
  drain 5 31 3 {| rg_accumulator := Z.land (Z.lor (shl (rg_accumulator r) 8) byte) 0x1fff; rg_bits := rg_bits r + 8; rg_out := rg_out r |}.

Inductive Padding := allowed | forbidden.
#[export] Instance Padding_eq_dec : EqDecision Padding.
Proof. solve_decision. Defined.
Definition wordsToBytes (words : list Z) (padding : Padding) : option (list Z) :=
  if negb (forallb (λ w, (0 <=? w) && (w <=? 31)) words) then None
  else
    let r := foldl push_word start words in
    if (0 <? rg_bits r) && (bool_decide (padding = forbidden) || (5 <=? rg_bits r)) then None
    else if (0 <? rg_bits r) && negb (Z.land (rg_accumulator r) (shl 1 (rg_bits r) - 1) =? 0) then None
    else Some (rg_out r).

Definition wordsToPaddedBytes (words : list Z) : list Z :=
  let r := foldl push_word start (map (λ w, Z.land w 31) words) in
  rg_out r ++ (if 0 <? rg_bits r then [Z.land (shl (rg_accumulator r) (8 - rg_bits r)) 0xff] else []).

Definition bytesToWords (bytes : list Z) : list Z :=
  let r := foldl push_byte start bytes in
  rg_out r ++ (if 0 <? rg_bits r then [Z.land (shl (rg_accumulator r) (5 - rg_bits r)) 31] else []).

Definition wordsToSafeInteger (words : list Z) : option Z :=
  if (10 <? length words)%nat then None
  else let value := foldl (λ v w, v * 32 + w) 0 words in
       if Z.abs value <=? MAX_SAFE_INTEGER then Some value else None.

(** ** Encoding *)

Definition checksum_words (prefix : list ascii) (words : list Z) : list Z :=
  let mod_ := Z.lxor (polymod (expandedPrefix prefix ++ words ++ [0; 0; 0; 0; 0; 0])) 1 in
  map (λ index, Z.land (ushr mod_ (5 * (5 - index))) 31) [0; 1; 2; 3; 4; 5].
Definition char_of (word : Z) : ascii := default "000"%char (CHARSET !! Z.to_nat word).
Definition encodeBech32 (prefix : list ascii) (words : list Z) : string :=
  text (prefix ++ SEPARATOR :: map char_of (words ++ checksum_words prefix words)).

Example encode_ex : encodeBech32 (chars "a") [] = "a12uel5l".
Proof. vm_compute. reflexivity. Qed.
Example decode_ex : decodeBech32 "A12UEL5L" 90 = Some {| bd_prefix := chars "a"; bd_words := []; bd_canonical := chars "a12uel5l" |}
  ∧ decodeBech32 "A12uEL5L" 90 = None ∧ decodeBech32 "a12uel5m" 90 = None.
Proof. repeat split; vm_compute; reflexivity. Qed.
Example bytes_ex : wordsToBytes (bytesToWords [1; 2; 255; 128]) allowed = Some [1; 2; 255; 128].
Proof. vm_compute. reflexivity. Qed.

(** ** Bits *)

Ltac xor_bits := apply Z.bits_inj; intros ?n; repeat (rewrite Z.lxor_spec || rewrite Z.land_spec || rewrite Z.bits_0);
  repeat destruct (Z.testbit _ _); reflexivity.

Lemma lxor_bound n a b : 0 ≤ n → 0 ≤ a < 2 ^ n → 0 ≤ b < 2 ^ n → 0 ≤ Z.lxor a b < 2 ^ n.
Proof.
  intros Hn Ha Hb. assert (Z.lxor a b = Z.land (Z.lxor a b) (Z.ones n)) as ->.
  { apply Z.bits_inj. intros m. rewrite Z.land_spec, Z.lxor_spec. destruct (Z.neg_nonneg_cases m); [by rewrite !Z.testbit_neg_r by done|].
    destruct (Z.lt_ge_cases m n); [by rewrite Z.ones_spec_low, andb_true_r by lia|].
    assert (∀ x, 0 ≤ x < 2 ^ n → Z.testbit x m = false) as Hz.
    { intros x Hx. rewrite <-(Z.mod_small x (2 ^ n)) by done. apply Z.mod_pow2_bits_high. lia. }
    by rewrite (Hz a), (Hz b). }
  rewrite Z.land_ones by done. apply Z.mod_pos_bound. lia.
Qed.

Lemma to_int32_small x : 0 ≤ x < 2 ^ 31 → to_int32 x = x.
Proof. intros Hx. unfold to_int32. rewrite Z.mod_small by lia. destruct (Z.ltb_spec x (2 ^ 31)); lia. Qed.
Lemma shl_small x n : 0 ≤ n → 0 ≤ x → x * 2 ^ n < 2 ^ 31 → shl x n = x * 2 ^ n.
Proof. intros Hn Hx Hb. unfold shl. rewrite Z.shiftl_mul_pow2 by done. apply to_int32_small. pose proof (Z.pow_nonneg 2 n). nia. Qed.
Lemma ushr_small x n : 0 ≤ n → 0 ≤ x < 2 ^ 32 → ushr x n = x / 2 ^ n.
Proof. intros Hn Hx. unfold ushr. rewrite Z.mod_small by done. by apply Z.shiftr_div_pow2. Qed.

(** ** The checksum is linear *)

Fixpoint gen_sum (gens : list Z) (bit top : Z) : Z :=
  match gens with [] => 0 | g :: gens => Z.lxor (if Z.testbit top bit then g else 0) (gen_sum gens (bit + 1) top) end.
(** The state after a zero word. *)
Definition lin (s : Z) : Z := Z.lxor (Z.shiftl (Z.land s (Z.ones 25)) 5) (gen_sum GENERATORS 0 (Z.shiftr s 25)).

Lemma fold_generators_sum gens bit top c : 0 ≤ bit → 0 ≤ top < 2 ^ 32 → fold_generators gens bit top c = Z.lxor c (gen_sum gens bit top).
Proof.
  intros Hb Ht. revert bit c Hb. induction gens as [|g gens IH]; intros bit c Hb; cbn [fold_generators gen_sum]; [by rewrite Z.lxor_0_r|].
  rewrite IH by lia. assert ((Z.land (ushr top bit) 1 =? 1) = Z.testbit top bit) as ->.
  { unfold ushr. rewrite Z.mod_small by done. change 1 with (Z.ones 1) at 1. rewrite Z.land_ones by done. change (2 ^ 1) with 2.
    rewrite <-Z.bit0_mod, Z.shiftr_spec, Z.add_0_l by lia. by destruct (Z.testbit top bit). }
  destruct (Z.testbit top bit); rewrite ?Z.lxor_0_l; [|done]. by rewrite Z.lxor_assoc.
Qed.

Lemma gen_sum_xor gens bit t u : gen_sum gens bit (Z.lxor t u) = Z.lxor (gen_sum gens bit t) (gen_sum gens bit u).
Proof.
  revert bit. induction gens as [|g gens IH]; intros bit; cbn; [done|]. rewrite IH, Z.lxor_spec.
  destruct (Z.testbit t bit), (Z.testbit u bit); cbn [xorb]; xor_bits.
Qed.
Lemma lin_xor a b : lin (Z.lxor a b) = Z.lxor (lin a) (lin b).
Proof.
  unfold lin. rewrite Z.shiftr_lxor, gen_sum_xor.
  assert (Z.land (Z.lxor a b) (Z.ones 25) = Z.lxor (Z.land a (Z.ones 25)) (Z.land b (Z.ones 25))) as -> by xor_bits.
  rewrite Z.shiftl_lxor. xor_bits.
Qed.
Lemma lin_0 : lin 0 = 0.
Proof. reflexivity. Qed.

Definition state (s : Z) : Prop := 0 ≤ s < 2 ^ 30.

Lemma top_gens t : 0 ≤ t < 32 → state (gen_sum GENERATORS 0 t) ∧ (Z.land (gen_sum GENERATORS 0 t) 31 = 0 → t = 0).
Proof.
  intros Ht. assert (∃ n, t = Z.of_nat n ∧ (n < 32)%nat) as (n&->&Hn) by (exists (Z.to_nat t); lia). clear Ht.
  assert (forallb (λ n, let g := gen_sum GENERATORS 0 (Z.of_nat n) in
    (0 <=? g) && (g <? 2 ^ 30) && (negb (Z.land g 31 =? 0) || (n =? 0)%nat)) (seq 0 32) = true) as Hall by (vm_compute; reflexivity).
  rewrite forallb_forall in Hall. specialize (Hall n ltac:(apply in_seq; lia)). cbv zeta in Hall. unfold state. split_and_bool.
  split; [lia|]. intros Hz. rewrite Hz in *. cbn in *. apply Nat.eqb_eq in H0. lia.
Qed.

Lemma lin_state s : state s → state (lin s).
Proof.
  intros Hs. unfold lin. apply lxor_bound; [lia| |].
  - rewrite Z.land_ones, Z.shiftl_mul_pow2 by lia. pose proof (Z.mod_pos_bound s (2 ^ 25)). lia.
  - apply top_gens. rewrite Z.shiftr_div_pow2 by lia. unfold state in Hs. split; [apply Z.div_pos; lia|apply Z.div_lt_upper_bound; lia].
Qed.
Lemma polymod_step_lin s v : state s → polymod_step s v = Z.lxor (lin s) v.
Proof.
  intros Hs. unfold polymod_step, lin. unfold state in Hs. rewrite (ushr_small s 25), <-Z.shiftr_div_pow2 by lia.
  rewrite fold_generators_sum; [|lia|rewrite Z.shiftr_div_pow2 by lia; split; [apply Z.div_pos; lia|apply Z.div_lt_upper_bound; lia]].
  change 0x1ffffff with (Z.ones 25). rewrite Z.land_ones by lia. pose proof (Z.mod_pos_bound s (2 ^ 25)).
  rewrite shl_small, Z.shiftl_mul_pow2 by lia. xor_bits.
Qed.
Lemma polymod_step_state s v : state s → state v → state (polymod_step s v).
Proof. intros Hs Hv. rewrite polymod_step_lin by done. apply lxor_bound; [lia|by apply lin_state|done]. Qed.
Lemma run_state s vs : state s → Forall state vs → state (foldl polymod_step s vs).
Proof. intros Hs Hv. revert s Hs. induction Hv as [|v vs Hv _ IH]; intros s Hs; cbn; [done|]. by apply IH, polymod_step_state. Qed.

Lemma run_xor a b vs ws : state a → state b → Forall state vs → Forall state ws → length vs = length ws →
  foldl polymod_step (Z.lxor a b) (zip_with Z.lxor vs ws) = Z.lxor (foldl polymod_step a vs) (foldl polymod_step b ws).
Proof.
  intros Ha Hb Hv Hw Hl. revert a b ws Ha Hb Hw Hl. induction Hv as [|v vs Hv _ IH]; intros a b [|w ws] Ha Hb Hw Hl; try done.
  apply Forall_cons in Hw as [Hw Hws]. cbn [zip_with foldl]. assert (polymod_step (Z.lxor a b) (Z.lxor v w) = Z.lxor (polymod_step a v) (polymod_step b w)) as ->.
  { rewrite !polymod_step_lin, lin_xor by (done || by apply lxor_bound). xor_bits. }
  apply IH; [by apply polymod_step_state..|done|by injection Hl].
Qed.

(** No state but zero is forgotten. *)
Lemma lin_injective s : state s → lin s = 0 → s = 0.
Proof.
  intros Hs Hz. unfold state in Hs. unfold lin in Hz. assert (0 ≤ Z.shiftr s 25 < 32) as Ht.
  { rewrite Z.shiftr_div_pow2 by lia. split; [apply Z.div_pos; lia|apply Z.div_lt_upper_bound; lia]. }
  destruct (top_gens _ Ht) as [_ Hg]. assert (Z.shiftl (Z.land s (Z.ones 25)) 5 = gen_sum GENERATORS 0 (Z.shiftr s 25)) as E by (by apply Z.lxor_eq).
  rewrite <-E in Hg. change 31 with (Z.ones 5) in Hg. rewrite (Z.land_ones _ 5), Z.shiftl_mul_pow2, Z.mod_mul in Hg by lia. specialize (Hg eq_refl).
  rewrite Hg in E. change (gen_sum GENERATORS 0 0) with 0 in E. rewrite Z.land_ones, Z.shiftl_mul_pow2, Z.shiftr_div_pow2 in * by lia.
  pose proof (Z.div_mod s (2 ^ 25)). lia.
Qed.
Lemma run_zeros_injective s n : state s → foldl polymod_step s (replicate n 0) = 0 → s = 0.
Proof.
  revert s. induction n as [|n IH]; intros s Hs; cbn [replicate foldl]; [done|]. intros E. apply IH in E; [|by apply polymod_step_state].
  rewrite polymod_step_lin, Z.lxor_0_r in E by done. by apply lin_injective.
Qed.
Lemma run_zeros n : foldl polymod_step 0 (replicate n 0) = 0.
Proof. induction n as [|n IH]; [done|]. cbn [replicate foldl]. rewrite polymod_step_lin by done. by rewrite lin_0. Qed.

(** *** Words appended to the state *)

Definition word (w : Z) : Prop := 0 ≤ w < 32.
Lemma word_state w : word w → state w.
Proof. unfold word, state. lia. Qed.
Lemma words_state ws : Forall word ws → Forall state ws.
Proof. intros Hw. eapply Forall_impl; [exact Hw|apply word_state]. Qed.

(** The number written by digits in base [b]. *)
Definition of_digits (b : Z) (l : list Z) : Z := foldl (λ v d, v * b + d) 0 l.

Lemma of_digits_snoc b l d : of_digits b (l ++ [d]) = of_digits b l * b + d.
Proof. unfold of_digits. by rewrite foldl_app. Qed.
Lemma of_digits_bound b l : 0 < b → Forall (λ d, 0 ≤ d < b) l → 0 ≤ of_digits b l < b ^ Z.of_nat (length l).
Proof.
  intros Hb. induction l as [|d l IH] using rev_ind; intros Hl; [cbn; lia|]. apply Forall_app in Hl as [Hl Hd%Forall_inv]. specialize (IH Hl).
  rewrite of_digits_snoc, length_app. cbn [length]. rewrite Nat.add_1_r, Nat2Z.inj_succ, Z.pow_succ_r by lia. nia.
Qed.
Lemma of_digits_inj b l k : 0 < b → Forall (λ d, 0 ≤ d < b) l → Forall (λ d, 0 ≤ d < b) k → length l = length k → of_digits b l = of_digits b k → l = k.
Proof.
  intros Hb. revert k. induction l as [|d l IH] using rev_ind; intros k Hl Hk Hlen E; [by destruct k|].
  destruct k as [|e k _] using rev_ind; [rewrite length_app in Hlen; cbn in Hlen; lia|].
  rewrite !length_app in Hlen. cbn in Hlen. rewrite !of_digits_snoc in E. apply Forall_app in Hl as [Hl Hd%Forall_inv], Hk as [Hk He%Forall_inv].
  assert (∀ v x, 0 ≤ x < b → (v * b + x) / b = v) as Hdiv by (intros v x Hx; rewrite Z.div_add_l, Z.div_small by lia; lia).
  assert (of_digits b l = of_digits b k) as E' by (rewrite <-(Hdiv _ d Hd), <-(Hdiv (of_digits b k) e He); by f_equal).
  rewrite E' in E. assert (d = e) as -> by lia. f_equal. apply IH; [done|done|lia|done].
Qed.

(** Up to six words, fed to the zero state, are read off unchanged. *)
Lemma run_short ws : Forall word ws → (length ws ≤ 6)%nat → foldl polymod_step 0 ws = of_digits 32 ws.
Proof.
  induction ws as [|w ws IH] using rev_ind; intros Hw Hl; [done|]. apply Forall_app in Hw as [Hw Hd%Forall_inv]. rewrite length_app in Hl. cbn in Hl.
  rewrite foldl_app, of_digits_snoc, IH by (done || lia). cbn [foldl]. pose proof (of_digits_bound 32 ws ltac:(lia) Hw) as Hb.
  assert (32 ^ Z.of_nat (length ws) ≤ 32 ^ 5) as Hp by (apply Z.pow_le_mono_r; lia). change (32 ^ 5) with (2 ^ 25) in Hp.
  rewrite polymod_step_lin by (unfold state; lia). unfold lin. rewrite Z.land_ones, Z.mod_small by lia.
  rewrite Z.shiftr_div_pow2, Z.div_small by lia. change (gen_sum GENERATORS 0 0) with 0. rewrite Z.lxor_0_r, Z.shiftl_mul_pow2 by lia.
  change (2 ^ 5) with 32. unfold word in Hd. rewrite <-Z.add_nocarry_lxor; [done|]. apply Z.bits_inj. intros n. rewrite Z.land_spec, Z.bits_0.
  destruct (Z.lt_ge_cases n 5) as [L|L].
  - change 32 with (2 ^ 5). rewrite <-Z.shiftl_mul_pow2 by lia. destruct (Z.neg_nonneg_cases n); [by rewrite !Z.testbit_neg_r by done|]. by rewrite Z.shiftl_spec_low.
  - rewrite <-(Z.mod_small w (2 ^ 5)) by lia. by rewrite Z.mod_pow2_bits_high, andb_false_r by lia.
Qed.

(** The checksum words complete the words before them to residue one. *)
Lemma six_digits m : state m → of_digits 32 (map (λ index, Z.land (ushr m (5 * (5 - index))) 31) [0; 1; 2; 3; 4; 5]) = m ∧
  Forall word (map (λ index, Z.land (ushr m (5 * (5 - index))) 31) [0; 1; 2; 3; 4; 5]).
Proof.
  intros Hm. unfold state in Hm. change 31 with (Z.ones 5).
  assert (∀ k, 0 ≤ k → Z.land (ushr m k) (Z.ones 5) = (m / 2 ^ k) mod 32) as Hk by (intros k ?; by rewrite Z.land_ones, ushr_small by lia).
  cbn [map]. rewrite !Hk by lia. cbn [of_digits foldl]. split; [|repeat constructor; apply Z.mod_pos_bound; lia].
  change (2 ^ (5 * (5 - 0))) with 33554432. change (2 ^ (5 * (5 - 1))) with 1048576. change (2 ^ (5 * (5 - 2))) with 32768.
  change (2 ^ (5 * (5 - 3))) with 1024. change (2 ^ (5 * (5 - 4))) with 32. change (2 ^ (5 * (5 - 5))) with 1.
  change (2 ^ 30) with 1073741824 in Hm. Z.to_euclidean_division_equations. lia.
Qed.

Lemma prefix_state p : Forall state (expandedPrefix p).
Proof.
  assert (∀ c, 0 ≤ code c < 256) as Hc.
  { intros c. unfold code. pose proof (N_ascii_bounded c). lia. }
  unfold expandedPrefix. apply Forall_app. split; [|apply Forall_app; split; [repeat constructor; unfold state; lia|]]; apply Forall_map, Forall_forall; intros c _; specialize (Hc c); unfold state; cbn.
  - rewrite ushr_small by lia. split; [apply Z.div_pos; lia|]. apply Z.div_lt_upper_bound; lia.
  - change 31 with (Z.ones 5). rewrite Z.land_ones by lia. pose proof (Z.mod_pos_bound (code c) (2 ^ 5)). lia.
Qed.

Lemma checksum_completes p ws : Forall word ws → polymod (expandedPrefix p ++ ws ++ checksum_words p ws) = 1 ∧
  Forall word (checksum_words p ws) ∧ length (checksum_words p ws) = 6%nat.
Proof.
  intros Hw. unfold checksum_words. set (m := Z.lxor _ 1). set (s := foldl polymod_step 1 (expandedPrefix p ++ ws)).
  assert (state s) as Hs by (apply run_state; [unfold state; lia|apply Forall_app; split; [apply prefix_state|by apply words_state]]).
  assert (polymod (expandedPrefix p ++ ws ++ [0; 0; 0; 0; 0; 0]) = foldl polymod_step s [0; 0; 0; 0; 0; 0]) as Ez by (unfold polymod, s; by rewrite app_assoc, foldl_app).
  assert (Forall state [0; 0; 0; 0; 0; 0]) as Hz by (repeat constructor; unfold state; lia).
  assert (state m) as Hm by (unfold m; rewrite Ez; apply lxor_bound; [lia|by apply run_state|lia]).
  destruct (six_digits m Hm) as [Ev Hc]. set (c := map _ _) in *. split; [|done].
  unfold polymod. rewrite app_assoc, foldl_app. fold s. rewrite <-(Z.lxor_0_r s).
  assert (c = zip_with Z.lxor [0; 0; 0; 0; 0; 0] c) as -> by reflexivity.
  rewrite run_xor; [|done|unfold state; lia|done|by apply words_state|done].
  rewrite (run_short c Hc) by done. rewrite Ev. unfold m. rewrite Ez. xor_bits.
Qed.

(** ** Characters *)

Lemma index_in_spec c l i : (c ∉ l ∧ index_in c l i = -1) ∨ ∃ n, l !! n = Some c ∧ index_in c l i = i + Z.of_nat n.
Proof.
  revert i. induction l as [|d l IH]; intros i; cbn; [left; split; [apply not_elem_of_nil|done]|]. case_bool_decide as E.
  - right. exists O. subst. split; [done|]. cbn. lia.
  - destruct (IH (i + 1)) as [[Hn ->]|(n&Hn&->)]; [left; split; [rewrite not_elem_of_cons; split; [congruence|done]|done]|].
    right. exists (S n). split; [done|]. lia.
Qed.

(** Facts on the thirty-two characters, checked one by one. *)
Definition every_word (p : Z → bool) : bool := forallb (λ n, p (Z.of_nat n)) (seq 0 32).
Lemma every_word_spec p w : every_word p = true → word w → p w = true.
Proof.
  intros Hall Hw. unfold every_word in Hall. rewrite forallb_forall in Hall. unfold word in Hw. specialize (Hall (Z.to_nat w) ltac:(apply in_seq; lia)).
  by rewrite Z2Nat.id in Hall by lia.
Qed.
Lemma WORD_OF_char_of w : word w → WORD_OF (char_of w) = w.
Proof. intros Hw. apply Z.eqb_eq. apply (every_word_spec (λ w, WORD_OF (char_of w) =? w)); [vm_compute; reflexivity|done]. Qed.
Lemma char_of_plain w : word w → is_printable (char_of w) = true ∧ is_upper (char_of w) = false ∧ char_of w ≠ SEPARATOR.
Proof.
  intros Hw. assert (every_word (λ w, is_printable (char_of w) && negb (is_upper (char_of w)) && negb (bool_decide (char_of w = SEPARATOR))) = true) as Hall
    by (vm_compute; reflexivity).
  pose proof (every_word_spec _ w Hall Hw) as Hp. cbv beta in Hp. clear Hall. rewrite !andb_true_iff, !negb_true_iff, bool_decide_eq_false in Hp. by destruct Hp as [[? ?] ?].
Qed.
Lemma char_of_WORD_OF c : 0 ≤ WORD_OF c → char_of (WORD_OF c) = c ∧ word (WORD_OF c).
Proof.
  unfold WORD_OF. destruct (index_in_spec c CHARSET 0) as [[_ ->]|(n&Hn&->)]; [lia|]. intros _. rewrite Z.add_0_l. unfold char_of. rewrite Nat2Z.id, Hn.
  split; [done|]. apply lookup_lt_Some in Hn. change (length CHARSET) with 32%nat in Hn. unfold word. lia.
Qed.

Lemma read_words_spec l ws : read_words l = Some ws ↔ Forall word ws ∧ l = map char_of ws.
Proof.
  revert ws. induction l as [|c l IH]; intros ws; cbn [read_words].
  - split; [intros [= <-]; by split|]. intros [_ E]. by destruct ws.
  - destruct (Z.ltb_spec (WORD_OF c) 0) as [L|L].
    + split; [done|]. intros [Hw E]. destruct ws as [|w ws]; [done|]. injection E as -> ->. apply Forall_cons in Hw as [Hw _].
      rewrite WORD_OF_char_of in L by done. unfold word in Hw. lia.
    + destruct (char_of_WORD_OF c L) as [Ec Hc]. destruct (read_words l) as [vs|] eqn:Er; cbn [mbind option_bind].
      * destruct (proj1 (IH vs) eq_refl) as [Hvs El]. split.
        -- intros [= <-]. split; [by constructor|]. cbn [map]. by rewrite Ec, El.
        -- intros [Hw E]. destruct ws as [|w ws]; [done|]. injection E as E1 E2. apply Forall_cons in Hw as [Hw Hws]. rewrite E1, WORD_OF_char_of by done.
           assert (Some vs = Some ws) as [= ->] by (by apply IH). done.
      * split; [done|]. intros [Hw E]. destruct ws as [|w ws]; [done|]. injection E as E1 E2. apply Forall_cons in Hw as [_ Hws].
        assert (None = Some ws) by (by apply IH). done.
Qed.
Lemma split_last_spec l a b : split_last l = Some (a, b) ↔ l = a ++ SEPARATOR :: b ∧ SEPARATOR ∉ b.
Proof.
  assert (∀ l, split_last l = None ↔ SEPARATOR ∉ l) as Hnone.
  { clear. induction l as [|c l IH]; cbn [split_last]; [split; [intros _; apply not_elem_of_nil|done]|]. rewrite not_elem_of_cons. destruct (split_last l) as [[a b]|].
    - split; [done|]. intros [_ H]. by apply IH in H.
    - case_bool_decide; naive_solver. }
  revert a. induction l as [|c l IH]; intros a; cbn [split_last].
  - split; [done|]. intros [E _]. by destruct a.
  - destruct (split_last l) as [[a' b']|] eqn:Es.
    + pose proof (proj1 (IH a')) as Hs. split.
      * intros [= <- ->]. destruct Hs as [-> ?]; done.
      * intros [E Hb]. destruct a as [|x a]; cbn [app] in E; injection E as -> E.
        { exfalso. apply Hnone in Hb. by rewrite <-E, Es in Hb. }
        assert (Some (a', b') = Some (a, b)) as [= -> ->] by (by apply IH). done.
    + case_bool_decide as Ec.
      * subst c. split; [intros [= <- <-]; split; [done|by apply Hnone]|]. intros [E Hb]. destruct a as [|x a]; cbn [app] in E; [by injection E as ->|].
        injection E as _ E. exfalso. apply Hnone in Es. apply Es. rewrite E. set_solver.
      * split; [done|]. intros [E Hb]. destruct a as [|x a]; cbn [app] in E; injection E as -> E; [done|]. exfalso. apply Hnone in Es. apply Es. rewrite E. set_solver.
Qed.

(** ** Decoding *)

Lemma to_lower_id c : is_upper c = false → to_lower c = c.
Proof. unfold to_lower. by intros ->. Qed.
Lemma map_to_lower l : Forall (λ c, is_upper c = false) l → map to_lower l = l.
Proof. induction 1 as [|c l Hc _ IH]; [done|]. cbn [map]. by rewrite to_lower_id, IH. Qed.
Lemma existsb_none_forall {A} (p : A → bool) l : Forall (λ x, p x = false) l → existsb p l = false.
Proof. induction 1 as [|x l Hx _ IH]; [done|]. cbn. by rewrite Hx, IH. Qed.

(** What a decoding is: the lowercase text splits at its last separator into a
    prefix and words that satisfy the checksum. *)
Lemma decode_inv v m d : decodeBech32 v m = Some d → ∃ ck,
  map to_lower (chars v) = bd_canonical d ∧ bd_canonical d = bd_prefix d ++ SEPARATOR :: map char_of (bd_words d ++ ck) ∧ bd_prefix d ≠ [] ∧
  Forall word (bd_words d) ∧ Forall word ck ∧ length ck = CHECKSUM_WORDS ∧ polymod (expandedPrefix (bd_prefix d) ++ bd_words d ++ ck) = 1 ∧
  8 ≤ Z.of_nat (length (chars v)) ≤ m.
Proof.
  unfold decodeBech32. destruct (Z.ltb_spec (Z.of_nat (length (chars v))) 8), (Z.ltb_spec m (Z.of_nat (length (chars v)))); try done. cbn [orb].
  destruct (forallb is_printable (chars v)); [|done]. cbn [negb]. destruct (existsb is_lower (chars v) && existsb is_upper (chars v)); [done|].
  destruct (split_last _) as [[p data]|] eqn:Es; [|done]. cbn [mbind option_bind]. apply split_last_spec in Es as [Es _].
  destruct (Nat.ltb_spec (length p) 1), (Nat.ltb_spec (length data) CHECKSUM_WORDS); try done. cbn [orb].
  destruct (read_words data) as [ws|] eqn:Er; [|done]. cbn [mbind option_bind]. apply read_words_spec in Er as [Hw ->]. rewrite length_map in *.
  destruct (Z.eqb_spec (polymod (expandedPrefix p ++ ws)) 1) as [Hp|]; [|done]. cbn [negb]. intros [= <-]. cbn [bd_prefix bd_words bd_canonical].
  exists (drop (length ws - CHECKSUM_WORDS) ws). rewrite take_drop, length_drop. split; [done|]. split; [done|]. split; [intros ->; cbn in *; lia|].
  split; [by apply Forall_take|]. split; [by apply Forall_drop|]. split; [lia|]. split; [done|lia].
Qed.

Definition plain_prefix (p : list ascii) : Prop := p ≠ [] ∧ Forall (λ c, is_printable c = true ∧ is_upper c = false) p.

Lemma chars_of_words ws : Forall word ws → Forall (λ c, is_printable c = true ∧ is_upper c = false) (map char_of ws) ∧ SEPARATOR ∉ map char_of ws.
Proof.
  intros Hw. split.
  - apply Forall_map. eapply Forall_impl; [exact Hw|]. intros w Hx. by apply char_of_plain in Hx as (?&?&_).
  - intros (w&E&Hin)%list_elem_of_fmap. eapply Forall_forall in Hw; [|exact Hin]. by apply char_of_plain in Hw as (_&_&?).
Qed.

Lemma decode_text p ws ck m : plain_prefix p → Forall word ws → Forall word ck → length ck = CHECKSUM_WORDS →
  polymod (expandedPrefix p ++ ws ++ ck) = 1 → Z.of_nat (length p + 1 + length ws + 6) ≤ m →
  decodeBech32 (text (p ++ SEPARATOR :: map char_of (ws ++ ck))) m =
  Some {| bd_prefix := p; bd_words := ws; bd_canonical := p ++ SEPARATOR :: map char_of (ws ++ ck) |}.
Proof.
  intros [Hne Hp] Hw Hk Hlen Hck Hm. assert (Forall word (ws ++ ck)) as Hall by (by apply Forall_app). destruct (chars_of_words _ Hall) as [Hc Hs].
  unfold decodeBech32. rewrite chars_text. set (l := p ++ _).
  assert (Forall (λ c, is_printable c = true ∧ is_upper c = false) l) as Hl by (apply Forall_app; split; [done|]; by constructor).
  assert (length l = (length p + 1 + length ws + 6)%nat) as El by (unfold l; rewrite length_app; cbn [length]; rewrite length_map, length_app, Hlen; unfold CHECKSUM_WORDS; lia).
  assert (1 ≤ length p)%nat by (destruct p; [done|cbn; lia]).
  destruct (Z.ltb_spec (Z.of_nat (length l)) 8), (Z.ltb_spec m (Z.of_nat (length l))); try lia. cbn [orb].
  assert (forallb is_printable l = true) as -> by (apply forallb_forall; intros c Hin%list_elem_of_In; eapply Forall_forall in Hl; [|exact Hin]; apply Hl).
  assert (Forall (λ c, is_upper c = false) l) as Hu by (eapply Forall_impl; [exact Hl|by intros c []]).
  rewrite (existsb_none_forall _ _ Hu), andb_false_r, (map_to_lower _ Hu). cbn [negb].
  rewrite (proj2 (split_last_spec l p (map char_of (ws ++ ck)))) by done. cbn [mbind option_bind].
  rewrite length_map, length_app, Hlen. unfold CHECKSUM_WORDS. destruct (Nat.ltb_spec (length p) 1), (Nat.ltb_spec (length ws + 6) 6); try lia. cbn [orb].
  rewrite (proj2 (read_words_spec _ (ws ++ ck))) by done. cbn [mbind option_bind]. rewrite Hck. cbn [negb Z.eqb Pos.eqb].
  rewrite length_app, Hlen. unfold CHECKSUM_WORDS. replace (length ws + 6 - 6)%nat with (length ws) by lia. by rewrite take_app_length.
Qed.

(** *** Errors *)

Lemma zip_xor_self l : zip_with Z.lxor l l = replicate (length l) 0.
Proof. induction l as [|x l IH]; [done|]. cbn. by rewrite Z.lxor_nilpotent, IH. Qed.
Lemma zip_xor_words l k : Forall word l → Forall word k → Forall word (zip_with Z.lxor l k).
Proof.
  intros Hl. revert k. induction Hl as [|x l Hx _ IH]; intros [|y k] Hk; cbn; constructor; apply Forall_cons in Hk as [Hy Hk]; [|by apply IH].
  unfold word in *. change 32 with (2 ^ 5) in *. by apply lxor_bound.
Qed.
Lemma zip_xor_zero l k : length l = length k → zip_with Z.lxor l k = replicate (length l) 0 → l = k.
Proof.
  revert k. induction l as [|x l IH]; intros [|y k] Hlen E; try done. cbn in E. injection E as Ex E. apply Z.lxor_eq in Ex as ->. f_equal.
  apply IH; [by injection Hlen|done].
Qed.

(** Two words that differ inside a window of six leave different residues. *)
Lemma burst_detected s a b b' c : state s → Forall word (a ++ b ++ c) → Forall word (a ++ b' ++ c) → length b = length b' → (length b ≤ 6)%nat →
  foldl polymod_step s (a ++ b ++ c) = foldl polymod_step s (a ++ b' ++ c) → b = b'.
Proof.
  intros Hs Hw Hw' Hlen Hl E. pose proof (run_xor s s (a ++ b ++ c) (a ++ b' ++ c) Hs Hs (words_state _ Hw) (words_state _ Hw')) as Hx.
  rewrite !length_app, Hlen in Hx. specialize (Hx eq_refl). rewrite Z.lxor_nilpotent, E, Z.lxor_nilpotent in Hx.
  apply Forall_app in Hw as [_ [Hb _]%Forall_app], Hw' as [_ [Hb' _]%Forall_app].
  rewrite zip_with_app, zip_xor_self, zip_with_app, zip_xor_self, !foldl_app, run_zeros in Hx by done.
  pose proof (zip_xor_words b b' Hb Hb') as Hz. assert (length (zip_with Z.lxor b b') = length b) as Hzl by (rewrite length_zip_with; lia).
  rewrite run_short in Hx by (done || lia).
  apply run_zeros_injective in Hx; [|pose proof (of_digits_bound 32 _ ltac:(lia) Hz) as Hb0; unfold state; rewrite Hzl in Hb0;
    assert (32 ^ Z.of_nat (length b) ≤ 32 ^ 6) by (apply Z.pow_le_mono_r; lia); change (2 ^ 30) with (32 ^ 6); lia].
  apply zip_xor_zero; [done|]. apply (of_digits_inj 32); [lia|done| |by rewrite length_replicate|].
  - apply Forall_replicate. lia.
  - rewrite Hx. clear. induction (length b) as [|n IH]; [done|]. rewrite replicate_S_end, of_digits_snoc, <-IH. lia.
Qed.

(** ** Regrouping *)

Lemma of_digits_app b l k : of_digits b (l ++ k) = of_digits b l * b ^ Z.of_nat (length k) + of_digits b k.
Proof.
  induction k as [|d k IH] using rev_ind; [rewrite app_nil_r; cbn; lia|]. rewrite app_assoc, !of_digits_snoc, IH, length_app. cbn [length].
  rewrite Nat.add_1_r, Nat2Z.inj_succ, Z.pow_succ_r by lia. ring.
Qed.

(** Where a regrouping stands after [total] bits of the number [n]. *)
Record regrouped (width cap total n : Z) (r : Regroup) : Prop := {
  rr_accumulator : rg_accumulator r = n mod 2 ^ cap;
  rr_out : of_digits (2 ^ width) (rg_out r) = n / 2 ^ rg_bits r;
  rr_total : width * Z.of_nat (length (rg_out r)) + rg_bits r = total;
  rr_digits : Forall (λ d, 0 ≤ d < 2 ^ width) (rg_out r);
}.

Lemma drain_spec width cap total n fuel r : 0 < width → cap < 31 → 0 ≤ n → 0 ≤ rg_bits r ≤ cap → rg_bits r < width * Z.of_nat (S fuel) →
  regrouped width cap total n r → let r' := drain width (Z.ones width) fuel r in regrouped width cap total n r' ∧ 0 ≤ rg_bits r' < width.
Proof.
  intros Hw Hcap Hn. revert r. induction fuel as [|fuel IH]; intros r Hb Hf Hr; cbn [drain]; [split; [done|lia]|].
  destruct (Z.leb_spec width (rg_bits r)) as [L|L]; [|split; [done|lia]]. apply IH; cbn [rg_bits rg_accumulator rg_out]; [lia|lia|].
  destruct Hr as [Ha Ho Ht Hd]. set (b := rg_bits r - width).
  assert (Z.land (ushr (rg_accumulator r) b) (Z.ones width) = (n / 2 ^ b) mod 2 ^ width) as ->.
  { pose proof (Z.mod_pos_bound n (2 ^ cap) ltac:(lia)) as Hm. assert (2 ^ cap ≤ 2 ^ 31) by (apply Z.pow_le_mono_r; lia).
    rewrite Z.land_ones, Ha, ushr_small by lia. rewrite <-!Z.shiftr_div_pow2, <-!Z.land_ones, Z.shiftr_land by lia.
    rewrite <-Z.land_assoc. f_equal. apply Z.bits_inj'. intros m Hmm. rewrite Z.land_spec, Z.shiftr_spec by done.
    destruct (Z.lt_ge_cases m width); [rewrite !Z.ones_spec_low by lia; done|]. rewrite (Z.ones_spec_high width) by lia. by rewrite andb_false_r. }
  split; cbn [rg_accumulator rg_bits rg_out].
  - done.
  - rewrite of_digits_snoc, Ho. fold b. replace (rg_bits r) with (b + width) by lia. rewrite Z.pow_add_r, <-Z.div_div by lia.
    rewrite Z.mul_comm. symmetry. apply Z_div_mod_eq_full.
  - rewrite length_app. cbn. lia.
  - apply Forall_app. split; [done|]. constructor; [apply Z.mod_pos_bound; lia|constructor].
Qed.

(** Feeding digits of [inw] bits. *)
Section Feed.
Context (inw width cap : Z) (fuel : nat).
Context (Hw : 0 < width) (Hin : 0 < inw) (Hcap : cap < 31) (Hroom : width - 1 + inw ≤ cap) (Hfuel : width - 1 + inw < width * Z.of_nat (S fuel)) (Hover : cap + inw < 31).
Definition feed (r : Regroup) (d : Z) : Regroup :=
  drain width (Z.ones width) fuel {| rg_accumulator := Z.land (Z.lor (shl (rg_accumulator r) inw) d) (Z.ones cap); rg_bits := rg_bits r + inw; rg_out := rg_out r |}.

Lemma feed_digit total n r d : 0 ≤ n → 0 ≤ d < 2 ^ inw → regrouped width cap total n r → 0 ≤ rg_bits r < width →
  regrouped width cap (total + inw) (n * 2 ^ inw + d) (feed r d) ∧ 0 ≤ rg_bits (feed r d) < width.
Proof.
  intros Hn Hd [Ha Ho Ht Hds] Hb. unfold feed. apply drain_spec; cbn [rg_bits rg_accumulator rg_out]; [done|done|nia|lia|lia|].
  split; cbn [rg_bits rg_accumulator rg_out]; [| |lia|done].
  - rewrite Ha. pose proof (Z.mod_pos_bound n (2 ^ cap) ltac:(lia)) as Hm. assert (2 ^ (cap + inw) ≤ 2 ^ 30) as Hp by (apply Z.pow_le_mono_r; lia).
    rewrite Z.pow_add_r in Hp by lia. rewrite shl_small by nia. rewrite Z.land_ones by lia.
    assert (Z.lor (n mod 2 ^ cap * 2 ^ inw) d = n mod 2 ^ cap * 2 ^ inw + d) as ->.
    { symmetry. rewrite <-Z.lxor_lor; [apply Z.add_nocarry_lxor|]; apply Z.bits_inj'; intros m Hmm; rewrite Z.land_spec, Z.bits_0; rewrite <-Z.shiftl_mul_pow2 by lia;
        (destruct (Z.lt_ge_cases m inw); [by rewrite Z.shiftl_spec_low|]; rewrite <-(Z.mod_small d (2 ^ inw)) by done; by rewrite Z.mod_pow2_bits_high, andb_false_r by lia). }
    rewrite <-Z.add_mod_idemp_l, <-(Z.add_mod_idemp_l (n * 2 ^ inw)) by lia. do 2 f_equal. by rewrite Z.mul_mod_idemp_l by lia.
  - rewrite Ho, (Z.add_comm (rg_bits r)), Z.pow_add_r, <-Z.div_div by lia. by rewrite Z.div_add_l, (Z.div_small d), Z.add_0_r by lia.
Qed.

Lemma feed_digits ds : Forall (λ d, 0 ≤ d < 2 ^ inw) ds →
  let r := foldl feed start ds in regrouped width cap (inw * Z.of_nat (length ds)) (of_digits (2 ^ inw) ds) r ∧ 0 ≤ rg_bits r < width.
Proof.
  induction ds as [|d ds IH] using rev_ind; intros Hds.
  - cbn. split; [split; cbn; [by rewrite Z.mod_0_l by lia|done|lia|constructor]|lia].
  - apply Forall_app in Hds as [Hds Hd%Forall_inv]. destruct (IH Hds) as [Hr Hb]. cbv zeta. rewrite foldl_app, of_digits_snoc, length_app. cbn [foldl length].
    replace (inw * Z.of_nat (length ds + 1)) with (inw * Z.of_nat (length ds) + inw) by lia. apply feed_digit; [|done|done|done].
    apply (of_digits_bound (2 ^ inw)); [lia|done].
Qed.
End Feed.

Definition byte_value (b : Z) : Prop := 0 ≤ b < 256.

Lemma push_words ws (r := foldl push_word start ws) : Forall word ws → regrouped 8 12 (5 * Z.of_nat (length ws)) (of_digits 32 ws) r ∧ 0 ≤ rg_bits r < 8.
Proof. apply (feed_digits 5 8 12 2); lia. Qed.
Lemma push_bytes bs (r := foldl push_byte start bs) : Forall byte_value bs → regrouped 5 13 (8 * Z.of_nat (length bs)) (of_digits 256 bs) r ∧ 0 ≤ rg_bits r < 5.
Proof. apply (feed_digits 8 5 13 3); lia. Qed.

(** The words of bytes: the same number, padded with zero bits to a word. *)
Lemma bytesToWords_spec bs : Forall byte_value bs → let ws := bytesToWords bs in
  Forall word ws ∧ ∃ pad, 0 ≤ pad < 5 ∧ 5 * Z.of_nat (length ws) = 8 * Z.of_nat (length bs) + pad ∧ of_digits 32 ws = of_digits 256 bs * 2 ^ pad.
Proof.
  intros Hb. destruct (push_bytes bs Hb) as [[Ha Ho Ht Hd] Hbits]. unfold bytesToWords. set (r := foldl push_byte start bs) in *. cbv zeta. change (2 ^ 5) with 32 in *.
  set (n := of_digits 256 bs) in *. assert (0 ≤ n) as Hn by (apply (of_digits_bound 256); [lia|done]).
  destruct (Z.ltb_spec 0 (rg_bits r)) as [L|L].
  - pose proof (Z.mod_pos_bound n (2 ^ 13) ltac:(lia)) as Hm. rewrite <-Ha in Hm.
    assert (2 ^ (5 - rg_bits r) ≤ 2 ^ 5) by (apply Z.pow_le_mono_r; lia).
    rewrite shl_small by (lia || nia). change 31 with (Z.ones 5). rewrite Z.land_ones by lia.
    assert (2 ^ 5 = 2 ^ rg_bits r * 2 ^ (5 - rg_bits r)) as E5 by (rewrite <-Z.pow_add_r by lia; f_equal; lia).
    assert ((rg_accumulator r * 2 ^ (5 - rg_bits r)) mod 2 ^ 5 = n mod 2 ^ rg_bits r * 2 ^ (5 - rg_bits r)) as ->.
    { rewrite E5, Z.mul_mod_distr_r by lia. f_equal. rewrite Ha. symmetry. apply Znumtheory.Zmod_div_mod; [lia|lia|].
      exists (2 ^ (13 - rg_bits r)). rewrite <-Z.pow_add_r by lia. f_equal. lia. }
    pose proof (Z.mod_pos_bound n (2 ^ rg_bits r) ltac:(lia)). split.
    + apply Forall_app. split; [done|]. constructor; [|constructor]. unfold word. change 32 with (2 ^ 5). rewrite E5. nia.
    + exists (5 - rg_bits r). split; [lia|]. rewrite length_app. cbn [length]. split; [lia|]. rewrite of_digits_snoc, Ho. change 32 with (2 ^ 5). rewrite E5.
      pose proof (Z_div_mod_eq_full n (2 ^ rg_bits r)). nia.
  - rewrite app_nil_r. split; [done|]. exists 0. split; [lia|]. split; [lia|]. rewrite Ho. replace (rg_bits r) with 0 by lia. change (2 ^ 0) with 1. by rewrite Z.div_1_r, Z.mul_1_r.
Qed.

Lemma wordsToBytes_spec ws padding bs : wordsToBytes ws padding = Some bs ↔ Forall word ws ∧ Forall byte_value bs ∧
  ∃ pad, 0 ≤ pad < 5 ∧ (padding = forbidden → pad = 0) ∧ 5 * Z.of_nat (length ws) = 8 * Z.of_nat (length bs) + pad ∧ of_digits 32 ws = of_digits 256 bs * 2 ^ pad.
Proof.
  unfold wordsToBytes. destruct (forallb _ ws) eqn:Hall; cbn [negb].
  - assert (Forall word ws) as Hw.
    { apply Forall_forall. intros w Hin. rewrite forallb_forall in Hall. specialize (Hall w (proj1 (list_elem_of_In _ _) Hin)). unfold word. split_and_bool. lia. }
    destruct (push_words ws Hw) as [[Ha Ho Ht Hd] Hbits]. set (r := foldl push_word start ws) in *. cbv zeta. change (2 ^ 8) with 256 in *.
    set (n := of_digits 32 ws) in *. assert (0 ≤ n) as Hn by (apply (of_digits_bound 32); [lia|done]).
    assert ((Forall word ws ∧ Forall byte_value bs ∧ ∃ pad, 0 ≤ pad < 5 ∧ (padding = forbidden → pad = 0) ∧ 5 * Z.of_nat (length ws) = 8 * Z.of_nat (length bs) + pad ∧
      n = of_digits 256 bs * 2 ^ pad) ↔ rg_out r = bs ∧ rg_bits r < 5 ∧ (padding = forbidden → rg_bits r = 0) ∧ n mod 2 ^ rg_bits r = 0) as ->.
    { split.
      - intros (_&Hbs&pad&Hpad&Hf&Hl&En). assert (pad = rg_bits r) as -> by lia. split; [|split; [lia|]; split; [done|rewrite En; apply Z.mod_mul; lia]].
        apply (of_digits_inj 256); [lia|done|done|lia|]. by rewrite Ho, En, Z.div_mul by lia.
      - intros (<-&Hb5&Hf&Hz). split; [done|]. split; [done|]. exists (rg_bits r). split; [lia|]. split; [done|]. split; [lia|]. rewrite Ho.
        pose proof (Z_div_mod_eq_full n (2 ^ rg_bits r)). lia. }
    assert (shl 1 (rg_bits r) - 1 = Z.ones (rg_bits r)) as ->.
    { assert (2 ^ rg_bits r ≤ 2 ^ 7) by (apply Z.pow_le_mono_r; lia). rewrite shl_small by lia. rewrite Z.ones_equiv. lia. }
    rewrite Z.land_ones, Ha by lia. assert ((n mod 2 ^ 12) mod 2 ^ rg_bits r = n mod 2 ^ rg_bits r) as ->.
    { symmetry. apply Znumtheory.Zmod_div_mod; [lia|lia|]. exists (2 ^ (12 - rg_bits r)). rewrite <-Z.pow_add_r by lia. f_equal. lia. }
    destruct (Z.ltb_spec 0 (rg_bits r)) as [L|L]; cbn [andb].
    + destruct (Z.leb_spec 5 (rg_bits r)); [rewrite orb_true_r; split; [done|lia]|]. case_bool_decide as Hp; cbn [orb]; [split; [done|]; intros (_&_&Hf&_); specialize (Hf Hp); lia|].
      destruct (Z.eqb_spec (n mod 2 ^ rg_bits r) 0); cbn [negb]; [|split; [done|by intros (_&_&_&?)]]. split; [by intros [= <-]|by intros (->&_)].
    + replace (rg_bits r) with 0 by lia. rewrite Z.mod_1_r. split; [by intros [= <-]|by intros (->&_)].
  - split; [done|]. intros [Hw _]. rewrite <-not_true_iff_false in Hall. destruct Hall. apply forallb_forall. intros w Hin%list_elem_of_In.
    eapply Forall_forall in Hw; [|exact Hin]. unfold word in Hw. apply andb_true_iff. split; lia.
Qed.

Lemma wordsToSafeInteger_spec ws : Forall word ws → wordsToSafeInteger ws = if (10 <? length ws)%nat then None else Some (of_digits 32 ws).
Proof.
  intros Hw. unfold wordsToSafeInteger. destruct (Nat.ltb_spec 10 (length ws)) as [|L]; [done|]. change (foldl _ 0 ws) with (of_digits 32 ws).
  pose proof (of_digits_bound 32 ws ltac:(lia) Hw) as Hb. assert (32 ^ Z.of_nat (length ws) ≤ 32 ^ 10) by (apply Z.pow_le_mono_r; lia).
  destruct (Z.leb_spec (Z.abs (of_digits 32 ws)) MAX_SAFE_INTEGER); [done|]. unfold MAX_SAFE_INTEGER in *. lia.
Qed.

(** ** The contract of the encoding *)

(** Decoding inverts encoding and encoding inverts decoding. A lowercase
    prefix and any five-bit words, encoded, decode to themselves within the
    caller's bound; a text that decodes is, in lowercase, the encoding of the
    prefix and words it decodes to. *)
Theorem bech32_roundtrip :
  (∀ p ws m, plain_prefix p → Forall word ws → Z.of_nat (length p + 1 + length ws + 6) ≤ m →
    decodeBech32 (encodeBech32 p ws) m = Some {| bd_prefix := p; bd_words := ws; bd_canonical := chars (encodeBech32 p ws) |}) ∧
  (∀ v m d, decodeBech32 v m = Some d → encodeBech32 (bd_prefix d) (bd_words d) = text (map to_lower (chars v)) ∧ bd_canonical d = map to_lower (chars v)).
Proof.
  split.
  - intros p ws m Hp Hw Hm. destruct (checksum_completes p ws Hw) as (Hck&Hc&Hl). unfold encodeBech32. rewrite chars_text. by apply decode_text.
  - intros v m d (ck&Hlow&Hcan&Hne&Hw&Hk&Hl&Hck&_)%decode_inv. split; [|done]. rewrite Hlow, Hcan. unfold encodeBech32.
    destruct (checksum_completes (bd_prefix d) (bd_words d) Hw) as (Hck'&Hc&Hl').
    assert (checksum_words (bd_prefix d) (bd_words d) = ck) as ->; [|done].
    apply (burst_detected (foldl polymod_step 1 (expandedPrefix (bd_prefix d))) (bd_words d) _ _ []); rewrite ?app_nil_r.
    + apply run_state; [unfold state; lia|apply prefix_state].
    + by apply Forall_app.
    + by apply Forall_app.
    + by rewrite Hl, Hl'.
    + by rewrite Hl'.
    + rewrite <-!foldl_app. unfold polymod in Hck, Hck'. by rewrite Hck, Hck'.
Qed.

(** The checksum catches bursts: two texts that decode with the same prefix
    and differ only inside a window of at most six characters of the data part
    are the same text. In particular one wrong character is always a refusal. *)
Theorem bech32_detects_bursts v v' m m' d d' a b b' c :
  decodeBech32 v m = Some d → decodeBech32 v' m' = Some d' → bd_prefix d = bd_prefix d' →
  bd_canonical d = bd_prefix d ++ SEPARATOR :: a ++ b ++ c → bd_canonical d' = bd_prefix d ++ SEPARATOR :: a ++ b' ++ c →
  length b = length b' → (length b ≤ 6)%nat → bd_canonical d = bd_canonical d'.
Proof.
  intros (ck&_&Hc&_&Hw&Hk&_&Hck&_)%decode_inv (ck'&_&Hc'&_&Hw'&Hk'&_&Hck'&_)%decode_inv Ep E E' Hl H6. rewrite <-Ep in Hc', Hck'.
  rewrite Hc in E. rewrite Hc' in E'. apply app_inj_1 in E as [_ E]; [|done]. apply app_inj_1 in E' as [_ E']; [|done]. injection E as E. injection E' as E'.
  rewrite Hc, Hc', E, E'. clear Hc Hc'. assert (Forall word (bd_words d ++ ck)) as HW by (by apply Forall_app). assert (Forall word (bd_words d' ++ ck')) as HW' by (by apply Forall_app).
  set (W := bd_words d ++ ck) in *. set (W' := bd_words d' ++ ck') in *.
  assert (∀ (l : list Z) x y z, map char_of l = x ++ y ++ z → ∃ lx ly lz, l = lx ++ ly ++ lz ∧ map char_of lx = x ∧ map char_of ly = y ∧ map char_of lz = z) as Hsplit.
  { intros l x y z (lx&l2&->&<-&H2)%map_eq_app. apply map_eq_app in H2 as (ly&lz&->&<-&<-). by exists lx, ly, lz. }
  destruct (Hsplit W a b c E) as (wa&wb&wc&EW&Ea&Eb&Ec). destruct (Hsplit W' a b' c E') as (wa'&wb'&wc'&EW'&Ea'&Eb'&Ec').
  assert (∀ l k, Forall word l → Forall word k → map char_of l = map char_of k → l = k) as Hinj.
  { intros l k Hlw Hkw Em. apply (inj Some). rewrite <-(proj2 (read_words_spec (map char_of l) l)) by done. rewrite <-(proj2 (read_words_spec (map char_of k) k)) by done. by rewrite Em. }
  rewrite EW in HW. rewrite EW' in HW'. pose proof HW as [Wa [Wb Wc]%Forall_app]%Forall_app. pose proof HW' as [Wa' [Wb' Wc']%Forall_app]%Forall_app.
  assert (wa' = wa) as -> by (apply Hinj; congruence). assert (wc' = wc) as -> by (apply Hinj; congruence).
  assert (wb = wb') as Hb; [|by rewrite <-Eb, <-Eb', Hb].
  apply (burst_detected (foldl polymod_step 1 (expandedPrefix (bd_prefix d))) wa _ _ wc); [|done|done| | |].
  - apply run_state; [unfold state; lia|apply prefix_state].
  - apply (f_equal length) in Eb, Eb'. rewrite length_map in Eb, Eb'. lia.
  - apply (f_equal length) in Eb. rewrite length_map in Eb. lia.
  - rewrite <-!foldl_app. rewrite <-EW, <-EW'. unfold polymod in Hck, Hck'. by rewrite Hck, Hck'.
Qed.

(** Regrouping is exact. Words become bytes precisely when the words are five
    bits each and carry the bytes' number followed by at most four zero bits
    (none when padding is forbidden); bytes regrouped into words come back. *)
Theorem regrouping_exact :
  (∀ ws padding bs, wordsToBytes ws padding = Some bs ↔ Forall word ws ∧ Forall byte_value bs ∧
    ∃ pad, 0 ≤ pad < 5 ∧ (padding = forbidden → pad = 0) ∧ 5 * Z.of_nat (length ws) = 8 * Z.of_nat (length bs) + pad ∧ of_digits 32 ws = of_digits 256 bs * 2 ^ pad) ∧
  (∀ bs, Forall byte_value bs → wordsToBytes (bytesToWords bs) allowed = Some bs).
Proof.
  split; [exact wordsToBytes_spec|]. intros bs Hb. destruct (bytesToWords_spec bs Hb) as (Hw&pad&Hp&Hl&Hv). apply wordsToBytes_spec.
  split; [done|]. split; [done|]. by exists pad.
Qed.

(** *** At concrete inputs *)

Lemma bech32_roundtrip_witness : decodeBech32 (encodeBech32 (chars "lnbc") [1; 2; 31]) 90 =
  Some {| bd_prefix := chars "lnbc"; bd_words := [1; 2; 31]; bd_canonical := chars (encodeBech32 (chars "lnbc") [1; 2; 31]) |}.
Proof.
  apply (proj1 bech32_roundtrip); [|repeat constructor; vm_compute; done|vm_compute; done].
  split; [done|]. repeat constructor; vm_compute; reflexivity.
Defined.
Lemma regrouping_exact_witness : wordsToBytes (bytesToWords [7; 255; 0]) allowed = Some [7; 255; 0].
Proof. apply (proj2 regrouping_exact). repeat constructor; vm_compute; done. Defined.
Definition sample_decoding : Bech32Decoding := {| bd_prefix := chars "a"; bd_words := []; bd_canonical := chars "a12uel5l" |}.
Lemma bech32_detects_bursts_witness : bd_canonical sample_decoding = chars "a12uel5l" ∧ bd_canonical sample_decoding = bd_canonical sample_decoding.
Proof.
  split; [reflexivity|].
  apply (bech32_detects_bursts "A12UEL5L" "a12uel5l" 90 90 sample_decoding sample_decoding (chars "2u") (chars "el") (chars "el") (chars "5l"));
    vm_compute; first [reflexivity|repeat constructor].
Defined.
