(* ===== verification/Bolt11.v ===== *)
(** * BOLT11 invoices

    Model of payment-runtime/rails/lightning/lightning-bolt11.ts and
    lightning-signature.ts: the closed decoder of a Lightning invoice. Refusals
    are thrown values; the elliptic-curve library, OpenSSL and SHA-256 are
    operations of a class, as they are code the source only calls. The fatal
    UTF-8 decoder is written out. The field loop runs on the words not yet read,
    with the number of data words as fuel: every round reads three or more. *)

From S2P Require Import Prelude Decimal RailAmounts Bech32.

Local Open Scope Z_scope.
Local Open Scope frontera_scope.

(** ** Data *)

Inductive LightningNetwork := mainnet | testnet | signet | regtest.
#[export] Instance LightningNetwork_eq_dec : EqDecision LightningNetwork.
Proof. solve_decision. Defined.

Definition BOLT11_ABSOLUTE_MAXIMUM_LENGTH : Z := 7089.
Definition BOLT11_DEFAULT_EXPIRY_SECONDS : Z := 3600.
Definition BOLT11_DEFAULT_MIN_FINAL_CLTV_EXPIRY_DELTA : Z := 18.
Definition BOLT11_SUPPORTED_REQUIRED_FEATURES : list Z := [8; 14; 16; 48].
Definition BOLT11_FEATURE_DEPENDENCIES : list (Z * list Z) := [(14, [8]); (16, [14])].
Definition MAXIMUM_ROUTE_HINT_FIELDS : Z := 8.
Definition MAXIMUM_FALLBACK_FIELDS : Z := 4.
Definition MAXIMUM_UNKNOWN_FIELDS : Z := 8.
Definition ROUTE_HINT_HOP_BYTES : nat := 51.
Definition TIMESTAMP_WORDS : nat := 7.
Definition SIGNATURE_WORDS : nat := 104.

Inductive Bolt11Refusal :=
  | bolt11_oversized | bolt11_encoding_invalid | bolt11_network_unknown | bolt11_amount_invalid | bolt11_structure_invalid
  | bolt11_field_length_invalid | bolt11_field_duplicated | bolt11_field_non_minimal | bolt11_payment_hash_missing
  | bolt11_payment_secret_missing | bolt11_description_invalid | bolt11_feature_unsupported | bolt11_feature_dependency_missing
  | bolt11_route_hint_invalid | bolt11_signature_invalid | bolt11_signature_high_s.

(** Byte strings are their bytes; the source spells them in lowercase hex. *)
Inductive PayeeSource := n_field | recovered.
Record Bolt11Invoice := {
  iv_canonical : list ascii;
  iv_network : LightningNetwork;
  iv_amountMsat : option Z;
  iv_timestamp : Z;
  iv_expirySeconds : Z;
  iv_paymentHash : list Z;
  iv_descriptionHash : option (list Z);
  iv_minFinalCltvExpiryDelta : Z;
  iv_requiredFeatures : list Z;
  iv_routeHintCount : Z;
  iv_fallbackCount : Z;
}.

Definition TAG_p : Z := 1.
Definition TAG_r : Z := 3.
Definition TAG_9 : Z := 5.
Definition TAG_x : Z := 6.
Definition TAG_f : Z := 9.
Definition TAG_d : Z := 13.
Definition TAG_s : Z := 16.
Definition TAG_n : Z := 19.
Definition TAG_h : Z := 23.
Definition TAG_c : Z := 24.
Definition TAG_m : Z := 27.
Definition SINGLE_TAGS : list Z := [TAG_p; TAG_s; TAG_d; TAG_h; TAG_n; TAG_x; TAG_c; TAG_9; TAG_m].
Definition FIXED_LENGTH (tag : Z) : option nat :=
  if tag =? TAG_p then Some 52%nat else if tag =? TAG_s then Some 52%nat else if tag =? TAG_h then Some 52%nat else if tag =? TAG_n then Some 53%nat else None.

Definition mem (x : Z) (l : list Z) : bool := existsb (Z.eqb x) l.

(** ** The prefix *)

Fixpoint strip (p l : list ascii) : option (list ascii) :=
  match p, l with
  | [], l => Some l
  | c :: p, d :: l => if bool_decide (c = d) then strip p l else None
  | _, [] => None
  end.
Definition is_alnum (c : ascii) : bool := is_digit c || is_lower c.

(** The regular expression of the prefix: [ln], a currency, digits and lowercase
    letters; the first currency that leads to a match, in the order of the
    alternation. *)
Definition currencies : list (list ascii * LightningNetwork) :=
  [(chars "bcrt", regtest); (chars "bc", mainnet); (chars "tbs", signet); (chars "tb", testnet)].
Fixpoint match_currency (cs : list (list ascii * LightningNetwork)) (l : list ascii) : option (LightningNetwork * list ascii) :=
  match cs with
  | [] => None
  | (p, network) :: cs =>
      match strip p l with
      | Some rest => if forallb is_alnum rest then Some (network, rest) else match_currency cs l
      | None => match_currency cs l
      end
  end.
Definition readPrefix (prefix : list ascii) : result Bolt11Refusal (LightningNetwork * option Z) :=
  match strip (chars "ln") prefix ≫= match_currency currencies with
  | None => Throw bolt11_network_unknown
  | Some (network, []) => Ok (network, None)
  | Some (network, amount) =>
      match msatOfBolt11Amount (text amount) with
      | None => Throw bolt11_amount_invalid
      | Some amountMsat => Ok (network, Some amountMsat)
      end
  end.

(** ** Features *)

Fixpoint word_bits (base bit : Z) (n : nat) (w : Z) : list Z :=
  match n with
  | O => []
  | S n => (if Z.land (ushr w bit) 1 =? 1 then [base + bit] else []) ++ word_bits base (bit + 1) n w
  end.
Fixpoint feature_bits_from (index : Z) (reversed : list Z) : list Z :=
  match reversed with [] => [] | w :: ws => word_bits (index * 5) 0 5 w ++ feature_bits_from (index + 1) ws end.
Definition featureBits (words : list Z) : list Z := feature_bits_from 0 (reverse words).
Definition featurePresent (bits : list Z) (pair : Z) : bool := mem pair bits || mem (pair + 1) bits.
Definition featureDependenciesSet (bits : list Z) : bool :=
  forallb (λ '(feature, dependencies), negb (featurePresent bits feature) || forallb (featurePresent bits) dependencies) BOLT11_FEATURE_DEPENDENCIES.

(** ** UTF-8 *)

Definition in_range (lo hi x : Z) : bool := (lo <=? x) && (x <=? hi).
Fixpoint utf8_valid (fuel : nat) (bytes : list Z) : bool :=
  match fuel with
  | O => false
  | S fuel =>
      match bytes with
      | [] => true
      | b :: rest =>
          if in_range 0 0x7f b then utf8_valid fuel rest
          else if in_range 0xc2 0xdf b then
            match rest with c1 :: rest => in_range 0x80 0xbf c1 && utf8_valid fuel rest | _ => false end
          else if in_range 0xe0 0xef b then
            match rest with
            | c1 :: c2 :: rest => in_range (if b =? 0xe0 then 0xa0 else 0x80) (if b =? 0xed then 0x9f else 0xbf) c1 && in_range 0x80 0xbf c2 && utf8_valid fuel rest
            | _ => false
            end
          else if in_range 0xf0 0xf4 b then
            match rest with
            | c1 :: c2 :: c3 :: rest => in_range (if b =? 0xf0 then 0x90 else 0x80) (if b =? 0xf4 then 0x8f else 0xbf) c1 &&
                in_range 0x80 0xbf c2 && in_range 0x80 0xbf c3 && utf8_valid fuel rest
            | _ => false
            end
          else false
      end
  end.
Definition utf8_decodes (bytes : list Z) : bool := utf8_valid (S (length bytes)) bytes.

(** ** Fields *)

Record ParseState := {
  ps_seen : list Z;
  ps_paymentHash : option (list Z);
  ps_descriptionHash : option (list Z);
  ps_paymentSecret : bool;
  ps_description : Z;
  ps_explicitPayee : option (list Z);
  ps_expirySeconds : Z;
  ps_minFinalCltvExpiryDelta : Z;
  ps_requiredFeatures : list Z;
  ps_routeHintCount : Z;
  ps_routeHintFields : Z;
  ps_fallbackCount : Z;
  ps_unknownFields : Z;
}.
Definition initial_state : ParseState := {|
  ps_seen := []; ps_paymentHash := None; ps_descriptionHash := None; ps_paymentSecret := false; ps_description := 0; ps_explicitPayee := None;
  ps_expirySeconds := BOLT11_DEFAULT_EXPIRY_SECONDS; ps_minFinalCltvExpiryDelta := BOLT11_DEFAULT_MIN_FINAL_CLTV_EXPIRY_DELTA;
  ps_requiredFeatures := []; ps_routeHintCount := 0; ps_routeHintFields := 0; ps_fallbackCount := 0; ps_unknownFields := 0 |}.

Definition compressed (bytes : list Z) : bool := match bytes with b :: _ => (b =? 2) || (b =? 3) | [] => false end.
(** The hops of a route hint: every 51 bytes start with a compressed key. *)
Fixpoint hops_ok (fuel : nat) (bytes : list Z) : bool :=
  match fuel with
  | O => true
  | S fuel => match bytes with [] => true | _ => compressed bytes && hops_ok fuel (drop ROUTE_HINT_HOP_BYTES bytes) end
  end.

Section WithState.
Context (s : ParseState).
Definition set_seen v := {| ps_seen := v; ps_paymentHash := ps_paymentHash s; ps_descriptionHash := ps_descriptionHash s; ps_paymentSecret := ps_paymentSecret s;
  ps_description := ps_description s; ps_explicitPayee := ps_explicitPayee s; ps_expirySeconds := ps_expirySeconds s; ps_minFinalCltvExpiryDelta := ps_minFinalCltvExpiryDelta s;
  ps_requiredFeatures := ps_requiredFeatures s; ps_routeHintCount := ps_routeHintCount s; ps_routeHintFields := ps_routeHintFields s;
  ps_fallbackCount := ps_fallbackCount s; ps_unknownFields := ps_unknownFields s |}.
Definition set_hash h secret dh description payee := {| ps_seen := ps_seen s; ps_paymentHash := h; ps_descriptionHash := dh; ps_paymentSecret := secret;
  ps_description := description; ps_explicitPayee := payee; ps_expirySeconds := ps_expirySeconds s; ps_minFinalCltvExpiryDelta := ps_minFinalCltvExpiryDelta s;
  ps_requiredFeatures := ps_requiredFeatures s; ps_routeHintCount := ps_routeHintCount s; ps_routeHintFields := ps_routeHintFields s;
  ps_fallbackCount := ps_fallbackCount s; ps_unknownFields := ps_unknownFields s |}.
Definition set_numbers expiry delta features := {| ps_seen := ps_seen s; ps_paymentHash := ps_paymentHash s; ps_descriptionHash := ps_descriptionHash s; ps_paymentSecret := ps_paymentSecret s;
  ps_description := ps_description s; ps_explicitPayee := ps_explicitPayee s; ps_expirySeconds := expiry; ps_minFinalCltvExpiryDelta := delta;
  ps_requiredFeatures := features; ps_routeHintCount := ps_routeHintCount s; ps_routeHintFields := ps_routeHintFields s;
  ps_fallbackCount := ps_fallbackCount s; ps_unknownFields := ps_unknownFields s |}.
Definition set_counts hops hints fallbacks unknown := {| ps_seen := ps_seen s; ps_paymentHash := ps_paymentHash s; ps_descriptionHash := ps_descriptionHash s; ps_paymentSecret := ps_paymentSecret s;
  ps_description := ps_description s; ps_explicitPayee := ps_explicitPayee s; ps_expirySeconds := ps_expirySeconds s; ps_minFinalCltvExpiryDelta := ps_minFinalCltvExpiryDelta s;
  ps_requiredFeatures := ps_requiredFeatures s; ps_routeHintCount := hops; ps_routeHintFields := hints; ps_fallbackCount := fallbacks; ps_unknownFields := unknown |}.
End WithState.

Definition bytes32 (field : list Z) : option (list Z) := b ← wordsToBytes field allowed; if (length b =? 32)%nat then Some b else None.
Definition non_minimal (field : list Z) : bool := match field with [] => true | w :: _ => w =? 0 end.
Definition required_features (bits : list Z) : list Z := merge_sort Z.le (List.filter Z.even bits).

(** The [switch] on the tag. *)
Definition read_tag (tag : Z) (field : list Z) (s : ParseState) : result Bolt11Refusal ParseState :=
  if tag =? TAG_p then
    match bytes32 field with None => Throw bolt11_field_length_invalid
    | Some b => Ok (set_hash s (Some b) (ps_paymentSecret s) (ps_descriptionHash s) (ps_description s) (ps_explicitPayee s)) end
  else if tag =? TAG_s then
    match bytes32 field with None => Throw bolt11_field_length_invalid
    | Some _ => Ok (set_hash s (ps_paymentHash s) true (ps_descriptionHash s) (ps_description s) (ps_explicitPayee s)) end
  else if tag =? TAG_d then
    match wordsToBytes field allowed with None => Throw bolt11_description_invalid
    | Some b => if utf8_decodes b then Ok (set_hash s (ps_paymentHash s) (ps_paymentSecret s) (ps_descriptionHash s) (ps_description s + 1) (ps_explicitPayee s))
                else Throw bolt11_description_invalid end
  else if tag =? TAG_h then
    match bytes32 field with None => Throw bolt11_field_length_invalid
    | Some b => Ok (set_hash s (ps_paymentHash s) (ps_paymentSecret s) (Some b) (ps_description s + 1) (ps_explicitPayee s)) end
  else if tag =? TAG_n then
    match wordsToBytes field allowed with
    | Some b => if (length b =? 33)%nat && compressed b
        then Ok (set_hash s (ps_paymentHash s) (ps_paymentSecret s) (ps_descriptionHash s) (ps_description s) (Some b)) else Throw bolt11_field_length_invalid
    | None => Throw bolt11_field_length_invalid end
  else if (tag =? TAG_x) || (tag =? TAG_c) then
    if non_minimal field then Throw bolt11_field_non_minimal
    else match wordsToSafeInteger field with None => Throw bolt11_structure_invalid
    | Some v => Ok (if tag =? TAG_x then set_numbers s v (ps_minFinalCltvExpiryDelta s) (ps_requiredFeatures s)
                    else set_numbers s (ps_expirySeconds s) v (ps_requiredFeatures s)) end
  else if tag =? TAG_9 then
    if non_minimal field then Throw bolt11_field_non_minimal
    else
      let bits := featureBits field in
      if existsb (λ bit, Z.even bit && negb (mem bit BOLT11_SUPPORTED_REQUIRED_FEATURES)) bits then Throw bolt11_feature_unsupported
      else if negb (featureDependenciesSet bits) then Throw bolt11_feature_dependency_missing
      else Ok (set_numbers s (ps_expirySeconds s) (ps_minFinalCltvExpiryDelta s) (required_features bits))
  else if tag =? TAG_r then
    let hints := ps_routeHintFields s + 1 in
    if MAXIMUM_ROUTE_HINT_FIELDS <? hints then Throw bolt11_route_hint_invalid
    else match wordsToBytes field allowed with
    | None => Throw bolt11_route_hint_invalid
    | Some b =>
        if (length b =? 0)%nat || negb (length b mod ROUTE_HINT_HOP_BYTES =? 0)%nat || negb (hops_ok (length b) b) then Throw bolt11_route_hint_invalid
        else Ok (set_counts s (ps_routeHintCount s + Z.of_nat (length b / ROUTE_HINT_HOP_BYTES)) hints (ps_fallbackCount s) (ps_unknownFields s))
    end
  else if tag =? TAG_f then
    let fallbacks := ps_fallbackCount s + 1 in
    if (MAXIMUM_FALLBACK_FIELDS <? fallbacks) || (length field =? 0)%nat then Throw bolt11_structure_invalid
    else Ok (set_counts s (ps_routeHintCount s) (ps_routeHintFields s) fallbacks (ps_unknownFields s))
  else if tag =? TAG_m then
    if (length field =? 0)%nat then Throw bolt11_structure_invalid else Ok s
  else
    let unknown := ps_unknownFields s + 1 in
    if MAXIMUM_UNKNOWN_FIELDS <? unknown then Throw bolt11_structure_invalid
    else Ok (set_counts s (ps_routeHintCount s) (ps_routeHintFields s) (ps_fallbackCount s) unknown).

Definition read_field (tag : Z) (field : list Z) (s : ParseState) : result Bolt11Refusal ParseState :=
  if mem tag SINGLE_TAGS && mem tag (ps_seen s) then Throw bolt11_field_duplicated
  else
    let s := if mem tag SINGLE_TAGS then set_seen s (tag :: ps_seen s) else s in
    match FIXED_LENGTH tag with
    | Some fixed => if negb (length field =? fixed)%nat then Throw bolt11_field_length_invalid else read_tag tag field s
    | None => read_tag tag field s
    end.

Fixpoint read_fields (fuel : nat) (rest : list Z) (s : ParseState) : result Bolt11Refusal ParseState :=
  match fuel with
  | O => Ok s
  | S fuel =>
      match rest with
      | [] => Ok s
      | tag :: hi :: lo :: rest =>
          let len := Z.to_nat (hi * 32 + lo) in
          if (length rest <? len)%nat then Throw bolt11_structure_invalid
          else let* s := read_field tag (take len rest) s in read_fields fuel (drop len rest) s
      | _ => Throw bolt11_structure_invalid
      end
  end.

Record Parsed := { pa_invoice : Bolt11Invoice; pa_message : list Z; pa_signature : list Z; pa_explicitPayee : option (list Z) }.

Definition finish (d : Bech32Decoding) (network : LightningNetwork) (amountMsat : option Z) (timestamp : Z) (signature dataWords : list Z) (s : ParseState) :
    result Bolt11Refusal Parsed :=
  match ps_paymentHash s with
  | None => Throw bolt11_payment_hash_missing
  | Some paymentHash =>
      if negb (ps_paymentSecret s) then Throw bolt11_payment_secret_missing
      else if negb (ps_description s =? 1) then Throw bolt11_description_invalid
      else Ok {|
        pa_invoice := {| iv_canonical := bd_canonical d; iv_network := network; iv_amountMsat := amountMsat; iv_timestamp := timestamp;
          iv_expirySeconds := ps_expirySeconds s; iv_paymentHash := paymentHash; iv_descriptionHash := ps_descriptionHash s;
          iv_minFinalCltvExpiryDelta := ps_minFinalCltvExpiryDelta s; iv_requiredFeatures := ps_requiredFeatures s;
          iv_routeHintCount := ps_routeHintCount s; iv_fallbackCount := ps_fallbackCount s |};
        pa_message := map code (bd_prefix d) ++ wordsToPaddedBytes dataWords; pa_signature := signature; pa_explicitPayee := ps_explicitPayee s |}
  end.

Definition parse (value : string) (maximumLength : Z) : result Bolt11Refusal Parsed :=
  if maximumLength <? Z.of_nat (length (chars value)) then Throw bolt11_oversized
  else match decodeBech32 value maximumLength with
  | None => Throw bolt11_encoding_invalid
  | Some d =>
      let* read := readPrefix (bd_prefix d) in
      let words := bd_words d in
      if (length words <? TIMESTAMP_WORDS + SIGNATURE_WORDS)%nat then Throw bolt11_structure_invalid
      else
        let dataWords := take (length words - SIGNATURE_WORDS) words in
        match wordsToBytes (drop (length words - SIGNATURE_WORDS) words) allowed with
        | None => Throw bolt11_structure_invalid
        | Some signature =>
            if negb (length signature =? 65)%nat then Throw bolt11_structure_invalid
            else match wordsToSafeInteger (take TIMESTAMP_WORDS dataWords) with
            | None => Throw bolt11_structure_invalid
            | Some timestamp =>
                let* s := read_fields (length dataWords) (drop TIMESTAMP_WORDS dataWords) initial_state in
                finish d (fst read) (snd read) timestamp signature dataWords s
            end
        end
  end.

(** ** The signature *)

(** Whether [@noble/curves] loads, its recovery ([None] when it throws) and its
    verification (by low-S requirement, [false] when it throws), OpenSSL's
    verification, and SHA-256. *)
Class Secp256k1 := {
  curve_loads : bool;
  recoverPublicKey : list Z → list Z → option (list Z);
  noble_verify : list Z → list Z → list Z → bool → bool;
  openSslVerifies : list Z → list Z → list Z → bool;
  sha256 : list Z → list Z;
}.

Definition CURVE_ORDER : Z := 0xfffffffffffffffffffffffffffffffebaaedce6af48a03bbfd25e8cd0364141.
Definition HALF_ORDER : Z := Z.shiftr CURVE_ORDER 1.
Definition bigEndian (bytes : list Z) : Z := foldl (λ value byte, Z.lor (Z.shiftl value 8) byte) 0 bytes.

Inductive Bolt11SignatureCheck := SignatureValid (payee : list Z) | SignatureInvalid | SignatureHighS.

Section Signature.
Context `{Secp256k1}.

Definition verifyBolt11Signature (message signature : list Z) (explicitPayee : option (list Z)) : Bolt11SignatureCheck :=
  if negb (length signature =? 65)%nat then SignatureInvalid
  else
    let compact := take 64 signature in
    let recovery := default 255 (signature !! 64%nat) in
    if 3 <? recovery then SignatureInvalid
    else
      let r := bigEndian (take 32 compact) in
      let s := bigEndian (drop 32 compact) in
      if (r =? 0) || (CURVE_ORDER <=? r) || (s =? 0) || (CURVE_ORDER <=? s) then SignatureInvalid
      else
        let digest := sha256 message in
        if negb curve_loads then SignatureInvalid
        else match explicitPayee with
        | Some payee =>
            if negb (length payee =? 33)%nat || negb (compressed payee) then SignatureInvalid
            else if HALF_ORDER <? s then SignatureHighS
            else if negb (noble_verify compact digest payee true) then SignatureInvalid
            else if negb (openSslVerifies message compact payee) then SignatureInvalid
            else SignatureValid payee
        | None =>
            match recoverPublicKey (recovery :: compact) digest with
            | None => SignatureInvalid
            | Some payee =>
                if negb (length payee =? 33)%nat then SignatureInvalid
                else if negb (noble_verify compact digest payee false) then SignatureInvalid
                else if negb (openSslVerifies message compact payee) then SignatureInvalid
                else SignatureValid payee
            end
        end.

Record VerifiedInvoice := { vi_invoice : Bolt11Invoice; vi_payee : list Z; vi_payeeSource : PayeeSource }.

Definition length_bound (maximumLength : Z) : Z :=
  Z.min (if (0 <? maximumLength) && (maximumLength <=? MAX_SAFE_INTEGER) then maximumLength else 0) BOLT11_ABSOLUTE_MAXIMUM_LENGTH.
Definition decodeBolt11Invoice (value : string) (maximumLength : Z) : result Bolt11Refusal VerifiedInvoice :=
  let bound := length_bound maximumLength in
  if bound <? Z.of_nat (length (chars value)) then Throw bolt11_oversized
  else
    let* parsed := parse value bound in
    match verifyBolt11Signature (pa_message parsed) (pa_signature parsed) (pa_explicitPayee parsed) with
    | SignatureHighS => Throw bolt11_signature_high_s
    | SignatureInvalid => Throw bolt11_signature_invalid
    | SignatureValid payee => Ok {| vi_invoice := pa_invoice parsed; vi_payee := payee;
        vi_payeeSource := match pa_explicitPayee parsed with Some _ => n_field | None => recovered end |}
    end.
End Signature.

Definition bolt11ExpiresAt (i : Bolt11Invoice) : Z := iv_timestamp i + iv_expirySeconds i.

(** ** The tagged fields of the data part *)

Definition Field : Type := Z * list Z.
Definition encode_field (x : Field) : list Z := x.1 :: Z.of_nat (length x.2) / 32 :: Z.of_nat (length x.2) mod 32 :: x.2.
Definition encode_fields (fs : list Field) : list Z := List.concat (encode_field <$> fs).
Fixpoint read_all (fs : list Field) (s : ParseState) : result Bolt11Refusal ParseState :=
  match fs with [] => Ok s | (t, f) :: fs => let* s := read_field t f s in read_all fs s end.

Lemma read_fields_all fuel rest s s' : (length rest ≤ fuel)%nat → Forall word rest →
  read_fields fuel rest s = Ok s' ↔ ∃ fs, rest = encode_fields fs ∧ read_all fs s = Ok s'.
Proof.
  revert rest s. induction fuel as [|fuel IH]; intros rest s Hl Hw.
  - destruct rest; [|cbn in Hl; lia]. cbn. split; [intros [= <-]; by exists []|]. intros ([|x fs]&E&Hr); [done|]. by destruct x.
  - destruct rest as [|t [|hi [|lo rest]]]; cbn [read_fields].
    { split; [intros [= <-]; by exists []|]. intros ([|x fs]&E&Hr); [done|]. by destruct x. }
    1,2: split; [done|]; intros ([|x fs]&E&_); [done|]; by destruct x.
    apply Forall_cons in Hw as [Ht Hw]. apply Forall_cons in Hw as [Hhi Hw]. apply Forall_cons in Hw as [Hlo Hw]. unfold word in Hhi, Hlo.
    cbn [length] in Hl. set (n := Z.to_nat (hi * 32 + lo)). destruct (Nat.ltb_spec (length rest) n) as [L|L].
    + split; [done|]. intros ([|[t' f] fs]&E&_); [done|]. cbn in E. injection E as _ Eh El Er. exfalso. apply (f_equal length) in Er. rewrite length_app in Er.
      assert (n = length f) by (unfold n; rewrite Eh, El; pose proof (Z_div_mod_eq_full (Z.of_nat (length f)) 32); lia). lia.
    + rewrite result_bind_Ok. split.
      * intros (s1&H1&H2). apply IH in H2 as (fs&Ef&Hr); [|rewrite length_drop; lia|by apply Forall_drop]. exists ((t, take n rest) :: fs). split; [|cbn; by rewrite H1].
        cbn. rewrite length_take_le by done. change (List.concat (encode_field <$> fs)) with (encode_fields fs). rewrite <-Ef, take_drop. unfold n. rewrite Z2Nat.id by lia.
        do 2 f_equal; [|f_equal]; Z.to_euclidean_division_equations; lia.
      * intros ([|[t' f] fs]&E&Hr); [done|]. cbn in E. injection E as <- Eh El Er. change (List.concat (encode_field <$> fs)) with (encode_fields fs) in Er.
        assert (n = length f) as -> by (unfold n; rewrite Eh, El; pose proof (Z_div_mod_eq_full (Z.of_nat (length f)) 32); lia).
        cbn in Hr. apply result_bind_Ok in Hr as (s1&H1&H2). rewrite Er, take_app_length, drop_app_length. exists s1. split; [done|].
        apply IH; [|rewrite Er in Hw; by apply Forall_app in Hw as [_ ?]|by exists fs].
        rewrite Er, length_app in Hl. lia.
Qed.

(** *** What the fields say *)

Definition tags (fs : list Field) : list Z := fs.*1.
Definition lookup_tag (t : Z) (fs : list Field) : option (list Z) := snd <$> List.find (λ x, x.1 =? t) fs.
Definition count (p : Z → bool) (fs : list Field) : Z := Z.of_nat (length (List.filter (λ x, p x.1) fs)).
Definition single (t : Z) : bool := mem t SINGLE_TAGS.
Definition unknown (t : Z) : bool := negb (single t || (t =? TAG_r) || (t =? TAG_f)).
Definition hops_of (f : list Z) : Z := match wordsToBytes f allowed with Some b => Z.of_nat (length b / ROUTE_HINT_HOP_BYTES) | None => 0 end.
Fixpoint hop_count (fs : list Field) : Z := match fs with [] => 0 | (t, f) :: fs => (if t =? TAG_r then hops_of f else 0) + hop_count fs end.

(** A field a reader accepts, by its tag. *)
Definition field_ok (t : Z) (f : list Z) : bool :=
  if (t =? TAG_p) || (t =? TAG_s) || (t =? TAG_h) then (length f =? 52)%nat && is_some (bytes32 f)
  else if t =? TAG_d then match wordsToBytes f allowed with Some b => utf8_decodes b | None => false end
  else if t =? TAG_n then (length f =? 53)%nat && match wordsToBytes f allowed with Some b => (length b =? 33)%nat && compressed b | None => false end
  else if (t =? TAG_x) || (t =? TAG_c) then negb (non_minimal f) && is_some (wordsToSafeInteger f)
  else if t =? TAG_9 then negb (non_minimal f) &&
    forallb (λ bit, negb (Z.even bit) || mem bit BOLT11_SUPPORTED_REQUIRED_FEATURES) (featureBits f) && featureDependenciesSet (featureBits f)
  else if t =? TAG_r then match wordsToBytes f allowed with
    | Some b => negb ((length b =? 0)%nat || negb (length b mod ROUTE_HINT_HOP_BYTES =? 0)%nat || negb (hops_ok (length b) b)) | None => false end
  else if (t =? TAG_f) || (t =? TAG_m) then negb (length f =? 0)%nat
  else true.

Definition summary (fs : list Field) : ParseState := {|
  ps_seen := reverse (List.filter single (tags fs));
  ps_paymentHash := lookup_tag TAG_p fs ≫= bytes32;
  ps_descriptionHash := lookup_tag TAG_h fs ≫= bytes32;
  ps_paymentSecret := is_some (lookup_tag TAG_s fs);
  ps_description := count (λ t, (t =? TAG_d) || (t =? TAG_h)) fs;
  ps_explicitPayee := lookup_tag TAG_n fs ≫= λ f, wordsToBytes f allowed;
  ps_expirySeconds := default BOLT11_DEFAULT_EXPIRY_SECONDS (lookup_tag TAG_x fs ≫= wordsToSafeInteger);
  ps_minFinalCltvExpiryDelta := default BOLT11_DEFAULT_MIN_FINAL_CLTV_EXPIRY_DELTA (lookup_tag TAG_c fs ≫= wordsToSafeInteger);
  ps_requiredFeatures := default [] ((λ f, required_features (featureBits f)) <$> lookup_tag TAG_9 fs);
  ps_routeHintCount := hop_count fs;
  ps_routeHintFields := count (Z.eqb TAG_r) fs;
  ps_fallbackCount := count (Z.eqb TAG_f) fs;
  ps_unknownFields := count unknown fs;
|}.

Record fields_ok (fs : list Field) : Prop := {
  fo_each : Forall (λ x, field_ok x.1 x.2 = true) fs;
  fo_single : NoDup (List.filter single (tags fs));
  fo_hints : count (Z.eqb TAG_r) fs ≤ MAXIMUM_ROUTE_HINT_FIELDS;
  fo_fallbacks : count (Z.eqb TAG_f) fs ≤ MAXIMUM_FALLBACK_FIELDS;
  fo_unknown : count unknown fs ≤ MAXIMUM_UNKNOWN_FIELDS;
}.

Lemma mem_spec x l : mem x l = true ↔ x ∈ l.
Proof.
  unfold mem. rewrite existsb_exists, list_elem_of_In. split; [intros (y&Hy&->%Z.eqb_eq); done|]. intros Hx. exists x. split; [done|]. apply Z.eqb_refl.
Qed.
Lemma count_app p fs fs' : count p (fs ++ fs') = count p fs + count p fs'.
Proof. unfold count. rewrite List.filter_app, length_app. apply Nat2Z.inj_add. Qed.
Lemma count_snoc p fs t f : count p (fs ++ [(t, f)]) = count p fs + (if p t then 1 else 0).
Proof. rewrite count_app. unfold count at 2. cbn. by destruct (p t). Qed.
Lemma lookup_snoc t fs t' f : lookup_tag t (fs ++ [(t', f)]) = match lookup_tag t fs with Some x => Some x | None => if t' =? t then Some f else None end.
Proof.
  unfold lookup_tag. induction fs as [|x fs IH]; cbn; [by destruct (t' =? t)|]. destruct (x.1 =? t); [done|]. exact IH.
Qed.
Lemma hop_snoc fs t f : hop_count (fs ++ [(t, f)]) = hop_count fs + (if t =? TAG_r then hops_of f else 0).
Proof. induction fs as [|[t' f'] fs IH]; cbn [app hop_count]; [lia|]. rewrite IH. lia. Qed.
Lemma tags_snoc fs t f : List.filter single (tags (fs ++ [(t, f)])) = List.filter single (tags fs) ++ (if single t then [t] else []).
Proof. unfold tags. rewrite fmap_app, List.filter_app. cbn. by destruct (single t). Qed.
Lemma lookup_tag_None t fs : lookup_tag t fs = None ↔ t ∉ tags fs.
Proof.
  unfold lookup_tag, tags. induction fs as [|x fs IH]; cbn; [split; [intros _; apply not_elem_of_nil|done]|]. rewrite not_elem_of_cons.
  destruct (Z.eqb_spec x.1 t) as [->|]; [naive_solver|]. rewrite IH. naive_solver.
Qed.
Lemma seen_mem fs t : single t = true → mem t (ps_seen (summary fs)) = is_some (lookup_tag t fs).
Proof.
  intros Hs. apply eq_true_iff_eq. cbn [ps_seen summary]. rewrite mem_spec, elem_of_reverse, list_elem_of_In, filter_In, <-list_elem_of_In, is_some_true.
  assert (is_Some (lookup_tag t fs) ↔ t ∈ tags fs) as <-; [|tauto].
  rewrite <-not_eq_None_Some, lookup_tag_None. split; [apply dec_stable|tauto].
Qed.

(** What one more field needs of the fields before it. *)
Definition admits (fs : list Field) (t : Z) (f : list Z) : Prop :=
  field_ok t f = true ∧ (single t = true → lookup_tag t fs = None) ∧ (t = TAG_r → count (Z.eqb TAG_r) fs + 1 ≤ MAXIMUM_ROUTE_HINT_FIELDS) ∧
  (t = TAG_f → count (Z.eqb TAG_f) fs + 1 ≤ MAXIMUM_FALLBACK_FIELDS) ∧ (unknown t = true → count unknown fs + 1 ≤ MAXIMUM_UNKNOWN_FIELDS).

Lemma summary_snoc fs t f : summary (fs ++ [(t, f)]) =
  let found tag := match lookup_tag tag fs with Some x => Some x | None => if t =? tag then Some f else None end in {|
  ps_seen := (if single t then [t] else []) ++ reverse (List.filter single (tags fs));
  ps_paymentHash := found TAG_p ≫= bytes32;
  ps_descriptionHash := found TAG_h ≫= bytes32;
  ps_paymentSecret := is_some (found TAG_s);
  ps_description := count (λ t, (t =? TAG_d) || (t =? TAG_h)) fs + (if (t =? TAG_d) || (t =? TAG_h) then 1 else 0);
  ps_explicitPayee := found TAG_n ≫= λ f, wordsToBytes f allowed;
  ps_expirySeconds := default BOLT11_DEFAULT_EXPIRY_SECONDS (found TAG_x ≫= wordsToSafeInteger);
  ps_minFinalCltvExpiryDelta := default BOLT11_DEFAULT_MIN_FINAL_CLTV_EXPIRY_DELTA (found TAG_c ≫= wordsToSafeInteger);
  ps_requiredFeatures := default [] ((λ f, required_features (featureBits f)) <$> found TAG_9);
  ps_routeHintCount := hop_count fs + (if t =? TAG_r then hops_of f else 0);
  ps_routeHintFields := count (Z.eqb TAG_r) fs + (if TAG_r =? t then 1 else 0);
  ps_fallbackCount := count (Z.eqb TAG_f) fs + (if TAG_f =? t then 1 else 0);
  ps_unknownFields := count unknown fs + (if unknown t then 1 else 0);
|}.
Proof. unfold summary. rewrite tags_snoc, !lookup_snoc, !count_snoc, hop_snoc, reverse_app. by destruct (single t). Qed.

(** A record equation by its projections, the untouched ones closed by computation. *)
Lemma state_eq s s' : s = s' ↔ ps_seen s = ps_seen s' ∧ ps_paymentHash s = ps_paymentHash s' ∧ ps_descriptionHash s = ps_descriptionHash s' ∧
  ps_paymentSecret s = ps_paymentSecret s' ∧ ps_description s = ps_description s' ∧ ps_explicitPayee s = ps_explicitPayee s' ∧
  ps_expirySeconds s = ps_expirySeconds s' ∧ ps_minFinalCltvExpiryDelta s = ps_minFinalCltvExpiryDelta s' ∧ ps_requiredFeatures s = ps_requiredFeatures s' ∧
  ps_routeHintCount s = ps_routeHintCount s' ∧ ps_routeHintFields s = ps_routeHintFields s' ∧ ps_fallbackCount s = ps_fallbackCount s' ∧ ps_unknownFields s = ps_unknownFields s'.
Proof. split; [by intros ->|]. destruct s, s'; cbn. intros; destruct_and!; by subst. Qed.
Lemma found_id {A} (o : option A) : match o with Some x => Some x | None => None end = o.
Proof. by destruct o. Qed.
(** Decide the conditions of the reader, one by one; then both states are the same. *)
Ltac settle := rewrite ?found_id, ?Z.add_0_r;
  repeat match goal with
  | |- context [if negb ?b then _ else _] => destruct b eqn:?; cbn [negb andb]
  | |- context [if ?a && ?b then _ else _] => destruct a eqn:?; cbn [negb andb]
  | |- context [if ?b then _ else _] => destruct b eqn:?; cbn [negb andb]
  | |- context [match ?m with Some _ => _ | None => _ end] => destruct m eqn:?; cbn [negb andb is_some]
  end; cbn [negb andb is_some default mbind fmap option_bind option_map]; try (intuition congruence); try (split; [intros [= <-]; by split | by intros [_ ->]]).

Lemma features_refused bits :
  existsb (λ bit, Z.even bit && negb (mem bit BOLT11_SUPPORTED_REQUIRED_FEATURES)) bits = negb (forallb (λ bit, negb (Z.even bit) || mem bit BOLT11_SUPPORTED_REQUIRED_FEATURES) bits).
Proof. induction bits as [|b bits IH]; [done|]. cbn [existsb forallb]. rewrite IH, negb_andb, negb_orb, negb_involutive. done. Qed.

Lemma read_single fs t f s' : single t = true → lookup_tag t fs = None →
  read_field t f (summary fs) = Ok s' ↔ field_ok t f = true ∧ s' = summary (fs ++ [(t, f)]).
Proof.
  intros Hs HN. unfold read_field. fold (single t). rewrite seen_mem, Hs, HN, summary_snoc by done. cbn [andb is_some].
  unfold single, mem, SINGLE_TAGS in Hs. cbn [existsb] in Hs. rewrite !orb_true_iff, !Z.eqb_eq in Hs.
  destruct Hs as [->|[->|[->|[->|[->|[->|[->|[->|[->|Hs]]]]]]]]]; [..|done]; rewrite ?HN; cbn -[Nat.eqb wordsToBytes wordsToSafeInteger bytes32 featureBits utf8_decodes mem featureDependenciesSet forallb]; rewrite ?features_refused.
all: settle.
Qed.

Lemma read_other fs t f s' : single t = false →
  read_field t f (summary fs) = Ok s' ↔ admits fs t f ∧ s' = summary (fs ++ [(t, f)]).
Proof.
  intros Hs. unfold read_field, admits. fold (single t). rewrite Hs, summary_snoc, Hs. cbn [andb]. unfold unknown. rewrite Hs.
  unfold single, mem, SINGLE_TAGS in Hs. cbn [existsb] in Hs. rewrite !orb_false_iff in Hs. destruct_and!. unfold field_ok, FIXED_LENGTH, read_tag.
  repeat match goal with H : (t =? _) = false |- _ => rewrite H; clear H end. cbn [orb].
  rewrite (Z.eqb_sym TAG_r), (Z.eqb_sym TAG_f). destruct (Z.eqb_spec t TAG_r) as [->|Nr]; [|destruct (Z.eqb_spec t TAG_f) as [->|Nf]].
  all: rewrite ?found_id; cbn [orb negb app ps_routeHintFields ps_fallbackCount ps_unknownFields ps_routeHintCount summary]; unfold hops_of;
    change (TAG_r =? TAG_f) with false; cbn [orb negb]; rewrite ?Z.add_0_r.
  - destruct (Z.ltb_spec MAXIMUM_ROUTE_HINT_FIELDS (count (Z.eqb TAG_r) fs + 1)) as [L|L]; [split; [done|intros [(_&_&?&_) _]; exfalso; lia]|].
    destruct (wordsToBytes f allowed) as [b|]; [|naive_solver]. case_match; cbn [negb]; [naive_solver|].
    split; [intros [= <-]; split_and!; done|by intros [_ ->]].
  - destruct (Z.ltb_spec MAXIMUM_FALLBACK_FIELDS (count (Z.eqb TAG_f) fs + 1)) as [L|L]; cbn [orb]; [split; [done|intros [(_&_&_&?&_) _]; exfalso; lia]|].
    destruct (length f =? 0)%nat; cbn [negb]; [naive_solver|]. split; [intros [= <-]; split_and!; done|by intros [_ ->]].
  - destruct (Z.ltb_spec MAXIMUM_UNKNOWN_FIELDS (count unknown fs + 1)) as [L|L]; [split; [done|intros [(_&_&_&_&?) _]; exfalso; unfold unknown in L; naive_solver lia]|].
    split; [intros [= <-]; split_and!; done|by intros [_ ->]].
Qed.

Lemma read_field_iff fs t f s' : read_field t f (summary fs) = Ok s' ↔ admits fs t f ∧ s' = summary (fs ++ [(t, f)]).
Proof.
  destruct (single t) eqn:Hs; [|by apply read_other]. destruct (lookup_tag t fs) as [x|] eqn:HN.
  - unfold read_field. fold (single t). rewrite seen_mem, Hs, HN by done. cbn. split; [done|]. intros [(_&H&_) _]. naive_solver.
  - rewrite read_single by done. apply and_iff_compat_r. unfold admits, unknown. rewrite Hs. cbn.
    split; [|by intros [? _]]. intros. split_and!; try done; intros ->; done.
Qed.

Lemma fields_ok_snoc fs t f : fields_ok (fs ++ [(t, f)]) ↔ fields_ok fs ∧ admits fs t f.
Proof.
  split.
  - intros [E N H F U]. rewrite tags_snoc in N. rewrite !count_snoc in *. apply Forall_app in E as [E [E1 _]%Forall_cons]. apply NoDup_app in N as (N1&N2&_).
    split; [split; [done..| | |]; repeat case_match; lia|]. split_and!; [done| |intros ->; cbn in *; lia..|intros Hu; rewrite Hu in U; lia].
    intros Hs. apply lookup_tag_None. intros Ht. rewrite Hs in N2. apply (N2 t); [|by apply list_elem_of_singleton].
    apply list_elem_of_In, filter_In. by rewrite <-list_elem_of_In.
  - intros [[E N H F U] (A1&A2&A3&A4&A5)]. split.
    + apply Forall_app. split; [done|]. by constructor.
    + rewrite tags_snoc. apply NoDup_app. split_and!; [done| |case_match; [apply NoDup_singleton|constructor]].
      intros x [Hx _]%list_elem_of_In%filter_In Hx'. destruct (single t) eqn:Hs; [|by apply elem_of_nil in Hx']. apply list_elem_of_singleton in Hx' as ->.
      apply list_elem_of_In in Hx. by apply lookup_tag_None in Hx; [|auto].
    + rewrite count_snoc. destruct (Z.eqb_spec TAG_r t) as [<-|]; [by apply A3|lia].
    + rewrite count_snoc. destruct (Z.eqb_spec TAG_f t) as [<-|]; [by apply A4|lia].
    + rewrite count_snoc. case_match; [by apply A5|lia].
Qed.

Lemma read_all_app fs fs' s s' : read_all (fs ++ fs') s = Ok s' ↔ ∃ s1, read_all fs s = Ok s1 ∧ read_all fs' s1 = Ok s'.
Proof.
  revert s. induction fs as [|[t f] fs IH]; intros s; cbn; [naive_solver|]. rewrite result_bind_Ok. setoid_rewrite result_bind_Ok. setoid_rewrite IH. naive_solver.
Qed.
Lemma read_all_iff fs s' : read_all fs initial_state = Ok s' ↔ fields_ok fs ∧ s' = summary fs.
Proof.
  revert s'. induction fs as [|[t f] fs IH] using rev_ind; intros s'.
  - cbn. split; [intros [= <-]; split; [|done]; split; try done; by constructor|by intros [_ ->]].
  - rewrite read_all_app, fields_ok_snoc. cbn. setoid_rewrite result_bind_Ok. setoid_rewrite IH. split.
    + intros (s1&[Hf ->]&s2&H2&[= <-]). by apply read_field_iff in H2 as [? ->].
    + intros [[Hf Ha] ->]. exists (summary fs). split; [done|]. exists (summary (fs ++ [(t, f)])). split; [by apply read_field_iff|done].
Qed.

(** ** The decoder, exactly *)

Lemma words_split (words dataWords sigw : list Z) :
  (SIGNATURE_WORDS ≤ length words)%nat → take (length words - SIGNATURE_WORDS) words = dataWords ∧ drop (length words - SIGNATURE_WORDS) words = sigw ↔
  words = dataWords ++ sigw ∧ length sigw = SIGNATURE_WORDS.
Proof.
  intros L. split.
  - intros [<- <-]. rewrite take_drop, length_drop. split; [done|lia].
  - intros [-> Hl]. rewrite length_app, Hl, Nat.add_sub, take_app_length, drop_app_length. done.
Qed.

Definition payee_field (fs : list Field) : option (list Z) := lookup_tag TAG_n fs ≫= λ f, wordsToBytes f allowed.
(** The invoice the fields [fs] describe. *)
Definition reading (d : Bech32Decoding) (network : LightningNetwork) (amountMsat : option Z) (ts : list Z) (fs : list Field) (hash : list Z) : Bolt11Invoice := {|
  iv_canonical := bd_canonical d; iv_network := network; iv_amountMsat := amountMsat; iv_timestamp := of_digits 32 ts;
  iv_expirySeconds := default BOLT11_DEFAULT_EXPIRY_SECONDS (lookup_tag TAG_x fs ≫= wordsToSafeInteger);
  iv_paymentHash := hash; iv_descriptionHash := lookup_tag TAG_h fs ≫= bytes32;
  iv_minFinalCltvExpiryDelta := default BOLT11_DEFAULT_MIN_FINAL_CLTV_EXPIRY_DELTA (lookup_tag TAG_c fs ≫= wordsToSafeInteger);
  iv_requiredFeatures := default [] ((λ f, required_features (featureBits f)) <$> lookup_tag TAG_9 fs);
  iv_routeHintCount := hop_count fs; iv_fallbackCount := count (Z.eqb TAG_f) fs |}.

(** The conditions on the parts of an invoice. *)
Record acceptable (d : Bech32Decoding) (network : LightningNetwork) (amountMsat : option Z) (ts : list Z) (fs : list Field) (sigw signature hash : list Z) : Prop := {
  ac_prefix : readPrefix (bd_prefix d) = Ok (network, amountMsat);
  ac_words : bd_words d = (ts ++ encode_fields fs) ++ sigw;
  ac_timestamp : length ts = TIMESTAMP_WORDS;
  ac_sigw : length sigw = SIGNATURE_WORDS;
  ac_signature : wordsToBytes sigw allowed = Some signature;
  ac_fields : fields_ok fs;
  ac_hash : lookup_tag TAG_p fs ≫= bytes32 = Some hash;
  ac_secret : is_Some (lookup_tag TAG_s fs);
  ac_description : count (λ t, (t =? TAG_d) || (t =? TAG_h)) fs = 1;
}.

Lemma wordsToBytes_signature sigw signature : wordsToBytes sigw allowed = Some signature → length sigw = SIGNATURE_WORDS → length signature = 65%nat.
Proof. intros (_&_&pad&Hp&_&E&_)%wordsToBytes_spec Hl. rewrite Hl in E. unfold SIGNATURE_WORDS in E. lia. Qed.

Lemma finish_iff d network amountMsat timestamp signature dataWords fs parsed :
  finish d network amountMsat timestamp signature dataWords (summary fs) = Ok parsed ↔ ∃ hash,
  lookup_tag TAG_p fs ≫= bytes32 = Some hash ∧ is_Some (lookup_tag TAG_s fs) ∧ count (λ t, (t =? TAG_d) || (t =? TAG_h)) fs = 1 ∧
  parsed = {| pa_invoice := {| iv_canonical := bd_canonical d; iv_network := network; iv_amountMsat := amountMsat; iv_timestamp := timestamp;
      iv_expirySeconds := ps_expirySeconds (summary fs); iv_paymentHash := hash; iv_descriptionHash := ps_descriptionHash (summary fs);
      iv_minFinalCltvExpiryDelta := ps_minFinalCltvExpiryDelta (summary fs); iv_requiredFeatures := ps_requiredFeatures (summary fs);
      iv_routeHintCount := ps_routeHintCount (summary fs); iv_fallbackCount := ps_fallbackCount (summary fs) |};
    pa_message := map code (bd_prefix d) ++ wordsToPaddedBytes dataWords; pa_signature := signature; pa_explicitPayee := payee_field fs |}.
Proof.
  unfold finish. cbn [ps_paymentHash ps_paymentSecret ps_description ps_explicitPayee summary]. fold (payee_field fs).
  destruct (lookup_tag TAG_p fs ≫= bytes32) as [hash|]; [|naive_solver]. destruct (lookup_tag TAG_s fs); cbn [negb is_some]; [|naive_solver].
  destruct (Z.eqb_spec (count (λ t, (t =? TAG_d) || (t =? TAG_h)) fs) 1); cbn [negb]; [|naive_solver].
  split; [intros [= <-]; by exists hash|]. by intros (?&[= <-]&_&_&->).
Qed.

Lemma parse_iff value m parsed : parse value m = Ok parsed ↔ ∃ d network amountMsat ts fs sigw signature hash,
  decodeBech32 value m = Some d ∧ acceptable d network amountMsat ts fs sigw signature hash ∧
  parsed = {| pa_invoice := reading d network amountMsat ts fs hash; pa_message := map code (bd_prefix d) ++ wordsToPaddedBytes (ts ++ encode_fields fs);
    pa_signature := signature; pa_explicitPayee := payee_field fs |}.
Proof.
  unfold parse. destruct (Z.ltb_spec m (Z.of_nat (length (chars value)))) as [L|L].
  { split; [done|]. intros (d&?&?&?&?&?&?&?&Hd&_). apply decode_inv in Hd as (?&_&_&_&_&_&_&_&?). lia. }
  destruct (decodeBech32 value m) as [d|] eqn:Hd; [|naive_solver]. rewrite result_bind_Ok.
  assert (Forall word (bd_words d)) as Hw by (apply decode_inv in Hd; naive_solver).
  split.
  - intros ([network amountMsat]&Hp&H). cbn zeta in H. destruct (Nat.ltb_spec (length (bd_words d)) (TIMESTAMP_WORDS + SIGNATURE_WORDS)) as [|Hl]; [done|].
    destruct (proj1 (words_split (bd_words d) _ _ ltac:(lia)) (conj eq_refl eq_refl)) as [E Hs]. revert E Hs H.
    generalize (take (length (bd_words d) - SIGNATURE_WORDS) (bd_words d)), (drop (length (bd_words d) - SIGNATURE_WORDS) (bd_words d)). intros dw sigw E Hs H.
    rewrite E in Hw, Hl. apply Forall_app in Hw as [Hw _]. rewrite length_app, Hs in Hl.
    destruct (wordsToBytes sigw allowed) as [signature|] eqn:Hsig; [|done]. rewrite (wordsToBytes_signature _ _ Hsig Hs) in H. cbn [negb Nat.eqb] in H.
    rewrite wordsToSafeInteger_spec, length_take_le in H by (by apply Forall_take || lia). cbn [Nat.ltb Nat.leb TIMESTAMP_WORDS] in H.
    apply result_bind_Ok in H as (s&(fs&Ef&[Hf ->]%read_all_iff)%read_fields_all&(hash&Hh&Hsec&Hde&->)%finish_iff); [|rewrite length_drop; lia|by apply Forall_drop].
    exists d, network, amountMsat, (take TIMESTAMP_WORDS dw), fs, sigw, signature, hash. rewrite <-Ef, take_drop. split; [done|]. split; [|done].
    split; try done; rewrite <-?Ef, ?take_drop; [done|]. by rewrite length_take_le by lia.
  - intros (d'&network&amountMsat&ts&fs&sigw&signature&hash&[= <-]&[Hp Ew Ht Hs Hsig Hf Hh Hsec Hde]&->). exists (network, amountMsat). split; [done|]. cbn zeta.
    assert ((SIGNATURE_WORDS ≤ length (bd_words d))%nat) as Hl by (rewrite Ew, length_app; lia).
    destruct (proj2 (words_split _ _ _ Hl) (conj Ew Hs)) as [-> ->]. rewrite Hsig, (wordsToBytes_signature _ _ Hsig Hs). rewrite Ew in Hw.
    apply Forall_app in Hw as [Hw _]. apply Forall_app in Hw as [Hw1 Hw2].
    destruct (Nat.ltb_spec (length (bd_words d)) (TIMESTAMP_WORDS + SIGNATURE_WORDS)) as [L'|_]; [rewrite Ew, !length_app in L'; lia|].
    rewrite take_app_length', drop_app_length' by done. rewrite wordsToSafeInteger_spec, Ht by done. cbn [negb Nat.eqb Nat.ltb Nat.leb TIMESTAMP_WORDS].
    apply result_bind_Ok. exists (summary fs). split; [apply read_fields_all; [rewrite length_app; lia|done|]; exists fs; split; [done|by apply read_all_iff]|].
    apply finish_iff. by exists hash.
Qed.

(** *** Feature bits *)

Lemma low_bit w k : 0 ≤ w < 2 ^ 32 → 0 ≤ k → (Z.land (ushr w k) 1 =? 1) = Z.testbit w k.
Proof.
  intros Hw Hk. unfold ushr. rewrite (Z.mod_small w) by lia. change 1 with (Z.ones 1) at 1. rewrite Z.land_ones, Z.shiftr_div_pow2 by lia.
  apply eq_true_iff_eq. rewrite Z.eqb_eq, Z.testbit_true by lia. done.
Qed.

Lemma word_bits_spec base w n : ∀ bit b, 0 ≤ w < 2 ^ 32 → 0 ≤ bit →
  b ∈ word_bits base bit n w ↔ base + bit ≤ b < base + bit + Z.of_nat n ∧ Z.testbit w (b - base) = true.
Proof.
  induction n as [|n IH]; intros bit b Hw Hb; cbn [word_bits]; [split; [by intros ?%elem_of_nil|lia]|].
  rewrite elem_of_app, IH, low_bit by lia. destruct (Z.eq_dec b (base + bit)) as [->|N].
  - replace (base + bit - base) with bit by lia. destruct (Z.testbit w bit); [rewrite list_elem_of_singleton|rewrite elem_of_nil]; split; try tauto; lia.
  - assert (b ∉ (if Z.testbit w bit then [base + bit] else [])) by (destruct (Z.testbit w bit); [rewrite list_elem_of_singleton|apply not_elem_of_nil]; done).
    split; [intros [?|[? ?]]; [done|split; [lia|done]]|]. intros [? ?]. right. split; [lia|done].
Qed.

Lemma testbit_digit v w k : 0 ≤ k → word w → Z.testbit (v * 32 + w) k = if k <? 5 then Z.testbit w k else Z.testbit v (k - 5).
Proof.
  unfold word. intros Hk Hw. destruct (Z.ltb_spec k 5).
  - rewrite <-(Z.mod_pow2_bits_low _ 5 k) by lia. f_equal. change (2 ^ 5) with 32. rewrite Z.add_comm, Z.mod_add by lia. apply Z.mod_small. lia.
  - replace k with (k - 5 + 5) at 1 by lia. rewrite <-Z.div_pow2_bits by lia. f_equal. change (2 ^ 5) with 32. rewrite Z.div_add_l by lia. rewrite (Z.div_small w) by lia. lia.
Qed.

Lemma feature_bits_from_spec ws : Forall word ws → ∀ i b, 0 ≤ i →
  b ∈ feature_bits_from i ws ↔ 5 * i ≤ b ∧ Z.testbit (of_digits 32 (reverse ws)) (b - 5 * i) = true.
Proof.
  induction 1 as [|w ws Hw _ IH]; intros i b Hi; cbn [feature_bits_from].
  - rewrite elem_of_nil. cbn. rewrite Z.bits_0. naive_solver.
  - unfold word in Hw. rewrite elem_of_app, word_bits_spec, IH, reverse_cons, of_digits_snoc by lia.
    destruct (Z.leb_spec (5 * i) b); [|split; [intros [[]|[]]|intros []]; lia].
    rewrite testbit_digit by done || lia. rewrite (Z.mul_comm i 5). destruct (Z.ltb_spec (b - 5 * i) 5).
    + split; [intros [[_ ?]|[]]; [done|lia]|]. intros [_ ?]. left. split; [lia|done].
    + replace (b - 5 * (i + 1)) with (b - 5 * i - 5) by lia. split; [intros [[]|[_ ?]]; [lia|done]|]. intros [_ ?]. right. split; [lia|done].
Qed.
Lemma featureBits_spec ws b : Forall word ws → b ∈ featureBits ws ↔ 0 ≤ b ∧ Z.testbit (of_digits 32 ws) b = true.
Proof. intros Hw. unfold featureBits. rewrite feature_bits_from_spec by (by rewrite ?Forall_reverse || lia). by rewrite reverse_involutive, Z.mul_0_r, Z.sub_0_r. Qed.

Lemma word_bits_sorted base w n : ∀ bit, 0 ≤ w < 2 ^ 32 → 0 ≤ bit → StronglySorted Z.lt (word_bits base bit n w).
Proof.
  induction n as [|n IH]; intros bit Hw Hb; cbn [word_bits]; [constructor|]. apply StronglySorted_app. split; [|split; [case_match; repeat constructor|apply IH; lia]].
  intros x y Hx Hy. apply word_bits_spec in Hy; [|lia..]. case_match; [apply list_elem_of_singleton in Hx|by apply elem_of_nil in Hx]. lia.
Qed.
Lemma featureBits_sorted ws : Forall word ws → StronglySorted Z.lt (featureBits ws).
Proof.
  intros Hw. unfold featureBits. apply Forall_reverse in Hw. assert (0 ≤ 0) as Hi by done. revert Hi. generalize 0 at 2 3 as i.
  induction Hw as [|w ws' Hw' Hw IH]; intros i Hi; cbn [feature_bits_from]; [constructor|]. unfold word in Hw'.
  apply StronglySorted_app. split; [|split; [apply word_bits_sorted; lia|apply IH; lia]].
  intros x y Hx Hy. apply word_bits_spec in Hx; [|lia..]. apply feature_bits_from_spec in Hy; [|done|lia]. lia.
Qed.

(** The sort of the required bits leaves them as they come. *)
Lemma required_features_sorted ws : Forall word ws → required_features (featureBits ws) = List.filter Z.even (featureBits ws) ∧ StronglySorted Z.lt (List.filter Z.even (featureBits ws)).
Proof.
  intros Hw. assert (StronglySorted Z.lt (List.filter Z.even (featureBits ws))) as Hs.
  { pose proof (featureBits_sorted ws Hw) as Hs. induction Hs as [|b bits Hs IH Hb]; cbn; [constructor|]. case_match; [|done]. constructor; [done|].
    apply Forall_forall. intros x [Hx _]%list_elem_of_In%filter_In. eapply Forall_forall in Hb; [exact Hb|by apply list_elem_of_In]. }
  split; [|done]. unfold required_features. apply (StronglySorted_unique Z.le); [apply (StronglySorted_merge_sort Z.le)| |apply merge_sort_Permutation].
  clear -Hs. induction Hs as [|b bits _ IH Hb]; constructor; [done|]. eapply Forall_impl; [exact Hb|]. lia.
Qed.

(** ** Canonical texts *)

Lemma to_lower_plain c : is_printable c = true → is_printable (to_lower c) = true ∧ is_upper (to_lower c) = false.
Proof. destruct c as [[] [] [] [] [] [] [] []]; vm_compute; intuition congruence. Qed.

Lemma decode_canonical v m d : decodeBech32 v m = Some d → decodeBech32 (text (bd_canonical d)) m = Some d.
Proof.
  intros Hd. destruct (decode_inv v m d Hd) as (ck&Hlow&Hcan&Hne&Hw&Hk&Hl&Hck&Hm). rewrite Hcan, decode_text; try done.
  - destruct d; cbn in *. by rewrite Hcan.
  - split; [done|]. unfold decodeBech32 in Hd. destruct (_ || _); [done|]. destruct (forallb is_printable (chars v)) eqn:Hp; [|done].
    rewrite forallb_forall in Hp. apply Forall_forall. intros c Hc. assert (c ∈ map to_lower (chars v)) as Hin by (rewrite Hlow, Hcan; apply elem_of_app; by left).
    apply list_elem_of_In, in_map_iff in Hin as (c'&<-&Hin). by apply to_lower_plain, Hp.
  - apply (f_equal length) in Hlow. rewrite Hcan, length_map, !length_app in Hlow. cbn in Hlow. rewrite length_map, length_app, Hl in Hlow. unfold CHECKSUM_WORDS in Hlow. lia.
Qed.

Lemma bigEndian_nonneg bytes : Forall byte_value bytes → 0 ≤ bigEndian bytes.
Proof.
  unfold bigEndian. assert (0 ≤ 0) as Hz by done. revert Hz. generalize 0 at 2 4 as v. intros v Hv Hb. revert v Hv.
  induction Hb as [|b bs Hb _ IH]; intros v Hv; cbn; [done|]. apply IH, Z.lor_nonneg. split; [by apply Z.shiftl_nonneg|apply Hb].
Qed.

Section Decoder.
Context `{Secp256k1}.

Lemma decode_iff value m vi : decodeBolt11Invoice value m = Ok vi ↔ ∃ d network amountMsat ts fs sigw signature hash payee,
  decodeBech32 value (length_bound m) = Some d ∧ acceptable d network amountMsat ts fs sigw signature hash ∧
  verifyBolt11Signature (map code (bd_prefix d) ++ wordsToPaddedBytes (ts ++ encode_fields fs)) signature (payee_field fs) = SignatureValid payee ∧
  vi = {| vi_invoice := reading d network amountMsat ts fs hash; vi_payee := payee;
          vi_payeeSource := match payee_field fs with Some _ => n_field | None => recovered end |}.
Proof.
  unfold decodeBolt11Invoice. destruct (Z.ltb_spec (length_bound m) (Z.of_nat (length (chars value)))) as [L|L].
  { split; [done|]. intros (d&?&?&?&?&?&?&?&?&Hd&_). apply decode_inv in Hd as (?&_&_&_&_&_&_&_&?). lia. }
  rewrite result_bind_Ok. setoid_rewrite parse_iff. split.
  - intros (parsed&(d&network&amountMsat&ts&fs&sigw&signature&hash&Hd&Ha&->)&H'). cbn [pa_message pa_signature pa_explicitPayee pa_invoice] in H'.
    destruct (verifyBolt11Signature _ _ _) as [payee| |] eqn:Ev; try done. injection H' as <-. by exists d, network, amountMsat, ts, fs, sigw, signature, hash, payee.
  - intros (d&network&amountMsat&ts&fs&sigw&signature&hash&payee&Hd&Ha&Hv&->). eexists. split; [by exists d, network, amountMsat, ts, fs, sigw, signature, hash|].
    cbn [pa_message pa_signature pa_explicitPayee pa_invoice]. by rewrite Hv.
Qed.

Lemma verify_inv message signature explicitPayee payee : Forall byte_value signature → verifyBolt11Signature message signature explicitPayee = SignatureValid payee →
  length payee = 33%nat ∧ noble_verify (take 64 signature) (sha256 message) payee (is_some explicitPayee) = true ∧ openSslVerifies message (take 64 signature) payee = true ∧
  0 < bigEndian (drop 32 (take 64 signature)) ∧ (∀ p, explicitPayee = Some p → payee = p ∧ bigEndian (drop 32 (take 64 signature)) ≤ HALF_ORDER).
Proof.
  intros Hb. unfold verifyBolt11Signature. destruct (length signature =? 65)%nat; [|done]. cbn [negb]. destruct (3 <? _); [done|].
  set (s := bigEndian (drop 32 (take 64 signature))). destruct (Z.eqb_spec s 0); [by rewrite !orb_true_r|]. case_match; [done|].
  assert (0 ≤ s) by (by apply bigEndian_nonneg, Forall_drop, Forall_take).
  destruct curve_loads; [|done]. cbn [negb]. destruct explicitPayee as [p|]; cbn [is_some].
  - destruct (Nat.eqb_spec (length p) 33), (compressed p); try done. cbn [negb orb]. destruct (Z.ltb_spec HALF_ORDER s); [done|].
    destruct (noble_verify _ _ _ _) eqn:E1, (openSslVerifies _ _ _) eqn:E2; try done. cbn [negb]. intros [= <-]. split_and!; try done; [lia|]. by intros q [= <-].
  - destruct (recoverPublicKey _ _) as [p|]; [|done]. destruct (Nat.eqb_spec (length p) 33); [|done].
    cbn [negb]. destruct (noble_verify _ _ _ _) eqn:E1, (openSslVerifies _ _ _) eqn:E2; try done. cbn [negb]. intros [= <-]. split_and!; try done. lia.
Qed.

(** C39. The decoder answers an invoice exactly when its text is a Bech32 string
    within the bound, its prefix names a network and an amount, its words are the
    seven of the timestamp, a run of well-formed tagged fields with no
    single-valued tag twice and the repeated ones within their limits, and the 104
    of a signature over prefix and data that checks, with a payment hash, a
    payment secret and exactly one of description and description hash; the
    invoice is then the reading of those fields. *)
Theorem decodeBolt11Invoice_exact value m vi : decodeBolt11Invoice value m = Ok vi ↔ ∃ d network amountMsat ts fs sigw signature hash payee,
  decodeBech32 value (length_bound m) = Some d ∧ acceptable d network amountMsat ts fs sigw signature hash ∧
  verifyBolt11Signature (map code (bd_prefix d) ++ wordsToPaddedBytes (ts ++ encode_fields fs)) signature (payee_field fs) = SignatureValid payee ∧
  vi = {| vi_invoice := reading d network amountMsat ts fs hash; vi_payee := payee;
          vi_payeeSource := match payee_field fs with Some _ => n_field | None => recovered end |}.
Proof. exact (decode_iff value m vi). Qed.

(** The lowercase text an invoice is known by decodes to that invoice. *)
Theorem bolt11_canonical_stable value m vi : decodeBolt11Invoice value m = Ok vi →
  iv_canonical (vi_invoice vi) = map to_lower (chars value) ∧ decodeBolt11Invoice (text (iv_canonical (vi_invoice vi))) m = Ok vi.
Proof.
  intros (d&network&amountMsat&ts&fs&sigw&signature&hash&payee&Hd&Ha&Hv&->)%decode_iff. cbn [vi_invoice reading iv_canonical].
  split; [by destruct (decode_inv _ _ _ Hd) as (?&->&_)|]. apply decode_iff.
  exists d, network, amountMsat, ts, fs, sigw, signature, hash, payee. split; [by eapply decode_canonical|]. done.
Qed.

(** *** Bounds on what an invoice can say *)

Lemma lookup_tag_elem t fs f : lookup_tag t fs = Some f → (t, f) ∈ fs.
Proof.
  unfold lookup_tag. induction fs as [|x fs IH]; cbn; [done|]. destruct (Z.eqb_spec x.1 t) as [<-|]; cbn.
  - intros [= <-]. destruct x. apply elem_of_cons. by left.
  - intros Hx. apply elem_of_cons. right. by apply IH.
Qed.
Lemma lookup_ok t fs f : fields_ok fs → lookup_tag t fs = Some f → field_ok t f = true.
Proof. intros [E _ _ _ _] Hl%lookup_tag_elem. by apply (proj1 (Forall_forall _ _) E (t, f)). Qed.

Lemma encode_fields_words fs : Forall word (encode_fields fs) → Forall (λ x, Forall word x.2 ∧ (length x.2 < 1024)%nat) fs.
Proof.
  induction fs as [|[t f] fs IH]; cbn; intros Hw; [constructor|]. apply Forall_cons in Hw as [_ Hw]. apply Forall_cons in Hw as [Hh Hw]. apply Forall_cons in Hw as [_ Hw].
  apply Forall_app in Hw as [Hf Hw]. unfold word in Hh. constructor; [|by apply IH]. cbn. split; [done|]. Z.to_euclidean_division_equations; lia.
Qed.

(** A minimal number field is positive, and ten words hold 50 bits. *)
Lemma number_bound t fs v0 : t = TAG_x ∨ t = TAG_c → 0 < v0 < 2 ^ 50 → fields_ok fs → Forall (λ x, Forall word x.2 ∧ (length x.2 < 1024)%nat) fs →
  0 < default v0 (lookup_tag t fs ≫= wordsToSafeInteger) < 2 ^ 50.
Proof.
  intros Ht Hv Hf Hw. destruct (lookup_tag t fs) as [f|] eqn:El; cbn [mbind option_bind default]; [|done].
  pose proof (lookup_ok _ _ _ Hf El) as Hok. apply lookup_tag_elem in El. destruct (proj1 (Forall_forall _ _) Hw _ El) as [Hw' _]. cbn in Hw'. clear El.
  rewrite wordsToSafeInteger_spec by done. assert (non_minimal f = false) as Hn by (destruct Ht as [-> | ->]; cbn in Hok; by destruct (non_minimal f)).
  destruct (Nat.ltb_spec 10 (length f)) as [|L]; cbn; [done|]. pose proof (of_digits_bound 32 f ltac:(lia) Hw') as Hb.
  assert (32 ^ Z.of_nat (length f) ≤ 32 ^ 10) by (apply Z.pow_le_mono_r; lia). split; [|change (2 ^ 50) with (32 ^ 10); lia].
  destruct f as [|w f]; [done|]. apply Forall_cons in Hw' as [Hw0 Hw']. cbn in Hn. apply Z.eqb_neq in Hn. unfold word in Hw0.
  change (w :: f) with ([w] ++ f). rewrite of_digits_app. pose proof (of_digits_bound 32 f ltac:(lia) Hw').
  assert (0 < 32 ^ Z.of_nat (length f)) by (apply Z.pow_pos_nonneg; lia). change (of_digits 32 [w]) with (0 * 32 + w). nia.
Qed.

Lemma hops_bound f : Forall word f → (length f < 1024)%nat → 0 ≤ hops_of f ≤ 12.
Proof.
  intros Hw Hl. unfold hops_of. destruct (wordsToBytes f allowed) as [b|] eqn:E; [|lia]. apply wordsToBytes_spec in E as (_&_&pad&Hp&_&E&_).
  assert (length b `div` ROUTE_HINT_HOP_BYTES ≤ 12)%nat; [|lia]. apply Nat.lt_succ_r, Nat.Div0.div_lt_upper_bound. unfold ROUTE_HINT_HOP_BYTES. lia.
Qed.
Lemma hop_count_bound fs : Forall (λ x, Forall word x.2 ∧ (length x.2 < 1024)%nat) fs → 0 ≤ hop_count fs ≤ 12 * count (Z.eqb TAG_r) fs.
Proof.
  induction 1 as [|[t f] fs [Hw Hl] _ IH]; [done|]. pose proof (hops_bound f Hw Hl). rewrite (count_app _ [(t, f)] fs : count _ ((t, f) :: fs) = _). unfold count at 1. cbn [hop_count List.filter fst]. rewrite (Z.eqb_sym TAG_r).
  destruct (t =? TAG_r); cbn [length]; lia.
Qed.
Lemma dependencies_closed bits : featureDependenciesSet bits = true →
  (featurePresent bits 14 = true → featurePresent bits 8 = true) ∧ (featurePresent bits 16 = true → featurePresent bits 14 = true ∧ featurePresent bits 8 = true).
Proof. cbn. destruct (featurePresent bits 14), (featurePresent bits 16), (featurePresent bits 8); cbn; intuition. Qed.

(** The feature bits of the fields: those set in the feature field. *)
Definition feature_bits (fs : list Field) : list Z := default [] (featureBits <$> lookup_tag TAG_9 fs).
Lemma features_reading fs : fields_ok fs → Forall (λ x, Forall word x.2 ∧ (length x.2 < 1024)%nat) fs → let bits := feature_bits fs in
  default [] ((λ f, required_features (featureBits f)) <$> lookup_tag TAG_9 fs) = List.filter Z.even bits ∧ StronglySorted Z.lt (List.filter Z.even bits) ∧
  Forall (λ bit, bit ∈ BOLT11_SUPPORTED_REQUIRED_FEATURES) (List.filter Z.even bits) ∧ featureDependenciesSet bits = true.
Proof.
  intros Hf Hw. unfold feature_bits. destruct (lookup_tag TAG_9 fs) as [f|] eqn:El; cbn [fmap option_fmap option_map default]; [|split_and!; done || constructor].
  pose proof (lookup_ok _ _ _ Hf El) as Hok. cbn -[featureDependenciesSet forallb mem featureBits] in Hok. apply lookup_tag_elem in El.
  destruct (proj1 (Forall_forall _ _) Hw _ El) as [Hw' _]. destruct (required_features_sorted f Hw') as [-> Hs].
  destruct (non_minimal f); [done|]. cbn [negb andb] in Hok. apply andb_true_iff in Hok as [Ha Hd]. split_and!; try done.
  rewrite forallb_forall in Ha. apply Forall_forall. intros b [Hb He]%list_elem_of_In%filter_In. apply Ha in Hb. rewrite He in Hb. by apply mem_spec.
Qed.

Lemma amount_bound p network a : readPrefix p = Ok (network, Some a) → 0 < a ≤ LIGHTNING_MAXIMUM_MSAT.
Proof.
  unfold readPrefix. destruct (_ ≫= _) as [[n [|c r]]|]; [done| |done]. destruct (msatOfBolt11Amount _) as [v|] eqn:E; [|done]. intros [= _ <-]. apply bolt11_exact in E. naive_solver.
Qed.
Lemma bytes32_length f b : bytes32 f = Some b → length b = 32%nat.
Proof. unfold bytes32. destruct (wordsToBytes f allowed); cbn; [|done]. destruct (Nat.eqb_spec (length l) 32); [by intros [= <-]|done]. Qed.

(** What an accepted invoice states is bounded: amounts by the supply of
    bitcoin, the timestamp by 35 bits and the expiry by 50, so that the instant it
    expires at is a safe integer after its timestamp; hashes and keys have their
    lengths, route hints and fallbacks their limits; the required features are
    supported ones, ascending, and every dependency of a present feature is
    present, transitively. *)
Theorem bolt11_invoice_bounds value m vi (i := vi_invoice vi) : decodeBolt11Invoice value m = Ok vi →
  (∀ a, iv_amountMsat i = Some a → 0 < a ≤ LIGHTNING_MAXIMUM_MSAT) ∧
  0 ≤ iv_timestamp i < 2 ^ 35 ∧ 0 < iv_expirySeconds i < 2 ^ 50 ∧ iv_timestamp i < bolt11ExpiresAt i ≤ MAX_SAFE_INTEGER ∧ 0 < iv_minFinalCltvExpiryDelta i < 2 ^ 50 ∧
  length (iv_paymentHash i) = 32%nat ∧ length (vi_payee vi) = 33%nat ∧ (∀ h, iv_descriptionHash i = Some h → length h = 32%nat) ∧
  0 ≤ iv_routeHintCount i ≤ 96 ∧ 0 ≤ iv_fallbackCount i ≤ MAXIMUM_FALLBACK_FIELDS ∧
  ∃ bits, iv_requiredFeatures i = List.filter Z.even bits ∧ StronglySorted Z.lt (iv_requiredFeatures i) ∧
    Forall (λ bit, bit ∈ BOLT11_SUPPORTED_REQUIRED_FEATURES) (iv_requiredFeatures i) ∧
    (featurePresent bits 14 = true → featurePresent bits 8 = true) ∧ (featurePresent bits 16 = true → featurePresent bits 14 = true ∧ featurePresent bits 8 = true).
Proof.
  intros (d&network&amountMsat&ts&fs&sigw&signature&hash&payee&Hd&[Hp Ew Ht Hs Hsig Hf Hh Hsec Hde]&Hv&->)%decode_iff. subst i.
  cbn [vi_invoice vi_payee reading iv_amountMsat iv_timestamp iv_expirySeconds iv_paymentHash iv_descriptionHash iv_minFinalCltvExpiryDelta iv_requiredFeatures iv_routeHintCount iv_fallbackCount].
  assert (Forall word (bd_words d)) as Hw by (apply decode_inv in Hd; naive_solver). rewrite Ew in Hw.
  apply Forall_app in Hw as [[Hwt Hwf%encode_fields_words]%Forall_app _].
  pose proof (of_digits_bound 32 ts ltac:(lia) Hwt) as Hb. rewrite Ht in Hb. change (32 ^ Z.of_nat TIMESTAMP_WORDS) with (2 ^ 35) in Hb.
  pose proof (number_bound TAG_x fs BOLT11_DEFAULT_EXPIRY_SECONDS (or_introl eq_refl) ltac:(done) Hf Hwf) as Hx.
  pose proof (number_bound TAG_c fs BOLT11_DEFAULT_MIN_FINAL_CLTV_EXPIRY_DELTA (or_intror eq_refl) ltac:(done) Hf Hwf) as Hc.
  destruct (features_reading fs Hf Hwf) as (Hreq&Hsort&Hsup&Hdep).
  split; [intros a ->; by eapply amount_bound|]. split; [done|]. split; [done|].
  split; [unfold bolt11ExpiresAt, MAX_SAFE_INTEGER; cbn [iv_timestamp iv_expirySeconds reading]; lia|]. split; [done|].
  split; [destruct (lookup_tag TAG_p fs); [by apply bytes32_length in Hh|done]|].
  split; [apply wordsToBytes_spec in Hsig as (_&Hbytes&_); by destruct (verify_inv _ _ _ _ Hbytes Hv)|].
  split; [intros h Eh; destruct (lookup_tag TAG_h fs); [by apply bytes32_length in Eh|done]|].
  split; [pose proof (hop_count_bound fs Hwf); pose proof (fo_hints _ Hf); unfold MAXIMUM_ROUTE_HINT_FIELDS in *; lia|].
  split; [pose proof (fo_fallbacks _ Hf); unfold count in *; lia|].
  exists (feature_bits fs). rewrite Hreq. split_and!; try done; by apply dependencies_closed.
Qed.
End Decoder.

(** ** An invoice of the specification *)

Module Example.
(** The second test vector of BOLT #11, with libraries that accept every signature. *)
Definition payee : list Z := [0x03; 0xe7; 0x15; 0x6a; 0xe3; 0x3b; 0x0a; 0x20; 0x8d; 0x07; 0x44; 0x19; 0x91; 0x63; 0x17; 0x7e; 0x90; 0x9e; 0x80; 0x17; 0x6e; 0x55; 0xd9; 0x7a;
  0x2f; 0x22; 0x1e; 0xde; 0x0f; 0x93; 0x4d; 0xd9; 0xad].
#[local] Instance accepting : Secp256k1 := {|
  curve_loads := true; recoverPublicKey := λ _ _, Some payee; noble_verify := λ _ _ _ _, true; openSslVerifies := λ _ _ _, true; sha256 := λ _, [] |}.
Definition coffee : string := "lnbc2500u1pvjluezsp5zyg3zyg3zyg3zyg3zyg3zyg3zyg3zyg3zyg3zyg3zyg3zyg3zygspp5qqqsyqcyq5rqwzqfqqqsyqcyq5rqwzqfqqqsyqcyq5rqwzqfqypqdq5xysxxatsyp3k7enxv4jsxqzpu9qrsgquk0rl77nj30yxdy8j9vdx85fkpmdla2087ne0xh8nhedh8w27kyke0lp53ut353s06fv3qfegext0eh0ymjpf39tuven09sam30g4vgpfna3rh".
Definition coffee_invoice : VerifiedInvoice := {|
  vi_invoice := {| iv_canonical := chars coffee; iv_network := mainnet; iv_amountMsat := Some 250000000; iv_timestamp := 1496314658; iv_expirySeconds := 60;
    iv_paymentHash := [0; 1; 2; 3; 4; 5; 6; 7; 8; 9; 0; 1; 2; 3; 4; 5; 6; 7; 8; 9; 0; 1; 2; 3; 4; 5; 6; 7; 8; 9; 1; 2]; iv_descriptionHash := None;
    iv_minFinalCltvExpiryDelta := 18; iv_requiredFeatures := [8; 14]; iv_routeHintCount := 0; iv_fallbackCount := 0 |};
  vi_payee := payee; vi_payeeSource := recovered |}.
Lemma coffee_decodes : decodeBolt11Invoice coffee BOLT11_ABSOLUTE_MAXIMUM_LENGTH = Ok coffee_invoice.
Proof. vm_compute. reflexivity. Qed.

Lemma bolt11_canonical_stable_witness : decodeBolt11Invoice (text (iv_canonical (vi_invoice coffee_invoice))) BOLT11_ABSOLUTE_MAXIMUM_LENGTH = Ok coffee_invoice.
Proof. exact (proj2 (bolt11_canonical_stable coffee BOLT11_ABSOLUTE_MAXIMUM_LENGTH coffee_invoice coffee_decodes)). Defined.
Lemma bolt11_invoice_bounds_witness : iv_timestamp (vi_invoice coffee_invoice) < bolt11ExpiresAt (vi_invoice coffee_invoice) ≤ MAX_SAFE_INTEGER.
Proof.
  pose proof (bolt11_invoice_bounds coffee BOLT11_ABSOLUTE_MAXIMUM_LENGTH coffee_invoice coffee_decodes) as (_&_&_&H&_). exact H.
Defined.
End Example.
