(* ===== verification/RailProgram.v ===== *)
(** * Asynchronous handlers over a shared world

    A payment rail is an asynchronous function: it computes, awaits an answer
    of some port, and computes on. Here such a function is a program, a finite
    tree that either returns or asks an operation and continues with whatever is
    answered; a thrown value is a [Throw]. Any number of calls run interleaved
    against one shared state, each step one await, and any call may stop for good
    at any point, as a crashed process does.

    The main lemma is about permits. Some answers grant a record, some operations
    spend one; a program is disciplined when it spends only a record it was
    granted, and each grant once. Then over every interleaving what is spent is
    part of what was granted, so that keys the granting side never repeats are
    never repeated by a spending operation. *)

From S2P Require Import Prelude.

Local Open Scope frontera_scope.

(** ** Programs *)

Class Effects (Op : Type) := answer : Op → Type.

Section Programs.
Context {Op : Type} `{Effects Op}.

Inductive Prog (R : Type) : Type :=
  | Ret (r : R)
  | Ask (op : Op) (k : answer op → Prog R).
#[global] Arguments Ret {R}.
#[global] Arguments Ask {R}.

Fixpoint prog_bind {A B} (m : Prog A) (f : A → Prog B) : Prog B :=
  match m with
  | Ret a => f a
  | Ask op k => Ask op (λ x, prog_bind (k x) f)
  end.

(** A statement that may throw, and the one after it. *)
Definition attempt_bind {E A B} (m : Prog (result E A)) (f : A → Prog (result E B)) : Prog (result E B) :=
  prog_bind m (λ r, match r with Ok a => f a | Throw e => Ret (Throw e) end).
Definition ask (op : Op) : Prog (answer op) := Ask op Ret.
Definition lift {E A} (r : result E A) : Prog (result E A) := Ret r.

(** One complete run of a program by itself: the answers it got and its value. *)
Definition Exchange : Type := { op : Op & answer op }.
Fixpoint yields {R} (p : Prog R) (tr : list Exchange) (r : R) : Prop :=
  match p with
  | Ret r' => tr = [] ∧ r = r'
  | Ask op k => ∃ a tr', tr = existT op a :: tr' ∧ yields (k a) tr' r
  end.

(** The run an oracle determines. *)
Fixpoint run {R} (oracle : nat → ∀ op : Op, answer op) (n : nat) (p : Prog R) {struct p} : list Exchange * option R :=
  match p with
  | Ret r => ([], Some r)
  | Ask op k =>
      match n with
      | O => ([], None)
      | S n => let rest := run (λ i, oracle (S i)) n (k (oracle O op)) in (existT op (oracle O op) :: rest.1, rest.2)
      end
  end.
Lemma run_yields {R} oracle n (p : Prog R) tr r : run oracle n p = (tr, Some r) → yields p tr r.
Proof.
  revert oracle n tr. induction p as [r'|op k IH]; intros oracle n tr Hr; cbn in *; [by simplify_eq|]. destruct n as [|n]; [done|].
  destruct (run _ n _) as [tr' o] eqn:E. cbn in Hr. simplify_eq. exists (oracle 0%nat op), tr'. split; [done|]. by eapply IH.
Qed.

(** Every run ends within [n] answers. *)
Fixpoint finishes {R} (n : nat) (p : Prog R) : Prop :=
  match p, n with
  | Ret _, _ => True
  | Ask _ _, O => False
  | Ask op k, S n => ∀ a, finishes n (k a)
  end.

Lemma finishes_mono {R} (p : Prog R) n n' : (n ≤ n')%nat → finishes n p → finishes n' p.
Proof.
  revert n n'. induction p as [r|op k IH]; intros n n' Hl Hf; [by destruct n'|]. destruct n as [|n], n' as [|n']; cbn in *; try done; [lia|].
  intros a. apply (IH a n); [lia|done].
Qed.
Lemma finishes_bind {A B} (m : Prog A) (f : A → Prog B) n n' : finishes n m → (∀ a, finishes n' (f a)) → finishes (n + n') (prog_bind m f).
Proof.
  revert n. induction m as [a|op k IH]; intros n Hm Hf; cbn.
  - eapply finishes_mono; [|apply Hf]. lia.
  - destruct n as [|n]; [done|]. cbn in *. intros a. by apply IH.
Qed.

Lemma yields_bind {A B} (m : Prog A) (f : A → Prog B) tr b :
  yields (prog_bind m f) tr b ↔ ∃ tr1 tr2 a, tr = tr1 ++ tr2 ∧ yields m tr1 a ∧ yields (f a) tr2 b.
Proof.
  revert tr. induction m as [a|op k IH]; intros tr; cbn.
  - split; [intros Hy; by exists [], tr, a|]. by intros (tr1&tr2&a'&->&[-> ->]&Hf).
  - setoid_rewrite IH. split.
    + intros (x&tr'&->&tr1&tr2&a&->&Hm&Hf). exists (existT op x :: tr1), tr2, a. split; [done|]. split; [by exists x, tr1|done].
    + intros (tr1&tr2&a&->&(x&tr'&->&Hm)&Hf). exists x, (tr' ++ tr2). split; [done|]. by exists tr', tr2, a.
Qed.
End Programs.

Notation "'await*' x ':=' m 'in' k" := (attempt_bind m (fun x => k))
  (at level 10, x name, m at level 100, k at level 200) : frontera_scope.

(** ** Interleaved calls *)

Section Machine.
Context {Op : Type} `{Effects Op} {Req R World : Type}.
(** What an operation may answer in a state of the world, and the state after it. *)
Variable serve : World → ∀ op : Op, answer op → World → Prop.
Variable handler : Req → Prog R.

Record Event := { ev_req : Req; ev_op : Op; ev_answer : answer ev_op }.
(** A call of a request; [None] once its process has crashed. *)
Definition Call : Type := Req * option (Prog R).
Record Machine := { m_world : World; m_calls : list Call }.

Inductive reach (w0 : World) : list Event → Machine → Prop :=
  | reach_initial : reach w0 [] {| m_world := w0; m_calls := [] |}
  | reach_call tr m req : reach w0 tr m → reach w0 tr {| m_world := m_world m; m_calls := m_calls m ++ [(req, Some (handler req))] |}
  | reach_answer tr m i req op k a w : reach w0 tr m → m_calls m !! i = Some (req, Some (Ask op k)) → serve (m_world m) op a w →
      reach w0 (tr ++ [{| ev_req := req; ev_op := op; ev_answer := a |}]) {| m_world := w; m_calls := <[i := (req, Some (k a))]> (m_calls m) |}
  | reach_crash tr m i req p : reach w0 tr m → m_calls m !! i = Some (req, p) →
      reach w0 tr {| m_world := m_world m; m_calls := <[i := (req, None)]> (m_calls m) |}.

(** A single call that runs undisturbed is one of the interleavings. *)
Fixpoint served (w : World) (tr : list (Exchange (Op := Op))) (w' : World) : Prop :=
  match tr with
  | [] => w' = w
  | existT op a :: tr => ∃ w1, serve w op a w1 ∧ served w1 tr w'
  end.
Definition events (req : Req) (tr : list (Exchange (Op := Op))) : list Event := (λ x, {| ev_req := req; ev_op := projT1 x; ev_answer := projT2 x |}) <$> tr.
Lemma alone_reach w0 tr0 req p w tr r w' : reach w0 tr0 {| m_world := w; m_calls := [(req, Some p)] |} → yields p tr r → served w tr w' →
  reach w0 (tr0 ++ events req tr) {| m_world := w'; m_calls := [(req, Some (Ret r))] |}.
Proof.
  revert tr0 w tr. induction p as [r'|op k IH]; intros tr0 w tr Hr Hy Hs; cbn in Hy.
  - destruct Hy as [-> ->]. cbn in Hs. subst w'. cbn. by rewrite app_nil_r.
  - destruct Hy as (a&tr'&->&Hy), Hs as (w1&Hs&Hs'). cbn. rewrite cons_middle, app_assoc. eapply IH; [|done|done].
    by apply (reach_answer _ _ _ 0 req op k a w1 Hr).
Qed.
Lemma call_alone w0 req tr r w : yields (handler req) tr r → served w0 tr w → reach w0 (events req tr) {| m_world := w; m_calls := [(req, Some (Ret r))] |}.
Proof. intros. by eapply (alone_reach w0 []); [apply (reach_call _ _ _ req (reach_initial w0))| |]. Qed.

(** *** Permits *)

Context {Rec : Type}.
Variable grants : ∀ op : Op, answer op → option Rec.
Variable spends : Op → bool.
(** The operation is one the record permits, for a request. *)
Variable permits : Req → Rec → Op → Prop.

Definition granted (tr : list Event) : list Rec := omap (λ e, grants (ev_op e) (ev_answer e)) tr.
Definition spent (tr : list Event) : list (Req * Op) := omap (λ e, if spends (ev_op e) then Some (ev_req e, ev_op e) else None) tr.

Fixpoint disciplined (req : Req) (held : option Rec) (p : Prog R) : Prop :=
  match p with
  | Ret _ => True
  | Ask op k =>
      if spends op then (∃ r, held = Some r ∧ permits req r op) ∧ ∀ a, grants op a = None ∧ disciplined req None (k a)
      else ∀ a, match grants op a with Some r => held = None ∧ disciplined req (Some r) (k a) | None => disciplined req held (k a) end
  end.

(** A part that neither is granted nor spends anything, with what holds of its value. *)
Fixpoint post {A} (P : A → Prop) (m : Prog A) : Prop :=
  match m with
  | Ret a => P a
  | Ask op k => spends op = false ∧ ∀ a, grants op a = None ∧ post P (k a)
  end.
Lemma disciplined_bind {A} (P : A → Prop) req held (m : Prog A) (f : A → Prog R) :
  post P m → (∀ a, P a → disciplined req held (f a)) → disciplined req held (prog_bind m f).
Proof.
  intros Hm Hf. induction m as [a|op k IH]; cbn; [by apply Hf|]. destruct Hm as [-> Hm]. intros a. destruct (Hm a) as [-> Hk]. by apply IH.
Qed.
Lemma disciplined_bind_bind {A B} (P : A → Prop) req held (m : Prog A) (f : A → Prog B) (g : B → Prog R) :
  post P m → (∀ a, P a → disciplined req held (prog_bind (f a) g)) → disciplined req held (prog_bind (prog_bind m f) g).
Proof.
  intros Hm Hf. induction m as [a|op k IH]; cbn; [by apply Hf|]. destruct Hm as [-> Hm]. intros a. destruct (Hm a) as [-> Hk]. by apply IH.
Qed.
Lemma post_bind {A B} (P : A → Prop) (Q : B → Prop) (m : Prog A) (f : A → Prog B) : post P m → (∀ a, P a → post Q (f a)) → post Q (prog_bind m f).
Proof.
  intros Hm Hf. induction m as [a|op k IH]; cbn; [by apply Hf|]. destruct Hm as [Hs Hm]. split; [done|]. intros a. destruct (Hm a). split; [done|]. by apply IH.
Qed.
Lemma post_impl {A} (P Q : A → Prop) (m : Prog A) : post P m → (∀ a, P a → Q a) → post Q m.
Proof. intros Hm Hi. induction m as [a|op k IH]; cbn in *; [by apply Hi|]. destruct Hm as [? Hm]. split; [done|]. intros a. destruct (Hm a). split; [done|]. by apply IH. Qed.
(** The same for parts that may throw: what holds of the value when they do not. *)
Definition returns {E A} (P : A → Prop) (r : result E A) : Prop := match r with Ok a => P a | Throw _ => True end.
Lemma post_attempt {E A B} (P : A → Prop) (Q : B → Prop) (m : Prog (result E A)) (f : A → Prog (result E B)) :
  post (returns P) m → (∀ a, P a → post (returns Q) (f a)) → post (returns Q) (attempt_bind m f).
Proof. intros Hm Hf. apply (post_bind (returns P)); [done|]. intros [a|e] Ha; [by apply Hf|done]. Qed.

(** What a run of such a part showed. *)
Lemma post_yields {A} (P : A → Prop) (m : Prog A) tr a : post P m → yields m tr a → P a ∧ Forall (λ x, spends (projT1 x) = false) tr.
Proof.
  revert tr. induction m as [b|op k IH]; intros tr Hm Hy; cbn in *.
  - destruct Hy as [-> ->]. by split.
  - destruct Hy as (x&tr'&->&Hy), Hm as [Hs Hm]. destruct (IH x tr') as [Ha HF]; [by apply Hm|done|]. split; [done|]. by constructor.
Qed.

Definition call_ok (c : Call) (held : option Rec) : Prop := match c.2 with Some p => disciplined c.1 held p | None => True end.
(** Every live call is disciplined, and what was granted is what was spent, what is held, and what a crash lost. *)
Definition accounted (tr : list Event) (m : Machine) : Prop := ∃ helds used lost,
  Forall2 call_ok (m_calls m) helds ∧ Forall2 (λ x r, permits x.1 r x.2) (spent tr) used ∧ granted tr ≡ₚ used ++ omap id helds ++ lost.

Lemma granted_snoc tr e : granted (tr ++ [e]) = granted tr ++ option_list (grants (ev_op e) (ev_answer e)).
Proof. unfold granted. rewrite omap_app. cbn. by destruct (grants _ _). Qed.
Lemma spent_snoc tr e : spent (tr ++ [e]) = spent tr ++ (if spends (ev_op e) then [(ev_req e, ev_op e)] else []).
Proof. unfold spent. rewrite omap_app. cbn. by destruct (spends _). Qed.
Lemma held_insert (l : list (option Rec)) i o o' : l !! i = Some o → option_list o ++ omap id (<[i := o']> l) ≡ₚ option_list o' ++ omap id l.
Proof.
  revert i. induction l as [|x l IH]; intros [|i] Hl; [done..| |]; cbn in Hl |- *.
  - injection Hl as ->. destruct o, o'; cbn; try done. apply perm_swap.
  - specialize (IH i Hl). destruct x as [r|]; cbn; [|done]. change (λ x, x) with (@id (option Rec)).
    rewrite <-!Permutation_middle. by rewrite IH.
Qed.

Lemma accounted_reach w0 tr m : (∀ req, disciplined req None (handler req)) → reach w0 tr m → accounted tr m.
Proof.
  intros Hd. induction 1 as [|tr m req _ (helds&used&lost&Hc&Hu&Hg)|tr m i req op k a w _ (helds&used&lost&Hc&Hu&Hg) Hi Hs|tr m i req p _ (helds&used&lost&Hc&Hu&Hg) Hi].
  - exists [], [], []. repeat constructor.
  - exists (helds ++ [None]), used, lost. cbn [m_calls]. split; [apply Forall2_app; [done|constructor; [apply Hd|constructor]]|]. split; [done|]. rewrite omap_app. cbn. by rewrite app_nil_r.
  - destruct (Forall2_lookup_l _ _ _ _ _ Hc Hi) as (held&Hh&Hok). cbn in Hok. unfold accounted. rewrite granted_snoc, spent_snoc. cbn [ev_op ev_answer ev_req].
    destruct (spends op) eqn:Es.
    + destruct Hok as [(r&->&Hp) Hk]. destruct (Hk a) as [Hn Hk']. exists (<[i := None]> helds), (used ++ [r]), lost. rewrite Hn, app_nil_r. cbn [m_calls].
      split; [by apply Forall2_insert|]. split; [apply Forall2_app; [done|constructor; [done|constructor]]|]. rewrite Hg.
      pose proof (held_insert helds i (Some r) None Hh) as Hp'. cbn in Hp'. rewrite <-Hp'. rewrite <-!app_assoc. cbn. by rewrite Permutation_middle.
    + specialize (Hok a). destruct (grants op a) as [r|].
      * destruct Hok as [-> Hk]. exists (<[i := Some r]> helds), used, lost. cbn [m_calls]. split; [by apply Forall2_insert|]. split; [by rewrite app_nil_r|]. rewrite Hg.
        pose proof (held_insert helds i None (Some r) Hh) as Hp'. cbn in Hp'. rewrite Hp'. cbn. rewrite Permutation_app_comm. cbn. by rewrite Permutation_middle.
      * exists helds, used, lost. cbn [m_calls]. rewrite !app_nil_r. split; [|done]. rewrite <-(list_insert_id helds i held Hh). by apply Forall2_insert.
  - destruct (Forall2_lookup_l _ _ _ _ _ Hc Hi) as (held&Hh&_). exists (<[i := None]> helds), used, (option_list held ++ lost). cbn [m_calls].
    split; [by apply Forall2_insert|]. split; [done|]. rewrite Hg. pose proof (held_insert helds i held None Hh) as Hp'. cbn in Hp'. rewrite <-Hp'.
    by rewrite (Permutation_app_comm (option_list held)), <-!app_assoc.
Qed.

(** A key of the records that no two grants share is shared by no two spending
    operations, and each of these was permitted by a granted record. *)
Lemma spent_once {K} (key : Rec → K) (key' : Req * Op → K) w0 tr m : (∀ req, disciplined req None (handler req)) → reach w0 tr m →
  (∀ req r op, permits req r op → key' (req, op) = key r) → NoDup (key <$> granted tr) →
  NoDup (key' <$> spent tr) ∧ Forall (λ x, ∃ r, r ∈ granted tr ∧ permits x.1 r x.2) (spent tr).
Proof.
  intros Hd Hr Hk Hn. destruct (accounted_reach _ _ _ Hd Hr) as (helds&used&lost&_&Hu&Hg). split.
  - assert (key' <$> spent tr = key <$> used) as ->.
    { clear -Hu Hk. induction Hu as [|[q op] r l l' Hp _ IH]; cbn; [done|]. by rewrite IH, (Hk q r op). }
    rewrite Hg, fmap_app in Hn. by apply NoDup_app in Hn as [? _].
  - apply Forall_forall. intros x Hx. apply list_elem_of_lookup in Hx as [i Hx]. destruct (Forall2_lookup_l _ _ _ _ _ Hu Hx) as (r&Hr'&Hp).
    exists r. split; [|done]. rewrite Hg. apply elem_of_app. left. by eapply list_elem_of_lookup_2.
Qed.
End Machine.
