(* ===== verification/Payments.v ===== *)
(** * Payments, before any rail

    Model of payment-runtime/domain: the grammars of payment references
    (payment-grammar.ts), the payment intent and how an untrusted one is read
    (payment-intent.ts), its compilation to a governed action
    (payment-governance.ts), the request a rail receives (payment-execution.ts),
    the rail contract and how a rail's answer is read (payment-rail.ts); and of
    services/payment-rail-execution-adapter.ts, the one way a rail is reached.

    An untrusted object is its own properties in key order; a property may be an
    accessor, and none is named by a symbol or hidden from enumeration. *)

From S2P Require Import Prelude Decimal Js Monetary Parameters GrantExercise AdapterPort Execution RailProgram.

Local Open Scope Z_scope.
Local Open Scope frontera_scope.

(** ** Grammars *)

Definition PAYMENT_REFERENCE_MAXIMUM_LENGTH : Z := 200.
Definition PAYMENT_DESTINATION_KIND_MAXIMUM_LENGTH : Z := 32.
Definition PAYMENT_ENVELOPE_IDENTIFIER_MAXIMUM_LENGTH : Z := 256.

Definition PAYMENT_REFERENCE (s : string) : bool :=
  match chars s with [] => false | c :: l => is_alnum c && forallb (λ c, is_alnum c || one_of "._:@+=-" c) l end.

(** Lowercase words joined by single hyphens; [after] says the last character was a hyphen. *)
Fixpoint kind_tail (after : bool) (l : list ascii) : bool :=
  match l with
  | [] => negb after
  | c :: l => if is_lower c || is_digit c then kind_tail false l else bool_decide (c = "-"%char) && negb after && kind_tail true l
  end.
Definition PAYMENT_DESTINATION_KIND (s : string) : bool :=
  match chars s with [] => false | c :: l => is_lower c && kind_tail false l end.

Definition isPaymentReference (s : string) : bool :=
  nonempty s && (js_length s <=? PAYMENT_REFERENCE_MAXIMUM_LENGTH) && PAYMENT_REFERENCE s && isRecordableProviderRef (Some s).
Definition isPaymentBusinessReference (s : string) : bool := isGovernedParameterToken s && isRecordableProviderRef (Some s).
Definition isPaymentRailId (s : string) : bool := isSemanticIdentifier s && isRecordableProviderRef (Some s).
Definition isPaymentDestinationKind (s : string) : bool :=
  nonempty s && (js_length s <=? PAYMENT_DESTINATION_KIND_MAXIMUM_LENGTH) && PAYMENT_DESTINATION_KIND s.
Definition isPaymentEnvelopeIdentifier (s : string) : bool :=
  nonempty s && (js_length s <=? PAYMENT_ENVELOPE_IDENTIFIER_MAXIMUM_LENGTH) && is_trimmed s && negb (existsb is_control (chars s)) && isRecordableProviderRef (Some s).

(** A grammar applied to an untrusted value: the text it accepts. *)
Definition reading (p : string → bool) (v : JsValue) : option string :=
  match v with JsString s => if p s then Some s else None | _ => None end.

Definition SECRET_PROPERTY : list Regex :=
  (rlit_i <$> ["secret"; "password"; "passphrase"]) ++ [rseq [rlit_i "private"; ropt (rlit "_"); rlit_i "key"]; rlit_i "privatekey"; rseq [rlit_i "signing"; ropt (rlit "_"); rlit_i "key"]] ++
  (rlit_i <$> ["mnemonic"; "seed"; "credential"; "bearer"]) ++
  [rseq [rlit_i "api"; ropt (rlit "_"); rlit_i "key"]; rlit_i "authorization"; rseq [rlit_i "access"; ropt (rlit "_"); rlit_i "token"]; rseq [rlit_i "refresh"; ropt (rlit "_"); rlit_i "token"]].
Definition isSecretShapedPropertyName (name : string) : bool := existsb (λ r, regex_test r name) SECRET_PROPERTY.

Definition reportablePropertyName (name : string) : string :=
  if nonempty name && (js_length name <=? 64) && forallb (λ c, is_alnum c || one_of "_.-" c) (chars name) then name else "<property>".

Definition isPlainRecord (v : JsValue) : option (list (string * JsValue)) := match v with JsObject true properties => Some properties | _ => None end.

(** ** The payment intent *)

Record PaymentSourceRef := { accountId : string }.
Record PaymentDestination := { pd_kind : string; pd_reference : string }.
Record PaymentIntent := {
  pi_source : PaymentSourceRef;
  pi_destination : PaymentDestination;
  pi_amount : MonetaryAmount;
  pi_purpose : string;
  pi_reference : option string;
  pi_rail : option string;
  pi_idempotencyKey : string;
  pi_correlationId : option string;
}.

Definition PAYMENT_PURPOSES : list string := ["vendor-payment"; "treasury-transfer"; "settlement"; "reimbursement"; "payroll"; "purchase"; "refund"].
Definition isPaymentPurpose (s : string) : bool := bool_decide (s ∈ PAYMENT_PURPOSES).

Inductive PaymentIntentViolationCode :=
  | PAYMENT_INTENT_NOT_OBJECT | PAYMENT_PROPERTY_UNDECLARED | PAYMENT_SECRET_MATERIAL_REFUSED | PAYMENT_PROPERTY_NOT_DATA
  | PAYMENT_SOURCE_INVALID | PAYMENT_DESTINATION_INVALID | PAYMENT_DESTINATION_KIND_INVALID | PAYMENT_DESTINATION_REFERENCE_INVALID
  | PAYMENT_AMOUNT_INVALID | PAYMENT_AMOUNT_NOT_TEXT | PAYMENT_AMOUNT_MALFORMED | PAYMENT_ASSET_UNKNOWN | PAYMENT_AMOUNT_SCALE_EXCEEDED
  | PAYMENT_AMOUNT_NOT_POSITIVE | PAYMENT_PURPOSE_INVALID | PAYMENT_REFERENCE_INVALID | PAYMENT_RAIL_INVALID
  | PAYMENT_IDEMPOTENCY_KEY_INVALID | PAYMENT_CORRELATION_ID_INVALID.
Record PaymentIntentViolation := { vi_code : PaymentIntentViolationCode; vi_field : string }.
Inductive PaymentIntentValidation := ValidIntent (intent : PaymentIntent) | InvalidIntent (violations : list PaymentIntentViolation).

Definition INTENT_KEYS : list string := ["source"; "destination"; "amount"; "purpose"; "reference"; "rail"; "idempotencyKey"; "correlationId"].
Definition SOURCE_KEYS : list string := ["accountId"].
Definition DESTINATION_KEYS : list string := ["kind"; "reference"].
Definition AMOUNT_KEYS : list string := ["value"; "unit"].

Record ClosedRead := { cr_fields : list (string * JsValue); cr_unread : list string; cr_violations : list PaymentIntentViolation }.
Fixpoint readClosed (raw : list (string * JsValue)) (declared : list string) (path : string) : ClosedRead :=
  match raw with
  | [] => {| cr_fields := []; cr_unread := []; cr_violations := [] |}
  | (key, v) :: raw =>
      let rest := readClosed raw declared path in
      let violation code := {| vi_code := code; vi_field := path +:+ reportablePropertyName key |} in
      if negb (bool_decide (key ∈ declared)) then
        {| cr_fields := cr_fields rest; cr_unread := cr_unread rest;
           cr_violations := violation (if isSecretShapedPropertyName key then PAYMENT_SECRET_MATERIAL_REFUSED else PAYMENT_PROPERTY_UNDECLARED) :: cr_violations rest |}
      else match v with
      | JsAccessor => {| cr_fields := cr_fields rest; cr_unread := key :: cr_unread rest; cr_violations := violation PAYMENT_PROPERTY_NOT_DATA :: cr_violations rest |}
      | _ => {| cr_fields := (key, v) :: cr_fields rest; cr_unread := cr_unread rest; cr_violations := cr_violations rest |}
      end
  end.

(** [fields[key]] *)
Definition field (fields : list (string * JsValue)) (key : string) : JsValue := default JsUndefined (own_property key fields).
Definition refuse_field (code : PaymentIntentViolationCode) (f : string) : list PaymentIntentViolation := [{| vi_code := code; vi_field := f |}].

Definition validateSource (raw : JsValue) : option PaymentSourceRef * list PaymentIntentViolation :=
  match isPlainRecord raw with
  | None => (None, refuse_field PAYMENT_SOURCE_INVALID "source")
  | Some properties =>
      let read := readClosed properties SOURCE_KEYS "source." in
      match cr_unread read with
      | _ :: _ => (None, cr_violations read)
      | [] => match reading isPaymentReference (field (cr_fields read) "accountId") with
              | Some id => (Some {| accountId := id |}, cr_violations read)
              | None => (None, cr_violations read ++ refuse_field PAYMENT_SOURCE_INVALID "source.accountId")
              end
      end
  end.

Definition validateDestination (raw : JsValue) : option PaymentDestination * list PaymentIntentViolation :=
  match isPlainRecord raw with
  | None => (None, refuse_field PAYMENT_DESTINATION_INVALID "destination")
  | Some properties =>
      let read := readClosed properties DESTINATION_KEYS "destination." in
      match cr_unread read with
      | _ :: _ => (None, cr_violations read)
      | [] =>
          let kind := reading isPaymentDestinationKind (field (cr_fields read) "kind") in
          let reference := reading isPaymentReference (field (cr_fields read) "reference") in
          (match kind, reference with Some k, Some r => Some {| pd_kind := k; pd_reference := r |} | _, _ => None end,
           cr_violations read ++ (if is_some kind then [] else refuse_field PAYMENT_DESTINATION_KIND_INVALID "destination.kind") ++
           (if is_some reference then [] else refuse_field PAYMENT_DESTINATION_REFERENCE_INVALID "destination.reference"))
      end
  end.

Definition AMOUNT_VIOLATION (v : MonetaryAmountViolation) : PaymentIntentViolationCode :=
  match v with
  | MONETARY_VALUE_NOT_TEXT => PAYMENT_AMOUNT_NOT_TEXT | MONETARY_VALUE_MALFORMED => PAYMENT_AMOUNT_MALFORMED
  | MONETARY_UNIT_UNKNOWN => PAYMENT_ASSET_UNKNOWN | MONETARY_SCALE_EXCEEDED => PAYMENT_AMOUNT_SCALE_EXCEEDED
  end.
Definition validateAmount (raw : JsValue) (assets : MonetaryAssetRegistry) : result DecimalError (option MonetaryAmount * list PaymentIntentViolation) :=
  match isPlainRecord raw with
  | None => Ok (None, refuse_field PAYMENT_AMOUNT_INVALID "amount")
  | Some properties =>
      let read := readClosed properties AMOUNT_KEYS "amount." in
      match cr_unread read with
      | _ :: _ => Ok (None, cr_violations read)
      | [] =>
          let* parsed := parseMonetaryAmount (field (cr_fields read) "value") (field (cr_fields read) "unit") assets in
          Ok (match parsed with
          | Invalid v => (None, cr_violations read ++ refuse_field (AMOUNT_VIOLATION v) (match v with MONETARY_UNIT_UNKNOWN => "amount.unit" | _ => "amount.value" end))
          | Valid amount =>
              if isPositiveMonetaryAmount amount then (Some amount, cr_violations read)
              else (None, cr_violations read ++ refuse_field PAYMENT_AMOUNT_NOT_POSITIVE "amount.value")
          end)
      end
  end.

(** A required text, and one that may be absent: its violation when it is neither. *)
Definition required (p : string → bool) (code : PaymentIntentViolationCode) (key : string) (v : JsValue) : list PaymentIntentViolation :=
  if is_some (reading p v) then [] else refuse_field code key.
Definition optional (p : string → bool) (code : PaymentIntentViolationCode) (key : string) (v : JsValue) : list PaymentIntentViolation :=
  match v with JsUndefined => [] | _ => required p code key v end.
Definition as_text (v : JsValue) : option string := match v with JsString s => Some s | _ => None end.

Definition validatePaymentIntent (raw : JsValue) (assets : MonetaryAssetRegistry) : result DecimalError PaymentIntentValidation :=
  match isPlainRecord raw with
  | None => Ok (InvalidIntent (refuse_field PAYMENT_INTENT_NOT_OBJECT ""))
  | Some properties =>
      let read := readClosed properties INTENT_KEYS "" in
      let fields := cr_fields read in
      let checked key := negb (bool_decide (key ∈ cr_unread read)) in
      let source := if checked "source" then validateSource (field fields "source") else (None, []) in
      let destination := if checked "destination" then validateDestination (field fields "destination") else (None, []) in
      let* amount := if checked "amount" then validateAmount (field fields "amount") assets else Ok (None, []) in
      let check key (violations : list PaymentIntentViolation) := if checked key then violations else [] in
      let violations := cr_violations read ++ source.2 ++ destination.2 ++ amount.2 ++
        check "purpose" (required isPaymentPurpose PAYMENT_PURPOSE_INVALID "purpose" (field fields "purpose")) ++
        check "reference" (optional isPaymentBusinessReference PAYMENT_REFERENCE_INVALID "reference" (field fields "reference")) ++
        check "rail" (optional isPaymentRailId PAYMENT_RAIL_INVALID "rail" (field fields "rail")) ++
        check "idempotencyKey" (required isPaymentEnvelopeIdentifier PAYMENT_IDEMPOTENCY_KEY_INVALID "idempotencyKey" (field fields "idempotencyKey")) ++
        check "correlationId" (optional isPaymentEnvelopeIdentifier PAYMENT_CORRELATION_ID_INVALID "correlationId" (field fields "correlationId")) in
      match violations, source.1, destination.1, amount.1 with
      | [], Some source, Some destination, Some amount => Ok (ValidIntent {|
          pi_source := source; pi_destination := destination; pi_amount := amount;
          pi_purpose := default "" (as_text (field fields "purpose")); pi_reference := as_text (field fields "reference"); pi_rail := as_text (field fields "rail");
          pi_idempotencyKey := default "" (as_text (field fields "idempotencyKey")); pi_correlationId := as_text (field fields "correlationId") |})
      | _, _, _, _ => Ok (InvalidIntent violations)
      end
  end.

(** *** The snapshot compilation reads *)

Fixpoint snapshotClosed (raw : list (string * JsValue)) (declared : list string) : option (list (string * JsValue)) :=
  match raw with
  | [] => Some []
  | (key, v) :: raw =>
      if negb (bool_decide (key ∈ declared)) then None
      else match v with
      | JsAccessor => None
      | JsUndefined => snapshotClosed raw declared
      | _ => rest ← snapshotClosed raw declared; Some ((key, v) :: rest)
      end
  end.
Definition snapshot_record (v : JsValue) (declared : list string) : option (list (string * JsValue)) :=
  match isPlainRecord v with Some properties => snapshotClosed properties declared | None => None end.

(** [{ ...intent, [key]: v }] *)
Definition spread_set (key : string) (v : JsValue) (properties : list (string * JsValue)) : list (string * JsValue) :=
  if bool_decide (key ∈ properties.*1) then (λ p, if bool_decide (p.1 = key) then (key, v) else p) <$> properties else properties ++ [(key, v)].

Definition amount_of (v : JsValue) (u : JsValue) : option MonetaryAmount :=
  match v, u with JsString v, JsString u => Some {| value := v; unit_ := u |} | _, _ => None end.
Definition absent_or (p : string → bool) (v : JsValue) : bool := match v with JsUndefined => true | _ => is_some (reading p v) end.

Definition isWellFormedPaymentIntent (v : JsValue) : bool :=
  match isPlainRecord v with
  | None => false
  | Some properties =>
      forallb (λ key, bool_decide (key ∈ INTENT_KEYS)) properties.*1 &&
      match isPlainRecord (field properties "source"), isPlainRecord (field properties "destination"), isPlainRecord (field properties "amount") with
      | Some source, Some destination, Some amount =>
          (length source =? 1)%nat && is_some (reading isPaymentReference (field source "accountId")) &&
          (length destination =? 2)%nat && is_some (reading isPaymentDestinationKind (field destination "kind")) && is_some (reading isPaymentReference (field destination "reference")) &&
          (length amount =? 2)%nat &&
          match amount_of (field amount "value") (field amount "unit") with Some a => isWellFormedMonetaryAmount a && isPositiveMonetaryAmount a | None => false end &&
          is_some (reading isPaymentPurpose (field properties "purpose")) && absent_or isPaymentBusinessReference (field properties "reference") &&
          absent_or isPaymentRailId (field properties "rail") && is_some (reading isPaymentEnvelopeIdentifier (field properties "idempotencyKey")) &&
          absent_or isPaymentEnvelopeIdentifier (field properties "correlationId")
      | _, _, _ => false
      end
  end.

(** A well-formed value, as the intent it is typed as. *)
Definition typed_intent (v : JsValue) : option PaymentIntent :=
  properties ← isPlainRecord v; source ← isPlainRecord (field properties "source"); destination ← isPlainRecord (field properties "destination");
  amount ← isPlainRecord (field properties "amount"); id ← as_text (field source "accountId"); kind ← as_text (field destination "kind");
  reference ← as_text (field destination "reference"); a ← amount_of (field amount "value") (field amount "unit");
  purpose ← as_text (field properties "purpose"); key ← as_text (field properties "idempotencyKey");
  Some {| pi_source := {| accountId := id |}; pi_destination := {| pd_kind := kind; pd_reference := reference |}; pi_amount := a; pi_purpose := purpose;
          pi_reference := as_text (field properties "reference"); pi_rail := as_text (field properties "rail"); pi_idempotencyKey := key;
          pi_correlationId := as_text (field properties "correlationId") |}.

Definition snapshotPaymentIntent (v : JsValue) : option PaymentIntent :=
  intent ← snapshot_record v INTENT_KEYS;
  source ← snapshot_record (field intent "source") SOURCE_KEYS;
  destination ← snapshot_record (field intent "destination") DESTINATION_KEYS;
  amount ← snapshot_record (field intent "amount") AMOUNT_KEYS;
  let snapshot := JsObject true (spread_set "amount" (JsObject true amount) (spread_set "destination" (JsObject true destination) (spread_set "source" (JsObject true source) intent))) in
  if isWellFormedPaymentIntent snapshot then typed_intent snapshot else None.

(** ** Compilation to a governed action *)

Definition purpose_dimension : string := "paymentPurpose".
Definition reference_dimension : string := "paymentReference".
Definition rail_dimension : string := "paymentRail".

Record PaymentGovernanceBinding := { pb_action : string }.
Inductive PaymentError := PaymentConfigurationError | PaymentRangeError.

Definition createPaymentGovernanceBinding (action : JsValue) : result PaymentError PaymentGovernanceBinding :=
  match reading isPaymentEnvelopeIdentifier action with
  | Some action => Ok {| pb_action := action |}
  | None => Throw PaymentConfigurationError
  end.

Definition DESTINATION_SEPARATOR : ascii := ":"%char.
Definition paymentCounterpartyOf (d : PaymentDestination) : result PaymentError string :=
  if negb (isPaymentDestinationKind (pd_kind d)) || negb (isPaymentReference (pd_reference d)) then Throw PaymentRangeError
  else Ok (text (chars (pd_kind d) ++ DESTINATION_SEPARATOR :: chars (pd_reference d))).

(** [indexOf] and the two [slice]s. *)
Fixpoint split_first (l : list ascii) : option (list ascii * list ascii) :=
  match l with
  | [] => None
  | c :: l => if bool_decide (c = DESTINATION_SEPARATOR) then Some ([], l) else '(a, b) ← split_first l; Some (c :: a, b)
  end.
Definition paymentDestinationOf (counterparty : option string) : option PaymentDestination :=
  counterparty ← counterparty;
  '(kind, reference) ← split_first (chars counterparty);
  if negb (isPaymentDestinationKind (text kind)) || negb (isPaymentReference (text reference)) then None
  else Some {| pd_kind := text kind; pd_reference := text reference |}.

Definition ENVELOPE_COPY_MAXIMUM_DEPTH : nat := 8.
Definition ENVELOPE_COPY_MAXIMUM_WIDTH : nat := 64.

Definition finite_number (n : JsNumber) : bool := match n with JInt _ | JFraction _ => true | JNegZero | JNaN | JInfinity _ => false end.

Fixpoint map_result {E A B} (f : A → result E B) (l : list A) : result E (list B) :=
  match l with
  | [] => Ok []
  | x :: l => let* y := f x in let* ys := map_result f l in Ok (y :: ys)
  end.

(** [levels] is what the depth bound leaves: one more than the bound at the top. *)
Fixpoint snapshotEnvelopeValue (levels : nat) (v : JsValue) : result PaymentError JsValue :=
  match levels with
  | O => Throw PaymentRangeError
  | S levels =>
      match v with
      | JsNull | JsString _ | JsBool _ => Ok v
      | JsNum n => if finite_number n then Ok v else Throw PaymentRangeError
      | JsArray elements =>
          if (ENVELOPE_COPY_MAXIMUM_WIDTH <? length elements)%nat then Throw PaymentRangeError
          else let* out := map_result (snapshotEnvelopeValue levels) elements in Ok (JsArray out)
      | JsObject true properties =>
          if (ENVELOPE_COPY_MAXIMUM_WIDTH <? length properties)%nat then Throw PaymentRangeError
          else let* out := map_result (λ p, let* v := snapshotEnvelopeValue levels p.2 in Ok (p.1, v)) properties in Ok (JsObject true out)
      | JsObject false _ | JsUndefined | JsFunction | JsAccessor => Throw PaymentRangeError
      end
  end.

Record PaymentEnvelopeOptions := { eo_assertedContext : JsValue; eo_expectedGovernanceProfile : JsValue }.
Fixpoint read_options (properties : list (string * JsValue)) (out : PaymentEnvelopeOptions) : result PaymentError PaymentEnvelopeOptions :=
  match properties with
  | [] => Ok out
  | (key, v) :: properties =>
      match v with
      | JsAccessor => Throw PaymentRangeError
      | _ =>
          if str_eqb key "assertedContext" then read_options properties {| eo_assertedContext := v; eo_expectedGovernanceProfile := eo_expectedGovernanceProfile out |}
          else if str_eqb key "expectedGovernanceProfile" then read_options properties {| eo_assertedContext := eo_assertedContext out; eo_expectedGovernanceProfile := v |}
          else Throw PaymentRangeError
      end
  end.
Definition readEnvelopeOptions (envelope : JsValue) : result PaymentError PaymentEnvelopeOptions :=
  let none := {| eo_assertedContext := JsUndefined; eo_expectedGovernanceProfile := JsUndefined |} in
  match envelope with
  | JsUndefined => Ok none
  | _ => match isPlainRecord envelope with Some properties => read_options properties none | None => Throw PaymentRangeError end
  end.

Record ProfileExpectation := { pe_id : string; pe_version : JsNumber }.
Definition snapshotProfileExpectation (v : JsValue) : result PaymentError ProfileExpectation :=
  match isPlainRecord v with
  | Some properties =>
      if negb (length properties =? 2)%nat then Throw PaymentRangeError
      else match own_property "id" properties, own_property "version" properties with
      | Some (JsString id), Some (JsNum version) => if finite_number version then Ok {| pe_id := id; pe_version := version |} else Throw PaymentRangeError
      | _, _ => Throw PaymentRangeError
      end
  | None => Throw PaymentRangeError
  end.

Record PaymentGovernedActionIntent := {
  ga_action : string;
  ga_resource : string;
  ga_counterparty : string;
  ga_amount : MonetaryAmount;
  ga_parameters : list (string * string);
  ga_idempotencyKey : string;
  ga_correlationId : option string;
  ga_assertedContext : option JsValue;
  ga_expectedGovernanceProfile : option ProfileExpectation;
}.

Definition compilePaymentIntent (raw : JsValue) (action : JsValue) (envelope : JsValue) : result PaymentError PaymentGovernedActionIntent :=
  match snapshotPaymentIntent raw with
  | None => Throw PaymentRangeError
  | Some intent =>
      match reading isPaymentEnvelopeIdentifier action with
      | None => Throw PaymentConfigurationError
      | Some action =>
          let parameters := [(purpose_dimension, pi_purpose intent)] ++ match pi_reference intent with Some r => [(reference_dimension, r)] | None => [] end ++
            match pi_rail intent with Some r => [(rail_dimension, r)] | None => [] end in
          let* options := readEnvelopeOptions envelope in
          let* assertedContext := match eo_assertedContext options with
            | JsUndefined => Ok None
            | v => let* copy := snapshotEnvelopeValue (S ENVELOPE_COPY_MAXIMUM_DEPTH) v in
                match copy with JsObject _ _ => Ok (Some copy) | _ => Throw PaymentRangeError end
            end in
          let* profile := match eo_expectedGovernanceProfile options with JsUndefined => Ok None | v => let* p := snapshotProfileExpectation v in Ok (Some p) end in
          let* counterparty := paymentCounterpartyOf (pi_destination intent) in
          Ok {| ga_action := action; ga_resource := accountId (pi_source intent); ga_counterparty := counterparty; ga_amount := pi_amount intent;
                ga_parameters := parameters; ga_idempotencyKey := pi_idempotencyKey intent; ga_correlationId := pi_correlationId intent;
                ga_assertedContext := assertedContext; ga_expectedGovernanceProfile := profile |}
      end
  end.

(** ** The request a rail receives *)

Record PaymentExecutionRequest := {
  pr_executionId : string;
  pr_requestId : string;
  pr_decisionId : string;
  pr_grantId : string;
  pr_notAfter : string;
  pr_source : PaymentSourceRef;
  pr_destination : PaymentDestination;
  pr_amount : MonetaryAmount;
  pr_purpose : string;
  pr_reference : option string;
  pr_rail : option string;
}.
Inductive PaymentExecutionRefusal :=
  | PAYMENT_EXECUTION_ACTION_UNBOUND | PAYMENT_EXECUTION_AMOUNT_INVALID | PAYMENT_EXECUTION_SOURCE_INVALID
  | PAYMENT_EXECUTION_DESTINATION_INVALID | PAYMENT_EXECUTION_PARAMETERS_INVALID.

(** [Some None] is [null]: present, and not a token. *)
Definition tokenParameter (action : ValidatedExecutionAction) (d : string) : option (option string) :=
  match List.find (λ p, str_eqb (dimension p) d) (default [] (va_parameters action)) with
  | None => None
  | Some p => match parameter_value p with VToken s => Some (Some s) | _ => Some None end
  end.
(** An optional token parameter: absent or within its grammar. *)
Definition optional_token (p : string → bool) (v : option (option string)) : bool :=
  match v with None => true | Some None => false | Some (Some s) => p s end.

Definition preparePaymentExecution (action : ValidatedExecutionAction) (binding : PaymentGovernanceBinding) : result PaymentExecutionRefusal PaymentExecutionRequest :=
  if negb (str_eqb (va_action action) (pb_action binding)) then Throw PAYMENT_EXECUTION_ACTION_UNBOUND
  else match va_amount action with
  | None => Throw PAYMENT_EXECUTION_AMOUNT_INVALID
  | Some amount =>
      if negb (isWellFormedMonetaryAmount amount) || negb (isPositiveMonetaryAmount amount) then Throw PAYMENT_EXECUTION_AMOUNT_INVALID
      else if negb (isPaymentReference (va_resource action)) then Throw PAYMENT_EXECUTION_SOURCE_INVALID
      else match paymentDestinationOf (va_counterparty action) with
      | None => Throw PAYMENT_EXECUTION_DESTINATION_INVALID
      | Some destination =>
          let reference := tokenParameter action reference_dimension in
          let rail := tokenParameter action rail_dimension in
          match tokenParameter action purpose_dimension with
          | Some (Some purpose) =>
              if negb (isPaymentPurpose purpose) then Throw PAYMENT_EXECUTION_PARAMETERS_INVALID
              else if negb (optional_token isPaymentBusinessReference reference) then Throw PAYMENT_EXECUTION_PARAMETERS_INVALID
              else if negb (optional_token isPaymentRailId rail) then Throw PAYMENT_EXECUTION_PARAMETERS_INVALID
              else Ok {| pr_executionId := vc_executionId (va_correlation action); pr_requestId := vc_requestId (va_correlation action);
                pr_decisionId := vc_decisionId (va_correlation action); pr_grantId := va_boundedGrantId action; pr_notAfter := va_notAfter action;
                pr_source := {| accountId := va_resource action |}; pr_destination := destination; pr_amount := amount; pr_purpose := purpose;
                pr_reference := mjoin reference; pr_rail := mjoin rail |}
          | _ => Throw PAYMENT_EXECUTION_PARAMETERS_INVALID
          end
      end
  end.

(** ** The rail contract *)

Inductive PaymentRailResult :=
  | RailCompleted (externalReference : option string)
  | RailNotCompleted (reason : ExecutionFailureReason) (externalReference detail : option string)
  | RailUnconfirmed (externalReference detail : option string).

Definition rail_object (r : PaymentRailResult) : JsValue :=
  JsObject true (match r with
  | RailCompleted ref => [("status", JsString "completed")] ++ object_field "externalReference" ref
  | RailNotCompleted reason ref detail => [("status", JsString "not-completed"); ("reason", JsString (failure_reason_name reason))] ++ object_field "externalReference" ref ++ object_field "detail" detail
  | RailUnconfirmed ref detail => [("status", JsString "unconfirmed")] ++ object_field "externalReference" ref ++ object_field "detail" detail
  end).

Definition PAYMENT_RAIL_RESULT_UNREADABLE : string := "payment-rail-result-unreadable".
Definition PAYMENT_EXECUTION_NOT_PREPARED : string := "payment-execution-not-prepared".
Definition PAYMENT_RAIL_NOT_PREFERRED : string := "payment-rail-not-preferred".

Definition detailOf (v : JsValue) : option string := reading (λ s, isGovernedParameterToken s && isRecordableProviderRef (Some s)) v.
Definition referenceOf (v : JsValue) : option string := reading (λ s, isRecordableProviderRef (Some s)) v.

Definition executionResultOfPaymentRail (raised : Thrown) (v : JsValue) : result Thrown ExecutionAdapterResult :=
  match v with
  | JsObject _ source =>
      let* status := read_property raised "status" source in
      let* externalReference := read_property raised "externalReference" source in
      let reference := referenceOf externalReference in
      let says s := match status with JsString t => str_eqb t s | _ => false end in
      if says "completed" then Ok (Completed reference None)
      else
        let* detail := read_property raised "detail" source in
        let detail := detailOf detail in
        if says "unconfirmed" then Ok (Unconfirmed reference detail None)
        else if says "not-completed" then
          let* reason := read_property raised "reason" source in
          match List.find (λ r, match reason with JsString s => str_eqb (failure_reason_name r) s | _ => false end) EXECUTION_FAILURE_REASON_VALUES with
          | None => Ok (Unconfirmed reference (Some PAYMENT_RAIL_RESULT_UNREADABLE) None)
          | Some reason => Ok (Failed reason reference detail None)
          end
        else Ok (Unconfirmed reference (Some PAYMENT_RAIL_RESULT_UNREADABLE) None)
  | JsArray _ => Ok (Unconfirmed None (Some PAYMENT_RAIL_RESULT_UNREADABLE) None)
  | _ => Ok (Unconfirmed None (Some PAYMENT_RAIL_RESULT_UNREADABLE) None)
  end.

Section RailAdapter.
Context {Op : Type} `{Effects Op}.
(** What the rail answers or throws, and what reading its answer throws. *)
Variable rail : PaymentExecutionRequest → Prog (result Thrown JsValue).
Variable raised : Thrown.

Definition adapter_execute (railId : string) (binding : PaymentGovernanceBinding) (action : ValidatedExecutionAction) : Prog ExecutionAdapterResult :=
  match preparePaymentExecution action binding with
  | Throw _ => Ret (Failed ADAPTER_ERROR None (Some PAYMENT_EXECUTION_NOT_PREPARED) None)
  | Ok request =>
      if match pr_rail request with Some preferred => negb (str_eqb preferred railId) | None => false end
      then Ret (Failed ADAPTER_ERROR None (Some PAYMENT_RAIL_NOT_PREFERRED) None)
      else prog_bind (rail request) (λ answer,
        match answer with
        | Throw _ => Ret (Unconfirmed None (Some PAYMENT_RAIL_RESULT_UNREADABLE) None)
        | Ok v => match executionResultOfPaymentRail raised v with
            | Ok r => Ret r
            | Throw _ => Ret (Unconfirmed None (Some PAYMENT_RAIL_RESULT_UNREADABLE) None)
            end
        end)
  end.
End RailAdapter.

(** The checks of the factory: the rail id recorded and the bound action. *)
Definition createPaymentRailExecutionAdapter (railId : JsValue) (has_execute : bool) (action : JsValue) :
    result PaymentError (string * PaymentGovernanceBinding) :=
  match reading (λ s, isPaymentRailId s && isRecordableExecutionAdapterId s) railId with
  | None => Throw PaymentConfigurationError
  | Some railId => if negb has_execute then Throw PaymentConfigurationError else let* binding := createPaymentGovernanceBinding action in Ok (railId, binding)
  end.

(** ** The governed counterparty *)

Lemma kind_tail_no_separator l : ∀ after, kind_tail after l = true → DESTINATION_SEPARATOR ∉ l.
Proof.
  induction l as [|c l IH]; intros after Hk; [apply not_elem_of_nil|]. cbn in Hk. apply not_elem_of_cons. split.
  - intros <-. by destruct after.
  - destruct (is_lower c || is_digit c); [by eapply IH|]. apply andb_true_iff in Hk as [_ Hk]. by eapply IH.
Qed.
Lemma kind_no_separator s : isPaymentDestinationKind s = true → DESTINATION_SEPARATOR ∉ chars s.
Proof.
  unfold isPaymentDestinationKind, PAYMENT_DESTINATION_KIND. intros [_ H]%andb_true_iff. destruct (chars s) as [|c l]; [done|]. apply andb_true_iff in H as [Hc Hk].
  apply not_elem_of_cons. split; [by intros <-|]. by eapply kind_tail_no_separator.
Qed.
Lemma split_first_spec l a b : split_first l = Some (a, b) ↔ l = a ++ DESTINATION_SEPARATOR :: b ∧ DESTINATION_SEPARATOR ∉ a.
Proof.
  revert a b. induction l as [|c l IH]; intros a b; cbn [split_first].
  - split; [done|]. intros [E _]. by destruct a.
  - destruct (decide (c = DESTINATION_SEPARATOR)) as [->|N].
    + rewrite bool_decide_true by done. split; [intros [= <- <-]; split; [done|apply not_elem_of_nil]|]. intros [E Ha]. destruct a as [|x a]; cbn in E; [by simplify_eq|].
      injection E as <- _. exfalso. apply Ha, elem_of_cons. by left.
    + rewrite bool_decide_false by done. destruct (split_first l) as [[a' b']|] eqn:E'; cbn.
      * destruct (proj1 (IH a' b') eq_refl) as [-> Ha']. split.
        -- intros [= <- <-]. split; [done|]. by apply not_elem_of_cons.
        -- intros [E Ha]. destruct a as [|x a]; cbn in E; [by simplify_eq|]. injection E as <- E. apply not_elem_of_cons in Ha as [_ Ha].
           assert (Some (a', b') = Some (a, b)) as [= <- <-] by (by apply IH). done.
      * split; [done|]. intros [E Ha]. destruct a as [|x a]; cbn in E; [by simplify_eq|]. injection E as <- E. apply not_elem_of_cons in Ha as [_ Ha].
        assert (None = Some (a, b)) by (by apply IH). done.
Qed.

Lemma counterparty_decodes d c : paymentCounterpartyOf d = Ok c → paymentDestinationOf (Some c) = Some d.
Proof.
  unfold paymentCounterpartyOf, paymentDestinationOf. destruct (isPaymentDestinationKind (pd_kind d)) eqn:Hk; [|done]. destruct (isPaymentReference (pd_reference d)) eqn:Hr; [|done].
  cbn [negb orb mbind option_bind]. intros [= <-]. rewrite chars_text, (proj2 (split_first_spec _ _ _)) by (split; [reflexivity|by apply kind_no_separator]).
  cbn [mbind option_bind]. rewrite !text_chars, Hk, Hr. by destruct d.
Qed.
Lemma counterparty_encodes c d : paymentDestinationOf (Some c) = Some d → paymentCounterpartyOf d = Ok c.
Proof.
  unfold paymentCounterpartyOf, paymentDestinationOf. cbn [mbind option_bind]. destruct (split_first (chars c)) as [[k r]|] eqn:E; [|done]. cbn [mbind option_bind].
  destruct (isPaymentDestinationKind (text k)) eqn:Hk; [|done]. destruct (isPaymentReference (text r)) eqn:Hr; [|done]. cbn [negb orb]. intros [= <-]. cbn [pd_kind pd_reference].
  rewrite Hk, Hr, !chars_text. cbn. apply split_first_spec in E as [E _]. by rewrite <-E, text_chars.
Qed.

(** The governed counterparty names exactly one destination: every canonical
    destination encodes, and encoding and decoding are inverse to each other, so
    no two destinations share a counterparty. *)
Theorem payment_counterparty_roundtrip :
  (∀ d, isPaymentDestinationKind (pd_kind d) = true → isPaymentReference (pd_reference d) = true → ∃ c, paymentCounterpartyOf d = Ok c) ∧
  (∀ d c, paymentCounterpartyOf d = Ok c ↔ paymentDestinationOf (Some c) = Some d).
Proof.
  split.
  - intros d Hk Hr. unfold paymentCounterpartyOf. rewrite Hk, Hr. by eexists.
  - intros d c. split; [apply counterparty_decodes|apply counterparty_encodes].
Qed.

(** ** Canonical intents *)

Definition optionally (p : string → bool) (o : option string) : Prop := match o with Some s => p s = true | None => True end.
Record canonical_intent (i : PaymentIntent) : Prop := {
  ci_source : isPaymentReference (accountId (pi_source i)) = true;
  ci_kind : isPaymentDestinationKind (pd_kind (pi_destination i)) = true;
  ci_destination : isPaymentReference (pd_reference (pi_destination i)) = true;
  ci_amount : isPositiveMonetaryAmount (pi_amount i) = true;
  ci_purpose : isPaymentPurpose (pi_purpose i) = true;
  ci_reference : optionally isPaymentBusinessReference (pi_reference i);
  ci_rail : optionally isPaymentRailId (pi_rail i);
  ci_key : isPaymentEnvelopeIdentifier (pi_idempotencyKey i) = true;
  ci_correlation : optionally isPaymentEnvelopeIdentifier (pi_correlationId i);
}.

(** The object an intent is, its properties in the order the source builds them. *)
Definition source_fields (s : PaymentSourceRef) : list (string * JsValue) := [("accountId", JsString (accountId s))].
Definition destination_fields (d : PaymentDestination) : list (string * JsValue) := [("kind", JsString (pd_kind d)); ("reference", JsString (pd_reference d))].
Definition amount_fields (a : MonetaryAmount) : list (string * JsValue) := [("value", JsString (value a)); ("unit", JsString (unit_ a))].
Definition intent_fields (i : PaymentIntent) : list (string * JsValue) :=
  [("source", JsObject true (source_fields (pi_source i))); ("destination", JsObject true (destination_fields (pi_destination i)));
   ("amount", JsObject true (amount_fields (pi_amount i))); ("purpose", JsString (pi_purpose i))] ++ object_field "reference" (pi_reference i) ++
  object_field "rail" (pi_rail i) ++ [("idempotencyKey", JsString (pi_idempotencyKey i))] ++ object_field "correlationId" (pi_correlationId i).
Definition intent_object (i : PaymentIntent) : JsValue := JsObject true (intent_fields i).

Definition js_option (o : option string) : JsValue := match o with Some s => JsString s | None => JsUndefined end.
Lemma intent_field i : field (intent_fields i) "source" = JsObject true (source_fields (pi_source i)) ∧
  field (intent_fields i) "destination" = JsObject true (destination_fields (pi_destination i)) ∧ field (intent_fields i) "amount" = JsObject true (amount_fields (pi_amount i)) ∧
  field (intent_fields i) "purpose" = JsString (pi_purpose i) ∧ field (intent_fields i) "reference" = js_option (pi_reference i) ∧
  field (intent_fields i) "rail" = js_option (pi_rail i) ∧ field (intent_fields i) "idempotencyKey" = JsString (pi_idempotencyKey i) ∧
  field (intent_fields i) "correlationId" = js_option (pi_correlationId i).
Proof. destruct i as [s d a p [r|] [l|] k [c|]]; repeat split; reflexivity. Qed.
Lemma amount_field a : field (amount_fields a) "value" = JsString (value a) ∧ field (amount_fields a) "unit" = JsString (unit_ a).
Proof. split; reflexivity. Qed.
Lemma destination_field d : field (destination_fields d) "kind" = JsString (pd_kind d) ∧ field (destination_fields d) "reference" = JsString (pd_reference d).
Proof. split; reflexivity. Qed.
Lemma source_field s : field (source_fields s) "accountId" = JsString (accountId s).
Proof. reflexivity. Qed.

Lemma reading_text p s : p s = true → reading p (JsString s) = Some s.
Proof. intros H. cbn. by rewrite H. Qed.
Lemma absent_or_option p o : optionally p o → absent_or p (js_option o) = true.
Proof. destruct o as [s|]; [|done]. cbn. by intros ->. Qed.
Lemma as_text_option o : as_text (js_option o) = o.
Proof. by destruct o. Qed.

Lemma intent_object_wf i : canonical_intent i → isWellFormedPaymentIntent (intent_object i) = true.
Proof.
  intros [Hs Hk Hd Ha Hp Hr Hl Hi Hc]. unfold isWellFormedPaymentIntent, intent_object. cbn [isPlainRecord].
  destruct (intent_field i) as (->&->&->&->&->&->&->&->). cbn [isPlainRecord]. destruct (destination_field (pi_destination i)) as [-> ->], (amount_field (pi_amount i)) as [-> ->].
  rewrite source_field, !reading_text by done. rewrite !absent_or_option by done. cbn [amount_of is_some length source_fields destination_fields amount_fields].
  assert (isWellFormedMonetaryAmount (pi_amount i) = true) as Hw by (unfold isPositiveMonetaryAmount in Ha; by apply andb_true_iff in Ha as [? _]).
  destruct (pi_amount i) as [v u]. cbn [value unit_]. rewrite Ha, Hw. rewrite !andb_true_r. clear. destruct i as [s d a p [r|] [l|] k [c|]]; reflexivity.
Qed.
Lemma intent_object_typed i : typed_intent (intent_object i) = Some i.
Proof.
  unfold typed_intent, intent_object. cbn [isPlainRecord mbind option_bind]. destruct (intent_field i) as (->&->&->&->&->&->&->&->). cbn [isPlainRecord mbind option_bind].
  destruct (destination_field (pi_destination i)) as [-> ->], (amount_field (pi_amount i)) as [-> ->]. rewrite source_field, !as_text_option. cbn. by destruct i as [[] [] [] ? ? ? ? ?].
Qed.
Lemma snapshot_object i : canonical_intent i → snapshotPaymentIntent (intent_object i) = Some i.
Proof.
  intros Hi. unfold snapshotPaymentIntent.
  assert (snapshot_record (intent_object i) INTENT_KEYS = Some (intent_fields i)) as -> by (clear; destruct i as [s d a p [r|] [l|] k [c|]]; reflexivity).
  cbn [mbind option_bind]. destruct (intent_field i) as (->&->&->&_). 
  change (snapshot_record (JsObject true (source_fields _)) SOURCE_KEYS) with (Some (source_fields (pi_source i))).
  change (snapshot_record (JsObject true (destination_fields _)) DESTINATION_KEYS) with (Some (destination_fields (pi_destination i))).
  change (snapshot_record (JsObject true (amount_fields _)) AMOUNT_KEYS) with (Some (amount_fields (pi_amount i))). cbn [mbind option_bind].
  assert (spread_set "amount" (JsObject true (amount_fields (pi_amount i))) (spread_set "destination" (JsObject true (destination_fields (pi_destination i)))
    (spread_set "source" (JsObject true (source_fields (pi_source i))) (intent_fields i))) = intent_fields i) as ->
    by (clear; destruct i as [s d a p [r|] [l|] k [c|]]; reflexivity).
  fold (intent_object i). by rewrite intent_object_wf, intent_object_typed.
Qed.

Lemma canonicalize_canonical v : isCanonicalDecimal v MONETARY_DECIMAL_MAXIMUM_DIGITS = true → canonicalizeDecimalText v = Some v.
Proof.
  intros Hc. apply canonicalizeDecimalText_inv. pose proof Hc as Hc'. unfold isCanonicalDecimal, digitCount in Hc'. apply andb_true_iff in Hc' as [Hg Hd%Z.leb_le].
  split; [|split; [|done]].
  - split; [destruct (chars v); [by cbn in Hg|cbn; lia]|]. unfold MONETARY_DECIMAL_MAXIMUM_DIGITS, MONETARY_DECIMAL_MAXIMUM_TEXT_LENGTH in *.
    destruct (index_of_point (chars v)); lia.
  - unfold canonical_grammar in Hg. unfold plain_grammar. destruct (index_of_point (chars v)); [|done]. apply andb_true_iff in Hg as [-> Hf]. cbn.
    apply canonical_fraction_inv in Hf as (g&c&->&Hg&Hn). assert (forallb is_digit (g ++ [c]) = true) as Hall.
    { rewrite List.forallb_app. cbn. rewrite (nonzero_is_digit _ Hn), andb_true_r. apply forallb_forall. intros x Hx. unfold all_digits in Hg. rewrite Forall_forall in Hg. by apply Hg, list_elem_of_In. }
    unfold plain_fraction_ok. rewrite Hall. by destruct g.
Qed.

Lemma parse_stable v u assets a : registry_ok assets → parseMonetaryAmount v u assets = Ok (Valid a) →
  isWellFormedMonetaryAmount a = true ∧ parseMonetaryAmount (JsString (value a)) (JsString (unit_ a)) assets = Ok (Valid a).
Proof.
  intros [Hreg _] H. unfold parseMonetaryAmount in H. destruct v as [| | | |s| | | |]; try done. destruct (canonicalizeDecimalText s) as [r|] eqn:Hs; [|done].
  destruct (canonicalized_is_canonical _ _ Hs) as (Hr&_&_). destruct (resolve assets u) as [d|] eqn:Hu; [|done].
  destruct u as [| | | |id| | | |]; try done. cbn in Hu. destruct (Hreg _ _ Hu) as (Hid&Hpat&_).
  destruct (canonicalDecimalScale r) as [k|] eqn:Hk; [|done]. cbn [result_bind] in H. destruct (asset_scale d <? Z.of_nat k) eqn:L; [done|]. injection H as <-. cbn [value unit_].
  split; [unfold isWellFormedMonetaryAmount; cbn; by rewrite Hr, Hpat|]. unfold parseMonetaryAmount. rewrite canonicalize_canonical by done. cbn [resolve]. rewrite Hid, Hu, Hk. cbn [result_bind]. by rewrite L, Hid.
Qed.

Lemma readClosed_clean raw declared path : cr_violations (readClosed raw declared path) = [] →
  cr_unread (readClosed raw declared path) = [] ∧ cr_fields (readClosed raw declared path) = raw ∧ Forall (λ p, p.1 ∈ declared ∧ p.2 ≠ JsAccessor) raw.
Proof.
  induction raw as [|[key v] raw IH]; cbn [readClosed]; [done|]. destruct (decide (key ∈ declared)) as [Hin|]; [rewrite bool_decide_true by done|by rewrite bool_decide_false].
  cbn [negb]. destruct v; cbn [cr_violations cr_unread cr_fields]; try done; intros Hv; destruct (IH Hv) as (->&->&HF); (split; [done|]; split; [done|]; by constructor).
Qed.

Lemma reading_Some p v s : reading p v = Some s → v = JsString s ∧ p s = true.
Proof. destruct v; try done. cbn. destruct (p s0) eqn:E; [by intros [= <-]|done]. Qed.
Lemma required_nil p code key v : required p code key v = [] → ∃ s, v = JsString s ∧ p s = true.
Proof. unfold required. destruct (reading p v) as [s|] eqn:E; [|done]. intros _. exists s. by apply reading_Some. Qed.
Lemma optional_nil p code key v : optional p code key v = [] → optionally p (as_text v) ∧ v = js_option (as_text v).
Proof. destruct v; try done; intros H; apply required_nil in H as (s'&E&Hp); try done. injection E as ->. done. Qed.

Lemma validateSource_valid raw s : validateSource raw = (Some s, []) → isPaymentReference (accountId s) = true.
Proof.
  unfold validateSource. destruct (isPlainRecord raw); [|done]. destruct (cr_unread _); [|done]. destruct (reading _ _) as [id|] eqn:E; [|done]. intros [= <- _]. by apply reading_Some in E as [_ ?].
Qed.
Lemma validateDestination_valid raw d : validateDestination raw = (Some d, []) → isPaymentDestinationKind (pd_kind d) = true ∧ isPaymentReference (pd_reference d) = true.
Proof.
  unfold validateDestination. destruct (isPlainRecord raw); [|done]. destruct (cr_unread _); [|done]. destruct (reading isPaymentDestinationKind _) as [k|] eqn:E; [|done].
  destruct (reading isPaymentReference _) as [r|] eqn:E'; [|done]. intros [= <- _]. apply reading_Some in E as [_ ?], E' as [_ ?]. done.
Qed.
Lemma validateAmount_valid raw assets a : registry_ok assets → validateAmount raw assets = Ok (Some a, []) →
  isPositiveMonetaryAmount a = true ∧ parseMonetaryAmount (JsString (value a)) (JsString (unit_ a)) assets = Ok (Valid a).
Proof.
  intros Hreg. unfold validateAmount. destruct (isPlainRecord raw); [|done]. destruct (cr_unread _); [|done]. intros H. apply result_bind_Ok in H as ([a'|viol]&Hp&H); [|done].
  destruct (isPositiveMonetaryAmount a') eqn:E; [|done]. injection H as <- _. split; [done|]. by eapply parse_stable.
Qed.

Lemma unread_nil (key : string) : bool_decide (key ∈ ([] : list string)) = false.
Proof. apply bool_decide_false, not_elem_of_nil. Qed.

Lemma validate_sound raw assets i : registry_ok assets → validatePaymentIntent raw assets = Ok (ValidIntent i) →
  canonical_intent i ∧ parseMonetaryAmount (JsString (value (pi_amount i))) (JsString (unit_ (pi_amount i))) assets = Ok (Valid (pi_amount i)).
Proof.
  intros Hreg. unfold validatePaymentIntent. destruct (isPlainRecord raw) as [properties|]; [|done]. cbn zeta. set (read := readClosed properties INTENT_KEYS "").
  intros H. apply result_bind_Ok in H as ([amount va]&Ham&H). cbn [fst snd] in H. destruct (cr_violations read) eqn:Er; [|done].
  destruct (readClosed_clean _ _ _ Er) as (Hu&_&_). fold read in Hu. rewrite Hu in H, Ham. rewrite !unread_nil in H. rewrite !unread_nil in Ham. cbn [negb app] in H, Ham.
  destruct (validateSource _) as [source vs] eqn:Hs, (validateDestination _) as [destination vd] eqn:Hd. cbn [fst snd] in H.
  destruct vs; [|done]. destruct vd; [|done]. destruct va; [|done]. cbn [app] in H.
  destruct (required isPaymentPurpose _ _ _) eqn:Hp; [|done]. destruct (optional isPaymentBusinessReference _ _ _) eqn:Href; [|done].
  destruct (optional isPaymentRailId _ _ _) eqn:Hrail; [|done]. destruct (required isPaymentEnvelopeIdentifier _ _ _) eqn:Hkey; [|done].
  destruct (optional isPaymentEnvelopeIdentifier _ _ _) eqn:Hcor; [|done]. cbn [app] in H.
  destruct source as [source|]; [|done]. destruct destination as [destination|]; [|done]. destruct amount as [amount|]; [|done]. injection H as <-.
  apply validateSource_valid in Hs. apply validateDestination_valid in Hd as [Hk Hd]. apply (validateAmount_valid _ _ _ Hreg) in Ham as [Hpos Hparse].
  apply required_nil in Hp as (p&Ep&Hp), Hkey as (key&Ek&Hkey). apply optional_nil in Href as [Href _], Hrail as [Hrail _], Hcor as [Hcor _].
  split; [|done]. split; cbn [pi_source pi_destination pi_amount pi_purpose pi_reference pi_rail pi_idempotencyKey pi_correlationId]; rewrite ?Ep, ?Ek; done.
Qed.

Lemma required_text p code key s : p s = true → required p code key (JsString s) = [].
Proof. intros H. unfold required. by rewrite reading_text. Qed.
Lemma optional_option p code key o : optionally p o → optional p code key (js_option o) = [].
Proof. destruct o as [s|]; [|done]. apply required_text. Qed.

Lemma validateSource_fields s : isPaymentReference (accountId s) = true → validateSource (JsObject true (source_fields s)) = (Some s, []).
Proof.
  intros Hs. unfold validateSource. cbn [isPlainRecord].
  change (readClosed (source_fields s) SOURCE_KEYS "source.") with {| cr_fields := source_fields s; cr_unread := []; cr_violations := [] |}.
  cbn [cr_fields cr_unread cr_violations]. rewrite source_field, reading_text by done. by destruct s.
Qed.
Lemma validateDestination_fields d : isPaymentDestinationKind (pd_kind d) = true → isPaymentReference (pd_reference d) = true →
  validateDestination (JsObject true (destination_fields d)) = (Some d, []).
Proof.
  intros Hk Hr. unfold validateDestination. cbn [isPlainRecord].
  change (readClosed (destination_fields d) DESTINATION_KEYS "destination.") with {| cr_fields := destination_fields d; cr_unread := []; cr_violations := [] |}.
  cbn [cr_fields cr_unread cr_violations]. destruct (destination_field d) as [-> ->]. rewrite !reading_text by done. by destruct d.
Qed.
Lemma validateAmount_fields a assets : isPositiveMonetaryAmount a = true → parseMonetaryAmount (JsString (value a)) (JsString (unit_ a)) assets = Ok (Valid a) →
  validateAmount (JsObject true (amount_fields a)) assets = Ok (Some a, []).
Proof.
  intros Ha Hp. unfold validateAmount. cbn [isPlainRecord].
  change (readClosed (amount_fields a) AMOUNT_KEYS "amount.") with {| cr_fields := amount_fields a; cr_unread := []; cr_violations := [] |}.
  cbn [cr_fields cr_unread cr_violations]. destruct (amount_field a) as [-> ->]. rewrite Hp. cbn [result_bind]. by rewrite Ha.
Qed.

Lemma validate_object i assets : canonical_intent i → parseMonetaryAmount (JsString (value (pi_amount i))) (JsString (unit_ (pi_amount i))) assets = Ok (Valid (pi_amount i)) →
  validatePaymentIntent (intent_object i) assets = Ok (ValidIntent i).
Proof.
  intros [Hs Hk Hd Ha Hp Hr Hl Hi Hc] Hparse. unfold validatePaymentIntent, intent_object. cbn [isPlainRecord]. cbn zeta.
  assert (readClosed (intent_fields i) INTENT_KEYS "" = {| cr_fields := intent_fields i; cr_unread := []; cr_violations := [] |}) as ->
    by (clear; destruct i as [s d a p [r|] [l|] k [c|]]; reflexivity).
  cbn [cr_fields cr_unread cr_violations]. rewrite !unread_nil. cbn [negb app].
  destruct (intent_field i) as (->&->&->&->&->&->&->&->).
  rewrite validateSource_fields, validateDestination_fields, (validateAmount_fields _ _ Ha Hparse) by done.
  cbn [result_bind fst snd app]. rewrite !required_text, !optional_option, !as_text_option by done. cbn [app as_text default]. by destruct i.
Qed.

(** C35. What validation accepts is a canonical payment: every part within its
    grammar, the amount positive and representable at its asset's scale; and it is
    a fixed point. Validating the accepted intent again yields it unchanged, and
    the snapshot that compilation takes of it is the intent itself. *)
Theorem payment_intent_canonical raw assets i : registry_ok assets → validatePaymentIntent raw assets = Ok (ValidIntent i) →
  canonical_intent i ∧ (∃ d, byId assets !! unit_ (pi_amount i) = Some d ∧ representable (dec_value (value (pi_amount i))) (asset_scale d)) ∧
  validatePaymentIntent (intent_object i) assets = Ok (ValidIntent i) ∧ snapshotPaymentIntent (intent_object i) = Some i.
Proof.
  intros Hreg H. destruct (validate_sound _ _ _ Hreg H) as [Hc Hp]. split; [done|]. split; [|split; [by apply validate_object|by apply snapshot_object]].
  pose proof (parseMonetaryAmount_spec assets (JsString (value (pi_amount i))) (JsString (unit_ (pi_amount i))) Hreg) as Hspec. rewrite Hp in Hspec. destruct Hspec as (s&d&[= <-]&_&Hd&_&_&Hrep). by exists d.
Qed.
Definition sample_intent : PaymentIntent := {|
  pi_source := {| accountId := "treasury:main" |}; pi_destination := {| pd_kind := "account"; pd_reference := "acct-42" |};
  pi_amount := {| value := "10.5"; unit_ := "USD" |}; pi_purpose := "vendor-payment"; pi_reference := Some "INV-7"; pi_rail := None;
  pi_idempotencyKey := "key-1"; pi_correlationId := None |}.
Definition sample_raw : JsValue := JsObject true [("amount", JsObject true [("unit", JsString "USD"); ("value", JsString "10.50")]); ("source", JsObject true (source_fields (pi_source sample_intent)));
  ("destination", JsObject true (destination_fields (pi_destination sample_intent))); ("purpose", JsString "vendor-payment"); ("idempotencyKey", JsString "key-1"); ("reference", JsString "INV-7")].
Lemma sample_raw_valid : validatePaymentIntent sample_raw Monetary.sample_registry = Ok (ValidIntent sample_intent).
Proof. vm_compute. reflexivity. Qed.
Lemma payment_intent_canonical_witness : validatePaymentIntent (intent_object sample_intent) Monetary.sample_registry = Ok (ValidIntent sample_intent).
Proof. exact (proj1 (proj2 (proj2 (payment_intent_canonical sample_raw Monetary.sample_registry sample_intent Monetary.sample_registry_ok sample_raw_valid)))). Defined.

(** ** From the intent to the rail *)

(** A validated action on the axes a compiled payment governs; a host may have
    declared further parameters. *)
Definition own_property_text (d : string) (ps : list (string * string)) : option string := snd <$> List.find (λ p, str_eqb p.1 d) ps.
Record carries (c : PaymentGovernedActionIntent) (a : ValidatedExecutionAction) : Prop := {
  cy_action : va_action a = ga_action c;
  cy_resource : va_resource a = ga_resource c;
  cy_counterparty : va_counterparty a = Some (ga_counterparty c);
  cy_amount : va_amount a = Some (ga_amount c);
  cy_parameters : ∀ d, d ∈ [purpose_dimension; reference_dimension; rail_dimension] → tokenParameter a d = Some <$> own_property_text d (ga_parameters c);
}.

Lemma compile_object i action envelope c : canonical_intent i → compilePaymentIntent (intent_object i) action envelope = Ok c →
  ∃ act cp, action = JsString act ∧ isPaymentEnvelopeIdentifier act = true ∧ paymentCounterpartyOf (pi_destination i) = Ok cp ∧
  ga_action c = act ∧ ga_resource c = accountId (pi_source i) ∧ ga_counterparty c = cp ∧ ga_amount c = pi_amount i ∧ ga_idempotencyKey c = pi_idempotencyKey i ∧
  ga_parameters c = [(purpose_dimension, pi_purpose i)] ++ match pi_reference i with Some r => [(reference_dimension, r)] | None => [] end ++
            match pi_rail i with Some r => [(rail_dimension, r)] | None => [] end.
Proof.
  intros Hi. unfold compilePaymentIntent. rewrite snapshot_object by done. destruct (reading isPaymentEnvelopeIdentifier action) as [act|] eqn:Ea; [|done].
  apply reading_Some in Ea as [-> Hact]. intros H. apply result_bind_Ok in H as (o&_&H). apply result_bind_Ok in H as (ctx&_&H). apply result_bind_Ok in H as (pf&_&H).
  apply result_bind_Ok in H as (cp&Hcp&H). injection H as <-. by exists act, cp.
Qed.

(** C34. What the rail is asked to do is the payment that was validated: an action
    granted on the axes a canonical intent compiled to prepares, under the same
    binding, to a request with the intent's source, destination, amount, purpose,
    reference and rail, and the execution identity of the action. *)
Theorem payment_reaches_rail i envelope c a act : canonical_intent i → compilePaymentIntent (intent_object i) (JsString act) envelope = Ok c → carries c a →
  preparePaymentExecution a {| pb_action := act |} = Ok {|
    pr_executionId := vc_executionId (va_correlation a); pr_requestId := vc_requestId (va_correlation a); pr_decisionId := vc_decisionId (va_correlation a);
    pr_grantId := va_boundedGrantId a; pr_notAfter := va_notAfter a; pr_source := pi_source i; pr_destination := pi_destination i; pr_amount := pi_amount i;
    pr_purpose := pi_purpose i; pr_reference := pi_reference i; pr_rail := pi_rail i |}.
Proof.
  intros Hi Hc [Ha Hr Hcp Ham Hp]. destruct (compile_object _ _ _ _ Hi Hc) as (act'&cp&[= <-]&_&Henc&Ea&Er&Ecp&Eam&_&Eps). destruct Hi as [Hs Hk Hd Hpos Hpur Href Hrail _ _].
  unfold preparePaymentExecution. rewrite Ha, Ea, Hr, Er, Hcp, Ecp, Ham, Eam, (counterparty_decodes _ _ Henc), Hs, Hpos. cbn [pb_action]. rewrite str_eqb_refl.
  assert (isWellFormedMonetaryAmount (pi_amount i) = true) as -> by (unfold isPositiveMonetaryAmount in Hpos; by apply andb_true_iff in Hpos as [? _]).
  rewrite !Hp, Eps by set_solver. cbn [negb orb].
  assert (own_property_text purpose_dimension (ga_parameters c) = Some (pi_purpose i) ∧ own_property_text reference_dimension (ga_parameters c) = pi_reference i ∧
    own_property_text rail_dimension (ga_parameters c) = pi_rail i) as (Ep&Ef&El) by (rewrite Eps; clear; destruct i as [s d am p [r|] [l|] k co]; repeat split; reflexivity).
  rewrite Eps in Ep, Ef, El. rewrite Ep, Ef, El. cbn [fmap option_fmap option_map]. rewrite Hpur. cbn [negb].
  assert (∀ p o, optionally p o → optional_token p (Some <$> o) = true) as Hopt by (by intros p [|]).
  assert (∀ o : option string, mjoin (Some <$> o) = o) as Hj by (by intros [|]).
  rewrite !Hopt, !Hj by done. cbn [negb]. by destruct (pi_source i).
Qed.

Definition sample_action : ValidatedExecutionAction := {|
  va_boundedGrantId := "grant-1"; va_subject := "agent"; va_action := "payment.send"; va_resource := "treasury:main"; va_counterparty := Some "account:acct-42";
  va_organization := None; va_amount := Some {| value := "10.5"; unit_ := "USD" |};
  va_parameters := Some [{| dimension := "costCenter"; parameter_value := VInteger (JInt 7) |}; {| dimension := "paymentPurpose"; parameter_value := VToken "vendor-payment" |};
    {| dimension := "paymentReference"; parameter_value := VToken "INV-7" |}];
  va_notAfter := "2026-01-01T00:00:00.000Z"; va_correlation := {| vc_requestId := "req-1"; vc_decisionId := "dec-1"; vc_executionId := "exec-1" |} |}.
Definition sample_compiled : PaymentGovernedActionIntent := {|
  ga_action := "payment.send"; ga_resource := "treasury:main"; ga_counterparty := "account:acct-42"; ga_amount := {| value := "10.5"; unit_ := "USD" |};
  ga_parameters := [("paymentPurpose", "vendor-payment"); ("paymentReference", "INV-7")]; ga_idempotencyKey := "key-1"; ga_correlationId := None;
  ga_assertedContext := None; ga_expectedGovernanceProfile := None |}.
Lemma sample_intent_canonical : canonical_intent sample_intent.
Proof. split; vm_compute; done. Qed.
Lemma sample_compiles : compilePaymentIntent (intent_object sample_intent) (JsString "payment.send") JsUndefined = Ok sample_compiled.
Proof. vm_compute. reflexivity. Qed.
Lemma sample_carries : carries sample_compiled sample_action.
Proof.
  split; [done..|]. intros d Hd. repeat (apply elem_of_cons in Hd as [->|Hd]; [reflexivity|]). by apply elem_of_nil in Hd.
Qed.
Lemma payment_reaches_rail_witness : ∃ request, preparePaymentExecution sample_action {| pb_action := "payment.send" |} = Ok request ∧ pr_destination request = pi_destination sample_intent.
Proof.
  eexists. split; [exact (payment_reaches_rail sample_intent JsUndefined sample_compiled sample_action "payment.send" sample_intent_canonical sample_compiles sample_carries)|reflexivity].
Defined.

(** ** The adapter of a rail *)

(** The own data property a rail's answer states as its status. *)
Definition states (status : string) (v : JsValue) : Prop := ∃ plain properties, v = JsObject plain properties ∧ own_property "status" properties = Some (JsString status).

Lemma read_property_text raised key ps v s : read_property raised key ps = Ok v → v = JsString s → own_property key ps = Some (JsString s).
Proof. unfold read_property. destruct (own_property key ps) as [[]|]; naive_solver. Qed.

Lemma rail_result_status raised v r : executionResultOfPaymentRail raised v = Ok r →
  (∀ ref by_, r = Completed ref by_ → states "completed" v) ∧ (∀ reason ref detail by_, r = Failed reason ref detail by_ → states "not-completed" v).
Proof.
  unfold executionResultOfPaymentRail. destruct v as [| | | | | |plain ps| |]; try (by intros [= <-]).
  intros H. apply result_bind_Ok in H as (status&Hs&H). apply result_bind_Ok in H as (ref&_&H). cbn zeta in H.
  assert (∀ s, match status with JsString t => str_eqb t s | _ => false end = true → states s (JsObject plain ps)) as Hst.
  { intros s E. destruct status; try done. apply str_eqb_eq in E as ->. exists plain, ps. split; [done|]. by eapply read_property_text. }
  destruct (match status with JsString t => str_eqb t "completed" | _ => false end) eqn:E1.
  { injection H as <-. split; [|done]. intros. by apply Hst. }
  apply result_bind_Ok in H as (d&_&H). cbn zeta in H. destruct (match status with JsString t => str_eqb t "unconfirmed" | _ => false end) eqn:E2.
  { by injection H as <-. }
  destruct (match status with JsString t => str_eqb t "not-completed" | _ => false end) eqn:E3; [|by injection H as <-].
  apply result_bind_Ok in H as (reason&_&H). destruct (List.find _ _); injection H as <-; [|done]. split; [done|]. intros. by apply Hst.
Qed.

(** The adapter of a rail invokes it at most once, and only with the request
    the granted action prepares to, when that prefers no other rail. It reports a
    completion only on the rail's own completion, and a definitive failure only
    when the rail was never invoked or itself answered that nothing completed;
    a rail that throws or answers unreadably is reported as unconfirmed. *)
Theorem rail_adapter_sound {Op} `{Effects Op} (rail : PaymentExecutionRequest → Prog (result Thrown JsValue)) raised railId binding action tr r :
  yields (adapter_execute rail raised railId binding action) tr r →
  (tr = [] ∧ r = Failed ADAPTER_ERROR None (Some PAYMENT_EXECUTION_NOT_PREPARED) None ∧ (∀ request, preparePaymentExecution action binding ≠ Ok request)) ∨
  ∃ request, preparePaymentExecution action binding = Ok request ∧
    ((tr = [] ∧ r = Failed ADAPTER_ERROR None (Some PAYMENT_RAIL_NOT_PREFERRED) None ∧ ∃ other, pr_rail request = Some other ∧ other ≠ railId) ∨
     ∃ answer, yields (rail request) tr answer ∧ (∀ other, pr_rail request = Some other → other = railId) ∧
      (∀ ref by_, r = Completed ref by_ → ∃ v, answer = Ok v ∧ states "completed" v) ∧
      (∀ reason ref detail by_, r = Failed reason ref detail by_ → ∃ v, answer = Ok v ∧ states "not-completed" v)).
Proof.
  unfold adapter_execute. destruct (preparePaymentExecution action binding) as [request|refusal]; [|intros [-> ->]; left; by split_and!].
  intros Hy. right. exists request. split; [done|]. destruct (match pr_rail request with Some preferred => negb (str_eqb preferred railId) | None => false end) eqn:Ep.
  { destruct Hy as [-> ->]. left. split; [done|]. split; [done|]. destruct (pr_rail request) as [other|]; [|done]. exists other. split; [done|]. intros ->. by rewrite str_eqb_refl in Ep. }
  right. apply yields_bind in Hy as (tr1&tr2&answer&->&Hr&Hy).
  assert (tr2 = [] ∧ (∀ ref by_, r = Completed ref by_ → ∃ v, answer = Ok v ∧ states "completed" v) ∧
    (∀ reason ref detail by_, r = Failed reason ref detail by_ → ∃ v, answer = Ok v ∧ states "not-completed" v)) as (->&H1&H2).
  { destruct answer as [v|e]; [|destruct Hy as [-> ->]; done]. destruct (executionResultOfPaymentRail raised v) as [r'|e] eqn:Er; destruct Hy as [-> ->]; [|done].
    destruct (rail_result_status _ _ _ Er) as [H1 H2]. split; [done|]. split; intros; eauto. }
  rewrite app_nil_r. exists answer. split; [done|]. split; [|done]. intros other E. rewrite E in Ep. destruct (str_eqb other railId) eqn:E'; [by apply str_eqb_eq in E'|done].
Qed.

(** A rail without operations, that completes at once. *)
#[local] Instance no_effects : Effects Empty_set := λ op, match op with end.
Definition instant_rail : PaymentExecutionRequest → Prog (Op := Empty_set) (result Thrown JsValue) := λ _, Ret (Ok (rail_object (RailCompleted (Some "pay-1")))).
Lemma rail_adapter_sound_witness : ∃ request answer, preparePaymentExecution sample_action {| pb_action := "payment.send" |} = Ok request ∧ instant_rail request = Ret answer ∧
  (∀ ref by_, Completed (Some "pay-1") None = Completed ref by_ → ∃ v, answer = Ok v ∧ states "completed" v).
Proof.
  destruct (rail_adapter_sound instant_rail ThrownOther "rail-a" {| pb_action := "payment.send" |} sample_action [] (Completed (Some "pay-1") None)) as [(_&E&_)|(request&Hp&[(_&E&_)|(answer&Hy&_&H1&_)])].
  - vm_compute. split; reflexivity.
  - discriminate E.
  - discriminate E.
  - exists request, answer. split; [exact Hp|]. split; [destruct Hy as [_ ->]; reflexivity|exact H1].
Defined.
