(* ===== verification/LightningRail.v ===== *)
(** * The Lightning payment rail

    Model of payment-runtime/rails/lightning: the governed destination
    (lightning-destination.ts), preimages (lightning-preimage.ts), the trusted
    configuration and fee cap (lightning-config.ts), the closed reading of a
    node's answers (lightning-node-port.ts), what an answer proves
    (lightning-classification.ts), the reservation port
    (lightning-payment-interlock.ts) and the rail itself (lightning-rail.ts).

    The rail is a program over its ports: the node, the invoice source, the clock
    and the durable interlock. Every port may answer anything it can answer; the
    interlock answers by its two uniqueness rules, or throws, with or without
    having written. Log lines are left out. Byte strings in hex are texts, as in
    the source. *)

From S2P Require Import Prelude Decimal Js Monetary Parameters AdapterPort Execution RailAmounts Bech32 Bolt11 RailProgram Payments.

Local Open Scope Z_scope.
Local Open Scope frontera_scope.

(** ** Hexadecimal texts *)

Definition hex (bytes : list Z) : string := text (bytes ≫= λ b, [hex_char (b / 16); hex_char (b mod 16)]).
(** [Buffer.from(text, 'hex')] of a text of hexadecimal digits. *)
Fixpoint from_hex (l : list ascii) : list Z :=
  match l with
  | a :: b :: l => (hex_value a * 16 + hex_value b) :: from_hex l
  | _ => []
  end.

Definition isLightningPaymentHash (s : string) : bool := (length (chars s) =? 64)%nat && forallb is_hex (chars s).
Definition isLightningNodePublicKey (s : string) : bool :=
  match chars s with
  | a :: b :: l => bool_decide (a = "0"%char) && (bool_decide (b = "2"%char) || bool_decide (b = "3"%char)) && (length l =? 64)%nat && forallb is_hex l
  | _ => false
  end.

(** ** The governed destination *)

Definition LIGHTNING_DESTINATION_KIND : string := "lightning-invoice".
Record LightningDestination := { ld_payee : string; ld_paymentHash : string }.

(** The groups of [REFERENCE]: 66 characters, a colon, the rest. *)
Definition parseLightningDestination (d : PaymentDestination) : option LightningDestination :=
  if negb (str_eqb (pd_kind d) LIGHTNING_DESTINATION_KIND) then None
  else
    let l := chars (pd_reference d) in
    let payee := text (take 66 l) in
    let paymentHash := text (drop 67 l) in
    if bool_decide (l !! 66%nat = Some ":"%char) && isLightningNodePublicKey payee && isLightningPaymentHash paymentHash
    then Some {| ld_payee := payee; ld_paymentHash := paymentHash |} else None.
Definition lightningDestinationOf (payee paymentHash : string) : option PaymentDestination :=
  if negb (isLightningNodePublicKey payee) || negb (isLightningPaymentHash paymentHash) then None
  else Some {| pd_kind := LIGHTNING_DESTINATION_KIND; pd_reference := text (chars payee ++ ":"%char :: chars paymentHash) |}.

(** ** Preimages *)

Section Preimages.
Context `{Secp256k1}.
Definition preimageMatchesPaymentHash (preimage paymentHash : string) : bool :=
  if negb (isLightningPaymentHash preimage) || negb (isLightningPaymentHash paymentHash) then false
  else
    let bytes := from_hex (chars preimage) in
    if negb (length bytes =? 32)%nat then false else str_eqb (hex (sha256 bytes)) paymentHash.
Definition COMMITMENT_DOMAIN : string := "frontera.lightning.preimage-commitment.v1".
Definition preimageCommitment (preimage : string) : string := hex (sha256 (map code (chars COMMITMENT_DOMAIN) ++ from_hex (chars preimage))).
Definition invoiceDigest (canonicalInvoice : list ascii) : string := hex (sha256 (map code canonicalInvoice)).
End Preimages.

(** ** The trusted configuration *)

Record Limits := { li_minimum : Z; li_maximum : Z }.
Definition within (lo hi : Z) : Limits := {| li_minimum := lo; li_maximum := hi |}.
Definition paymentTimeoutSeconds_limits : Limits := within 5 600.
Definition requestTimeoutMs_limits : Limits := within 500 60000.
Definition finalityGraceMs_limits : Limits := within 1000 120000.
Definition minimumExpiryMarginSeconds_limits : Limits := within 0 3600.
Definition maximumClockSkewSeconds_limits : Limits := within 0 3600.
Definition maximumFinalCltvExpiryDelta_limits : Limits := within 18 2016.
Definition maximumInvoiceLength_limits : Limits := within 128 BOLT11_ABSOLUTE_MAXIMUM_LENGTH.
Definition maximumFeePpm_limits : Limits := within 0 1000000.

Definition LIGHTNING_RAIL_ID : string := "lightning-btc".
Record LightningRailConfigurationInput := {
  in_railId : JsValue; in_network : JsValue; in_allowMainnet : JsValue; in_asset : JsValue; in_sourceAccounts : JsValue; in_fees : JsValue;
  in_paymentTimeoutSeconds : JsValue; in_requestTimeoutMs : JsValue; in_finalityGraceMs : JsValue; in_minimumExpiryMarginSeconds : JsValue;
  in_maximumClockSkewSeconds : JsValue; in_maximumFinalCltvExpiryDelta : JsValue; in_maximumInvoiceLength : JsValue;
}.
Record LightningRailConfiguration := {
  lc_railId : string;
  lc_network : LightningNetwork;
  lc_paymentAsset : string;
  lc_assetScale : Z;
  lc_sourceAccounts : list string;
  lc_maximumFeeMsat : option Z;
  lc_maximumFeePpm : option Z;
  lc_paymentTimeoutSeconds : Z;
  lc_requestTimeoutMs : Z;
  lc_finalityGraceMs : Z;
  lc_minimumExpiryMarginSeconds : Z;
  lc_maximumClockSkewSeconds : Z;
  lc_maximumFinalCltvExpiryDelta : Z;
  lc_maximumInvoiceLength : Z;
}.

(** A refused configuration names the field. *)
Definition nullish (v : JsValue) : bool := match v with JsUndefined | JsNull => true | _ => false end.
Definition integerIn (f : string) (v : JsValue) (limits : Limits) (fallback : Z) : result string Z :=
  let chosen := if nullish v then JsNum (JInt fallback) else v in
  match chosen with
  | JsNum n => if isSafeInteger n && (li_minimum limits <=? integer_value n) && (integer_value n <=? li_maximum limits) then Ok (integer_value n) else Throw f
  | _ => Throw f
  end.
Definition network_of (v : JsValue) : option LightningNetwork :=
  match v with
  | JsString s => if str_eqb s "mainnet" then Some mainnet else if str_eqb s "testnet" then Some testnet else if str_eqb s "signet" then Some signet
                  else if str_eqb s "regtest" then Some regtest else None
  | _ => None
  end.
Definition object_of (v : JsValue) : option (list (string * JsValue)) := match v with JsObject _ ps => Some ps | JsArray _ => Some [] | _ => None end.
(** The accounts read so far are kept in order, so their number is the index. *)
Fixpoint read_accounts (accounts : list JsValue) (seen : list string) : result string (list string) :=
  match accounts with
  | [] => Ok seen
  | v :: accounts =>
      let at_index := "sourceAccounts[" +:+ json_number (JInt (Z.of_nat (length seen))) +:+ "]" in
      match Payments.reading isPaymentReference v with
      | None => Throw at_index
      | Some s => if bool_decide (s ∈ seen) then Throw at_index else read_accounts accounts (seen ++ [s])
      end
  end.
Definition undefined (v : JsValue) : bool := match v with JsUndefined => true | _ => false end.

Definition createLightningRailConfiguration (input : LightningRailConfigurationInput) : result string LightningRailConfiguration :=
  let* railId := match Payments.reading isPaymentRailId (if nullish (in_railId input) then JsString LIGHTNING_RAIL_ID else in_railId input) with Some s => Ok s | None => Throw "railId" end in
  let* network := match network_of (in_network input) with Some n => Ok n | None => Throw "network" end in
  let* allowed := match in_allowMainnet input with JsUndefined => Ok false | JsBool b => Ok b | _ => Throw "allowMainnet" end in
  guard* negb (match network with mainnet => negb allowed | _ => false end) else "network" in
  let* asset := match object_of (in_asset input) with Some ps => Ok ps | None => Throw "asset.paymentAsset" end in
  let* paymentAsset := match Payments.reading asset_id_pattern (field asset "paymentAsset") with Some s => Ok s | None => Throw "asset.paymentAsset" end in
  let* scale := match field asset "scale" with
    | JsNum n => if isSafeInteger n && (0 <=? integer_value n) && (integer_value n <=? 11) then Ok (integer_value n) else Throw "asset.scale" | _ => Throw "asset.scale" end in
  let* sourceAccounts := match in_sourceAccounts input with JsArray (v :: vs) => read_accounts (v :: vs) [] | _ => Throw "sourceAccounts" end in
  let* fees := match object_of (in_fees input) with Some ps => Ok ps | None => Throw "fees" end in
  let* maximumFeeMsat := if undefined (field fees "maximumFeeMsat") then Ok None
    else match match field fees "maximumFeeMsat" with JsString s => msatOfDecimalText s | _ => None end with
    | Some m => if LIGHTNING_MAXIMUM_MSAT <? m then Throw "fees.maximumFeeMsat" else Ok (Some m)
    | None => Throw "fees.maximumFeeMsat"
    end in
  let* maximumFeePpm := if undefined (field fees "maximumFeePpm") then Ok None
    else let* v := integerIn "fees.maximumFeePpm" (field fees "maximumFeePpm") maximumFeePpm_limits 0 in Ok (Some v) in
  guard* (is_some maximumFeeMsat || is_some maximumFeePpm) else "fees" in
  let* paymentTimeoutSeconds := integerIn "paymentTimeoutSeconds" (in_paymentTimeoutSeconds input) paymentTimeoutSeconds_limits 60 in
  let* requestTimeoutMs := integerIn "requestTimeoutMs" (in_requestTimeoutMs input) requestTimeoutMs_limits 10000 in
  let* finalityGraceMs := integerIn "finalityGraceMs" (in_finalityGraceMs input) finalityGraceMs_limits 15000 in
  let* minimumExpiryMarginSeconds := integerIn "minimumExpiryMarginSeconds" (in_minimumExpiryMarginSeconds input) minimumExpiryMarginSeconds_limits 60 in
  let* maximumClockSkewSeconds := integerIn "maximumClockSkewSeconds" (in_maximumClockSkewSeconds input) maximumClockSkewSeconds_limits 600 in
  let* maximumFinalCltvExpiryDelta := integerIn "maximumFinalCltvExpiryDelta" (in_maximumFinalCltvExpiryDelta input) maximumFinalCltvExpiryDelta_limits 1008 in
  let* maximumInvoiceLength := integerIn "maximumInvoiceLength" (in_maximumInvoiceLength input) maximumInvoiceLength_limits 2048 in
  Ok {| lc_railId := railId; lc_network := network; lc_paymentAsset := paymentAsset; lc_assetScale := scale; lc_sourceAccounts := sourceAccounts;
        lc_maximumFeeMsat := maximumFeeMsat; lc_maximumFeePpm := maximumFeePpm; lc_paymentTimeoutSeconds := paymentTimeoutSeconds;
        lc_requestTimeoutMs := requestTimeoutMs; lc_finalityGraceMs := finalityGraceMs; lc_minimumExpiryMarginSeconds := minimumExpiryMarginSeconds;
        lc_maximumClockSkewSeconds := maximumClockSkewSeconds; lc_maximumFinalCltvExpiryDelta := maximumFinalCltvExpiryDelta; lc_maximumInvoiceLength := maximumInvoiceLength |}.

(** BigInt division truncates; both operands are non-negative. *)
Definition lightningFeeLimitMsat (c : LightningRailConfiguration) (amountMsat : Z) : Z :=
  let proportional := (λ ppm, Z.quot (amountMsat * ppm) 1000000) <$> lc_maximumFeePpm c in
  match lc_maximumFeeMsat c, proportional with
  | None, proportional => default 0 proportional
  | Some absolute, None => absolute
  | Some absolute, Some proportional => if absolute <? proportional then absolute else proportional
  end.

(** ** What a node answers *)

(** A value that may also be a BigInt. An answer is a plain record of own
    properties, or anything else. *)
Inductive NodeField := NBig (z : Z) | NJs (v : JsValue).
Inductive NodeAnswer := NRecord (properties : list (string * NodeField)) | NOther.

Inductive LightningPaymentFailure := no_route | timeout | incorrect_payment_details | insufficient_balance | canceled | payment_error.
Definition LIGHTNING_PAYMENT_FAILURES : list (string * LightningPaymentFailure) :=
  [("no-route", no_route); ("timeout", timeout); ("incorrect-payment-details", incorrect_payment_details); ("insufficient-balance", insufficient_balance);
   ("canceled", canceled); ("error", payment_error)].
Inductive LightningPaymentObservation :=
  | Succeeded (paymentHash preimage : string) (amountMsat feeMsat : Z)
  | PaymentFailed (paymentHash : string) (failure : LightningPaymentFailure)
  | InFlight (paymentHash : string)
  | NotFound.
Record LightningNodeInfo := { ni_network : LightningNetwork; ni_identity : string }.
Record LightningNodeInvoiceView := { nv_payee : string; nv_paymentHash : string; nv_amountMsat : option Z }.

(** Own data properties within the allowed names; an accessor is refused unread. *)
Definition node_fields (raw : NodeAnswer) (allowed : list string) : option (list (string * NodeField)) :=
  match raw with
  | NRecord ps => if forallb (λ p, bool_decide (p.1 ∈ allowed) && match p.2 with NJs JsAccessor => false | _ => true end) ps then Some ps else None
  | NOther => None
  end.
(** [values.get(key)] *)
Definition node_get (key : string) (ps : list (string * NodeField)) : option NodeField := snd <$> List.find (λ p, str_eqb p.1 key) ps.
Definition node_text (key : string) (ps : list (string * NodeField)) : option string := match node_get key ps with Some (NJs (JsString s)) => Some s | _ => None end.
Definition node_hash (key : string) (ps : list (string * NodeField)) : option string := s ← node_text key ps; if isLightningPaymentHash s then Some s else None.
Definition node_key (key : string) (ps : list (string * NodeField)) : option string := s ← node_text key ps; if isLightningNodePublicKey s then Some s else None.
Definition msat (v : option NodeField) : option Z :=
  match v with
  | Some (NBig z) => if 0 <=? z then Some z else None
  | Some (NJs (JsString s)) => msatOfDecimalText s
  | _ => None
  end.

Definition readLightningPaymentObservation (raw : NodeAnswer) : option LightningPaymentObservation :=
  values ← node_fields raw ["state"; "paymentHash"; "preimage"; "amountMsat"; "feeMsat"; "failure"];
  let size := length values in
  let says s := match node_text "state" values with Some t => str_eqb t s | None => false end in
  if says "not-found" then (if (size =? 1)%nat then Some NotFound else None)
  else
    paymentHash ← node_hash "paymentHash" values;
    if says "in-flight" then (if (size =? 2)%nat then Some (InFlight paymentHash) else None)
    else if says "failed" then
      if (size =? 3)%nat then
        name ← node_text "failure" values; failure ← snd <$> List.find (λ p, str_eqb p.1 name) LIGHTNING_PAYMENT_FAILURES;
        Some (PaymentFailed paymentHash failure)
      else None
    else if negb (says "succeeded") || negb (size =? 5)%nat then None
    else
      preimage ← node_hash "preimage" values; amountMsat ← msat (node_get "amountMsat" values); feeMsat ← msat (node_get "feeMsat" values);
      if amountMsat <=? 0 then None else Some (Succeeded paymentHash preimage amountMsat feeMsat).

Definition readLightningNodeInfo (raw : NodeAnswer) : option LightningNodeInfo :=
  values ← node_fields raw ["network"; "identity"];
  if negb (length values =? 2)%nat then None
  else network ← match node_get "network" values with Some (NJs v) => network_of v | _ => None end; identity ← node_key "identity" values;
       Some {| ni_network := network; ni_identity := identity |}.

Definition readLightningNodeInvoiceView (raw : NodeAnswer) : option LightningNodeInvoiceView :=
  values ← node_fields raw ["payee"; "paymentHash"; "amountMsat"];
  payee ← node_key "payee" values; paymentHash ← node_hash "paymentHash" values;
  match node_get "amountMsat" values with
  | None => if (length values =? 2)%nat then Some {| nv_payee := payee; nv_paymentHash := paymentHash; nv_amountMsat := None |} else None
  | Some v => amountMsat ← msat (Some v); Some {| nv_payee := payee; nv_paymentHash := paymentHash; nv_amountMsat := Some amountMsat |}
  end.

(** ** What an answer proves *)

Inductive LightningRailDetail :=
  | ASSET_UNSUPPORTED | AMOUNT_UNREPRESENTABLE | SOURCE_UNMAPPED | DESTINATION_INVALID | INVOICE_UNAVAILABLE | INVOICE_INVALID
  | INVOICE_NETWORK_MISMATCH | INVOICE_PAYEE_MISMATCH | INVOICE_PAYMENT_HASH_MISMATCH | INVOICE_AMOUNTLESS | INVOICE_AMOUNT_MISMATCH
  | INVOICE_EXPIRED | INVOICE_TIMESTAMP_IN_FUTURE | INVOICE_CLTV_UNSUPPORTED | NODE_UNAVAILABLE | NODE_NETWORK_MISMATCH | NODE_SELF_PAYMENT
  | NODE_INVOICE_DISAGREEMENT | INTERLOCK_UNAVAILABLE | PAYMENT_HASH_RESERVED | SEND_NOT_ATTEMPTED | RAIL_ERROR_BEFORE_SEND
  | EXECUTION_PREVIOUSLY_INITIATED | EXECUTION_INVOICE_CONFLICT | PAYMENT_IN_FLIGHT | SEND_OUTCOME_UNKNOWN | NODE_ANSWER_UNREADABLE
  | NODE_ANSWER_INCONSISTENT | PREIMAGE_MISMATCH | DELIVERED_AMOUNT_MISMATCH | FEE_BOUND_VIOLATED.
Definition detail_name (d : LightningRailDetail) : string :=
  match d with
  | ASSET_UNSUPPORTED => "lightning-asset-unsupported" | AMOUNT_UNREPRESENTABLE => "lightning-amount-unrepresentable" | SOURCE_UNMAPPED => "lightning-source-unmapped"
  | DESTINATION_INVALID => "lightning-destination-invalid" | INVOICE_UNAVAILABLE => "lightning-invoice-unavailable" | INVOICE_INVALID => "lightning-invoice-invalid"
  | INVOICE_NETWORK_MISMATCH => "lightning-invoice-network-mismatch" | INVOICE_PAYEE_MISMATCH => "lightning-invoice-payee-mismatch"
  | INVOICE_PAYMENT_HASH_MISMATCH => "lightning-invoice-payment-hash-mismatch" | INVOICE_AMOUNTLESS => "lightning-invoice-amountless"
  | INVOICE_AMOUNT_MISMATCH => "lightning-invoice-amount-mismatch" | INVOICE_EXPIRED => "lightning-invoice-expired"
  | INVOICE_TIMESTAMP_IN_FUTURE => "lightning-invoice-timestamp-in-future" | INVOICE_CLTV_UNSUPPORTED => "lightning-invoice-cltv-unsupported"
  | NODE_UNAVAILABLE => "lightning-node-unavailable" | NODE_NETWORK_MISMATCH => "lightning-node-network-mismatch" | NODE_SELF_PAYMENT => "lightning-node-self-payment"
  | NODE_INVOICE_DISAGREEMENT => "lightning-node-invoice-disagreement" | INTERLOCK_UNAVAILABLE => "lightning-interlock-unavailable"
  | PAYMENT_HASH_RESERVED => "lightning-payment-hash-reserved" | SEND_NOT_ATTEMPTED => "lightning-send-not-attempted" | RAIL_ERROR_BEFORE_SEND => "lightning-rail-error-before-send"
  | EXECUTION_PREVIOUSLY_INITIATED => "lightning-execution-previously-initiated" | EXECUTION_INVOICE_CONFLICT => "lightning-execution-invoice-conflict"
  | PAYMENT_IN_FLIGHT => "lightning-payment-in-flight" | SEND_OUTCOME_UNKNOWN => "lightning-send-outcome-unknown" | NODE_ANSWER_UNREADABLE => "lightning-node-answer-unreadable"
  | NODE_ANSWER_INCONSISTENT => "lightning-node-answer-inconsistent" | PREIMAGE_MISMATCH => "lightning-preimage-mismatch"
  | DELIVERED_AMOUNT_MISMATCH => "lightning-delivered-amount-mismatch" | FEE_BOUND_VIOLATED => "lightning-fee-bound-violated"
  end.
Definition LIGHTNING_FAILURE_DETAILS (f : LightningPaymentFailure) : string :=
  match f with
  | no_route => "lightning-no-route" | timeout => "lightning-routing-timeout" | incorrect_payment_details => "lightning-incorrect-payment-details"
  | insufficient_balance => "lightning-insufficient-balance" | canceled => "lightning-payment-canceled" | payment_error => "lightning-payment-failed"
  end.

Inductive LightningPaymentConclusion :=
  | ConcludedCompleted (preimage : string) (feeMsat : Z)
  | ConcludedFailed (failure : LightningPaymentFailure)
  | ConcludedPending
  | ConcludedUnknown
  | ConcludedInconsistent (detail : LightningRailDetail).

Record LightningPaymentReservationInput := {
  rs_executionId : string;
  rs_paymentHash : string;
  rs_payee : string;
  rs_network : LightningNetwork;
  rs_payerNodeId : string;
  rs_invoiceDigest : string;
  rs_amountMsat : Z;
  rs_feeLimitMsat : Z;
  rs_expiresAt : Z;
}.

Section Conclusion.
Context `{Secp256k1}.
Definition concludeLightningPayment (observation : option LightningPaymentObservation) (expected : LightningPaymentReservationInput) : LightningPaymentConclusion :=
  match observation with
  | None | Some NotFound => ConcludedUnknown
  | Some (InFlight h) => if negb (str_eqb h (rs_paymentHash expected)) then ConcludedInconsistent NODE_ANSWER_INCONSISTENT else ConcludedPending
  | Some (PaymentFailed h failure) => if negb (str_eqb h (rs_paymentHash expected)) then ConcludedInconsistent NODE_ANSWER_INCONSISTENT else ConcludedFailed failure
  | Some (Succeeded h preimage amountMsat feeMsat) =>
      if negb (str_eqb h (rs_paymentHash expected)) then ConcludedInconsistent NODE_ANSWER_INCONSISTENT
      else if negb (preimageMatchesPaymentHash preimage (rs_paymentHash expected)) then ConcludedInconsistent PREIMAGE_MISMATCH
      else if negb (amountMsat =? rs_amountMsat expected) then ConcludedInconsistent DELIVERED_AMOUNT_MISMATCH
      else if rs_feeLimitMsat expected <? feeMsat then ConcludedInconsistent FEE_BOUND_VIOLATED
      else ConcludedCompleted preimage feeMsat
  end.
End Conclusion.

(** ** The ports *)

Inductive LightningPaymentReservation := reserved | execution_recorded (record : LightningPaymentReservationInput) | payment_hash_reserved | other_outcome.
Record LightningPaymentInstruction := {
  ins_invoice : list ascii;
  ins_paymentHash : string;
  ins_amountMsat : Z;
  ins_feeLimitMsat : Z;
  ins_timeoutSeconds : Z;
  ins_deadlineMs : Z;
}.
(** The node's answer; the request that provably never left; any other failure, the rail's own deadline among them. *)
Inductive SendAnswer := SendAnswered (answer : NodeAnswer) | SendNotAttempted | SendFailed.

Inductive LightningOp :=
  | Recorded (executionId : string)
  | InvoiceFor (destination : LightningDestination) (executionId : string)
  | Now
  | NodeInfo
  | DecodeInvoice (invoice : list ascii)
  | Reserve (record : LightningPaymentReservationInput)
  | SendPayment (instruction : LightningPaymentInstruction).
(** A port that throws answers [Throw tt]. *)
#[export] Instance lightning_effects : Effects LightningOp := λ op,
  match op with
  | Recorded _ => result unit (option LightningPaymentReservationInput)
  | InvoiceFor _ _ => result unit JsValue
  | Now => result unit Z
  | NodeInfo | DecodeInvoice _ => result unit NodeAnswer
  | Reserve _ => result unit LightningPaymentReservation
  | SendPayment _ => SendAnswer
  end.

(** ** The rail *)

Record Refusal := { rf_reason : ExecutionFailureReason; rf_detail : LightningRailDetail }.
Definition refusal (reason : ExecutionFailureReason) (detail : LightningRailDetail) : Refusal := {| rf_reason := reason; rf_detail := detail |}.
Record Prepared := { pp_destination : LightningDestination; pp_amountMsat : Z }.

Section Rail.
Context `{Secp256k1} (configuration : LightningRailConfiguration).

Definition prepare (request : PaymentExecutionRequest) : result Refusal Prepared :=
  guard* str_eqb (unit_ (pr_amount request)) (lc_paymentAsset configuration) else refusal ADAPTER_ERROR ASSET_UNSUPPORTED in
  let* amountMsat := match msatOfBtcDecimal (value (pr_amount request)) with Some m => Ok m | None => Throw (refusal ADAPTER_ERROR AMOUNT_UNREPRESENTABLE) end in
  guard* bool_decide (accountId (pr_source request) ∈ lc_sourceAccounts configuration) else refusal ADAPTER_ERROR SOURCE_UNMAPPED in
  let* destination := match parseLightningDestination (pr_destination request) with Some d => Ok d | None => Throw (refusal ADAPTER_ERROR DESTINATION_INVALID) end in
  Ok {| pp_destination := destination; pp_amountMsat := amountMsat |}.

Definition checkTime (invoice : Bolt11Invoice) : Prog (result Refusal ()) :=
  Ask Now (λ now, Ret (match now with
  | Throw _ => Throw (refusal ADAPTER_ERROR RAIL_ERROR_BEFORE_SEND)
  | Ok ms =>
      let seconds := ms / 1000 in
      guard* negb (seconds + lc_maximumClockSkewSeconds configuration <? iv_timestamp invoice) else refusal ADAPTER_ERROR INVOICE_TIMESTAMP_IN_FUTURE in
      guard* negb (bolt11ExpiresAt invoice - lc_minimumExpiryMarginSeconds configuration <=? seconds) else refusal PROVIDER_REJECTED INVOICE_EXPIRED in
      Ok tt
  end)).

(** The checks of the decoded invoice against the governed facts. *)
Definition invoice_matches (vi : VerifiedInvoice) (prepared : Prepared) : result Refusal () :=
  let invoice := vi_invoice vi in
  guard* bool_decide (iv_network invoice = lc_network configuration) else refusal ADAPTER_ERROR INVOICE_NETWORK_MISMATCH in
  guard* str_eqb (hex (vi_payee vi)) (ld_payee (pp_destination prepared)) else refusal ADAPTER_ERROR INVOICE_PAYEE_MISMATCH in
  guard* str_eqb (hex (iv_paymentHash invoice)) (ld_paymentHash (pp_destination prepared)) else refusal ADAPTER_ERROR INVOICE_PAYMENT_HASH_MISMATCH in
  let* amountMsat := match iv_amountMsat invoice with Some m => Ok m | None => Throw (refusal ADAPTER_ERROR INVOICE_AMOUNTLESS) end in
  guard* amountMsat =? pp_amountMsat prepared else refusal ADAPTER_ERROR INVOICE_AMOUNT_MISMATCH in
  guard* negb (lc_maximumFinalCltvExpiryDelta configuration <? iv_minFinalCltvExpiryDelta invoice) else refusal ADAPTER_ERROR INVOICE_CLTV_UNSUPPORTED in
  Ok tt.

Definition verifiedInvoice (request : PaymentExecutionRequest) (prepared : Prepared) : Prog (result Refusal VerifiedInvoice) :=
  Ask (InvoiceFor (pp_destination prepared) (pr_executionId request)) (λ answer,
    match answer with
    | Ok (JsString invoice) =>
        match decodeBolt11Invoice invoice (lc_maximumInvoiceLength configuration) with
        | Throw _ => Ret (Throw (refusal ADAPTER_ERROR INVOICE_INVALID))
        | Ok vi =>
            await* _ := lift (invoice_matches vi prepared) in
            await* _ := checkTime (vi_invoice vi) in
            Ret (Ok vi)
        end
    | _ => Ret (Throw (refusal ADAPTER_ERROR INVOICE_UNAVAILABLE))
    end).

Definition checkNode (vi : VerifiedInvoice) : Prog (result Refusal LightningNodeInfo) :=
  let invoice := vi_invoice vi in
  Ask NodeInfo (λ answer,
    match answer with
    | Throw _ => Ret (Throw (refusal PROVIDER_UNAVAILABLE NODE_UNAVAILABLE))
    | Ok raw =>
        match readLightningNodeInfo raw with
        | None => Ret (Throw (refusal PROVIDER_RESPONSE_INVALID NODE_UNAVAILABLE))
        | Some info =>
            if negb (bool_decide (ni_network info = lc_network configuration)) then Ret (Throw (refusal ADAPTER_ERROR NODE_NETWORK_MISMATCH))
            else if str_eqb (ni_identity info) (hex (vi_payee vi)) then Ret (Throw (refusal ADAPTER_ERROR NODE_SELF_PAYMENT))
            else Ask (DecodeInvoice (iv_canonical invoice)) (λ answer, Ret
              match answer with
              | Throw _ => Throw (refusal PROVIDER_UNAVAILABLE NODE_UNAVAILABLE)
              | Ok raw =>
                  match readLightningNodeInvoiceView raw with
                  | None => Throw (refusal ADAPTER_ERROR NODE_INVOICE_DISAGREEMENT)
                  | Some view =>
                      if negb (str_eqb (nv_payee view) (hex (vi_payee vi))) || negb (str_eqb (nv_paymentHash view) (hex (iv_paymentHash invoice))) ||
                         negb (bool_decide (nv_amountMsat view = iv_amountMsat invoice))
                      then Throw (refusal ADAPTER_ERROR NODE_INVOICE_DISAGREEMENT) else Ok info
                  end
              end)
        end
    end).

Definition unconfirmed (paymentHash : string) (detail : LightningRailDetail) : PaymentRailResult := RailUnconfirmed (Some paymentHash) (Some (detail_name detail)).

Definition previously (record : LightningPaymentReservationInput) (prepared : Prepared) : PaymentRailResult :=
  let same := str_eqb (rs_paymentHash record) (ld_paymentHash (pp_destination prepared)) && str_eqb (rs_payee record) (ld_payee (pp_destination prepared)) &&
    (rs_amountMsat record =? pp_amountMsat prepared) in
  unconfirmed (rs_paymentHash record) (if same then EXECUTION_PREVIOUSLY_INITIATED else EXECUTION_INVOICE_CONFLICT).

Definition instruction_of (record : LightningPaymentReservationInput) (invoice : Bolt11Invoice) : LightningPaymentInstruction := {|
  ins_invoice := iv_canonical invoice; ins_paymentHash := rs_paymentHash record; ins_amountMsat := rs_amountMsat record; ins_feeLimitMsat := rs_feeLimitMsat record;
  ins_timeoutSeconds := lc_paymentTimeoutSeconds configuration; ins_deadlineMs := lc_paymentTimeoutSeconds configuration * 1000 + lc_finalityGraceMs configuration |}.

Definition send_result (record : LightningPaymentReservationInput) (answer : SendAnswer) : PaymentRailResult :=
  let reference := Some (rs_paymentHash record) in
  match answer with
  | SendNotAttempted => RailNotCompleted PROVIDER_UNAVAILABLE reference (Some (detail_name SEND_NOT_ATTEMPTED))
  | SendFailed => unconfirmed (rs_paymentHash record) SEND_OUTCOME_UNKNOWN
  | SendAnswered raw =>
      match readLightningPaymentObservation raw with
      | None => unconfirmed (rs_paymentHash record) NODE_ANSWER_UNREADABLE
      | Some observation =>
          match concludeLightningPayment (Some observation) record with
          | ConcludedCompleted _ _ => RailCompleted reference
          | ConcludedFailed failure => RailNotCompleted PROVIDER_REJECTED reference (Some (LIGHTNING_FAILURE_DETAILS failure))
          | ConcludedPending => unconfirmed (rs_paymentHash record) PAYMENT_IN_FLIGHT
          | ConcludedInconsistent detail => unconfirmed (rs_paymentHash record) detail
          | ConcludedUnknown => unconfirmed (rs_paymentHash record) NODE_ANSWER_INCONSISTENT
          end
      end
  end.
Definition sendOnce (record : LightningPaymentReservationInput) (invoice : Bolt11Invoice) : Prog PaymentRailResult :=
  Ask (SendPayment (instruction_of record invoice)) (λ answer, Ret (send_result record answer)).

Definition record_of (request : PaymentExecutionRequest) (prepared : Prepared) (vi : VerifiedInvoice) (payer : LightningNodeInfo) : LightningPaymentReservationInput :=
  let invoice := vi_invoice vi in {|
  rs_executionId := pr_executionId request; rs_paymentHash := hex (iv_paymentHash invoice); rs_payee := hex (vi_payee vi); rs_network := iv_network invoice;
  rs_payerNodeId := ni_identity payer; rs_invoiceDigest := invoiceDigest (iv_canonical invoice); rs_amountMsat := pp_amountMsat prepared;
  rs_feeLimitMsat := lightningFeeLimitMsat configuration (pp_amountMsat prepared); rs_expiresAt := bolt11ExpiresAt invoice |}.

(** What is left to do when the [try] block ends: nothing more, or the one send. *)
Inductive Ready := Answered (r : PaymentRailResult) | ToSend (record : LightningPaymentReservationInput) (invoice : Bolt11Invoice).

(** The [try] block of [execute], after the interlock was read: invoice, node, reservation. *)
Definition reserve_payment (request : PaymentExecutionRequest) (prepared : Prepared) (vi : VerifiedInvoice) (payer : LightningNodeInfo) : Prog (result Refusal Ready) :=
  let record := record_of request prepared vi payer in
  Ask (Reserve record) (λ answer,
    match answer with
    | Throw _ | Ok other_outcome => Ret (Throw (refusal ADAPTER_ERROR INTERLOCK_UNAVAILABLE))
    | Ok (execution_recorded earlier) => Ret (Ok (Answered (previously earlier prepared)))
    | Ok payment_hash_reserved => Ret (Throw (refusal ADAPTER_ERROR PAYMENT_HASH_RESERVED))
    | Ok reserved =>
        await* _ := checkTime (vi_invoice vi) in
        Ret (Ok (ToSend record (vi_invoice vi)))
    end).
Definition before_send (request : PaymentExecutionRequest) : Prog (result Refusal Ready) :=
  await* prepared := lift (prepare request) in
  Ask (Recorded (pr_executionId request)) (λ answer,
    match answer with
    | Throw _ => Ret (Throw (refusal ADAPTER_ERROR INTERLOCK_UNAVAILABLE))
    | Ok (Some earlier) => Ret (Ok (Answered (previously earlier prepared)))
    | Ok None =>
        await* vi := verifiedInvoice request prepared in
        await* payer := checkNode vi in
        reserve_payment request prepared vi payer
    end).
Definition execute (request : PaymentExecutionRequest) : Prog PaymentRailResult :=
  prog_bind (before_send request) (λ outcome,
    match outcome with
    | Throw r => Ret (RailNotCompleted (rf_reason r) None (Some (detail_name (rf_detail r))))
    | Ok (Answered r) => Ret r
    | Ok (ToSend record invoice) => sendOnce record invoice
    end).

Inductive LightningRailReadiness := RailReady (network : LightningNetwork) | RailUnavailable (detail : LightningRailDetail).
Definition readiness : Prog LightningRailReadiness :=
  Ask NodeInfo (λ answer, Ret
    match answer with
    | Throw _ => RailUnavailable NODE_UNAVAILABLE
    | Ok raw =>
        match readLightningNodeInfo raw with
        | None => RailUnavailable NODE_UNAVAILABLE
        | Some info => if negb (bool_decide (ni_network info = lc_network configuration)) then RailUnavailable NODE_NETWORK_MISMATCH else RailReady (ni_network info)
        end
    end).
End Rail.

(** ** The interlock, abstractly *)

Definition interlock_decide (records : list LightningPaymentReservationInput) (r : LightningPaymentReservationInput) :
    LightningPaymentReservation * list LightningPaymentReservationInput :=
  match List.find (λ e, str_eqb (rs_executionId e) (rs_executionId r)) records with
  | Some earlier => (execution_recorded earlier, records)
  | None => if existsb (λ e, str_eqb (rs_paymentHash e) (rs_paymentHash r)) records then (payment_hash_reserved, records) else (reserved, records ++ [r])
  end.
(** The durable records; a throwing reservation may or may not have been written. *)
Definition lightning_serve (w : list LightningPaymentReservationInput) (op : LightningOp) : answer op → list LightningPaymentReservationInput → Prop :=
  match op with
  | Recorded id => λ a w', w' = w ∧ (a = Throw tt ∨ a = Ok (List.find (λ e, str_eqb (rs_executionId e) id) w))
  | Reserve r => λ a w', (a = Throw tt ∧ (w' = w ∨ w' = (interlock_decide w r).2)) ∨ (a = Ok (interlock_decide w r).1 ∧ w' = (interlock_decide w r).2)
  | InvoiceFor _ _ | Now | NodeInfo | DecodeInvoice _ | SendPayment _ => λ _ w', w' = w
  end.

(** One record per execution and per payment hash. *)
Definition records_ok (w : list LightningPaymentReservationInput) : Prop := NoDup (rs_executionId <$> w) ∧ NoDup (rs_paymentHash <$> w).

Definition lightning_grants (op : LightningOp) : answer op → option LightningPaymentReservationInput :=
  match op with Reserve r => λ a, match a with Ok reserved => Some r | _ => None end | _ => λ _, None end.
Definition lightning_spends (op : LightningOp) : bool := match op with SendPayment _ => true | _ => false end.

Lemma decide_ok w r : records_ok w → records_ok (interlock_decide w r).2 ∧ ((interlock_decide w r).1 = reserved → (interlock_decide w r).2 = w ++ [r]).
Proof.
  intros [He Hp]. unfold interlock_decide. destruct (List.find _ w) as [e|] eqn:Ef; [done|]. destruct (existsb _ w) eqn:Ex; [done|]. cbn. split; [|done].
  assert (∀ (f : LightningPaymentReservationInput → string), NoDup (f <$> w) → existsb (λ e, str_eqb (f e) (f r)) w = false → NoDup (f <$> w ++ [r])) as Hf.
  { intros f Hn Hx. rewrite fmap_app. apply NoDup_app. split; [done|]. split; [|apply NoDup_singleton]. intros k Hk ->%list_elem_of_singleton.
    apply list_elem_of_fmap in Hk as (e&E&He'). apply not_true_iff_false in Hx. apply Hx, existsb_exists. exists e. split; [by apply list_elem_of_In|]. by apply str_eqb_eq. }
  split; apply Hf; try done. apply not_true_iff_false. intros (e&He'&Hs)%existsb_exists. by rewrite (find_none _ _ Ef e He') in Hs.
Qed.

Lemma serve_ok w op a w' : records_ok w → lightning_serve w op a w' →
  records_ok w' ∧ (w ⊆+ w') ∧ ∀ r, lightning_grants op a = Some r → w' = w ++ [r].
Proof.
  intros Hw. assert (w ⊆+ w) by done. destruct op as [id|d id| | |i|r|i]; cbn; try (by intros ->).
  - by intros [-> _].
  - assert (w ⊆+ (interlock_decide w r).2) as Hs by (unfold interlock_decide; repeat case_match; cbn; by try apply submseteq_inserts_r).
    destruct (decide_ok w r Hw) as [Hok Hres]. intros [[-> [->| ->]]|[-> ->]]; split; try done.
    split; [done|]. intros r' Hg. destruct (interlock_decide w r).1 eqn:E; try done. injection Hg as <-. by apply Hres.
Qed.

Section Once.
Context `{Secp256k1} (configuration : LightningRailConfiguration).

(** A send of exactly what was governed: the amount in the configured asset, to
    the payee and for the payment hash of the governed destination, under an
    invoice that decodes and says the same, with the configured fee cap. *)
Record governed (request : PaymentExecutionRequest) (i : LightningPaymentInstruction) (d : LightningDestination) (vi : VerifiedInvoice) : Prop := {
  gv_asset : unit_ (pr_amount request) = lc_paymentAsset configuration;
  gv_amount : msatOfBtcDecimal (value (pr_amount request)) = Some (ins_amountMsat i);
  gv_source : accountId (pr_source request) ∈ lc_sourceAccounts configuration;
  gv_destination : parseLightningDestination (pr_destination request) = Some d;
  gv_hash : ins_paymentHash i = ld_paymentHash d;
  gv_decoded : ∃ text, decodeBolt11Invoice text (lc_maximumInvoiceLength configuration) = Ok vi;
  gv_invoice : ins_invoice i = iv_canonical (vi_invoice vi);
  gv_network : iv_network (vi_invoice vi) = lc_network configuration;
  gv_payee : hex (vi_payee vi) = ld_payee d;
  gv_invoice_hash : hex (iv_paymentHash (vi_invoice vi)) = ld_paymentHash d;
  gv_invoice_amount : iv_amountMsat (vi_invoice vi) = Some (ins_amountMsat i);
  gv_fee : ins_feeLimitMsat i = lightningFeeLimitMsat configuration (ins_amountMsat i);
}.
(** A record permits the send of its own payment for its own execution. *)
Definition lightning_permits (request : PaymentExecutionRequest) (r : LightningPaymentReservationInput) (op : LightningOp) : Prop :=
  match op with
  | SendPayment i => rs_executionId r = pr_executionId request ∧ rs_paymentHash r = ins_paymentHash i ∧ rs_amountMsat r = ins_amountMsat i ∧
      rs_feeLimitMsat r = ins_feeLimitMsat i ∧ ∃ d vi, governed request i d vi
  | _ => False
  end.

Lemma prepare_inv request p : prepare configuration request = Ok p → unit_ (pr_amount request) = lc_paymentAsset configuration ∧
  msatOfBtcDecimal (value (pr_amount request)) = Some (pp_amountMsat p) ∧ accountId (pr_source request) ∈ lc_sourceAccounts configuration ∧
  parseLightningDestination (pr_destination request) = Some (pp_destination p).
Proof.
  unfold prepare. destruct (str_eqb _ _) eqn:E1; [|done]. apply str_eqb_eq in E1. destruct (msatOfBtcDecimal _) as [m|] eqn:E2; [|done]. cbn [result_bind].
  case_bool_decide as E3; [|done]. destruct (parseLightningDestination _) as [d|] eqn:E4; [|done]. cbn [result_bind]. by intros [= <-].
Qed.
Lemma invoice_matches_inv vi p : invoice_matches configuration vi p = Ok tt → iv_network (vi_invoice vi) = lc_network configuration ∧
  hex (vi_payee vi) = ld_payee (pp_destination p) ∧ hex (iv_paymentHash (vi_invoice vi)) = ld_paymentHash (pp_destination p) ∧
  iv_amountMsat (vi_invoice vi) = Some (pp_amountMsat p).
Proof.
  unfold invoice_matches. cbn zeta. case_bool_decide as E1; [|done]. destruct (str_eqb (hex (vi_payee vi)) _) eqn:E2; [|done]. destruct (str_eqb (hex (iv_paymentHash _)) _) eqn:E3; [|done].
  destruct (iv_amountMsat _) as [m|]; cbn [result_bind]; [|done]. destruct (Z.eqb_spec m (pp_amountMsat p)) as [->|]; [|done]. intros _.
  apply str_eqb_eq in E2, E3. done.
Qed.

Notation silent := (post lightning_grants lightning_spends).
Lemma checkTime_silent invoice : silent (returns (λ _, True)) (checkTime configuration invoice).
Proof. cbn. split; [done|]. intros a. split; [done|]. by destruct (match a with Ok _ => _ | Throw _ => _ end). Qed.

(** What an invoice that passed the checks satisfies. *)
Definition invoice_ok (p : Prepared) (vi : VerifiedInvoice) : Prop :=
  (∃ text, decodeBolt11Invoice text (lc_maximumInvoiceLength configuration) = Ok vi) ∧ invoice_matches configuration vi p = Ok tt.
Lemma verifiedInvoice_silent request p : silent (returns (invoice_ok p)) (verifiedInvoice configuration request p).
Proof.
  unfold verifiedInvoice. split; [done|]. intros a. split; [done|]. destruct a as [[| | | |s| | | |]|]; try done.
  destruct (decodeBolt11Invoice s _) as [vi|] eqn:Ed; [|done]. apply (post_attempt _ _ (λ _, invoice_matches configuration vi p = Ok tt)).
  - cbn. destruct (invoice_matches configuration vi p) as [[]|]; done.
  - intros _ Hm. apply (post_attempt _ _ (λ _, True)); [apply checkTime_silent|]. intros _ _. cbn. split; [by exists s|done].
Qed.
Lemma checkNode_silent vi : silent (returns (λ _, True)) (checkNode configuration vi).
Proof.
  cbn. split; [done|]. intros a. split; [done|]. destruct a as [raw|]; [|done]. destruct (readLightningNodeInfo raw) as [info|]; [|done].
  case_match; [done|]. case_match; [done|]. cbn. split; [done|]. intros a. split; [done|]. by destruct (match a with Ok _ => _ | Throw _ => _ end).
Qed.

Notation keeps := (disciplined lightning_grants lightning_spends lightning_permits).
(** A send after the checks is the governed one. *)
Lemma governed_send request p vi payer : prepare configuration request = Ok p → invoice_ok p vi →
  lightning_permits request (record_of configuration request p vi payer) (SendPayment (instruction_of configuration (record_of configuration request p vi payer) (vi_invoice vi))).
Proof.
  intros (Ha&Hm&Hs&Hd)%prepare_inv [Hdec (Hn&Hp&Hh&Ham)%invoice_matches_inv]. cbn. split_and!; try done. exists (pp_destination p), vi. by split.
Qed.

Lemma execute_disciplined request : keeps request None (execute configuration request).
Proof.
  unfold execute, before_send, attempt_bind, lift. cbn [prog_bind]. destruct (prepare configuration request) as [p|] eqn:Hp; [|done]. cbn [prog_bind].
  intros [[earlier|]|]; cbn [lightning_grants prog_bind]; [done| |done].
  apply (disciplined_bind_bind _ _ _ (returns (invoice_ok p))); [apply verifiedInvoice_silent|]. intros [vi|] Hvi; [|done].
  apply (disciplined_bind_bind _ _ _ (returns (λ _, True))); [apply checkNode_silent|]. intros [payer|] _; [|done].
  unfold reserve_payment, attempt_bind. cbn [prog_bind disciplined lightning_spends]. intros [[| | |]|]; cbn [lightning_grants prog_bind disciplined]; try done. split; [done|].
  apply (disciplined_bind_bind _ _ _ (returns (λ _, True))); [apply checkTime_silent|]. intros [[]|] _; [|done].
  cbn [prog_bind]. unfold sendOnce. cbn [disciplined lightning_spends]. split; [|by intros a].
  exists (record_of configuration request p vi payer). split; [done|]. by apply governed_send.
Qed.

(** Interlock history: the records hold every grant, once, beside what was there at the start. *)
Lemma granted_recorded w0 tr m : records_ok w0 → reach lightning_serve (execute configuration) w0 tr m →
  records_ok (m_world m) ∧ w0 ++ granted lightning_grants tr ⊆+ m_world m.
Proof.
  intros H0. induction 1 as [|tr m req _ IH|tr m i req op k a w _ [Hw Hg] _ Hs|tr m i req p _ IH _]; cbn [m_world]; try done.
  - split; [done|]. by rewrite app_nil_r.
  - destruct (serve_ok _ _ _ _ Hw Hs) as (Hw'&Hsub&Hgr). split; [done|]. rewrite granted_snoc. cbn [ev_op ev_answer].
    destruct (lightning_grants op a) as [r|] eqn:E; cbn [option_list]; [rewrite (Hgr r eq_refl), app_assoc; by apply submseteq_skips_r|]. rewrite app_nil_r. by etrans.
Qed.

Lemma NoDup_fmap_submseteq {A B} (f : A → B) (l k : list A) : l ⊆+ k → NoDup (f <$> k) → NoDup (f <$> l).
Proof. intros (z&->)%submseteq_Permutation Hn. rewrite fmap_app in Hn. by apply NoDup_app in Hn as [? _]. Qed.

(** The sends of a run, each with the request of its call. *)
Definition sends (tr : list (Event (Req := PaymentExecutionRequest) (Op := LightningOp))) : list (PaymentExecutionRequest * LightningPaymentInstruction) :=
  omap (λ e, match ev_op e with SendPayment i => Some (ev_req e, i) | _ => None end) tr.
Lemma spent_sends tr : spent lightning_spends tr = (λ x, (x.1, SendPayment x.2)) <$> sends tr.
Proof. induction tr as [|[req op a] tr IH]; [done|]. unfold spent, sends in *. cbn. destruct op; cbn; by rewrite IH. Qed.

(** A key of the records, seen from the sends. *)
Lemma sends_key (key : LightningPaymentReservationInput → string) (key' : PaymentExecutionRequest * LightningPaymentInstruction → string) w0 tr m :
  records_ok w0 → NoDup (key <$> m_world m) → reach lightning_serve (execute configuration) w0 tr m →
  (∀ req r i, lightning_permits req r (SendPayment i) → key' (req, i) = key r) →
  NoDup (key' <$> sends tr) ∧ Forall (λ x, key' x ∉ key <$> w0) (sends tr).
Proof.
  intros H0 Hn Hr Hk. destruct (granted_recorded _ _ _ H0 Hr) as [_ Hsub]. apply (NoDup_fmap_submseteq key) in Hsub; [|done].
  rewrite fmap_app in Hsub. apply NoDup_app in Hsub as (_&Hdis&Hng).
  destruct (spent_once lightning_serve (execute configuration) lightning_grants lightning_spends lightning_permits key
    (λ x, match x.2 with SendPayment i => key' (x.1, i) | _ => "" end) w0 tr m execute_disciplined Hr) as [Hnd HF]; [|done|].
  { intros req r [] Hp; try done. by apply Hk. }
  rewrite spent_sends in Hnd, HF. rewrite <-list_fmap_compose in Hnd. split.
  - erewrite list_fmap_ext; [exact Hnd|]. by intros i [req ins] _.
  - rewrite Forall_fmap in HF. eapply Forall_impl; [exact HF|]. intros [req ins] (r&Hin&Hp) Hx. cbn in Hp. rewrite (Hk req r ins Hp) in Hx.
    apply (Hdis _ Hx). by apply list_elem_of_fmap_2.
Qed.

(** C8. However calls interleave, crash and restart, and whatever the node, the
    invoice source, the clock and a failing interlock answer, an execution is sent
    at most once and a payment hash is paid at most once, and neither if it was
    already recorded before; each send is of exactly the governed payment, and its
    record, with the same hash, amount and fee cap, was durable before it. *)
Theorem lightning_pays_once w0 tr m : records_ok w0 → reach lightning_serve (execute configuration) w0 tr m →
  NoDup ((λ x, pr_executionId x.1) <$> sends tr) ∧ NoDup ((λ x, ins_paymentHash x.2) <$> sends tr) ∧
  Forall (λ x, pr_executionId x.1 ∉ rs_executionId <$> w0 ∧ ins_paymentHash x.2 ∉ rs_paymentHash <$> w0 ∧ (∃ d vi, governed x.1 x.2 d vi) ∧
    ∃ r, r ∈ m_world m ∧ rs_executionId r = pr_executionId x.1 ∧ rs_paymentHash r = ins_paymentHash x.2 ∧ rs_amountMsat r = ins_amountMsat x.2 ∧ rs_feeLimitMsat r = ins_feeLimitMsat x.2) (sends tr).
Proof.
  intros H0 Hr. destruct (granted_recorded _ _ _ H0 Hr) as [[Hne Hnp] Hsub].
  destruct (sends_key rs_executionId (λ x, pr_executionId x.1) w0 tr m H0 Hne Hr) as [N1 F1]; [by intros req r i (?&_)|].
  destruct (sends_key rs_paymentHash (λ x, ins_paymentHash x.2) w0 tr m H0 Hnp Hr) as [N2 F2]; [by intros req r i (_&?&_)|].
  split; [done|]. split; [done|].
  destruct (spent_once lightning_serve (execute configuration) lightning_grants lightning_spends lightning_permits rs_executionId
    (λ x, pr_executionId x.1) w0 tr m execute_disciplined Hr) as [_ HF].
  { intros req r [] Hp; try done. by destruct Hp. }
  { apply (NoDup_fmap_submseteq _ _ (m_world m)); [|done]. etrans; [|exact Hsub]. apply submseteq_inserts_l. done. }
  rewrite spent_sends, Forall_fmap in HF. apply Forall_and; split; [done|]. apply Forall_and; split; [done|].
  eapply Forall_impl; [exact HF|]. intros [req i] (r&Hin&He&Hp&Ha&Hf&Hg). split; [done|]. exists r. split_and!; try done.
  eapply elem_of_submseteq; [|exact Hsub]. apply elem_of_app. by right.
Qed.

(** *** What an outcome proves *)

(** Nothing before the send is a send, and whatever is answered there is no claim that nothing was paid. *)
Definition leaves (outcome : result Refusal Ready) : Prop :=
  match outcome with Ok (Answered r) => ∃ ref detail, r = RailUnconfirmed ref detail | _ => True end.
Notation quiet := (post (λ _ _, None : option LightningPaymentReservationInput) lightning_spends).
Lemma silent_quiet {A} (P : A → Prop) (m : Prog A) : post lightning_grants lightning_spends P m → quiet P m.
Proof. induction m as [a|op k IH]; [done|]. intros [Hs Hk]. split; [done|]. intros a. split; [done|]. apply IH, Hk. Qed.
Lemma before_send_quiet request : quiet leaves (before_send configuration request).
Proof.
  assert (∀ earlier p, leaves (Ok (Answered (previously earlier p)))) as Hp by (intros; eexists _, _; reflexivity).
  unfold before_send, attempt_bind, lift. cbn [prog_bind]. destruct (prepare configuration request) as [p|]; [|done]. split; [done|]. intros a. split; [done|].
  destruct a as [[earlier|]|]; [apply Hp| |done]. apply (post_bind _ _ (λ _, True)); [eapply silent_quiet, (post_impl _ _ _ _ _ (verifiedInvoice_silent request p)); done|].
  intros [vi|] _; [|done]. apply (post_bind _ _ (λ _, True)); [eapply silent_quiet, (post_impl _ _ _ _ _ (checkNode_silent vi)); done|].
  intros [payer|] _; [|done]. unfold reserve_payment. split; [done|]. intros a. split; [done|]. destruct a as [[]|]; try done; [|apply Hp].
  apply (post_bind _ _ (λ _, True)); [eapply silent_quiet, (post_impl _ _ _ _ _ (checkTime_silent (vi_invoice vi))); done|]. by intros [[]|] _.
Qed.

(** The answer proves the payment settled: the preimage of the hash, the amount, a fee within the cap. *)
Definition proves_settled (i : LightningPaymentInstruction) (a : SendAnswer) : Prop := ∃ raw preimage feeMsat, a = SendAnswered raw ∧
  readLightningPaymentObservation raw = Some (Succeeded (ins_paymentHash i) preimage (ins_amountMsat i) feeMsat) ∧
  hex (sha256 (from_hex (chars preimage))) = ins_paymentHash i ∧ feeMsat ≤ ins_feeLimitMsat i.
(** The answer proves nothing was paid: the request never left, or the node's terminal failure for the hash. *)
Definition proves_unpaid (i : LightningPaymentInstruction) (a : SendAnswer) : Prop := a = SendNotAttempted ∨ ∃ raw failure, a = SendAnswered raw ∧
  readLightningPaymentObservation raw = Some (PaymentFailed (ins_paymentHash i) failure).

Lemma preimage_matches_inv preimage h : preimageMatchesPaymentHash preimage h = true → hex (sha256 (from_hex (chars preimage))) = h.
Proof. unfold preimageMatchesPaymentHash. case_match; [done|]. case_match; [done|]. apply str_eqb_eq. Qed.
Lemma send_result_sound record invoice a (i := instruction_of configuration record invoice) :
  (∀ ref, send_result record a = RailCompleted ref → ref = Some (ins_paymentHash i) ∧ proves_settled i a) ∧
  (∀ reason ref detail, send_result record a = RailNotCompleted reason ref detail → ref = Some (ins_paymentHash i) ∧ proves_unpaid i a).
Proof.
  unfold send_result. destruct a as [raw| |]; [|split; [done|]; intros ??? [= _ <- _]; split; [done|by left]|done].
  destruct (readLightningPaymentObservation raw) as [obs|] eqn:Eo; [|done]. unfold concludeLightningPayment.
  destruct obs as [h preimage am fee|h failure|h|]; [| |by repeat case_match|done].
  - destruct (str_eqb h _) eqn:E1; [|done]. destruct (preimageMatchesPaymentHash _ _) eqn:E2; [|done]. destruct (Z.eqb_spec am (rs_amountMsat record)) as [->|]; [|done].
    destruct (Z.ltb_spec (rs_feeLimitMsat record) fee); [done|]. cbn [negb]. split; [|done]. intros ? [= <-]. split; [done|]. apply str_eqb_eq in E1 as ->.
    exists raw, preimage, fee. split_and!; try done. by apply preimage_matches_inv.
  - destruct (str_eqb h _) eqn:E1; [|done]. cbn [negb]. split; [done|]. intros ??? [= _ <- _]. split; [done|]. right. apply str_eqb_eq in E1 as ->. by exists raw, failure.
Qed.

Definition sent_in (tr : list (Exchange (Op := LightningOp))) : list LightningPaymentInstruction := omap (λ x, match projT1 x with SendPayment i => Some i | _ => None end) tr.
Lemma quiet_sent tr : Forall (λ x, lightning_spends (projT1 x) = false) tr → sent_in tr = [].
Proof. induction 1 as [|[op a] tr Hs _ IH]; [done|]. unfold sent_in in *. cbn. by destruct op. Qed.

Lemma execute_finishes request : finishes 8 (execute configuration request).
Proof.
  assert (∀ invoice, finishes 1 (checkTime configuration invoice)) as Ht by (by intros invoice a).
  assert (∀ p, finishes 2 (verifiedInvoice configuration request p)) as Hi.
  { intros p a. destruct a as [[| | | |s| | | |]|]; try done. destruct (decodeBolt11Invoice s _) as [vi|]; [|done]. unfold attempt_bind, lift. cbn [prog_bind].
    destruct (invoice_matches configuration vi p); [|done]. apply (finishes_bind _ _ 1 0); [apply Ht|]. by intros []. }
  assert (∀ vi, finishes 2 (checkNode configuration vi)) as Hn.
  { intros vi a. destruct a as [raw|]; [|done]. destruct (readLightningNodeInfo raw); [|done]. do 2 (case_match; [done|]). by intros a. }
  assert (∀ p vi payer, finishes 2 (reserve_payment configuration request p vi payer)) as Hr.
  { intros p vi payer a. destruct a as [[]|]; try done. apply (finishes_bind _ _ 1 0); [apply Ht|]. by intros []. }
  apply (finishes_bind _ _ 7 1); [|intros [[]|]; by intros || done].
  unfold before_send, attempt_bind, lift. cbn [prog_bind]. destruct (prepare configuration request) as [p|]; [|done]. intros a. destruct a as [[]|]; [done| |done].
  apply (finishes_bind _ _ 2 4); [apply Hi|]. intros [vi|]; [|done]. apply (finishes_bind _ _ 2 2); [apply Hn|]. intros [payer|]; [|done]. apply Hr.
Qed.

(** C9. What the rail reports is what was proved. It sends at most once. It reports
    completion only when the node answered that send with the preimage of the
    payment hash, the exact amount and a fee within the cap; it reports that nothing
    completed only when it sent nothing, or the send provably never left or failed
    terminally at the node; and every call returns within eight answers. *)
Theorem lightning_outcome_sound request : finishes 8 (execute configuration request) ∧ ∀ tr r, yields (execute configuration request) tr r →
  (length (sent_in tr) ≤ 1)%nat ∧
  (∀ ref, r = RailCompleted ref → ∃ i a, existT (SendPayment i) a ∈ tr ∧ ref = Some (ins_paymentHash i) ∧ proves_settled i a) ∧
  (∀ reason ref detail, r = RailNotCompleted reason ref detail → sent_in tr = [] ∨ ∃ i a, existT (SendPayment i) a ∈ tr ∧ ref = Some (ins_paymentHash i) ∧ proves_unpaid i a).
Proof.
  split; [apply execute_finishes|]. intros tr r (tr1&tr2&outcome&->&Hb&Hy)%yields_bind.
  destruct (post_yields _ _ _ _ _ _ (before_send_quiet request) Hb) as [Hl Hq%quiet_sent]. unfold sent_in in *. rewrite omap_app, Hq.
  destruct outcome as [[r'|record invoice]|e]; [| |destruct Hy as [-> ->]; split_and!; [cbn; lia|done|by left]].
  - destruct Hy as [-> ->]. destruct Hl as (ref&detail&->). split_and!; [cbn; lia|done|done].
  - destruct Hy as (a&tr'&->&->&->). destruct (send_result_sound record invoice a) as [H1 H2]. split_and!; [cbn; lia| |].
    + intros ref Hr. destruct (H1 ref Hr). exists (instruction_of configuration record invoice), a. split; [|done]. apply elem_of_app. right. by apply list_elem_of_singleton.
    + intros reason ref detail Hr. destruct (H2 _ _ _ Hr). right. exists (instruction_of configuration record invoice), a. split; [|done]. apply elem_of_app. right. by apply list_elem_of_singleton.
Qed.

(** *** When the rail sends *)

(** The invoice is issued, and not about to expire. *)
Definition timely (invoice : Bolt11Invoice) (ms : Z) : Prop :=
  iv_timestamp invoice ≤ ms / 1000 + lc_maximumClockSkewSeconds configuration ∧ ms / 1000 < bolt11ExpiresAt invoice - lc_minimumExpiryMarginSeconds configuration.
(** What a payment must meet to be sent: the governed request is one of the
    rail's; the invoice its source gave decodes, and says the governed payee,
    hash and amount on the configured network, at both readings of the clock; the
    node is on that network, is not the payee, and reads the invoice the same. *)
Record payable (request : PaymentExecutionRequest) (prepared : Prepared) (text : string) (vi : VerifiedInvoice) (payer : LightningNodeInfo) (t1 t2 : Z) (node view : NodeAnswer) : Prop := {
  py_asset : unit_ (pr_amount request) = lc_paymentAsset configuration;
  py_amount : msatOfBtcDecimal (value (pr_amount request)) = Some (pp_amountMsat prepared);
  py_source : accountId (pr_source request) ∈ lc_sourceAccounts configuration;
  py_destination : parseLightningDestination (pr_destination request) = Some (pp_destination prepared);
  py_decoded : decodeBolt11Invoice text (lc_maximumInvoiceLength configuration) = Ok vi;
  py_network : iv_network (vi_invoice vi) = lc_network configuration;
  py_payee : hex (vi_payee vi) = ld_payee (pp_destination prepared);
  py_hash : hex (iv_paymentHash (vi_invoice vi)) = ld_paymentHash (pp_destination prepared);
  py_invoice_amount : iv_amountMsat (vi_invoice vi) = Some (pp_amountMsat prepared);
  py_cltv : iv_minFinalCltvExpiryDelta (vi_invoice vi) ≤ lc_maximumFinalCltvExpiryDelta configuration;
  py_time : timely (vi_invoice vi) t1 ∧ timely (vi_invoice vi) t2;
  py_node : readLightningNodeInfo node = Some payer;
  py_node_network : ni_network payer = lc_network configuration;
  py_not_self : ni_identity payer ≠ ld_payee (pp_destination prepared);
  py_node_view : readLightningNodeInvoiceView view =
    Some {| nv_payee := ld_payee (pp_destination prepared); nv_paymentHash := ld_paymentHash (pp_destination prepared); nv_amountMsat := Some (pp_amountMsat prepared) |};
}.
(** The calls of a run that sends, in their order. *)
Definition sending_run (request : PaymentExecutionRequest) (prepared : Prepared) (text : string) (vi : VerifiedInvoice) (payer : LightningNodeInfo) (t1 t2 : Z) (node view : NodeAnswer)
    (answer : SendAnswer) : list Exchange :=
  let record := record_of configuration request prepared vi payer in
  [existT (Recorded (pr_executionId request)) (Ok None);
   existT (InvoiceFor (pp_destination prepared) (pr_executionId request)) (Ok (JsString text));
   existT Now (Ok t1); existT NodeInfo (Ok node); existT (DecodeInvoice (iv_canonical (vi_invoice vi))) (Ok view);
   existT (Reserve record) (Ok reserved); existT Now (Ok t2);
   existT (SendPayment (instruction_of configuration record (vi_invoice vi))) answer].

Lemma yields_attempt {E A B} (m : Prog (result E A)) (f : A → Prog (result E B)) tr b :
  yields (attempt_bind m f) tr (Ok b) ↔ ∃ tr1 tr2 a, tr = tr1 ++ tr2 ∧ yields m tr1 (Ok a) ∧ yields (f a) tr2 (Ok b).
Proof.
  unfold attempt_bind. rewrite yields_bind. split.
  - intros (tr1&tr2&[a|e]&->&Hm&Hf); [by exists tr1, tr2, a|]. by destruct Hf.
  - intros (tr1&tr2&a&->&Hm&Hf). by exists tr1, tr2, (Ok a).
Qed.
Lemma checkTime_clears invoice tr : yields (checkTime configuration invoice) tr (Ok tt) ↔ ∃ ms, tr = [existT Now (Ok ms)] ∧ timely invoice ms.
Proof.
  cbn. unfold timely. split.
  - intros (a&tr'&->&->&E). destruct a as [ms|]; [|done]. exists ms. split; [done|]. destruct (Z.ltb_spec (ms / 1000 + lc_maximumClockSkewSeconds configuration) (iv_timestamp invoice)); [done|].
    cbn [negb] in E. destruct (Z.leb_spec (bolt11ExpiresAt invoice - lc_minimumExpiryMarginSeconds configuration) (ms / 1000)); [done|]. lia.
  - intros (ms&->&H1&H2). exists (Ok ms), []. split; [done|]. split; [done|]. rewrite (proj2 (Z.ltb_ge _ _)) by done. cbn [negb]. by rewrite (proj2 (Z.leb_gt _ _)).
Qed.
Lemma invoice_matches_iff vi p : invoice_matches configuration vi p = Ok tt ↔ iv_network (vi_invoice vi) = lc_network configuration ∧
  hex (vi_payee vi) = ld_payee (pp_destination p) ∧ hex (iv_paymentHash (vi_invoice vi)) = ld_paymentHash (pp_destination p) ∧
  iv_amountMsat (vi_invoice vi) = Some (pp_amountMsat p) ∧ iv_minFinalCltvExpiryDelta (vi_invoice vi) ≤ lc_maximumFinalCltvExpiryDelta configuration.
Proof.
  split.
  - intros Hm. destruct (invoice_matches_inv _ _ Hm) as (H1&H2&H3&H4). split_and!; [done..|]. unfold invoice_matches in Hm. cbn zeta in Hm.
    rewrite bool_decide_eq_true_2, H2, H3, H4, !str_eqb_refl in Hm by done. cbn [result_bind] in Hm. rewrite Z.eqb_refl in Hm. destruct (Z.ltb_spec (lc_maximumFinalCltvExpiryDelta configuration) (iv_minFinalCltvExpiryDelta (vi_invoice vi))); [done|lia].
  - intros (H1&H2&H3&H4&H5). unfold invoice_matches. cbn zeta. rewrite bool_decide_eq_true_2, H2, H3, H4, !str_eqb_refl by done. cbn [result_bind]. rewrite Z.eqb_refl.
    by rewrite (proj2 (Z.ltb_ge _ _)).
Qed.
Lemma prepare_iff request p : prepare configuration request = Ok p ↔ unit_ (pr_amount request) = lc_paymentAsset configuration ∧
  msatOfBtcDecimal (value (pr_amount request)) = Some (pp_amountMsat p) ∧ accountId (pr_source request) ∈ lc_sourceAccounts configuration ∧
  parseLightningDestination (pr_destination request) = Some (pp_destination p).
Proof.
  split; [apply prepare_inv|]. intros (H1&H2&H3&H4). unfold prepare. rewrite H1, H2, H4, str_eqb_refl. cbn [result_bind]. rewrite bool_decide_eq_true_2 by done. by destruct p.
Qed.
Lemma verifiedInvoice_clears request p tr vi : yields (verifiedInvoice configuration request p) tr (Ok vi) ↔ ∃ text ms,
  tr = [existT (InvoiceFor (pp_destination p) (pr_executionId request)) (Ok (JsString text)); existT Now (Ok ms)] ∧
  decodeBolt11Invoice text (lc_maximumInvoiceLength configuration) = Ok vi ∧ invoice_matches configuration vi p = Ok tt ∧ timely (vi_invoice vi) ms.
Proof.
  unfold verifiedInvoice. cbn [yields]. split.
  - intros (a&tr'&->&Hy). destruct a as [[| | | |text| | | |]|]; try (by destruct Hy). destruct (decodeBolt11Invoice text _) as [vi'|] eqn:Ed; [|by destruct Hy].
    apply yields_attempt in Hy as (tr1&tr2&[]&->&[-> Hm]&Hy). apply yields_attempt in Hy as (tr3&tr4&[]&->&(ms&->&Ht)%checkTime_clears&[-> [= ->]]). by exists text, ms.
  - intros (text&ms&->&Ed&Hm&Ht). exists (Ok (JsString text)), [existT Now (Ok ms)]. split; [done|]. rewrite Ed. apply yields_attempt.
    exists [], [existT Now (Ok ms)], tt. split; [done|]. split; [by rewrite Hm|]. apply yields_attempt. exists [existT Now (Ok ms)], [], tt. split_and!; [done| |done]. apply checkTime_clears. by exists ms.
Qed.
Lemma checkNode_clears vi tr info : yields (checkNode configuration vi) tr (Ok info) ↔ ∃ node view,
  tr = [existT NodeInfo (Ok node); existT (DecodeInvoice (iv_canonical (vi_invoice vi))) (Ok view)] ∧ readLightningNodeInfo node = Some info ∧
  ni_network info = lc_network configuration ∧ ni_identity info ≠ hex (vi_payee vi) ∧
  readLightningNodeInvoiceView view = Some {| nv_payee := hex (vi_payee vi); nv_paymentHash := hex (iv_paymentHash (vi_invoice vi)); nv_amountMsat := iv_amountMsat (vi_invoice vi) |}.
Proof.
  unfold checkNode. cbn [yields]. split.
  - intros (a&tr'&->&Hy). destruct a as [node|]; [|by destruct Hy]. destruct (readLightningNodeInfo node) as [info'|] eqn:En; [|by destruct Hy].
    case_bool_decide as Hn; cbn [negb] in Hy; [|by destruct Hy]. destruct (str_eqb (ni_identity info') (hex (vi_payee vi))) eqn:Ei; [by destruct Hy|]. apply str_eqb_neq in Ei.
    destruct Hy as (a&tr''&->&->&Hv). destruct a as [view|]; [|done]. destruct (readLightningNodeInvoiceView view) as [[p h m]|] eqn:Ev; [|done]. cbn [nv_payee nv_paymentHash nv_amountMsat] in Hv.
    destruct (str_eqb p _) eqn:E1; [|done]. destruct (str_eqb h _) eqn:E2; [|done]. case_bool_decide as E3; [|done]. apply str_eqb_eq in E1 as ->, E2 as ->. subst m.
    injection Hv as ->. by exists node, view.
  - intros (node&view&->&En&Hn&Hi&Ev). exists (Ok node), [existT (DecodeInvoice (iv_canonical (vi_invoice vi))) (Ok view)]. split; [done|]. rewrite En, bool_decide_eq_true_2 by done. cbn [negb].
    rewrite (proj2 (str_eqb_neq _ _)) by done. exists (Ok view), []. split; [done|]. split; [done|]. rewrite Ev. cbn [nv_payee nv_paymentHash nv_amountMsat]. rewrite !str_eqb_refl. by rewrite bool_decide_eq_true_2.
Qed.
Lemma reserve_clears request p vi payer tr record invoice : yields (reserve_payment configuration request p vi payer) tr (Ok (ToSend record invoice)) ↔
  record = record_of configuration request p vi payer ∧ invoice = vi_invoice vi ∧ ∃ ms, tr = [existT (Reserve record) (Ok reserved); existT Now (Ok ms)] ∧ timely (vi_invoice vi) ms.
Proof.
  unfold reserve_payment. cbn [yields]. split.
  - intros (a&tr'&->&Hy). destruct a as [[| | |]|]; try (by destruct Hy as [_ [=]]). apply yields_attempt in Hy as (tr1&tr2&[]&->&(ms&->&Ht)%checkTime_clears&[-> [= -> ->]]).
    split_and!; [done..|]. by exists ms.
  - intros (->&->&ms&->&Ht). exists (Ok reserved), [existT Now (Ok ms)]. split; [done|]. apply yields_attempt. exists [existT Now (Ok ms)], [], tt. split_and!; [done| |done]. apply checkTime_clears. by exists ms.
Qed.
Lemma before_send_clears request tr record invoice : yields (before_send configuration request) tr (Ok (ToSend record invoice)) ↔
  ∃ p text vi payer t1 t2 node view, payable request p text vi payer t1 t2 node view ∧ record = record_of configuration request p vi payer ∧ invoice = vi_invoice vi ∧
    ∀ answer, tr ++ [existT (SendPayment (instruction_of configuration record invoice)) answer] = sending_run request p text vi payer t1 t2 node view answer.
Proof.
  unfold before_send. rewrite yields_attempt. split.
  - intros (tr0&tr1&p&->&[-> Hp]&Hy). symmetry in Hp. apply prepare_iff in Hp as (H1&H2&H3&H4). cbn [yields] in Hy. destruct Hy as (a&tr2&->&Hy). destruct a as [[earlier|]|]; [by destruct Hy as [_ [=]]| |by destruct Hy].
    apply yields_attempt in Hy as (tr3&tr4&vi&->&(text&t1&->&Hd&(M1&M2&M3&M4&M5)%invoice_matches_iff&Ht1)%verifiedInvoice_clears&Hy).
    apply yields_attempt in Hy as (tr5&tr6&payer&->&(node&view&->&N1&N2&N3&N4)%checkNode_clears&(->&->&t2&->&Ht2)%reserve_clears).
    exists p, text, vi, payer, t1, t2, node, view. split; [|done]. rewrite M2, M3, M4 in N4. rewrite M2 in N3. by split.
  - intros (p&text&vi&payer&t1&t2&node&view&[H1 H2 H3 H4 Hd M1 M2 M3 M4 M5 [Ht1 Ht2] N1 N2 N3 N4]&->&->&Htr).
    specialize (Htr SendFailed). apply (app_inj_2 _ (take 7 (sending_run request p text vi payer t1 t2 node view SendFailed))) in Htr as [-> _]; [|done].
    exists [], (take 7 (sending_run request p text vi payer t1 t2 node view SendFailed)), p. split; [done|]. split; [split; [done|]; symmetry; by apply prepare_iff|]. cbn [yields].
    eexists (Ok None), _. split; [reflexivity|]. apply yields_attempt. eexists [_; _], _, vi. split; [reflexivity|]. split.
    { apply verifiedInvoice_clears. exists text, t1. split_and!; try done. by apply invoice_matches_iff. }
    apply yields_attempt. eexists [_; _], _, payer. split; [reflexivity|]. split.
    { apply checkNode_clears. exists node, view. rewrite M2, M3, M4. by split_and!. }
    apply reserve_clears. split_and!; [done..|]. by exists t2.
Qed.

(** C10. When the rail sends, exactly. A run of an execution that sends a payment
    asks, in this order, the interlock, the invoice source, the clock, the node
    for itself and for its reading of the invoice, the interlock for the
    reservation, and the clock again, then sends, and reports what the answer to
    the send proves; every answer has cleared its check ([payable]). Conversely
    every execution whose answers clear the checks is sent, and every execution
    ends, whatever it is answered, within eight answers. *)
Theorem lightning_sends_exactly request :
  finishes 8 (execute configuration request) ∧
  ∀ tr r, yields (execute configuration request) tr r ∧ sent_in tr ≠ [] ↔
    ∃ p text vi payer t1 t2 node view answer, payable request p text vi payer t1 t2 node view ∧
      tr = sending_run request p text vi payer t1 t2 node view answer ∧ r = send_result (record_of configuration request p vi payer) answer.
Proof.
  split; [apply execute_finishes|]. intros tr r. unfold execute. rewrite yields_bind. split.
  - intros [(tr1&tr2&outcome&->&Hb&Hy) Hs]. destruct (post_yields _ _ _ _ _ _ (before_send_quiet request) Hb) as [_ Hq%quiet_sent].
    unfold sent_in in Hs, Hq. rewrite omap_app, Hq in Hs. destruct outcome as [[r'|record invoice]|e]; [by destruct Hy as [-> _]| |by destruct Hy as [-> _]].
    apply before_send_clears in Hb as (p&text&vi&payer&t1&t2&node&view&Hp&->&->&Htr). destruct Hy as (answer&tr'&->&->&->).
    exists p, text, vi, payer, t1, t2, node, view, answer. by rewrite Htr.
  - intros (p&text&vi&payer&t1&t2&node&view&answer&Hp&->&->). split; [|done].
    exists (take 7 (sending_run request p text vi payer t1 t2 node view answer)), (drop 7 (sending_run request p text vi payer t1 t2 node view answer)),
      (Ok (ToSend (record_of configuration request p vi payer) (vi_invoice vi))).
    split; [done|]. split; [|by exists answer, []]. apply before_send_clears. by exists p, text, vi, payer, t1, t2, node, view.
Qed.
End Once.

(** ** Destinations and fee caps *)

Lemma key_length s : isLightningNodePublicKey s = true → length (chars s) = 66%nat.
Proof.
  unfold isLightningNodePublicKey. destruct (chars s) as [|a [|b l]]; try done. intros H. destruct (Nat.eqb_spec (length l) 64) as [E|]; [cbn; by rewrite E|].
  by rewrite andb_false_r in H.
Qed.
Lemma destination_roundtrip payee h d : lightningDestinationOf payee h = Some d → parseLightningDestination d = Some {| ld_payee := payee; ld_paymentHash := h |}.
Proof.
  unfold lightningDestinationOf, parseLightningDestination. destruct (isLightningNodePublicKey payee) eqn:Hk; [|done]. destruct (isLightningPaymentHash h) eqn:Hh; [|done].
  cbn [negb orb]. intros [= <-]. cbn [pd_kind pd_reference]. rewrite str_eqb_refl, chars_text. cbn [negb]. pose proof (key_length _ Hk) as Hl.
  rewrite take_app_length', (list_lookup_middle _ _ _ 66) by done. rewrite cons_middle, app_assoc, drop_app_length' by (rewrite length_app; cbn; lia).
  rewrite !text_chars, Hk, Hh. done.
Qed.

Lemma integerIn_range f v limits fallback z : li_minimum limits ≤ fallback ≤ li_maximum limits → integerIn f v limits fallback = Ok z → li_minimum limits ≤ z ≤ li_maximum limits.
Proof.
  intros Hf. unfold integerIn. destruct (if nullish v then _ else _) as [| | |n| | | | |]; try done. case_match eqn:E; [|done]. intros [= <-].
  apply andb_true_iff in E as [[_ ?%Z.leb_le]%andb_true_iff ?%Z.leb_le]. lia.
Qed.
Lemma msat_text_nonneg s m : msatOfDecimalText s = Some m → 0 ≤ m.
Proof.
  unfold msatOfDecimalText. destruct (integer_part_ok (chars s)) eqn:Hi; [|done]. do 2 (case_match; [|done]). intros [= <-].
  by apply digits_value_bound, integer_part_digits.
Qed.
Lemma read_accounts_ok vs seen l : read_accounts vs seen = Ok l → NoDup seen → NoDup l ∧ (length seen + length vs = length l)%nat.
Proof.
  revert seen. induction vs as [|v vs IH]; intros seen; cbn; [intros [= <-]; by rewrite Nat.add_0_r|]. destruct (Payments.reading _ v) as [s|]; [|done].
  case_bool_decide as Hs; [done|]. intros H Hn. apply IH in H as [Hl HL].
  - split; [done|]. rewrite length_app in HL. cbn in HL. lia.
  - apply NoDup_app. split; [done|]. split; [|apply NoDup_singleton]. by intros x Hx ->%list_elem_of_singleton.
Qed.
Lemma fee_limit_bounds c amountMsat : 0 ≤ amountMsat → (∀ m, lc_maximumFeeMsat c = Some m → 0 ≤ m) → (∀ p, lc_maximumFeePpm c = Some p → 0 ≤ p ≤ 1000000) →
  0 ≤ lightningFeeLimitMsat c amountMsat ∧ (∀ m, lc_maximumFeeMsat c = Some m → lightningFeeLimitMsat c amountMsat ≤ m) ∧
  (∀ ppm, lc_maximumFeePpm c = Some ppm → lightningFeeLimitMsat c amountMsat ≤ amountMsat * ppm / 1000000 ≤ amountMsat).
Proof.
  intros Ha Hm Hp. unfold lightningFeeLimitMsat. destruct (lc_maximumFeePpm c) as [ppm|]; cbn [fmap option_fmap option_map default].
  - specialize (Hp ppm eq_refl). rewrite Z.quot_div_nonneg by nia. assert (0 ≤ amountMsat * ppm / 1000000 ≤ amountMsat).
    { split; [apply Z.div_pos; nia|]. apply Z.div_le_upper_bound; nia. }
    destruct (lc_maximumFeeMsat c) as [m|]; [specialize (Hm m eq_refl); destruct (Z.ltb_spec m (amountMsat * ppm / 1000000))|]; naive_solver lia.
  - destruct (lc_maximumFeeMsat c) as [m|]; naive_solver lia.
Qed.

(** A configuration that was accepted is within its limits and always caps the
    routing fee: for every amount the cap is non-negative, within each bound stated
    and, when a proportion is stated, within the amount; mainnet is configured only
    where it was allowed. *)
Theorem lightning_configuration_bounds input c amountMsat : createLightningRailConfiguration input = Ok c → 0 ≤ amountMsat →
  0 ≤ lightningFeeLimitMsat c amountMsat ∧ (∀ m, lc_maximumFeeMsat c = Some m → lightningFeeLimitMsat c amountMsat ≤ m ≤ LIGHTNING_MAXIMUM_MSAT) ∧
  (∀ ppm, lc_maximumFeePpm c = Some ppm → lightningFeeLimitMsat c amountMsat ≤ amountMsat * ppm / 1000000 ≤ amountMsat) ∧
  (is_Some (lc_maximumFeeMsat c) ∨ is_Some (lc_maximumFeePpm c)) ∧
  (lc_network c = mainnet → in_allowMainnet input = JsBool true) ∧ NoDup (lc_sourceAccounts c) ∧ lc_sourceAccounts c ≠ [] ∧
  0 ≤ lc_assetScale c ≤ 11 ∧ 128 ≤ lc_maximumInvoiceLength c ≤ BOLT11_ABSOLUTE_MAXIMUM_LENGTH ∧ 18 ≤ lc_maximumFinalCltvExpiryDelta c ≤ 2016.
Proof.
  intros H Ha. unfold createLightningRailConfiguration in H. apply result_bind_Ok in H as (railId&_&H). apply result_bind_Ok in H as (network&_&H).
  apply result_bind_Ok in H as (allow&Hal&H). destruct (negb (match network with mainnet => negb allow | _ => false end)) eqn:Hnet; [|done].
  apply result_bind_Ok in H as (asset&_&H). apply result_bind_Ok in H as (pa&_&H). apply result_bind_Ok in H as (scale&Hsc&H).
  apply result_bind_Ok in H as (accounts&Hac&H). apply result_bind_Ok in H as (fees&_&H). apply result_bind_Ok in H as (feeMsat&Hfm&H).
  apply result_bind_Ok in H as (feePpm&Hfp&H). destruct (is_some feeMsat || is_some feePpm) eqn:Hsome; [|done].
  do 5 apply result_bind_Ok in H as (?&_&H). apply result_bind_Ok in H as (cltv&Hcl&H). apply result_bind_Ok in H as (len&Hlen&H). injection H as <-. cbn [lc_maximumFeeMsat lc_maximumFeePpm lc_network lc_sourceAccounts lc_assetScale lc_maximumInvoiceLength lc_maximumFinalCltvExpiryDelta].
  assert (∀ m, feeMsat = Some m → 0 ≤ m ≤ LIGHTNING_MAXIMUM_MSAT) as Hm.
  { intros m ->. destruct (undefined (field fees "maximumFeeMsat")); [done|]. destruct (match field fees "maximumFeeMsat" with JsString s => _ | _ => _ end) as [v|] eqn:E; [|done].
    destruct (Z.ltb_spec LIGHTNING_MAXIMUM_MSAT v); [done|]. injection Hfm as ->. split; [|lia]. destruct (field fees _); try done. by eapply msat_text_nonneg. }
  assert (∀ p, feePpm = Some p → 0 ≤ p ≤ 1000000) as Hp.
  { intros p ->. destruct (undefined (field fees "maximumFeePpm")); [done|]. apply result_bind_Ok in Hfp as (v&Hv&[= ->]). by apply integerIn_range in Hv; [|cbn; lia]. }
  set (c := {| lc_railId := _ |}). destruct (fee_limit_bounds c amountMsat Ha) as (H1&H2&H3); [intros m E; by apply Hm|done|].
  split; [done|]. split; [intros m E; split; [by apply H2|by apply Hm]|]. split; [done|]. split.
  { apply orb_true_iff in Hsome as [?|?]; [left|right]; by apply is_some_true. }
  split; [intros ->; destruct allow; [|done]; destruct (in_allowMainnet input) as [| |[]| | | | | |]; naive_solver|].
  destruct (in_sourceAccounts input) as [| | | | |[|v vs]| | |]; try done. destruct (read_accounts_ok _ _ _ Hac) as [Hn Hl]; [constructor|]. split; [done|].
  split; [intros ->; cbn in Hl; lia|]. split; [|split; [by apply integerIn_range in Hlen; [|cbn; unfold BOLT11_ABSOLUTE_MAXIMUM_LENGTH; lia]|by apply integerIn_range in Hcl; [|cbn; lia]]].
  destruct (field asset "scale") as [| | |n| | | | |]; try done. destruct (isSafeInteger n && _ && _) eqn:E in Hsc; [|done]. injection Hsc as <-. apply andb_true_iff in E as [[_ ?%Z.leb_le]%andb_true_iff ?%Z.leb_le]. lia.
Qed.

(** ** A payment *)

Module LightningDemo.
#[local] Existing Instance Bolt11.Example.accepting.

Definition configuration : LightningRailConfiguration := {|
  lc_railId := LIGHTNING_RAIL_ID; lc_network := mainnet; lc_paymentAsset := "BTC"; lc_assetScale := 11; lc_sourceAccounts := ["treasury:main"];
  lc_maximumFeeMsat := Some 5000; lc_maximumFeePpm := None; lc_paymentTimeoutSeconds := 60; lc_requestTimeoutMs := 10000; lc_finalityGraceMs := 15000;
  lc_minimumExpiryMarginSeconds := 0; lc_maximumClockSkewSeconds := 600; lc_maximumFinalCltvExpiryDelta := 1008; lc_maximumInvoiceLength := 2048 |}.
Definition input : LightningRailConfigurationInput := {|
  in_railId := JsUndefined; in_network := JsString "mainnet"; in_allowMainnet := JsBool true;
  in_asset := JsObject true [("paymentAsset", JsString "BTC"); ("scale", JsNum (JInt 11))]; in_sourceAccounts := JsArray [JsString "treasury:main"];
  in_fees := JsObject true [("maximumFeeMsat", JsString "5000")]; in_paymentTimeoutSeconds := JsUndefined; in_requestTimeoutMs := JsUndefined; in_finalityGraceMs := JsUndefined;
  in_minimumExpiryMarginSeconds := JsNum (JInt 0); in_maximumClockSkewSeconds := JsUndefined; in_maximumFinalCltvExpiryDelta := JsUndefined; in_maximumInvoiceLength := JsUndefined |}.
Lemma configured : createLightningRailConfiguration input = Ok configuration.
Proof. vm_compute. reflexivity. Qed.
Lemma lightning_configuration_bounds_witness : 0 ≤ lightningFeeLimitMsat configuration 250000000.
Proof. exact (proj1 (lightning_configuration_bounds input configuration 250000000 configured ltac:(lia))). Defined.

Definition payee : string := hex (vi_payee Bolt11.Example.coffee_invoice).
Definition hash : string := hex (iv_paymentHash (vi_invoice Bolt11.Example.coffee_invoice)).
Definition request : PaymentExecutionRequest := {|
  pr_executionId := "exec-1"; pr_requestId := "req-1"; pr_decisionId := "dec-1"; pr_grantId := "grant-1"; pr_notAfter := "2026-01-01T00:00:00.000Z";
  pr_source := {| accountId := "treasury:main" |}; pr_destination := {| pd_kind := LIGHTNING_DESTINATION_KIND; pd_reference := payee +:+ ":" +:+ hash |};
  pr_amount := {| value := "0.0025"; unit_ := "BTC" |}; pr_purpose := "purchase"; pr_reference := None; pr_rail := None |}.
Definition payer : string := text (chars "02" ++ replicate 64 "a"%char).
(** The node agrees, the reservation is fresh, and the send ends without an answer. *)
Definition oracle (_ : nat) (op : LightningOp) : answer op :=
  match op with
  | Recorded _ => Ok None
  | InvoiceFor _ _ => Ok (JsString Bolt11.Example.coffee)
  | Now => Ok 1496314660000
  | NodeInfo => Ok (NRecord [("network", NJs (JsString "mainnet")); ("identity", NJs (JsString payer))])
  | DecodeInvoice _ => Ok (NRecord [("payee", NJs (JsString payee)); ("paymentHash", NJs (JsString hash)); ("amountMsat", NBig 250000000)])
  | Reserve _ => Ok reserved
  | SendPayment _ => SendFailed
  end.
Definition the_run : list Exchange * option PaymentRailResult := Eval vm_compute in run oracle 8 (execute configuration request).
Lemma runs : run oracle 8 (execute configuration request) = the_run.
Proof. vm_compute. reflexivity. Qed.
Lemma outcome : the_run.2 = Some (RailUnconfirmed (Some hash) (Some (detail_name SEND_OUTCOME_UNKNOWN))) ∧ length (sent_in the_run.1) = 1%nat.
Proof. vm_compute. done. Qed.
Definition result_of : PaymentRailResult := RailUnconfirmed (Some hash) (Some (detail_name SEND_OUTCOME_UNKNOWN)).
Lemma yielded : yields (execute configuration request) the_run.1 result_of.
Proof. apply (run_yields oracle 8). rewrite runs. vm_compute. reflexivity. Qed.
Definition record : LightningPaymentReservationInput := Eval vm_compute in
  match omap (λ x, match projT1 x with Reserve r => Some r | _ => None end) the_run.1 with r :: _ => r | [] => {|
    rs_executionId := ""; rs_paymentHash := ""; rs_payee := ""; rs_network := mainnet; rs_payerNodeId := ""; rs_invoiceDigest := ""; rs_amountMsat := 0; rs_feeLimitMsat := 0; rs_expiresAt := 0 |} end.
Lemma reached : reach lightning_serve (execute configuration) [] (events request the_run.1) {| m_world := [record]; m_calls := [(request, Some (Ret result_of))] |}.
Proof.
  apply call_alone; [exact yielded|]. unfold the_run. cbn [fst served lightning_serve]. repeat (eexists; split; [first [reflexivity | split; [reflexivity|right; reflexivity] | right; split; reflexivity]|]). reflexivity.
Qed.
Lemma lightning_pays_once_witness : NoDup ((λ x, ins_paymentHash x.2) <$> sends (events request the_run.1)) ∧ length (sends (events request the_run.1)) = 1%nat.
Proof.
  split; [|vm_compute; reflexivity].
  exact (proj1 (proj2 (lightning_pays_once configuration [] (events request the_run.1) _ (conj (NoDup_nil_2 : NoDup []) (NoDup_nil_2 : NoDup [])) reached))).
Defined.
Lemma lightning_sends_exactly_witness : ∃ p text vi payer t1 t2 node view, payable configuration request p text vi payer t1 t2 node view ∧ length the_run.1 = 8%nat.
Proof.
  destruct (proj1 (proj2 (lightning_sends_exactly configuration request) the_run.1 result_of)) as (p&text&vi&payer&t1&t2&node&view&answer&Hp&_&_).
  - split; [exact yielded|vm_compute; discriminate].
  - exists p, text, vi, payer, t1, t2, node, view. split; [exact Hp|vm_compute; reflexivity].
Defined.
End LightningDemo.
