(* ===== verification/TradeDomain.v ===== *)
(** * What a trade is stated in

    Model of trade-runtime/domain: the grammars of a trading proposal
    (trade-grammar.ts), assets and exact amounts (trade-asset.ts), and the limit
    price as a reduced fraction (trade-price.ts). Untrusted data is a [JsValue]:
    own properties in key order, some of them accessors, none symbol-keyed or
    hidden from enumeration. The hash functions of the ledger are a parameter. *)

From Stdlib Require Import QArith.
From S2P Require Import Prelude Decimal Js Parameters AdapterPort RailAmounts.

Local Open Scope Z_scope.
Local Open Scope frontera_scope.

(** ** Grammars *)

Inductive TradeNetwork := xrp_ledger_testnet | xrp_ledger_devnet.
Global Instance TradeNetwork_eq_dec : EqDecision TradeNetwork.
Proof. solve_decision. Defined.
Definition network_name (n : TradeNetwork) : string := match n with xrp_ledger_testnet => "xrp-ledger-testnet" | xrp_ledger_devnet => "xrp-ledger-devnet" end.
Definition networkId (n : TradeNetwork) : Z := match n with xrp_ledger_testnet => 1 | xrp_ledger_devnet => 2 end.
Definition TRADE_NETWORKS : list TradeNetwork := [xrp_ledger_testnet; xrp_ledger_devnet].
(** [isTradeNetwork], with the network it narrows to. *)
Definition isTradeNetwork (v : JsValue) : option TradeNetwork :=
  match v with JsString s => List.find (λ n, str_eqb (network_name n) s) TRADE_NETWORKS | _ => None end.

Definition isTradeIdentifier (s : string) : bool := isGovernedParameterToken s && isRecordableProviderRef (Some s).
Definition isTradeReference : string → bool := isTradeIdentifier.

(** A text a grammar accepts, in an untrusted value. *)
Definition text_of (p : string → bool) (v : JsValue) : option string :=
  match v with JsString s => if p s then Some s else None | _ => None end.

(** [value === 'text'] *)
Definition is_text (s : string) (v : JsValue) : bool := match v with JsString t => str_eqb t s | _ => false end.

(** *** Classic account addresses *)

(** [createHash('sha256')] and [createHash('sha512')] over bytes. *)
Class LedgerHash := { ledger_sha256 : list Z → list Z; ledger_sha512 : list Z → list Z }.

Definition BASE58_ALPHABET : list ascii := chars "rpshnaf39wBUDNEGHJKLM4PQRST7VWXYZ2bcdeCg65jkm8oFqi1tuvAxyz".
Definition BASE58_INDEX (c : ascii) : option Z := (λ p, Z.of_nat p.1) <$> list_find (λ d, d = c) BASE58_ALPHABET.

Definition ACCOUNT_ADDRESS_BYTES : nat := 25.
Definition ACCOUNT_ADDRESS_MINIMUM_LENGTH : nat := 25.
Definition ACCOUNT_ADDRESS_MAXIMUM_LENGTH : nat := 35.

(** The two loops of [decodeBase58]: digits into a number and a count of leading
    zeros, the number into bytes. *)
Fixpoint base58_read (l : list ascii) (value : Z) (leadingZeros : nat) (counting : bool) : option (Z * nat) :=
  match l with
  | [] => Some (value, leadingZeros)
  | c :: l =>
      match BASE58_INDEX c with
      | None => None
      | Some digit =>
          if counting && (digit =? 0) then base58_read l (value * 58 + digit) (S leadingZeros) true
          else base58_read l (value * 58 + digit) leadingZeros false
      end
  end.
Fixpoint base256_body (fuel : nat) (value : Z) (body : list Z) : list Z :=
  match fuel with
  | O => body
  | S fuel => if 0 <? value then base256_body fuel (Z.quot value 256) (Z.rem value 256 :: body) else body
  end.
Definition decodeBase58 (l : list ascii) : option (list Z) :=
  match base58_read l 0 0 true with
  | None => None
  | Some (value, leadingZeros) =>
      let body := base256_body (S (Z.to_nat (Z.log2 value))) value [] in
      if negb (leadingZeros + length body =? ACCOUNT_ADDRESS_BYTES)%nat then None else Some (replicate leadingZeros 0 ++ body)
  end.

Inductive TradeAccountCheck := account_valid | account_malformed | account_reserved.
Global Instance TradeAccountCheck_eq_dec : EqDecision TradeAccountCheck.
Proof. solve_decision. Defined.

Section Addresses.
Context `{LedgerHash}.

Definition checkTradeAccountAddress (v : JsValue) : TradeAccountCheck :=
  match v with
  | JsString s =>
      let l := chars s in
      if (length l <? ACCOUNT_ADDRESS_MINIMUM_LENGTH)%nat || (ACCOUNT_ADDRESS_MAXIMUM_LENGTH <? length l)%nat then account_malformed
      else
        match decodeBase58 l with
        | None => account_malformed
        | Some bytes =>
            if negb (bool_decide (bytes !! 0%nat = Some 0)) then account_malformed
            else
              let checksum := ledger_sha256 (ledger_sha256 (take 21 bytes)) in
              if negb (forallb (λ index, bool_decide (checksum !! index = bytes !! (21 + index)%nat)) (seq 0 4)) then account_malformed
              else
                let accountId := take 20 (drop 1 bytes) in
                let highBytesZero := forallb (λ byte, byte =? 0) (take 19 accountId) in
                if highBytesZero && (bool_decide (accountId !! 19%nat = Some 0) || bool_decide (accountId !! 19%nat = Some 1)) then account_reserved
                else account_valid
        end
  | _ => account_malformed
  end.

Definition isTradeAccountAddress (s : string) : bool := bool_decide (checkTradeAccountAddress (JsString s) = account_valid).

Definition tradeAccountIdOf (s : string) : option (list Z) :=
  if negb (isTradeAccountAddress s) then None
  else match decodeBase58 (chars s) with None => None | Some bytes => Some (take 20 (drop 1 bytes)) end.
End Addresses.

(** *** Currency codes *)

Definition ascii_upper (c : ascii) : ascii := if is_lower c then ascii_of_N (Z.to_N (code c - 32)) else c.
Definition toUpperCase (s : string) : string := text (ascii_upper <$> chars s).
Definition is_hex_any (c : ascii) : bool := is_digit c || in_range 65 70 c || in_range 97 102 c.

(** [/^[A-Za-z0-9]{3}$/] and [/^[0-9A-Fa-f]{40}$/] *)
Definition STANDARD_CURRENCY (s : string) : bool := (length (chars s) =? 3)%nat && forallb is_alnum (chars s).
Definition HEX_CURRENCY (s : string) : bool := (length (chars s) =? 40)%nat && forallb is_hex_any (chars s).

Definition parseTradeCurrencyCode (v : JsValue) : option string :=
  match v with
  | JsString s =>
      if STANDARD_CURRENCY s then (if str_eqb (toUpperCase s) "XRP" then None else Some s)
      else if HEX_CURRENCY s then (let currency := toUpperCase s in if bool_decide (take 2 (chars currency) = chars "00") then None else Some currency)
      else None
  | _ => None
  end.

(** *** Closed records *)

Definition isDangerousPropertyName (name : string) : bool := bool_decide (name ∈ ["__proto__"; "constructor"; "prototype"]).

Definition plain_record (v : JsValue) : option (list (string * JsValue)) := match v with JsObject true properties => Some properties | _ => None end.

Definition TRADE_SECRET_PROPERTY : list Regex :=
  (rlit_i <$> ["secret"; "password"; "passphrase"]) ++ [rseq [rlit_i "private"; ropt (rlit "_"); rlit_i "key"]; rlit_i "privatekey"; rseq [rlit_i "signing"; ropt (rlit "_"); rlit_i "key"]] ++
  (rlit_i <$> ["mnemonic"; "seed"; "credential"; "bearer"]) ++ [rseq [rlit_i "api"; ropt (rlit "_"); rlit_i "key"]].
Definition isSecretShapedPropertyName (name : string) : bool := existsb (λ r, regex_test r name) TRADE_SECRET_PROPERTY.

Definition reportablePropertyName (name : string) : string :=
  if nonempty name && (js_length name <=? 64) && forallb (λ c, is_alnum c || one_of "_.-" c) (chars name) then name else "<property>".

Inductive TradeRecordRefusal := NOT_AN_OBJECT | TOO_MANY_PROPERTIES | SYMBOL_PROPERTY | DANGEROUS_PROPERTY | ACCESSOR_PROPERTY.

(** The first own property that may not be read as data, in key order. *)
Fixpoint refused_property (properties : list (string * JsValue)) : option (TradeRecordRefusal * option string) :=
  match properties with
  | [] => None
  | (key, v) :: properties =>
      if isDangerousPropertyName key then Some (DANGEROUS_PROPERTY, Some key)
      else match v with JsAccessor => Some (ACCESSOR_PROPERTY, Some (reportablePropertyName key)) | _ => refused_property properties end
  end.
Definition snapshotTradeRecord (raw : JsValue) (maximumProperties : nat) : result (TradeRecordRefusal * option string) (list (string * JsValue)) :=
  match plain_record raw with
  | None => Throw (NOT_AN_OBJECT, None)
  | Some properties =>
      if (maximumProperties <? length properties)%nat then Throw (TOO_MANY_PROPERTIES, None)
      else match refused_property properties with Some refusal => Throw refusal | None => Ok properties end
  end.

(** [entries.has(key)] and [entries.get(key)] *)
Definition has (key : string) (entries : list (string * JsValue)) : bool := is_some (own_property key entries).
Definition get (key : string) (entries : list (string * JsValue)) : JsValue := default JsUndefined (own_property key entries).

(** ** Assets and amounts *)

Inductive TradeAmount :=
  | XrpAmount (drops : string)
  | IssuedAmount (currency issuer value : string).
Inductive TradeAsset :=
  | xrp
  | issued (currency issuer : string).
Global Instance TradeAmount_eq_dec : EqDecision TradeAmount.
Proof. solve_decision. Defined.
Global Instance TradeAsset_eq_dec : EqDecision TradeAsset.
Proof. solve_decision. Defined.

Definition TRADE_DROPS_PER_XRP_SCALE : nat := 6.
Definition TRADE_MAXIMUM_DROPS : Z := 10 ^ 17.
Definition TRADE_ISSUED_MAXIMUM_SIGNIFICANT_DIGITS : nat := 16.
Definition TRADE_ISSUED_MINIMUM_EXPONENT : Z := -96.
Definition TRADE_ISSUED_MAXIMUM_EXPONENT : Z := 80.

Inductive TradeAmountViolation :=
  | AMOUNT_MALFORMED | AMOUNT_NOT_TEXT | AMOUNT_NOT_POSITIVE | AMOUNT_EXPONENT_NOT_ACCEPTED | AMOUNT_PRECISION_EXCEEDED | AMOUNT_OUT_OF_RANGE
  | CURRENCY_MALFORMED | ISSUER_MISSING | ISSUER_MALFORMED | ISSUER_RESERVED | ISSUER_NOT_ALLOWED_FOR_XRP | AMOUNT_FIELDS_INVALID.

(** [/^[1-9][0-9]*$/], [/^[0-9]+(?:\.[0-9]+)?$/] with a point, and [/[eE]/] *)
Definition POSITIVE_INTEGER (l : list ascii) : bool := match l with c :: r => is_nonzero_digit c && forallb is_digit r | [] => false end.
Definition decimal_with_point (l : list ascii) : bool :=
  match index_of_point l with
  | None => false
  | Some p => negb (bool_decide (take p l = [])) && forallb is_digit (take p l) && negb (bool_decide (drop (S p) l = [])) && forallb is_digit (drop (S p) l)
  end.
Definition AMOUNT_TEXT_MAXIMUM_LENGTH : Z := 256.

Definition refuseQuantityText (v : JsValue) : result TradeAmountViolation string :=
  match v with
  | JsString s =>
      if negb (nonempty s) || (AMOUNT_TEXT_MAXIMUM_LENGTH <? js_length s) then Throw AMOUNT_MALFORMED
      else if bool_decide (head (chars s) = Some "-"%char) then Throw AMOUNT_NOT_POSITIVE
      else if existsb is_e (chars s) then Throw AMOUNT_EXPONENT_NOT_ACCEPTED
      else Ok s
  | _ => Throw AMOUNT_NOT_TEXT
  end.

(** The number of significant digits and the normalized exponent. *)
Definition issuedShape (canonical : list ascii) : nat * Z :=
  let fraction := fraction_of canonical in
  let digits := trim_start (integer_of canonical ++ fraction) in
  let significant := trim_end digits in
  let power := Z.of_nat (length digits) - Z.of_nat (length significant) - Z.of_nat (length fraction) in
  (length significant, power - (Z.of_nat TRADE_ISSUED_MAXIMUM_SIGNIFICANT_DIGITS - Z.of_nat (length significant))).

Definition parseIssuedValue (v : JsValue) : result TradeAmountViolation string :=
  let* s := refuseQuantityText v in
  match canonicalizeDecimalText s with
  | None => Throw AMOUNT_MALFORMED
  | Some canonical =>
      if str_eqb canonical "0" then Throw AMOUNT_NOT_POSITIVE
      else
        let '(significantDigits, exponent) := issuedShape (chars canonical) in
        if (TRADE_ISSUED_MAXIMUM_SIGNIFICANT_DIGITS <? significantDigits)%nat then Throw AMOUNT_PRECISION_EXCEEDED
        else if (exponent <? TRADE_ISSUED_MINIMUM_EXPONENT) || (TRADE_ISSUED_MAXIMUM_EXPONENT <? exponent) then Throw AMOUNT_OUT_OF_RANGE
        else Ok canonical
  end.

Definition parseDrops (v : JsValue) : result TradeAmountViolation string :=
  let* s := refuseQuantityText v in
  if POSITIVE_INTEGER (chars s) then (if digits_value (chars s) <=? TRADE_MAXIMUM_DROPS then Ok s else Throw AMOUNT_OUT_OF_RANGE)
  else if forallb (λ c, bool_decide (c = ZERO)) (chars s) then Throw AMOUNT_NOT_POSITIVE
  else if decimal_with_point (chars s) then Throw AMOUNT_PRECISION_EXCEEDED
  else Throw AMOUNT_MALFORMED.

Definition in_field {A} (field : string) (r : result TradeAmountViolation A) : result (TradeAmountViolation * string) A :=
  match r with Ok a => Ok a | Throw violation => Throw (violation, field) end.

Section Amounts.
Context `{LedgerHash}.

Definition parseTradeAmount (raw : JsValue) (field : string) : result (TradeAmountViolation * string) TradeAmount :=
  match snapshotTradeRecord raw 8 with
  | Throw _ => Throw (AMOUNT_FIELDS_INVALID, field)
  | Ok entries =>
      let currency := get "currency" entries in
      if is_text "XRP" currency then
          if has "issuer" entries then Throw (ISSUER_NOT_ALLOWED_FOR_XRP, field +:+ ".issuer")
          else if negb (length entries =? 2)%nat || negb (has "drops" entries) then Throw (AMOUNT_FIELDS_INVALID, field)
          else let* drops := in_field (field +:+ ".drops") (parseDrops (get "drops" entries)) in Ok (XrpAmount drops)
      else
          match parseTradeCurrencyCode currency with
          | None => Throw (CURRENCY_MALFORMED, field +:+ ".currency")
          | Some code =>
              if negb (has "issuer" entries) then Throw (ISSUER_MISSING, field +:+ ".issuer")
              else if negb (length entries =? 3)%nat || negb (has "value" entries) then Throw (AMOUNT_FIELDS_INVALID, field)
              else
                match checkTradeAccountAddress (get "issuer" entries), get "issuer" entries with
                | account_reserved, _ => Throw (ISSUER_RESERVED, field +:+ ".issuer")
                | account_valid, JsString issuer =>
                    let* value := in_field (field +:+ ".value") (parseIssuedValue (get "value" entries)) in Ok (IssuedAmount code issuer value)
                | _, _ => Throw (ISSUER_MALFORMED, field +:+ ".issuer")
                end
          end
  end.
End Amounts.

Definition tradeAssetOf (amount : TradeAmount) : TradeAsset :=
  match amount with XrpAmount _ => xrp | IssuedAmount currency issuer _ => issued currency issuer end.

Definition tradeAssetsEqual (left right : TradeAsset) : bool :=
  match left, right with
  | xrp, xrp => true
  | issued c i, issued c' i' => str_eqb c c' && str_eqb i i'
  | _, _ => false
  end.

Definition tradeAssetToken (asset : TradeAsset) : string :=
  match asset with xrp => "XRP" | issued currency issuer => currency +:+ "." +:+ issuer end.
Definition tradeMonetaryAssetId (network : TradeNetwork) (asset : TradeAsset) : string :=
  match asset with
  | xrp => network_name network +:+ ":XRP"
  | issued currency issuer => network_name network +:+ ":" +:+ currency +:+ "/" +:+ issuer
  end.

(** A coefficient and a scale, as in the decimal module. *)
Definition TradeExactQuantity : Type := ExactDecimal.

Definition tradeExactQuantity (amount : TradeAmount) : TradeExactQuantity :=
  match amount with
  | XrpAmount drops => {| coefficient := digits_value (chars drops); scale := TRADE_DROPS_PER_XRP_SCALE |}
  | IssuedAmount _ _ value =>
      match index_of_point (chars value) with
      | None => {| coefficient := digits_value (chars value); scale := 0 |}
      | Some point => {| coefficient := digits_value (take point (chars value) ++ drop (S point) (chars value)); scale := length (chars value) - point - 1 |}
      end
  end.

(** The loop that drops common factors of ten is that of the decimal module. *)
Definition formatTradeExactQuantity (quantity : TradeExactQuantity) : string :=
  let '(c, k) := strip_scale (coefficient quantity) (scale quantity) in
  if c =? 0 then "0"
  else
    let digits := bigint_to_string c in
    if (k =? 0)%nat then text digits
    else
      let padded := pad_start (k + 1) digits in
      text (take (length padded - k) padded ++ POINT :: drop (length padded - k) padded).
Definition tradeDecimalQuantity (amount : TradeAmount) : string := formatTradeExactQuantity (tradeExactQuantity amount).

(** ** Prices *)

Record TradePrice := { p_numerator : Z; p_denominator : Z }.
Global Instance TradePrice_eq_dec : EqDecision TradePrice.
Proof. solve_decision. Defined.

Definition TRADE_PRICE_MAXIMUM_DIGITS : Z := 256.

(** Euclid's loop; the logarithms of both numbers bound the rounds. *)
Fixpoint gcd_loop (fuel : nat) (a b : Z) : Z :=
  match fuel with
  | O => a
  | S fuel => if b =? 0 then a else gcd_loop fuel b (Z.rem a b)
  end.
Definition gcd (left right : Z) : Z := gcd_loop (Z.to_nat (Z.log2 left + Z.log2 right) + 3) left right.

Inductive RangeErr := RangeErr_.
Definition tradePriceOf (quote base : TradeExactQuantity) : result RangeErr TradePrice :=
  let numerator := coefficient quote * 10 ^ Z.of_nat (scale base) in
  let denominator := coefficient base * 10 ^ Z.of_nat (scale quote) in
  if (numerator <=? 0) || (denominator <=? 0) then Throw RangeErr_
  else let divisor := gcd numerator denominator in Ok {| p_numerator := Z.quot numerator divisor; p_denominator := Z.quot denominator divisor |}.

Definition compareTradePrices (left right : TradePrice) : Z :=
  let l := p_numerator left * p_denominator right in
  let r := p_numerator right * p_denominator left in
  if l <? r then -1 else if r <? l then 1 else 0.

Definition formatTradePrice (price : TradePrice) : string := text (bigint_to_string (p_numerator price)) +:+ "/" +:+ text (bigint_to_string (p_denominator price)).

Definition parseTradePriceAssertion (raw : JsValue) : option TradePrice :=
  match snapshotTradeRecord raw 4 with
  | Throw _ => None
  | Ok entries =>
      let ok s := (js_length s <=? TRADE_PRICE_MAXIMUM_DIGITS) && POSITIVE_INTEGER (chars s) in
      if negb (length entries =? 2)%nat then None
      else
        match text_of ok (get "numerator" entries), text_of ok (get "denominator" entries) with
        | Some numerator, Some denominator =>
            let n := digits_value (chars numerator) in
            let d := digits_value (chars denominator) in
            let divisor := gcd n d in
            Some {| p_numerator := Z.quot n divisor; p_denominator := Z.quot d divisor |}
        | _, _ => None
        end
  end.

Example format_ex : formatTradeExactQuantity {| coefficient := 1500; scale := 3 |} = "1.5" ∧ tradeDecimalQuantity (XrpAmount "2500000") = "2.5"
  ∧ gcd 84 36 = 12 ∧ formatTradePrice {| p_numerator := 1; p_denominator := 3 |} = "1/3".
Proof. repeat split; reflexivity. Qed.

(** ** Euclid's loop *)

Lemma rem_step a b : 0 ≤ a → 0 < b → 0 ≤ Z.rem a b < b ∧ Z.gcd b (Z.rem a b) = Z.gcd a b.
Proof.
  intros Ha Hb. rewrite Z.rem_mod_nonneg by lia. split; [by apply Z.mod_pos_bound|]. rewrite Z.gcd_comm, Z.gcd_mod by lia. apply Z.gcd_comm.
Qed.
(** Two rounds halve the larger number. *)
Lemma rem_halves a b : 0 < b ≤ a → 2 * Z.rem a b < a + 1.
Proof.
  intros Hb. rewrite Z.rem_mod_nonneg by lia. pose proof (Z.mod_pos_bound a b ltac:(lia)). pose proof (Z.div_mod a b ltac:(lia)).
  assert (1 ≤ a / b) by (apply Z.div_le_lower_bound; lia). nia.
Qed.
Lemma log2_half r a : 0 < r → 2 * r < a + 1 → Z.log2 r < Z.log2 a.
Proof.
  intros Hr H. pose proof (Z.log2_le_mono (2 * r) a ltac:(lia)) as Hm. rewrite Z.log2_double in Hm by lia. lia.
Qed.
Lemma gcd_loop_descends fuel a b : 0 ≤ b ≤ a → Z.log2 a + Z.log2 b < Z.of_nat fuel → gcd_loop (S fuel) a b = Z.gcd a b.
Proof.
  revert a b. induction fuel as [|fuel IH]; intros a b Hb Hf.
  { pose proof (Z.log2_nonneg a). pose proof (Z.log2_nonneg b). lia. }
  change (gcd_loop (S (S fuel)) a b) with (if b =? 0 then a else gcd_loop (S fuel) b (Z.rem a b)).
  destruct (Z.eqb_spec b 0) as [->|Hne]; [rewrite Z.gcd_0_r; lia|]. destruct (rem_step a b) as [Hr Hg]; [lia..|].
  destruct (Z.eq_dec (Z.rem a b) 0) as [E|E]; [rewrite <-Hg, E, Z.gcd_0_r; cbn; lia|].
  rewrite IH; [done|lia|]. pose proof (log2_half (Z.rem a b) a ltac:(lia) (rem_halves a b ltac:(lia))). lia.
Qed.
Lemma gcd_exact a b : 0 ≤ a → 0 ≤ b → gcd a b = Z.gcd a b.
Proof.
  intros Ha Hb. unfold gcd. pose proof (Z.log2_nonneg a). pose proof (Z.log2_nonneg b).
  destruct (Z.le_gt_cases b a) as [L|L].
  { replace (Z.to_nat (Z.log2 a + Z.log2 b) + 3)%nat with (S (Z.to_nat (Z.log2 a + Z.log2 b) + 2)) by lia. apply gcd_loop_descends; lia. }
  replace (Z.to_nat (Z.log2 a + Z.log2 b) + 3)%nat with (S (S (Z.to_nat (Z.log2 a + Z.log2 b) + 1))) by lia.
  change (gcd_loop (S (S ?n)) a b) with (if b =? 0 then a else gcd_loop (S n) b (Z.rem a b)). destruct (Z.eqb_spec b 0); [lia|].
  rewrite Z.rem_small by lia. rewrite gcd_loop_descends by lia. apply Z.gcd_comm.
Qed.

(** ** Prices in lowest terms *)

Definition reduced_price (p : TradePrice) : Prop := 0 < p_numerator p ∧ 0 < p_denominator p ∧ Z.gcd (p_numerator p) (p_denominator p) = 1.
Definition price_value (p : TradePrice) : Q := (p_numerator p # Z.to_pos (p_denominator p))%Q.

Lemma reduce_spec n d : 0 < n → 0 < d →
  let p := {| p_numerator := Z.quot n (gcd n d); p_denominator := Z.quot d (gcd n d) |} in
  reduced_price p ∧ p_numerator p * d = n * p_denominator p.
Proof.
  intros Hn Hd. cbn. rewrite gcd_exact by lia. set (g := Z.gcd n d). assert (0 < g) as Hg by (pose proof (Z.gcd_nonneg n d); assert (g ≠ 0) by (intros E; apply Z.gcd_eq_0 in E; lia); lia).
  pose proof (Z.gcd_divide_l n d) as [n' En]. pose proof (Z.gcd_divide_r n d) as [d' Ed]. fold g in En, Ed.
  rewrite En, Ed, !Z.quot_mul by lia. unfold reduced_price. cbn. assert (0 < n' ∧ 0 < d') as [Hn' Hd'] by nia. split; [split; [done|]; split; [done|]|ring].
  assert (g * Z.gcd n' d' = g) as E; [|nia]. rewrite <-(Z.abs_eq g) at 1 by lia. rewrite <-Z.gcd_mul_mono_l.
  rewrite (Z.mul_comm g n'), (Z.mul_comm g d'), <-En, <-Ed. done.
Qed.

Lemma price_value_eq p q : 0 < p_denominator p → 0 < p_denominator q →
  (price_value p == price_value q)%Q ↔ p_numerator p * p_denominator q = p_numerator q * p_denominator p.
Proof. intros Hp Hq. unfold price_value, Qeq. cbn [Qnum Qden]. by rewrite !Z2Pos.id. Qed.

Lemma reduced_unique p q : reduced_price p → reduced_price q → (price_value p == price_value q)%Q → p = q.
Proof.
  intros (Hn&Hd&Hg) (Hn'&Hd'&Hg') E. apply price_value_eq in E; [|done..]. destruct p as [n d], q as [n' d']. cbn in *.
  assert (n | n') as Dn by (apply (Z.gauss n d n'); [exists d'; lia|done]). assert (n' | n) as Dn' by (apply (Z.gauss n' d' n); [exists d; lia|done]).
  assert (n = n') as -> by (apply Z.divide_antisym_nonneg; lia || done). assert (d = d') as -> by nia. done.
Qed.

(** A comparison by cross-multiplication is the order of the values. *)
Definition order_code (c : comparison) : Z := match c with Lt => -1 | Eq => 0 | Gt => 1 end.
Lemma cross_compare a b c d : 0 < b → 0 < d → (if a * d <? c * b then -1 else if c * b <? a * d then 1 else 0) = order_code (Qcompare (a # Z.to_pos b) (c # Z.to_pos d)).
Proof.
  intros Hb Hd. unfold Qcompare. cbn [Qnum Qden]. rewrite !Z2Pos.id by done. destruct (Z.compare_spec (a * d) (c * b)) as [E|L|L].
  - by rewrite E, Z.ltb_irrefl.
  - by rewrite (proj2 (Z.ltb_lt _ _) L).
  - rewrite (proj2 (Z.ltb_ge _ _)) by lia. by rewrite (proj2 (Z.ltb_lt _ _) L).
Qed.
Lemma compareTradePrices_value p q : 0 < p_denominator p → 0 < p_denominator q → compareTradePrices p q = order_code (Qcompare (price_value p) (price_value q)).
Proof. apply cross_compare. Qed.

Lemma bigint_text_inj a b : text (bigint_to_string a) = text (bigint_to_string b) → a = b.
Proof.
  intros E. apply (bigint_unambiguous a b "" ""); [done..|]. by rewrite E.
Qed.
Lemma formatTradePrice_inj p q : formatTradePrice p = formatTradePrice q → p = q.
Proof.
  unfold formatTradePrice. intros E. apply bigint_unambiguous in E as [En Ed]; [|done..]. apply string_app_peel, bigint_text_inj in Ed. destruct p, q. cbn in *. congruence.
Qed.

(** The price of two quantities is their quotient. *)
Lemma exact_value_pos v : (0 < exact_value v)%Q ↔ 0 < coefficient v.
Proof. unfold exact_value, Qlt. cbn. lia. Qed.
Lemma tradePriceOf_exact quote base : 0 < coefficient quote → 0 < coefficient base →
  ∃ p, tradePriceOf quote base = Ok p ∧ reduced_price p ∧ (price_value p == exact_value quote / exact_value base)%Q.
Proof.
  intros Hq Hb. unfold tradePriceOf. pose proof (pow10_pos (scale base)) as Pb. pose proof (pow10_pos (scale quote)) as Pq.
  set (n := coefficient quote * 10 ^ Z.of_nat (scale base)). set (d := coefficient base * 10 ^ Z.of_nat (scale quote)).
  assert (0 < n ∧ 0 < d) as [Hn Hd] by (unfold n, d; nia). rewrite (proj2 (Z.leb_gt n 0)), (proj2 (Z.leb_gt d 0)) by lia. cbn [orb].
  destruct (reduce_spec n d Hn Hd) as [Hr E]. eexists. split; [done|]. split; [done|]. set (p := {| p_numerator := _ |}) in *. destruct Hr as (_&Hpd&_).
  unfold price_value, exact_value, Qeq, Qdiv, Qinv, Qmult. cbn [Qnum Qden]. destruct (coefficient base) as [|c|c] eqn:Ec; [lia| |lia]. cbn [Qnum Qden].
  rewrite !Pos2Z.inj_mul, !Z2Pos.id by done. unfold n, d in E. nia.
Qed.

(** ** Quantities as texts *)

Lemma tradeExactQuantity_issued c i v : tradeExactQuantity (IssuedAmount c i v) = parse_decimal (chars v).
Proof. reflexivity. Qed.
Lemma formatTradeExactQuantity_decimal q : formatTradeExactQuantity q = text (format_decimal q).
Proof. unfold formatTradeExactQuantity, format_decimal. destruct (strip_scale _ _) as [c k]. destruct (c =? 0); [done|]. by destruct (k =? 0)%nat. Qed.
Lemma formatTradeExactQuantity_exact q : 0 ≤ coefficient q → canonical_grammar (chars (formatTradeExactQuantity q)) = true ∧ (dec_value (formatTradeExactQuantity q) == exact_value q)%Q.
Proof. intros Hq. rewrite formatTradeExactQuantity_decimal. unfold dec_value. rewrite !chars_text. by apply format_spec. Qed.

(** ** Records *)

Lemma refused_property_None ps : refused_property ps = None ↔ Forall (λ p, isDangerousPropertyName p.1 = false ∧ p.2 ≠ JsAccessor) ps.
Proof.
  induction ps as [|[k v] ps IH]; [by split|]. cbn [refused_property]. rewrite Forall_cons, <-IH. cbn. destruct (isDangerousPropertyName k); [naive_solver|].
  destruct v; naive_solver.
Qed.
Lemma snapshot_Ok raw n entries : snapshotTradeRecord raw n = Ok entries ↔
  raw = JsObject true entries ∧ (length entries ≤ n)%nat ∧ Forall (λ p, isDangerousPropertyName p.1 = false ∧ p.2 ≠ JsAccessor) entries.
Proof.
  unfold snapshotTradeRecord. destruct (plain_record raw) as [ps|] eqn:E; [|split; [done|intros (->&_); done]].
  assert (raw = JsObject true ps) as -> by (destruct raw as [| | | | | |[]| |]; cbn in E; congruence).
  rewrite <-refused_property_None. destruct (Nat.ltb_spec n (length ps)) as [L|L]; [split; [done|intros ([= ->]&?&_); lia]|].
  destruct (refused_property ps) eqn:Er; [split; [done|intros ([= ->]&_&?); congruence]|]. split; [intros [= ->]; done|by intros ([= ->]&_)].
Qed.

(** ** Values the ledger stores exactly *)

(** A sixteen-digit mantissa and an exponent in the ledger's range. *)
Definition stored_exactly (q : Q) : Prop := ∃ mantissa exponent,
  10 ^ 15 ≤ mantissa < 10 ^ 16 ∧ TRADE_ISSUED_MINIMUM_EXPONENT ≤ exponent ≤ TRADE_ISSUED_MAXIMUM_EXPONENT ∧ (q == scaled mantissa exponent)%Q.

Lemma mantissa_unique_16 g n x m e : g mod 10 ≠ 0 → 10 ^ (Z.of_nat n - 1) ≤ g < 10 ^ Z.of_nat n → (0 < n)%nat →
  10 ^ 15 ≤ m < 10 ^ 16 → (scaled g x == scaled m e)%Q → (n ≤ 16)%nat ∧ e = x - (16 - Z.of_nat n).
Proof.
  intros Hg Hb Hn Hm E. set (j := Z.abs x + Z.abs e). apply (scaled_eq _ _ _ _ j) in E; [|lia..].
  destruct (Z.lt_ge_cases x e) as [L|L].
  - exfalso. apply Hg. replace (e + j) with (x + j + (e - x)) in E by lia. rewrite (Z.pow_add_r 10 (x + j)) in E by lia.
    pose proof (pow10_pos_Z (x + j) ltac:(lia)). assert (g = m * 10 ^ (e - x)) as -> by nia.
    replace (e - x) with (e - x - 1 + 1) by lia. rewrite Z.pow_add_r, Z.mul_assoc by lia. by apply Z.mod_mul.
  - replace (x + j) with (e + j + (x - e)) in E by lia. rewrite (Z.pow_add_r 10 (e + j)) in E by lia.
    pose proof (pow10_pos_Z (e + j) ltac:(lia)) as Hp. assert (g * 10 ^ (x - e) = m) as Em by nia. pose proof (pow10_pos_Z (x - e) ltac:(lia)) as Hq.
    assert (10 ^ (Z.of_nat n - 1 + (x - e)) ≤ m < 10 ^ (Z.of_nat n + (x - e))) as [H1 H2] by (rewrite !Z.pow_add_r by lia; nia).
    assert (Z.of_nat n - 1 + (x - e) < 16) by (apply (Z.pow_lt_mono_r_iff 10); lia).
    assert (15 < Z.of_nat n + (x - e)) by (apply (Z.pow_lt_mono_r_iff 10); lia). lia.
Qed.

Lemma issuedShape_exact r (shape := issuedShape (chars r)) : canonical_grammar (chars r) = true → r ≠ "0"%string →
  ((shape.1 ≤ 16)%nat ∧ TRADE_ISSUED_MINIMUM_EXPONENT ≤ shape.2 ≤ TRADE_ISSUED_MAXIMUM_EXPONENT) ↔ stored_exactly (dec_value r).
Proof.
  intros Hg Hr. pose proof Hg as (i&f&E&Hi&Hf)%canonical_grammar_inv. pose proof (integer_part_digits _ Hi) as Di. pose proof (fraction_digits _ Hf) as Df.
  assert (dec_value r == scaled (digits_value (i ++ f)) (- Z.of_nat (length f)))%Q as Hv by (rewrite <-render_scaled, <-E, text_chars by done; reflexivity).
  unfold shape, issuedShape. rewrite E. destruct (parts_render i f Di Df) as [-> ->]. pose proof (proj2 (all_digits_app i f) (conj Di Df)) as Dif.
  assert (trim_start (i ++ f) ≠ []) as Hnz.
  { intros Ez. apply Hr. apply zero_text; [done|]. rewrite Hv, <-trim_start_value, Ez. apply scaled_0. }
  destruct (significant_spec (i ++ f) Dif Hnz) as (n&Hl&Hval&Hmod&Hb&Hpos). set (g := trim_end (trim_start (i ++ f))) in *. rewrite Hval, scaled_shift in Hv by lia.
  cbn [fst snd]. rewrite Hl. unfold TRADE_ISSUED_MAXIMUM_SIGNIFICANT_DIGITS. set (e := - Z.of_nat (length f) + Z.of_nat n) in *.
  replace (Z.of_nat (length g + n) - Z.of_nat (length g) - Z.of_nat (length f) - (Z.of_nat 16 - Z.of_nat (length g))) with (e - (16 - Z.of_nat (length g))) by lia.
  split.
  - intros [L Hr']. exists (digits_value g * 10 ^ (16 - Z.of_nat (length g))), (e - (16 - Z.of_nat (length g))). split; [|split; [done|]].
    + assert (10 ^ 16 = 10 ^ Z.of_nat (length g) * 10 ^ (16 - Z.of_nat (length g))) by (rewrite <-Z.pow_add_r by lia; f_equal; lia).
      assert (10 ^ 15 = 10 ^ (Z.of_nat (length g) - 1) * 10 ^ (16 - Z.of_nat (length g))) by (rewrite <-Z.pow_add_r by lia; f_equal; lia).
      pose proof (pow10_pos_Z (16 - Z.of_nat (length g)) ltac:(lia)). nia.
    + rewrite Hv, scaled_shift by lia. by replace (e - (16 - Z.of_nat (length g)) + (16 - Z.of_nat (length g))) with e by lia.
  - intros (m&x&Hm&Hx&Eq). rewrite Eq in Hv. symmetry in Hv. destruct (mantissa_unique_16 _ _ _ _ _ Hmod Hb Hpos Hm Hv) as [? ->]. done.
Qed.

(** What the ledger stores has at most 112 digits. *)
Lemma stored_digitCount r : canonical_grammar (chars r) = true → stored_exactly (dec_value r) → digitCount (chars r) ≤ 112.
Proof.
  intros Hg (m&e&Hm&He&Hv). unfold TRADE_ISSUED_MINIMUM_EXPONENT, TRADE_ISSUED_MAXIMUM_EXPONENT in *.
  set (k := Z.to_nat (- e)). assert (scale (parse_decimal (chars r)) ≤ k)%nat as Hk.
  { apply representable_scale; [done|]. unfold representable. exists (m * 10 ^ (e + Z.of_nat k)). rewrite Hv. apply scaled_common; lia. }
  set (n := Z.to_nat (16 + Z.max 0 e)). assert (dec_value r < pow10 n)%Q as Hn.
  { rewrite Hv. unfold pow10, scaled, n. destruct (Z.leb_spec 0 e).
    - unfold Qlt, inject_Z. cbn [Qnum Qden]. rewrite Z2Nat.id, Z.max_r, Z.pow_add_r by lia. pose proof (pow10_pos_Z e ltac:(lia)). nia.
    - unfold Qlt, inject_Z. cbn [Qnum Qden]. rewrite Z.max_l, Z2Pos.id by (try apply pow10_pos_Z; lia). pose proof (pow10_pos_Z (- e) ltac:(lia)).
      change (Z.to_nat (16 + 0)) with 16%nat. change (Z.of_nat 16) with 16. nia. }
  etransitivity; [apply (canonical_digitCount_bound r n k); [done|unfold n; lia|done|done]|]. unfold n, k. lia.
Qed.
Lemma stored_digits r : canonical_grammar (chars r) = true → stored_exactly (dec_value r) → isCanonicalDecimal r MONETARY_DECIMAL_MAXIMUM_DIGITS = true.
Proof.
  intros Hg Hs. unfold isCanonicalDecimal. rewrite Hg. apply Z.leb_le. pose proof (stored_digitCount r Hg Hs). unfold MONETARY_DECIMAL_MAXIMUM_DIGITS. lia.
Qed.

(** ** What an amount parses to *)

Lemma existsb_no {A} (p : A → bool) l : existsb p l = false ↔ Forall (λ x, p x = false) l.
Proof. induction l as [|x l IH]; [by split|]. cbn. rewrite orb_false_iff, Forall_cons, IH. done. Qed.
Lemma render_plain_text i f : integer_part_ok i = true → all_digits f → ∃ c l, render i f = c :: l ∧ is_digit c = true ∧ Forall (λ c, is_e c = false) (render i f).
Proof.
  intros Hi Hf. pose proof (integer_part_digits _ Hi) as Di. destruct i as [|c i]; [done|]. exists c, (match f with [] => i | _ => i ++ POINT :: f end).
  split; [by destruct f|]. split; [by apply Forall_inv in Di|]. unfold render.
  assert (∀ l, all_digits l → Forall (λ c, is_e c = false) l) as He by (intros l Hl; eapply Forall_impl; [exact Hl|]; intros x Hx; by apply digit_not_e).
  destruct f; [by apply He|]. apply Forall_app. split; [by apply He|]. constructor; [done|by apply He].
Qed.
Lemma plain_text s : plain_grammar (chars s) = true → js_length s ≤ AMOUNT_TEXT_MAXIMUM_LENGTH → refuseQuantityText (JsString s) = Ok s.
Proof.
  intros (i&f&Hi&Hf&E)%plain_grammar_inv Hl. destruct (render_plain_text i f Hi Hf) as (c&l&Ec&Hc&He). unfold refuseQuantityText.
  rewrite (proj2 (Z.ltb_ge _ _)) by done. assert (nonempty s = true) as -> by (destruct s; [rewrite Ec in E; done|done]). cbn [negb orb].
  rewrite bool_decide_eq_false_2 by (rewrite E, Ec; intros [= ->]; done). rewrite E. by rewrite (proj2 (existsb_no _ _)) by done.
Qed.
Lemma refuse_Ok v s : refuseQuantityText v = Ok s → v = JsString s ∧ js_length s ≤ AMOUNT_TEXT_MAXIMUM_LENGTH.
Proof.
  unfold refuseQuantityText. destruct v; try done. destruct (Z.ltb_spec AMOUNT_TEXT_MAXIMUM_LENGTH (js_length s0)) as [L|L]; [by rewrite orb_true_r|].
  destruct (negb _ || _); [done|]. destruct (bool_decide _); [done|]. destruct (existsb _ _); [done|]. by intros [= ->].
Qed.

(** An issued value is accepted precisely when it is plain decimal text of a
    positive value the ledger stores exactly. *)
Lemma parseIssuedValue_exact v r : parseIssuedValue v = Ok r ↔ ∃ s, v = JsString s ∧ js_length s ≤ AMOUNT_TEXT_MAXIMUM_LENGTH ∧
  plain_grammar (chars s) = true ∧ canonical_grammar (chars r) = true ∧ (dec_value r == dec_value s)%Q ∧ stored_exactly (dec_value r).
Proof.
  unfold parseIssuedValue. split.
  - intros (s&[-> Hl]%refuse_Ok&H)%result_bind_Ok. exists s. split; [done|]. split; [done|]. destruct (canonicalizeDecimalText s) as [c|] eqn:Ec; [|done].
    apply canonicalizeDecimalText_inv in Ec as (_&Hp&Hc%isCanonicalDecimal_grammar&Hv). destruct (str_eqb c "0") eqn:Ez; [done|]. apply str_eqb_neq in Ez.
    pose proof (issuedShape_exact c Hc Ez) as Hs. destruct (issuedShape (chars c)) as [n e]. cbn [fst snd] in Hs.
    destruct (Nat.ltb_spec TRADE_ISSUED_MAXIMUM_SIGNIFICANT_DIGITS n) as [L|L]; [done|].
    destruct (Z.ltb_spec e TRADE_ISSUED_MINIMUM_EXPONENT) as [L1|L1]; [done|]. destruct (Z.ltb_spec TRADE_ISSUED_MAXIMUM_EXPONENT e) as [L2|L2]; [done|].
    cbn [orb] in H. injection H as <-. split; [done|]. split; [done|]. split; [done|]. by apply Hs.
  - intros (s&->&Hl&Hp&Hg&Hv&Hs). rewrite plain_text by done. cbn [result_bind].
    assert (canonicalizeDecimalText s = Some r) as ->.
    { apply canonicalizeDecimalText_inv. pose proof (plain_text s Hp Hl) as Hn. split; [|split; [done|split; [by apply stored_digits|done]]].
      unfold js_length, AMOUNT_TEXT_MAXIMUM_LENGTH in Hl. split; [|unfold MONETARY_DECIMAL_MAXIMUM_TEXT_LENGTH; lia].
      apply plain_grammar_inv in Hp as (i&f&Hi&Hf&E). destruct (render_plain_text i f Hi Hf) as (c&l&Ec&_). rewrite E, Ec. cbn. lia. }
    assert (r ≠ "0"%string) as Hz.
    { intros ->. destruct Hs as (m&e&Hm&_&Eq). change (dec_value "0") with (0 # 1)%Q in Eq. rewrite <-(scaled_0 e) in Eq.
      apply (scaled_eq _ _ _ _ (Z.abs e)) in Eq; [|lia..]. pose proof (pow10_pos_Z (e + Z.abs e) ltac:(lia)). nia. }
    rewrite (proj2 (str_eqb_neq _ _) Hz). pose proof (proj2 (issuedShape_exact r Hg Hz) Hs) as Hs'. destruct (issuedShape (chars r)) as [n e]. cbn [fst snd] in Hs'.
    rewrite (proj2 (Nat.ltb_ge _ _)), !(proj2 (Z.ltb_ge _ _)) by (unfold TRADE_ISSUED_MAXIMUM_SIGNIFICANT_DIGITS; lia). done.
Qed.

Lemma POSITIVE_INTEGER_plain l : POSITIVE_INTEGER l = true → integer_part_ok l = true ∧ plain_grammar l = true ∧ 0 < digits_value l.
Proof.
  destruct l as [|c l]; [done|]. cbn [POSITIVE_INTEGER]. intros [Hc Hl]%andb_true_iff. assert (c ≠ ZERO) as Hz by (intros ->; done).
  assert (integer_part_ok (c :: l) = true) as Hi by (cbn; rewrite bool_decide_eq_false_2, Hc by done; done). split; [done|]. split.
  - apply plain_grammar_inv. exists (c :: l), []. split; [done|]. split; [constructor|done].
  - destruct (integer_part_length _ Hi) as [[[= -> ->] _]|[_ ?]]; [done|lia].
Qed.
Lemma parseDrops_exact v d : parseDrops v = Ok d ↔ v = JsString d ∧ POSITIVE_INTEGER (chars d) = true ∧ digits_value (chars d) ≤ TRADE_MAXIMUM_DROPS.
Proof.
  unfold parseDrops. split.
  - intros (s&[-> Hl]%refuse_Ok&H)%result_bind_Ok. destruct (POSITIVE_INTEGER (chars s)) eqn:Ep; [|by repeat (destruct (forallb _ _) || destruct (decimal_with_point _))].
    destruct (Z.leb_spec (digits_value (chars s)) TRADE_MAXIMUM_DROPS); [|done]. injection H as <-. done.
  - intros (->&Hp&Hm). destruct (POSITIVE_INTEGER_plain _ Hp) as (Hi&Hg&_). rewrite plain_text; [|done|].
    + cbn [result_bind]. rewrite Hp. by rewrite (proj2 (Z.leb_le _ _)).
    + unfold js_length, AMOUNT_TEXT_MAXIMUM_LENGTH. pose proof (integer_part_short (chars d) 18 ltac:(lia) Hi) as Hs. unfold TRADE_MAXIMUM_DROPS in Hm.
      assert (digits_value (chars d) < 10 ^ Z.of_nat 18) by lia. specialize (Hs H). lia.
Qed.

(** Uppercase texts stay what they are. *)
Lemma ascii_upper_idem c : ascii_upper (ascii_upper c) = ascii_upper c.
Proof. destruct c as [[] [] [] [] [] [] [] []]; reflexivity. Qed.
Lemma ascii_upper_hex c : is_hex_any c = true → is_hex_any (ascii_upper c) = true.
Proof. destruct c as [[] [] [] [] [] [] [] []]; done. Qed.
Lemma toUpperCase_idem s : toUpperCase (toUpperCase s) = toUpperCase s.
Proof. unfold toUpperCase. rewrite chars_text, <-list_fmap_compose. f_equal. apply list_fmap_ext. intros i c _. apply ascii_upper_idem. Qed.

Lemma currency_canonical v c : parseTradeCurrencyCode v = Some c → parseTradeCurrencyCode (JsString c) = Some c ∧ is_text "XRP" (JsString c) = false ∧ Forall (λ c, is_alnum c = true) (chars c) ∧ nonempty c = true.
Proof.
  destruct v; try done. cbn [parseTradeCurrencyCode]. destruct (STANDARD_CURRENCY s) eqn:Es.
  - destruct (str_eqb (toUpperCase s) "XRP") eqn:Ex; [done|]. intros [= <-]. rewrite Es, Ex. split; [done|]. split; [|split].
    + apply str_eqb_neq. intros ->. done.
    + apply Forall_forall. apply andb_true_iff in Es as [_ Ef]. rewrite forallb_forall in Ef. intros x Hx. by apply Ef, list_elem_of_In.
    + by destruct s.
  - destruct (HEX_CURRENCY s) eqn:Eh; [|done]. destruct (bool_decide _) eqn:Ez; [done|]. intros [= <-]. apply andb_true_iff in Eh as [El Ef].
    assert (HEX_CURRENCY (toUpperCase s) = true ∧ STANDARD_CURRENCY (toUpperCase s) = false) as [Hh Hs].
    { unfold HEX_CURRENCY, STANDARD_CURRENCY, toUpperCase. rewrite chars_text, length_fmap, El. apply Nat.eqb_eq in El. rewrite El. split; [|done]. cbn [andb].
      apply forallb_forall. intros x (y&->&Hy)%list_elem_of_In%list_elem_of_fmap. apply ascii_upper_hex. rewrite forallb_forall in Ef. by apply Ef, list_elem_of_In. }
    rewrite Hs, Hh, toUpperCase_idem, Ez. split; [done|]. apply andb_true_iff in Hh as [Hl Hf]. apply Nat.eqb_eq in Hl. split; [|split].
    + apply str_eqb_neq. intros E. rewrite E in Hl. done.
    + apply Forall_forall. intros x Hx. rewrite forallb_forall in Hf. apply list_elem_of_In, Hf in Hx. destruct x as [[] [] [] [] [] [] [] []]; done.
    + destruct (toUpperCase s); [done|done].
Qed.

Section AmountLemmas.
Context `{LedgerHash}.

Definition canonical_asset (a : TradeAsset) : Prop :=
  match a with xrp => True | issued c i => parseTradeCurrencyCode (JsString c) = Some c ∧ isTradeAccountAddress i = true end.
Definition canonical_amount (a : TradeAmount) : Prop :=
  match a with
  | XrpAmount d => POSITIVE_INTEGER (chars d) = true ∧ digits_value (chars d) ≤ TRADE_MAXIMUM_DROPS
  | IssuedAmount c i v => canonical_asset (issued c i) ∧ canonical_grammar (chars v) = true ∧ stored_exactly (dec_value v)
  end.
Definition amount_object (a : TradeAmount) : JsValue :=
  match a with
  | XrpAmount d => JsObject true [("currency", JsString "XRP"); ("drops", JsString d)]
  | IssuedAmount c i v => JsObject true [("currency", JsString c); ("issuer", JsString i); ("value", JsString v)]
  end.

Lemma address_text v : checkTradeAccountAddress v = account_valid → ∃ s, v = JsString s ∧ isTradeAccountAddress s = true.
Proof. destruct v; try done. intros E. exists s. split; [done|]. unfold isTradeAccountAddress. by rewrite E. Qed.
Lemma in_field_Ok {A} f (r : result TradeAmountViolation A) a : in_field f r = Ok a ↔ r = Ok a.
Proof. destruct r; naive_solver. Qed.

Lemma parseTradeAmount_sound raw field a : parseTradeAmount raw field = Ok a → canonical_amount a.
Proof.
  unfold parseTradeAmount. destruct (snapshotTradeRecord raw 8) as [entries|]; [|done]. cbn zeta. destruct (is_text "XRP" _).
  - destruct (has "issuer" entries); [done|]. destruct (negb _ || negb _); [done|]. intros (d&Hd&[= <-])%result_bind_Ok. apply in_field_Ok, parseDrops_exact in Hd as (_&?&?). done.
  - destruct (parseTradeCurrencyCode _) as [c|] eqn:Ec; [|done]. destruct (negb (has "issuer" entries)); [done|]. destruct (negb _ || negb _); [done|].
    destruct (checkTradeAccountAddress _) eqn:Ea; [|done..]. apply address_text in Ea as (i&->&Hi). intros (v&Hv&[= <-])%result_bind_Ok.
    apply in_field_Ok, parseIssuedValue_exact in Hv as (s&_&_&_&Hg&_&Hs). split; [split; [by eapply currency_canonical|done]|done].
Qed.

Lemma stored_length v : canonical_grammar (chars v) = true → stored_exactly (dec_value v) → js_length v ≤ AMOUNT_TEXT_MAXIMUM_LENGTH.
Proof.
  intros Hg Hs. pose proof (stored_digits v Hg Hs) as Hd. unfold isCanonicalDecimal, digitCount, MONETARY_DECIMAL_MAXIMUM_DIGITS in Hd. apply andb_true_iff in Hd as [_ Hd%Z.leb_le].
  unfold js_length, AMOUNT_TEXT_MAXIMUM_LENGTH. destruct (index_of_point (chars v)); lia.
Qed.
Lemma canonical_is_plain l : canonical_grammar l = true → plain_grammar l = true.
Proof. intros (i&f&->&Hi&Hf)%canonical_grammar_inv. apply plain_grammar_inv. exists i, f. split; [done|]. split; [by apply fraction_digits|done]. Qed.

Lemma parseTradeAmount_object a field : canonical_amount a → parseTradeAmount (amount_object a) field = Ok a.
Proof.
  destruct a as [d|c i v]; cbn [canonical_amount].
  - intros [Hp Hm]. assert (parseDrops (JsString d) = Ok d) as E by by apply parseDrops_exact.
    unfold parseTradeAmount, amount_object.
    change (snapshotTradeRecord _ 8) with (Ok (E := TradeRecordRefusal * option string) [("currency", JsString "XRP"); ("drops", JsString d)]). cbv beta iota zeta.
    change (get "drops" _) with (JsString d). rewrite E. reflexivity.
  - intros ([Hc Hi]&Hg&Hs). unfold parseTradeAmount, amount_object.
    assert (parseIssuedValue (JsString v) = Ok v) as E. { apply parseIssuedValue_exact. exists v. split_and!; [done|by apply stored_length|by apply canonical_is_plain|done|done|done]. }
    destruct (currency_canonical _ _ Hc) as (_&Hx&_). unfold isTradeAccountAddress in Hi. apply bool_decide_eq_true in Hi.
    change (snapshotTradeRecord _ 8) with (Ok (E := TradeRecordRefusal * option string) [("currency", JsString c); ("issuer", JsString i); ("value", JsString v)]). cbv beta iota zeta.
    change (get "currency" _) with (JsString c). change (get "issuer" _) with (JsString i). change (get "value" _) with (JsString v).
    rewrite Hx, Hc, Hi, E. reflexivity.
Qed.
End AmountLemmas.

(** ** Tokens name one asset *)

Lemma alnum_no_mark c (x : ascii) : Forall (λ c, is_alnum c = true) (chars c) → is_alnum x = false → x ∉ chars c.
Proof. intros Hf Hx Hin. rewrite Forall_forall in Hf. apply Hf in Hin. congruence. Qed.
Lemma tradeAssetsEqual_iff a b : tradeAssetsEqual a b = true ↔ a = b.
Proof.
  destruct a as [|c i], b as [|c' i']; cbn [tradeAssetsEqual]; try (split; [done|discriminate]); [done|].
  rewrite andb_true_iff, !str_eqb_eq. naive_solver.
Qed.
Lemma tradeAssetToken_inj `{LedgerHash} a b : canonical_asset a → canonical_asset b → tradeAssetToken a = tradeAssetToken b → a = b.
Proof.
  assert (∀ c i : string, Forall (λ c, is_alnum c = true) (chars c) → "XRP"%string ≠ c +:+ "." +:+ i) as Hx.
  { intros c i Hc E. apply (f_equal chars) in E. rewrite !chars_app in E. assert ("."%char ∈ chars "XRP") as Hin by (rewrite E; set_solver). set_unfold in Hin. naive_solver. }
  destruct a as [|c i], b as [|c' i']; cbn [tradeAssetToken canonical_asset]; [done| | |].
  - intros _ [(_&_&Hc&_)%currency_canonical _] E. by apply Hx in E.
  - intros [(_&_&Hc&_)%currency_canonical _] _ E. by apply eq_sym, Hx in E.
  - intros [(_&_&Hc&_)%currency_canonical _] [(_&_&Hc'&_)%currency_canonical _] E. apply delimited_text in E as [-> ->]; [done|by apply alnum_no_mark..].
Qed.

(** ** One address per account

    Numbers in a positional system without leading zeros are written one way. *)

Definition positional (b : Z) (l : list Z) : Z := foldl (λ a d, a * b + d) 0 l.
Lemma positional_snoc b l d : positional b (l ++ [d]) = positional b l * b + d.
Proof. unfold positional. by rewrite foldl_snoc. Qed.
Lemma positional_nonneg b l : 1 < b → Forall (λ d, 0 ≤ d < b) l → 0 ≤ positional b l.
Proof.
  intros Hb. induction l as [|d l IH] using rev_ind; [done|]. rewrite Forall_app, Forall_singleton, positional_snoc. intros [Hl Hd]. specialize (IH Hl). nia.
Qed.
Lemma positional_pos b l : 1 < b → Forall (λ d, 0 ≤ d < b) l → head l ≠ Some 0 → l ≠ [] → 0 < positional b l.
Proof.
  intros Hb. induction l as [|d l IH] using rev_ind; [done|]. rewrite Forall_app, Forall_singleton, positional_snoc. intros [Hl Hd] Hh _.
  destruct l as [|x l]; [cbn in *; assert (d ≠ 0) by congruence; lia|]. pose proof (IH Hl Hh ltac:(done)). nia.
Qed.
Lemma positional_inj b l k : 1 < b → Forall (λ d, 0 ≤ d < b) l → Forall (λ d, 0 ≤ d < b) k → head l ≠ Some 0 → head k ≠ Some 0 →
  positional b l = positional b k → l = k.
Proof.
  intros Hb. revert k. induction l as [|d l IH] using rev_ind; intros k Hl Hk Hhl Hhk E.
  - destruct (decide (k = [])) as [->|Hne]; [done|]. pose proof (positional_pos b k Hb Hk Hhk Hne). cbn in E. lia.
  - destruct k as [|d' k _] using rev_ind; [pose proof (positional_pos b (l ++ [d]) Hb Hl Hhl ltac:(by destruct l)); cbn in E; lia|].
    rewrite !positional_snoc in E. apply Forall_app in Hl as [Hl Hd%Forall_inv]. apply Forall_app in Hk as [Hk Hd'%Forall_inv].
    cbv beta in Hd, Hd'. assert (positional b l = positional b k) as E1 by (apply (f_equal (λ x, x / b)) in E; rewrite !Z.div_add_l, (Z.div_small d b), (Z.div_small d' b), !Z.add_0_r in E by lia; done).
    rewrite E1 in E. assert (d = d') as -> by lia. f_equal.
    apply IH; [done..| | |done]; [by destruct l|by destruct k].
Qed.

Lemma BASE58_INDEX_spec c d : BASE58_INDEX c = Some d → 0 ≤ d < 58 ∧ BASE58_ALPHABET !! Z.to_nat d = Some c.
Proof.
  unfold BASE58_INDEX. intros ([i x]&E&->)%fmap_Some. apply list_find_Some in E as (Hi&->&_). cbn [fst]. rewrite Nat2Z.id. split; [|done].
  apply lookup_lt_Some in Hi. change (length BASE58_ALPHABET) with 58%nat in Hi. lia.
Qed.

(** The digits of a text, and what the loop makes of them. *)
Lemma base58_read_spec l v z counting n m : base58_read l v z counting = Some (n, m) → ∃ ds, mapM BASE58_INDEX l = Some ds ∧ Forall (λ d, 0 ≤ d < 58) ds ∧ n = foldl (λ a d, a * 58 + d) v ds ∧
  (if counting then ∃ k rest, ds = replicate k 0 ++ rest ∧ head rest ≠ Some 0 ∧ m = (z + k)%nat else m = z).
Proof.
  revert v z counting. induction l as [|c l IH]; intros v z counting; cbn [base58_read].
  { intros [= <- <-]. exists []. split; [done|]. split; [constructor|]. split; [done|]. destruct counting; [|done]. exists O, []. split; [done|]. split; [done|lia]. }
  destruct (BASE58_INDEX c) as [d|] eqn:Ed; [|done]. pose proof (BASE58_INDEX_spec c d Ed) as [Hd _]. intros E.
  destruct (counting && (d =? 0)) eqn:Eb.
  - apply andb_true_iff in Eb as [-> ->%Z.eqb_eq]. apply IH in E as (ds&Hm&Hf&Hn&k&rest&->&Hh&->). exists (0 :: replicate k 0 ++ rest).
    cbn [mapM]. rewrite Ed. cbn [mbind option_bind]. rewrite Hm. cbn. split; [done|]. split; [constructor; [lia|done]|]. split; [done|]. exists (S k), rest. split; [done|]. split; [done|lia].
  - apply IH in E as (ds&Hm&Hf&Hn&->). exists (d :: ds). cbn [mapM]. rewrite Ed. cbn [mbind option_bind]. rewrite Hm. cbn. split; [done|]. split; [by constructor|]. split; [done|].
    destruct counting; [|done]. apply Z.eqb_neq in Eb. exists O, (d :: ds). split; [done|]. split; [cbn; congruence|lia].
Qed.

Lemma base256_body_spec fuel v acc : 0 ≤ v < 2 ^ Z.of_nat fuel → ∃ b, base256_body fuel v acc = b ++ acc ∧ positional 256 b = v ∧ Forall (λ d, 0 ≤ d < 256) b ∧ head b ≠ Some 0.
Proof.
  revert v acc. induction fuel as [|fuel IH]; intros v acc Hv; cbn [base256_body].
  { change (2 ^ Z.of_nat 0) with 1 in Hv. exists []. split; [done|]. split; [cbn; lia|]. split; [constructor|done]. }
  destruct (Z.ltb_spec 0 v) as [L|L]; [|exists []; split; [done|]; split; [cbn; lia|]; split; [constructor|done]].
  rewrite Z.quot_div_nonneg, Z.rem_mod_nonneg by lia. assert (0 ≤ v / 256 < 2 ^ Z.of_nat fuel) as Hq.
  { split; [apply Z.div_pos; lia|]. apply Z.div_lt_upper_bound; [lia|]. rewrite Nat2Z.inj_succ, Z.pow_succ_r in Hv by lia. pose proof (Z.pow_pos_nonneg 2 (Z.of_nat fuel)). lia. }
  destruct (IH (v / 256) (v mod 256 :: acc) Hq) as (b&E&Hp&Hf&Hh). pose proof (Z.mod_pos_bound v 256 ltac:(lia)) as Hm.
  exists (b ++ [v mod 256]). rewrite E, <-app_assoc. split; [done|]. split; [rewrite positional_snoc, Hp; pose proof (Z.div_mod v 256); lia|].
  split; [apply Forall_app; by split; [|constructor]|]. destruct b as [|x b]; [|done]. cbn in Hp |- *. intros [= E0]. pose proof (Z.div_mod v 256). lia.
Qed.

Lemma leading_zeros_unique (a b : nat) (x y : list Z) : head x ≠ Some 0 → head y ≠ Some 0 → replicate a 0 ++ x = replicate b 0 ++ y → a = b ∧ x = y.
Proof.
  intros Hx Hy. revert b. induction a as [|a IH]; intros [|b] E; cbn in E; [done| | |].
  - subst x. done.
  - subst y. done.
  - injection E as E. destruct (IH b E) as [-> ->]. done.
Qed.
Lemma base58_digits_inj l k ds : mapM BASE58_INDEX l = Some ds → mapM BASE58_INDEX k = Some ds → l = k.
Proof.
  intros Hl%mapM_Some Hk%mapM_Some. revert k Hk. induction Hl as [|c d l ds Hc Hl IH]; intros k Hk; inversion Hk as [|c' ? k' ? Hc' Hk']; subst; [done|].
  f_equal; [|by apply IH]. apply BASE58_INDEX_spec in Hc as [_ Hc]. apply BASE58_INDEX_spec in Hc' as [_ Hc']. congruence.
Qed.
Lemma positional_zeros b k l : positional b (replicate k 0 ++ l) = positional b l.
Proof. unfold positional. rewrite foldl_app. f_equal. induction k as [|k IH]; [done|]. cbn. exact IH. Qed.

(** A base58 text is determined by the bytes it encodes. *)
Lemma decodeBase58_inj l k bytes : decodeBase58 l = Some bytes → decodeBase58 k = Some bytes → l = k.
Proof.
  assert (∀ l, decodeBase58 l = Some bytes → ∃ ds z rest body, mapM BASE58_INDEX l = Some ds ∧ ds = replicate z 0 ++ rest ∧ Forall (λ d, 0 ≤ d < 58) rest ∧ head rest ≠ Some 0 ∧
    bytes = replicate z 0 ++ body ∧ head body ≠ Some 0 ∧ positional 256 body = positional 58 rest) as Hinv.
  { clear. intros l. unfold decodeBase58. destruct (base58_read l 0 0 true) as [[n m]|] eqn:E; [|done].
    apply base58_read_spec in E as (ds&Hm&Hf&Hn&z&rest&->&Hh&->). apply Forall_app in Hf as [_ Hf]. change (foldl _ _ _) with (positional 58 (replicate z 0 ++ rest)) in Hn.
    rewrite positional_zeros in Hn. pose proof (positional_nonneg 58 rest ltac:(lia) Hf) as Hpos. rewrite <-Hn in Hpos.
    destruct (base256_body_spec (S (Z.to_nat (Z.log2 n))) n []) as (b&Eb&Hp&_&Hhb).
    { split; [done|]. rewrite Nat2Z.inj_succ, Z2Nat.id by apply Z.log2_nonneg. destruct (Z.eq_dec n 0) as [->|]; [done|]. apply Z.log2_spec. lia. }
    cbv zeta. rewrite Eb, app_nil_r. cbn [Nat.add]. destruct (negb _); [done|]. intros [= <-]. exists (replicate z 0 ++ rest), z, rest, b. split_and!; [done|done|done|done|done|done|lia]. }
  intros (ds&z&rest&body&Hm&->&Hf&Hh&->&Hb&Hp)%Hinv (ds'&z'&rest'&body'&Hm'&->&Hf'&Hh'&E&Hb'&Hp')%Hinv.
  apply leading_zeros_unique in E as [<- <-]; [|done..]. assert (rest = rest') as <- by (apply (positional_inj 58); [lia|done..|lia]). by eapply base58_digits_inj.
Qed.

Section AddressLemmas.
Context `{LedgerHash}.

Lemma valid_address s : isTradeAccountAddress s = true → ∃ bytes, decodeBase58 (chars s) = Some bytes ∧ length bytes = 25%nat ∧ bytes !! 0%nat = Some 0 ∧
  ∀ index, (index < 4)%nat → ledger_sha256 (ledger_sha256 (take 21 bytes)) !! index = bytes !! (21 + index)%nat.
Proof.
  unfold isTradeAccountAddress. intros Hv%bool_decide_eq_true. cbn [checkTradeAccountAddress] in Hv. destruct (_ || _); [done|].
  destruct (decodeBase58 (chars s)) as [bytes|] eqn:Ed; [|done]. exists bytes. split; [done|]. split.
  { unfold decodeBase58 in Ed. destruct (base58_read _ _ _ _) as [[n m]|]; [|done]. cbv zeta in Ed. destruct (Nat.eqb_spec (m + length (base256_body (S (Z.to_nat (Z.log2 n))) n [])) ACCOUNT_ADDRESS_BYTES) as [El|]; [|done].
    cbn [negb] in Ed. injection Ed as <-. by rewrite length_app, length_replicate. }
  destruct (bool_decide (bytes !! 0%nat = Some 0)) eqn:E0; [|done]. apply bool_decide_eq_true in E0. split; [done|]. cbn [negb] in Hv. cbv zeta in Hv.
  destruct (forallb _ (seq 0 4)) eqn:Ef; [|done]. intros index Hi. rewrite forallb_forall in Ef. specialize (Ef index). apply bool_decide_eq_true in Ef; [done|]. apply in_seq. lia.
Qed.

Lemma address_chars s : isTradeAccountAddress s = true → Forall (λ c, is_alnum c = true) (chars s) ∧ 25 ≤ js_length s ≤ 35.
Proof.
  intros Hs. destruct (valid_address s Hs) as (b&Eb&_). split.
  - unfold decodeBase58 in Eb. destruct (base58_read _ _ _ _) as [[n m]|] eqn:Er; [|done]. apply base58_read_spec in Er as (ds&Hm%mapM_Some&_).
    apply Forall_forall. intros c (i&Hi)%list_elem_of_lookup. eapply Forall2_lookup_l in Hm as (d&_&Hd); [|exact Hi]. apply BASE58_INDEX_spec in Hd as [_ Hd].
    assert (Forall (λ c, is_alnum c = true) BASE58_ALPHABET) as Ha by (apply (bool_decide_unpack _); vm_compute; done). rewrite Forall_lookup in Ha. by eapply Ha.
  - unfold isTradeAccountAddress in Hs. apply bool_decide_eq_true in Hs. cbn [checkTradeAccountAddress] in Hs. unfold ACCOUNT_ADDRESS_MINIMUM_LENGTH, ACCOUNT_ADDRESS_MAXIMUM_LENGTH in Hs.
    destruct (Nat.ltb_spec (length (chars s)) 25) as [L|L]; [done|]. destruct (Nat.ltb_spec 35 (length (chars s))) as [L'|L']; [done|]. unfold js_length. lia.
Qed.

(** One spelling per account: the account a valid address encodes determines
    the address, so no two addresses the grammar accepts name one account. *)
Theorem account_address_unique s t id : tradeAccountIdOf s = Some id → tradeAccountIdOf t = Some id → s = t.
Proof.
  unfold tradeAccountIdOf. destruct (isTradeAccountAddress s) eqn:Hs; [|done]. destruct (isTradeAccountAddress t) eqn:Ht; [|done]. cbn [negb].
  destruct (valid_address s Hs) as (b&Eb&Lb&Zb&Cb). destruct (valid_address t Ht) as (c&Ec&Lc&Zc&Cc). rewrite Eb, Ec. intros [= Eid] [= Eid']. apply chars_inj.
  eapply decodeBase58_inj; [exact Eb|]. rewrite Ec. f_equal. symmetry.
  assert (take 21 b = take 21 c) as E21.
  { destruct b as [|x b]; [done|]. destruct c as [|y c]; [done|]. change (take 20 b = id) in Eid. change (take 20 c = id) in Eid'. injection Zb as ->. injection Zc as ->.
    change (0 :: take 20 b = 0 :: take 20 c). congruence. }
  apply list_eq_same_length with 25%nat; [done|done|]. intros i x y Hi Hx Hy. destruct (decide (i < 21)%nat) as [L|L].
  - rewrite <-(lookup_take_lt _ 21) in Hx by done. rewrite E21, lookup_take_lt in Hx by done. congruence.
  - specialize (Cb (i - 21)%nat ltac:(lia)). specialize (Cc (i - 21)%nat ltac:(lia)). replace (21 + (i - 21))%nat with i in Cb, Cc by lia. rewrite E21 in Cb. congruence.
Qed.
End AddressLemmas.

(** ** Sample accounts, under a hash that is constantly zero *)

Module TradeDemo.
#[export] Instance zero_hash : LedgerHash := {| ledger_sha256 := λ _, replicate 32 0; ledger_sha512 := λ l, replicate 64 (foldl Z.add 0 l mod 256) |}.
Definition owner : string := "reBMeTF5BaVsJQLTv2Ksu9hhWwVPFanBu".
Definition delegate : string := "rpHLWGMpar9Vkdkf1wSUW4d6pKbTAEnprV".
Definition issuer : string := "rpvVetNDTqUWTynuGQJnxi3Kz9pS7gsxqn".
Lemma accounts_valid : isTradeAccountAddress owner = true ∧ isTradeAccountAddress delegate = true ∧ isTradeAccountAddress issuer = true.
Proof. vm_compute. done. Qed.
Lemma account_address_unique_witness : owner = owner.
Proof. apply (account_address_unique owner owner (seq 7 20 ≫= λ n, [Z.of_nat n])); vm_compute; reflexivity. Defined.
Example amount_ex : parseTradeAmount (JsObject true [("currency", JsString "USD"); ("issuer", JsString issuer); ("value", JsString "10.50")]) "takerGets" = Ok (IssuedAmount "USD" issuer "10.5").
Proof. vm_compute. reflexivity. Qed.
End TradeDemo.
