(* ===== verification/TradeProposal.v ===== *)
(** * Trading proposals

    Model of trade-runtime/domain: the canonical serialization and digest of a
    proposal (trade-canonical.ts), its validation with derived terms
    (trade-proposal.ts) and its compilation to a governed action
    (trade-governance.ts). Untrusted data is a [JsValue], a tree: two properties
    never hold one object, and arrays have no holes or extra properties. *)

From Stdlib Require Import QArith.
From S2P Require Import Prelude Decimal Js JsMap StableJson HashChain Monetary Parameters AdapterPort RailAmounts TradeDomain.

Local Open Scope Z_scope.
Local Open Scope frontera_scope.

(** ** Canonical serialization *)

Fixpoint canonicalJson (value : JsValue) : result RangeErr string :=
  match value with
  | JsString s => Ok (json_string s)
  | JsBool b => Ok (if b then "true" else "false")
  | JsNum n => if negb (isSafeInteger n) || bool_decide (n = JNegZero) then Throw RangeErr_ else Ok (json_number n)
  | JsArray l => let* parts := results (canonicalJson <$> l) in Ok ("[" +:+ join "," parts +:+ "]")
  | JsObject _ properties =>
      let* parts := results ((λ p, let* t := p.2 in Ok (json_string p.1 +:+ ":" +:+ t)) <$> sort_entries (prod_map id canonicalJson <$> properties)) in
      Ok ("{" +:+ join "," parts +:+ "}")
  | _ => Throw RangeErr_
  end.
Definition canonicalTradeJson : JsValue → result RangeErr string := canonicalJson.

Definition NEWLINE : string := text [ascii_of_N 10].

(** [/^sha256:[0-9a-f]{64}$/] *)
Definition DIGEST (s : string) : bool := bool_decide (take 7 (chars s) = chars "sha256:") && (length (drop 7 (chars s)) =? 64)%nat && forallb is_hex (drop 7 (chars s)).
Definition isTradeProposalDigest (v : JsValue) : bool := match v with JsString s => DIGEST s | _ => false end.

(** ** Proposals *)

Definition TRADE_PROPOSAL_SCHEMA : string := "frontera.trade-proposal.v1".
Definition TRADE_REQUIRED_PERMISSION : string := "OfferCreate".
Definition TRADE_MAXIMUM_VALIDITY_SECONDS : Z := 3600.
Definition TRADE_MAXIMUM_EXPIRATION : Z := 4294967295.

Inductive TradeOfferFlag := passive | immediate_or_cancel | fill_or_kill | sell_flag.
Global Instance TradeOfferFlag_eq_dec : EqDecision TradeOfferFlag.
Proof. solve_decision. Defined.
Definition flag_name (f : TradeOfferFlag) : string :=
  match f with passive => "passive" | immediate_or_cancel => "immediate-or-cancel" | fill_or_kill => "fill-or-kill" | sell_flag => "sell" end.
Definition TRADE_OFFER_FLAGS (f : TradeOfferFlag) : Z :=
  match f with passive => 65536 | immediate_or_cancel => 131072 | fill_or_kill => 262144 | sell_flag => 524288 end.
Definition flag_of (name : string) : option TradeOfferFlag := List.find (λ f, str_eqb (flag_name f) name) [passive; immediate_or_cancel; fill_or_kill; sell_flag].

Inductive TradeSide := buy | sell.
Global Instance TradeSide_eq_dec : EqDecision TradeSide.
Proof. solve_decision. Defined.
Definition side_name (s : TradeSide) : string := match s with buy => "buy" | sell => "sell" end.

Record TradeProposal := {
  organizationId : string;
  principalId : string;
  requestId : string;
  idempotencyKey : string;
  network : TradeNetwork;
  ownerAccount : string;
  delegateAccount : string;
  takerGets : TradeAmount;
  takerPays : TradeAmount;
  flags : list TradeOfferFlag;
  expiration : option Z;
  requestedValiditySeconds : Z;
  referenceContextId : option string;
  policyContextRef : option string;
}.

Record TradeOrderTerms := {
  base : TradeAsset;
  quote : TradeAsset;
  side : TradeSide;
  quantity : string;
  counterQuantity : string;
  limitPrice : TradePrice;
  flagsValue : Z;
}.

Record AcceptedTradeProposal := { proposal : TradeProposal; terms : TradeOrderTerms; digest : string }.

(** The object a proposal is; an absent optional field is no property. *)
Definition amount_json (a : TradeAmount) : Json :=
  match a with
  | XrpAmount d => JObj [("currency", JTxt "XRP"); ("drops", JTxt d)]
  | IssuedAmount c i v => JObj [("currency", JTxt c); ("issuer", JTxt i); ("value", JTxt v)]
  end.
Definition optional {A} (key : string) (f : A → Json) (o : option A) : list (string * Json) := match o with Some a => [(key, f a)] | None => [] end.
Definition proposal_json (p : TradeProposal) : Json :=
  JObj ([("schema", JTxt TRADE_PROPOSAL_SCHEMA); ("organizationId", JTxt (organizationId p)); ("principalId", JTxt (principalId p));
         ("requestId", JTxt (requestId p)); ("idempotencyKey", JTxt (idempotencyKey p)); ("network", JTxt (network_name (network p)));
         ("ownerAccount", JTxt (ownerAccount p)); ("delegateAccount", JTxt (delegateAccount p)); ("permission", JTxt TRADE_REQUIRED_PERMISSION);
         ("takerGets", amount_json (takerGets p)); ("takerPays", amount_json (takerPays p)); ("flags", JArr (JTxt ∘ flag_name <$> flags p))] ++
        optional "expiration" JNo (expiration p) ++ [("requestedValiditySeconds", JNo (requestedValiditySeconds p))] ++
        optional "referenceContextId" JTxt (referenceContextId p) ++ optional "policyContextRef" JTxt (policyContextRef p)).
Definition proposal_object (p : TradeProposal) : JsValue := js_of (proposal_json p).

Definition TRADE_PROPOSAL_DIGEST_DOMAIN : string := "frontera.trade-proposal-digest.v1".
Definition serializeTradeProposal (p : TradeProposal) : result RangeErr string := canonicalJson (proposal_object p).
Definition tradeProposalDigest `{JsHost} (p : TradeProposal) : result RangeErr string :=
  let* t := serializeTradeProposal p in Ok ("sha256:" +:+ sha256_hex (TRADE_PROPOSAL_DIGEST_DOMAIN +:+ NEWLINE +:+ t)).

(** ** Violations *)

Inductive TradeProposalViolationCode :=
  | amount_violation (v : TradeAmountViolation)
  | record_refusal (r : TradeRecordRefusal)
  | UNDECLARED_PROPERTY | EXECUTION_FIELD_REFUSED | TRUSTED_FACT_CLAIM_REFUSED | SECRET_PROPERTY_REFUSED | MISSING_FIELD | SCHEMA_UNSUPPORTED
  | IDENTIFIER_MALFORMED | NETWORK_UNSUPPORTED | ACCOUNT_MALFORMED | ACCOUNT_RESERVED | OWNER_IS_DELEGATE | PERMISSION_UNSUPPORTED | XRP_FOR_XRP | SAME_ASSET
  | PAIR_ASSERTION_MALFORMED | PAIR_CONTRADICTS_AMOUNTS | SIDE_MALFORMED | SIDE_CONTRADICTS_AMOUNTS | PRICE_MALFORMED | PRICE_CONTRADICTS_AMOUNTS
  | FLAGS_MALFORMED | FLAG_UNSUPPORTED | FLAG_DUPLICATED | FLAGS_CONFLICT | EXPIRATION_MALFORMED | VALIDITY_OUT_OF_RANGE | REFERENCE_MALFORMED.
Definition TradeProposalViolation : Type := TradeProposalViolationCode * string.

Inductive TradeProposalValidation :=
  | proposal_valid (accepted : AcceptedTradeProposal)
  | proposal_refused (violations : list TradeProposalViolation).

Definition REQUIRED_FIELDS : list string :=
  ["schema"; "organizationId"; "principalId"; "requestId"; "idempotencyKey"; "network"; "ownerAccount"; "delegateAccount"; "permission"; "takerGets"; "takerPays"; "requestedValiditySeconds"].
Definition OPTIONAL_FIELDS : list string := ["pair"; "side"; "limitPrice"; "flags"; "expiration"; "referenceContextId"; "policyContextRef"].
Definition DECLARED (key : string) : bool := bool_decide (key ∈ REQUIRED_FIELDS ++ OPTIONAL_FIELDS).

Definition EXECUTION_FIELDS : list string :=
  toLowerCase <$> ["TransactionType"; "Account"; "Delegate"; "Fee"; "Sequence"; "TicketSequence"; "LastLedgerSequence"; "SigningPubKey"; "TxnSignature"; "Signers"; "Memos"; "Flags";
    "OfferSequence"; "DomainID"; "NetworkID"; "SourceTag"; "AccountTxnID"; "Expiration"; "TakerGets"; "TakerPays"; "tx_json"; "tx_blob"; "txJson"; "txBlob"; "transaction";
    "rawTransaction"; "signedTransaction"; "signature"; "hash"].
Definition TRUSTED_FACT_CLAIM : list Regex :=
  rlit_i <$> ["price"; "exposure"; "activeorders"; "openorders"; "delegation"; "verified"; "attest"; "oracle"; "approved"; "approval"; "decision"; "grant"; "trusted"; "riskscore"; "balance"; "reserve"; "ceiling"; "limit"].
Definition TRADE_PROPOSAL_MAXIMUM_PROPERTIES : nat := 32.

Definition classifyUndeclared (name : string) : TradeProposalViolationCode :=
  if isSecretShapedPropertyName name then SECRET_PROPERTY_REFUSED
  else if bool_decide (toLowerCase name ∈ EXECUTION_FIELDS) then EXECUTION_FIELD_REFUSED
  else if existsb (λ r, regex_test r name) TRUSTED_FACT_CLAIM then TRUSTED_FACT_CLAIM_REFUSED
  else UNDECLARED_PROPERTY.

(** ** Fields *)

Definition isSafeIntegerIn (v : JsValue) (minimum maximum : Z) : bool :=
  match v with JsNum n => isSafeInteger n && negb (bool_decide (n = JNegZero)) && (minimum <=? integer_value n) && (integer_value n <=? maximum) | _ => false end.

Definition canonicalTradePair (left right : TradeAsset) : TradeAsset * TradeAsset :=
  match left, right with
  | xrp, _ => (right, left)
  | _, xrp => (left, right)
  | _, _ => if str_ltb (tradeAssetToken left) (tradeAssetToken right) then (left, right) else (right, left)
  end.

(** [left === right] on data that is no object. *)
Definition strict_equals (left right : JsValue) : bool :=
  match left, right with
  | JsUndefined, JsUndefined | JsNull, JsNull => true
  | JsBool a, JsBool b => Bool.eqb a b
  | JsNum a, JsNum b => number_strict_equals a b
  | JsString a, JsString b => str_eqb a b
  | _, _ => false
  end.

Definition flag_field (index : nat) : string := "flags[" +:+ text (bigint_to_string (Z.of_nat index)) +:+ "]".
Fixpoint read_flags (l : list JsValue) (index : nat) (seen : list TradeOfferFlag) : result TradeProposalViolation (list TradeOfferFlag) :=
  match l with
  | [] => Ok seen
  | v :: l =>
      match (match v with JsString name => flag_of name | _ => None end) with
      | None => Throw (FLAG_UNSUPPORTED, flag_field index)
      | Some f => if bool_decide (f ∈ seen) then Throw (FLAG_DUPLICATED, flag_field index) else read_flags l (S index) (seen ++ [f])
      end
  end.
Definition flag_le (f g : TradeOfferFlag) : Prop := TRADE_OFFER_FLAGS f ≤ TRADE_OFFER_FLAGS g.
Global Instance flag_le_dec : RelDecision flag_le.
Proof. intros f g. unfold flag_le. apply _. Defined.
Definition parseFlags (raw : JsValue) : result TradeProposalViolation (list TradeOfferFlag) :=
  match raw with
  | JsUndefined => Ok []
  | JsArray l =>
      if (4 <? length l)%nat then Throw (FLAGS_MALFORMED, "flags")
      else
        let* seen := read_flags l 0 [] in
        if bool_decide (immediate_or_cancel ∈ seen) && bool_decide (fill_or_kill ∈ seen) then Throw (FLAGS_CONFLICT, "flags")
        else Ok (merge_sort flag_le seen)
  | _ => Throw (FLAGS_MALFORMED, "flags")
  end.

Definition undeclared_violations (entries : list (string * JsValue)) : list TradeProposalViolation :=
  ((λ key, (classifyUndeclared key, reportablePropertyName key)) <$> List.filter (λ key, negb (DECLARED key)) entries.*1) ++
  ((λ field, (MISSING_FIELD, field)) <$> List.filter (λ field, negb (has field entries)) REQUIRED_FIELDS).

(** A violation unless the condition holds. *)
Definition unless (ok : bool) (code : TradeProposalViolationCode) (field : string) : list TradeProposalViolation := if ok then [] else [(code, field)].
Definition violation_of {A} (r : result TradeProposalViolation A) : list TradeProposalViolation := match r with Ok _ => [] | Throw v => [v] end.
Definition amount_result {A} (r : result (TradeAmountViolation * string) A) : result TradeProposalViolation A :=
  match r with Ok a => Ok a | Throw (v, field) => Throw (amount_violation v, field) end.
Definition as_text (v : JsValue) : string := match v with JsString s => s | _ => "" end.
Definition as_number (v : JsValue) : Z := match v with JsNum n => integer_value n | _ => 0 end.
(** [value !== undefined ? f(value) : absent] *)
Definition defined {A} (f : JsValue → A) (v : JsValue) : option A := match v with JsUndefined => None | v => Some (f v) end.

(** ** Validation *)

Section Validation.
Context `{LedgerHash} `{JsHost}.

Definition account_violations (entries : list (string * JsValue)) (field : string) : list TradeProposalViolation :=
  match checkTradeAccountAddress (get field entries) with
  | account_reserved => [(ACCOUNT_RESERVED, field)]
  | account_valid => []
  | account_malformed => [(ACCOUNT_MALFORMED, field)]
  end.
Definition field_violations (entries : list (string * JsValue)) : list TradeProposalViolation :=
  unless (is_text TRADE_PROPOSAL_SCHEMA (get "schema" entries)) SCHEMA_UNSUPPORTED "schema" ++
  (["organizationId"; "principalId"; "requestId"; "idempotencyKey"] ≫= λ field, unless (is_some (text_of isTradeIdentifier (get field entries))) IDENTIFIER_MALFORMED field) ++
  unless (is_some (isTradeNetwork (get "network" entries))) NETWORK_UNSUPPORTED "network" ++
  (["ownerAccount"; "delegateAccount"] ≫= account_violations entries) ++
  unless (negb (strict_equals (get "ownerAccount" entries) (get "delegateAccount" entries))) OWNER_IS_DELEGATE "delegateAccount" ++
  unless (is_text TRADE_REQUIRED_PERMISSION (get "permission" entries)) PERMISSION_UNSUPPORTED "permission" ++
  violation_of (amount_result (parseTradeAmount (get "takerGets" entries) "takerGets")) ++
  violation_of (amount_result (parseTradeAmount (get "takerPays" entries) "takerPays")) ++
  violation_of (parseFlags (get "flags" entries)) ++
  unless (default true (defined (λ v, isSafeIntegerIn v 1 TRADE_MAXIMUM_EXPIRATION) (get "expiration" entries))) EXPIRATION_MALFORMED "expiration" ++
  unless (isSafeIntegerIn (get "requestedValiditySeconds" entries) 1 TRADE_MAXIMUM_VALIDITY_SECONDS) VALIDITY_OUT_OF_RANGE "requestedValiditySeconds" ++
  (["referenceContextId"; "policyContextRef"] ≫= λ field, unless (default true (defined (λ v, is_some (text_of isTradeReference v)) (get field entries))) REFERENCE_MALFORMED field).

Definition asset_violations (given received : TradeAsset) : list TradeProposalViolation :=
  match given, received with
  | xrp, xrp => [(XRP_FOR_XRP, "takerPays")]
  | _, _ => unless (negb (tradeAssetsEqual given received)) SAME_ASSET "takerPays"
  end.

Definition parseAssetAssertion (raw : JsValue) : option TradeAsset :=
  match snapshotTradeRecord raw 4 with
  | Throw _ => None
  | Ok entries =>
      if is_text "XRP" (get "currency" entries) then (if (length entries =? 1)%nat then Some xrp else None)
      else
        match parseTradeAmount (JsObject true [("currency", get "currency" entries); ("issuer", get "issuer" entries); ("value", JsString "1")]) "pair" with
        | Ok amount => if negb (length entries =? 2)%nat then None else Some (tradeAssetOf amount)
        | Throw _ => None
        end
  end.

Definition pair_violations (v : JsValue) (base quote : TradeAsset) : list TradeProposalViolation :=
  match v with
  | JsUndefined => []
  | _ =>
      let part key :=
        match snapshotTradeRecord v 4 with
        | Ok parts => if (length parts =? 2)%nat then parseAssetAssertion (get key parts) else None
        | Throw _ => None
        end in
      match part "base", part "quote" with
      | Some assertedBase, Some assertedQuote => unless (tradeAssetsEqual assertedBase base && tradeAssetsEqual assertedQuote quote) PAIR_CONTRADICTS_AMOUNTS "pair"
      | _, _ => [(PAIR_ASSERTION_MALFORMED, "pair")]
      end
  end.
Definition side_violations (v : JsValue) (side : TradeSide) : list TradeProposalViolation :=
  match v with
  | JsUndefined => []
  | _ => if negb (is_text "buy" v) && negb (is_text "sell" v) then [(SIDE_MALFORMED, "side")] else unless (is_text (side_name side) v) SIDE_CONTRADICTS_AMOUNTS "side"
  end.
Definition price_violations (v : JsValue) (limitPrice : TradePrice) : list TradeProposalViolation :=
  match v with
  | JsUndefined => []
  | _ => match parseTradePriceAssertion v with
         | None => [(PRICE_MALFORMED, "limitPrice")]
         | Some asserted => unless (compareTradePrices asserted limitPrice =? 0) PRICE_CONTRADICTS_AMOUNTS "limitPrice"
         end
  end.

(** The proposal of entries that were checked. *)
Definition proposal_of (entries : list (string * JsValue)) (gets pays : TradeAmount) (flags : list TradeOfferFlag) : TradeProposal := {|
  organizationId := as_text (get "organizationId" entries);
  principalId := as_text (get "principalId" entries);
  requestId := as_text (get "requestId" entries);
  idempotencyKey := as_text (get "idempotencyKey" entries);
  network := default xrp_ledger_testnet (isTradeNetwork (get "network" entries));
  ownerAccount := as_text (get "ownerAccount" entries);
  delegateAccount := as_text (get "delegateAccount" entries);
  takerGets := gets;
  takerPays := pays;
  flags := flags;
  expiration := defined as_number (get "expiration" entries);
  requestedValiditySeconds := as_number (get "requestedValiditySeconds" entries);
  referenceContextId := defined as_text (get "referenceContextId" entries);
  policyContextRef := defined as_text (get "policyContextRef" entries);
|}.

(** The terms that two amounts of different assets imply. *)
Definition terms_of (gets pays : TradeAmount) (flags : list TradeOfferFlag) : result RangeErr TradeOrderTerms :=
  let '(base, quote) := canonicalTradePair (tradeAssetOf gets) (tradeAssetOf pays) in
  let side := if tradeAssetsEqual (tradeAssetOf gets) base then sell else buy in
  let baseAmount := match side with sell => gets | buy => pays end in
  let quoteAmount := match side with sell => pays | buy => gets end in
  let* limitPrice := tradePriceOf (tradeExactQuantity quoteAmount) (tradeExactQuantity baseAmount) in
  Ok {| base := base; quote := quote; side := side;
        quantity := formatTradeExactQuantity (tradeExactQuantity baseAmount);
        counterQuantity := formatTradeExactQuantity (tradeExactQuantity quoteAmount);
        limitPrice := limitPrice;
        flagsValue := foldl (λ sum flag, sum + TRADE_OFFER_FLAGS flag) 0 flags |}.

Definition validateTradeProposal (raw : JsValue) : result RangeErr TradeProposalValidation :=
  match snapshotTradeRecord raw TRADE_PROPOSAL_MAXIMUM_PROPERTIES with
  | Throw (refusal, property) =>
      Ok (proposal_refused [(record_refusal refusal, match property with Some p => reportablePropertyName p | None => "<proposal>" end)])
  | Ok entries =>
      match undeclared_violations entries with
      | _ :: _ => Ok (proposal_refused (undeclared_violations entries))
      | [] =>
          let violations := field_violations entries in
          match parseTradeAmount (get "takerGets" entries) "takerGets", parseTradeAmount (get "takerPays" entries) "takerPays" with
          | Ok gets, Ok pays =>
              let violations := violations ++ asset_violations (tradeAssetOf gets) (tradeAssetOf pays) in
              match violations, parseFlags (get "flags" entries) with
              | [], Ok flags =>
                  let* terms := terms_of gets pays flags in
                  let violations :=
                    pair_violations (get "pair" entries) (base terms) (quote terms) ++ side_violations (get "side" entries) (side terms) ++
                    price_violations (get "limitPrice" entries) (limitPrice terms) in
                  match violations with
                  | [] =>
                      let proposal := proposal_of entries gets pays flags in
                      let* digest := tradeProposalDigest proposal in
                      Ok (proposal_valid {| proposal := proposal; terms := terms; digest := digest |})
                  | _ => Ok (proposal_refused violations)
                  end
              | _, _ => Ok (proposal_refused violations)
              end
          | _, _ => Ok (proposal_refused violations)
          end
      end
  end.
End Validation.

Inductive TradeReplay := replay | conflict | distinct.
Definition classifyTradeProposalReplay (previous next : AcceptedTradeProposal) : TradeReplay :=
  let a := proposal previous in
  let b := proposal next in
  if negb (str_eqb (organizationId a) (organizationId b)) || negb (str_eqb (principalId a) (principalId b)) || negb (str_eqb (idempotencyKey a) (idempotencyKey b)) then distinct
  else if str_eqb (digest previous) (digest next) then replay else conflict.

(** ** Compilation to a governed action *)

Definition TRADE_PARAMETER_DIMENSION_IDS : list string :=
  ["tradeProposalDigest"; "tradeNetwork"; "tradeDelegateAccount"; "tradeBaseAsset"; "tradeQuoteAsset"; "tradeSide"; "tradeQuantity"].
Definition TRADE_PARAMETER_DIMENSIONS : list ParameterDimensionDeclaration :=
  (λ id, {| dimension_id := id; dimension_type := t_token; dimension_bound := k_exact |}) <$> TRADE_PARAMETER_DIMENSION_IDS.
Definition TRADE_PROFILE_PARAMETERS : list (string * bool) := (λ id, (id, true)) <$> TRADE_PARAMETER_DIMENSION_IDS.
Definition TRADE_RESERVED_CONTEXT_KEYS : list string :=
  ["referencePrice"; "marketPrice"; "oraclePrice"; "priceBand"; "exposure"; "openExposure"; "activeOrders"; "openOrders"; "delegation"; "delegationVerified"; "delegationProof";
   "ledgerPermission"; "tradeLimit"; "tradeTerms"].

Inductive TradeCompilationRefusal := ORGANIZATION_MISMATCH | PRINCIPAL_MISMATCH | IDENTITY_MALFORMED | ENVELOPE_OPTIONS_INVALID.
Inductive TradeGovernanceError :=
  | TradeConfigurationError
  | TradeProposalRefusedError (violations : list ((TradeProposalViolationCode + TradeCompilationRefusal) * string))
  | TradeRangeError.

Record TradeGovernanceBinding := { binding_action : string }.
Record TradeGovernedActionIntent := {
  intent_action : string;
  intent_resource : string;
  intent_value : string;
  intent_currency : string;
  intent_parameters : list (string * string);
  intent_idempotencyKey : string;
  intent_correlationId : string;
  intent_expectedGovernanceProfile : option (string * Z);
}.
Record TradeCompilation := { intent : TradeGovernedActionIntent; accepted : AcceptedTradeProposal }.

(** A property of what should be a plain record. *)
Definition record_property (key : string) (v : JsValue) : JsValue := match plain_record v with Some properties => get key properties | None => JsUndefined end.

Definition createTradeGovernanceBinding (configuration : JsValue) : result TradeGovernanceError TradeGovernanceBinding :=
  match text_of isTradeIdentifier (record_property "action" configuration) with
  | Some action => Ok {| binding_action := action |}
  | None => Throw TradeConfigurationError
  end.

Definition tradeResourceOf (a : AcceptedTradeProposal) : string := network_name (network (proposal a)) +:+ ":" +:+ ownerAccount (proposal a).

Definition read_pin (pin : JsValue) : option (string * Z) :=
  match plain_record pin with
  | Some properties =>
      if negb (length properties =? 2)%nat || negb (has "id" properties) || negb (has "version" properties) then None
      else
        match get "id" properties, get "version" properties with
        | JsString id, JsNum version => if negb (isSafeInteger version) || bool_decide (version = JNegZero) then None else Some (id, integer_value version)
        | _, _ => None
        end
  | None => None
  end.
(** [None] is [{ ok: false }]. *)
Definition readEnvelope (envelope : JsValue) : option (option (string * Z)) :=
  match envelope with
  | JsUndefined => Some None
  | _ =>
      match plain_record envelope with
      | None => None
      | Some [] => Some None
      | Some [(key, v)] => if negb (str_eqb key "expectedGovernanceProfile") then None else Some <$> read_pin v
      | Some _ => None
      end
  end.

Section Compilation.
Context `{LedgerHash} `{JsHost}.

Definition parameters_of (a : AcceptedTradeProposal) : list (string * string) :=
  [("tradeBaseAsset", tradeAssetToken (base (terms a))); ("tradeDelegateAccount", delegateAccount (proposal a)); ("tradeNetwork", network_name (network (proposal a)));
   ("tradeProposalDigest", digest a); ("tradeQuantity", quantity (terms a)); ("tradeQuoteAsset", tradeAssetToken (quote (terms a))); ("tradeSide", side_name (side (terms a)))].
Definition intent_of (action : string) (expected : option (string * Z)) (a : AcceptedTradeProposal) : TradeGovernedActionIntent := {|
  intent_action := action;
  intent_resource := tradeResourceOf a;
  intent_value := tradeDecimalQuantity (takerGets (proposal a));
  intent_currency := tradeMonetaryAssetId (network (proposal a)) (match side (terms a) with sell => base (terms a) | buy => quote (terms a) end);
  intent_parameters := parameters_of a;
  intent_idempotencyKey := idempotencyKey (proposal a);
  intent_correlationId := requestId (proposal a);
  intent_expectedGovernanceProfile := expected;
|}.

Definition compileTradeProposal (raw binding identity envelope : JsValue) : result TradeGovernanceError TradeCompilation :=
  match text_of isTradeIdentifier (record_property "action" binding) with
  | None => Throw TradeConfigurationError
  | Some action =>
      match text_of isTradeIdentifier (record_property "organizationId" identity), text_of isTradeIdentifier (record_property "principalId" identity) with
      | Some organization, Some principal =>
          match validateTradeProposal raw with
          | Throw _ => Throw TradeRangeError
          | Ok (proposal_refused violations) => Throw (TradeProposalRefusedError ((λ v, (inl v.1, v.2)) <$> violations))
          | Ok (proposal_valid a) =>
              let mismatches :=
                (if str_eqb (organizationId (proposal a)) organization then [] else [(inr ORGANIZATION_MISMATCH, "organizationId"%string)]) ++
                (if str_eqb (principalId (proposal a)) principal then [] else [(inr PRINCIPAL_MISMATCH, "principalId"%string)]) in
              match mismatches with
              | _ :: _ => Throw (TradeProposalRefusedError mismatches)
              | [] =>
                  match readEnvelope envelope with
                  | None => Throw (TradeProposalRefusedError [(inr ENVELOPE_OPTIONS_INVALID, "<envelope>"%string)])
                  | Some expected => Ok {| intent := intent_of action expected a; accepted := a |}
                  end
              end
          end
      | _, _ => Throw (TradeProposalRefusedError [(inr IDENTITY_MALFORMED, "<identity>"%string)])
      end
  end.
End Compilation.

(** ** What the canonical text determines *)

(** Data the serialization accepts: no absent or null parts, distinct keys and
    safe integers. *)
Fixpoint canonical_data (v : Json) : bool :=
  match v with
  | JUndef | JNul => false
  | JNo n => isSafeInteger (JInt n)
  | JArr l => forallb canonical_data l
  | JObj fs => bool_decide (NoDup fs.*1) && forallb (λ p, canonical_data p.2) fs
  | _ => true
  end.

Lemma canonical_solid v : canonical_data v = true → solid v = true.
Proof.
  induction v as [| | | | |l IH|fs IH] using Json_nested_ind; try done; cbn; rewrite ?andb_true_iff, !forallb_forall, Forall_forall in *.
  - intros Hc x Hx. apply IH; [by apply list_elem_of_In|auto].
  - intros [_ Hc] x Hx. apply IH; [by apply list_elem_of_In|auto].
Qed.
(** The serialization of plain data is that of the rest of the repository. *)
Lemma canonicalJson_stable v : canonical_data v = true → canonicalJson (js_of v) = Ok (stableStringify v).
Proof.
  intros Hc. rewrite stable_print by (by apply canonical_solid). revert Hc.
  induction v as [| | |n| |l IH|fs IH] using Json_nested_ind; intros Hc; try done; cbn [canonical_data] in Hc.
  - cbn [canonicalJson js_of]. rewrite Hc. cbn. done.
  - cbn [canonicalJson js_of sortValue print_json]. rewrite <-!list_fmap_compose.
    rewrite (results_Ok _ (print_json ∘ sortValue)); [done|]. rewrite forallb_forall in Hc. rewrite Forall_forall in IH |- *. intros x Hx. apply IH; [done|]. by apply Hc, list_elem_of_In.
  - apply andb_true_iff in Hc as [Hn%bool_decide_eq_true Hc]. cbn [canonicalJson js_of sortValue print_json].
    assert (prod_map id canonicalJson <$> (prod_map id js_of <$> fs) = prod_map id (λ v, Ok (print_json (sortValue v))) <$> fs) as ->.
    { rewrite <-list_fmap_compose. apply list_fmap_ext. intros i [k x] Hx%list_elem_of_lookup_2. cbn. f_equal. rewrite Forall_forall, forallb_forall in *.
      apply (IH (k, x) Hx), (Hc (k, x)). by apply list_elem_of_In. }
    rewrite !sort_entries_map by done. rewrite <-!list_fmap_compose.
    rewrite (results_Ok _ (λ p, json_string p.1 +:+ ":" +:+ print_json (sortValue p.2))); [done|]. by apply Forall_forall.
Qed.

Definition proposal_fields (p : TradeProposal) : list (string * Json) := match proposal_json p with JObj fs => fs | _ => [] end.
Lemma proposal_fields_json p : proposal_json p = JObj (proposal_fields p).
Proof. done. Qed.
Lemma proposal_keys p : NoDup (map_keys (proposal_fields p)).
Proof. destruct p as [??????????[] ? [] []]; apply (bool_decide_unpack _); vm_compute; done. Qed.
Lemma amount_keys a : ∃ fs, amount_json a = JObj fs ∧ NoDup (map_keys fs).
Proof. destruct a; eexists; (split; [done|]); apply (bool_decide_unpack _); vm_compute; done. Qed.

Lemma amount_json_inj a b : normal (amount_json a) = normal (amount_json b) → a = b.
Proof.
  assert (∀ c, NoDup (map_keys (match amount_json c with JObj fs => fs | _ => [] end))) as Hn by (intros c; by destruct (amount_keys c) as (?&->&?)).
  intros E. assert (∀ k, (normal <$> map_get k (match amount_json a with JObj fs => fs | _ => [] end)) ≫= found = (normal <$> map_get k (match amount_json b with JObj fs => fs | _ => [] end)) ≫= found) as F.
  { intros k. apply field_of_normal; [apply Hn|apply Hn|]. destruct (amount_keys a) as (?&Ea&_), (amount_keys b) as (?&Eb&_). rewrite Ea, Eb in *. done. }
  destruct a as [d|c i v], b as [d'|c' i' v'].
  - specialize (F "drops"). by injection F as ->.
  - specialize (F "drops"). done.
  - specialize (F "drops"). done.
  - pose proof (F "currency") as F1. pose proof (F "issuer") as F2. specialize (F "value"). by injection F as ->; injection F1 as ->; injection F2 as ->.
Qed.
#[export] Instance flag_name_inj : Inj (=) (=) flag_name.
Proof. by intros [] []. Qed.
Lemma network_name_inj n m : network_name n = network_name m → n = m.
Proof. by destruct n, m. Qed.
(** The text of a proposal determines it. *)
Lemma proposal_json_inj p q : normal (proposal_json p) = normal (proposal_json q) → p = q.
Proof.
  intros E. assert (∀ k, (normal <$> map_get k (proposal_fields p)) ≫= found = (normal <$> map_get k (proposal_fields q)) ≫= found) as F by (intros k; by apply field_of_normal, E; apply proposal_keys).
  clear E. assert (∀ x, map_get "requestedValiditySeconds" (proposal_fields x) = Some (JNo (requestedValiditySeconds x)) ∧ map_get "expiration" (proposal_fields x) = JNo <$> expiration x ∧
    map_get "referenceContextId" (proposal_fields x) = JTxt <$> referenceContextId x ∧ map_get "policyContextRef" (proposal_fields x) = JTxt <$> policyContextRef x) as G.
  { intros [??????????[] ? [] []]; split_and!; reflexivity. }
  destruct (G p) as (P1&P2&P3&P4), (G q) as (Q1&Q2&Q3&Q4).
  pose proof (F "requestedValiditySeconds") as F1. pose proof (F "expiration") as F2. pose proof (F "referenceContextId") as F3. pose proof (F "policyContextRef") as F4.
  rewrite P1, Q1 in F1. rewrite P2, Q2 in F2. rewrite P3, Q3 in F3. rewrite P4, Q4 in F4. clear P1 P2 P3 P4 Q1 Q2 Q3 Q4 G.
  pose proof (found_normal (amount_json (takerGets p)) (amount_json (takerGets q)) ltac:(by destruct (takerGets p)) ltac:(by destruct (takerGets q)) (F "takerGets")) as Eg%amount_json_inj.
  pose proof (found_normal (amount_json (takerPays p)) (amount_json (takerPays q)) ltac:(by destruct (takerPays p)) ltac:(by destruct (takerPays q)) (F "takerPays")) as Ep%amount_json_inj.
  pose proof (found_normal (JArr _) (JArr _) eq_refl eq_refl (F "flags")) as Ef.
  pose proof (F "organizationId") as [= Eo]. pose proof (F "principalId") as [= Er]. pose proof (F "requestId") as [= Eq]. pose proof (F "idempotencyKey") as [= Ei].
  pose proof (F "network") as [= En%network_name_inj]. pose proof (F "ownerAccount") as [= Ew]. pose proof (F "delegateAccount") as [= Ed]. clear F.
  rewrite (list_fmap_compose flag_name JTxt (flags p)), (list_fmap_compose flag_name JTxt (flags q)), !normal_text_list in Ef. injection Ef as Ef%(inj (fmap JTxt))%(inj (fmap flag_name)).
  destruct p, q. cbn in *. subst. injection F1 as ->. f_equal; destruct_or?; repeat match goal with o : option _ |- _ => destruct o end; cbn in *; simplify_eq; done.
Qed.

(** ** Canonical proposals *)

Definition flag_lt (f g : TradeOfferFlag) : Prop := TRADE_OFFER_FLAGS f < TRADE_OFFER_FLAGS g.
Definition canonical_flags (l : list TradeOfferFlag) : Prop := StronglySorted flag_lt l ∧ ¬ (immediate_or_cancel ∈ l ∧ fill_or_kill ∈ l).

#[export] Instance flag_le_total : Total flag_le.
Proof. intros f g. unfold flag_le. lia. Qed.
#[export] Instance flag_le_trans : Transitive flag_le.
Proof. intros f g h. unfold flag_le. lia. Qed.
#[export] Instance flag_le_antisymm : AntiSymm (=) flag_le.
Proof. intros [] []; unfold flag_le; cbn; try done; lia. Qed.

Lemma flags_strict l : StronglySorted flag_lt l ↔ StronglySorted flag_le l ∧ NoDup l.
Proof.
  split.
  - induction 1 as [|f l Hl [IH Hn] Hf]; [split; constructor|]. rewrite Forall_forall in Hf. split; constructor; try done.
    + apply Forall_forall. intros g Hg%Hf. unfold flag_lt, flag_le in *. lia.
    + intros Hin%Hf. unfold flag_lt in Hin. lia.
  - intros [Hs Hn]. induction Hs as [|f l Hl IH Hf]; [constructor|]. apply NoDup_cons in Hn as [Hni Hn]. constructor; [by apply IH|].
    rewrite Forall_forall in Hf |- *. intros g Hg. specialize (Hf g Hg). destruct (decide (f = g)) as [->|Hne]; [done|]. unfold flag_lt, flag_le in *. destruct f, g; cbn in *; (done || lia).
Qed.

Lemma read_flags_NoDup l i seen fs : read_flags l i seen = Ok fs → NoDup seen → NoDup fs.
Proof.
  revert i seen. induction l as [|v l IH]; intros i seen; cbn [read_flags]; [by intros [= ->]|]. destruct (match v with JsString name => flag_of name | _ => None end) as [f|]; [|done].
  case_bool_decide as Hf; [done|]. intros E Hn. apply (IH _ _ E). apply NoDup_app. split; [done|]. split; [set_solver|apply NoDup_singleton].
Qed.
Lemma flag_of_name f : flag_of (flag_name f) = Some f.
Proof. by destruct f. Qed.
Lemma read_flags_names k i seen : NoDup (seen ++ k) → read_flags (JsString ∘ flag_name <$> k) i seen = Ok (seen ++ k).
Proof.
  revert i seen. induction k as [|f k IH]; intros i seen Hn; cbn [fmap list_fmap read_flags compose]; [by rewrite app_nil_r|]. rewrite flag_of_name. rewrite bool_decide_eq_false_2 by (apply NoDup_app in Hn; set_solver).
  rewrite (IH (S i) (seen ++ [f])) by (by rewrite <-app_assoc). by rewrite <-app_assoc.
Qed.

Lemma parseFlags_sound raw fs : parseFlags raw = Ok fs → canonical_flags fs.
Proof.
  unfold parseFlags. destruct raw; try done. { intros [= <-]. split; [constructor|set_solver]. }
  destruct (4 <? _)%nat; [done|]. intros (seen&Hr&H)%result_bind_Ok. destruct (_ && _) eqn:Ec; [done|]. injection H as <-. split.
  - apply flags_strict. split; [apply Sorted_StronglySorted; [apply _|apply Sorted_merge_sort, _]|]. rewrite merge_sort_Permutation. by apply (read_flags_NoDup _ _ _ _ Hr), NoDup_nil_2.
  - rewrite !merge_sort_Permutation. intros [H1 H2]. by rewrite !bool_decide_eq_true_2 in Ec.
Qed.
Lemma parseFlags_names fs : canonical_flags fs → parseFlags (JsArray (JsString ∘ flag_name <$> fs)) = Ok fs.
Proof.
  intros [Hs Hc]. apply flags_strict in Hs as [Hs Hn]. unfold parseFlags. rewrite length_fmap.
  assert (length fs ≤ 4)%nat as Hl. { apply (submseteq_length fs [passive; immediate_or_cancel; fill_or_kill; sell_flag]). apply NoDup_submseteq; [done|]. intros []; set_solver. }
  rewrite (proj2 (Nat.ltb_ge _ _)) by done. rewrite read_flags_names by done. cbn [result_bind app].
  rewrite (proj2 (andb_false_iff _ _)) by (rewrite !bool_decide_eq_false; destruct (decide (immediate_or_cancel ∈ fs)); tauto). f_equal.
  apply (StronglySorted_unique flag_le); [apply Sorted_StronglySorted; [apply _|apply Sorted_merge_sort, _]|done|apply merge_sort_Permutation].
Qed.

(** An optional part that is canonical. *)
Definition holds {A} (P : A → Prop) (o : option A) : Prop := match o with Some a => P a | None => True end.

Record canonical_proposal `{LedgerHash} (p : TradeProposal) : Prop := {
  cp_identifiers : Forall (λ s, isTradeIdentifier s = true) [organizationId p; principalId p; requestId p; idempotencyKey p];
  cp_owner : isTradeAccountAddress (ownerAccount p) = true;
  cp_delegate : isTradeAccountAddress (delegateAccount p) = true;
  cp_distinct : ownerAccount p ≠ delegateAccount p;
  cp_gets : canonical_amount (takerGets p);
  cp_pays : canonical_amount (takerPays p);
  cp_assets : tradeAssetOf (takerGets p) ≠ tradeAssetOf (takerPays p);
  cp_flags : canonical_flags (flags p);
  cp_expiration : holds (λ n, 1 ≤ n ≤ TRADE_MAXIMUM_EXPIRATION) (expiration p);
  cp_validity : 1 ≤ requestedValiditySeconds p ≤ TRADE_MAXIMUM_VALIDITY_SECONDS;
  cp_reference : holds (λ s, isTradeReference s = true) (referenceContextId p);
  cp_policy : holds (λ s, isTradeReference s = true) (policyContextRef p);
}.

Lemma text_of_Some P v s : text_of P v = Some s ↔ v = JsString s ∧ P s = true.
Proof. destruct v; cbn; try (split; [done|by intros [? ?]]). destruct (P s0) eqn:E; (split; [|intros [[= ->] ?]; congruence]); [by intros [= <-]|done]. Qed.
Lemma unless_nil ok code field : unless ok code field = [] ↔ ok = true.
Proof. by destruct ok. Qed.
Lemma safe_in v lo hi : isSafeIntegerIn v lo hi = true → 1 ≤ lo → lo ≤ as_number v ≤ hi ∧ v = JsNum (JInt (as_number v)).
Proof.
  destruct v; try done. cbn. intros (((Hs&Hz%negb_true_iff)%andb_true_iff&Hl%Z.leb_le)%andb_true_iff&Hh%Z.leb_le)%andb_true_iff Hlo. split; [done|].
  destruct n; try done; cbn in *; lia.
Qed.
Lemma safe_in_int n lo hi : lo ≤ n ≤ hi → 0 ≤ lo → hi ≤ MAX_SAFE_INTEGER → isSafeIntegerIn (JsNum (JInt n)) lo hi = true.
Proof. intros Hn Hl Hh. cbn. rewrite !andb_true_iff, !Z.leb_le. split_and!; [lia..|by apply negb_true_iff, bool_decide_eq_false|lia|lia]. Qed.

Section Canonical.
Context `{LedgerHash} `{JsHost}.

Lemma account_violations_nil entries field : account_violations entries field = [] → isTradeAccountAddress (as_text (get field entries)) = true ∧ get field entries = JsString (as_text (get field entries)).
Proof. unfold account_violations. destruct (checkTradeAccountAddress _) eqn:E; try done. intros _. by apply address_text in E as (s&->&Hs). Qed.
Lemma asset_violations_nil a b : asset_violations a b = [] ↔ a ≠ b.
Proof.
  unfold asset_violations. destruct a as [|c i], b as [|c' i']; try (by split); rewrite unless_nil, negb_true_iff, <-not_true_iff_false, tradeAssetsEqual_iff; done.
Qed.
Lemma defined_holds {A} (P : A → Prop) (f : JsValue → A) ok v : default true (defined ok v) = true → (v ≠ JsUndefined → ok v = true → P (f v)) → holds P (defined f v).
Proof. destruct v; cbn; intros; auto. Qed.
Lemma reference_text v : is_some (text_of isTradeReference v) = true → isTradeReference (as_text v) = true.
Proof. intros [s E%text_of_Some]%is_some_true. by destruct E as [-> ?]. Qed.

Lemma field_violations_sound entries gets pays fs : field_violations entries = [] → parseTradeAmount (get "takerGets" entries) "takerGets" = Ok gets →
  parseTradeAmount (get "takerPays" entries) "takerPays" = Ok pays → parseFlags (get "flags" entries) = Ok fs → tradeAssetOf gets ≠ tradeAssetOf pays → canonical_proposal (proposal_of entries gets pays fs).
Proof.
  unfold field_violations. intros (_&(Hi&(_&(Ha&(Hd&(_&(_&(_&(_&(He&(Hv&Hr)%app_nil)%app_nil)%app_nil)%app_nil)%app_nil)%app_nil)%app_nil)%app_nil)%app_nil)%app_nil)%app_nil Hg Hp Hf Hne.
  rewrite bind_nil in Hi, Ha, Hr. rewrite !unless_nil in *. apply Forall_cons in Ha as [[Ho Eo]%account_violations_nil [[Hdl Ed]%account_violations_nil _]%Forall_cons].
  apply Forall_cons in Hr as [Hr1 [Hr2 _]%Forall_cons]. rewrite unless_nil in Hr1, Hr2. unfold proposal_of. split; cbn [organizationId principalId requestId idempotencyKey ownerAccount delegateAccount takerGets takerPays flags expiration requestedValiditySeconds referenceContextId policyContextRef]; try done.
  - assert (∀ f, f ∈ ["organizationId"; "principalId"; "requestId"; "idempotencyKey"]%string → isTradeIdentifier (as_text (get f entries)) = true) as Hid.
    { intros f Hin. rewrite Forall_forall in Hi. specialize (Hi f Hin). rewrite unless_nil in Hi. apply is_some_true in Hi as [s E%text_of_Some]. by destruct E as [-> ?]. }
    repeat constructor; apply Hid; set_solver.
  - intros E. rewrite Eo, Ed, E in Hd. cbn in Hd. by rewrite str_eqb_refl in Hd.
  - by eapply parseTradeAmount_sound.
  - by eapply parseTradeAmount_sound.
  - by eapply parseFlags_sound.
  - apply (defined_holds _ _ (λ v, isSafeIntegerIn v 1 TRADE_MAXIMUM_EXPIRATION)); [done|]. intros _ Hs. by destruct (safe_in _ _ _ Hs ltac:(lia)).
  - by destruct (safe_in _ _ _ Hv ltac:(lia)).
  - eapply defined_holds; [exact Hr1|]. intros _. apply reference_text.
  - eapply defined_holds; [exact Hr2|]. intros _. apply reference_text.
Qed.

Lemma canonical_coefficient a : canonical_amount a → 0 < coefficient (tradeExactQuantity a).
Proof.
  destruct a as [d|c i v]; cbn [canonical_amount].
  - intros [Hp%POSITIVE_INTEGER_plain _]. apply Hp.
  - intros (_&Hg&m&e&Hm&_&Hv). rewrite tradeExactQuantity_issued. apply exact_value_pos. change (exact_value (parse_decimal (chars v))) with (dec_value v). rewrite Hv.
    unfold scaled. destruct (0 <=? e) eqn:Ee; unfold Qlt; cbn; [|lia]. apply Z.leb_le in Ee. pose proof (pow10_pos_Z e Ee). nia.
Qed.

Lemma terms_total gets pays fs : canonical_amount gets → canonical_amount pays → ∃ t, terms_of gets pays fs = Ok t.
Proof.
  intros Hg%canonical_coefficient Hp%canonical_coefficient. unfold terms_of. destruct (canonicalTradePair _ _) as [b q].
  destruct (tradeAssetsEqual _ b); edestruct tradePriceOf_exact as (p&->&_); [exact Hp|exact Hg|by eexists|exact Hg|exact Hp|by eexists].
Qed.

Lemma canonical_proposal_data p : canonical_proposal p → canonical_data (proposal_json p) = true.
Proof.
  intros Hc. pose proof (proposal_keys p) as Hk. cbn [canonical_data]. rewrite proposal_fields_json. cbn [canonical_data]. apply andb_true_iff. split; [by apply bool_decide_eq_true|].
  assert (∀ a, canonical_data (amount_json a) = true) as Ha.
  { intros a. destruct (amount_keys a) as (fs&E&Hn). rewrite E. cbn [canonical_data]. apply andb_true_iff. split; [by apply bool_decide_eq_true|]. destruct a; injection E as <-; done. }
  assert (∀ n, 1 ≤ n ≤ TRADE_MAXIMUM_EXPIRATION → isSafeInteger (JInt n) = true) as Hs by (intros n Hn; cbn; unfold TRADE_MAXIMUM_EXPIRATION, MAX_SAFE_INTEGER in *; lia).
  assert (canonical_data (JNo (requestedValiditySeconds p)) = true) as Hv by (apply Hs; pose proof (cp_validity p Hc); unfold TRADE_MAXIMUM_VALIDITY_SECONDS, TRADE_MAXIMUM_EXPIRATION in *; lia).
  assert (forallb canonical_data (JTxt ∘ flag_name <$> flags p) = true) as Hf by (apply forallb_forall; intros x (f&->&_)%list_elem_of_In%list_elem_of_fmap; done).
  pose proof (cp_expiration p Hc) as He. unfold proposal_fields, proposal_json. rewrite !forallb_app. cbn [forallb snd]. rewrite !Ha, Hv. cbn [canonical_data] in Hf |- *. rewrite Hf.
  destruct (expiration p), (referenceContextId p), (policyContextRef p); cbn [optional forallb snd canonical_data andb]; rewrite ?(Hs _ He); done.
Qed.
Lemma digest_total p : canonical_proposal p → tradeProposalDigest p = Ok ("sha256:" +:+ sha256_hex (TRADE_PROPOSAL_DIGEST_DOMAIN +:+ NEWLINE +:+ stableStringify (proposal_json p))).
Proof. intros Hc. unfold tradeProposalDigest, serializeTradeProposal, proposal_object. by rewrite canonicalJson_stable by (by apply canonical_proposal_data). Qed.

(** What an accepted proposal went through. *)
Lemma validate_inv raw a : validateTradeProposal raw = Ok (proposal_valid a) →
  canonical_proposal (proposal a) ∧ terms_of (takerGets (proposal a)) (takerPays (proposal a)) (flags (proposal a)) = Ok (terms a) ∧ tradeProposalDigest (proposal a) = Ok (digest a).
Proof.
  unfold validateTradeProposal. destruct (snapshotTradeRecord raw _) as [entries|[]]; [|done]. destruct (undeclared_violations entries); [|done]. cbv zeta.
  destruct (parseTradeAmount _ "takerGets") as [gets|] eqn:Eg; [|done]. destruct (parseTradeAmount _ "takerPays") as [pays|] eqn:Ep; [|done].
  destruct (field_violations entries ++ _) eqn:Ev; [|done]. apply app_nil in Ev as [Ev Ea%asset_violations_nil]. destruct (parseFlags _) as [fs|] eqn:Ef; [|done].
  intros (t&Et&Hd)%result_bind_Ok. destruct (pair_violations _ _ _ ++ _); [|done]. apply result_bind_Ok in Hd as (d&Hd&[= <-]). cbn [proposal terms digest].
  split; [by apply field_violations_sound|]. done.
Qed.

(** Validation never throws. *)
Lemma validate_total raw : ∃ v, validateTradeProposal raw = Ok v.
Proof.
  unfold validateTradeProposal. destruct (snapshotTradeRecord raw _) as [entries|[]]; [|by eexists]. destruct (undeclared_violations entries); [|by eexists]. cbv zeta.
  destruct (parseTradeAmount _ "takerGets") as [gets|] eqn:Eg; [|by eexists]. destruct (parseTradeAmount _ "takerPays") as [pays|] eqn:Ep; [|by eexists].
  destruct (field_violations entries ++ _) eqn:Ev; [|by eexists]. apply app_nil in Ev as [Ev Ea%asset_violations_nil]. destruct (parseFlags _) as [fs|] eqn:Ef; [|by eexists].
  destruct (terms_total gets pays fs) as [t ->]; [by eapply parseTradeAmount_sound..|]. cbn [result_bind]. destruct (pair_violations _ _ _ ++ _); [|by eexists].
  rewrite digest_total by (by apply field_violations_sound). by eexists.
Qed.
End Canonical.

Definition proposal_entries (p : TradeProposal) : list (string * JsValue) := prod_map id js_of <$> proposal_fields p.
Lemma proposal_snapshot p : snapshotTradeRecord (proposal_object p) TRADE_PROPOSAL_MAXIMUM_PROPERTIES = Ok (proposal_entries p).
Proof. destruct p as [???????[] [] ?[] ? [] []]; reflexivity. Qed.
Lemma get_entry k (fs : list (string * Json)) : get k (prod_map id js_of <$> fs) = match map_get k fs with Some v => js_of v | None => JsUndefined end.
Proof.
  unfold get, own_property. induction fs as [|[k' v] fs IH]; [done|]. cbn [fmap list_fmap map_get prod_map list_find fst snd id]. unfold str_eqb.
  destruct (decide (k' = k)) as [->|Hne]; [by rewrite bool_decide_eq_true_2|]. rewrite bool_decide_eq_false_2 by done. rewrite <-IH.
  by destruct (list_find _ (prod_map id js_of <$> fs)) as [[]|].
Qed.

(** The fields of a proposal's object. *)
Lemma proposal_gets p (e := proposal_entries p) :
  get "schema" e = JsString TRADE_PROPOSAL_SCHEMA ∧ get "permission" e = JsString TRADE_REQUIRED_PERMISSION ∧
  get "organizationId" e = JsString (organizationId p) ∧ get "principalId" e = JsString (principalId p) ∧ get "requestId" e = JsString (requestId p) ∧
  get "idempotencyKey" e = JsString (idempotencyKey p) ∧ get "network" e = JsString (network_name (network p)) ∧
  get "ownerAccount" e = JsString (ownerAccount p) ∧ get "delegateAccount" e = JsString (delegateAccount p) ∧
  get "takerGets" e = js_of (amount_json (takerGets p)) ∧ get "takerPays" e = js_of (amount_json (takerPays p)) ∧
  get "flags" e = JsArray (JsString ∘ flag_name <$> flags p) ∧
  get "requestedValiditySeconds" e = JsNum (JInt (requestedValiditySeconds p)) ∧
  get "expiration" e = match expiration p with Some n => JsNum (JInt n) | None => JsUndefined end ∧
  get "referenceContextId" e = match referenceContextId p with Some s => JsString s | None => JsUndefined end ∧
  get "policyContextRef" e = match policyContextRef p with Some s => JsString s | None => JsUndefined end ∧
  get "pair" e = JsUndefined ∧ get "side" e = JsUndefined ∧ get "limitPrice" e = JsUndefined ∧ undeclared_violations e = [].
Proof.
  assert (get "flags" e = JsArray (JsString ∘ flag_name <$> flags p)) as Hf.
  { unfold e, proposal_entries. rewrite get_entry. change (map_get "flags" (proposal_fields p)) with (Some (JArr (JTxt ∘ flag_name <$> flags p))).
    cbv beta iota. transitivity (JsArray (js_of <$> (JTxt ∘ flag_name <$> flags p))); [done|]. by rewrite <-list_fmap_compose. }
  split_and!; try exact Hf; clear Hf; destruct p as [??????????[] ? [] []]; reflexivity.
Qed.
Lemma amount_json_object a : js_of (amount_json a) = amount_object a.
Proof. by destruct a. Qed.

Section RoundTrip.
Context `{LedgerHash} `{JsHost}.

Lemma account_violations_valid e field s : get field e = JsString s → isTradeAccountAddress s = true → account_violations e field = [].
Proof. unfold account_violations, isTradeAccountAddress. by intros -> ->%bool_decide_eq_true. Qed.
Lemma text_accepted (P : string → bool) s : P s = true → is_some (text_of P (JsString s)) = true.
Proof. intros Hs. cbn. by rewrite Hs. Qed.

Lemma field_violations_object p : canonical_proposal p → field_violations (proposal_entries p) = [].
Proof.
  intros Hc. destruct (proposal_gets p) as (Gs&Gp&Go&Gpr&Gr&Gi&Gn&Gw&Gd&Gg&Gt&Gf&Gv&Ge&Gc&Gx&_). pose proof (cp_identifiers p Hc) as Hi.
  apply Forall_cons in Hi as [I1 [I2 [I3 [I4 _]%Forall_cons]%Forall_cons]%Forall_cons].
  unfold field_violations. cbn [mbind list_bind app]. rewrite Gs, Gp, Go, Gpr, Gr, Gi, Gn, Gg, Gt, Gf, Gv, Ge, Gc, Gx.
  rewrite (account_violations_valid _ _ _ Gw (cp_owner p Hc)), (account_violations_valid _ _ _ Gd (cp_delegate p Hc)), Gw, Gd.
  rewrite !amount_json_object, !parseTradeAmount_object by apply Hc. rewrite parseFlags_names by apply Hc. rewrite !text_accepted by done.
  rewrite (safe_in_int (requestedValiditySeconds p)) by (apply Hc || done).
  assert (isTradeNetwork (JsString (network_name (network p))) = Some (network p)) as -> by (by destruct (network p)).
  assert (strict_equals (JsString (ownerAccount p)) (JsString (delegateAccount p)) = false) as -> by (apply str_eqb_neq, Hc).
  assert (default true (defined (λ v, isSafeIntegerIn v 1 TRADE_MAXIMUM_EXPIRATION) match expiration p with Some n => JsNum (JInt n) | None => JsUndefined end) = true) as ->.
  { pose proof (cp_expiration p Hc) as He. destruct (expiration p); [|done]. cbn [defined default]. by apply safe_in_int. }
  assert (∀ o, holds (λ s, isTradeReference s = true) o → default true (defined (λ v, is_some (text_of isTradeReference v)) match o with Some s => JsString s | None => JsUndefined end) = true) as Hr.
  { intros [s|]; [|done]. intros Hs. by apply text_accepted. }
  rewrite !Hr by apply Hc. reflexivity.
Qed.

Lemma proposal_of_entries p : proposal_of (proposal_entries p) (takerGets p) (takerPays p) (flags p) = p.
Proof.
  destruct (proposal_gets p) as (_&_&Go&Gpr&Gr&Gi&Gn&Gw&Gd&_&_&_&Gv&Ge&Gc&Gx&_). unfold proposal_of. rewrite Go, Gpr, Gr, Gi, Gn, Gw, Gd, Gv, Ge, Gc, Gx.
  destruct p as [????[] ?????[] ? [] []]; reflexivity.
Qed.

(** A canonical proposal is accepted as it is. *)
Lemma validate_proposal_object p t d : canonical_proposal p → terms_of (takerGets p) (takerPays p) (flags p) = Ok t → tradeProposalDigest p = Ok d →
  validateTradeProposal (proposal_object p) = Ok (proposal_valid {| proposal := p; terms := t; digest := d |}).
Proof.
  intros Hc Ht Hd. destruct (proposal_gets p) as (_&_&_&_&_&_&_&_&_&Gg&Gt&Gf&_&_&_&_&Gpa&Gsi&Gl&Hu). unfold validateTradeProposal. rewrite proposal_snapshot, Hu. cbv beta iota zeta.
  rewrite Gg, Gt, Gf, Gpa, Gsi, Gl, !amount_json_object, !parseTradeAmount_object, parseFlags_names, field_violations_object by apply Hc.
  cbn [app]. rewrite (proj2 (asset_violations_nil _ _)) by apply Hc. rewrite Ht. cbn [result_bind app pair_violations side_violations price_violations]. rewrite proposal_of_entries, Hd. done.
Qed.

(** What validation accepts is canonical, and a canonical proposal is a fixed
    point: validating the accepted object again accepts exactly the same
    proposal with the same terms and the same digest. Validation never throws,
    and every canonical proposal is accepted. *)
Theorem trade_proposal_canonical :
  (∀ raw, ∃ v, validateTradeProposal raw = Ok v) ∧
  (∀ raw a, validateTradeProposal raw = Ok (proposal_valid a) → canonical_proposal (proposal a) ∧ validateTradeProposal (proposal_object (proposal a)) = Ok (proposal_valid a)) ∧
  (∀ p, canonical_proposal p → ∃ a, validateTradeProposal (proposal_object p) = Ok (proposal_valid a) ∧ proposal a = p).
Proof.
  split; [exact validate_total|]. split.
  - intros raw a (Hc&Ht&Hd)%validate_inv. split; [done|]. rewrite (validate_proposal_object _ _ _ Hc Ht Hd). by destruct a.
  - intros p Hc. destruct (terms_total (takerGets p) (takerPays p) (flags p)) as [t Ht]; [apply Hc..|].
    eexists. split; [by apply validate_proposal_object; [|exact Ht|apply digest_total]|done].
Qed.
End RoundTrip.

(** ** What the terms of an order mean *)

(** The amount in the unit of its asset. *)
Definition amount_value (a : TradeAmount) : Q := match a with XrpAmount d => (digits_value (chars d) # 1000000)%Q | IssuedAmount _ _ v => dec_value v end.
Lemma amount_value_exact a : (exact_value (tradeExactQuantity a) == amount_value a)%Q.
Proof. destruct a; [done|]. by rewrite tradeExactQuantity_issued. Qed.

Definition flag_bits (l : list TradeOfferFlag) : Z := foldr (λ f n, TRADE_OFFER_FLAGS f + n) 0 l.
Lemma flag_bits_perm l k : l ≡ₚ k → flag_bits l = flag_bits k.
Proof. induction 1; cbn [flag_bits foldr] in *; [done|unfold flag_bits in *; lia|lia|congruence]. Qed.
Lemma flag_bits_foldl l n : foldl (λ sum flag, sum + TRADE_OFFER_FLAGS flag) n l = n + flag_bits l.
Proof. revert n. induction l as [|f l IH]; intros n; cbn [foldl flag_bits foldr]; [lia|]. rewrite IH. unfold flag_bits. lia. Qed.
Lemma flag_bits_test l f : NoDup l → Z.land (flag_bits l) (TRADE_OFFER_FLAGS f) ≠ 0 ↔ f ∈ l.
Proof.
  intros Hn. set (all := [passive; immediate_or_cancel; fill_or_kill; sell_flag]).
  assert (l ≡ₚ filter (.∈ l) all) as Hp.
  { apply NoDup_Permutation; [done|apply NoDup_filter, (bool_decide_unpack _); vm_compute; done|]. intros g. rewrite list_elem_of_filter. unfold all. destruct g; set_solver. }
  rewrite (flag_bits_perm _ _ Hp). unfold all. rewrite !filter_cons, filter_nil.
  destruct (decide (passive ∈ l)), (decide (immediate_or_cancel ∈ l)), (decide (fill_or_kill ∈ l)), (decide (sell_flag ∈ l)), f; cbn; (split; [done|done]) || (split; [lia|done]).
Qed.

Lemma canonicalTradePair_spec (given received : TradeAsset) b q : given ≠ received → canonicalTradePair given received = (b, q) →
  b ≠ xrp ∧ (q ≠ xrp → str_ltb (tradeAssetToken q) (tradeAssetToken b) = false) ∧ (b = given ∧ q = received ∨ b = received ∧ q = given).
Proof.
  assert (∀ x y, str_ltb x y = true → str_ltb y x = false) as Hasym.
  { intros x y. unfold str_ltb, String.ltb. rewrite String.compare_antisym. by destruct (String.compare y x). }
  intros Hne E. destruct given as [|c i], received as [|c' i']; cbn [canonicalTradePair] in E; [done|injection E as <- <-; split_and!; [done|done|by right]|injection E as <- <-; split_and!; [done|done|by left]|].
  destruct (str_ltb (tradeAssetToken (issued c i)) _) eqn:El; injection E as <- <-; (split; [done|]); (split; [|by (left + right)]); intros _; [by apply Hasym|done].
Qed.

Section Terms.
Context `{LedgerHash} `{JsHost}.

Lemma terms_exact gets pays fs t : canonical_amount gets → canonical_amount pays → tradeAssetOf gets ≠ tradeAssetOf pays → terms_of gets pays fs = Ok t →
  ∃ baseAmount quoteAmount, (side t = sell ∧ baseAmount = gets ∧ quoteAmount = pays ∨ side t = buy ∧ baseAmount = pays ∧ quoteAmount = gets) ∧
    base t = tradeAssetOf baseAmount ∧ quote t = tradeAssetOf quoteAmount ∧ base t ≠ xrp ∧ (quote t ≠ xrp → str_ltb (tradeAssetToken (quote t)) (tradeAssetToken (base t)) = false) ∧
    canonical_grammar (chars (quantity t)) = true ∧ (dec_value (quantity t) == amount_value baseAmount)%Q ∧
    canonical_grammar (chars (counterQuantity t)) = true ∧ (dec_value (counterQuantity t) == amount_value quoteAmount)%Q ∧
    reduced_price (limitPrice t) ∧ (price_value (limitPrice t) == amount_value quoteAmount / amount_value baseAmount)%Q ∧ flagsValue t = flag_bits fs.
Proof.
  intros Hg Hp Hne. unfold terms_of. destruct (canonicalTradePair _ _) as [b q] eqn:Ec. destruct (canonicalTradePair_spec _ _ _ _ Hne Ec) as (Hx&Ho&Hs).
  assert (∀ ba qa, canonical_amount ba → canonical_amount qa → ∀ s pr, tradePriceOf (tradeExactQuantity qa) (tradeExactQuantity ba) = Ok pr →
    let t := {| base := b; quote := q; side := s; quantity := formatTradeExactQuantity (tradeExactQuantity ba); counterQuantity := formatTradeExactQuantity (tradeExactQuantity qa);
                limitPrice := pr; flagsValue := foldl (λ sum flag, sum + TRADE_OFFER_FLAGS flag) 0 fs |} in
    canonical_grammar (chars (quantity t)) = true ∧ (dec_value (quantity t) == amount_value ba)%Q ∧ canonical_grammar (chars (counterQuantity t)) = true ∧
    (dec_value (counterQuantity t) == amount_value qa)%Q ∧ reduced_price pr ∧ (price_value pr == amount_value qa / amount_value ba)%Q ∧ flagsValue t = flag_bits fs) as Hq.
  { intros ba qa Hba%canonical_coefficient Hqa%canonical_coefficient s pr Epr. cbn. destruct (tradePriceOf_exact _ _ Hqa Hba) as (pr'&E'&Hr&Hv). rewrite E' in Epr. injection Epr as ->.
    destruct (formatTradeExactQuantity_exact (tradeExactQuantity ba)) as [G1 V1]; [lia|]. destruct (formatTradeExactQuantity_exact (tradeExactQuantity qa)) as [G2 V2]; [lia|].
    rewrite amount_value_exact in V1, V2. rewrite (amount_value_exact qa), (amount_value_exact ba) in Hv. rewrite flag_bits_foldl. repeat (split; [done|]). done. }
  destruct (tradeAssetsEqual (tradeAssetOf gets) b) eqn:Eb.
  - apply tradeAssetsEqual_iff in Eb as <-. destruct Hs as [[_ ->]|[Hs _]]; [|by destruct (Hne Hs)]. intros (pr&Epr&[= <-])%result_bind_Ok. exists gets, pays. split; [by left|]. specialize (Hq gets pays Hg Hp sell pr Epr). cbn in Hq |- *. repeat (split; [done|]). done.
  - destruct Hs as [[-> _]|[-> ->]]; [by rewrite (proj2 (tradeAssetsEqual_iff _ _)) in Eb|]. intros (pr&Epr&[= <-])%result_bind_Ok. exists pays, gets. split; [by right|]. specialize (Hq pays gets Hp Hg buy pr Epr). cbn in Hq |- *. repeat (split; [done|]). done.
Qed.

(** The terms of an accepted order say exactly what its two amounts say: the
    owner sells the base when it gives it up and buys it when it receives it,
    XRP is always the quote (otherwise the tokens are in order), the quantities
    are the canonical texts of the amounts in their units, the limit price is
    quote per base as the one fraction in lowest terms, and a bit of the ledger
    flags is set precisely when its flag was requested. *)
Theorem trade_terms_exact raw a : validateTradeProposal raw = Ok (proposal_valid a) →
  ∃ baseAmount quoteAmount, (side (terms a) = sell ∧ baseAmount = takerGets (proposal a) ∧ quoteAmount = takerPays (proposal a) ∨
      side (terms a) = buy ∧ baseAmount = takerPays (proposal a) ∧ quoteAmount = takerGets (proposal a)) ∧
    base (terms a) = tradeAssetOf baseAmount ∧ quote (terms a) = tradeAssetOf quoteAmount ∧ base (terms a) ≠ xrp ∧
    (quote (terms a) ≠ xrp → str_ltb (tradeAssetToken (quote (terms a))) (tradeAssetToken (base (terms a))) = false) ∧
    (dec_value (quantity (terms a)) == amount_value baseAmount)%Q ∧ (dec_value (counterQuantity (terms a)) == amount_value quoteAmount)%Q ∧
    reduced_price (limitPrice (terms a)) ∧ (price_value (limitPrice (terms a)) == amount_value quoteAmount / amount_value baseAmount)%Q ∧
    ∀ f, Z.land (flagsValue (terms a)) (TRADE_OFFER_FLAGS f) ≠ 0 ↔ f ∈ flags (proposal a).
Proof.
  intros (Hc&Ht&_)%validate_inv. destruct (terms_exact _ _ _ _ (cp_gets _ Hc) (cp_pays _ Hc) (cp_assets _ Hc) Ht) as (ba&qa&Hs&Hb&Hq&Hx&Ho&_&V1&_&V2&Hr&Hp&Hf).
  exists ba, qa. repeat (split; [done|]). intros f. rewrite Hf. apply flag_bits_test. by apply flags_strict, Hc.
Qed.

(** ** Digests *)

(** No two of the texts hashed for these proposals collide. *)
Definition digests_apart (p q : TradeProposal) : Prop :=
  sha256_hex (TRADE_PROPOSAL_DIGEST_DOMAIN +:+ NEWLINE +:+ stableStringify (proposal_json p)) = sha256_hex (TRADE_PROPOSAL_DIGEST_DOMAIN +:+ NEWLINE +:+ stableStringify (proposal_json q)) →
  stableStringify (proposal_json p) = stableStringify (proposal_json q).

Lemma accepted_digest_eq raw raw' a b : validateTradeProposal raw = Ok (proposal_valid a) → validateTradeProposal raw' = Ok (proposal_valid b) → digests_apart (proposal a) (proposal b) →
  digest a = digest b ↔ a = b.
Proof.
  intros (Ha&Ta&Da)%validate_inv (Hb&Tb&Db)%validate_inv Hc. split; [|by intros ->]. intros E. rewrite digest_total in Da, Db by done. injection Da as Da. injection Db as Db.
  rewrite E, <-Db in Da. apply string_app_peel in Da. apply Hc in Da. apply stableStringify_inj in Da; [|done..]. apply proposal_json_inj in Da.
  rewrite Da, Tb in Ta. injection Ta as Ta. destruct a, b. cbn in *. by subst.
Qed.

(** One idempotency key names one order: two accepted proposals are a replay
    exactly when they are the same proposal, and a conflict exactly when they
    share organization, principal and key and differ anywhere else. *)
Theorem trade_replay_exact raw raw' a b : validateTradeProposal raw = Ok (proposal_valid a) → validateTradeProposal raw' = Ok (proposal_valid b) → digests_apart (proposal a) (proposal b) →
  (classifyTradeProposalReplay a b = replay ↔ proposal a = proposal b) ∧
  (classifyTradeProposalReplay a b = conflict ↔ proposal a ≠ proposal b ∧ organizationId (proposal a) = organizationId (proposal b) ∧
     principalId (proposal a) = principalId (proposal b) ∧ idempotencyKey (proposal a) = idempotencyKey (proposal b)).
Proof.
  intros Va Vb Hc. pose proof (accepted_digest_eq _ _ _ _ Va Vb Hc) as Hd. assert (proposal a = proposal b ↔ digest a = digest b) as Hp.
  { split; [|by intros ->%Hd]. intros E. apply validate_inv in Va as (_&_&Da), Vb as (_&_&Db). rewrite E in Da. congruence. }
  unfold classifyTradeProposalReplay. rewrite Hp. clear Hd Va Vb Hc.
  destruct (str_eqb (organizationId (proposal a)) _) eqn:E1, (str_eqb (principalId (proposal a)) _) eqn:E2, (str_eqb (idempotencyKey (proposal a)) _) eqn:E3, (str_eqb (digest a) _) eqn:E4;
    cbn [negb orb]; split_and_bool; rewrite <-?Hp in *; (split; [split; [done|]|split; [done|]]); naive_solver congruence.
Qed.
End Terms.

(** ** The governed action of a proposal *)

Definition token_char (c : ascii) : bool := is_alnum c || one_of "._:@-" c.
Lemma token_ok s : is_Some (head (chars s)) → js_length s ≤ 128 → (∀ c, head (chars s) = Some c → is_alnum c = true) → Forall (λ c, token_char c = true) (chars s) → isGovernedParameterToken s = true.
Proof.
  intros [c0 Hn] Hl Hh Hf. unfold isGovernedParameterToken, GOVERNED_PARAMETER_TOKEN_MAX_LENGTH. rewrite (proj2 (Z.leb_le _ _)) by done.
  destruct s as [|c s]; [done|]. cbn [nonempty andb chars String.list_ascii_of_string] in *. rewrite (Hh c) by done. apply Forall_cons in Hf as [_ Hf].
  apply forallb_forall. intros x Hx. rewrite Forall_forall in Hf. by apply Hf, list_elem_of_In.
Qed.
Lemma alnum_token l : Forall (λ c, is_alnum c = true) l → Forall (λ c, token_char c = true) l.
Proof. intros Hl. eapply Forall_impl; [exact Hl|]. intros c Hc. unfold token_char. by rewrite Hc. Qed.
Lemma alnum_head (l k : list ascii) : Forall (λ c, is_alnum c = true) l → l ≠ [] → is_Some (head (l ++ k)) ∧ ∀ c, head (l ++ k) = Some c → is_alnum c = true.
Proof. destruct l as [|c l]; [done|]. intros [Hc _]%Forall_cons _. split; [by eexists|]. intros c' [= <-]. done. Qed.

Lemma digest_token s : DIGEST s = true → isGovernedParameterToken s = true.
Proof.
  unfold DIGEST. intros [[E%bool_decide_eq_true L%Nat.eqb_eq]%andb_true_iff F]%andb_true_iff. rewrite forallb_forall in F.
  assert (chars s = chars "sha256:" ++ drop 7 (chars s)) as Ec by (by rewrite <-E, take_drop). apply token_ok.
  - rewrite Ec. by eexists.
  - unfold js_length. rewrite Ec, length_app, L. cbn. lia.
  - rewrite Ec. by intros c [= <-].
  - rewrite Ec. apply Forall_app. split; [apply (bool_decide_unpack _); vm_compute; done|]. apply Forall_forall. intros x Hx%list_elem_of_In%F.
    unfold token_char. by destruct x as [[] [] [] [] [] [] [] []].
Qed.

Lemma currency_length c : parseTradeCurrencyCode (JsString c) = Some c → js_length c ≤ 40 ∧ Forall (λ c, is_alnum c = true) (chars c) ∧ chars c ≠ [].
Proof.
  intros Hc. destruct (currency_canonical _ _ Hc) as (_&_&Ha&Hn). split; [|split; [done|by destruct c]]. cbn in Hc. unfold js_length.
  destruct (STANDARD_CURRENCY c) eqn:Es; [apply andb_true_iff in Es as [->%Nat.eqb_eq _]; done|]. destruct (HEX_CURRENCY c) eqn:Eh; [|done]. apply andb_true_iff in Eh as [->%Nat.eqb_eq _]. done.
Qed.
Lemma decimal_token s : canonical_grammar (chars s) = true → digitCount (chars s) ≤ 127 → isGovernedParameterToken s = true.
Proof.
  intros (i&f&E&Hi&Hf%fraction_digits)%canonical_grammar_inv Hl. apply integer_part_digits in Hi as Hd. assert (∀ l, all_digits l → Forall (λ c, is_alnum c = true) l) as Ha.
  { intros l Hx. eapply Forall_impl; [exact Hx|]. intros c Hc. unfold is_alnum. by rewrite Hc. }
  assert (i ≠ []) as Hne by (by destruct i). unfold js_length, digitCount in *.
  apply token_ok; rewrite ?E; unfold render; try (destruct f; [rewrite <-(app_nil_r i)|]; by apply (alnum_head _ _ (Ha _ Hd) Hne)).
  - unfold js_length. destruct (index_of_point (chars s)); lia.
  - destruct f; [by apply alnum_token, Ha|]. apply Forall_app. split; [by apply alnum_token, Ha|]. constructor; [done|by apply alnum_token, Ha].
Qed.

Section Governance.
Context `{LedgerHash} `{JsHost}.

Lemma decimal_quantity a : canonical_amount a → canonical_grammar (chars (tradeDecimalQuantity a)) = true ∧ (dec_value (tradeDecimalQuantity a) == amount_value a)%Q ∧ digitCount (chars (tradeDecimalQuantity a)) ≤ 112.
Proof.
  intros Ha. destruct (formatTradeExactQuantity_exact (tradeExactQuantity a)) as [Hg Hv]; [pose proof (canonical_coefficient a Ha); lia|]. rewrite amount_value_exact in Hv.
  change (formatTradeExactQuantity (tradeExactQuantity a)) with (tradeDecimalQuantity a) in *. split; [done|]. split; [done|]. destruct a as [d|c i v].
  - destruct Ha as [(_&_&Hp)%POSITIVE_INTEGER_plain Hm]. unfold TRADE_MAXIMUM_DROPS in Hm. cbn [amount_value] in Hv. etransitivity; [apply (canonical_digitCount_bound _ 12 6); [done|lia| |]|done].
    + rewrite Hv. unfold pow10, Qlt, inject_Z. cbn [Qnum Qden]. change (Z.of_nat 12) with 12. lia.
    + apply representable_scale; [done|]. unfold representable. exists (digits_value (chars d)). rewrite Hv. done.
  - apply stored_digitCount; [done|]. destruct Ha as (_&_&m&e&Hm&He&E). exists m, e. split; [done|]. split; [done|]. by rewrite Hv.
Qed.

Lemma asset_token a : canonical_asset a → isGovernedParameterToken (tradeAssetToken a) = true.
Proof.
  destruct a as [|c i]; [by vm_compute|]. intros [(Lc&Ac&Nc)%currency_length [Ai Li]%address_chars]. cbn [tradeAssetToken].
  assert (chars (c +:+ "." +:+ i) = chars c ++ "."%char :: chars i) as E by (by rewrite !chars_app).
  apply token_ok; rewrite ?E; [by apply alnum_head..| |by apply alnum_head|].
  - unfold js_length in *. rewrite E, length_app. cbn. lia.
  - apply Forall_app. split; [by apply alnum_token|]. constructor; [done|by apply alnum_token].
Qed.
Lemma network_chars n : Forall (λ c, is_alnum c || one_of "._:/-" c = true) (chars (network_name n)) ∧ js_length (network_name n) ≤ 18 ∧ is_Some (head (chars (network_name n))) ∧
  ∀ c, head (chars (network_name n)) = Some c → is_alnum c = true.
Proof. destruct n; (split; [apply (bool_decide_unpack _); vm_compute; done|]); (split; [by vm_compute|]); (split; [by eexists|]); by intros c [= <-]. Qed.

Lemma asset_id_ok s : is_Some (head (chars s)) → js_length s ≤ 128 → (∀ c, head (chars s) = Some c → is_alnum c = true) → Forall (λ c, is_alnum c || one_of "._:/-" c = true) (chars s) → asset_id_pattern s = true.
Proof.
  intros [c0 Hn] Hl Hh Hf. unfold asset_id_pattern, js_length in *. destruct (chars s) as [|c l]; [done|]. rewrite (Hh c) by done. apply Forall_cons in Hf as [_ Hf]. cbn [length andb] in *.
  rewrite (proj2 (Z.leb_le _ _)) by lia. rewrite andb_true_r. apply forallb_forall. intros x Hx. rewrite Forall_forall in Hf. by apply Hf, list_elem_of_In.
Qed.
Lemma monetary_asset n a : canonical_asset a → asset_id_pattern (tradeMonetaryAssetId n a) = true.
Proof.
  intros Ha. destruct (network_chars n) as (Hf&Hl&[c0 Hn]&Hh). destruct a as [|c i]; [by destruct n; vm_compute|]. destruct Ha as [(Lc&Ac&Nc)%currency_length [Ai Li]%address_chars].
  assert (chars (tradeMonetaryAssetId n (issued c i)) = chars (network_name n) ++ ":"%char :: chars c ++ "/"%char :: chars i) as E by (cbn [tradeMonetaryAssetId]; by rewrite !chars_app).
  assert (∀ l, Forall (λ c, is_alnum c = true) l → Forall (λ c, is_alnum c || one_of "._:/-" c = true) l) as Hw by (intros l Hx; eapply Forall_impl; [exact Hx|]; intros x ->; done).
  destruct (chars (network_name n)) as [|x r] eqn:En; [done|]. apply asset_id_ok; rewrite ?E; [by eexists| |by intros y [= <-]; apply Hh|].
  - unfold js_length in *. rewrite En in Hl. rewrite E. cbn [length app] in *. rewrite length_app. cbn [length]. rewrite length_app. cbn [length]. lia.
  - apply Forall_app. split; [done|]. constructor; [done|]. apply Forall_app. split; [by apply Hw|]. constructor; [done|by apply Hw].
Qed.

Lemma amount_asset a : canonical_amount a → canonical_asset (tradeAssetOf a).
Proof. destruct a; [done|]. by intros [? _]. Qed.

(** What compilation went through. *)
Lemma compile_inv raw binding identity envelope c : compileTradeProposal raw binding identity envelope = Ok c →
  validateTradeProposal raw = Ok (proposal_valid (accepted c)) ∧ record_property "organizationId" identity = JsString (organizationId (proposal (accepted c))) ∧
  record_property "principalId" identity = JsString (principalId (proposal (accepted c))) ∧
  ∃ action expected, record_property "action" binding = JsString action ∧ intent c = intent_of action expected (accepted c).
Proof.
  unfold compileTradeProposal. destruct (text_of _ (record_property "action" binding)) as [action|] eqn:Ea; [|done]. apply text_of_Some in Ea as [Ea _].
  destruct (text_of _ (record_property "organizationId" identity)) as [o|] eqn:Eo; [|done]. apply text_of_Some in Eo as [Eo _].
  destruct (text_of _ (record_property "principalId" identity)) as [p|] eqn:Ep; [|done]. apply text_of_Some in Ep as [Ep _].
  destruct (validateTradeProposal raw) as [[a|]|]; [|done..]. cbv zeta.
  destruct (str_eqb (organizationId (proposal a)) o) eqn:E1, (str_eqb (principalId (proposal a)) p) eqn:E2; try done. split_and_bool. cbn [app].
  destruct (readEnvelope envelope) as [expected|]; [|done]. intros [= <-]. cbn [accepted intent]. rewrite Eo, Ep. subst. split_and!; try done. by exists action, expected.
Qed.

Lemma intent_amount raw a action expected : validateTradeProposal raw = Ok (proposal_valid a) → let i := intent_of action expected a in
  intent_currency i = tradeMonetaryAssetId (network (proposal a)) (tradeAssetOf (takerGets (proposal a))) ∧
  isPositiveMonetaryAmount {| value := intent_value i; unit_ := intent_currency i |} = true ∧ (dec_value (intent_value i) == amount_value (takerGets (proposal a)))%Q.
Proof.
  intros (Hc&Ht&_)%validate_inv. cbn. destruct (decimal_quantity _ (cp_gets _ Hc)) as (Gg&Gv&Gd).
  destruct (terms_exact _ _ _ _ (cp_gets _ Hc) (cp_pays _ Hc) (cp_assets _ Hc) Ht) as (ba&qa&Hs&Hb&Hq&_).
  assert (match side (terms a) with buy => quote (terms a) | sell => base (terms a) end = tradeAssetOf (takerGets (proposal a))) as -> by (rewrite Hb, Hq; by destruct Hs as [(->&->&_)|(->&_&->)]).
  split; [done|]. split; [|done]. unfold isPositiveMonetaryAmount, isWellFormedMonetaryAmount, isCanonicalDecimal. cbn [value unit_].
  rewrite Gg, (proj2 (Z.leb_le _ _)) by (unfold MONETARY_DECIMAL_MAXIMUM_DIGITS; lia). rewrite monetary_asset by (by apply amount_asset, Hc). cbn [andb]. apply negb_true_iff, str_eqb_neq. intros E. rewrite E in Gv.
  pose proof (canonical_coefficient _ (cp_gets _ Hc)) as Hp%exact_value_pos. rewrite amount_value_exact, <-Gv in Hp. change (dec_value "0") with (0 # 1)%Q in Hp. by apply Qlt_irrefl in Hp.
Qed.
Lemma parameter_tokens raw a : (∀ t, DIGEST ("sha256:" +:+ sha256_hex t) = true) → validateTradeProposal raw = Ok (proposal_valid a) → Forall (λ kv, isGovernedParameterToken kv.2 = true) (parameters_of a).
Proof.
  intros Hsha (Hc&Ht&Hd)%validate_inv. destruct (terms_exact _ _ _ _ (cp_gets _ Hc) (cp_pays _ Hc) (cp_assets _ Hc) Ht) as (ba&qa&Hs&Hb&Hq&_&_&Gq&Vq&_). rewrite digest_total in Hd by done. injection Hd as Hd.
  assert (canonical_amount ba ∧ canonical_amount qa) as [Cb Cq] by (destruct Hs as [(_&->&->)|(_&->&->)]; split; apply Hc).
  destruct (decimal_quantity _ Cb) as (Gb&Vb&Db). destruct (address_chars _ (cp_delegate _ Hc)) as [Ad Ld].
  assert (quantity (terms a) = tradeDecimalQuantity ba) as Eq. { apply chars_inj, canonical_text_unique_aux; [done|done|]. change (dec_value (quantity (terms a)) == dec_value (tradeDecimalQuantity ba))%Q. by rewrite Vq, Vb. }
  unfold parameters_of. rewrite Hb, Hq. repeat apply Forall_cons_2; cbn [snd].
  - by apply asset_token, amount_asset.
  - destruct (alnum_head (chars (delegateAccount (proposal a))) [] Ad) as [H1 H2]; [intros E; unfold js_length in Ld; rewrite E in Ld; cbn in Ld; lia|]. rewrite app_nil_r in H1, H2.
    apply token_ok; [done|lia|done|by apply alnum_token].
  - by destruct (network (proposal a)); vm_compute.
  - rewrite <-Hd. by apply digest_token.
  - rewrite Eq. apply decimal_token; [done|lia].
  - by apply asset_token, amount_asset.
  - by destruct (side (terms a)); vm_compute.
  - constructor.
Qed.

(** C36. A compiled intent states the accepted proposal and nothing else: it is the
    caller's own organization and principal, its amount is a well-formed
    positive amount of exactly what the owner gives up, in the asset given up,
    its parameters are exactly the declared trade dimensions, each a well-formed
    token, and the exact bound a grant takes from its digest admits the digest
    of another compiled intent only when that intent accepted the same proposal,
    as long as the digest tells the two apart ([digests_apart]). *)
Theorem trade_intent_binds raw binding identity envelope c : (∀ t, DIGEST ("sha256:" +:+ sha256_hex t) = true) → compileTradeProposal raw binding identity envelope = Ok c →
  let p := proposal (accepted c) in
  record_property "organizationId" identity = JsString (organizationId p) ∧ record_property "principalId" identity = JsString (principalId p) ∧
  isPositiveMonetaryAmount {| value := intent_value (intent c); unit_ := intent_currency (intent c) |} = true ∧
  (dec_value (intent_value (intent c)) == amount_value (takerGets p))%Q ∧ intent_currency (intent c) = tradeMonetaryAssetId (network p) (tradeAssetOf (takerGets p)) ∧
  (intent_parameters (intent c)).*1 ≡ₚ dimension_id <$> TRADE_PARAMETER_DIMENSIONS ∧
  Forall (λ kv, parseGovernedParameterValue t_token (JsString kv.2) = ParameterValid (VToken kv.2)) (intent_parameters (intent c)) ∧
  map_get "tradeProposalDigest" (intent_parameters (intent c)) = Some (digest (accepted c)) ∧
  ∃ bound, governedParameterBoundFor k_exact (VToken (digest (accepted c))) = Some bound ∧
    ∀ raw' binding' identity' envelope' c', compileTradeProposal raw' binding' identity' envelope' = Ok c' → digests_apart p (proposal (accepted c')) →
      governedParameterBoundAdmits bound (VToken (digest (accepted c'))) = true → accepted c' = accepted c.
Proof.
  intros Hsha (Hv&Ho&Hp&action&expected&_&Ei)%compile_inv p. pose proof (parameter_tokens _ _ Hsha Hv) as Ht. destruct (intent_amount _ _ action expected Hv) as (Hcur&Hpos&Hval). rewrite Ei.
  assert (isGovernedParameterToken (digest (accepted c)) = true) as Hdt by (rewrite Forall_forall in Ht; apply (Ht ("tradeProposalDigest", digest (accepted c))); do 3 right; by left).
  split; [done|]. split; [done|]. split; [done|]. split; [done|]. split; [done|]. split; [apply (bool_decide_unpack _); vm_compute; done|].
  split; [eapply Forall_impl; [exact Ht|]; intros kv Hk; cbn; by rewrite Hk|]. split; [done|].
  exists (BExact (VToken (digest (accepted c)))). split; [unfold governedParameterBoundFor; cbn; by rewrite Hdt|]. intros raw' b' i' e' c' (Hv'&_)%compile_inv Hap Had.
  symmetry. apply (accepted_digest_eq _ _ _ _ Hv Hv' Hap). unfold governedParameterBoundAdmits in Had. cbn in Had.
  destruct (negb _ || negb _); [done|]. destruct (negb _); [done|]. by apply str_eqb_eq in Had.
Qed.
End Governance.

(** ** A sell order *)

Module ProposalDemo.
Import TradeDemo.
#[local] Existing Instance demo_host.
Definition raw_offer : JsValue := JsObject true [
  ("schema", JsString "frontera.trade-proposal.v1"); ("organizationId", JsString "org-1"); ("principalId", JsString "engine-1"); ("requestId", JsString "req-1"); ("idempotencyKey", JsString "key-1");
  ("network", JsString "xrp-ledger-testnet"); ("ownerAccount", JsString owner); ("delegateAccount", JsString delegate); ("permission", JsString "OfferCreate");
  ("takerGets", JsObject true [("currency", JsString "USD"); ("issuer", JsString issuer); ("value", JsString "10.50")]);
  ("takerPays", JsObject true [("currency", JsString "XRP"); ("drops", JsString "21000000")]);
  ("side", JsString "sell"); ("limitPrice", JsObject true [("numerator", JsString "4"); ("denominator", JsString "2")]);
  ("flags", JsArray [JsString "sell"; JsString "passive"]); ("requestedValiditySeconds", JsNum (JInt 600))].
Definition binding : JsValue := JsObject true [("action", JsString "trade.offer-create")].
Definition identity : JsValue := JsObject true [("organizationId", JsString "org-1"); ("principalId", JsString "engine-1")].

Definition sample_accepted : AcceptedTradeProposal :=
  Eval vm_compute in match validateTradeProposal raw_offer with Ok (proposal_valid a) => a | _ => {| proposal := proposal_of [] (XrpAmount "") (XrpAmount "") []; terms := {| base := xrp; quote := xrp; side := buy; quantity := ""; counterQuantity := ""; limitPrice := {| p_numerator := 0; p_denominator := 0 |}; flagsValue := 0 |}; digest := "" |} end.
Lemma sample_validates : validateTradeProposal raw_offer = Ok (proposal_valid sample_accepted).
Proof. vm_compute. reflexivity. Qed.
Example sample_terms : side (terms sample_accepted) = sell ∧ quantity (terms sample_accepted) = "10.5" ∧ counterQuantity (terms sample_accepted) = "21" ∧
  limitPrice (terms sample_accepted) = {| p_numerator := 2; p_denominator := 1 |} ∧ flagsValue (terms sample_accepted) = 589824.
Proof. vm_compute. split_and!; reflexivity. Qed.
(** The trade dimensions are a registry the host accepts. *)
Definition declaration_object (d : ParameterDimensionDeclaration) : JsValue := JsObject true [("id", JsString (dimension_id d)); ("type", JsString "token"); ("bound", JsString "exact")].
Example dimensions_registered : match createParameterDimensionRegistry (JsArray (declaration_object <$> TRADE_PARAMETER_DIMENSIONS)) with Ok r => forallb (λ id, is_some (get_dimension r id)) TRADE_PARAMETER_DIMENSION_IDS | Throw _ => false end = true.
Proof. vm_compute. reflexivity. Qed.

Lemma trade_terms_exact_witness : base (terms sample_accepted) ≠ xrp.
Proof. destruct (trade_terms_exact raw_offer sample_accepted) as (ba&qa&_&_&_&Hx&_); [vm_compute; reflexivity|]. exact Hx. Defined.
Lemma trade_replay_exact_witness : classifyTradeProposalReplay sample_accepted sample_accepted = replay.
Proof. apply (trade_replay_exact raw_offer raw_offer sample_accepted sample_accepted); [vm_compute; reflexivity..|intros _; reflexivity|reflexivity]. Defined.
Lemma digits_hex n z : forallb is_hex (digits_lsb n z) = true ∧ length (digits_lsb n z) = n.
Proof.
  revert z. induction n as [|n IH]; intros z; [done|]. destruct (IH (z / 10)) as [H1 H2]. cbn [digits_lsb forallb length]. rewrite H1, H2. split; [|done].
  rewrite andb_true_r. pose proof (Z.mod_pos_bound z 10 ltac:(lia)) as Hm.
  assert (z mod 10 ∈ [0;1;2;3;4;5;6;7;8;9]) as Hin by (set_unfold; lia). revert Hin. generalize (z mod 10). clear. intros d Hd.
  assert (Forall (λ d, is_hex (digit_char d) = true) [0;1;2;3;4;5;6;7;8;9]) as Hf by (apply (bool_decide_unpack _); vm_compute; done). rewrite Forall_forall in Hf. by apply Hf.
Qed.
Lemma demo_digest t : DIGEST ("sha256:" +:+ sha256_hex t) = true.
Proof.
  destruct (digits_hex 64 (checksum t)) as [Hf Hl]. unfold DIGEST. rewrite chars_app. change (chars (sha256_hex t)) with (chars (text (digits_lsb 64 (checksum t)))). rewrite chars_text.
  generalize dependent (digits_lsb 64 (checksum t)). intros l Hf Hl. change (drop 7 (chars "sha256:" ++ l)) with l. rewrite Hf, Hl. reflexivity.
Qed.
Definition sample_compilation : TradeCompilation := {| intent := intent_of "trade.offer-create" None sample_accepted; accepted := sample_accepted |}.
Lemma trade_intent_binds_witness : intent_value (intent sample_compilation) = "10.5" ∧ isPositiveMonetaryAmount {| value := "10.5"; unit_ := intent_currency (intent sample_compilation) |} = true.
Proof.
  split; [vm_compute; reflexivity|]. apply (trade_intent_binds raw_offer binding identity JsUndefined sample_compilation); [exact demo_digest|vm_compute; reflexivity].
Defined.
End ProposalDemo.
