(* ===== verification/TradeDelegation.v ===== *)
(** * Delegated trading permission

    Model of trade-runtime/domain: observations of an XLS-75 [Delegate] entry and
    their verification (trade-delegation.ts), and the request, assessment and
    reliance built on them (trade-delegation-assessment.ts). What the reader and
    the trusted configuration hand over is a [JsValue] and read as the code
    reads it; the hash functions are those of the ledger and of the host. *)

From S2P Require Import Prelude Decimal Js JsMap StableJson HashChain Parameters AdapterPort RailAmounts TradeDomain TradeProposal.

Local Open Scope Z_scope.
Local Open Scope frontera_scope.

(** ** Grammars *)

Definition TRADE_DELEGATION_OBSERVATION_SCHEMA : string := "frontera.trade-delegation-observation.v1".
Definition TRADE_DELEGATION_REQUIRED_PERMISSION : string := "OfferCreate".
Definition TRADE_DELEGATION_TOLERATED_PERMISSIONS : list string := ["OfferCancel"; "OfferCreate"].
Definition PERMISSION_NAMES_BY_VALUE (n : Z) : option string := if n =? 8 then Some "OfferCreate"%string else if n =? 9 then Some "OfferCancel"%string else None.
Definition TRADE_DELEGATION_MAXIMUM_PERMISSIONS : nat := 10.
Definition TRADE_DELEGATION_MAXIMUM_AGE_SECONDS : Z := 60.
Definition UINT32_MAXIMUM : Z := 4294967295.

(** [/^[0-9A-F]{64}$/] and [/^[A-Za-z][A-Za-z0-9]{0,63}$/] *)
Definition LEDGER_HASH (s : string) : bool := (length (chars s) =? 64)%nat && forallb (λ c, is_digit c || in_range 65 70 c) (chars s).
Definition PERMISSION_NAME (s : string) : bool := match chars s with c :: l => (is_lower c || is_upper c) && forallb is_alnum l && (length l <=? 63)%nat | [] => false end.
(** A text of a template's shape, where [d] stands for a digit. *)
Fixpoint of_shape (template l : list ascii) : bool :=
  match template, l with
  | [], [] => true
  | t :: template, c :: l => (if bool_decide (t = "d"%char) then is_digit c else bool_decide (t = c)) && of_shape template l
  | _, _ => false
  end.
Definition INSTANT (s : string) : bool := of_shape (chars "dddd-dd-ddTdd:dd:dd.dddZ") (chars s).
Definition isTradeInstant `{JsHost} (v : JsValue) : bool := match v with JsString s => INSTANT s && is_some (date_parse s) | _ => false end.
(** [Date.parse] of an instant that was checked. *)
Definition instant_ms `{JsHost} (s : string) : Z := default 0 (date_parse s).

Definition isLedgerIndex (v : JsValue) : bool := match v with JsNum n => isSafeInteger n && (1 <=? integer_value n) && (integer_value n <=? UINT32_MAXIMUM) | _ => false end.

(** The digits of bytes, and upper case. *)
Definition hex_upper (d : Z) : ascii := ascii_upper (hex_char d).
Definition bytes_hex (l : list Z) : string := text (l ≫= λ b, [hex_upper (b / 16); hex_upper (b mod 16)]).

Definition canonicalTradeDelegationPermission (v : JsValue) : option string :=
  match v with
  | JsString s => if PERMISSION_NAME s then Some s else None
  | JsNum n =>
      if isSafeInteger n && (1 <=? integer_value n) && (integer_value n <=? UINT32_MAXIMUM) then
        Some (default ("value:" +:+ text (bigint_to_string (integer_value n))) (PERMISSION_NAMES_BY_VALUE (integer_value n)))
      else None
  | _ => None
  end.

Definition isCanonicalPermission (v : JsValue) : bool :=
  match v with
  | JsString s =>
      if PERMISSION_NAME s then true
      else
        let digits := drop 6 (chars s) in
        bool_decide (take 6 (chars s) = chars "value:") && POSITIVE_INTEGER digits && (length digits <=? 10)%nat &&
        (digits_value digits <=? UINT32_MAXIMUM) && negb (is_some (PERMISSION_NAMES_BY_VALUE (digits_value digits)))
  | _ => false
  end.

(** [value === n] for a number. *)
Definition is_number (n : Z) (v : JsValue) : bool := match v with JsNum m => number_strict_equals m (JInt n) | _ => false end.

Definition exactRecord (raw : JsValue) (fields : list string) : option (list (string * JsValue)) :=
  match raw with
  | JsObject true properties =>
      if negb (length properties =? length fields)%nat || negb (forallb (λ field, has field properties) fields) then None
      else if existsb (λ field, match get field properties with JsAccessor => true | _ => false end) fields then None
      else Some properties
  | _ => None
  end.

(** ** Observations *)

Record GrantedEntry := { permissions : list string; previousTxnId : string; previousTxnLedgerIndex : Z }.
(** [state] is ['granted'] with its entry, or ['absent']. *)
Record TradeDelegationObservation := {
  o_network : TradeNetwork;
  validatedLedgerIndex : Z;
  validatedLedgerHash : string;
  o_owner : string;
  o_delegate : string;
  entryIndex : string;
  observedAt : string;
  entry : option GrantedEntry;
}.

Definition BASE_FIELDS : list string := ["schema"; "network"; "networkId"; "validatedLedgerIndex"; "validatedLedgerHash"; "owner"; "delegate"; "entryIndex"; "observedAt"; "state"].
Definition GRANTED_FIELDS : list string := BASE_FIELDS ++ ["permissions"; "previousTxnId"; "previousTxnLedgerIndex"].

(** Neighbours in strictly ascending code-unit order. *)
Fixpoint ascending (l : list string) : bool :=
  match l with
  | a :: ((b :: _) as l) => str_ltb a b && ascending l
  | _ => true
  end.

Section Observations.
Context `{LedgerHash} `{JsHost}.

Definition tradeDelegateEntryIndex (owner delegate : string) : option string :=
  match tradeAccountIdOf owner, tradeAccountIdOf delegate with
  | Some ownerId, Some delegateId => Some (bytes_hex (take 32 (ledger_sha512 ([0; 69] ++ ownerId ++ delegateId))))
  | _, _ => None
  end.

Definition read_entry (probe : list (string * JsValue)) (ledger : Z) : option GrantedEntry :=
  match get "permissions" probe with
  | JsArray l =>
      if (length l <? 1)%nat || (TRADE_DELEGATION_MAXIMUM_PERMISSIONS <? length l)%nat then None
      else if negb (forallb isCanonicalPermission l) then None
      else
        let sorted := as_text <$> l in
        if negb (ascending sorted) then None
        else
          match text_of LEDGER_HASH (get "previousTxnId" probe) with
          | Some txn =>
              if negb (isLedgerIndex (get "previousTxnLedgerIndex" probe)) then None
              else if ledger <? as_number (get "previousTxnLedgerIndex" probe) then None
              else Some {| permissions := sorted; previousTxnId := txn; previousTxnLedgerIndex := as_number (get "previousTxnLedgerIndex" probe) |}
          | None => None
          end
  | _ => None
  end.

Definition is_granted (raw : JsValue) : bool := match raw with JsObject _ properties => is_text "granted" (get "state" properties) | _ => false end.

Definition parseTradeDelegationObservation (raw : JsValue) : option TradeDelegationObservation :=
  match exactRecord raw (if is_granted raw then GRANTED_FIELDS else BASE_FIELDS) with
  | None => None
  | Some probe =>
      if negb (is_text TRADE_DELEGATION_OBSERVATION_SCHEMA (get "schema" probe)) then None
      else
        match isTradeNetwork (get "network" probe) with
        | None => None
        | Some network =>
            let owner := as_text (get "owner" probe) in
            let delegate := as_text (get "delegate" probe) in
            if negb (is_number (networkId network) (get "networkId" probe)) then None
            else if negb (bool_decide (checkTradeAccountAddress (get "owner" probe) = account_valid)) || negb (bool_decide (checkTradeAccountAddress (get "delegate" probe) = account_valid)) || str_eqb owner delegate then None
            else
              match tradeDelegateEntryIndex owner delegate with
              | None => None
              | Some index =>
                  if negb (is_text index (get "entryIndex" probe)) then None
                  else if negb (isLedgerIndex (get "validatedLedgerIndex" probe)) || negb (is_some (text_of LEDGER_HASH (get "validatedLedgerHash" probe))) then None
                  else if negb (isTradeInstant (get "observedAt" probe)) then None
                  else
                    let observation entry := {|
                      o_network := network; validatedLedgerIndex := as_number (get "validatedLedgerIndex" probe); validatedLedgerHash := as_text (get "validatedLedgerHash" probe);
                      o_owner := owner; o_delegate := delegate; entryIndex := index; observedAt := as_text (get "observedAt" probe); entry := entry |} in
                    if is_text "absent" (get "state" probe) then Some (observation None)
                    else if negb (is_text "granted" (get "state" probe)) then None
                    else match read_entry probe (as_number (get "validatedLedgerIndex" probe)) with Some e => Some (observation (Some e)) | None => None end
              end
        end
  end.

(** ** Verification *)

(** The pins are whatever the caller holds; [JsUndefined] when there is none. *)
Record TradeDelegationRequirement := {
  r_network : TradeNetwork;
  r_owner : string;
  r_delegate : string;
  r_at : string;
  r_maxAgeSeconds : Z;
  r_minimumValidatedLedgerIndex : JsValue;
  r_expectedPreviousTxnId : JsValue;
}.

Inductive TradeDelegationRefusalCode :=
  | OBSERVATION_MALFORMED | REQUIREMENT_INVALID | NETWORK_MISMATCH | OWNER_MISMATCH | DELEGATE_MISMATCH | LEDGER_BELOW_MINIMUM
  | OBSERVATION_FROM_FUTURE | OBSERVATION_STALE | ABSENT | CHANGED | PERMISSION_MISSING | PERMISSION_EXCESS.

Definition isValidRequirement (r : TradeDelegationRequirement) : bool :=
  isTradeAccountAddress (r_owner r) && isTradeAccountAddress (r_delegate r) && negb (str_eqb (r_owner r) (r_delegate r)) && isTradeInstant (JsString (r_at r)) &&
  (1 <=? r_maxAgeSeconds r) && (r_maxAgeSeconds r <=? TRADE_DELEGATION_MAXIMUM_AGE_SECONDS) &&
  match r_minimumValidatedLedgerIndex r with JsUndefined => true | v => isLedgerIndex v end &&
  match r_expectedPreviousTxnId r with JsUndefined => true | v => is_some (text_of LEDGER_HASH v) end.

Record TradeDelegationEvidence := { e_observation : TradeDelegationObservation; e_entry : GrantedEntry; verifiedAt : string; e_maxAgeSeconds : Z }.

Definition verifyTradeDelegation (observation : JsValue) (r : TradeDelegationRequirement) : result TradeDelegationRefusalCode TradeDelegationEvidence :=
  match parseTradeDelegationObservation observation with
  | None => Throw OBSERVATION_MALFORMED
  | Some parsed =>
      if negb (isValidRequirement r) then Throw REQUIREMENT_INVALID
      else if negb (bool_decide (o_network parsed = r_network r)) then Throw NETWORK_MISMATCH
      else if negb (str_eqb (o_owner parsed) (r_owner r)) then Throw OWNER_MISMATCH
      else if negb (str_eqb (o_delegate parsed) (r_delegate r)) then Throw DELEGATE_MISMATCH
      else if match r_minimumValidatedLedgerIndex r with JsUndefined => false | v => validatedLedgerIndex parsed <? as_number v end then Throw LEDGER_BELOW_MINIMUM
      else
        let ageMs := instant_ms (r_at r) - instant_ms (observedAt parsed) in
        if ageMs <? 0 then Throw OBSERVATION_FROM_FUTURE
        else if r_maxAgeSeconds r * 1000 <? ageMs then Throw OBSERVATION_STALE
        else
          match entry parsed with
          | None => Throw ABSENT
          | Some e =>
              if match r_expectedPreviousTxnId r with JsUndefined => false | v => negb (is_text (previousTxnId e) v) end then Throw CHANGED
              else if negb (bool_decide (TRADE_DELEGATION_REQUIRED_PERMISSION ∈ permissions e)) then Throw PERMISSION_MISSING
              else if existsb (λ p, negb (bool_decide (p ∈ TRADE_DELEGATION_TOLERATED_PERMISSIONS))) (permissions e) then Throw PERMISSION_EXCESS
              else Ok {| e_observation := parsed; e_entry := e; verifiedAt := r_at r; e_maxAgeSeconds := r_maxAgeSeconds r |}
          end
  end.
End Observations.

(** ** Requests and policy *)

Definition TRADE_DELEGATION_REQUEST_SCHEMA : string := "frontera.trade-delegation-request.v1".
Definition TRADE_DELEGATION_ASSESSMENT_SCHEMA : string := "frontera.trade-delegation-assessment.v1".
Definition TRADE_DELEGATION_FACTS_DIGEST_DOMAIN : string := "frontera.trade-delegation-facts-digest.v1".
Definition TRADE_DELEGATION_ASSESSMENT_DIGEST_DOMAIN : string := "frontera.trade-delegation-assessment-digest.v1".

Record TradeDelegationVerificationRequest := { q_organizationId : string; q_proposalDigest : string; q_network : TradeNetwork; q_ownerAccount : string; q_delegateAccount : string }.

Definition REQUEST_FIELDS : list string := ["schema"; "organizationId"; "proposalDigest"; "network"; "ownerAccount"; "delegateAccount"; "permission"].
Definition REQUEST_MAXIMUM_PROPERTIES : nat := 16.

Inductive TradeDelegationRequestViolationCode :=
  | RQ_NOT_A_RECORD | RQ_UNDECLARED_PROPERTY | RQ_SECRET_PROPERTY_REFUSED | RQ_RAW_TRANSACTION_REFUSED | RQ_TRUSTED_FACT_CLAIM_REFUSED | RQ_SOURCE_SELECTION_REFUSED
  | RQ_MISSING_FIELD | RQ_SCHEMA_UNSUPPORTED | RQ_IDENTIFIER_MALFORMED | RQ_PROPOSAL_DIGEST_MALFORMED | RQ_NETWORK_UNSUPPORTED | RQ_ACCOUNT_RESERVED | RQ_ACCOUNT_MALFORMED
  | RQ_OWNER_IS_DELEGATE | RQ_PERMISSION_UNSUPPORTED.

Definition RAW_TRANSACTION : list string :=
  ["transactiontype"; "tx_json"; "tx_blob"; "txjson"; "txblob"; "transaction"; "rawtransaction"; "signedtransaction"; "account"; "authorize"; "permissions"; "delegate"; "signature"; "hash"].
Definition DELEGATION_FACT_CLAIM : list Regex :=
  (rlit_i <$> ["delegation"; "verified"; "verdict"; "proof"; "attest"; "evidence"; "observation"; "observed"; "granted"; "grant"; "authorised"; "authorized"; "approved"; "approval"; "decision";
    "trusted"; "ledger"; "validated"; "status"; "result"; "outcome"]).
Definition SOURCE_SELECTION : list Regex :=
  rlit_i <$> ["endpoint"; "url"; "uri"; "host"; "server"; "node"; "rpc"; "source"; "reader"; "port"; "maxage"; "freshness"; "age"; "policy"; "timeout"; "minimum"; "pin"].
Definition classifyUndeclaredRequestField (name : string) : TradeDelegationRequestViolationCode :=
  if isSecretShapedPropertyName name then RQ_SECRET_PROPERTY_REFUSED
  else if bool_decide (toLowerCase name ∈ RAW_TRANSACTION) then RQ_RAW_TRANSACTION_REFUSED
  else if existsb (λ r, regex_test r name) DELEGATION_FACT_CLAIM then RQ_TRUSTED_FACT_CLAIM_REFUSED
  else if existsb (λ r, regex_test r name) SOURCE_SELECTION then RQ_SOURCE_SELECTION_REFUSED
  else RQ_UNDECLARED_PROPERTY.

Section Requests.
Context `{LedgerHash}.

Definition request_account (entries : list (string * JsValue)) (field : string) : result (TradeDelegationRequestViolationCode * string) string :=
  match checkTradeAccountAddress (get field entries) with
  | account_reserved => Throw (RQ_ACCOUNT_RESERVED, field)
  | account_malformed => Throw (RQ_ACCOUNT_MALFORMED, field)
  | account_valid => Ok (as_text (get field entries))
  end.

Definition parseTradeDelegationRequest (raw : JsValue) : result (TradeDelegationRequestViolationCode * string) TradeDelegationVerificationRequest :=
  match snapshotTradeRecord raw REQUEST_MAXIMUM_PROPERTIES with
  | Throw (_, property) => Throw (RQ_NOT_A_RECORD, match property with Some p => reportablePropertyName p | None => "<request>" end)
  | Ok entries =>
      match List.find (λ key, negb (bool_decide (key ∈ REQUEST_FIELDS))) entries.*1 with
      | Some key => Throw (classifyUndeclaredRequestField key, reportablePropertyName key)
      | None =>
          match List.find (λ field, negb (has field entries)) REQUEST_FIELDS with
          | Some field => Throw (RQ_MISSING_FIELD, field)
          | None =>
              guard* is_text TRADE_DELEGATION_REQUEST_SCHEMA (get "schema" entries) else (RQ_SCHEMA_UNSUPPORTED, "schema"%string) in
              guard* is_some (text_of isTradeIdentifier (get "organizationId" entries)) else (RQ_IDENTIFIER_MALFORMED, "organizationId"%string) in
              guard* isTradeProposalDigest (get "proposalDigest" entries) else (RQ_PROPOSAL_DIGEST_MALFORMED, "proposalDigest"%string) in
              match isTradeNetwork (get "network" entries) with
              | None => Throw (RQ_NETWORK_UNSUPPORTED, "network"%string)
              | Some network =>
                  let* owner := request_account entries "ownerAccount" in
                  let* delegate := request_account entries "delegateAccount" in
                  guard* negb (str_eqb owner delegate) else (RQ_OWNER_IS_DELEGATE, "delegateAccount"%string) in
                  guard* is_text TRADE_DELEGATION_REQUIRED_PERMISSION (get "permission" entries) else (RQ_PERMISSION_UNSUPPORTED, "permission"%string) in
                  Ok {| q_organizationId := as_text (get "organizationId" entries); q_proposalDigest := as_text (get "proposalDigest" entries); q_network := network; q_ownerAccount := owner; q_delegateAccount := delegate |}
              end
          end
      end
  end.

Definition tradeDelegationRequestFor (proposal : TradeProposal) (proposalDigest : string) : result (TradeDelegationRequestViolationCode * string) TradeDelegationVerificationRequest :=
  parseTradeDelegationRequest (JsObject true [
    ("schema", JsString TRADE_DELEGATION_REQUEST_SCHEMA); ("organizationId", JsString (organizationId proposal)); ("proposalDigest", JsString proposalDigest);
    ("network", JsString (network_name (network proposal))); ("ownerAccount", JsString (ownerAccount proposal)); ("delegateAccount", JsString (delegateAccount proposal));
    ("permission", JsString TRADE_REQUIRED_PERMISSION)]).
End Requests.

Record TradeDelegationPolicy := { policy_sourceId : string; policy_maxAgeSeconds : Z }.
Definition parseTradeDelegationPolicy (raw : JsValue) : option TradeDelegationPolicy :=
  match snapshotTradeRecord raw 2 with
  | Throw _ => None
  | Ok entries =>
      if negb (length entries =? 2)%nat then None
      else
        match text_of isTradeIdentifier (get "sourceId" entries), get "maxAgeSeconds" entries with
        | Some sourceId, JsNum n =>
            if negb (isSafeInteger n) || (integer_value n <? 1) || (TRADE_DELEGATION_MAXIMUM_AGE_SECONDS <? integer_value n) then None
            else Some {| policy_sourceId := sourceId; policy_maxAgeSeconds := integer_value n |}
        | _, _ => None
        end
  end.
Definition policy_object (p : TradeDelegationPolicy) : JsValue := JsObject true [("sourceId", JsString (policy_sourceId p)); ("maxAgeSeconds", JsNum (JInt (policy_maxAgeSeconds p)))].

(** ** Assessment *)

Inductive TradeDelegationAssessmentStatus := AUTHORIZED | NOT_AUTHORIZED | UNAVAILABLE.
Inductive TradeDelegationAssessmentReason := VERIFIED | REQUEST_REJECTED | SOURCE_UNAVAILABLE | CONTEXT_INVALID | refusal (code : TradeDelegationRefusalCode).

Definition PROVES_NOT_AUTHORIZED (code : TradeDelegationRefusalCode) : bool := match code with ABSENT | CHANGED | PERMISSION_MISSING | PERMISSION_EXCESS => true | _ => false end.

(** What is recorded of an observation of exactly the requested pair. *)
Record BoundFacts := { facts_observation : TradeDelegationObservation; factsDigest : string; facts_assessedAt : string; facts_maxAgeSeconds : Z }.
Record AssessmentBody := {
  a_status : TradeDelegationAssessmentStatus;
  a_reason : TradeDelegationAssessmentReason;
  a_request : option TradeDelegationVerificationRequest;
  a_requestViolation : option TradeDelegationRequestViolationCode;
  a_sourceId : string;
  a_facts : option BoundFacts;
}.
Record TradeDelegationAssessment := { a_body : AssessmentBody; a_digest : string; a_readFailure : option string }.

Definition refusal_text (code : TradeDelegationRefusalCode) : string :=
  match code with
  | OBSERVATION_MALFORMED => "DELEGATION_OBSERVATION_MALFORMED" | REQUIREMENT_INVALID => "DELEGATION_REQUIREMENT_INVALID" | NETWORK_MISMATCH => "DELEGATION_NETWORK_MISMATCH"
  | OWNER_MISMATCH => "DELEGATION_OWNER_MISMATCH" | DELEGATE_MISMATCH => "DELEGATION_DELEGATE_MISMATCH" | LEDGER_BELOW_MINIMUM => "DELEGATION_LEDGER_BELOW_MINIMUM"
  | OBSERVATION_FROM_FUTURE => "DELEGATION_OBSERVATION_FROM_FUTURE" | OBSERVATION_STALE => "DELEGATION_OBSERVATION_STALE" | ABSENT => "DELEGATION_ABSENT" | CHANGED => "DELEGATION_CHANGED"
  | PERMISSION_MISSING => "DELEGATION_PERMISSION_MISSING" | PERMISSION_EXCESS => "DELEGATION_PERMISSION_EXCESS"
  end.
Definition reason_text (r : TradeDelegationAssessmentReason) : string :=
  match r with
  | VERIFIED => "DELEGATION_VERIFIED" | REQUEST_REJECTED => "DELEGATION_REQUEST_REJECTED" | SOURCE_UNAVAILABLE => "DELEGATION_SOURCE_UNAVAILABLE" | CONTEXT_INVALID => "DELEGATION_CONTEXT_INVALID"
  | refusal code => refusal_text code
  end.
Definition status_text (s : TradeDelegationAssessmentStatus) : string := match s with AUTHORIZED => "AUTHORIZED" | NOT_AUTHORIZED => "NOT_AUTHORIZED" | UNAVAILABLE => "UNAVAILABLE" end.
Definition request_violation_text (v : TradeDelegationRequestViolationCode) : string :=
  "DELEGATION_REQUEST_" +:+
  match v with
  | RQ_NOT_A_RECORD => "NOT_A_RECORD" | RQ_UNDECLARED_PROPERTY => "UNDECLARED_PROPERTY" | RQ_SECRET_PROPERTY_REFUSED => "SECRET_PROPERTY_REFUSED"
  | RQ_RAW_TRANSACTION_REFUSED => "RAW_TRANSACTION_REFUSED" | RQ_TRUSTED_FACT_CLAIM_REFUSED => "TRUSTED_FACT_CLAIM_REFUSED" | RQ_SOURCE_SELECTION_REFUSED => "SOURCE_SELECTION_REFUSED"
  | RQ_MISSING_FIELD => "MISSING_FIELD" | RQ_SCHEMA_UNSUPPORTED => "SCHEMA_UNSUPPORTED" | RQ_IDENTIFIER_MALFORMED => "IDENTIFIER_MALFORMED"
  | RQ_PROPOSAL_DIGEST_MALFORMED => "PROPOSAL_DIGEST_MALFORMED" | RQ_NETWORK_UNSUPPORTED => "NETWORK_UNSUPPORTED" | RQ_ACCOUNT_RESERVED => "ACCOUNT_RESERVED"
  | RQ_ACCOUNT_MALFORMED => "ACCOUNT_MALFORMED" | RQ_OWNER_IS_DELEGATE => "OWNER_IS_DELEGATE" | RQ_PERMISSION_UNSUPPORTED => "PERMISSION_UNSUPPORTED"
  end.

Definition factsOf (o : TradeDelegationObservation) : Json :=
  JObj ([("network", JTxt (network_name (o_network o))); ("networkId", JNo (networkId (o_network o))); ("owner", JTxt (o_owner o)); ("delegate", JTxt (o_delegate o));
         ("entryIndex", JTxt (entryIndex o)); ("validatedLedgerIndex", JNo (validatedLedgerIndex o)); ("validatedLedgerHash", JTxt (validatedLedgerHash o))] ++
        match entry o with
        | None => [("state", JTxt "absent")]
        | Some e => [("state", JTxt "granted"); ("permissions", json_texts (permissions e)); ("previousTxnId", JTxt (previousTxnId e)); ("previousTxnLedgerIndex", JNo (previousTxnLedgerIndex e))]
        end).

Definition offerCreateGranted (o : TradeDelegationObservation) : bool := match entry o with Some e => bool_decide (TRADE_DELEGATION_REQUIRED_PERMISSION ∈ permissions e) | None => false end.
Definition withinTradingScope (o : TradeDelegationObservation) : bool :=
  match entry o with Some e => (0 <? length (permissions e))%nat && forallb (λ p, bool_decide (p ∈ TRADE_DELEGATION_TOLERATED_PERMISSIONS)) (permissions e) | None => false end.
Definition permissionReadingOf (o : TradeDelegationObservation) : Json := JObj [("offerCreateGranted", JBol (offerCreateGranted o)); ("withinTradingScope", JBol (withinTradingScope o))].

Definition request_json (q : TradeDelegationVerificationRequest) : Json :=
  JObj [("schema", JTxt TRADE_DELEGATION_REQUEST_SCHEMA); ("organizationId", JTxt (q_organizationId q)); ("proposalDigest", JTxt (q_proposalDigest q)); ("network", JTxt (network_name (q_network q)));
        ("ownerAccount", JTxt (q_ownerAccount q)); ("delegateAccount", JTxt (q_delegateAccount q)); ("permission", JTxt TRADE_DELEGATION_REQUIRED_PERMISSION)].
Definition facts_fields (f : BoundFacts) : list (string * Json) :=
  let o := facts_observation f in
  [("facts", factsOf o); ("factsDigest", JTxt (factsDigest f)); ("permissionReading", permissionReadingOf o);
   ("timing", JObj [("observedAt", JTxt (observedAt o)); ("assessedAt", JTxt (facts_assessedAt f)); ("maxAgeSeconds", JNo (facts_maxAgeSeconds f))])].
(** [bodyOf]: everything but the digest and the diagnostic, absent fields absent. *)
Definition bodyOf (a : AssessmentBody) : Json :=
  JObj ([("schema", JTxt TRADE_DELEGATION_ASSESSMENT_SCHEMA); ("status", JTxt (status_text (a_status a))); ("reason", JTxt (reason_text (a_reason a)))] ++
        optional "requestViolation" (JTxt ∘ request_violation_text) (a_requestViolation a) ++ optional "request" request_json (a_request a) ++
        [("source", JObj [("sourceId", JTxt (a_sourceId a))])] ++ match a_facts a with Some f => facts_fields f | None => [] end).
(** The assessment as the object it is. *)
Definition assessment_object (a : TradeDelegationAssessment) : JsValue :=
  js_of (JObj (match bodyOf (a_body a) with JObj fs => fs | _ => [] end ++ [("digest", JTxt (a_digest a))] ++ optional "diagnostic" (λ f, JObj [("readFailure", JTxt f)]) (a_readFailure a))).

(** [/^[A-Z][A-Z0-9_]{0,63}$/] *)
Definition READ_FAILURE (s : string) : bool := match chars s with c :: l => is_upper c && forallb (λ c, is_upper c || is_digit c || one_of "_" c) l && (length l <=? 63)%nat | [] => false end.

Definition isValidPins (pins : JsValue) : bool :=
  match pins with
  | JsUndefined => true
  | _ => match snapshotTradeRecord pins 2 with
         | Ok entries => forallb (λ key, str_eqb key "minimumValidatedLedgerIndex" || str_eqb key "expectedPreviousTxnId") entries.*1
         | Throw _ => false
         end
  end.

Record TradeDelegationAssessmentInput := { i_request : JsValue; i_policy : JsValue; i_read : JsValue; i_assessedAt : JsValue; i_pins : JsValue }.

Section Assessment.
Context `{LedgerHash} `{JsHost}.

Definition digestOf (domain : string) (v : JsValue) : result RangeErr string := let* t := canonicalTradeJson v in Ok ("sha256:" +:+ sha256_hex (domain +:+ NEWLINE +:+ t)).

Definition seal (body : AssessmentBody) (readFailure : option string) : result RangeErr TradeDelegationAssessment :=
  let* digest := digestOf TRADE_DELEGATION_ASSESSMENT_DIGEST_DOMAIN (js_of (bodyOf body)) in Ok {| a_body := body; a_digest := digest; a_readFailure := readFailure |}.

Definition requirement_of (q : TradeDelegationVerificationRequest) (at_ : string) (p : TradeDelegationPolicy) (pins : JsValue) : TradeDelegationRequirement := {|
  r_network := q_network q; r_owner := q_ownerAccount q; r_delegate := q_delegateAccount q; r_at := at_; r_maxAgeSeconds := policy_maxAgeSeconds p;
  r_minimumValidatedLedgerIndex := record_property "minimumValidatedLedgerIndex" pins; r_expectedPreviousTxnId := record_property "expectedPreviousTxnId" pins |}.

Definition bound_to (o : TradeDelegationObservation) (q : TradeDelegationVerificationRequest) : bool :=
  bool_decide (o_network o = q_network q) && str_eqb (o_owner o) (q_ownerAccount q) && str_eqb (o_delegate o) (q_delegateAccount q).

Definition assess_observed (q : TradeDelegationVerificationRequest) (p : TradeDelegationPolicy) (at_ : string) (pins observation : JsValue) : result RangeErr TradeDelegationAssessment :=
  let verification := verifyTradeDelegation observation (requirement_of q at_ p pins) in
  let* facts :=
    match parseTradeDelegationObservation observation with
    | Some o =>
        if bound_to o q then
          let* d := digestOf TRADE_DELEGATION_FACTS_DIGEST_DOMAIN (js_of (factsOf o)) in
          Ok (Some {| facts_observation := o; factsDigest := d; facts_assessedAt := at_; facts_maxAgeSeconds := policy_maxAgeSeconds p |})
        else Ok None
    | None => Ok None
    end in
  let body status reason := {| a_status := status; a_reason := reason; a_request := Some q; a_requestViolation := None; a_sourceId := policy_sourceId p; a_facts := facts |} in
  match verification with
  | Ok _ => seal (body AUTHORIZED VERIFIED) None
  | Throw code => seal (body (if is_some facts && PROVES_NOT_AUTHORIZED code then NOT_AUTHORIZED else UNAVAILABLE) (refusal code)) None
  end.

Definition assessTradeDelegation (input : TradeDelegationAssessmentInput) : result RangeErr TradeDelegationAssessment :=
  let policy := parseTradeDelegationPolicy (i_policy input) in
  let sourceId := match policy with Some p => policy_sourceId p | None => "unconfigured"%string end in
  match parseTradeDelegationRequest (i_request input) with
  | Throw (violation, _) =>
      seal {| a_status := UNAVAILABLE; a_reason := REQUEST_REJECTED; a_request := None; a_requestViolation := Some violation; a_sourceId := sourceId; a_facts := None |} None
  | Ok q =>
      let unavailable reason failure := seal {| a_status := UNAVAILABLE; a_reason := reason; a_request := Some q; a_requestViolation := None; a_sourceId := sourceId; a_facts := None |} failure in
      match policy with
      | None => unavailable CONTEXT_INVALID None
      | Some p =>
          if negb (isTradeInstant (i_assessedAt input)) || negb (isValidPins (i_pins input)) then unavailable CONTEXT_INVALID None
          else
            match plain_record (i_read input) with
            | None => unavailable SOURCE_UNAVAILABLE None
            | Some read =>
                if negb (is_text "observed" (get "outcome" read)) then
                  let failure := if is_text "unavailable" (get "outcome" read) then default "UNRECOGNISED"%string (text_of READ_FAILURE (get "failure" read)) else "UNRECOGNISED"%string in
                  unavailable SOURCE_UNAVAILABLE (Some failure)
                else assess_observed q p (as_text (i_assessedAt input)) (i_pins input) (get "observation" read)
            end
      end
  end.
End Assessment.

(** ** Relying on an assessment *)

(** A bounded copy of plain data: containers no deeper than the levels given,
    with at most [keys] members, numbers that pass. *)
Fixpoint plain_copy (keys : nat) (number_ok : JsNumber → bool) (levels : nat) (v : JsValue) {struct v} : option JsValue :=
  match v with
  | JsString _ | JsBool _ => Some v
  | JsNum n => if number_ok n then Some v else None
  | JsArray l =>
      match levels with
      | O => None
      | S levels => if (keys <? length l)%nat then None else JsArray <$> mapM (plain_copy keys number_ok levels) l
      end
  | JsObject plain properties =>
      match levels with
      | O => None
      | S levels =>
          match snapshotTradeRecord v keys with
          | Throw _ => None
          | Ok _ => JsObject true <$> mapM (λ p, (λ w, (p.1, w)) <$> plain_copy keys number_ok levels p.2) properties
          end
      end
  | _ => None
  end.

Definition MAXIMUM_DATA_DEPTH : nat := 4.
Definition MAXIMUM_DATA_KEYS : nat := 24.
Definition plainData : JsValue → option JsValue := plain_copy MAXIMUM_DATA_KEYS isSafeInteger MAXIMUM_DATA_DEPTH.

Inductive TradeDelegationRelianceRefusal :=
  | RELIANCE_MALFORMED | RELIANCE_DIGEST_MISMATCH | RELIANCE_NOT_AUTHORIZED | RELIANCE_ORGANIZATION_MISMATCH | RELIANCE_PROPOSAL_MISMATCH | RELIANCE_BINDING_MISMATCH
  | RELIANCE_SOURCE_MISMATCH | RELIANCE_FROM_FUTURE | RELIANCE_STALE.

Record TradeDelegationRelianceExpectation := { x_proposal : TradeProposal; x_proposalDigest : string; x_at : string; x_policy : JsValue }.

(** [value['key']] of a copied value, and a copy without some properties. *)
Definition property (key : string) (v : JsValue) : JsValue := match v with JsObject _ properties => get key properties | _ => JsUndefined end.
Definition without (keys : list string) (v : JsValue) : JsValue :=
  match v with JsObject plain properties => JsObject plain (List.filter (λ p, negb (bool_decide (p.1 ∈ keys))) properties) | v => v end.
Definition is_undefined (v : JsValue) : bool := match v with JsUndefined => true | _ => false end.
Definition is_true (v : JsValue) : bool := match v with JsBool true => true | _ => false end.

Section Reliance.
Context `{LedgerHash} `{JsHost}.

(** The checks after the digests: what the body says of the ledger, whom it is
    for, and how old it is. *)
Definition relied_upon (body : JsValue) (p : TradeDelegationPolicy) (x : TradeDelegationRelianceExpectation) : result TradeDelegationRelianceRefusal unit :=
  guard* is_text "AUTHORIZED" (property "status" body) && is_text (reason_text VERIFIED) (property "reason" body) else RELIANCE_NOT_AUTHORIZED in
  let request := property "request" body in
  let facts := property "facts" body in
  let reading := property "permissionReading" body in
  let timing := property "timing" body in
  let source := property "source" body in
  guard* negb (is_undefined request || is_undefined facts || is_undefined reading || is_undefined timing || is_undefined source) else RELIANCE_MALFORMED in
  guard* is_text "granted" (property "state" facts) && is_true (property "offerCreateGranted" reading) && is_true (property "withinTradingScope" reading) else RELIANCE_NOT_AUTHORIZED in
  let proposal := x_proposal x in
  guard* is_text (organizationId proposal) (property "organizationId" request) else RELIANCE_ORGANIZATION_MISMATCH in
  guard* is_text (x_proposalDigest x) (property "proposalDigest" request) else RELIANCE_PROPOSAL_MISMATCH in
  guard* is_text (network_name (network proposal)) (property "network" request) && is_text (network_name (network proposal)) (property "network" facts) &&
         is_number (networkId (network proposal)) (property "networkId" facts) &&
         is_text (ownerAccount proposal) (property "ownerAccount" request) && is_text (ownerAccount proposal) (property "owner" facts) &&
         is_text (delegateAccount proposal) (property "delegateAccount" request) && is_text (delegateAccount proposal) (property "delegate" facts) else RELIANCE_BINDING_MISMATCH in
  guard* is_text (policy_sourceId p) (property "sourceId" source) else RELIANCE_SOURCE_MISMATCH in
  match property "maxAgeSeconds" timing with
  | JsNum recordedBound =>
      guard* isTradeInstant (property "observedAt" timing) else RELIANCE_MALFORMED in
      let ageMs := instant_ms (x_at x) - instant_ms (as_text (property "observedAt" timing)) in
      guard* 0 <=? ageMs else RELIANCE_FROM_FUTURE in
      guard* ageMs <=? Z.min (policy_maxAgeSeconds p) (integer_value recordedBound) * 1000 else RELIANCE_STALE in
      Ok tt
  | _ => Throw RELIANCE_MALFORMED
  end.

Definition checkTradeDelegationReliance (assessment : JsValue) (x : TradeDelegationRelianceExpectation) : result TradeDelegationRelianceRefusal unit :=
  match parseTradeDelegationPolicy (x_policy x) with
  | None => Throw RELIANCE_MALFORMED
  | Some p =>
      guard* isTradeInstant (JsString (x_at x)) else RELIANCE_MALFORMED in
      match plainData assessment with
      | None => Throw RELIANCE_MALFORMED
      | Some copy =>
          match property "digest" copy with
          | JsString digest =>
              guard* is_text TRADE_DELEGATION_ASSESSMENT_SCHEMA (property "schema" copy) else RELIANCE_MALFORMED in
              let body := without ["digest"; "diagnostic"]%string copy in
              match digestOf TRADE_DELEGATION_ASSESSMENT_DIGEST_DOMAIN body, (if is_undefined (property "facts" body) then Ok JsUndefined else let* d := digestOf TRADE_DELEGATION_FACTS_DIGEST_DOMAIN (property "facts" body) in Ok (JsString d)) with
              | Ok recomputed, Ok factsDigest =>
                  guard* str_eqb recomputed digest && strict_equals factsDigest (property "factsDigest" body) else RELIANCE_DIGEST_MISMATCH in
                  relied_upon body p x
              | _, _ => Throw RELIANCE_MALFORMED
              end
          | _ => Throw RELIANCE_MALFORMED
          end
      end
  end.
End Reliance.

(** ** What an observation proves *)

Record observation_ok `{LedgerHash} `{JsHost} (o : TradeDelegationObservation) : Prop := {
  oo_owner : isTradeAccountAddress (o_owner o) = true;
  oo_delegate : isTradeAccountAddress (o_delegate o) = true;
  oo_distinct : o_owner o ≠ o_delegate o;
  oo_index : tradeDelegateEntryIndex (o_owner o) (o_delegate o) = Some (entryIndex o);
  oo_ledger : 1 ≤ validatedLedgerIndex o ≤ UINT32_MAXIMUM;
  oo_instant : isTradeInstant (JsString (observedAt o)) = true;
  oo_entry : match entry o with
             | Some e => (1 ≤ length (permissions e) ≤ 10)%nat ∧ StronglySorted slt (permissions e) ∧ 1 ≤ previousTxnLedgerIndex e ≤ validatedLedgerIndex o
             | None => True
             end;
}.

Lemma ledger_index v : isLedgerIndex v = true → 1 ≤ as_number v ≤ UINT32_MAXIMUM.
Proof. destruct v; try done. cbn. intros ((_&Hl%Z.leb_le)%andb_true_iff&Hh%Z.leb_le)%andb_true_iff. done. Qed.
Lemma ascending_sorted l : ascending l = true → StronglySorted slt l.
Proof.
  intros Ha. apply Sorted_StronglySorted; [apply _|]. induction l as [|a l IH]; [constructor|]. destruct l as [|b l]; [by repeat constructor|].
  cbn [ascending] in Ha. apply andb_true_iff in Ha as [Hlt Ha]. constructor; [by apply IH|]. constructor. unfold slt, str_ltb, String.ltb in *. by destruct (String.compare a b).
Qed.
Lemma instant_text `{JsHost} v : isTradeInstant v = true → v = JsString (as_text v).
Proof. by destruct v. Qed.

Section Verified.
Context `{LedgerHash} `{JsHost}.

Lemma read_entry_ok probe ledger e : read_entry probe ledger = Some e →
  (1 ≤ length (permissions e) ≤ 10)%nat ∧ StronglySorted slt (permissions e) ∧ 1 ≤ previousTxnLedgerIndex e ≤ ledger.
Proof.
  unfold read_entry, TRADE_DELEGATION_MAXIMUM_PERMISSIONS. destruct (get "permissions" probe) as [| | | | |l| | |]; try done.
  destruct (Nat.ltb_spec (length l) 1); [done|]. destruct (Nat.ltb_spec 10 (length l)); [done|]. cbn [orb]. destruct (forallb isCanonicalPermission l); [|done]. cbn [negb]. cbv zeta.
  destruct (ascending (as_text <$> l)) eqn:Ea; [|done]. destruct (text_of LEDGER_HASH _) as [txn|]; [|done]. destruct (isLedgerIndex _) eqn:El; [|done]. cbn [negb].
  destruct (Z.ltb_spec ledger (as_number (get "previousTxnLedgerIndex" probe))); [done|]. intros [= <-]. cbn. rewrite length_fmap. split; [lia|]. split; [by apply ascending_sorted|]. apply ledger_index in El. lia.
Qed.

Lemma parse_observation_ok raw o : parseTradeDelegationObservation raw = Some o → observation_ok o.
Proof.
  unfold parseTradeDelegationObservation. destruct (exactRecord raw _) as [probe|]; [|done]. destruct (is_text _ (get "schema" probe)); [|done]. cbn [negb].
  destruct (isTradeNetwork (get "network" probe)) as [n|]; [|done]. cbv zeta. destruct (is_number _ _); [|done]. cbn [negb].
  destruct (bool_decide (checkTradeAccountAddress (get "owner" probe) = _)) eqn:Eo; [|done]. destruct (bool_decide (checkTradeAccountAddress (get "delegate" probe) = _)) eqn:Ed; [|done].
  apply bool_decide_eq_true, address_text in Eo as (ow&Eo&Ho). apply bool_decide_eq_true, address_text in Ed as (de&Ed&Hd). rewrite Eo, Ed. cbn [negb orb as_text].
  destruct (str_eqb ow de) eqn:Ee; [done|]. apply str_eqb_neq in Ee. destruct (tradeDelegateEntryIndex ow de) as [index|] eqn:Ei; [|done]. destruct (is_text index _); [|done]. cbn [negb].
  destruct (isLedgerIndex (get "validatedLedgerIndex" probe)) eqn:El; [|done]. destruct (is_some (text_of LEDGER_HASH (get "validatedLedgerHash" probe))); [|done]. cbn [negb orb].
  destruct (isTradeInstant (get "observedAt" probe)) eqn:Et; [|done]. cbn [negb]. apply ledger_index in El. rewrite (instant_text _ Et) in Et.
  destruct (is_text "absent" _).
  { intros [= <-]. split; done. }
  destruct (is_text "granted" _); [|done]. cbn [negb]. destruct (read_entry probe _) as [e|] eqn:Er; [|done]. intros [= <-]. split; try done. cbn. by eapply read_entry_ok.
Qed.

(** The pins a requirement carries hold of an observation. *)
Definition ledger_reached (pin : JsValue) (o : TradeDelegationObservation) : Prop := pin = JsUndefined ∨ as_number pin ≤ validatedLedgerIndex o.
Definition entry_unchanged (pin : JsValue) (e : GrantedEntry) : Prop := pin = JsUndefined ∨ pin = JsString (previousTxnId e).
Definition trading_only (e : GrantedEntry) : Prop := TRADE_DELEGATION_REQUIRED_PERMISSION ∈ permissions e ∧ Forall (.∈ TRADE_DELEGATION_TOLERATED_PERMISSIONS) (permissions e).

Lemma is_text_eq s v : is_text s v = true ↔ v = JsString s.
Proof. destruct v; cbn; try (by split). rewrite str_eqb_eq. naive_solver. Qed.

(** An observation that is bound, recent enough and new enough for a requirement. *)
Definition answers (raw : JsValue) (r : TradeDelegationRequirement) (o : TradeDelegationObservation) : Prop :=
  parseTradeDelegationObservation raw = Some o ∧ isValidRequirement r = true ∧ o_network o = r_network r ∧ o_owner o = r_owner r ∧ o_delegate o = r_delegate r ∧
  ledger_reached (r_minimumValidatedLedgerIndex r) o ∧ 0 ≤ instant_ms (r_at r) - instant_ms (observedAt o) ≤ r_maxAgeSeconds r * 1000.

(** What each answer of the verifier means. *)
Definition verdict_means (raw : JsValue) (r : TradeDelegationRequirement) (v : result TradeDelegationRefusalCode TradeDelegationEvidence) : Prop :=
  match v with
  | Ok ev => ∃ o e, answers raw r o ∧ entry o = Some e ∧ entry_unchanged (r_expectedPreviousTxnId r) e ∧ trading_only e ∧ e_observation ev = o ∧ e_entry ev = e
  | Throw code =>
      if PROVES_NOT_AUTHORIZED code then ∃ o, answers raw r o ∧ match entry o with None => code = ABSENT | Some e => ¬ (entry_unchanged (r_expectedPreviousTxnId r) e ∧ trading_only e) end
      else ¬ ∃ o, answers raw r o
  end.

Lemma verify_means raw r : verdict_means raw r (verifyTradeDelegation raw r).
Proof.
  unfold verifyTradeDelegation. destruct (parseTradeDelegationObservation raw) as [o|] eqn:Ep; [|cbn; intros (o&Ho&_); congruence].
  assert (∀ P : Prop, ((∃ o', answers raw r o') → P) ↔ (answers raw r o → P)) as Hw. { intros P. split; [eauto|]. intros HP (o'&Ho). assert (o' = o) as -> by (destruct Ho; congruence). auto. }
  destruct (isValidRequirement r) eqn:Ev; [|cbn; refine (proj2 (Hw False) _); intros (_&?&_); congruence]. cbn [negb].
  case_bool_decide as En; [|cbn; refine (proj2 (Hw False) _); intros (_&_&?&_); congruence]. cbn [negb].
  destruct (str_eqb (o_owner o) _) eqn:Eo; split_and_bool; [|cbn; refine (proj2 (Hw False) _); intros (_&_&_&?&_); congruence]. cbn [negb].
  destruct (str_eqb (o_delegate o) _) eqn:Ed; split_and_bool; [|cbn; refine (proj2 (Hw False) _); intros (_&_&_&_&?&_); congruence]. cbn [negb].
  destruct (match r_minimumValidatedLedgerIndex r with JsUndefined => false | v => validatedLedgerIndex o <? as_number v end) eqn:El.
  { cbn. refine (proj2 (Hw False) _). intros (_&_&_&_&_&[E|Hl]&_); [by rewrite E in El|]. destruct (r_minimumValidatedLedgerIndex r); (done || apply Z.ltb_lt in El; lia). }
  assert (ledger_reached (r_minimumValidatedLedgerIndex r) o) as Hl by (unfold ledger_reached; destruct (r_minimumValidatedLedgerIndex r); (by left) || (right; by apply Z.ltb_ge in El)).
  cbv zeta. destruct (Z.ltb_spec (instant_ms (r_at r) - instant_ms (observedAt o)) 0) as [L|L]; [cbn; refine (proj2 (Hw False) _); intros (_&_&_&_&_&_&?); lia|].
  destruct (Z.ltb_spec (r_maxAgeSeconds r * 1000) (instant_ms (r_at r) - instant_ms (observedAt o))) as [M|M]; [cbn; refine (proj2 (Hw False) _); intros (_&_&_&_&_&_&?); lia|].
  assert (answers raw r o) as Ha by (unfold answers; split_and!; done || lia). destruct (entry o) as [e|] eqn:Ee; [|exists o; by rewrite Ee].
  destruct (match r_expectedPreviousTxnId r with JsUndefined => false | v => negb (is_text (previousTxnId e) v) end) eqn:Et.
  { exists o. split; [done|]. rewrite Ee. intros [[E|E] _]; rewrite E in Et; [done|]. cbn in Et. by rewrite str_eqb_refl in Et. }
  assert (entry_unchanged (r_expectedPreviousTxnId r) e) as Hu by (unfold entry_unchanged; destruct (r_expectedPreviousTxnId r); (by left) || (right; apply negb_false_iff in Et; by apply is_text_eq in Et)).
  case_bool_decide as Hm; cbn [negb]; [|exists o; split; [done|]; rewrite Ee; by intros [_ [? _]]].
  destruct (existsb _ (permissions e)) eqn:Ex.
  - exists o. split; [done|]. rewrite Ee. intros [_ [_ Hf]]. apply existsb_exists in Ex as (p&Hp%list_elem_of_In&Hn). rewrite Forall_forall in Hf. by rewrite bool_decide_eq_true_2 in Hn by auto.
  - exists o, e. split; [done|]. split; [done|]. split; [done|]. split; [|done]. split; [done|]. apply existsb_no in Ex. eapply Forall_impl; [exact Ex|]. intros p Hp. cbn in Hp. by apply negb_false_iff, bool_decide_eq_true in Hp.
Qed.
End Verified.

(** ** Copies of plain data *)

(** Data that a bounded copy leaves as it is. *)
Fixpoint fits (keys : nat) (number_ok : JsNumber → bool) (levels : nat) (v : Json) {struct v} : bool :=
  match v with
  | JTxt _ | JBol _ => true
  | JNo n => number_ok (JInt n)
  | JArr l => match levels with O => false | S levels => (length l <=? keys)%nat && forallb (fits keys number_ok levels) l end
  | JObj fs => match levels with O => false | S levels => (length fs <=? keys)%nat && forallb (λ p, negb (isDangerousPropertyName p.1) && fits keys number_ok levels p.2) fs end
  | _ => false
  end.

Lemma mapM_id {A} (f : A → option A) l : Forall (λ x, f x = Some x) l → mapM f l = Some l.
Proof. intros Hf. apply mapM_Some. induction Hf; by constructor. Qed.
Lemma plain_copy_fits keys ok v levels : fits keys ok levels v = true → plain_copy keys ok levels (js_of v) = Some (js_of v).
Proof.
  revert levels. induction v as [| | |n| |l IH|fs IH] using Json_nested_ind; intros levels Hf; try done; cbn [fits js_of plain_copy] in *.
  - by rewrite Hf.
  - destruct levels as [|levels]; [done|]. apply andb_true_iff in Hf as [Hl%Nat.leb_le Hf]. rewrite length_fmap, (proj2 (Nat.ltb_ge _ _)) by done.
    rewrite (mapM_id _ (js_of <$> l)); [done|]. apply Forall_fmap. rewrite forallb_forall in Hf. rewrite Forall_forall in IH |- *. intros x Hx. apply (IH x Hx), Hf. by apply list_elem_of_In.
  - destruct levels as [|levels]; [done|]. apply andb_true_iff in Hf as [Hl%Nat.leb_le Hf]. rewrite forallb_forall in Hf.
    assert (snapshotTradeRecord (JsObject true (prod_map id js_of <$> fs)) keys = Ok (prod_map id js_of <$> fs)) as ->.
    { apply snapshot_Ok. split; [done|]. rewrite length_fmap. split; [done|]. apply Forall_fmap, Forall_forall. intros [k x] Hx%list_elem_of_In%Hf. cbn in *. apply andb_true_iff in Hx as [?%negb_true_iff _]. split; [done|]. by destruct x. }
    rewrite (mapM_id _ (prod_map id js_of <$> fs)); [done|]. apply Forall_fmap. rewrite Forall_forall in IH |- *. intros [k x] Hx. cbn. specialize (Hf (k, x) ltac:(by apply list_elem_of_In)). cbn in Hf.
    apply andb_true_iff in Hf as [_ Hf]. pose proof (IH (k, x) Hx levels Hf) as E. cbn in E. by rewrite E.
Qed.

(** ** The record of an assessment *)

Definition body_fields (a : AssessmentBody) : list (string * Json) := match bodyOf a with JObj fs => fs | _ => [] end.
Definition assessment_fields (a : TradeDelegationAssessment) : list (string * Json) :=
  body_fields (a_body a) ++ [("digest", JTxt (a_digest a))] ++ optional "diagnostic" (λ f, JObj [("readFailure", JTxt f)]) (a_readFailure a).
Lemma assessment_object_fields a : assessment_object a = js_of (JObj (assessment_fields a)).
Proof. done. Qed.

Section Recorded.
Context `{LedgerHash} `{JsHost}.

Definition body_ok (a : AssessmentBody) : Prop :=
  match a_facts a with Some f => observation_ok (facts_observation f) ∧ 1 ≤ facts_maxAgeSeconds f ≤ 60 | None => True end.

Lemma texts_data l : forallb canonical_data (JTxt <$> l) = true.
Proof. induction l; done. Qed.
Lemma safe_index n : 1 ≤ n ≤ UINT32_MAXIMUM → isSafeInteger (JInt n) = true.
Proof. unfold UINT32_MAXIMUM. cbn. unfold MAX_SAFE_INTEGER. lia. Qed.

Lemma facts_data o : observation_ok o → canonical_data (factsOf o) = true.
Proof.
  intros Ho. pose proof (safe_index _ (oo_ledger o Ho)) as Hl. pose proof (oo_entry o Ho) as He. unfold factsOf. cbn [canonical_data].
  destruct (entry o) as [e|]; cbn [app forallb snd canonical_data json_texts andb]; rewrite ?Hl, ?texts_data.
  - rewrite (safe_index (previousTxnLedgerIndex e)) by (pose proof (oo_ledger o Ho); lia). destruct (o_network o); (apply andb_true_iff; split; [apply bool_decide_eq_true, (bool_decide_unpack _); vm_compute; done|done]).
  - destruct (o_network o); (apply andb_true_iff; split; [apply bool_decide_eq_true, (bool_decide_unpack _); vm_compute; done|done]).
Qed.

Lemma body_keys a : NoDup (body_fields a).*1.
Proof. unfold body_fields, bodyOf. destruct (a_requestViolation a), (a_request a), (a_facts a); apply (bool_decide_unpack _); vm_compute; done. Qed.
Lemma request_data q : canonical_data (request_json q) = true.
Proof. reflexivity. Qed.
Lemma facts_fields_data f : observation_ok (facts_observation f) → 1 ≤ facts_maxAgeSeconds f ≤ 60 → forallb (λ p, canonical_data p.2) (facts_fields f) = true.
Proof.
  intros Ho Hm. unfold facts_fields. cbn [forallb snd]. rewrite facts_data by done.
  assert (canonical_data (JNo (facts_maxAgeSeconds f)) = true) as Hn by (apply safe_index; unfold UINT32_MAXIMUM; lia).
  assert (canonical_data (JObj [("observedAt"%string, JTxt (observedAt (facts_observation f))); ("assessedAt"%string, JTxt (facts_assessedAt f)); ("maxAgeSeconds"%string, JNo (facts_maxAgeSeconds f))]) = true) as ->; [|done].
  change (bool_decide (NoDup ["observedAt"; "assessedAt"; "maxAgeSeconds"]%string) && forallb (λ p, canonical_data p.2) [("observedAt"%string, JTxt (observedAt (facts_observation f))); ("assessedAt"%string, JTxt (facts_assessedAt f)); ("maxAgeSeconds"%string, JNo (facts_maxAgeSeconds f))] = true).
  cbn [forallb snd]. rewrite Hn. reflexivity.
Qed.
Lemma body_data a : body_ok a → canonical_data (bodyOf a) = true.
Proof.
  intros Ho. change (bodyOf a) with (JObj (body_fields a)). cbn [canonical_data]. apply andb_true_iff. split; [apply bool_decide_eq_true, body_keys|].
  unfold body_ok in Ho. unfold body_fields, bodyOf. rewrite !forallb_app.
  assert (forallb (λ p, canonical_data p.2) match a_facts a with Some f => facts_fields f | None => [] end = true) as -> by (destruct (a_facts a) as [f|]; [by apply facts_fields_data; apply Ho|done]).
  destruct (a_requestViolation a), (a_request a); reflexivity.
Qed.

Lemma digest_of_data domain v : canonical_data v = true → digestOf domain (js_of v) = Ok ("sha256:" +:+ sha256_hex (domain +:+ NEWLINE +:+ stableStringify v)).
Proof. intros Hv. unfold digestOf, canonicalTradeJson. by rewrite canonicalJson_stable. Qed.
Lemma seal_total a failure : body_ok a → ∃ d, seal a failure = Ok {| a_body := a; a_digest := d; a_readFailure := failure |} ∧ digestOf TRADE_DELEGATION_ASSESSMENT_DIGEST_DOMAIN (js_of (bodyOf a)) = Ok d.
Proof. intros Ho. unfold seal. rewrite digest_of_data by (by apply body_data). by eexists. Qed.

Lemma policy_range raw p : parseTradeDelegationPolicy raw = Some p → 1 ≤ policy_maxAgeSeconds p ≤ 60 ∧ isTradeIdentifier (policy_sourceId p) = true.
Proof.
  unfold parseTradeDelegationPolicy, TRADE_DELEGATION_MAXIMUM_AGE_SECONDS. destruct (snapshotTradeRecord raw 2) as [entries|]; [|done]. destruct (negb _); [done|].
  destruct (text_of _ _) as [sid|] eqn:Es; [|done]. apply text_of_Some in Es as [_ Hs]. destruct (get "maxAgeSeconds" entries); try done.
  destruct (isSafeInteger n); [|done]. destruct (Z.ltb_spec (integer_value n) 1); [done|]. destruct (Z.ltb_spec 60 (integer_value n)); [done|]. intros [= <-]. cbn. split; [lia|done].
Qed.

(** The facts an assessment records of an observation. *)
Lemma assess_observed_spec q p at_ pins obs : 1 ≤ policy_maxAgeSeconds p ≤ 60 → ∃ facts d, body_ok {| a_status := AUTHORIZED; a_reason := VERIFIED; a_request := Some q; a_requestViolation := None; a_sourceId := policy_sourceId p; a_facts := facts |} ∧
  (∀ o, parseTradeDelegationObservation obs = Some o → bound_to o q = true → ∃ fd, facts = Some {| facts_observation := o; factsDigest := fd; facts_assessedAt := at_; facts_maxAgeSeconds := policy_maxAgeSeconds p |} ∧
     digestOf TRADE_DELEGATION_FACTS_DIGEST_DOMAIN (js_of (factsOf o)) = Ok fd) ∧
  let '(status, reason) := match verifyTradeDelegation obs (requirement_of q at_ p pins) with
    | Ok _ => (AUTHORIZED, VERIFIED) | Throw code => (if is_some facts && PROVES_NOT_AUTHORIZED code then NOT_AUTHORIZED else UNAVAILABLE, refusal code) end in
  let b := {| a_status := status; a_reason := reason; a_request := Some q; a_requestViolation := None; a_sourceId := policy_sourceId p; a_facts := facts |} in
  assess_observed q p at_ pins obs = Ok {| a_body := b; a_digest := d; a_readFailure := None |} ∧ digestOf TRADE_DELEGATION_ASSESSMENT_DIGEST_DOMAIN (js_of (bodyOf b)) = Ok d.
Proof.
  intros Hp. unfold assess_observed.
  assert (∃ facts, body_ok {| a_status := AUTHORIZED; a_reason := VERIFIED; a_request := Some q; a_requestViolation := None; a_sourceId := policy_sourceId p; a_facts := facts |} ∧
    (∀ o, parseTradeDelegationObservation obs = Some o → bound_to o q = true → ∃ fd, facts = Some {| facts_observation := o; factsDigest := fd; facts_assessedAt := at_; facts_maxAgeSeconds := policy_maxAgeSeconds p |} ∧
       digestOf TRADE_DELEGATION_FACTS_DIGEST_DOMAIN (js_of (factsOf o)) = Ok fd) ∧
    match parseTradeDelegationObservation obs with
    | Some o => if bound_to o q then let* d := digestOf TRADE_DELEGATION_FACTS_DIGEST_DOMAIN (js_of (factsOf o)) in
        Ok (Some {| facts_observation := o; factsDigest := d; facts_assessedAt := at_; facts_maxAgeSeconds := policy_maxAgeSeconds p |}) else Ok None
    | None => Ok None end = Ok (E := RangeErr) facts) as (facts&Hb&Hf&->).
  { destruct (parseTradeDelegationObservation obs) as [o|] eqn:Eo; [|exists None; split; [done|split; [done|done]]]. destruct (bound_to o q) eqn:Eb; [|exists None; split; [done|split; [by intros o' [= <-]; rewrite Eb|done]]].
    pose proof (parse_observation_ok _ _ Eo) as Ho. rewrite digest_of_data by (by apply facts_data). cbn [result_bind]. eexists. split; [|split; [|reflexivity]]; [unfold body_ok; cbn [a_facts facts_observation facts_maxAgeSeconds]; by split|]. intros o' [= <-] _. eexists. split; [done|]. by rewrite digest_of_data by (by apply facts_data). }
  cbn [result_bind]. exists facts. destruct (verifyTradeDelegation _ _) as [ev|code].
  - edestruct seal_total as (d&->&Hd); [exact Hb|]. exists d. done.
  - edestruct (seal_total {| a_status := if is_some facts && PROVES_NOT_AUTHORIZED code then NOT_AUTHORIZED else UNAVAILABLE; a_reason := refusal code; a_request := Some q; a_requestViolation := None; a_sourceId := policy_sourceId p; a_facts := facts |}) as (d&->&Hd); [exact Hb|].
    exists d. done.
Qed.
End Recorded.

Section Assessed.
Context `{LedgerHash} `{JsHost}.

(** An accepted request, a trusted policy and clock, and something observed. *)
Definition well_asked (input : TradeDelegationAssessmentInput) (q : TradeDelegationVerificationRequest) (p : TradeDelegationPolicy) (obs : JsValue) : Prop :=
  parseTradeDelegationRequest (i_request input) = Ok q ∧ parseTradeDelegationPolicy (i_policy input) = Some p ∧ isTradeInstant (i_assessedAt input) = true ∧ isValidPins (i_pins input) = true ∧
  ∃ read, plain_record (i_read input) = Some read ∧ get "outcome" read = JsString "observed" ∧ obs = get "observation" read.
Definition asked (input : TradeDelegationAssessmentInput) (q : TradeDelegationVerificationRequest) (p : TradeDelegationPolicy) : TradeDelegationRequirement :=
  requirement_of q (as_text (i_assessedAt input)) p (i_pins input).

Lemma assess_cases input : (∃ q p obs, well_asked input q p obs ∧ assessTradeDelegation input = assess_observed q p (as_text (i_assessedAt input)) (i_pins input) obs) ∨
  (¬ (∃ q p obs, well_asked input q p obs)) ∧ ∃ a, assessTradeDelegation input = Ok a ∧ a_status (a_body a) = UNAVAILABLE.
Proof.
  assert (∀ b failure, a_facts b = None → a_status b = UNAVAILABLE → ∃ a, seal b failure = Ok a ∧ a_status (a_body a) = UNAVAILABLE) as Hs.
  { intros b failure Hb Hu. destruct (seal_total b failure) as (d&E&_); [unfold body_ok; by rewrite Hb|]. rewrite E. by eexists. }
  unfold assessTradeDelegation. destruct (parseTradeDelegationRequest (i_request input)) as [q|[v f]] eqn:Eq.
  2:{ right. split; [intros (?&?&?&?&_); congruence|]. by apply Hs. }
  destruct (parseTradeDelegationPolicy (i_policy input)) as [p|] eqn:Ep. 2:{ right. split; [intros (?&?&?&_&?&_); congruence|]. by apply Hs. }
  destruct (isTradeInstant (i_assessedAt input)) eqn:Ei; cbn [negb orb]. 2:{ right. split; [intros (?&?&?&_&_&?&_); congruence|]. by apply Hs. }
  destruct (isValidPins (i_pins input)) eqn:Ev; cbn [negb]. 2:{ right. split; [intros (?&?&?&_&_&_&?&_); congruence|]. by apply Hs. }
  destruct (plain_record (i_read input)) as [read|] eqn:Er. 2:{ right. split; [intros (?&?&?&_&_&_&_&?&?&_); congruence|]. by apply Hs. }
  destruct (is_text "observed" (get "outcome" read)) eqn:Eo; cbn [negb].
  - left. exists q, p, (get "observation" read). apply is_text_eq in Eo. split; [|done]. split_and!; try done. by exists read.
  - right. split; [|by apply Hs]. intros (?&?&?&_&_&_&_&read'&E&Ho&_). rewrite E in Er. injection Er as <-. by rewrite Ho in Eo.
Qed.

Lemma answers_bound obs input q p o : answers obs (asked input q p) o → parseTradeDelegationObservation obs = Some o ∧ bound_to o q = true.
Proof.
  intros (Ho&_&En&Eo&Ed&_). split; [done|]. unfold bound_to. cbn in En, Eo, Ed. by rewrite bool_decide_eq_true_2, (proj2 (str_eqb_eq _ _) Eo), (proj2 (str_eqb_eq _ _) Ed).
Qed.

(** C37. Every input yields exactly one sealed assessment. It says AUTHORIZED
    exactly when an accepted request, a trusted policy and a valid observation
    meet: of the requested network, owner and delegate, no older than the policy
    allows and no newer than the instant of assessment, at or past the pinned
    ledger, of an unchanged entry that grants OfferCreate and nothing beyond the
    trading permissions. It says NOT_AUTHORIZED exactly when such an observation
    shows that there is no such entry, and is otherwise UNAVAILABLE. *)
Theorem delegation_assessment_exact input : ∃ a, assessTradeDelegation input = Ok a ∧
  (a_status (a_body a) = AUTHORIZED ↔ ∃ q p obs o e, well_asked input q p obs ∧ answers obs (asked input q p) o ∧ entry o = Some e ∧
     entry_unchanged (r_expectedPreviousTxnId (asked input q p)) e ∧ trading_only e) ∧
  (a_status (a_body a) = NOT_AUTHORIZED ↔ ∃ q p obs o, well_asked input q p obs ∧ answers obs (asked input q p) o ∧
     match entry o with Some e => ¬ (entry_unchanged (r_expectedPreviousTxnId (asked input q p)) e ∧ trading_only e) | None => True end).
Proof.
  destruct (assess_cases input) as [(q&p&obs&Hw&E)|(Hn&a&E&Hu)].
  2:{ exists a. split; [done|]. rewrite Hu. split; split; try done; [intros (q&p&obs&o&e&Hw&_)|intros (q&p&obs&o&Hw&_)]; destruct Hn; eauto. }
  assert (∀ q' p' obs', well_asked input q' p' obs' → q' = q ∧ p' = p ∧ obs' = obs) as Huniq.
  { destruct Hw as (Hq&Hp&_&_&read&Hr&_&->). intros q' p' obs' (Hq'&Hp'&_&_&read'&Hr'&_&->). split_and!; congruence. }
  destruct (assess_observed_spec q p (as_text (i_assessedAt input)) (i_pins input) obs) as (facts&d&_&Hf&Hs); [destruct Hw as (_&Hp&_); by eapply policy_range|].
  fold (asked input q p) in Hs. pose proof (verify_means obs (asked input q p)) as Hv. rewrite E. destruct (verifyTradeDelegation obs (asked input q p)) as [ev|code].
  - destruct Hs as [-> _]. eexists. split; [done|]. cbn [a_body a_status]. destruct Hv as (o&e&Ha&He&Hu&Ht&_). split.
    + split; [intros _|done]. by exists q, p, obs, o, e.
    + split; [done|]. intros (q'&p'&obs'&o'&(->&->&->)%Huniq&Ha'&Hn). destruct Ha as [Ep _], Ha' as [Ep' _]. assert (o' = o) as -> by congruence. by rewrite He in Hn; destruct Hn.
  - destruct Hs as [-> _]. eexists. split; [done|]. cbn [a_body a_status]. unfold verdict_means in Hv. destruct (PROVES_NOT_AUTHORIZED code).
    + destruct Hv as (o&Ha&Hc). destruct (answers_bound _ _ _ _ _ Ha) as [Ho Hb]. destruct (Hf o Ho Hb) as (fd&->&_). cbn [is_some andb]. split; split; try done.
      * intros (q'&p'&obs'&o'&e'&(->&->&->)%Huniq&Ha'&He'&Hu'&Ht'). assert (o' = o) as -> by (destruct Ha, Ha'; congruence). by rewrite He' in Hc; destruct Hc.
      * intros _. exists q, p, obs, o. split_and!; [done..|]. destruct (entry o); [done|done].
    + rewrite andb_false_r. split; split; try done; [intros (q'&p'&obs'&o'&e'&(->&->&->)%Huniq&Ha'&_)|intros (q'&p'&obs'&o'&(->&->&->)%Huniq&Ha'&_)]; destruct Hv; eauto.
Qed.
End Assessed.

Section Relied.
Context `{LedgerHash} `{JsHost}.

(** What is recorded of an observation of the requested pair. *)
Definition observed_body (status : TradeDelegationAssessmentStatus) (reason : TradeDelegationAssessmentReason) (q : TradeDelegationVerificationRequest) (p : TradeDelegationPolicy)
    (o : TradeDelegationObservation) (fd at_ : string) : AssessmentBody :=
  {| a_status := status; a_reason := reason; a_request := Some q; a_requestViolation := None; a_sourceId := policy_sourceId p;
     a_facts := Some {| facts_observation := o; factsDigest := fd; facts_assessedAt := at_; facts_maxAgeSeconds := policy_maxAgeSeconds p |} |}.
Definition authorized_body := observed_body AUTHORIZED VERIFIED.

(** An assessment that is not UNAVAILABLE records the observation it is of. *)
Lemma assessed_inv input a : assessTradeDelegation input = Ok a → a_status (a_body a) ≠ UNAVAILABLE → ∃ q p obs o fd,
  well_asked input q p obs ∧ answers obs (asked input q p) o ∧ a_body a = observed_body (a_status (a_body a)) (a_reason (a_body a)) q p o fd (as_text (i_assessedAt input)) ∧ a_readFailure a = None ∧
  digestOf TRADE_DELEGATION_ASSESSMENT_DIGEST_DOMAIN (js_of (bodyOf (a_body a))) = Ok (a_digest a) ∧ digestOf TRADE_DELEGATION_FACTS_DIGEST_DOMAIN (js_of (factsOf o)) = Ok fd ∧ observation_ok o ∧
  (a_status (a_body a) = AUTHORIZED → a_reason (a_body a) = VERIFIED ∧ ∃ e, entry o = Some e ∧ trading_only e).
Proof.
  intros E Hs. destruct (assess_cases input) as [(q&p&obs&Hw&E')|(_&a'&E'&Hu)]; [|congruence]. rewrite E' in E.
  destruct (assess_observed_spec q p (as_text (i_assessedAt input)) (i_pins input) obs) as (facts&d&_&Hf&Hsp); [destruct Hw as (_&Hp&_); by eapply policy_range|].
  fold (asked input q p) in Hsp. pose proof (verify_means obs (asked input q p)) as Hv. destruct (verifyTradeDelegation obs (asked input q p)) as [ev|code]; destruct Hsp as [Ea Hd]; rewrite Ea in E; injection E as <-.
  - destruct Hv as (o&e&Ha&He&_&Ht&_). destruct (answers_bound _ _ _ _ _ Ha) as [Ho Hb]. destruct (Hf o Ho Hb) as (fd&->&Hfd). exists q, p, obs, o, fd. split_and!; try done; [by eapply parse_observation_ok|by eauto].
  - cbn [a_body a_status] in Hs. unfold verdict_means in Hv. destruct (PROVES_NOT_AUTHORIZED code); [|by rewrite andb_false_r in Hs].
    destruct Hv as (o&Ha&_). destruct (answers_bound _ _ _ _ _ Ha) as [Ho Hb]. destruct (Hf o Ho Hb) as (fd&->&Hfd). exists q, p, obs, o, fd. split_and!; try done. by eapply parse_observation_ok.
Qed.

Lemma facts_fit o : observation_ok o → fits MAXIMUM_DATA_KEYS isSafeInteger 3 (factsOf o) = true.
Proof.
  intros Ho. pose proof (safe_index _ (oo_ledger o Ho)) as Hl. pose proof (oo_entry o Ho) as He. unfold factsOf. destruct (entry o) as [e|]; destruct (o_network o); cbn [fits app forallb snd fst].
  1,2: destruct He as (Hn&_&Ht); rewrite (safe_index (previousTxnLedgerIndex e)) by (pose proof (oo_ledger o Ho); lia); rewrite Hl;
    unfold json_texts; cbn [fits]; rewrite length_fmap, (proj2 (Nat.leb_le (length (permissions e)) MAXIMUM_DATA_KEYS)) by (unfold MAXIMUM_DATA_KEYS; lia);
    rewrite (proj2 (forallb_forall (fits MAXIMUM_DATA_KEYS isSafeInteger 1) _)) by (intros x (t&->&_)%list_elem_of_In%list_elem_of_fmap; done); reflexivity.
  all: rewrite Hl; reflexivity.
Qed.

(** What a recorded observation is copied to, and reads as. *)
Lemma recorded_copy status reason q p o fd at_ d : observation_ok o → 1 ≤ policy_maxAgeSeconds p ≤ 60 → let a := {| a_body := observed_body status reason q p o fd at_; a_digest := d; a_readFailure := None |} in
  plainData (assessment_object a) = Some (assessment_object a) ∧ without ["digest"; "diagnostic"]%string (assessment_object a) = js_of (bodyOf (a_body a)) ∧
  property "digest" (assessment_object a) = JsString d ∧ property "schema" (assessment_object a) = JsString TRADE_DELEGATION_ASSESSMENT_SCHEMA.
Proof.
  intros Ho Hp a. split; [|split; [|split]]; [|reflexivity..]. rewrite assessment_object_fields. apply plain_copy_fits.
  assert (isSafeInteger (JInt (policy_maxAgeSeconds p)) = true) as Hm by (apply safe_index; unfold UINT32_MAXIMUM; lia). pose proof (facts_fit o Ho) as Hf.
  unfold assessment_fields, body_fields, bodyOf, a, observed_body. cbn [a_body a_readFailure a_status a_reason a_request a_requestViolation a_sourceId a_facts a_digest facts_fields facts_observation factsDigest facts_assessedAt facts_maxAgeSeconds optional app].
  cbn [fits MAXIMUM_DATA_DEPTH forallb fst snd]. change (fits MAXIMUM_DATA_KEYS isSafeInteger 3 (factsOf o)) with (fits MAXIMUM_DATA_KEYS isSafeInteger 3 (factsOf o)). rewrite Hf, Hm. reflexivity.
Qed.

(** Past the digests, a recorded observation is judged by what it says. *)
Lemma recorded_relied status reason q p o fd at_ d x px : observation_ok o → 1 ≤ policy_maxAgeSeconds p ≤ 60 →
  digestOf TRADE_DELEGATION_ASSESSMENT_DIGEST_DOMAIN (js_of (bodyOf (observed_body status reason q p o fd at_))) = Ok d → digestOf TRADE_DELEGATION_FACTS_DIGEST_DOMAIN (js_of (factsOf o)) = Ok fd →
  parseTradeDelegationPolicy (x_policy x) = Some px → isTradeInstant (JsString (x_at x)) = true →
  checkTradeDelegationReliance (assessment_object {| a_body := observed_body status reason q p o fd at_; a_digest := d; a_readFailure := None |}) x = relied_upon (js_of (bodyOf (observed_body status reason q p o fd at_))) px x.
Proof.
  intros Ho Hp Hd Hfd Hx Hi. destruct (recorded_copy status reason q p o fd at_ d Ho Hp) as (Ec&Ew&Eg&Es). unfold checkTradeDelegationReliance. rewrite Hx, Hi, Ec. cbn [negb]. rewrite Eg, Es, Ew.
  cbv zeta. cbn [a_body]. rewrite Hd. assert (property "facts" (js_of (bodyOf (observed_body status reason q p o fd at_))) = js_of (factsOf o)) as -> by reflexivity.
  assert (property "factsDigest" (js_of (bodyOf (observed_body status reason q p o fd at_))) = JsString fd) as -> by reflexivity.
  cbn [is_text]. rewrite str_eqb_refl. cbn [negb]. assert (is_undefined (js_of (factsOf o)) = false) as -> by reflexivity. rewrite Hfd. cbn [result_bind]. rewrite str_eqb_refl. cbn [andb strict_equals]. by rewrite str_eqb_refl.
Qed.

(** The bindings a recorded request, observation and policy carry. *)
Definition binds (q : TradeDelegationVerificationRequest) (p px : TradeDelegationPolicy) (x : TradeDelegationRelianceExpectation) : Prop :=
  q_organizationId q = organizationId (x_proposal x) ∧ q_proposalDigest q = x_proposalDigest x ∧ q_network q = network (x_proposal x) ∧
  q_ownerAccount q = ownerAccount (x_proposal x) ∧ q_delegateAccount q = delegateAccount (x_proposal x) ∧ policy_sourceId p = policy_sourceId px.

Lemma guard_Ok {E A} (b : bool) (e : E) (k : result E A) y : (guard* b else e in k) = Ok y ↔ b = true ∧ k = Ok y.
Proof. destruct b; naive_solver. Qed.
Lemma is_text_JsString s t : is_text s (JsString t) = true ↔ t = s.
Proof. rewrite is_text_eq. naive_solver. Qed.

Lemma permission_reading o e : observation_ok o → entry o = Some e → trading_only e → js_of (permissionReadingOf o) = JsObject true [("offerCreateGranted"%string, JsBool true); ("withinTradingScope"%string, JsBool true)].
Proof.
  intros Ho He [Hr Ht]. unfold permissionReadingOf, offerCreateGranted, withinTradingScope. rewrite He, bool_decide_eq_true_2 by done. pose proof (oo_entry o Ho) as Hn. rewrite He in Hn. rewrite (proj2 (Nat.ltb_lt _ _)) by lia.
  rewrite (proj2 (forallb_forall _ _)); [done|]. intros t Ht'%list_elem_of_In. rewrite Forall_forall in Ht. apply bool_decide_eq_true. auto.
Qed.
Lemma facts_properties o e : entry o = Some e → let F := js_of (factsOf o) in property "state" F = JsString "granted" ∧ property "network" F = JsString (network_name (o_network o)) ∧
  property "networkId" F = JsNum (JInt (networkId (o_network o))) ∧ property "owner" F = JsString (o_owner o) ∧ property "delegate" F = JsString (o_delegate o).
Proof. intros He F. split_and!; [|done..]. unfold F, factsOf. by rewrite He. Qed.

Lemma relied_exact q p o e fd at_ px x : observation_ok o → entry o = Some e → trading_only e → o_network o = q_network q → o_owner o = q_ownerAccount q → o_delegate o = q_delegateAccount q →
  relied_upon (js_of (bodyOf (authorized_body q p o fd at_))) px x = Ok tt ↔
  binds q p px x ∧ 0 ≤ instant_ms (x_at x) - instant_ms (observedAt o) ≤ Z.min (policy_maxAgeSeconds px) (policy_maxAgeSeconds p) * 1000.
Proof.
  intros Ho He Ht En Eo Ed. unfold relied_upon. set (B := js_of (bodyOf (authorized_body q p o fd at_))).
  assert (property "status" B = JsString "AUTHORIZED" ∧ property "reason" B = JsString (reason_text VERIFIED) ∧ property "request" B = js_of (request_json q) ∧ property "facts" B = js_of (factsOf o) ∧
    property "permissionReading" B = js_of (permissionReadingOf o) ∧ property "source" B = js_of (JObj [("sourceId"%string, JTxt (policy_sourceId p))]) ∧
    property "timing" B = js_of (JObj [("observedAt"%string, JTxt (observedAt o)); ("assessedAt"%string, JTxt at_); ("maxAgeSeconds"%string, JNo (policy_maxAgeSeconds p))])) as (->&->&->&->&->&->&->) by done.
  rewrite (permission_reading o e) by done. destruct (facts_properties o e He) as (->&->&->&->&->). rewrite !guard_Ok.
  assert (is_undefined (js_of (factsOf o)) = false) as -> by done.
  set (R := js_of (request_json q)). assert (property "organizationId" R = JsString (q_organizationId q) ∧ property "proposalDigest" R = JsString (q_proposalDigest q) ∧ property "network" R = JsString (network_name (q_network q)) ∧
    property "ownerAccount" R = JsString (q_ownerAccount q) ∧ property "delegateAccount" R = JsString (q_delegateAccount q) ∧ is_undefined R = false) as (->&->&->&->&->&->) by done.
  assert (property "sourceId" (js_of (JObj [("sourceId"%string, JTxt (policy_sourceId p))])) = JsString (policy_sourceId p)) as -> by done.
  set (T := js_of (JObj _)). assert (property "maxAgeSeconds" T = JsNum (JInt (policy_maxAgeSeconds p)) ∧ property "observedAt" T = JsString (observedAt o) ∧ is_undefined T = false) as (->&->&->) by done.
  rewrite !guard_Ok, !andb_true_iff, !is_text_JsString, (oo_instant o Ho), En, Eo, Ed, !Z.leb_le. unfold binds. cbn [as_text integer_value is_undefined orb negb].
  split.
  - intros (_&_&_&?&?&((((((Hn&_)&_)&?)&_)&?)&_)&?&_&?&?&_). apply network_name_inj in Hn. done.
  - intros ((?&?&Hn&?&?&?)&?&?). split_and!; try done; try congruence. rewrite Hn. by destruct (network (x_proposal x)).
Qed.

(** An assessment that says AUTHORIZED is of an observed entry that grants
    OfferCreate and nothing beyond trading, and it may be relied on exactly for
    the proposal it was requested for: the same organization, proposal digest,
    network, owner, delegate and configured source, at an instant no earlier than
    the observation and within the smaller of the recorded and the current bound
    on its age. *)
Theorem delegation_reliance_exact input a x px : assessTradeDelegation input = Ok a → a_status (a_body a) = AUTHORIZED →
  parseTradeDelegationPolicy (x_policy x) = Some px → isTradeInstant (JsString (x_at x)) = true → ∃ q p obs o e,
  well_asked input q p obs ∧ parseTradeDelegationObservation obs = Some o ∧ entry o = Some e ∧ trading_only e ∧
  (checkTradeDelegationReliance (assessment_object a) x = Ok tt ↔
   binds q p px x ∧ 0 ≤ instant_ms (x_at x) - instant_ms (observedAt o) ≤ Z.min (policy_maxAgeSeconds px) (policy_maxAgeSeconds p) * 1000).
Proof.
  intros E Hs Hx Hi. destruct (assessed_inv input a E) as (q&p&obs&o&fd&Hw&Ha&Eb&Ef&Hd&Hfd&Ho&Hau); [by rewrite Hs|]. destruct (Hau Hs) as (Hre&e&He&Ht). rewrite Hs, Hre in Eb.
  destruct (answers_bound _ _ _ _ _ Ha) as [Hp _]. destruct Ha as (_&_&En&Eo&Ed&_). exists q, p, obs, o, e. do 4 (split; [done|]).
  destruct Hw as (_&Hpp&_). apply policy_range in Hpp as [Hpp _]. destruct a as [body digest failure]. cbn [a_body a_digest a_readFailure] in *. subst body failure.
  rewrite (recorded_relied AUTHORIZED VERIFIED q p o fd _ digest x px) by done. by apply relied_exact with (e := e).
Qed.

(** An intact assessment that says NOT_AUTHORIZED is refused as such whatever
    proposal, organization or accounts it is presented for: the bindings are
    compared after the status. *)
Theorem unauthorized_before_binding input a x px : assessTradeDelegation input = Ok a → a_status (a_body a) = NOT_AUTHORIZED →
  parseTradeDelegationPolicy (x_policy x) = Some px → isTradeInstant (JsString (x_at x)) = true → checkTradeDelegationReliance (assessment_object a) x = Throw RELIANCE_NOT_AUTHORIZED.
Proof.
  intros E Hs Hx Hi. destruct (assessed_inv input a E) as (q&p&obs&o&fd&Hw&Ha&Eb&Ef&Hd&Hfd&Ho&_); [by rewrite Hs|]. rewrite Hs in Eb.
  destruct Hw as (_&Hpp&_). apply policy_range in Hpp as [Hpp _]. destruct a as [body digest failure]. cbn [a_body a_digest a_readFailure] in *. subst failure. rewrite Eb in Hd |- *.
  rewrite (recorded_relied NOT_AUTHORIZED (a_reason body) q p o fd _ digest x px) by done. reflexivity.
Qed.
End Relied.

(** ** An instance *)

Module DelegationDemo.
Import TradeDemo.
(** A host that reads the day of the month and the time of an instant. *)
#[local] Instance clock_host : JsHost := {|
  date_parse := λ s, let at_ i n := digits_value (take n (drop i (chars s))) in
    if INSTANT s then Some ((((at_ 8%nat 2%nat * 24 + at_ 11%nat 2%nat) * 60 + at_ 14%nat 2%nat) * 60 + at_ 17%nat 2%nat) * 1000 + at_ 20%nat 3%nat) else None;
  sha256_hex := @sha256_hex demo_host; locale_le := @locale_le demo_host; locale_le_total := @locale_le_total demo_host |}.
Definition sample_hash : string := text (replicate 64 "A"%char).
Definition raw_observation (permitted : list string) (at_ : string) : JsValue := JsObject true [
  ("schema", JsString TRADE_DELEGATION_OBSERVATION_SCHEMA); ("network", JsString "xrp-ledger-testnet"); ("networkId", JsNum (JInt 1)); ("validatedLedgerIndex", JsNum (JInt 900)); ("validatedLedgerHash", JsString sample_hash);
  ("owner", JsString owner); ("delegate", JsString delegate); ("entryIndex", JsString (default ""%string (tradeDelegateEntryIndex owner delegate))); ("observedAt", JsString at_); ("state", JsString "granted");
  ("permissions", JsArray (JsString <$> permitted)); ("previousTxnId", JsString sample_hash); ("previousTxnLedgerIndex", JsNum (JInt 850))].
Definition delegation_policy (seconds : Z) : JsValue := policy_object {| policy_sourceId := "node-1"; policy_maxAgeSeconds := seconds |}.
Definition sample_request : JsValue := js_of (request_json {| q_organizationId := "org-1"; q_proposalDigest := digest ProposalDemo.sample_accepted; q_network := network (proposal ProposalDemo.sample_accepted); q_ownerAccount := owner; q_delegateAccount := delegate |}).
Definition sample_input (permitted : list string) : TradeDelegationAssessmentInput := {|
  i_request := sample_request; i_policy := delegation_policy 30;
  i_read := JsObject true [("outcome", JsString "observed"); ("observation", raw_observation permitted "2026-01-05T10:00:00.000Z")];
  i_assessedAt := JsString "2026-01-05T10:00:20.500Z"; i_pins := JsObject true [("minimumValidatedLedgerIndex", JsNum (JInt 900))] |}.
Definition expectation (digest_ at_ : string) : TradeDelegationRelianceExpectation := {|
  x_proposal := proposal ProposalDemo.sample_accepted; x_proposalDigest := digest_; x_at := at_; x_policy := delegation_policy 60 |}.
Definition sample_assessment (permitted : list string) : option TradeDelegationAssessment := match assessTradeDelegation (sample_input permitted) with Ok a => Some a | Throw _ => None end.
Definition blank_assessment : TradeDelegationAssessment := {| a_body := observed_body UNAVAILABLE VERIFIED {| q_organizationId := ""; q_proposalDigest := ""; q_network := xrp_ledger_testnet; q_ownerAccount := ""; q_delegateAccount := "" |} {| policy_sourceId := ""; policy_maxAgeSeconds := 0 |}
    {| o_network := xrp_ledger_testnet; validatedLedgerIndex := 0; validatedLedgerHash := ""; o_owner := ""; o_delegate := ""; entryIndex := ""; observedAt := ""; entry := None |} "" ""; a_digest := ""; a_readFailure := None |}.
Definition granted_assessment : TradeDelegationAssessment := Eval vm_compute in default blank_assessment (sample_assessment ["OfferCancel"; "OfferCreate"]%string).
Definition excess_assessment : TradeDelegationAssessment := Eval vm_compute in default blank_assessment (sample_assessment ["OfferCreate"; "Payment"]%string).
Example statuses : (a_status ∘ a_body) <$> sample_assessment ["OfferCancel"; "OfferCreate"]%string = Some AUTHORIZED ∧ (a_status ∘ a_body) <$> sample_assessment ["OfferCreate"; "Payment"]%string = Some NOT_AUTHORIZED.
Proof. vm_compute. split; reflexivity. Qed.
(** Relied on for its proposal while fresh, and for no other proposal nor later. *)
Example reliances : let check d at_ := checkTradeDelegationReliance (assessment_object granted_assessment) (expectation d at_) in let d := digest ProposalDemo.sample_accepted in
  check d "2026-01-05T10:00:30.000Z" = Ok tt ∧ check d "2026-01-05T10:00:30.001Z" = Throw RELIANCE_STALE ∧ check d "2026-01-05T09:59:59.999Z" = Throw RELIANCE_FROM_FUTURE ∧
  check "sha256:other" "2026-01-05T10:00:30.000Z" = Throw RELIANCE_PROPOSAL_MISMATCH.
Proof. vm_compute. split_and!; reflexivity. Qed.
Lemma delegation_reliance_exact_witness : ∃ o e, entry o = Some e ∧ trading_only e.
Proof.
  destruct (delegation_reliance_exact (sample_input ["OfferCancel"; "OfferCreate"]%string) granted_assessment (expectation (digest ProposalDemo.sample_accepted) "2026-01-05T10:00:30.000Z")
    {| policy_sourceId := "node-1"; policy_maxAgeSeconds := 60 |}) as (q&p&obs&o&e&_&_&He&Ht&_); [vm_compute; reflexivity..|]. exists o, e. exact (conj He Ht).
Defined.
Lemma unauthorized_before_binding_witness : checkTradeDelegationReliance (assessment_object excess_assessment) (expectation "sha256:other" "2026-01-05T10:00:30.000Z") = Throw RELIANCE_NOT_AUTHORIZED.
Proof.
  apply (unauthorized_before_binding (sample_input ["OfferCreate"; "Payment"]%string) excess_assessment (expectation "sha256:other" "2026-01-05T10:00:30.000Z") {| policy_sourceId := "node-1"; policy_maxAgeSeconds := 60 |}); vm_compute; reflexivity.
Defined.
End DelegationDemo.
