(* ===== verification/TradeRisk.v ===== *)
(** * Exact quantities, market references and exposure

    Model of trade-runtime/policy: the rational arithmetic, strict readers and
    sealed records of trade-risk-exact.ts, the selection of a trusted market
    reference (trade-market-reference.ts), and exposure snapshots with the
    summary of an order inventory (trade-exposure.ts). A rational has the two
    fields of a [TradePrice]. *)

From Stdlib Require Import QArith Qabs Znumtheory Zpow_facts.
From S2P Require Import Prelude Decimal Js JsMap StableJson HashChain Parameters AdapterPort RailAmounts TradeDomain TradeProposal TradeDelegation.

Local Open Scope Z_scope.
Local Open Scope frontera_scope.

(** ** Rationals *)

Definition TradeRational : Type := TradePrice.
Definition rational (numerator denominator : Z) : TradeRational := {| p_numerator := numerator; p_denominator := denominator |}.

Definition reduced (numerator denominator : Z) : result RangeErr TradeRational :=
  if (denominator <=? 0) || (numerator <? 0) then Throw RangeErr_
  else if numerator =? 0 then Ok (rational 0 1)
  else let divisor := gcd numerator denominator in Ok (rational (Z.quot numerator divisor) (Z.quot denominator divisor)).

Definition ZERO_RATIONAL : TradeRational := rational 0 1.
Definition TRADE_RISK_BASIS_POINTS : Z := 10000.

Definition rationalOfQuantity (quantity : TradeExactQuantity) : result RangeErr TradeRational := reduced (coefficient quantity) (10 ^ Z.of_nat (scale quantity)).

Definition rationalOfDecimal (canonical : string) : result RangeErr TradeRational :=
  if negb (isCanonicalDecimal canonical MONETARY_DECIMAL_MAXIMUM_DIGITS) then Throw RangeErr_
  else
    let l := chars canonical in
    match index_of_point l with
    | None => reduced (digits_value l) 1
    | Some point => reduced (digits_value (take point l ++ drop (S point) l)) (10 ^ Z.of_nat (length l - point - 1))
    end.

Definition addRationals (left right : TradeRational) : result RangeErr TradeRational :=
  reduced (p_numerator left * p_denominator right + p_numerator right * p_denominator left) (p_denominator left * p_denominator right).
Definition multiplyRationals (left right : TradeRational) : result RangeErr TradeRational :=
  reduced (p_numerator left * p_numerator right) (p_denominator left * p_denominator right).
Definition compareRationals (left right : TradeRational) : Z :=
  let l := p_numerator left * p_denominator right in
  let r := p_numerator right * p_denominator left in
  if l <? r then -1 else if r <? l then 1 else 0.

Definition deviationBasisPoints (limit reference : TradePrice) : result RangeErr TradeRational :=
  if p_numerator reference <=? 0 then Throw RangeErr_
  else
    let crossLimit := p_numerator limit * p_denominator reference in
    let crossReference := p_numerator reference * p_denominator limit in
    let difference := if crossReference <=? crossLimit then crossLimit - crossReference else crossReference - crossLimit in
    reduced (difference * TRADE_RISK_BASIS_POINTS) (p_numerator reference * p_denominator limit).

Definition formatTradeRational (value : TradeRational) : string := formatTradePrice value.

(** ** Strict readers *)

Definition closedRecord (raw : JsValue) (required optional : list string) : option (list (string * JsValue)) :=
  match snapshotTradeRecord raw (length required + length optional) with
  | Throw _ => None
  | Ok entries =>
      if existsb (λ key, negb (bool_decide (key ∈ required)) && negb (bool_decide (key ∈ optional))) entries.*1 then None
      else if existsb (λ key, negb (has key entries)) required then None
      else Some entries
  end.

Definition plainList (raw : JsValue) (maximum : Z) : option (list JsValue) :=
  match raw with
  | JsArray l => if maximum <? Z.of_nat (length l) then None else if existsb (λ v, match v with JsAccessor => true | _ => false end) l then None else Some l
  | _ => None
  end.

Definition parseRiskDecimal (raw : JsValue) : option string := text_of (λ s, isCanonicalDecimal s MONETARY_DECIMAL_MAXIMUM_DIGITS) raw.
Definition parsePositiveRiskDecimal (raw : JsValue) : option string :=
  match parseRiskDecimal raw with Some s => if str_eqb s "0" then None else Some s | None => None end.
Definition parseRiskPrice (raw : JsValue) : option TradePrice := parseTradePriceAssertion raw.

Definition price_json (price : TradePrice) : Json := JObj [("numerator", JTxt (text (bigint_to_string (p_numerator price)))); ("denominator", JTxt (text (bigint_to_string (p_denominator price))))].
Definition asset_json (asset : TradeAsset) : Json := JObj (match asset with xrp => [("currency", JTxt "XRP")] | issued currency issuer => [("currency", JTxt currency); ("issuer", JTxt issuer)] end).

(** Milliseconds between two instants, and whether a reading is recent enough. *)
Definition millisecondsBetween `{JsHost} (from to : string) : Z := instant_ms to - instant_ms from.
Inductive FreshnessVerdict := fresh | stale | future | invalid.
Definition freshnessAt `{JsHost} (observedAt : JsValue) (maxAgeSeconds : Z) (at_ : string) : FreshnessVerdict :=
  if negb (isTradeInstant observedAt) || negb (isTradeInstant (JsString at_)) || negb (isSafeIntegerIn (JsNum (JInt maxAgeSeconds)) 1 31536000) then invalid
  else
    let age := millisecondsBetween (as_text observedAt) at_ in
    if age <? 0 then future else if maxAgeSeconds * 1000 <? age then stale else fresh.

Section Readers.
Context `{LedgerHash}.
Definition parseRiskAsset (raw : JsValue) : option TradeAsset :=
  match snapshotTradeRecord raw 2 with
  | Throw _ => None
  | Ok entries =>
      if is_text "XRP" (get "currency" entries) then (if (length entries =? 1)%nat then Some xrp else None)
      else if negb (length entries =? 2)%nat || negb (has "issuer" entries) then None
      else
        match parseTradeAmount (JsObject true [("currency", get "currency" entries); ("issuer", get "issuer" entries); ("value", JsString "1")]) "asset" with
        | Ok amount => Some (tradeAssetOf amount)
        | Throw _ => None
        end
  end.
End Readers.

(** ** Sealed records *)

Definition risk_number (n : JsNumber) : bool := isSafeInteger n && negb (bool_decide (n = JNegZero)).
Definition RISK_DATA_DEPTH : nat := 8.
Definition RISK_DATA_KEYS : nat := 64.
Definition plainRiskData : JsValue → option JsValue := plain_copy RISK_DATA_KEYS risk_number RISK_DATA_DEPTH.

Section Sealing.
Context `{JsHost}.
Definition tradeRiskDigest (domain : string) (v : JsValue) : result RangeErr string := let* t := canonicalTradeJson v in Ok ("sha256:" +:+ sha256_hex (domain +:+ NEWLINE +:+ t)).
(** The copy of a sealed record whose digest is the digest of the rest of it. *)
Definition unsealRiskRecord (domain : string) (raw : JsValue) : option (list (string * JsValue)) :=
  match plainRiskData raw with
  | Some (JsObject true properties) =>
      match get "digest" properties with
      | JsString digest =>
          match tradeRiskDigest domain (without ["digest"]%string (JsObject true properties)) with
          | Ok recomputed => if str_eqb recomputed digest then Some properties else None
          | Throw _ => None
          end
      | _ => None
      end
  | _ => None
  end.
End Sealing.

(** ** What rationals mean *)

Definition risk_rational (r : TradeRational) : Prop := 0 ≤ p_numerator r ∧ 0 < p_denominator r ∧ Z.gcd (p_numerator r) (p_denominator r) = 1.

Lemma reduced_exact n d : 0 ≤ n → 0 < d → ∃ r, reduced n d = Ok r ∧ risk_rational r ∧ (price_value r == n # Z.to_pos d)%Q.
Proof.
  intros Hn Hd. unfold reduced. rewrite (proj2 (Z.leb_gt d 0)), (proj2 (Z.ltb_ge n 0)) by lia. cbn [orb]. destruct (Z.eqb_spec n 0) as [->|Hz].
  - exists (rational 0 1). split; [done|]. split; [done|]. reflexivity.
  - destruct (reduce_spec n d) as [(Hpn&Hpd&Hg) E]; [lia..|]. eexists. split; [reflexivity|]. split; [split; [by apply Z.lt_le_incl|done]|].
    unfold price_value, Qeq. cbn [Qnum Qden]. rewrite !Z2Pos.id by done. exact E.
Qed.
Lemma rational_price p : reduced_price p → risk_rational p.
Proof. intros (Hn&Hd&Hg). split; [lia|done]. Qed.
Lemma rational_nonneg r : risk_rational r → (0 <= price_value r)%Q.
Proof. intros (Hn&Hd&_). unfold price_value, Qle. cbn [Qnum Qden]. lia. Qed.
Lemma rational_unique p q : risk_rational p → risk_rational q → (price_value p == price_value q)%Q → p = q.
Proof.
  intros (Hn&Hd&Hg) (Hn'&Hd'&Hg') E. destruct (Z.eq_dec (p_numerator p) 0) as [Z|Z]; [|assert (p_numerator q ≠ 0) by (intros Z'; apply price_value_eq in E; [rewrite Z' in E; nia|done..]); apply reduced_unique; [split; [lia|done]..|done]].
  assert (p_numerator q = 0) as Z' by (apply price_value_eq in E; [rewrite Z in E; nia|done..]). rewrite Z, Z.gcd_0_l in Hg. rewrite Z', Z.gcd_0_l in Hg'. destruct p, q. cbn in *. f_equal; lia.
Qed.

Lemma fraction_sum a b c d : 0 < b → 0 < d → ((a * d + c * b) # Z.to_pos (b * d) == (a # Z.to_pos b) + (c # Z.to_pos d))%Q.
Proof. intros. unfold Qeq, Qplus. cbn [Qnum Qden]. rewrite !Pos2Z.inj_mul, !Z2Pos.id by nia. nia. Qed.
Lemma fraction_product a b c d : 0 < b → 0 < d → ((a * c) # Z.to_pos (b * d) == (a # Z.to_pos b) * (c # Z.to_pos d))%Q.
Proof. intros. unfold Qeq, Qmult. cbn [Qnum Qden]. rewrite !Pos2Z.inj_mul, !Z2Pos.id by nia. nia. Qed.

Lemma addRationals_exact p q : risk_rational p → risk_rational q → ∃ r, addRationals p q = Ok r ∧ risk_rational r ∧ (price_value r == price_value p + price_value q)%Q.
Proof.
  intros (Hn&Hd&_) (Hn'&Hd'&_). destruct (reduced_exact (p_numerator p * p_denominator q + p_numerator q * p_denominator p) (p_denominator p * p_denominator q)) as (r&E&Hr&Ev); [nia..|].
  exists r. split; [done|]. split; [done|]. rewrite Ev. by apply fraction_sum.
Qed.
Lemma multiplyRationals_exact p q : risk_rational p → risk_rational q → ∃ r, multiplyRationals p q = Ok r ∧ risk_rational r ∧ (price_value r == price_value p * price_value q)%Q.
Proof.
  intros (Hn&Hd&_) (Hn'&Hd'&_). destruct (reduced_exact (p_numerator p * p_numerator q) (p_denominator p * p_denominator q)) as (r&E&Hr&Ev); [nia..|].
  exists r. split; [done|]. split; [done|]. rewrite Ev. by apply fraction_product.
Qed.
Lemma compareRationals_exact p q : risk_rational p → risk_rational q → compareRationals p q = order_code (Qcompare (price_value p) (price_value q)).
Proof. intros (_&Hd&_) (_&Hd'&_). by apply cross_compare. Qed.
Lemma rationalOfQuantity_exact v : 0 ≤ coefficient v → ∃ r, rationalOfQuantity v = Ok r ∧ risk_rational r ∧ (price_value r == exact_value v)%Q.
Proof. intros Hc. apply reduced_exact; [done|]. apply pow10_pos. Qed.
Lemma rationalOfDecimal_parse s : isCanonicalDecimal s MONETARY_DECIMAL_MAXIMUM_DIGITS = true → rationalOfDecimal s = rationalOfQuantity (parse_decimal (chars s)).
Proof.
  intros Hs. unfold rationalOfDecimal, rationalOfQuantity, parse_decimal. rewrite Hs. cbn [negb]. destruct (index_of_point (chars s)) as [p|]; [|done]. cbn [coefficient scale].
  reflexivity.
Qed.
Lemma rationalOfDecimal_exact s : isCanonicalDecimal s MONETARY_DECIMAL_MAXIMUM_DIGITS = true → ∃ r, rationalOfDecimal s = Ok r ∧ risk_rational r ∧ (price_value r == dec_value s)%Q.
Proof.
  intros Hs. rewrite rationalOfDecimal_parse by done. apply rationalOfQuantity_exact. apply canonical_coefficient_nonneg. by eapply isCanonicalDecimal_grammar.
Qed.

(** A deviation is the distance from the reference, relative to it. *)
Lemma deviation_exact limit reference : reduced_price limit → reduced_price reference →
  ∃ r, deviationBasisPoints limit reference = Ok r ∧ risk_rational r ∧ (price_value r == Qabs (price_value limit - price_value reference) / price_value reference * inject_Z 10000)%Q.
Proof.
  intros (Ln&Ld&_) (Rn&Rd&_). unfold deviationBasisPoints. rewrite (proj2 (Z.leb_gt _ _)) by lia. cbv zeta.
  set (difference := if _ <=? _ then _ else _). assert (difference = Z.abs (p_numerator limit * p_denominator reference - p_numerator reference * p_denominator limit)) as Hd by (unfold difference; destruct (Z.leb_spec (p_numerator reference * p_denominator limit) (p_numerator limit * p_denominator reference)); lia).
  destruct (reduced_exact (difference * TRADE_RISK_BASIS_POINTS) (p_numerator reference * p_denominator limit)) as (r&E&Hr&Ev); [unfold TRADE_RISK_BASIS_POINTS; lia|nia|].
  exists r. split; [done|]. split; [done|]. rewrite Ev, Hd. unfold price_value, Qabs, Qminus, Qplus, Qopp, Qdiv, Qinv, Qmult, Qeq, TRADE_RISK_BASIS_POINTS, inject_Z.
  destruct (p_numerator reference) as [|n|n]; [lia| |lia]. cbn [Qnum Qden]. rewrite !Pos2Z.inj_mul, !Z2Pos.id by nia. rewrite Z.mul_opp_l, Z.add_opp_r. ring.
Qed.

(** ** Decimal texts of rationals *)

(** Divides out a factor, counting; the logarithm of the number bounds the rounds. *)
Fixpoint divide_out (fuel : nat) (factor rest : Z) (count : nat) : Z * nat :=
  match fuel with
  | O => (rest, count)
  | S fuel => if Z.rem rest factor =? 0 then divide_out fuel factor (Z.quot rest factor) (S count) else (rest, count)
  end.
Definition decimalOf (value : TradeRational) : string :=
  let fuel := S (Z.to_nat (Z.log2 (p_denominator value))) in
  let '(rest, twos) := divide_out fuel 2 (p_denominator value) 0 in
  let '(rest, fives) := divide_out fuel 5 rest 0 in
  if negb (rest =? 1) then formatTradeRational value
  else
    let scale := if (fives <? twos)%nat then twos else fives in
    formatTradeExactQuantity {| coefficient := p_numerator value * Z.quot (10 ^ Z.of_nat scale) (p_denominator value); scale := scale |}.

Lemma divide_out_spec fuel factor rest count : 2 ≤ factor → 0 < rest → Z.log2 rest < Z.of_nat fuel →
  ∃ r k, divide_out fuel factor rest count = (r, (count + k)%nat) ∧ 0 < r ∧ rest = r * factor ^ Z.of_nat k ∧ ¬ (factor | r).
Proof.
  intros Hf. revert rest count. induction fuel as [|fuel IH]; intros rest count Hr Hl; [pose proof (Z.log2_nonneg rest); lia|].
  cbn [divide_out]. destruct (Z.eqb_spec (Z.rem rest factor) 0) as [E|E].
  - assert (rest = factor * Z.quot rest factor) as Eq by (pose proof (Z.quot_rem' rest factor); lia). assert (0 < Z.quot rest factor) as Hq by nia.
    destruct (IH (Z.quot rest factor) (S count)) as (r&k&->&Hr'&Ek&Hn); [done| |].
    { pose proof (log2_half (Z.quot rest factor) rest Hq ltac:(nia)). lia. }
    exists r, (S k). split; [f_equal; lia|]. split; [done|]. split; [|done]. rewrite Eq, Ek at 1. rewrite Nat2Z.inj_succ, Z.pow_succ_r by lia. ring.
  - exists rest, 0%nat. split; [f_equal; lia|]. split; [done|]. split; [cbn; lia|]. intros [q Hq]. apply E. rewrite Hq. apply Z.rem_mul. lia.
Qed.

Lemma prime_5 : prime 5.
Proof. apply prime_intro; [lia|]. intros n Hn. assert (n = 1 ∨ n = 2 ∨ n = 3 ∨ n = 4) as [->|[->|[-> | ->]]] by lia; apply Zgcd_1_rel_prime; reflexivity. Qed.
Lemma only_tens r n : 0 < r → ¬ (2 | r) → ¬ (5 | r) → (r | 10 ^ Z.of_nat n) → r = 1.
Proof.
  intros Hr H2 H5 Hd. assert (rel_prime r 10) as Hp.
  { change 10 with (2 * 5). apply rel_prime_mult; apply rel_prime_sym, prime_rel_prime; done || apply prime_2 || apply prime_5. }
  assert (rel_prime r (10 ^ Z.of_nat n)) as Hn by (apply rel_prime_Zpower_r; [lia|done]). destruct Hn as [_ _ Hg]. specialize (Hg r ltac:(apply Z.divide_refl) Hd).
  apply Z.divide_1_r in Hg. lia.
Qed.
Lemma tens_split a b s : (a ≤ s)%nat → (b ≤ s)%nat → (2 ^ Z.of_nat a * 5 ^ Z.of_nat b | 10 ^ Z.of_nat s).
Proof.
  intros Ha Hb. change 10 with (2 * 5). rewrite Z.pow_mul_l. etransitivity; [apply Z.mul_divide_mono_r|apply Z.mul_divide_mono_l]; [replace (Z.of_nat s) with (Z.of_nat (s - a) + Z.of_nat a) by lia|replace (Z.of_nat s) with (Z.of_nat (s - b) + Z.of_nat b) by lia]; rewrite Z.pow_add_r by lia; by eexists.
Qed.

(** A rational that is the value of a decimal is printed as its canonical text. *)
Lemma decimalOf_exact r v : risk_rational r → (price_value r == exact_value v)%Q → canonical_grammar (chars (decimalOf r)) = true ∧ (dec_value (decimalOf r) == price_value r)%Q.
Proof.
  intros (Hn&Hd&Hg) E. pose proof (pow10_pos (scale v)) as Hp.
  assert (p_denominator r | 10 ^ Z.of_nat (scale v)) as Hdiv.
  { unfold price_value, exact_value, Qeq in E. cbn [Qnum Qden] in E. rewrite !Z2Pos.id in E by done. apply (Z.gauss _ (p_numerator r)); [exists (coefficient v); lia|by rewrite Z.gcd_comm]. }
  unfold decimalOf. pose proof (Z.log2_nonneg (p_denominator r)).
  destruct (divide_out_spec (S (Z.to_nat (Z.log2 (p_denominator r)))) 2 (p_denominator r) 0) as (r2&a&->&H2&E2&N2); [lia|done|lia|]. cbn [Nat.add].
  assert (Z.log2 r2 ≤ Z.log2 (p_denominator r)) as Hl by (apply Z.log2_le_mono; pose proof (Z.pow_pos_nonneg 2 (Z.of_nat a) ltac:(lia) ltac:(lia)); nia).
  destruct (divide_out_spec (S (Z.to_nat (Z.log2 (p_denominator r)))) 5 r2 0) as (r5&b&->&H5&E5&N5); [lia|done|lia|]. cbn [Nat.add].
  assert (r5 = 1) as -> by (apply (only_tens r5 (scale v)); [done|intros [q Hq]; apply N2; rewrite E5, Hq; exists (q * 5 ^ Z.of_nat b); ring|done|
    etransitivity; [|exact Hdiv]; rewrite E2, E5; exists (5 ^ Z.of_nat b * 2 ^ Z.of_nat a); ring]).
  cbn [negb Z.eqb]. set (s := if (b <? a)%nat then a else b). destruct (tens_split a b s) as [q Hq]; [unfold s; destruct (Nat.ltb_spec b a); lia..|].
  assert (p_denominator r = 2 ^ Z.of_nat a * 5 ^ Z.of_nat b) as Ed by lia. rewrite <-Ed in Hq. pose proof (pow10_pos s) as Hs. assert (0 < q) by nia.
  destruct (formatTradeExactQuantity_exact {| coefficient := p_numerator r * Z.quot (10 ^ Z.of_nat s) (p_denominator r); scale := s |}) as [Hc Hv]; cbn [coefficient scale].
  { rewrite Hq, Z.quot_mul by lia. nia. }
  split; [done|]. rewrite Hv. unfold exact_value, price_value, Qeq. cbn [Qnum Qden coefficient scale]. rewrite !Z2Pos.id by done. rewrite Hq, Z.quot_mul by lia. ring.
Qed.

(** ** Order inventories *)

Inductive TradeOrderLifecycleState := pending_submission | submitted_uncertain | state_open | partially_filled | state_filled | state_cancelled | state_expired.
Definition STATES : list (string * TradeOrderLifecycleState) :=
  [("pending-submission", pending_submission); ("submitted-uncertain", submitted_uncertain); ("open", state_open); ("partially-filled", partially_filled); ("filled", state_filled);
   ("cancelled", state_cancelled); ("expired", state_expired)]%string.
Record TradeOrderInventoryEntry := { order_state : TradeOrderLifecycleState; orderedExposure : string; filledExposure : string }.
Record TradeOrderInventorySummary := {
  currentExposure : string; pendingExposure : string; activeOrderExposure : string;
  ledgerOpenOffers : Z; pendingSubmissions : Z; uncertainSubmissions : Z }.
Inductive TradeOrderInventoryResult := inventory_valid (summary : TradeOrderInventorySummary) | inventory_invalid (index : Z).

Definition read_order (raw : JsValue) : option TradeOrderInventoryEntry :=
  match closedRecord raw ["state"; "orderedExposure"; "filledExposure"]%string [] with
  | None => None
  | Some entry =>
      match get "state" entry, parseRiskDecimal (get "orderedExposure" entry), parseRiskDecimal (get "filledExposure" entry) with
      | JsString s, Some ordered, Some filled => (λ st, {| order_state := st; orderedExposure := ordered; filledExposure := filled |}) <$> map_get s STATES
      | _, _, _ => None
      end
  end.

(** What the loop carries. *)
Record InventoryTotals := { t_settled : TradeRational; t_pending : TradeRational; t_open : TradeRational; t_offers : Z; t_submissions : Z; t_uncertain : Z }.
Definition no_orders : InventoryTotals := {| t_settled := ZERO_RATIONAL; t_pending := ZERO_RATIONAL; t_open := ZERO_RATIONAL; t_offers := 0; t_submissions := 0; t_uncertain := 0 |}.

(** One round: [None] when the order refuses the inventory. *)
Definition add_order (t : InventoryTotals) (e : TradeOrderInventoryEntry) : result RangeErr (option InventoryTotals) :=
  let* orderedValue := rationalOfDecimal (orderedExposure e) in
  let* filledValue := rationalOfDecimal (filledExposure e) in
  if p_numerator orderedValue * p_denominator filledValue <? p_numerator filledValue * p_denominator orderedValue then Ok None
  else
    let remainder := rational (p_numerator orderedValue * p_denominator filledValue - p_numerator filledValue * p_denominator orderedValue) (p_denominator orderedValue * p_denominator filledValue) in
    let* remaining := addRationals ZERO_RATIONAL remainder in
    let* settled := addRationals (t_settled t) filledValue in
    let totals pending opened offers submissions uncertain := {| t_settled := settled; t_pending := pending; t_open := opened; t_offers := offers; t_submissions := submissions; t_uncertain := uncertain |} in
    match order_state e with
    | pending_submission => let* pending := addRationals (t_pending t) remaining in Ok (Some (totals pending (t_open t) (t_offers t) (t_submissions t + 1) (t_uncertain t)))
    | submitted_uncertain => let* pending := addRationals (t_pending t) remaining in Ok (Some (totals pending (t_open t) (t_offers t) (t_submissions t) (t_uncertain t + 1)))
    | state_open | partially_filled => let* opened := addRationals (t_open t) remaining in Ok (Some (totals (t_pending t) opened (t_offers t + 1) (t_submissions t) (t_uncertain t)))
    | state_filled | state_cancelled | state_expired => Ok (Some (totals (t_pending t) (t_open t) (t_offers t) (t_submissions t) (t_uncertain t)))
    end.

Fixpoint sum_orders (index : Z) (t : InventoryTotals) (l : list JsValue) : result RangeErr (InventoryTotals + Z) :=
  match l with
  | [] => Ok (inl t)
  | raw :: l =>
      match read_order raw with
      | None => Ok (inr index)
      | Some e => let* added := add_order t e in match added with Some t => sum_orders (index + 1) t l | None => Ok (inr index) end
      end
  end.

Definition summarizeTradeOrderInventory (raw : JsValue) : result RangeErr TradeOrderInventoryResult :=
  match plainList raw 100000 with
  | None => Ok (inventory_invalid (-1))
  | Some l =>
      let* totals := sum_orders 0 no_orders l in
      match totals with
      | inr index => Ok (inventory_invalid index)
      | inl t => Ok (inventory_valid {| currentExposure := decimalOf (t_settled t); pendingExposure := decimalOf (t_pending t); activeOrderExposure := decimalOf (t_open t);
                                        ledgerOpenOffers := t_offers t; pendingSubmissions := t_submissions t; uncertainSubmissions := t_uncertain t |})
      end
  end.

Definition sample_order (s ordered filled : string) : JsValue := JsObject true [("state", JsString s); ("orderedExposure", JsString ordered); ("filledExposure", JsString filled)].
Example inventory_ex : summarizeTradeOrderInventory (JsArray [sample_order "open" "0.3" "0.1"; sample_order "partially-filled" "1" "0.25"; sample_order "submitted-uncertain" "2" "0"; sample_order "cancelled" "7" "0.05"])
  = Ok (inventory_valid {| currentExposure := "0.4"; pendingExposure := "2"; activeOrderExposure := "0.95"; ledgerOpenOffers := 2; pendingSubmissions := 0; uncertainSubmissions := 1 |}).
Proof. vm_compute. reflexivity. Qed.

(** ** The summary is exact *)

Definition decimal_valued (r : TradeRational) (q : Q) : Prop := risk_rational r ∧ (price_value r == q)%Q ∧ ∃ v, (q == exact_value v)%Q.

#[global] Instance decimal_valued_proper : Proper (eq ==> Qeq ==> iff) decimal_valued.
Proof. intros r ? <- a b E. unfold decimal_valued. by setoid_rewrite E. Qed.

Lemma decimal_sum v w : ∃ u, (exact_value v + exact_value w == exact_value u)%Q.
Proof.
  exists {| coefficient := coefficient v * 10 ^ Z.of_nat (scale w) + coefficient w * 10 ^ Z.of_nat (scale v); scale := scale v + scale w |}.
  pose proof (pow10_pos (scale v)). pose proof (pow10_pos (scale w)). unfold exact_value. cbn [coefficient scale]. rewrite Nat2Z.inj_add, Z.pow_add_r by lia. symmetry. by apply fraction_sum.
Qed.
Lemma decimal_opp v : ∃ u, (- exact_value v == exact_value u)%Q.
Proof. by exists {| coefficient := - coefficient v; scale := scale v |}. Qed.
Lemma decimal_minus v w : ∃ u, (exact_value v - exact_value w == exact_value u)%Q.
Proof. destruct (decimal_opp w) as [w' Hw]. destruct (decimal_sum v w') as [u Hu]. exists u. unfold Qminus. by rewrite Hw. Qed.
Lemma zero_valued : decimal_valued ZERO_RATIONAL 0.
Proof. split; [done|]. split; [done|]. by exists {| coefficient := 0; scale := 0 |}. Qed.
Lemma add_valued p q a b : decimal_valued p a → decimal_valued q b → ∃ r, addRationals p q = Ok r ∧ decimal_valued r (a + b)%Q.
Proof.
  intros (Hp&Ep&v&Ev) (Hq&Eq&w&Ew). destruct (addRationals_exact p q Hp Hq) as (r&E&Hr&Er). exists r. split; [done|]. split; [done|]. split; [by rewrite Er, Ep, Eq|].
  destruct (decimal_sum v w) as [u Hu]. exists u. by rewrite Ev, Ew.
Qed.
Lemma decimal_text s : isCanonicalDecimal s MONETARY_DECIMAL_MAXIMUM_DIGITS = true → ∃ r, rationalOfDecimal s = Ok r ∧ decimal_valued r (dec_value s).
Proof. intros Hs. destruct (rationalOfDecimal_exact s Hs) as (r&E&Hr&Ev). exists r. split; [done|]. split; [done|]. split; [done|]. by exists (parse_decimal (chars s)). Qed.

(** What is left of an order, and where its parts are counted. *)
Definition order_ok (e : TradeOrderInventoryEntry) : Prop := (dec_value (filledExposure e) <= dec_value (orderedExposure e))%Q.
Definition remaining_of (e : TradeOrderInventoryEntry) : Q := (dec_value (orderedExposure e) - dec_value (filledExposure e))%Q.
Definition filled_of (e : TradeOrderInventoryEntry) : Q := dec_value (filledExposure e).
Definition counted_if (b : bool) : Z := if b then 1 else 0.
Definition awaits (e : TradeOrderInventoryEntry) : bool := match order_state e with pending_submission | submitted_uncertain => true | _ => false end.
Definition rests (e : TradeOrderInventoryEntry) : bool := match order_state e with state_open | partially_filled => true | _ => false end.
Definition is_submission (e : TradeOrderInventoryEntry) : bool := match order_state e with pending_submission => true | _ => false end.
Definition is_uncertain (e : TradeOrderInventoryEntry) : bool := match order_state e with submitted_uncertain => true | _ => false end.
Definition pending_of (e : TradeOrderInventoryEntry) : Q := if awaits e then remaining_of e else 0%Q.
Definition open_of (e : TradeOrderInventoryEntry) : Q := if rests e then remaining_of e else 0%Q.

Fixpoint total {A} (f : A → Q) (l : list A) : Q := match l with [] => 0%Q | x :: l => (f x + total f l)%Q end.
Definition how_many {A} (p : A → bool) (l : list A) : Z := Z.of_nat (length (List.filter p l)).

Record totals_are (t : InventoryTotals) (settled pending opened : Q) (offers submissions uncertain : Z) : Prop := {
  ta_settled : decimal_valued (t_settled t) settled; ta_pending : decimal_valued (t_pending t) pending; ta_open : decimal_valued (t_open t) opened;
  ta_offers : t_offers t = offers; ta_submissions : t_submissions t = submissions; ta_uncertain : t_uncertain t = uncertain }.

Lemma read_order_decimals raw e : read_order raw = Some e → isCanonicalDecimal (orderedExposure e) MONETARY_DECIMAL_MAXIMUM_DIGITS = true ∧ isCanonicalDecimal (filledExposure e) MONETARY_DECIMAL_MAXIMUM_DIGITS = true.
Proof.
  unfold read_order, parseRiskDecimal. destruct (closedRecord raw _ _) as [entry|]; [|done]. destruct (get "state" entry); try done.
  destruct (text_of _ (get "orderedExposure" entry)) as [o|] eqn:Eo; [|done]. destruct (text_of _ (get "filledExposure" entry)) as [f|] eqn:Ef; [|done].
  apply text_of_Some in Eo as [_ Ho], Ef as [_ Hf]. destruct (map_get s STATES) as [st|]; [|done]. by intros [= <-].
Qed.

(** The remainder of an order that is not overfilled, in lowest terms. *)
Lemma remainder_exact o f a b : decimal_valued o a → decimal_valued f b → (b <= a)%Q →
  ∃ r, addRationals ZERO_RATIONAL (rational (p_numerator o * p_denominator f - p_numerator f * p_denominator o) (p_denominator o * p_denominator f)) = Ok r ∧ decimal_valued r (a - b)%Q.
Proof.
  intros ((Hn&Hd&_)&Eo&v&Ev) ((Hn'&Hd'&_)&Ef&w&Ew) L. rewrite <-Eo, <-Ef in L. unfold price_value, Qle in L. cbn [Qnum Qden] in L. rewrite !Z2Pos.id in L by done.
  unfold addRationals, ZERO_RATIONAL, rational. cbn [p_numerator p_denominator]. destruct (reduced_exact (0 * (p_denominator o * p_denominator f) + (p_numerator o * p_denominator f - p_numerator f * p_denominator o) * 1) (1 * (p_denominator o * p_denominator f))) as (r&E&Hr&Er); [nia..|].
  exists r. split; [done|]. split; [done|]. split.
  - rewrite Er, <-Eo, <-Ef. rewrite Z.mul_1_l. unfold price_value, Qminus, Qplus, Qopp, Qeq. cbn [Qnum Qden]. rewrite !Pos2Z.inj_mul, !Z2Pos.id by nia. ring.
  - destruct (decimal_minus v w) as [u Hu]. exists u. by rewrite Ev, Ew.
Qed.

Lemma order_overfilled o f a b : decimal_valued o a → decimal_valued f b → (p_numerator o * p_denominator f <? p_numerator f * p_denominator o) = false ↔ (b <= a)%Q.
Proof.
  intros ((_&Hd&_)&Eo&_) ((_&Hd'&_)&Ef&_). rewrite <-Eo, <-Ef. unfold price_value, Qle. cbn [Qnum Qden]. rewrite !Z2Pos.id by done. apply Z.ltb_ge.
Qed.
Lemma add_order_exact t e s p o n1 n2 n3 raw : totals_are t s p o n1 n2 n3 → read_order raw = Some e →
  (order_ok e → ∃ t', add_order t e = Ok (Some t') ∧
    totals_are t' (s + filled_of e)%Q (p + pending_of e)%Q (o + open_of e)%Q (n1 + counted_if (rests e)) (n2 + counted_if (is_submission e)) (n3 + counted_if (is_uncertain e))) ∧
  (¬ order_ok e → add_order t e = Ok None).
Proof.
  intros [Hs Hp Ho E1 E2 E3] [Hor Hfi]%read_order_decimals. unfold add_order. destruct (decimal_text _ Hor) as (ro&->&Vo), (decimal_text _ Hfi) as (rf&->&Vf). cbn [result_bind].
  pose proof (order_overfilled ro rf _ _ Vo Vf) as Hb. fold (order_ok e) in Hb. split; intros Hok.
  2:{ destruct (_ <? _) eqn:El; [done|]. tauto. }
  rewrite (proj2 Hb Hok). destruct (remainder_exact ro rf _ _ Vo Vf Hok) as (rr&->&Vr). destruct (add_valued _ _ _ _ Hs Vf) as (rs&->&Vs). cbn [result_bind].
  destruct (add_valued _ _ _ _ Hp Vr) as (rp&Ep&Vp). destruct (add_valued _ _ _ _ Ho Vr) as (rq&Eq&Vq). rewrite Ep, Eq. cbn [result_bind].
  unfold pending_of, open_of, rests, awaits, is_submission, is_uncertain, remaining_of.
  destruct (order_state e); (eexists; split; [reflexivity|]); split; cbn [counted_if]; cbn; try done; rewrite ?Qplus_0_r; done || lia.
Qed.

Definition order_read (raw : JsValue) (e : TradeOrderInventoryEntry) : Prop := read_order raw = Some e ∧ order_ok e.

(** The sums over the orders read so far and those still to read; or the first
    entry that is malformed or overfilled. *)
Lemma sum_orders_exact l index t s p o n1 n2 n3 : totals_are t s p o n1 n2 n3 →
  (∃ es t', Forall2 order_read l es ∧ sum_orders index t l = Ok (inl t') ∧
     totals_are t' (s + total filled_of es)%Q (p + total pending_of es)%Q (o + total open_of es)%Q (n1 + how_many rests es) (n2 + how_many is_submission es) (n3 + how_many is_uncertain es)) ∨
  (∃ pre raw post es, l = pre ++ raw :: post ∧ Forall2 order_read pre es ∧ (¬ ∃ e, order_read raw e) ∧ sum_orders index t l = Ok (inr (index + Z.of_nat (length pre)))).
Proof.
  revert index t s p o n1 n2 n3. induction l as [|raw l IH]; intros index t s p o n1 n2 n3 Ht.
  { left. exists [], t. split; [constructor|]. split; [done|]. destruct Ht. split; cbn; rewrite ?Qplus_0_r; done || (unfold how_many; cbn; lia). }
  cbn [sum_orders]. destruct (read_order raw) as [e|] eqn:Er.
  2:{ right. exists [], raw, l, []. split; [done|]. split; [constructor|]. split; [intros (e&E&_); congruence|]. do 2 f_equal. cbn. lia. }
  destruct (add_order_exact t e s p o n1 n2 n3 raw Ht Er) as [Hok Hno]. destruct (Qlt_le_dec (dec_value (orderedExposure e)) (dec_value (filledExposure e))) as [L|L].
  { rewrite Hno by (unfold order_ok; by apply Qlt_not_le). right. exists [], raw, l, []. split; [done|]. split; [constructor|]. split; [|cbn; do 2 f_equal; lia].
    intros (e'&E&Ho). rewrite Er in E. injection E as <-. by apply Qlt_not_le in L. }
  destruct (Hok L) as (t'&->&Ht'). cbn [result_bind]. destruct (IH (index + 1) t' _ _ _ _ _ _ Ht') as [(es&t''&Hf&E&[A B C D F G])|(pre&raw'&post&es&->&Hf&Hn&E)].
  - left. exists (e :: es), t''. split; [by constructor|]. split; [done|]. split; cbn [total]; rewrite ?Qplus_assoc; try done; unfold how_many in *; cbn [List.filter]; [destruct (rests e)|destruct (is_submission e)|destruct (is_uncertain e)]; cbn [length counted_if] in *; lia.
  - right. exists (raw :: pre), raw', post, (e :: es). split; [done|]. split; [by constructor|]. split; [done|]. rewrite E. do 2 f_equal. cbn [length]. lia.
Qed.

(** The text of a total: canonical, and exactly the total. *)
Definition states_total (s : string) (q : Q) : Prop := canonical_grammar (chars s) = true ∧ (dec_value s == q)%Q.
Lemma total_text r q : decimal_valued r q → states_total (decimalOf r) q.
Proof. intros (Hr&E&v&Ev). destruct (decimalOf_exact r v Hr) as [Hc Hd]; [by rewrite E|]. split; [done|]. by rewrite Hd. Qed.

(** An inventory is summarized exactly when every entry is a closed record of
    a known state with canonical exposures of which no more is filled than was
    ordered, and then the texts of the summary denote the exact sums: everything
    filled is settled, what is left of orders awaiting submission or of unknown
    outcome is pending, what is left of resting orders is open, and the counts
    are the numbers of those orders. Otherwise the first offending entry is
    named and nothing is summed; the summary never throws. *)
Theorem inventory_summary_exact raw :
  match plainList raw 100000 with
  | None => summarizeTradeOrderInventory raw = Ok (inventory_invalid (-1))
  | Some l =>
      (∃ es sm, Forall2 order_read l es ∧ summarizeTradeOrderInventory raw = Ok (inventory_valid sm) ∧
         states_total (currentExposure sm) (total filled_of es) ∧ states_total (pendingExposure sm) (total pending_of es) ∧ states_total (activeOrderExposure sm) (total open_of es) ∧
         ledgerOpenOffers sm = how_many rests es ∧ pendingSubmissions sm = how_many is_submission es ∧ uncertainSubmissions sm = how_many is_uncertain es) ∨
      (∃ pre bad post es, l = pre ++ bad :: post ∧ Forall2 order_read pre es ∧ (¬ ∃ e, order_read bad e) ∧ summarizeTradeOrderInventory raw = Ok (inventory_invalid (Z.of_nat (length pre))))
  end.
Proof.
  unfold summarizeTradeOrderInventory. destruct (plainList raw 100000) as [l|]; [|done].
  destruct (sum_orders_exact l 0 no_orders 0 0 0 0 0 0) as [(es&t&Hf&->&[A B C D E F])|(pre&bad&post&es&->&Hf&Hn&->)]; [split; try done; apply zero_valued| |].
  - left. cbn [result_bind]. eexists es, _. split; [done|]. split; [done|]. cbn [currentExposure pendingExposure activeOrderExposure ledgerOpenOffers pendingSubmissions uncertainSubmissions].
    rewrite Qplus_0_l in A, B, C. split_and!; (by apply total_text) || lia.
  - right. exists pre, bad, post, es. split_and!; done.
Qed.
