(* ===== verification/TradeFacts.v ===== *)
(** * Trusted trading facts

    Model of trade-runtime/policy: sealed market-price snapshots and the choice
    of the one reference for a pair (trade-market-reference.ts), and sealed
    exposure and active-order snapshots (trade-exposure.ts). A sealed market
    snapshot carries its price as two bigints, which no [JsValue] has: what is
    offered as a reference is such a snapshot or plain data. *)

From Stdlib Require Import QArith.
From S2P Require Import Prelude Decimal Js JsMap StableJson HashChain Parameters AdapterPort RailAmounts TradeDomain TradeProposal TradeDelegation TradeRisk.

Local Open Scope Z_scope.
Local Open Scope frontera_scope.

(** ** What a profile says of facts *)

Definition TRADING_RISK_MAXIMUM_FACT_AGE_SECONDS : Z := 3600.
Inductive TradeReferenceConvention := ask | bid | consolidated | mid.
Global Instance TradeReferenceConvention_eq_dec : EqDecision TradeReferenceConvention.
Proof. solve_decision. Defined.
Definition convention_name (c : TradeReferenceConvention) : string := match c with ask => "ask" | bid => "bid" | consolidated => "consolidated" | mid => "mid" end.
Definition TRADE_REFERENCE_CONVENTIONS : list TradeReferenceConvention := [ask; bid; consolidated; mid].
Definition convention_of (v : JsValue) : option TradeReferenceConvention := match v with JsString s => List.find (λ c, str_eqb (convention_name c) s) TRADE_REFERENCE_CONVENTIONS | _ => None end.
Inductive TradeFactProvenancePolicy := operational_only | simulated_permitted.
Record TradeMarketReferencePolicy := { mr_sourceIds : list string; mr_conventions : list TradeReferenceConvention; mr_maxAgeSeconds : Z }.

(** ** Provenance *)

Inductive TradeFactProvenanceKind := operational | simulated.
Definition kind_name (k : TradeFactProvenanceKind) : string := match k with operational => "operational" | simulated => "simulated" end.
Record TradeFactProvenance := { pv_kind : TradeFactProvenanceKind; pv_method : string }.
Definition parseTradeFactProvenance (raw : JsValue) : option TradeFactProvenance :=
  match closedRecord raw ["kind"; "method"]%string [] with
  | None => None
  | Some entries =>
      let kind := if is_text "operational" (get "kind" entries) then Some operational else if is_text "simulated" (get "kind" entries) then Some simulated else None in
      match kind, text_of isTradeIdentifier (get "method" entries) with
      | Some kind, Some method => Some {| pv_kind := kind; pv_method := method |}
      | _, _ => None
      end
  end.
Definition provenanceAdmitted (policy : TradeFactProvenancePolicy) (p : TradeFactProvenance) : bool :=
  match pv_kind p, policy with operational, _ | _, simulated_permitted => true | simulated, operational_only => false end.
Definition provenance_json (p : TradeFactProvenance) : Json := JObj [("kind", JTxt (kind_name (pv_kind p))); ("method", JTxt (pv_method p))].

(** ** Market snapshots *)

Definition TRADE_MARKET_SNAPSHOT_SCHEMA : string := "frontera.trade-market-price-snapshot.v1".
Definition TRADE_MARKET_SNAPSHOT_DIGEST_DOMAIN : string := "frontera.trade-market-price-snapshot-digest.v1".

Record TrustedMarketPriceReading := {
  m_sourceId : string; m_organizationId : string; m_network : TradeNetwork; m_base : TradeAsset; m_quote : TradeAsset; m_price : TradePrice;
  m_convention : TradeReferenceConvention; m_observedAt : string; m_maxAgeSeconds : Z; m_sourceReference : string; m_provenance : TradeFactProvenance }.
Record TrustedMarketPriceSnapshot := { m_reading : TrustedMarketPriceReading; m_digest : string }.

Definition snapshotData (r : TrustedMarketPriceReading) : list (string * Json) :=
  [("schema", JTxt TRADE_MARKET_SNAPSHOT_SCHEMA); ("sourceId", JTxt (m_sourceId r)); ("organizationId", JTxt (m_organizationId r)); ("network", JTxt (network_name (m_network r)));
   ("base", asset_json (m_base r)); ("quote", asset_json (m_quote r)); ("price", price_json (m_price r)); ("convention", JTxt (convention_name (m_convention r)));
   ("observedAt", JTxt (m_observedAt r)); ("maxAgeSeconds", JNo (m_maxAgeSeconds r)); ("sourceReference", JTxt (m_sourceReference r)); ("provenance", provenance_json (m_provenance r))].
Definition SNAPSHOT_FIELDS : list string := ["schema"; "sourceId"; "organizationId"; "network"; "base"; "quote"; "price"; "convention"; "observedAt"; "maxAgeSeconds"; "sourceReference"; "provenance"].

Section MarketSnapshots.
Context `{LedgerHash} `{JsHost}.

Definition readSnapshot (entries : list (string * JsValue)) : option TrustedMarketPriceReading :=
  if negb (is_text TRADE_MARKET_SNAPSHOT_SCHEMA (get "schema" entries)) then None
  else
    match text_of isTradeIdentifier (get "sourceId" entries), text_of isTradeIdentifier (get "organizationId" entries), isTradeNetwork (get "network" entries),
          parseRiskAsset (get "base" entries), parseRiskAsset (get "quote" entries), parseRiskPrice (get "price" entries) with
    | Some sourceId, Some organizationId, Some network, Some base, Some quote, Some price =>
        if tradeAssetsEqual base quote then None
        else
          match convention_of (get "convention" entries) with
          | None => None
          | Some convention =>
              if negb (isTradeInstant (get "observedAt" entries)) || negb (isSafeIntegerIn (get "maxAgeSeconds" entries) 1 TRADING_RISK_MAXIMUM_FACT_AGE_SECONDS) then None
              else
                match text_of isTradeReference (get "sourceReference" entries), parseTradeFactProvenance (get "provenance" entries) with
                | Some sourceReference, Some provenance =>
                    Some {| m_sourceId := sourceId; m_organizationId := organizationId; m_network := network; m_base := base; m_quote := quote; m_price := price; m_convention := convention;
                            m_observedAt := as_text (get "observedAt" entries); m_maxAgeSeconds := as_number (get "maxAgeSeconds" entries); m_sourceReference := sourceReference; m_provenance := provenance |}
                | _, _ => None
                end
          end
    | _, _, _, _, _, _ => None
    end.

Definition sealTrustedMarketPriceSnapshot (reading : TrustedMarketPriceReading) : result RangeErr TrustedMarketPriceSnapshot :=
  let data := js_of (JObj (snapshotData reading)) in
  match closedRecord data SNAPSHOT_FIELDS [] with
  | Some entries =>
      match readSnapshot entries with
      | Some parsed => let* digest := tradeRiskDigest TRADE_MARKET_SNAPSHOT_DIGEST_DOMAIN data in Ok {| m_reading := parsed; m_digest := digest |}
      | None => Throw RangeErr_
      end
  | None => Throw RangeErr_
  end.

Definition trustedMarketPriceSnapshotData (s : TrustedMarketPriceSnapshot) : Json := JObj (snapshotData (m_reading s) ++ [("digest"%string, JTxt (m_digest s))]).

(** A sealed snapshot, or anything else. *)
Inductive MarketCandidate := sealed_snapshot (s : TrustedMarketPriceSnapshot) | market_data (v : JsValue).
Definition parseTrustedMarketPriceSnapshot (raw : MarketCandidate) : option TrustedMarketPriceSnapshot :=
  let data := match raw with sealed_snapshot s => js_of (trustedMarketPriceSnapshotData s) | market_data v => v end in
  match unsealRiskRecord TRADE_MARKET_SNAPSHOT_DIGEST_DOMAIN data with
  | None => None
  | Some intact =>
      match closedRecord (JsObject true intact) SNAPSHOT_FIELDS ["digest"]%string with
      | Some entries => (λ parsed, {| m_reading := parsed; m_digest := as_text (get "digest" intact) |}) <$> readSnapshot entries
      | None => None
      end
  end.
End MarketSnapshots.

(** ** Selecting the reference for a pair *)

Inductive TradeReferenceReason :=
  | REFERENCE_MISSING | REFERENCE_MALFORMED | REFERENCE_NETWORK_MISMATCH | REFERENCE_ORIENTATION_INVERTED | REFERENCE_ORGANIZATION_MISMATCH | REFERENCE_SOURCE_NOT_ACCEPTED
  | REFERENCE_CONVENTION_NOT_ACCEPTED | REFERENCE_SIMULATED_NOT_ACCEPTED | REFERENCE_FROM_FUTURE | REFERENCE_STALE | REFERENCE_CONFLICT.
Global Instance TradeReferenceReason_eq_dec : EqDecision TradeReferenceReason.
Proof. solve_decision. Defined.
Record TradeReferenceRequirement := {
  rq_organizationId : string; rq_network : TradeNetwork; rq_base : TradeAsset; rq_quote : TradeAsset; rq_policy : TradeMarketReferencePolicy; rq_provenance : TradeFactProvenancePolicy; rq_at : string }.

Definition REASON_RANK : list TradeReferenceReason :=
  [REFERENCE_MISSING; REFERENCE_MALFORMED; REFERENCE_NETWORK_MISMATCH; REFERENCE_ORIENTATION_INVERTED; REFERENCE_ORGANIZATION_MISMATCH; REFERENCE_SOURCE_NOT_ACCEPTED;
   REFERENCE_CONVENTION_NOT_ACCEPTED; REFERENCE_SIMULATED_NOT_ACCEPTED; REFERENCE_FROM_FUTURE; REFERENCE_STALE].
(** [REASON_RANK.indexOf] *)
Definition rank_of (r : TradeReferenceReason) : Z := match list_find (λ x, x = r) REASON_RANK with Some (i, _) => Z.of_nat i | None => -1 end.
Definition smallerOf (left right : Z) : Z := if left <? right then left else right.

Section Selection.
Context `{LedgerHash} `{JsHost}.

(** One candidate: accepted, refused for a reason, or of another pair. *)
Inductive CandidateVerdict := candidate_accepted (s : TrustedMarketPriceSnapshot) | candidate_refused (reason : TradeReferenceReason) | candidate_ignored.
Definition judge_candidate (rq : TradeReferenceRequirement) (candidate : MarketCandidate) : CandidateVerdict :=
  match parseTrustedMarketPriceSnapshot candidate with
  | None => candidate_refused REFERENCE_MALFORMED
  | Some snapshot =>
      let r := m_reading snapshot in
      if negb (tradeAssetsEqual (m_base r) (rq_base rq) && tradeAssetsEqual (m_quote r) (rq_quote rq)) then
        if tradeAssetsEqual (m_base r) (rq_quote rq) && tradeAssetsEqual (m_quote r) (rq_base rq) then candidate_refused REFERENCE_ORIENTATION_INVERTED else candidate_ignored
      else if negb (bool_decide (m_network r = rq_network rq)) then candidate_refused REFERENCE_NETWORK_MISMATCH
      else if negb (str_eqb (m_organizationId r) (rq_organizationId rq)) then candidate_refused REFERENCE_ORGANIZATION_MISMATCH
      else if negb (bool_decide (m_sourceId r ∈ mr_sourceIds (rq_policy rq))) then candidate_refused REFERENCE_SOURCE_NOT_ACCEPTED
      else if negb (bool_decide (m_convention r ∈ mr_conventions (rq_policy rq))) then candidate_refused REFERENCE_CONVENTION_NOT_ACCEPTED
      else if negb (provenanceAdmitted (rq_provenance rq) (m_provenance r)) then candidate_refused REFERENCE_SIMULATED_NOT_ACCEPTED
      else
        match freshnessAt (JsString (m_observedAt r)) (smallerOf (m_maxAgeSeconds r) (mr_maxAgeSeconds (rq_policy rq))) (rq_at rq) with
        | fresh => candidate_accepted snapshot
        | future => candidate_refused REFERENCE_FROM_FUTURE
        | stale | invalid => candidate_refused REFERENCE_STALE
        end
  end.

(** The loop: what was accepted so far and the most informative refusal. *)
Definition note (worst reason : TradeReferenceReason) : TradeReferenceReason := if rank_of worst <? rank_of reason then reason else worst.
Definition consider (rq : TradeReferenceRequirement) (state : list TrustedMarketPriceSnapshot * TradeReferenceReason) (candidate : MarketCandidate) : list TrustedMarketPriceSnapshot * TradeReferenceReason :=
  let '(accepted, worst) := state in
  match judge_candidate rq candidate with
  | candidate_accepted s => (accepted ++ [s], worst)
  | candidate_refused reason => (accepted, note worst reason)
  | candidate_ignored => (accepted, worst)
  end.

Definition digest_le (a b : TrustedMarketPriceSnapshot) : Prop := String.le (m_digest a) (m_digest b).
#[global] Instance digest_le_dec : RelDecision digest_le.
Proof. unfold RelDecision, digest_le. solve_decision. Defined.
Definition same_price (a b : TrustedMarketPriceSnapshot) : bool :=
  (p_numerator (m_price (m_reading a)) =? p_numerator (m_price (m_reading b))) && (p_denominator (m_price (m_reading a)) =? p_denominator (m_price (m_reading b))).

Definition selectTradeReference (candidates : list MarketCandidate) (rq : TradeReferenceRequirement) : result TradeReferenceReason TrustedMarketPriceSnapshot :=
  let '(accepted, worst) := foldl (consider rq) ([], REFERENCE_MISSING) candidates in
  match accepted with
  | [] => Throw worst
  | first :: _ =>
      if negb (forallb (λ s, same_price s first) accepted) then Throw REFERENCE_CONFLICT
      else match merge_sort digest_le accepted with chosen :: _ => Ok chosen | [] => Throw worst end
  end.
End Selection.

(** ** The selection is the only acceptable answer *)

Lemma closed_Some raw required optional entries : closedRecord raw required optional = Some entries → raw = JsObject true entries.
Proof.
  unfold closedRecord. destruct (snapshotTradeRecord raw _) as [es|] eqn:E; [|done]. apply snapshot_Ok in E as [-> _]. destruct (existsb _ _); [done|]. destruct (existsb _ _); [done|]. by intros [= <-].
Qed.
Lemma smallerOf_min a b : smallerOf a b = Z.min a b.
Proof. unfold smallerOf. destruct (Z.ltb_spec a b); lia. Qed.

Section Selected.
Context `{LedgerHash} `{JsHost}.

Lemma freshnessAt_fresh s bound at_ : freshnessAt (JsString s) bound at_ = fresh ↔
  isTradeInstant (JsString s) = true ∧ isTradeInstant (JsString at_) = true ∧ 1 ≤ bound ≤ 31536000 ∧ 0 ≤ instant_ms at_ - instant_ms s ≤ bound * 1000.
Proof.
  unfold freshnessAt. destruct (isTradeInstant (JsString s)); [|naive_solver]. destruct (isTradeInstant (JsString at_)); [|naive_solver]. cbn [negb orb].
  destruct (isSafeIntegerIn (JsNum (JInt bound)) 1 31536000) eqn:Ei; cbn [negb].
  - apply safe_in in Ei as [Hn _]; [|lia]. cbn in Hn. cbv zeta. unfold millisecondsBetween. cbn [as_text]. destruct (Z.ltb_spec (instant_ms at_ - instant_ms s) 0); [split; [done|lia]|]. destruct (Z.ltb_spec (bound * 1000) (instant_ms at_ - instant_ms s)); [split; [done|lia]|]. naive_solver lia.
  - split; [done|]. intros (_&_&Hb&_). by rewrite safe_in_int in Ei by (done || lia).
Qed.

Record reading_ok (r : TrustedMarketPriceReading) : Prop := {
  ro_instant : isTradeInstant (JsString (m_observedAt r)) = true; ro_age : 1 ≤ m_maxAgeSeconds r ≤ 3600; ro_price : reduced_price (m_price r); ro_assets : m_base r ≠ m_quote r }.
Lemma parseRiskPrice_reduced v p : parseRiskPrice v = Some p → reduced_price p.
Proof.
  unfold parseRiskPrice, parseTradePriceAssertion. destruct (snapshotTradeRecord v 4) as [es|]; [|done]. cbv zeta. destruct (negb _); [done|].
  destruct (text_of _ (get "numerator" es)) as [n|] eqn:En; [|done]. destruct (text_of _ (get "denominator" es)) as [d|] eqn:Ed; [|done]. intros [= <-].
  apply text_of_Some in En as [_ [_ Hn]%andb_true_iff], Ed as [_ [_ Hd]%andb_true_iff]. apply POSITIVE_INTEGER_plain in Hn as (_&_&Hn), Hd as (_&_&Hd). by apply reduce_spec.
Qed.
Lemma readSnapshot_ok entries r : readSnapshot entries = Some r → reading_ok r.
Proof.
  unfold readSnapshot. destruct (is_text _ (get "schema" entries)); [|done]. cbn [negb]. destruct (text_of _ (get "sourceId" entries)); [|done]. destruct (text_of _ (get "organizationId" entries)); [|done].
  destruct (isTradeNetwork _); [|done]. destruct (parseRiskAsset (get "base" entries)) as [b|]; [|done]. destruct (parseRiskAsset (get "quote" entries)) as [q|]; [|done]. destruct (parseRiskPrice _) as [p|] eqn:Ep; [|done].
  destruct (tradeAssetsEqual b q) eqn:Eq; [done|]. destruct (convention_of _); [|done]. destruct (isTradeInstant (get "observedAt" entries)) eqn:Ei; [|done]. destruct (isSafeIntegerIn _ 1 _) eqn:Es; [|done]. cbn [negb orb].
  destruct (text_of _ (get "sourceReference" entries)); [|done]. destruct (parseTradeFactProvenance _); [|done]. intros [= <-]. apply safe_in in Es as [Hn _]; [|lia]. split; cbn [m_observedAt m_maxAgeSeconds m_price m_base m_quote].
  - by rewrite <-instant_text.
  - unfold TRADING_RISK_MAXIMUM_FACT_AGE_SECONDS in Hn. lia.
  - by eapply parseRiskPrice_reduced.
  - intros ->. by rewrite (proj2 (tradeAssetsEqual_iff q q)) in Eq.
Qed.
Lemma parse_snapshot_ok c s : parseTrustedMarketPriceSnapshot c = Some s → reading_ok (m_reading s).
Proof.
  unfold parseTrustedMarketPriceSnapshot. cbv zeta. destruct (unsealRiskRecord _ _) as [intact|]; [|done]. destruct (closedRecord _ _ _) as [es|]; [|done].
  destruct (readSnapshot es) as [r|] eqn:Er; [|done]. intros [= <-]. by eapply readSnapshot_ok.
Qed.

(** A snapshot that answers a requirement. *)
Definition acceptable (rq : TradeReferenceRequirement) (s : TrustedMarketPriceSnapshot) : Prop :=
  let r := m_reading s in
  m_base r = rq_base rq ∧ m_quote r = rq_quote rq ∧ m_network r = rq_network rq ∧ m_organizationId r = rq_organizationId rq ∧ m_sourceId r ∈ mr_sourceIds (rq_policy rq) ∧
  m_convention r ∈ mr_conventions (rq_policy rq) ∧ provenanceAdmitted (rq_provenance rq) (m_provenance r) = true ∧ isTradeInstant (JsString (rq_at rq)) = true ∧ 1 ≤ mr_maxAgeSeconds (rq_policy rq) ∧
  0 ≤ instant_ms (rq_at rq) - instant_ms (m_observedAt r) ≤ Z.min (m_maxAgeSeconds r) (mr_maxAgeSeconds (rq_policy rq)) * 1000.

Lemma judge_accepts rq c s : judge_candidate rq c = candidate_accepted s ↔ parseTrustedMarketPriceSnapshot c = Some s ∧ acceptable rq s.
Proof.
  unfold judge_candidate, acceptable. destruct (parseTrustedMarketPriceSnapshot c) as [s'|] eqn:Ep; [|naive_solver]. cbv zeta. apply parse_snapshot_ok in Ep as [Hi Ha _ _].
  assert (∀ P : Prop, (Some s' = Some s ∧ P ↔ s' = s ∧ P)) as -> by naive_solver.
  destruct (tradeAssetsEqual (m_base _) (rq_base rq)) eqn:Eb; [apply tradeAssetsEqual_iff in Eb|].
  2:{ cbn [andb negb]. split; [by destruct (_ && _)|]. intros [-> [E _]]. by rewrite (proj2 (tradeAssetsEqual_iff _ _)) in Eb. }
  destruct (tradeAssetsEqual (m_quote _) (rq_quote rq)) eqn:Eq; [apply tradeAssetsEqual_iff in Eq|].
  2:{ cbn [andb negb]. split; [by destruct (_ && _)|]. intros [-> [_ [E _]]]. by rewrite (proj2 (tradeAssetsEqual_iff _ _)) in Eq. }
  cbn [andb negb]. case_bool_decide as En; [|naive_solver]. cbn [negb]. destruct (str_eqb _ _) eqn:Eo; [apply str_eqb_eq in Eo|apply str_eqb_neq in Eo; naive_solver]. cbn [negb].
  case_bool_decide as Es; [|naive_solver]. case_bool_decide as Ec; [|naive_solver]. cbn [negb]. destruct (provenanceAdmitted _ _) eqn:Epv; [|cbn [negb]; split; [done|]; intros (->&_&_&_&_&_&_&?&_); congruence]. cbn [negb].
  rewrite smallerOf_min. pose proof (freshnessAt_fresh (m_observedAt (m_reading s')) (Z.min (m_maxAgeSeconds (m_reading s')) (mr_maxAgeSeconds (rq_policy rq))) (rq_at rq)) as Hf.
  destruct (freshnessAt _ _ _); split; try done.
  - intros [= <-]. destruct (proj1 Hf eq_refl) as (_&?&?&?). split_and!; done || lia.
  - by intros [-> _].
  - intros (->&_&_&_&_&_&_&_&?&?&?). assert (stale = fresh) by (apply Hf; split_and!; done || lia). done.
  - intros (->&_&_&_&_&_&_&_&?&?&?). assert (future = fresh) by (apply Hf; split_and!; done || lia). done.
  - intros (->&_&_&_&_&_&_&_&?&?&?). assert (invalid = fresh) by (apply Hf; split_and!; done || lia). done.
Qed.

Definition accepted_of (rq : TradeReferenceRequirement) (c : MarketCandidate) : option TrustedMarketPriceSnapshot := match judge_candidate rq c with candidate_accepted s => Some s | _ => None end.
Definition refusal_of (rq : TradeReferenceRequirement) (c : MarketCandidate) : option TradeReferenceReason := match judge_candidate rq c with candidate_refused r => Some r | _ => None end.
Lemma consider_all rq l accepted worst : foldl (consider rq) (accepted, worst) l = (accepted ++ omap (accepted_of rq) l, foldl note worst (omap (refusal_of rq) l)).
Proof.
  revert accepted worst. induction l as [|c l IH]; intros accepted worst; cbn [foldl omap list_omap]; [by rewrite app_nil_r|]. unfold consider at 2, accepted_of at 1, refusal_of at 1.
  destruct (judge_candidate rq c); rewrite IH; cbn [foldl]; [by rewrite <-app_assoc|done..].
Qed.
Lemma note_spec l worst : let w := foldl note worst l in (w = worst ∨ w ∈ l) ∧ rank_of worst ≤ rank_of w ∧ Forall (λ r, rank_of r ≤ rank_of w) l.
Proof.
  revert worst. induction l as [|r l IH]; intros worst; cbn [foldl]; [split; [by left|]; split; [lia|constructor]|].
  destruct (IH (note worst r)) as (Hin&Hle&Hall). assert ((note worst r = worst ∨ note worst r = r) ∧ rank_of worst ≤ rank_of (note worst r) ∧ rank_of r ≤ rank_of (note worst r)) as (Hn&H1&H2).
  { unfold note. destruct (Z.ltb_spec (rank_of worst) (rank_of r)); split; try (by left) || (by right); lia. }
  split; [destruct Hin as [-> | Hin]; [destruct Hn as [-> | ->]; [by left|right; by left]|right; by right]|]. split; [lia|]. constructor; [lia|done].
Qed.
Lemma same_price_eq a b : same_price a b = true ↔ m_price (m_reading a) = m_price (m_reading b).
Proof. unfold same_price. rewrite andb_true_iff, !Z.eqb_eq. destruct (m_price (m_reading a)), (m_price (m_reading b)). cbn. naive_solver. Qed.
Lemma judge_no_conflict rq c : judge_candidate rq c ≠ candidate_refused REFERENCE_CONFLICT.
Proof. unfold judge_candidate. destruct (parseTrustedMarketPriceSnapshot c) as [s|]; [|done]. cbv zeta. repeat case_match; done. Qed.

(** Among the candidates, an intact snapshot that answers the requirement. *)
Definition offered (candidates : list MarketCandidate) (rq : TradeReferenceRequirement) (s : TrustedMarketPriceSnapshot) : Prop :=
  ∃ c, c ∈ candidates ∧ parseTrustedMarketPriceSnapshot c = Some s ∧ acceptable rq s.
Lemma offered_iff candidates rq s : offered candidates rq s ↔ s ∈ omap (accepted_of rq) candidates.
Proof.
  unfold offered. rewrite list_elem_of_omap. unfold accepted_of. split; intros (c&Hc&Hs); exists c; (split; [done|]).
  - by rewrite (proj2 (judge_accepts rq c s)).
  - destruct (judge_candidate rq c) eqn:E; try done. injection Hs as ->. by apply judge_accepts.
Qed.

(** The reference chosen for a pair is an intact snapshot for exactly this
    pair, network and organization, from an accepted source, of an accepted
    convention and provenance, fresh under the stricter bound; every other such
    snapshot offered states the same price and has no lower digest. A conflict is
    reported exactly when two such snapshots disagree on the price; any other
    refusal means there is none, and names the most specific reason met. *)
Theorem reference_selection_exact candidates rq :
  match selectTradeReference candidates rq with
  | Ok s => offered candidates rq s ∧ ∀ s', offered candidates rq s' → m_price (m_reading s') = m_price (m_reading s) ∧ String.le (m_digest s) (m_digest s')
  | Throw reason =>
      if decide (reason = REFERENCE_CONFLICT) then ∃ s s', offered candidates rq s ∧ offered candidates rq s' ∧ m_price (m_reading s) ≠ m_price (m_reading s')
      else (¬ ∃ s, offered candidates rq s) ∧ (reason = REFERENCE_MISSING ∨ ∃ c, c ∈ candidates ∧ judge_candidate rq c = candidate_refused reason) ∧
           ∀ c reason', c ∈ candidates → judge_candidate rq c = candidate_refused reason' → rank_of reason' ≤ rank_of reason
  end.
Proof.
  unfold selectTradeReference. rewrite consider_all. cbn [app]. pose proof (offered_iff candidates rq) as Ho. destruct (omap (accepted_of rq) candidates) as [|first rest] eqn:Ea.
  - destruct (note_spec (omap (refusal_of rq) candidates) REFERENCE_MISSING) as (Hin&_&Hall). set (w := foldl note _ _) in *.
    assert (w = REFERENCE_MISSING ∨ ∃ c, c ∈ candidates ∧ judge_candidate rq c = candidate_refused w) as Hw.
    { destruct Hin as [Hin|(c&Hc&Hr)%list_elem_of_omap]; [by left|right]. exists c. split; [done|]. unfold refusal_of in Hr. destruct (judge_candidate rq c); naive_solver. }
    destruct (decide (w = REFERENCE_CONFLICT)) as [E|E]; [destruct Hw as [Hw|(c&_&Hc)]; [congruence|rewrite E in Hc; by apply judge_no_conflict in Hc]|].
    split; [by intros [s []%Ho%not_elem_of_nil]|]. split; [done|]. intros c r Hc Hr. rewrite Forall_forall in Hall. apply Hall, list_elem_of_omap. exists c. split; [done|]. unfold refusal_of. by rewrite Hr.
  - destruct (forallb (λ s, same_price s first) (first :: rest)) eqn:Ef; cbn [negb].
    + pose proof (merge_sort_Permutation digest_le (first :: rest)) as Hp. assert (StronglySorted digest_le (merge_sort digest_le (first :: rest))) as Hs.
      { apply StronglySorted_merge_sort; [intros a b c; unfold digest_le; apply String.le_po|intros a b; unfold digest_le; apply String.le_total]. }
      destruct (merge_sort digest_le (first :: rest)) as [|chosen others]; [by apply Permutation_nil_l in Hp|]. split; [apply Ho; rewrite <-Hp; by left|]. intros s Hin%Ho.
      rewrite forallb_forall in Ef. assert (∀ x, x ∈ first :: rest → m_price (m_reading x) = m_price (m_reading first)) as Heq by (intros x Hx; apply same_price_eq, Ef; by apply list_elem_of_In).
      split; [rewrite Heq by done; symmetry; apply Heq; rewrite <-Hp; by left|]. rewrite <-Hp in Hin. apply StronglySorted_inv in Hs as [_ Hs]. rewrite Forall_forall in Hs.
      apply elem_of_cons in Hin as [-> | Hin]; [reflexivity|by apply Hs].
    + destruct (decide (REFERENCE_CONFLICT = REFERENCE_CONFLICT)) as [_|]; [|done]. destruct (existsb (λ s, negb (same_price s first)) (first :: rest)) eqn:Ex.
      * apply existsb_exists in Ex as (s&Hs%list_elem_of_In&Hn%negb_true_iff). exists s, first. rewrite !Ho. split; [done|]. split; [by left|]. intros E. apply same_price_eq in E. congruence.
      * exfalso. apply existsb_no in Ex. rewrite Forall_forall in Ex. enough (forallb (λ s, same_price s first) (first :: rest) = true) by congruence. apply forallb_forall. intros x Hx%list_elem_of_In. apply negb_false_iff. by apply Ex.
Qed.
End Selected.

(** ** Sealed records read back *)

Lemma filter_fresh (key : string) (fs : list (string * JsValue)) : key ∉ fs.*1 → List.filter (λ p, negb (bool_decide (p.1 ∈ [key]))) fs = fs.
Proof.
  induction fs as [|[k v] fs IH]; [done|]. intros Hk. cbn [fmap list_fmap fst] in Hk. apply not_elem_of_cons in Hk as [Hne Hk]. cbn [List.filter fst].
  rewrite bool_decide_eq_false_2 by (intros ?%list_elem_of_singleton; congruence). cbn [negb]. by rewrite IH.
Qed.
Lemma map_get_snoc {A} key (fs : list (string * A)) v : key ∉ fs.*1 → map_get key (fs ++ [(key, v)]) = Some v.
Proof. intros Hk. rewrite map_get_app. rewrite (proj2 (map_get_None key fs)) by done. cbn. by rewrite str_eqb_refl. Qed.

Section Sealed.
Context `{LedgerHash} `{JsHost}.

(** A record with the digest of its other fields is read back as it is. *)
Lemma unseal_sealed domain fs d : "digest"%string ∉ fs.*1 → fits RISK_DATA_KEYS risk_number RISK_DATA_DEPTH (JObj (fs ++ [("digest"%string, JTxt d)])) = true →
  tradeRiskDigest domain (js_of (JObj fs)) = Ok d → unsealRiskRecord domain (js_of (JObj (fs ++ [("digest"%string, JTxt d)]))) = Some (prod_map id js_of <$> fs ++ [("digest"%string, JTxt d)]).
Proof.
  intros Hk Hf Hd. unfold unsealRiskRecord, plainRiskData. rewrite plain_copy_fits by done. cbn [js_of]. rewrite get_entry, map_get_snoc by done. cbn [js_of without].
  rewrite fmap_app, List.filter_app. rewrite filter_fresh. 2:{ intros (p&Ep&(q&->&Hq)%list_elem_of_fmap)%list_elem_of_fmap. apply Hk, list_elem_of_fmap. exists q. by destruct q. }
  cbn [fmap list_fmap List.filter prod_map fst]. rewrite bool_decide_eq_true_2 by (by left). cbn [negb]. rewrite app_nil_r. cbn [js_of] in Hd. rewrite Hd. by rewrite str_eqb_refl.
Qed.

Lemma parseRiskAsset_object a : canonical_asset a → parseRiskAsset (js_of (asset_json a)) = Some a.
Proof.
  destruct a as [|c i]; [done|]. intros [Hc Hi]. unfold parseRiskAsset, asset_json. change (js_of (JObj [("currency"%string, JTxt c); ("issuer"%string, JTxt i)])) with (JsObject true [("currency"%string, JsString c); ("issuer"%string, JsString i)]).
  assert (snapshotTradeRecord (JsObject true [("currency"%string, JsString c); ("issuer"%string, JsString i)]) 2 = Ok [("currency"%string, JsString c); ("issuer"%string, JsString i)]) as -> by reflexivity.
  change (get "currency" [("currency"%string, JsString c); ("issuer"%string, JsString i)]) with (JsString c). change (get "issuer" [("currency"%string, JsString c); ("issuer"%string, JsString i)]) with (JsString i).
  assert (is_text "XRP" (JsString c) = false) as ->.
  { destruct (is_text "XRP" (JsString c)) eqn:E; [|done]. apply is_text_JsString in E as ->. by vm_compute in Hc. }
  change (JsObject true [("currency"%string, JsString c); ("issuer"%string, JsString i); ("value"%string, JsString "1")]) with (amount_object (IssuedAmount c i "1")).
  rewrite parseTradeAmount_object; [done|]. split; [done|]. split; [done|]. exists (10 ^ 15), (-15). split; [lia|]. split; [done|]. vm_compute. reflexivity.
Qed.
Lemma parseRiskPrice_object p : reduced_price p → (length (bigint_to_string (p_numerator p)) ≤ 256)%nat → (length (bigint_to_string (p_denominator p)) ≤ 256)%nat → parseRiskPrice (js_of (price_json p)) = Some p.
Proof.
  intros Hp Hn Hd. destruct p as [n d]. cbn [p_numerator p_denominator] in Hn, Hd. pose proof Hp as (Pn&Pd&Hg). cbn in Pn, Pd, Hg. unfold parseRiskPrice, parseTradePriceAssertion, price_json. cbn [p_numerator p_denominator].
  set (tn := text (bigint_to_string n)). set (td := text (bigint_to_string d)).
  assert (snapshotTradeRecord (js_of (JObj [("numerator"%string, JTxt tn); ("denominator"%string, JTxt td)])) 4 = Ok [("numerator"%string, JsString tn); ("denominator"%string, JsString td)]) as -> by reflexivity.
  change (get "numerator" [("numerator"%string, JsString tn); ("denominator"%string, JsString td)]) with (JsString tn). change (get "denominator" [("numerator"%string, JsString tn); ("denominator"%string, JsString td)]) with (JsString td).
  assert (∀ z, 0 < z → (length (bigint_to_string z) ≤ 256)%nat → (js_length (text (bigint_to_string z)) <=? TRADE_PRICE_MAXIMUM_DIGITS) && POSITIVE_INTEGER (chars (text (bigint_to_string z))) = true ∧ digits_value (chars (text (bigint_to_string z))) = z) as Hz.
  { intros z Pz Lz. unfold js_length. rewrite chars_text. destruct (bigint_to_string_spec z) as [Hi Hv]; [lia|]. split; [|done]. apply andb_true_iff. split; [apply Z.leb_le; unfold TRADE_PRICE_MAXIMUM_DIGITS; lia|].
    destruct (bigint_to_string z) as [|c l] eqn:E; [done|]. apply integer_part_ok_inv in Hi as [Hi|(c'&l'&[= <- <-]&Hc&Hl)]; [|apply forallb_all_digits in Hl; cbn [POSITIVE_INTEGER]; by rewrite Hc, Hl]. rewrite Hi in Hv. assert (digits_value [ZERO] = 0) by reflexivity. lia. }
  destruct (Hz n Pn Hn) as [Hn1 Hn2], (Hz d Pd Hd) as [Hd1 Hd2]. cbn [length Nat.eqb negb]. unfold text_of. fold tn in Hn1, Hn2. fold td in Hd1, Hd2. rewrite Hn1, Hd1, Hn2, Hd2.
  rewrite gcd_exact by lia. by rewrite Hg, !Z.quot_1_r.
Qed.

(** A reading a source may state: every field in its grammar and in its one spelling. *)
Record sealable (r : TrustedMarketPriceReading) : Prop := {
  se_source : isTradeIdentifier (m_sourceId r) = true; se_organization : isTradeIdentifier (m_organizationId r) = true; se_reference : isTradeReference (m_sourceReference r) = true;
  se_method : isTradeIdentifier (pv_method (m_provenance r)) = true; se_base : canonical_asset (m_base r); se_quote : canonical_asset (m_quote r);
  se_numerator : (length (bigint_to_string (p_numerator (m_price r))) ≤ 256)%nat; se_denominator : (length (bigint_to_string (p_denominator (m_price r))) ≤ 256)%nat; se_ok : reading_ok r }.

Lemma readSnapshot_object r extra : sealable r → readSnapshot (prod_map id js_of <$> snapshotData r ++ extra) = Some r.
Proof.
  intros [Hs Ho Hr Hm Hb Hq Hn Hd [Hi Ha Hp Hne]]. unfold readSnapshot. set (es := prod_map id js_of <$> snapshotData r ++ extra).
  assert (get "schema" es = JsString TRADE_MARKET_SNAPSHOT_SCHEMA ∧ get "sourceId" es = JsString (m_sourceId r) ∧ get "organizationId" es = JsString (m_organizationId r) ∧ get "network" es = JsString (network_name (m_network r)) ∧
    get "base" es = js_of (asset_json (m_base r)) ∧ get "quote" es = js_of (asset_json (m_quote r)) ∧ get "price" es = js_of (price_json (m_price r)) ∧ get "convention" es = JsString (convention_name (m_convention r)) ∧
    get "observedAt" es = JsString (m_observedAt r) ∧ get "maxAgeSeconds" es = JsNum (JInt (m_maxAgeSeconds r)) ∧ get "sourceReference" es = JsString (m_sourceReference r) ∧ get "provenance" es = js_of (provenance_json (m_provenance r)))
    as (->&->&->&->&->&->&->&->&->&->&->&->) by done.
  rewrite parseRiskAsset_object, parseRiskAsset_object, parseRiskPrice_object, Hi, safe_in_int by (done || unfold TRADING_RISK_MAXIMUM_FACT_AGE_SECONDS; lia). unfold text_of. rewrite Hs, Ho, Hr.
  assert (is_text TRADE_MARKET_SNAPSHOT_SCHEMA (JsString TRADE_MARKET_SNAPSHOT_SCHEMA) = true) as -> by done. cbn [negb orb].
  assert (isTradeNetwork (JsString (network_name (m_network r))) = Some (m_network r)) as -> by (by destruct (m_network r)).
  assert (tradeAssetsEqual (m_base r) (m_quote r) = false) as -> by (destruct (tradeAssetsEqual _ _) eqn:E; [by apply tradeAssetsEqual_iff in E|done]).
  assert (convention_of (JsString (convention_name (m_convention r))) = Some (m_convention r)) as -> by (by destruct (m_convention r)).
  assert (parseTradeFactProvenance (js_of (provenance_json (m_provenance r))) = Some (m_provenance r)) as ->.
  { destruct (m_provenance r) as [k m]. cbn [pv_method] in Hm. unfold parseTradeFactProvenance, provenance_json. cbn [pv_kind pv_method]. set (fs := [("kind"%string, JsString (kind_name k)); ("method"%string, JsString m)]).
    assert (closedRecord (js_of (JObj [("kind"%string, JTxt (kind_name k)); ("method"%string, JTxt m)])) ["kind"; "method"]%string [] = Some fs) as -> by reflexivity.
    change (get "method" fs) with (JsString m). change (get "kind" fs) with (JsString (kind_name k)). unfold text_of. rewrite Hm. by destruct k. }
  cbn [as_text as_number integer_value]. by destruct r.
Qed.

Lemma snapshot_fits r d : sealable r → fits RISK_DATA_KEYS risk_number RISK_DATA_DEPTH (JObj (snapshotData r ++ [("digest"%string, JTxt d)])) = true.
Proof.
  intros [_ _ _ _ _ _ _ _ [_ Ha _ _]]. assert (risk_number (JInt (m_maxAgeSeconds r)) = true) as Hn by (unfold risk_number; rewrite safe_index by (unfold UINT32_MAXIMUM; lia); done).
  unfold snapshotData, asset_json, RISK_DATA_DEPTH, price_json, provenance_json. destruct (m_base r), (m_quote r); cbn [fits app forallb fst snd]; rewrite Hn; reflexivity.
Qed.
Lemma snapshot_data r : sealable r → canonical_data (JObj (snapshotData r)) = true.
Proof.
  intros [_ _ _ _ _ _ _ _ [_ Ha _ _]]. cbn [canonical_data]. apply andb_true_iff. split; [apply bool_decide_eq_true, (bool_decide_unpack _); vm_compute; done|].
  unfold snapshotData, asset_json, price_json, provenance_json. assert (canonical_data (JNo (m_maxAgeSeconds r)) = true) as Hn by (apply safe_index; unfold UINT32_MAXIMUM; lia).
  destruct (m_base r), (m_quote r); cbn [forallb snd]; rewrite Hn; reflexivity.
Qed.

(** A reading in canonical form can be sealed, and its snapshot is read back
    as the same reading with the same digest, as the sealed object and as plain
    data; whatever is read as a snapshot has a positive price in lowest terms, two
    different assets, a valid instant and an age bound of at most an hour. *)
Theorem market_snapshot_roundtrip :
  (∀ r, sealable r → ∃ s, sealTrustedMarketPriceSnapshot r = Ok s ∧ m_reading s = r ∧
     parseTrustedMarketPriceSnapshot (sealed_snapshot s) = Some s ∧ parseTrustedMarketPriceSnapshot (market_data (js_of (trustedMarketPriceSnapshotData s))) = Some s) ∧
  (∀ c s, parseTrustedMarketPriceSnapshot c = Some s → reading_ok (m_reading s)).
Proof.
  split; [|exact parse_snapshot_ok]. intros r Hr. unfold sealTrustedMarketPriceSnapshot. cbv zeta. assert (closedRecord (js_of (JObj (snapshotData r))) SNAPSHOT_FIELDS [] = Some (prod_map id js_of <$> snapshotData r)) as -> by reflexivity.
  pose proof (readSnapshot_object r [] Hr) as E. rewrite app_nil_r in E. rewrite E. assert (∃ d, tradeRiskDigest TRADE_MARKET_SNAPSHOT_DIGEST_DOMAIN (js_of (JObj (snapshotData r))) = Ok d) as [d Hd].
  { unfold tradeRiskDigest, canonicalTradeJson. rewrite canonicalJson_stable by (by apply snapshot_data). by eexists. }
  rewrite Hd. cbn [result_bind]. eexists. split; [done|]. split; [done|].
  assert (parseTrustedMarketPriceSnapshot (market_data (js_of (trustedMarketPriceSnapshotData {| m_reading := r; m_digest := d |}))) = Some {| m_reading := r; m_digest := d |}) as Ep; [|split; exact Ep].
  unfold parseTrustedMarketPriceSnapshot, trustedMarketPriceSnapshotData. cbn [m_reading m_digest]. cbv zeta. rewrite unseal_sealed; [|apply (bool_decide_unpack _); vm_compute; done|by apply snapshot_fits|done].
  assert (closedRecord (JsObject true (prod_map id js_of <$> snapshotData r ++ [("digest"%string, JTxt d)])) SNAPSHOT_FIELDS ["digest"%string] = Some (prod_map id js_of <$> snapshotData r ++ [("digest"%string, JTxt d)])) as -> by reflexivity.
  rewrite readSnapshot_object by done. reflexivity.
Qed.
End Sealed.

(** ** Exposure and active-order snapshots *)

Definition TRADE_EXPOSURE_SNAPSHOT_SCHEMA : string := "frontera.trade-exposure-snapshot.v1".
Definition TRADE_EXPOSURE_SNAPSHOT_DIGEST_DOMAIN : string := "frontera.trade-exposure-snapshot-digest.v1".
Definition TRADE_ACTIVE_ORDER_SNAPSHOT_SCHEMA : string := "frontera.trade-active-order-snapshot.v1".
Definition TRADE_ACTIVE_ORDER_SNAPSHOT_DIGEST_DOMAIN : string := "frontera.trade-active-order-snapshot-digest.v1".
Definition MAXIMUM_LEDGER_INDEX : Z := 4294967295.
Definition MAXIMUM_COUNT : Z := 1000000.
Inductive TradeActiveOrderScope := scope_organization | scope_owner | scope_owner_pair | scope_delegate.
Global Instance TradeActiveOrderScope_eq_dec : EqDecision TradeActiveOrderScope.
Proof. solve_decision. Defined.
Definition scope_text (s : TradeActiveOrderScope) : string := match s with scope_organization => "organization" | scope_owner => "owner" | scope_owner_pair => "owner-pair" | scope_delegate => "delegate" end.
Definition order_scope_of (v : JsValue) : option TradeActiveOrderScope :=
  match v with JsString s => List.find (λ c, str_eqb (scope_text c) s) [scope_organization; scope_owner; scope_owner_pair; scope_delegate] | _ => None end.

(** What both snapshots state. *)
Record SnapshotCommon := {
  c_sourceId : string; c_organizationId : string; c_network : TradeNetwork; c_validatedLedgerIndex : Z; c_complete : bool; c_observedAt : string; c_maxAgeSeconds : Z;
  c_sourceReference : string; c_provenance : TradeFactProvenance }.
Record TradeExposureReading := {
  x_common : SnapshotCommon; x_ownerAccount : string; x_riskBucket : string; x_denomination : TradeAsset;
  x_currentExposure : string; x_pendingExposure : string; x_activeOrderExposure : string; x_capacityRemaining : string }.
Record TradeExposureSnapshot := { x_reading : TradeExposureReading; x_digest : string }.
Record TradeActiveOrderReading := {
  n_common : SnapshotCommon; n_scope : TradeActiveOrderScope; n_scopeKey : string; n_ledgerOpenOffers : Z; n_pendingSubmissions : Z; n_uncertainSubmissions : Z }.
Record TradeActiveOrderSnapshot := { n_reading : TradeActiveOrderReading; n_digest : string }.

Definition EXPOSURE_FIELDS : list string :=
  ["schema"; "sourceId"; "organizationId"; "network"; "ownerAccount"; "riskBucket"; "denomination"; "currentExposure"; "pendingExposure"; "activeOrderExposure"; "capacityRemaining";
   "validatedLedgerIndex"; "complete"; "observedAt"; "maxAgeSeconds"; "sourceReference"; "provenance"].
Definition ACTIVE_ORDER_FIELDS : list string :=
  ["schema"; "sourceId"; "organizationId"; "network"; "scope"; "scopeKey"; "ledgerOpenOffers"; "pendingSubmissions"; "uncertainSubmissions"; "validatedLedgerIndex"; "complete"; "observedAt";
   "maxAgeSeconds"; "sourceReference"; "provenance"].

Definition common_json (c : SnapshotCommon) : list (string * Json) :=
  [("sourceId", JTxt (c_sourceId c)); ("organizationId", JTxt (c_organizationId c)); ("network", JTxt (network_name (c_network c))); ("validatedLedgerIndex", JNo (c_validatedLedgerIndex c));
   ("complete", JBol (c_complete c)); ("observedAt", JTxt (c_observedAt c)); ("maxAgeSeconds", JNo (c_maxAgeSeconds c)); ("sourceReference", JTxt (c_sourceReference c));
   ("provenance", provenance_json (c_provenance c))].
Definition exposureData (r : TradeExposureReading) : list (string * Json) :=
  [("schema", JTxt TRADE_EXPOSURE_SNAPSHOT_SCHEMA)] ++ common_json (x_common r) ++
  [("ownerAccount", JTxt (x_ownerAccount r)); ("riskBucket", JTxt (x_riskBucket r)); ("denomination", asset_json (x_denomination r)); ("currentExposure", JTxt (x_currentExposure r));
   ("pendingExposure", JTxt (x_pendingExposure r)); ("activeOrderExposure", JTxt (x_activeOrderExposure r)); ("capacityRemaining", JTxt (x_capacityRemaining r))].
Definition activeOrderData (r : TradeActiveOrderReading) : list (string * Json) :=
  [("schema", JTxt TRADE_ACTIVE_ORDER_SNAPSHOT_SCHEMA)] ++ common_json (n_common r) ++
  [("scope", JTxt (scope_text (n_scope r))); ("scopeKey", JTxt (n_scopeKey r)); ("ledgerOpenOffers", JNo (n_ledgerOpenOffers r)); ("pendingSubmissions", JNo (n_pendingSubmissions r));
   ("uncertainSubmissions", JNo (n_uncertainSubmissions r))].

Inductive TypeErr := TypeErr_.

Section Snapshots.
Context `{LedgerHash} `{JsHost}.

Definition readCommon (entries : list (string * JsValue)) : option SnapshotCommon :=
  match parseTradeFactProvenance (get "provenance" entries), text_of isTradeIdentifier (get "sourceId" entries), text_of isTradeIdentifier (get "organizationId" entries), isTradeNetwork (get "network" entries),
        get "complete" entries, text_of isTradeReference (get "sourceReference" entries) with
  | Some provenance, Some sourceId, Some organizationId, Some network, JsBool complete, Some sourceReference =>
      if isSafeIntegerIn (get "validatedLedgerIndex" entries) 1 MAXIMUM_LEDGER_INDEX && isTradeInstant (get "observedAt" entries) && isSafeIntegerIn (get "maxAgeSeconds" entries) 1 TRADING_RISK_MAXIMUM_FACT_AGE_SECONDS then
        Some {| c_sourceId := sourceId; c_organizationId := organizationId; c_network := network; c_validatedLedgerIndex := as_number (get "validatedLedgerIndex" entries); c_complete := complete;
                c_observedAt := as_text (get "observedAt" entries); c_maxAgeSeconds := as_number (get "maxAgeSeconds" entries); c_sourceReference := sourceReference; c_provenance := provenance |}
      else None
  | _, _, _, _, _, _ => None
  end.

Definition readExposure (entries : list (string * JsValue)) : option TradeExposureReading :=
  if negb (is_text TRADE_EXPOSURE_SNAPSHOT_SCHEMA (get "schema" entries)) then None
  else
    match readCommon entries, parseRiskAsset (get "denomination" entries), parseRiskDecimal (get "currentExposure" entries), parseRiskDecimal (get "pendingExposure" entries),
          parseRiskDecimal (get "activeOrderExposure" entries), parseRiskDecimal (get "capacityRemaining" entries) with
    | Some common, Some denomination, Some current, Some pending, Some active, Some capacity =>
        if negb (bool_decide (checkTradeAccountAddress (get "ownerAccount" entries) = account_valid)) then None
        else
          match text_of isTradeIdentifier (get "riskBucket" entries) with
          | Some bucket => Some {| x_common := common; x_ownerAccount := as_text (get "ownerAccount" entries); x_riskBucket := bucket; x_denomination := denomination; x_currentExposure := current;
                                   x_pendingExposure := pending; x_activeOrderExposure := active; x_capacityRemaining := capacity |}
          | None => None
          end
    | _, _, _, _, _, _ => None
    end.

Definition readActiveOrders (entries : list (string * JsValue)) : option TradeActiveOrderReading :=
  if negb (is_text TRADE_ACTIVE_ORDER_SNAPSHOT_SCHEMA (get "schema" entries)) then None
  else
    match readCommon entries, order_scope_of (get "scope" entries), text_of (λ s, negb (js_length s =? 0) && (js_length s <=? 512)) (get "scopeKey" entries) with
    | Some common, Some scope, Some scopeKey =>
        if forallb (λ key, isSafeIntegerIn (get key entries) 0 MAXIMUM_COUNT) ["ledgerOpenOffers"; "pendingSubmissions"; "uncertainSubmissions"]%string then
          Some {| n_common := common; n_scope := scope; n_scopeKey := scopeKey; n_ledgerOpenOffers := as_number (get "ledgerOpenOffers" entries); n_pendingSubmissions := as_number (get "pendingSubmissions" entries);
                  n_uncertainSubmissions := as_number (get "uncertainSubmissions" entries) |}
        else None
    | _, _, _ => None
    end.

Definition sealTradeExposureSnapshot (reading : TradeExposureReading) : result RangeErr TradeExposureSnapshot :=
  let data := js_of (JObj (exposureData reading)) in
  match closedRecord data EXPOSURE_FIELDS [] with
  | Some entries =>
      match readExposure entries with
      | Some parsed => let* digest := tradeRiskDigest TRADE_EXPOSURE_SNAPSHOT_DIGEST_DOMAIN data in Ok {| x_reading := parsed; x_digest := digest |}
      | None => Throw RangeErr_
      end
  | None => Throw RangeErr_
  end.
Definition sealTradeActiveOrderSnapshot (reading : TradeActiveOrderReading) : result RangeErr TradeActiveOrderSnapshot :=
  let data := js_of (JObj (activeOrderData reading)) in
  match closedRecord data ACTIVE_ORDER_FIELDS [] with
  | Some entries =>
      match readActiveOrders entries with
      | Some parsed => let* digest := tradeRiskDigest TRADE_ACTIVE_ORDER_SNAPSHOT_DIGEST_DOMAIN data in Ok {| n_reading := parsed; n_digest := digest |}
      | None => Throw RangeErr_
      end
  | None => Throw RangeErr_
  end.

(** A sealed exposure object names its denomination by kind. Its data form is
    rebuilt from whatever it carries; reading the provenance of an object
    without one throws. *)
Definition object_properties (v : JsValue) : option (list (string * JsValue)) := match v with JsObject _ properties => Some properties | _ => None end.
Definition hasAssetObject (raw : JsValue) (key : string) : bool :=
  match object_properties raw with
  | Some properties => match get key properties with JsObject _ asset => has "kind" asset | _ => false end
  | None => false
  end.
Definition object_asset (v : JsValue) : JsValue :=
  if is_text "xrp" (property "kind" v) then JsObject true [("currency", JsString "XRP")] else JsObject true [("currency", property "currency" v); ("issuer", property "issuer" v)].
Definition tradeExposureSnapshotData (raw : JsValue) : result TypeErr JsValue :=
  match get "provenance" (default [] (object_properties raw)) with
  | JsUndefined | JsNull => Throw TypeErr_
  | provenance =>
      let properties := default [] (object_properties raw) in
      let reading := List.filter (λ p, negb (bool_decide (p.1 ∈ ["digest"; "schema"; "denomination"; "provenance"]%string))) properties in
      Ok (JsObject true ([("schema"%string, JsString TRADE_EXPOSURE_SNAPSHOT_SCHEMA)] ++ reading ++
        [("denomination", object_asset (get "denomination" properties)); ("provenance", JsObject true [("kind", property "kind" provenance); ("method", property "method" provenance)]);
         ("digest", get "digest" properties)]%string))
  end.

Definition parseTradeExposureSnapshot (raw : JsValue) : result TypeErr (option TradeExposureSnapshot) :=
  let* data := if hasAssetObject raw "denomination" then tradeExposureSnapshotData raw else Ok raw in
  match unsealRiskRecord TRADE_EXPOSURE_SNAPSHOT_DIGEST_DOMAIN data with
  | None => Ok None
  | Some intact =>
      match closedRecord (JsObject true intact) EXPOSURE_FIELDS ["digest"]%string with
      | Some entries => Ok ((λ parsed, {| x_reading := parsed; x_digest := as_text (get "digest" intact) |}) <$> readExposure entries)
      | None => Ok None
      end
  end.
Definition parseTradeActiveOrderSnapshot (raw : JsValue) : option TradeActiveOrderSnapshot :=
  match unsealRiskRecord TRADE_ACTIVE_ORDER_SNAPSHOT_DIGEST_DOMAIN raw with
  | None => None
  | Some intact =>
      match closedRecord (JsObject true intact) ACTIVE_ORDER_FIELDS ["digest"]%string with
      | Some entries => (λ parsed, {| n_reading := parsed; n_digest := as_text (get "digest" intact) |}) <$> readActiveOrders entries
      | None => None
      end
  end.

Definition tradeActiveOrderSnapshotData (s : TradeActiveOrderSnapshot) : Json := JObj (activeOrderData (n_reading s) ++ [("digest"%string, JTxt (n_digest s))]).

Definition tradeExposureCommitted (s : TradeExposureSnapshot) : result RangeErr TradeRational :=
  let* current := rationalOfDecimal (x_currentExposure (x_reading s)) in
  let* pending := rationalOfDecimal (x_pendingExposure (x_reading s)) in
  let* active := rationalOfDecimal (x_activeOrderExposure (x_reading s)) in
  let* first := addRationals ZERO_RATIONAL current in
  let* second := addRationals first pending in
  addRationals second active.
Definition tradeActiveOrderCount (s : TradeActiveOrderSnapshot) : Z := n_ledgerOpenOffers (n_reading s) + n_pendingSubmissions (n_reading s) + n_uncertainSubmissions (n_reading s).
Definition tradeActiveOrderScopeKey (scope : TradeActiveOrderScope) (organizationId ownerAccount delegateAccount baseToken quoteToken : string) : string :=
  match scope with
  | scope_organization => "organization:" +:+ organizationId
  | scope_owner => "owner:" +:+ ownerAccount
  | scope_delegate => "delegate:" +:+ delegateAccount
  | scope_owner_pair => "owner-pair:" +:+ ownerAccount +:+ "|" +:+ baseToken +:+ "|" +:+ quoteToken
  end.
End Snapshots.

Section SnapshotLemmas.
Context `{LedgerHash} `{JsHost}.

Record common_ok (c : SnapshotCommon) : Prop := { co_instant : isTradeInstant (JsString (c_observedAt c)) = true; co_age : 1 ≤ c_maxAgeSeconds c ≤ 3600; co_ledger : 1 ≤ c_validatedLedgerIndex c ≤ MAXIMUM_LEDGER_INDEX }.
Lemma readCommon_ok entries c : readCommon entries = Some c → common_ok c.
Proof.
  unfold readCommon. destruct (parseTradeFactProvenance _); [|done]. destruct (text_of _ (get "sourceId" entries)); [|done]. destruct (text_of _ (get "organizationId" entries)); [|done].
  destruct (isTradeNetwork _); [|done]. destruct (get "complete" entries); try done. destruct (text_of _ (get "sourceReference" entries)); [|done].
  destruct (isSafeIntegerIn (get "validatedLedgerIndex" entries) 1 _) eqn:El; [|done]. destruct (isTradeInstant (get "observedAt" entries)) eqn:Ei; [|done]. destruct (isSafeIntegerIn (get "maxAgeSeconds" entries) 1 _) eqn:Ea; [|done].
  cbn [andb]. intros [= <-]. apply safe_in in El as [Hl _], Ea as [Ha _]; [|lia..]. split; cbn [c_observedAt c_maxAgeSeconds c_validatedLedgerIndex]; [by rewrite <-instant_text|done..].
Qed.

Definition figure (s : string) : Prop := isCanonicalDecimal s MONETARY_DECIMAL_MAXIMUM_DIGITS = true.
Record exposure_ok (r : TradeExposureReading) : Prop := {
  eo_common : common_ok (x_common r); eo_current : figure (x_currentExposure r); eo_pending : figure (x_pendingExposure r); eo_active : figure (x_activeOrderExposure r); eo_capacity : figure (x_capacityRemaining r) }.
Lemma readExposure_ok entries r : readExposure entries = Some r → exposure_ok r.
Proof.
  unfold readExposure, parseRiskDecimal. destruct (negb _); [done|]. destruct (readCommon entries) as [c|] eqn:Ec; [|done]. destruct (parseRiskAsset _); [|done].
  destruct (text_of _ (get "currentExposure" entries)) eqn:E1; [|done]. destruct (text_of _ (get "pendingExposure" entries)) eqn:E2; [|done]. destruct (text_of _ (get "activeOrderExposure" entries)) eqn:E3; [|done].
  destruct (text_of _ (get "capacityRemaining" entries)) eqn:E4; [|done]. apply text_of_Some in E1 as [_ H1], E2 as [_ H2], E3 as [_ H3], E4 as [_ H4]. destruct (negb _); [done|].
  destruct (text_of _ (get "riskBucket" entries)); [|done]. intros [= <-]. split; [by eapply readCommon_ok|done..].
Qed.
Lemma parse_exposure_ok raw s : parseTradeExposureSnapshot raw = Ok (Some s) → exposure_ok (x_reading s).
Proof.
  unfold parseTradeExposureSnapshot. intros (data&_&E)%result_bind_Ok. destruct (unsealRiskRecord _ data) as [intact|]; [|done]. destruct (closedRecord _ _ _) as [es|]; [|done].
  destruct (readExposure es) as [r|] eqn:Er; [|done]. injection E as <-. by eapply readExposure_ok.
Qed.
Lemma parse_orders_ok raw s : parseTradeActiveOrderSnapshot raw = Some s → common_ok (n_common (n_reading s)) ∧ 0 ≤ tradeActiveOrderCount s.
Proof.
  unfold parseTradeActiveOrderSnapshot. destruct (unsealRiskRecord _ raw) as [intact|]; [|done]. destruct (closedRecord _ _ _) as [es|]; [|done]. unfold readActiveOrders. destruct (negb _); [done|].
  destruct (readCommon es) as [c|] eqn:Ec; [|done]. destruct (order_scope_of _); [|done]. destruct (text_of _ (get "scopeKey" es)); [|done]. destruct (forallb _ _) eqn:Ef; [|done]. intros [= <-].
  split; [by eapply readCommon_ok|]. rewrite forallb_forall in Ef. unfold tradeActiveOrderCount. cbn [n_reading n_ledgerOpenOffers n_pendingSubmissions n_uncertainSubmissions].
  assert (∀ k, In k ["ledgerOpenOffers"; "pendingSubmissions"; "uncertainSubmissions"]%string → 0 ≤ as_number (get k es)) as Hk.
  { intros k Hk%Ef. unfold isSafeIntegerIn in Hk. destruct (get k es); try done. cbn [as_number]. apply andb_true_iff in Hk as [[_ Hk%Z.leb_le]%andb_true_iff _]. done. }
  pose proof (Hk "ledgerOpenOffers"%string ltac:(cbn; tauto)). pose proof (Hk "pendingSubmissions"%string ltac:(cbn; tauto)). pose proof (Hk "uncertainSubmissions"%string ltac:(cbn; tauto)). lia.
Qed.

(** What is committed is the exact sum of the three figures. *)
Definition committed_value (r : TradeExposureReading) : Q := (dec_value (x_currentExposure r) + dec_value (x_pendingExposure r) + dec_value (x_activeOrderExposure r))%Q.
Lemma committed_exact s : exposure_ok (x_reading s) → ∃ c, tradeExposureCommitted s = Ok c ∧ decimal_valued c (committed_value (x_reading s)).
Proof.
  intros [_ H1 H2 H3 _]. unfold tradeExposureCommitted. destruct (decimal_text _ H1) as (r1&->&V1), (decimal_text _ H2) as (r2&->&V2), (decimal_text _ H3) as (r3&->&V3). cbn [result_bind].
  destruct (add_valued _ _ _ _ zero_valued V1) as (a1&->&W1). cbn [result_bind]. destruct (add_valued _ _ _ _ W1 V2) as (a2&->&W2). cbn [result_bind]. destruct (add_valued _ _ _ _ W2 V3) as (a3&->&W3).
  exists a3. split; [done|]. unfold committed_value. by rewrite Qplus_0_l in W3.
Qed.
End SnapshotLemmas.

(** ** Instances *)

Module FactsDemo.
Import TradeDemo.
#[local] Existing Instance DelegationDemo.clock_host.
Definition reading_at (price : TradePrice) : TrustedMarketPriceReading := {|
  m_sourceId := "feed-1"; m_organizationId := "org-1"; m_network := xrp_ledger_testnet; m_base := issued "USD" issuer; m_quote := xrp; m_price := price; m_convention := mid;
  m_observedAt := "2026-01-05T10:00:00.000Z"; m_maxAgeSeconds := 60; m_sourceReference := "book-7"; m_provenance := {| pv_kind := operational; pv_method := "validated-ledger-book" |} |}.
Definition sealed_at (price : TradePrice) : option TrustedMarketPriceSnapshot := match sealTrustedMarketPriceSnapshot (reading_at price) with Ok s => Some s | Throw _ => None end.
Definition requirement : TradeReferenceRequirement := {|
  rq_organizationId := "org-1"; rq_network := xrp_ledger_testnet; rq_base := issued "USD" issuer; rq_quote := xrp; rq_policy := {| mr_sourceIds := ["feed-1"%string]; mr_conventions := [mid]; mr_maxAgeSeconds := 30 |};
  rq_provenance := operational_only; rq_at := "2026-01-05T10:00:30.000Z" |}.
Definition chosen_price (prices : list TradePrice) : result TradeReferenceReason TradePrice :=
  match selectTradeReference (sealed_snapshot <$> omap sealed_at prices) requirement with Ok s => Ok (m_price (m_reading s)) | Throw r => Throw r end.
Example selections : chosen_price [] = Throw REFERENCE_MISSING ∧ chosen_price [rational 2 1] = Ok (rational 2 1) ∧ chosen_price [rational 2 1; rational 2 1] = Ok (rational 2 1) ∧ chosen_price [rational 2 1; rational 7 3] = Throw REFERENCE_CONFLICT.
Proof. vm_compute. split_and!; reflexivity. Qed.

(** A reading whose price is not in lowest terms is sealed, but its snapshot is
    not read back: the digest covers the price as stated, the snapshot carries it
    reduced. *)
Example sealed_unreduced_refused : match sealed_at (rational 4 2) with
  | Some s => m_price (m_reading s) = rational 2 1 ∧ parseTrustedMarketPriceSnapshot (sealed_snapshot s) = None ∧ parseTrustedMarketPriceSnapshot (market_data (js_of (trustedMarketPriceSnapshotData s))) = None
  | None => False end.
Proof. vm_compute. split_and!; reflexivity. Qed.
(** An exposure object without a provenance is not refused as malformed: reading it throws. *)
Example exposure_object_throws : parseTradeExposureSnapshot (JsObject true [("denomination"%string, JsObject true [("kind"%string, JsString "xrp")])]) = Throw TypeErr_.
Proof. reflexivity. Qed.
End FactsDemo.
