(* ===== verification/TradeProfile.v ===== *)
(** * Trading-risk profiles

    Model of trade-runtime/policy/trade-risk-profile.ts: the strict reader of a
    trading-risk profile, its data form and its digest. A refusal carries the
    code and field the code throws; whatever else is thrown while reading becomes
    the same refusal as an unreadable profile, as the code's handler makes it. *)

From Stdlib Require Import QArith.
From S2P Require Import Prelude Decimal Js JsMap StableJson HashChain Parameters AdapterPort RailAmounts TradeDomain TradeProposal TradeDelegation TradeRisk TradeFacts.

Local Open Scope Z_scope.
Local Open Scope frontera_scope.

(** ** Profiles *)

Definition TRADING_RISK_PROFILE_SCHEMA : string := "frontera.trading-risk-profile.v1".
Definition TRADING_RISK_PROFILE_DIGEST_DOMAIN : string := "frontera.trading-risk-profile-digest.v1".
Definition TRADING_RISK_PROFILE_MAXIMUM_HORIZON_SECONDS : Z := 400 * 24 * 3600.
Definition TRADING_RISK_MAXIMUM_ASSESSMENT_AGE_SECONDS : Z := 300.
Definition MAXIMUM_ACCOUNTS : Z := 64.
Definition MAXIMUM_PAIRS : Z := 32.
Definition MAXIMUM_SOURCES : Z := 8.
Definition MAXIMUM_ACTIVE_ORDERS : Z := 10000.

Inductive TradeRiskProfileStatus := profile_active | profile_suspended | profile_retired.
Global Instance TradeRiskProfileStatus_eq_dec : EqDecision TradeRiskProfileStatus.
Proof. solve_decision. Defined.
Definition profile_status_name (s : TradeRiskProfileStatus) : string := match s with profile_active => "active" | profile_suspended => "suspended" | profile_retired => "retired" end.
Inductive TradeDeviationRule := symmetric | adverse.
Global Instance TradeDeviationRule_eq_dec : EqDecision TradeDeviationRule.
Proof. solve_decision. Defined.
Definition rule_name (r : TradeDeviationRule) : string := match r with symmetric => "symmetric" | adverse => "adverse" end.
Definition policy_name (p : TradeFactProvenancePolicy) : string := match p with operational_only => "operational-only" | simulated_permitted => "simulated-permitted" end.

(** A control that is enforced, or switched off for a stated reason. *)
Inductive RiskControl (A : Type) := enforce (policy : A) | switched_off (reason : string).
Arguments enforce {A} policy.
Arguments switched_off {A} reason.
Definition is_enforced {A} (c : RiskControl A) : bool := match c with enforce _ => true | switched_off _ => false end.

Record TradeExposurePolicy := { ep_riskBucket : string; ep_denomination : TradeAsset; ep_ceiling : string; ep_sourceIds : list string; ep_maxAgeSeconds : Z }.
Record TradeActiveOrderPolicy := { op_scope : TradeActiveOrderScope; op_maximum : Z; op_sourceIds : list string; op_maxAgeSeconds : Z }.
Record TradePriceBand := { band_floor : TradePrice; band_ceiling : TradePrice }.
Record TradeDeviationPolicy := { dp_maxBasisPoints : Z; dp_rule : TradeDeviationRule }.
Record TradeNotionalPolicy := { np_valuationAsset : TradeAsset; np_maximum : string }.
Record TradePairApprovalTriggers := { ap_restricted : bool; ap_notionalAbove : option string; ap_deviationAboveBasisPoints : option Z }.
Record TradingPairRiskPolicy := {
  pairId : string; pair_base : TradeAsset; pair_quote : TradeAsset; sides : list TradeSide; maxBaseQuantity : string; maxGivenBuy : option string; maxGivenSell : option string;
  minSellPrice : option (RiskControl TradePrice); maxBuyPrice : option (RiskControl TradePrice); priceBand : RiskControl TradePriceBand;
  referenceDeviation : RiskControl TradeDeviationPolicy; pair_notional : RiskControl TradeNotionalPolicy; pair_approval : TradePairApprovalTriggers }.
Record ProfileBody := {
  f_organizationId : string; profileId : string; profileVersion : Z; profile_status : TradeRiskProfileStatus; effectiveFrom : string; expiresAt : string; f_action : string; f_network : TradeNetwork;
  ownerAccounts : list string; delegateAccounts : list string; allowedFlags : list TradeOfferFlag; factProvenance : TradeFactProvenancePolicy; assessmentMaxAgeSeconds : Z; f_delegation : TradeDelegationPolicy;
  marketReference : RiskControl TradeMarketReferencePolicy; f_exposure : RiskControl TradeExposurePolicy; f_activeOrders : RiskControl TradeActiveOrderPolicy;
  sensitiveOwners : list string; sensitiveDelegates : list string; f_pairs : list TradingPairRiskPolicy }.
Record TradingRiskProfile := { f_body : ProfileBody; f_digest : string }.

Inductive TradingRiskProfileViolationCode :=
  | RP_NOT_A_RECORD | RP_SCHEMA_UNSUPPORTED | RP_FIELD_INVALID | RP_WINDOW_INVALID | RP_ACCOUNT_INVALID | RP_LIST_INVALID | RP_LIMIT_INVALID | RP_PRICE_INVALID | RP_ASSET_INVALID | RP_PAIR_NOT_CANONICAL
  | RP_PAIR_DUPLICATED | RP_CONTROL_INVALID | RP_CONTROL_NOT_DISABLEABLE | RP_DEPENDENCY_MISSING | RP_CONCURRENCY_UNSUPPORTED | RP_DIGEST_MISMATCH.

(** ** Readers that refuse *)

Definition reading (A : Type) : Type := result (TradingRiskProfileViolationCode * string) A.
Definition or_refuse {A} (o : option A) (violation : TradingRiskProfileViolationCode) (field : string) : reading A := match o with Some a => Ok a | None => Throw (violation, field) end.
(** A range error is caught with everything else. *)
Definition caught {A} (r : result RangeErr A) : reading A := match r with Ok a => Ok a | Throw _ => Throw (RP_NOT_A_RECORD, "<profile>"%string) end.
Definition at_index (field : string) (index : nat) : string := field +:+ "[" +:+ text (bigint_to_string (Z.of_nat index)) +:+ "]".
Definition member (field key : string) : string := field +:+ "." +:+ key.

Definition profile_record (raw : JsValue) (field : string) (required optional : list string) : reading (list (string * JsValue)) := or_refuse (closedRecord raw required optional) RP_FIELD_INVALID field.
Definition identifier (v : JsValue) (field : string) : reading string := or_refuse (text_of isTradeIdentifier v) RP_FIELD_INVALID field.
Definition oneOf {A} (name : A → string) (allowed : list A) (v : JsValue) (field : string) : reading A :=
  or_refuse (match v with JsString s => List.find (λ a, str_eqb (name a) s) allowed | _ => None end) RP_FIELD_INVALID field.
Definition integerIn (v : JsValue) (minimum maximum : Z) (field : string) : reading Z := if isSafeIntegerIn v minimum maximum then Ok (as_number v) else Throw (RP_FIELD_INVALID, field).
Definition limit (v : JsValue) (field : string) : reading string := or_refuse (parsePositiveRiskDecimal v) RP_LIMIT_INVALID field.
Definition price (v : JsValue) (field : string) : reading TradePrice := or_refuse (parseRiskPrice v) RP_PRICE_INVALID field.

(** The items of a list, each with its own field. *)
Fixpoint read_items {A} (item : JsValue → string → reading A) (field : string) (index : nat) (l : list JsValue) : reading (list A) :=
  match l with
  | [] => Ok []
  | v :: l => let* a := item v (at_index field index) in let* rest := read_items item field (S index) l in Ok (a :: rest)
  end.
Definition name_le {A} (name : A → string) (a b : A) : Prop := String.le (name a) (name b).
Global Instance name_le_dec {A} (name : A → string) : RelDecision (name_le name).
Proof. unfold RelDecision, name_le. solve_decision. Defined.
Definition sortedSet {A} (name : A → string) (raw : JsValue) (maximum : Z) (field : string) (item : JsValue → string → reading A) (allowEmpty : bool) : reading (list A) :=
  let* l := or_refuse (plainList raw maximum) RP_LIST_INVALID field in
  guard* negb ((length l =? 0)%nat && negb allowEmpty) else (RP_LIST_INVALID, field) in
  let* values := read_items item field 0 l in
  guard* bool_decide (NoDup (name <$> values)) else (RP_LIST_INVALID, field) in
  Ok (merge_sort (name_le name) values).

Definition isDisabledShape (raw : JsValue) : bool := match closedRecord raw ["mode"; "reason"]%string [] with Some entries => is_text "disabled" (get "mode" entries) | None => false end.
Definition disabled_reason (raw : JsValue) (field : string) : reading string :=
  let* entries := profile_record raw field ["mode"; "reason"]%string [] in
  guard* is_text "disabled" (get "mode" entries) else (RP_CONTROL_INVALID, field) in
  identifier (get "reason" entries) (member field "reason").
Definition control {A} (raw : JsValue) (field : string) (read : JsValue → string → reading A) : reading (RiskControl A) :=
  if isDisabledShape raw then let* reason := disabled_reason raw field in Ok (switched_off reason) else let* policy := read raw field in Ok (enforce policy).
Definition enforced (raw : JsValue) (field : string) (required : list string) : reading (list (string * JsValue)) :=
  let* entries := profile_record raw field ("mode"%string :: required) [] in
  guard* is_text "enforce" (get "mode" entries) else (RP_CONTROL_INVALID, member field "mode") in
  Ok entries.
Definition snapshotConcurrency (v : JsValue) (field : string) : reading unit := if is_text "snapshot-advisory" v then Ok tt else Throw (RP_CONCURRENCY_UNSUPPORTED, field).
(** An entry that may be absent. *)
Definition if_has {A} (key : string) (entries : list (string * JsValue)) (read : reading A) : reading (option A) := if has key entries then let* a := read in Ok (Some a) else Ok None.

Section Profiles.
Context `{LedgerHash} `{JsHost}.

Definition asset (v : JsValue) (field : string) : reading TradeAsset := or_refuse (parseRiskAsset v) RP_ASSET_INVALID field.
Definition account (v : JsValue) (field : string) : reading string := if bool_decide (checkTradeAccountAddress v = account_valid) then Ok (as_text v) else Throw (RP_ACCOUNT_INVALID, field).

Definition sideBound (entries : list (string * JsValue)) (field : string) (sides : list TradeSide) (key : string) (side : TradeSide) : reading (option (RiskControl TradePrice)) :=
  let allowed := bool_decide (side ∈ sides) in
  guard* Bool.eqb allowed (has key entries) else (RP_CONTROL_INVALID, member field key) in
  if negb allowed then Ok None
  else
    let v := get key entries in
    if isDisabledShape v then let* reason := disabled_reason v (member field key) in Ok (Some (switched_off reason)) else let* p := price v (member field key) in Ok (Some (enforce p)).

Definition read_band (v : JsValue) (at_ : string) : reading TradePriceBand :=
  let* band := enforced v at_ ["floor"; "ceiling"]%string in
  let* floor := price (get "floor" band) (member at_ "floor") in
  let* ceiling := price (get "ceiling" band) (member at_ "ceiling") in
  guard* negb (0 <? compareRationals floor ceiling) else (RP_PRICE_INVALID, at_) in
  Ok {| band_floor := floor; band_ceiling := ceiling |}.
Definition read_deviation (v : JsValue) (at_ : string) : reading TradeDeviationPolicy :=
  let* deviation := enforced v at_ ["maxBasisPoints"; "rule"]%string in
  let* maximum := integerIn (get "maxBasisPoints" deviation) 1 10000 (member at_ "maxBasisPoints") in
  let* rule := oneOf rule_name [adverse; symmetric] (get "rule" deviation) (member at_ "rule") in
  Ok {| dp_maxBasisPoints := maximum; dp_rule := rule |}.
Definition read_notional (v : JsValue) (at_ : string) : reading TradeNotionalPolicy :=
  let* policy := enforced v at_ ["valuationAsset"; "maximum"]%string in
  let* valuation := asset (get "valuationAsset" policy) (member at_ "valuationAsset") in
  let* maximum := limit (get "maximum" policy) (member at_ "maximum") in
  Ok {| np_valuationAsset := valuation; np_maximum := maximum |}.

(** Thresholds of review, each below the enforced maximum it refers to. *)
Definition notional_trigger (notional : RiskControl TradeNotionalPolicy) (entries : list (string * JsValue)) (field : string) : reading string :=
  let* above := limit (get "notionalAbove" entries) (member field "notionalAbove") in
  match notional with
  | enforce policy =>
      let* a := caught (rationalOfDecimal above) in
      let* m := caught (rationalOfDecimal (np_maximum policy)) in
      if 0 <=? compareRationals a m then Throw (RP_DEPENDENCY_MISSING, member field "notionalAbove") else Ok above
  | switched_off _ => Throw (RP_DEPENDENCY_MISSING, member field "notionalAbove")
  end.
Definition deviation_trigger (deviation : RiskControl TradeDeviationPolicy) (entries : list (string * JsValue)) (field : string) : reading Z :=
  let* above := integerIn (get "deviationAboveBasisPoints" entries) 0 9999 (member field "deviationAboveBasisPoints") in
  match deviation with
  | enforce policy => if dp_maxBasisPoints policy <=? above then Throw (RP_DEPENDENCY_MISSING, member field "deviationAboveBasisPoints") else Ok above
  | switched_off _ => Throw (RP_DEPENDENCY_MISSING, member field "deviationAboveBasisPoints")
  end.

Definition parsePair (raw : JsValue) (field : string) : reading TradingPairRiskPolicy :=
  let* entries := profile_record raw field ["pairId"; "base"; "quote"; "sides"; "maxBaseQuantity"; "maxOwnerGiven"; "priceBand"; "referenceDeviation"; "notional"; "approval"]%string ["minSellPrice"; "maxBuyPrice"]%string in
  let* pairId := identifier (get "pairId" entries) (member field "pairId") in
  let* base := asset (get "base" entries) (member field "base") in
  let* quote := asset (get "quote" entries) (member field "quote") in
  guard* negb (tradeAssetsEqual base quote) else (RP_PAIR_NOT_CANONICAL, field) in
  let canonical := canonicalTradePair base quote in
  guard* tradeAssetsEqual canonical.1 base && tradeAssetsEqual canonical.2 quote else (RP_PAIR_NOT_CANONICAL, field) in
  let* sides := sortedSet side_name (get "sides" entries) 2 (member field "sides") (oneOf side_name [buy; sell]) false in
  let* maxBaseQuantity := limit (get "maxBaseQuantity" entries) (member field "maxBaseQuantity") in
  let givenField := member field "maxOwnerGiven" in
  let* given := profile_record (get "maxOwnerGiven" entries) givenField (side_name <$> sides) [] in
  let* givenBuy := if_has "buy" given (limit (get "buy" given) (member givenField "buy")) in
  let* givenSell := if_has "sell" given (limit (get "sell" given) (member givenField "sell")) in
  let* minSell := sideBound entries field sides "minSellPrice" sell in
  let* maxBuy := sideBound entries field sides "maxBuyPrice" buy in
  let* band := control (get "priceBand" entries) (member field "priceBand") read_band in
  let* deviation := control (get "referenceDeviation" entries) (member field "referenceDeviation") read_deviation in
  let* notional := control (get "notional" entries) (member field "notional") read_notional in
  let approvalField := member field "approval" in
  let* approval := profile_record (get "approval" entries) approvalField ["restricted"]%string ["notionalAbove"; "deviationAboveBasisPoints"]%string in
  let* restricted := or_refuse (match get "restricted" approval with JsBool b => Some b | _ => None end) RP_FIELD_INVALID (member approvalField "restricted") in
  let* notionalAbove := if_has "notionalAbove" approval (notional_trigger notional approval approvalField) in
  let* deviationAbove := if_has "deviationAboveBasisPoints" approval (deviation_trigger deviation approval approvalField) in
  Ok {| pairId := pairId; pair_base := base; pair_quote := quote; sides := sides; maxBaseQuantity := maxBaseQuantity; maxGivenBuy := givenBuy; maxGivenSell := givenSell; minSellPrice := minSell; maxBuyPrice := maxBuy;
        priceBand := band; referenceDeviation := deviation; pair_notional := notional;
        pair_approval := {| ap_restricted := restricted; ap_notionalAbove := notionalAbove; ap_deviationAboveBasisPoints := deviationAbove |} |}.

Definition sourceIds (v : JsValue) (at_ : string) : reading (list string) := sortedSet id v MAXIMUM_SOURCES at_ identifier false.
Definition age (v : JsValue) (at_ : string) : reading Z := integerIn v 1 TRADING_RISK_MAXIMUM_FACT_AGE_SECONDS at_.
Definition read_market (v : JsValue) (at_ : string) : reading TradeMarketReferencePolicy :=
  let* policy := enforced v at_ ["sourceIds"; "conventions"; "maxAgeSeconds"]%string in
  let* sources := sourceIds (get "sourceIds" policy) (member at_ "sourceIds") in
  let* conventions := sortedSet convention_name (get "conventions" policy) 4 (member at_ "conventions") (oneOf convention_name TRADE_REFERENCE_CONVENTIONS) false in
  let* maximum := age (get "maxAgeSeconds" policy) (member at_ "maxAgeSeconds") in
  Ok {| mr_sourceIds := sources; mr_conventions := conventions; mr_maxAgeSeconds := maximum |}.
Definition read_exposure_policy (v : JsValue) (at_ : string) : reading TradeExposurePolicy :=
  let* policy := enforced v at_ ["riskBucket"; "denomination"; "ceiling"; "sourceIds"; "maxAgeSeconds"; "concurrency"]%string in
  let* bucket := identifier (get "riskBucket" policy) (member at_ "riskBucket") in
  let* denomination := asset (get "denomination" policy) (member at_ "denomination") in
  let* ceiling := limit (get "ceiling" policy) (member at_ "ceiling") in
  let* sources := sourceIds (get "sourceIds" policy) (member at_ "sourceIds") in
  let* maximum := age (get "maxAgeSeconds" policy) (member at_ "maxAgeSeconds") in
  let* _ := snapshotConcurrency (get "concurrency" policy) (member at_ "concurrency") in
  Ok {| ep_riskBucket := bucket; ep_denomination := denomination; ep_ceiling := ceiling; ep_sourceIds := sources; ep_maxAgeSeconds := maximum |}.
Definition read_order_policy (v : JsValue) (at_ : string) : reading TradeActiveOrderPolicy :=
  let* policy := enforced v at_ ["scope"; "maximum"; "sourceIds"; "maxAgeSeconds"; "concurrency"]%string in
  let* scope := oneOf scope_text [scope_delegate; scope_organization; scope_owner; scope_owner_pair] (get "scope" policy) (member at_ "scope") in
  let* maximum := integerIn (get "maximum" policy) 1 MAXIMUM_ACTIVE_ORDERS (member at_ "maximum") in
  let* sources := sourceIds (get "sourceIds" policy) (member at_ "sourceIds") in
  let* maxAge := age (get "maxAgeSeconds" policy) (member at_ "maxAgeSeconds") in
  let* _ := snapshotConcurrency (get "concurrency" policy) (member at_ "concurrency") in
  Ok {| op_scope := scope; op_maximum := maximum; op_sourceIds := sources; op_maxAgeSeconds := maxAge |}.

Definition PROFILE_FIELDS : list string :=
  ["schema"; "organizationId"; "profileId"; "profileVersion"; "status"; "effectiveFrom"; "expiresAt"; "action"; "network"; "ownerAccounts"; "delegateAccounts"; "allowedFlags"; "factProvenance"; "assessmentMaxAgeSeconds";
   "delegation"; "marketReference"; "exposure"; "activeOrders"; "approval"; "pairs"].
Definition pair_key (p : TradingPairRiskPolicy) : string := tradeAssetToken (pair_base p) +:+ "|" +:+ tradeAssetToken (pair_quote p).

(** Controls that value an order need a market reference, unless it is measured in the base asset. *)
Definition pair_dependencies (market : bool) (exposure : RiskControl TradeExposurePolicy) (field : string) (p : TradingPairRiskPolicy) : reading unit :=
  guard* negb (is_enforced (referenceDeviation p) && negb market) else (RP_DEPENDENCY_MISSING, member field "referenceDeviation") in
  guard* negb (match pair_notional p with enforce n => negb (tradeAssetsEqual (np_valuationAsset n) (pair_base p)) | switched_off _ => false end && negb market) else (RP_DEPENDENCY_MISSING, member field "notional") in
  guard* negb (match exposure with enforce e => negb (tradeAssetsEqual (ep_denomination e) (pair_base p)) | switched_off _ => false end && negb market) else (RP_DEPENDENCY_MISSING, "exposure"%string) in
  Ok tt.
Fixpoint check_dependencies (market : bool) (exposure : RiskControl TradeExposurePolicy) (index : nat) (l : list TradingPairRiskPolicy) : reading unit :=
  match l with
  | [] => Ok tt
  | p :: l => let* _ := pair_dependencies market exposure (at_index "pairs" index) p in check_dependencies market exposure (S index) l
  end.

Definition parseBody (raw : JsValue) : reading ProfileBody :=
  let* entries := or_refuse (closedRecord raw PROFILE_FIELDS ["digest"]%string) RP_NOT_A_RECORD "<profile>" in
  guard* is_text TRADING_RISK_PROFILE_SCHEMA (get "schema" entries) else (RP_SCHEMA_UNSUPPORTED, "schema"%string) in
  let* organizationId := identifier (get "organizationId" entries) "organizationId" in
  let* profileId := identifier (get "profileId" entries) "profileId" in
  let* version := integerIn (get "profileVersion" entries) 1 1000000 "profileVersion" in
  let* status := oneOf profile_status_name [profile_active; profile_retired; profile_suspended] (get "status" entries) "status" in
  guard* isTradeInstant (get "effectiveFrom" entries) else (RP_WINDOW_INVALID, "effectiveFrom"%string) in
  guard* isTradeInstant (get "expiresAt" entries) else (RP_WINDOW_INVALID, "expiresAt"%string) in
  let from := as_text (get "effectiveFrom" entries) in
  let expires := as_text (get "expiresAt" entries) in
  let horizon := millisecondsBetween from expires in
  guard* negb ((horizon <=? 0) || (TRADING_RISK_PROFILE_MAXIMUM_HORIZON_SECONDS * 1000 <? horizon)) else (RP_WINDOW_INVALID, "expiresAt"%string) in
  let* action := identifier (get "action" entries) "action" in
  let* network := or_refuse (isTradeNetwork (get "network" entries)) RP_FIELD_INVALID "network" in
  let* owners := sortedSet id (get "ownerAccounts" entries) MAXIMUM_ACCOUNTS "ownerAccounts" account false in
  let* delegates := sortedSet id (get "delegateAccounts" entries) MAXIMUM_ACCOUNTS "delegateAccounts" account false in
  let* flags := sortedSet flag_name (get "allowedFlags" entries) 4 "allowedFlags" (oneOf flag_name [passive; immediate_or_cancel; fill_or_kill; sell_flag]) true in
  let* provenance := oneOf policy_name [operational_only; simulated_permitted] (get "factProvenance" entries) "factProvenance" in
  let* assessmentAge := integerIn (get "assessmentMaxAgeSeconds" entries) 1 TRADING_RISK_MAXIMUM_ASSESSMENT_AGE_SECONDS "assessmentMaxAgeSeconds" in
  guard* negb (isDisabledShape (get "delegation" entries)) else (RP_CONTROL_NOT_DISABLEABLE, "delegation"%string) in
  let* delegation := or_refuse (parseTradeDelegationPolicy (get "delegation" entries)) RP_CONTROL_INVALID "delegation" in
  let* market := control (get "marketReference" entries) "marketReference" read_market in
  let* exposure := control (get "exposure" entries) "exposure" read_exposure_policy in
  let* orders := control (get "activeOrders" entries) "activeOrders" read_order_policy in
  let* approval := profile_record (get "approval" entries) "approval" ["sensitiveOwners"; "sensitiveDelegates"]%string [] in
  let* sensitiveOwners := sortedSet id (get "sensitiveOwners" approval) MAXIMUM_ACCOUNTS "approval.sensitiveOwners" account true in
  let* sensitiveDelegates := sortedSet id (get "sensitiveDelegates" approval) MAXIMUM_ACCOUNTS "approval.sensitiveDelegates" account true in
  guard* forallb (λ o, bool_decide (o ∈ owners)) sensitiveOwners else (RP_ACCOUNT_INVALID, "approval.sensitiveOwners"%string) in
  guard* forallb (λ d, bool_decide (d ∈ delegates)) sensitiveDelegates else (RP_ACCOUNT_INVALID, "approval.sensitiveDelegates"%string) in
  let* pairList := or_refuse (plainList (get "pairs" entries) MAXIMUM_PAIRS) RP_LIST_INVALID "pairs" in
  guard* negb (length pairList =? 0)%nat else (RP_LIST_INVALID, "pairs"%string) in
  let* pairs := read_items parsePair "pairs" 0 pairList in
  guard* bool_decide (NoDup (pairId <$> pairs)) && bool_decide (NoDup (pair_key <$> pairs)) else (RP_PAIR_DUPLICATED, "pairs"%string) in
  let* _ := check_dependencies (is_enforced market) exposure 0 pairs in
  Ok {| f_organizationId := organizationId; profileId := profileId; profileVersion := version; profile_status := status; effectiveFrom := from; expiresAt := expires; f_action := action; f_network := network;
        ownerAccounts := owners; delegateAccounts := delegates; allowedFlags := merge_sort flag_le flags; factProvenance := provenance; assessmentMaxAgeSeconds := assessmentAge; f_delegation := delegation;
        marketReference := market; f_exposure := exposure; f_activeOrders := orders; sensitiveOwners := sensitiveOwners; sensitiveDelegates := sensitiveDelegates; f_pairs := pairs |}.

(** ** The data form and the digest *)

Definition off_json (reason : string) : Json := JObj [("mode", JTxt "disabled"); ("reason", JTxt reason)].
Definition control_json {A} (f : A → list (string * Json)) (c : RiskControl A) : Json := match c with enforce a => JObj (("mode"%string, JTxt "enforce") :: f a) | switched_off reason => off_json reason end.
Definition bound_json (c : RiskControl TradePrice) : Json := match c with enforce p => price_json p | switched_off reason => off_json reason end.
Definition pair_json (p : TradingPairRiskPolicy) : Json :=
  JObj ([("pairId", JTxt (pairId p)); ("base", asset_json (pair_base p)); ("quote", asset_json (pair_quote p)); ("sides", json_texts (side_name <$> sides p)); ("maxBaseQuantity", JTxt (maxBaseQuantity p));
         ("maxOwnerGiven", JObj (optional "buy" JTxt (maxGivenBuy p) ++ optional "sell" JTxt (maxGivenSell p)))] ++
        optional "minSellPrice" bound_json (minSellPrice p) ++ optional "maxBuyPrice" bound_json (maxBuyPrice p) ++
        [("priceBand", control_json (λ b, [("floor", price_json (band_floor b)); ("ceiling", price_json (band_ceiling b))]%string) (priceBand p));
         ("referenceDeviation", control_json (λ d, [("maxBasisPoints", JNo (dp_maxBasisPoints d)); ("rule", JTxt (rule_name (dp_rule d)))]%string) (referenceDeviation p));
         ("notional", control_json (λ n, [("valuationAsset", asset_json (np_valuationAsset n)); ("maximum", JTxt (np_maximum n))]%string) (pair_notional p));
         ("approval", JObj ([("restricted"%string, JBol (ap_restricted (pair_approval p)))] ++ optional "notionalAbove" JTxt (ap_notionalAbove (pair_approval p)) ++
                            optional "deviationAboveBasisPoints" JNo (ap_deviationAboveBasisPoints (pair_approval p))))]%string).
Definition tradingRiskProfileData (f : ProfileBody) : list (string * Json) :=
  [("schema", JTxt TRADING_RISK_PROFILE_SCHEMA); ("organizationId", JTxt (f_organizationId f)); ("profileId", JTxt (profileId f)); ("profileVersion", JNo (profileVersion f));
   ("status", JTxt (profile_status_name (profile_status f))); ("effectiveFrom", JTxt (effectiveFrom f)); ("expiresAt", JTxt (expiresAt f)); ("action", JTxt (f_action f)); ("network", JTxt (network_name (f_network f)));
   ("ownerAccounts", json_texts (ownerAccounts f)); ("delegateAccounts", json_texts (delegateAccounts f)); ("allowedFlags", json_texts (flag_name <$> allowedFlags f)); ("factProvenance", JTxt (policy_name (factProvenance f)));
   ("assessmentMaxAgeSeconds", JNo (assessmentMaxAgeSeconds f)); ("delegation", JObj [("sourceId", JTxt (policy_sourceId (f_delegation f))); ("maxAgeSeconds", JNo (policy_maxAgeSeconds (f_delegation f)))]);
   ("marketReference", control_json (λ m, [("sourceIds", json_texts (mr_sourceIds m)); ("conventions", json_texts (convention_name <$> mr_conventions m)); ("maxAgeSeconds", JNo (mr_maxAgeSeconds m))]%string) (marketReference f));
   ("exposure", control_json (λ e, [("riskBucket", JTxt (ep_riskBucket e)); ("denomination", asset_json (ep_denomination e)); ("ceiling", JTxt (ep_ceiling e)); ("sourceIds", json_texts (ep_sourceIds e));
      ("maxAgeSeconds", JNo (ep_maxAgeSeconds e)); ("concurrency", JTxt "snapshot-advisory")]%string) (f_exposure f));
   ("activeOrders", control_json (λ o, [("scope", JTxt (scope_text (op_scope o))); ("maximum", JNo (op_maximum o)); ("sourceIds", json_texts (op_sourceIds o)); ("maxAgeSeconds", JNo (op_maxAgeSeconds o));
      ("concurrency", JTxt "snapshot-advisory")]%string) (f_activeOrders f));
   ("approval", JObj [("sensitiveOwners", json_texts (sensitiveOwners f)); ("sensitiveDelegates", json_texts (sensitiveDelegates f))]); ("pairs", JArr (pair_json <$> f_pairs f))]%string.

Definition parseTradingRiskProfile (raw : JsValue) : reading TradingRiskProfile :=
  let* body := parseBody raw in
  let* digest := caught (tradeRiskDigest TRADING_RISK_PROFILE_DIGEST_DOMAIN (js_of (JObj (tradingRiskProfileData body)))) in
  let stated := match closedRecord raw PROFILE_FIELDS ["digest"]%string with Some entries => get "digest" entries | None => JsUndefined end in
  guard* is_undefined stated || is_text digest stated else (RP_DIGEST_MISMATCH, "digest"%string) in
  Ok {| f_body := body; f_digest := digest |}.
Definition isIntactTradingRiskProfileData (raw : JsValue) : bool := is_some (unsealRiskRecord TRADING_RISK_PROFILE_DIGEST_DOMAIN raw).
Definition tradingRiskProfileReference (f : ProfileBody) : string := profileId f +:+ "@" +:+ text (bigint_to_string (profileVersion f)).
End Profiles.

(** ** What an accepted profile guarantees *)

(** Opens a computation that returned: one equation per step, one fact per guard. *)
Ltac reads H :=
  repeat (cbv zeta in H;
    match type of H with
    | result_bind _ _ = Ok _ => let x := fresh "x" in let E := fresh "E" in apply result_bind_Ok in H as (x&E&H)
    | (guard* _ else _ in _) = Ok _ => let E := fresh "G" in apply guard_Ok in H as [E H]
    end).

Lemma or_refuse_Ok {A} (o : option A) v field a : or_refuse o v field = Ok a ↔ o = Some a.
Proof. destruct o; naive_solver. Qed.
Lemma caught_Ok {A} (r : result RangeErr A) a : caught r = Ok a ↔ r = Ok a.
Proof. destruct r; naive_solver. Qed.
Lemma limit_figure v field s : limit v field = Ok s → figure s ∧ (0 < dec_value s)%Q.
Proof.
  unfold limit, parsePositiveRiskDecimal. intros E%or_refuse_Ok. destruct (parseRiskDecimal v) as [t|] eqn:Et; [|done]. apply text_of_Some in Et as [_ Hf]. destruct (str_eqb t "0") eqn:Ez; [done|]. injection E as <-.
  split; [done|]. apply str_eqb_neq in Ez. pose proof (dec_value_nonneg t ltac:(by eapply isCanonicalDecimal_grammar)) as Hn. apply Qle_lteq in Hn as [Hn|Hn]; [done|].
  destruct Ez. apply chars_inj. apply canonical_text_unique_aux; [by eapply isCanonicalDecimal_grammar|done|]. symmetry in Hn. exact Hn.
Qed.
Lemma price_reduced v field p : price v field = Ok p → reduced_price p.
Proof. intros E%or_refuse_Ok. by eapply parseRiskPrice_reduced. Qed.
Lemma read_items_all {A} (item : JsValue → string → reading A) (P : A → Prop) field index l values : (∀ v at_ a, item v at_ = Ok a → P a) → read_items item field index l = Ok values → Forall P values.
Proof.
  intros Hp. revert index values. induction l as [|v l IH]; intros index values; cbn [read_items]; [intros [= <-]; constructor|]. intros E. reads E. injection E as <-. constructor; eauto.
Qed.
Lemma sortedSet_elem {A} (name : A → string) raw maximum field item allowEmpty (values : list A) (P : A → Prop) : (∀ v at_ a, item v at_ = Ok a → P a) → sortedSet name raw maximum field item allowEmpty = Ok values →
  NoDup values ∧ Forall P values ∧ (allowEmpty = false → values ≠ []).
Proof.
  intros Hp E. unfold sortedSet in E. reads E. injection E as <-. apply bool_decide_eq_true in G0. pose proof (merge_sort_Permutation (name_le name) x0) as Hperm. split_and!.
  - rewrite Hperm. by eapply NoDup_fmap_1.
  - rewrite Hperm. by eapply read_items_all.
  - intros -> Hz. rewrite Hz in Hperm. apply Permutation_nil_l in Hperm. subst x0. destruct x as [|v l]; [done|]. cbn [read_items] in E1. reads E1. done.
Qed.

Record pair_ok (p : TradingPairRiskPolicy) : Prop := {
  po_pair : canonicalTradePair (pair_base p) (pair_quote p) = (pair_base p, pair_quote p) ∧ pair_base p ≠ pair_quote p;
  po_quantity : figure (maxBaseQuantity p) ∧ (0 < dec_value (maxBaseQuantity p))%Q;
  po_given : ∀ side s, match side with buy => maxGivenBuy p | sell => maxGivenSell p end = Some s → figure s ∧ (0 < dec_value s)%Q;
  po_sided : ∀ side, is_some (match side with buy => maxGivenBuy p | sell => maxGivenSell p end) = bool_decide (side ∈ sides p) ∧ is_some (match side with buy => maxBuyPrice p | sell => minSellPrice p end) = bool_decide (side ∈ sides p);
  po_bound : ∀ side q, match side with buy => maxBuyPrice p | sell => minSellPrice p end = Some (enforce q) → reduced_price q;
  po_band : ∀ b, priceBand p = enforce b → reduced_price (band_floor b) ∧ reduced_price (band_ceiling b) ∧ (price_value (band_floor b) <= price_value (band_ceiling b))%Q;
  po_deviation : ∀ d, referenceDeviation p = enforce d → 1 ≤ dp_maxBasisPoints d ≤ 10000;
  po_notional : ∀ n, pair_notional p = enforce n → figure (np_maximum n) ∧ (0 < dec_value (np_maximum n))%Q;
  po_review_notional : ∀ s, ap_notionalAbove (pair_approval p) = Some s → figure s ∧ ∃ n, pair_notional p = enforce n ∧ (dec_value s < dec_value (np_maximum n))%Q;
  po_review_deviation : ∀ z, ap_deviationAboveBasisPoints (pair_approval p) = Some z → 0 ≤ z ∧ ∃ d, referenceDeviation p = enforce d ∧ z < dp_maxBasisPoints d }.

Lemma profile_integer_range v lo hi field z : integerIn v lo hi field = Ok z → lo ≤ z ≤ hi.
Proof.
  unfold integerIn, isSafeIntegerIn. destruct v; try done. destruct (_ && _) eqn:E; [|done]. intros [= <-]. cbn [as_number]. apply andb_true_iff in E as [[_ El%Z.leb_le]%andb_true_iff Eh%Z.leb_le]. done.
Qed.
Lemma has_key key (es : list (string * JsValue)) : has key es = true ↔ key ∈ es.*1.
Proof.
  unfold has, own_property. rewrite is_some_true. split.
  - intros [v E]. destruct (list_find _ es) as [[i [k w]]|] eqn:Ef; [|done]. apply list_find_Some in Ef as (Hl&<-&_). apply list_elem_of_fmap. exists (k, w). split; [done|]. by eapply list_elem_of_lookup_2.
  - intros ([k v]&->&Hin)%list_elem_of_fmap. cbn. destruct (list_find (λ p, p.1 = k) es) as [[i [k' w]]|] eqn:Ef; [by eexists|]. apply list_find_None in Ef. rewrite Forall_forall in Ef. by destruct (Ef _ Hin).
Qed.
Lemma closed_has raw required es key : closedRecord raw required [] = Some es → has key es = bool_decide (key ∈ required).
Proof.
  unfold closedRecord. destruct (snapshotTradeRecord raw _) as [entries|]; [|done]. destruct (existsb _ entries.*1) eqn:E1; [done|]. destruct (existsb _ required) eqn:E2; [done|]. intros [= <-].
  apply existsb_no in E1, E2. rewrite Forall_forall in E1, E2. apply eq_true_iff_eq. rewrite has_key, bool_decide_eq_true. split.
  - intros Hk. apply E1 in Hk. rewrite andb_false_iff, !negb_false_iff, !bool_decide_eq_true in Hk. destruct Hk as [Hk|Hk]; [done|by apply not_elem_of_nil in Hk].
  - intros Hk%E2. apply negb_false_iff in Hk. by apply has_key.
Qed.
Lemma if_has_inv {A} key entries (r : reading A) o : if_has key entries r = Ok o → is_some o = has key entries ∧ ∀ a, o = Some a → r = Ok a.
Proof. unfold if_has. destruct (has key entries); [|by intros [= <-]]. destruct r as [a|]; [|done]. intros [= <-]. split; [done|]. by intros ? [= <-]. Qed.
Lemma control_inv {A} raw field (read : JsValue → string → reading A) c a : control raw field read = Ok c → c = enforce a → read raw field = Ok a.
Proof. unfold control. destruct (isDisabledShape raw); intros E ->; reads E; [done|]. by injection E as ->. Qed.
Lemma side_elem (side : TradeSide) (l : list TradeSide) : side_name side ∈ side_name <$> l ↔ side ∈ l.
Proof. rewrite list_elem_of_fmap. split; [intros (s&E&Hs); by destruct side, s|eauto]. Qed.

Section Accepted.
Context `{LedgerHash} `{JsHost}.

Lemma sideBound_inv entries field l key side o : sideBound entries field l key side = Ok o → is_some o = bool_decide (side ∈ l) ∧ ∀ q, o = Some (enforce q) → reduced_price q.
Proof.
  unfold sideBound. intros E. reads E. destruct (bool_decide (side ∈ l)); cbn [negb] in E; [|by injection E as <-].
  destruct (isDisabledShape _); reads E; injection E as <-; (split; [done|]); intros q [= <-]. by eapply price_reduced.
Qed.
Lemma read_band_ok v at_ b : read_band v at_ = Ok b → reduced_price (band_floor b) ∧ reduced_price (band_ceiling b) ∧ (price_value (band_floor b) <= price_value (band_ceiling b))%Q.
Proof.
  unfold read_band. intros E. reads E. injection E as <-. cbn [band_floor band_ceiling]. apply price_reduced in E1, E2. split; [done|]. split; [done|].
  apply negb_true_iff in G. rewrite compareRationals_exact in G by (by apply rational_price). apply Qle_alt. intros Eg. by rewrite Eg in G.
Qed.
Lemma notional_trigger_ok n entries field s : notional_trigger n entries field = Ok s → (∀ p, n = enforce p → figure (np_maximum p)) → figure s ∧ ∃ p, n = enforce p ∧ (dec_value s < dec_value (np_maximum p))%Q.
Proof.
  unfold notional_trigger. intros E Hn. reads E. apply limit_figure in E0 as [Hf _]. destruct n as [p|]; [|done]. reads E. apply caught_Ok in E0, E1. destruct (_ <=? _) eqn:Ec; [done|]. injection E as <-.
  specialize (Hn p eq_refl). destruct (rationalOfDecimal_exact _ Hf) as (r&Er&Hr&Vr), (rationalOfDecimal_exact _ Hn) as (m&Em&Hm&Vm). rewrite Er in E0. rewrite Em in E1. injection E0 as <-. injection E1 as <-.
  split; [done|]. exists p. split; [done|]. rewrite compareRationals_exact in Ec by done. rewrite <-Vr, <-Vm. apply Qlt_alt. by destruct (price_value r ?= price_value m)%Q.
Qed.
Lemma deviation_trigger_ok d entries field z : deviation_trigger d entries field = Ok z → 0 ≤ z ∧ ∃ p, d = enforce p ∧ z < dp_maxBasisPoints p.
Proof.
  unfold deviation_trigger. intros E. reads E. apply profile_integer_range in E0. destruct d as [p|]; [|done]. destruct (Z.leb_spec (dp_maxBasisPoints p) x); [done|]. injection E as <-. split; [lia|]. by exists p.
Qed.
Lemma read_deviation_ok v at_ d : read_deviation v at_ = Ok d → 1 ≤ dp_maxBasisPoints d ≤ 10000.
Proof. unfold read_deviation. intros E. reads E. injection E as <-. by eapply profile_integer_range. Qed.
Lemma read_notional_ok v at_ n : read_notional v at_ = Ok n → figure (np_maximum n) ∧ (0 < dec_value (np_maximum n))%Q.
Proof. unfold read_notional. intros E. reads E. injection E as <-. by eapply limit_figure. Qed.

Lemma parsePair_ok raw field p : parsePair raw field = Ok p → pair_ok p.
Proof.
  unfold parsePair. intros E. reads E. injection E as <-. apply or_refuse_Ok in E6. apply if_has_inv in E7 as [H7 F7], E8 as [H8 F8], E16 as [_ F16], E17 as [_ F17].
  apply sideBound_inv in E9 as [H9 F9], E10 as [H10 F10]. rewrite (closed_has _ _ _ "buy" E6) in H7. rewrite (closed_has _ _ _ "sell" E6) in H8.
  assert (∀ n, x12 = enforce n → figure (np_maximum n) ∧ (0 < dec_value (np_maximum n))%Q) as Hn by (intros n En; eapply read_notional_ok, control_inv; [exact E13|done]).
  split; cbn [pair_base pair_quote maxBaseQuantity maxGivenBuy maxGivenSell maxBuyPrice minSellPrice sides priceBand referenceDeviation pair_notional pair_approval ap_notionalAbove ap_deviationAboveBasisPoints].
  - apply andb_true_iff in G0 as [G1%tradeAssetsEqual_iff G2%tradeAssetsEqual_iff]. destruct (canonicalTradePair x1 x2). cbn in G1, G2. subst. split; [done|]. intros ->. by rewrite (proj2 (tradeAssetsEqual_iff _ _)) in G.
  - by eapply limit_figure.
  - intros [] s Es; [apply F7 in Es|apply F8 in Es]; by eapply limit_figure.
  - intros []; (split; [|done]); [rewrite H7; apply bool_decide_ext, (side_elem buy x3)|rewrite H8; apply bool_decide_ext, (side_elem sell x3)].
  - intros []; eauto.
  - intros b Eb. eapply read_band_ok, control_inv; [exact E11|done].
  - intros d Ed. eapply read_deviation_ok, control_inv; [exact E12|done].
  - done.
  - intros s Es%F16. eapply notional_trigger_ok; [done|]. intros q Eq. by apply Hn.
  - intros z Ez%F17. by eapply deviation_trigger_ok.
Qed.

Record profile_ok (f : ProfileBody) : Prop := {
  fo_window : isTradeInstant (JsString (effectiveFrom f)) = true ∧ isTradeInstant (JsString (expiresAt f)) = true ∧
              0 < millisecondsBetween (effectiveFrom f) (expiresAt f) ≤ TRADING_RISK_PROFILE_MAXIMUM_HORIZON_SECONDS * 1000;
  fo_owners : ownerAccounts f ≠ [] ∧ Forall (λ a, isTradeAccountAddress a = true) (ownerAccounts f) ∧ sensitiveOwners f ⊆ ownerAccounts f;
  fo_delegates : delegateAccounts f ≠ [] ∧ Forall (λ a, isTradeAccountAddress a = true) (delegateAccounts f) ∧ sensitiveDelegates f ⊆ delegateAccounts f;
  fo_age : 1 ≤ assessmentMaxAgeSeconds f ≤ 300;
  fo_delegation : 1 ≤ policy_maxAgeSeconds (f_delegation f) ≤ 60;
  fo_market : ∀ m, marketReference f = enforce m → mr_sourceIds m ≠ [] ∧ 1 ≤ mr_maxAgeSeconds m ≤ 3600;
  fo_exposure : ∀ e, f_exposure f = enforce e → figure (ep_ceiling e) ∧ (0 < dec_value (ep_ceiling e))%Q ∧ 1 ≤ ep_maxAgeSeconds e ≤ 3600;
  fo_orders : ∀ o, f_activeOrders f = enforce o → 1 ≤ op_maximum o ≤ MAXIMUM_ACTIVE_ORDERS ∧ 1 ≤ op_maxAgeSeconds o ≤ 3600;
  fo_pairs : f_pairs f ≠ [] ∧ Forall pair_ok (f_pairs f) ∧ NoDup (pair_key <$> f_pairs f);
  fo_dependencies : is_enforced (marketReference f) = false → Forall (λ p, is_enforced (referenceDeviation p) = false ∧ (∀ n, pair_notional p = enforce n → np_valuationAsset n = pair_base p) ∧
                      (∀ e, f_exposure f = enforce e → ep_denomination e = pair_base p)) (f_pairs f);
  fo_action : isTradeIdentifier (f_action f) = true }.

Lemma account_valid_inv v field a : account v field = Ok a → isTradeAccountAddress a = true.
Proof. unfold account. case_bool_decide as Ev; [|done]. intros [= <-]. apply address_text in Ev as (t&->&Ht). done. Qed.
Lemma read_market_ok v at_ m : read_market v at_ = Ok m → mr_sourceIds m ≠ [] ∧ 1 ≤ mr_maxAgeSeconds m ≤ 3600.
Proof.
  unfold read_market, sourceIds. intros E. reads E. injection E as <-. apply (sortedSet_elem _ _ _ _ _ _ _ (λ _, True)) in E1 as (_&_&Hn); [|done]. apply profile_integer_range in E3. split; [by apply Hn|done].
Qed.
Lemma read_exposure_policy_ok v at_ e : read_exposure_policy v at_ = Ok e → figure (ep_ceiling e) ∧ (0 < dec_value (ep_ceiling e))%Q ∧ 1 ≤ ep_maxAgeSeconds e ≤ 3600.
Proof. unfold read_exposure_policy. intros E. reads E. injection E as <-. apply limit_figure in E3 as [? ?]. apply profile_integer_range in E5. done. Qed.
Lemma read_order_policy_ok v at_ o : read_order_policy v at_ = Ok o → 1 ≤ op_maximum o ≤ MAXIMUM_ACTIVE_ORDERS ∧ 1 ≤ op_maxAgeSeconds o ≤ 3600.
Proof. unfold read_order_policy. intros E. reads E. injection E as <-. apply profile_integer_range in E2, E4. done. Qed.
Lemma dependencies_inv exposure index l u : check_dependencies false exposure index l = Ok u →
  Forall (λ p, is_enforced (referenceDeviation p) = false ∧ (∀ n, pair_notional p = enforce n → np_valuationAsset n = pair_base p) ∧ (∀ e, exposure = enforce e → ep_denomination e = pair_base p)) l.
Proof.
  revert index. induction l as [|p l IH]; intros index E; [constructor|]. cbn [check_dependencies] in E. reads E. constructor; [|by eapply IH]. unfold pair_dependencies in E0. cbn [negb] in E0. reads E0. rewrite !andb_true_r in *.
  apply negb_true_iff in G, G0, G1. split; [done|]. split.
  - intros n En. rewrite En in G0. apply negb_false_iff in G0. by apply tradeAssetsEqual_iff.
  - intros e Ee. rewrite Ee in G1. apply negb_false_iff in G1. by apply tradeAssetsEqual_iff.
Qed.
Lemma subset_inv l k : forallb (λ o : string, bool_decide (o ∈ k)) l = true → l ⊆ k.
Proof. rewrite forallb_forall. intros Hf x Hx. apply list_elem_of_In, Hf in Hx. by apply bool_decide_eq_true in Hx. Qed.

Lemma parseBody_ok raw f : parseBody raw = Ok f → profile_ok f.
Proof.
  unfold parseBody. intros E. reads E. injection E as <-. apply (sortedSet_elem _ _ _ _ _ _ _ (λ a, isTradeAccountAddress a = true)) in E7 as (_&Ho&No), E8 as (_&Hd&Nd); [|intros; by eapply account_valid_inv..].
  rewrite (instant_text _ G0) in G0. rewrite (instant_text _ G1) in G1. apply negb_true_iff, orb_false_iff in G2 as [Gl%Z.leb_gt Gh%Z.ltb_ge]. apply profile_integer_range in E11. apply or_refuse_Ok, policy_range in E12 as [Hp _].
  split; cbn [effectiveFrom expiresAt ownerAccounts sensitiveOwners delegateAccounts sensitiveDelegates assessmentMaxAgeSeconds f_delegation marketReference f_exposure f_activeOrders f_pairs f_action].
  - done.
  - split; [by apply No|]. split; [done|by apply subset_inv].
  - split; [by apply Nd|]. split; [done|by apply subset_inv].
  - done.
  - done.
  - intros m Em. eapply read_market_ok, control_inv; [exact E13|done].
  - intros e Ee. eapply read_exposure_policy_ok, control_inv; [exact E14|done].
  - intros o Eo. eapply read_order_policy_ok, control_inv; [exact E15|done].
  - apply andb_true_iff in G7 as [_ G7%bool_decide_eq_true]. split; [|split; [|done]].
    + intros ->. destruct x18; [done|]. cbn [read_items] in E20. reads E20. done.
    + eapply read_items_all; [|exact E20]. intros. by eapply parsePair_ok.
  - intros Em. rewrite Em in E21. by eapply dependencies_inv.
  - apply or_refuse_Ok, text_of_Some in E5. apply E5.
Qed.
Lemma profile_sound raw f : parseTradingRiskProfile raw = Ok f → profile_ok (f_body f).
Proof. unfold parseTradingRiskProfile. intros E. reads E. injection E as <-. by eapply parseBody_ok. Qed.
End Accepted.
