(* ===== verification/TradeAssessment.v ===== *)
(** * The trading-risk assessment

    Model of trade-runtime/policy/trade-risk-assessment.ts: the sixteen controls
    of one proposal under one profile and the trusted facts, their outcomes, and
    the sealed evidence. Each control is a verdict over the same context; the
    verdicts are recorded in the code's order. *)

From Stdlib Require Import QArith Qabs.
From S2P Require Import Prelude Decimal Js JsMap StableJson HashChain Parameters AdapterPort RailAmounts TradeDomain TradeProposal TradeDelegation TradeRisk TradeFacts TradeProfile.

Local Open Scope Z_scope.
Local Open Scope frontera_scope.

(** ** Controls and verdicts *)

Definition TRADING_RISK_ASSESSMENT_SCHEMA : string := "frontera.trading-risk-assessment.v1".
Definition TRADING_RISK_ASSESSMENT_DIGEST_DOMAIN : string := "frontera.trading-risk-assessment-digest.v1".

Inductive TradingRiskControlId :=
  | PROFILE_IN_FORCE | OWNER_IN_SCOPE | DELEGATE_IN_SCOPE | PAIR_APPROVED | SIDE_APPROVED | FLAGS_PERMITTED | OWNER_GIVEN_AMOUNT_MAXIMUM | BASE_QUANTITY_MAXIMUM
  | LIMIT_PRICE_BOUND | PRICE_BAND | REFERENCE_PRICE | REFERENCE_DEVIATION | NOTIONAL_MAXIMUM | EXPOSURE_CEILING | ACTIVE_ORDER_LIMIT | DELEGATION_VERIFIED.
Global Instance TradingRiskControlId_eq_dec : EqDecision TradingRiskControlId.
Proof. solve_decision. Defined.
Definition TRADING_RISK_CONTROLS : list TradingRiskControlId :=
  [PROFILE_IN_FORCE; OWNER_IN_SCOPE; DELEGATE_IN_SCOPE; PAIR_APPROVED; SIDE_APPROVED; FLAGS_PERMITTED; OWNER_GIVEN_AMOUNT_MAXIMUM; BASE_QUANTITY_MAXIMUM;
   LIMIT_PRICE_BOUND; PRICE_BAND; REFERENCE_PRICE; REFERENCE_DEVIATION; NOTIONAL_MAXIMUM; EXPOSURE_CEILING; ACTIVE_ORDER_LIMIT; DELEGATION_VERIFIED].
Definition control_name (c : TradingRiskControlId) : string :=
  match c with
  | PROFILE_IN_FORCE => "PROFILE_IN_FORCE" | OWNER_IN_SCOPE => "OWNER_IN_SCOPE" | DELEGATE_IN_SCOPE => "DELEGATE_IN_SCOPE" | PAIR_APPROVED => "PAIR_APPROVED" | SIDE_APPROVED => "SIDE_APPROVED"
  | FLAGS_PERMITTED => "FLAGS_PERMITTED" | OWNER_GIVEN_AMOUNT_MAXIMUM => "OWNER_GIVEN_AMOUNT_MAXIMUM" | BASE_QUANTITY_MAXIMUM => "BASE_QUANTITY_MAXIMUM" | LIMIT_PRICE_BOUND => "LIMIT_PRICE_BOUND"
  | PRICE_BAND => "PRICE_BAND" | REFERENCE_PRICE => "REFERENCE_PRICE" | REFERENCE_DEVIATION => "REFERENCE_DEVIATION" | NOTIONAL_MAXIMUM => "NOTIONAL_MAXIMUM" | EXPOSURE_CEILING => "EXPOSURE_CEILING"
  | ACTIVE_ORDER_LIMIT => "ACTIVE_ORDER_LIMIT" | DELEGATION_VERIFIED => "DELEGATION_VERIFIED"
  end.
Inductive TradingRiskControlOutcome := CONTROL_SATISFIED | CONTROL_VIOLATED | CONTROL_UNAVAILABLE | CONTROL_DISABLED.
Global Instance TradingRiskControlOutcome_eq_dec : EqDecision TradingRiskControlOutcome.
Proof. solve_decision. Defined.
Definition control_outcome_name (o : TradingRiskControlOutcome) : string := match o with CONTROL_SATISFIED => "SATISFIED" | CONTROL_VIOLATED => "VIOLATED" | CONTROL_UNAVAILABLE => "UNAVAILABLE" | CONTROL_DISABLED => "DISABLED" end.
Inductive TradingRiskOutcome := RISK_SATISFIED | RISK_VIOLATED | RISK_UNAVAILABLE.
Definition risk_outcome_name (o : TradingRiskOutcome) : string := match o with RISK_SATISFIED => "SATISFIED" | RISK_VIOLATED => "VIOLATED" | RISK_UNAVAILABLE => "UNAVAILABLE" end.
Inductive TradingRiskDisposition := ELIGIBLE | APPROVAL_REQUIRED | PROHIBITED | WITHHELD.
Definition disposition_name (d : TradingRiskDisposition) : string := match d with ELIGIBLE => "ELIGIBLE" | APPROVAL_REQUIRED => "APPROVAL_REQUIRED" | PROHIBITED => "PROHIBITED" | WITHHELD => "WITHHELD" end.

(** What [record] is called with. *)
Record Verdict := { v_outcome : TradingRiskControlOutcome; v_reason : string; v_observed : option string; v_limit : option string }.
Definition verdict (outcome : TradingRiskControlOutcome) (reason : string) : Verdict := {| v_outcome := outcome; v_reason := reason; v_observed := None; v_limit := None |}.
Definition measured (outcome : TradingRiskControlOutcome) (reason observed bound : string) : Verdict := {| v_outcome := outcome; v_reason := reason; v_observed := Some observed; v_limit := Some bound |}.
Definition unavailable (reason : string) : Verdict := verdict CONTROL_UNAVAILABLE reason.
Definition disabled_for (reason : string) : Verdict := verdict CONTROL_DISABLED ("DISABLED:" +:+ reason).
Definition satisfied_if (b : bool) : TradingRiskControlOutcome := if b then CONTROL_SATISFIED else CONTROL_VIOLATED.

(** An exception that is not a refusal. *)
Inductive Thrown := thrown_range | thrown_type.
Definition ranged {A} (r : result RangeErr A) : result Thrown A := match r with Ok a => Ok a | Throw _ => Throw thrown_range end.
Definition typed {A} (r : result TypeErr A) : result Thrown A := match r with Ok a => Ok a | Throw _ => Throw thrown_type end.

(** Market prices as the composition hands them over. *)
Inductive MarketPrices := prices_absent | prices_listed (l : list MarketCandidate) | prices_unreadable.
Definition read_prices (m : MarketPrices) : option (list MarketCandidate) :=
  match m with prices_absent => Some [] | prices_listed l => if 64 <? Z.of_nat (length l) then None else Some l | prices_unreadable => None end.

(** What every control is judged over. *)
Record RiskContext := {
  k_profile : ProfileBody; k_accepted : AcceptedTradeProposal; k_at : string; k_action : string; k_prices : option (list MarketCandidate); k_delegation : JsValue; k_exposure : JsValue; k_orders : JsValue;
  k_minimumLedger : option Z }.

Definition tradingPairPolicyFor (f : ProfileBody) (base quote : TradeAsset) : option TradingPairRiskPolicy := List.find (λ p, tradeAssetsEqual (pair_base p) base && tradeAssetsEqual (pair_quote p) quote) (f_pairs f).
Definition side_bound (p : TradingPairRiskPolicy) (s : TradeSide) : option (RiskControl TradePrice) := match s with sell => minSellPrice p | buy => maxBuyPrice p end.
Definition given_bound (p : TradingPairRiskPolicy) (s : TradeSide) : option string := match s with sell => maxGivenSell p | buy => maxGivenBuy p end.
Definition tradingRiskDisabledControls (f : ProfileBody) (pair : option TradingPairRiskPolicy) (side : TradeSide) : list TradingRiskControlId :=
  (if is_enforced (marketReference f) then [] else [REFERENCE_PRICE]) ++ (if is_enforced (f_exposure f) then [] else [EXPOSURE_CEILING]) ++ (if is_enforced (f_activeOrders f) then [] else [ACTIVE_ORDER_LIMIT]) ++
  match pair with
  | Some p =>
      match side_bound p side with Some (switched_off _) => [LIMIT_PRICE_BOUND] | _ => [] end ++ (if is_enforced (priceBand p) then [] else [PRICE_BAND]) ++
      (if is_enforced (referenceDeviation p) then [] else [REFERENCE_DEVIATION]) ++ (if is_enforced (pair_notional p) then [] else [NOTIONAL_MAXIMUM])
  | None => []
  end.
Definition PAIR_SCOPED_CONTROLS : list TradingRiskControlId := [PAIR_APPROVED; SIDE_APPROVED; OWNER_GIVEN_AMOUNT_MAXIMUM; BASE_QUANTITY_MAXIMUM; LIMIT_PRICE_BOUND; PRICE_BAND; REFERENCE_DEVIATION; NOTIONAL_MAXIMUM].
Definition sameCode (left right : TradeAsset) : bool := match left, right with xrp, xrp => true | issued c _, issued c' _ => str_eqb c c' | _, _ => false end.

(** ** Verdicts from the proposal and the profile alone *)

Section Verdicts.
Context `{LedgerHash} `{JsHost}.
Variable k : RiskContext.
Let f := k_profile k.
Let a := proposal (k_accepted k).
Let t := terms (k_accepted k).

Definition judge_in_force : Verdict :=
  let inWindow := (0 <=? millisecondsBetween (effectiveFrom f) (k_at k)) && (0 <? millisecondsBetween (k_at k) (expiresAt f)) in
  if negb (bool_decide (profile_status f = profile_active)) then {| v_outcome := CONTROL_VIOLATED; v_reason := "PROFILE_NOT_ACTIVE"; v_observed := Some (profile_status_name (profile_status f)); v_limit := None |}
  else if negb inWindow then verdict CONTROL_VIOLATED "PROFILE_OUTSIDE_VALIDITY_WINDOW"
  else if negb (str_eqb (f_action f) (k_action k)) then verdict CONTROL_VIOLATED "PROFILE_ACTION_MISMATCH"
  else if negb (bool_decide (f_network f = network a)) then measured CONTROL_VIOLATED "NETWORK_NOT_APPROVED" (network_name (network a)) (network_name (f_network f))
  else verdict CONTROL_SATISFIED "PROFILE_IN_FORCE".
Definition judge_owner : Verdict := let b := bool_decide (ownerAccount a ∈ ownerAccounts f) in verdict (satisfied_if b) (if b then "OWNER_IN_SCOPE" else "OWNER_NOT_IN_SCOPE").
Definition judge_delegate : Verdict := let b := bool_decide (delegateAccount a ∈ delegateAccounts f) in verdict (satisfied_if b) (if b then "DELEGATE_IN_SCOPE" else "DELEGATE_NOT_IN_SCOPE").
Definition judge_flags : Verdict :=
  match List.find (λ flag, negb (bool_decide (flag ∈ allowedFlags f))) (flags a) with
  | None => verdict CONTROL_SATISFIED "FLAGS_PERMITTED"
  | Some flag => {| v_outcome := CONTROL_VIOLATED; v_reason := "FLAG_NOT_PERMITTED"; v_observed := Some (flag_name flag); v_limit := None |}
  end.

Definition pairText : string := tradeAssetToken (base t) +:+ "|" +:+ tradeAssetToken (quote t).
Definition base_quantity : result Thrown TradeRational := ranged (rationalOfQuantity (tradeExactQuantity (match side t with sell => takerGets a | buy => takerPays a end))).
Definition ownerGivenValue : string := tradeDecimalQuantity (takerGets a).

Definition withinLimit (value : TradeRational) (maximum observed : string) : result Thrown Verdict :=
  let* m := ranged (rationalOfDecimal maximum) in
  let b := compareRationals value m <=? 0 in
  Ok (measured (satisfied_if b) (if b then "WITHIN_MAXIMUM" else "EXCEEDS_MAXIMUM") observed maximum).

Definition judge_pair (pair : option TradingPairRiskPolicy) : Verdict :=
  match pair with
  | Some _ => {| v_outcome := CONTROL_SATISFIED; v_reason := "PAIR_APPROVED"; v_observed := Some pairText; v_limit := None |}
  | None =>
      let sameCodes := existsb (λ p, sameCode (pair_base p) (base t) && sameCode (pair_quote p) (quote t)) (f_pairs f) in
      {| v_outcome := CONTROL_VIOLATED; v_reason := if sameCodes then "ISSUER_NOT_APPROVED" else "PAIR_NOT_APPROVED"; v_observed := Some pairText; v_limit := None |}
  end.
Definition judge_side (p : TradingPairRiskPolicy) : Verdict :=
  let b := bool_decide (side t ∈ sides p) in {| v_outcome := satisfied_if b; v_reason := if b then "SIDE_APPROVED" else "SIDE_NOT_APPROVED"; v_observed := Some (side_name (side t)); v_limit := None |}.
Definition judge_given (p : TradingPairRiskPolicy) : result Thrown Verdict :=
  match given_bound p (side t) with
  | None => Ok (unavailable "SIDE_PREREQUISITE_NOT_MET")
  | Some maximum => let* v := ranged (rationalOfDecimal ownerGivenValue) in withinLimit v maximum ownerGivenValue
  end.
Definition judge_quantity (p : TradingPairRiskPolicy) : result Thrown Verdict := let* q := base_quantity in withinLimit q (maxBaseQuantity p) (quantity t).
Definition judge_bound (p : TradingPairRiskPolicy) : Verdict :=
  let limitText := formatTradePrice (limitPrice t) in
  match side_bound p (side t) with
  | None => unavailable "SIDE_PREREQUISITE_NOT_MET"
  | Some (switched_off reason) => disabled_for reason
  | Some (enforce bound) =>
      match side t with
      | sell => let b := 0 <=? compareTradePrices (limitPrice t) bound in measured (satisfied_if b) (if b then "SELL_AT_OR_ABOVE_MINIMUM" else "SELL_BELOW_MINIMUM") limitText (formatTradePrice bound)
      | buy => let b := compareTradePrices (limitPrice t) bound <=? 0 in measured (satisfied_if b) (if b then "BUY_AT_OR_BELOW_MAXIMUM" else "BUY_ABOVE_MAXIMUM") limitText (formatTradePrice bound)
      end
  end.
Definition judge_band (p : TradingPairRiskPolicy) : Verdict :=
  match priceBand p with
  | switched_off reason => disabled_for reason
  | enforce band =>
      let below := compareTradePrices (limitPrice t) (band_floor band) <? 0 in
      let above := 0 <? compareTradePrices (limitPrice t) (band_ceiling band) in
      measured (satisfied_if (negb (below || above))) (if below then "PRICE_BELOW_FLOOR" else if above then "PRICE_ABOVE_CEILING" else "PRICE_WITHIN_BAND") (formatTradePrice (limitPrice t))
        (formatTradePrice (band_floor band) +:+ ".." +:+ formatTradePrice (band_ceiling band))
  end.

(** ** Verdicts from market prices *)

Definition reference_requirement (m : TradeMarketReferencePolicy) (target : TradeAsset) : TradeReferenceRequirement := {|
  rq_organizationId := f_organizationId f; rq_network := f_network f; rq_base := base t; rq_quote := target; rq_policy := m; rq_provenance := factProvenance f; rq_at := k_at k |}.
Definition reason_name (r : TradeReferenceReason) : string :=
  match r with
  | REFERENCE_MISSING => "REFERENCE_MISSING" | REFERENCE_MALFORMED => "REFERENCE_MALFORMED" | REFERENCE_NETWORK_MISMATCH => "REFERENCE_NETWORK_MISMATCH" | REFERENCE_ORIENTATION_INVERTED => "REFERENCE_ORIENTATION_INVERTED"
  | REFERENCE_ORGANIZATION_MISMATCH => "REFERENCE_ORGANIZATION_MISMATCH" | REFERENCE_SOURCE_NOT_ACCEPTED => "REFERENCE_SOURCE_NOT_ACCEPTED" | REFERENCE_CONVENTION_NOT_ACCEPTED => "REFERENCE_CONVENTION_NOT_ACCEPTED"
  | REFERENCE_SIMULATED_NOT_ACCEPTED => "REFERENCE_SIMULATED_NOT_ACCEPTED" | REFERENCE_FROM_FUTURE => "REFERENCE_FROM_FUTURE" | REFERENCE_STALE => "REFERENCE_STALE" | REFERENCE_CONFLICT => "REFERENCE_CONFLICT"
  end.

(** The order's quantity in another asset: exact, with the snapshot it was
    converted with; or the reason there is none. *)
Definition valuationOf (target : TradeAsset) : result Thrown (result string (TradeRational * option TrustedMarketPriceSnapshot)) :=
  let* q := base_quantity in
  if tradeAssetsEqual target (base t) then Ok (Ok (q, None))
  else
    match marketReference f, k_prices k with
    | _, None => Ok (Throw "REFERENCE_MALFORMED"%string)
    | switched_off _, Some _ => Ok (Throw "REFERENCE_NOT_CONFIGURED"%string)
    | enforce m, Some prices =>
        match selectTradeReference prices (reference_requirement m target) with
        | Throw reason => Ok (Throw (reason_name reason))
        | Ok s => let* v := ranged (multiplyRationals q (m_price (m_reading s))) in Ok (Ok (v, Some s))
        end
    end.

Definition judge_reference : Verdict * option TrustedMarketPriceSnapshot :=
  match marketReference f, k_prices k with
  | switched_off reason, _ => (disabled_for reason, None)
  | enforce _, None => (unavailable "REFERENCE_MALFORMED", None)
  | enforce m, Some prices =>
      match selectTradeReference prices (reference_requirement m (quote t)) with
      | Ok s => ({| v_outcome := CONTROL_SATISFIED; v_reason := "REFERENCE_AVAILABLE"; v_observed := Some (formatTradePrice (m_price (m_reading s))); v_limit := None |}, Some s)
      | Throw reason => (unavailable (reason_name reason), None)
      end
  end.

Definition judge_deviation (p : TradingPairRiskPolicy) (reference : option TrustedMarketPriceSnapshot) : result Thrown (Verdict * option TradeRational) :=
  match referenceDeviation p, reference with
  | switched_off reason, _ => Ok (disabled_for reason, None)
  | enforce _, None => Ok (unavailable "REFERENCE_PREREQUISITE_NOT_MET", None)
  | enforce policy, Some s =>
      let r := m_price (m_reading s) in
      let* deviation := ranged (deviationBasisPoints (limitPrice t) r) in
      let exceeds := 0 <? compareRationals deviation (rational (dp_maxBasisPoints policy) 1) in
      let adverse_ := match side t with sell => compareTradePrices (limitPrice t) r <? 0 | buy => 0 <? compareTradePrices (limitPrice t) r end in
      let violated := exceeds && (bool_decide (dp_rule policy = symmetric) || adverse_) in
      Ok (measured (satisfied_if (negb violated)) (if violated then "DEVIATION_EXCEEDS_MAXIMUM" else "DEVIATION_WITHIN_MAXIMUM") (formatTradeRational deviation +:+ "bps")
            (text (bigint_to_string (dp_maxBasisPoints policy)) +:+ "bps:" +:+ rule_name (dp_rule policy)), Some deviation)
  end.

Definition judge_notional (p : TradingPairRiskPolicy) : result Thrown (Verdict * option TradeRational * option TrustedMarketPriceSnapshot) :=
  match pair_notional p with
  | switched_off reason => Ok (disabled_for reason, None, None)
  | enforce policy =>
      let* valuation := valuationOf (np_valuationAsset policy) in
      match valuation with
      | Throw reason => Ok (unavailable (if str_eqb reason "REFERENCE_MISSING" then "VALUATION_PRICE_MISSING" else reason), None, None)
      | Ok value => let* v := withinLimit value.1 (np_maximum policy) (formatTradeRational value.1) in Ok (v, Some value.1, value.2)
      end
  end.

(** ** Verdicts from the ledger readings *)

(** What an exposure snapshot is refused for, in the code's order. *)
Definition exposure_refusal (e : TradeExposurePolicy) (x : TradeExposureReading) : option string :=
  let c := x_common x in
  let age := freshnessAt (JsString (c_observedAt c)) (smallerOf (c_maxAgeSeconds c) (ep_maxAgeSeconds e)) (k_at k) in
  if negb (bool_decide (c_sourceId c ∈ ep_sourceIds e)) then Some "EXPOSURE_SOURCE_NOT_ACCEPTED"%string
  else if negb (str_eqb (c_organizationId c) (f_organizationId f)) then Some "EXPOSURE_ORGANIZATION_MISMATCH"%string
  else if negb (bool_decide (c_network c = network a)) || negb (str_eqb (x_ownerAccount x) (ownerAccount a)) then Some "EXPOSURE_SCOPE_MISMATCH"%string
  else if negb (str_eqb (x_riskBucket x) (ep_riskBucket e)) then Some "EXPOSURE_RISK_BUCKET_MISMATCH"%string
  else if negb (tradeAssetsEqual (x_denomination x) (ep_denomination e)) then Some "EXPOSURE_DENOMINATION_MISMATCH"%string
  else if negb (provenanceAdmitted (factProvenance f) (c_provenance c)) then Some "EXPOSURE_SIMULATED_NOT_ACCEPTED"%string
  else if negb (c_complete c) then Some "EXPOSURE_SNAPSHOT_INCOMPLETE"%string
  else
    match age with
    | fresh => match k_minimumLedger k with Some m => if c_validatedLedgerIndex c <? m then Some "EXPOSURE_LEDGER_BEHIND"%string else None | None => None end
    | future => Some "EXPOSURE_FROM_FUTURE"%string
    | _ => Some "EXPOSURE_STALE"%string
    end.

Definition judge_exposure_snapshot (e : TradeExposurePolicy) (snapshot : TradeExposureSnapshot) : result Thrown (Verdict * option TradeExposureSnapshot * option TrustedMarketPriceSnapshot) :=
  match exposure_refusal e (x_reading snapshot) with
  | Some reason => Ok (unavailable reason, None, None)
  | None =>
      let* increment := valuationOf (ep_denomination e) in
      match increment with
      | Throw reason => Ok (unavailable (if str_eqb reason "REFERENCE_MISSING" then "EXPOSURE_VALUATION_PRICE_MISSING" else reason), Some snapshot, None)
      | Ok value =>
          let* committed := ranged (tradeExposureCommitted snapshot) in
          let* projected := ranged (addRationals committed value.1) in
          let* ceiling := ranged (rationalOfDecimal (ep_ceiling e)) in
          let overCeiling := 0 <? compareRationals projected ceiling in
          let* capacity := ranged (rationalOfDecimal (x_capacityRemaining (x_reading snapshot))) in
          let overCapacity := 0 <? compareRationals value.1 capacity in
          Ok (measured (satisfied_if (negb (overCeiling || overCapacity)))
                (if overCeiling then "EXPOSURE_CEILING_EXCEEDED" else if overCapacity then "EXPOSURE_CAPACITY_EXCEEDED" else "EXPOSURE_WITHIN_CEILING_SNAPSHOT")
                (formatTradeRational projected) (ep_ceiling e), Some snapshot, value.2)
      end
  end.
Definition judge_exposure : result Thrown (Verdict * option TradeExposureSnapshot * option TrustedMarketPriceSnapshot) :=
  match f_exposure f, k_exposure k with
  | switched_off reason, _ => Ok (disabled_for reason, None, None)
  | enforce _, JsUndefined => Ok (unavailable "EXPOSURE_SNAPSHOT_MISSING", None, None)
  | enforce e, raw =>
      let* parsed := typed (parseTradeExposureSnapshot raw) in
      match parsed with None => Ok (unavailable "EXPOSURE_SNAPSHOT_MALFORMED", None, None) | Some snapshot => judge_exposure_snapshot e snapshot end
  end.

Definition order_scope_key (o : TradeActiveOrderPolicy) : string :=
  tradeActiveOrderScopeKey (op_scope o) (organizationId a) (ownerAccount a) (delegateAccount a) (tradeAssetToken (base t)) (tradeAssetToken (quote t)).
Definition order_refusal (o : TradeActiveOrderPolicy) (n : TradeActiveOrderReading) : option string :=
  let c := n_common n in
  let age := freshnessAt (JsString (c_observedAt c)) (smallerOf (c_maxAgeSeconds c) (op_maxAgeSeconds o)) (k_at k) in
  if negb (bool_decide (c_sourceId c ∈ op_sourceIds o)) then Some "ACTIVE_ORDER_SOURCE_NOT_ACCEPTED"%string
  else if negb (str_eqb (c_organizationId c) (f_organizationId f)) then Some "ACTIVE_ORDER_ORGANIZATION_MISMATCH"%string
  else if negb (bool_decide (c_network c = network a)) || negb (bool_decide (n_scope n = op_scope o)) || negb (str_eqb (n_scopeKey n) (order_scope_key o)) then Some "ACTIVE_ORDER_SCOPE_MISMATCH"%string
  else if negb (provenanceAdmitted (factProvenance f) (c_provenance c)) then Some "ACTIVE_ORDER_SIMULATED_NOT_ACCEPTED"%string
  else if negb (c_complete c) then Some "ACTIVE_ORDER_SNAPSHOT_INCOMPLETE"%string
  else
    match age with
    | fresh => match k_minimumLedger k with Some m => if c_validatedLedgerIndex c <? m then Some "ACTIVE_ORDER_LEDGER_BEHIND"%string else None | None => None end
    | future => Some "ACTIVE_ORDER_FROM_FUTURE"%string
    | _ => Some "ACTIVE_ORDER_STALE"%string
    end.
Definition judge_order_snapshot (o : TradeActiveOrderPolicy) (snapshot : TradeActiveOrderSnapshot) : Verdict * option TradeActiveOrderSnapshot :=
  match order_refusal o (n_reading snapshot) with
  | Some reason => (unavailable reason, None)
  | None =>
      let occupied := tradeActiveOrderCount snapshot in
      let within := occupied + 1 <=? op_maximum o in
      (measured (satisfied_if within) (if within then "ACTIVE_ORDERS_WITHIN_LIMIT_SNAPSHOT" else "ACTIVE_ORDER_LIMIT_REACHED")
         (text (bigint_to_string (occupied + 1))) (text (bigint_to_string (op_maximum o))), Some snapshot)
  end.
Definition judge_orders : Verdict * option TradeActiveOrderSnapshot :=
  match f_activeOrders f, k_orders k with
  | switched_off reason, _ => (disabled_for reason, None)
  | enforce _, JsUndefined => (unavailable "ACTIVE_ORDER_SNAPSHOT_MISSING", None)
  | enforce o, raw => match parseTradeActiveOrderSnapshot raw with None => (unavailable "ACTIVE_ORDER_SNAPSHOT_MALFORMED", None) | Some snapshot => judge_order_snapshot o snapshot end
  end.

Definition reliance_name (r : TradeDelegationRelianceRefusal) : string :=
  "DELEGATION_RELIANCE_" +:+
  match r with
  | RELIANCE_MALFORMED => "MALFORMED" | RELIANCE_DIGEST_MISMATCH => "DIGEST_MISMATCH" | RELIANCE_NOT_AUTHORIZED => "NOT_AUTHORIZED" | RELIANCE_ORGANIZATION_MISMATCH => "ORGANIZATION_MISMATCH"
  | RELIANCE_PROPOSAL_MISMATCH => "PROPOSAL_MISMATCH" | RELIANCE_BINDING_MISMATCH => "BINDING_MISMATCH" | RELIANCE_SOURCE_MISMATCH => "SOURCE_MISMATCH" | RELIANCE_FROM_FUTURE => "FROM_FUTURE" | RELIANCE_STALE => "STALE"
  end.
Definition delegation_expectation : TradeDelegationRelianceExpectation := {| x_proposal := a; x_proposalDigest := digest (k_accepted k); x_at := k_at k; x_policy := policy_object (f_delegation f) |}.
(** The verdict, with the plain copy it was read through. *)
Definition judge_delegation_record (delegation : JsValue) : result Thrown (Verdict * option JsValue) :=
  match checkTradeDelegationReliance delegation delegation_expectation with
  | Ok _ => match plainRiskData delegation with Some copy => Ok (verdict CONTROL_SATISFIED "DELEGATION_VERIFIED", Some copy) | None => Throw thrown_type end
  | Throw code =>
      let provedAbsent := match code with RELIANCE_NOT_AUTHORIZED => true | _ => false end && match plain_record delegation with Some properties => is_text "NOT_AUTHORIZED" (get "status" properties) | None => false end in
      Ok (verdict (if provedAbsent then CONTROL_VIOLATED else CONTROL_UNAVAILABLE) (reliance_name code), None)
  end.
Definition judge_delegation : result Thrown (Verdict * option JsValue) :=
  match k_delegation k with JsUndefined => Ok (unavailable "DELEGATION_EVIDENCE_MISSING", None) | delegation => judge_delegation_record delegation end.
End Verdicts.

(** ** Recording *)

Record TradingRiskControlResult := { r_control : TradingRiskControlId; r_ruleId : string; r_outcome : TradingRiskControlOutcome; r_reason : string; r_observed : option string; r_limit : option string }.
Record TradingRiskFreshnessEntry := { fresh_fact : string; fresh_observedAt : string; fresh_maxAgeSeconds : Z }.
Record RiskState := { rs_results : list TradingRiskControlResult; rs_sources : list (string * JsValue); rs_freshness : list TradingRiskFreshnessEntry; rs_simulated : bool }.
Definition nothing_recorded : RiskState := {| rs_results := []; rs_sources := []; rs_freshness := []; rs_simulated := false |}.
Definition result_of (results : list TradingRiskControlResult) (c : TradingRiskControlId) : option TradingRiskControlResult := List.find (λ r, bool_decide (r_control r = c)) results.

Section Recording.
Context `{LedgerHash} `{JsHost}.
Variable k : RiskContext.
Variable pair : option TradingPairRiskPolicy.
Let f := k_profile k.
Let a := proposal (k_accepted k).
Let t := terms (k_accepted k).

Definition disabled : list TradingRiskControlId := tradingRiskDisabledControls f pair (side t).
Definition ruleId (c : TradingRiskControlId) : string :=
  profileId f +:+ "@" +:+ text (bigint_to_string (profileVersion f)) +:+ ":" +:+ (if bool_decide (c ∈ PAIR_SCOPED_CONTROLS) then match pair with Some p => pairId p | None => "*" end else "*") +:+ ":" +:+ control_name c.
Definition result_entry (c : TradingRiskControlId) (v : Verdict) : TradingRiskControlResult :=
  let sanctioned := negb (bool_decide (v_outcome v = CONTROL_DISABLED)) || bool_decide (c ∈ disabled) in
  {| r_control := c; r_ruleId := ruleId c; r_outcome := if sanctioned then v_outcome v else CONTROL_UNAVAILABLE; r_reason := if sanctioned then v_reason v else "CONTROL_DISABLE_NOT_SANCTIONED";
     r_observed := v_observed v; r_limit := v_limit v |}.
Definition record (c : TradingRiskControlId) (v : Verdict) (s : RiskState) : RiskState :=
  match result_of (rs_results s) c with
  | Some _ => s
  | None => {| rs_results := rs_results s ++ [result_entry c v]; rs_sources := rs_sources s; rs_freshness := rs_freshness s; rs_simulated := rs_simulated s |}
  end.
Definition is_simulated (p : TradeFactProvenance) : bool := match pv_kind p with simulated => true | operational => false end.
(** A source relied on, with how long it stays fresh. *)
Definition note_source (key fact : string) (source : list (string * JsValue)) (observedAt : string) (maxAgeSeconds : Z) (simulated_fact : bool) (s : RiskState) : RiskState :=
  {| rs_results := rs_results s; rs_sources := map_set key (JsObject true source) (rs_sources s);
     rs_freshness := rs_freshness s ++ [{| fresh_fact := fact; fresh_observedAt := observedAt; fresh_maxAgeSeconds := maxAgeSeconds |}]; rs_simulated := rs_simulated s || simulated_fact |}.
Definition noteSnapshot (key fact : string) (m : TrustedMarketPriceSnapshot) (maxAgeSeconds : Z) : RiskState → RiskState :=
  let r := m_reading m in
  note_source key fact [("sourceId", JsString (m_sourceId r)); ("digest", JsString (m_digest m)); ("observedAt", JsString (m_observedAt r)); ("provenance", JsString (kind_name (pv_kind (m_provenance r))));
    ("price", JsString (formatTradePrice (m_price r))); ("convention", JsString (convention_name (m_convention r)))] (m_observedAt r) maxAgeSeconds (is_simulated (m_provenance r)).
Definition note_reading (key fact : string) (c : SnapshotCommon) (digest_ : string) (maxAgeSeconds : Z) : RiskState → RiskState :=
  note_source key fact [("sourceId", JsString (c_sourceId c)); ("digest", JsString digest_); ("observedAt", JsString (c_observedAt c)); ("provenance", JsString (kind_name (pv_kind (c_provenance c))));
    ("validatedLedgerIndex", JsNum (JInt (c_validatedLedgerIndex c)))] (c_observedAt c) maxAgeSeconds (is_simulated (c_provenance c)).
Definition if_some {A} (g : A → RiskState → RiskState) (o : option A) (s : RiskState) : RiskState := match o with Some x => g x s | None => s end.
(** The bound a valuation price is fresh under. *)
Definition market_age (m : TrustedMarketPriceSnapshot) : Z := smallerOf (m_maxAgeSeconds (m_reading m)) (match marketReference f with enforce policy => mr_maxAgeSeconds policy | switched_off _ => 1 end).

Definition UNPAIRED_CONTROLS : list TradingRiskControlId := [SIDE_APPROVED; OWNER_GIVEN_AMOUNT_MAXIMUM; BASE_QUANTITY_MAXIMUM; LIMIT_PRICE_BOUND; PRICE_BAND; REFERENCE_DEVIATION; NOTIONAL_MAXIMUM].
Definition record_scope (s : RiskState) : RiskState :=
  record FLAGS_PERMITTED (judge_flags k) (record DELEGATE_IN_SCOPE (judge_delegate k) (record OWNER_IN_SCOPE (judge_owner k) (record PROFILE_IN_FORCE (judge_in_force k) s))).
Definition record_pair (s : RiskState) : result Thrown RiskState :=
  let s := record PAIR_APPROVED (judge_pair k pair) s in
  match pair with
  | None => Ok (foldl (λ s c, record c (unavailable "PAIR_PREREQUISITE_NOT_MET") s) s UNPAIRED_CONTROLS)
  | Some p =>
      let s := record SIDE_APPROVED (judge_side k p) s in
      let* given := judge_given k p in
      let s := record OWNER_GIVEN_AMOUNT_MAXIMUM given s in
      let* most := judge_quantity k p in
      let s := record BASE_QUANTITY_MAXIMUM most s in
      Ok (record PRICE_BAND (judge_band k p) (record LIMIT_PRICE_BOUND (judge_bound k p) s))
  end.
Definition record_reference (s : RiskState) : RiskState :=
  let r := judge_reference k in
  record REFERENCE_PRICE r.1 (if_some (λ m, noteSnapshot "reference" "reference" m (market_age m)) r.2 s).

(** The figures an approval may turn on. *)
Record Figures := { g_deviation : option TradeRational; g_notional : option TradeRational }.
Definition record_value (s : RiskState) : result Thrown (RiskState * Figures) :=
  match pair with
  | None => Ok (s, {| g_deviation := None; g_notional := None |})
  | Some p =>
      let* d := judge_deviation k p (judge_reference k).2 in
      let s := record REFERENCE_DEVIATION d.1 s in
      let* n := judge_notional k p in
      Ok (record NOTIONAL_MAXIMUM n.1.1 (if_some (λ m, noteSnapshot "valuation" "valuation" m (market_age m)) n.2 s), {| g_deviation := d.2; g_notional := n.1.2 |})
  end.
Definition record_exposure (s : RiskState) : result Thrown RiskState :=
  let* x := judge_exposure k in
  let s := record EXPOSURE_CEILING x.1.1 (if_some (λ m, noteSnapshot "exposureValuation" "exposure-valuation" m (market_age m)) x.2 s) in
  Ok (if_some (λ e, note_reading "exposure" "exposure" (x_common (x_reading e)) (x_digest e)
                      (smallerOf (c_maxAgeSeconds (x_common (x_reading e))) (match f_exposure f with enforce policy => ep_maxAgeSeconds policy | switched_off _ => 1 end))) x.1.2 s).
Definition record_orders (s : RiskState) : RiskState :=
  let o := judge_orders k in
  let s := record ACTIVE_ORDER_LIMIT o.1 s in
  if_some (λ n, note_reading "activeOrders" "active-orders" (n_common (n_reading n)) (n_digest n)
                  (smallerOf (c_maxAgeSeconds (n_common (n_reading n))) (match f_activeOrders f with enforce policy => op_maxAgeSeconds policy | switched_off _ => 1 end))) o.2 s.
Definition record_delegation (s : RiskState) : result Thrown RiskState :=
  let* d := judge_delegation k in
  let s := record DELEGATION_VERIFIED d.1 s in
  Ok (if_some (λ copy,
        let timing := property "timing" copy in
        note_source "delegation" "delegation"
          [("sourceId", property "sourceId" (property "source" copy)); ("digest", property "digest" copy); ("factsDigest", property "factsDigest" copy); ("observedAt", property "observedAt" timing);
           ("provenance", JsString "unrecorded"); ("validatedLedgerIndex", property "validatedLedgerIndex" (property "facts" copy))]
          (as_text (property "observedAt" timing)) (smallerOf (policy_maxAgeSeconds (f_delegation f)) (as_number (property "maxAgeSeconds" timing))) false) d.2 s).

(** Every control recorded once, in the order of the list. *)
Definition complete (s : RiskState) : RiskState := foldl (λ s c, record c (unavailable "CONTROL_NOT_EVALUATED") s) s TRADING_RISK_CONTROLS.
Definition evaluate : result Thrown (RiskState * Figures) :=
  let s := record_scope nothing_recorded in
  let* _ := base_quantity k in
  let* s := record_pair s in
  let s := record_reference s in
  let* valued := record_value s in
  let* s := record_exposure valued.1 in
  let s := record_orders s in
  let* s := record_delegation s in
  Ok (complete s, valued.2).
Definition controls_of (s : RiskState) : list TradingRiskControlResult := omap (result_of (rs_results s)) TRADING_RISK_CONTROLS.
Definition overall (controls : list TradingRiskControlResult) : TradingRiskOutcome :=
  if existsb (λ r, bool_decide (r_outcome r = CONTROL_VIOLATED)) controls then RISK_VIOLATED
  else if forallb (λ r, bool_decide (r_outcome r = CONTROL_SATISFIED) || bool_decide (r_outcome r = CONTROL_DISABLED) && bool_decide (r_control r ∈ disabled)) controls then RISK_SATISFIED
  else RISK_UNAVAILABLE.

Definition exceeds_text (value : TradeRational) (threshold : string) : result Thrown bool := let* m := ranged (rationalOfDecimal threshold) in Ok (0 <? compareRationals value m).
Definition pair_triggers (g : Figures) (p : TradingPairRiskPolicy) : result Thrown (list string) :=
  let* notional :=
    match ap_notionalAbove (pair_approval p), g_notional g with
    | Some threshold, Some n => exceeds_text n threshold
    | _, _ => Ok false
    end in
  let deviates := match ap_deviationAboveBasisPoints (pair_approval p), g_deviation g with Some z, Some d => 0 <? compareRationals d (rational z 1) | _, _ => false end in
  Ok ((if ap_restricted (pair_approval p) then ["PAIR_RESTRICTED"%string] else []) ++ (if notional : bool then ["NOTIONAL_ABOVE_REVIEW_THRESHOLD"%string] else []) ++ (if deviates then ["DEVIATION_ABOVE_REVIEW_THRESHOLD"%string] else [])).
Definition approvalTriggers (g : Figures) : result Thrown (list string) :=
  let* of_pair := match pair with Some p => pair_triggers g p | None => Ok [] end in
  Ok (of_pair ++ (if bool_decide (ownerAccount a ∈ sensitiveOwners f) then ["SENSITIVE_OWNER"%string] else []) ++ (if bool_decide (delegateAccount a ∈ sensitiveDelegates f) then ["SENSITIVE_DELEGATE"%string] else [])).
Definition disposition_of (outcome : TradingRiskOutcome) (triggers : list string) : TradingRiskDisposition :=
  match outcome with RISK_VIOLATED => PROHIBITED | RISK_UNAVAILABLE => WITHHELD | RISK_SATISFIED => match triggers with [] => ELIGIBLE | _ => APPROVAL_REQUIRED end end.
Definition limitations_of (s : RiskState) : list string :=
  ["LIMIT_PRICE_IS_NOT_EXECUTION_PRICE"; "DELEGATION_REQUIRES_PRE_SIGN_REREAD"; "EVIDENCE_DIGEST_IS_NOT_A_SIGNATURE"]%string ++ (if is_enforced (f_exposure f) then ["AGGREGATE_EXPOSURE_NOT_RESERVED"%string] else []) ++
  (if is_enforced (f_activeOrders f) then ["ACTIVE_ORDERS_NOT_RESERVED"%string] else []) ++ (if rs_simulated s then ["SIMULATED_FACTS"%string] else []).
End Recording.

(** ** The assessment *)

Inductive TradingRiskAssessmentRefusal :=
  | RA_PROPOSAL_INVALID | RA_IDENTITY_INVALID | RA_ORGANIZATION_MISMATCH | RA_PRINCIPAL_MISMATCH | RA_BINDING_INVALID | RA_PROFILE_INVALID | RA_PROFILE_ORGANIZATION_MISMATCH | RA_CLOCK_INVALID | RA_INPUT_INVALID.
(** The input, a record; facts that are no record have every member undefined. *)
Record TradingRiskAssessmentInput := {
  in_proposal : JsValue; in_identity : JsValue; in_binding : JsValue; in_profile : JsValue; in_delegation : JsValue; in_marketPrices : MarketPrices; in_exposure : JsValue; in_activeOrders : JsValue;
  in_pins : JsValue; in_governanceProfile : JsValue; in_assessedAt : JsValue }.
Record TradingRiskAssessmentEvidence := {
  ev_outcome : TradingRiskOutcome; ev_disposition : TradingRiskDisposition; ev_approvalTriggers : list string; ev_controls : list TradingRiskControlResult; ev_body : JsValue; ev_digest : string }.
Inductive TradingRiskAssessmentResult := risk_assessed (evidence : TradingRiskAssessmentEvidence) | risk_refused (why : TradingRiskAssessmentRefusal).

Definition readIdentity (raw : JsValue) : option (string * string) :=
  match snapshotTradeRecord raw 2 with
  | Ok entries =>
      if negb (length entries =? 2)%nat then None
      else match text_of isTradeIdentifier (get "organizationId" entries), text_of isTradeIdentifier (get "principalId" entries) with Some o, Some p => Some (o, p) | _, _ => None end
  | Throw _ => None
  end.
(** [None] when malformed, [Some None] when absent. *)
Definition readGovernanceProfile (raw : JsValue) : option (option (string * Z)) :=
  match raw with
  | JsUndefined => Some None
  | _ =>
      match snapshotTradeRecord raw 2 with
      | Ok entries =>
          if negb (length entries =? 2)%nat then None
          else match text_of isTradeIdentifier (get "id" entries) with
               | Some id => if isSafeIntegerIn (get "version" entries) 1 1000000000 then Some (Some (id, as_number (get "version" entries))) else None
               | None => None
               end
      | Throw _ => None
      end
  end.
Definition readPins (raw : JsValue) : option (option Z) :=
  match raw with
  | JsUndefined => Some None
  | _ =>
      match snapshotTradeRecord raw 1 with
      | Ok [] => Some None
      | Ok entries => if negb (length entries =? 1)%nat || negb (isSafeIntegerIn (get "minimumValidatedLedgerIndex" entries) 1 4294967295) then None else Some (Some (as_number (get "minimumValidatedLedgerIndex" entries)))
      | Throw _ => None
      end
  end.

Definition result_json (r : TradingRiskControlResult) : Json :=
  JObj ([("control", JTxt (control_name (r_control r))); ("ruleId", JTxt (r_ruleId r)); ("outcome", JTxt (control_outcome_name (r_outcome r))); ("reason", JTxt (r_reason r))] ++
        optional "observed" JTxt (r_observed r) ++ optional "limit" JTxt (r_limit r)).
Definition freshness_json (e : TradingRiskFreshnessEntry) : Json := JObj [("fact", JTxt (fresh_fact e)); ("observedAt", JTxt (fresh_observedAt e)); ("maxAgeSeconds", JNo (fresh_maxAgeSeconds e))].

Section Assessment.
Context `{LedgerHash} `{JsHost}.

(** The checks before anything is assessed: the context, the sealed profile and
    the governance profile. *)
Definition intake (input : TradingRiskAssessmentInput) : result Thrown (result TradingRiskAssessmentRefusal (RiskContext * string * option (string * Z))) :=
  match readIdentity (in_identity input) with
  | None => Ok (Throw RA_IDENTITY_INVALID)
  | Some (org, principal) =>
      match text_of isTradeIdentifier (match plain_record (in_binding input) with Some properties => get "action" properties | None => JsUndefined end) with
      | None => Ok (Throw RA_BINDING_INVALID)
      | Some action =>
          if negb (isTradeInstant (in_assessedAt input)) then Ok (Throw RA_CLOCK_INVALID)
          else
            let* validation := ranged (validateTradeProposal (in_proposal input)) in
            match validation with
            | proposal_refused _ => Ok (Throw RA_PROPOSAL_INVALID)
            | proposal_valid accepted =>
                if negb (str_eqb (organizationId (proposal accepted)) org) then Ok (Throw RA_ORGANIZATION_MISMATCH)
                else if negb (str_eqb (principalId (proposal accepted)) principal) then Ok (Throw RA_PRINCIPAL_MISMATCH)
                else
                  match parseTradingRiskProfile (in_profile input) with
                  | Throw _ => Ok (Throw RA_PROFILE_INVALID)
                  | Ok profile =>
                      if negb (str_eqb (f_organizationId (f_body profile)) org) then Ok (Throw RA_PROFILE_ORGANIZATION_MISMATCH)
                      else
                        match readGovernanceProfile (in_governanceProfile input), readPins (in_pins input) with
                        | Some governance, Some minimum =>
                            Ok (Ok ({| k_profile := f_body profile; k_accepted := accepted; k_at := as_text (in_assessedAt input); k_action := action; k_prices := read_prices (in_marketPrices input);
                                       k_delegation := in_delegation input; k_exposure := in_exposure input; k_orders := in_activeOrders input; k_minimumLedger := minimum |}, f_digest profile, governance))
                        | _, _ => Ok (Throw RA_INPUT_INVALID)
                        end
                  end
            end
      end
  end.

Definition risk_pair (k : RiskContext) : option TradingPairRiskPolicy := tradingPairPolicyFor (k_profile k) (base (terms (k_accepted k))) (quote (terms (k_accepted k))).
Definition evidence_body (k : RiskContext) (profileDigest : string) (governance : option (string * Z)) (outcome : TradingRiskOutcome) (disposition : TradingRiskDisposition) (triggers : list string)
    (controls : list TradingRiskControlResult) (s : RiskState) : JsValue :=
  let a := proposal (k_accepted k) in let t := terms (k_accepted k) in let f := k_profile k in
  JsObject true
    ((prod_map id js_of <$>
      ([("schema", JTxt TRADING_RISK_ASSESSMENT_SCHEMA); ("organizationId", JTxt (organizationId a)); ("principalId", JTxt (principalId a)); ("requestId", JTxt (requestId a)); ("proposalDigest", JTxt (digest (k_accepted k)));
        ("action", JTxt (k_action k)); ("network", JTxt (network_name (network a))); ("ownerAccount", JTxt (ownerAccount a)); ("delegateAccount", JTxt (delegateAccount a));
        ("pair", JObj [("base", JTxt (tradeAssetToken (base t))); ("quote", JTxt (tradeAssetToken (quote t)))]); ("side", JTxt (side_name (side t))); ("quantity", JTxt (quantity t));
        ("limitPrice", JTxt (formatTradePrice (limitPrice t)));
        ("ownerGiven", JObj [("asset", JTxt (tradeAssetToken (match side t with sell => base t | buy => quote t end))); ("value", JTxt (ownerGivenValue k))]);
        ("riskProfile", JObj [("profileId", JTxt (profileId f)); ("profileVersion", JNo (profileVersion f)); ("digest", JTxt profileDigest)])] ++
       optional "governanceProfile" (λ g : string * Z, JObj [("id", JTxt g.1); ("version", JNo g.2)]) governance ++
       [("outcome", JTxt (risk_outcome_name outcome)); ("disposition", JTxt (disposition_name disposition)); ("approvalTriggers", json_texts triggers); ("controls", JArr (result_json <$> controls))])) ++
     [("sources"%string, JsObject true (rs_sources s))] ++
     (prod_map id js_of <$>
      [("freshness", JArr (freshness_json <$> merge_sort (name_le fresh_fact) (rs_freshness s))); ("simulatedFacts", JBol (rs_simulated s)); ("limitations", json_texts (sort_strings (limitations_of k s)));
       ("assessedAt", JTxt (k_at k)); ("relianceMaxAgeSeconds", JNo (assessmentMaxAgeSeconds f))])).

(** The evidence of a context. *)
Definition assess_context (k : RiskContext) (profileDigest : string) (governance : option (string * Z)) : result Thrown TradingRiskAssessmentEvidence :=
  let pair := risk_pair k in
  let* evaluated := evaluate k pair in
  let controls := controls_of evaluated.1 in
  let outcome := overall k pair controls in
  let* triggers := approvalTriggers k pair evaluated.2 in
  let disposition := disposition_of outcome triggers in
  let stated := match outcome with RISK_SATISFIED => sort_strings triggers | _ => [] end in
  let body := evidence_body k profileDigest governance outcome disposition stated controls evaluated.1 in
  let* sealed := ranged (tradeRiskDigest TRADING_RISK_ASSESSMENT_DIGEST_DOMAIN body) in
  Ok {| ev_outcome := outcome; ev_disposition := disposition; ev_approvalTriggers := stated; ev_controls := controls; ev_body := body; ev_digest := sealed |}.

Definition assessTradingRisk (input : TradingRiskAssessmentInput) : result Thrown TradingRiskAssessmentResult :=
  let* taken := intake input in
  match taken with
  | Throw why => Ok (risk_refused why)
  | Ok (k, profileDigest, governance) => let* evidence := assess_context k profileDigest governance in Ok (risk_assessed evidence)
  end.
End Assessment.

(** ** What each control demands *)

Section Demands.
Context `{LedgerHash} `{JsHost}.
Variable k : RiskContext.
Let f := k_profile k.
Let a := proposal (k_accepted k).
Let t := terms (k_accepted k).

Definition paired (p : TradingPairRiskPolicy) : Prop := p ∈ f_pairs f ∧ pair_base p = base t ∧ pair_quote p = quote t.
(** How much of the base asset the order moves. *)
Definition base_value : Q := amount_value (match side t with sell => takerGets a | buy => takerPays a end).
Definition referenced (target : TradeAsset) (s : TrustedMarketPriceSnapshot) : Prop :=
  ∃ m prices, marketReference f = enforce m ∧ k_prices k = Some prices ∧ selectTradeReference prices (reference_requirement k m target) = Ok s.
(** The order's quantity in units of an asset. *)
Definition valued (target : TradeAsset) (q : Q) : Prop :=
  (target = base t ∧ (q == base_value)%Q) ∨ (target ≠ base t ∧ ∃ s, referenced target s ∧ (q == base_value * price_value (m_price (m_reading s)))%Q).
Definition admitted (sources : list string) (bound : Z) (c : SnapshotCommon) : Prop :=
  c_sourceId c ∈ sources ∧ c_organizationId c = f_organizationId f ∧ c_network c = network a ∧ provenanceAdmitted (factProvenance f) (c_provenance c) = true ∧ c_complete c = true ∧
  0 ≤ instant_ms (k_at k) - instant_ms (c_observedAt c) ≤ Z.min (c_maxAgeSeconds c) bound * 1000 ∧ (∀ m, k_minimumLedger k = Some m → m ≤ c_validatedLedgerIndex c).
(** The limit price is within the tolerated distance of the reference, or on the
    side of it that favours the owner where only the other side matters. *)
Definition tolerated (d : TradeDeviationPolicy) (reference : Q) : Prop :=
  (Qabs (price_value (limitPrice t) - reference) * 10000 <= inject_Z (dp_maxBasisPoints d) * reference)%Q ∨
  dp_rule d = adverse ∧ match side t with sell => reference <= price_value (limitPrice t) | buy => price_value (limitPrice t) <= reference end%Q.

Definition if_enforced {A} (c : RiskControl A) (P : A → Prop) : Prop := match c with enforce x => P x | switched_off _ => True end.
Definition control_holds (c : TradingRiskControlId) : Prop :=
  match c with
  | PROFILE_IN_FORCE => profile_status f = profile_active ∧ instant_ms (effectiveFrom f) ≤ instant_ms (k_at k) < instant_ms (expiresAt f) ∧ f_action f = k_action k ∧ f_network f = network a
  | OWNER_IN_SCOPE => ownerAccount a ∈ ownerAccounts f
  | DELEGATE_IN_SCOPE => delegateAccount a ∈ delegateAccounts f
  | FLAGS_PERMITTED => flags a ⊆ allowedFlags f
  | PAIR_APPROVED => ∃ p, paired p
  | SIDE_APPROVED => ∃ p, paired p ∧ side t ∈ sides p
  | OWNER_GIVEN_AMOUNT_MAXIMUM => ∃ p m, paired p ∧ given_bound p (side t) = Some m ∧ (amount_value (takerGets a) <= dec_value m)%Q
  | BASE_QUANTITY_MAXIMUM => ∃ p, paired p ∧ (base_value <= dec_value (maxBaseQuantity p))%Q
  | LIMIT_PRICE_BOUND => ∃ p b, paired p ∧ side_bound p (side t) = Some b ∧ if_enforced b (λ q, match side t with sell => price_value q <= price_value (limitPrice t) | buy => price_value (limitPrice t) <= price_value q end%Q)
  | PRICE_BAND => ∃ p, paired p ∧ if_enforced (priceBand p) (λ b, (price_value (band_floor b) <= price_value (limitPrice t) <= price_value (band_ceiling b))%Q)
  | REFERENCE_PRICE => if_enforced (marketReference f) (λ _, ∃ s, referenced (quote t) s)
  | REFERENCE_DEVIATION => ∃ p, paired p ∧ if_enforced (referenceDeviation p) (λ d, ∃ s, referenced (quote t) s ∧ tolerated d (price_value (m_price (m_reading s))))
  | NOTIONAL_MAXIMUM => ∃ p, paired p ∧ if_enforced (pair_notional p) (λ n, ∃ q, valued (np_valuationAsset n) q ∧ (q <= dec_value (np_maximum n))%Q)
  | EXPOSURE_CEILING => if_enforced (f_exposure f) (λ e, ∃ s q, parseTradeExposureSnapshot (k_exposure k) = Ok (Some s) ∧ admitted (ep_sourceIds e) (ep_maxAgeSeconds e) (x_common (x_reading s)) ∧
      x_ownerAccount (x_reading s) = ownerAccount a ∧ x_riskBucket (x_reading s) = ep_riskBucket e ∧ x_denomination (x_reading s) = ep_denomination e ∧ valued (ep_denomination e) q ∧
      (committed_value (x_reading s) + q <= dec_value (ep_ceiling e))%Q ∧ (q <= dec_value (x_capacityRemaining (x_reading s)))%Q)
  | ACTIVE_ORDER_LIMIT => if_enforced (f_activeOrders f) (λ o, ∃ s, parseTradeActiveOrderSnapshot (k_orders k) = Some s ∧ admitted (op_sourceIds o) (op_maxAgeSeconds o) (n_common (n_reading s)) ∧
      n_scope (n_reading s) = op_scope o ∧ n_scopeKey (n_reading s) = order_scope_key k o ∧ tradeActiveOrderCount s + 1 ≤ op_maximum o)
  | DELEGATION_VERIFIED => checkTradeDelegationReliance (k_delegation k) (delegation_expectation k) = Ok tt
  end.

(** The order is marked for review. *)
Definition review_due : Prop :=
  (∃ p, paired p ∧ (ap_restricted (pair_approval p) = true ∨
     (∃ s n q, ap_notionalAbove (pair_approval p) = Some s ∧ pair_notional p = enforce n ∧ valued (np_valuationAsset n) q ∧ (dec_value s < q)%Q) ∨
     (∃ z d s, ap_deviationAboveBasisPoints (pair_approval p) = Some z ∧ referenceDeviation p = enforce d ∧ referenced (quote t) s ∧
        (inject_Z z * price_value (m_price (m_reading s)) < Qabs (price_value (limitPrice t) - price_value (m_price (m_reading s))) * 10000)%Q))) ∨
  ownerAccount a ∈ sensitiveOwners f ∨ delegateAccount a ∈ sensitiveDelegates f.

(** A context built from an accepted proposal and an accepted profile. *)
Record context_ok : Prop := {
  ko_profile : profile_ok f;
  ko_proposal : ∃ raw, validateTradeProposal raw = Ok (proposal_valid (k_accepted k));
  ko_instant : isTradeInstant (JsString (k_at k)) = true }.
End Demands.

(** ** Each verdict is the control's demand *)

Definition good (v : Verdict) : Prop := v_outcome v = CONTROL_SATISFIED ∨ v_outcome v = CONTROL_DISABLED.
Lemma good_measured b reason observed bound : good (measured (satisfied_if b) reason observed bound) ↔ b = true.
Proof. unfold good. destruct b; cbn; naive_solver. Qed.
Lemma good_if b reason observed bound : good {| v_outcome := satisfied_if b; v_reason := reason; v_observed := observed; v_limit := bound |} ↔ b = true.
Proof. unfold good. destruct b; cbn; naive_solver. Qed.
Lemma not_waived b : satisfied_if b ≠ CONTROL_DISABLED.
Proof. by destruct b. Qed.
Lemma not_unavailable reason : good (unavailable reason) ↔ False.
Proof. unfold good. cbn. naive_solver. Qed.
Lemma good_disabled reason : good (disabled_for reason) ↔ True.
Proof. unfold good. cbn. naive_solver. Qed.

Lemma order_code_le x y : (order_code (x ?= y)%Q <=? 0) = true ↔ (x <= y)%Q.
Proof. rewrite Qle_alt. destruct (x ?= y)%Q; cbn; naive_solver. Qed.
Lemma order_code_ge x y : (0 <=? order_code (x ?= y)%Q) = true ↔ (y <= x)%Q.
Proof. rewrite <-order_code_le, <-(Qcompare_antisym y x). by destruct (y ?= x)%Q. Qed.
Lemma order_code_gt x y : (0 <? order_code (x ?= y)%Q) = negb (order_code (x ?= y)%Q <=? 0).
Proof. by destruct (x ?= y)%Q. Qed.
Lemma order_code_lt x y : (order_code (x ?= y)%Q <? 0) = negb (0 <=? order_code (x ?= y)%Q).
Proof. by destruct (x ?= y)%Q. Qed.
Lemma prices_compare p q : reduced_price p → reduced_price q → compareTradePrices p q = order_code (price_value p ?= price_value q)%Q.
Proof. intros Hp Hq. apply compareTradePrices_value; apply Hp || apply Hq. Qed.

Section Verdicts_exact.
Context `{LedgerHash} `{JsHost}.
Variable k : RiskContext.
Hypothesis Hk : context_ok k.
Let f := k_profile k.
Let a := proposal (k_accepted k).
Let t := terms (k_accepted k).

Lemma accepted_terms : canonical_amount (takerGets a) ∧ canonical_amount (takerPays a) ∧ reduced_price (limitPrice t).
Proof.
  destruct (ko_proposal _ Hk) as [raw (Hc&Ht&_)%validate_inv]. split; [apply Hc|]. split; [apply Hc|].
  by destruct (terms_exact _ _ _ _ (cp_gets _ Hc) (cp_pays _ Hc) (cp_assets _ Hc) Ht) as (ba&qa&_&_&_&_&_&_&_&_&_&Hr&_).
Qed.
Lemma base_quantity_exact : ∃ r, base_quantity k = Ok r ∧ risk_rational r ∧ (price_value r == base_value k)%Q.
Proof.
  destruct accepted_terms as (Hg&Hp&_). unfold base_quantity, base_value. fold a t.
  set (amount := match side t with buy => takerPays a | sell => takerGets a end). assert (canonical_amount amount) as Hc%canonical_coefficient by (unfold amount; by destruct (side t)).
  destruct (rationalOfQuantity_exact (tradeExactQuantity amount)) as (r&->&Hr&Ev); [lia|]. exists r. split; [done|]. split; [done|]. by rewrite Ev, amount_value_exact.
Qed.
Lemma pair_unique p q : paired k p → paired k q → p = q.
Proof.
  intros (Hp&Bp&Qp) (Hq&Bq&Qq). destruct (fo_pairs _ (ko_profile _ Hk)) as (_&_&Hn). apply list_elem_of_lookup in Hp as [i Hi], Hq as [j Hj].
  enough (i = j) as -> by congruence. eapply (NoDup_lookup _ i j); [exact Hn|rewrite list_lookup_fmap, Hi; done|]. rewrite list_lookup_fmap, Hj. cbn. unfold pair_key. by rewrite Bp, Bq, Qp, Qq.
Qed.
Lemma risk_pair_iff p : risk_pair k = Some p ↔ paired k p.
Proof.
  assert (∀ q, risk_pair k = Some q → paired k q) as Hs.
  { intros q E. apply find_some in E as [Hin%list_elem_of_In E]. apply andb_true_iff in E as [Eb%tradeAssetsEqual_iff Eq%tradeAssetsEqual_iff]. done. }
  split; [apply Hs|]. intros Hp. destruct (risk_pair k) as [q|] eqn:E; [f_equal; by apply pair_unique; [apply Hs|]|]. destruct Hp as (Hin%list_elem_of_In&Hb&Hq).
  unfold risk_pair, tradingPairPolicyFor in E. eapply find_none in E; [|exact Hin]. cbv beta in E. rewrite !(proj2 (tradeAssetsEqual_iff _ _)) in E by done. done.
Qed.
Lemma paired_ok p : paired k p → pair_ok p.
Proof. intros (Hp&_). destruct (fo_pairs _ (ko_profile _ Hk)) as (_&Hf&_). rewrite Forall_forall in Hf. by apply Hf. Qed.

Lemma withinLimit_exact value maximum observed : risk_rational value → figure maximum → ∃ v, withinLimit value maximum observed = Ok v ∧ (good v ↔ (price_value value <= dec_value maximum)%Q) ∧ v_outcome v ≠ CONTROL_DISABLED.
Proof.
  intros Hv Hm. destruct (rationalOfDecimal_exact _ Hm) as (m&Em&Hr&Ev). unfold withinLimit. rewrite Em. cbn [ranged result_bind]. eexists. split; [done|]. rewrite good_measured, compareRationals_exact by done.
  rewrite order_code_le, Ev. split; [done|]. cbn. by destruct (_ <=? 0).
Qed.

(** What a verdict must be: good exactly when the demand is met, and a waiver
    only where the profile switched the control off. *)
Definition decides (pair : option TradingPairRiskPolicy) (c : TradingRiskControlId) (v : Verdict) : Prop :=
  (good v ↔ control_holds k c) ∧ (v_outcome v = CONTROL_DISABLED → c ∈ disabled k pair).

Lemma in_force_exact pair : decides pair PROFILE_IN_FORCE (judge_in_force k).
Proof.
  unfold decides, judge_in_force, millisecondsBetween. fold f a. cbn [control_holds]. fold f a. case_bool_decide as Es; [|cbn; split; [unfold good; cbn; naive_solver|done]]. cbn [negb].
  destruct (Z.leb_spec 0 (instant_ms (k_at k) - instant_ms (effectiveFrom f))) as [H1|H1]; cbn [andb negb]; [|split; [unfold good; cbn; naive_solver lia|done]].
  destruct (Z.ltb_spec 0 (instant_ms (expiresAt f) - instant_ms (k_at k))) as [H2|H2]; cbn [andb negb]; [|split; [unfold good; cbn; naive_solver lia|done]].
  destruct (str_eqb _ _) eqn:Ea; cbn [negb]; [apply str_eqb_eq in Ea|apply str_eqb_neq in Ea; split; [unfold good; cbn; naive_solver|done]].
  case_bool_decide as En; cbn [negb]; (split; [|done]); unfold good; cbn; naive_solver lia.
Qed.
Lemma owner_exact pair : decides pair OWNER_IN_SCOPE (judge_owner k).
Proof. unfold decides, judge_owner. fold f a. cbn [control_holds]. fold f a. split; [|by case_bool_decide]. unfold verdict. rewrite good_if. apply bool_decide_eq_true. Qed.
Lemma delegate_exact pair : decides pair DELEGATE_IN_SCOPE (judge_delegate k).
Proof. unfold decides, judge_delegate. fold f a. cbn [control_holds]. fold f a. split; [|by case_bool_decide]. unfold verdict. rewrite good_if. apply bool_decide_eq_true. Qed.
Lemma flags_exact pair : decides pair FLAGS_PERMITTED (judge_flags k).
Proof.
  unfold decides, judge_flags. fold f a. cbn [control_holds]. fold f a. destruct (List.find _ (flags a)) as [flag|] eqn:E; (split; [|done]); unfold good; cbn.
  - apply find_some in E as [Hin%list_elem_of_In Hn%negb_true_iff%bool_decide_eq_false]. split; [naive_solver|]. intros Hs. by destruct (Hn (Hs _ Hin)).
  - split; [|by left]. intros _ x Hx%list_elem_of_In. eapply find_none in E; [|exact Hx]. by apply negb_false_iff, bool_decide_eq_true in E.
Qed.

(** *** Market prices *)

Lemma selected_reduced candidates rq s : selectTradeReference candidates rq = Ok s → reduced_price (m_price (m_reading s)).
Proof.
  unfold selectTradeReference. rewrite consider_all. cbn [app]. destruct (omap (accepted_of rq) candidates) as [|first rest] eqn:Ea; [done|]. destruct (forallb _ _); cbn [negb]; [|done].
  pose proof (merge_sort_Permutation digest_le (first :: rest)) as Hp. destruct (merge_sort digest_le _) as [|chosen others]; [done|]. intros [= <-].
  assert (chosen ∈ omap (accepted_of rq) candidates) as (c&_&Hs&_)%offered_iff by (rewrite Ea, <-Hp; by left). apply parse_snapshot_ok in Hs. apply Hs.
Qed.
Lemma referenced_unique target s s' : referenced k target s → referenced k target s' → s = s'.
Proof. intros (m&l&E1&E2&E3) (m'&l'&E1'&E2'&E3'). congruence. Qed.
Lemma referenced_reduced target s : referenced k target s → reduced_price (m_price (m_reading s)).
Proof. intros (m&l&_&_&E). by eapply selected_reduced. Qed.
Lemma valued_unique target q q' : valued k target q → valued k target q' → (q == q')%Q.
Proof.
  intros [[E V]|(N&s&Hs&V)] [[E' V']|(N'&s'&Hs'&V')]; [by rewrite V, V'|done..|]. by rewrite V, V', (referenced_unique _ _ _ Hs Hs').
Qed.
Lemma valuationOf_exact target : ∃ r, valuationOf k target = Ok r ∧ match r with Ok v => risk_rational v.1 ∧ valued k target (price_value v.1) | Throw _ => ∀ q, ¬ valued k target q end.
Proof.
  destruct base_quantity_exact as (r&Er&Hr&Ev). unfold valuationOf. rewrite Er. cbn [result_bind]. fold f t. destruct (tradeAssetsEqual target (base t)) eqn:Ea.
  - apply tradeAssetsEqual_iff in Ea. eexists. split; [done|]. cbn. split; [done|]. left. by rewrite Ev.
  - assert (target ≠ base t) as Hn by (intros ->; by rewrite (proj2 (tradeAssetsEqual_iff _ _)) in Ea).
    assert (∀ q, valued k target q → ∃ s, referenced k target s) as Hv by (intros q [[? _]|(_&s&?&_)]; [done|by exists s]).
    destruct (k_prices k) as [prices|] eqn:El; [destruct (marketReference f) as [m|reason] eqn:Em|].
    + destruct (selectTradeReference prices (reference_requirement k m target)) as [s|why] eqn:Es.
      * destruct (multiplyRationals_exact r (m_price (m_reading s)) Hr) as (v&->&Hv'&Vv); [apply rational_price; by eapply selected_reduced|]. eexists. split; [done|]. cbn. split; [done|]. right. split; [done|].
        exists s. split; [by exists m, prices|]. by rewrite Vv, Ev.
      * eexists. split; [done|]. intros q (s&m'&l&E1&E2&E3)%Hv. fold f in E1. congruence.
    + eexists. split; [done|]. intros q (s&m'&l&E1&_)%Hv. fold f in E1. congruence.
    + eexists. split; [by destruct (marketReference f)|]. intros q (s&m'&l&_&E2&_)%Hv. congruence.
Qed.
Lemma reference_some s : (judge_reference k).2 = Some s ↔ referenced k (quote t) s.
Proof.
  unfold judge_reference, referenced. fold f t. destruct (marketReference f) as [m|]; [|naive_solver]. destruct (k_prices k) as [l|]; [|naive_solver].
  destruct (selectTradeReference l (reference_requirement k m (quote t))) as [s'|] eqn:Es; cbn [snd]; (split; [by intros [= <-]; exists m, l|]); intros (m'&l'&[= <-]&[= <-]&E); congruence.
Qed.
Lemma reference_exact pair : decides pair REFERENCE_PRICE (judge_reference k).1.
Proof.
  unfold decides. cbn [control_holds]. fold f t. split.
  - assert (good (judge_reference k).1 ↔ (is_enforced (marketReference f) = true → is_Some (judge_reference k).2)) as ->.
    { unfold judge_reference. fold f t. destruct (marketReference f) as [m|]; [|cbn; rewrite good_disabled; naive_solver]. destruct (k_prices k); [|cbn; rewrite not_unavailable; split; [done|]; intros Hx; by destruct (Hx eq_refl)].
      destruct (selectTradeReference _ _); cbn; [unfold good; cbn; naive_solver|]. rewrite not_unavailable. split; [done|]. intros Hx. by destruct (Hx eq_refl). }
    destruct (marketReference f); cbn [if_enforced is_enforced]; [setoid_rewrite <-reference_some|done]. unfold is_Some. split; [by intros Hx; apply Hx|done].
  - unfold judge_reference, disabled, tradingRiskDisabledControls. fold f t. intros Hd. apply elem_of_app. left. destruct (marketReference f); [|by left]. by repeat case_match.
Qed.

(** *** Ledger readings *)

Lemma profile_waived pair c : c ∈ (if is_enforced (f_exposure f) then [] else [EXPOSURE_CEILING]) ++ (if is_enforced (f_activeOrders f) then [] else [ACTIVE_ORDER_LIMIT]) → c ∈ disabled k pair.
Proof. intros Hc. unfold disabled, tradingRiskDisabledControls. fold f. rewrite elem_of_app in Hc. apply elem_of_app. right. apply elem_of_app. destruct Hc; [by left|right]. apply elem_of_app. by left. Qed.
(** The shared part of both readings' checks. *)
Lemma fresh_reading c bound : common_ok c → 1 ≤ bound ≤ 3600 →
  freshnessAt (JsString (c_observedAt c)) (smallerOf (c_maxAgeSeconds c) bound) (k_at k) = fresh ↔ 0 ≤ instant_ms (k_at k) - instant_ms (c_observedAt c) ≤ Z.min (c_maxAgeSeconds c) bound * 1000.
Proof.
  intros [Hi Ha _] Hb. rewrite smallerOf_min, freshnessAt_fresh. split; [naive_solver|]. intros Hf. split; [done|]. split; [apply Hk|]. split; [lia|done].
Qed.
Lemma reading_admitted (c : SnapshotCommon) bound (late behind stale_ : string) : common_ok c → 1 ≤ bound ≤ 3600 →
  match freshnessAt (JsString (c_observedAt c)) (smallerOf (c_maxAgeSeconds c) bound) (k_at k) with
  | fresh => match k_minimumLedger k with Some m => if c_validatedLedgerIndex c <? m then Some behind else None | None => None end
  | future => Some late
  | _ => Some stale_
  end = None ↔ 0 ≤ instant_ms (k_at k) - instant_ms (c_observedAt c) ≤ Z.min (c_maxAgeSeconds c) bound * 1000 ∧ (∀ m, k_minimumLedger k = Some m → m ≤ c_validatedLedgerIndex c).
Proof.
  intros Hc Hb. rewrite <-fresh_reading by done. destruct (freshnessAt _ _ _); [|naive_solver..]. destruct (k_minimumLedger k) as [m|]; [|naive_solver].
  destruct (Z.ltb_spec (c_validatedLedgerIndex c) m); split; try done; [intros [_ Hm]; specialize (Hm m eq_refl); lia|]. intros _. split; [done|]. by intros ? [= <-].
Qed.
Lemma refuse_unless (b : bool) (reason : string) (rest : option string) : (if negb b then Some reason else rest) = None ↔ b = true ∧ rest = None.
Proof. destruct b; naive_solver. Qed.
Lemma exposure_refusal_none e x : exposure_ok x → 1 ≤ ep_maxAgeSeconds e ≤ 3600 →
  exposure_refusal k e x = None ↔ admitted k (ep_sourceIds e) (ep_maxAgeSeconds e) (x_common x) ∧ x_ownerAccount x = ownerAccount a ∧ x_riskBucket x = ep_riskBucket e ∧ x_denomination x = ep_denomination e.
Proof.
  intros Hx Hb. unfold exposure_refusal, admitted. fold f a. cbv zeta. rewrite <-negb_andb, !refuse_unless, andb_true_iff, !bool_decide_eq_true, !str_eqb_eq, tradeAssetsEqual_iff, reading_admitted by (done || apply Hx). tauto.
Qed.
Lemma order_refusal_none o n : common_ok (n_common n) → 1 ≤ op_maxAgeSeconds o ≤ 3600 →
  order_refusal k o n = None ↔ admitted k (op_sourceIds o) (op_maxAgeSeconds o) (n_common n) ∧ n_scope n = op_scope o ∧ n_scopeKey n = order_scope_key k o.
Proof.
  intros Hn Hb. unfold order_refusal, admitted. fold f a. cbv zeta. rewrite <-!negb_andb, !refuse_unless, !andb_true_iff, !bool_decide_eq_true, !str_eqb_eq, reading_admitted by done. tauto.
Qed.

Lemma order_snapshot_exact o s raw : f_activeOrders f = enforce o → parseTradeActiveOrderSnapshot raw = Some s → let v := (judge_order_snapshot k o s).1 in
  (good v ↔ admitted k (op_sourceIds o) (op_maxAgeSeconds o) (n_common (n_reading s)) ∧ n_scope (n_reading s) = op_scope o ∧ n_scopeKey (n_reading s) = order_scope_key k o ∧ tradeActiveOrderCount s + 1 ≤ op_maximum o) ∧
  v_outcome v ≠ CONTROL_DISABLED.
Proof.
  intros Eo Er. destruct (fo_orders _ (ko_profile _ Hk) o Eo) as [_ Hb]. apply parse_orders_ok in Er as [Hc _]. pose proof (order_refusal_none o (n_reading s) Hc Hb) as Hr. cbv zeta. unfold judge_order_snapshot.
  destruct (order_refusal k o (n_reading s)); cbn [fst].
  - rewrite not_unavailable. split; [|done]. split; [done|]. intros (Ha&Hs&Hy&_). by discriminate (proj2 Hr (conj Ha (conj Hs Hy))).
  - destruct (proj1 Hr eq_refl) as (Ha&Hs&Hy). rewrite good_measured, Z.leb_le. split; [|apply not_waived]. split; [intros Hle; exact (conj Ha (conj Hs (conj Hy Hle)))|by intros (_&_&_&?)].
Qed.
Lemma orders_exact pair : decides pair ACTIVE_ORDER_LIMIT (judge_orders k).1.
Proof.
  unfold decides, judge_orders. cbn [control_holds]. fold f. destruct (f_activeOrders f) as [o|reason] eqn:Eo; cbn [if_enforced].
  2:{ cbn [fst]. split; [by rewrite good_disabled|]. intros _. apply profile_waived. rewrite Eo. apply elem_of_app. right. by left. }
  assert (∃ why, match k_orders k with JsUndefined => (unavailable "ACTIVE_ORDER_SNAPSHOT_MISSING", None)
      | raw => match parseTradeActiveOrderSnapshot raw with None => (unavailable "ACTIVE_ORDER_SNAPSHOT_MALFORMED", None) | Some snapshot => judge_order_snapshot k o snapshot end end =
    match parseTradeActiveOrderSnapshot (k_orders k) with None => (unavailable why, None) | Some s => judge_order_snapshot k o s end) as [why ->] by (destruct (k_orders k); eexists; reflexivity).
  destruct (parseTradeActiveOrderSnapshot (k_orders k)) as [s|] eqn:Er; [|cbn [fst]; rewrite not_unavailable; split; [split; [done|by intros (s&?&_)]|done]].
  destruct (order_snapshot_exact o s _ Eo Er) as [Hg Hd]. split; [|by intros []%Hd]. rewrite Hg. split; [by exists s|by intros (s'&[= <-]&?)].
Qed.

Lemma exposure_snapshot_exact e s raw : f_exposure f = enforce e → parseTradeExposureSnapshot raw = Ok (Some s) → ∃ v, judge_exposure_snapshot k e s = Ok v ∧
  (good v.1.1 ↔ ∃ q, admitted k (ep_sourceIds e) (ep_maxAgeSeconds e) (x_common (x_reading s)) ∧ x_ownerAccount (x_reading s) = ownerAccount a ∧ x_riskBucket (x_reading s) = ep_riskBucket e ∧
    x_denomination (x_reading s) = ep_denomination e ∧ valued k (ep_denomination e) q ∧ (committed_value (x_reading s) + q <= dec_value (ep_ceiling e))%Q ∧ (q <= dec_value (x_capacityRemaining (x_reading s)))%Q) ∧
  v_outcome v.1.1 ≠ CONTROL_DISABLED.
Proof.
  intros Ee Er%parse_exposure_ok. destruct (fo_exposure _ (ko_profile _ Hk) e Ee) as (Hf&_&Hb). pose proof (exposure_refusal_none e (x_reading s) Er Hb) as Hr. unfold judge_exposure_snapshot.
  destruct (exposure_refusal k e (x_reading s)).
  { eexists. split; [done|]. cbn [fst]. rewrite not_unavailable. split; [|done]. split; [done|]. intros (q&Ha&Ho&Hb'&Hd&_). by discriminate (proj2 Hr (conj Ha (conj Ho (conj Hb' Hd)))). }
  destruct (proj1 Hr eq_refl) as (Ha&Ho&Hb'&Hd). destruct (valuationOf_exact (ep_denomination e)) as ([[v m]|why]&->&Hv); cbn [result_bind fst snd].
  2:{ eexists. split; [done|]. cbn [fst]. rewrite not_unavailable. split; [|done]. split; [done|]. by intros (q&_&_&_&_&[]%Hv&_). }
  destruct Hv as [Rv Hv]. cbn [fst] in Rv, Hv. destruct (committed_exact s Er) as (c&->&(Rc&Vc&_)). cbn [ranged result_bind]. destruct (addRationals_exact c v Rc Rv) as (j&->&Rj&Vj). cbn [ranged result_bind].
  destruct (rationalOfDecimal_exact _ Hf) as (g&->&Rg&Vg), (rationalOfDecimal_exact (x_capacityRemaining (x_reading s))) as (h&->&Rh&Vh); [apply Er|]. cbn [ranged result_bind]. eexists. split; [done|]. cbn [fst].
  split; [|apply not_waived]. rewrite good_measured, negb_orb, andb_true_iff, !compareRationals_exact, !order_code_gt, !negb_involutive, !order_code_le by done. rewrite Vj, Vc, Vg, Vh. split.
  - intros [H1 H2]. exists (price_value v). exact (conj Ha (conj Ho (conj Hb' (conj Hd (conj Hv (conj H1 H2)))))).
  - intros (q&_&_&_&_&Hq&H1&H2). by rewrite (valued_unique _ _ _ Hv Hq).
Qed.
Lemma exposure_exact pair : (∃ v, judge_exposure k = Ok v ∧ decides pair EXPOSURE_CEILING v.1.1) ∨ judge_exposure k = Throw thrown_type.
Proof.
  unfold decides, judge_exposure. cbn [control_holds]. fold f. destruct (f_exposure f) as [e|reason] eqn:Ee; cbn [if_enforced].
  2:{ left. eexists. split; [done|]. cbn [fst]. split; [by rewrite good_disabled|]. intros _. apply profile_waived. rewrite Ee. apply elem_of_app. left. by left. }
  assert (∃ why, match k_exposure k with JsUndefined => Ok (unavailable "EXPOSURE_SNAPSHOT_MISSING", None, None)
      | raw => let* parsed := typed (parseTradeExposureSnapshot raw) in match parsed with None => Ok (unavailable "EXPOSURE_SNAPSHOT_MALFORMED", None, None) | Some snapshot => judge_exposure_snapshot k e snapshot end end =
    let* parsed := typed (parseTradeExposureSnapshot (k_exposure k)) in match parsed with None => Ok (unavailable why, None, None) | Some s => judge_exposure_snapshot k e s end) as [why ->] by (destruct (k_exposure k); eexists; reflexivity).
  destruct (parseTradeExposureSnapshot (k_exposure k)) as [[s|]|] eqn:Er; cbn [typed result_bind]; [| |by right].
  - left. destruct (exposure_snapshot_exact e s _ Ee Er) as (v&->&Hg&Hd). exists v. split; [done|]. split; [|by intros []%Hd]. rewrite Hg. split; [by intros [q Hq]; exists s, q|by intros (s'&q&[= <-]&?); exists q].
  - left. eexists. split; [done|]. cbn [fst]. rewrite not_unavailable. split; [split; [done|by intros (s&q&?&_)]|done].
Qed.
Lemma delegation_verdict_exact pair : (∃ v, judge_delegation k = Ok v ∧ decides pair DELEGATION_VERIFIED v.1) ∨ judge_delegation k = Throw thrown_type.
Proof.
  unfold decides, judge_delegation. cbn [control_holds]. assert (∀ x, checkTradeDelegationReliance JsUndefined x ≠ Ok tt) as Hu.
  { intros x. unfold checkTradeDelegationReliance. destruct (parseTradeDelegationPolicy _); [|done]. by destruct (isTradeInstant _). }
  assert (∀ d, (∃ v, judge_delegation_record k d = Ok v ∧ (good v.1 ↔ checkTradeDelegationReliance d (delegation_expectation k) = Ok tt) ∧ v_outcome v.1 ≠ CONTROL_DISABLED) ∨ judge_delegation_record k d = Throw thrown_type) as Hd.
  { intros d. unfold judge_delegation_record. destruct (checkTradeDelegationReliance d _) as [[]|code].
    - destruct (plainRiskData d); [left|by right]. eexists. split; [done|]. split; [|done]. split; [done|by left].
    - left. eexists. split; [done|]. cbn [fst verdict v_outcome]. destruct (_ && _); (split; [|done]); unfold good; cbn; split; intros Hx; try done; by destruct Hx. }
  assert ((∃ v, Ok (unavailable "DELEGATION_EVIDENCE_MISSING", @None JsValue) = @Ok Thrown _ v ∧ (good v.1 ↔ checkTradeDelegationReliance JsUndefined (delegation_expectation k) = Ok tt) ∧ v_outcome v.1 ≠ CONTROL_DISABLED)) as Hm.
  { eexists. split; [done|]. cbn [fst]. split; [rewrite not_unavailable; split; [done|apply Hu]|done]. }
  destruct (k_delegation k); [left; destruct Hm as (v&E&Hg&Hw)|edestruct Hd as [(v&E&Hg&Hw)|E]; [left|right; exact E]..]; exists v; (split; [exact E|split; [exact Hg|by intros []%Hw]]).
Qed.

Section Of_pair.
Variable p : TradingPairRiskPolicy.
Hypothesis Hp : paired k p.
(** The pair a demand is about is this one. *)
Lemma of_pair (P : TradingPairRiskPolicy → Prop) : (∃ q, paired k q ∧ P q) ↔ P p.
Proof. split; [intros (q&Hq&Hx); by rewrite (pair_unique p q Hp Hq)|eauto]. Qed.
Lemma of_pair_2 {B} (P : TradingPairRiskPolicy → B → Prop) : (∃ q b, paired k q ∧ P q b) ↔ ∃ b, P p b.
Proof. split; [intros (q&b&Hq&Hx); exists b; by rewrite (pair_unique p q Hp Hq)|intros [b Hb]; eauto]. Qed.

Lemma pair_exact : decides (Some p) PAIR_APPROVED (judge_pair k (Some p)).
Proof. split; [|done]. unfold good. cbn. naive_solver. Qed.
Lemma side_exact : decides (Some p) SIDE_APPROVED (judge_side k p).
Proof. unfold decides, judge_side. fold t. cbn [control_holds]. fold t. rewrite of_pair, good_if. split; [apply bool_decide_eq_true|by case_bool_decide]. Qed.
Lemma given_exact : ∃ v, judge_given k p = Ok v ∧ decides (Some p) OWNER_GIVEN_AMOUNT_MAXIMUM v.
Proof.
  assert (control_holds k OWNER_GIVEN_AMOUNT_MAXIMUM ↔ ∃ m, given_bound p (side t) = Some m ∧ (amount_value (takerGets a) <= dec_value m)%Q) as Hc by apply (of_pair_2 (λ q m, given_bound q (side t) = Some m ∧ (amount_value (takerGets a) <= dec_value m)%Q)).
  unfold judge_given, ownerGivenValue, decides. fold a t. setoid_rewrite Hc.
  destruct (given_bound p (side t)) as [m|] eqn:Em; [|eexists; split; [done|]; split; [rewrite not_unavailable; naive_solver|done]].
  assert (figure m) as Hm. { destruct (po_given _ (paired_ok p Hp) (side t) m) as [? _]; [|done]. rewrite <-Em. by destruct (side t). }
  destruct accepted_terms as (Hg&_&_). destruct (decimal_quantity _ Hg) as (Gg&Gv&Gd). fold a in Gg, Gv, Gd. destruct (rationalOfDecimal_exact (tradeDecimalQuantity (takerGets a))) as (r&Er&Hr&Ev).
  { unfold isCanonicalDecimal. rewrite Gg. apply andb_true_iff. split; [done|]. apply Z.leb_le. unfold MONETARY_DECIMAL_MAXIMUM_DIGITS. lia. }
  rewrite Er. cbn [ranged result_bind]. destruct (withinLimit_exact r m (tradeDecimalQuantity (takerGets a)) Hr Hm) as (v&->&Hv&Hd). exists v. split; [done|]. split; [|done].
  rewrite Hv, Ev, Gv. naive_solver.
Qed.
Lemma quantity_exact : ∃ v, judge_quantity k p = Ok v ∧ decides (Some p) BASE_QUANTITY_MAXIMUM v.
Proof.
  destruct base_quantity_exact as (r&Er&Hr&Ev). unfold judge_quantity. rewrite Er. cbn [result_bind].
  destruct (withinLimit_exact r (maxBaseQuantity p) (quantity t) Hr) as (v&Ew&Hv&Hd); [apply (po_quantity _ (paired_ok p Hp))|]. exists v. split; [done|]. split; [|done].
  cbn [control_holds]. by rewrite of_pair, Hv, Ev.
Qed.

(** A pair's own switch is among the waivers. *)
Lemma pair_waived c : c ∈ match side_bound p (side t) with Some (switched_off _) => [LIMIT_PRICE_BOUND] | _ => [] end ++ (if is_enforced (priceBand p) then [] else [PRICE_BAND]) ++
    (if is_enforced (referenceDeviation p) then [] else [REFERENCE_DEVIATION]) ++ (if is_enforced (pair_notional p) then [] else [NOTIONAL_MAXIMUM]) → c ∈ disabled k (Some p).
Proof. intros Hc. unfold disabled, tradingRiskDisabledControls. do 3 (apply elem_of_app; right). exact Hc. Qed.
Lemma bound_exact : decides (Some p) LIMIT_PRICE_BOUND (judge_bound k p).
Proof.
  assert (control_holds k LIMIT_PRICE_BOUND ↔ ∃ b, side_bound p (side t) = Some b ∧ if_enforced b (λ q, match side t with sell => price_value q <= price_value (limitPrice t) | buy => price_value (limitPrice t) <= price_value q end%Q)) as Hc
    by apply (of_pair_2 (λ q b, side_bound q (side t) = Some b ∧ if_enforced b (λ q, match side t with sell => price_value q <= price_value (limitPrice t) | buy => price_value (limitPrice t) <= price_value q end%Q))).
  unfold decides, judge_bound. rewrite Hc. clear Hc. fold t. destruct (side_bound p (side t)) as [[q|reason]|] eqn:Eb; cbn [if_enforced].
  - assert (reduced_price q) as Hq. { eapply (po_bound _ (paired_ok p Hp) (side t)). rewrite <-Eb. by destruct (side t). } destruct accepted_terms as (_&_&Hl). fold t in Hl.
    assert (∀ P : TradePrice → Prop, (∃ b, Some (enforce q) = Some b ∧ if_enforced b P) ↔ P q) as -> by (intros P; split; [by intros (b&[= <-]&?)|intros; by exists (enforce q)]).
    destruct (side t); rewrite good_measured, prices_compare by done; (split; [apply order_code_le || apply order_code_ge|]); cbn; by destruct (_ <=? _).
  - split; [rewrite good_disabled; split; [|done]; intros _; by exists (switched_off reason)|]. intros _. apply pair_waived. rewrite Eb. by left.
  - split; [rewrite not_unavailable; naive_solver|done].
Qed.
Lemma band_exact : decides (Some p) PRICE_BAND (judge_band k p).
Proof.
  unfold decides, judge_band. cbn [control_holds]. rewrite of_pair. fold t. destruct (priceBand p) as [b|reason] eqn:Eb; cbn [if_enforced].
  - destruct (po_band _ (paired_ok p Hp) b Eb) as (Hf&Hg&_), accepted_terms as (_&_&Hl). fold t in Hl. rewrite good_measured, !prices_compare by done.
    rewrite order_code_lt, order_code_gt, negb_orb, !negb_involutive, andb_true_iff, order_code_le, order_code_ge. split; [done|]. by intros []%not_waived.
  - split; [by rewrite good_disabled|]. intros _. apply pair_waived. rewrite Eb, !elem_of_app. right. left. by left.
Qed.
(** A deviation against a number of basis points. *)
Lemma deviation_compare r v z : reduced_price r → risk_rational v → (price_value v == Qabs (price_value (limitPrice t) - price_value r) / price_value r * inject_Z 10000)%Q → 0 ≤ z →
  (compareRationals v (rational z 1) <=? 0) = true ↔ (Qabs (price_value (limitPrice t) - price_value r) * 10000 <= inject_Z z * price_value r)%Q.
Proof.
  intros Hr Hv Ev Hz. rewrite (compareRationals_exact v), order_code_le by (done || (split; [cbn; lia|]; split; [done|]; cbn; apply Z.gcd_1_r)).
  assert (0 < price_value r)%Q as Hpos by (destruct Hr as (?&_); unfold price_value, Qlt; cbn; lia).
  change (price_value (rational z 1)) with (inject_Z z). rewrite <-(Qmult_le_r _ _ _ Hpos), Ev. change (inject_Z 10000) with (10000 # 1)%Q.
  assert (Qabs (price_value (limitPrice t) - price_value r) / price_value r * (10000 # 1) * price_value r == Qabs (price_value (limitPrice t) - price_value r) * (10000 # 1))%Q as ->; [|done].
  field. intros E. rewrite E in Hpos. by apply Qlt_irrefl in Hpos.
Qed.
Lemma compare_gt_le x y : (0 <? compareRationals x y) = negb (compareRationals x y <=? 0).
Proof. rewrite Z.ltb_antisym. done. Qed.
Lemma tolerated_iff d r v : reduced_price r → risk_rational v → (price_value v == Qabs (price_value (limitPrice t) - price_value r) / price_value r * inject_Z 10000)%Q → 1 ≤ dp_maxBasisPoints d →
  (let exceeds := 0 <? compareRationals v (rational (dp_maxBasisPoints d) 1) in
   let adverse_ := match side t with sell => compareTradePrices (limitPrice t) r <? 0 | buy => 0 <? compareTradePrices (limitPrice t) r end in
   negb (exceeds && (bool_decide (dp_rule d = symmetric) || adverse_)) = true) ↔ tolerated k d (price_value r).
Proof.
  intros Hr Hv Ev Hd. destruct accepted_terms as (_&_&Hl). fold t in Hl. cbv zeta. unfold tolerated. fold t.
  rewrite (compare_gt_le v), negb_andb, negb_involutive, orb_true_iff, (deviation_compare r v), !prices_compare, order_code_gt, order_code_lt by (done || lia).
  rewrite negb_orb, andb_true_iff. assert (negb (bool_decide (dp_rule d = symmetric)) = true ↔ dp_rule d = adverse) as -> by (rewrite negb_true_iff, bool_decide_eq_false; destruct (dp_rule d); naive_solver).
  destruct (side t); rewrite negb_involutive; by rewrite ?order_code_le, ?order_code_ge.
Qed.
(** The figures a review turns on. *)
Definition deviation_figure (o : option TradeRational) : Prop :=
  match o with
  | Some v => ∃ d s, referenceDeviation p = enforce d ∧ referenced k (quote t) s ∧ risk_rational v ∧
      (price_value v == Qabs (price_value (limitPrice t) - price_value (m_price (m_reading s))) / price_value (m_price (m_reading s)) * inject_Z 10000)%Q
  | None => ∀ d s, referenceDeviation p = enforce d → ¬ referenced k (quote t) s
  end.
Definition notional_figure (o : option TradeRational) : Prop :=
  match o with
  | Some v => ∃ n, pair_notional p = enforce n ∧ risk_rational v ∧ valued k (np_valuationAsset n) (price_value v)
  | None => ∀ n q, pair_notional p = enforce n → ¬ valued k (np_valuationAsset n) q
  end.
Lemma deviation_verdict_exact : ∃ v, judge_deviation k p (judge_reference k).2 = Ok v ∧ decides (Some p) REFERENCE_DEVIATION v.1 ∧ deviation_figure v.2.
Proof.
  assert (control_holds k REFERENCE_DEVIATION ↔ if_enforced (referenceDeviation p) (λ d, ∃ s, referenced k (quote t) s ∧ tolerated k d (price_value (m_price (m_reading s))))) as Hc
    by apply (of_pair (λ p, if_enforced (referenceDeviation p) (λ d, ∃ s, referenced k (quote t) s ∧ tolerated k d (price_value (m_price (m_reading s)))))).
  unfold judge_deviation, decides, deviation_figure. setoid_rewrite Hc. clear Hc. fold t. destruct (referenceDeviation p) as [d|reason] eqn:Ed; cbn [if_enforced].
  2:{ eexists. split; [done|]. split; [|done]. split; [by rewrite good_disabled|]. intros _. apply pair_waived. rewrite Ed, !elem_of_app. right. right. left. by left. }
  destruct (judge_reference k).2 as [s|] eqn:Es.
  - apply reference_some in Es. pose proof (referenced_reduced _ _ Es) as Hr. destruct accepted_terms as (_&_&Hl). fold t in Hl. destruct (deviation_exact _ _ Hl Hr) as (v&->&Hv&Ev). cbn [ranged result_bind]. eexists. split; [done|]. cbn [fst].
    rewrite good_measured, (tolerated_iff d _ v Hr Hv Ev) by apply (po_deviation _ (paired_ok p Hp) d Ed). split; [|by exists d, s]. split; [|by intros []%not_waived]. split; [eauto|]. intros (s'&Hs'&Ht). by rewrite (referenced_unique _ _ _ Es Hs').
  - eexists. split; [done|]. cbn [fst snd]. rewrite not_unavailable. split; [split; [|done]; split; [done|]|]; [intros (s&Hs%reference_some&_)|intros d' s _ Hs%reference_some]; congruence.
Qed.
Lemma notional_exact : ∃ v, judge_notional k p = Ok v ∧ decides (Some p) NOTIONAL_MAXIMUM v.1.1 ∧ notional_figure v.1.2.
Proof.
  assert (control_holds k NOTIONAL_MAXIMUM ↔ if_enforced (pair_notional p) (λ n, ∃ q, valued k (np_valuationAsset n) q ∧ (q <= dec_value (np_maximum n))%Q)) as Hc
    by apply (of_pair (λ p, if_enforced (pair_notional p) (λ n, ∃ q, valued k (np_valuationAsset n) q ∧ (q <= dec_value (np_maximum n))%Q))).
  unfold judge_notional, decides, notional_figure. setoid_rewrite Hc. clear Hc. destruct (pair_notional p) as [n|reason] eqn:En; cbn [if_enforced].
  2:{ eexists. split; [done|]. split; [|done]. split; [by rewrite good_disabled|]. intros _. apply pair_waived. rewrite En, !elem_of_app. right. right. right. by left. }
  destruct (valuationOf_exact (np_valuationAsset n)) as ([[v s]|why]&->&Hv); cbn [result_bind fst snd].
  - destruct Hv as [Hr Hv]. cbn [fst] in Hr, Hv. destruct (withinLimit_exact v (np_maximum n) (formatTradeRational v) Hr) as (w&->&Hw&Hd); [apply (po_notional _ (paired_ok p Hp) n En)|]. cbn [result_bind]. eexists. split; [done|]. cbn [fst].
    rewrite Hw. split; [|by exists n]. split; [|done]. split; [eauto|]. intros (q&Hq&Hle). by rewrite (valued_unique _ _ _ Hv Hq).
  - eexists. split; [done|]. cbn [fst snd]. rewrite not_unavailable. split; [split; [|done]; split; [done|by intros (q&[]%Hv&_)]|]. by intros n' q [= <-] []%Hv.
Qed.
End Of_pair.

(** ** Every control is recorded once, with its verdict *)

Definition verdict_of (pair : option TradingPairRiskPolicy) (c : TradingRiskControlId) : result Thrown Verdict :=
  let scoped (judge : TradingPairRiskPolicy → result Thrown Verdict) := match pair with Some p => judge p | None => Ok (unavailable "PAIR_PREREQUISITE_NOT_MET") end in
  match c with
  | PROFILE_IN_FORCE => Ok (judge_in_force k) | OWNER_IN_SCOPE => Ok (judge_owner k) | DELEGATE_IN_SCOPE => Ok (judge_delegate k) | FLAGS_PERMITTED => Ok (judge_flags k)
  | PAIR_APPROVED => Ok (judge_pair k pair) | SIDE_APPROVED => scoped (λ p, Ok (judge_side k p)) | OWNER_GIVEN_AMOUNT_MAXIMUM => scoped (judge_given k) | BASE_QUANTITY_MAXIMUM => scoped (judge_quantity k)
  | LIMIT_PRICE_BOUND => scoped (λ p, Ok (judge_bound k p)) | PRICE_BAND => scoped (λ p, Ok (judge_band k p)) | REFERENCE_PRICE => Ok (judge_reference k).1
  | REFERENCE_DEVIATION => scoped (λ p, let* d := judge_deviation k p (judge_reference k).2 in Ok d.1) | NOTIONAL_MAXIMUM => scoped (λ p, let* n := judge_notional k p in Ok n.1.1)
  | EXPOSURE_CEILING => let* x := judge_exposure k in Ok x.1.1 | ACTIVE_ORDER_LIMIT => Ok (judge_orders k).1 | DELEGATION_VERIFIED => let* d := judge_delegation k in Ok d.1
  end.

Lemma result_snoc l r c : result_of (l ++ [r]) c = match result_of l c with Some x => Some x | None => if decide (r_control r = c) then Some r else None end.
Proof. unfold result_of. induction l as [|x l IH]; cbn; [case_bool_decide; by destruct (decide (r_control r = c))|]. by case_bool_decide. Qed.
Lemma result_record pair c v s c' : result_of (rs_results (record k pair c v s)) c' =
  match result_of (rs_results s) c' with Some r => Some r | None => if decide (c = c') then Some (result_entry k pair c v) else None end.
Proof.
  unfold record. destruct (result_of (rs_results s) c) as [r|] eqn:E.
  - destruct (result_of (rs_results s) c') eqn:E'; [done|]. destruct (decide (c = c')) as [->|]; [congruence|done].
  - cbn [rs_results]. by rewrite result_snoc.
Qed.
Lemma found_other pair c c' v s : c ≠ c' → result_of (rs_results (record k pair c v s)) c' = result_of (rs_results s) c'.
Proof. intros Hn. rewrite result_record. destruct (result_of (rs_results s) c'); [done|]. by destruct (decide (c = c')). Qed.
Lemma found_same pair c v s : result_of (rs_results s) c = None → result_of (rs_results (record k pair c v s)) c = Some (result_entry k pair c v).
Proof. intros E. rewrite result_record, E. by destruct (decide (c = c)). Qed.
Lemma found_noted {A} (g : A → RiskState → RiskState) o s c : (∀ x, rs_results (g x s) = rs_results s) → result_of (rs_results (if_some g o s)) c = result_of (rs_results s) c.
Proof. intros Hg. destruct o; cbn; [by rewrite Hg|done]. Qed.
Lemma found_kept pair l v s c r : result_of (rs_results s) c = Some r → result_of (rs_results (foldl (λ s c, record k pair c v s) s l)) c = Some r.
Proof. revert s. induction l as [|c' l IH]; intros s E; [done|]. cbn. apply IH. by rewrite result_record, E. Qed.

Lemma Ok_eq {E A} (x y : A) : @Ok E A x = Ok y → x = y.
Proof. by intros [= ->]. Qed.
Ltac skip_record := first [etransitivity; [apply found_other; discriminate|]|etransitivity; [apply found_noted; intros; reflexivity|]].
Ltac find_record := apply found_kept; repeat skip_record; apply found_same; repeat skip_record; reflexivity.
Lemma evaluate_verdicts pair s g : evaluate k pair = Ok (s, g) → ∀ c, ∃ v, verdict_of pair c = Ok v ∧ result_of (rs_results s) c = Some (result_entry k pair c v).
Proof.
  unfold evaluate. intros (q&_&E)%result_bind_Ok. apply result_bind_Ok in E as (s1&E1&E). apply result_bind_Ok in E as ([s2 g2]&E2&E).
  apply result_bind_Ok in E as (s3&(x&Ex&[= <-])%result_bind_Ok&E). apply result_bind_Ok in E as (s4&(d&Ed&[= <-])%result_bind_Ok&[= <- _]). unfold complete. unfold record_pair in E1. unfold record_value in E2. cbn [fst].
  destruct pair as [p|].
  - apply result_bind_Ok in E1 as (given&Eg&E1). apply result_bind_Ok in E1 as (most&Em&[= <-]). apply result_bind_Ok in E2 as (dv&Ev&E2). apply result_bind_Ok in E2 as (n&En&[= <- <-]).
    intros c. unfold verdict_of. rewrite Ex, Ed, Eg, Em, Ev, En. unfold record_orders, record_reference, record_scope. cbn [result_bind fst].
    destruct c; (eexists; split; [reflexivity|find_record]).
  - apply Ok_eq in E1 as <-. apply Ok_eq, (f_equal fst) in E2. cbn [fst] in E2. subst s2. intros c. unfold verdict_of. rewrite Ex, Ed. unfold UNPAIRED_CONTROLS, record_orders, record_reference, record_scope. cbn [result_bind fst foldl].
    destruct c; (eexists; split; [reflexivity|find_record]).
Qed.
Lemma verdict_decides c v : verdict_of (risk_pair k) c = Ok v → decides (risk_pair k) c v.
Proof.
  unfold verdict_of. destruct (risk_pair k) as [p|] eqn:Ep.
  - apply risk_pair_iff in Ep. destruct c; intros E; try (injection E as <-);
      [apply in_force_exact|apply owner_exact|apply delegate_exact|by apply pair_exact|by apply side_exact|apply flags_exact| | |by apply bound_exact|by apply band_exact|apply reference_exact| | | |apply orders_exact|].
    + destruct (given_exact p Ep) as (w&Ew&Hw). congruence.
    + destruct (quantity_exact p Ep) as (w&Ew&Hw). congruence.
    + destruct (deviation_verdict_exact p Ep) as (w&Ew&Hw&_). rewrite Ew in E. by apply Ok_eq in E as <-.
    + destruct (notional_exact p Ep) as (w&Ew&Hw&_). rewrite Ew in E. by apply Ok_eq in E as <-.
    + destruct (exposure_exact (Some p)) as [(w&Ew&Hw)|Ew]; rewrite Ew in E; [by apply Ok_eq in E as <-|done].
    + destruct (delegation_verdict_exact (Some p)) as [(w&Ew&Hw)|Ew]; rewrite Ew in E; [by apply Ok_eq in E as <-|done].
  - assert (∀ p, ¬ paired k p) as Hn by (intros p Hp%risk_pair_iff; congruence).
    assert (∀ c, (control_holds k c → ∃ p, paired k p) → decides None c (unavailable "PAIR_PREREQUISITE_NOT_MET")) as Hu.
    { intros c' Hc. split; [|done]. rewrite not_unavailable. split; [done|]. intros [p []%Hn]%Hc. }
    destruct c; intros E; try (injection E as <-); try (apply Hu; cbn [control_holds]; intros Hc; destruct Hc as (p&Hc); by (exists p; apply Hc) || (destruct Hc as (?&?&_); by exists p));
      [apply in_force_exact|apply owner_exact|apply delegate_exact| |apply flags_exact|apply reference_exact| |apply orders_exact|].
    + split; [|done]. unfold good. cbn. split; [naive_solver|]. by intros [p []%Hn].
    + destruct (exposure_exact None) as [(w&Ew&Hw)|Ew]; rewrite Ew in E; [by apply Ok_eq in E as <-|done].
    + destruct (delegation_verdict_exact None) as [(w&Ew&Hw)|Ew]; rewrite Ew in E; [by apply Ok_eq in E as <-|done].
Qed.

Lemma evaluate_total : (∃ r, evaluate k (risk_pair k) = Ok r) ∨ evaluate k (risk_pair k) = Throw thrown_type.
Proof.
  destruct base_quantity_exact as (q&Eq&_). unfold evaluate. rewrite Eq. cbn [result_bind].
  assert (∀ s, ∃ s', record_pair k (risk_pair k) s = Ok s') as Hp.
  { intros s. unfold record_pair. destruct (risk_pair k) as [p|] eqn:Ep; [|by eexists]. apply risk_pair_iff in Ep. destruct (given_exact p Ep) as (g&->&_), (quantity_exact p Ep) as (m&->&_). cbn. by eexists. }
  assert (∀ s, ∃ s', record_value k (risk_pair k) s = Ok s') as Hv.
  { intros s. unfold record_value. destruct (risk_pair k) as [p|] eqn:Ep; [|by eexists]. apply risk_pair_iff in Ep. destruct (deviation_verdict_exact p Ep) as (g&->&_), (notional_exact p Ep) as (m&->&_). cbn. by eexists. }
  edestruct Hp as [s1 ->]. cbn [result_bind]. edestruct Hv as [[s2 g] ->]. cbn [result_bind fst snd]. unfold record_exposure, record_delegation.
  destruct (exposure_exact None) as [(x&->&_)| ->]; [|by right]. cbn [result_bind]. destruct (delegation_verdict_exact None) as [(d&->&_)| ->]; [|by right]. left. by eexists.
Qed.
Lemma evaluate_figures p s g : risk_pair k = Some p → evaluate k (risk_pair k) = Ok (s, g) → deviation_figure p (g_deviation g) ∧ notional_figure p (g_notional g).
Proof.
  intros Ep. rewrite Ep. apply risk_pair_iff in Ep. unfold evaluate. intros (q&_&E)%result_bind_Ok. apply result_bind_Ok in E as (s1&_&E). apply result_bind_Ok in E as ([s2 g2]&E2&E).
  apply result_bind_Ok in E as (s3&_&E). apply result_bind_Ok in E as (s4&_&E). apply Ok_eq, (f_equal snd) in E. cbn [snd] in E. subst g2. unfold record_value in E2.
  destruct (deviation_verdict_exact p Ep) as (d&Ed&_&Hd), (notional_exact p Ep) as (n&En&_&Hn). rewrite Ed, En in E2. cbn [result_bind] in E2. apply Ok_eq, (f_equal snd) in E2. cbn [snd] in E2. subst g. done.
Qed.

(** ** The outcome *)

Lemma entry_outcome pair c v : decides pair c v → r_outcome (result_entry k pair c v) = v_outcome v.
Proof. intros [_ Hd]. unfold result_entry. cbn. case_bool_decide as E; [|done]. by rewrite bool_decide_true by (by apply Hd). Qed.
Lemma controls_named results (l : list TradingRiskControlId) : (∀ c, ∃ r, result_of results c = Some r ∧ r_control r = c) → r_control <$> omap (result_of results) l = l.
Proof. intros Hr. induction l as [|c l IH]; [done|]. cbn. destruct (Hr c) as (r&->&<-). cbn. by rewrite IH. Qed.
Lemma controls_exact s g : evaluate k (risk_pair k) = Ok (s, g) → r_control <$> controls_of s = TRADING_RISK_CONTROLS ∧
  (overall k (risk_pair k) (controls_of s) = RISK_SATISFIED ↔ ∀ c, control_holds k c) ∧
  (overall k (risk_pair k) (controls_of s) = RISK_VIOLATED ↔ ∃ r, r ∈ controls_of s ∧ r_outcome r = CONTROL_VIOLATED).
Proof.
  intros E. pose proof (evaluate_verdicts _ _ _ E) as Hv. pose proof verdict_decides as Hd. set (pair := risk_pair k) in *.
  assert (∀ c, c ∈ TRADING_RISK_CONTROLS) as Hall by (intros []; apply (bool_decide_unpack _); vm_compute; exact I).
  assert (∀ r, r ∈ controls_of s ↔ ∃ c v, verdict_of pair c = Ok v ∧ r = result_entry k pair c v) as Hin.
  { intros r. unfold controls_of. rewrite list_elem_of_omap. split.
    - intros (c&_&Hc). destruct (Hv c) as (v&Ev&Er). exists c, v. split; [done|congruence].
    - intros (c&v&Ev&->). exists c. split; [done|]. destruct (Hv c) as (w&Ew&Er). congruence. }
  split; [|split].
  - apply controls_named. intros c. destruct (Hv c) as (v&_&->). by eexists.
  - unfold overall. fold pair. destruct (existsb _ _) eqn:Ex; [|destruct (forallb _ _) eqn:Ef]; (split; try done).
    + apply existsb_exists in Ex as (r&(c&v&Ev&->)%list_elem_of_In%Hin&Ho%bool_decide_eq_true). rewrite (entry_outcome pair c v (Hd c v Ev)) in Ho. intros Hc. destruct (proj2 (proj1 (Hd c v Ev)) (Hc c)); congruence.
    + intros _ c. destruct (Hv c) as (v&Ev&_). rewrite forallb_forall in Ef. specialize (Ef (result_entry k pair c v)). rewrite (entry_outcome pair c v (Hd c v Ev)) in Ef. apply (Hd c v Ev). unfold good.
      assert (In (result_entry k pair c v) (controls_of s)) as Hi by (apply list_elem_of_In, Hin; eauto). specialize (Ef Hi). apply orb_true_iff in Ef as [Ef%bool_decide_eq_true|[Ef%bool_decide_eq_true _]%andb_true_iff]; [by left|by right].
    + intros Hc. exfalso. apply not_true_iff_false in Ef. apply Ef, forallb_forall. intros r (c&v&Ev&->)%list_elem_of_In%Hin. rewrite (entry_outcome pair c v (Hd c v Ev)). destruct (proj2 (proj1 (Hd c v Ev)) (Hc c)) as [-> |Ho]; [done|].
      rewrite Ho. cbn [result_entry r_control]. apply orb_true_iff. right. rewrite !bool_decide_true; [done|by apply (Hd c v Ev)|done].
  - unfold overall. destruct (existsb _ _) eqn:Ex.
    + split; [|done]. intros _. apply existsb_exists in Ex as (r&Hr%list_elem_of_In&Ho%bool_decide_eq_true). by exists r.
    + split; [by destruct (forallb _ _)|]. intros (r&Hr&Ho). apply existsb_no in Ex. rewrite Forall_forall in Ex. apply Ex, bool_decide_eq_false in Hr. done.
Qed.

Lemma singleton_if (b : bool) (x : string) : (if b then [x] else []) ≠ [] ↔ b = true.
Proof. destruct b; naive_solver. Qed.
Lemma app_not_nil (l l' : list string) : l ++ l' ≠ [] ↔ l ≠ [] ∨ l' ≠ [].
Proof. destruct l, l'; naive_solver. Qed.
Lemma pair_triggers_exact p g : paired k p → deviation_figure p (g_deviation g) → notional_figure p (g_notional g) → ∃ l, pair_triggers g p = Ok l ∧
  (l ≠ [] ↔ ap_restricted (pair_approval p) = true ∨
     (∃ s n q, ap_notionalAbove (pair_approval p) = Some s ∧ pair_notional p = enforce n ∧ valued k (np_valuationAsset n) q ∧ (dec_value s < q)%Q) ∨
     (∃ z d s, ap_deviationAboveBasisPoints (pair_approval p) = Some z ∧ referenceDeviation p = enforce d ∧ referenced k (quote t) s ∧
        (inject_Z z * price_value (m_price (m_reading s)) < Qabs (price_value (limitPrice t) - price_value (m_price (m_reading s))) * 10000)%Q)).
Proof.
  intros Hp Hd Hn. pose proof (paired_ok p Hp) as Ho. unfold pair_triggers.
  set (N := match ap_notionalAbove (pair_approval p) with Some threshold => match g_notional g with Some n => exceeds_text n threshold | None => Ok false end | None => Ok false end).
  assert (∃ b, N = Ok b ∧ (b = true ↔ ∃ s n q, ap_notionalAbove (pair_approval p) = Some s ∧ pair_notional p = enforce n ∧ valued k (np_valuationAsset n) q ∧ (dec_value s < q)%Q)) as (b&->&Hb).
  { unfold N. destruct (ap_notionalAbove (pair_approval p)) as [s|] eqn:Es; [|exists false; split; [done|]; split; [done|by intros (?&?&?&?&_)]].
    destruct (po_review_notional _ Ho s Es) as [Hf _]. destruct (g_notional g) as [v|]; cbn [notional_figure] in Hn.
    - destruct Hn as (n&En&Rv&Hv). destruct (rationalOfDecimal_exact _ Hf) as (m&Em&Rm&Vm). unfold exceeds_text. rewrite Em. eexists. split; [done|]. rewrite compare_gt_le, negb_true_iff, compareRationals_exact by done.
      rewrite <-not_true_iff_false, order_code_le, Vm. split; [intros Hx%Qnot_le_lt; by exists s, n, (price_value v)|]. intros (s'&n'&q&[= <-]&En'&Hq&Hlt). rewrite En in En'. injection En' as <-.
      rewrite (valued_unique _ _ _ Hv Hq). by apply Qlt_not_le.
    - exists false. split; [done|]. split; [done|]. intros (s'&n&q&_&En&Hq&_). by destruct (Hn n q En). }
  cbn [result_bind]. eexists. split; [done|]. rewrite !app_not_nil, !singleton_if, Hb.
  assert (match ap_deviationAboveBasisPoints (pair_approval p) with Some z => match g_deviation g with Some d => 0 <? compareRationals d (rational z 1) | None => false end | None => false end = true ↔
    ∃ z d s, ap_deviationAboveBasisPoints (pair_approval p) = Some z ∧ referenceDeviation p = enforce d ∧ referenced k (quote t) s ∧
        (inject_Z z * price_value (m_price (m_reading s)) < Qabs (price_value (limitPrice t) - price_value (m_price (m_reading s))) * 10000)%Q) as ->; [|done].
  destruct (ap_deviationAboveBasisPoints (pair_approval p)) as [z|] eqn:Ez; [|split; [done|by intros (?&?&?&?&_)]]. destruct (po_review_deviation _ Ho z Ez) as [Hz _].
  destruct (g_deviation g) as [v|]; cbn [deviation_figure] in Hd; [|split; [done|]; intros (z'&d&s&_&Ed&Hs&_); by destruct (Hd d s Ed)].
  destruct Hd as (d&s&Ed&Hs&Rv&Ev). rewrite compare_gt_le, negb_true_iff, <-not_true_iff_false, (deviation_compare (m_price (m_reading s))) by (done || by eapply referenced_reduced).
  split; [intros Hx%Qnot_le_lt; by exists z, d, s|]. intros (z'&d'&s'&[= <-]&_&Hs'&Hlt). rewrite (referenced_unique _ _ _ Hs Hs'). by apply Qlt_not_le.
Qed.
Lemma triggers_exact s g : evaluate k (risk_pair k) = Ok (s, g) → ∃ l, approvalTriggers k (risk_pair k) g = Ok l ∧ (l ≠ [] ↔ review_due k).
Proof.
  intros E. unfold approvalTriggers, review_due. fold f a t. destruct (risk_pair k) as [p|] eqn:Ep.
  - rewrite <-Ep in E. destruct (evaluate_figures p s g Ep E) as [Hd Hn]. apply risk_pair_iff in Ep. destruct (pair_triggers_exact p g Ep Hd Hn) as (l&->&Hl). cbn [result_bind]. eexists. split; [done|].
    rewrite !app_not_nil, !singleton_if, !bool_decide_eq_true, Hl. rewrite (of_pair p Ep). done.
  - cbn [result_bind]. eexists. split; [done|]. rewrite !app_not_nil, !singleton_if, !bool_decide_eq_true. split; [|]; (intros [Hx|Hx]; [|by right]); [done|]. destruct Hx as (p&Hp%risk_pair_iff&_). congruence.
Qed.
End Verdicts_exact.

Section Exact.
Context `{LedgerHash} `{JsHost}.

Lemma intake_ok input k d g : intake input = Ok (Ok (k, d, g)) → context_ok k.
Proof.
  unfold intake. destruct (readIdentity _) as [[org principal]|]; [|done]. destruct (text_of _ _) as [action|]; [|done]. destruct (isTradeInstant _) eqn:Ei; cbn [negb]; [|done].
  destruct (validateTradeProposal _) as [[acc|]|] eqn:Ev; cbn [ranged result_bind]; try done. destruct (str_eqb _ org); cbn [negb]; [|done]. destruct (str_eqb _ principal); cbn [negb]; [|done].
  destruct (parseTradingRiskProfile _) as [pf|] eqn:Ep; [|done]. destruct (str_eqb _ org); cbn [negb]; [|done]. destruct (readGovernanceProfile _); [|done]. destruct (readPins _); [|done].
  intros [= <- _ _]. split; cbn [k_profile k_accepted k_at]; [by eapply profile_sound|eauto|by rewrite <-instant_text].
Qed.

(** C38. The evidence of a trading-risk assessment lists each of the sixteen
    controls once, in order. Its outcome is satisfied exactly when every control
    the profile does not switch off holds of the order and the trusted facts
    (scope, window, approved pair and side, exact limits on amount, price, band,
    deviation, notional and exposure, room for one more order, a delegation that
    may be relied on); it is violated exactly when some control is. The order is
    eligible exactly when the controls hold and nothing marks it for review, and
    needs approval exactly when they hold and something does: a review never
    lifts a prohibition. *)
Theorem risk_assessment_exact input k d g e : intake input = Ok (Ok (k, d, g)) → assessTradingRisk input = Ok (risk_assessed e) →
  r_control <$> ev_controls e = TRADING_RISK_CONTROLS ∧ (ev_outcome e = RISK_SATISFIED ↔ ∀ c, control_holds k c) ∧
  (ev_outcome e = RISK_VIOLATED ↔ ∃ r, r ∈ ev_controls e ∧ r_outcome r = CONTROL_VIOLATED) ∧
  (ev_disposition e = ELIGIBLE ↔ (∀ c, control_holds k c) ∧ ¬ review_due k) ∧ (ev_disposition e = APPROVAL_REQUIRED ↔ (∀ c, control_holds k c) ∧ review_due k).
Proof.
  intros Hi. pose proof (intake_ok _ _ _ _ Hi) as Hk. unfold assessTradingRisk. rewrite Hi. cbn [result_bind]. unfold assess_context. intros (e'&Ea&[= ->])%result_bind_Ok.
  apply result_bind_Ok in Ea as ([s fg]&Ev&Ea). cbn [fst snd] in Ea. destruct (controls_exact k Hk s fg Ev) as (Hc&Hs&Hv), (triggers_exact k Hk s fg Ev) as (l&El&Hl). rewrite El in Ea. cbn [result_bind] in Ea.
  apply result_bind_Ok in Ea as (dg&_&[= <-]). cbn [ev_controls ev_outcome ev_disposition]. split; [done|]. split; [done|]. split; [done|]. rewrite <-Hs, <-Hl.
  destruct (overall _ _ _); [destruct l as [|x l]|..]; cbn; naive_solver.
Qed.
End Exact.

(** ** A sell order assessed *)

Module AssessmentDemo.
Import TradeDemo.
#[local] Existing Instance DelegationDemo.clock_host.
Definition sample_pair (restricted : bool) : TradingPairRiskPolicy := {|
  pairId := "usd-xrp"; pair_base := issued "USD" issuer; pair_quote := xrp; sides := [sell]; maxBaseQuantity := "10.5"; maxGivenBuy := None; maxGivenSell := Some "100"%string; minSellPrice := Some (enforce (rational 19 10));
  maxBuyPrice := None; priceBand := enforce {| band_floor := rational 1 1; band_ceiling := rational 5 2 |}; referenceDeviation := enforce {| dp_maxBasisPoints := 500; dp_rule := symmetric |};
  pair_notional := enforce {| np_valuationAsset := xrp; np_maximum := "21" |}; pair_approval := {| ap_restricted := restricted; ap_notionalAbove := None; ap_deviationAboveBasisPoints := Some 100 |} |}.
Definition sample_profile (restricted : bool) (ceiling : string) : ProfileBody := {|
  f_organizationId := "org-1"; profileId := "desk"; profileVersion := 3; profile_status := profile_active; effectiveFrom := "2026-01-01T00:00:00.000Z"; expiresAt := "2026-01-20T00:00:00.000Z"; f_action := "trade.offer-create";
  f_network := xrp_ledger_testnet; ownerAccounts := [owner]; delegateAccounts := [delegate]; allowedFlags := [passive; sell_flag]; factProvenance := operational_only; assessmentMaxAgeSeconds := 60;
  f_delegation := {| policy_sourceId := "node-1"; policy_maxAgeSeconds := 60 |}; marketReference := enforce {| mr_sourceIds := ["feed-1"%string]; mr_conventions := [mid]; mr_maxAgeSeconds := 30 |};
  f_exposure := enforce {| ep_riskBucket := "spot"; ep_denomination := xrp; ep_ceiling := ceiling; ep_sourceIds := ["book"%string]; ep_maxAgeSeconds := 30 |};
  f_activeOrders := switched_off "no-order-feed"; sensitiveOwners := []; sensitiveDelegates := []; f_pairs := [sample_pair restricted] |}.
Definition sample_exposure : JsValue :=
  let data := exposureData {| x_common := {| c_sourceId := "book"; c_organizationId := "org-1"; c_network := xrp_ledger_testnet; c_validatedLedgerIndex := 900; c_complete := true; c_observedAt := "2026-01-05T10:00:10.000Z"; c_maxAgeSeconds := 60;
      c_sourceReference := "ref-1"; c_provenance := {| pv_kind := operational; pv_method := "ledger" |} |}; x_ownerAccount := owner; x_riskBucket := "spot"; x_denomination := xrp;
    x_currentExposure := "10"; x_pendingExposure := "5.5"; x_activeOrderExposure := "3.5"; x_capacityRemaining := "40" |} in
  match tradeRiskDigest TRADE_EXPOSURE_SNAPSHOT_DIGEST_DOMAIN (js_of (JObj data)) with Ok d => js_of (JObj (data ++ [("digest"%string, JTxt d)])) | Throw _ => JsUndefined end.
Definition sample_risk_input (restricted : bool) (ceiling : string) (delegation : JsValue) : TradingRiskAssessmentInput := {|
  in_proposal := ProposalDemo.raw_offer; in_identity := ProposalDemo.identity; in_binding := ProposalDemo.binding; in_profile := js_of (JObj (tradingRiskProfileData (sample_profile restricted ceiling)));
  in_delegation := delegation; in_marketPrices := prices_listed (sealed_snapshot <$> omap FactsDemo.sealed_at [rational 2 1]); in_exposure := sample_exposure; in_activeOrders := JsUndefined;
  in_pins := JsUndefined; in_governanceProfile := JsUndefined; in_assessedAt := JsString "2026-01-05T10:00:25.000Z" |}.
Definition outcome_of (input : TradingRiskAssessmentInput) : option (TradingRiskOutcome * TradingRiskDisposition) :=
  match assessTradingRisk input with Ok (risk_assessed e) => Some (ev_outcome e, ev_disposition e) | _ => None end.
Definition delegation_record : JsValue := assessment_object DelegationDemo.granted_assessment.
(** Within every bound, the exposure ceiling included, the order is eligible; a
    restricted pair needs approval; one unit less of ceiling prohibits it; without
    delegation evidence it is withheld. *)
Example dispositions : outcome_of (sample_risk_input false "40" delegation_record) = Some (RISK_SATISFIED, ELIGIBLE) ∧ outcome_of (sample_risk_input true "40" delegation_record) = Some (RISK_SATISFIED, APPROVAL_REQUIRED) ∧
  outcome_of (sample_risk_input true "39.9" delegation_record) = Some (RISK_VIOLATED, PROHIBITED) ∧ outcome_of (sample_risk_input false "40" JsUndefined) = Some (RISK_UNAVAILABLE, WITHHELD).
Proof. vm_compute. split_and!; reflexivity. Qed.
(** A delegation record that may be relied on, with a negative zero in the
    diagnostic its digest leaves out, makes the assessment throw; so does an
    exposure object without a provenance. *)
Definition diagnosed_record : JsValue := match delegation_record with JsObject plain properties => JsObject plain (properties ++ [("diagnostic"%string, JsNum JNegZero)]) | v => v end.
Example assessment_throws : assessTradingRisk (sample_risk_input false "40" diagnosed_record) = Throw thrown_type.
Proof. vm_compute. reflexivity. Qed.

Definition blank_context : RiskContext := {|
  k_profile := sample_profile false ""; k_accepted := ProposalDemo.sample_accepted; k_at := ""; k_action := ""; k_prices := None; k_delegation := JsUndefined; k_exposure := JsUndefined; k_orders := JsUndefined; k_minimumLedger := None |}.
Definition sample_taken : RiskContext * string * option (string * Z) :=
  Eval vm_compute in match intake (sample_risk_input false "40" delegation_record) with Ok (Ok taken) => taken | _ => (blank_context, ""%string, None) end.
Definition sample_evidence : TradingRiskAssessmentEvidence :=
  Eval vm_compute in match assessTradingRisk (sample_risk_input false "40" delegation_record) with
    Ok (risk_assessed e) => e | _ => {| ev_outcome := RISK_VIOLATED; ev_disposition := PROHIBITED; ev_approvalTriggers := []; ev_controls := []; ev_body := JsUndefined; ev_digest := "" |} end.
Lemma risk_assessment_exact_witness : control_holds sample_taken.1.1 EXPOSURE_CEILING.
Proof.
  destruct (risk_assessment_exact (sample_risk_input false "40" delegation_record) sample_taken.1.1 sample_taken.1.2 sample_taken.2 sample_evidence) as (_&Hs&_); [vm_compute; reflexivity..|].
  apply (proj1 Hs eq_refl).
Defined.
End AssessmentDemo.
