(* ===== verification/TradeReliance.v ===== *)
(** * Relying on trading-risk evidence

    Model of trade-runtime/policy/trade-risk-reliance.ts: whether evidence may be
    relied on at an instant for one proposal under the profile in force, until
    when, and the readings a trusted context provider may state from it. *)

From S2P Require Import Prelude Decimal Js JsMap StableJson HashChain Parameters AdapterPort RailAmounts TradeDomain TradeProposal TradeDelegation TradeRisk TradeFacts TradeProfile TradeAssessment.

Local Open Scope Z_scope.
Local Open Scope frontera_scope.

Inductive TradingRiskRelianceRefusal :=
  | RR_EXPECTATION_INVALID | RR_MALFORMED | RR_DIGEST_MISMATCH | RR_NOT_SATISFIED | RR_ORGANIZATION_MISMATCH | RR_PROPOSAL_MISMATCH | RR_PROFILE_MISMATCH | RR_PROFILE_NOT_IN_FORCE | RR_GOVERNANCE_PROFILE_MISMATCH
  | RR_CONTROLS_INCOMPLETE | RR_SOURCE_NOT_ACCEPTED | RR_SIMULATED_NOT_ACCEPTED | RR_FROM_FUTURE | RR_STALE | RR_FACT_STALE.
(** An expectation, a record; what it pins of the governance profile is read as an
    object of two fields, or absent. *)
Record TradingRiskRelianceExpectation := { y_proposal : JsValue; y_profile : JsValue; y_at : JsValue; y_governanceProfile : option (JsValue * JsValue); y_readingAt : JsValue }.
Record TradingRiskReliance := { l_disposition : TradingRiskDisposition; l_evidenceDigest : string; l_validUntilMs : Z }.

Section Checking.
Context `{LedgerHash} `{JsHost}.

Definition sourceAccepted (f : ProfileBody) (key : string) (sourceId : JsValue) : bool :=
  match sourceId with
  | JsString id =>
      if bool_decide (key ∈ ["reference"; "valuation"; "exposureValuation"]%string) then match marketReference f with enforce m => bool_decide (id ∈ mr_sourceIds m) | switched_off _ => false end
      else if str_eqb key "exposure" then match f_exposure f with enforce e => bool_decide (id ∈ ep_sourceIds e) | switched_off _ => false end
      else if str_eqb key "activeOrders" then match f_activeOrders f with enforce o => bool_decide (id ∈ op_sourceIds o) | switched_off _ => false end
      else if str_eqb key "delegation" then str_eqb (policy_sourceId (f_delegation f)) id
      else false
  | _ => false
  end.
Definition permits_simulated (f : ProfileBody) : bool := match factProvenance f with simulated_permitted => true | operational_only => false end.

(** The recorded controls, each the expected one and satisfied, or switched off
    as the profile sanctions. *)
Fixpoint controls_complete (disabled : list TradingRiskControlId) (ids : list TradingRiskControlId) (controls : list JsValue) : bool :=
  match ids, controls with
  | [], [] => true
  | id :: ids, v :: controls =>
      match plain_record v with
      | Some control =>
          is_text (control_name id) (get "control" control) &&
          (is_text "SATISFIED" (get "outcome" control) && negb (bool_decide (id ∈ disabled)) || is_text "DISABLED" (get "outcome" control) && bool_decide (id ∈ disabled)) && controls_complete disabled ids controls
      | None => false
      end
  | _, _ => false
  end.
Fixpoint check_sources (f : ProfileBody) (sources : list (string * JsValue)) : result TradingRiskRelianceRefusal unit :=
  match sources with
  | [] => Ok tt
  | (key, v) :: sources =>
      match plain_record v with
      | Some source =>
          guard* sourceAccepted f key (get "sourceId" source) else RR_SOURCE_NOT_ACCEPTED in
          guard* negb (is_text "simulated" (get "provenance" source) && negb (permits_simulated f)) else RR_SIMULATED_NOT_ACCEPTED in
          check_sources f sources
      | None => Throw RR_SOURCE_NOT_ACCEPTED
      end
  end.
(** Every fact fresh, and the earliest end of their freshness. *)
Fixpoint check_freshness (at_ : string) (entries : list JsValue) (validUntilMs : Z) : result TradingRiskRelianceRefusal Z :=
  match entries with
  | [] => Ok validUntilMs
  | v :: entries =>
      match plain_record v with
      | Some fact =>
          let maxAge := get "maxAgeSeconds" fact in
          let observedAt := get "observedAt" fact in
          guard* isSafeIntegerIn maxAge 1 31536000 && isTradeInstant observedAt else RR_MALFORMED in
          match freshnessAt observedAt (as_number maxAge) at_ with
          | future => Throw RR_FROM_FUTURE
          | fresh => let expiresMs := instant_ms (as_text observedAt) + as_number maxAge * 1000 in check_freshness at_ entries (if expiresMs <? validUntilMs then expiresMs else validUntilMs)
          | _ => Throw RR_FACT_STALE
          end
      | None => Throw RR_MALFORMED
      end
  end.

Definition reliable_disposition (v : JsValue) : option TradingRiskDisposition :=
  if is_text "ELIGIBLE" v then Some ELIGIBLE else if is_text "APPROVAL_REQUIRED" v then Some APPROVAL_REQUIRED else None.

(** What the record must say of this proposal and this profile. *)
Definition check_bindings (copy : list (string * JsValue)) (a : AcceptedTradeProposal) (pf : TradingRiskProfile) (governance : option (JsValue * JsValue)) (at_ : string) : result TradingRiskRelianceRefusal unit :=
  let p := proposal a in let f := f_body pf in
  guard* is_text (organizationId p) (get "organizationId" copy) && str_eqb (f_organizationId f) (organizationId p) else RR_ORGANIZATION_MISMATCH in
  guard* is_text (digest a) (get "proposalDigest" copy) && is_text (principalId p) (get "principalId" copy) && is_text (requestId p) (get "requestId" copy) && is_text (network_name (network p)) (get "network" copy) &&
         is_text (ownerAccount p) (get "ownerAccount" copy) && is_text (delegateAccount p) (get "delegateAccount" copy) && is_text (side_name (side (terms a))) (get "side" copy) else RR_PROPOSAL_MISMATCH in
  guard* match plain_record (get "riskProfile" copy) with
         | Some r => is_text (profileId f) (get "profileId" r) && is_number (profileVersion f) (get "profileVersion" r) && is_text (f_digest pf) (get "digest" r)
         | None => false
         end else RR_PROFILE_MISMATCH in
  guard* match governance with
         | None => true
         | Some (id, version) => match plain_record (get "governanceProfile" copy) with Some r => strict_equals (get "id" r) id && strict_equals (get "version" r) version | None => false end
         end else RR_GOVERNANCE_PROFILE_MISMATCH in
  let inWindow := (0 <=? millisecondsBetween (effectiveFrom f) at_) && (0 <? millisecondsBetween at_ (expiresAt f)) in
  guard* bool_decide (profile_status f = profile_active) && inWindow && is_text (f_action f) (get "action" copy) && bool_decide (f_network f = network p) else RR_PROFILE_NOT_IN_FORCE in
  Ok tt.
Definition check_controls (copy : list (string * JsValue)) (a : AcceptedTradeProposal) (f : ProfileBody) : result TradingRiskRelianceRefusal unit :=
  let t := terms a in
  match tradingPairPolicyFor f (base t) (quote t), plain_record (get "pair" copy) with
  | Some policy, Some texts =>
      guard* is_text (tradeAssetToken (base t)) (get "base" texts) && is_text (tradeAssetToken (quote t)) (get "quote" texts) else RR_CONTROLS_INCOMPLETE in
      match plainList (get "controls" copy) (Z.of_nat (length TRADING_RISK_CONTROLS)) with
      | Some controls => guard* controls_complete (tradingRiskDisabledControls f (Some policy) (side t)) TRADING_RISK_CONTROLS controls else RR_CONTROLS_INCOMPLETE in Ok tt
      | None => Throw RR_CONTROLS_INCOMPLETE
      end
  | _, _ => Throw RR_CONTROLS_INCOMPLETE
  end.
Definition check_provenance (copy : list (string * JsValue)) (f : ProfileBody) : result TradingRiskRelianceRefusal unit :=
  match plain_record (get "sources" copy) with
  | None => Throw RR_MALFORMED
  | Some sources =>
      let* _ := check_sources f sources in
      guard* match get "simulatedFacts" copy with JsBool false => true | _ => permits_simulated f end else RR_SIMULATED_NOT_ACCEPTED in
      Ok tt
  end.
(** The end of the record's own validity and of every fact's. *)
Definition check_time (copy : list (string * JsValue)) (f : ProfileBody) (at_ : string) : result TradingRiskRelianceRefusal Z :=
  let assessedAt := get "assessedAt" copy in
  let recordedBound := get "relianceMaxAgeSeconds" copy in
  guard* isTradeInstant assessedAt && isSafeIntegerIn recordedBound 1 300 else RR_MALFORMED in
  let age := millisecondsBetween (as_text assessedAt) at_ in
  guard* 0 <=? age else RR_FROM_FUTURE in
  let bound := if as_number recordedBound <? assessmentMaxAgeSeconds f then as_number recordedBound else assessmentMaxAgeSeconds f in
  guard* age <=? bound * 1000 else RR_STALE in
  match plainList (get "freshness" copy) 16 with
  | None => Throw RR_MALFORMED
  | Some entries =>
      let* validUntilMs := check_freshness at_ entries (instant_ms (as_text assessedAt) + bound * 1000) in
      let profileEnd := instant_ms (expiresAt f) in
      Ok (if profileEnd <? validUntilMs then profileEnd else validUntilMs)
  end.

(** Validation never throws, so a proposal is accepted or refused. *)
Definition expected_parts (x : TradingRiskRelianceExpectation) : option (AcceptedTradeProposal * TradingRiskProfile) :=
  match validateTradeProposal (y_proposal x), parseTradingRiskProfile (y_profile x) with Ok (proposal_valid a), Ok pf => Some (a, pf) | _, _ => None end.
Definition checkTradingRiskReliance (evidence : JsValue) (x : TradingRiskRelianceExpectation) : result TradingRiskRelianceRefusal TradingRiskReliance :=
  guard* isTradeInstant (y_at x) else RR_EXPECTATION_INVALID in
  match expected_parts x with
  | None => Throw RR_EXPECTATION_INVALID
  | Some (a, pf) =>
      let at_ := as_text (y_at x) in
      match plainRiskData evidence with
      | Some (JsObject true _) =>
          match unsealRiskRecord TRADING_RISK_ASSESSMENT_DIGEST_DOMAIN evidence with
          | None => Throw RR_DIGEST_MISMATCH
          | Some copy =>
              guard* is_text TRADING_RISK_ASSESSMENT_SCHEMA (get "schema" copy) else RR_MALFORMED in
              guard* is_text "SATISFIED" (get "outcome" copy) else RR_NOT_SATISFIED in
              match reliable_disposition (get "disposition" copy) with
              | None => Throw RR_NOT_SATISFIED
              | Some disposition =>
                  let* _ := check_bindings copy a pf (y_governanceProfile x) at_ in
                  let* _ := check_controls copy a (f_body pf) in
                  let* _ := check_provenance copy (f_body pf) in
                  let* validUntilMs := check_time copy (f_body pf) at_ in
                  Ok {| l_disposition := disposition; l_evidenceDigest := as_text (get "digest" copy); l_validUntilMs := validUntilMs |}
              end
          end
      | _ => Throw RR_MALFORMED
      end
  end.

(** ** Readings *)

Record TradeContextQueryBinding := { query_action : string; query_resourceScope : string; query_organizationId : string }.
Definition queryMatches (q : TradeContextQueryBinding) (action resource organization : string) : bool := str_eqb (query_action q) action && str_eqb (query_resourceScope q) resource && str_eqb (query_organizationId q) organization.
Definition wholeSecondsBetween (fromMs toMs : Z) : Z := let difference := toMs - fromMs in Z.quot (difference - Z.rem difference 1000) 1000.
(** The instant readings are stated at: never after the facts were relied on. *)
Definition readingInstantOf (at_ : string) (readingAt : JsValue) : option string :=
  match readingAt with
  | JsUndefined => Some at_
  | JsString r => if isTradeInstant readingAt then if instant_ms r <=? instant_ms at_ then Some r else None else None
  | _ => None
  end.
Inductive ReadingValue := value_text (s : string) | value_flag (b : bool).
Record TradeContextReading := { reading_key : string; reading_value : ReadingValue; reading_observedAt : string; reading_maxAgeSeconds : Z; reading_reference : string }.
Inductive ProjectionRefusal := projection_refused (code : TradingRiskRelianceRefusal) | QUERY_MISMATCH | delegation_refused (code : TradeDelegationRelianceRefusal) | DELEGATION_NOT_RELIABLE.

Definition TRADE_INTENT_BINDING_FACTS : list (string * string) :=
  [("tradeProposalDigest", "trade.risk.assessedProposal"); ("tradeNetwork", "trade.risk.assessedNetwork"); ("tradeDelegateAccount", "trade.risk.assessedDelegate"); ("tradeBaseAsset", "trade.risk.assessedBaseAsset");
   ("tradeQuoteAsset", "trade.risk.assessedQuoteAsset"); ("tradeSide", "trade.risk.assessedSide"); ("tradeQuantity", "trade.risk.assessedQuantity")]%string.
Definition compiledIntentOf (p : TradeProposal) (action : string) : option TradeGovernedActionIntent :=
  match createTradeGovernanceBinding (JsObject true [("action"%string, JsString action)]) with
  | Throw _ => None
  | Ok binding =>
      match compileTradeProposal (proposal_object p) (JsObject true [("action"%string, JsString (binding_action binding))]) (JsObject true [("organizationId"%string, JsString (organizationId p)); ("principalId"%string, JsString (principalId p))]) JsUndefined with
      | Ok c => Some (intent c)
      | Throw _ => None
      end
  end.
Definition projected_readings (i : TradeGovernedActionIntent) (f : ProfileBody) (r : TradingRiskReliance) (observedAt : string) (maxAgeSeconds : Z) : list TradeContextReading :=
  let reading key v := {| reading_key := key; reading_value := v; reading_observedAt := observedAt; reading_maxAgeSeconds := maxAgeSeconds; reading_reference := l_evidenceDigest r |} in
  ((λ d, reading d.2 (value_text (default ""%string (map_get d.1 (intent_parameters i))))) <$> TRADE_INTENT_BINDING_FACTS) ++
  [reading "trade.risk.assessedAmount" (value_text (intent_value i)); reading "trade.risk.assessedAsset" (value_text (intent_currency i)); reading "trade.risk.profile" (value_text (tradingRiskProfileReference f));
   reading "trade.risk.approvalRequired" (value_flag (match l_disposition r with APPROVAL_REQUIRED => true | _ => false end))].
Definition tradingRiskContextReadings (evidence : JsValue) (x : TradingRiskRelianceExpectation) (query : TradeContextQueryBinding) : result ProjectionRefusal (list TradeContextReading) :=
  match checkTradingRiskReliance evidence x with
  | Throw code => Throw (projection_refused code)
  | Ok reliance =>
      match expected_parts x with
      | None => Throw (projection_refused RR_EXPECTATION_INVALID)
      | Some (a, pf) =>
          guard* queryMatches query (f_action (f_body pf)) (tradeResourceOf a) (organizationId (proposal a)) else QUERY_MISMATCH in
          match readingInstantOf (as_text (y_at x)) (y_readingAt x) with
          | None => Throw (projection_refused RR_EXPECTATION_INVALID)
          | Some readingAt =>
              guard* 1 <=? wholeSecondsBetween (instant_ms (as_text (y_at x))) (l_validUntilMs reliance) else projection_refused RR_STALE in
              let maxAgeSeconds := wholeSecondsBetween (instant_ms readingAt) (l_validUntilMs reliance) in
              match compiledIntentOf (proposal a) (f_action (f_body pf)) with
              | None => Throw (projection_refused RR_EXPECTATION_INVALID)
              | Some i =>
                  guard* match map_get "tradeProposalDigest" (intent_parameters i) with Some d => str_eqb d (digest a) | None => false end else projection_refused RR_EXPECTATION_INVALID in
                  Ok (projected_readings i (f_body pf) reliance readingAt maxAgeSeconds)
              end
          end
      end
  end.

(** The delegation reading: the proposal's digest, while the observation is fresh.
    A record that may be relied on but is no plain data throws. *)
Record DelegationExpectation := { z_proposal : JsValue; z_at : JsValue; z_policy : TradeDelegationPolicy; z_action : string; z_readingAt : JsValue }.
Definition tradeDelegationContextReading (assessment : JsValue) (x : DelegationExpectation) (query : TradeContextQueryBinding) : result Thrown (result ProjectionRefusal TradeContextReading) :=
  if negb (isTradeInstant (z_at x)) then Ok (Throw (projection_refused RR_EXPECTATION_INVALID))
  else
    let* validation := ranged (validateTradeProposal (z_proposal x)) in
    match validation with
    | proposal_refused _ => Ok (Throw (projection_refused RR_EXPECTATION_INVALID))
    | proposal_valid a =>
        if negb (queryMatches query (z_action x) (tradeResourceOf a) (organizationId (proposal a))) then Ok (Throw QUERY_MISMATCH)
        else
          let at_ := as_text (z_at x) in
          match checkTradeDelegationReliance assessment {| x_proposal := proposal a; x_proposalDigest := digest a; x_at := at_; x_policy := policy_object (z_policy x) |} with
          | Throw code => Ok (Throw (delegation_refused code))
          | Ok _ =>
              match plainRiskData assessment with
              | None => Throw thrown_type
              | Some copy =>
                  let timing := property "timing" copy in
                  let recorded := as_number (property "maxAgeSeconds" timing) in
                  let bound := if recorded <? policy_maxAgeSeconds (z_policy x) then recorded else policy_maxAgeSeconds (z_policy x) in
                  match readingInstantOf at_ (z_readingAt x) with
                  | None => Ok (Throw (projection_refused RR_EXPECTATION_INVALID))
                  | Some readingAt =>
                      let freshUntilMs := instant_ms (as_text (property "observedAt" timing)) + bound * 1000 in
                      if (wholeSecondsBetween (instant_ms at_) freshUntilMs <? 1) || negb (isTradeIdentifier (policy_sourceId (z_policy x))) then Ok (Throw DELEGATION_NOT_RELIABLE)
                      else Ok (Ok {| reading_key := "trade.delegation.offercreate"; reading_value := value_text (digest a); reading_observedAt := readingAt;
                                     reading_maxAgeSeconds := wholeSecondsBetween (instant_ms readingAt) freshUntilMs; reading_reference := as_text (property "digest" copy) |})
                  end
              end
          end
    end.
End Checking.

(** ** How long reliance lasts *)

Section Horizon.
Context `{LedgerHash} `{JsHost}.

(** A record relied on at one instant is relied on at a later one exactly while
    nothing it rests on has run out. *)
Lemma freshness_later at_ at' entries v u : isTradeInstant (JsString at_) = true → isTradeInstant (JsString at') = true → instant_ms at_ ≤ instant_ms at' → check_freshness at_ entries v = Ok u → u ≤ v ∧
  if decide (instant_ms at' ≤ u) then check_freshness at' entries v = Ok u else instant_ms at' ≤ v → ∃ code, check_freshness at' entries v = Throw code.
Proof.
  intros Hi Hi' Hle. revert v. induction entries as [|e entries IH]; intros v E; cbn [check_freshness] in *.
  { injection E as <-. split; [lia|]. destruct (decide _); [done|lia]. }
  destruct (plain_record e) as [fact|]; [|done]. apply guard_Ok in E as [Hg E]. rewrite Hg. cbn [result_bind]. apply andb_true_iff in Hg as [Hm Ho].
  destruct (get "observedAt" fact) as [| | | |o| | | |] eqn:Eo; try done. cbn [as_text] in *. set (m := as_number (get "maxAgeSeconds" fact)) in *.
  destruct (freshnessAt (JsString o) m at_) eqn:Ef; try done. pose proof (freshnessAt_fresh o m at_) as [Hf _]. destruct (Hf Ef) as (_&_&Hm'&Hage).
  pose proof (freshnessAt_fresh o m at') as Hf'. apply IH in E as [Hu E]. set (w := if instant_ms o + m * 1000 <? v then instant_ms o + m * 1000 else v) in *.
  assert (w ≤ v ∧ w ≤ instant_ms o + m * 1000) as [Hw1 Hw2] by (unfold w; destruct (Z.ltb_spec (instant_ms o + m * 1000) v); lia). split; [lia|]. destruct (decide (instant_ms at' ≤ u)) as [Hl|Hl].
  - rewrite (proj2 Hf') by (split_and!; done || lia). exact E.
  - intros Hv. destruct (freshnessAt (JsString o) m at') eqn:Ef'; [|by eexists..]. apply E. destruct (proj1 Hf' eq_refl) as (_&_&_&?). unfold w. destruct (Z.ltb_spec (instant_ms o + m * 1000) v); lia.
Qed.

Definition at_instant (x : TradingRiskRelianceExpectation) (at_ : string) : TradingRiskRelianceExpectation := {|
  y_proposal := y_proposal x; y_profile := y_profile x; y_at := JsString at_; y_governanceProfile := y_governanceProfile x; y_readingAt := y_readingAt x |}.
Lemma bindings_later copy a pf g at_ at' : instant_ms at_ ≤ instant_ms at' → check_bindings copy a pf g at_ = Ok tt → check_bindings copy a pf g at' = Ok tt ↔ instant_ms at' < instant_ms (expiresAt (f_body pf)).
Proof.
  intros Hle. unfold check_bindings, millisecondsBetween. cbv zeta. rewrite !guard_Ok, !andb_true_iff, !Z.leb_le, !Z.ltb_lt, !bool_decide_eq_true. intuition lia.
Qed.
Lemma time_later copy f at_ at' u : isTradeInstant (JsString at_) = true → isTradeInstant (JsString at') = true → instant_ms at_ ≤ instant_ms at' → check_time copy f at_ = Ok u → u ≤ instant_ms (expiresAt f) ∧
  (∀ u', check_time copy f at' = Ok u' → u' = u ∧ (instant_ms at' ≤ u ∨ instant_ms (expiresAt f) < instant_ms at')) ∧ (instant_ms at' ≤ u → check_time copy f at' = Ok u).
Proof.
  intros Hi Hi' Hle. unfold check_time, millisecondsBetween. cbv zeta. set (b := if _ <? assessmentMaxAgeSeconds f then _ else _). set (v := instant_ms (as_text (get "assessedAt" copy)) + b * 1000).
  rewrite !guard_Ok, !Z.leb_le. intros (Hg&Ha0&Ha1&E). destruct (plainList _ 16) as [entries|]; [|done]. apply result_bind_Ok in E as (w&Ew&Eu). apply Ok_eq in Eu. destruct (freshness_later _ _ _ _ _ Hi Hi' Hle Ew) as [Hw Hl].
  assert (u ≤ w ∧ u ≤ instant_ms (expiresAt f) ∧ (u = w ∨ u = instant_ms (expiresAt f))) as (Hu1&Hu2&Hu3) by (rewrite <-Eu; destruct (Z.ltb_spec (instant_ms (expiresAt f)) w); lia). split; [done|]. split.
  - intros u'. rewrite !guard_Ok, !Z.leb_le. intros (_&_&H3&E). apply result_bind_Ok in E as (w'&Ew'&Eu'). apply Ok_eq in Eu'. destruct (decide (instant_ms at' ≤ w)) as [Hd|Hd].
    + rewrite Hl in Ew'. apply Ok_eq in Ew'. subst w'. split; [congruence|]. lia.
    + destruct Hl as [code Hl]; [lia|]. congruence.
  - intros Hat. destruct (decide (instant_ms at' ≤ w)) as [Hd|]; [|lia]. rewrite Hl. cbn [result_bind]. rewrite Eu. split; [done|]. split; [lia|]. split; [lia|done].
Qed.

(** Evidence relied on at one instant says exactly how long: at any later
    instant it is relied on again, with the same answer, precisely when that
    instant is not past the end it stated and the profile has not expired. The
    stated end is never after the profile's own. *)
Theorem reliance_horizon_exact evidence x r at' : checkTradingRiskReliance evidence x = Ok r → isTradeInstant (JsString at') = true → instant_ms (as_text (y_at x)) ≤ instant_ms at' →
  ∃ a pf, expected_parts x = Some (a, pf) ∧ l_validUntilMs r ≤ instant_ms (expiresAt (f_body pf)) ∧ (∀ r', checkTradingRiskReliance evidence (at_instant x at') = Ok r' → r' = r) ∧
    (checkTradingRiskReliance evidence (at_instant x at') = Ok r ↔ instant_ms at' ≤ l_validUntilMs r ∧ instant_ms at' < instant_ms (expiresAt (f_body pf))).
Proof.
  intros E Hi' Hle. unfold checkTradingRiskReliance in *. cbn [y_at y_governanceProfile at_instant as_text]. change (expected_parts (at_instant x at')) with (expected_parts x). rewrite Hi'. cbn [result_bind].
  apply guard_Ok in E as [Hi E]. destruct (expected_parts x) as [[a pf]|]; [|done]. exists a, pf. split; [done|]. destruct (plainRiskData evidence) as [[| | | | | |[] ps| |]|]; try done.
  destruct (unsealRiskRecord _ evidence) as [copy|]; [|done]. apply guard_Ok in E as [Hs E]. apply guard_Ok in E as [Ho E]. rewrite Hs, Ho. destruct (reliable_disposition _) as [d|]; [|done].
  apply result_bind_Ok in E as ([]&Eb&E). apply result_bind_Ok in E as ([]&Ec&E). apply result_bind_Ok in E as ([]&Ep&E). apply result_bind_Ok in E as (u&Et&E). apply Ok_eq in E as <-.
  rewrite (instant_text _ Hi) in Hi. pose proof (bindings_later _ _ _ _ _ _ Hle Eb) as Hb. destruct (time_later _ _ _ _ _ Hi Hi' Hle Et) as (Hu&Ht1&Ht2). cbn [l_validUntilMs]. split; [done|].
  rewrite Ec, Ep. cbn [result_bind]. split.
  - intros r' (?&Eb'&E)%result_bind_Ok. apply result_bind_Ok in E as (u'&Eu'&E). apply Ok_eq in E as <-. apply Ht1 in Eu' as [-> _]. done.
  - split.
    + intros ([]&Eb'&E)%result_bind_Ok. apply result_bind_Ok in E as (u'&Eu'&_). apply Hb in Eb'. apply Ht1 in Eu' as [-> ?]. lia.
    + intros [H1 H2]. rewrite (proj2 Hb H2), (Ht2 H1). done.
Qed.

(** ** What the readings say *)

Lemma whole_seconds a b : a ≤ b → wholeSecondsBetween a b = (b - a) / 1000.
Proof. intros Hle. unfold wholeSecondsBetween. rewrite Z.rem_mod_nonneg, Z.quot_div_nonneg by (pose proof (Z.mod_le (b - a) 1000); lia). rewrite (Z.div_mod (b - a) 1000) at 1 by lia. rewrite Z.add_simpl_r, Z.mul_comm. by apply Z.div_mul. Qed.
Lemma whole_second a b : 1 ≤ wholeSecondsBetween a b ↔ a + 1000 ≤ b.
Proof.
  destruct (Z.le_gt_cases a b) as [Hle|Hgt].
  - rewrite whole_seconds by done. split; intros Hx; [pose proof (Z.mul_div_le (b - a) 1000); lia|]. apply Z.div_le_lower_bound; lia.
  - unfold wholeSecondsBetween. pose proof (Z.rem_nonpos (b - a) 1000). assert (Z.quot (b - a - Z.rem (b - a) 1000) 1000 ≤ 0); [|lia].
    rewrite (Z.quot_rem' (b - a) 1000) at 1. rewrite Z.add_simpl_r, Z.mul_comm, Z.quot_mul by lia. pose proof (Z.quot_opp_l (a - b) 1000). pose proof (Z.quot_pos (a - b) 1000). replace (b - a) with (- (a - b)) by lia. lia.
Qed.
(** An accepted proposal compiles, to the intent of what was accepted. *)
Lemma compiled_intent raw a action : validateTradeProposal raw = Ok (proposal_valid a) → isTradeIdentifier action = true → compiledIntentOf (proposal a) action = Some (intent_of action None a).
Proof.
  intros (Hc&Ht&Hd)%validate_inv Ha. pose proof (cp_identifiers _ Hc) as Hi. inversion_clear Hi as [|? ? H1 Hi']. inversion_clear Hi' as [|? ? H2 _].
  assert (∀ s, isTradeIdentifier s = true → text_of isTradeIdentifier (JsString s) = Some s) as Hx by (intros s E; cbn [text_of]; by rewrite E).
  assert (∀ s, record_property "action" (JsObject true [("action"%string, JsString s)]) = JsString s) as Hr by done. unfold compiledIntentOf, createTradeGovernanceBinding, compileTradeProposal. rewrite Hr, Hx by done. cbn [binding_action].
  rewrite Hr, Hx by done. change (record_property "organizationId" _) with (JsString (organizationId (proposal a))). change (record_property "principalId" _) with (JsString (principalId (proposal a))). rewrite !Hx by done.
  rewrite (validate_proposal_object _ _ _ Hc Ht Hd). cbn [proposal]. rewrite !str_eqb_refl. cbn [app readEnvelope intent]. by destruct a.
Qed.
Lemma reading_instant at_ r v : isTradeInstant (JsString at_) = true → readingInstantOf at_ v = Some r → isTradeInstant (JsString r) = true ∧ instant_ms r ≤ instant_ms at_.
Proof. intros Hi. unfold readingInstantOf. destruct v; try done; [intros [= <-]; split; [done|lia]|]. destruct (isTradeInstant (JsString s)) eqn:E; [|discriminate]. destruct (Z.leb_spec (instant_ms s) (instant_ms at_)); [|discriminate]. by intros [= <-]. Qed.

(** Readings are stated exactly when the evidence may be relied on now for this
    proposal and profile, the query is the action, resource and organization
    they name, the reading instant is not after the instant of reliance, and at
    least a second of validity remains. They are then the compiled intent's own
    parameters, amount and asset, the profile, and whether approval is required;
    their window opens no later than the instant of reliance, is still open
    then, and closes no later than the evidence does. *)
Theorem risk_readings_exact evidence x query l :
  tradingRiskContextReadings evidence x query = Ok l ↔ ∃ a pf r readingAt maxAge, expected_parts x = Some (a, pf) ∧ checkTradingRiskReliance evidence x = Ok r ∧
    query = {| query_action := f_action (f_body pf); query_resourceScope := tradeResourceOf a; query_organizationId := organizationId (proposal a) |} ∧
    readingInstantOf (as_text (y_at x)) (y_readingAt x) = Some readingAt ∧ instant_ms (as_text (y_at x)) + 1000 ≤ l_validUntilMs r ∧
    l = projected_readings (intent_of (f_action (f_body pf)) None a) (f_body pf) r readingAt maxAge ∧
    instant_ms readingAt ≤ instant_ms (as_text (y_at x)) < instant_ms readingAt + maxAge * 1000 ∧ l_validUntilMs r - 1000 < instant_ms readingAt + maxAge * 1000 ≤ l_validUntilMs r.
Proof.
  unfold tradingRiskContextReadings. destruct (checkTradingRiskReliance evidence x) as [r|] eqn:Ec; [|split; [done|by intros (?&?&?&?&?&_&?&_)]].
  assert (isTradeInstant (JsString (as_text (y_at x))) = true) as Hi. { unfold checkTradingRiskReliance in Ec. apply guard_Ok in Ec as [Hi _]. by rewrite (instant_text _ Hi) in Hi. }
  destruct (expected_parts x) as [[a pf]|] eqn:Ex; [|split; [done|by intros (?&?&?&?&?&?&_)]].
  assert (compiledIntentOf (proposal a) (f_action (f_body pf)) = Some (intent_of (f_action (f_body pf)) None a)) as ->.
  { unfold expected_parts in Ex. destruct (validateTradeProposal (y_proposal x)) as [[a'|]|] eqn:Ev; try done. destruct (parseTradingRiskProfile _) as [pf'|] eqn:Ep; [|done]. injection Ex as -> ->.
    eapply compiled_intent; [exact Ev|]. by apply profile_sound in Ep as []. }
  assert (∀ q : TradeContextQueryBinding, queryMatches q (f_action (f_body pf)) (tradeResourceOf a) (organizationId (proposal a)) = true ↔
    q = {| query_action := f_action (f_body pf); query_resourceScope := tradeResourceOf a; query_organizationId := organizationId (proposal a) |}) as Hq.
  { intros [q1 q2 q3]. unfold queryMatches. cbn. rewrite !andb_true_iff, !str_eqb_eq. naive_solver. }
  rewrite guard_Ok, Hq. assert (map_get "tradeProposalDigest" (intent_parameters (intent_of (f_action (f_body pf)) None a)) = Some (digest a)) as -> by reflexivity. rewrite str_eqb_refl. cbn [result_bind].
  destruct (readingInstantOf _ _) as [ra|] eqn:Er; [|split; [by intros [_ ?]|by intros (?&?&?&?&?&_&_&_&?&_)]]. destruct (reading_instant _ _ _ Hi Er) as [_ Hra]. rewrite guard_Ok, Z.leb_le, whole_second. split.
  - intros (->&Hs&E). apply Ok_eq in E. exists a, pf, r, ra, (wholeSecondsBetween (instant_ms ra) (l_validUntilMs r)). do 4 (split; [done|]). split; [done|]. split; [done|]. rewrite whole_seconds by lia.
    pose proof (Z.mod_pos_bound (l_validUntilMs r - instant_ms ra) 1000). pose proof (Z.div_mod (l_validUntilMs r - instant_ms ra) 1000). lia.
  - intros (a'&pf'&r'&ra'&m&[= <- <-]&Er'&->&[= <-]&Hs&->&Hw1&Hw2). apply Ok_eq in Er' as <-. split; [done|]. split; [done|]. f_equal. f_equal. rewrite whole_seconds by lia.
    pose proof (Z.mod_pos_bound (l_validUntilMs r - instant_ms ra) 1000). pose proof (Z.div_mod (l_validUntilMs r - instant_ms ra) 1000). lia.
Qed.
End Horizon.

(** ** Evidence relied on *)

(** The sealed record: the body and its digest. *)
Definition evidence_object (e : TradingRiskAssessmentEvidence) : JsValue := match ev_body e with JsObject plain properties => JsObject plain (properties ++ [("digest"%string, JsString (ev_digest e))]) | v => v end.

Module RelianceDemo.
Import TradeDemo.
#[local] Existing Instance DelegationDemo.clock_host.
Definition relying_at (at_ : string) : TradingRiskRelianceExpectation := {|
  y_proposal := ProposalDemo.raw_offer; y_profile := js_of (JObj (tradingRiskProfileData (AssessmentDemo.sample_profile false "40"))); y_at := JsString at_; y_governanceProfile := None; y_readingAt := JsUndefined |}.
Definition checked_at (at_ : string) : result TradingRiskRelianceRefusal TradingRiskReliance := checkTradingRiskReliance (evidence_object AssessmentDemo.sample_evidence) (relying_at at_).
(** The evidence of the sample order holds from its assessment until its oldest
    facts run out, five seconds later. *)
Definition sample_reliance : TradingRiskReliance :=
  Eval vm_compute in match checked_at "2026-01-05T10:00:25.000Z" with Ok r => r | Throw _ => {| l_disposition := PROHIBITED; l_evidenceDigest := ""; l_validUntilMs := 0 |} end.
Example relied : checked_at "2026-01-05T10:00:25.000Z" = Ok sample_reliance ∧ l_disposition sample_reliance = ELIGIBLE ∧ l_validUntilMs sample_reliance = instant_ms "2026-01-05T10:00:30.000Z" ∧
  checked_at "2026-01-05T10:00:30.000Z" = Ok sample_reliance ∧ checked_at "2026-01-05T10:00:30.001Z" = Throw RR_FACT_STALE ∧ checked_at "2026-01-05T10:00:24.999Z" = Throw RR_FROM_FUTURE.
Proof. vm_compute. split_and!; reflexivity. Qed.
Lemma reliance_horizon_exact_witness : ∃ a pf, expected_parts (relying_at "2026-01-05T10:00:25.000Z") = Some (a, pf) ∧ l_validUntilMs sample_reliance ≤ instant_ms (expiresAt (f_body pf)).
Proof.
  destruct (reliance_horizon_exact (evidence_object AssessmentDemo.sample_evidence) (relying_at "2026-01-05T10:00:25.000Z") sample_reliance "2026-01-05T10:00:29.000Z") as (a&pf&Ex&Hl&_); [vm_compute; reflexivity..|vm_compute; discriminate|].
  exists a, pf. exact (conj Ex Hl).
Defined.
(** Readings for the query of this order, and none for another resource. *)
Definition sample_query (resource : string) : TradeContextQueryBinding := {| query_action := "trade.offer-create"; query_resourceScope := resource; query_organizationId := "org-1" |}.
Example readings_stated : match tradingRiskContextReadings (evidence_object AssessmentDemo.sample_evidence) (relying_at "2026-01-05T10:00:25.000Z") (sample_query ("xrp-ledger-testnet:" +:+ owner)) with Ok l => length l = 11%nat ∧ Forall (λ r, reading_maxAgeSeconds r = 5) l | Throw _ => False end ∧
  tradingRiskContextReadings (evidence_object AssessmentDemo.sample_evidence) (relying_at "2026-01-05T10:00:25.000Z") (sample_query "xrp-ledger-testnet:other") = Throw QUERY_MISMATCH.
Proof. vm_compute. split; [split; [reflexivity|repeat constructor]|reflexivity]. Qed.
End RelianceDemo.
