(* ===== verification/ContextResolution.v ===== *)
(** * Trusted context resolution

    Model of features/context-resolution-runtime: the trust classes, sources,
    declarations and readings (domain/), the source registry and the service
    that admits or refuses each reading of a connector, classifies the admitted
    ones into facts and computes the declared derivations (services/).

    A deployment's configuration (sources, declaration) is of its TypeScript
    type. A reading comes from a connector, and the code tests some of its
    fields at run time: its value is any JavaScript value, and a source id or
    observation time that is not a string is [None]. Freshness bounds are
    integers of seconds; the bound a reading states itself may also be a number
    that is no count of seconds at all. *)

From S2P Require Import Prelude Decimal Js JsMap StableJson HashChain.

Local Open Scope Z_scope.
Local Open Scope frontera_scope.

(** ** The host

    [iso_of ms] is [new Date(ms).toISOString()], [None] being its RangeError;
    [fraction_text l r] is the text of the double nearest to [l / r], for [r]
    not a divisor of [l]. *)
Class ContextHost := {
  iso_of : Z → option string;
  fraction_text : Z → Z → string;
}.

(** What the code may throw. *)
Inductive ContextThrow := RangeError | TypeError.

Fixpoint collect {E A B} (f : A → result E B) (l : list A) : result E (list B) :=
  match l with
  | [] => Ok []
  | x :: l => let* y := f x in let* rest := collect f l in Ok (y :: rest)
  end.

(** ** Trust classes *)

Inductive ContextTrustClass := attested | authoritative | derived | asserted.
Inductive TerminalContextTrustClass := Attested | Authoritative | Asserted.
#[export] Instance ContextTrustClass_eq_dec : EqDecision ContextTrustClass.
Proof. solve_decision. Defined.
#[export] Instance TerminalContextTrustClass_eq_dec : EqDecision TerminalContextTrustClass.
Proof. solve_decision. Defined.

Definition TERMINAL_CONTEXT_TRUST_CLASSES : list TerminalContextTrustClass := [Asserted; Authoritative; Attested].
Definition TERMINAL_RANK (c : TerminalContextTrustClass) : Z := match c with Asserted => 0 | Authoritative => 1 | Attested => 2 end.
Definition class_of (c : TerminalContextTrustClass) : ContextTrustClass :=
  match c with Asserted => asserted | Authoritative => authoritative | Attested => attested end.
Definition trust_class_name (c : ContextTrustClass) : string :=
  match c with attested => "attested" | authoritative => "authoritative" | derived => "derived" | asserted => "asserted" end.
Definition isTerminalContextTrustClass (c : ContextTrustClass) : bool := bool_decide (c ≠ derived).

Definition lower_class (lowest c : TerminalContextTrustClass) : TerminalContextTrustClass :=
  if TERMINAL_RANK c <? TERMINAL_RANK lowest then c else lowest.
Definition minimumContextTrustClass (classes : list TerminalContextTrustClass) : TerminalContextTrustClass :=
  match classes with [] => Asserted | _ => foldl lower_class Attested classes end.
Definition contextTrustClassSatisfies (effective minimum : TerminalContextTrustClass) : bool :=
  TERMINAL_RANK minimum <=? TERMINAL_RANK effective.

(** ** Sources *)

Definition CONTEXT_FACT_CLASS_MAX_LENGTH : Z := 96.
(** [(?:[._-][A-Za-z0-9]+)*$] after at least one character; [fresh] says that a
    separator has just been read. *)
Fixpoint fact_class_rest (fresh : bool) (l : list ascii) : bool :=
  match l with
  | [] => negb fresh
  | c :: l => if is_alnum c then fact_class_rest false l else one_of "._-" c && negb fresh && fact_class_rest true l
  end.
Definition CONTEXT_FACT_CLASS (l : list ascii) : bool :=
  match l with [] => false | c :: l => is_lower c && fact_class_rest false l end.
Definition isContextFactClass (value : string) : bool :=
  (0 <? js_length value) && (js_length value <=? CONTEXT_FACT_CLASS_MAX_LENGTH) && CONTEXT_FACT_CLASS (chars value).

Definition CONTEXT_MAX_AGE_SECONDS_LIMIT : Z := 7 * 24 * 60 * 60.
Record ContextSourceAttestation := { factClass : string; at_maxAgeSeconds : option Z }.
Inductive ContextSourceProvenanceRequirement := none | reference_digest.
#[export] Instance ContextSourceProvenanceRequirement_eq_dec : EqDecision ContextSourceProvenanceRequirement.
Proof. solve_decision. Defined.

Inductive ContextSourceKind := request | internal_store | erp | crm | external_api | ledger | identity_provider | approval_system | risk_engine | signed_attestation.
#[export] Instance ContextSourceKind_eq_dec : EqDecision ContextSourceKind.
Proof. solve_decision. Defined.
Definition CONTEXT_SOURCE_KINDS : list ContextSourceKind :=
  [request; internal_store; erp; crm; external_api; ledger; identity_provider; approval_system; risk_engine; signed_attestation].
Definition source_kind_name (k : ContextSourceKind) : string :=
  match k with
  | request => "request" | internal_store => "internal_store" | erp => "erp" | crm => "crm" | external_api => "external_api"
  | ledger => "ledger" | identity_provider => "identity_provider" | approval_system => "approval_system" | risk_engine => "risk_engine"
  | signed_attestation => "signed_attestation"
  end.

Record ContextSource := {
  src_id : string;
  src_kind : ContextSourceKind;
  src_name : string;
  src_trustClass : TerminalContextTrustClass;
  attests : list ContextSourceAttestation;
  src_organizationId : option string;
  provenance : option ContextSourceProvenanceRequirement;
}.

Definition contextSourceAttestationFor (source : ContextSource) (fact_class : string) : option ContextSourceAttestation :=
  List.find (λ a, str_eqb (factClass a) fact_class) (attests source).

Definition CONTEXT_DERIVED_SOURCE_ID : string := "aoc.context.derived".
Definition CONTEXT_DERIVED_SOURCE : ContextSource :=
  {| src_id := CONTEXT_DERIVED_SOURCE_ID; src_kind := internal_store; src_name := "Frontera derived context";
     src_trustClass := Authoritative; attests := []; src_organizationId := None; provenance := None |}.

(** One constructor per message of [validateContextSource] and of the registry. *)
Inductive SourceViolation :=
  | source_id_required
  | source_name_required (id : string)
  | kind_undeclared (id : string)
  | request_must_be_asserted (id : string)
  | attested_needs_attestation_kind (id : string)
  | attests_nothing (id : string)
  | malformed_fact_class (id : string)
  | fact_class_repeated (id fact_class : string)
  | age_out_of_range (id fact_class : string)
  | organization_blank (id : string)
  | source_id_reserved (id : string)
  | source_repeated (id : string).

Definition blank (s : string) : bool := negb (nonempty (text (js_trim (chars s)))).
Definition when {A} (b : bool) (v : A) : list A := if b then [v] else [].

Fixpoint validate_attestations (id : string) (folds : list string) (l : list ContextSourceAttestation) : list SourceViolation :=
  match l with
  | [] => []
  | a :: l =>
      if isContextFactClass (factClass a) then
        let fold := toLowerCase (factClass a) in
        when (bool_decide (fold ∈ folds)) (fact_class_repeated id (factClass a)) ++
        when (match at_maxAgeSeconds a with Some m => (m <? 1) || (CONTEXT_MAX_AGE_SECONDS_LIMIT <? m) | None => false end) (age_out_of_range id (factClass a)) ++
        validate_attestations id (fold :: folds) l
      else malformed_fact_class id :: validate_attestations id folds l
  end.

Definition validateContextSource (s : ContextSource) : list SourceViolation :=
  when (blank (src_id s)) source_id_required ++
  when (blank (src_name s)) (source_name_required (src_id s)) ++
  when (negb (bool_decide (src_kind s ∈ CONTEXT_SOURCE_KINDS))) (kind_undeclared (src_id s)) ++
  when (bool_decide (src_kind s = request) && negb (bool_decide (src_trustClass s = Asserted))) (request_must_be_asserted (src_id s)) ++
  when (bool_decide (src_trustClass s = Attested) && negb (bool_decide (src_kind s = signed_attestation))) (attested_needs_attestation_kind (src_id s)) ++
  (match attests s with [] => [attests_nothing (src_id s)] | l => validate_attestations (src_id s) [] l end) ++
  when (match src_organizationId s with Some o => blank o | None => false end) (organization_blank (src_id s)).

(** ** Derivations *)

Inductive ContextDerivationOperator := sum | difference | product | quotient | min | max | count.
#[export] Instance ContextDerivationOperator_eq_dec : EqDecision ContextDerivationOperator.
Proof. solve_decision. Defined.
Definition CONTEXT_DERIVATION_OPERATORS : list ContextDerivationOperator := [sum; difference; product; quotient; min; max; count].
Definition operator_name (o : ContextDerivationOperator) : string :=
  match o with sum => "sum" | difference => "difference" | product => "product" | quotient => "quotient" | min => "min" | max => "max" | count => "count" end.
Record ContextDerivation := { dv_key : string; operator : ContextDerivationOperator; operandKeys : list string }.

(** A fact value as admission leaves it: a number is a safe integer. *)
Inductive ContextFactValue := FText (s : string) | FNumber (z : Z) | FBool (b : bool).
#[export] Instance ContextFactValue_eq_dec : EqDecision ContextFactValue.
Proof. solve_decision. Defined.

Inductive ContextDerivationFailureReason := type_mismatch | division_by_zero | arity | not_finite.
Inductive ContextDerivationOutcome := Computed (value : JsNumber) | Failed (reason : ContextDerivationFailureReason).

(** Double arithmetic on integers: the exact integer result, rounded to 53
    significant bits with ties to even, overflowing at [2^1024]. *)
Definition round_double (z : Z) : JsNumber :=
  let m := Z.abs z in
  if m <=? 2 ^ 53 then JInt z else
  let e := Z.log2 m - 52 in
  let q := m / 2 ^ e in
  let r := m mod 2 ^ e in
  let q := if (r <? 2 ^ (e - 1)) || ((r =? 2 ^ (e - 1)) && Z.even q) then q else q + 1 in
  if 2 ^ 1024 <=? q * 2 ^ e then JInfinity (z <? 0) else JInt (Z.sgn z * (q * 2 ^ e)).
(** [total + value] and [total * value] for an integer [value]. *)
Definition js_add (total : JsNumber) (value : Z) : JsNumber :=
  match total with JInt a => round_double (a + value) | JNegZero => JInt value | n => n end.
Definition js_mul (total : JsNumber) (value : Z) : JsNumber :=
  match total with
  | JInt a => if a * value =? 0 then (if (a <? 0) || (value <? 0) then JNegZero else JInt 0) else round_double (a * value)
  | JNegZero => if value <? 0 then JInt 0 else JNegZero
  | JInfinity s => if value =? 0 then JNaN else JInfinity (xorb s (value <? 0))
  | n => n
  end.
(** [left / right] for integers, [right] not zero. *)
Definition js_div `{ContextHost} (left right : Z) : JsNumber :=
  if (left =? 0) && (right <? 0) then JNegZero
  else if left mod right =? 0 then JInt (left / right) else JFraction (fraction_text left right).
Definition finite (value : JsNumber) : ContextDerivationOutcome :=
  match value with JNaN | JInfinity _ => Failed not_finite | n => Computed n end.

Definition number_of (v : ContextFactValue) : option Z := match v with FNumber z => Some z | _ => None end.
Definition reduce (f : Z → Z → Z) (l : list Z) : ContextDerivationOutcome :=
  match l with [] => Failed arity | x :: l => finite (JInt (foldl f x l)) end.

Definition evaluateContextDerivation `{ContextHost} (operator : ContextDerivationOperator) (operands : list ContextFactValue) : ContextDerivationOutcome :=
  match operator with
  | count => Computed (JInt (Z.of_nat (length operands)))
  | _ =>
      match mapM number_of operands with
      | None => Failed type_mismatch
      | Some numbers =>
          match operator with
          | sum => match numbers with [] => Failed arity | _ => finite (foldl js_add (JInt 0) numbers) end
          | product => match numbers with [] => Failed arity | _ => finite (foldl js_mul (JInt 1) numbers) end
          | min => reduce (λ lowest value, if value <? lowest then value else lowest) numbers
          | max => reduce (λ highest value, if highest <? value then value else highest) numbers
          | difference => match numbers with [l; r] => finite (js_add (JInt l) (- r)) | _ => Failed arity end
          | quotient => match numbers with [l; r] => if r =? 0 then Failed division_by_zero else finite (js_div l r) | _ => Failed arity end
          | count => Failed arity
          end
      end
  end.

(** One constructor per message of the two validators of a declaration. *)
Inductive DeclarationViolation :=
  | requirement_key_required
  | requirement_repeated (key : string)
  | requirement_age_invalid (key : string)
  | restrictive_is_required (key : string)
  | derivation_key_required
  | derivation_without_operands (key : string)
  | derivation_of_itself (key : string)
  | derivation_arity (key : string)
  | derivation_repeated (key : string)
  | operand_undeclared (key operand : string)
  | assertable_undeclared (key : string)
  | skew_out_of_range.

Definition validateContextDerivation (d : ContextDerivation) : list DeclarationViolation :=
  when (blank (dv_key d)) derivation_key_required ++
  when (bool_decide (operandKeys d = [])) (derivation_without_operands (dv_key d)) ++
  when (bool_decide (dv_key d ∈ operandKeys d)) (derivation_of_itself (dv_key d)) ++
  when (bool_decide (operator d ∈ [difference; quotient]) && negb (length (operandKeys d) =? 2)%nat) (derivation_arity (dv_key d)).

(** ** Declarations *)

Inductive ContextAssertedFactPolicy := permit | report | require_declaration.
#[export] Instance ContextAssertedFactPolicy_eq_dec : EqDecision ContextAssertedFactPolicy.
Proof. solve_decision. Defined.
Definition policy_text (p : ContextAssertedFactPolicy) : string :=
  match p with permit => "permit" | report => "report" | require_declaration => "require-declaration" end.
Definition DEFAULT_CONTEXT_ASSERTED_FACT_POLICY : ContextAssertedFactPolicy := permit.

Record ContextRequirement := {
  rq_key : string;
  minimumTrustClass : TerminalContextTrustClass;
  rq_maxAgeSeconds : option Z;
  required : bool;
  restrictive : option bool;
}.
Record ContextDeclaration := {
  requirements : list ContextRequirement;
  dc_derivations : option (list ContextDerivation);
  dc_assertedFactPolicy : option ContextAssertedFactPolicy;
  dc_assertableKeys : option (list string);
  dc_maxFutureSkewSeconds : option Z;
}.
Definition CONTEXT_MAX_FUTURE_SKEW_SECONDS : Z := 300.
Definition contextDeclarationAssertedFactPolicy (d : ContextDeclaration) : ContextAssertedFactPolicy :=
  default DEFAULT_CONTEXT_ASSERTED_FACT_POLICY (dc_assertedFactPolicy d).
Definition is_restrictive (r : ContextRequirement) : bool := bool_decide (restrictive r = Some true).

(** The violations of the requirements, with the keys [seen]. *)
Fixpoint validate_requirements (seen : list string) (l : list ContextRequirement) : list DeclarationViolation * list string :=
  match l with
  | [] => ([], seen)
  | r :: l =>
      if blank (rq_key r) then
        let '(rest, seen) := validate_requirements seen l in (requirement_key_required :: rest, seen)
      else
        let '(rest, all) := validate_requirements (rq_key r :: seen) l in
        (when (bool_decide (rq_key r ∈ seen)) (requirement_repeated (rq_key r)) ++
         when (match rq_maxAgeSeconds r with Some m => m <=? 0 | None => false end) (requirement_age_invalid (rq_key r)) ++
         when (is_restrictive r && required r) (restrictive_is_required (rq_key r)) ++ rest, all)
  end.
Fixpoint validate_derivations (seen derivedKeys : list string) (l : list ContextDerivation) : list DeclarationViolation :=
  match l with
  | [] => []
  | d :: l =>
      validateContextDerivation d ++
      when (bool_decide (dv_key d ∈ derivedKeys)) (derivation_repeated (dv_key d)) ++
      (operandKeys d ≫= λ k, when (negb (bool_decide (k ∈ seen))) (operand_undeclared (dv_key d) k)) ++
      validate_derivations seen (dv_key d :: derivedKeys) l
  end.
Definition validateContextDeclaration (d : ContextDeclaration) : list DeclarationViolation :=
  let '(violations, seen) := validate_requirements [] (requirements d) in
  violations ++
  validate_derivations seen [] (default [] (dc_derivations d)) ++
  (default [] (dc_assertableKeys d) ≫= λ k, when (negb (bool_decide (k ∈ seen))) (assertable_undeclared k)) ++
  when (match dc_maxFutureSkewSeconds d with Some s => (s <? 0) || (CONTEXT_MAX_FUTURE_SKEW_SECONDS <? s) | None => false end) skew_out_of_range.

(** ** Facts and readings *)

Inductive ResolvedContextFactStatus := resolved | stale | conflicted.
#[export] Instance ResolvedContextFactStatus_eq_dec : EqDecision ResolvedContextFactStatus.
Proof. solve_decision. Defined.
Definition fact_status_name (s : ResolvedContextFactStatus) : string := match s with resolved => "resolved" | stale => "stale" | conflicted => "conflicted" end.

Record ContextFactFreshness := { fr_maxAgeSeconds : Z; staleAt : string }.
Record ContextFactDerivation := { fd_operator : ContextDerivationOperator; fd_operandKeys : list string }.
Record ContextFact := {
  fact_key : string;
  fact_value : ContextFactValue;
  fact_sourceId : string;
  fact_sourceKind : ContextSourceKind;
  fact_observedAt : string;
  fact_trustClass : ContextTrustClass;
  effectiveTrustClass : TerminalContextTrustClass;
  resolution : ResolvedContextFactStatus;
  freshness : option ContextFactFreshness;
  fact_attestationRef : option string;
  derivation : option ContextFactDerivation;
  conflictingSourceIds : option (list string);
  fact_reference : option string;
  fact_provenanceDigest : option string;
}.

(** The bound a reading states: a count of seconds, or a number that is none
    ([NaN], an infinity, the negative zero). *)
Inductive ReadingBound := Seconds (z : Z) | NoCount (n : JsNumber).
Record ContextFactObservation := {
  ob_key : string;
  ob_value : JsValue;
  ob_sourceId : option string;
  ob_observedAt : option string;
  ob_maxAgeSeconds : option ReadingBound;
  ob_attestationRef : option string;
  ob_reference : option string;
  ob_provenanceDigest : option string;
  ob_organizationId : option string;
}.

Definition CONTEXT_FACT_STRING_MAX_LENGTH : Z := 256.
(** [isAdmissibleContextFactValue], with the value it admits. *)
Definition admissible_value (v : JsValue) : option ContextFactValue :=
  match v with
  | JsBool b => Some (FBool b)
  | JsNum (JInt z) => if isSafeInteger (JInt z) then Some (FNumber z) else None
  | JsString s => if (0 <? js_length s) && (js_length s <=? CONTEXT_FACT_STRING_MAX_LENGTH) then Some (FText s) else None
  | _ => None
  end.
Definition isAdmissibleContextFactValue (v : JsValue) : bool := is_some (admissible_value v).

Section Time.
Context `{JsHost} `{ContextHost}.

Definition isFutureDatedAt (observedAt at_ : string) (maxFutureSkewSeconds : Z) : bool :=
  match date_parse observedAt, date_parse at_ with
  | Some observed, Some now => maxFutureSkewSeconds * 1000 <? observed - now
  | _, _ => true
  end.
Definition isFreshAt (observedAt : string) (maxAgeSeconds : Z) (at_ : string) : bool :=
  match date_parse observedAt, date_parse at_ with
  | Some observed, Some now => now - observed <? maxAgeSeconds * 1000
  | _, _ => false
  end.
Definition staleAtFor (observedAt : string) (maxAgeSeconds : Z) : result ContextThrow (option string) :=
  match date_parse observedAt with
  | None => Ok None
  | Some observed => match iso_of (observed + maxAgeSeconds * 1000) with Some t => Ok (Some t) | None => Throw RangeError end
  end.

(** One constructor per message of [validateContextFact]. *)
Inductive FactViolation := fact_key_required | fact_source_required | fact_time_invalid | derivation_missing | attestation_absent | conflict_unnamed.
Definition validateContextFact (f : ContextFact) : list FactViolation :=
  when (blank (fact_key f)) fact_key_required ++
  when (blank (fact_sourceId f)) fact_source_required ++
  when (negb (is_some (date_parse (fact_observedAt f)))) fact_time_invalid ++
  when (bool_decide (fact_trustClass f = derived) && negb (is_some (derivation f))) derivation_missing ++
  when (bool_decide (fact_trustClass f = attested) && negb (is_some (fact_attestationRef f))) attestation_absent ++
  when (bool_decide (resolution f = conflicted) && bool_decide (default [] (conflictingSourceIds f) = [])) conflict_unnamed.
End Time.

(** ** Resolutions *)

Inductive ContextObservationRefusalReason :=
  | source_untrusted | fact_class_not_attested | organization_mismatch | future_dated | observation_time_invalid
  | provenance_invalid | attestation_missing | attestation_invalid | value_malformed.
#[export] Instance ContextObservationRefusalReason_eq_dec : EqDecision ContextObservationRefusalReason.
Proof. solve_decision. Defined.
Definition refusal_name (r : ContextObservationRefusalReason) : string :=
  match r with
  | source_untrusted => "source_untrusted" | fact_class_not_attested => "fact_class_not_attested" | organization_mismatch => "organization_mismatch"
  | future_dated => "future_dated" | observation_time_invalid => "observation_time_invalid" | provenance_invalid => "provenance_invalid"
  | attestation_missing => "attestation_missing" | attestation_invalid => "attestation_invalid" | value_malformed => "value_malformed"
  end.
Record RefusedContextObservation := { rf_key : string; rf_sourceId : string; rf_reason : ContextObservationRefusalReason }.

Record ContextResolution := {
  is_resolved : bool;
  declaredKeys : list string;
  facts : list ContextFact;
  unresolved : list string;
  stale_keys : list string;
  conflicted_keys : list string;
  refused : list RefusedContextObservation;
  assertedFactPolicy : ContextAssertedFactPolicy;
  assertableKeys : list string;
  resolvedAt : string;
}.

Definition CONTEXT_RESERVED_REQUEST_KEY_PREFIX : string := "aoc.context".
Definition isReservedContextKey (key : string) : bool :=
  str_eqb key CONTEXT_RESERVED_REQUEST_KEY_PREFIX || String.prefix (CONTEXT_RESERVED_REQUEST_KEY_PREFIX +:+ ".") key.

Definition unresolvedContextResolution (declared : list string) (policy : option ContextAssertedFactPolicy) (assertable : option (list string)) (at_ : string) : ContextResolution :=
  let declared := sort_strings declared in
  {| is_resolved := false; declaredKeys := declared; facts := []; unresolved := declared; stale_keys := []; conflicted_keys := []; refused := [];
     assertedFactPolicy := default DEFAULT_CONTEXT_ASSERTED_FACT_POLICY policy; assertableKeys := sort_strings (default [] assertable); resolvedAt := at_ |}.

(** ** Digests *)

Definition CONTEXT_OBSERVATION_PROVENANCE_DOMAIN : string := "frontera:context-observation:v2".
Definition ADMITTED_CONTEXT_FORMAT : string := "frontera.admitted-context.v1".

Definition is_undefined_value (v : JsValue) : bool := match v with JsUndefined => true | _ => false end.
Fixpoint canonical (v : JsValue) : result ContextThrow string :=
  match v with
  | JsString s => Ok (json_string s)
  | JsBool b => Ok (if b then "true" else "false")
  | JsNum (JInt z) => if isSafeInteger (JInt z) then Ok (text (bigint_to_string z)) else Throw TypeError
  | JsArray l => let* parts := results (canonical <$> l) in Ok ("[" +:+ join "," parts +:+ "]")
  | JsObject _ properties =>
      let members := omap (λ p, if is_undefined_value p.2 then None else Some (p.1, canonical p.2)) properties in
      let* parts := results ((λ p, let* t := p.2 in Ok (json_string p.1 +:+ ":" +:+ t)) <$> sort_entries members) in
      Ok ("{" +:+ join "," parts +:+ "}")
  | _ => Throw TypeError
  end.

Definition js_option {A} (f : A → JsValue) (o : option A) : JsValue := match o with Some x => f x | None => JsUndefined end.
Definition js_texts (l : list string) : JsValue := JsArray (JsString <$> l).
Definition js_integer (z : Z) : JsValue := JsNum (JInt z).
Definition value_js (v : ContextFactValue) : JsValue := match v with FText s => JsString s | FNumber z => js_integer z | FBool b => JsBool b end.
Definition bound_js (b : ReadingBound) : JsValue := match b with Seconds z => js_integer z | NoCount n => JsNum n end.

Section Digest.
Context `{JsHost}.

Definition sha256 (text : string) : string := "sha256:" +:+ sha256_hex text.

Definition provenance_object (o : ContextFactObservation) (reference : string) : JsValue :=
  JsObject true [("key", JsString (ob_key o)); ("value", ob_value o); ("sourceId", js_option JsString (ob_sourceId o));
    ("observedAt", js_option JsString (ob_observedAt o)); ("reference", JsString reference); ("organizationId", js_option JsString (ob_organizationId o));
    ("maxAgeSeconds", js_option bound_js (ob_maxAgeSeconds o)); ("attestationRef", js_option JsString (ob_attestationRef o))]%string.
Definition contextObservationProvenanceDigest (o : ContextFactObservation) (reference : string) : result ContextThrow string :=
  let* text := canonical (provenance_object o reference) in
  Ok (sha256 (CONTEXT_OBSERVATION_PROVENANCE_DOMAIN +:+ String (ascii_of_nat 10) text)).

Definition factSnapshot (f : ContextFact) : JsValue :=
  JsObject true [("key", JsString (fact_key f)); ("value", value_js (fact_value f)); ("sourceId", JsString (fact_sourceId f));
    ("sourceKind", JsString (source_kind_name (fact_sourceKind f))); ("observedAt", JsString (fact_observedAt f));
    ("trustClass", JsString (trust_class_name (fact_trustClass f))); ("effectiveTrustClass", JsString (trust_class_name (class_of (effectiveTrustClass f))));
    ("resolution", JsString (fact_status_name (resolution f))); ("staleAt", js_option (λ r, JsString (staleAt r)) (freshness f));
    ("maxAgeSeconds", js_option (λ r, js_integer (fr_maxAgeSeconds r)) (freshness f)); ("attestationRef", js_option JsString (fact_attestationRef f));
    ("reference", js_option JsString (fact_reference f)); ("provenanceDigest", js_option JsString (fact_provenanceDigest f));
    ("conflictingSourceIds", js_option js_texts (conflictingSourceIds f));
    ("derivation", js_option (λ d, JsObject true [("operator", JsString (operator_name (fd_operator d))); ("operandKeys", js_texts (fd_operandKeys d))]) (derivation f))]%string.
Definition refusal_js (r : RefusedContextObservation) : JsValue :=
  JsObject true [("key", JsString (rf_key r)); ("sourceId", JsString (rf_sourceId r)); ("reason", JsString (refusal_name (rf_reason r)))]%string.
Definition resolution_object (r : ContextResolution) : JsValue :=
  JsObject true [("format", JsString ADMITTED_CONTEXT_FORMAT); ("resolved", JsBool (is_resolved r)); ("resolvedAt", JsString (resolvedAt r));
    ("declaredKeys", js_texts (declaredKeys r)); ("facts", JsArray (factSnapshot <$> facts r)); ("unresolved", js_texts (unresolved r));
    ("stale", js_texts (stale_keys r)); ("conflicted", js_texts (conflicted_keys r)); ("refused", JsArray (refusal_js <$> refused r));
    ("assertedFactPolicy", JsString (policy_text (assertedFactPolicy r))); ("assertableKeys", js_texts (assertableKeys r))]%string.
Definition contextResolutionDigest (r : ContextResolution) : result ContextThrow string :=
  let* text := canonical (resolution_object r) in Ok (sha256 text).
End Digest.

(** ** Reading a requirement out of a resolution *)

Inductive ContextFactReadStatus := satisfied | context_not_resolved | undeclared | unanswered | too_old | disputed | insufficient_trust | asserted_not_declared.
#[export] Instance ContextFactReadStatus_eq_dec : EqDecision ContextFactReadStatus.
Proof. solve_decision. Defined.
Definition read_status_name (s : ContextFactReadStatus) : string :=
  match s with
  | satisfied => "satisfied" | context_not_resolved => "context_not_resolved" | undeclared => "undeclared" | unanswered => "unresolved" | too_old => "stale"
  | disputed => "conflicted" | insufficient_trust => "insufficient_trust" | asserted_not_declared => "asserted_not_declared"
  end.
Record ReadProvenance := { rp_trustClass : ContextTrustClass; rp_effectiveTrustClass : TerminalContextTrustClass; rp_sourceId : string; rp_observedAt : string }.
Record ContextFactRead := {
  read_key : string;
  read_status : ContextFactReadStatus;
  read_value : option ContextFactValue;
  read_provenance : option ReadProvenance;
  assertedFactReported : option bool;
}.
Definition unread (key : string) (status : ContextFactReadStatus) : ContextFactRead :=
  {| read_key := key; read_status := status; read_value := None; read_provenance := None; assertedFactReported := None |}.

Definition resolved_fact (key : string) (l : list ContextFact) : option ContextFact :=
  List.find (λ f, str_eqb (fact_key f) key && bool_decide (resolution f = resolved)) l.

Definition readContextFact (r : ContextResolution) (rq : ContextRequirement) : ContextFactRead :=
  let key := rq_key rq in
  if negb (is_resolved r) then unread key context_not_resolved
  else if negb (bool_decide (key ∈ declaredKeys r)) then unread key undeclared
  else if bool_decide (key ∈ conflicted_keys r) then unread key disputed
  else if bool_decide (key ∈ stale_keys r) then unread key too_old
  else match resolved_fact key (facts r) with
  | None => unread key unanswered
  | Some f =>
      let provenance := {| rp_trustClass := fact_trustClass f; rp_effectiveTrustClass := effectiveTrustClass f; rp_sourceId := fact_sourceId f; rp_observedAt := fact_observedAt f |} in
      let answer status value reported := {| read_key := key; read_status := status; read_value := value; read_provenance := Some provenance; assertedFactReported := reported |} in
      if negb (contextTrustClassSatisfies (effectiveTrustClass f) (minimumTrustClass rq)) then answer insufficient_trust None None
      else if bool_decide (effectiveTrustClass f = Asserted) then
        if bool_decide (assertedFactPolicy r = require_declaration) && negb (bool_decide (key ∈ assertableKeys r)) then answer asserted_not_declared None None
        else if bool_decide (assertedFactPolicy r = report) then answer satisfied (Some (fact_value f)) (Some true)
        else answer satisfied (Some (fact_value f)) None
      else answer satisfied (Some (fact_value f)) None
  end.
Definition readContextFacts (r : ContextResolution) (l : list ContextRequirement) : list ContextFactRead := readContextFact r <$> l.

(** ** Orders of the service's lists

    Comparisons field by field in code-unit order. *)

Fixpoint texts_le (l k : list string) : Prop :=
  match l, k with
  | [], _ => True
  | _ :: _, [] => False
  | x :: l, y :: k => slt x y ∨ x = y ∧ texts_le l k
  end.
#[export] Instance slt_dec : RelDecision slt.
Proof. intros a b. unfold slt. apply _. Defined.
Fixpoint texts_le_decide (l k : list string) : Decision (texts_le l k) :=
  match l, k return Decision (texts_le l k) with
  | [], _ => left I
  | _ :: _, [] => right (λ e, e)
  | x :: l, y :: k => or_dec (slt_dec x y) (and_dec (String.eq_dec x y) (texts_le_decide l k))
  end.
#[export] Instance texts_le_dec : RelDecision texts_le := texts_le_decide.

Definition by_texts {A} (fields : A → list string) (x y : A) : Prop := texts_le (fields x) (fields y).
#[export] Instance by_texts_dec {A} (fields : A → list string) : RelDecision (by_texts fields).
Proof. intros x y. unfold by_texts. apply _. Defined.

Definition source_name (o : ContextFactObservation) : string := default "" (ob_sourceId o).
Definition observed_time (o : ContextFactObservation) : string := default "" (ob_observedAt o).
Definition byRefusal (r : RefusedContextObservation) : list string := [rf_key r; rf_sourceId r; refusal_name (rf_reason r)].
Definition byKeyThenSource (f : ContextFact) : list string := [fact_key f; fact_sourceId f].
Definition bySource (o : ContextFactObservation) : list string := [source_name o].
Definition byId (s : ContextSource) : list string := [src_id s].

(** ** The source registry *)

Fixpoint register_sources (violations : list SourceViolation) (m : JsMap ContextSource) (l : list ContextSource) : list SourceViolation * JsMap ContextSource :=
  match l with
  | [] => (violations, m)
  | s :: l =>
      let violations := violations ++ validateContextSource s in
      if str_eqb (src_id s) CONTEXT_DERIVED_SOURCE_ID then register_sources (violations ++ [source_id_reserved (src_id s)]) m l
      else register_sources (violations ++ when (is_some (map_get (src_id s) m)) (source_repeated (src_id s))) (map_set (src_id s) s m) l
  end.

Inductive ContextConfigurationError := declaration_invalid (l : list DeclarationViolation) | sources_invalid (l : list SourceViolation).
Definition ContextSourceRegistry (sources : list ContextSource) : result ContextConfigurationError (JsMap ContextSource) :=
  let '(violations, m) := register_sources [] [] sources in
  match violations with [] => Ok (map_set CONTEXT_DERIVED_SOURCE_ID CONTEXT_DERIVED_SOURCE m) | _ => Throw (sources_invalid violations) end.
Definition list_sources (m : JsMap ContextSource) : list ContextSource := merge_sort (by_texts byId) (map_values m).

(** ** The service *)

(** [None] is a throw or a result that is no boolean. *)
Definition ContextAttestationVerifier : Type := ContextSource → ContextFactObservation → option bool.

Record ContextResolutionService := {
  registry : JsMap ContextSource;
  declaration : ContextDeclaration;
  derivations : list ContextDerivation;
  requirementsByKey : JsMap ContextRequirement;
  requested : list string;
  declared : list string;
  maxFutureSkewSeconds : Z;
  attestationVerifier : option ContextAttestationVerifier;
}.

Definition requirement_keys (d : ContextDeclaration) : list string := rq_key <$> requirements d.
Definition derived_keys (d : ContextDeclaration) : list string := dv_key <$> default [] (dc_derivations d).
Definition new_service (sources : list ContextSource) (d : ContextDeclaration) (verifier : option ContextAttestationVerifier) : result ContextConfigurationError ContextResolutionService :=
  match validateContextDeclaration d with
  | [] =>
      let* registry := ContextSourceRegistry sources in
      Ok {| registry := registry; declaration := d; derivations := default [] (dc_derivations d);
            requirementsByKey := foldl (λ m r, map_set (rq_key r) r m) [] (requirements d);
            requested := sort_strings (List.filter (λ k, negb (bool_decide (k ∈ derived_keys d))) (nub (requirement_keys d)));
            declared := sort_strings (nub (requirement_keys d ++ nub (derived_keys d)));
            maxFutureSkewSeconds := default 0 (dc_maxFutureSkewSeconds d); attestationVerifier := verifier |}
  | violations => Throw (declaration_invalid violations)
  end.

Definition service_assertedFactPolicy (svc : ContextResolutionService) : ContextAssertedFactPolicy := contextDeclarationAssertedFactPolicy (declaration svc).
Definition service_assertableKeys (svc : ContextResolutionService) : list string := sort_strings (default [] (dc_assertableKeys (declaration svc))).

Definition laterReading `{JsHost} (candidate current : ContextFactObservation) : bool :=
  match date_parse (observed_time candidate), date_parse (observed_time current) with
  | Some c, Some d => if c =? d then str_ltb (default "" (ob_reference candidate)) (default "" (ob_reference current)) else d <? c
  | _, _ => false
  end.

Definition NUL : string := String Ascii.zero "".
Definition typeof_value (v : JsValue) : string :=
  match v with JsUndefined => "undefined" | JsBool _ => "boolean" | JsNum _ => "number" | JsString _ => "string" | JsFunction => "function" | _ => "object" end.
(** [String(value)] of an admissible value. *)
Definition value_text (v : JsValue) : string :=
  match v with JsBool b => if b then "true" else "false" | JsNum n => json_number n | JsString s => s | _ => "" end.
Definition identity (o : ContextFactObservation) : string := source_name o +:+ NUL +:+ typeof_value (ob_value o) +:+ NUL +:+ value_text (ob_value o).

Section Service.
Context `{JsHost} `{ContextHost}.

Definition keep_reading (m : JsMap ContextFactObservation) (o : ContextFactObservation) : JsMap ContextFactObservation :=
  match map_get (identity o) m with
  | Some current => if laterReading o current then map_set (identity o) o m else m
  | None => map_set (identity o) o m
  end.
Definition deduplicated (l : list ContextFactObservation) : list ContextFactObservation :=
  merge_sort (by_texts bySource) (map_values (foldl keep_reading [] l)).

Definition hasValidProvenance (o : ContextFactObservation) : bool :=
  match ob_reference o, ob_provenanceDigest o with
  | Some reference, Some digest =>
      (0 <? js_length reference) && (js_length reference <=? CONTEXT_FACT_STRING_MAX_LENGTH) &&
      match contextObservationProvenanceDigest o reference with Ok recomputed => str_eqb digest recomputed | Throw _ => false end
  | _, _ => false
  end.

Context (svc : ContextResolutionService).

Definition attestationVerified (source : ContextSource) (o : ContextFactObservation) : bool :=
  match attestationVerifier svc with None => false | Some verifier => bool_decide (verifier source o = Some true) end.

Definition refusalOf (o : ContextFactObservation) (at_ : string) (organizationId : option string) : option ContextObservationRefusalReason :=
  match ob_sourceId o ≫= λ id, map_get id (registry svc) with
  | None => Some source_untrusted
  | Some source =>
      if str_eqb (src_id source) CONTEXT_DERIVED_SOURCE_ID then Some source_untrusted
      else if negb (is_some (contextSourceAttestationFor source (ob_key o))) then Some fact_class_not_attested
      else if is_some (src_organizationId source) && negb (bool_decide (src_organizationId source = organizationId)) then Some organization_mismatch
      else if is_some (ob_organizationId o) && negb (bool_decide (ob_organizationId o = organizationId)) then Some organization_mismatch
      else match ob_observedAt o with
      | None => Some observation_time_invalid
      | Some observedAt =>
          if negb (is_some (date_parse observedAt)) then Some observation_time_invalid
          else if isFutureDatedAt observedAt at_ (maxFutureSkewSeconds svc) then Some future_dated
          else if negb (isAdmissibleContextFactValue (ob_value o)) then Some value_malformed
          else if bool_decide (src_trustClass source = Attested) && blank (default "" (ob_attestationRef o)) then Some attestation_missing
          else if bool_decide (src_trustClass source = Attested) && negb (attestationVerified source o) then Some attestation_invalid
          else if bool_decide (provenance source = Some reference_digest) && negb (hasValidProvenance o) then Some provenance_invalid
          else None
      end
  end.

Definition trustClassOf (o : ContextFactObservation) : TerminalContextTrustClass :=
  match map_get (source_name o) (registry svc) with Some source => src_trustClass source | None => Asserted end.

(** Whether [candidate] replaces [best]. *)
Definition better (candidate best : ContextFactObservation) : bool :=
  let candidateClass := trustClassOf candidate in
  let bestClass := trustClassOf best in
  if contextTrustClassSatisfies candidateClass bestClass && negb (contextTrustClassSatisfies bestClass candidateClass) then true
  else if contextTrustClassSatisfies bestClass candidateClass && negb (contextTrustClassSatisfies candidateClass bestClass) then false
  else match date_parse (observed_time candidate), date_parse (observed_time best) with
  | Some c, Some b => (b <? c) || ((c =? b) && str_ltb (source_name candidate) (source_name best))
  | _, _ => false
  end.
Definition preferred (first : ContextFactObservation) (rest : list ContextFactObservation) : ContextFactObservation :=
  foldl (λ best candidate, if better candidate best then candidate else best) first rest.

Definition reading_bound (b : ReadingBound) : Z := match b with Seconds z => if 0 <? z then z else 0 | NoCount _ => 0 end.
Definition age_bounds (key : string) (o : ContextFactObservation) : list Z :=
  option_list (map_get (source_name o) (registry svc) ≫= λ s, contextSourceAttestationFor s key ≫= at_maxAgeSeconds) ++
  option_list (map_get key (requirementsByKey svc) ≫= rq_maxAgeSeconds) ++
  option_list (reading_bound <$> ob_maxAgeSeconds o).
Definition maxAgeFor (key : string) (o : ContextFactObservation) : option Z :=
  match age_bounds key o with [] => None | x :: l => Some (foldl Z.min x l) end.

Definition freshnessStatus (o : ContextFactObservation) (at_ : string) : ResolvedContextFactStatus :=
  match maxAgeFor (ob_key o) o with
  | None => resolved
  | Some maxAgeSeconds => if isFreshAt (observed_time o) maxAgeSeconds at_ then resolved else stale
  end.

Definition toFreshness (observedAt : string) (maxAgeSeconds : option Z) : result ContextThrow (option ContextFactFreshness) :=
  match maxAgeSeconds with
  | None => Ok None
  | Some age => let* at_ := staleAtFor observedAt age in Ok ((λ t, {| fr_maxAgeSeconds := age; staleAt := t |}) <$> at_)
  end.

Definition toFact (o : ContextFactObservation) (status : ResolvedContextFactStatus) (at_ : string) (conflicting : option (list string)) : result ContextThrow ContextFact :=
  match map_get (source_name o) (registry svc), admissible_value (ob_value o) with
  | Some source, Some value =>
      let* fresh := toFreshness (observed_time o) (maxAgeFor (ob_key o) o) in
      Ok {| fact_key := ob_key o; fact_value := value; fact_sourceId := source_name o; fact_sourceKind := src_kind source; fact_observedAt := observed_time o;
            fact_trustClass := class_of (src_trustClass source); effectiveTrustClass := src_trustClass source;
            resolution := if bool_decide (status = conflicted) then conflicted else freshnessStatus o at_; freshness := fresh;
            fact_attestationRef := if bool_decide (src_trustClass source = Attested) then ob_attestationRef o else None; derivation := None;
            conflictingSourceIds := match conflicting with None | Some [] => None | Some ids => Some (sort_strings (nub ids)) end;
            fact_reference := ob_reference o;
            fact_provenanceDigest := if bool_decide (provenance source = Some reference_digest) then ob_provenanceDigest o else None |}
  | _, _ => Throw TypeError
  end.

(** The buckets of the requested keys and the refused readings. *)
Definition file_reading (at_ : string) (organizationId : option string) (st : JsMap (list ContextFactObservation) * list RefusedContextObservation) (o : ContextFactObservation) :=
  match map_get (ob_key o) st.1 with
  | None => st
  | Some bucket =>
      match refusalOf o at_ organizationId with
      | Some reason => (st.1, st.2 ++ [{| rf_key := ob_key o; rf_sourceId := source_name o; rf_reason := reason |}])
      | None => (map_set (ob_key o) (bucket ++ [o]) st.1, st.2)
      end
  end.

(** The facts of one requested key; [None] when nothing answered it. *)
Definition classify_key (at_ : string) (usable : list ContextFactObservation) : result ContextThrow (option (list ContextFact)) :=
  match usable with
  | [] => Ok None
  | first :: rest =>
      if (1 <? length (nub (admissible_value ∘ ob_value <$> usable)))%nat then
        let disagreeing o := source_name <$> List.filter (λ p, negb (bool_decide (admissible_value (ob_value p) = admissible_value (ob_value o)))) usable in
        let* l := collect (λ o, toFact o conflicted at_ (Some (disagreeing o))) usable in Ok (Some l)
      else
        let winner := preferred first rest in
        let* fact := toFact winner (freshnessStatus winner at_) at_ None in Ok (Some [fact])
  end.

Definition derive (d : ContextDerivation) (l : list ContextFact) (at_ : string) : result ContextThrow (option ContextFact) :=
  match mapM (λ k, resolved_fact k l) (operandKeys d) with
  | None => Ok None
  | Some operands =>
      match evaluateContextDerivation (operator d) (fact_value <$> operands) with
      | Failed _ => Ok None
      | Computed n =>
          match admissible_value (JsNum n) with
          | None => Ok None
          | Some value =>
              let earlier oldest f := match date_parse (fact_observedAt f), date_parse oldest with Some t, Some o => if t <? o then fact_observedAt f else oldest | _, _ => oldest end in
              let observedAt := foldl earlier (match operands with f :: _ => fact_observedAt f | [] => at_ end) operands in
              let maxAgeSeconds := map_get (dv_key d) (requirementsByKey svc) ≫= rq_maxAgeSeconds in
              let* fresh := toFreshness observedAt maxAgeSeconds in
              Ok (Some {| fact_key := dv_key d; fact_value := value; fact_sourceId := CONTEXT_DERIVED_SOURCE_ID; fact_sourceKind := internal_store;
                          fact_observedAt := observedAt; fact_trustClass := derived; effectiveTrustClass := minimumContextTrustClass (effectiveTrustClass <$> operands);
                          resolution := match maxAgeSeconds with None => resolved | Some age => if isFreshAt observedAt age at_ then resolved else stale end;
                          freshness := fresh; fact_attestationRef := None; derivation := Some {| fd_operator := operator d; fd_operandKeys := operandKeys d |};
                          conflictingSourceIds := None; fact_reference := None; fact_provenanceDigest := None |})
          end
      end
  end.

Fixpoint classify_keys (at_ : string) (m : JsMap (list ContextFactObservation)) (keys : list string) (l : list ContextFact) (missing : list string) : result ContextThrow (list ContextFact * list string) :=
  match keys with
  | [] => Ok (l, missing)
  | k :: keys =>
      let* found := classify_key at_ (deduplicated (default [] (map_get k m))) in
      match found with
      | None => classify_keys at_ m keys l (missing ++ [k])
      | Some new => classify_keys at_ m keys (l ++ new) missing
      end
  end.
Fixpoint derive_all (at_ : string) (ds : list ContextDerivation) (l : list ContextFact) (missing : list string) : result ContextThrow (list ContextFact * list string) :=
  match ds with
  | [] => Ok (l, missing)
  | d :: ds =>
      let* fact := derive d l at_ in
      match fact with
      | None => derive_all at_ ds l (missing ++ [dv_key d])
      | Some f => derive_all at_ ds (l ++ [f]) missing
      end
  end.

Definition uniqueSortedKeys (l : list ContextFact) (status : ResolvedContextFactStatus) : list string :=
  sort_strings (nub (fact_key <$> List.filter (λ f, bool_decide (resolution f = status)) l)).

Definition classify (observations : list ContextFactObservation) (at_ : string) (organizationId : option string) : result ContextThrow ContextResolution :=
  let '(byKey, refused) := foldl (file_reading at_ organizationId) (foldl (λ m k, map_set k [] m) [] (requested svc), []) observations in
  let* read := classify_keys at_ byKey (requested svc) [] [] in
  let* all := derive_all at_ (derivations svc) read.1 read.2 in
  let ordered := merge_sort (by_texts byKeyThenSource) all.1 in
  Ok {| is_resolved := true; declaredKeys := declared svc; facts := ordered; unresolved := sort_strings (nub all.2);
        stale_keys := uniqueSortedKeys ordered stale; conflicted_keys := uniqueSortedKeys ordered conflicted;
        refused := merge_sort (by_texts byRefusal) refused; assertedFactPolicy := service_assertedFactPolicy svc;
        assertableKeys := service_assertableKeys svc; resolvedAt := at_ |}.
End Service.

(** ** Orders *)

Lemma slt_trans a b c : slt a b → slt b c → slt a c.
Proof.
  rewrite !slt_iff. intros [L1 N1] [L2 N2]. split; [by transitivity b|]. intros ->. apply N1. by apply (anti_symm String.le).
Qed.
Lemma slt_total a b : slt a b ∨ a = b ∨ slt b a.
Proof. rewrite !slt_iff. destruct (decide (a = b)); [tauto|]. destruct (total String.le a b); [left|right; right]; auto. Qed.

#[export] Instance texts_le_trans : Transitive texts_le.
Proof.
  intros l. induction l as [|x l IH]; intros [|y k] [|z m]; cbn; try done.
  intros [L|[-> L]] [M|[-> M]]; eauto using slt_trans.
Qed.
#[export] Instance texts_le_total : Total texts_le.
Proof.
  intros l. induction l as [|x l IH]; intros [|y k]; cbn; auto.
  destruct (slt_total x y) as [?|[->|?]]; auto. destruct (IH k); auto.
Qed.
#[export] Instance texts_le_anti : AntiSymm (=) texts_le.
Proof.
  intros l. induction l as [|x l IH]; intros [|y k]; cbn; try done.
  intros [L|[-> L]] [M|[E M]]; subst; try (by destruct (slt_irrefl y)); try (by destruct (slt_irrefl x)).
  - by destruct (slt_irrefl x); apply slt_trans with y.
  - by f_equal; apply IH.
Qed.
#[export] Instance by_texts_trans {A} (fields : A → list string) : Transitive (by_texts fields).
Proof. intros x y z. apply (transitivity (R := texts_le)). Qed.
#[export] Instance by_texts_total {A} (fields : A → list string) : Total (by_texts fields).
Proof. intros x y. apply (total texts_le). Qed.

(** A list whose elements the fields tell apart has one sorted permutation. *)
Lemma by_texts_unique {A} (fields : A → list string) l k :
  (∀ x y, x ∈ l → y ∈ l → fields x = fields y → x = y) → l ≡ₚ k → merge_sort (by_texts fields) l = merge_sort (by_texts fields) k.
Proof.
  intros Hinj Hp. apply (StronglySorted_unique_strong (by_texts fields)).
  - intros x y Hx Hy Hxy Hyx. rewrite merge_sort_Permutation in Hx. rewrite merge_sort_Permutation, <-Hp in Hy.
    apply Hinj; [done..|]. by apply (anti_symm texts_le).
  - apply (StronglySorted_merge_sort (by_texts fields)).
  - apply (StronglySorted_merge_sort (by_texts fields)).
  - by rewrite !merge_sort_Permutation.
Qed.
Lemma elem_of_merged {A} (fields : A → list string) x l : x ∈ merge_sort (by_texts fields) l ↔ x ∈ l.
Proof. by rewrite merge_sort_Permutation. Qed.

Lemma refusal_name_inj r s : refusal_name r = refusal_name s → r = s.
Proof. by destruct r, s. Qed.
Lemma byRefusal_inj r s : byRefusal r = byRefusal s → r = s.
Proof. destruct r, s. unfold byRefusal. cbn. intros [= -> -> E]. by rewrite (refusal_name_inj _ _ E). Qed.

(** ** Admission *)

Section Admission.
Context `{JsHost} `{ContextHost}.
Context (svc : ContextResolutionService) (at_ : string) (org : option string).

Definition admitted (o : ContextFactObservation) : bool := negb (is_some (refusalOf svc o at_ org)).
Definition readings (key : string) (l : list ContextFactObservation) : list ContextFactObservation :=
  List.filter (λ o, str_eqb (ob_key o) key && admitted o) l.
Definition refusal_entry (o : ContextFactObservation) : option RefusedContextObservation :=
  if bool_decide (ob_key o ∈ requested svc) then
    (λ reason, {| rf_key := ob_key o; rf_sourceId := source_name o; rf_reason := reason |}) <$> refusalOf svc o at_ org
  else None.

Lemma empty_buckets keys k m :
  map_get k (foldl (λ m k, map_set k [] m) m keys) = if bool_decide (k ∈ keys) then Some ([] : list ContextFactObservation) else map_get k m.
Proof.
  revert m. induction keys as [|j keys IH]; intros m; cbn; [done|]. rewrite IH.
  destruct (decide (k ∈ keys)) as [Hk|Hk]; [by rewrite !bool_decide_true by set_solver|].
  rewrite (bool_decide_false (k ∈ keys)) by done. rewrite map_get_set.
  destruct (str_eqb j k) eqn:E; [apply str_eqb_eq in E as ->; by rewrite bool_decide_true by set_solver|].
  apply str_eqb_neq in E. by rewrite bool_decide_false by set_solver.
Qed.

Lemma filed_readings (l : list ContextFactObservation) m r :
  (∀ k, is_Some (map_get k m) ↔ k ∈ requested svc) →
  let st := foldl (file_reading svc at_ org) (m, r) l in
  (∀ k, map_get k st.1 = (λ b, b ++ readings k l) <$> map_get k m) ∧ st.2 = r ++ omap refusal_entry l.
Proof.
  revert m r. induction l as [|o l IH]; intros m r Hm; cbn -[refusal_entry].
  { split; [intros k; cbn; destruct (map_get k m); cbn; by rewrite ?app_nil_r|by rewrite app_nil_r]. }
  unfold file_reading at 2 4. cbn [fst snd]. unfold refusal_entry at 1.
  destruct (map_get (ob_key o) m) as [bucket|] eqn:Eb.
  2: { rewrite bool_decide_false by (rewrite <-Hm, Eb; by apply is_Some_None). destruct (IH m r Hm) as [Hg Hr].
       split; [|exact Hr]. intros k. rewrite Hg. unfold readings. cbn. destruct (str_eqb (ob_key o) k) eqn:E; [|done].
       apply str_eqb_eq in E as <-. by rewrite Eb. }
  rewrite bool_decide_true by (by rewrite <-Hm, Eb).
  destruct (refusalOf svc o at_ org) as [reason|] eqn:Er; cbn [fmap option_fmap option_map].
  - destruct (IH m (r ++ [{| rf_key := ob_key o; rf_sourceId := source_name o; rf_reason := reason |}]) Hm) as [Hg Hr].
    split; [|by rewrite Hr, <-app_assoc]. intros k. rewrite Hg. unfold readings. cbn. unfold admitted at 2. rewrite Er. cbn. by rewrite andb_false_r.
  - assert (∀ k, is_Some (map_get k (map_set (ob_key o) (bucket ++ [o]) m)) ↔ k ∈ requested svc) as Hm'.
    { intros k. rewrite map_get_set. destruct (str_eqb (ob_key o) k) eqn:E; [|apply Hm].
      apply str_eqb_eq in E as <-. rewrite <-Hm, Eb. by split. }
    destruct (IH _ r Hm') as [Hg Hr]. split; [|exact Hr]. intros k. rewrite Hg, map_get_set. unfold readings. cbn. unfold admitted at 2. rewrite Er. cbn. rewrite andb_true_r.
    destruct (str_eqb (ob_key o) k) eqn:E; [|done]. apply str_eqb_eq in E as <-. rewrite Eb. cbn. by rewrite <-app_assoc.
Qed.

Lemma elem_of_readings o key l : o ∈ readings key l ↔ o ∈ l ∧ ob_key o = key ∧ refusalOf svc o at_ org = None.
Proof.
  unfold readings, admitted. rewrite !list_elem_of_In, filter_In, andb_true_iff, str_eqb_eq, negb_true_iff.
  destruct (refusalOf svc o at_ org); cbn; naive_solver.
Qed.

(** What admission means: the cited source is configured, entitled to the fact
    class and to the organization; the reading is in time, its value is
    admissible, an attestation was verified, and provenance recomputes where
    the source demands it. *)
Record admissible (o : ContextFactObservation) (source : ContextSource) (t : Z) (v : ContextFactValue) : Prop := {
  ad_source : ∃ id, ob_sourceId o = Some id ∧ map_get id (registry svc) = Some source;
  ad_configured : src_id source ≠ CONTEXT_DERIVED_SOURCE_ID;
  ad_entitled : is_Some (contextSourceAttestationFor source (ob_key o));
  ad_source_org : ∀ x, src_organizationId source = Some x → org = Some x;
  ad_reading_org : ∀ x, ob_organizationId o = Some x → org = Some x;
  ad_time : ∃ text, ob_observedAt o = Some text ∧ date_parse text = Some t;
  ad_not_future : ∃ now, date_parse at_ = Some now ∧ t - now ≤ maxFutureSkewSeconds svc * 1000;
  ad_value : admissible_value (ob_value o) = Some v;
  ad_attested : src_trustClass source = Attested → (∃ ref, ob_attestationRef o = Some ref ∧ blank ref = false) ∧ attestationVerified svc source o = true;
  ad_provenance : provenance source = Some reference_digest → hasValidProvenance o = true;
}.

Lemma organization_check (a b : option string) `{Decision (a = b)} : is_some a && negb (bool_decide (a = b)) = false ↔ ∀ x, a = Some x → b = Some x.
Proof. destruct a as [x|]; cbn; [|naive_solver]. rewrite negb_false_iff, bool_decide_eq_true. naive_solver. Qed.
Lemma blank_default (o : option string) : blank (default "" o) = false ↔ ∃ x, o = Some x ∧ blank x = false.
Proof. destruct o as [x|]; cbn; [naive_solver|]. split; [done|naive_solver]. Qed.

Lemma admitted_sound o : refusalOf svc o at_ org = None → ∃ source t v, admissible o source t v.
Proof.
  unfold refusalOf. destruct (ob_sourceId o) as [id|] eqn:Eid; cbn; [|done]. destruct (map_get id (registry svc)) as [source|] eqn:Es; [|done].
  destruct (str_eqb (src_id source) _) eqn:Ed; [done|]. destruct (contextSourceAttestationFor source (ob_key o)) eqn:Ea; cbn; [|done].
  destruct (is_some (src_organizationId source) && _) eqn:Eo; [done|]. destruct (is_some (ob_organizationId o) && _) eqn:Er; [done|].
  destruct (ob_observedAt o) as [text|] eqn:Et; [|done]. destruct (date_parse text) as [t|] eqn:Ep; cbn; [|done].
  unfold isFutureDatedAt. rewrite Ep. destruct (date_parse at_) as [now|] eqn:En; [|done]. destruct (maxFutureSkewSeconds svc * 1000 <? t - now) eqn:Ef; [done|].
  unfold isAdmissibleContextFactValue. destruct (admissible_value (ob_value o)) as [v|] eqn:Ev; cbn; [|done].
  destruct (bool_decide (src_trustClass source = Attested) && blank _) eqn:Em; [done|].
  destruct (bool_decide (src_trustClass source = Attested) && negb _) eqn:Ei; [done|].
  destruct (bool_decide (provenance source = _) && _) eqn:Ev'; [done|]. intros _. exists source, t, v.
  apply str_eqb_neq in Ed. rewrite organization_check in Eo, Er. split; eauto.
  - exists now. split; [done|lia].
  - intros Hc. rewrite bool_decide_true in Em, Ei by done. cbn in *. apply negb_false_iff in Ei. by apply blank_default in Em.
  - intros Hc. rewrite bool_decide_true in Ev' by done. by apply negb_false_iff in Ev'.
Qed.

Lemma admitted_complete o source t v : admissible o source t v → refusalOf svc o at_ org = None.
Proof.
  intros [(id&Eid&Es) Hd Ha Hso Hro (text&Et&Ep) (now&En&Hf) Hv Hat Hp]. unfold refusalOf. rewrite Eid. cbn. rewrite Es.
  apply str_eqb_neq in Hd. rewrite Hd. destruct Ha as [a ->]. cbn. rewrite (proj2 (organization_check _ _) Hso), (proj2 (organization_check _ _) Hro), Et, Ep. cbn.
  unfold isFutureDatedAt, isAdmissibleContextFactValue. rewrite Ep, En, Hv. rewrite (proj2 (Z.ltb_ge _ _)) by lia. cbn.
  case_bool_decide as Hc; cbn.
  - destruct (Hat Hc) as [Hr ->]. apply blank_default in Hr. rewrite Hr. cbn. case_bool_decide as Hq; cbn; [by rewrite Hp|done].
  - case_bool_decide as Hq; cbn; [by rewrite Hp|done].
Qed.
End Admission.

(** ** One reading per source and value *)

Section Duplicates.
Context `{JsHost}.

Lemma kept_filed l m : filed identity m → filed identity (foldl keep_reading m l).
Proof.
  revert m. induction l as [|o l IH]; intros m Hm; cbn; [done|]. apply IH. unfold keep_reading.
  destruct (map_get _ _); [destruct (laterReading _ _)|]; auto using filed_set.
Qed.
Lemma kept_from l m o : filed identity m → o ∈ map_values (foldl keep_reading m l) → o ∈ map_values m ∨ o ∈ l.
Proof.
  revert m. induction l as [|p l IH]; intros m Hm; cbn; [auto|]. intros Ho.
  assert (filed identity (keep_reading m p) ∧ (o ∈ map_values (keep_reading m p) → o ∈ map_values m ∨ o = p)) as [Hf Hk].
  { assert (o ∈ map_values (map_set (identity p) p m) → o ∈ map_values m ∨ o = p) as Hs.
    { rewrite !(filed_values identity) by auto using filed_set. rewrite map_get_set. destruct (str_eqb (identity p) (identity o)); naive_solver. }
    unfold keep_reading. destruct (map_get (identity p) m); [destruct (laterReading _ _)|]; auto using filed_set. }
  apply IH in Ho as [Ho|Ho]; [|set_solver|done]. apply Hk in Ho as [?| ->]; set_solver.
Qed.
Lemma kept_some l m k : is_Some (map_get k m) → is_Some (map_get k (foldl keep_reading m l)).
Proof.
  revert m. induction l as [|p l IH]; intros m Hm; cbn; [done|]. apply IH. unfold keep_reading.
  destruct (map_get (identity p) m); [destruct (laterReading _ _); [|done]|]; rewrite map_get_set; by destruct (str_eqb (identity p) k).
Qed.
Lemma kept_each l m o : o ∈ l → is_Some (map_get (identity o) (foldl keep_reading m l)).
Proof.
  revert m. induction l as [|p l IH]; intros m Ho; [by apply not_elem_of_nil in Ho|]. cbn. apply elem_of_cons in Ho as [<-|Ho]; [|by apply IH].
  apply kept_some. unfold keep_reading. destruct (map_get (identity o) m) eqn:E; [destruct (laterReading _ _); [|by rewrite E]|]; by rewrite map_get_set_eq.
Qed.

Lemma deduplicated_sound l o : o ∈ deduplicated l → o ∈ l.
Proof.
  unfold deduplicated. rewrite elem_of_merged. intros Ho. apply kept_from in Ho as [Ho|Ho]; [set_solver|done|apply filed_nil].
Qed.
Lemma deduplicated_complete l o : o ∈ l → ∃ p, p ∈ deduplicated l ∧ identity p = identity o.
Proof.
  intros Ho. destruct (kept_each l [] o Ho) as [p Hp]. assert (filed identity (foldl keep_reading [] l)) as Hf by apply kept_filed, filed_nil.
  exists p. assert (identity p = identity o) as E by (by apply Hf). split; [|done]. unfold deduplicated. rewrite elem_of_merged.
  apply (filed_values identity); [done|]. by rewrite E.
Qed.
Lemma deduplicated_nil l : deduplicated l = [] ↔ l = [].
Proof.
  split; [|by intros ->]. intros E. destruct l as [|o l]; [done|]. destruct (deduplicated_complete (o :: l) o) as (p&Hp&_); [set_solver|].
  rewrite E in Hp. by apply not_elem_of_nil in Hp.
Qed.

(** Readings that their identities tell apart are all kept. *)
Lemma kept_distinct l m : NoDup (map_keys m ++ (identity <$> l)) → foldl keep_reading m l = m ++ ((λ o, (identity o, o)) <$> l).
Proof.
  revert m. induction l as [|o l IH]; intros m Hn; cbn; [by rewrite app_nil_r|].
  assert (identity o ∉ map_keys m) as Hni by (cbn in Hn; apply NoDup_app in Hn as (_&Hd&_); intros Hi; apply (Hd _ Hi); set_solver).
  unfold keep_reading at 2. rewrite (proj2 (map_get_None _ _) Hni), (map_set_fresh _ _ _ (proj2 (map_get_None _ _) Hni)).
  rewrite IH; [by rewrite <-app_assoc|]. unfold map_keys in *. rewrite fmap_app, <-app_assoc. exact Hn.
Qed.
Lemma deduplicated_distinct l : NoDup (identity <$> l) → deduplicated l = merge_sort (by_texts bySource) l.
Proof.
  intros Hn. unfold deduplicated. rewrite kept_distinct by exact Hn. cbn. unfold map_values. by rewrite <-list_fmap_compose, list_fmap_id.
Qed.
End Duplicates.

Definition no_nul (s : string) : Prop := Ascii.zero ∉ chars s.

Lemma typeof_no_nul v : no_nul (typeof_value v).
Proof. unfold no_nul. destruct v; cbn; set_solver. Qed.
Lemma value_text_inj v w a b : admissible_value v = Some a → admissible_value w = Some b → typeof_value v = typeof_value w → value_text v = value_text w → v = w.
Proof.
  destruct v as [| |x|n|s| | | |], w as [| |y|m|t| | | |]; cbn; try done.
  - by destruct x, y.
  - destruct n, m; cbn; try done. intros _ _ _ E. do 2 f_equal.
    destruct (bigint_unambiguous z z0 "" "") as [-> _]; [done|done| |done]. by rewrite E.
  - by intros _ _ _ ->.
Qed.
(** Readings of one identity say the same thing. *)
Lemma identity_value o p a b :
  no_nul (source_name o) → no_nul (source_name p) → admissible_value (ob_value o) = Some a → admissible_value (ob_value p) = Some b →
  identity o = identity p → source_name o = source_name p ∧ ob_value o = ob_value p.
Proof.
  unfold identity. intros Ho Hp Ha Hb E. apply delimited_text in E as [Es E]; [|done..]. split; [done|].
  apply delimited_text in E as [Et E]; [|apply typeof_no_nul..]. by eapply value_text_inj.
Qed.

(** ** The facts of one key *)

Section Classification.
Context `{JsHost} `{ContextHost}.
Context (svc : ContextResolutionService).

Definition rank_of_reading (o : ContextFactObservation) : Z := TERMINAL_RANK (trustClassOf svc o).
(** [w] is at least as good a reading as [o]: of a higher class, or of the same
    class and no earlier. *)
Definition outranks (w o : ContextFactObservation) : Prop :=
  rank_of_reading o < rank_of_reading w ∨
  rank_of_reading o = rank_of_reading w ∧ ∃ t u, date_parse (observed_time w) = Some t ∧ date_parse (observed_time o) = Some u ∧ u ≤ t.
Definition timed (o : ContextFactObservation) : Prop := is_Some (date_parse (observed_time o)).

Lemma outranks_refl o : timed o → outranks o o.
Proof. intros [t Ht]. right. split; [done|]. by exists t, t. Qed.
Lemma outranks_trans a b c : outranks a b → outranks b c → outranks a c.
Proof.
  intros [L|(E&t&u&Ht&Hu&L)] [M|(F&t'&u'&Ht'&Hu'&M)]; unfold outranks; [left; lia..|]. right. split; [lia|].
  exists t, u'. rewrite Hu in Ht'. injection Ht' as <-. split_and!; [done..|lia].
Qed.
Lemma better_outranks c b : timed c → timed b → if better svc c b then outranks c b else outranks b c.
Proof.
  intros [t Ht] [u Hu]. unfold better, contextTrustClassSatisfies, outranks, rank_of_reading. rewrite Ht, Hu.
  set (x := TERMINAL_RANK (trustClassOf svc c)). set (y := TERMINAL_RANK (trustClassOf svc b)).
  destruct ((y <=? x) && negb (x <=? y)) eqn:E1; [left; lia|]. destruct ((x <=? y) && negb (y <=? x)) eqn:E2; [left; lia|].
  assert (x = y) as -> by lia.
  destruct ((u <? t) || ((t =? u) && str_ltb (source_name c) (source_name b))) eqn:E3; right; (split; [done|]).
  - exists t, u. split_and!; [done..|]. apply orb_true_iff in E3 as [?|[? _]%andb_true_iff]; lia.
  - exists u, t. split_and!; [done..|]. apply orb_false_iff in E3 as [? _]. lia.
Qed.
Lemma preferred_best first rest :
  Forall timed (first :: rest) → preferred svc first rest ∈ first :: rest ∧ ∀ o, o ∈ first :: rest → outranks (preferred svc first rest) o.
Proof.
  unfold preferred. revert first. induction rest as [|c rest IH]; intros first Ht.
  { apply Forall_cons in Ht as [Ht _]. split; [set_solver|]. intros o ->%list_elem_of_singleton. by apply outranks_refl. }
  apply Forall_cons in Ht as [Hf [Hc Ht]%Forall_cons]. cbn. pose proof (better_outranks c first Hc Hf) as Hb.
  assert (∀ b, timed b → b ∈ [first; c] → outranks b first → outranks b c →
    foldl (λ best candidate, if better svc candidate best then candidate else best) b rest ∈ first :: c :: rest ∧
    ∀ o, o ∈ first :: c :: rest → outranks (foldl (λ best candidate, if better svc candidate best then candidate else best) b rest) o) as Hgo.
  { intros b Hb1 Hb2 Hb3 Hb4. destruct (IH b) as [Hin Hbest]; [by constructor|]. split; [set_solver|].
    intros o [->|[->|Ho]%elem_of_cons]%elem_of_cons; [| |apply Hbest; set_solver]; (apply (outranks_trans _ b); [apply Hbest; set_solver|done]). }
  destruct (better svc c first); apply Hgo; auto using outranks_refl; set_solver.
Qed.

Lemma toFact_shape o status at_ conflicting f :
  toFact svc o status at_ conflicting = Ok f →
  fact_key f = ob_key o ∧ Some (fact_value f) = admissible_value (ob_value o) ∧ fact_sourceId f = source_name o ∧ fact_observedAt f = observed_time o ∧
  effectiveTrustClass f = trustClassOf svc o ∧ fact_trustClass f = class_of (trustClassOf svc o) ∧
  resolution f = if bool_decide (status = conflicted) then conflicted else freshnessStatus svc o at_.
Proof.
  unfold toFact, trustClassOf. destruct (map_get (source_name o) (registry svc)) as [source|]; [|done].
  destruct (admissible_value (ob_value o)) as [v|]; [|done]. intros (fresh&_&E)%result_bind_Ok. by injection E as <-.
Qed.

Lemma collect_elem {X A B} (g : A → result X B) l k : collect g l = Ok k → ∀ y, y ∈ k ↔ ∃ x, x ∈ l ∧ g x = Ok y.
Proof.
  revert k. induction l as [|x l IH]; intros k; cbn; [intros [= <-]; set_solver|].
  intros (y&Hy&(rest&Hr&E)%result_bind_Ok)%result_bind_Ok. injection E as <-. specialize (IH _ Hr).
  intros z. rewrite elem_of_cons, IH. split; [|intros (x'&[->|Hx]%elem_of_cons&Hg); [left; congruence|eauto]].
  intros [->|(x'&Hx&Hg)]; [exists x|exists x']; split; (done || set_solver).
Qed.

Definition agree (l : list ContextFactObservation) : Prop := ∀ o p, o ∈ l → p ∈ l → ob_value o = ob_value p.
Definition valued (o : ContextFactObservation) : Prop := is_Some (admissible_value (ob_value o)).

Lemma admissible_value_inj v w a : admissible_value v = Some a → admissible_value w = Some a → v = w.
Proof.
  destruct v as [| |x|[]|s| | | |], w as [| |y|[]|t| | | |]; cbn; try done; repeat (destruct (_ && _)); try done; naive_solver.
Qed.
Lemma one_value {A} `{EqDecision B} (g : A → B) x l : (1 <? length (nub (g <$> x :: l)))%nat = false ↔ ∀ y z, y ∈ x :: l → z ∈ x :: l → g y = g z.
Proof.
  rewrite Nat.ltb_ge. split.
  - intros Hl y z Hy Hz. apply (list_elem_of_fmap_2 g), elem_of_nub in Hy, Hz.
    destruct (nub (g <$> x :: l)) as [|b [|c m]]; cbn in Hl; [by apply not_elem_of_nil in Hy| |lia].
    apply list_elem_of_singleton in Hy, Hz. congruence.
  - intros Hg. pose proof (NoDup_nub (g <$> x :: l)) as Hn.
    destruct (nub (g <$> x :: l)) as [|b [|c m]] eqn:E; cbn; [lia..|]. exfalso.
    assert (∃ y, y ∈ x :: l ∧ b = g y) as (y&Hy&->) by (assert (b ∈ g <$> x :: l) as Hb by (apply elem_of_nub; rewrite E; set_solver); apply list_elem_of_fmap in Hb as (y&->&?); eauto).
    assert (∃ z, z ∈ x :: l ∧ c = g z) as (z&Hz&->) by (assert (c ∈ g <$> x :: l) as Hb by (apply elem_of_nub; rewrite E; set_solver); apply list_elem_of_fmap in Hb as (z&->&?); eauto).
    apply NoDup_cons in Hn as [Hn _]. apply Hn. rewrite (Hg y z Hy Hz). set_solver.
Qed.

(** A key answered by readings that agree has one fact, of the best reading;
    one they dispute has only conflicted facts, one for each. *)
Lemma classify_key_exact at_ l a :
  Forall timed l → Forall valued l → classify_key svc at_ l = Ok a →
  match a with
  | None => l = []
  | Some fs =>
      agree l ∧ (∃ w f, w ∈ l ∧ (∀ o, o ∈ l → outranks w o) ∧ toFact svc w (freshnessStatus svc w at_) at_ None = Ok f ∧ fs = [f]) ∨
      ¬ agree l ∧ fs ≠ [] ∧ ∀ f, f ∈ fs → resolution f = conflicted ∧ ∃ o, o ∈ l ∧ fact_key f = ob_key o
  end.
Proof.
  intros Ht Hv. destruct l as [|o l]; cbn [classify_key]; [by intros [= <-]|].
  destruct (1 <? _)%nat eqn:E.
  - intros (fs&Hc&Ea)%result_bind_Ok. injection Ea as <-. pose proof (collect_elem _ _ _ Hc) as Hfs. right. split_and!.
    + intros Ha. apply not_false_iff_true in E. apply E, one_value. intros y z Hy Hz. cbn. by rewrite (Ha y z Hy Hz).
    + cbn in Hc. apply result_bind_Ok in Hc as (f&_&(rest&_&Er)%result_bind_Ok). by injection Er as <-.
    + intros f (p&Hp&Hf)%Hfs. apply toFact_shape in Hf as (Hk&_&_&_&_&_&Hr). split; [exact Hr|eauto].
  - intros (f&Hf&Ea)%result_bind_Ok. injection Ea as <-. left. destruct (preferred_best o l Ht) as [Hin Hbest]. split; [|eauto 10].
    rewrite one_value in E. intros y z Hy Hz. specialize (E y z Hy Hz). cbn in E. rewrite Forall_forall in Hv. destruct (Hv y Hy) as [vy Ey].
    apply (admissible_value_inj _ _ vy); [done|]. by rewrite <-E.
Qed.
End Classification.

(** ** The whole resolution *)

Section Resolution.
Context `{JsHost} `{ContextHost}.
Context (svc : ContextResolutionService) (at_ : string) (org : option string).

Lemma classify_key_from l fs f : classify_key svc at_ l = Ok (Some fs) → f ∈ fs → ∃ o status c, o ∈ l ∧ toFact svc o status at_ c = Ok f.
Proof.
  destruct l as [|o l]; cbn [classify_key]; [done|]. destruct (1 <? _)%nat.
  - intros (k&Hc&Ea)%result_bind_Ok. injection Ea as <-. intros (p&Hp&Hf)%(collect_elem _ _ _ Hc). eauto.
  - intros (k&Hc&Ea)%result_bind_Ok. injection Ea as <-. intros ->%list_elem_of_singleton. do 3 eexists. split; [|exact Hc].
    unfold preferred. clear Hc. revert o. induction l as [|p l IH]; intros o; cbn; [set_solver|].
    destruct (better svc p o); [specialize (IH p)|specialize (IH o)]; set_solver.
Qed.

Lemma classify_keys_exact m keys l missing l' missing' :
  classify_keys svc at_ m keys l missing = Ok (l', missing') →
  let answer k := classify_key svc at_ (deduplicated (default [] (map_get k m))) in
  (∀ k, k ∈ keys → ∃ a, answer k = Ok a) ∧
  (∀ f, f ∈ l' ↔ f ∈ l ∨ ∃ k fs, k ∈ keys ∧ answer k = Ok (Some fs) ∧ f ∈ fs) ∧
  (∀ k, k ∈ missing' ↔ k ∈ missing ∨ k ∈ keys ∧ answer k = Ok None).
Proof.
  revert l missing. induction keys as [|k keys IH]; intros l missing; cbn [classify_keys].
  { intros [= <- <-]. cbn. split_and!; [set_solver|set_solver|]. intros k. split; [auto|intros [?|[Hk _]]; [done|by apply not_elem_of_nil in Hk]]. }
  cbn zeta. intros (a&Ha&Hr)%result_bind_Ok.
  destruct a as [fs|]; apply IH in Hr as (Hall&Hf&Hm); (split_and!; [intros j [->|Hj]%elem_of_cons; [by eexists|by apply Hall]| |]).
  - intros f. rewrite Hf, elem_of_app. split.
    + intros [[?|?]|(j&gs&Hj&Hg&?)]; [auto|right; exists k, fs; set_solver|right; exists j, gs; set_solver].
    + intros [?|(j&gs&[->|Hj]%elem_of_cons&Hg&?)]; [auto| |eauto 10]. assert (gs = fs) as -> by congruence. auto.
  - intros j. rewrite Hm, elem_of_cons. split; [tauto|]. intros [?|[[->|?] ?]]; [auto|congruence|auto].
  - intros f. rewrite Hf. split; [intros [?|(j&gs&Hj&?)]; [auto|right; exists j, gs; set_solver]|].
    intros [?|(j&gs&[->|Hj]%elem_of_cons&Hg&?)]; [auto|congruence|eauto 10].
  - intros j. rewrite Hm, elem_of_app, list_elem_of_singleton, elem_of_cons. split; [intros [[?| ->]|[? ?]]; auto|]. intros [?|[[->|?] ?]]; auto.
Qed.

(** A derived fact, with the facts it was computed from. *)
Record derives (d : ContextDerivation) (operands : list ContextFact) (f : ContextFact) : Prop := {
  dr_key : fact_key f = dv_key d;
  dr_operands : Forall2 (λ k g, fact_key g = k ∧ resolution g = resolved) (operandKeys d) operands;
  dr_value : ∃ n, evaluateContextDerivation (operator d) (fact_value <$> operands) = Computed n ∧ admissible_value (JsNum n) = Some (fact_value f);
  dr_class : fact_trustClass f = derived ∧ effectiveTrustClass f = minimumContextTrustClass (effectiveTrustClass <$> operands);
  dr_status : resolution f ≠ conflicted;
}.

Lemma resolved_fact_sound k l f : resolved_fact k l = Some f → f ∈ l ∧ fact_key f = k ∧ resolution f = resolved.
Proof.
  unfold resolved_fact. intros [Hin Hp]%find_some. apply andb_true_iff in Hp as [Hk Hr].
  by rewrite str_eqb_eq in Hk; rewrite bool_decide_eq_true in Hr; rewrite <-list_elem_of_In in Hin.
Qed.

Lemma derive_exact d l f : derive svc d l at_ = Ok (Some f) → ∃ operands, derives d operands f ∧ ∀ g, g ∈ operands → g ∈ l.
Proof.
  unfold derive. destruct (mapM _ _) as [operands|] eqn:Em; [|done]. destruct (evaluateContextDerivation _ _) as [n|] eqn:Ee; [|done].
  destruct (admissible_value (JsNum n)) as [v|] eqn:Ev; [|done]. intros (fresh&_&E)%result_bind_Ok. injection E as <-.
  apply mapM_Some in Em. exists operands. split.
  - split; cbn; [done| |eauto|done|by repeat case_match].
    eapply Forall2_impl; [exact Em|]. cbn. intros k g Hg%resolved_fact_sound. tauto.
  - intros g Hg. apply list_elem_of_lookup in Hg as [i Hg]. destruct (Forall2_lookup_r _ _ _ _ _ Em Hg) as (k&_&Hk). by apply resolved_fact_sound in Hk as [? _].
Qed.

Lemma derive_all_exact ds l missing l' missing' :
  derive_all svc at_ ds l missing = Ok (l', missing') →
  (∀ f, f ∈ l → f ∈ l') ∧ (∀ k, k ∈ missing' → k ∈ missing ∨ k ∈ dv_key <$> ds) ∧ (∀ k, k ∈ missing → k ∈ missing') ∧
  ∀ (P : ContextFact → Prop), (∀ f, f ∈ l → P f) →
    (∀ d operands f, d ∈ ds → derives d operands f → (∀ g, g ∈ operands → P g ∧ g ∈ l') → P f) → ∀ f, f ∈ l' → P f.
Proof.
  revert l missing. induction ds as [|d ds IH]; intros l missing; cbn [derive_all]; [intros [= <- <-]; set_solver|].
  intros (a&Ha&Hr)%result_bind_Ok. destruct a as [f|].
  - apply IH in Hr as (Hl&Hm&Hk&Hp). split_and!; [set_solver|set_solver|done|]. intros P Hbase Hstep.
    assert (P f) as Pf.
    { destruct (derive_exact _ _ _ Ha) as (operands&Hd&Hops). apply (Hstep d operands f); [set_solver|done|]. intros g Hg. split; [auto|]. apply Hl. set_solver. }
    apply Hp; [intros g [Hg| ->%list_elem_of_singleton]%elem_of_app; auto|]. intros d' ops g Hd'. apply Hstep. set_solver.
  - apply IH in Hr as (Hl&Hm&Hk&Hp). split_and!; [set_solver|set_solver|set_solver|]. intros P Hbase Hstep.
    apply Hp; [done|]. intros d' ops g Hd'. apply Hstep. set_solver.
Qed.

Definition answer_of (observations : list ContextFactObservation) (k : string) : result ContextThrow (option (list ContextFact)) :=
  classify_key svc at_ (deduplicated (readings svc at_ org k observations)).

Lemma classify_parts observations r :
  classify svc observations at_ org = Ok r →
  ∃ read missing all unanswered,
    is_resolved r = true ∧ declaredKeys r = declared svc ∧ assertedFactPolicy r = service_assertedFactPolicy svc ∧ assertableKeys r = service_assertableKeys svc ∧ resolvedAt r = at_ ∧
    refused r = merge_sort (by_texts byRefusal) (omap (refusal_entry svc at_ org) observations) ∧
    (∀ k, k ∈ requested svc → ∃ a, answer_of observations k = Ok a) ∧
    (∀ f, f ∈ read ↔ ∃ k fs, k ∈ requested svc ∧ answer_of observations k = Ok (Some fs) ∧ f ∈ fs) ∧
    (∀ k, k ∈ missing ↔ k ∈ requested svc ∧ answer_of observations k = Ok None) ∧
    derive_all svc at_ (derivations svc) read missing = Ok (all, unanswered) ∧
    facts r = merge_sort (by_texts byKeyThenSource) all ∧ unresolved r = sort_strings (nub unanswered) ∧
    stale_keys r = uniqueSortedKeys (facts r) stale ∧ conflicted_keys r = uniqueSortedKeys (facts r) conflicted.
Proof.
  unfold classify.
  destruct (filed_readings svc at_ org observations (foldl (λ m k, map_set k [] m) [] (requested svc)) []) as [Hb Hr].
  { intros k. rewrite empty_buckets. case_bool_decide; cbn; split; (done || by intros []). }
  destruct (foldl _ _ observations) as [m rs]. cbn [fst snd] in *. intros ([read missing]&Hk&([all unanswered]&Hd&E)%result_bind_Ok)%result_bind_Ok.
  apply classify_keys_exact in Hk as (Hall&Hf&Hm). injection E as <-. cbn in *.
  assert (∀ k, k ∈ requested svc → default [] (map_get k m) = readings svc at_ org k observations) as Hbucket.
  { intros k Hk. rewrite Hb, empty_buckets, bool_decide_true by done. done. }
  exists read, missing, all, unanswered. unfold answer_of. split_and!; try done.
  - by rewrite Hr.
  - intros k Hk. destruct (Hall k Hk) as [a Ha]. exists a. by rewrite <-Hbucket.
  - intros f. rewrite Hf. split; [intros [[]%not_elem_of_nil|(k&fs&Hk&Ha&Hi)]|intros (k&fs&Hk&Ha&Hi); right]; exists k, fs; [rewrite <-Hbucket by done|rewrite Hbucket by done]; done.
  - intros k. rewrite Hm. split; [intros [[]%not_elem_of_nil|[Hk Ha]]|intros [Hk Ha]; right]; (split; [done|]); [rewrite <-Hbucket by done|rewrite Hbucket by done]; done.
Qed.
End Resolution.

(** ** The reading kept for an identity is the latest *)

Section Latest.
Context `{JsHost}.

Definition no_earlier (p o : ContextFactObservation) : Prop :=
  ∃ t u, date_parse (observed_time p) = Some t ∧ date_parse (observed_time o) = Some u ∧ u ≤ t.
Lemma no_earlier_trans a b c : no_earlier a b → no_earlier b c → no_earlier a c.
Proof. intros (t&u&Ht&Hu&L) (t'&u'&Ht'&Hu'&M). exists t, u'. rewrite Hu in Ht'. injection Ht' as <-. split_and!; [done..|lia]. Qed.
Lemma laterReading_time c d : timed c → timed d → if laterReading c d then no_earlier c d else no_earlier d c.
Proof.
  intros [t Ht] [u Hu]. unfold laterReading, no_earlier. rewrite Ht, Hu. destruct (t =? u) eqn:E.
  - apply Z.eqb_eq in E as ->. destruct (str_ltb _ _); exists u, u; done.
  - destruct (u <? t) eqn:E'; [exists t, u|exists u, t]; (split_and!; [done..|lia]).
Qed.

(** The entry under [k] when the fold reaches it, if any, is no later than the
    one it ends with. *)
Lemma kept_no_earlier l m k q :
  Forall timed l → (∀ p, p ∈ map_values m → timed p) → filed identity m → map_get k m = Some q →
  ∃ p, map_get k (foldl keep_reading m l) = Some p ∧ no_earlier p q.
Proof.
  intros Hl. revert m q. induction Hl as [|o l Ho Hl IH]; intros m q Hm Hf Hq; cbn.
  { exists q. split; [done|]. assert (timed q) as [t Ht] by (apply Hm, (filed_values identity); [done|]; by rewrite (proj2 Hf k q Hq)). by exists t, t. }
  assert (timed q) as Hqt by (apply Hm, (filed_values identity); [done|]; by rewrite (proj2 Hf k q Hq)).
  assert (∀ p, p ∈ map_values (map_set (identity o) o m) → timed p) as Hset.
  { intros p Hp. apply (filed_values identity) in Hp; [|by apply filed_set]. rewrite map_get_set in Hp.
    destruct (str_eqb _ _); [by injection Hp as <-|]. apply Hm. by apply (filed_values identity). }
  unfold keep_reading at 2. destruct (map_get (identity o) m) as [c|] eqn:Ec; [destruct (laterReading o c) eqn:El|].
  - destruct (str_eqb (identity o) k) eqn:Ek; [apply str_eqb_eq in Ek as <-|apply str_eqb_neq in Ek].
    + destruct (IH (map_set (identity o) o m) o) as (p&Hp&Hn); [done|by apply filed_set|apply map_get_set_eq|]. exists p. split; [done|].
      apply (no_earlier_trans _ o); [done|]. assert (c = q) as <- by congruence. pose proof (laterReading_time o c Ho Hqt) as Ht. by rewrite El in Ht.
    + apply IH; [done|by apply filed_set|by rewrite map_get_set_ne].
  - by apply IH.
  - apply IH; [done|by apply filed_set|]. rewrite map_get_set_ne; [done|]. intros <-. congruence.
Qed.
Lemma kept_latest l m o :
  Forall timed l → (∀ p, p ∈ map_values m → timed p) → filed identity m → o ∈ l →
  ∃ p, map_get (identity o) (foldl keep_reading m l) = Some p ∧ no_earlier p o.
Proof.
  intros Hl. revert m. induction Hl as [|x l Hx Hl IH]; intros m Hm Hf Ho; [by apply not_elem_of_nil in Ho|].
  assert ((∀ p, p ∈ map_values (keep_reading m x) → timed p) ∧ filed identity (keep_reading m x)) as [Hm' Hf'].
  { split; [|apply (kept_filed [x] m Hf)]. intros p Hp. destruct (kept_from [x] m p Hf Hp) as [?| ->%list_elem_of_singleton]; auto. }
  cbn. apply elem_of_cons in Ho as [->|Ho]; [|by apply IH].
  assert (∃ q, map_get (identity x) (keep_reading m x) = Some q ∧ no_earlier q x) as (q&Hq&Hn).
  { assert (no_earlier x x) as Hxx by (destruct Hx as [t Ht]; by exists t, t). unfold keep_reading.
    destruct (map_get (identity x) m) as [c|] eqn:Ec; [|exists x; by rewrite map_get_set_eq].
    assert (timed c) as Hc by (apply Hm, (filed_values identity); [done|]; by rewrite (proj2 Hf _ c Ec)).
    pose proof (laterReading_time x c Hx Hc) as Ht. destruct (laterReading x c); [exists x; by rewrite map_get_set_eq|by exists c]. }
  destruct (kept_no_earlier l (keep_reading m x) _ q Hl Hm' Hf' Hq) as (p&Hp&Hn'). exists p. split; [done|]. by apply (no_earlier_trans _ q).
Qed.
Lemma deduplicated_latest l o : Forall timed l → o ∈ l → ∃ p, p ∈ deduplicated l ∧ identity p = identity o ∧ no_earlier p o.
Proof.
  intros Hl Ho. destruct (kept_latest l [] o Hl) as (p&Hp&Hn); [set_solver|apply filed_nil|done|]. exists p.
  assert (filed identity (foldl keep_reading [] l)) as Hf by apply kept_filed, filed_nil.
  assert (identity p = identity o) as E by (by apply Hf). split_and!; [|done..]. unfold deduplicated. rewrite elem_of_merged.
  apply (filed_values identity); [done|]. by rewrite E.
Qed.
End Latest.

(** ** Configured services *)

Lemma register_sources_get vs m l vs' m' :
  register_sources vs m l = (vs', m') → ∀ id s, map_get id m' = Some s → map_get id m = Some s ∨ s ∈ l ∧ src_id s = id.
Proof.
  revert vs m. induction l as [|x l IH]; intros vs m; cbn; [intros [= <- <-]; auto|].
  destruct (str_eqb _ _); intros Hr id s Hs; apply (IH _ _ Hr) in Hs as [Hs|[Hs <-]]; [auto|right; set_solver| |right; set_solver].
  rewrite map_get_set in Hs. destruct (str_eqb (src_id x) id) eqn:E; [|auto]. apply str_eqb_eq in E. injection Hs as <-. right; set_solver.
Qed.

Section Built.
Context (sources : list ContextSource) (d : ContextDeclaration) (verifier : option ContextAttestationVerifier) (svc : ContextResolutionService).
Context (built : new_service sources d verifier = Ok svc).

Lemma built_parts :
  validateContextDeclaration d = [] ∧ (∃ m, register_sources [] [] sources = ([], m) ∧ registry svc = map_set CONTEXT_DERIVED_SOURCE_ID CONTEXT_DERIVED_SOURCE m) ∧
  declaration svc = d ∧ derivations svc = default [] (dc_derivations d) ∧ maxFutureSkewSeconds svc = default 0 (dc_maxFutureSkewSeconds d) ∧
  requirementsByKey svc = foldl (λ m r, map_set (rq_key r) r m) [] (requirements d) ∧
  (∀ k, k ∈ requested svc ↔ k ∈ requirement_keys d ∧ k ∉ derived_keys d) ∧ NoDup (requested svc) ∧
  (∀ k, k ∈ declared svc ↔ k ∈ requirement_keys d ∨ k ∈ derived_keys d).
Proof.
  unfold new_service in built. destruct (validateContextDeclaration d); [|done]. apply result_bind_Ok in built as (m&Hm&E). injection E as <-. cbn.
  unfold ContextSourceRegistry in Hm. destruct (register_sources [] [] sources) as [[] m']; [|done]. injection Hm as <-.
  split_and!; try done; [by exists m'| | |].
  - intros k. rewrite elem_of_sort_strings, list_elem_of_In, filter_In, <-list_elem_of_In, elem_of_nub, negb_true_iff, bool_decide_eq_false. done.
  - rewrite sort_strings_perm. apply NoDup_ListNoDup, List.NoDup_filter, NoDup_ListNoDup, NoDup_nub.
  - intros k. by rewrite elem_of_sort_strings, elem_of_nub, elem_of_app, elem_of_nub.
Qed.

Lemma built_registry id s : map_get id (registry svc) = Some s → src_id s = id ∧ (s ∈ sources ∨ s = CONTEXT_DERIVED_SOURCE).
Proof.
  destruct built_parts as (_&(m&Hm&->)&_). rewrite map_get_set. destruct (str_eqb _ _) eqn:E.
  - apply str_eqb_eq in E as <-. intros [= <-]. auto.
  - intros Hs. apply (register_sources_get _ _ _ _ _ Hm) in Hs as [Hs|[Hs <-]]; [done|auto].
Qed.

Lemma validated_keys seen l vs seen' : validate_requirements seen l = (vs, seen') → vs = [] → NoDup (rq_key <$> l) ∧ ∀ k, k ∈ rq_key <$> l → k ∉ seen.
Proof.
  revert seen vs seen'. induction l as [|r l IH]; intros seen vs seen'; cbn [validate_requirements].
  { intros _ _. split; [constructor|]. intros k Hk. by apply not_elem_of_nil in Hk. }
  destruct (blank (rq_key r)).
  { destruct (validate_requirements seen l) as [rest s]. by intros [= <- <-]. }
  destruct (validate_requirements (rq_key r :: seen) l) as [rest s] eqn:E. intros [= <- <-] Hv.
  apply app_eq_nil in Hv as [H1 [_ [_ H2]%app_eq_nil]%app_eq_nil]. destruct (IH _ _ _ E H2) as [Hn Hs]. unfold when in H1. case_bool_decide as Hb; [done|].
  cbn. split; [constructor; [intros Hk; apply (Hs _ Hk); set_solver|done]|]. intros k [->|Hk]%elem_of_cons; [done|]. specialize (Hs _ Hk). set_solver.
Qed.
Lemma requirement_map l m r : NoDup (rq_key <$> l) → r ∈ l → map_get (rq_key r) (foldl (λ m r, map_set (rq_key r) r m) m l) = Some r.
Proof.
  revert m. induction l as [|x l IH]; intros m Hn Hr; [by apply not_elem_of_nil in Hr|]. cbn in *. apply NoDup_cons in Hn as [Hx Hn].
  apply elem_of_cons in Hr as [->|Hr]; [|by apply IH].
  assert (∀ m, map_get (rq_key x) (foldl (λ m r, map_set (rq_key r) r m) m l) = map_get (rq_key x) m) as ->; [|by rewrite map_get_set_eq].
  clear - Hx. induction l as [|y l IH]; intros m; cbn in *; [done|]. rewrite IH by set_solver. rewrite map_get_set_ne by set_solver. done.
Qed.
Lemma built_requirement rq : rq ∈ requirements d → map_get (rq_key rq) (requirementsByKey svc) = Some rq.
Proof.
  intros Hr. destruct built_parts as (Hv&_&_&_&_&->&_). apply requirement_map; [|done]. unfold validateContextDeclaration in Hv.
  destruct (validate_requirements [] (requirements d)) as [vs seen] eqn:E. apply app_eq_nil in Hv as [Hv _]. by apply (validated_keys _ _ _ _ E).
Qed.
End Built.
