(* ===== verification/ContextSafety.v ===== *)
(** * What trusted context guarantees

    Theorems about the service of [ContextResolution]: what a satisfied read
    means for the readings a connector returned, on what readings a derived
    fact rests, that a resolution does not depend on the order of the readings
    (and the two ways in which it does), and when the code throws. *)

From S2P Require Import Prelude Decimal Js JsMap StableJson HashChain ContextResolution.

Local Open Scope Z_scope.
Local Open Scope frontera_scope.

Lemma elem_of_uniqueSortedKeys k l s : k ∈ uniqueSortedKeys l s ↔ ∃ f, f ∈ l ∧ fact_key f = k ∧ resolution f = s.
Proof.
  unfold uniqueSortedKeys. rewrite elem_of_sort_strings, elem_of_nub, list_elem_of_fmap. split.
  - intros (f&->&Hf). rewrite list_elem_of_In, filter_In, <-list_elem_of_In, bool_decide_eq_true in Hf. naive_solver.
  - intros (f&Hf&<-&Hs). exists f. split; [done|]. by rewrite list_elem_of_In, filter_In, <-list_elem_of_In, bool_decide_eq_true.
Qed.
Lemma resolved_fact_exact k l : (∀ f g, f ∈ l → g ∈ l → fact_key f = k → fact_key g = k → f = g) →
  ∀ f, f ∈ l → fact_key f = k → resolution f = resolved → resolved_fact k l = Some f.
Proof.
  intros Hu f Hf Hk Hr. destruct (resolved_fact k l) as [g|] eqn:E.
  - apply resolved_fact_sound in E as (Hg&Hgk&_). f_equal. by apply Hu.
  - unfold resolved_fact in E. apply list_elem_of_In in Hf. pose proof (find_none _ _ E f Hf) as Hn. cbn in Hn.
    apply str_eqb_eq in Hk. by rewrite Hk, bool_decide_true in Hn.
Qed.
Lemma resolved_fact_none k l : (∀ f, f ∈ l → fact_key f = k → resolution f ≠ resolved) → resolved_fact k l = None.
Proof.
  intros Hn. destruct (resolved_fact k l) as [g|] eqn:E; [|done]. apply resolved_fact_sound in E as (Hg&Hk&Hr). by destruct (Hn g Hg Hk).
Qed.

Lemma reading_no_nul `{JsHost} `{ContextHost} sources d verifier svc at_ org k l o :
  new_service sources d verifier = Ok svc → Forall no_nul (src_id <$> sources) → o ∈ readings svc at_ org k l → no_nul (source_name o).
Proof.
  intros Hb Hpl (_&_&Ha)%elem_of_readings. apply admitted_sound in Ha as (s&t&v&Ha). destruct (ad_source _ _ _ _ _ _ _ Ha) as (id&Eid&Es).
  unfold source_name. rewrite Eid. cbn. destruct (built_registry _ _ _ _ Hb _ _ Es) as [<- [Hs| ->]].
  - rewrite Forall_fmap in Hpl. rewrite Forall_forall in Hpl. by apply Hpl.
  - unfold no_nul. cbn. set_solver.
Qed.

Section Reading.
Context `{JsHost} `{ContextHost}.
Context (sources : list ContextSource) (d : ContextDeclaration) (verifier : option ContextAttestationVerifier) (svc : ContextResolutionService).
Context (built : new_service sources d verifier = Ok svc) (plain : Forall no_nul (src_id <$> sources)).
Context (observations : list ContextFactObservation) (at_ : string) (org : option string) (r : ContextResolution).
Context (classified : classify svc observations at_ org = Ok r).
Notation R k := (readings svc at_ org k observations).

Lemma reading_facts k o : o ∈ R k → ob_key o = k ∧ timed o ∧ valued o ∧ no_nul (source_name o).
Proof.
  intros Ho. pose proof Ho as (_&Hk&Ha)%elem_of_readings. apply admitted_sound in Ha as (s&t&v&Ha).
  destruct (ad_time _ _ _ _ _ _ _ Ha) as (text&Et&Ep). split_and!; [done| | |by eapply reading_no_nul].
  - exists t. unfold observed_time. by rewrite Et.
  - eexists. apply Ha.
Qed.
Lemma deduplicated_facts k : Forall timed (deduplicated (R k)) ∧ Forall valued (deduplicated (R k)) ∧ ∀ o, o ∈ deduplicated (R k) → o ∈ R k ∧ ob_key o = k.
Proof.
  split_and!; [apply Forall_forall; intros o Ho%deduplicated_sound%reading_facts..|]; [tauto..|].
  intros o Ho%deduplicated_sound. split; [done|]. by apply reading_facts.
Qed.
Lemma deduplicated_agree k : agree (deduplicated (R k)) ↔ agree (R k).
Proof.
  split; intros Ha o p Ho Hp.
  - destruct (deduplicated_complete (R k) o Ho) as (o'&Ho'&Eo), (deduplicated_complete (R k) p Hp) as (p'&Hp'&Ep).
    assert (∀ x y, x ∈ R k → y ∈ deduplicated (R k) → identity y = identity x → ob_value x = ob_value y) as Hv.
    { intros x y Hx Hy E. apply deduplicated_sound in Hy. destruct (reading_facts k x Hx) as (_&_&[a Hva]&Hnx), (reading_facts k y Hy) as (_&_&[b Hvb]&Hny).
      symmetry. by apply (identity_value y x b a). }
    rewrite (Hv o o'), (Hv p p') by done. by apply Ha.
  - apply Ha; by apply deduplicated_sound.
Qed.
Lemma deduplicated_outranks k w : w ∈ deduplicated (R k) → (∀ o, o ∈ deduplicated (R k) → outranks svc w o) → ∀ o, o ∈ R k → outranks svc w o.
Proof.
  intros Hw Hb o Ho. destruct (deduplicated_latest (R k) o) as (p&Hp&E&Hn); [apply Forall_forall; intros x Hx; by apply reading_facts in Hx as (_&?&_)|done|].
  apply (outranks_trans _ _ p); [by apply Hb|]. right. split; [|exact Hn]. unfold rank_of_reading, trustClassOf.
  pose proof (deduplicated_sound _ _ Hp) as Hp'. destruct (reading_facts k o Ho) as (_&_&[a Ha]&Hno), (reading_facts k p Hp') as (_&_&[b Hb']&Hnp).
  by destruct (identity_value p o b a) as [-> _].
Qed.

(** The facts of a requested key are those of its readings. *)
Lemma key_facts k f : k ∈ requested svc → f ∈ facts r ∧ fact_key f = k ↔ ∃ fs, answer_of svc at_ org observations k = Ok (Some fs) ∧ f ∈ fs.
Proof.
  intros Hk. destruct (built_parts _ _ _ _ built) as (_&_&_&Hder&_&_&Hreq&_).
  destruct (classify_parts _ _ _ _ _ classified) as (read&missing&all&un&_&_&_&_&_&_&_&Hread&_&Hda&Hfacts&_). rewrite Hfacts, elem_of_merged.
  destruct (derive_all_exact _ _ _ _ _ _ _ Hda) as (Hsub&_&_&Hind). split.
  - intros [Hf Hfk]. assert (f ∈ read) as Hr; [|apply Hread in Hr as (k'&fs&Hk'&Ha&Hi)].
    { apply (Hind (λ f, fact_key f = k → f ∈ read)); [done| |done|done]. intros dv ops g Hd Hg _ Hgk. exfalso.
      apply Hreq in Hk as [_ Hk]. apply Hk. unfold derived_keys. rewrite <-Hder. apply list_elem_of_fmap. exists dv. split; [|done]. by rewrite <-(dr_key _ _ _ Hg). }
    exists fs. split; [|done]. destruct (classify_key_from _ _ _ _ _ Ha Hi) as (o&st&c&Ho&(Hok&_)%toFact_shape).
    apply deduplicated_facts in Ho as [_ Ho]. congruence.
  - intros (fs&Ha&Hi). split; [apply Hsub, Hread; eauto|]. destruct (classify_key_from _ _ _ _ _ Ha Hi) as (o&st&c&Ho&(Hok&_)%toFact_shape).
    apply deduplicated_facts in Ho as [_ Ho]. congruence.
Qed.

(** How a read of a requested key comes out, from the readings alone. *)
Inductive outcome (rq : ContextRequirement) : Prop :=
  | out_unanswered : R (rq_key rq) = [] → read_status (readContextFact r rq) = unanswered → outcome rq
  | out_disputed : ¬ agree (R (rq_key rq)) → read_status (readContextFact r rq) = disputed → outcome rq
  | out_answered w v : w ∈ R (rq_key rq) → agree (R (rq_key rq)) → (∀ o, o ∈ R (rq_key rq) → outranks svc w o) → admissible_value (ob_value w) = Some v →
      (freshnessStatus svc w at_ = stale ∧ read_status (readContextFact r rq) = too_old ∨
       freshnessStatus svc w at_ = resolved ∧
       read_status (readContextFact r rq) =
         (if negb (contextTrustClassSatisfies (trustClassOf svc w) (minimumTrustClass rq)) then insufficient_trust
          else if bool_decide (trustClassOf svc w = Asserted) && (bool_decide (contextDeclarationAssertedFactPolicy d = require_declaration) &&
                 negb (bool_decide (rq_key rq ∈ default [] (dc_assertableKeys d)))) then asserted_not_declared
          else satisfied) ∧
       (read_status (readContextFact r rq) = satisfied → read_value (readContextFact r rq) = Some v)) → outcome rq.

Lemma read_unanswered rq : rq_key rq ∈ declared svc → (∀ f, f ∈ facts r → fact_key f ≠ rq_key rq) → read_status (readContextFact r rq) = unanswered.
Proof.
  intros Hd Hn. destruct (classify_parts _ _ _ _ _ classified) as (?&?&?&?&Er&Ed&_&_&_&_&_&_&_&_&_&_&Es&Ec). unfold readContextFact. rewrite Er, Ed. cbn.
  rewrite bool_decide_true by done. cbn. assert (∀ st, rq_key rq ∉ uniqueSortedKeys (facts r) st) as Hu by (intros st; rewrite elem_of_uniqueSortedKeys; intros (f&Hf&Hk&_); by destruct (Hn f)).
  rewrite Es, Ec, (bool_decide_false _ (Hu conflicted)), (bool_decide_false _ (Hu stale)).
  rewrite resolved_fact_none; [done|]. intros f Hf Hk. by destruct (Hn f).
Qed.

Lemma read_outcome rq : rq ∈ requirements d → rq_key rq ∉ derived_keys d → outcome rq.
Proof.
  intros Hrq Hnd. destruct (built_parts _ _ _ _ built) as (_&_&Hdecl&_&_&_&Hreq&_&Hdk). set (k := rq_key rq) in *.
  assert (k ∈ requirement_keys d) as Hin by (by apply list_elem_of_fmap; exists rq).
  assert (k ∈ requested svc) as Hk by (by apply Hreq). assert (k ∈ declared svc) as Hd by (apply Hdk; auto).
  pose proof (λ f, key_facts k f Hk) as Hkf. destruct (classify_parts _ _ _ _ _ classified) as (?&?&?&?&Er&Ed&Ep&Ea&_&_&Hans&_&_&_&_&_&Es&Ec).
  destruct (deduplicated_facts k) as (Ht&Hv&Hdd). destruct (Hans k Hk) as [a Hans']. pose proof (classify_key_exact _ _ _ _ Ht Hv Hans') as Hx.
  destruct a as [fs|].
  2: { apply (proj1 (deduplicated_nil _)) in Hx. apply out_unanswered; [exact Hx|]. apply read_unanswered; [exact Hd|]. intros f Hf Hfk.
       destruct (proj1 (Hkf f) (conj Hf Hfk)) as (fs&E&_). congruence. }
  assert (∀ f, f ∈ facts r ∧ fact_key f = k ↔ f ∈ fs) as Hfs by (intros f; rewrite Hkf; split; [intros (?&?&?); congruence|eauto]).
  destruct Hx as [(Hag&w&f&Hw&Hbest&Hf& ->)|(Hna&Hne&Hall)].
  - apply deduplicated_agree in Hag. destruct (toFact_shape _ _ _ _ _ _ Hf) as (_&Hval&_&_&Hcl&_&Hst).
    apply (out_answered rq w (fact_value f)); [by apply Hdd|exact Hag|by apply deduplicated_outranks|done|].
    destruct (proj2 (Hfs f)) as [Hin' Hfk]; [set_solver|].
    assert (∀ g, g ∈ facts r → fact_key g = k → g = f) as Hu by (intros g ? ?; apply list_elem_of_singleton, Hfs; done).
    assert (∀ s, s ≠ resolution f → k ∉ uniqueSortedKeys (facts r) s) as Hnot by (intros s Hs; rewrite elem_of_uniqueSortedKeys; intros (g&Hg&Hgk&Hgs); rewrite (Hu g Hg Hgk) in Hgs; congruence).
    assert (resolution f = freshnessStatus svc w at_) as Hst' by (rewrite Hst; unfold freshnessStatus; by repeat case_match).
    unfold readContextFact. rewrite Er, Ed. cbn. fold k. rewrite (bool_decide_true (k ∈ declared svc)) by done. cbn. rewrite Ec, Es.
    rewrite (bool_decide_false (k ∈ uniqueSortedKeys _ conflicted)) by (apply Hnot; rewrite Hst'; unfold freshnessStatus; by repeat case_match).
    destruct (freshnessStatus svc w at_) eqn:Efr; [right|left|]; [| |exfalso; unfold freshnessStatus in Efr; by repeat case_match].
    + rewrite (bool_decide_false (k ∈ uniqueSortedKeys _ stale)) by (apply Hnot; congruence).
      rewrite (resolved_fact_exact k (facts r)) with (f := f); [|intros g h ? ? ? ?; by rewrite (Hu g), (Hu h)|done|done|congruence].
      rewrite Hcl, Ep, Ea. unfold service_assertedFactPolicy, service_assertableKeys. rewrite Hdecl.
      rewrite (bool_decide_ext (k ∈ sort_strings _) (k ∈ default [] (dc_assertableKeys d))) by apply elem_of_sort_strings.
      split; [done|]. by repeat case_match.
    + rewrite (bool_decide_true (k ∈ uniqueSortedKeys _ stale)); [done|]. apply elem_of_uniqueSortedKeys. exists f. split_and!; [done..|congruence].
  - rewrite deduplicated_agree in Hna. apply out_disputed; [exact Hna|]. destruct fs as [|f fs]; [done|]. destruct (proj2 (Hfs f)) as [Hin' Hfk]; [set_solver|].
    destruct (Hall f) as [Hfc _]; [set_solver|]. unfold readContextFact. rewrite Er, Ed. cbn. fold k. rewrite (bool_decide_true (k ∈ declared svc)) by done. cbn.
    rewrite Ec, bool_decide_true; [done|]. apply elem_of_uniqueSortedKeys. eauto.
Qed.

Lemma foldl_min_lt x l b : b < foldl Z.min x l ↔ b < x ∧ ∀ y, y ∈ l → b < y.
Proof.
  revert x. induction l as [|y l IH]; intros x; cbn; [set_solver|]. rewrite IH. split.
  - intros [Hm Hl]. split; [lia|]. intros z [->|Hz]%elem_of_cons; [lia|auto].
  - intros [Hx Hl]. split; [specialize (Hl y); set_solver by lia|]. set_solver.
Qed.
Lemma fresh_iff o : freshnessStatus svc o at_ = resolved ↔ ∀ b, b ∈ age_bounds svc (ob_key o) o → isFreshAt (observed_time o) b at_ = true.
Proof.
  unfold freshnessStatus, maxAgeFor, isFreshAt. destruct (age_bounds svc (ob_key o) o) as [|x l]; [split; [|done]; intros _ b Hb; by apply not_elem_of_nil in Hb|].
  destruct (date_parse (observed_time o)) as [t|], (date_parse at_) as [now|]; try (split; [done|]; intros Hb; specialize (Hb x); set_solver).
  assert (∀ a b : Z, a <? b * 1000 = true ↔ a / 1000 < b) as Hz by (intros a b; rewrite Z.ltb_lt; split; [intros; apply Z.div_lt_upper_bound; lia|intros; pose proof (Z.div_mod a 1000); pose proof (Z.mod_pos_bound a 1000); lia]).
  destruct (now - t <? foldl Z.min x l * 1000) eqn:E.
  - split; [|done]. intros _ b Hb. apply Hz. apply Hz, foldl_min_lt in E as [Hx Hl]. apply elem_of_cons in Hb as [->|Hb]; auto.
  - split; [done|]. intros Hb. exfalso. apply not_true_iff_false in E. apply E, Hz, foldl_min_lt. split; [apply Hz, Hb; set_solver|]. intros y Hy. apply Hz, Hb. set_solver.
Qed.

(** A reading that satisfies a requirement: admitted, within every freshness
    bound that applies to it (the source's for the class, the requirement's,
    its own), of a sufficient class, and of a declared key when the requester
    supplied it and the deployment demands a declaration. *)
Record satisfies (rq : ContextRequirement) (o : ContextFactObservation) (source : ContextSource) (t now : Z) (v : ContextFactValue) : Prop := {
  sat_admitted : admissible svc at_ org o source t v;
  sat_at : date_parse at_ = Some now;
  sat_required_age : ∀ m, rq_maxAgeSeconds rq = Some m → now - t < m * 1000;
  sat_source_age : ∀ a m, contextSourceAttestationFor source (ob_key o) = Some a → at_maxAgeSeconds a = Some m → now - t < m * 1000;
  sat_reading_age : ∀ b, ob_maxAgeSeconds o = Some b → now - t < reading_bound b * 1000;
  sat_class : TERMINAL_RANK (minimumTrustClass rq) ≤ TERMINAL_RANK (src_trustClass source);
  sat_posture : src_trustClass source = Asserted → contextDeclarationAssertedFactPolicy d = require_declaration → rq_key rq ∈ default [] (dc_assertableKeys d);
}.

(** The bounds on a reading, one by one. *)
Lemma bounds_iff rq o source (P : Z → Prop) :
  rq ∈ requirements d → ob_key o = rq_key rq → map_get (source_name o) (registry svc) = Some source →
  (∀ b, b ∈ age_bounds svc (ob_key o) o → P b) ↔
  (∀ m, rq_maxAgeSeconds rq = Some m → P m) ∧ (∀ a m, contextSourceAttestationFor source (ob_key o) = Some a → at_maxAgeSeconds a = Some m → P m) ∧
  (∀ b, ob_maxAgeSeconds o = Some b → P (reading_bound b)).
Proof.
  intros Hrq Hk Hs. unfold age_bounds. rewrite Hs. cbn. rewrite (f_equal (λ k, map_get k (requirementsByKey svc)) Hk), (built_requirement _ _ _ _ built _ Hrq). cbn.
  assert (∀ (x : option Z) b, b ∈ option_list x ↔ x = Some b) as Ho by (intros [x|] b; cbn; set_solver).
  setoid_rewrite elem_of_app. setoid_rewrite elem_of_app. setoid_rewrite Ho. split.
  - intros Hb. split_and!; [auto| |intros b Eb; apply Hb; right; right; by rewrite Eb]. intros a m Ea Em. apply Hb. left. by rewrite Ea.
  - intros (H1&H2&H3) b [E|[E|E]]; [|auto|destruct (ob_maxAgeSeconds o); [by injection E as <-; auto|done]].
    destruct (contextSourceAttestationFor source (ob_key o)) as [a|] eqn:Ea; [|done]. by apply (H2 a).
Qed.

Lemma satisfies_iff rq o v : rq ∈ requirements d → o ∈ R (rq_key rq) →
  (∃ source t now, satisfies rq o source t now v) ↔
  admissible_value (ob_value o) = Some v ∧ freshnessStatus svc o at_ = resolved ∧ contextTrustClassSatisfies (trustClassOf svc o) (minimumTrustClass rq) = true ∧
  (trustClassOf svc o = Asserted → contextDeclarationAssertedFactPolicy d = require_declaration → rq_key rq ∈ default [] (dc_assertableKeys d)).
Proof.
  intros Hrq (_&Hk&Hadm)%elem_of_readings. destruct (admitted_sound _ _ _ _ Hadm) as (source&t&v'&Ha). pose proof Ha as [(id&Eid&Es) _ _ _ _ (text&Et&Ep) (now&En&_) Hv _ _].
  assert (map_get (source_name o) (registry svc) = Some source) as Hs by (unfold source_name; by rewrite Eid).
  assert (observed_time o = text) as Hot by (unfold observed_time; by rewrite Et).
  rewrite fresh_iff, (bounds_iff rq o source) by done. unfold isFreshAt, trustClassOf, contextTrustClassSatisfies. rewrite Hs, Hot, Ep, En. setoid_rewrite Z.ltb_lt. rewrite Z.leb_le. split.
  - intros (source'&t'&now'&[[(id'&Eid'&Es') _ _ _ _ (text'&Et'&Ep') _ Hv' _ _] En' H1 H2 H3 H4 H5]).
    assert (source' = source) as -> by congruence. assert (t' = t) as -> by congruence. assert (now' = now) as -> by congruence. done.
  - intros (Hvv&(H1&H2&H3)&H4&H5). assert (v' = v) as -> by congruence. by exists source, t, now.
Qed.
End Reading.

(** What a satisfied read of declared context means. For a requirement on a
    key that no derivation computes, and the readings [R] of that key that the
    boundary admitted: the read is unresolved exactly when there are none and
    conflicted exactly when they disagree; a satisfied read reports a value on
    which all of them agree, that of an admitted reading within every freshness
    bound, of a sufficient class and outranked by none; and when every admitted
    reading satisfies the requirement with one value, the read is satisfied
    with it. *)
Theorem context_read_exact `{JsHost} `{ContextHost} sources d verifier svc observations at_ org r rq :
  new_service sources d verifier = Ok svc → Forall no_nul (src_id <$> sources) → classify svc observations at_ org = Ok r →
  rq ∈ requirements d → rq_key rq ∉ derived_keys d →
  let R := readings svc at_ org (rq_key rq) observations in
  let read := readContextFact r rq in
  (read_status read = unanswered ↔ R = []) ∧
  (read_status read = disputed ↔ ¬ agree R) ∧
  (read_status read = satisfied → ∃ w source t now v, read_value read = Some v ∧ w ∈ R ∧ satisfies d svc at_ org rq w source t now v ∧
     (∀ o, o ∈ R → ob_value o = ob_value w ∧ outranks svc w o)) ∧
  (∀ v, R ≠ [] → (∀ o, o ∈ R → ∃ source t now, satisfies d svc at_ org rq o source t now v) → read_status read = satisfied ∧ read_value read = Some v).
Proof.
  intros Hb Hp Hc Hrq Hnd. cbn zeta.
  destruct (read_outcome _ _ _ _ Hb Hp _ _ _ _ Hc rq Hrq Hnd) as [HR Hs|Hna Hs|w v Hw Ha Hbest Hv Hs];
    set (R := readings svc at_ org (rq_key rq) observations) in *; set (read := readContextFact r rq) in *.
  - rewrite Hs, HR. split_and!; [done|split; [done|]|done|done]. intros Hna. destruct Hna. intros o p Ho. by apply not_elem_of_nil in Ho.
  - rewrite Hs. split_and!; [split; [done|]|done|done|]; [intros E; destruct Hna; rewrite E; intros o p Ho; by apply not_elem_of_nil in Ho|].
    intros v HR Hall. destruct Hna. intros o p Ho Hp'. destruct (proj1 (satisfies_iff _ _ _ _ Hb Hp _ _ _ _ Hc rq o v Hrq Ho) (Hall o Ho)) as [Ho' _].
    destruct (proj1 (satisfies_iff _ _ _ _ Hb Hp _ _ _ _ Hc rq p v Hrq Hp') (Hall p Hp')) as [Hp'' _]. by apply (admissible_value_inj _ _ v).
  - assert (R ≠ []) as HR by (intros E; rewrite E in Hw; by apply not_elem_of_nil in Hw).
    pose proof (λ v, satisfies_iff _ _ _ _ Hb Hp _ _ _ _ Hc rq w v Hrq Hw) as Hsat.
    destruct Hs as [[Hst Hs]|(Hst&Hs&Hval)].
    + rewrite Hs. split_and!; [done|split; [done|intros Hna; by destruct Hna]|done|]. intros v' _ Hall. destruct (proj1 (Hsat v') (Hall w Hw)) as (_&E&_). congruence.
    + assert (read_status read ≠ unanswered ∧ read_status read ≠ disputed) as [Hn1 Hn2] by (rewrite Hs; by repeat case_match).
      split_and!; [done|split; [done|intros Hna; by destruct Hna]| |].
      * intros Hok. assert (∃ source t now, satisfies d svc at_ org rq w source t now v) as (source&t&now&Hsw).
        { apply Hsat. split_and!; [done..| |]; rewrite Hs in Hok; [by destruct (contextTrustClassSatisfies _ _)|].
          intros E1 E2. destruct (negb _); [done|]. rewrite (bool_decide_true _ E1), (bool_decide_true _ E2) in Hok. cbn in Hok. by case_bool_decide. }
        exists w, source, t, now, v. split_and!; [by apply Hval|done|done|]. intros o Ho. split; [by apply Ha|by apply Hbest].
      * intros v' _ Hall. destruct (proj1 (Hsat v') (Hall w Hw)) as (Ev&_&Hcl&Hpost). assert (v' = v) as -> by congruence.
        assert (read_status read = satisfied) as Hok; [|split; [done|by apply Hval]]. rewrite Hs, Hcl. cbn.
        repeat case_bool_decide; cbn; naive_solver.
Qed.

(** ** Trust is inherited, never gained *)

Lemma lowest_class l c : let m := foldl lower_class c l in m ∈ c :: l ∧ ∀ x, x ∈ c :: l → TERMINAL_RANK m ≤ TERMINAL_RANK x.
Proof.
  revert c. induction l as [|y l IH]; intros c; cbn.
  { split; [set_solver|]. by intros x ->%list_elem_of_singleton. }
  destruct (IH (lower_class c y)) as [Hin Hle]. split.
  - unfold lower_class in *. destruct (_ <? _); set_solver.
  - assert (TERMINAL_RANK (lower_class c y) ≤ TERMINAL_RANK c ∧ TERMINAL_RANK (lower_class c y) ≤ TERMINAL_RANK y) as [L1 L2] by (unfold lower_class; destruct (_ <? _) eqn:E; lia).
    pose proof (Hle (lower_class c y)) as L3. intros x [->|[->|Hx]%elem_of_cons]%elem_of_cons; [..|apply Hle; set_solver]; (transitivity (TERMINAL_RANK (lower_class c y)); [apply L3; set_solver|done]).
Qed.
Lemma minimumContextTrustClass_exact l : l ≠ [] → let m := minimumContextTrustClass l in m ∈ l ∧ ∀ x, x ∈ l → TERMINAL_RANK m ≤ TERMINAL_RANK x.
Proof.
  intros Hl. unfold minimumContextTrustClass. destruct l as [|y l]; [done|]. cbn zeta. destruct (lowest_class (y :: l) Attested) as [Hin Hle]. split; [|intros x Hx; apply Hle; set_solver].
  apply elem_of_cons in Hin as [E|Hin]; [|done]. rewrite E in *. specialize (Hle y). rewrite elem_of_cons. left.
  assert (TERMINAL_RANK Attested ≤ TERMINAL_RANK y) by (apply Hle; set_solver). by destruct y.
Qed.

Lemma validate_derivations_nonempty seen ks ds d : validate_derivations seen ks ds = [] → d ∈ ds → operandKeys d ≠ [].
Proof.
  revert ks. induction ds as [|x ds IH]; intros ks; cbn [validate_derivations]; [set_solver|].
  intros [Hx [_ [_ Hr]%app_eq_nil]%app_eq_nil]%app_eq_nil [->|Hd]%elem_of_cons; [|by apply (IH _ Hr)].
  apply app_eq_nil in Hx as [_ [Hx _]%app_eq_nil]. unfold when in Hx. by case_bool_decide.
Qed.
Lemma built_operands sources d verifier svc dv : new_service sources d verifier = Ok svc → dv ∈ derivations svc → operandKeys dv ≠ [].
Proof.
  intros Hb. destruct (built_parts _ _ _ _ Hb) as (Hv&_&_&->&_). unfold validateContextDeclaration in Hv.
  destruct (validate_requirements [] (requirements d)) as [vs seen]. apply app_eq_nil in Hv as [_ [Hv _]%app_eq_nil]. by eapply validate_derivations_nonempty.
Qed.

Section Trust.
Context `{JsHost} `{ContextHost}.
Context (svc : ContextResolutionService) (at_ : string) (org : option string) (observations : list ContextFactObservation) (l : list ContextFact).

(** The readings behind a fact: its own, or those behind the facts it was
    computed from. *)
Inductive rests_on : ContextFact → ContextFactObservation → Prop :=
  | rests_reading o status c f : o ∈ readings svc at_ org (ob_key o) observations → toFact svc o status at_ c = Ok f → rests_on f o
  | rests_derived d operands f g o : d ∈ derivations svc → derives d operands f → g ∈ operands → g ∈ l → rests_on g o → rests_on f o.

Definition class_rank (f : ContextFact) : Z := TERMINAL_RANK (effectiveTrustClass f).

Lemma derives_nonempty d operands f : operandKeys d ≠ [] → derives d operands f → operands ≠ [].
Proof. intros Hn [_ Hd _ _ _] ->. apply Forall2_nil_inv_r in Hd. done. Qed.
Lemma derives_rank d operands f : operandKeys d ≠ [] → derives d operands f →
  (∃ g, g ∈ operands ∧ class_rank g = class_rank f) ∧ ∀ g, g ∈ operands → class_rank f ≤ class_rank g.
Proof.
  intros Hn Hd. assert (effectiveTrustClass <$> operands ≠ []) as Hne by (intros E%fmap_nil_inv; by destruct (derives_nonempty d operands f)).
  destruct (minimumContextTrustClass_exact _ Hne) as [Hin Hle]. unfold class_rank. destruct (dr_class _ _ _ Hd) as [_ ->]. split.
  - apply list_elem_of_fmap in Hin as (g&Eg&Hg). exists g. by rewrite Eg.
  - intros g Hg. apply Hle. by apply list_elem_of_fmap_2.
Qed.

Lemma rests_on_rank f o : Forall (λ d, operandKeys d ≠ []) (derivations svc) → rests_on f o → refusalOf svc o at_ org = None ∧ class_rank f ≤ rank_of_reading svc o.
Proof.
  intros Hne. induction 1 as [o status c f Ho Hf|d operands f g o Hd Hdr Hg Hl Hr [Hadm IH]].
  - apply elem_of_readings in Ho as (_&_&Ha). apply toFact_shape in Hf as (_&_&_&_&Hc&_). unfold class_rank, rank_of_reading. by rewrite Hc.
  - split; [done|]. rewrite Forall_forall in Hne. destruct (derives_rank d operands f) as [_ Hle]; [by apply Hne|done|]. specialize (Hle g Hg). lia.
Qed.
End Trust.

Lemma facts_grounded `{JsHost} `{ContextHost} sources d verifier svc observations at_ org r :
  new_service sources d verifier = Ok svc → classify svc observations at_ org = Ok r →
  ∀ f, f ∈ facts r → ∃ o, rests_on svc at_ org observations (facts r) f o ∧ rank_of_reading svc o = class_rank f.
Proof.
  intros Hb Hc. destruct (classify_parts _ _ _ _ _ Hc) as (read&missing&all&un&_&_&_&_&_&_&_&Hread&_&Hda&Hfacts&_).
  assert (∀ f, f ∈ facts r ↔ f ∈ all) as Hfa by (intros f; by rewrite Hfacts, elem_of_merged).
  destruct (derive_all_exact _ _ _ _ _ _ _ Hda) as (Hsub&_&_&Hind). intros f Hf. apply Hfa in Hf. revert f Hf. apply Hind.
  - intros f (k&fs&Hk&Ha&Hi)%Hread. destruct (classify_key_from _ _ _ _ _ Ha Hi) as (o&st&c&Ho&Hf). exists o. apply deduplicated_sound in Ho.
    split; [|apply toFact_shape in Hf as (_&_&_&_&Hcl&_); unfold rank_of_reading, class_rank; by rewrite Hcl].
    pose proof Ho as (_&Hok&_)%elem_of_readings. eapply rests_reading; [|exact Hf]. by rewrite Hok.
  - intros dv ops f Hdv Hdr Hops. destruct (derives_rank dv ops f) as [(g&Hg&Eg) _]; [by eapply built_operands|done|].
    destruct (Hops g Hg) as [(o&Ho&Eo) Hga]. exists o. split; [|congruence]. apply (rests_derived _ _ _ _ _ dv ops f g o); [done..|by apply Hfa|done].
Qed.

Lemma no_trust_laundering_lemma `{JsHost} `{ContextHost} sources d verifier svc observations at_ org r rq :
  new_service sources d verifier = Ok svc → classify svc observations at_ org = Ok r → read_status (readContextFact r rq) = satisfied →
  ∃ f, f ∈ facts r ∧ fact_key f = rq_key rq ∧ resolution f = resolved ∧ read_value (readContextFact r rq) = Some (fact_value f) ∧
    (∃ o, rests_on svc at_ org observations (facts r) f o) ∧
    ∀ o, rests_on svc at_ org observations (facts r) f o →
      refusalOf svc o at_ org = None ∧ TERMINAL_RANK (minimumTrustClass rq) ≤ rank_of_reading svc o.
Proof.
  intros Hb Hc Hs. unfold readContextFact in Hs |- *. destruct (negb (is_resolved r)); [done|]. destruct (negb _); [done|]. destruct (bool_decide _); [done|]. destruct (bool_decide _); [done|].
  destruct (resolved_fact (rq_key rq) (facts r)) as [f|] eqn:Ef; [|done]. apply resolved_fact_sound in Ef as (Hf&Hk&Hr).
  destruct (contextTrustClassSatisfies (effectiveTrustClass f) (minimumTrustClass rq)) eqn:Et; [|done]. cbn [negb] in *. apply Z.leb_le in Et.
  exists f. split_and!; [done..| | |].
  - by repeat case_match.
  - destruct (facts_grounded _ _ _ _ _ _ _ _ Hb Hc f Hf) as (o&Ho&_). eauto.
  - intros o Ho. apply rests_on_rank in Ho as [Ha Hle]; [|apply Forall_forall; intros dv Hdv; by eapply built_operands]. split; [done|]. unfold class_rank in Hle. lia.
Qed.

(** C24. No trust laundering. A satisfied read of any requirement, of a key that
    was read or of one that was computed, reports the value of a resolved fact
    that rests on at least one admitted reading, and every reading it rests on,
    through any number of derivations, was admitted from a source of a class no
    lower than the requirement's minimum. *)
Theorem no_trust_laundering `{JsHost} `{ContextHost} sources d verifier svc observations at_ org r rq :
  new_service sources d verifier = Ok svc → classify svc observations at_ org = Ok r → read_status (readContextFact r rq) = satisfied →
  ∃ f, f ∈ facts r ∧ fact_key f = rq_key rq ∧ resolution f = resolved ∧ read_value (readContextFact r rq) = Some (fact_value f) ∧
    (∃ o, rests_on svc at_ org observations (facts r) f o) ∧
    ∀ o, rests_on svc at_ org observations (facts r) f o →
      refusalOf svc o at_ org = None ∧ TERMINAL_RANK (minimumTrustClass rq) ≤ rank_of_reading svc o.
Proof. intros Hb Hc Hs. by eapply no_trust_laundering_lemma. Qed.

(** ** The order of the readings *)

Lemma NoDup_refine {A B C} (f : A → B) (g : A → C) l : (∀ x y, x ∈ l → y ∈ l → g x = g y → f x = f y) → NoDup (f <$> l) → NoDup (g <$> l).
Proof.
  induction l as [|x l IH]; cbn; intros Hfg; [constructor|]. intros [Hx Hn]%NoDup_cons. apply NoDup_cons. split.
  - intros (y&Ey&Hy)%list_elem_of_fmap. apply Hx. apply list_elem_of_fmap. exists y. split; [|done]. apply Hfg; [set_solver..|done].
  - apply IH; [|done]. intros y z Hy Hz. apply Hfg; set_solver.
Qed.
Lemma NoDup_fmap_elem {A B} (f : A → B) l x y : NoDup (f <$> l) → x ∈ l → y ∈ l → f x = f y → x = y.
Proof.
  induction l as [|z l IH]; cbn; [set_solver|]. intros [Hz Hn]%NoDup_cons [->|Hx]%elem_of_cons [->|Hy]%elem_of_cons E; [done| | |auto].
  - destruct Hz. rewrite E. by apply list_elem_of_fmap_2.
  - destruct Hz. rewrite <-E. by apply list_elem_of_fmap_2.
Qed.
Lemma List_filter_perm {A} (p : A → bool) l k : l ≡ₚ k → List.filter p l ≡ₚ List.filter p k.
Proof.
  induction 1 as [|x l k Hp IH|x y l|l k m _ IH1 _ IH2]; cbn; [done| | |by etrans].
  - destruct (p x); [by constructor|done].
  - destruct (p x), (p y); (done || constructor).
Qed.

Section Order.
Context `{JsHost} `{ContextHost}.
Context (svc : ContextResolutionService) (at_ : string) (org : option string).

Lemma classify_keys_ext m m' keys l missing :
  (∀ k, k ∈ keys → deduplicated (default [] (map_get k m)) = deduplicated (default [] (map_get k m'))) →
  classify_keys svc at_ m keys l missing = classify_keys svc at_ m' keys l missing.
Proof.
  revert l missing. induction keys as [|k keys IH]; intros l missing Hk; cbn [classify_keys]; [done|]. rewrite Hk by set_solver.
  destruct (classify_key svc at_ _) as [[fs|]|]; cbn; [apply IH; set_solver..|done].
Qed.

Lemma classify_permuted obs obs' :
  obs ≡ₚ obs' → (∀ k, deduplicated (readings svc at_ org k obs) = deduplicated (readings svc at_ org k obs')) →
  classify svc obs at_ org = classify svc obs' at_ org.
Proof.
  intros Hp Hk. unfold classify. set (m0 := foldl (λ m k, map_set k [] m) [] (requested svc)).
  assert (∀ k, is_Some (map_get k m0) ↔ k ∈ requested svc) as Hm0 by (intros k; unfold m0; rewrite empty_buckets; case_bool_decide; cbn; split; (done || by intros [])).
  destruct (filed_readings svc at_ org obs m0 [] Hm0) as [Hb1 Hr1], (filed_readings svc at_ org obs' m0 [] Hm0) as [Hb2 Hr2].
  destruct (foldl _ _ obs) as [m1 r1], (foldl _ _ obs') as [m2 r2]. cbn [fst snd] in *.
  rewrite (classify_keys_ext m1 m2).
  - destruct (classify_keys svc at_ m2 _ [] []) as [read|]; cbn; [|done]. destruct (derive_all _ _ _ _ _) as [all|]; cbn; [|done]. do 2 f_equal.
    apply by_texts_unique; [intros x y _ _; apply byRefusal_inj|]. rewrite Hr1, Hr2. cbn. by apply omap_Permutation.
  - intros k Hk'. rewrite Hb1, Hb2. assert (map_get k m0 = Some []) as -> by (unfold m0; by rewrite empty_buckets, bool_decide_true). cbn. apply Hk.
Qed.
End Order.

(** The order of a connector's readings does not matter: when no source is
    admitted twice for one key, every permutation of the readings classifies to
    the same resolution, byte for byte, or throws alike. *)
Theorem resolution_order_independent `{JsHost} `{ContextHost} sources d verifier svc obs obs' at_ org :
  new_service sources d verifier = Ok svc → Forall no_nul (src_id <$> sources) → obs ≡ₚ obs' →
  (∀ k, NoDup (source_name <$> readings svc at_ org k obs)) → classify svc obs at_ org = classify svc obs' at_ org.
Proof.
  intros Hb Hpl Hp Hn. apply classify_permuted; [done|]. intros k.
  assert (readings svc at_ org k obs ≡ₚ readings svc at_ org k obs') as Hpk by by apply List_filter_perm.
  assert (∀ l, NoDup (source_name <$> readings svc at_ org k l) → NoDup (identity <$> readings svc at_ org k l)) as Hid.
  { intros l. apply NoDup_refine. intros x y Hx Hy E. apply delimited_text in E as [E _]; [done|by eapply reading_no_nul..]. }
  rewrite !deduplicated_distinct; [|apply Hid; by rewrite <-Hpk|by apply Hid].
  apply by_texts_unique; [|done]. intros x y Hx Hy E. injection E as E. by apply (NoDup_fmap_elem source_name (readings svc at_ org k obs)).
Qed.

(** ** What the digests bind *)

(** Data whose objects have distinct keys and whose arrays hold no absent
    element. *)
Fixpoint well_keyed (v : Json) : bool :=
  match v with
  | JArr l => forallb (λ x, negb (is_undef x) && well_keyed x) l
  | JObj fs => bool_decide (NoDup fs.*1) && forallb (λ p, well_keyed p.2) fs
  | _ => true
  end.

Lemma results_inv {E A B} (f : A → result E B) (g : A → B) (l : list A) k :
  (∀ x y, x ∈ l → f x = Ok y → y = g x) → results (f <$> l) = Ok k → k = g <$> l.
Proof.
  revert k. induction l as [|x l IH]; intros k Hfg; cbn; [by intros [= <-]|].
  intros (y&Hy&(rest&Hr&E')%result_bind_Ok)%result_bind_Ok. injection E' as <-. f_equal; [apply Hfg; [set_solver|done]|]. apply IH; [|done]. intros z w Hz. apply Hfg. set_solver.
Qed.
Lemma js_of_undefined v : is_undefined_value (js_of v) = is_undef v.
Proof. by destruct v. Qed.
(** Dropping absent members and sorting commute. *)
Lemma sort_present (fs : list (string * Json)) : NoDup fs.*1 → sort_entries (List.filter present fs) = List.filter present (sort_entries fs).
Proof.
  intros Hn. assert (∀ l : list (string * Json), List.filter present l ⊆ l) as Hsub by (intros l x; rewrite !list_elem_of_In; by intros [? _]%filter_In).
  assert (sort_entries fs ≡ₚ fs) as Hp by apply merge_sort_Permutation.
  unfold sort_entries at 1. apply (StronglySorted_unique_strong entry_le).
  - intros p q Hp1 Hq Hpq Hqp. rewrite merge_sort_Permutation in Hp1. apply Hsub in Hp1, Hq. rewrite Hp in Hq.
    apply (NoDup_fmap_elem fst fs); [done..|]. by apply (anti_symm String.le).
  - apply Sorted_StronglySorted; [apply _|apply Sorted_merge_sort, _].
  - assert (StronglySorted entry_le (sort_entries fs)) as Hs by (apply Sorted_StronglySorted; [apply _|apply Sorted_merge_sort, _]).
    clear Hp. induction Hs as [|p k Hk IH Hpk]; cbn; [constructor|]. destruct (present p); [|done]. constructor; [done|]. apply Forall_forall. intros x Hx%Hsub. by rewrite Forall_forall in Hpk; apply Hpk.
  - rewrite merge_sort_Permutation. by apply List_filter_perm.
Qed.

Lemma normal_members (l : list (string * Json)) :
  List.filter present (prod_map id cleaned <$> (prod_map id sortValue <$> l)) = prod_map id (cleaned ∘ sortValue) <$> List.filter present l.
Proof.
  assert (∀ p : string * Json, present (prod_map id cleaned (prod_map id sortValue p)) = present p) as Hp.
  { intros [k x]. unfold present. cbn. rewrite cleaned_undef. by destruct x. }
  induction l as [|p l IH]; [done|]. rewrite !fmap_cons. cbn [List.filter]. rewrite Hp. destruct (present p); [|exact IH]. rewrite fmap_cons. f_equal. exact IH.
Qed.
Lemma canonical_prints v t : well_keyed v = true → is_undef v = false → canonical (js_of v) = Ok t → t = print_json (normal v).
Proof.
  unfold normal. revert t. induction v as [| | |n| |l IH|fs IH] using Json_nested_ind; intros t Hw Hu; cbn [js_of canonical]; try (by intros [= <-]); try done.
  - destruct (isSafeInteger _); [|done]. by intros [= <-].
  - intros (parts&Hr&E)%result_bind_Ok. injection E as <-. cbn [sortValue cleaned print_json]. do 3 f_equal. rewrite <-!list_fmap_compose in *.
    cbn in Hw. rewrite forallb_forall in Hw. rewrite Forall_forall in IH. apply results_inv with (g := λ x, print_json (null_undef (cleaned (sortValue x)))) in Hr; [exact Hr|].
    intros x y Hx Hy. specialize (Hw x ltac:(by apply list_elem_of_In)). apply andb_true_iff in Hw as [Hux%negb_true_iff Hwx].
    rewrite (IH x Hx y Hwx Hux Hy). f_equal. by destruct x.
  - cbn [well_keyed] in Hw. apply andb_true_iff in Hw as [Hn%bool_decide_eq_true Hw]. rewrite forallb_forall in Hw. rewrite Forall_forall in IH.
    intros (parts&Hr&E)%result_bind_Ok. injection E as <-. cbn [sortValue cleaned print_json]. do 3 f_equal.
    assert (omap (λ p, if is_undefined_value p.2 then None else Some (p.1, canonical p.2)) (prod_map id js_of <$> fs) = prod_map id (canonical ∘ js_of) <$> List.filter present fs) as Hm.
    { clear. induction fs as [|[k x] fs IHf]; [done|]. cbn. rewrite js_of_undefined. unfold present at 1. cbn. destruct (is_undef x); cbn; [done|]. f_equal. apply IHf. }
    rewrite Hm in Hr. assert (NoDup (List.filter present fs).*1) as Hn'.
    { revert Hn. clear. induction fs as [|[k x] fs IHf]; [done|]. cbn. intros [Hk Hn]%NoDup_cons. destruct (present (k, x)); cbn; [|auto]. apply NoDup_cons. split; [|auto].
      intros (p&->&Hp)%list_elem_of_fmap. apply Hk, list_elem_of_fmap_2. rewrite !list_elem_of_In in *. by apply filter_In in Hp as [? _]. }
    rewrite sort_entries_map, sort_present in Hr by done. rewrite <-list_fmap_compose in Hr.
    apply results_inv with (g := λ p, json_string p.1 +:+ ":" +:+ print_json (cleaned (sortValue p.2))) in Hr.
    + rewrite Hr, sort_entries_map, normal_members by done. by rewrite <-list_fmap_compose.
    + intros [k x] y Hx. apply list_elem_of_In, filter_In in Hx as [Hx Hpx]. cbn. intros (s&Hs&E)%result_bind_Ok. injection E as <-. do 2 f_equal.
      assert ((k, x) ∈ fs) as Hin by (apply list_elem_of_In in Hx; unfold sort_entries in Hx; by rewrite merge_sort_Permutation in Hx).
      apply (IH (k, x) Hin); [apply (Hw (k, x)); by apply list_elem_of_In|by unfold present in Hpx; apply negb_true_iff in Hpx|done].
Qed.
Lemma canonical_inj v w t : well_keyed v = true → well_keyed w = true → is_undef v = false → is_undef w = false →
  canonical (js_of v) = Ok t → canonical (js_of w) = Ok t → normal v = normal w.
Proof.
  intros Hv Hw Huv Huw Ev Ew. apply canonical_prints in Ev, Ew; [|done..]. unfold normal in *.
  assert (∀ x, is_undef x = false → is_undef (sortValue x) = false) as Hs by (by intros []).
  apply (print_unambiguous _ _ "" ""); [by apply cleaned_solid, Hs|by apply cleaned_solid, Hs|done|done|]. by rewrite <-Ev, <-Ew.
Qed.

Definition opt_json {A} (e : A → Json) (o : option A) : Json := match o with Some x => e x | None => JUndef end.
Definition value_json (v : ContextFactValue) : Json := match v with FText s => JTxt s | FNumber z => JNo z | FBool b => JBol b end.
Definition derivation_fields (d : ContextFactDerivation) : list (string * Json) :=
  [("operator", JTxt (operator_name (fd_operator d))); ("operandKeys", json_texts (fd_operandKeys d))]%string.
Definition fact_fields (f : ContextFact) : list (string * Json) :=
  [("key", JTxt (fact_key f)); ("value", value_json (fact_value f)); ("sourceId", JTxt (fact_sourceId f)); ("sourceKind", JTxt (source_kind_name (fact_sourceKind f)));
   ("observedAt", JTxt (fact_observedAt f)); ("trustClass", JTxt (trust_class_name (fact_trustClass f)));
   ("effectiveTrustClass", JTxt (trust_class_name (class_of (effectiveTrustClass f)))); ("resolution", JTxt (fact_status_name (resolution f)));
   ("staleAt", opt_json (λ r, JTxt (staleAt r)) (freshness f)); ("maxAgeSeconds", opt_json (λ r, JNo (fr_maxAgeSeconds r)) (freshness f));
   ("attestationRef", opt_json JTxt (fact_attestationRef f)); ("reference", opt_json JTxt (fact_reference f)); ("provenanceDigest", opt_json JTxt (fact_provenanceDigest f));
   ("conflictingSourceIds", opt_json json_texts (conflictingSourceIds f)); ("derivation", opt_json (λ d, JObj (derivation_fields d)) (derivation f))]%string.
Definition refusal_fields (r : RefusedContextObservation) : list (string * Json) :=
  [("key", JTxt (rf_key r)); ("sourceId", JTxt (rf_sourceId r)); ("reason", JTxt (refusal_name (rf_reason r)))]%string.
Definition resolution_fields (r : ContextResolution) : list (string * Json) :=
  [("format", JTxt ADMITTED_CONTEXT_FORMAT); ("resolved", JBol (is_resolved r)); ("resolvedAt", JTxt (resolvedAt r)); ("declaredKeys", json_texts (declaredKeys r));
   ("facts", JArr ((λ f, JObj (fact_fields f)) <$> facts r)); ("unresolved", json_texts (unresolved r)); ("stale", json_texts (stale_keys r));
   ("conflicted", json_texts (conflicted_keys r)); ("refused", JArr ((λ x, JObj (refusal_fields x)) <$> refused r));
   ("assertedFactPolicy", JTxt (policy_text (assertedFactPolicy r))); ("assertableKeys", json_texts (assertableKeys r))]%string.

Lemma js_texts_of l : js_texts l = js_of (json_texts l).
Proof. unfold js_texts, json_texts. cbn. by rewrite <-list_fmap_compose. Qed.
Lemma js_option_of {A} (f : A → JsValue) (e : A → Json) o : (∀ x, f x = js_of (e x)) → js_option f o = js_of (opt_json e o).
Proof. intros E. destruct o; [apply E|done]. Qed.
Lemma factSnapshot_of f : factSnapshot f = js_of (JObj (fact_fields f)).
Proof.
  unfold factSnapshot, fact_fields. cbn [js_of fmap list_fmap prod_map fst snd]. rewrite !(js_option_of _ JTxt) by done. rewrite (js_option_of _ json_texts) by apply js_texts_of.
  rewrite (js_option_of _ (λ r, JTxt (staleAt r))), (js_option_of _ (λ r, JNo (fr_maxAgeSeconds r))) by done.
  rewrite (js_option_of _ (λ d, JObj (derivation_fields d))) by (intros x; cbn; by rewrite js_texts_of). by destruct (fact_value f).
Qed.
Lemma resolution_object_of r : resolution_object r = js_of (JObj (resolution_fields r)).
Proof.
  unfold resolution_object, resolution_fields. cbn [js_of fmap list_fmap prod_map fst snd id]. rewrite !js_texts_of.
  assert (factSnapshot <$> facts r = js_of <$> ((λ f, JObj (fact_fields f)) <$> facts r)) as -> by (rewrite <-list_fmap_compose; apply list_fmap_ext; intros i f _; apply factSnapshot_of).
  assert (refusal_js <$> refused r = js_of <$> ((λ x, JObj (refusal_fields x)) <$> refused r)) as -> by (by rewrite <-list_fmap_compose). done.
Qed.

Lemma texts_keyed l : well_keyed (json_texts l) = true.
Proof. cbn. apply forallb_forall. by intros x (s&->&_)%list_elem_of_In%list_elem_of_fmap. Qed.
Lemma fact_keyed f : well_keyed (JObj (fact_fields f)) = true.
Proof.
  assert (∀ d, well_keyed (JObj (derivation_fields d)) = true) as Hd by (intros d; cbn [well_keyed derivation_fields forallb snd]; by rewrite texts_keyed).
  assert (∀ A (e : A → Json) o, (∀ x, well_keyed (e x) = true) → well_keyed (opt_json e o) = true) as Ho by (intros A e [x|] He; [apply He|done]).
  cbn [well_keyed fact_fields forallb snd]. repeat (apply andb_true_iff; split); try done; try (by apply Ho); try (apply Ho; apply texts_keyed).
  by destruct (fact_value f).
Qed.
Lemma resolution_keyed r : well_keyed (JObj (resolution_fields r)) = true.
Proof.
  cbn [well_keyed resolution_fields forallb snd]. repeat (apply andb_true_iff; split); try done; try apply texts_keyed; apply forallb_forall; intros x (y&->&_)%list_elem_of_In%list_elem_of_fmap; cbn [is_undef negb andb]; [apply fact_keyed|done].
Qed.

Definition shown (v : Json) : option Json := found (normal v).
Lemma shown_opt {A} (e : A → Json) o o' :
  (∀ x, is_undef (e x) = false) → (∀ x y, normal (e x) = normal (e y) → x = y) → shown (opt_json e o) = shown (opt_json e o') → o = o'.
Proof.
  assert (∀ z, is_undef (normal z) = is_undef z) as Hu by (by intros []). intros Hs Hi. unfold shown, found. destruct o as [x|], o' as [y|]; cbn [opt_json]; rewrite ?Hu, ?Hs; cbn; try done.
  by intros [= E%Hi%(f_equal Some)].
Qed.
Lemma normal_texts_inj l k : normal (json_texts l) = normal (json_texts k) → l = k.
Proof. unfold json_texts. rewrite !normal_text_list. by intros [= E%(inj (fmap JTxt))]. Qed.
(** The normal form of an array determines what its elements determine. *)
Lemma normal_list_inj {A} (e : A → Json) l k :
  (∀ x, is_undef (e x) = false) → (∀ x y, normal (e x) = normal (e y) → x = y) → normal (JArr (e <$> l)) = normal (JArr (e <$> k)) → l = k.
Proof.
  intros Hs Hi. unfold normal. cbn. intros [= E]. rewrite <-!list_fmap_compose in E. revert k E. induction l as [|x l IH]; intros [|y k]; cbn; try done.
  intros [= Eh Et]. assert (∀ z, null_undef (cleaned (sortValue (e z))) = normal (e z)) as Hn by (intros z; specialize (Hs z); unfold normal; by destruct (e z)).
  f_equal; [apply Hi; by rewrite <-!Hn|by apply IH].
Qed.

Lemma field_shown fs gs k : bool_decide (NoDup (map_keys fs)) = true → bool_decide (NoDup (map_keys gs)) = true → normal (JObj fs) = normal (JObj gs) →
  map_get k fs ≫= shown = map_get k gs ≫= shown.
Proof. intros Hf%bool_decide_eq_true Hg%bool_decide_eq_true E. pose proof (field_of_normal fs gs k Hf Hg E) as F. unfold shown. by destruct (map_get k fs), (map_get k gs). Qed.

Lemma derivation_inj d e : normal (JObj (derivation_fields d)) = normal (JObj (derivation_fields e)) → d = e.
Proof.
  intros E. pose proof (λ k, field_shown (derivation_fields d) (derivation_fields e) k eq_refl eq_refl E) as F.
  pose proof (F "operator") as [= Eo]. pose proof (found_normal (json_texts _) (json_texts _) eq_refl eq_refl (F "operandKeys")) as Ek%normal_texts_inj.
  destruct d as [o k], e as [o' k']. cbn in *. subst. f_equal. by destruct o, o'.
Qed.
Lemma value_json_inj v w : normal (value_json v) = normal (value_json w) → v = w.
Proof. by destruct v, w; intros [= ->]. Qed.
Lemma fact_inj f g : normal (JObj (fact_fields f)) = normal (JObj (fact_fields g)) → f = g.
Proof.
  intros E. pose proof (λ k, field_shown (fact_fields f) (fact_fields g) k eq_refl eq_refl E) as F. clear E.
  assert (∀ v, is_undef (value_json v) = false) as Hv by (by intros []). assert (∀ s t, normal (JTxt s) = normal (JTxt t) → s = t) as Ht by (by intros s t [= ->]).
  pose proof (F "key") as [= E1]. pose proof (found_normal _ _ (Hv _) (Hv _) (F "value")) as E2%value_json_inj. pose proof (F "sourceId") as [= E3]. pose proof (F "sourceKind") as [= E4].
  pose proof (F "observedAt") as [= E5]. pose proof (F "trustClass") as [= E6]. pose proof (F "effectiveTrustClass") as [= E7]. pose proof (F "resolution") as [= E8].
  assert (shown (opt_json (λ r, JTxt (staleAt r)) (freshness f)) = shown (opt_json (λ r, JTxt (staleAt r)) (freshness g))) as E9 by exact (F "staleAt").
  assert (shown (opt_json (λ r, JNo (fr_maxAgeSeconds r)) (freshness f)) = shown (opt_json (λ r, JNo (fr_maxAgeSeconds r)) (freshness g))) as E10 by exact (F "maxAgeSeconds").
  pose proof (shown_opt JTxt _ _ (λ x, eq_refl) Ht (F "attestationRef")) as E11. pose proof (shown_opt JTxt _ _ (λ x, eq_refl) Ht (F "reference")) as E12.
  pose proof (shown_opt JTxt _ _ (λ x, eq_refl) Ht (F "provenanceDigest")) as E13. pose proof (shown_opt json_texts _ _ (λ x, eq_refl) normal_texts_inj (F "conflictingSourceIds")) as E14.
  pose proof (shown_opt (λ d, JObj (derivation_fields d)) _ _ (λ x, eq_refl) derivation_inj (F "derivation")) as E15. clear F Hv Ht.
  assert (fact_sourceKind f = fact_sourceKind g) as E4' by (by destruct (fact_sourceKind f), (fact_sourceKind g)).
  assert (fact_trustClass f = fact_trustClass g) as E6' by (by destruct (fact_trustClass f), (fact_trustClass g)).
  assert (effectiveTrustClass f = effectiveTrustClass g) as E7' by (by destruct (effectiveTrustClass f), (effectiveTrustClass g)).
  assert (resolution f = resolution g) as E8' by (by destruct (resolution f), (resolution g)).
  assert (freshness f = freshness g) as E9' by (destruct (freshness f) as [[]|], (freshness g) as [[]|]; cbn in *; simplify_eq; done).
  clear E4 E6 E7 E8 E9 E10. destruct f, g. cbn in *. by subst.
Qed.
Lemma resolution_inj r s : normal (JObj (resolution_fields r)) = normal (JObj (resolution_fields s)) → r = s.
Proof.
  intros E. pose proof (λ k, field_shown (resolution_fields r) (resolution_fields s) k eq_refl eq_refl E) as F. clear E.
  pose proof (F "resolved") as [= E1]. pose proof (F "resolvedAt") as [= E2]. pose proof (found_normal (json_texts _) (json_texts _) eq_refl eq_refl (F "declaredKeys")) as E3%normal_texts_inj.
  pose proof (found_normal (JArr _) (JArr _) eq_refl eq_refl (F "facts")) as E4%normal_list_inj; [|done|apply fact_inj].
  pose proof (found_normal (json_texts _) (json_texts _) eq_refl eq_refl (F "unresolved")) as E5%normal_texts_inj.
  pose proof (found_normal (json_texts _) (json_texts _) eq_refl eq_refl (F "stale")) as E6%normal_texts_inj.
  pose proof (found_normal (json_texts _) (json_texts _) eq_refl eq_refl (F "conflicted")) as E7%normal_texts_inj.
  pose proof (found_normal (JArr _) (JArr _) eq_refl eq_refl (F "refused")) as E8%normal_list_inj; [|done|].
  - pose proof (F "assertedFactPolicy") as [= E9]. pose proof (found_normal (json_texts _) (json_texts _) eq_refl eq_refl (F "assertableKeys")) as E10%normal_texts_inj.
    assert (assertedFactPolicy r = assertedFactPolicy s) as E9' by (by destruct (assertedFactPolicy r), (assertedFactPolicy s)). clear F E9. destruct r, s. cbn in *. by subst.
  - intros x y Ex. pose proof (λ k, field_shown (refusal_fields x) (refusal_fields y) k eq_refl eq_refl Ex) as G. apply byRefusal_inj. unfold byRefusal.
    pose proof (G "key") as [= ->]. pose proof (G "sourceId") as [= ->]. pose proof (G "reason") as [= ->]. done.
Qed.

(** The admitted-context digest binds the whole resolution: two resolutions
    with one digest are equal in every fact with its value, class, freshness
    and provenance, in every unresolved, stale, conflicted and refused key and
    in the instant, unless the two canonical texts collide under SHA-256. *)
Theorem context_digest_binds `{JsHost} r s digest :
  contextResolutionDigest r = Ok digest → contextResolutionDigest s = Ok digest →
  (∀ t u, canonical (resolution_object r) = Ok t → canonical (resolution_object s) = Ok u → sha256_hex t = sha256_hex u → t = u) → r = s.
Proof.
  unfold contextResolutionDigest. intros (t&Et&Er)%result_bind_Ok (u&Eu&Es)%result_bind_Ok Hc.
  assert (t = u) as <-. { apply Hc; [done..|]. assert (sha256 t = sha256 u) as E by congruence. by apply string_app_peel in E. }
  apply resolution_inj. rewrite resolution_object_of in Et, Eu. by apply (canonical_inj _ _ t); [apply resolution_keyed..| | | |].
Qed.

(** ** When the service answers *)

(** The largest instant of a JavaScript date, in milliseconds. *)
Definition MAXIMUM_INSTANT : Z := 8640000000000000.

Lemma validated_ages seen l vs seen' : validate_requirements seen l = (vs, seen') → vs = [] → ∀ r m, r ∈ l → rq_maxAgeSeconds r = Some m → 0 < m.
Proof.
  revert seen vs seen'. induction l as [|x l IH]; intros seen vs seen'; cbn [validate_requirements]; [set_solver|].
  destruct (blank (rq_key x)); [destruct (validate_requirements seen l); by intros [= <- <-]|].
  destruct (validate_requirements (rq_key x :: seen) l) as [rest s] eqn:E. intros [= <- <-] [_ [Ha [_ Hr]%app_eq_nil]%app_eq_nil]%app_eq_nil r m [->|Hin]%elem_of_cons Hm.
  - rewrite Hm in Ha. unfold when in Ha. destruct (m <=? 0) eqn:L; [done|lia].
  - by eapply IH.
Qed.
Lemma validated_attestations id folds l a m : validate_attestations id folds l = [] → a ∈ l → at_maxAgeSeconds a = Some m → 1 ≤ m ≤ CONTEXT_MAX_AGE_SECONDS_LIMIT.
Proof.
  revert folds. induction l as [|x l IH]; intros folds; cbn [validate_attestations]; [set_solver|]. destruct (isContextFactClass (factClass x)); [|done].
  intros [_ [Ha Hr]%app_eq_nil]%app_eq_nil [->|Hin]%elem_of_cons Hm; [|by eapply IH]. rewrite Hm in Ha. unfold when in Ha.
  destruct ((m <? 1) || _) eqn:E; [done|]. apply orb_false_iff in E as [? ?]. lia.
Qed.
Lemma registered_valid vs m l m' : register_sources vs m l = ([], m') → vs = [] ∧ Forall (λ s, validateContextSource s = []) l.
Proof.
  revert vs m. induction l as [|s l IH]; intros vs m; cbn; [by intros [= ->]|].
  destruct (str_eqb _ _); intros [Hv Hl]%IH; apply app_eq_nil in Hv as [[-> Hs]%app_eq_nil Hr]; [done|by repeat constructor].
Qed.
Lemma built_age sources d verifier svc id s a m : new_service sources d verifier = Ok svc → map_get id (registry svc) = Some s → a ∈ attests s → at_maxAgeSeconds a = Some m →
  1 ≤ m ≤ CONTEXT_MAX_AGE_SECONDS_LIMIT.
Proof.
  intros Hb Hs Ha. destruct (built_parts _ _ _ _ Hb) as (_&(m'&Hm&_)&_). apply registered_valid in Hm as [_ Hv]. rewrite Forall_forall in Hv.
  destruct (built_registry _ _ _ _ Hb _ _ Hs) as [_ [Hin| ->]]; [|by apply not_elem_of_nil in Ha]. specialize (Hv s Hin). unfold validateContextSource in Hv.
  do 5 apply app_eq_nil in Hv as [_ Hv]. apply app_eq_nil in Hv as [Hv _]. destruct (attests s); [done|]. by eapply validated_attestations.
Qed.

Lemma built_skew d : validateContextDeclaration d = [] → 0 ≤ default 0 (dc_maxFutureSkewSeconds d) ≤ CONTEXT_MAX_FUTURE_SKEW_SECONDS.
Proof.
  unfold validateContextDeclaration. destruct (validate_requirements _ _). intros Hv. do 3 apply app_eq_nil in Hv as [_ Hv]. unfold when in Hv.
  destruct (dc_maxFutureSkewSeconds d) as [s|]; cbn; [|by unfold CONTEXT_MAX_FUTURE_SKEW_SECONDS]. destruct ((s <? 0) || _) eqn:E; [done|]. apply orb_false_iff in E as [? ?]. lia.
Qed.
Lemma built_requirement_age d rq m : validateContextDeclaration d = [] → rq ∈ requirements d → rq_maxAgeSeconds rq = Some m → 0 < m.
Proof.
  unfold validateContextDeclaration. destruct (validate_requirements _ _) eqn:E. intros [Hv _]%app_eq_nil. by eapply validated_ages.
Qed.
Lemma requirement_map_sound l m k rq : map_get k (foldl (λ m r, map_set (rq_key r) r m) m l) = Some rq → map_get k m = Some rq ∨ rq ∈ l.
Proof.
  revert m. induction l as [|x l IH]; intros m; cbn; [auto|]. intros [Hg|Hin]%IH; [|set_solver]. rewrite map_get_set in Hg. destruct (str_eqb _ _); [injection Hg as <-; set_solver|auto].
Qed.
Lemma foldl_min_range x l B : (∀ b, b ∈ x :: l → 0 ≤ b ≤ B) → 0 ≤ foldl Z.min x l ≤ B.
Proof.
  revert x. induction l as [|y l IH]; intros x Hb; cbn; [apply Hb; set_solver|]. apply IH. intros b [->|Hin]%elem_of_cons; [|apply Hb; set_solver].
  pose proof (Hb x ltac:(set_solver)). pose proof (Hb y ltac:(set_solver)). lia.
Qed.

Section Total.
Context `{JsHost} `{ContextHost}.
Context (svc : ContextResolutionService) (at_ : string) (org : option string) (now B : Z).
Context (instant : date_parse at_ = Some now).
Context (iso_total : ∀ ms, - MAXIMUM_INSTANT ≤ ms ≤ MAXIMUM_INSTANT → is_Some (iso_of ms)).
Context (parsed : ∀ s t, date_parse s = Some t → - MAXIMUM_INSTANT ≤ t).
Context (skew : 0 ≤ maxFutureSkewSeconds svc) (room : now + (maxFutureSkewSeconds svc + B) * 1000 ≤ MAXIMUM_INSTANT).

Definition in_time (text : string) : Prop := ∃ t, date_parse text = Some t ∧ t ≤ now + maxFutureSkewSeconds svc * 1000.
Definition bounded (b : option Z) : Prop := ∀ m, b = Some m → 0 ≤ m ≤ B.

Lemma toFreshness_total text b : in_time text → bounded b → ∃ x, toFreshness text b = Ok x.
Proof.
  intros (t&Ht&Hle) Hb. destruct b as [m|]; cbn; [|eauto]. unfold staleAtFor. rewrite Ht. specialize (Hb m eq_refl). pose proof (parsed _ _ Ht).
  destruct (iso_total (t + m * 1000)) as [i ->]; [lia|]. cbn. eauto.
Qed.
Lemma toFact_total o status c : refusalOf svc o at_ org = None → bounded (maxAgeFor svc (ob_key o) o) → ∃ f, toFact svc o status at_ c = Ok f ∧ in_time (fact_observedAt f).
Proof.
  intros Ha Hb. apply admitted_sound in Ha as (s&t&v&[(id&Eid&Es) _ _ _ _ (text&Et&Ep) (now'&En&Hf) Hv _ _]). rewrite instant in En. injection En as <-.
  assert (in_time (observed_time o)) as Ho by (unfold observed_time; rewrite Et; exists t; split; [done|lia]).
  destruct (toFreshness_total _ _ Ho Hb) as [x Hx]. unfold toFact, source_name. rewrite Eid. cbn. rewrite Es, Hv, Hx. cbn. eexists. split; [done|]. exact Ho.
Qed.
Lemma collect_total {X A C} (g : A → result X C) l : (∀ x, x ∈ l → ∃ y, g x = Ok y) → ∃ k, collect g l = Ok k.
Proof.
  induction l as [|x l IH]; intros Hg; cbn; [eauto|]. destruct (Hg x) as [y ->]; [set_solver|]. cbn. destruct IH as [k ->]; [set_solver|]. cbn. eauto.
Qed.
Definition answerable (o : ContextFactObservation) : Prop := refusalOf svc o at_ org = None ∧ bounded (maxAgeFor svc (ob_key o) o).
Lemma classify_key_total l : (∀ o, o ∈ l → answerable o) → ∃ a, classify_key svc at_ l = Ok a.
Proof.
  intros Hl. destruct l as [|o l]; cbn [classify_key]; [eauto|]. destruct (1 <? _)%nat.
  - destruct (collect_total (λ p, toFact svc p conflicted at_ (Some (source_name <$> List.filter (λ q, negb (bool_decide (admissible_value (ob_value q) = admissible_value (ob_value p)))) (o :: l)))) (o :: l)) as [k ->]; [|cbn; eauto].
    intros p Hp. destruct (toFact_total p conflicted (Some (source_name <$> List.filter (λ q, negb (bool_decide (admissible_value (ob_value q) = admissible_value (ob_value p)))) (o :: l)))) as (f&->&_); [by apply Hl..|eauto].
  - assert (preferred svc o l ∈ o :: l) as Hw.
    { clear Hl. unfold preferred. revert o. induction l as [|p l IH]; intros o; cbn; [set_solver|]. destruct (better svc p o); [specialize (IH p)|specialize (IH o)]; set_solver. }
    destruct (toFact_total (preferred svc o l) (freshnessStatus svc (preferred svc o l) at_) None) as (f&->&_); [by apply Hl..|]. cbn. eauto.
Qed.
Lemma classify_keys_total m keys l missing :
  (∀ k o, k ∈ keys → o ∈ default [] (map_get k m) → answerable o) → ∃ x, classify_keys svc at_ m keys l missing = Ok x.
Proof.
  revert l missing. induction keys as [|k keys IH]; intros l missing Hk; cbn [classify_keys]; [eauto|].
  destruct (classify_key_total (deduplicated (default [] (map_get k m)))) as [a ->]; [intros o Ho%deduplicated_sound; apply (Hk k o); [set_solver|done]|].
  cbn. destruct a; apply IH; intros j o Hj; apply Hk; set_solver.
Qed.
Lemma oldest_in_time first l : in_time first → Forall (λ f, in_time (fact_observedAt f)) l →
  in_time (foldl (λ oldest f, match date_parse (fact_observedAt f), date_parse oldest with Some t, Some o => if t <? o then fact_observedAt f else oldest | _, _ => oldest end) first l).
Proof.
  intros Hf Hl. revert first Hf. induction Hl as [|f l Hx Hl IH]; intros first Hf; cbn; [done|]. apply IH. destruct (date_parse (fact_observedAt f)), (date_parse first); try done. by destruct (_ <? _).
Qed.
Lemma derive_total d l : bounded (map_get (dv_key d) (requirementsByKey svc) ≫= rq_maxAgeSeconds) → Forall (λ f, in_time (fact_observedAt f)) l →
  ∃ a, derive svc d l at_ = Ok a ∧ ∀ f, a = Some f → in_time (fact_observedAt f).
Proof.
  intros Hb Hl. unfold derive. destruct (mapM _ _) as [ops|] eqn:Em; [|by exists None]. destruct (evaluateContextDerivation _ _) as [n|]; [|by exists None].
  destruct (admissible_value (JsNum n)) as [v|]; [|by exists None].
  assert (Forall (λ f, in_time (fact_observedAt f)) ops) as Hops.
  { apply mapM_Some in Em. apply Forall_forall. intros g Hg. apply list_elem_of_lookup in Hg as [i Hg]. destruct (Forall2_lookup_r _ _ _ _ _ Em Hg) as (k&_&Hk).
    apply resolved_fact_sound in Hk as [Hin _]. rewrite Forall_forall in Hl. by apply Hl. }
  match goal with |- context [toFreshness ?x _] => assert (in_time x) as Ho end.
  { apply oldest_in_time; [|done]. destruct Hops; [exists now; split; [done|lia]|done]. }
  destruct (toFreshness_total _ _ Ho Hb) as [x ->]. cbn. eexists. split; [done|]. intros f [= <-]. exact Ho.
Qed.
Lemma derive_all_total ds l missing : (∀ d, d ∈ ds → bounded (map_get (dv_key d) (requirementsByKey svc) ≫= rq_maxAgeSeconds)) → Forall (λ f, in_time (fact_observedAt f)) l →
  ∃ x, derive_all svc at_ ds l missing = Ok x.
Proof.
  revert l missing. induction ds as [|d ds IH]; intros l missing Hb Hl; cbn [derive_all]; [eauto|]. destruct (derive_total d l) as (a&->&Ha); [apply Hb; set_solver|done|]. cbn.
  destruct a as [f|]; apply IH; [set_solver| |set_solver|done]. apply Forall_app. split; [done|]. constructor; [by apply Ha|constructor].
Qed.
Lemma classify_total observations :
  (∀ o, o ∈ observations → refusalOf svc o at_ org = None → answerable o) → (∀ k, bounded (map_get k (requirementsByKey svc) ≫= rq_maxAgeSeconds)) →
  ∃ r, classify svc observations at_ org = Ok r.
Proof.
  intros Ho Hr. unfold classify. set (m0 := foldl (λ m k, map_set k [] m) [] (requested svc)).
  assert (∀ k, is_Some (map_get k m0) ↔ k ∈ requested svc) as Hm0 by (intros k; unfold m0; rewrite empty_buckets; case_bool_decide; cbn; split; (done || by intros [])).
  destruct (filed_readings svc at_ org observations m0 [] Hm0) as [Hb _]. destruct (foldl _ _ observations) as [m rs]. cbn [fst] in Hb.
  assert (∀ k o, k ∈ requested svc → o ∈ default [] (map_get k m) → answerable o) as Hans.
  { intros k o Hk. rewrite Hb. assert (map_get k m0 = Some []) as -> by (unfold m0; by rewrite empty_buckets, bool_decide_true). cbn.
    intros (Hin&_&Ha)%elem_of_readings. by apply Ho. }
  destruct (classify_keys_total m (requested svc) [] [] Hans) as [[read missing] Hk]. rewrite Hk. cbn.
  destruct (derive_all_total (derivations svc) read missing) as [[all un] ->]; [auto| |cbn; eauto].
  apply classify_keys_exact in Hk as (_&Hf&_). apply Forall_forall. intros f [[]%not_elem_of_nil|(k&fs&Hk&Ha&Hi)]%Hf.
  destruct (classify_key_from _ _ _ _ _ Ha Hi) as (o&st&c&Hin%deduplicated_sound&Hfo). destruct (Hans k o Hk Hin) as [Hadm Hbd].
  destruct (toFact_total o st c Hadm Hbd) as (f'&Hf'&Ht). congruence.
Qed.
End Total.

(** The service answers: for a service that was configured, an instant and
    bounds that leave room below the largest JavaScript date, [classify]
    returns a resolution whatever the connector returned. *)
Theorem classify_answers `{JsHost} `{ContextHost} sources d verifier svc observations at_ org now B :
  new_service sources d verifier = Ok svc → date_parse at_ = Some now →
  (∀ ms, - MAXIMUM_INSTANT ≤ ms ≤ MAXIMUM_INSTANT → is_Some (iso_of ms)) → (∀ s t, date_parse s = Some t → - MAXIMUM_INSTANT ≤ t) →
  CONTEXT_MAX_AGE_SECONDS_LIMIT ≤ B → now + (CONTEXT_MAX_FUTURE_SKEW_SECONDS + B) * 1000 ≤ MAXIMUM_INSTANT →
  (∀ rq m, rq ∈ requirements d → rq_maxAgeSeconds rq = Some m → m ≤ B) → (∀ o z, o ∈ observations → ob_maxAgeSeconds o = Some (Seconds z) → z ≤ B) →
  ∃ r, classify svc observations at_ org = Ok r.
Proof.
  intros Hb Hat Hiso Hpar HB Hroom Hrq Hobs. destruct (built_parts _ _ _ _ Hb) as (Hv&_&_&_&Hsk&Hmap&_).
  assert (0 ≤ maxFutureSkewSeconds svc ≤ CONTEXT_MAX_FUTURE_SKEW_SECONDS) as Hskew by (rewrite Hsk; by apply built_skew).
  assert (∀ k, bounded B (map_get k (requirementsByKey svc) ≫= rq_maxAgeSeconds)) as Hreq.
  { intros k m Hm. destruct (map_get k (requirementsByKey svc)) as [rq|] eqn:E; [|done]. cbn in Hm. rewrite Hmap in E. apply requirement_map_sound in E as [E|Hin]; [done|].
    pose proof (Hrq rq m Hin Hm). pose proof (built_requirement_age d rq m Hv Hin Hm). lia. }
  assert (∀ o, o ∈ observations → bounded B (maxAgeFor svc (ob_key o) o)) as Hage.
  { intros o Ho m Hm. unfold maxAgeFor in Hm. destruct (age_bounds svc (ob_key o) o) as [|x l] eqn:E; [done|]. injection Hm as <-. apply foldl_min_range. rewrite <-E. intros b.
    unfold age_bounds. rewrite !elem_of_app. assert (∀ (x : option Z) b, b ∈ option_list x ↔ x = Some b) as Hol by (intros [z|] b'; cbn; set_solver). rewrite !Hol.
    intros [Hs|[Hs|Hs]]; [|by apply (Hreq (ob_key o))|].
    - destruct (map_get (source_name o) (registry svc)) as [s|] eqn:Es; [|done]. cbn in Hs. unfold contextSourceAttestationFor in Hs. destruct (List.find _ (attests s)) as [a|] eqn:Ea; [|done]. cbn in Hs.
      apply find_some in Ea as [Ea _]. apply list_elem_of_In in Ea. pose proof (built_age _ _ _ _ _ _ _ _ Hb Es Ea Hs). lia.
    - destruct (ob_maxAgeSeconds o) as [[z|n]|] eqn:Eo; cbn in Hs; [|injection Hs as <-; unfold CONTEXT_MAX_AGE_SECONDS_LIMIT in HB; lia|done]. injection Hs as <-. pose proof (Hobs o z Ho Eo). unfold CONTEXT_MAX_AGE_SECONDS_LIMIT in HB. destruct (0 <? z) eqn:L; lia. }
  apply (classify_total svc at_ org now B); try done; [lia|lia|]. intros o Ho Ha. split; [done|by apply Hage].
Qed.

(** ** A deployment *)

Module ContextDemo.

#[local] Existing Instance demo_host.
#[local] Instance demo_context_host : ContextHost := {|
  iso_of := λ ms, if (- MAXIMUM_INSTANT <=? ms) && (ms <=? MAXIMUM_INSTANT) then Some (text (bigint_to_string ms)) else None;
  fraction_text := λ l r, text (bigint_to_string l) +:+ "/" +:+ text (bigint_to_string r);
|}.

Definition class_for (c : string) (age : option Z) : ContextSourceAttestation := {| factClass := c; at_maxAgeSeconds := age |}.
Definition erp_source : ContextSource :=
  {| src_id := "ctx.erp"; src_kind := erp; src_name := "ERP"; src_trustClass := Authoritative;
     attests := [class_for "vendor.status" (Some 3600); class_for "vendor.score" None; class_for "ledger.held" None]; src_organizationId := None; provenance := None |}.
Definition ledger_source : ContextSource :=
  {| src_id := "ctx.ledger"; src_kind := ledger; src_name := "Ledger"; src_trustClass := Authoritative;
     attests := [class_for "vendor.status" None; class_for "ledger.balance" (Some 600)]; src_organizationId := Some "org-1"; provenance := Some none |}.
Definition requester_source : ContextSource :=
  {| src_id := "ctx.request"; src_kind := request; src_name := "Requester"; src_trustClass := Asserted;
     attests := [class_for "ledger.held" None]; src_organizationId := None; provenance := None |}.
Definition needs (k : string) (c : TerminalContextTrustClass) (age : option Z) : ContextRequirement :=
  {| rq_key := k; minimumTrustClass := c; rq_maxAgeSeconds := age; required := true; restrictive := None |}.
Definition sample_declaration : ContextDeclaration :=
  {| requirements := [needs "vendor.status" Authoritative (Some 1800); needs "vendor.score" Authoritative None; needs "ledger.balance" Authoritative None;
                      needs "ledger.held" Asserted None; needs "ledger.net" Authoritative None];
     dc_derivations := Some [{| dv_key := "ledger.net"; operator := difference; operandKeys := ["ledger.balance"; "ledger.held"] |}];
     dc_assertedFactPolicy := Some require_declaration; dc_assertableKeys := Some ["ledger.held"]; dc_maxFutureSkewSeconds := Some 5 |}.
Definition no_service : ContextResolutionService :=
  {| registry := []; declaration := sample_declaration; derivations := []; requirementsByKey := []; requested := []; declared := []; maxFutureSkewSeconds := 0; attestationVerifier := None |}.
Definition sample_service : ContextResolutionService :=
  match new_service [erp_source; ledger_source; requester_source] sample_declaration None with Ok s => s | Throw _ => no_service end.

Definition reading (k : string) (v : JsValue) (source time : string) (age : option Z) : ContextFactObservation :=
  {| ob_key := k; ob_value := v; ob_sourceId := Some source; ob_observedAt := Some time; ob_maxAgeSeconds := Seconds <$> age; ob_attestationRef := None;
     ob_reference := None; ob_provenanceDigest := None; ob_organizationId := None |}.
Definition INSTANT : string := "1000000".
Definition sample_readings : list ContextFactObservation :=
  [reading "vendor.status" (JsString "active") "ctx.erp" "900000" None; reading "vendor.status" (JsString "active") "ctx.ledger" "950000" (Some 60);
   reading "vendor.status" (JsString "banned") "ctx.request" "999000" None; reading "ledger.balance" (JsNum (JInt 50)) "ctx.ledger" "990000" None;
   reading "ledger.held" (JsNum (JInt 8)) "ctx.erp" "700000" None].
Definition no_resolution : ContextResolution := unresolvedContextResolution [] None None "".
Definition resolved_from (svc : ContextResolutionService) (l : list ContextFactObservation) : ContextResolution :=
  match classify svc l INSTANT (Some "org-1") with Ok r => r | Throw _ => no_resolution end.
Definition sample_resolution : ContextResolution := resolved_from sample_service sample_readings.

Example sample_reads :
  (λ rq, (read_status (readContextFact sample_resolution rq), read_value (readContextFact sample_resolution rq))) <$> requirements sample_declaration =
  [(satisfied, Some (FText "active")); (unanswered, None); (satisfied, Some (FNumber 50)); (satisfied, Some (FNumber 8)); (satisfied, Some (FNumber 42))].
Proof. vm_compute. reflexivity. Qed.
Example sample_refusals : refused sample_resolution = [{| rf_key := "vendor.status"; rf_sourceId := "ctx.request"; rf_reason := fact_class_not_attested |}].
Proof. vm_compute. reflexivity. Qed.

Lemma sample_built : new_service [erp_source; ledger_source; requester_source] sample_declaration None = Ok sample_service.
Proof. vm_compute. reflexivity. Qed.
Lemma sample_plain : Forall no_nul (src_id <$> [erp_source; ledger_source; requester_source]).
Proof. repeat constructor; unfold no_nul; cbn; set_solver. Qed.
Lemma sample_classified : classify sample_service sample_readings INSTANT (Some "org-1") = Ok sample_resolution.
Proof. vm_compute. reflexivity. Qed.

Lemma context_read_exact_witness :
  ∃ w source t now v, read_value (readContextFact sample_resolution (needs "vendor.status" Authoritative (Some 1800))) = Some v ∧
    w ∈ readings sample_service INSTANT (Some "org-1") "vendor.status" sample_readings ∧
    satisfies sample_declaration sample_service INSTANT (Some "org-1") (needs "vendor.status" Authoritative (Some 1800)) w source t now v ∧
    ∀ o, o ∈ readings sample_service INSTANT (Some "org-1") "vendor.status" sample_readings → ob_value o = ob_value w ∧ outranks sample_service w o.
Proof.
  apply (context_read_exact _ _ _ _ _ _ _ _ (needs "vendor.status" Authoritative (Some 1800)) sample_built sample_plain sample_classified);
    [cbn; set_solver|cbn; set_solver|vm_compute; reflexivity].
Defined.

Lemma no_trust_laundering_witness :
  ∃ f, f ∈ facts sample_resolution ∧ fact_key f = "ledger.net" ∧ resolution f = resolved ∧ read_value (readContextFact sample_resolution (needs "ledger.net" Authoritative None)) = Some (fact_value f) ∧
    (∃ o, rests_on sample_service INSTANT (Some "org-1") sample_readings (facts sample_resolution) f o) ∧
    ∀ o, rests_on sample_service INSTANT (Some "org-1") sample_readings (facts sample_resolution) f o →
      refusalOf sample_service o INSTANT (Some "org-1") = None ∧ 1 ≤ rank_of_reading sample_service o.
Proof.
  apply (no_trust_laundering _ _ _ _ _ _ _ _ (needs "ledger.net" Authoritative None) sample_built sample_classified). vm_compute. reflexivity.
Defined.

Lemma resolution_order_independent_witness : classify sample_service (reverse sample_readings) INSTANT (Some "org-1") = Ok sample_resolution.
Proof.
  rewrite <-sample_classified. symmetry. apply (resolution_order_independent _ _ _ _ _ _ _ _ sample_built sample_plain); [symmetry; apply reverse_Permutation|].
  intros k. assert (readings sample_service INSTANT (Some "org-1") k sample_readings =
    List.filter (λ o, str_eqb (ob_key o) k) (List.filter (admitted sample_service INSTANT (Some "org-1")) sample_readings)) as ->.
  { unfold readings. induction sample_readings as [|o l IH]; [done|]. cbn. rewrite IH. destruct (admitted _ _ _ o); cbn; destruct (str_eqb (ob_key o) k); done. }
  assert (List.filter (admitted sample_service INSTANT (Some "org-1")) sample_readings =
    [reading "vendor.status" (JsString "active") "ctx.erp" "900000" None; reading "vendor.status" (JsString "active") "ctx.ledger" "950000" (Some 60);
     reading "ledger.balance" (JsNum (JInt 50)) "ctx.ledger" "990000" None; reading "ledger.held" (JsNum (JInt 8)) "ctx.erp" "700000" None]) as -> by (vm_compute; reflexivity).
  cbn. destruct (decide ("vendor.status" = k)) as [<-|N1]; [apply (bool_decide_unpack _); vm_compute; done|].
  destruct (decide ("ledger.balance" = k)) as [<-|N2]; [apply (bool_decide_unpack _); vm_compute; done|].
  destruct (decide ("ledger.held" = k)) as [<-|N3]; [apply (bool_decide_unpack _); vm_compute; done|].
  apply str_eqb_neq in N1, N2, N3. rewrite N1, N2, N3. constructor.
Defined.

Lemma demo_parsed s t : date_parse s = Some t → - MAXIMUM_INSTANT ≤ t.
Proof.
  cbn. destruct (nonempty s && forallb is_digit (chars s)) eqn:E; [|done]. intros [= <-]. apply andb_true_iff in E as [_ E].
  destruct (digits_value_bound (chars s)) as [Hv _]; [|unfold MAXIMUM_INSTANT; lia]. apply Forall_forall. intros c Hc. rewrite forallb_forall in E. by apply E, list_elem_of_In.
Qed.
Lemma classify_answers_witness : ∃ r, classify sample_service sample_readings INSTANT (Some "org-1") = Ok r.
Proof.
  apply (classify_answers _ _ _ _ sample_readings INSTANT (Some "org-1") 1000000 604800 sample_built).
  - reflexivity.
  - intros ms Hms. cbn. rewrite !(proj2 (Z.leb_le _ _)) by lia. eexists. reflexivity.
  - intros s t Hs. by apply (demo_parsed s).
  - reflexivity.
  - vm_compute. discriminate.
  - intros rq m Hrq Hm. cbn in Hrq. repeat (apply elem_of_cons in Hrq as [->|Hrq]; [cbn in Hm; try discriminate Hm; injection Hm as <-; vm_compute; discriminate|]). by apply not_elem_of_nil in Hrq.
  - intros o z Ho Hz. cbn in Ho. repeat (apply elem_of_cons in Ho as [->|Ho]; [cbn in Hz; try discriminate Hz; injection Hz as <-; vm_compute; discriminate|]). by apply not_elem_of_nil in Ho.
Defined.

Definition sample_digest : string := match contextResolutionDigest sample_resolution with Ok t => t | Throw _ => "" end.
Lemma context_digest_binds_witness : resolved_from sample_service (reverse sample_readings) = sample_resolution.
Proof.
  apply (context_digest_binds _ _ sample_digest); [vm_compute; reflexivity..|]. intros t u Ht Hu _.
  enough ((Ok t : result ContextThrow string) = Ok u) as E by (by injection E). rewrite <-Ht, <-Hu. vm_compute. reflexivity.
Defined.

(** *** What the code does not do *)

(** A connector's own bound, where neither the source nor the requirement has
    one, may be too large for a date: the service throws instead of answering. *)
Lemma classify_throws : classify sample_service [reading "vendor.score" (JsNum (JInt 7)) "ctx.erp" "900000" (Some 10000000000000)] INSTANT None = Throw RangeError.
Proof. vm_compute. reflexivity. Qed.

(** Two readings of one source, value, time and reference that state different
    bounds: the one that arrives first decides whether the fact is fresh. *)
Definition unbounded_score : ContextFactObservation := reading "vendor.score" (JsNum (JInt 7)) "ctx.erp" "900000" None.
Definition bounded_score : ContextFactObservation := reading "vendor.score" (JsNum (JInt 7)) "ctx.erp" "900000" (Some 10).
Lemma freshness_depends_on_order :
  read_status (readContextFact (resolved_from sample_service [unbounded_score; bounded_score]) (needs "vendor.score" Authoritative None)) = satisfied ∧
  read_status (readContextFact (resolved_from sample_service [bounded_score; unbounded_score]) (needs "vendor.score" Authoritative None)) = too_old.
Proof. split; vm_compute; reflexivity. Qed.

(** A source that contradicts itself: the two conflicted facts keep the order of
    arrival, and the digest changes with it. *)
Definition other_score : ContextFactObservation := reading "vendor.score" (JsNum (JInt 9)) "ctx.erp" "900000" None.
Lemma digest_depends_on_order :
  contextResolutionDigest (resolved_from sample_service [unbounded_score; other_score]) ≠ contextResolutionDigest (resolved_from sample_service [other_score; unbounded_score]).
Proof. vm_compute. discriminate. Qed.

(** A sum of admitted integers is computed with doubles: a partial sum beyond
    [2^53] is rounded, and the total, back in range, is admitted off by one. *)
Lemma derived_sum_rounds :
  evaluateContextDerivation sum [FNumber 9007199254740991; FNumber 2; FNumber (-3)] = Computed (JInt 9007199254740989) ∧
  admissible_value (JsNum (JInt 9007199254740989)) = Some (FNumber 9007199254740989) ∧ 9007199254740991 + 2 + -3 = 9007199254740990.
Proof. split_and!; vm_compute; reflexivity. Qed.
(** A product of zero and a negative integer is the negative zero, which is no
    admissible value: the derived key is unresolved. *)
Lemma derived_product_unresolved :
  evaluateContextDerivation product [FNumber 0; FNumber (-5)] = Computed JNegZero ∧ admissible_value (JsNum JNegZero) = None.
Proof. split; vm_compute; reflexivity. Qed.
End ContextDemo.
