(* ===== verification/ContextStep.v ===== *)
(** * The kernel's context step

    Model of kernel/orchestration/effective-profile.ts (the Governance Profile
    a request stands under) and kernel/orchestration/context-adapter.ts (the
    context capability, the resolution of a request's context, and the step
    that folds it into an evaluated result). The connector, the resolver of
    profiles and the rest of an evaluated result are parameters. *)

From S2P Require Import Prelude Decimal Js JsMap StableJson HashChain ContextResolution ContextSafety.

Local Open Scope Z_scope.
Local Open Scope frontera_scope.

(** ** The effective profile *)

Record KernelGovernanceProfileKey := { gp_id : string; gp_version : Z; gp_digest : string }.
Inductive KernelEffectiveProfileResolution := Unclassified | ResolvedTo (profile : KernelGovernanceProfileKey) | ResolutionRefused.
(** [None] is a throw. *)
Definition KernelEffectiveProfileResolver : Type := string → string → option KernelEffectiveProfileResolution.
Inductive KernelEffectiveProfileSelection := Deployment | Profile (key : string) | Refused.

Record KernelEvaluationRequest := {
  actor_id : string;
  actor_trustDomainId : string;
  action_type : string;
  action_capability : option string;
  action_resourceScope : string;
  claimed_profile : option KernelGovernanceProfileKey;
  organization_id : option string;
  target_id : option string;
}.

Definition governanceProfileKey (p : KernelGovernanceProfileKey) : string := gp_id p +:+ "@" +:+ text (bigint_to_string (gp_version p)) +:+ "#" +:+ gp_digest p.
Definition sameResolution (l r : KernelEffectiveProfileResolution) : bool :=
  match l, r with
  | ResolvedTo p, ResolvedTo q => str_eqb (governanceProfileKey p) (governanceProfileKey q)
  | Unclassified, Unclassified | ResolutionRefused, ResolutionRefused => true
  | _, _ => false
  end.
(** [None] is a resolver that threw, or that does not resolve the action and the
    capability alike. *)
Definition trusted_resolution (resolver : KernelEffectiveProfileResolver) (q : KernelEvaluationRequest) : option KernelEffectiveProfileResolution :=
  resolution ← resolver (action_type q) (action_resourceScope q);
  match action_capability q with
  | Some capability =>
      if str_eqb capability (action_type q) then Some resolution
      else other ← resolver capability (action_resourceScope q); if sameResolution resolution other then Some resolution else None
  | None => Some resolution
  end.
Definition selectEffectiveProfile (resolver : option KernelEffectiveProfileResolver) (q : KernelEvaluationRequest) : KernelEffectiveProfileSelection :=
  match resolver with
  | None => Deployment
  | Some resolver =>
      match trusted_resolution resolver q with
      | Some (ResolvedTo p) =>
          let key := governanceProfileKey p in
          match claimed_profile q with
          | Some claimed => if str_eqb (governanceProfileKey claimed) key then Profile key else Refused
          | None => Profile key
          end
      | Some Unclassified => match claimed_profile q with None => Deployment | Some _ => Refused end
      | _ => Refused
      end
  end.
Definition assertEffectiveProfileResolver (declarations : nat) (resolver : option KernelEffectiveProfileResolver) : bool := (declarations =? 0)%nat || is_some resolver.

(** ** The capability *)

Record ContextResolutionQuery := {
  qy_keys : list string; qy_actorId : string; qy_trustDomainId : string; qy_action : string; qy_resourceScope : string;
  qy_organizationId : option string; qy_targetId : option string; qy_at : string;
}.
(** What a connector does: it throws, returns something that is no list, or
    returns readings. *)
Inductive ProviderAnswer := ProviderThrew | NoList | Observed (l : list ContextFactObservation).
Definition ContextProvider : Type := ContextResolutionQuery → ProviderAnswer.

(** [createInMemoryContextResolver] and [createFailingContextResolver]. *)
Definition createInMemoryContextResolver (observations : ContextResolutionQuery → list ContextFactObservation) : ContextProvider :=
  λ query, Observed (List.filter (λ o, bool_decide (ob_key o ∈ qy_keys query)) (observations query)).
Definition createFailingContextResolver : ContextProvider := λ _, ProviderThrew.

Record KernelContextResolutionOptions := {
  op_provider : ContextProvider;
  op_sources : list ContextSource;
  op_declaration : ContextDeclaration;
  op_profileDeclarations : list (KernelGovernanceProfileKey * ContextDeclaration);
  op_resolveEffectiveProfile : option KernelEffectiveProfileResolver;
  op_attestationVerifier : option ContextAttestationVerifier;
}.
Record KernelContextSelection := { sel_service : ContextResolutionService; sel_requirements : list ContextRequirement; sel_profile : option string; sel_refused : bool }.
Record KernelContextCapability := {
  provider : ContextProvider;
  service : ContextResolutionService;
  cap_requirements : list ContextRequirement;
  byProfile : JsMap KernelContextSelection;
  resolveEffectiveProfile : option KernelEffectiveProfileResolver;
}.
Inductive CapabilityError := resolver_missing | declared_twice (key : string) | misconfigured (e : ContextConfigurationError).
Definition configured (sources : list ContextSource) (d : ContextDeclaration) (v : option ContextAttestationVerifier) : result CapabilityError ContextResolutionService :=
  match new_service sources d v with Ok s => Ok s | Throw e => Throw (misconfigured e) end.

Fixpoint add_profiles (o : KernelContextResolutionOptions) (m : JsMap KernelContextSelection) (l : list (KernelGovernanceProfileKey * ContextDeclaration)) : result CapabilityError (JsMap KernelContextSelection) :=
  match l with
  | [] => Ok m
  | (profile, d) :: l =>
      let key := governanceProfileKey profile in
      if is_some (map_get key m) then Throw (declared_twice key)
      else let* svc := configured (op_sources o) d (op_attestationVerifier o) in
        add_profiles o (map_set key {| sel_service := svc; sel_requirements := requirements d; sel_profile := Some key; sel_refused := false |} m) l
  end.
Definition new_capability (o : KernelContextResolutionOptions) : result CapabilityError KernelContextCapability :=
  if assertEffectiveProfileResolver (length (op_profileDeclarations o)) (op_resolveEffectiveProfile o) then
    let* svc := configured (op_sources o) (op_declaration o) (op_attestationVerifier o) in
    let* m := add_profiles o [] (op_profileDeclarations o) in
    Ok {| provider := op_provider o; service := svc; cap_requirements := requirements (op_declaration o); byProfile := m; resolveEffectiveProfile := op_resolveEffectiveProfile o |}
  else Throw resolver_missing.

Definition select (c : KernelContextCapability) (q : KernelEvaluationRequest) : KernelContextSelection :=
  let fallback := {| sel_service := service c; sel_requirements := cap_requirements c; sel_profile := None; sel_refused := false |} in
  match selectEffectiveProfile (resolveEffectiveProfile c) q with
  | Refused => {| sel_service := service c; sel_requirements := []; sel_profile := None; sel_refused := true |}
  | Profile key => default fallback (map_get key (byProfile c))
  | Deployment => fallback
  end.

Section Adapter.
Context `{JsHost} `{ContextHost}.

Definition context_query (svc : ContextResolutionService) (q : KernelEvaluationRequest) (at_ : string) : ContextResolutionQuery :=
  {| qy_keys := requested svc; qy_actorId := actor_id q; qy_trustDomainId := actor_trustDomainId q; qy_action := default (action_type q) (action_capability q);
     qy_resourceScope := action_resourceScope q; qy_organizationId := organization_id q; qy_targetId := target_id q; qy_at := at_ |}.
Definition resolveKernelContext (capability : option KernelContextCapability) (q : KernelEvaluationRequest) (at_ : string) : result ContextThrow (option ContextResolution) :=
  match capability with
  | None => Ok None
  | Some c =>
      let selection := select c q in
      if sel_refused selection then Ok (Some (unresolvedContextResolution [] None None at_))
      else
        let svc := sel_service selection in
        match declared svc with
        | [] => Ok None
        | declaredKeys =>
            let failed := unresolvedContextResolution declaredKeys (Some (service_assertedFactPolicy svc)) (Some (service_assertableKeys svc)) at_ in
            match (if (length (requested svc) =? 0)%nat then Observed [] else provider c (context_query svc q at_)) with
            | ProviderThrew | NoList => Ok (Some failed)
            | Observed observations => let* r := classify svc observations at_ (organization_id q) in Ok (Some r)
            end
        end
  end.
End Adapter.

(** ** Measuring the requirements *)

Inductive KernelDecisionStatus := allowed | denied | approval_required | indeterminate.
#[export] Instance KernelDecisionStatus_eq_dec : EqDecision KernelDecisionStatus.
Proof. solve_decision. Defined.
Definition VIABLE_STATUSES : list KernelDecisionStatus := [allowed; approval_required].

Definition CONTEXT_REQUIRED_FACT_UNRESOLVED : string := "CONTEXT_REQUIRED_FACT_UNRESOLVED".
Definition CONTEXT_RESTRICTIVE_FACT_AMBIGUOUS : string := "CONTEXT_RESTRICTIVE_FACT_AMBIGUOUS".
Definition CONTEXT_PROFILE_UNTRUSTED : string := "CONTEXT_PROFILE_UNTRUSTED".
Definition READ_STATUS_TO_REASON_CODE (s : ContextFactReadStatus) : string :=
  match s with
  | context_not_resolved | undeclared | unanswered | satisfied => CONTEXT_REQUIRED_FACT_UNRESOLVED
  | too_old => "CONTEXT_REQUIRED_FACT_STALE"
  | disputed => "CONTEXT_REQUIRED_FACT_CONFLICTED"
  | insufficient_trust | asserted_not_declared => "CONTEXT_REQUIRED_FACT_UNTRUSTED"
  end.
Definition REFUSAL_TO_REASON_CODE (r : ContextObservationRefusalReason) : string :=
  match r with
  | source_untrusted | fact_class_not_attested | organization_mismatch => "CONTEXT_REQUIRED_FACT_SOURCE_NOT_AUTHORIZED"
  | provenance_invalid | attestation_missing | attestation_invalid => "CONTEXT_REQUIRED_FACT_PROVENANCE_INVALID"
  | future_dated | observation_time_invalid => "CONTEXT_REQUIRED_FACT_TIME_INVALID"
  | value_malformed => "CONTEXT_REQUIRED_FACT_MALFORMED"
  end.

Record AdmittedPolicyFact := { pf_factClass : string; pf_value : ContextFactValue }.
Record AdmittedPolicyContext := { contextFacts : list AdmittedPolicyFact; restrictiveFacts : list AdmittedPolicyFact }.

Record ContextFactEvaluation := {
  fe_key : string; fe_sourceId : string; fe_sourceKind : ContextSourceKind; fe_trustClass : ContextTrustClass; fe_effectiveTrustClass : TerminalContextTrustClass;
  fe_resolution : ResolvedContextFactStatus; fe_observedAt : string; fe_staleAt : option string; fe_conflictingSourceIds : option (list string);
  fe_reference : option string; fe_provenanceDigest : option string;
}.
Record ContextRequirementEvaluation := {
  re_key : string; re_status : ContextFactReadStatus; re_minimumTrustClass : TerminalContextTrustClass; re_refusalReasons : list ContextObservationRefusalReason;
}.
(** An optional list that is present only when it is not empty is a list. *)
Record ContextEvaluation := {
  ev_performed : bool; ev_resolved : bool; ev_declaredKeys : list string; ev_facts : list ContextFactEvaluation; ev_unresolved : list string; ev_stale : list string;
  ev_conflicted : list string; ev_assertedFactPolicy : ContextAssertedFactPolicy; ev_assertedFactReads : list string;
  ev_unsatisfiedRequirements : list ContextRequirementEvaluation; ev_refused : list RefusedContextObservation; ev_restrictiveKeys : list string;
  ev_digest : option string; ev_profile : option string; ev_validUntil : option string;
}.

Definition required_keys (l : list ContextRequirement) : list string := rq_key <$> List.filter required l.
Definition restrictive_keys (l : list ContextRequirement) : list string := rq_key <$> List.filter is_restrictive l.
Definition policy_fact (r : ContextFactRead) : option AdmittedPolicyFact :=
  match read_status r, read_value r with satisfied, Some v => Some {| pf_factClass := read_key r; pf_value := v |} | _, _ => None end.
Definition byClass (f : AdmittedPolicyFact) : list string := [pf_factClass f].
Definition admittedPolicyContext (l : list ContextRequirement) (reads : list ContextFactRead) : AdmittedPolicyContext :=
  let is_restricting r := bool_decide (read_key r ∈ restrictive_keys l) in
  {| contextFacts := merge_sort (by_texts byClass) (omap policy_fact (List.filter (λ r, negb (is_restricting r)) reads));
     restrictiveFacts := merge_sort (by_texts byClass) (omap policy_fact (List.filter is_restricting reads)) |}.

Definition unsatisfied (l : list ContextRequirement) (r : ContextFactRead) : bool :=
  (bool_decide (read_key r ∈ required_keys l) && negb (bool_decide (read_status r = satisfied))) ||
  (bool_decide (read_key r ∈ restrictive_keys l) && bool_decide (read_status r ∈ [disputed; context_not_resolved])).
Definition reason_fields (r : ContextObservationRefusalReason) : list string := [refusal_name r].
(** [[...(refusalsByKey.get(key) ?? [])].sort()] *)
Definition refusals_of (r : ContextResolution) (key : string) : list ContextObservationRefusalReason :=
  merge_sort (by_texts reason_fields) (nub (rf_reason <$> List.filter (λ x, str_eqb (rf_key x) key) (refused r))).
(** [minimumByKey]: the last requirement of a key. *)
Definition minimum_of (l : list ContextRequirement) (key : string) : TerminalContextTrustClass :=
  match map_get key (foldl (λ m rq, map_set (rq_key rq) (minimumTrustClass rq) m) [] l) with Some c => c | None => Asserted end.
Definition fact_evaluation (f : ContextFact) : ContextFactEvaluation :=
  {| fe_key := fact_key f; fe_sourceId := fact_sourceId f; fe_sourceKind := fact_sourceKind f; fe_trustClass := fact_trustClass f; fe_effectiveTrustClass := effectiveTrustClass f;
     fe_resolution := resolution f; fe_observedAt := fact_observedAt f; fe_staleAt := staleAt <$> freshness f; fe_conflictingSourceIds := conflictingSourceIds f;
     fe_reference := fact_reference f; fe_provenanceDigest := fact_provenanceDigest f |}.

Section Step.
Context `{JsHost} `{ContextHost}.

(** The earliest instant an admitted material fact goes stale. *)
Definition earlier_stale (l : list ContextRequirement) (r : ContextResolution) (validUntil : option string) (read : ContextFactRead) : option string :=
  if negb (bool_decide (read_status read = satisfied)) || bool_decide (read_key read ∈ restrictive_keys l) then validUntil
  else match resolved_fact (read_key read) (facts r) ≫= freshness with
  | None => validUntil
  | Some fr =>
      match validUntil with
      | None => Some (staleAt fr)
      | Some v => match date_parse (staleAt fr), date_parse v with Some t, Some u => if t <? u then Some (staleAt fr) else validUntil | _, _ => validUntil end
      end
  end.

Definition toContextEvaluation (r : ContextResolution) (selection : KernelContextSelection) (reads : list ContextFactRead) : result ContextThrow ContextEvaluation :=
  let l := sel_requirements selection in
  let entries := (λ x, {| re_key := read_key x; re_status := read_status x; re_minimumTrustClass := minimum_of l (read_key x);
                          re_refusalReasons := if bool_decide (read_status x = unanswered) then refusals_of r (read_key x) else [] |}) <$> List.filter (unsatisfied l) reads in
  let validUntil := foldl (earlier_stale l r) None reads in
  let* digest := match sel_profile selection with Some _ => let* t := contextResolutionDigest r in Ok (Some t) | None => Ok None end in
  Ok {| ev_performed := true; ev_resolved := is_resolved r; ev_declaredKeys := declaredKeys r; ev_facts := fact_evaluation <$> facts r; ev_unresolved := unresolved r;
        ev_stale := stale_keys r; ev_conflicted := conflicted_keys r; ev_assertedFactPolicy := assertedFactPolicy r;
        ev_assertedFactReads := read_key <$> List.filter (λ x, bool_decide (assertedFactReported x = Some true)) reads; ev_unsatisfiedRequirements := entries;
        ev_refused := refused r; ev_restrictiveKeys := sort_strings (nub (restrictive_keys l)); ev_digest := digest; ev_profile := sel_profile selection;
        ev_validUntil := if is_some (sel_profile selection) then validUntil else None |}.

Record KernelContextFacts := { kf_evaluation : ContextEvaluation; kf_reasonCodes : list string; kf_summary : string; kf_admitted : AdmittedPolicyContext }.

(** The codes one unsatisfied requirement pushes. *)
Definition entry_codes (l : list ContextRequirement) (e : ContextRequirementEvaluation) : list string :=
  if bool_decide (re_key e ∈ restrictive_keys l) then [CONTEXT_RESTRICTIVE_FACT_AMBIGUOUS]
  else match re_refusalReasons e with [] => [READ_STATUS_TO_REASON_CODE (re_status e)] | reasons => REFUSAL_TO_REASON_CODE <$> reasons end.
Definition PROFILE_SUMMARY : string := "This request's effective Governance Profile could not be established from trusted configuration, or its semantics named a different one; it is not evaluated under any weaker declaration.".
Definition described (e : ContextRequirementEvaluation) : string := re_key e +:+ " (" +:+ read_status_name (re_status e) +:+ ")".
Definition unmet_summary (l : list ContextRequirementEvaluation) : string :=
  "This deployment declares context it will not evaluate this action without, and it did not resolve: " +:+ join ", " (described <$> l) +:+ ".".

Definition resolveKernelContextFacts (c : KernelContextCapability) (r : ContextResolution) (q : KernelEvaluationRequest) : result ContextThrow KernelContextFacts :=
  let selection := select c q in
  if sel_refused selection then
    let* evaluation := toContextEvaluation r selection [] in
    Ok {| kf_evaluation := evaluation; kf_reasonCodes := [CONTEXT_PROFILE_UNTRUSTED]; kf_summary := PROFILE_SUMMARY; kf_admitted := {| contextFacts := []; restrictiveFacts := [] |} |}
  else
    let reads := readContextFacts r (sel_requirements selection) in
    let* evaluation := toContextEvaluation r selection reads in
    let admitted := admittedPolicyContext (sel_requirements selection) reads in
    Ok (match ev_unsatisfiedRequirements evaluation with
    | [] => {| kf_evaluation := evaluation; kf_reasonCodes := []; kf_summary := ""; kf_admitted := admitted |}
    | entries => {| kf_evaluation := evaluation; kf_reasonCodes := nub (entries ≫= entry_codes (sel_requirements selection)); kf_summary := unmet_summary entries; kf_admitted := admitted |}
    end).

(** ** The step *)

(** An evaluated result; [other_fields] are the fields the step copies. *)
Context {A : Type}.
Record KernelEvaluationResult := { kr_status : KernelDecisionStatus; kr_reasonCodes : list string; kr_summary : string; kr_context : option ContextEvaluation; other_fields : A }.

Definition applyContextStep (capability : option KernelContextCapability) (r : option ContextResolution) (k : KernelEvaluationResult) (q : KernelEvaluationRequest) : result ContextThrow KernelEvaluationResult :=
  match capability, r with
  | Some c, Some r =>
      let* found := resolveKernelContextFacts c r q in
      Ok (if negb (bool_decide (kr_status k ∈ VIABLE_STATUSES)) || (length (kf_reasonCodes found) =? 0)%nat then
            {| kr_status := kr_status k; kr_reasonCodes := kr_reasonCodes k; kr_summary := kr_summary k; kr_context := Some (kf_evaluation found); other_fields := other_fields k |}
          else
            {| kr_status := denied; kr_reasonCodes := kf_reasonCodes found; kr_summary := kf_summary found; kr_context := Some (kf_evaluation found); other_fields := other_fields k |})
  | _, _ => Ok k
  end.
End Step.
Arguments KernelEvaluationResult : clear implicits.

(** ** The profile is never the request's choice *)

Definition with_claim (q : KernelEvaluationRequest) (c : option KernelGovernanceProfileKey) : KernelEvaluationRequest :=
  {| actor_id := actor_id q; actor_trustDomainId := actor_trustDomainId q; action_type := action_type q; action_capability := action_capability q;
     action_resourceScope := action_resourceScope q; claimed_profile := c; organization_id := organization_id q; target_id := target_id q |}.

Lemma claim_only_refuses resolver q c :
  selectEffectiveProfile resolver (with_claim q c) = selectEffectiveProfile resolver (with_claim q None) ∨ selectEffectiveProfile resolver (with_claim q c) = Refused.
Proof.
  unfold selectEffectiveProfile. destruct resolver as [f|]; [|auto]. change (trusted_resolution f (with_claim q c)) with (trusted_resolution f (with_claim q None)).
  destruct (trusted_resolution f _) as [[|p|]|]; cbn; auto; destruct c as [p'|]; cbn; auto. destruct (str_eqb _ _); auto.
Qed.
Lemma profile_trusted f q key :
  selectEffectiveProfile (Some f) q = Profile key →
  ∃ p, trusted_resolution f q = Some (ResolvedTo p) ∧ key = governanceProfileKey p ∧ ∀ c, claimed_profile q = Some c → governanceProfileKey c = key.
Proof.
  unfold selectEffectiveProfile. destruct (trusted_resolution f q) as [[|p|]|]; [by destruct (claimed_profile q)| |done..]. intros E. exists p. destruct (claimed_profile q) as [c|].
  - destruct (str_eqb (governanceProfileKey c) (governanceProfileKey p)) eqn:Ec; [|done]. apply str_eqb_eq in Ec. injection E as <-. split_and!; [done..|]. by intros c' [= <-].
  - injection E as <-. by split_and!.
Qed.

(** ** Selections of a configured capability *)

(** The declaration a selection stands for. *)
Definition declared_by (o : KernelContextResolutionOptions) (s : KernelContextSelection) (d : ContextDeclaration) : Prop :=
  new_service (op_sources o) d (op_attestationVerifier o) = Ok (sel_service s) ∧ sel_requirements s = requirements d ∧
  match sel_profile s with None => d = op_declaration o | Some key => ∃ p, (p, d) ∈ op_profileDeclarations o ∧ governanceProfileKey p = key end.

Lemma configured_Ok sources d v svc : configured sources d v = Ok svc → new_service sources d v = Ok svc.
Proof. unfold configured. destruct (new_service sources d v); [|done]. by intros [= ->]. Qed.
Lemma add_profiles_get o m l m' :
  add_profiles o m l = Ok m' → (∀ x, x ∈ l → x ∈ op_profileDeclarations o) → (∀ key s, map_get key m = Some s → sel_refused s = false ∧ sel_profile s = Some key ∧ ∃ d, declared_by o s d) →
  ∀ key s, map_get key m' = Some s → sel_refused s = false ∧ sel_profile s = Some key ∧ ∃ d, declared_by o s d.
Proof.
  revert m. induction l as [|[p d] l IH]; intros m; cbn; [by intros [= <-]|]. destruct (is_some _); [done|]. intros (svc&Hsvc%configured_Ok&Hadd)%result_bind_Ok Hl Hm.
  apply (IH _ Hadd); [set_solver|]. intros key s. rewrite map_get_set. destruct (str_eqb _ _) eqn:E; [|apply Hm]. apply str_eqb_eq in E as <-. intros [= <-]. split_and!; [done..|].
  exists d. split_and!; [done..|]. cbn. exists p. split; [apply Hl; set_solver|done].
Qed.
Lemma add_profiles_all o m l m' : add_profiles o m l = Ok m' → ∀ key, is_Some (map_get key m) ∨ key ∈ governanceProfileKey ∘ fst <$> l → is_Some (map_get key m').
Proof.
  revert m. induction l as [|[p d] l IH]; intros m; cbn; [intros [= <-] key [?|Hk]; [done|by apply not_elem_of_nil in Hk]|]. destruct (is_some _); [done|].
  intros (svc&_&Hadd)%result_bind_Ok key Hk. apply (IH _ Hadd). rewrite map_get_set. destruct (str_eqb _ _) eqn:E; [by left|]. apply str_eqb_neq in E. set_solver.
Qed.
Lemma select_declared o c q : new_capability o = Ok c →
  let s := select c q in
  (sel_refused s = true ↔ selectEffectiveProfile (op_resolveEffectiveProfile o) q = Refused) ∧
  (sel_refused s = false → ∃ d, declared_by o s d) ∧
  (∀ key, sel_profile s = Some key → selectEffectiveProfile (op_resolveEffectiveProfile o) q = Profile key) ∧
  (∀ key, selectEffectiveProfile (op_resolveEffectiveProfile o) q = Profile key → key ∈ governanceProfileKey ∘ fst <$> op_profileDeclarations o → sel_profile s = Some key).
Proof.
  unfold new_capability. destruct (assertEffectiveProfileResolver _ _); [|done]. intros (svc&Hsvc%configured_Ok&(m&Hm&E)%result_bind_Ok)%result_bind_Ok. injection E as <-. unfold select. cbn.
  assert (∀ key s, map_get key m = Some s → sel_refused s = false ∧ sel_profile s = Some key ∧ ∃ d, declared_by o s d) as Hget by (eapply add_profiles_get; [exact Hm|done|done]).
  assert (∃ d, declared_by o {| sel_service := svc; sel_requirements := requirements (op_declaration o); sel_profile := None; sel_refused := false |} d) as Hfall by (exists (op_declaration o); done).
  destruct (selectEffectiveProfile _ _) as [|key|]; cbn.
  - split_and!; [by split|by intros _|done|done].
  - destruct (map_get key m) as [s|] eqn:Es; cbn.
    + destruct (Hget key s Es) as (Hr&Hp&Hd). rewrite Hr, Hp. split_and!; [by split|done|by intros k [= ->]|by intros k [= ->]].
    + split_and!; [by split|done|done|]. intros k [= ->] Hin. exfalso. destruct (add_profiles_all o [] (op_profileDeclarations o) m Hm k) as [x Hx]; [by right|congruence].
  - split_and!; [by split|done|done|done].
Qed.

(** *** The profile a request stands under

    The declaration that governs a request, from the deployment's options alone.
    Without a resolver it is the deployment's own. A resolver must answer, and
    answer alike for the action and for the capability it is an instance of. Where
    it leaves both unclassified, the deployment's own declaration governs a
    request that claims no profile. Where it resolves them to a profile, a claim
    must name that profile, and the profile's declaration governs, or the
    deployment's own if it declares none for it. *)
Definition stands_under (o : KernelContextResolutionOptions) (q : KernelEvaluationRequest) (d : ContextDeclaration) : Prop :=
  match op_resolveEffectiveProfile o with
  | None => d = op_declaration o
  | Some resolver =>
      (resolver (action_type q) (action_resourceScope q) = Some Unclassified ∧
       (∀ capability, action_capability q = Some capability → resolver capability (action_resourceScope q) = Some Unclassified) ∧
       claimed_profile q = None ∧ d = op_declaration o) ∨
      (∃ p, resolver (action_type q) (action_resourceScope q) = Some (ResolvedTo p) ∧
       (∀ capability, action_capability q = Some capability →
          ∃ p', resolver capability (action_resourceScope q) = Some (ResolvedTo p') ∧ governanceProfileKey p' = governanceProfileKey p) ∧
       (∀ claimed, claimed_profile q = Some claimed → governanceProfileKey claimed = governanceProfileKey p) ∧
       ((∃ p', (p', d) ∈ op_profileDeclarations o ∧ governanceProfileKey p' = governanceProfileKey p) ∨
        governanceProfileKey p ∉ governanceProfileKey ∘ fst <$> op_profileDeclarations o ∧ d = op_declaration o))
  end.

Lemma trusted_exact resolver q res : trusted_resolution resolver q = Some res → res ≠ ResolutionRefused →
  resolver (action_type q) (action_resourceScope q) = Some res ∧ ∀ capability, action_capability q = Some capability →
    match res with
    | ResolvedTo p => ∃ p', resolver capability (action_resourceScope q) = Some (ResolvedTo p') ∧ governanceProfileKey p' = governanceProfileKey p
    | _ => resolver capability (action_resourceScope q) = Some Unclassified
    end.
Proof.
  unfold trusted_resolution. intros (res0&Hr&E)%bind_Some Hne. destruct (action_capability q) as [cap|]; [|by injection E as ->].
  destruct (str_eqb cap (action_type q)) eqn:Ec.
  - apply str_eqb_eq in Ec as ->. injection E as ->. split; [done|]. intros ? [= <-]. rewrite Hr. destruct res as [|p|]; [done|by exists p|done].
  - apply bind_Some in E as (other&Ho&E). destruct (sameResolution res0 other) eqn:Es; [|done]. injection E as ->. split; [done|]. intros ? [= <-]. rewrite Ho.
    destruct res as [|p|], other as [|p'|]; try done. cbn in Es. apply str_eqb_eq in Es. by exists p'.
Qed.
Lemma select_stands o c q d : new_capability o = Ok c → sel_refused (select c q) = false → declared_by o (select c q) d → stands_under o q d.
Proof.
  intros Hc Hr (_&_&Hd). destruct (select_declared _ _ q Hc) as (Href&_&Hprofile&Hdeclared). unfold stands_under.
  assert (selectEffectiveProfile (op_resolveEffectiveProfile o) q ≠ Refused) as Hs by (rewrite <-Href; congruence).
  destruct (op_resolveEffectiveProfile o) as [resolver|]; cycle 1.
  { destruct (sel_profile (select c q)) as [key|]; [|done]. by specialize (Hprofile key eq_refl). }
  destruct (trusted_resolution resolver q) as [res|] eqn:Et; [|destruct Hs; unfold selectEffectiveProfile; by rewrite Et].
  assert (res ≠ ResolutionRefused) as Hne by (intros ->; destruct Hs; unfold selectEffectiveProfile; by rewrite Et).
  destruct (trusted_exact _ _ _ Et Hne) as [Ha Hcap]. unfold selectEffectiveProfile in *. rewrite Et in *. destruct res as [|p|]; [| |done].
  - left. destruct (claimed_profile q); [done|]. split_and!; [done..|]. destruct (sel_profile (select c q)) as [key|]; [|done]. by specialize (Hprofile key eq_refl).
  - right. exists p. assert (∀ claimed, claimed_profile q = Some claimed → governanceProfileKey claimed = governanceProfileKey p) as Hclaim.
    { intros claimed Ecl. rewrite Ecl in Hs. destruct (str_eqb _ _) eqn:E; [by apply str_eqb_eq in E|done]. }
    assert (∀ key, (match claimed_profile q with
      | Some claimed => if str_eqb (governanceProfileKey claimed) (governanceProfileKey p) then Profile (governanceProfileKey p) else Refused
      | None => Profile (governanceProfileKey p) end) = Profile key ↔ key = governanceProfileKey p) as Hkey.
    { intros key. destruct (claimed_profile q) as [cl|]; [rewrite (Hclaim cl eq_refl), str_eqb_refl|]; split; congruence. }
    split_and!; [done..|]. destruct (sel_profile (select c q)) as [key|].
    + left. destruct Hd as (p'&Hin&Ek). exists p'. split; [done|]. rewrite Ek. by apply Hkey, Hprofile.
    + right. split; [|done]. intros Hin. discriminate (Hdeclared _ (proj2 (Hkey _) eq_refl) Hin).
Qed.

(** ** What stops a request *)

(** A requirement that stops: a required fact whose read is not satisfied, or a
    restrict-only fact whose reading is ambiguous. *)
Definition unmet (r : ContextResolution) (rq : ContextRequirement) : Prop :=
  required rq = true ∧ read_status (readContextFact r rq) ≠ satisfied ∨
  restrictive rq = Some true ∧ (read_status (readContextFact r rq) = disputed ∨ read_status (readContextFact r rq) = context_not_resolved).

Lemma read_key_exact r rq : read_key (readContextFact r rq) = rq_key rq.
Proof. unfold readContextFact. by repeat case_match. Qed.
Lemma key_filter (p : ContextRequirement → bool) l rq : NoDup (rq_key <$> l) → rq ∈ l → rq_key rq ∈ rq_key <$> List.filter p l ↔ p rq = true.
Proof.
  intros Hn Hin. rewrite list_elem_of_fmap. setoid_rewrite list_elem_of_In. setoid_rewrite filter_In. setoid_rewrite <-list_elem_of_In. split.
  - intros (rq'&E&Hin'&Hp). by rewrite (NoDup_fmap_elem rq_key l rq rq').
  - intros Hp. by exists rq.
Qed.
Lemma unsatisfied_iff l r rq : NoDup (rq_key <$> l) → rq ∈ l → unsatisfied l (readContextFact r rq) = true ↔ unmet r rq.
Proof.
  intros Hn Hin. unfold unsatisfied, unmet, required_keys, restrictive_keys.
  rewrite orb_true_iff, !andb_true_iff, negb_true_iff, bool_decide_eq_false, !bool_decide_eq_true, read_key_exact, !key_filter by done.
  unfold is_restrictive. rewrite bool_decide_eq_true, elem_of_cons, list_elem_of_singleton. done.
Qed.
Lemma nub_nil {B} `{EqDecision B} (l : list B) : nub l = [] ↔ l = [].
Proof. split; [|by intros ->]. by destruct l. Qed.
Lemma entry_codes_some l e : entry_codes l e ≠ [].
Proof. unfold entry_codes. by destruct (bool_decide _), (re_refusalReasons e). Qed.

Section Stopping.
Context `{JsHost} `{ContextHost}.
Context (o : KernelContextResolutionOptions) (c : KernelContextCapability) (q : KernelEvaluationRequest) (r : ContextResolution).
Context (composed : new_capability o = Ok c).
Notation s := (select c q).

Lemma declared_unique d : declared_by o s d → NoDup (rq_key <$> sel_requirements s).
Proof.
  intros (Hb&->&_). destruct (built_parts _ _ _ _ Hb) as (Hv&_). unfold validateContextDeclaration in Hv.
  destruct (validate_requirements [] (requirements d)) as [vs seen] eqn:E. apply app_eq_nil in Hv as [Hv _]. apply (validated_keys _ _ _ _ Hb _ _ _ _ E Hv).
Qed.
Definition stopped : Prop := sel_refused s = true ∨ ∃ rq, rq ∈ sel_requirements s ∧ unmet r rq.

Lemma unmet_entries : sel_refused s = false →
  match List.filter (unsatisfied (sel_requirements s)) (readContextFacts r (sel_requirements s)) with
  | [] => ∀ rq, rq ∈ sel_requirements s → ¬ unmet r rq
  | _ => ∃ rq, rq ∈ sel_requirements s ∧ unmet r rq
  end.
Proof.
  intros Hr. destruct (select_declared _ _ q composed) as (_&Hd&_). destruct (Hd Hr) as [d Hdd]. pose proof (declared_unique d Hdd) as Hn. unfold readContextFacts.
  destruct (List.filter _ _) as [|x l] eqn:E.
  - intros rq Hin Hu. apply (unsatisfied_iff _ _ _ Hn Hin) in Hu. apply (not_elem_of_nil (readContextFact r rq)). rewrite <-E.
    apply list_elem_of_In, filter_In. split; [|done]. by apply list_elem_of_In, list_elem_of_fmap_2.
  - assert (x ∈ List.filter (unsatisfied (sel_requirements s)) (readContextFact r <$> sel_requirements s)) as Hx by (rewrite E; set_solver).
    apply list_elem_of_In, filter_In in Hx as [Hx Hu]. apply list_elem_of_In, list_elem_of_fmap in Hx as (rq&->&Hin). exists rq. split; [done|]. by apply (unsatisfied_iff _ _ _ Hn Hin).
Qed.
Lemma reason_codes_exact found : resolveKernelContextFacts c r q = Ok found → match kf_reasonCodes found with [] => ¬ stopped | _ => stopped end.
Proof.
  unfold resolveKernelContextFacts, stopped. destruct (sel_refused s) eqn:Hr.
  { intros (e&_&E)%result_bind_Ok. injection E as <-. cbn. by left. }
  intros (e&He&E)%result_bind_Ok. unfold toContextEvaluation in He. apply result_bind_Ok in He as (dg&_&He). injection He as <-. cbn in E. injection E as <-.
  pose proof (unmet_entries Hr) as Hu. destruct (List.filter _ _) as [|x l]; cbn -[entry_codes].
  - intros [?|(rq&Hin&Hm)]; [done|by apply (Hu rq)].
  - destruct (nub _) eqn:En; [|by right]. apply nub_nil, app_nil in En as [En _]. by apply entry_codes_some in En.
Qed.
End Stopping.

(** The context step narrows, exactly where the deployment said so. Whatever
    the connector returned, a viable outcome becomes a denial when the request's
    profile is not established, a required fact is not satisfied or a
    restrict-only fact is ambiguous, and otherwise the status, the reason codes
    and the summary are left as they were; an outcome that is not viable is
    never changed, and the fields the step does not own never are. *)
Theorem context_step_exact `{JsHost} `{ContextHost} {A} o c q r (k k' : KernelEvaluationResult A) :
  new_capability o = Ok c → applyContextStep (Some c) (Some r) k q = Ok k' →
  other_fields k' = other_fields k ∧
  (kr_status k ∈ VIABLE_STATUSES → stopped c q r → kr_status k' = denied ∧ kr_reasonCodes k' ≠ []) ∧
  (kr_status k ∉ VIABLE_STATUSES ∨ ¬ stopped c q r → kr_status k' = kr_status k ∧ kr_reasonCodes k' = kr_reasonCodes k ∧ kr_summary k' = kr_summary k).
Proof.
  intros Hc (found&Hf&E)%result_bind_Ok. injection E as <-. pose proof (reason_codes_exact _ _ _ _ Hc _ Hf) as Hs.
  case_bool_decide as Hv; cbn; [|by split_and!]. destruct (kf_reasonCodes found); cbn.
  - split_and!; [done|intros _ Hst; by destruct Hs|done].
  - split_and!; [done|done|]. intros [?|?]; done.
Qed.

(** ** From the connector to the decision *)

Lemma read_satisfied_resolved r rq : read_status (readContextFact r rq) = satisfied → is_resolved r = true.
Proof. unfold readContextFact. by destruct (is_resolved r). Qed.

Lemma resolved_from_connector `{JsHost} `{ContextHost} o c q at_ r :
  new_capability o = Ok c → resolveKernelContext (Some c) q at_ = Ok (Some r) → is_resolved r = true → sel_refused (select c q) = false ∧
  ∃ observations, classify (sel_service (select c q)) observations at_ (organization_id q) = Ok r ∧
    (observations = [] ∨ op_provider o (context_query (sel_service (select c q)) q at_) = Observed observations).
Proof.
  intros Hc. assert (provider c = op_provider o) as Hp.
  { unfold new_capability in Hc. destruct (assertEffectiveProfileResolver _ _); [|done]. apply result_bind_Ok in Hc as (svc&_&(m&_&E)%result_bind_Ok). by injection E as <-. }
  unfold resolveKernelContext. cbn zeta. destruct (sel_refused (select c q)); [by intros [= <-]|].
  destruct (declared (sel_service (select c q))) as [|k0 ks]; [done|]. intros Hr Hres. split; [done|]. destruct (length (requested _) =? 0)%nat.
  - apply result_bind_Ok in Hr as (r'&Hcl&E). injection E as ->. eauto.
  - rewrite Hp in Hr. destruct (op_provider o _) as [| |l]; [injection Hr as <-; done..|]. apply result_bind_Ok in Hr as (r'&Hcl&E). injection E as ->. eauto.
Qed.
Lemma rests_on_observed `{JsHost} `{ContextHost} svc at_ org obs l f o : rests_on svc at_ org obs l f o → o ∈ obs.
Proof. induction 1 as [o status c f Ho Hf|]; [|done]. by apply elem_of_readings in Ho as [? _]. Qed.

(** C23. No action goes ahead on context the deployment does not trust. If the
    result that leaves the context step is still allowed (or awaits approval),
    then the declaration that governs it is the one the deployment's options
    determine for this request ([stands_under]): the one of the profile the
    trusted resolver gives alike for its action and its capability, which a claim
    of the request may repeat and never change, or the deployment's own, only
    where no resolver is configured, where it classifies neither and the request
    claims nothing, or where that profile declares nothing of its own. And for
    every fact that declaration requires, the configured connector was asked
    about this request and returned the readings on which a resolved fact of
    that class rests, every one of them admitted from a configured source of at
    least the required class, whatever derivations lie between; and no
    restrict-only fact is disputed or unread. *)
Theorem context_gate_sound `{JsHost} `{ContextHost} {A} o c q at_ r (k k' : KernelEvaluationResult A) :
  new_capability o = Ok c → resolveKernelContext (Some c) q at_ = Ok (Some r) → applyContextStep (Some c) (Some r) k q = Ok k' → kr_status k' ∈ VIABLE_STATUSES →
  ∃ d, stands_under o q d ∧ declared_by o (select c q) d ∧
    (∀ rq, rq ∈ requirements d → restrictive rq = Some true → read_status (readContextFact r rq) ≠ disputed ∧ read_status (readContextFact r rq) ≠ context_not_resolved) ∧
    ∀ rq, rq ∈ requirements d → required rq = true →
      ∃ observations f, op_provider o (context_query (sel_service (select c q)) q at_) = Observed observations ∧
        f ∈ facts r ∧ fact_key f = rq_key rq ∧ resolution f = resolved ∧
        (∃ x, rests_on (sel_service (select c q)) at_ (organization_id q) observations (facts r) f x) ∧
        ∀ x, rests_on (sel_service (select c q)) at_ (organization_id q) observations (facts r) f x →
          x ∈ observations ∧ refusalOf (sel_service (select c q)) x at_ (organization_id q) = None ∧ TERMINAL_RANK (minimumTrustClass rq) ≤ rank_of_reading (sel_service (select c q)) x.
Proof.
  intros Hc Hr (found&Hf&E)%result_bind_Ok Hv. pose proof (reason_codes_exact _ _ _ _ Hc _ Hf) as Hs.
  assert (¬ stopped c q r) as Hn.
  { injection E as <-. case_bool_decide as Hk; cbn in Hv; [|done]. destruct (kf_reasonCodes found); cbn in Hv; [done|]. by apply elem_of_cons in Hv as [?|Hv%list_elem_of_singleton]. }
  destruct (select_declared _ _ q Hc) as (Href&Hd&_). assert (sel_refused (select c q) = false) as Hr0 by (destruct (sel_refused (select c q)) eqn:Er; [destruct Hn; by left|done]).
  clear Href. destruct (Hd Hr0) as [d Hdd]. pose proof Hdd as (Hb&Hreq&_). exists d. split; [by eapply select_stands|]. split; [done|].
  assert (∀ rq, rq ∈ requirements d → ¬ unmet r rq) as Hmet by (intros rq Hin Hu; apply Hn; right; exists rq; by rewrite Hreq). split.
  - intros rq Hin Hre. specialize (Hmet rq Hin). unfold unmet in Hmet. tauto.
  - intros rq Hin Hq. assert (read_status (readContextFact r rq) = satisfied) as Hsat.
    { destruct (decide (read_status (readContextFact r rq) = satisfied)) as [?|Hx]; [done|]. destruct (Hmet rq Hin). by left. }
    destruct (resolved_from_connector _ _ _ _ _ Hc Hr (read_satisfied_resolved _ _ Hsat)) as [_ (obs&Hcl&Hobs)].
    destruct (no_trust_laundering_lemma _ _ _ _ _ _ _ _ rq Hb Hcl Hsat) as (f&Hfi&Hfk&Hfr&_&[x Hx]&Hall).
    exists obs, f. split_and!; [|done..|eauto|].
    + destruct Hobs as [->|?]; [|done]. apply rests_on_observed in Hx. by apply not_elem_of_nil in Hx.
    + intros y Hy. destruct (Hall y Hy). split_and!; [by apply rests_on_observed in Hy|done..].
Qed.

(** ** What policy sees *)

(** The facts handed to policy are those of the satisfied reads, each in the
    list of its kind. *)
Lemma policy_facts_exact l r f : NoDup (rq_key <$> l) →
  let a := admittedPolicyContext l (readContextFacts r l) in
  let satisfied_as rq := read_status (readContextFact r rq) = satisfied ∧ read_value (readContextFact r rq) = Some (pf_value f) ∧ rq_key rq = pf_factClass f in
  (f ∈ contextFacts a ↔ ∃ rq, rq ∈ l ∧ is_restrictive rq = false ∧ satisfied_as rq) ∧
  (f ∈ restrictiveFacts a ↔ ∃ rq, rq ∈ l ∧ is_restrictive rq = true ∧ satisfied_as rq).
Proof.
  intros Hn. cbn. rewrite !elem_of_merged, !list_elem_of_omap. unfold readContextFacts.
  assert (∀ rq, policy_fact (readContextFact r rq) = Some f ↔ read_status (readContextFact r rq) = satisfied ∧ read_value (readContextFact r rq) = Some (pf_value f) ∧ rq_key rq = pf_factClass f) as Hp.
  { intros rq. unfold policy_fact. rewrite read_key_exact. destruct (read_status _), (read_value _); try naive_solver. destruct f as [k v]. naive_solver. }
  assert (∀ rq, rq ∈ l → bool_decide (read_key (readContextFact r rq) ∈ restrictive_keys l) = is_restrictive rq) as Hk.
  { intros rq Hin. unfold restrictive_keys. rewrite read_key_exact. pose proof (key_filter is_restrictive l rq Hn Hin) as E. destruct (is_restrictive rq); case_bool_decide; naive_solver. }
  split; split.
  - intros (x&Hx&Hpx). apply list_elem_of_In, filter_In in Hx as [Hx Hr]. apply list_elem_of_In, list_elem_of_fmap in Hx as (rq&->&Hin). exists rq. rewrite Hk in Hr by done. apply negb_true_iff in Hr. by rewrite <-Hp.
  - intros (rq&Hin&Hr&Hs). exists (readContextFact r rq). rewrite Hp. split; [|done]. apply list_elem_of_In, filter_In. rewrite Hk, Hr by done. split; [|done]. by apply list_elem_of_In, list_elem_of_fmap_2.
  - intros (x&Hx&Hpx). apply list_elem_of_In, filter_In in Hx as [Hx Hr]. apply list_elem_of_In, list_elem_of_fmap in Hx as (rq&->&Hin). exists rq. rewrite Hk in Hr by done. by rewrite <-Hp.
  - intros (rq&Hin&Hr&Hs). exists (readContextFact r rq). rewrite Hp. split; [|done]. apply list_elem_of_In, filter_In. rewrite Hk, Hr by done. split; [|done]. by apply list_elem_of_In, list_elem_of_fmap_2.
Qed.

(** ** A composed capability *)

Module StepDemo.

#[local] Existing Instance demo_host.
#[local] Existing Instance ContextDemo.demo_context_host.
Import ContextDemo.

Definition payments_profile : KernelGovernanceProfileKey := {| gp_id := "payments"; gp_version := 3; gp_digest := "d1" |}.
Definition profile_declaration : ContextDeclaration :=
  {| requirements := [needs "vendor.status" Authoritative (Some 1800); needs "ledger.balance" Authoritative None; needs "ledger.held" Asserted None; needs "ledger.net" Authoritative None;
       {| rq_key := "vendor.score"; minimumTrustClass := Authoritative; rq_maxAgeSeconds := None; required := false; restrictive := Some true |}];
     dc_derivations := dc_derivations sample_declaration; dc_assertedFactPolicy := None; dc_assertableKeys := None; dc_maxFutureSkewSeconds := None |}.
Definition sample_options (table : list ContextFactObservation) : KernelContextResolutionOptions :=
  {| op_provider := createInMemoryContextResolver (λ _, table); op_sources := [erp_source; ledger_source; requester_source]; op_declaration := sample_declaration;
     op_profileDeclarations := [(payments_profile, profile_declaration)];
     op_resolveEffectiveProfile := Some (λ action _, Some (if str_eqb action "payment.send" then ResolvedTo payments_profile else Unclassified)); op_attestationVerifier := None |}.
Definition no_capability : KernelContextCapability :=
  {| provider := createFailingContextResolver; service := no_service; cap_requirements := []; byProfile := []; resolveEffectiveProfile := None |}.
Definition capability_of (table : list ContextFactObservation) : KernelContextCapability := match new_capability (sample_options table) with Ok c => c | Throw _ => no_capability end.
Definition payment_request : KernelEvaluationRequest :=
  {| actor_id := "agent"; actor_trustDomainId := "td"; action_type := "payment.send"; action_capability := None; action_resourceScope := "treasury"; claimed_profile := None;
     organization_id := Some "org-1"; target_id := None |}.
Definition engine_result : KernelEvaluationResult unit := {| kr_status := allowed; kr_reasonCodes := []; kr_summary := "ok"; kr_context := None; other_fields := tt |}.
Definition context_of (table : list ContextFactObservation) : ContextResolution :=
  match resolveKernelContext (Some (capability_of table)) payment_request INSTANT with Ok (Some r) => r | _ => no_resolution end.
Definition stepped (table : list ContextFactObservation) : KernelEvaluationResult unit :=
  match applyContextStep (Some (capability_of table)) (Some (context_of table)) engine_result payment_request with Ok k => k | Throw _ => engine_result end.

Lemma context_gate_sound_witness : ∃ d, stands_under (sample_options sample_readings) payment_request d ∧
  declared_by (sample_options sample_readings) (select (capability_of sample_readings) payment_request) d.
Proof.
  destruct (context_gate_sound (sample_options sample_readings) (capability_of sample_readings) payment_request INSTANT (context_of sample_readings) engine_result (stepped sample_readings)) as (d&Hs&Hd&_);
    [vm_compute; reflexivity..|vm_compute; left|exact (ex_intro _ d (conj Hs Hd))].
Defined.

(** A disputed restrict-only fact stops the same request. *)
Definition disputed_readings : list ContextFactObservation := sample_readings ++ [reading "vendor.score" (JsNum (JInt 1)) "ctx.erp" "990000" None; reading "vendor.score" (JsNum (JInt 2)) "ctx.erp" "991000" None].
Lemma context_step_exact_witness : kr_status (stepped disputed_readings) = denied ∧ kr_reasonCodes (stepped disputed_readings) ≠ [].
Proof.
  destruct (context_step_exact (sample_options disputed_readings) (capability_of disputed_readings) payment_request (context_of disputed_readings) engine_result (stepped disputed_readings)) as (_&Hs&_);
    [vm_compute; reflexivity..|]. apply Hs; [vm_compute; left|]. right.
  exists {| rq_key := "vendor.score"; minimumTrustClass := Authoritative; rq_maxAgeSeconds := None; required := false; restrictive := Some true |}.
  split; [vm_compute; do 4 right; left|]. right. split; [reflexivity|]. left. vm_compute. reflexivity.
Defined.
Example disputed_codes : kr_reasonCodes (stepped disputed_readings) = [CONTEXT_RESTRICTIVE_FACT_AMBIGUOUS].
Proof. vm_compute. reflexivity. Qed.
(** A request that claims another profile is not evaluated under it. *)
Example other_profile_refused :
  sel_refused (select (capability_of sample_readings) (with_claim payment_request (Some {| gp_id := "payments"; gp_version := 2; gp_digest := "d0" |}))) = true.
Proof. vm_compute. reflexivity. Qed.
End StepDemo.
