(* ===== verification/Enforcement.v ===== *)
(** * Action enforcement: data and policies

    [features/action-enforcement/domain], [policies] and the services that
    only compute: what a request to act carries, what the recognition provider
    and the policy-pack integration may answer, how those answers become a
    decision type, the permissions of an adapter, the thirteen policies of the
    default chain and the evaluator that runs a chain. The last part says, for
    the default chain, exactly when an action may be executed.

    The recognition provider and the policy-pack integration are parameters of
    the runtime. A field of their answer that is not of its declared type is
    absent; a recognition type that is the name of a member of
    [Object.prototype] is left out. Policies a deployment supplies itself are
    total functions. *)

From S2P Require Import Prelude Decimal Js JsMap StableJson Parameters ContextResolution ContextStep.

Local Open Scope frontera_scope.
Local Open Scope Z_scope.

(** ** Vocabulary *)

Inductive EnforcementDecisionType :=
  | execute_allowed | execution_blocked | needs_approval | evidence_required | external_handshake_required | dry_run_allowed | duplicate_suppressed
  | emergency_denied | adapter_denied | request_expired | invalid_request.
#[export] Instance EnforcementDecisionType_eq_dec : EqDecision EnforcementDecisionType.
Proof. solve_decision. Defined.
Definition decision_name (t : EnforcementDecisionType) : string :=
  match t with
  | execute_allowed => "execute_allowed" | execution_blocked => "execution_blocked" | needs_approval => "approval_required" | evidence_required => "evidence_required"
  | external_handshake_required => "external_handshake_required" | dry_run_allowed => "dry_run_allowed" | duplicate_suppressed => "duplicate_suppressed"
  | emergency_denied => "emergency_denied" | adapter_denied => "adapter_denied" | request_expired => "expired" | invalid_request => "invalid_request"
  end.

Inductive SideEffectType :=
  | se_none | se_read | se_write | se_send_message | se_external_api_call | se_financial | se_legal | se_data_export | se_state_change.
#[export] Instance SideEffectType_eq_dec : EqDecision SideEffectType.
Proof. solve_decision. Defined.
Definition side_effect_name (t : SideEffectType) : string :=
  match t with
  | se_none => "none" | se_read => "read" | se_write => "write" | se_send_message => "send_message" | se_external_api_call => "external_api_call"
  | se_financial => "financial" | se_legal => "legal" | se_data_export => "data_export" | se_state_change => "state_change"
  end.
Inductive SideEffectStatus := se_planned | se_blocked | se_executed | se_failed | se_compensated | se_skipped.
#[export] Instance SideEffectStatus_eq_dec : EqDecision SideEffectStatus.
Proof. solve_decision. Defined.
Record SideEffectDescriptor := {
  sd_id : string; sd_enforcementRequestId : string; sd_type : SideEffectType; sd_status : SideEffectStatus; sd_description : option string;
  sd_plannedAt : string; sd_executedAt : option string; sd_failedAt : option string;
}.

Inductive ExecutionRiskLevel := risk_low | risk_medium | risk_high | risk_critical.
Record ExecutionIntent := {
  in_id : string; in_action : string; in_capability : option string; in_resourceScope : string; in_riskLevel : ExecutionRiskLevel;
  in_sideEffectType : SideEffectType; in_description : option string;
}.
Inductive EnforcementTargetType := tt_tool_call | tt_api_handler | tt_workflow_step | tt_webhook | tt_scheduled_job | tt_manual_operation | tt_generic.
#[export] Instance EnforcementTargetType_eq_dec : EqDecision EnforcementTargetType.
Proof. solve_decision. Defined.
Definition target_type_name (t : EnforcementTargetType) : string :=
  match t with
  | tt_tool_call => "tool_call" | tt_api_handler => "api_handler" | tt_workflow_step => "workflow_step" | tt_webhook => "webhook"
  | tt_scheduled_job => "scheduled_job" | tt_manual_operation => "manual_operation" | tt_generic => "generic"
  end.
Record EnforcementTarget := { tg_id : string; tg_type : EnforcementTargetType; tg_name : string; tg_adapterId : option string }.

(** What a policy pack is told besides the request. The metadata is what the
    kernel resolved; a plain caller may put any data there. *)
Inductive MetadataValue := PlainData (v : Json) | ConstraintContext (c : Json) | ResolvedContext (r : ContextResolution).
Record EnforcementPolicyEvaluationInput := {
  pe_domain : option string; pe_jurisdiction : option string; pe_country : option string; pe_industry : option string; pe_customerId : option string;
  pe_amount : option string; pe_currency : option string; pe_counterpartyId : option string; pe_dataDomains : option (list string); pe_evidenceIds : option (list string);
  pe_actionClass : option string; pe_resourceClass : option string; pe_governanceProfile : option string; pe_governanceProfileVersion : option JsNumber;
  pe_governedParameters : option (list GovernedParameter); pe_contextFacts : option (list AdmittedPolicyFact); pe_restrictiveFacts : option (list AdmittedPolicyFact);
  pe_metadata : option (JsMap MetadataValue);
}.

Inductive EnforcementMode := mode_preflight | mode_execute | mode_dry_run.
#[export] Instance EnforcementMode_eq_dec : EqDecision EnforcementMode.
Proof. solve_decision. Defined.
Definition mode_name (m : EnforcementMode) : string := match m with mode_preflight => "preflight" | mode_execute => "execute" | mode_dry_run => "dry_run" end.
Inductive EnforcementRequestStatus := rq_submitted | rq_preflight_passed | rq_preflight_failed | rq_blocked | rq_executing | rq_executed | rq_failed | rq_cancelled.
#[export] Instance EnforcementRequestStatus_eq_dec : EqDecision EnforcementRequestStatus.
Proof. solve_decision. Defined.

Record EnforcementRequest := {
  er_id : string; er_mode : EnforcementMode; er_status : EnforcementRequestStatus; er_trustDomainId : string; er_actorId : string; er_principalActorId : option string;
  er_action : string; er_capability : option string; er_resourceScope : string; er_actionRequestId : option string;
  er_approvalRequestId : option string; er_approvalDecisionId : option string; er_approvalProofId : option string; er_handshakeProofId : option string;
  er_visaId : option string; er_ingressGrantId : option string; er_target : EnforcementTarget; er_intent : ExecutionIntent; er_idempotencyKey : option string;
  er_sideEffects : list SideEffectDescriptor; er_submittedAt : string; er_expiresAt : option string;
  er_policyEvaluationInput : option EnforcementPolicyEvaluationInput; er_metadata : option (JsMap Json);
}.

(** ** Recognition *)

Record RecognitionVerificationInput := {
  ri_actionRequestId : option string; ri_actorId : string; ri_principalActorId : option string; ri_trustDomainId : string; ri_action : string;
  ri_capability : option string; ri_resourceScope : string; ri_requestedAt : string; ri_approvalProofId : option string; ri_approvalRequestId : option string;
  ri_approvalDecisionId : option string; ri_visaId : option string; ri_ingressGrantId : option string; ri_handshakeProofId : option string;
  ri_metadata : option (JsMap Json);
}.
Record RecognitionVerificationResult := {
  rr_id : option string; rr_type : option string; rr_allowed : option bool; rr_recognized : option bool; rr_reasonCode : option string; rr_reason : option string;
  rr_authorityDecisionId : option string; rr_authorityProofId : option string; rr_approvalRequestId : option string; rr_approvalDecisionId : option string;
  rr_approvalProofId : option string; rr_handshakeDecisionId : option string; rr_handshakeProofId : option string;
}.
(** The provider throws, returns nothing, or returns a result. *)
Inductive RecognitionAnswer := RecognitionThrew (message : string) | RecognitionResult (r : option RecognitionVerificationResult).

Definition RECOGNITION_TYPE_MAP (t : string) : option EnforcementDecisionType :=
  map_get t [("allow", execute_allowed); ("require_human_approval", needs_approval); ("require_more_evidence", evidence_required);
    ("unrecognized_actor", execution_blocked); ("rogue_actor", execution_blocked); ("invalid_capability", execution_blocked); ("revoked", execution_blocked);
    ("expired", request_expired); ("out_of_scope", execution_blocked); ("policy_violation", execution_blocked); ("deny", execution_blocked);
    ("invalid_passport", execution_blocked)].
Record MappedRecognitionOutcome := { mo_decisionType : EnforcementDecisionType; mo_reasonCode : option string; mo_reason : option string }.
Definition mapRecognitionResult (r : option RecognitionVerificationResult) : MappedRecognitionOutcome :=
  let missing := {| mo_decisionType := execution_blocked; mo_reasonCode := Some "RECOGNITION_MISSING"; mo_reason := Some "No recognition verification result was returned." |} in
  match r with
  | None => missing
  | Some r =>
      match rr_type r with
      | None | Some "" => missing
      | Some t =>
          match RECOGNITION_TYPE_MAP t with
          | Some known => {| mo_decisionType := known; mo_reasonCode := rr_reasonCode r; mo_reason := rr_reason r |}
          | None =>
              if bool_decide (rr_allowed r = Some true) || bool_decide (rr_recognized r = Some true)
              then {| mo_decisionType := execute_allowed; mo_reasonCode := rr_reasonCode r; mo_reason := rr_reason r |}
              else {| mo_decisionType := execution_blocked; mo_reasonCode := Some "RECOGNITION_INVALID"; mo_reason := Some ("Unrecognized recognition decision type: " +:+ t +:+ ".") |}
          end
      end
  end.

(** ** Adapters *)

Record EnforcementAdapter := {
  ad_id : string; ad_type : EnforcementTargetType; ad_name : string; allowedActions : option (list string); deniedActions : option (list string);
  allowedCapabilities : option (list string); deniedCapabilities : option (list string); allowedResourceScopes : option (list string);
  deniedResourceScopes : option (list string); requiresIdempotencyKey : bool;
}.
Record AdapterConfigInput := {
  ac_id : string; ac_name : string; ac_allowedActions : option (list string); ac_deniedActions : option (list string); ac_allowedCapabilities : option (list string);
  ac_deniedCapabilities : option (list string); ac_allowedResourceScopes : option (list string); ac_deniedResourceScopes : option (list string);
  ac_requiresIdempotencyKey : option bool;
}.
Definition createEnforcementAdapter (t : EnforcementTargetType) (i : AdapterConfigInput) : EnforcementAdapter :=
  {| ad_id := ac_id i; ad_type := t; ad_name := ac_name i; allowedActions := ac_allowedActions i; deniedActions := ac_deniedActions i;
     allowedCapabilities := ac_allowedCapabilities i; deniedCapabilities := ac_deniedCapabilities i; allowedResourceScopes := ac_allowedResourceScopes i;
     deniedResourceScopes := ac_deniedResourceScopes i; requiresIdempotencyKey := default false (ac_requiresIdempotencyKey i) |}.
Definition createGenericAdapter : AdapterConfigInput → EnforcementAdapter := createEnforcementAdapter tt_generic.
Definition createToolCallAdapter : AdapterConfigInput → EnforcementAdapter := createEnforcementAdapter tt_tool_call.
Definition createApiHandlerAdapter : AdapterConfigInput → EnforcementAdapter := createEnforcementAdapter tt_api_handler.
Definition createWebhookAdapter : AdapterConfigInput → EnforcementAdapter := createEnforcementAdapter tt_webhook.
Definition createWorkflowStepAdapter : AdapterConfigInput → EnforcementAdapter := createEnforcementAdapter tt_workflow_step.

Record AdapterPermissionCheckInput := { pi_action : string; pi_capability : option string; pi_resourceScope : string; pi_idempotencyKey : option string }.
Record AdapterPermissionCheckResult := { pr_allowed : bool; pr_reasonCode : string; pr_reason : string }.
(** [list?.includes(x)] and [list !== undefined && !list.includes(x)] *)
Definition listed (l : option (list string)) (x : string) : bool := match l with Some l => bool_decide (x ∈ l) | None => false end.
Definition unlisted (l : option (list string)) (x : string) : bool := match l with Some l => negb (bool_decide (x ∈ l)) | None => false end.
Definition when_capability (c : option string) (p : string → bool) : bool := match c with Some c => p c | None => false end.
Definition evaluateAdapterPermission (a : EnforcementAdapter) (i : AdapterPermissionCheckInput) : AdapterPermissionCheckResult :=
  let refuse code reason := {| pr_allowed := false; pr_reasonCode := code; pr_reason := "Adapter " +:+ ad_id a +:+ reason |} in
  let capability := default "" (pi_capability i) in
  if listed (deniedActions a) (pi_action i) then refuse "ADAPTER_ACTION_DENIED" (" denies action " +:+ pi_action i +:+ ".")
  else if when_capability (pi_capability i) (listed (deniedCapabilities a)) then refuse "ADAPTER_CAPABILITY_DENIED" (" denies capability " +:+ capability +:+ ".")
  else if listed (deniedResourceScopes a) (pi_resourceScope i) then refuse "ADAPTER_SCOPE_DENIED" (" denies resource scope " +:+ pi_resourceScope i +:+ ".")
  else if unlisted (allowedActions a) (pi_action i) then refuse "ADAPTER_ACTION_NOT_ALLOWED" (" does not allow action " +:+ pi_action i +:+ ".")
  else if when_capability (pi_capability i) (unlisted (allowedCapabilities a)) then refuse "ADAPTER_CAPABILITY_NOT_ALLOWED" (" does not allow capability " +:+ capability +:+ ".")
  else if unlisted (allowedResourceScopes a) (pi_resourceScope i) then refuse "ADAPTER_SCOPE_NOT_ALLOWED" (" does not allow resource scope " +:+ pi_resourceScope i +:+ ".")
  else if requiresIdempotencyKey a && negb (is_some (pi_idempotencyKey i)) then refuse "IDEMPOTENCY_KEY_REQUIRED" " requires an idempotency key."
  else {| pr_allowed := true; pr_reasonCode := "ADAPTER_PERMITTED"; pr_reason := "Adapter " +:+ ad_id a +:+ " permits this request." |}.

(** ** Policy packs *)

Record EnforcementPolicyPackEvaluationInput := {
  pk_enforcementRequestId : option string; pk_trustDomainId : string; pk_actorId : string; pk_principalActorId : option string; pk_action : string;
  pk_capability : option string; pk_resourceScope : string; pk_sideEffectType : SideEffectType; pk_riskLevel : ExecutionRiskLevel; pk_requestedAt : string;
  pk_authorityProofId : option string; pk_approvalProofId : option string; pk_handshakeProofId : option string;
  pk_evaluation : option EnforcementPolicyEvaluationInput;
}.
Inductive PolicyPackEnforcementDecisionType :=
  | policy_allowed | policy_denied | policy_requires_evidence | policy_requires_approval | policy_requires_authority | policy_requires_external_standing
  | policy_limited | policy_warning | policy_not_applicable.
#[export] Instance PolicyPackEnforcementDecisionType_eq_dec : EqDecision PolicyPackEnforcementDecisionType.
Proof. solve_decision. Defined.
Definition pack_type_name (t : PolicyPackEnforcementDecisionType) : string :=
  match t with
  | policy_allowed => "policy_allowed" | policy_denied => "policy_denied" | policy_requires_evidence => "policy_requires_evidence"
  | policy_requires_approval => "policy_requires_approval" | policy_requires_authority => "policy_requires_authority"
  | policy_requires_external_standing => "policy_requires_external_standing" | policy_limited => "policy_limited" | policy_warning => "policy_warning"
  | policy_not_applicable => "policy_not_applicable"
  end.
Definition VALID_RESULT_TYPES : list PolicyPackEnforcementDecisionType := [policy_allowed; policy_denied; policy_requires_evidence; policy_requires_approval;
  policy_requires_authority; policy_requires_external_standing; policy_limited; policy_warning; policy_not_applicable].
Definition INHERENTLY_BLOCKING_TYPES : list PolicyPackEnforcementDecisionType :=
  [policy_denied; policy_requires_evidence; policy_requires_approval; policy_requires_authority; policy_requires_external_standing].
Definition BLOCKING_DECISION_TYPE_MAP (t : PolicyPackEnforcementDecisionType) : option EnforcementDecisionType :=
  match t with
  | policy_denied | policy_requires_authority | policy_limited => Some execution_blocked
  | policy_requires_evidence => Some evidence_required
  | policy_requires_approval => Some needs_approval
  | policy_requires_external_standing => Some external_handshake_required
  | _ => None
  end.

Record PackDetails := {
  dt_policyDecisionId : option string; dt_policyProofId : option string; dt_policyPackVersionIds : option (list string); dt_matchedRuleIds : option (list string);
  dt_evidenceRequirementIds : option (list string); dt_approvalRequirementIds : option (list string); dt_obligationIds : option (list string);
  dt_limitedActions : option (list string); dt_limitedCapabilities : option (list string); dt_limitedResourceScopes : option (list string);
  dt_effectiveRiskLevel : option ExecutionRiskLevel;
}.
Definition no_details : PackDetails := {| dt_policyDecisionId := None; dt_policyProofId := None; dt_policyPackVersionIds := None; dt_matchedRuleIds := None;
  dt_evidenceRequirementIds := None; dt_approvalRequirementIds := None; dt_obligationIds := None; dt_limitedActions := None; dt_limitedCapabilities := None;
  dt_limitedResourceScopes := None; dt_effectiveRiskLevel := None |}.
Record EnforcementPolicyPackEvaluationResult := {
  pk_type : PolicyPackEnforcementDecisionType; pk_allowed : bool; pk_reasonCode : string; pk_reason : string; pk_details : PackDetails;
}.
(** What an integration returns before anything of it was checked. *)
Record RawPackResult := { raw_type : option string; raw_allowed : option bool; raw_reasonCode : option string; raw_reason : option string; raw_details : PackDetails }.
Inductive PolicyPackAnswer := PackThrew (message : string) | PackNoObject | PackAnswered (r : RawPackResult).

Definition NOT_CONFIGURED_RESULT : EnforcementPolicyPackEvaluationResult := {| pk_type := policy_not_applicable; pk_allowed := true;
  pk_reasonCode := "POLICY_PACK_NOT_CONFIGURED"; pk_reason := "No policy pack integration is configured for this enforcement runtime."; pk_details := no_details |}.
Definition integrationErrorResult (message : string) : EnforcementPolicyPackEvaluationResult := {| pk_type := policy_denied; pk_allowed := false;
  pk_reasonCode := "POLICY_PACK_INTEGRATION_ERROR"; pk_reason := "Domain Policy Pack Runtime integration threw while evaluating this request: " +:+ message; pk_details := no_details |}.
Definition INVALID_RESULT_RESULT : EnforcementPolicyPackEvaluationResult := {| pk_type := policy_denied; pk_allowed := false;
  pk_reasonCode := "POLICY_PACK_INVALID_RESULT"; pk_reason := "Domain Policy Pack Runtime integration returned a malformed evaluation result; failing closed."; pk_details := no_details |}.

(** The well-formed result a raw answer is, if it is one. *)
Definition isWellFormedResult (r : RawPackResult) : option EnforcementPolicyPackEvaluationResult :=
  match raw_type r ≫= λ t, List.find (λ v, str_eqb (pack_type_name v) t) VALID_RESULT_TYPES, raw_allowed r, raw_reasonCode r, raw_reason r with
  | Some t, Some permitted, Some code, Some reason =>
      if negb (nonempty code) || negb (nonempty reason) then None
      else if bool_decide (t ∈ INHERENTLY_BLOCKING_TYPES) && permitted then None
      else if bool_decide (t ∈ [policy_allowed; policy_warning; policy_not_applicable]) && negb permitted then None
      else Some {| pk_type := t; pk_allowed := permitted; pk_reasonCode := code; pk_reason := reason; pk_details := raw_details r |}
  | _, _, _, _ => None
  end.
(** [limited !== undefined && limited.length > 0 && !limited.includes(x)] *)
Definition outside (limited : option (list string)) (x : option string) : bool :=
  match limited with Some ((_ :: _) as l) => match x with Some x => negb (bool_decide (x ∈ l)) | None => true end | _ => false end.
Definition isWithinDeclaredLimits (i : EnforcementPolicyPackEvaluationInput) (r : EnforcementPolicyPackEvaluationResult) : bool :=
  negb (outside (dt_limitedActions (pk_details r)) (Some (pk_action i))) && negb (outside (dt_limitedCapabilities (pk_details r)) (pk_capability i)) &&
  negb (outside (dt_limitedResourceScopes (pk_details r)) (Some (pk_resourceScope i))).
Definition resolveLimitedResult (i : EnforcementPolicyPackEvaluationInput) (r : EnforcementPolicyPackEvaluationResult) : EnforcementPolicyPackEvaluationResult :=
  if isWithinDeclaredLimits i r then {| pk_type := pk_type r; pk_allowed := true; pk_reasonCode := pk_reasonCode r; pk_reason := pk_reason r; pk_details := pk_details r |}
  else {| pk_type := pk_type r; pk_allowed := false; pk_reasonCode := "POLICY_LIMITED_SCOPE_VIOLATION";
          pk_reason := pk_reason r +:+ " The requested action/capability/resourceScope falls outside the scope this policy pack limited it to."; pk_details := pk_details r |}.

Definition buildEvaluationInput (q : EnforcementRequest) (now : string) (r : option RecognitionVerificationResult) : EnforcementPolicyPackEvaluationInput :=
  let or_else (a b : option string) := match a with Some x => Some x | None => b end in
  {| pk_enforcementRequestId := Some (er_id q); pk_trustDomainId := er_trustDomainId q; pk_actorId := er_actorId q; pk_principalActorId := er_principalActorId q;
     pk_action := er_action q; pk_capability := er_capability q; pk_resourceScope := er_resourceScope q; pk_sideEffectType := in_sideEffectType (er_intent q);
     pk_riskLevel := in_riskLevel (er_intent q); pk_requestedAt := now; pk_authorityProofId := r ≫= rr_authorityProofId;
     pk_approvalProofId := or_else (r ≫= rr_approvalProofId) (er_approvalProofId q); pk_handshakeProofId := or_else (r ≫= rr_handshakeProofId) (er_handshakeProofId q);
     pk_evaluation := er_policyEvaluationInput q |}.
Definition pack_result (i : EnforcementPolicyPackEvaluationInput) (a : PolicyPackAnswer) : EnforcementPolicyPackEvaluationResult :=
  match a with
  | PackThrew message => integrationErrorResult message
  | PackNoObject => INVALID_RESULT_RESULT
  | PackAnswered raw =>
      match isWellFormedResult raw with
      | None => INVALID_RESULT_RESULT
      | Some r => if bool_decide (pk_type r = policy_limited) then resolveLimitedResult i r else r
      end
  end.
Record PolicyPackEnforcementEvaluation := {
  ppe_id : string; ppe_enforcementRequestId : string; ppe_type : PolicyPackEnforcementDecisionType; ppe_allowed : bool; ppe_policyDecisionId : option string;
  ppe_policyProofId : option string; ppe_policyPackVersionIds : list string; ppe_matchedRuleIds : list string; ppe_reasonCode : string; ppe_reason : string;
  ppe_evidenceRequirementIds : list string; ppe_approvalRequirementIds : list string; ppe_obligationIds : list string; ppe_effectiveRiskLevel : option ExecutionRiskLevel;
  ppe_evaluatedAt : string;
}.
Definition toPolicyPackEnforcementEvaluation (id : string) (q : EnforcementRequest) (r : EnforcementPolicyPackEvaluationResult) (now : string) : PolicyPackEnforcementEvaluation :=
  let d := pk_details r in
  {| ppe_id := id; ppe_enforcementRequestId := er_id q; ppe_type := pk_type r; ppe_allowed := pk_allowed r; ppe_policyDecisionId := dt_policyDecisionId d;
     ppe_policyProofId := dt_policyProofId d; ppe_policyPackVersionIds := default [] (dt_policyPackVersionIds d); ppe_matchedRuleIds := default [] (dt_matchedRuleIds d);
     ppe_reasonCode := pk_reasonCode r; ppe_reason := pk_reason r; ppe_evidenceRequirementIds := default [] (dt_evidenceRequirementIds d);
     ppe_approvalRequirementIds := default [] (dt_approvalRequirementIds d); ppe_obligationIds := default [] (dt_obligationIds d);
     ppe_effectiveRiskLevel := dt_effectiveRiskLevel d; ppe_evaluatedAt := now |}.

Inductive EnforcementPolicySeverity := sv_info | sv_warning | sv_error | sv_critical.
Definition severityForPolicyPackResult (r : EnforcementPolicyPackEvaluationResult) : EnforcementPolicySeverity :=
  match pk_type r with
  | policy_denied => sv_critical
  | policy_requires_authority | policy_requires_external_standing | policy_limited => sv_error
  | policy_requires_approval | policy_requires_evidence => sv_warning
  | _ => sv_critical
  end.
Inductive EnforcementViolationType :=
  | vt_recognition_denied | vt_external_standing_missing | vt_idempotency_violation | vt_adapter_denied | vt_emergency_denied | vt_request_expired | vt_policy_denied
  | vt_policy_requires_evidence | vt_policy_requires_approval | vt_policy_requires_authority | vt_policy_requires_external_standing | vt_policy_integration_error
  | vt_policy_invalid_result.
Definition violation_name (t : EnforcementViolationType) : string :=
  match t with
  | vt_recognition_denied => "recognition_denied" | vt_external_standing_missing => "external_standing_missing" | vt_idempotency_violation => "idempotency_violation"
  | vt_adapter_denied => "adapter_denied" | vt_emergency_denied => "emergency_denied" | vt_request_expired => "request_expired" | vt_policy_denied => "policy_denied"
  | vt_policy_requires_evidence => "policy_requires_evidence" | vt_policy_requires_approval => "policy_requires_approval"
  | vt_policy_requires_authority => "policy_requires_authority" | vt_policy_requires_external_standing => "policy_requires_external_standing"
  | vt_policy_integration_error => "policy_integration_error" | vt_policy_invalid_result => "policy_invalid_result"
  end.
Definition policyPackViolationType (r : EnforcementPolicyPackEvaluationResult) : EnforcementViolationType :=
  if str_eqb (pk_reasonCode r) "POLICY_PACK_INTEGRATION_ERROR" then vt_policy_integration_error
  else if str_eqb (pk_reasonCode r) "POLICY_PACK_INVALID_RESULT" then vt_policy_invalid_result
  else match pk_type r with
  | policy_requires_evidence => vt_policy_requires_evidence
  | policy_requires_approval => vt_policy_requires_approval
  | policy_requires_authority => vt_policy_requires_authority
  | policy_requires_external_standing => vt_policy_requires_external_standing
  | _ => vt_policy_denied
  end.
Definition mapPolicyResultToEnforcementDecisionType (r : EnforcementPolicyPackEvaluationResult) : option EnforcementDecisionType :=
  if pk_allowed r then None else Some (default execution_blocked (BLOCKING_DECISION_TYPE_MAP (pk_type r))).

(** ** Policies *)

Inductive IdempotencyOutcome := id_new | id_duplicate_success | id_duplicate_retry.
#[export] Instance IdempotencyOutcome_eq_dec : EqDecision IdempotencyOutcome.
Proof. solve_decision. Defined.
Record IdempotencyCheckResult := { ic_outcome : IdempotencyOutcome; ic_idempotencyKey : option string; ic_priorExecutionResultId : option string }.

Record EnforcementPolicyContext := {
  cx_now : string; cx_request : EnforcementRequest; cx_recognitionResult : option RecognitionVerificationResult; cx_mapped : MappedRecognitionOutcome;
  cx_adapter : option EnforcementAdapter; cx_emergencyDeny : bool; cx_idempotency : IdempotencyCheckResult; cx_policyPackResult : EnforcementPolicyPackEvaluationResult;
}.
Record EnforcementPolicyOutcome := {
  po_policyId : string; po_passed : bool; po_reasonCode : string; po_reason : string; po_severity : EnforcementPolicySeverity; po_decisionType : option EnforcementDecisionType;
}.
Definition passes (id code reason : string) : EnforcementPolicyOutcome :=
  {| po_policyId := id; po_passed := true; po_reasonCode := code; po_reason := reason; po_severity := sv_info; po_decisionType := None |}.
Definition fails (id code reason : string) (severity : EnforcementPolicySeverity) (t : EnforcementDecisionType) : EnforcementPolicyOutcome :=
  {| po_policyId := id; po_passed := false; po_reasonCode := code; po_reason := reason; po_severity := severity; po_decisionType := Some t |}.
Definition EnforcementPolicy : Type := EnforcementPolicyContext → EnforcementPolicyOutcome.

Section Policies.
Context `{JsHost}.
Implicit Types c : EnforcementPolicyContext.

Definition EmergencyDenyPolicy c : EnforcementPolicyOutcome :=
  if cx_emergencyDeny c then fails "emergency_deny" "EMERGENCY_DENIED" "Emergency deny is active; all execution is blocked." sv_critical emergency_denied
  else passes "emergency_deny" "EMERGENCY_DENY_INACTIVE" "Emergency deny is not active.".
Definition recognition_well_formed (r : RecognitionVerificationResult) : bool :=
  match rr_type r with Some t => nonempty t | None => false end && is_some (rr_reasonCode r) && is_some (rr_reason r).
Definition RecognitionRequiredPolicy c : EnforcementPolicyOutcome :=
  match cx_recognitionResult c with
  | None => fails "recognition_required" "RECOGNITION_MISSING" "No Recognition Runtime verification result is available for this request." sv_critical execution_blocked
  | Some r =>
      if negb (recognition_well_formed r) then fails "recognition_required" "RECOGNITION_INVALID" "Recognition Runtime returned a malformed verification result." sv_critical execution_blocked
      else passes "recognition_required" "RECOGNITION_PRESENT" "A Recognition Runtime verification result is present."
  end.
Definition AllowDecisionRequiredPolicy c : EnforcementPolicyOutcome :=
  if bool_decide (mo_decisionType (cx_mapped c) = execute_allowed) then passes "allow_decision_required" "ALLOW_DECISION_PRESENT" "Recognition Runtime returned an allow decision."
  else fails "allow_decision_required" (default "ALLOW_DECISION_REQUIRED" (mo_reasonCode (cx_mapped c)))
         (default "Recognition Runtime did not return an allow decision." (mo_reason (cx_mapped c))) sv_error (mo_decisionType (cx_mapped c)).
Definition approval_gap (r : option RecognitionVerificationResult) : bool := is_some (r ≫= rr_approvalRequestId) && negb (is_some (r ≫= rr_approvalProofId)).
Definition ApprovalPendingPolicy c : EnforcementPolicyOutcome :=
  if bool_decide (mo_decisionType (cx_mapped c) = needs_approval) || (bool_decide (mo_decisionType (cx_mapped c) = execute_allowed) && approval_gap (cx_recognitionResult c))
  then fails "approval_pending" "APPROVAL_PENDING" (default "This action requires human approval before it can execute." (cx_recognitionResult c ≫= rr_reason)) sv_warning needs_approval
  else passes "approval_pending" "NO_APPROVAL_PENDING" "No human approval is pending for this action.".
Definition EvidenceRequiredPolicy c : EnforcementPolicyOutcome :=
  if negb (bool_decide (mo_decisionType (cx_mapped c) = evidence_required)) then passes "evidence_required" "NO_EVIDENCE_PENDING" "No additional evidence is required for this action."
  else fails "evidence_required" "EVIDENCE_REQUIRED" (default "This action requires additional evidence before it can execute." (cx_recognitionResult c ≫= rr_reason)) sv_warning evidence_required.
Definition CLEARED_MAPPED_TYPES : list EnforcementDecisionType := [execute_allowed; needs_approval; evidence_required].
Definition ExternalStandingPolicy c : EnforcementPolicyOutcome :=
  let q := cx_request c in
  if negb (is_some (er_visaId q) || is_some (er_ingressGrantId q) || is_some (er_handshakeProofId q))
  then passes "external_standing" "NO_EXTERNAL_STANDING_DECLARED" "This request does not depend on external agent standing."
  else if negb (bool_decide (mo_decisionType (cx_mapped c) ∈ CLEARED_MAPPED_TYPES))
  then fails "external_standing" "EXTERNAL_STANDING_INVALID" (default "External agent standing is missing, expired or revoked." (cx_recognitionResult c ≫= rr_reason)) sv_error (mo_decisionType (cx_mapped c))
  else passes "external_standing" "EXTERNAL_STANDING_VALID" "External agent standing is confirmed.".
Definition permission_input (q : EnforcementRequest) : AdapterPermissionCheckInput :=
  {| pi_action := er_action q; pi_capability := er_capability q; pi_resourceScope := er_resourceScope q; pi_idempotencyKey := er_idempotencyKey q |}.
Definition AdapterPermissionPolicy c : EnforcementPolicyOutcome :=
  match cx_adapter c with
  | None => passes "adapter_permission" "NO_ADAPTER_REGISTERED" "No adapter is registered for this target; nothing to check."
  | Some a =>
      let check := evaluateAdapterPermission a (permission_input (cx_request c)) in
      if pr_allowed check then passes "adapter_permission" (pr_reasonCode check) (pr_reason check)
      else fails "adapter_permission" (pr_reasonCode check) (pr_reason check) sv_error adapter_denied
  end.
Definition DomainPolicyPackPolicy c : EnforcementPolicyOutcome :=
  let r := cx_policyPackResult c in
  if bool_decide (pk_type r = policy_not_applicable) then passes "domain_policy_pack" (pk_reasonCode r) (pk_reason r)
  else if pk_allowed r then
    {| po_policyId := "domain_policy_pack"; po_passed := true; po_reasonCode := pk_reasonCode r; po_reason := pk_reason r;
       po_severity := if bool_decide (pk_type r = policy_warning) then sv_warning else sv_info; po_decisionType := None |}
  else fails "domain_policy_pack" (pk_reasonCode r) (pk_reason r) (severityForPolicyPackResult r) (default execution_blocked (mapPolicyResultToEnforcementDecisionType r)).
Definition key_required (a : option EnforcementAdapter) (q : EnforcementRequest) : bool :=
  match a with Some a => requiresIdempotencyKey a && negb (is_some (er_idempotencyKey q)) | None => false end.
Definition IdempotencyPolicy c : EnforcementPolicyOutcome :=
  if key_required (cx_adapter c) (cx_request c)
  then fails "idempotency" "IDEMPOTENCY_KEY_REQUIRED" ("Adapter " +:+ default "" (ad_id <$> cx_adapter c) +:+ " requires an idempotency key for this request.") sv_error adapter_denied
  else if bool_decide (ic_outcome (cx_idempotency c) = id_duplicate_success)
  then fails "idempotency" "DUPLICATE_SUPPRESSED"
         ("Idempotency key " +:+ default "" (ic_idempotencyKey (cx_idempotency c)) +:+ " already completed successfully; this execution is suppressed.") sv_warning duplicate_suppressed
  else passes "idempotency" "IDEMPOTENCY_SATISFIED" "No duplicate execution was detected for this idempotency key.".
Definition expired_at (expiresAt : option string) (now : string) : bool :=
  match expiresAt ≫= date_parse, date_parse now with Some e, Some n => e <? n | _, _ => false end.
Definition ExecutionTimeoutPolicy c : EnforcementPolicyOutcome :=
  let q := cx_request c in
  if expired_at (er_expiresAt q) (cx_now c)
  then fails "execution_timeout" "REQUEST_EXPIRED" ("Enforcement request " +:+ er_id q +:+ " expired at " +:+ default "" (er_expiresAt q) +:+ ".") sv_error request_expired
  else passes "execution_timeout" "REQUEST_NOT_EXPIRED" "This enforcement request has not expired.".
Definition REQUIRES_ALLOW : list SideEffectType := [se_write; se_send_message; se_external_api_call; se_state_change; se_financial; se_legal; se_data_export].
Definition REQUIRES_APPROVAL_PROOF : list SideEffectType := [se_financial; se_legal; se_data_export].
Definition SideEffectBoundaryPolicy c : EnforcementPolicyOutcome :=
  let t := in_sideEffectType (er_intent (cx_request c)) in
  let named rest := "Side effect type '" +:+ side_effect_name t +:+ rest in
  if negb (bool_decide (t ∈ REQUIRES_ALLOW)) then passes "side_effect_boundary" "SIDE_EFFECT_LOW_RISK" (named "' does not require an allow decision.")
  else if negb (bool_decide (mo_decisionType (cx_mapped c) = execute_allowed))
  then fails "side_effect_boundary" "SIDE_EFFECT_DENIED" (named "' requires an allow decision, which this request does not have.") sv_error (mo_decisionType (cx_mapped c))
  else if bool_decide (t ∈ REQUIRES_APPROVAL_PROOF) && negb (is_some (cx_recognitionResult c ≫= rr_approvalProofId))
  then fails "side_effect_boundary" "SIDE_EFFECT_APPROVAL_PROOF_REQUIRED" (named "' requires a confirmed approval proof.") sv_error needs_approval
  else passes "side_effect_boundary" "SIDE_EFFECT_PERMITTED" (named "' is permitted by this decision.").
Definition DryRunPolicy c : EnforcementPolicyOutcome :=
  if negb (bool_decide (er_mode (cx_request c) = mode_dry_run)) then passes "dry_run" "NOT_DRY_RUN" "This request is not a dry run."
  else {| po_policyId := "dry_run"; po_passed := true; po_reasonCode := "DRY_RUN_NO_EXECUTION";
          po_reason := "Dry run mode: recognition would allow this action, but the executor will not be invoked."; po_severity := sv_info; po_decisionType := Some dry_run_allowed |}.
Definition PostExecutionRecordPolicy c : EnforcementPolicyOutcome :=
  passes "post_execution_record" "POST_EXECUTION_PENDING" "Post-execution recording is asserted after the executor runs, not during preflight.".

Definition createDefaultEnforcementPolicyChain : list EnforcementPolicy := [EmergencyDenyPolicy; RecognitionRequiredPolicy; AllowDecisionRequiredPolicy; ApprovalPendingPolicy;
  EvidenceRequiredPolicy; ExternalStandingPolicy; AdapterPermissionPolicy; DomainPolicyPackPolicy; IdempotencyPolicy; ExecutionTimeoutPolicy; SideEffectBoundaryPolicy;
  DryRunPolicy; PostExecutionRecordPolicy].
End Policies.

(** ** The evaluator *)

Record EnforcementPolicyResult := { pl_policyId : string; pl_passed : bool; pl_reasonCode : string; pl_reason : string; pl_severity : EnforcementPolicySeverity }.
Definition policy_result (o : EnforcementPolicyOutcome) : EnforcementPolicyResult :=
  {| pl_policyId := po_policyId o; pl_passed := po_passed o; pl_reasonCode := po_reasonCode o; pl_reason := po_reason o; pl_severity := po_severity o |}.
Record EnforcementPolicyEvaluationResult := { ev_decisionType : EnforcementDecisionType; ev_reasonCode : string; ev_reason : string; ev_policyResults : list EnforcementPolicyResult }.

(** [override] is the decision type, code and reason of the last policy that
    stated a decision type. *)
Fixpoint evaluate_chain (c : EnforcementPolicyContext) (done_ : list EnforcementPolicyResult) (override : option (EnforcementDecisionType * string * string))
    (policies : list EnforcementPolicy) : EnforcementPolicyEvaluationResult :=
  match policies with
  | [] =>
      let '(t, code, reason) := default (execute_allowed, "ALL_POLICIES_SATISFIED", "All enforcement policies were satisfied.") override in
      {| ev_decisionType := t; ev_reasonCode := code; ev_reason := reason; ev_policyResults := done_ |}
  | policy :: policies =>
      let o := policy c in
      let done_ := done_ ++ [policy_result o] in
      let override := match po_decisionType o with Some t => Some (t, po_reasonCode o, po_reason o) | None => override end in
      if po_passed o then evaluate_chain c done_ override policies
      else {| ev_decisionType := default execution_blocked (po_decisionType o); ev_reasonCode := po_reasonCode o; ev_reason := po_reason o; ev_policyResults := done_ |}
  end.
Definition evaluatePolicies (policies : list EnforcementPolicy) (c : EnforcementPolicyContext) : EnforcementPolicyEvaluationResult := evaluate_chain c [] None policies.

(** ** When the default chain lets an action be executed *)

(** What an adapter permits, without the order of its checks. *)
Record adapter_permits (a : EnforcementAdapter) (q : EnforcementRequest) : Prop := {
  ap_action : er_action q ∉ default [] (deniedActions a) ∧ ∀ l, allowedActions a = Some l → er_action q ∈ l;
  ap_capability : ∀ cap, er_capability q = Some cap → cap ∉ default [] (deniedCapabilities a) ∧ ∀ l, allowedCapabilities a = Some l → cap ∈ l;
  ap_scope : er_resourceScope q ∉ default [] (deniedResourceScopes a) ∧ ∀ l, allowedResourceScopes a = Some l → er_resourceScope q ∈ l;
  ap_key : requiresIdempotencyKey a = true → is_Some (er_idempotencyKey q);
}.
Lemma listed_iff l x : listed l x = false ↔ x ∉ default [] l.
Proof. destruct l; cbn; [by rewrite bool_decide_eq_false|split; [intros _; apply not_elem_of_nil|done]]. Qed.
Lemma unlisted_iff l x : unlisted l x = false ↔ ∀ k, l = Some k → x ∈ k.
Proof. destruct l as [l|]; cbn; [|by split]. rewrite negb_false_iff, bool_decide_eq_true. split; [by intros ? ? [= <-]|by intros E; apply E]. Qed.
Lemma when_capability_iff c p : when_capability c p = false ↔ ∀ x, c = Some x → p x = false.
Proof. destruct c; cbn; [|by split]. split; [by intros ? ? [= <-]|by intros E; apply E]. Qed.
Lemma adapter_permission_exact a q : pr_allowed (evaluateAdapterPermission a (permission_input q)) = true ↔ adapter_permits a q.
Proof.
  unfold evaluateAdapterPermission, permission_input. cbn [pi_action pi_capability pi_resourceScope pi_idempotencyKey].
  repeat match goal with |- context [if ?b then _ else _] => destruct b eqn:? end; cbn; split; try done;
    repeat match goal with
    | E : listed _ _ = false |- _ => apply listed_iff in E
    | E : unlisted _ _ = false |- _ => rewrite unlisted_iff in E
    | E : when_capability _ _ = false |- _ => rewrite when_capability_iff in E
    end.
  1-7: intros [[Ha Ha'] Hc [Hs Hs'] Hk]; exfalso.
  - apply listed_iff in Ha. congruence.
  - assert (when_capability (er_capability q) (listed (deniedCapabilities a)) = false) by (apply when_capability_iff; intros x Hx; apply listed_iff; by apply Hc). congruence.
  - apply listed_iff in Hs. congruence.
  - apply unlisted_iff in Ha'. congruence.
  - assert (when_capability (er_capability q) (unlisted (allowedCapabilities a)) = false) by (apply when_capability_iff; intros x Hx; apply unlisted_iff; by apply Hc). congruence.
  - apply unlisted_iff in Hs'. congruence.
  - destruct (requiresIdempotencyKey a); [|done]. destruct (er_idempotencyKey q); [done|]. by destruct Hk.
  - intros _. split; try done.
    + intros cap Hcap. split; [apply listed_iff|apply unlisted_iff]; auto.
    + destruct (requiresIdempotencyKey a), (er_idempotencyKey q); try done; eauto.
Qed.

(** What of an integration's answer permits the action. *)
Definition within (limited : option (list string)) (x : option string) : Prop := ∀ l, limited = Some l → l ≠ [] → ∃ y, x = Some y ∧ y ∈ l.
Definition pack_permits (i : EnforcementPolicyPackEvaluationInput) (a : PolicyPackAnswer) : Prop :=
  ∃ raw t code reason, a = PackAnswered raw ∧ raw_type raw = Some (pack_type_name t) ∧ raw_reasonCode raw = Some code ∧ raw_reason raw = Some reason ∧ code ≠ "" ∧ reason ≠ "" ∧
    ((t ∈ [policy_allowed; policy_warning; policy_not_applicable] ∧ raw_allowed raw = Some true) ∨
     (t = policy_limited ∧ is_Some (raw_allowed raw) ∧ within (dt_limitedActions (raw_details raw)) (Some (pk_action i)) ∧
      within (dt_limitedCapabilities (raw_details raw)) (pk_capability i) ∧ within (dt_limitedResourceScopes (raw_details raw)) (Some (pk_resourceScope i)))).
Lemma outside_iff l x : outside l x = false ↔ within l x.
Proof.
  unfold within. destruct l as [[|y l]|]; cbn; [split; [by intros _ ? [= <-]|done]| |by split].
  destruct x as [x|]; [rewrite negb_false_iff, bool_decide_eq_true|]; (split; [intros Hx ? [= <-] _; by eauto|intros Hw; destruct (Hw _ eq_refl) as (z&[= <-]&?); done]).
Qed.
Lemma pack_type_find t v : List.find (λ v, str_eqb (pack_type_name v) t) VALID_RESULT_TYPES = Some v ↔ t = pack_type_name v.
Proof.
  split.
  - intros E. apply List.find_some in E as [_ E]. by apply str_eqb_eq in E.
  - intros ->. by destruct v.
Qed.
(** Closed decidable facts by computation. *)
Ltac decided := apply (bool_decide_unpack _); vm_compute; exact I.
Lemma pack_cases t : t ∈ INHERENTLY_BLOCKING_TYPES ∨ t ∈ [policy_allowed; policy_warning; policy_not_applicable] ∨ t = policy_limited.
Proof. destruct t; first [left; decided|right; left; decided|by right; right]. Qed.
Lemma pack_disjoint t : t ∈ [policy_allowed; policy_warning; policy_not_applicable] → t ∉ INHERENTLY_BLOCKING_TYPES.
Proof. intros Hin. destruct t; first [decided|exfalso; revert Hin; decided]. Qed.
Lemma limited_not_free : policy_limited ∉ [policy_allowed; policy_warning; policy_not_applicable].
Proof. decided. Qed.
Lemma nonempty_iff s : nonempty s = true ↔ s ≠ "".
Proof. by destruct s. Qed.
Lemma well_formed_exact raw r : isWellFormedResult raw = Some r ↔
  ∃ t, raw_type raw = Some (pack_type_name t) ∧ pk_type r = t ∧ raw_allowed raw = Some (pk_allowed r) ∧ raw_reasonCode raw = Some (pk_reasonCode r) ∧
    raw_reason raw = Some (pk_reason r) ∧ pk_details r = raw_details raw ∧ pk_reasonCode r ≠ "" ∧ pk_reason r ≠ "" ∧
    (t ∈ INHERENTLY_BLOCKING_TYPES → pk_allowed r = false) ∧ (t ∈ [policy_allowed; policy_warning; policy_not_applicable] → pk_allowed r = true).
Proof.
  unfold isWellFormedResult. split.
  - destruct (raw_type raw) as [s|]; cbn [mbind option_bind]; [|done]. match goal with |- context [List.find ?p ?l] => destruct (List.find p l) as [t|] eqn:Ef; [|done] end. apply pack_type_find in Ef as ->.
    destruct (raw_allowed raw) as [b|], (raw_reasonCode raw) as [code|], (raw_reason raw) as [reason|]; try done.
    destruct (nonempty code) eqn:Hc, (nonempty reason) eqn:Hr; cbn; try done. apply nonempty_iff in Hc, Hr.
    case_bool_decide as Hb; destruct b; cbn; try done; case_bool_decide as Hp; cbn; intros [= <-]; exists t; by split_and!.
  - intros (t&->&Et&->&->&->&Ed&Hc&Hr&Hb&Hp). cbn [mbind option_bind]. apply nonempty_iff in Hc, Hr. rewrite (proj2 (pack_type_find _ t) eq_refl), Hc, Hr. cbn.
    destruct r as [t' b code reason d]. cbn in *. subst t' d. case_bool_decide as H1; [rewrite Hb in * by done|]; cbn.
    + case_bool_decide as H2; [|done]. by destruct (pack_disjoint t).
    + case_bool_decide as H2; [rewrite Hp by done|]; done.
Qed.
Lemma pack_exact i a : pk_allowed (pack_result i a) = true ↔ pack_permits i a.
Proof.
  unfold pack_result, pack_permits. destruct a as [m| |raw]; cbn; [split; [done|by intros (?&?&?&?&[=]&_)]..|]. split.
  - destruct (isWellFormedResult raw) as [r|] eqn:Ew; [|done]. apply well_formed_exact in Ew as (t&Ht&Et&Ha&Hc&Hr&Ed&Hc'&Hr'&Hb&Hp). intros Hok.
    exists raw, t, (pk_reasonCode r), (pk_reason r). split_and!; try done. case_bool_decide as Hl.
    + right. subst t. rewrite Hl. unfold resolveLimitedResult, isWithinDeclaredLimits in Hok. rewrite Ed in Hok.
      destruct (outside _ _) eqn:E1 in Hok; [done|]. destruct (outside _ _) eqn:E2 in Hok; [done|]. destruct (outside _ _) eqn:E3 in Hok; [done|].
      split_and!; [done|by eauto|by apply outside_iff..].
    + left. split; [|congruence]. destruct (pack_cases t) as [?|[?| ->]]; [by rewrite Hb in Hok|done|done].
  - intros (raw'&t&code&reason&[= <-]&Ht&Hc&Hr&Hc'&Hr'&Hcase).
    assert (∀ b, raw_allowed raw = Some b → (t ∈ [policy_allowed; policy_warning; policy_not_applicable] → b = true) → t ∉ INHERENTLY_BLOCKING_TYPES →
      isWellFormedResult raw = Some {| pk_type := t; pk_allowed := b; pk_reasonCode := code; pk_reason := reason; pk_details := raw_details raw |}) as Hwf.
    { intros b Hb Hp Hn. apply well_formed_exact. exists t. by split_and!. }
    destruct Hcase as [[Hin Ha]|(->&[b Ha]&H1&H2&H3)].
    + rewrite (Hwf true); [|done..|by apply pack_disjoint]. cbn. case_bool_decide; [subst|done]. by destruct limited_not_free.
    + rewrite (Hwf b); [|done|by intros Hin; destruct limited_not_free|decided]. cbn. unfold resolveLimitedResult, isWithinDeclaredLimits. cbn.
      by rewrite !(proj2 (outside_iff _ _)).
Qed.

(** The conditions under which the default chain raises no objection. *)
Record cleared `{JsHost} (c : EnforcementPolicyContext) : Prop := {
  cl_emergency : cx_emergencyDeny c = false;
  cl_recognition : ∃ r, cx_recognitionResult c = Some r ∧ recognition_well_formed r = true;
  cl_recognized : mo_decisionType (mapRecognitionResult (cx_recognitionResult c)) = execute_allowed;
  cl_approval : is_Some (cx_recognitionResult c ≫= rr_approvalRequestId) → is_Some (cx_recognitionResult c ≫= rr_approvalProofId);
  cl_adapter : ∀ a, cx_adapter c = Some a → adapter_permits a (cx_request c);
  cl_pack : pk_type (cx_policyPackResult c) = policy_not_applicable ∨ pk_allowed (cx_policyPackResult c) = true;
  cl_first : ic_outcome (cx_idempotency c) ≠ id_duplicate_success;
  cl_time : expired_at (er_expiresAt (cx_request c)) (cx_now c) = false;
  cl_effect : in_sideEffectType (er_intent (cx_request c)) ∈ REQUIRES_APPROVAL_PROOF → is_Some (cx_recognitionResult c ≫= rr_approvalProofId);
}.

Section Chain.
Context `{JsHost}.
Implicit Types c : EnforcementPolicyContext.

Lemma chain_cases c ps : ∀ done_ ov,
  (Forall (λ p, po_passed (p c) = true) ps ∧
   ev_decisionType (evaluate_chain c done_ ov ps) = default (default execute_allowed (fst ∘ fst <$> ov)) (last (omap (λ p : EnforcementPolicy, po_decisionType (p c)) ps))) ∨
  (∃ p, p ∈ ps ∧ po_passed (p c) = false ∧ ev_decisionType (evaluate_chain c done_ ov ps) = default execution_blocked (po_decisionType (p c))).
Proof.
  induction ps as [|p ps IH]; intros done_ ov; cbn [evaluate_chain].
  - left. split; [constructor|]. by destruct ov as [[[]]|].
  - destruct (po_passed (p c)) eqn:Hp; [|right; exists p; split_and!; [left|done..]].
    destruct (IH (done_ ++ [policy_result (p c)]) (match po_decisionType (p c) with Some t => Some (t, po_reasonCode (p c), po_reason (p c)) | None => ov end))
      as [[Hall E]|(p'&Hin&Hf&E)]; [left|right; exists p'; split_and!; [by right|done..]].
    split; [by constructor|]. rewrite E. cbn. destruct (po_decisionType (p c)) as [t|]; [|done]. rewrite last_cons. by destruct (last _).
Qed.

Definition mapped_right c : Prop := cx_mapped c = mapRecognitionResult (cx_recognitionResult c).
Lemma mapped_never_dry r : mo_decisionType (mapRecognitionResult r) ≠ dry_run_allowed.
Proof.
  assert (∀ t k, RECOGNITION_TYPE_MAP t = Some k → k ≠ dry_run_allowed) as Hk.
  { intros t k. unfold RECOGNITION_TYPE_MAP. cbn [map_get]. repeat (destruct (str_eqb _ t); [by intros [= <-]|]). done. }
  unfold mapRecognitionResult. destruct r as [r|]; [|done]. destruct (rr_type r) as [t|]; [|done]. specialize (Hk t).
  destruct t; [done|]. destruct (RECOGNITION_TYPE_MAP _) as [k|]; [by apply Hk|]. by destruct (_ || _).
Qed.

(** Each policy on its own. *)
Lemma emergency_iff c : po_passed (EmergencyDenyPolicy c) = true ↔ cx_emergencyDeny c = false.
Proof. unfold EmergencyDenyPolicy. by destruct (cx_emergencyDeny c). Qed.
Lemma recognition_iff c : po_passed (RecognitionRequiredPolicy c) = true ↔ ∃ r, cx_recognitionResult c = Some r ∧ recognition_well_formed r = true.
Proof. unfold RecognitionRequiredPolicy. destruct (cx_recognitionResult c) as [r|]; [|naive_solver]. destruct (recognition_well_formed r) eqn:E; naive_solver. Qed.
Lemma allow_iff c : po_passed (AllowDecisionRequiredPolicy c) = true ↔ mo_decisionType (cx_mapped c) = execute_allowed.
Proof. unfold AllowDecisionRequiredPolicy. by case_bool_decide. Qed.
Lemma approval_iff c : mo_decisionType (cx_mapped c) = execute_allowed →
  po_passed (ApprovalPendingPolicy c) = true ↔ (is_Some (cx_recognitionResult c ≫= rr_approvalRequestId) → is_Some (cx_recognitionResult c ≫= rr_approvalProofId)).
Proof.
  unfold ApprovalPendingPolicy, approval_gap. intros ->. cbn. destruct (_ ≫= rr_approvalRequestId) as [x|], (_ ≫= rr_approvalProofId) as [y|]; cbn; [split; [by intros _ _; exists y|done]|split; [done|intros E; by destruct E]|by split; [intros _ []|]..].
Qed.
Lemma evidence_policy_passes c : mo_decisionType (cx_mapped c) = execute_allowed → po_passed (EvidenceRequiredPolicy c) = true.
Proof. unfold EvidenceRequiredPolicy. by intros ->. Qed.
Lemma standing_passes c : mo_decisionType (cx_mapped c) = execute_allowed → po_passed (ExternalStandingPolicy c) = true.
Proof. unfold ExternalStandingPolicy. intros ->. by destruct (_ || _). Qed.
Lemma adapter_iff c : po_passed (AdapterPermissionPolicy c) = true ↔ ∀ a, cx_adapter c = Some a → adapter_permits a (cx_request c).
Proof.
  unfold AdapterPermissionPolicy. destruct (cx_adapter c) as [a|]; [|done]. pose proof (adapter_permission_exact a (cx_request c)) as E.
  destruct (pr_allowed _); cbn; [|naive_solver]. split; [|done]. by intros _ ? [= <-]; apply E.
Qed.
Lemma pack_iff c : po_passed (DomainPolicyPackPolicy c) = true ↔ pk_type (cx_policyPackResult c) = policy_not_applicable ∨ pk_allowed (cx_policyPackResult c) = true.
Proof. unfold DomainPolicyPackPolicy. case_bool_decide; [by split; [left|]|]. destruct (pk_allowed _); cbn; [by split; [right|]|]. naive_solver. Qed.
Lemma idempotency_iff c : po_passed (AdapterPermissionPolicy c) = true → po_passed (IdempotencyPolicy c) = true ↔ ic_outcome (cx_idempotency c) ≠ id_duplicate_success.
Proof.
  rewrite adapter_iff. intros Ha. unfold IdempotencyPolicy, key_required. destruct (cx_adapter c) as [a|]; cbn.
  - destruct (Ha a eq_refl) as [_ _ _ Hk]. destruct (requiresIdempotencyKey a); cbn.
    + destruct (er_idempotencyKey (cx_request c)); [cbn|by destruct Hk]. by case_bool_decide.
    + by case_bool_decide.
  - by case_bool_decide.
Qed.
Lemma timeout_iff c : po_passed (ExecutionTimeoutPolicy c) = true ↔ expired_at (er_expiresAt (cx_request c)) (cx_now c) = false.
Proof. unfold ExecutionTimeoutPolicy. by destruct (expired_at _ _). Qed.
Lemma effect_iff c : mo_decisionType (cx_mapped c) = execute_allowed →
  po_passed (SideEffectBoundaryPolicy c) = true ↔ (in_sideEffectType (er_intent (cx_request c)) ∈ REQUIRES_APPROVAL_PROOF → is_Some (cx_recognitionResult c ≫= rr_approvalProofId)).
Proof.
  unfold SideEffectBoundaryPolicy. intros ->. rewrite (bool_decide_true (execute_allowed = execute_allowed)) by done. assert (∀ t, t ∈ REQUIRES_APPROVAL_PROOF → t ∈ REQUIRES_ALLOW) as Hsub by (intros []; first [intros _; decided|decided]).
  case_bool_decide as Ha; cbn; [|split; [by intros _ Hp%Hsub|done]]. case_bool_decide as Hp; cbn; [|by split].
  destruct (_ ≫= rr_approvalProofId) as [x|]; cbn; [split; [by intros _ _; exists x|done]|]. split; [done|]. intros E. by destruct (E Hp).
Qed.

Lemma failing_type c p : mapped_right c → p ∈ createDefaultEnforcementPolicyChain → po_passed (p c) = false →
  default execution_blocked (po_decisionType (p c)) ≠ execute_allowed ∧ default execution_blocked (po_decisionType (p c)) ≠ dry_run_allowed.
Proof.
  intros Hm Hin Hf. assert (mo_decisionType (cx_mapped c) ≠ dry_run_allowed) as Hd by (rewrite Hm; apply mapped_never_dry). clear Hm.
  unfold createDefaultEnforcementPolicyChain in Hin. rewrite !elem_of_cons in Hin.
  repeat match type of Hin with _ ∨ _ => destruct Hin as [->|Hin] end; [..|by apply not_elem_of_nil in Hin]; revert Hf.
  - unfold EmergencyDenyPolicy. by destruct (cx_emergencyDeny c).
  - unfold RecognitionRequiredPolicy. destruct (cx_recognitionResult c) as [r|]; [|done]. by destruct (recognition_well_formed r).
  - unfold AllowDecisionRequiredPolicy. by case_bool_decide.
  - unfold ApprovalPendingPolicy. by destruct (_ || _).
  - unfold EvidenceRequiredPolicy. by case_bool_decide.
  - unfold ExternalStandingPolicy. destruct (_ || _); [cbn|done]. case_bool_decide as Hc; [done|]. cbn. intros _. split; [|done]. intros E. apply Hc. rewrite E. decided.
  - unfold AdapterPermissionPolicy. destruct (cx_adapter c); [|done]. by destruct (pr_allowed _).
  - unfold DomainPolicyPackPolicy, mapPolicyResultToEnforcementDecisionType. case_bool_decide; [done|]. destruct (pk_allowed _); [done|]. by destruct (pk_type _).
  - unfold IdempotencyPolicy. destruct (key_required _ _); [done|]. by case_bool_decide.
  - unfold ExecutionTimeoutPolicy. by destruct (expired_at _ _).
  - unfold SideEffectBoundaryPolicy. case_bool_decide; [cbn|done]. case_bool_decide; [cbn|done]. by destruct (_ && _).
  - unfold DryRunPolicy. by case_bool_decide.
  - done.
Qed.

Lemma passed_iff c : mapped_right c → Forall (λ p : EnforcementPolicy, po_passed (p c) = true) createDefaultEnforcementPolicyChain ↔ cleared c.
Proof.
  intros Hm. unfold mapped_right in Hm. unfold createDefaultEnforcementPolicyChain. rewrite !Forall_cons, emergency_iff, recognition_iff, allow_iff, timeout_iff, pack_iff. split.
  - intros (He&Hr&Ha&Hp&_&_&Had&Hk&Hi&Ht&Hs&_). rewrite approval_iff in Hp by done. rewrite idempotency_iff in Hi by done. rewrite effect_iff in Hs by done. rewrite adapter_iff in Had.
    rewrite Hm in Ha. by constructor.
  - intros [He Hr Ha Hp Had Hk Hi Ht Hs]. rewrite <-Hm in Ha. apply adapter_iff in Had. split_and!; try done.
    + by apply approval_iff.
    + by apply evidence_policy_passes.
    + by apply standing_passes.
    + by apply idempotency_iff.
    + by apply effect_iff.
    + unfold DryRunPolicy. by case_bool_decide.
Qed.
Lemma passed_types c : Forall (λ p : EnforcementPolicy, po_passed (p c) = true) createDefaultEnforcementPolicyChain →
  omap (λ p : EnforcementPolicy, po_decisionType (p c)) createDefaultEnforcementPolicyChain = if bool_decide (er_mode (cx_request c) = mode_dry_run) then [dry_run_allowed] else [].
Proof.
  unfold createDefaultEnforcementPolicyChain. rewrite !Forall_cons. intros (H1&H2&H3&H4&H5&H6&H7&H8&H9&H10&H11&_).
  assert (po_decisionType (EmergencyDenyPolicy c) = None) as E1 by (revert H1; unfold EmergencyDenyPolicy; by destruct (cx_emergencyDeny c)).
  assert (po_decisionType (RecognitionRequiredPolicy c) = None) as E2 by (revert H2; unfold RecognitionRequiredPolicy; destruct (cx_recognitionResult c); [by destruct (recognition_well_formed _)|done]).
  assert (po_decisionType (AllowDecisionRequiredPolicy c) = None) as E3 by (revert H3; unfold AllowDecisionRequiredPolicy; by case_bool_decide).
  assert (po_decisionType (ApprovalPendingPolicy c) = None) as E4 by (revert H4; unfold ApprovalPendingPolicy; by destruct (_ || _)).
  assert (po_decisionType (EvidenceRequiredPolicy c) = None) as E5 by (revert H5; unfold EvidenceRequiredPolicy; by case_bool_decide).
  assert (po_decisionType (ExternalStandingPolicy c) = None) as E6 by (revert H6; unfold ExternalStandingPolicy; by destruct (_ || _); [case_bool_decide|]).
  assert (po_decisionType (AdapterPermissionPolicy c) = None) as E7 by (revert H7; unfold AdapterPermissionPolicy; destruct (cx_adapter c); [by destruct (pr_allowed _)|done]).
  assert (po_decisionType (DomainPolicyPackPolicy c) = None) as E8 by (revert H8; unfold DomainPolicyPackPolicy; case_bool_decide; [done|by destruct (pk_allowed _)]).
  assert (po_decisionType (IdempotencyPolicy c) = None) as E9 by (revert H9; unfold IdempotencyPolicy; destruct (key_required _ _); [done|by case_bool_decide]).
  assert (po_decisionType (ExecutionTimeoutPolicy c) = None) as E10 by (revert H10; unfold ExecutionTimeoutPolicy; by destruct (expired_at _ _)).
  assert (po_decisionType (SideEffectBoundaryPolicy c) = None) as E11 by (revert H11; unfold SideEffectBoundaryPolicy; do 2 (case_bool_decide; [cbn|done]); by destruct (_ && _)).
  cbn [omap list_omap]. rewrite E1, E2, E3, E4, E5, E6, E7, E8, E9, E10, E11. unfold DryRunPolicy. by case_bool_decide.
Qed.

(** The default chain allows execution, or a dry run, exactly when it raises
    no objection. *)
Lemma chain_exact c : mapped_right c →
  (ev_decisionType (evaluatePolicies createDefaultEnforcementPolicyChain c) = execute_allowed ↔ cleared c ∧ er_mode (cx_request c) ≠ mode_dry_run) ∧
  (ev_decisionType (evaluatePolicies createDefaultEnforcementPolicyChain c) = dry_run_allowed ↔ cleared c ∧ er_mode (cx_request c) = mode_dry_run).
Proof.
  intros Hm. unfold evaluatePolicies. destruct (chain_cases c createDefaultEnforcementPolicyChain [] None) as [[Hall E]|(p&Hin&Hf&E)]; rewrite E; clear E.
  - rewrite passed_types by done. apply passed_iff in Hall; [|done]. case_bool_decide; cbn; naive_solver.
  - destruct (failing_type c p Hm Hin Hf) as [Ha Hd]. assert (¬ cleared c) as Hn; [|naive_solver].
    intros Hc%passed_iff; [|done]. rewrite Forall_forall in Hc. rewrite (Hc p Hin) in Hf. done.
Qed.
End Chain.
