(* ===== verification/EnforcementRuntime.v ===== *)
(** * The action-enforcement runtime

    [features/action-enforcement/services], [runtime] and [sdk]: the store, the
    hash-linked event and proof logs, the side-effect ledger, idempotency
    records, the preflight of a request, guarded execution and the guards that
    build a request from a tool call, an API handler, a workflow step or a
    webhook.

    A call of the runtime runs without interruption up to the await of the
    caller's executor, so guarded execution is two computations: what happens
    before the executor is invoked ([run_start]) and after it settled
    ([run_finish]); other calls may run in between. The clock, the id generator
    and the providers are asked with the number of the question, so that each
    may answer differently every time; a value the executor returns is any
    JavaScript value. *)

From S2P Require Import Prelude Decimal Js JsMap StableJson HashChain Parameters ContextResolution ContextStep Enforcement.

Local Open Scope Z_scope.
Local Open Scope frontera_scope.

Record EnforcementRuntimeContext := { clock_now : nat → string; ids_nextId : nat → string → string }.
Record EnforcementConfiguration := {
  cfg_ctx : EnforcementRuntimeContext;
  recognitionIntegration : nat → RecognitionVerificationInput → RecognitionAnswer;
  policyPackIntegration : option (nat → EnforcementPolicyPackEvaluationInput → PolicyPackAnswer);
  cfg_policies : list EnforcementPolicy;
  allowRetryAfterFailure : bool;
}.

(** ** Records *)

Record EnforcementDecision := {
  de_id : string; de_enforcementRequestId : string; de_type : EnforcementDecisionType; de_allowedToExecute : bool; de_reasonCode : string; de_reason : string;
  de_recognitionDecisionId : option string; de_recognitionDecisionType : option string; de_authorityDecisionId : option string; de_authorityProofId : option string;
  de_approvalRequestId : option string; de_approvalDecisionId : option string; de_approvalProofId : option string; de_handshakeDecisionId : option string;
  de_handshakeProofId : option string; de_visaId : option string; de_ingressGrantId : option string; de_idempotencyKey : option string; de_decidedAt : string;
  de_policyResults : list EnforcementPolicyResult; de_policyDecisionId : option string; de_policyProofId : option string; de_policyPackVersionIds : option (list string);
  de_policyMatchedRuleIds : option (list string); de_policyReasonCode : option string; de_policyReason : option string; de_policyEffectiveRiskLevel : option ExecutionRiskLevel;
}.
Inductive ExecutionResultStatus := not_executed | executed | failed | skipped | duplicate.
#[export] Instance ExecutionResultStatus_eq_dec : EqDecision ExecutionResultStatus.
Proof. solve_decision. Defined.
Record ExecutionResult := {
  xr_id : string; xr_enforcementRequestId : string; xr_enforcementDecisionId : string; xr_status : ExecutionResultStatus; xr_executed : bool; xr_value : option JsValue;
  xr_errorMessage : option string; xr_startedAt : option string; xr_completedAt : option string; xr_priorExecutionResultId : option string;
}.
Record EnforcementProof := {
  pf_id : string; pf_enforcementRequestId : string; pf_enforcementDecisionId : string; pf_executionResultId : option string; pf_trustDomainId : string; pf_actorId : string;
  pf_principalActorId : option string; pf_action : string; pf_capability : option string; pf_resourceScope : string; pf_allowedToExecute : bool; pf_executed : bool;
  pf_recognitionDecisionId : option string; pf_authorityProofId : option string; pf_approvalProofId : option string; pf_handshakeProofId : option string;
  pf_policyDecisionId : option string; pf_policyProofId : option string; pf_policyPackVersionIds : option (list string); pf_policyMatchedRuleIds : option (list string);
  pf_sideEffectIds : list string; pf_idempotencyKey : option string; pf_previousHash : option string; pf_proofHash : string; pf_createdAt : string;
}.
Record EnforcementViolation := {
  vi_id : string; vi_enforcementRequestId : string; vi_type : EnforcementViolationType; vi_reasonCode : string; vi_reason : string; vi_severity : EnforcementPolicySeverity;
  vi_detectedAt : string; vi_policyDecisionId : option string; vi_policyProofId : option string;
}.
Inductive IdempotencyRecordStatus := ids_pending | ids_succeeded | ids_failed.
#[export] Instance IdempotencyRecordStatus_eq_dec : EqDecision IdempotencyRecordStatus.
Proof. solve_decision. Defined.
Record IdempotencyRecord := {
  ir_idempotencyKey : string; ir_enforcementRequestId : string; ir_status : IdempotencyRecordStatus; ir_executionResultId : option string; ir_createdAt : string; ir_updatedAt : string;
}.

Inductive EnforcementEventType :=
  | enforcement_requested | preflight_started | preflight_passed | preflight_failed | execution_was_blocked | execution_started | execution_succeeded | execution_failed
  | execution_skipped | duplicate_was_suppressed | side_effect_planned | side_effect_blocked | side_effect_executed | enforcement_proof_created | enforcement_violation_recorded
  | policy_pack_evaluated | policy_pack_blocked | policy_pack_warning_recorded.
Definition event_name (t : EnforcementEventType) : string :=
  match t with
  | enforcement_requested => "enforcement_requested" | preflight_started => "preflight_started" | preflight_passed => "preflight_passed" | preflight_failed => "preflight_failed"
  | execution_was_blocked => "execution_blocked" | execution_started => "execution_started" | execution_succeeded => "execution_succeeded" | execution_failed => "execution_failed"
  | execution_skipped => "execution_skipped" | duplicate_was_suppressed => "duplicate_suppressed" | side_effect_planned => "side_effect_planned"
  | side_effect_blocked => "side_effect_blocked" | side_effect_executed => "side_effect_executed" | enforcement_proof_created => "enforcement_proof_created"
  | enforcement_violation_recorded => "enforcement_violation_recorded" | policy_pack_evaluated => "policy_pack_evaluated" | policy_pack_blocked => "policy_pack_blocked"
  | policy_pack_warning_recorded => "policy_pack_warning_recorded"
  end.
Record RecordEnforcementEventInput := {
  ei_type : EnforcementEventType; ei_trustDomainId : string; ei_enforcementRequestId : option string; ei_enforcementDecisionId : option string;
  ei_executionResultId : option string; ei_enforcementProofId : option string; ei_violationId : option string; ei_actorId : option string;
  ei_principalActorId : option string; ei_payload : Json;
}.
Record EnforcementEvent := { ee_id : string; ee_input : RecordEnforcementEventInput; ee_timestamp : string; ee_previousHash : option string; ee_eventHash : string }.
Definition event_json (i : RecordEnforcementEventInput) (timestamp : string) (previousHash : option string) : Json := JObj [
  ("type", JTxt (event_name (ei_type i))); ("trustDomainId", JTxt (ei_trustDomainId i)); ("enforcementRequestId", opt_txt (ei_enforcementRequestId i));
  ("enforcementDecisionId", opt_txt (ei_enforcementDecisionId i)); ("executionResultId", opt_txt (ei_executionResultId i)); ("enforcementProofId", opt_txt (ei_enforcementProofId i));
  ("violationId", opt_txt (ei_violationId i)); ("actorId", opt_txt (ei_actorId i)); ("principalActorId", opt_txt (ei_principalActorId i)); ("timestamp", JTxt timestamp);
  ("payload", ei_payload i); ("previousHash", opt_txt previousHash)].

Definition opt_texts (o : option (list string)) : Json := match o with Some l => json_texts l | None => JUndef end.
Definition proof_json (p : EnforcementProof) (previousHash : option string) : Json := JObj [
  ("enforcementRequestId", JTxt (pf_enforcementRequestId p)); ("enforcementDecisionId", JTxt (pf_enforcementDecisionId p)); ("executionResultId", opt_txt (pf_executionResultId p));
  ("trustDomainId", JTxt (pf_trustDomainId p)); ("actorId", JTxt (pf_actorId p)); ("principalActorId", opt_txt (pf_principalActorId p)); ("action", JTxt (pf_action p));
  ("capability", opt_txt (pf_capability p)); ("resourceScope", JTxt (pf_resourceScope p)); ("allowedToExecute", JBol (pf_allowedToExecute p)); ("executed", JBol (pf_executed p));
  ("recognitionDecisionId", opt_txt (pf_recognitionDecisionId p)); ("authorityProofId", opt_txt (pf_authorityProofId p)); ("approvalProofId", opt_txt (pf_approvalProofId p));
  ("handshakeProofId", opt_txt (pf_handshakeProofId p)); ("policyDecisionId", opt_txt (pf_policyDecisionId p)); ("policyProofId", opt_txt (pf_policyProofId p));
  ("policyPackVersionIds", opt_texts (pf_policyPackVersionIds p)); ("policyMatchedRuleIds", opt_texts (pf_policyMatchedRuleIds p)); ("sideEffectIds", json_texts (pf_sideEffectIds p));
  ("idempotencyKey", opt_txt (pf_idempotencyKey p)); ("previousHash", opt_txt previousHash)].
(** [verifyProof] *)
Definition verifyProof `{JsHost} (p : EnforcementProof) : bool := str_eqb (createDigest (proof_json p (pf_previousHash p))) (pf_proofHash p).

(** ** The runtime *)

Record EnforcementStore := {
  requests : JsMap EnforcementRequest; decisions : JsMap EnforcementDecision; execution_results : JsMap ExecutionResult; sideEffects : JsMap SideEffectDescriptor;
  proofs : JsMap EnforcementProof; events : list EnforcementEvent; adapters : JsMap EnforcementAdapter; violations : JsMap EnforcementViolation;
}.
Record ActionEnforcementRuntime := { rt_store : EnforcementStore; rt_records : JsMap IdempotencyRecord; rt_emergencyDeny : bool; rt_calls : nat }.
Definition empty_store : EnforcementStore :=
  {| requests := []; decisions := []; execution_results := []; sideEffects := []; proofs := []; events := []; adapters := []; violations := [] |}.
Definition createActionEnforcementRuntime (emergencyDeny : bool) : ActionEnforcementRuntime :=
  {| rt_store := empty_store; rt_records := []; rt_emergencyDeny := emergencyDeny; rt_calls := 0 |}.

Inductive EnforcementThrow := recognition_failed (message : string) | PostExecutionRecordMissing (enforcementRequestId : string).
Definition throw_message (e : EnforcementThrow) : string :=
  match e with
  | recognition_failed message => message
  | PostExecutionRecordMissing id => "Post-execution record missing for enforcement request " +:+ id +:+ ": ExecutionResult or EnforcementProof failed to persist."
  end.

Definition M (A : Type) : Type := ActionEnforcementRuntime → result EnforcementThrow A * ActionEnforcementRuntime.
#[export] Instance M_ret : MRet M := λ A a rt, (Ok a, rt).
#[export] Instance M_bind : MBind M := λ A B f m rt, match m rt with (Ok a, rt') => f a rt' | (Throw e, rt') => (Throw e, rt') end.

Section Runtime.
Context `{JsHost} (cfg : EnforcementConfiguration).
Implicit Types (rt : ActionEnforcementRuntime) (q : EnforcementRequest).

Definition throw {A} (e : EnforcementThrow) : M A := λ rt, (Throw e, rt).
Definition tick rt : ActionEnforcementRuntime :=
  {| rt_store := rt_store rt; rt_records := rt_records rt; rt_emergencyDeny := rt_emergencyDeny rt; rt_calls := S (rt_calls rt) |}.
Definition now_ : M string := λ rt, (Ok (clock_now (cfg_ctx cfg) (rt_calls rt)), tick rt).
Definition nextId (prefix : string) : M string := λ rt, (Ok (ids_nextId (cfg_ctx cfg) (rt_calls rt) prefix), tick rt).
Definition get_store : M EnforcementStore := λ rt, (Ok (rt_store rt), rt).
Definition modify_store (f : EnforcementStore → EnforcementStore) : M unit := λ rt,
  (Ok (), {| rt_store := f (rt_store rt); rt_records := rt_records rt; rt_emergencyDeny := rt_emergencyDeny rt; rt_calls := rt_calls rt |}).
Definition get_records : M (JsMap IdempotencyRecord) := λ rt, (Ok (rt_records rt), rt).
Definition save_record (k : string) (r : IdempotencyRecord) : M unit := λ rt,
  (Ok (), {| rt_store := rt_store rt; rt_records := map_set k r (rt_records rt); rt_emergencyDeny := rt_emergencyDeny rt; rt_calls := rt_calls rt |}).

(** *** The store *)

Definition saveRequest q : M unit := modify_store (λ s, {| requests := map_set (er_id q) q (requests s); decisions := decisions s; execution_results := execution_results s;
  sideEffects := sideEffects s; proofs := proofs s; events := events s; adapters := adapters s; violations := violations s |}).
Definition saveDecision (d : EnforcementDecision) : M unit := modify_store (λ s, {| requests := requests s; decisions := map_set (de_id d) d (decisions s);
  execution_results := execution_results s; sideEffects := sideEffects s; proofs := proofs s; events := events s; adapters := adapters s; violations := violations s |}).
Definition saveResult (r : ExecutionResult) : M unit := modify_store (λ s, {| requests := requests s; decisions := decisions s;
  execution_results := map_set (xr_id r) r (execution_results s); sideEffects := sideEffects s; proofs := proofs s; events := events s; adapters := adapters s; violations := violations s |}).
Definition saveSideEffect (e : SideEffectDescriptor) : M unit := modify_store (λ s, {| requests := requests s; decisions := decisions s; execution_results := execution_results s;
  sideEffects := map_set (sd_id e) e (sideEffects s); proofs := proofs s; events := events s; adapters := adapters s; violations := violations s |}).
Definition saveProof (p : EnforcementProof) : M unit := modify_store (λ s, {| requests := requests s; decisions := decisions s; execution_results := execution_results s;
  sideEffects := sideEffects s; proofs := map_set (pf_id p) p (proofs s); events := events s; adapters := adapters s; violations := violations s |}).
Definition saveEvent (e : EnforcementEvent) : M unit := modify_store (λ s, {| requests := requests s; decisions := decisions s; execution_results := execution_results s;
  sideEffects := sideEffects s; proofs := proofs s; events := events s ++ [e]; adapters := adapters s; violations := violations s |}).
Definition saveAdapter (a : EnforcementAdapter) : M unit := modify_store (λ s, {| requests := requests s; decisions := decisions s; execution_results := execution_results s;
  sideEffects := sideEffects s; proofs := proofs s; events := events s; adapters := map_set (ad_id a) a (adapters s); violations := violations s |}).
Definition saveViolation (v : EnforcementViolation) : M unit := modify_store (λ s, {| requests := requests s; decisions := decisions s; execution_results := execution_results s;
  sideEffects := sideEffects s; proofs := proofs s; events := events s; adapters := adapters s; violations := map_set (vi_id v) v (violations s) |}).

Definition with_status q (status : EnforcementRequestStatus) (effects : list SideEffectDescriptor) : EnforcementRequest :=
  {| er_id := er_id q; er_mode := er_mode q; er_status := status; er_trustDomainId := er_trustDomainId q; er_actorId := er_actorId q; er_principalActorId := er_principalActorId q;
     er_action := er_action q; er_capability := er_capability q; er_resourceScope := er_resourceScope q; er_actionRequestId := er_actionRequestId q;
     er_approvalRequestId := er_approvalRequestId q; er_approvalDecisionId := er_approvalDecisionId q; er_approvalProofId := er_approvalProofId q;
     er_handshakeProofId := er_handshakeProofId q; er_visaId := er_visaId q; er_ingressGrantId := er_ingressGrantId q; er_target := er_target q; er_intent := er_intent q;
     er_idempotencyKey := er_idempotencyKey q; er_sideEffects := effects; er_submittedAt := er_submittedAt q; er_expiresAt := er_expiresAt q;
     er_policyEvaluationInput := er_policyEvaluationInput q; er_metadata := er_metadata q |}.
Definition updateRequestStatus (id : string) (status : EnforcementRequestStatus) : M (option EnforcementRequest) :=
  s ← get_store;
  match map_get id (requests s) with
  | None => mret None
  | Some q => let q' := with_status q status (er_sideEffects q) in
      modify_store (λ s, {| requests := map_set id q' (requests s); decisions := decisions s; execution_results := execution_results s; sideEffects := sideEffects s;
        proofs := proofs s; events := events s; adapters := adapters s; violations := violations s |});; mret (Some q')
  end.
Definition replaceRequestSideEffects (id : string) (effects : list SideEffectDescriptor) : M (option EnforcementRequest) :=
  s ← get_store;
  match map_get id (requests s) with
  | None => mret None
  | Some q => let q' := with_status q (er_status q) effects in
      modify_store (λ s, {| requests := map_set id q' (requests s); decisions := decisions s; execution_results := execution_results s; sideEffects := sideEffects s;
        proofs := proofs s; events := events s; adapters := adapters s; violations := violations s |});; mret (Some q')
  end.
Definition getSideEffectsByRequest (s : EnforcementStore) (id : string) : list SideEffectDescriptor :=
  List.filter (λ e, str_eqb (sd_enforcementRequestId e) id) (map_values (sideEffects s)).
Definition getLatestProof (s : EnforcementStore) : option EnforcementProof := last (map_values (proofs s)).
Definition getLatestEvent (s : EnforcementStore) : option EnforcementEvent := last (events s).
Definition updateSideEffectStatus (id : string) (status : SideEffectStatus) (executedAt failedAt : option string) : M (option SideEffectDescriptor) :=
  s ← get_store;
  match map_get id (sideEffects s) with
  | None => mret None
  | Some e =>
      let over (new old : option string) := match new with Some t => Some t | None => old end in
      let e' := {| sd_id := sd_id e; sd_enforcementRequestId := sd_enforcementRequestId e; sd_type := sd_type e; sd_status := status; sd_description := sd_description e;
                   sd_plannedAt := sd_plannedAt e; sd_executedAt := over executedAt (sd_executedAt e); sd_failedAt := over failedAt (sd_failedAt e) |} in
      modify_store (λ s, {| requests := requests s; decisions := decisions s; execution_results := execution_results s; sideEffects := map_set id e' (sideEffects s);
        proofs := proofs s; events := events s; adapters := adapters s; violations := violations s |});; mret (Some e')
  end.

(** *** Ledgers *)

Definition recordEvent (i : RecordEnforcementEventInput) : M unit :=
  timestamp ← now_;
  s ← get_store;
  let previousHash := ee_eventHash <$> getLatestEvent s in
  id ← nextId "enforcement-event";
  saveEvent {| ee_id := id; ee_input := i; ee_timestamp := timestamp; ee_previousHash := previousHash; ee_eventHash := createDigest (event_json i timestamp previousHash) |}.
(** The event of a request, with what else it names. *)
Definition event_of (t : EnforcementEventType) q (decision res proof violation principal : option string) (payload : list (string * Json)) : RecordEnforcementEventInput :=
  {| ei_type := t; ei_trustDomainId := er_trustDomainId q; ei_enforcementRequestId := Some (er_id q); ei_enforcementDecisionId := decision; ei_executionResultId := res;
     ei_enforcementProofId := proof; ei_violationId := violation; ei_actorId := Some (er_actorId q); ei_principalActorId := principal; ei_payload := JObj payload |}.

Record EnforcementEventFilter := {
  ef_enforcementRequestId : option string; ef_enforcementDecisionId : option string; ef_enforcementProofId : option string; ef_trustDomainId : option string; ef_actorId : option string;
}.
Definition unset_or (wanted actual : option string) : bool := negb (is_some wanted) || bool_decide (actual = wanted).
Definition getEvents (s : EnforcementStore) (f : option EnforcementEventFilter) : list EnforcementEvent :=
  match f with
  | None => events s
  | Some f => List.filter (λ e, let i := ee_input e in
      unset_or (ef_enforcementRequestId f) (ei_enforcementRequestId i) && unset_or (ef_enforcementDecisionId f) (ei_enforcementDecisionId i) &&
      unset_or (ef_enforcementProofId f) (ei_enforcementProofId i) && unset_or (ef_trustDomainId f) (Some (ei_trustDomainId i)) && unset_or (ef_actorId f) (ei_actorId i)) (events s)
  end.

Definition planSideEffect q : M SideEffectDescriptor :=
  id ← nextId "side-effect";
  plannedAt ← now_;
  let e := {| sd_id := id; sd_enforcementRequestId := er_id q; sd_type := in_sideEffectType (er_intent q); sd_status := se_planned; sd_description := in_description (er_intent q);
              sd_plannedAt := plannedAt; sd_executedAt := None; sd_failedAt := None |} in
  saveSideEffect e;;
  recordEvent (event_of side_effect_planned q None None None None None [("sideEffectId", JTxt id); ("sideEffectType", JTxt (side_effect_name (sd_type e)))]);;
  mret e.
Definition effect_event (t : EnforcementEventType) (e : SideEffectDescriptor) (id trustDomainId actorId : string) : RecordEnforcementEventInput :=
  {| ei_type := t; ei_trustDomainId := trustDomainId; ei_enforcementRequestId := Some (sd_enforcementRequestId e); ei_enforcementDecisionId := None; ei_executionResultId := None;
     ei_enforcementProofId := None; ei_violationId := None; ei_actorId := Some actorId; ei_principalActorId := None; ei_payload := JObj [("sideEffectId", JTxt id)] |}.
Definition markBlocked q (id : string) : M unit :=
  updated ← updateSideEffectStatus id se_blocked None None;
  match updated with None => mret () | Some e => recordEvent (effect_event side_effect_blocked e id (er_trustDomainId q) (er_actorId q)) end.
Definition markEffectExecuted q (id : string) : M unit :=
  executedAt ← now_;
  updated ← updateSideEffectStatus id se_executed (Some executedAt) None;
  match updated with None => mret () | Some e => recordEvent (effect_event side_effect_executed e id (er_trustDomainId q) (er_actorId q)) end.
Definition markEffectFailed (id : string) : M unit := failedAt ← now_; _ ← updateSideEffectStatus id se_failed None (Some failedAt); mret ().
Definition markEffectSkipped (id : string) : M unit := _ ← updateSideEffectStatus id se_skipped None None; mret ().
Fixpoint each {A} (f : A → M unit) (l : list A) : M unit := match l with [] => mret () | x :: l => f x;; each f l end.

(** *** Requests *)

Record CreateEnforcementRequestInput := {
  ce_mode : EnforcementMode; ce_trustDomainId : string; ce_actorId : string; ce_principalActorId : option string; ce_action : string; ce_capability : option string;
  ce_resourceScope : string; ce_target : EnforcementTarget; ce_intent : ExecutionIntent; ce_idempotencyKey : option string; ce_expiresAt : option string;
  ce_actionRequestId : option string; ce_approvalProofId : option string; ce_approvalRequestId : option string; ce_approvalDecisionId : option string; ce_visaId : option string;
  ce_ingressGrantId : option string; ce_handshakeProofId : option string; ce_policyEvaluationInput : option EnforcementPolicyEvaluationInput; ce_metadata : option (JsMap Json);
}.
Definition build_request (i : CreateEnforcementRequestInput) (id submittedAt : string) : EnforcementRequest :=
  {| er_id := id; er_mode := ce_mode i; er_status := rq_submitted; er_trustDomainId := ce_trustDomainId i; er_actorId := ce_actorId i; er_principalActorId := ce_principalActorId i;
     er_action := ce_action i; er_capability := ce_capability i; er_resourceScope := ce_resourceScope i; er_actionRequestId := ce_actionRequestId i;
     er_approvalRequestId := ce_approvalRequestId i; er_approvalDecisionId := ce_approvalDecisionId i; er_approvalProofId := ce_approvalProofId i;
     er_handshakeProofId := ce_handshakeProofId i; er_visaId := ce_visaId i; er_ingressGrantId := ce_ingressGrantId i; er_target := ce_target i; er_intent := ce_intent i;
     er_idempotencyKey := ce_idempotencyKey i; er_sideEffects := []; er_submittedAt := submittedAt; er_expiresAt := ce_expiresAt i;
     er_policyEvaluationInput := ce_policyEvaluationInput i; er_metadata := ce_metadata i |}.
Definition createEnforcementRequest (i : CreateEnforcementRequestInput) : M EnforcementRequest :=
  id ← nextId "enforcement-request";
  submittedAt ← now_;
  let q := build_request i id submittedAt in
  saveRequest q;;
  effect ← planSideEffect q;
  replaced ← replaceRequestSideEffects id [effect];
  recordEvent (event_of enforcement_requested q None None None None (er_principalActorId q)
    [("action", JTxt (er_action q)); ("resourceScope", JTxt (er_resourceScope q)); ("mode", JTxt (mode_name (er_mode q)))]);;
  mret (default q replaced).
Definition expireEnforcementRequest (id : string) : M (option EnforcementRequest) := updateRequestStatus id rq_blocked.
Definition cancelEnforcementRequest (id : string) : M (option EnforcementRequest) := updateRequestStatus id rq_cancelled.

(** *** Idempotency *)

Definition register (key enforcementRequestId : string) : M unit :=
  now ← now_;
  save_record key {| ir_idempotencyKey := key; ir_enforcementRequestId := enforcementRequestId; ir_status := ids_pending; ir_executionResultId := None;
                     ir_createdAt := now; ir_updatedAt := now |}.
Definition check (key : option string) (enforcementRequestId : string) : M IdempotencyCheckResult :=
  match key with
  | None => mret {| ic_outcome := id_new; ic_idempotencyKey := None; ic_priorExecutionResultId := None |}
  | Some k =>
      records ← get_records;
      match map_get k records with
      | None => register k enforcementRequestId;; mret {| ic_outcome := id_new; ic_idempotencyKey := Some k; ic_priorExecutionResultId := None |}
      | Some r =>
          mret match ir_status r with
          | ids_succeeded => {| ic_outcome := id_duplicate_success; ic_idempotencyKey := Some k; ic_priorExecutionResultId := ir_executionResultId r |}
          | ids_failed => {| ic_outcome := if allowRetryAfterFailure cfg then id_duplicate_retry else id_duplicate_success; ic_idempotencyKey := Some k; ic_priorExecutionResultId := None |}
          | ids_pending => {| ic_outcome := id_duplicate_success; ic_idempotencyKey := Some k; ic_priorExecutionResultId := None |}
          end
      end
  end.
(** [existing?.createdAt ?? now()] asks the clock only when there is none. *)
Definition settle_record (key : option string) (status : IdempotencyRecordStatus) (resultId : option string) : M unit :=
  match key with
  | None => mret ()
  | Some k =>
      records ← get_records;
      let existing := map_get k records in
      createdAt ← match existing with Some r => mret (ir_createdAt r) | None => now_ end;
      updatedAt ← now_;
      save_record k {| ir_idempotencyKey := k; ir_enforcementRequestId := default "" (ir_enforcementRequestId <$> existing); ir_status := status; ir_executionResultId := resultId;
                       ir_createdAt := createdAt; ir_updatedAt := updatedAt |}
  end.
Definition recordSuccess (key : option string) (executionResultId : string) : M unit := settle_record key ids_succeeded (Some executionResultId).
Definition recordFailure (key : option string) : M unit := settle_record key ids_failed None.

(** *** Decisions *)

Definition EXECUTABLE_DECISION_TYPES : list EnforcementDecisionType := [execute_allowed].
Definition isExecutable (t : EnforcementDecisionType) : bool := bool_decide (t ∈ EXECUTABLE_DECISION_TYPES).
Definition build_decision q (e : EnforcementPolicyEvaluationResult) (r : option RecognitionVerificationResult) (pack : option EnforcementPolicyPackEvaluationResult) (id decidedAt : string) : EnforcementDecision :=
  let or_else (a b : option string) := match a with Some x => Some x | None => b end in
  let details := pk_details <$> pack in
  {| de_id := id; de_enforcementRequestId := er_id q; de_type := ev_decisionType e; de_allowedToExecute := isExecutable (ev_decisionType e); de_reasonCode := ev_reasonCode e;
     de_reason := ev_reason e; de_recognitionDecisionId := r ≫= rr_id; de_recognitionDecisionType := r ≫= rr_type; de_authorityDecisionId := r ≫= rr_authorityDecisionId;
     de_authorityProofId := r ≫= rr_authorityProofId; de_approvalRequestId := r ≫= rr_approvalRequestId; de_approvalDecisionId := r ≫= rr_approvalDecisionId;
     de_approvalProofId := r ≫= rr_approvalProofId; de_handshakeDecisionId := r ≫= rr_handshakeDecisionId;
     de_handshakeProofId := or_else (er_handshakeProofId q) (r ≫= rr_handshakeProofId); de_visaId := er_visaId q; de_ingressGrantId := er_ingressGrantId q;
     de_idempotencyKey := er_idempotencyKey q; de_decidedAt := decidedAt; de_policyResults := ev_policyResults e; de_policyDecisionId := details ≫= dt_policyDecisionId;
     de_policyProofId := details ≫= dt_policyProofId; de_policyPackVersionIds := details ≫= dt_policyPackVersionIds; de_policyMatchedRuleIds := details ≫= dt_matchedRuleIds;
     de_policyReasonCode := pk_reasonCode <$> pack; de_policyReason := pk_reason <$> pack; de_policyEffectiveRiskLevel := details ≫= dt_effectiveRiskLevel |}.
Definition createDecision q (e : EnforcementPolicyEvaluationResult) (r : option RecognitionVerificationResult) (pack : option EnforcementPolicyPackEvaluationResult) : M EnforcementDecision :=
  id ← nextId "enforcement-decision";
  decidedAt ← now_;
  let d := build_decision q e r pack id decidedAt in
  saveDecision d;; mret d.

(** *** Preflight *)

Definition DECISION_TO_VIOLATION (t : EnforcementDecisionType) : option EnforcementViolationType :=
  match t with
  | execution_blocked | invalid_request => Some vt_recognition_denied
  | request_expired => Some vt_request_expired
  | adapter_denied => Some vt_adapter_denied
  | emergency_denied => Some vt_emergency_denied
  | duplicate_suppressed => Some vt_idempotency_violation
  | external_handshake_required => Some vt_external_standing_missing
  | _ => None
  end.
Definition verification_input q (now : string) : RecognitionVerificationInput :=
  {| ri_actionRequestId := er_actionRequestId q; ri_actorId := er_actorId q; ri_principalActorId := er_principalActorId q; ri_trustDomainId := er_trustDomainId q;
     ri_action := er_action q; ri_capability := er_capability q; ri_resourceScope := er_resourceScope q; ri_requestedAt := now; ri_approvalProofId := er_approvalProofId q;
     ri_approvalRequestId := er_approvalRequestId q; ri_approvalDecisionId := er_approvalDecisionId q; ri_visaId := er_visaId q; ri_ingressGrantId := er_ingressGrantId q;
     ri_handshakeProofId := er_handshakeProofId q; ri_metadata := er_metadata q |}.
Definition ask_recognition (i : RecognitionVerificationInput) : M (option RecognitionVerificationResult) := λ rt,
  match recognitionIntegration cfg (rt_calls rt) i with
  | RecognitionThrew message => (Throw (recognition_failed message), tick rt)
  | RecognitionResult r => (Ok r, tick rt)
  end.
Definition evaluatePolicyPackForRequest q (now : string) (r : option RecognitionVerificationResult) : M EnforcementPolicyPackEvaluationResult := λ rt,
  match policyPackIntegration cfg with
  | None => (Ok NOT_CONFIGURED_RESULT, rt)
  | Some integration => let i := buildEvaluationInput q now r in (Ok (pack_result i (integration (rt_calls rt) i)), tick rt)
  end.
Definition emergency_active : M bool := λ rt, (Ok (rt_emergencyDeny rt), rt).

(** What the policies are shown. *)
Definition gather q : M EnforcementPolicyContext :=
  now ← now_;
  recordEvent (event_of preflight_started q None None None None (er_principalActorId q) [("action", JTxt (er_action q)); ("mode", JTxt (mode_name (er_mode q)))]);;
  r ← ask_recognition (verification_input q now);
  s ← get_store;
  let adapter := tg_adapterId (er_target q) ≫= λ id, map_get id (adapters s) in
  idempotency ← check (er_idempotencyKey q) (er_id q);
  pack ← evaluatePolicyPackForRequest q now r;
  emergency ← emergency_active;
  mret {| cx_now := now; cx_request := q; cx_recognitionResult := r; cx_mapped := mapRecognitionResult r; cx_adapter := adapter; cx_emergencyDeny := emergency;
          cx_idempotency := idempotency; cx_policyPackResult := pack |}.

Definition pack_blocked (e : EnforcementPolicyEvaluationResult) : bool :=
  match List.find (λ p, str_eqb (pl_policyId p) "domain_policy_pack") (ev_policyResults e) with Some p => negb (pl_passed p) | None => false end.
Definition record_pack q (d : EnforcementDecision) (blocked : bool) (r : EnforcementPolicyPackEvaluationResult) : M unit :=
  recordEvent (event_of policy_pack_evaluated q (Some (de_id d)) None None None None
    [("type", JTxt (pack_type_name (pk_type r))); ("reasonCode", JTxt (pk_reasonCode r)); ("allowed", JBol (pk_allowed r)); ("policyDecisionId", opt_txt (dt_policyDecisionId (pk_details r)))]);;
  if blocked then recordEvent (event_of policy_pack_blocked q (Some (de_id d)) None None None None [("type", JTxt (pack_type_name (pk_type r))); ("reasonCode", JTxt (pk_reasonCode r))])
  else if bool_decide (pk_type r = policy_warning) then recordEvent (event_of policy_pack_warning_recorded q (Some (de_id d)) None None None None [("reasonCode", JTxt (pk_reasonCode r))])
  else mret ().
Definition record_violation q (d : EnforcementDecision) (blocked : bool) (r : EnforcementPolicyPackEvaluationResult) (now : string) : M unit :=
  match (if blocked then Some (policyPackViolationType r) else DECISION_TO_VIOLATION (de_type d)) with
  | None => mret ()
  | Some t =>
      id ← nextId "enforcement-violation";
      saveViolation {| vi_id := id; vi_enforcementRequestId := er_id q; vi_type := t; vi_reasonCode := de_reasonCode d; vi_reason := de_reason d;
        vi_severity := if blocked then severityForPolicyPackResult r else if bool_decide (de_type d ∈ [emergency_denied; adapter_denied]) then sv_critical else sv_error;
        vi_detectedAt := now; vi_policyDecisionId := if blocked then dt_policyDecisionId (pk_details r) else None;
        vi_policyProofId := if blocked then dt_policyProofId (pk_details r) else None |};;
      recordEvent (event_of enforcement_violation_recorded q (Some (de_id d)) None None (Some id) None [("violationType", JTxt (violation_name t)); ("reasonCode", JTxt (de_reasonCode d))])
  end.
Definition conclude (c : EnforcementPolicyContext) : M EnforcementDecision :=
  let q := cx_request c in
  let e := evaluatePolicies (cfg_policies cfg) c in
  let configured := is_some (policyPackIntegration cfg) in
  d ← createDecision q e (cx_recognitionResult c) (if configured then Some (cx_policyPackResult c) else None);
  let blocked := pack_blocked e in
  (if configured then record_pack q d blocked (cx_policyPackResult c) else mret ());;
  if de_allowedToExecute d then
    _ ← updateRequestStatus (er_id q) rq_preflight_passed;
    recordEvent (event_of preflight_passed q (Some (de_id d)) None None None None [("decisionType", JTxt (decision_name (de_type d)))]);;
    mret d
  else
    _ ← updateRequestStatus (er_id q) (if bool_decide (de_type d = dry_run_allowed) then rq_preflight_passed else rq_preflight_failed);
    recordEvent (event_of preflight_failed q (Some (de_id d)) None None None None [("decisionType", JTxt (decision_name (de_type d))); ("reasonCode", JTxt (de_reasonCode d))]);;
    record_violation q d blocked (cx_policyPackResult c) (cx_now c);;
    mret d.
Definition preflight q : M EnforcementDecision := c ← gather q; conclude c.

(** *** Results and proofs *)

Definition build_result q (d : EnforcementDecision) (status : ExecutionResultStatus) (value : option JsValue) (error startedAt completedAt prior : option string) (id : string) : ExecutionResult :=
  {| xr_id := id; xr_enforcementRequestId := er_id q; xr_enforcementDecisionId := de_id d; xr_status := status; xr_executed := bool_decide (status = executed); xr_value := value;
     xr_errorMessage := error; xr_startedAt := startedAt; xr_completedAt := completedAt; xr_priorExecutionResultId := prior |}.
Definition save_result q (d : EnforcementDecision) (status : ExecutionResultStatus) (value : option JsValue) (error startedAt completedAt prior : option string) : M ExecutionResult :=
  id ← nextId "execution-result";
  let r := build_result q d status value error startedAt completedAt prior id in
  saveResult r;; mret r.
Definition markNotExecuted q d : M ExecutionResult := save_result q d not_executed None None None None None.
Definition markSkipped q d : M ExecutionResult := save_result q d skipped None None None None None.
Definition markDuplicate q d (prior : option string) : M ExecutionResult := save_result q d duplicate None None None None prior.
Definition markExecuted q d (value : JsValue) (startedAt completedAt : string) : M ExecutionResult := save_result q d executed (Some value) None (Some startedAt) (Some completedAt) None.
Definition markFailed q d (error startedAt completedAt : string) : M ExecutionResult := save_result q d failed None (Some error) (Some startedAt) (Some completedAt) None.

Definition build_proof q (d : EnforcementDecision) (r : ExecutionResult) (effects : list string) (previousHash : option string) (hash id createdAt : string) : EnforcementProof :=
  {| pf_id := id; pf_enforcementRequestId := er_id q; pf_enforcementDecisionId := de_id d; pf_executionResultId := Some (xr_id r); pf_trustDomainId := er_trustDomainId q;
     pf_actorId := er_actorId q; pf_principalActorId := er_principalActorId q; pf_action := er_action q; pf_capability := er_capability q; pf_resourceScope := er_resourceScope q;
     pf_allowedToExecute := de_allowedToExecute d; pf_executed := xr_executed r; pf_recognitionDecisionId := de_recognitionDecisionId d; pf_authorityProofId := de_authorityProofId d;
     pf_approvalProofId := de_approvalProofId d; pf_handshakeProofId := de_handshakeProofId d; pf_policyDecisionId := de_policyDecisionId d; pf_policyProofId := de_policyProofId d;
     pf_policyPackVersionIds := de_policyPackVersionIds d; pf_policyMatchedRuleIds := de_policyMatchedRuleIds d; pf_sideEffectIds := effects; pf_idempotencyKey := er_idempotencyKey q;
     pf_previousHash := previousHash; pf_proofHash := hash; pf_createdAt := createdAt |}.
Definition service_createProof q (d : EnforcementDecision) (r : ExecutionResult) (effects : list string) : M EnforcementProof :=
  s ← get_store;
  let previousHash := pf_proofHash <$> getLatestProof s in
  let hash := createDigest (proof_json (build_proof q d r effects previousHash "" "" "") previousHash) in
  id ← nextId "enforcement-proof";
  createdAt ← now_;
  let p := build_proof q d r effects previousHash hash id createdAt in
  saveProof p;; mret p.
Definition createProof q (d : EnforcementDecision) (r : ExecutionResult) (effects : list string) : M EnforcementProof :=
  p ← service_createProof q d r effects;
  recordEvent (event_of enforcement_proof_created q (Some (de_id d)) None (Some (pf_id p)) None None [("proofHash", JTxt (pf_proofHash p))]);;
  s ← get_store;
  if is_some (map_get (xr_id r) (execution_results s)) && is_some (map_get (pf_id p) (proofs s)) then mret p else throw (PostExecutionRecordMissing (er_id q)).
Definition refreshRequestSideEffects q : M EnforcementRequest :=
  s ← get_store;
  let effects := getSideEffectsByRequest s (er_id q) in
  replaced ← replaceRequestSideEffects (er_id q) effects;
  mret (default (with_status q (er_status q) effects) replaced).

(** *** Guarded execution *)

Record EnforcementOutcome := { eo_request : EnforcementRequest; eo_decision : EnforcementDecision; eo_result : ExecutionResult; eo_proof : EnforcementProof }.
Definition outcome_of q (d : EnforcementDecision) (r : ExecutionResult) (effects : list string) : M EnforcementOutcome :=
  q' ← refreshRequestSideEffects q;
  p ← createProof q' d r effects;
  mret {| eo_request := q'; eo_decision := d; eo_result := r; eo_proof := p |}.

(** Nothing is invoked: a dry run, a duplicate, or a refusal. *)
Definition not_invoked q (d : EnforcementDecision) (effects : list string) : M EnforcementOutcome :=
  r ← (if bool_decide (de_type d = dry_run_allowed) then
         each markEffectSkipped effects;;
         recordEvent (event_of execution_skipped q (Some (de_id d)) None None None None [("reasonCode", JTxt (de_reasonCode d))]);;
         markSkipped q d
       else if bool_decide (de_type d = duplicate_suppressed) then
         each markEffectSkipped effects;;
         recordEvent (event_of duplicate_was_suppressed q (Some (de_id d)) None None None None [("idempotencyKey", opt_txt (er_idempotencyKey q))]);;
         idempotency ← check (er_idempotencyKey q) (er_id q);
         markDuplicate q d (ic_priorExecutionResultId idempotency)
       else
         each (markBlocked q) effects;;
         recordEvent (event_of execution_was_blocked q (Some (de_id d)) None None None None [("decisionType", JTxt (decision_name (de_type d))); ("reasonCode", JTxt (de_reasonCode d))]);;
         markNotExecuted q d);
  outcome_of q d r effects.

(** The executor is invoked: it runs now, or everything is already over. *)
Record Execution := { ex_request : EnforcementRequest; ex_decision : EnforcementDecision; ex_startedAt : string; ex_effects : list string }.
Definition run_start q : M (Execution + EnforcementOutcome) :=
  d ← preflight q;
  let effects := sd_id <$> er_sideEffects q in
  if negb (de_allowedToExecute d) then o ← not_invoked q d effects; mret (inr o)
  else
    _ ← updateRequestStatus (er_id q) rq_executing;
    startedAt ← now_;
    recordEvent (event_of execution_started q (Some (de_id d)) None None None None []);;
    mret (inl {| ex_request := q; ex_decision := d; ex_startedAt := startedAt; ex_effects := effects |}).

(** How the executor settled. *)
Inductive ExecutorAnswer := Returned (value : JsValue) | Raised (message : string).
Definition finish_success (x : Execution) (value : JsValue) : M EnforcementOutcome :=
  let q := ex_request x in let d := ex_decision x in
  completedAt ← now_;
  each (markEffectExecuted q) (ex_effects x);;
  r ← markExecuted q d value (ex_startedAt x) completedAt;
  recordSuccess (er_idempotencyKey q) (xr_id r);;
  _ ← updateRequestStatus (er_id q) rq_executed;
  recordEvent (event_of execution_succeeded q (Some (de_id d)) (Some (xr_id r)) None None None []);;
  outcome_of q d r (ex_effects x).
Definition finish_failure (x : Execution) (message : string) : M EnforcementOutcome :=
  let q := ex_request x in let d := ex_decision x in
  completedAt ← now_;
  each markEffectFailed (ex_effects x);;
  r ← markFailed q d message (ex_startedAt x) completedAt;
  recordFailure (er_idempotencyKey q);;
  _ ← updateRequestStatus (er_id q) rq_failed;
  recordEvent (event_of execution_failed q (Some (de_id d)) (Some (xr_id r)) None None None [("errorMessage", JTxt message)]);;
  outcome_of q d r (ex_effects x).
(** The [catch] of [run] also catches what the success path throws. *)
Definition run_finish (x : Execution) (a : ExecutorAnswer) : M EnforcementOutcome :=
  match a with
  | Raised message => finish_failure x message
  | Returned value => λ rt, match finish_success x value rt with (Ok o, rt') => (Ok o, rt') | (Throw e, rt') => finish_failure x (throw_message e) rt' end
  end.

(** *** Guards *)

Record GuardActionRequestInput := {
  gi_actorId : string; gi_principalActorId : option string; gi_trustDomainId : string; gi_action : string; gi_capability : option string; gi_resourceScope : string;
  gi_targetId : option string; gi_targetType : option EnforcementTargetType; gi_targetName : option string; gi_adapterId : option string; gi_riskLevel : option ExecutionRiskLevel;
  gi_sideEffectType : option SideEffectType; gi_description : option string; gi_idempotencyKey : option string; gi_mode : option EnforcementMode; gi_expiresAt : option string;
  gi_actionRequestId : option string; gi_approvalProofId : option string; gi_approvalRequestId : option string; gi_approvalDecisionId : option string; gi_visaId : option string;
  gi_ingressGrantId : option string; gi_handshakeProofId : option string; gi_policyEvaluationInput : option EnforcementPolicyEvaluationInput; gi_metadata : option (JsMap Json);
}.
Definition buildTarget (i : GuardActionRequestInput) (adapterType : option EnforcementTargetType) : EnforcementTarget :=
  let type := match gi_targetType i with Some t => t | None => default tt_generic adapterType end in
  {| tg_id := default ("target-" +:+ target_type_name type +:+ "-" +:+ gi_action i) (gi_targetId i); tg_type := type; tg_name := default (gi_action i) (gi_targetName i);
     tg_adapterId := gi_adapterId i |}.
Definition buildIntent (i : GuardActionRequestInput) : ExecutionIntent :=
  {| in_id := "intent-" +:+ gi_actorId i +:+ "-" +:+ gi_action i +:+ "-" +:+ gi_resourceScope i; in_action := gi_action i; in_capability := gi_capability i;
     in_resourceScope := gi_resourceScope i; in_riskLevel := default risk_medium (gi_riskLevel i); in_sideEffectType := default se_write (gi_sideEffectType i);
     in_description := gi_description i |}.
Definition request_input (i : GuardActionRequestInput) (mode : EnforcementMode) (adapterType : option EnforcementTargetType) : CreateEnforcementRequestInput :=
  {| ce_mode := mode; ce_trustDomainId := gi_trustDomainId i; ce_actorId := gi_actorId i; ce_principalActorId := gi_principalActorId i; ce_action := gi_action i;
     ce_capability := gi_capability i; ce_resourceScope := gi_resourceScope i; ce_target := buildTarget i adapterType; ce_intent := buildIntent i;
     ce_idempotencyKey := gi_idempotencyKey i; ce_expiresAt := gi_expiresAt i; ce_actionRequestId := gi_actionRequestId i; ce_approvalProofId := gi_approvalProofId i;
     ce_approvalRequestId := gi_approvalRequestId i; ce_approvalDecisionId := gi_approvalDecisionId i; ce_visaId := gi_visaId i; ce_ingressGrantId := gi_ingressGrantId i;
     ce_handshakeProofId := gi_handshakeProofId i; ce_policyEvaluationInput := gi_policyEvaluationInput i; ce_metadata := gi_metadata i |}.
Definition guard_buildRequest (i : GuardActionRequestInput) (mode : EnforcementMode) (adapterType : option EnforcementTargetType) : M EnforcementRequest :=
  createEnforcementRequest (request_input i mode adapterType).
Definition guard_preflight (i : GuardActionRequestInput) : M EnforcementDecision :=
  q ← guard_buildRequest i (default mode_preflight (gi_mode i)) None; preflight q.
Definition guard_enforce (i : GuardActionRequestInput) : M (Execution + EnforcementOutcome) :=
  q ← guard_buildRequest i (default mode_execute (gi_mode i)) None; run_start q.
Definition verifyAndExecute (i : GuardActionRequestInput) (adapterType : option EnforcementTargetType) : M (Execution + EnforcementOutcome) :=
  q ← guard_buildRequest i (default mode_execute (gi_mode i)) adapterType; run_start q.

Definition registerAdapter (a : EnforcementAdapter) : M EnforcementAdapter := saveAdapter a;; mret a.
Definition setEmergencyDeny (active : bool) : M unit := λ rt,
  (Ok (), {| rt_store := rt_store rt; rt_records := rt_records rt; rt_emergencyDeny := active; rt_calls := rt_calls rt |}).

(** The typed guards of [sdk]; a field its input does not have is absent. *)
Definition guard_input (t : EnforcementTargetType) (name : string) (adapterId : option string) (actorId : string) (principalActorId : option string) (trustDomainId action : string)
    (capability : option string) (resourceScope : string) (risk : option ExecutionRiskLevel) (effect : option SideEffectType) (key : option string) (mode : option EnforcementMode)
    (visaId ingressGrantId handshakeProofId : option string) (evaluation : option EnforcementPolicyEvaluationInput) (metadata : option (JsMap Json)) : GuardActionRequestInput :=
  {| gi_actorId := actorId; gi_principalActorId := principalActorId; gi_trustDomainId := trustDomainId; gi_action := action; gi_capability := capability;
     gi_resourceScope := resourceScope; gi_targetId := None; gi_targetType := Some t; gi_targetName := Some name; gi_adapterId := adapterId; gi_riskLevel := risk;
     gi_sideEffectType := effect; gi_description := None; gi_idempotencyKey := key; gi_mode := mode; gi_expiresAt := None; gi_actionRequestId := None;
     gi_approvalProofId := None; gi_approvalRequestId := None; gi_approvalDecisionId := None; gi_visaId := visaId; gi_ingressGrantId := ingressGrantId;
     gi_handshakeProofId := handshakeProofId; gi_policyEvaluationInput := evaluation; gi_metadata := metadata |}.
Record ToolCallInput := {
  tc_actorId : string; tc_principalActorId : option string; tc_trustDomainId : string; tc_toolName : string; tc_action : string; tc_capability : option string; tc_resourceScope : string;
  tc_riskLevel : option ExecutionRiskLevel; tc_sideEffectType : option SideEffectType; tc_idempotencyKey : option string; tc_metadata : option (JsMap Json);
  tc_policyEvaluationInput : option EnforcementPolicyEvaluationInput;
}.
Definition ToolCallGuard (c : ToolCallInput) : M (Execution + EnforcementOutcome) :=
  guard_enforce (guard_input tt_tool_call (tc_toolName c) (Some (tc_toolName c)) (tc_actorId c) (tc_principalActorId c) (tc_trustDomainId c) (tc_action c) (tc_capability c)
    (tc_resourceScope c) (tc_riskLevel c) (tc_sideEffectType c) (tc_idempotencyKey c) None None None None (tc_policyEvaluationInput c) (tc_metadata c)).
Record WebhookInput := {
  wh_webhookId : string; wh_actorId : string; wh_trustDomainId : string; wh_action : string; wh_capability : option string; wh_resourceScope : string; wh_visaId : option string;
  wh_ingressGrantId : option string; wh_handshakeProofId : option string; wh_idempotencyKey : option string;
}.
Definition WebhookGuard (c : WebhookInput) : M (Execution + EnforcementOutcome) :=
  guard_enforce (guard_input tt_webhook (wh_webhookId c) (Some (wh_webhookId c)) (wh_actorId c) None (wh_trustDomainId c) (wh_action c) (wh_capability c) (wh_resourceScope c)
    None None (wh_idempotencyKey c) None (wh_visaId c) (wh_ingressGrantId c) (wh_handshakeProofId c) None None).
Record WorkflowStepInput := {
  ws_stepId : string; ws_actorId : string; ws_principalActorId : option string; ws_trustDomainId : string; ws_action : string; ws_capability : option string; ws_resourceScope : string;
  ws_idempotencyKey : option string; ws_mode : option EnforcementMode;
}.
Definition WorkflowStepGuard (c : WorkflowStepInput) : M (Execution + EnforcementOutcome) :=
  guard_enforce (guard_input tt_workflow_step (ws_stepId c) (Some (ws_stepId c)) (ws_actorId c) (ws_principalActorId c) (ws_trustDomainId c) (ws_action c) (ws_capability c)
    (ws_resourceScope c) None None (ws_idempotencyKey c) (ws_mode c) None None None None None).
(** The parts an API handler's configuration reads from a request. *)
Record ApiHandlerCall := {
  ah_action : string; ah_capability : option string; ah_adapterId : option string; ah_trustDomainId : string; ah_actorId : string; ah_principalActorId : option string;
  ah_resourceScope : string; ah_idempotencyKey : option string; ah_policyEvaluationInput : option EnforcementPolicyEvaluationInput;
}.
Definition ApiHandlerGuard (c : ApiHandlerCall) : M (Execution + EnforcementOutcome) :=
  guard_enforce (guard_input tt_api_handler (ah_action c) (ah_adapterId c) (ah_actorId c) (ah_principalActorId c) (ah_trustDomainId c) (ah_action c) (ah_capability c)
    (ah_resourceScope c) None None (ah_idempotencyKey c) None None None None (ah_policyEvaluationInput c) None).
(** What a wrapped handler answers: its value, or that it was blocked. *)
Definition handler_answer (o : EnforcementOutcome) : option (option JsValue) :=
  if de_allowedToExecute (eo_decision o) && xr_executed (eo_result o) then Some (xr_value (eo_result o)) else None.
End Runtime.
