(* ===== verification/EnforcementSafety.v ===== *)
(** * What the action-enforcement runtime guarantees

    Over [EnforcementRuntime]: the executor is invoked exactly when the default
    chain of policies has no objection to what the providers answered; however
    calls interleave, an idempotency key that may not be retried invokes the
    executor once, and one whose calls do not overlap succeeds once; every call
    that ends leaves a stored result and a stored, verifiable proof, linked to
    those before it, that say what the executor did. *)

From S2P Require Import Prelude Decimal Js JsMap StableJson HashChain Parameters ContextResolution ContextStep Enforcement EnforcementRuntime.

Local Open Scope Z_scope.
Local Open Scope frontera_scope.

Create HintDb enforcement.

(** ** Computations that keep a relation *)

Section Keeps.
Context (R : ActionEnforcementRuntime → ActionEnforcementRuntime → Prop) `{!PreOrder R}.
Definition keeps {A} (m : M A) : Prop := ∀ rt, R rt (m rt).2.
Lemma keeps_run {A} (m : M A) rt res rt' : keeps m → m rt = (res, rt') → R rt rt'.
Proof. intros Hm E. specialize (Hm rt). by rewrite E in Hm. Qed.
Lemma keeps_value {A} (a : A) : keeps (mret a).
Proof. intros rt. cbn. reflexivity. Qed.
Lemma keeps_throw {A} e : keeps (@throw A e).
Proof. intros rt. cbn. reflexivity. Qed.
Lemma keeps_then {A B} (m : M A) (f : A → M B) : keeps m → (∀ a, keeps (f a)) → keeps (m ≫= f).
Proof. intros Hm Hf rt. specialize (Hm rt). unfold mbind, M_bind. destruct (m rt) as [[a|e] rt']; cbn in *; [|exact Hm]. etransitivity; [exact Hm|]. apply Hf. Qed.
Lemma keeps_each {A} (f : A → M unit) l : (∀ a, keeps (f a)) → keeps (each f l).
Proof. intros Hf. induction l as [|x l IH]; [apply keeps_value|]. cbn [each]. apply keeps_then; [apply Hf|by intros _]. Qed.
End Keeps.
#[export] Hint Resolve keeps_value keeps_throw : enforcement.
#[export] Hint Extern 2 (keeps _ (mbind _ _)) => (apply keeps_then; [try apply _| |intros ?]) : enforcement.
#[export] Hint Extern 2 (keeps _ (each _ _)) => (apply keeps_each; [try apply _|intros ?]) : enforcement.
#[export] Hint Extern 4 (keeps _ (match ?x with _ => _ end)) => destruct x : enforcement.
Ltac kept := eauto 30 with enforcement.

Lemma bind_Ok {A B} (m : M A) (f : A → M B) rt b rt' : (m ≫= f) rt = (Ok b, rt') ↔ ∃ a rt1, m rt = (Ok a, rt1) ∧ f a rt1 = (Ok b, rt').
Proof. unfold mbind, M_bind. destruct (m rt) as [[a|e] rt1]; split; [intros E; by exists a, rt1|by intros (?&?&[= <- <-]&?)|done|by intros (?&?&?&?)]. Qed.
Lemma bind_Throw {A B} (m : M A) (f : A → M B) rt e rt' : (m ≫= f) rt = (Throw e, rt') ↔ m rt = (Throw e, rt') ∨ ∃ a rt1, m rt = (Ok a, rt1) ∧ f a rt1 = (Throw e, rt').
Proof. unfold mbind, M_bind. destruct (m rt) as [[a|e1] rt1]; split; [intros E; right; by exists a, rt1|by intros [?|(?&?&[= <- <-]&?)]|intros [= -> ->]; by left|by intros [[= -> ->]|(?&?&?&?)]]. Qed.

(** Computations that always answer. *)
Definition answers {A} (m : M A) : Prop := ∀ rt, ∃ a rt', m rt = (Ok a, rt').
Lemma answers_value {A} (a : A) : answers (mret a).
Proof. intros rt. by exists a, rt. Qed.
Lemma answers_then {A B} (m : M A) (f : A → M B) : answers m → (∀ a, answers (f a)) → answers (m ≫= f).
Proof. intros Hm Hf rt. destruct (Hm rt) as (a&rt1&E). destruct (Hf a rt1) as (b&rt2&E'). exists b, rt2. apply bind_Ok. by exists a, rt1. Qed.
Lemma answers_each {A} (f : A → M unit) l : (∀ a, answers (f a)) → answers (each f l).
Proof. intros Hf. induction l as [|x l IH]; [apply answers_value|]. cbn [each]. apply answers_then; [apply Hf|by intros _]. Qed.
#[export] Hint Resolve answers_value : enforcement.
#[export] Hint Extern 2 (answers (mbind _ _)) => (apply answers_then; [|intros ?]) : enforcement.
#[export] Hint Extern 2 (answers (each _ _)) => (apply answers_each; intros ?) : enforcement.
#[export] Hint Extern 4 (answers (match ?x with _ => _ end)) => destruct x : enforcement.

(** *** What leaves the records, the switch and the adapters alone *)

Definition quiet (rt rt' : ActionEnforcementRuntime) : Prop :=
  rt_records rt' = rt_records rt ∧ rt_emergencyDeny rt' = rt_emergencyDeny rt ∧ adapters (rt_store rt') = adapters (rt_store rt).
#[export] Instance quiet_preorder : PreOrder quiet.
Proof. split; [by intros rt|]. intros x y z (E1&E2&E3) (F1&F2&F3). unfold quiet. by rewrite F1, F2, F3. Qed.
(** *** What only adds pending records *)
Definition grows (rt rt' : ActionEnforcementRuntime) : Prop := ∀ k, map_get k (rt_records rt') = map_get k (rt_records rt) ∨
  map_get k (rt_records rt) = None ∧ ir_status <$> map_get k (rt_records rt') = Some ids_pending.
Lemma grows_found rt rt' k r : grows rt rt' → map_get k (rt_records rt) = Some r → map_get k (rt_records rt') = Some r.
Proof. intros Hg Hr. destruct (Hg k) as [->|[Hn _]]; [done|]. by rewrite Hr in Hn. Qed.
#[export] Instance grows_preorder : PreOrder grows.
Proof.
  split; [by intros rt k; left|]. intros x y z Hxy Hyz k. destruct (Hxy k) as [E|[E Hp]]; [rewrite <-E; apply Hyz|]. right. split; [done|].
  destruct (map_get k (rt_records y)) as [r|] eqn:Er; [|done]. by rewrite (grows_found y z k r).
Qed.
Lemma grows_of_quiet rt rt' : quiet rt rt' → grows rt rt'.
Proof. intros (E&_) k. left. by rewrite E. Qed.
Lemma quiet_grows {A} (m : M A) : keeps quiet m → keeps grows m.
Proof. intros Hm rt. apply grows_of_quiet, Hm. Qed.

Section Frames.
Context `{JsHost} (cfg : EnforcementConfiguration).

Lemma quiet_same rt rt' : rt_records rt' = rt_records rt → rt_emergencyDeny rt' = rt_emergencyDeny rt → adapters (rt_store rt') = adapters (rt_store rt) → quiet rt rt'.
Proof. done. Qed.
Lemma quiet_now : keeps quiet (now_ cfg).
Proof. done. Qed.
Lemma quiet_nextId p : keeps quiet (nextId cfg p).
Proof. done. Qed.
Lemma quiet_get : keeps quiet get_store.
Proof. done. Qed.
Lemma quiet_get_records : keeps quiet get_records.
Proof. done. Qed.
Lemma quiet_modify f : (∀ s, adapters (f s) = adapters s) → keeps quiet (modify_store f).
Proof. intros Hf rt. split_and!; [done..|apply Hf]. Qed.
#[local] Hint Resolve quiet_now quiet_nextId quiet_get quiet_get_records : enforcement.
#[local] Hint Extern 2 (keeps quiet (modify_store _)) => (apply quiet_modify; done) : enforcement.

Lemma quiet_recordEvent i : keeps quiet (recordEvent cfg i).
Proof. unfold recordEvent, saveEvent. kept. Qed.
#[local] Hint Resolve quiet_recordEvent : enforcement.
Lemma quiet_updateRequestStatus id st : keeps quiet (updateRequestStatus id st).
Proof. unfold updateRequestStatus. kept. Qed.
Lemma quiet_replace id l : keeps quiet (replaceRequestSideEffects id l).
Proof. unfold replaceRequestSideEffects. kept. Qed.
Lemma quiet_effect id st a b : keeps quiet (updateSideEffectStatus id st a b).
Proof. unfold updateSideEffectStatus. kept. Qed.
#[local] Hint Resolve quiet_updateRequestStatus quiet_replace quiet_effect : enforcement.
Lemma quiet_createRequest i : keeps quiet (createEnforcementRequest cfg i).
Proof. unfold createEnforcementRequest, planSideEffect, saveRequest, saveSideEffect. kept. Qed.
Lemma quiet_createDecision q e r p : keeps quiet (createDecision cfg q e r p).
Proof. unfold createDecision, saveDecision. kept. Qed.
Lemma quiet_save_result q d st v a b c e : keeps quiet (save_result cfg q d st v a b c e).
Proof. unfold save_result, saveResult. kept. Qed.
Lemma quiet_service_createProof q d r l : keeps quiet (service_createProof cfg q d r l).
Proof. unfold service_createProof, saveProof. kept. Qed.
#[local] Hint Resolve quiet_createDecision quiet_save_result quiet_service_createProof : enforcement.
Lemma quiet_conclude c : keeps quiet (conclude cfg c).
Proof. unfold conclude, record_pack, record_violation, saveViolation. kept. Qed.
Lemma quiet_outcome q d r l : keeps quiet (outcome_of cfg q d r l).
Proof. unfold outcome_of, refreshRequestSideEffects, createProof. kept. Qed.
Lemma quiet_recognition i : keeps quiet (ask_recognition cfg i).
Proof. intros rt. unfold ask_recognition. by destruct (recognitionIntegration _ _ _). Qed.
Lemma quiet_pack q now r : keeps quiet (evaluatePolicyPackForRequest cfg q now r).
Proof. intros rt. unfold evaluatePolicyPackForRequest. by destruct (policyPackIntegration cfg). Qed.
Lemma quiet_emergency : keeps quiet emergency_active.
Proof. done. Qed.
Lemma quiet_markBlocked q id : keeps quiet (markBlocked cfg q id).
Proof. unfold markBlocked. kept. Qed.
Lemma quiet_markEffectExecuted q id : keeps quiet (markEffectExecuted cfg q id).
Proof. unfold markEffectExecuted. kept. Qed.
Lemma quiet_markEffectFailed id : keeps quiet (markEffectFailed cfg id).
Proof. unfold markEffectFailed. kept. Qed.
Lemma quiet_markEffectSkipped id : keeps quiet (markEffectSkipped id).
Proof. unfold markEffectSkipped. kept. Qed.
End Frames.
#[export] Hint Resolve quiet_now quiet_nextId quiet_get quiet_get_records quiet_recordEvent quiet_updateRequestStatus quiet_replace quiet_effect quiet_createRequest
  quiet_createDecision quiet_save_result quiet_service_createProof quiet_conclude quiet_outcome quiet_recognition quiet_pack quiet_emergency quiet_markBlocked
  quiet_markEffectExecuted quiet_markEffectFailed quiet_markEffectSkipped : enforcement.
#[export] Hint Extern 2 (keeps quiet (modify_store _)) => (apply quiet_modify; done) : enforcement.

(** ** Preflight *)

(** What the idempotency service answers, and the records it leaves. *)
Definition idempotency_answer (cfg : EnforcementConfiguration) (records : JsMap IdempotencyRecord) (key : option string) : IdempotencyOutcome :=
  match key ≫= λ k, map_get k records with
  | None => id_new
  | Some r => if bool_decide (ir_status r = ids_failed) && allowRetryAfterFailure cfg then id_duplicate_retry else id_duplicate_success
  end.

Section Preflight.
Context `{JsHost} (cfg : EnforcementConfiguration).
Implicit Types (rt : ActionEnforcementRuntime) (q : EnforcementRequest).

Lemma check_exact key id rt : ∃ r rt', check cfg key id rt = (Ok r, rt') ∧ ic_outcome r = idempotency_answer cfg (rt_records rt) key ∧ ic_idempotencyKey r = key ∧ grows rt rt' ∧
  (∀ k, key = Some k → is_Some (map_get k (rt_records rt'))) ∧ rt_emergencyDeny rt' = rt_emergencyDeny rt ∧ rt_store rt' = rt_store rt.
Proof.
  unfold check, idempotency_answer. destruct key as [k|]; cbn [mbind option_bind].
  2: { eexists _, rt. split_and!; try done. }
  unfold get_records, mbind, M_bind. destruct (map_get k (rt_records rt)) as [r|] eqn:Ek.
  - exists match ir_status r with
      | ids_succeeded => {| ic_outcome := id_duplicate_success; ic_idempotencyKey := Some k; ic_priorExecutionResultId := ir_executionResultId r |}
      | ids_failed => {| ic_outcome := if allowRetryAfterFailure cfg then id_duplicate_retry else id_duplicate_success; ic_idempotencyKey := Some k; ic_priorExecutionResultId := None |}
      | ids_pending => {| ic_outcome := id_duplicate_success; ic_idempotencyKey := Some k; ic_priorExecutionResultId := None |} end, rt.
    split_and!; [done|by destruct (ir_status r)|by destruct (ir_status r)|done|intros ? [= <-]; rewrite Ek; by exists r|done|done].
  - eexists _, _. split; [reflexivity|]. cbn. split_and!; [done|done| |intros ? [= <-]; rewrite map_get_set_eq; by eexists|done|done].
    intros k'. cbn. destruct (decide (k = k')) as [<-|Hne]; [right; by rewrite map_get_set_eq|left; by rewrite map_get_set_ne].
Qed.
Lemma grows_check key id : keeps grows (check cfg key id).
Proof. intros rt. destruct (check_exact key id rt) as (r&rt'&E&_&_&Hg&_). by rewrite E. Qed.

(** What the policies are shown of a request. *)
Record shown rt q (c : EnforcementPolicyContext) : Prop := {
  sh_request : cx_request c = q;
  sh_recognition : ∃ n, recognitionIntegration cfg n (verification_input q (cx_now c)) = RecognitionResult (cx_recognitionResult c);
  sh_mapped : cx_mapped c = mapRecognitionResult (cx_recognitionResult c);
  sh_adapter : cx_adapter c = tg_adapterId (er_target q) ≫= λ id, map_get id (adapters (rt_store rt));
  sh_emergency : cx_emergencyDeny c = rt_emergencyDeny rt;
  sh_idempotency : ic_outcome (cx_idempotency c) = idempotency_answer cfg (rt_records rt) (er_idempotencyKey q);
  sh_pack : let i := buildEvaluationInput q (cx_now c) (cx_recognitionResult c) in
    match policyPackIntegration cfg with None => cx_policyPackResult c = NOT_CONFIGURED_RESULT | Some f => ∃ n, cx_policyPackResult c = pack_result i (f n i) end;
}.

Lemma gather_Ok q rt c rt' : gather cfg q rt = (Ok c, rt') →
  shown rt q c ∧ grows rt rt' ∧ (∀ k, er_idempotencyKey q = Some k → is_Some (map_get k (rt_records rt'))).
Proof.
  unfold gather. intros (now&rt1&En&(u&rt2&Ee&(r&rt3&Er&(s&rt4&Es&(i&rt5&Ei&(p&rt6&Ep&(b&rt7&Eb&E)%bind_Ok)%bind_Ok)%bind_Ok)%bind_Ok)%bind_Ok)%bind_Ok)%bind_Ok.
  assert (quiet rt rt3) as Hq.
  { transitivity rt1; [by eapply keeps_run; [|exact En]; kept|]. transitivity rt2; [by eapply keeps_run; [|exact Ee]; kept|]. by eapply keeps_run; [|exact Er]; kept. }
  injection Es as <- <-. destruct (check_exact (er_idempotencyKey q) (er_id q) rt3) as (i'&rt5'&Ei'&Ho&_&Hg&Hk&Hem&Hst). rewrite Ei in Ei'. injection Ei' as <- <-.
  assert (quiet rt5 rt6) as Hqp by (by eapply keeps_run; [|exact Ep]; kept). injection Eb as <- <-. injection E as <- <-. destruct Hq as (Q1&Q2&Q3), Hqp as (P1&P2&P3). cbn in P1, P2, P3.
  split_and!.
  - split; cbn; [done| |done| | | |].
    + revert Er. unfold ask_recognition. destruct (recognitionIntegration cfg (rt_calls rt2) _) eqn:Ea; [done|]. intros [= <- _]. by eexists.
    + by rewrite Q3.
    + by rewrite P2, Hem, Q2.
    + by rewrite Ho, Q1.
    + revert Ep. unfold evaluatePolicyPackForRequest. destruct (policyPackIntegration cfg); intros [= <- _]; [by eexists|done].
  - intros k. rewrite P1, <-Q1. apply Hg.
  - intros k Hkey. rewrite P1. by apply Hk.
Qed.
Lemma gather_Throw q rt e rt' : gather cfg q rt = (Throw e, rt') → quiet rt rt' ∧ ∃ n now message, recognitionIntegration cfg n (verification_input q now) = RecognitionThrew message ∧ e = recognition_failed message.
Proof.
  unfold gather. intros [E|(now&rt1&En&E)]%bind_Throw; [done|]. apply bind_Throw in E as [E|(u&rt2&Ee&E)]; [done|].
  assert (quiet rt rt2) as Hq.
  { transitivity rt1; [by eapply keeps_run; [|exact En]; kept|]. by eapply keeps_run; [|exact Ee]; kept. }
  apply bind_Throw in E as [E|(r&rt3&Er&E)].
  - assert (quiet rt2 rt') as Hn by (by eapply keeps_run; [|exact E]; kept). split; [by transitivity rt2|].
    revert E. unfold ask_recognition. destruct (recognitionIntegration cfg (rt_calls rt2) _) eqn:Ea; [|done]. intros [= <- _]. by eexists _, _, _.
  - apply bind_Throw in E as [E|(s&rt4&Es&E)]; [done|]. apply bind_Throw in E as [E|(i&rt5&Ei&E)].
    { destruct (check_exact (er_idempotencyKey q) (er_id q) rt4) as (?&?&Ec&_). by rewrite E in Ec. }
    apply bind_Throw in E as [E|(p&rt6&Ep&E)]; [revert E; unfold evaluatePolicyPackForRequest; by destruct (policyPackIntegration cfg)|]. by apply bind_Throw in E as [E|(?&?&?&E)].
Qed.
Lemma keeps_conclude q rt c rt' d rt1 : gather cfg q rt = (Ok c, rt1) → conclude cfg c rt1 = (Ok d, rt') → quiet rt1 rt'.
Proof. intros _ E. by eapply keeps_run; [|exact E]; kept. Qed.
Lemma conclude_Ok c rt d rt' : conclude cfg c rt = (Ok d, rt') →
  ∃ pack id at_, d = build_decision (cx_request c) (evaluatePolicies (cfg_policies cfg) c) (cx_recognitionResult c) pack id at_.
Proof.
  unfold conclude. intros (d'&rt1&Ed&(u&rt2&_&E)%bind_Ok)%bind_Ok.
  assert (d' = d) as ->.
  { destruct (de_allowedToExecute d'); [apply bind_Ok in E as (?&?&_&(?&?&_&E)%bind_Ok)|apply bind_Ok in E as (?&?&_&(?&?&_&(?&?&_&E)%bind_Ok)%bind_Ok)]; by injection E as <- _. }
  revert Ed. unfold createDecision. intros (id&rta&_&(at_&rtb&_&(?&?&_&E')%bind_Ok)%bind_Ok)%bind_Ok. injection E' as <- _. by eexists _, _, _.
Qed.
Lemma answers_now : answers (now_ cfg).
Proof. intros rt. do 2 eexists. reflexivity. Qed.
Lemma answers_nextId p : answers (nextId cfg p).
Proof. intros rt. do 2 eexists. reflexivity. Qed.
Lemma answers_get : answers get_store.
Proof. intros rt. do 2 eexists. reflexivity. Qed.
Lemma answers_get_records : answers get_records.
Proof. intros rt. do 2 eexists. reflexivity. Qed.
Lemma answers_save_record k r : answers (save_record k r).
Proof. intros rt. do 2 eexists. reflexivity. Qed.
Lemma answers_modify f : answers (modify_store f).
Proof. intros rt. do 2 eexists. reflexivity. Qed.
Lemma answers_check key id : answers (check cfg key id).
Proof. intros rt. destruct (check_exact key id rt) as (r&rt'&E&_). rewrite E. do 2 eexists. reflexivity. Qed.
#[local] Hint Resolve answers_now answers_nextId answers_get answers_get_records answers_save_record answers_modify answers_check : enforcement.
Lemma answers_recordEvent i : answers (recordEvent cfg i).
Proof. unfold recordEvent, saveEvent. kept. Qed.
Lemma answers_updateRequestStatus id st : answers (updateRequestStatus id st).
Proof. unfold updateRequestStatus. kept. Qed.
Lemma answers_effect id st a b : answers (updateSideEffectStatus id st a b).
Proof. unfold updateSideEffectStatus. kept. Qed.
Lemma answers_replace id l : answers (replaceRequestSideEffects id l).
Proof. unfold replaceRequestSideEffects. kept. Qed.
#[local] Hint Resolve answers_recordEvent answers_updateRequestStatus answers_effect answers_replace : enforcement.
Lemma answers_conclude c : answers (conclude cfg c).
Proof. unfold conclude, createDecision, saveDecision, record_pack, record_violation, saveViolation. kept. Qed.
Lemma answers_settle key st r : answers (settle_record cfg key st r).
Proof. unfold settle_record. kept. Qed.
Lemma answers_create i : answers (createEnforcementRequest cfg i).
Proof. unfold createEnforcementRequest, planSideEffect, saveRequest, saveSideEffect. kept. Qed.

(** A preflight answers the decision of the policies on what they are shown,
    or the recognition provider threw. *)
Lemma preflight_Ok q rt d rt' : preflight cfg q rt = (Ok d, rt') →
  ∃ c, shown rt q c ∧ de_type d = ev_decisionType (evaluatePolicies (cfg_policies cfg) c) ∧ de_allowedToExecute d = bool_decide (de_type d = execute_allowed) ∧ grows rt rt' ∧
    (∀ k, er_idempotencyKey q = Some k → is_Some (map_get k (rt_records rt'))).
Proof.
  unfold preflight. intros (c&rt1&Eg&Ec)%bind_Ok. destruct (gather_Ok _ _ _ _ Eg) as (Hs&Hg&Hk). destruct (keeps_conclude _ _ _ _ _ _ Eg Ec) as (Q1&_&_).
  apply conclude_Ok in Ec as (pack&id&at_&->). exists c. split_and!; [done|done| | |].
  - cbn. unfold isExecutable, EXECUTABLE_DECISION_TYPES. apply bool_decide_ext. rewrite elem_of_cons. split; [intros [?|[]%not_elem_of_nil]; done|by left].
  - intros k. rewrite Q1. apply Hg.
  - intros k Hkey. rewrite Q1. by apply Hk.
Qed.
Lemma preflight_Throw q rt e rt' : preflight cfg q rt = (Throw e, rt') →
  quiet rt rt' ∧ ∃ n now message, recognitionIntegration cfg n (verification_input q now) = RecognitionThrew message ∧ e = recognition_failed message.
Proof.
  unfold preflight. intros [E|(c&rt1&Eg&Ec)]%bind_Throw; [by eapply gather_Throw|]. destruct (answers_conclude c rt1) as (?&?&E). by rewrite Ec in E.
Qed.
End Preflight.
#[export] Hint Resolve answers_now answers_nextId answers_get answers_get_records answers_save_record answers_modify answers_check answers_recordEvent answers_updateRequestStatus
  answers_effect answers_replace answers_conclude answers_settle answers_create grows_check : enforcement.

(** ** Results and proofs *)

(** *** What stores no result and no proof *)
Definition untouched (rt rt' : ActionEnforcementRuntime) : Prop :=
  execution_results (rt_store rt') = execution_results (rt_store rt) ∧ proofs (rt_store rt') = proofs (rt_store rt).
#[export] Instance untouched_preorder : PreOrder untouched.
Proof. split; [by intros rt|]. intros x y z (E1&E2) (F1&F2). unfold untouched. by rewrite F1, F2. Qed.

Section Outcomes.
Context `{JsHost} (cfg : EnforcementConfiguration).
Implicit Types (rt : ActionEnforcementRuntime) (q : EnforcementRequest).

Lemma untouched_now : keeps untouched (now_ cfg).
Proof. done. Qed.
Lemma untouched_nextId p : keeps untouched (nextId cfg p).
Proof. done. Qed.
Lemma untouched_get : keeps untouched get_store.
Proof. done. Qed.
Lemma untouched_get_records : keeps untouched get_records.
Proof. done. Qed.
Lemma untouched_save_record k r : keeps untouched (save_record k r).
Proof. done. Qed.
Lemma untouched_modify f : (∀ s, execution_results (f s) = execution_results s ∧ proofs (f s) = proofs s) → keeps untouched (modify_store f).
Proof. intros Hf rt. apply Hf. Qed.
#[local] Hint Resolve untouched_now untouched_nextId untouched_get untouched_get_records untouched_save_record : enforcement.
#[local] Hint Extern 2 (keeps untouched (modify_store _)) => (apply untouched_modify; done) : enforcement.
Lemma untouched_recordEvent i : keeps untouched (recordEvent cfg i).
Proof. unfold recordEvent, saveEvent. kept. Qed.
#[local] Hint Resolve untouched_recordEvent : enforcement.
Lemma untouched_check key id : keeps untouched (check cfg key id).
Proof. unfold check, register. kept. Qed.
Lemma untouched_settle key st r : keeps untouched (settle_record cfg key st r).
Proof. unfold settle_record. kept. Qed.
Lemma untouched_updateRequestStatus id st : keeps untouched (updateRequestStatus id st).
Proof. unfold updateRequestStatus. kept. Qed.
Lemma untouched_replace id l : keeps untouched (replaceRequestSideEffects id l).
Proof. unfold replaceRequestSideEffects. kept. Qed.
Lemma untouched_effect id st a b : keeps untouched (updateSideEffectStatus id st a b).
Proof. unfold updateSideEffectStatus. kept. Qed.
#[local] Hint Resolve untouched_check untouched_settle untouched_updateRequestStatus untouched_replace untouched_effect : enforcement.
Lemma untouched_create i : keeps untouched (createEnforcementRequest cfg i).
Proof. unfold createEnforcementRequest, planSideEffect, saveRequest, saveSideEffect. kept. Qed.
Lemma untouched_conclude c : keeps untouched (conclude cfg c).
Proof. unfold conclude, createDecision, saveDecision, record_pack, record_violation, saveViolation. kept. Qed.
Lemma untouched_recognition i : keeps untouched (ask_recognition cfg i).
Proof. intros rt. unfold ask_recognition. by destruct (recognitionIntegration _ _ _). Qed.
Lemma untouched_pack q now r : keeps untouched (evaluatePolicyPackForRequest cfg q now r).
Proof. intros rt. unfold evaluatePolicyPackForRequest. by destruct (policyPackIntegration cfg). Qed.
Lemma untouched_emergency : keeps untouched emergency_active.
Proof. done. Qed.
#[local] Hint Resolve untouched_create untouched_conclude untouched_recognition untouched_pack untouched_emergency : enforcement.
Lemma untouched_preflight q : keeps untouched (preflight cfg q).
Proof. unfold preflight, gather. kept. Qed.

(** A saved result is on file. *)
Lemma save_result_Ok q d st v a b c e rt : ∃ r rt', save_result cfg q d st v a b c e rt = (Ok r, rt') ∧
  r = build_result q d st v a b c e (ids_nextId (cfg_ctx cfg) (rt_calls rt) "execution-result") ∧
  execution_results (rt_store rt') = map_set (xr_id r) r (execution_results (rt_store rt)) ∧ proofs (rt_store rt') = proofs (rt_store rt) ∧ quiet rt rt' ∧
  rt_calls rt' = S (rt_calls rt) ∧ events (rt_store rt') = events (rt_store rt).
Proof. exists (build_result q d st v a b c e (ids_nextId (cfg_ctx cfg) (rt_calls rt) "execution-result")). eexists. split; [cbv [save_result mbind M_bind nextId saveResult modify_store mret M_ret]; reflexivity|]. by split_and!. Qed.

(** What a proof says, and that it verifies. *)
Record vouches (d : EnforcementDecision) (r : ExecutionResult) (p : EnforcementProof) : Prop := {
  vo_verified : verifyProof p = true;
  vo_decision : pf_enforcementDecisionId p = de_id d;
  vo_allowed : pf_allowedToExecute p = de_allowedToExecute d;
  vo_result : pf_executionResultId p = Some (xr_id r);
  vo_executed : pf_executed p = xr_executed r;
}.
Lemma service_createProof_Ok q d r l rt : ∃ p rt', service_createProof cfg q d r l rt = (Ok p, rt') ∧ vouches d r p ∧ pf_idempotencyKey p = er_idempotencyKey q ∧
  execution_results (rt_store rt') = execution_results (rt_store rt) ∧ proofs (rt_store rt') = map_set (pf_id p) p (proofs (rt_store rt)) ∧
  pf_id p = ids_nextId (cfg_ctx cfg) (rt_calls rt) "enforcement-proof" ∧ pf_previousHash p = pf_proofHash <$> last (map_values (proofs (rt_store rt))) ∧
  rt_calls rt' = S (S (rt_calls rt)) ∧ events (rt_store rt') = events (rt_store rt).
Proof.
  eexists (build_proof q d r l _ _ _ _), _. split; [cbv [service_createProof mbind M_bind nextId now_ get_store saveProof modify_store mret M_ret]; reflexivity|]. split_and!; try done. split; try done. cbn. unfold verifyProof, proof_json. cbn. apply str_eqb_refl.
Qed.
Lemma outcome_Ok q d r l rt : is_Some (map_get (xr_id r) (execution_results (rt_store rt))) → ∃ o rt', outcome_of cfg q d r l rt = (Ok o, rt') ∧
  eo_decision o = d ∧ eo_result o = r ∧ vouches d r (eo_proof o) ∧
  execution_results (rt_store rt') = execution_results (rt_store rt) ∧ proofs (rt_store rt') = map_set (pf_id (eo_proof o)) (eo_proof o) (proofs (rt_store rt)).
Proof.
  intros Hr. unfold outcome_of. assert (answers (refreshRequestSideEffects q)) as Ha by (unfold refreshRequestSideEffects; kept). destruct (Ha rt) as (q'&rt1&E1).
  assert (untouched rt rt1) as [U1 U2] by (eapply keeps_run; [|exact E1]; unfold refreshRequestSideEffects; kept).
  destruct (service_createProof_Ok q' d r l rt1) as (p&rt2&E2&Hv&_&R2&P2&_).
  destruct (answers_recordEvent cfg (event_of enforcement_proof_created q' (Some (de_id d)) None (Some (pf_id p)) None None [("proofHash", JTxt (pf_proofHash p))]) rt2) as ([]&rt3&E3).
  assert (untouched rt2 rt3) as [U3 U4] by (eapply keeps_run; [|exact E3]; kept).
  exists {| eo_request := q'; eo_decision := d; eo_result := r; eo_proof := p |}, rt3. split.
  - apply bind_Ok. exists q', rt1. split; [done|]. apply bind_Ok. exists p, rt3. split; [|done]. unfold createProof. apply bind_Ok. exists p, rt2. split; [done|].
    apply bind_Ok. exists (), rt3. split; [done|]. apply bind_Ok. exists (rt_store rt3), rt3. split; [done|].
    rewrite U3, R2, U1, U4, P2, map_get_set_eq. by destruct Hr as [? ->].
  - cbn. by rewrite U3, U4, R2, P2, U1, U2.
Qed.

(** How a computation that ends with an outcome leaves the store. *)
Definition filed_outcome (o : EnforcementOutcome) rt : Prop :=
  map_get (xr_id (eo_result o)) (execution_results (rt_store rt)) = Some (eo_result o) ∧ map_get (pf_id (eo_proof o)) (proofs (rt_store rt)) = Some (eo_proof o).
Lemma outcome_filed q d r l rt : map_get (xr_id r) (execution_results (rt_store rt)) = Some r → ∃ o rt', outcome_of cfg q d r l rt = (Ok o, rt') ∧
  eo_decision o = d ∧ eo_result o = r ∧ vouches d r (eo_proof o) ∧ filed_outcome o rt' ∧ quiet rt rt'.
Proof.
  intros Hr. destruct (outcome_Ok q d r l rt) as (o&rt'&E&Ed&Er&Hv&R&P); [by eexists|]. exists o, rt'. split_and!; try done.
  - split; [by rewrite Er, R|by rewrite P, map_get_set_eq].
  - by eapply keeps_run; [apply quiet_outcome|exact E].
Qed.

(** A computation that only answers, followed by a saved result, followed by
    the outcome. *)
Lemma recorded {A} (m : M A) (save : A → M ExecutionResult) q d l rt :
  answers m → keeps grows m → (∀ a rt1, ∃ r rt2, save a rt1 = (Ok r, rt2) ∧ grows rt1 rt2 ∧ xr_executed r = false ∧ map_get (xr_id r) (execution_results (rt_store rt2)) = Some r) →
  ∃ o rt', (r ← m ≫= save; outcome_of cfg q d r l) rt = (Ok o, rt') ∧ eo_decision o = d ∧ xr_executed (eo_result o) = false ∧ vouches d (eo_result o) (eo_proof o) ∧
    filed_outcome o rt' ∧ grows rt rt'.
Proof.
  intros Ha Hg Hs. destruct (Ha rt) as (a&rt1&E1). destruct (Hs a rt1) as (r&rt2&E2&G2&Hf&Hr). destruct (outcome_filed q d r l rt2 Hr) as (o&rt3&E3&Ed&Er&Hv&Hfile&Hq).
  exists o, rt3. rewrite Er. split_and!; try done.
  - apply bind_Ok. exists r, rt2. split; [|done]. apply bind_Ok. by exists a, rt1.
  - transitivity rt1; [by eapply keeps_run; [|exact E1]|]. transitivity rt2; [done|]. by apply grows_of_quiet.
Qed.
Lemma save_result_filed q d st v a b c e rt : st ≠ executed → ∃ r rt', save_result cfg q d st v a b c e rt = (Ok r, rt') ∧ grows rt rt' ∧ xr_executed r = false ∧
  map_get (xr_id r) (execution_results (rt_store rt')) = Some r.
Proof.
  intros Hst. destruct (save_result_Ok q d st v a b c e rt) as (r&rt'&E&Hr&Hres&_&Hq&_). exists r, rt'. split_and!; [done|by apply grows_of_quiet| |by rewrite Hres, map_get_set_eq].
  rewrite Hr. cbn. by apply bool_decide_eq_false.
Qed.

Lemma bind_assoc {A B C} (m : M A) (f : A → M B) (g : B → M C) rt : ((m ≫= f) ≫= g) rt = (m ≫= (λ a, f a ≫= g)) rt.
Proof. unfold mbind, M_bind. by destruct (m rt) as [[a|e] rt']. Qed.

Lemma not_invoked_Ok q d l rt : ∃ o rt', not_invoked cfg q d l rt = (Ok o, rt') ∧ eo_decision o = d ∧ xr_executed (eo_result o) = false ∧ vouches d (eo_result o) (eo_proof o) ∧
  filed_outcome o rt' ∧ grows rt rt'.
Proof.
  assert (∀ (f : string → M unit) i save, (∀ x, answers (f x)) → (∀ x, keeps quiet (f x)) →
    (∀ rt1, ∃ r rt2, save rt1 = (Ok r, rt2) ∧ grows rt1 rt2 ∧ xr_executed r = false ∧ map_get (xr_id r) (execution_results (rt_store rt2)) = Some r) →
    ∃ o rt', (r ← (each f l;; recordEvent cfg i;; save); outcome_of cfg q d r l) rt = (Ok o, rt') ∧ eo_decision o = d ∧ xr_executed (eo_result o) = false ∧
      vouches d (eo_result o) (eo_proof o) ∧ filed_outcome o rt' ∧ grows rt rt') as Hrec.
  { intros f i save Hf Hq Hs.
    destruct (recorded (each f l;; recordEvent cfg i) (λ _, save) q d l rt) as (o&rt'&E&Hrest); [kept|apply quiet_grows; kept|done|].
    exists o, rt'. split; [|done]. rewrite <-E. unfold mbind, M_bind. by destruct (each f l rt) as [[[]|] ?]. }
  unfold not_invoked. case_bool_decide; [|case_bool_decide].
  - apply Hrec; [intros x; unfold markEffectSkipped; kept|intros; kept|]. intros rt1. by apply save_result_filed.
  - apply Hrec; [intros x; unfold markEffectSkipped; kept|intros; kept|]. intros rt1.
    destruct (check_exact cfg (er_idempotencyKey q) (er_id q) rt1) as (i&rt2&E&_&_&Hg&_).
    destruct (save_result_filed q d duplicate None None None None (ic_priorExecutionResultId i) rt2) as (r&rt3&E3&G3&Hf); [done|].
    exists r, rt3. split_and!; [|by transitivity rt2|apply Hf..]. apply bind_Ok. by exists i, rt2.
  - apply Hrec; [intros x; unfold markBlocked; kept|intros; kept|]. intros rt1. by apply save_result_filed.
Qed.
End Outcomes.

(** ** Guarded execution *)

Section Runs.
Context `{JsHost} (cfg : EnforcementConfiguration).
Implicit Types (rt : ActionEnforcementRuntime) (q : EnforcementRequest).

(** Either the decision is to execute, and the executor runs, or an outcome
    that says nothing was executed is on file. *)
Definition started q rt (out : Execution + EnforcementOutcome) rt' (c : EnforcementPolicyContext) : Prop :=
  match out with
  | inl x => ex_request x = q ∧ de_type (ex_decision x) = execute_allowed ∧ de_allowedToExecute (ex_decision x) = true ∧
      ev_decisionType (evaluatePolicies (cfg_policies cfg) c) = execute_allowed
  | inr o => de_type (eo_decision o) = ev_decisionType (evaluatePolicies (cfg_policies cfg) c) ∧ ev_decisionType (evaluatePolicies (cfg_policies cfg) c) ≠ execute_allowed ∧
      de_allowedToExecute (eo_decision o) = false ∧ xr_executed (eo_result o) = false ∧ vouches (eo_decision o) (eo_result o) (eo_proof o) ∧ filed_outcome o rt'
  end.
Lemma run_start_Ok q rt out rt' : run_start cfg q rt = (Ok out, rt') → ∃ c, shown cfg rt q c ∧ started q rt out rt' c ∧ grows rt rt' ∧
  (∀ k, er_idempotencyKey q = Some k → is_Some (map_get k (rt_records rt'))).
Proof.
  unfold run_start. intros (d&rt1&Ep&E)%bind_Ok. apply preflight_Ok in Ep as (c&Hs&Ht&Ha&Hg&Hk). exists c. rewrite Ht in Ha.
  assert (∀ rt', grows rt1 rt' → ∀ k, er_idempotencyKey q = Some k → is_Some (map_get k (rt_records rt'))) as Hlater.
  { intros rt2 Hg2 k Hkey. destruct (Hk k Hkey) as [r Hr]. exists r. by eapply grows_found. }
  destruct (de_allowedToExecute d) eqn:Ed; cbn in E; symmetry in Ha.
  - apply bool_decide_eq_true in Ha. apply bind_Ok in E as (u&rt2&E2&(at_&rt3&E3&(v&rt4&E4&E)%bind_Ok)%bind_Ok). injection E as <- <-.
    assert (quiet rt1 rt4) as Hq.
    { transitivity rt2; [by eapply keeps_run; [|exact E2]; kept|]. transitivity rt3; [by eapply keeps_run; [|exact E3]; kept|]. by eapply keeps_run; [|exact E4]; kept. }
    apply grows_of_quiet in Hq. split_and!; [done| |by transitivity rt1|by apply Hlater]. cbn. by rewrite Ht, Ha.
  - apply bool_decide_eq_false in Ha. apply bind_Ok in E as (o&rt2&E2&E). injection E as <- <-.
    destruct (not_invoked_Ok cfg q d (sd_id <$> er_sideEffects q) rt1) as (o'&rt2'&E2'&Eo&Hx&Hv&Hf&Hgr). rewrite E2 in E2'. injection E2' as <- <-.
    split_and!; [done| |by transitivity rt1|by apply Hlater]. cbn. rewrite Eo, Ht. by split_and!.
Qed.
Lemma run_start_Throw q rt e rt' : run_start cfg q rt = (Throw e, rt') →
  quiet rt rt' ∧ ∃ n now message, recognitionIntegration cfg n (verification_input q now) = RecognitionThrew message ∧ e = recognition_failed message.
Proof.
  unfold run_start. intros [E|(d&rt1&_&E)]%bind_Throw; [by apply preflight_Throw|]. exfalso. destruct (de_allowedToExecute d); cbn in E.
  - assert (answers (_ ← updateRequestStatus (er_id q) rq_executing; startedAt ← now_ cfg; recordEvent cfg (event_of execution_started q (Some (de_id d)) None None None None []);;
      mret (A:=Execution + EnforcementOutcome) (inl {| ex_request := q; ex_decision := d; ex_startedAt := startedAt; ex_effects := sd_id <$> er_sideEffects q |}))) as Ha by kept.
    destruct (Ha rt1) as (?&?&Ea). by rewrite E in Ea.
  - apply bind_Throw in E as [E|(?&?&_&E)]; [|done]. destruct (not_invoked_Ok cfg q d (sd_id <$> er_sideEffects q) rt1) as (?&?&Eo&_). by rewrite E in Eo.
Qed.

(** The record of a key after an execution, and the others untouched. *)
Definition settled (key : option string) (status : IdempotencyRecordStatus) rt rt' : Prop :=
  (∀ k, key = Some k → ir_status <$> map_get k (rt_records rt') = Some status) ∧ (∀ k, key ≠ Some k → map_get k (rt_records rt') = map_get k (rt_records rt)).
Lemma settle_Ok key st r rt : ∃ rt', settle_record cfg key st r rt = (Ok (), rt') ∧ settled key st rt rt' ∧ untouched rt rt'.
Proof.
  assert (∀ key st r rt', settle_record cfg key st r rt = (Ok (), rt') → untouched rt rt') as Hu by (intros key' st' r' rt' E; by eapply keeps_run; [apply untouched_settle|exact E]).
  unfold settle_record. destruct key as [k|]; [|exists rt; split_and!; [done|split; [intros ? [=]|done]|done]].
  destruct (answers_settle cfg (Some k) st r rt) as ([]&rt'&E). exists rt'. split; [exact E|]. split; [|by apply (Hu (Some k) st r)].
  revert E. unfold settle_record. intros (records&rt1&E1&(created&rt2&E2&(upd&rt3&E3&E)%bind_Ok)%bind_Ok)%bind_Ok. injection E1 as <- <-.
  assert (rt_records rt3 = rt_records rt) as Hr.
  { injection E3 as _ <-. cbn. destruct (map_get k (rt_records rt)); by injection E2 as _ <-. }
  injection E as <-. split; cbn; rewrite Hr.
  - intros ? [= <-]. by rewrite map_get_set_eq.
  - intros k' Hk. apply map_get_set_ne. congruence.
Qed.

(** The executor settled: the result says how, it and its proof are on file,
    the record of the key is settled, and nothing throws. *)
Record finished (x : Execution) (a : ExecutorAnswer) rt (o : EnforcementOutcome) rt' : Prop := {
  fi_decision : eo_decision o = ex_decision x;
  fi_status : xr_status (eo_result o) = match a with Returned _ => executed | Raised _ => failed end;
  fi_executed : xr_executed (eo_result o) = match a with Returned _ => true | Raised _ => false end;
  fi_value : xr_value (eo_result o) = match a with Returned v => Some v | Raised _ => None end;
  fi_error : xr_errorMessage (eo_result o) = match a with Returned _ => None | Raised m => Some m end;
  fi_vouches : vouches (ex_decision x) (eo_result o) (eo_proof o);
  fi_filed : filed_outcome o rt';
  fi_records : settled (er_idempotencyKey (ex_request x)) (match a with Returned _ => ids_succeeded | Raised _ => ids_failed end) rt rt';
}.

(** What both ways of finishing do, around the saved result. *)
Definition finish_with (x : Execution) (f : string → M unit) (save : string → M ExecutionResult) (rec : ExecutionResult → M unit) (st : EnforcementRequestStatus)
    (ev : ExecutionResult → RecordEnforcementEventInput) : M EnforcementOutcome :=
  completedAt ← now_ cfg; each f (ex_effects x);; r ← save completedAt; rec r;; _ ← updateRequestStatus (er_id (ex_request x)) st; recordEvent cfg (ev r);;
  outcome_of cfg (ex_request x) (ex_decision x) r (ex_effects x).
Lemma finish_with_Ok x f st v e status resid reqst ev rt :
  (∀ id, answers (f id)) → (∀ id, keeps quiet (f id)) →
  ∃ o rt' completedAt id, finish_with x f (λ at_, save_result cfg (ex_request x) (ex_decision x) st v e (Some (ex_startedAt x)) (Some at_) None)
      (λ r, settle_record cfg (er_idempotencyKey (ex_request x)) status (resid r)) reqst ev rt = (Ok o, rt') ∧
    eo_decision o = ex_decision x ∧ eo_result o = build_result (ex_request x) (ex_decision x) st v e (Some (ex_startedAt x)) (Some completedAt) None id ∧
    vouches (ex_decision x) (eo_result o) (eo_proof o) ∧ filed_outcome o rt' ∧ settled (er_idempotencyKey (ex_request x)) status rt rt'.
Proof.
  intros Ha Hq. unfold finish_with. destruct (answers_now cfg rt) as (at_&rt1&E1). assert (answers (each f (ex_effects x))) as Hae by kept. destruct (Hae rt1) as ([]&rt2&E2).
  destruct (save_result_Ok cfg (ex_request x) (ex_decision x) st v e (Some (ex_startedAt x)) (Some at_) None rt2) as (r&rt3&E3&Er&Hres&_&Hq3&_).
  destruct (settle_Ok (er_idempotencyKey (ex_request x)) status (resid r) rt3) as (rt4&E4&[S1 S2]&[U4 _]).
  destruct (answers_updateRequestStatus (er_id (ex_request x)) reqst rt4) as (u&rt5&E5). destruct (answers_recordEvent cfg (ev r) rt5) as ([]&rt6&E6).
  assert (untouched rt4 rt6) as [U6 _].
  { transitivity rt5; [by eapply keeps_run; [apply untouched_updateRequestStatus|exact E5]|by eapply keeps_run; [apply untouched_recordEvent|exact E6]]. }
  destruct (outcome_filed cfg (ex_request x) (ex_decision x) r (ex_effects x) rt6) as (o&rt7&E7&Ed&Eo&Hv&Hf&Hq7); [by rewrite U6, U4, Hres, map_get_set_eq|].
  assert (quiet rt rt3) as (Q1&_&_).
  { transitivity rt1; [by eapply keeps_run; [|exact E1]; kept|]. transitivity rt2; [by eapply keeps_run; [|exact E2]; kept|done]. }
  assert (quiet rt4 rt7) as (Q2&_&_).
  { transitivity rt5; [by eapply keeps_run; [|exact E5]; kept|]. transitivity rt6; [by eapply keeps_run; [|exact E6]; kept|done]. }
  exists o, rt7, at_. eexists. split_and!; [|done|rewrite Eo; exact Er|by rewrite Eo|done|].
  - repeat (apply bind_Ok; do 2 eexists; split; [eassumption|]). exact E7.
  - split; intros k Hk; rewrite Q2; [by apply S1|]. by rewrite S2, Q1.
Qed.
Lemma run_finish_Ok x a rt : ∃ o rt', run_finish cfg x a rt = (Ok o, rt') ∧ finished x a rt o rt'.
Proof.
  destruct a as [v|m]; unfold run_finish.
  - destruct (finish_with_Ok x (markEffectExecuted cfg (ex_request x)) executed (Some v) None ids_succeeded (λ r, Some (xr_id r)) rq_executed
      (λ r, event_of execution_succeeded (ex_request x) (Some (de_id (ex_decision x))) (Some (xr_id r)) None None None []) rt) as (o&rt'&at_&id&E&Ed&Er&Hv&Hf&Hs);
      [intros; unfold markEffectExecuted; kept|intros; kept|].
    exists o, rt'. change (finish_success cfg x v rt = (Ok o, rt')) in E. rewrite E. split; [done|]. split; try by rewrite Er. all: auto.
  - destruct (finish_with_Ok x (markEffectFailed cfg) failed None (Some m) ids_failed (λ _, None) rq_failed
      (λ r, event_of execution_failed (ex_request x) (Some (de_id (ex_decision x))) (Some (xr_id r)) None None None [("errorMessage", JTxt m)]) rt) as (o&rt'&at_&id&E&Ed&Er&Hv&Hf&Hs);
      [intros; unfold markEffectFailed; kept|intros; kept|].
    exists o, rt'. change (finish_failure cfg x m rt = (Ok o, rt')) in E. rewrite E. split; [done|]. split; try by rewrite Er. all: auto.
Qed.
End Runs.

(** ** Evidence *)

Definition event_payload_of (e : EnforcementEvent) : Json := event_json (ee_input e) (ee_timestamp e) (ee_previousHash e).
Definition proof_payload_of (p : EnforcementProof) : Json := proof_json p (pf_previousHash p).

Section Evidence.
Context `{JsHost} (cfg : EnforcementConfiguration).
Implicit Types (rt : ActionEnforcementRuntime) (q : EnforcementRequest).

(** The id generator never repeats itself. *)
Definition ids_unique : Prop := ∀ n m p p', ids_nextId (cfg_ctx cfg) n p = ids_nextId (cfg_ctx cfg) m p' → n = m.
Definition issued rt (id : string) : Prop := ∃ n p, (n < rt_calls rt)%nat ∧ id = ids_nextId (cfg_ctx cfg) n p.
Record sound_logs rt : Prop := {
  so_results : filed xr_id (execution_results (rt_store rt));
  so_result_ids : Forall (issued rt) (map_keys (execution_results (rt_store rt)));
  so_proofs : filed pf_id (proofs (rt_store rt));
  so_proof_ids : Forall (issued rt) (map_keys (proofs (rt_store rt)));
  so_proof_chain : linked proof_payload_of pf_previousHash pf_proofHash (map_values (proofs (rt_store rt)));
  so_event_chain : linked event_payload_of ee_previousHash ee_eventHash (events (rt_store rt));
}.
(** Sound logs stay sound, and only grow at their end. *)
Definition extends rt rt' : Prop := (rt_calls rt ≤ rt_calls rt')%nat ∧ (sound_logs rt → sound_logs rt' ∧
  execution_results (rt_store rt) `prefix_of` execution_results (rt_store rt') ∧ proofs (rt_store rt) `prefix_of` proofs (rt_store rt') ∧
  events (rt_store rt) `prefix_of` events (rt_store rt')).
#[local] Instance extends_preorder : PreOrder extends.
Proof.
  split; [by intros rt; split_and!|]. intros x y z (L1&E1) (L2&E2). split; [lia|]. intros (Sy&R1&P1&V1)%E1. destruct (E2 Sy) as (Sz&R2&P2&V2).
  split_and!; [done|by etrans..].
Qed.
Lemma issued_later rt rt' id : (rt_calls rt ≤ rt_calls rt')%nat → issued rt id → issued rt' id.
Proof. intros Hle (n&p&Hn&->). exists n, p. split; [lia|done]. Qed.
Lemma extends_same rt rt' : (rt_calls rt ≤ rt_calls rt')%nat → execution_results (rt_store rt') = execution_results (rt_store rt) → proofs (rt_store rt') = proofs (rt_store rt) →
  events (rt_store rt') = events (rt_store rt) → extends rt rt'.
Proof.
  intros Hle R P V. split; [done|]. intros [A1 A2 A3 A4 A5 A6]. rewrite R, P, V. split_and!; try done. split; rewrite ?R, ?P, ?V; try done; (eapply Forall_impl; [done|intros; by eapply issued_later]).
Qed.
Lemma extends_now : keeps extends (now_ cfg).
Proof. intros rt. apply extends_same; cbn; [lia|done..]. Qed.
Lemma extends_nextId p : keeps extends (nextId cfg p).
Proof. intros rt. apply extends_same; cbn; [lia|done..]. Qed.
Lemma extends_get : keeps extends get_store.
Proof. intros rt. by apply extends_same. Qed.
Lemma extends_get_records : keeps extends get_records.
Proof. intros rt. by apply extends_same. Qed.
Lemma extends_emergency : keeps extends emergency_active.
Proof. intros rt. by apply extends_same. Qed.
Lemma extends_save_record k r : keeps extends (save_record k r).
Proof. intros rt. by apply extends_same. Qed.
Lemma extends_modify f : (∀ s, execution_results (f s) = execution_results s ∧ proofs (f s) = proofs s ∧ events (f s) = events s) → keeps extends (modify_store f).
Proof. intros Hf rt. destruct (Hf (rt_store rt)) as (E1&E2&E3). by apply extends_same. Qed.
Lemma extends_recognition i : keeps extends (ask_recognition cfg i).
Proof. intros rt. unfold ask_recognition. destruct (recognitionIntegration _ _ _); apply extends_same; cbn; lia || done. Qed.
Lemma extends_pack q now r : keeps extends (evaluatePolicyPackForRequest cfg q now r).
Proof. intros rt. unfold evaluatePolicyPackForRequest. destruct (policyPackIntegration cfg); apply extends_same; cbn; lia || done. Qed.

Lemma extends_recordEvent i : keeps extends (recordEvent cfg i).
Proof.
  intros rt. cbv [recordEvent saveEvent mbind M_bind now_ get_store nextId modify_store snd]. split; [cbn; lia|]. intros [A1 A2 A3 A4 A5 A6]. cbn. split_and!; try done; [|by apply prefix_app_r].
  split; cbn; try done; [eapply Forall_impl; [done|]; intros; by eapply issued_later; [|done]; cbn; lia..|].
  apply linked_snoc. split_and!; [done|done|done].
Qed.

Context (Hids : ids_unique).
Lemma fresh_key {V} rt p (m : JsMap V) : Forall (issued rt) (map_keys m) → map_get (ids_nextId (cfg_ctx cfg) (rt_calls rt) p) m = None.
Proof. intros Hall. apply map_get_None. intros (n&p'&Hn&E)%(proj1 (Forall_forall _ _) Hall). apply Hids in E. lia. Qed.
Lemma extends_save_result q d st v a b c e : keeps extends (save_result cfg q d st v a b c e).
Proof.
  intros rt. cbv [save_result saveResult mbind M_bind nextId modify_store mret M_ret snd]. split; [cbn; lia|]. intros [A1 A2 A3 A4 A5 A6]. cbn. split_and!; try done; [|rewrite map_set_fresh by (by apply fresh_key); by apply prefix_app_r].
  assert (∀ l, Forall (issued rt) l → ∀ rt', (rt_calls rt' = S (rt_calls rt))%nat → Forall (issued rt') l) as Hl.
  { intros l Hall rt' Hc. eapply Forall_impl; [done|]. intros. eapply issued_later; [|done]. lia. }
  split; cbn; try done; [|rewrite map_set_fresh by (by apply fresh_key)|by apply Hl].
  - by apply (filed_set xr_id (build_result q d st v a b c e (ids_nextId (cfg_ctx cfg) (rt_calls rt) "execution-result"))).
  - unfold map_keys. rewrite fmap_app. apply Forall_app. split; [by apply Hl|]. constructor; [|constructor]. exists (rt_calls rt), "execution-result". split; [cbn; lia|done].
Qed.
Lemma extends_service_createProof q d r l : keeps extends (service_createProof cfg q d r l).
Proof.
  intros rt. cbv [service_createProof saveProof mbind M_bind nextId now_ get_store modify_store mret M_ret snd]. split; [cbn; lia|]. intros [A1 A2 A3 A4 A5 A6]. cbn.
  assert (∀ l, Forall (issued rt) l → ∀ rt', (rt_calls rt' = S (S (rt_calls rt)))%nat → Forall (issued rt') l) as Hl.
  { intros k Hall rt' Hc. eapply Forall_impl; [done|]. intros. eapply issued_later; [|done]. lia. }
  split_and!; try done; [|rewrite map_set_fresh by (by apply fresh_key); by apply prefix_app_r]. split; cbn; try done; [by apply Hl| | |].
  - match goal with |- filed _ (map_set _ ?p _) => by apply (filed_set pf_id p) end.
  - rewrite map_set_fresh by by apply fresh_key. unfold map_keys. rewrite fmap_app. apply Forall_app. split; [by apply Hl|]. constructor; [|constructor].
    exists (rt_calls rt), "enforcement-proof". split; [cbn; lia|done].
  - rewrite map_set_fresh by by apply fresh_key. unfold map_values. rewrite fmap_app. apply linked_snoc. by split_and!.
Qed.
#[local] Hint Resolve extends_now extends_nextId extends_get extends_get_records extends_emergency extends_save_record extends_recognition extends_pack extends_recordEvent
  extends_save_result extends_service_createProof : enforcement.
#[local] Hint Extern 2 (keeps extends (modify_store _)) => (apply extends_modify; done) : enforcement.
Lemma extends_updateRequestStatus id st : keeps extends (updateRequestStatus id st).
Proof. unfold updateRequestStatus. kept. Qed.
Lemma extends_replace id l : keeps extends (replaceRequestSideEffects id l).
Proof. unfold replaceRequestSideEffects. kept. Qed.
Lemma extends_effect id st a b : keeps extends (updateSideEffectStatus id st a b).
Proof. unfold updateSideEffectStatus. kept. Qed.
Lemma extends_check key id : keeps extends (check cfg key id).
Proof. unfold check, register. kept. Qed.
Lemma extends_settle key st r : keeps extends (settle_record cfg key st r).
Proof. unfold settle_record. kept. Qed.
#[local] Hint Resolve extends_updateRequestStatus extends_replace extends_effect extends_check extends_settle : enforcement.
Lemma extends_create i : keeps extends (createEnforcementRequest cfg i).
Proof. unfold createEnforcementRequest, planSideEffect, saveRequest, saveSideEffect. kept. Qed.
Lemma extends_conclude c : keeps extends (conclude cfg c).
Proof. unfold conclude, createDecision, saveDecision, record_pack, record_violation, saveViolation. kept. Qed.
#[local] Hint Resolve extends_create extends_conclude : enforcement.
Lemma extends_preflight q : keeps extends (preflight cfg q).
Proof. unfold preflight, gather. kept. Qed.
Lemma extends_outcome q d r l : keeps extends (outcome_of cfg q d r l).
Proof. unfold outcome_of, refreshRequestSideEffects, createProof. kept. Qed.
#[local] Hint Resolve extends_preflight extends_outcome : enforcement.
Lemma extends_run_start q : keeps extends (run_start cfg q).
Proof. unfold run_start, not_invoked, markEffectSkipped, markBlocked, markSkipped, markDuplicate, markNotExecuted. kept. Qed.
Lemma extends_run_finish x a : keeps extends (run_finish cfg x a).
Proof.
  assert (∀ m, keeps extends (finish_failure cfg x m)) as Hf by (intros m; unfold finish_failure, markEffectFailed, markFailed, recordFailure; kept).
  destruct a as [v|m]; [|apply Hf]. assert (keeps extends (finish_success cfg x v)) as Hs by (unfold finish_success, markEffectExecuted, markExecuted, recordSuccess; kept).
  intros rt. specialize (Hs rt). unfold run_finish. destruct (finish_success cfg x v rt) as [[o|e] rt']; [exact Hs|]. etransitivity; [exact Hs|]. apply Hf.
Qed.
End Evidence.

(** ** Calls that interleave *)

(** A call of a guard: its executor is running, or has settled; or it was
    never invoked; or recognition threw. *)
Inductive CallState := Running (x : Execution) | Settled (x : Execution) (a : ExecutorAnswer) (o : EnforcementOutcome) | Refused (o : EnforcementOutcome) | CallThrew (e : EnforcementThrow).
Record System := { sys_runtime : ActionEnforcementRuntime; sys_calls : list CallState }.
Definition invoked_with (k : string) (c : CallState) : bool :=
  match c with Running x | Settled x _ _ => bool_decide (er_idempotencyKey (ex_request x) = Some k) | _ => false end.
Definition running_with (k : string) (c : CallState) : bool := match c with Running x => bool_decide (er_idempotencyKey (ex_request x) = Some k) | _ => false end.
Definition succeeded_with (k : string) (c : CallState) : bool :=
  match c with Settled x (Returned _) _ => bool_decide (er_idempotencyKey (ex_request x) = Some k) | _ => false end.
Definition count (p : CallState → bool) (s : System) : nat := length (List.filter p (sys_calls s)).
Definition new_call (out : result EnforcementThrow (Execution + EnforcementOutcome)) : CallState :=
  match out with Ok (inl x) => Running x | Ok (inr o) => Refused o | Throw e => CallThrew e end.

Section System.
Context `{JsHost} (cfg : EnforcementConfiguration) (may_start : System → option string → Prop).

(** The steps: a guard is called, an executor settles, a preflight is made, an
    adapter is registered, the emergency switch is set, a request is expired or
    cancelled. *)
Inductive step : System → System → Prop :=
  | step_enforce s i t out rt' : may_start s (gi_idempotencyKey i) → verifyAndExecute cfg i t (sys_runtime s) = (out, rt') →
      step s {| sys_runtime := rt'; sys_calls := sys_calls s ++ [new_call out] |}
  | step_settle s l x a k o rt' : sys_calls s = l ++ Running x :: k → run_finish cfg x a (sys_runtime s) = (Ok o, rt') →
      step s {| sys_runtime := rt'; sys_calls := l ++ Settled x a o :: k |}
  | step_preflight s i : step s {| sys_runtime := (guard_preflight cfg i (sys_runtime s)).2; sys_calls := sys_calls s |}
  | step_adapter s a : step s {| sys_runtime := (registerAdapter a (sys_runtime s)).2; sys_calls := sys_calls s |}
  | step_emergency s b : step s {| sys_runtime := (setEmergencyDeny b (sys_runtime s)).2; sys_calls := sys_calls s |}
  | step_expire s id : step s {| sys_runtime := (expireEnforcementRequest id (sys_runtime s)).2; sys_calls := sys_calls s |}
  | step_cancel s id : step s {| sys_runtime := (cancelEnforcementRequest id (sys_runtime s)).2; sys_calls := sys_calls s |}.
Inductive reachable (emergencyDeny : bool) : System → Prop :=
  | reach_start : reachable emergencyDeny {| sys_runtime := createActionEnforcementRuntime emergencyDeny; sys_calls := [] |}
  | reach_step s s' : reachable emergencyDeny s → step s s' → reachable emergencyDeny s'.

(** The request a guard creates. *)
Lemma create_Ok i rt : ∃ id at_ e rt', createEnforcementRequest cfg i rt = (Ok (with_status (build_request i id at_) rq_submitted [e]), rt') ∧ quiet rt rt'.
Proof.
  destruct (answers_create cfg i rt) as (q&rt'&E). assert (quiet rt rt') as Hq by (by eapply keeps_run; [apply quiet_createRequest|exact E]).
  exists (ids_nextId (cfg_ctx cfg) (rt_calls rt) "enforcement-request"), (clock_now (cfg_ctx cfg) (S (rt_calls rt))). rewrite E.
  revert E. unfold createEnforcementRequest. intros (id&rt1&[= <- <-]&(at_&rt2&[= <- <-]&([]&rt3&[= <-]&(e&rt4&E4&(rep&rt5&E5&([]&rt6&_&E)%bind_Ok)%bind_Ok)%bind_Ok)%bind_Ok)%bind_Ok)%bind_Ok.
  injection E as <- _. exists e, rt'. split; [|done]. f_equal. f_equal.
  revert E4. unfold planSideEffect. intros (sid&rta&[= <- <-]&(pl&rtb&[= <- <-]&([]&rtc&[= <-]&([]&rtd&Ed&E4)%bind_Ok)%bind_Ok)%bind_Ok)%bind_Ok. injection E4 as <- <-.
  cbv [recordEvent mbind M_bind now_ get_store nextId saveEvent modify_store] in Ed. cbn in Ed. injection Ed as <-.
  revert E5. unfold replaceRequestSideEffects. intros (s&rte&[= <- <-]&E5)%bind_Ok. cbn in E5. rewrite map_get_set_eq in E5. apply bind_Ok in E5 as ([]&rtf&_&E5). by injection E5 as <- _.
Qed.
Lemma shown_quiet rt rt' q c : quiet rt rt' → shown cfg rt' q c → shown cfg rt q c.
Proof. intros (E1&E2&E3) [S1 S2 S3 S4 S5 S6 S7]. rewrite E3 in S4. rewrite E2 in S5. rewrite E1 in S6. by constructor. Qed.

(** Calling a guard. *)
Record called rt i t (out : result EnforcementThrow (Execution + EnforcementOutcome)) rt' q : Prop := {
  ca_request : ∃ id at_ e, q = with_status (build_request (request_input i (default mode_execute (gi_mode i)) t) id at_) rq_submitted [e];
  ca_outcome : match out with
    | Ok out => ∃ c, shown cfg rt q c ∧ started cfg q rt out rt' c
    | Throw e => ∃ n now message, recognitionIntegration cfg n (verification_input q now) = RecognitionThrew message ∧ e = recognition_failed message
    end;
  ca_grows : grows rt rt';
  ca_recorded : ∀ k out', out = Ok out' → er_idempotencyKey q = Some k → is_Some (map_get k (rt_records rt'));
}.
Lemma guard_called rt i t out rt' : verifyAndExecute cfg i t rt = (out, rt') → ∃ q, called rt i t out rt' q.
Proof.
  intros E. unfold verifyAndExecute, guard_buildRequest in E. destruct (create_Ok (request_input i (default mode_execute (gi_mode i)) t) rt) as (id&at_&e&rt1&E1&Hq).
  exists (with_status (build_request (request_input i (default mode_execute (gi_mode i)) t) id at_) rq_submitted [e]). unfold mbind, M_bind in E. rewrite E1 in E. destruct out as [out|err].
  - apply run_start_Ok in E as (c&Hs&Hst&Hg&Hk). split; [by eexists _, _, _|exists c; split; [by eapply shown_quiet|by destruct out]| |].
    + transitivity rt1; [by apply grows_of_quiet|done].
    + intros k ? _. apply Hk.
  - apply run_start_Throw in E as (Hq'&Hr). split; [by eexists _, _, _|done| |done]. apply grows_of_quiet. by transitivity rt1.
Qed.

(** Besides calls and settlements, records are only added. *)
Lemma preflight_grows i : keeps grows (guard_preflight cfg i).
Proof.
  apply keeps_then; [apply _|apply quiet_grows; unfold guard_buildRequest; kept|]. intros q rt. destruct (preflight cfg q rt) as [[d|e] rt'] eqn:E.
  - by apply preflight_Ok in E as (c&_&_&_&Hg&_).
  - by apply preflight_Throw in E as (Hq%grows_of_quiet&_).
Qed.
Lemma step_cases s s' : step s s' →
  (∃ i t out rt', may_start s (gi_idempotencyKey i) ∧ verifyAndExecute cfg i t (sys_runtime s) = (out, rt') ∧ s' = {| sys_runtime := rt'; sys_calls := sys_calls s ++ [new_call out] |}) ∨
  (∃ l x a k o rt', sys_calls s = l ++ Running x :: k ∧ run_finish cfg x a (sys_runtime s) = (Ok o, rt') ∧ s' = {| sys_runtime := rt'; sys_calls := l ++ Settled x a o :: k |}) ∨
  (sys_calls s' = sys_calls s ∧ grows (sys_runtime s) (sys_runtime s')).
Proof.
  intros Hstep. destruct Hstep as [s i t out rt' Hm E|s l x a k o rt' Hl E| | | |s id|s id]; [left|right; left|right; right..].
  - by exists i, t, out, rt'.
  - by exists l, x, a, k, o, rt'.
  - split; [done|]. apply preflight_grows.
  - by split; [|intros k; left].
  - by split; [|intros k; left].
  - split; [done|]. apply (quiet_grows (updateRequestStatus id rq_blocked)). kept.
  - split; [done|]. apply (quiet_grows (updateRequestStatus id rq_cancelled)). kept.
Qed.

(** The executor of a call runs only when its key has no record, or a failed
    one that may be retried. *)
Definition default_chain : Prop := cfg_policies cfg = createDefaultEnforcementPolicyChain.
Lemma gate_decides q rt out rt' c : default_chain → shown cfg rt q c → started cfg q rt out rt' c →
  match out with inl _ => cleared c ∧ er_mode q ≠ mode_dry_run | inr _ => ¬ (cleared c ∧ er_mode q ≠ mode_dry_run) end.
Proof.
  intros Hd Hs Hst. destruct (chain_exact c) as [Hx _]; [apply Hs|]. rewrite (sh_request _ _ _ _ Hs), <-Hd in Hx. destruct out; cbn in Hst.
  - apply Hx, Hst.
  - rewrite <-Hx. apply Hst.
Qed.
Lemma running_key rt i t x rt' : default_chain → verifyAndExecute cfg i t rt = (Ok (inl x), rt') →
  er_idempotencyKey (ex_request x) = gi_idempotencyKey i ∧ grows rt rt' ∧
  ∀ k, gi_idempotencyKey i = Some k → is_Some (map_get k (rt_records rt')) ∧
    (map_get k (rt_records rt) = None ∨ allowRetryAfterFailure cfg = true ∧ ir_status <$> map_get k (rt_records rt) = Some ids_failed).
Proof.
  intros Hd E. destruct (guard_called _ _ _ _ _ E) as (q&[(id&at_&e&Eq) (c&Hs&Hst) Hg Hk]). destruct (gate_decides _ _ _ _ _ Hd Hs Hst) as [Hc _].
  assert (er_idempotencyKey q = gi_idempotencyKey i) as Ekey by (by rewrite Eq). destruct Hst as (Ex&_). split_and!; [by rewrite Ex|done|].
  intros k Hkey. split; [eapply Hk; [done|by rewrite Ekey]|]. pose proof (cl_first _ Hc) as Hf. rewrite (sh_idempotency _ _ _ _ Hs), Ekey, Hkey in Hf.
  unfold idempotency_answer in Hf. cbn [mbind option_bind] in Hf. destruct (map_get k (rt_records rt)) as [r|]; [right|by left].
  case_bool_decide as Hr; [|done]. cbn in Hf. destruct (allowRetryAfterFailure cfg); [|done]. by rewrite <-Hr.
Qed.
Lemma call_grows rt i t out rt' : verifyAndExecute cfg i t rt = (out, rt') → grows rt rt'.
Proof. intros E. by destruct (guard_called _ _ _ _ _ E) as (q&[]). Qed.
End System.


(** *** Counting *)
Lemma count_call p rt l c : count p {| sys_runtime := rt; sys_calls := l ++ [c] |} = (length (List.filter p l) + if p c then 1 else 0)%nat.
Proof. unfold count. cbn. rewrite List.filter_app, length_app. cbn. by destruct (p c). Qed.
Lemma count_middle p rt l c k : count p {| sys_runtime := rt; sys_calls := l ++ c :: k |} = (length (List.filter p l) + (if p c then 1 else 0) + length (List.filter p k))%nat.
Proof. unfold count. cbn. rewrite List.filter_app, length_app. cbn. destruct (p c); cbn; lia. Qed.

Section Keys.
Context `{JsHost} (cfg : EnforcementConfiguration).

(** *** Keys that may not be retried *)
Definition recorded_once (k : string) (s : System) : Prop :=
  (count (invoked_with k) s ≤ 1)%nat ∧ ((0 < count (invoked_with k) s)%nat → is_Some (map_get k (rt_records (sys_runtime s)))).
Lemma recorded_grows k s rt' : recorded_once k s → grows (sys_runtime s) rt' → recorded_once k {| sys_runtime := rt'; sys_calls := sys_calls s |}.
Proof. intros [Hc Hr] Hg. split; [exact Hc|]. intros Hp. destruct (Hr Hp) as [r Er]. exists r. by eapply grows_found. Qed.
Lemma recorded_step may k s s' : default_chain cfg → allowRetryAfterFailure cfg = false → step cfg may s s' → recorded_once k s → recorded_once k s'.
Proof.
  intros Hd Hretry Hstep Hinv. apply step_cases in Hstep as [(i&t&out&rt'&_&E&->)|[(l&x&a&k'&o&rt'&El&E&->)|[Ec Hg]]].
  - pose proof (recorded_grows k s rt' Hinv (call_grows _ _ _ _ _ _ E)) as [Hc Hr]. unfold recorded_once. rewrite count_call. fold (count (invoked_with k) s). cbn [sys_runtime].
    destruct (invoked_with k (new_call out)) eqn:Hi; [|rewrite Nat.add_0_r; by split]. destruct out as [[x|o]|e]; cbn in Hi; try done. apply bool_decide_eq_true in Hi.
    destruct (running_key _ _ _ _ _ _ Hd E) as (Ek&_&Hkey). rewrite Ek in Hi. destruct (Hkey k Hi) as [Hs [Hn|[Hy _]]]; [|by rewrite Hretry in Hy].
    assert (count (invoked_with k) s = 0%nat) as Hz by (destruct Hinv as [_ Hrec]; destruct (count (invoked_with k) s); [done|]; destruct Hrec as [? Er]; [lia|by rewrite Hn in Er]).
    rewrite Hz. by split; [lia|].
  - destruct (run_finish_Ok cfg x a (sys_runtime s)) as (o'&rt''&E'&Hf). rewrite E in E'. injection E' as <- <-. destruct Hinv as [Hc Hr].
    unfold recorded_once. rewrite count_middle. unfold count in Hc, Hr. rewrite El, List.filter_app, length_app in Hc, Hr. cbn in *. destruct (fi_records _ _ _ _ _ Hf) as [S1 S2].
    split; [destruct (bool_decide _); cbn in *; lia|]. intros Hp. destruct (decide (er_idempotencyKey (ex_request x) = Some k)) as [Hk|Hk].
    + specialize (S1 k Hk). by destruct (map_get k (rt_records rt')).
    + rewrite S2 by done. apply Hr. rewrite bool_decide_false in * by done. cbn. lia.
  - destruct s' as [rt' cs]. cbn in *. subst cs. by apply recorded_grows.
Qed.

(** *** Keys whose retries do not overlap *)
Definition retries_alone (s : System) (key : option string) : Prop :=
  ∀ k, key = Some k → ir_status <$> map_get k (rt_records (sys_runtime s)) = Some ids_failed → count (running_with k) s = 0%nat.
Record in_turn (k : string) (s : System) : Prop := {
  it_one : (count (running_with k) s + count (succeeded_with k) s ≤ 1)%nat;
  it_running : (0 < count (running_with k) s)%nat → ∃ r, map_get k (rt_records (sys_runtime s)) = Some r ∧ ir_status r ≠ ids_succeeded;
  it_succeeded : (0 < count (succeeded_with k) s)%nat → ir_status <$> map_get k (rt_records (sys_runtime s)) = Some ids_succeeded;
}.
Lemma in_turn_grows k s rt' : in_turn k s → grows (sys_runtime s) rt' → in_turn k {| sys_runtime := rt'; sys_calls := sys_calls s |}.
Proof.
  intros [Ho Hr Hs] Hg. split; [exact Ho| |]; cbn.
  - intros (r&Er&Hst)%Hr. exists r. split; [by eapply grows_found|done].
  - intros Hp%Hs. destruct (map_get k (rt_records (sys_runtime s))) as [r|] eqn:Er; [|done]. by rewrite (grows_found _ _ k r Hg).
Qed.
Lemma in_turn_call k s i t out rt' : default_chain cfg → retries_alone s (gi_idempotencyKey i) → verifyAndExecute cfg i t (sys_runtime s) = (out, rt') → in_turn k s →
  in_turn k {| sys_runtime := rt'; sys_calls := sys_calls s ++ [new_call out] |}.
Proof.
  intros Hd Hal E Hinv. pose proof (in_turn_grows k s rt' Hinv (call_grows _ _ _ _ _ _ E)) as [Ho Hr Hs].
  assert (∀ rt l c, running_with k c = false → succeeded_with k c = false → in_turn k {| sys_runtime := rt; sys_calls := l |} → in_turn k {| sys_runtime := rt; sys_calls := l ++ [c] |}) as Hskip.
  { intros rt l c E1 E2 [? ? ?]. split; rewrite ?count_call, ?E1, ?E2, !Nat.add_0_r; done. }
  destruct out as [[x|o]|e]; [|by apply Hskip..]. destruct (running_key _ _ _ _ _ _ Hd E) as (Ek&Hg&Hkey).
  destruct (decide (gi_idempotencyKey i = Some k)) as [Hi|Hi]; [|apply Hskip; [cbn; rewrite Ek; by apply bool_decide_false|done|by split]].
  destruct (Hkey k Hi) as [[r Er] Hprior]. specialize (Hal k Hi).
  assert (count (running_with k) s = 0%nat ∧ count (succeeded_with k) s = 0%nat) as [Z1 Z2].
  { destruct Hinv as [_ Hr0 Hs0]. destruct Hprior as [Hn|[_ Hf]].
    - rewrite Hn in Hr0, Hs0. split; [destruct (count (running_with k) s); [done|]; destruct Hr0 as (?&?&_); [lia|done]|].
      destruct (count (succeeded_with k) s); [done|]. discriminate Hs0. lia.
    - split; [by apply Hal|]. rewrite Hf in Hs0. destruct (count (succeeded_with k) s); [done|]. discriminate Hs0. lia. }
  split; rewrite ?count_call; cbn [new_call running_with succeeded_with]; rewrite ?Ek, ?(bool_decide_true _ Hi); fold (count (running_with k) s) (count (succeeded_with k) s); rewrite ?Z1, ?Z2; [lia| |lia].
  intros _. cbn. exists r. split; [done|]. intros Hst. destruct Hprior as [Hn|[_ Hf]].
  - destruct (Hg k) as [Eg|[_ Hp]]; [by rewrite Eg, Hn in Er|]. rewrite Er in Hp. cbn in Hp. congruence.
  - destruct (map_get k (rt_records (sys_runtime s))) as [r0|] eqn:E0; [|done]. rewrite (grows_found _ _ k r0 Hg E0) in Er. injection Er as <-. cbn in Hf. congruence.
Qed.
Lemma in_turn_settle k s l x a k' o rt' : sys_calls s = l ++ Running x :: k' → run_finish cfg x a (sys_runtime s) = (Ok o, rt') → in_turn k s →
  in_turn k {| sys_runtime := rt'; sys_calls := l ++ Settled x a o :: k' |}.
Proof.
  intros El E [Ho Hr Hs]. destruct (run_finish_Ok cfg x a (sys_runtime s)) as (o'&rt''&E'&Hf). rewrite E in E'. injection E' as <- <-. destruct (fi_records _ _ _ _ _ Hf) as [S1 S2].
  destruct s as [rt cs]. cbn in El. subst cs. rewrite !count_middle in Ho. rewrite count_middle in Hr, Hs. cbn in Ho, Hr, Hs.
  destruct (decide (er_idempotencyKey (ex_request x) = Some k)) as [Hk|Hk].
  - rewrite (bool_decide_true _ Hk) in *. specialize (S1 k Hk). destruct a; split; rewrite ?count_middle; cbn in *; rewrite ?(bool_decide_true _ Hk); first [lia|done|intros; exfalso; lia].
  - rewrite (bool_decide_false _ Hk) in *. destruct a; split; rewrite ?count_middle; cbn in *; rewrite ?(bool_decide_false _ Hk), ?S2 by done; cbn; try lia; intros Hp; (apply Hr || apply Hs); lia.
Qed.
Lemma in_turn_step k s s' : default_chain cfg → step cfg retries_alone s s' → in_turn k s → in_turn k s'.
Proof.
  intros Hd Hstep Hinv. apply step_cases in Hstep as [(i&t&out&rt'&Hal&E&->)|[(l&x&a&k'&o&rt'&El&E&->)|[Ec Hg]]].
  - by eapply in_turn_call.
  - by eapply in_turn_settle.
  - destruct s' as [rt' cs]. cbn in *. subst cs. by apply in_turn_grows.
Qed.

(** *** What the calls leave behind *)
Definition truthful rt (c : CallState) : Prop :=
  match c with
  | Running x => de_allowedToExecute (ex_decision x) = true
  | Settled x a o => filed_outcome o rt ∧ verifyProof (eo_proof o) = true ∧ pf_allowedToExecute (eo_proof o) = true ∧ pf_executionResultId (eo_proof o) = Some (xr_id (eo_result o)) ∧
      pf_executed (eo_proof o) = match a with Returned _ => true | Raised _ => false end ∧ xr_value (eo_result o) = match a with Returned v => Some v | Raised _ => None end ∧
      xr_errorMessage (eo_result o) = match a with Returned _ => None | Raised m => Some m end
  | Refused o => filed_outcome o rt ∧ verifyProof (eo_proof o) = true ∧ pf_allowedToExecute (eo_proof o) = false ∧ pf_executionResultId (eo_proof o) = Some (xr_id (eo_result o)) ∧
      pf_executed (eo_proof o) = false
  | CallThrew e => ∃ message, e = recognition_failed message
  end.
Record documented (s : System) : Prop := { do_logs : sound_logs cfg (sys_runtime s); do_calls : Forall (truthful (sys_runtime s)) (sys_calls s) }.

Lemma map_get_prefix {V} k v (m n : JsMap V) : m `prefix_of` n → map_get k m = Some v → map_get k n = Some v.
Proof. intros [l ->] Hk. by rewrite map_get_app, Hk. Qed.
Lemma truthful_later rt rt' c : sound_logs cfg rt → extends cfg rt rt' → truthful rt c → truthful rt' c.
Proof.
  intros Hs [_ He]. destruct (He Hs) as (_&R&P&_).
  assert (∀ o, filed_outcome o rt → filed_outcome o rt') as Hf by (intros o [? ?]; split; by eapply map_get_prefix). destruct c as [x|x a o|o|e]; cbn; [done| | |done].
  - intros (?&?). split; [by apply Hf|done].
  - intros (?&?). split; [by apply Hf|done].
Qed.
Lemma documented_later s rt' : extends cfg (sys_runtime s) rt' → documented s → documented {| sys_runtime := rt'; sys_calls := sys_calls s |}.
Proof. intros He [Hl Hc]. split; [by apply He|]. cbn. eapply Forall_impl; [done|]. intros c. by apply truthful_later. Qed.
Lemma truthful_call rt i t out rt' : verifyAndExecute cfg i t rt = (out, rt') → truthful rt' (new_call out).
Proof.
  intros E. destruct (guard_called _ _ _ _ _ _ E) as (q&[_ Ho _ _]). destruct out as [[x|o]|e]; cbn.
  - by destruct Ho as (c&_&Hx&_&Ha&_).
  - destruct Ho as (c&_&_&_&Ha&Hx&Hv&Hf). destruct Hv as [V1 V2 V3 V4 V5]. split_and!; [done|done|by rewrite V3|done|by rewrite V5].
  - destruct Ho as (?&?&m&_&->). by exists m.
Qed.
Lemma truthful_settled x a rt o rt' : de_allowedToExecute (ex_decision x) = true → finished x a rt o rt' → truthful rt' (Settled x a o).
Proof. intros Ha [F1 F2 F3 F4 F5 [V1 V2 V3 V4 V5] F7 F8]. split_and!; [done|done|by rewrite V3|done|by rewrite V5, F3|done|done]. Qed.

Context (Hids : ids_unique cfg).
Lemma extends_guard i t : keeps (extends cfg) (verifyAndExecute cfg i t).
Proof. apply keeps_then; [apply extends_preorder|by apply extends_create|]. intros q. by apply extends_run_start. Qed.
Lemma extends_guard_preflight i : keeps (extends cfg) (guard_preflight cfg i).
Proof. apply keeps_then; [apply extends_preorder|by apply extends_create|]. intros q. by apply extends_preflight. Qed.
Lemma documented_step may s s' : step cfg may s s' → documented s → documented s'.
Proof.
  intros Hstep Hd. destruct Hstep as [s i t out rt' _ E|s l x a k o rt' El E|s i|s a|s b|s id|s id].
  - assert (extends cfg (sys_runtime s) rt') as He by (by eapply keeps_run; [apply extends_guard|exact E]). destruct (documented_later s rt' He Hd) as [Hl Hc].
    split; [done|]. cbn. apply Forall_app. split; [done|]. constructor; [by eapply truthful_call|constructor].
  - assert (extends cfg (sys_runtime s) rt') as He by (by eapply keeps_run; [apply extends_run_finish|exact E]). destruct (documented_later s rt' He Hd) as [Hl Hc].
    split; [done|]. cbn in *. rewrite El in Hc. apply Forall_app in Hc as [Hc1 Hc2]. inversion Hc2 as [|? ? Hx Hc3]; subst. apply Forall_app. split; [done|]. constructor; [|done].
    destruct (run_finish_Ok cfg x a (sys_runtime s)) as (o'&rt''&E'&Hf). rewrite E in E'. injection E' as <- <-. by eapply truthful_settled.
  - by apply documented_later; [apply extends_guard_preflight|].
  - by apply documented_later; [apply extends_same|].
  - by apply documented_later; [apply extends_same|].
  - by apply documented_later; [apply extends_updateRequestStatus|].
  - by apply documented_later; [apply extends_updateRequestStatus|].
Qed.
End Keys.

(** ** The guarantees *)

(** C25. The executor of a guarded action is invoked exactly when the default
    chain of policies has no objection. A call of a guard builds the request the
    caller asked for and shows the policies what the recognition provider and
    the policy-pack integration answered, the registered adapter, the emergency
    switch and the idempotency record; then either the executor is invoked, and
    all nine conditions hold and the mode is not a dry run; or nothing is
    executed, and they do not; or the recognition provider threw. *)
Theorem executor_gate_exact `{JsHost} (cfg : EnforcementConfiguration) i t rt out rt' :
  cfg_policies cfg = createDefaultEnforcementPolicyChain → verifyAndExecute cfg i t rt = (out, rt') →
  ∃ q, (∃ id at_ e, q = with_status (build_request (request_input i (default mode_execute (gi_mode i)) t) id at_) rq_submitted [e]) ∧
  match out with
  | Ok (inl x) => ex_request x = q ∧ ∃ c, shown cfg rt q c ∧ cleared c ∧ er_mode q ≠ mode_dry_run
  | Ok (inr o) => xr_executed (eo_result o) = false ∧ ∃ c, shown cfg rt q c ∧ ¬ (cleared c ∧ er_mode q ≠ mode_dry_run)
  | Throw e => ∃ n now message, recognitionIntegration cfg n (verification_input q now) = RecognitionThrew message ∧ e = recognition_failed message
  end.
Proof.
  intros Hd E. destruct (guard_called _ _ _ _ _ _ E) as (q&[Hq Ho _ _]). exists q. split; [exact Hq|]. destruct out as [out|e]; [|exact Ho].
  destruct Ho as (c&Hs&Hst). pose proof (gate_decides cfg _ _ _ _ _ Hd Hs Hst) as Hg. destruct out as [x|o].
  - split; [apply Hst|]. by exists c.
  - split; [apply Hst|]. by exists c.
Qed.

(** C26. When a failed attempt may not be retried, an idempotency key invokes an
    executor at most once: however calls, settlements, preflights, adapter
    registrations and emergency switches interleave, at most one call of a key
    ever had its executor invoked. *)
Theorem key_invokes_once `{JsHost} (cfg : EnforcementConfiguration) emergencyDeny s k :
  cfg_policies cfg = createDefaultEnforcementPolicyChain → allowRetryAfterFailure cfg = false → reachable cfg (λ _ _, True) emergencyDeny s → (count (invoked_with k) s ≤ 1)%nat.
Proof.
  intros Hd Hr Hs. assert (recorded_once k s) as [? _]; [|done]. induction Hs as [|s s' _ IH Hstep]; [split; cbn; lia|]. by eapply recorded_step.
Qed.

(** With retries allowed, an idempotency key still succeeds at most once as
    long as no attempt of a failed key is started while another attempt of that
    key is running; first attempts and everything else may overlap freely. *)
Theorem retries_in_turn_succeed_once `{JsHost} (cfg : EnforcementConfiguration) emergencyDeny s k :
  cfg_policies cfg = createDefaultEnforcementPolicyChain → reachable cfg retries_alone emergencyDeny s → (count (succeeded_with k) s ≤ 1)%nat.
Proof.
  intros Hd Hs. assert (in_turn k s) as [Hone _ _]; [|lia]. induction Hs as [|s s' _ IH Hstep]; [split; cbn; lia|]. by eapply in_turn_step.
Qed.

(** C27. Whatever the policies and the providers, with an id generator that never
    repeats itself: in every reachable state the event log and the proof log are
    hash-linked; every call that ended has its result and its proof on file, the
    proof verifies, names the result and says truthfully whether the executor ran
    to the end; a call whose executor settled carries its value or its error; and
    the only thing a call can throw is what the recognition provider threw, so a
    missing post-execution record is never reported. *)
Theorem every_call_documented `{JsHost} (cfg : EnforcementConfiguration) emergencyDeny s :
  ids_unique cfg → reachable cfg (λ _ _, True) emergencyDeny s →
  linked proof_payload_of pf_previousHash pf_proofHash (map_values (proofs (rt_store (sys_runtime s)))) ∧
  linked event_payload_of ee_previousHash ee_eventHash (events (rt_store (sys_runtime s))) ∧ Forall (truthful (sys_runtime s)) (sys_calls s).
Proof.
  intros Hids Hs. assert (documented cfg s) as [[_ _ _ _ Hp He] Hc].
  { induction Hs as [|s s' _ IH Hstep]; [|by eapply documented_step]. split; [|constructor]. split; cbn; try done; try apply filed_nil; constructor. }
  by split_and!.
Qed.

(** ** A deployment *)
Module EnforcementDemo.

#[local] Existing Instance demo_host.

Fixpoint unary (n : nat) : string := match n with O => "" | S n => String "i" (unary n) end.
Definition allow_all : RecognitionVerificationResult :=
  {| rr_id := Some "recognition-1"; rr_type := Some "allow"; rr_allowed := Some true; rr_recognized := Some true; rr_reasonCode := Some "RECOGNIZED"; rr_reason := Some "Recognized.";
     rr_authorityDecisionId := None; rr_authorityProofId := None; rr_approvalRequestId := None; rr_approvalDecisionId := None; rr_approvalProofId := None;
     rr_handshakeDecisionId := None; rr_handshakeProofId := None |}.
(** Recognition first asks for an approval of [payroll], and allows it once the
    request carries the approval's proof. *)
Definition ask_approval : RecognitionVerificationResult :=
  {| rr_id := Some "recognition-2"; rr_type := Some "require_human_approval"; rr_allowed := Some false; rr_recognized := Some true; rr_reasonCode := Some "APPROVAL_REQUIRED";
     rr_reason := Some "Approval required."; rr_authorityDecisionId := None; rr_authorityProofId := None; rr_approvalRequestId := Some "approval-1"; rr_approvalDecisionId := None;
     rr_approvalProofId := None; rr_handshakeDecisionId := None; rr_handshakeProofId := None |}.
Definition recognise (n : nat) (i : RecognitionVerificationInput) : RecognitionAnswer :=
  if str_eqb (ri_action i) "payroll" && negb (is_some (ri_approvalProofId i)) then RecognitionResult (Some ask_approval) else RecognitionResult (Some allow_all).
Definition deployment (retry : bool) : EnforcementConfiguration :=
  {| cfg_ctx := {| clock_now := λ _, "1000"; ids_nextId := λ n _, unary n |}; recognitionIntegration := recognise; policyPackIntegration := None;
     cfg_policies := createDefaultEnforcementPolicyChain; allowRetryAfterFailure := retry |}.
Definition fresh : ActionEnforcementRuntime := createActionEnforcementRuntime false.
Definition ask (action : string) (proof : option string) : GuardActionRequestInput :=
  {| gi_actorId := "agent-1"; gi_principalActorId := None; gi_trustDomainId := "domain-1"; gi_action := action; gi_capability := None; gi_resourceScope := "orders";
     gi_targetId := None; gi_targetType := None; gi_targetName := None; gi_adapterId := None; gi_riskLevel := None; gi_sideEffectType := Some se_write; gi_description := None;
     gi_idempotencyKey := Some "key-1"; gi_mode := None; gi_expiresAt := None; gi_actionRequestId := None; gi_approvalProofId := proof; gi_approvalRequestId := None;
     gi_approvalDecisionId := None; gi_visaId := None; gi_ingressGrantId := None; gi_handshakeProofId := None; gi_policyEvaluationInput := None; gi_metadata := None |}.
Definition order : GuardActionRequestInput := ask "order" None.
Definition start (retry : bool) (i : GuardActionRequestInput) (rt : ActionEnforcementRuntime) := verifyAndExecute (deployment retry) i None rt.
(** Start a call in a system and note what became of it. *)
Definition enforce_in (retry : bool) (i : GuardActionRequestInput) (s : System) : System :=
  let r := start retry i (sys_runtime s) in {| sys_runtime := r.2; sys_calls := sys_calls s ++ [new_call r.1] |}.
Definition settle_in (retry : bool) (n : nat) (a : ExecutorAnswer) (s : System) : System :=
  match sys_calls s !! n with
  | Some (Running x) =>
      match run_finish (deployment retry) x a (sys_runtime s) with
      | (Ok o, rt') => {| sys_runtime := rt'; sys_calls := take n (sys_calls s) ++ Settled x a o :: drop (S n) (sys_calls s) |}
      | _ => s
      end
  | _ => s
  end.
Definition idle : System := {| sys_runtime := fresh; sys_calls := [] |}.
Definition once (retry : bool) : System := settle_in retry 0 (Raised "timeout") (enforce_in retry order idle).
Definition twice (retry : bool) : System := settle_in retry 1 (Returned (JsBool true)) (enforce_in retry order (once retry)).

Lemma unary_length n : String.length (unary n) = n.
Proof. induction n as [|n IH]; [done|]. cbn. by rewrite IH. Qed.
Lemma deployment_unique retry : ids_unique (deployment retry).
Proof. intros n m p p' E. cbn in E. rewrite <-(unary_length n), <-(unary_length m). by rewrite E. Qed.

Lemma reach_enforce retry may b i s : may s (gi_idempotencyKey i) → reachable (deployment retry) may b s → reachable (deployment retry) may b (enforce_in retry i s).
Proof. intros Hm Hs. eapply reach_step; [exact Hs|]. unfold enforce_in, start. destruct (verifyAndExecute _ _ _ _) eqn:E. by eapply step_enforce. Qed.
Lemma reach_settle retry may b n a s : reachable (deployment retry) may b s → reachable (deployment retry) may b (settle_in retry n a s).
Proof.
  intros Hs. unfold settle_in. destruct (sys_calls s !! n) as [[x| | |]|] eqn:En; [|done..]. destruct (run_finish _ x a (sys_runtime s)) as [[o|e] rt'] eqn:E; [|done].
  eapply reach_step; [exact Hs|]. eapply step_settle; [|exact E]. by rewrite (take_drop_middle _ _ _ En).
Qed.
Lemma once_reachable retry may : (∀ s, may s (Some "key-1")) → reachable (deployment retry) may false (once retry).
Proof. intros Hm. unfold once. apply reach_settle, reach_enforce; [apply Hm|]. apply reach_start. Qed.
Lemma twice_reachable : reachable (deployment true) retries_alone false (twice true).
Proof.
  unfold twice. apply reach_settle, reach_enforce; [intros k [= <-] _; by vm_compute|]. unfold once. apply reach_settle, reach_enforce; [intros k [= <-] _; by vm_compute|]. apply reach_start.
Qed.

Lemma executor_gate_exact_witness : ∃ q, (∃ id at_ e, q = with_status (build_request (request_input order mode_execute None) id at_) rq_submitted [e]) ∧
  match (start true order fresh).1 with
  | Ok (inl x) => ex_request x = q ∧ ∃ c, shown (deployment true) fresh q c ∧ cleared c ∧ er_mode q ≠ mode_dry_run
  | _ => False
  end.
Proof.
  assert (match (start true order fresh).1 with Ok (inl _) => true | _ => false end = true) as Hrun by (vm_compute; reflexivity).
  destruct (executor_gate_exact (deployment true) order None fresh (start true order fresh).1 (start true order fresh).2 eq_refl (surjective_pairing _)) as (q&Hq&Hm).
  exists q. split; [exact Hq|]. destruct (start true order fresh).1 as [[x|o]|e]; [exact Hm|discriminate Hrun..].
Defined.
Lemma key_invokes_once_witness : (count (invoked_with "key-1") (twice false) ≤ 1)%nat ∧ count (invoked_with "key-1") (twice false) = 1%nat.
Proof.
  split; [|by vm_compute]. apply (key_invokes_once (deployment false) false); [reflexivity|reflexivity|]. unfold twice. apply reach_settle, reach_enforce; [done|]. by apply once_reachable.
Defined.
Lemma retries_in_turn_succeed_once_witness : (count (succeeded_with "key-1") (twice true) ≤ 1)%nat ∧ count (succeeded_with "key-1") (twice true) = 1%nat.
Proof. split; [|by vm_compute]. apply (retries_in_turn_succeed_once (deployment true) false); [reflexivity|exact twice_reachable]. Defined.
Lemma every_call_documented_witness : Forall (truthful (sys_runtime (twice true))) (sys_calls (twice true)) ∧ length (sys_calls (twice true)) = 2%nat.
Proof.
  split; [|by vm_compute]. apply (every_call_documented (deployment true) false); [apply deployment_unique|]. unfold twice. apply reach_settle, reach_enforce; [done|]. by apply once_reachable.
Defined.

(** After a failed attempt, two retries that overlap both run and both succeed:
    a retry leaves the record of its key [failed] until it settles. *)
Example overlapping_retries_both_succeed :
  count (succeeded_with "key-1") (settle_in true 2 (Returned (JsBool true)) (settle_in true 1 (Returned (JsBool true)) (enforce_in true order (enforce_in true order (once true))))) = 2%nat.
Proof. by vm_compute. Qed.
(** A preflight claims the key, so the call it was made for is suppressed. *)
Example preflight_claims_the_key :
  match (start true order (guard_preflight (deployment true) order fresh).2).1 with Ok (inr o) => de_type (eo_decision o) = duplicate_suppressed | _ => False end.
Proof. by vm_compute. Qed.
(** An attempt refused for want of an approval claims the key, so the approved
    attempt is suppressed. *)
Example refusal_claims_the_key :
  let refused := start true (ask "payroll" None) fresh in
  match refused.1 with Ok (inr o) => de_type (eo_decision o) = needs_approval | _ => False end ∧
  match (start true (ask "payroll" (Some "proof-1")) refused.2).1 with Ok (inr o) => de_type (eo_decision o) = duplicate_suppressed | _ => False end.
Proof. by vm_compute. Qed.
(** A recognition type the mapping does not list executes when the answer calls
    the actor recognized, even when it says the action is not allowed. *)
Definition quarantined : RecognitionVerificationResult :=
  {| rr_id := Some "recognition-3"; rr_type := Some "quarantined"; rr_allowed := Some false; rr_recognized := Some true; rr_reasonCode := Some "QUARANTINED";
     rr_reason := Some "Quarantined."; rr_authorityDecisionId := None; rr_authorityProofId := None; rr_approvalRequestId := None; rr_approvalDecisionId := None;
     rr_approvalProofId := None; rr_handshakeDecisionId := None; rr_handshakeProofId := None |}.
Definition quarantine : EnforcementConfiguration :=
  {| cfg_ctx := cfg_ctx (deployment true); recognitionIntegration := λ _ _, RecognitionResult (Some quarantined); policyPackIntegration := None;
     cfg_policies := createDefaultEnforcementPolicyChain; allowRetryAfterFailure := true |}.
Example unlisted_type_executes : match (verifyAndExecute quarantine order None fresh).1 with Ok (inl _) => True | _ => False end.
Proof. by vm_compute. Qed.
End EnforcementDemo.
