(* ===== verification/Kernel.v ===== *)
(** * The kernel

    [kernel/AocKernel.ts] and the adapters of [kernel/orchestration]: the
    request, its validation and what it becomes for the guard of the
    enforcement runtime; the governed authority and representation of the
    rights a request engages; obligations and the external port; the grant a
    decision may carry; the result, its reason codes and its trace; and the two
    operations of the kernel, [evaluate] and [enforce], with the order in which
    they ask and compose.

    The ports of the kernel are parameters: each answers one question of a call
    by a function of the question. An operation waits for its ports before it
    touches the enforcement runtime, so it is split there: what is prepared may
    meet the runtime in any later state. What a constructor refuses is
    [KernelConfigurationError], whatever the class of its error; the metadata a
    trace carries at level full is left out. The ports leave the request as it
    is; an executor may write to the caller's object, so what runs after it reads
    the request as the executor left it, next to the snapshot taken of it. *)

From S2P Require Import Prelude Decimal Js JsMap StableJson HashChain Parameters GrantBounds GrantAttenuation Obligations ContextResolution ContextStep Enforcement EnforcementRuntime.

Local Open Scope Z_scope.
Local Open Scope frontera_scope.

(** ** Requests *)

Record ActorReference := { ak_id : string; ak_principalId : option string; ak_trustDomainId : string; ak_type : option string }.
(** A governed right is its name; the scope of a right is data the kernel only
    passes on. *)
Record ActionDescriptor := {
  an_type : string; an_domain : option string; an_jurisdiction : option string; an_country : option string; an_industry : option string; an_customerId : option string;
  an_capability : option string; an_resourceScope : string; an_riskLevel : option ExecutionRiskLevel; an_sideEffectType : option SideEffectType; an_amount : option string;
  an_currency : option string; an_counterpartyId : option string; an_dataDomains : option (list string); an_evidenceIds : option (list string); an_parameters : option Json;
  an_semantics : option GovernedActionSemantics; an_governedParameters : option (list DeclaredGovernedParameter); an_governedRights : option (list string);
  an_governedRightsScope : option Json; an_governedAuthorityHolderRef : option string;
}.
Record TargetReference := { tk_id : option string; tk_type : option string; tk_name : option string; tk_adapterId : option string }.
Record OrganizationReference := { og_id : string; og_name : option string }.
Record KernelRequest := {
  kq_requestId : string; kq_actor : ActorReference; kq_action : ActionDescriptor; kq_target : option TargetReference; kq_organization : option OrganizationReference;
  kq_context : option (JsMap Json); kq_requestedAt : string; kq_correlationId : option string; kq_approvalProofId : option string; kq_approvalRequestId : option string;
  kq_approvalDecisionId : option string; kq_visaId : option string; kq_ingressGrantId : option string; kq_handshakeProofId : option string; kq_idempotencyKey : option string;
  kq_expiresAt : option string;
}.
Inductive TraceLevel := trace_basic | trace_full.
Record KernelEvaluationOptions := { dryRun : option bool; traceLevel : option TraceLevel }.

Implicit Types q : KernelRequest.

Definition named_action q : string := default (an_type (kq_action q)) (an_capability (kq_action q)).
Definition organizationId q : option string := og_id <$> kq_organization q.
Definition targetId q : option string := kq_target q ≫= tk_id.
Definition targetType q : option string := kq_target q ≫= tk_type.
(** The part of a request the profile and context steps read. *)
Definition profile_key (r : GovernanceProfileReference) : KernelGovernanceProfileKey :=
  {| gp_id := profile_id r; gp_version := integer_value (profile_version r); gp_digest := profile_digest r |}.
Definition context_view q : KernelEvaluationRequest :=
  {| actor_id := ak_id (kq_actor q); actor_trustDomainId := ak_trustDomainId (kq_actor q); action_type := an_type (kq_action q); action_capability := an_capability (kq_action q);
     action_resourceScope := an_resourceScope (kq_action q); claimed_profile := profile_key ∘ governanceProfile <$> an_semantics (kq_action q);
     organization_id := organizationId q; target_id := targetId q |}.

(** ** Errors *)

Inductive KernelThrow :=
  | KernelValidationError (field : string)
  | KernelConfigurationError
  | ConstraintProviderError
  | KernelContextError (e : ContextThrow)
  | DateRangeError
  | KernelInvariantError (message : string)
  | KernelExecutionError.

(** ** Validation *)

Section Validation.
Context `{JsHost}.
Definition filled_in (s : string) : bool := negb (bool_decide (js_trim (chars s) = [])).
Definition parameters_declared q : bool :=
  match an_governedParameters (kq_action q) with None => true | Some ps => is_some (an_semantics (kq_action q)) && isWellFormedDeclaredGovernedParameters ps end.
Definition validateKernelEvaluationRequest q : result KernelThrow () :=
  guard* filled_in (kq_requestId q) else KernelValidationError "requestId" in
  guard* filled_in (ak_id (kq_actor q)) else KernelValidationError "actor.id" in
  guard* filled_in (ak_trustDomainId (kq_actor q)) else KernelValidationError "actor.trustDomainId" in
  guard* filled_in (an_type (kq_action q)) else KernelValidationError "action.type" in
  guard* filled_in (an_resourceScope (kq_action q)) else KernelValidationError "action.resourceScope" in
  guard* nonempty (kq_requestedAt q) && is_some (date_parse (kq_requestedAt q)) else KernelValidationError "requestedAt" in
  guard* match an_semantics (kq_action q) with None => true | Some s => isWellFormedGovernedActionSemantics s end else KernelValidationError "action.semantics" in
  guard* parameters_declared q else KernelValidationError "action.governedParameters" in
  Ok ().
End Validation.

(** ** The request of the guard *)

Definition ENFORCEMENT_TARGET_TYPES : list EnforcementTargetType := [tt_tool_call; tt_api_handler; tt_workflow_step; tt_webhook; tt_scheduled_job; tt_manual_operation; tt_generic].
Definition toEnforcementTargetType (t : option string) : option EnforcementTargetType := t ≫= λ t, List.find (λ x, str_eqb (target_type_name x) t) ENFORCEMENT_TARGET_TYPES.
Definition GOVERNED_CONSTRAINT_POLICY_METADATA_KEY : string := "aoc.governedConstraints".
Definition CONTEXT_RESOLUTION_POLICY_METADATA_KEY : string := "aoc.context".
Definition GRANT_RESERVED_REQUEST_KEY_PREFIX : string := "aoc.grant".
Definition isReservedGrantKey (key : string) : bool := str_eqb key GRANT_RESERVED_REQUEST_KEY_PREFIX || String.prefix (GRANT_RESERVED_REQUEST_KEY_PREFIX +:+ ".") key.

Definition buildPolicyMetadata (constraints : option Json) (r : option ContextResolution) : option (JsMap MetadataValue) :=
  if negb (is_some constraints) && negb (is_some r) then None
  else Some (match constraints with Some c => [(GOVERNED_CONSTRAINT_POLICY_METADATA_KEY, ConstraintContext c)] | None => [] end ++
             match r with Some r => [(CONTEXT_RESOLUTION_POLICY_METADATA_KEY, ResolvedContext r)] | None => [] end).
Definition hasPolicyPackFields q (constraints : option Json) (r : option ContextResolution) : bool :=
  let a := kq_action q in
  is_some constraints || is_some r || is_some (an_domain a) || is_some (an_jurisdiction a) || is_some (an_country a) || is_some (an_industry a) || is_some (an_customerId a) ||
  is_some (an_amount a) || is_some (an_currency a) || is_some (an_counterpartyId a) || is_some (an_dataDomains a) || is_some (an_evidenceIds a) || is_some (an_semantics a).
Definition buildPolicyEvaluationInput q (constraints : option Json) (r : option ContextResolution) (admitted : option AdmittedPolicyContext) : option EnforcementPolicyEvaluationInput :=
  let a := kq_action q in
  if negb (hasPolicyPackFields q constraints r) then None
  else Some {| pe_domain := an_domain a; pe_jurisdiction := an_jurisdiction a; pe_country := an_country a; pe_industry := an_industry a; pe_customerId := an_customerId a;
       pe_amount := an_amount a; pe_currency := an_currency a; pe_counterpartyId := an_counterpartyId a; pe_dataDomains := an_dataDomains a; pe_evidenceIds := an_evidenceIds a;
       pe_actionClass := actionClass <$> an_semantics a; pe_resourceClass := resourceClass <$> an_semantics a; pe_governanceProfile := profile_id ∘ governanceProfile <$> an_semantics a;
       pe_governanceProfileVersion := profile_version ∘ governanceProfile <$> an_semantics a; pe_governedParameters := (λ ps : list DeclaredGovernedParameter, Parameters.declared <$> ps) <$> an_governedParameters a;
       pe_contextFacts := contextFacts <$> admitted; pe_restrictiveFacts := restrictiveFacts <$> admitted; pe_metadata := buildPolicyMetadata constraints r |}.

(** [delete context[key]] and [context[key] = value] *)
Definition without (p : string → bool) (m : JsMap Json) : JsMap Json := List.filter (λ e : string * Json, negb (p e.1)) m.
Definition set_if (key : string) (v : option Json) (m : JsMap Json) : JsMap Json := match v with Some v => map_set key v m | None => m end.
Definition reserved_key (key : string) : bool := isReservedContextKey key || isReservedObligationKey key || isReservedGrantKey key.
Definition request_metadata q : JsMap Json :=
  let kept := without reserved_key (without (λ k, str_eqb k "organizationName") (without (λ k, str_eqb k "organizationId") (default [] (kq_context q)))) in
  set_if "parameters" (an_parameters (kq_action q)) (set_if "correlationId" (JTxt <$> kq_correlationId q)
    (set_if "organizationName" (JTxt <$> (kq_organization q ≫= og_name)) (set_if "organizationId" (JTxt <$> organizationId q) kept))).

Definition toGuardActionRequestInput q (options : option KernelEvaluationOptions) (constraints : option Json) (r : option ContextResolution) (admitted : option AdmittedPolicyContext) :
    GuardActionRequestInput :=
  let a := kq_action q in
  {| gi_actorId := ak_id (kq_actor q); gi_principalActorId := ak_principalId (kq_actor q); gi_trustDomainId := ak_trustDomainId (kq_actor q); gi_action := an_type a;
     gi_capability := an_capability a; gi_resourceScope := an_resourceScope a; gi_targetId := targetId q; gi_targetType := toEnforcementTargetType (targetType q);
     gi_targetName := kq_target q ≫= tk_name; gi_adapterId := kq_target q ≫= tk_adapterId; gi_riskLevel := an_riskLevel a; gi_sideEffectType := an_sideEffectType a;
     gi_description := None; gi_idempotencyKey := kq_idempotencyKey q;
     gi_mode := if bool_decide ((options ≫= dryRun) = Some true) then Some mode_dry_run else None; gi_expiresAt := kq_expiresAt q; gi_actionRequestId := Some (kq_requestId q);
     gi_approvalProofId := kq_approvalProofId q; gi_approvalRequestId := kq_approvalRequestId q; gi_approvalDecisionId := kq_approvalDecisionId q; gi_visaId := kq_visaId q;
     gi_ingressGrantId := kq_ingressGrantId q; gi_handshakeProofId := kq_handshakeProofId q; gi_policyEvaluationInput := buildPolicyEvaluationInput q constraints r admitted;
     gi_metadata := Some (request_metadata q) |}.

(** ** Results *)

Definition AOC_KERNEL_VERSION : string := "1.0.0".
Record RecognitionEvaluation := {
  rv_performed : bool; rv_decisionId : option string; rv_decisionType : option string; rv_recognized : option bool; rv_reasonCode : option string; rv_reason : option string }.
Record GovernedRightEvaluation := { ge_governedRight : string; ge_holderRef : string; ge_outcome : string; ge_covered : bool }.
Record GovernedAuthorityEvaluation := { ga_performed : bool; ga_enforced : bool; ga_rights : list GovernedRightEvaluation }.
Record GovernedRightRepresentationEvaluation := {
  gr_governedRight : string; gr_outcome : string; gr_covered : bool; gr_representativeAuthorityId : option string; gr_chain : option (list string) }.
Record GovernedRepresentationEvaluation := {
  gv_performed : bool; gv_required : bool; gv_holderRef : string; gv_representativeRef : string; gv_rights : list GovernedRightRepresentationEvaluation }.
Record AuthorityEvaluation := {
  av_performed : bool; av_decisionId : option string; av_proofId : option string; av_governedAuthority : option GovernedAuthorityEvaluation;
  av_representation : option GovernedRepresentationEvaluation }.
Inductive ApprovalStatus := ap_not_applicable | ap_pending | ap_granted.
Record ApprovalEvaluation := { pv_performed : bool; pv_status : ApprovalStatus; pv_requestId : option string; pv_decisionId : option string; pv_proofId : option string }.
Record EvidenceEvaluation := { vv_policyId : string; vv_passed : bool; vv_reasonCode : string; vv_reason : string }.
Inductive KernelTraceStepStatus := ts_passed | ts_failed | ts_skipped | ts_pending.
Record KernelTraceStep := { tr_sequence : Z; tr_operator : string; tr_status : KernelTraceStepStatus; tr_reasonCodes : list string }.
Record KernelTrace := { tr_steps : list KernelTraceStep; tr_decisionId : string; tr_kernelVersion : string }.
Record ObligationInstanceEvaluation := { oe_instance : ObligationInstance; oe_satisfied : bool; oe_terminal : bool; oe_withholdsExercise : bool }.
Record ObligationEvaluation := {
  ov_performed : bool; ov_resolved : bool; ov_declaredTypes : list string; ov_obligations : list ObligationInstanceEvaluation; ov_exerciseEligibility : ObligationExerciseEligibility;
  ov_allBlockingObligationsSatisfied : bool; ov_exerciseReasonCodes : list string; ov_summary : option string; ov_disregarded : list DisregardedObligationObservation }.
Inductive GrantBoundEvaluation := AxisBound (key : GrantBoundKey) (b : GrantBound) | ParameterBound (dimension : string) (b : GovernedParameterBound).
Record GrantEvaluation := {
  gx_performed : bool; gx_eligibility : GrantEligibility; gx_correlation : GrantCorrelation; gx_subject : string; gx_sourceBounds : list GrantBoundEvaluation;
  gx_validityCeilings : list GrantValidityCeiling; gx_ineligibilityReasonCodes : list GrantReasonCode; gx_summary : option string }.
Inductive ExternalOutcome := ex_allowed | ex_denied | ex_unavailable | ex_timeout | ex_invalid_response | ex_not_consulted.
#[export] Instance ExternalOutcome_eq_dec : EqDecision ExternalOutcome.
Proof. solve_decision. Defined.
Record ExternalAuthorizationEvaluation := { xe_performed : bool; xe_outcome : ExternalOutcome; xe_narrowed : bool; xe_reasonCode : option string }.

(** What a result carries besides status, reason codes, summary and context. *)
Record ResultFields := {
  rs_requestId : string; rs_decisionId : string; rs_recognition : RecognitionEvaluation; rs_authority : AuthorityEvaluation; rs_policies : list EnforcementPolicyResult;
  rs_approval : ApprovalEvaluation; rs_evidence : list EvidenceEvaluation; rs_obligations : option ObligationEvaluation; rs_grants : option GrantEvaluation;
  rs_externalAuthorization : option ExternalAuthorizationEvaluation; rs_trace : KernelTrace; rs_evaluatedAt : string; rs_kernelVersion : string; rs_correlationId : option string;
}.
Notation KernelResult := (KernelEvaluationResult ResultFields).
Implicit Types k : KernelResult.
Definition with_fields (f : ResultFields → ResultFields) k : KernelResult :=
  {| kr_status := kr_status k; kr_reasonCodes := kr_reasonCodes k; kr_summary := kr_summary k; kr_context := kr_context k; other_fields := f (other_fields k) |}.
Definition with_verdict (status : KernelDecisionStatus) (codes : list string) (summary : string) k : KernelResult :=
  {| kr_status := status; kr_reasonCodes := codes; kr_summary := summary; kr_context := kr_context k; other_fields := other_fields k |}.
Definition with_context (c : ContextEvaluation) k : KernelResult :=
  {| kr_status := kr_status k; kr_reasonCodes := kr_reasonCodes k; kr_summary := kr_summary k; kr_context := Some c; other_fields := other_fields k |}.
Definition set_authority (a : AuthorityEvaluation) (f : ResultFields) : ResultFields :=
  {| rs_requestId := rs_requestId f; rs_decisionId := rs_decisionId f; rs_recognition := rs_recognition f; rs_authority := a; rs_policies := rs_policies f; rs_approval := rs_approval f;
     rs_evidence := rs_evidence f; rs_obligations := rs_obligations f; rs_grants := rs_grants f; rs_externalAuthorization := rs_externalAuthorization f; rs_trace := rs_trace f;
     rs_evaluatedAt := rs_evaluatedAt f; rs_kernelVersion := rs_kernelVersion f; rs_correlationId := rs_correlationId f |}.
Definition set_obligations (o : ObligationEvaluation) (f : ResultFields) : ResultFields :=
  {| rs_requestId := rs_requestId f; rs_decisionId := rs_decisionId f; rs_recognition := rs_recognition f; rs_authority := rs_authority f; rs_policies := rs_policies f;
     rs_approval := rs_approval f; rs_evidence := rs_evidence f; rs_obligations := Some o; rs_grants := rs_grants f; rs_externalAuthorization := rs_externalAuthorization f;
     rs_trace := rs_trace f; rs_evaluatedAt := rs_evaluatedAt f; rs_kernelVersion := rs_kernelVersion f; rs_correlationId := rs_correlationId f |}.
Definition set_grants (g : GrantEvaluation) (f : ResultFields) : ResultFields :=
  {| rs_requestId := rs_requestId f; rs_decisionId := rs_decisionId f; rs_recognition := rs_recognition f; rs_authority := rs_authority f; rs_policies := rs_policies f;
     rs_approval := rs_approval f; rs_evidence := rs_evidence f; rs_obligations := rs_obligations f; rs_grants := Some g; rs_externalAuthorization := rs_externalAuthorization f;
     rs_trace := rs_trace f; rs_evaluatedAt := rs_evaluatedAt f; rs_kernelVersion := rs_kernelVersion f; rs_correlationId := rs_correlationId f |}.
Definition set_external (x : ExternalAuthorizationEvaluation) (t : KernelTrace) (f : ResultFields) : ResultFields :=
  {| rs_requestId := rs_requestId f; rs_decisionId := rs_decisionId f; rs_recognition := rs_recognition f; rs_authority := rs_authority f; rs_policies := rs_policies f;
     rs_approval := rs_approval f; rs_evidence := rs_evidence f; rs_obligations := rs_obligations f; rs_grants := rs_grants f; rs_externalAuthorization := Some x;
     rs_trace := t; rs_evaluatedAt := rs_evaluatedAt f; rs_kernelVersion := rs_kernelVersion f; rs_correlationId := rs_correlationId f |}.

(** ** Reason codes *)

Definition RECOGNITION_TYPE_TO_REASON_CODE (t : string) : option string :=
  map_get t [("unrecognized_actor", "RECOGNITION_ACTOR_UNKNOWN"); ("rogue_actor", "RECOGNITION_ROGUE_ACTOR"); ("invalid_capability", "AUTHORITY_CAPABILITY_MISSING");
    ("revoked", "AUTHORITY_CAPABILITY_REVOKED"); ("expired", "AUTHORITY_DELEGATION_EXPIRED"); ("out_of_scope", "AUTHORITY_SCOPE_EXCEEDED");
    ("policy_violation", "POLICY_CONDITION_UNSATISFIED"); ("deny", "POLICY_ACTION_PROHIBITED"); ("invalid_passport", "RECOGNITION_PASSPORT_INVALID");
    ("require_human_approval", "APPROVAL_REQUIRED"); ("require_more_evidence", "EVIDENCE_REQUIRED")].
Definition RECOGNITION_GATED_POLICY_IDS : list string := ["recognition_required"; "allow_decision_required"].
Definition RECOGNITION_REQUIRED_FAILURE_REASON_CODE (code : string) : option string :=
  map_get code [("RECOGNITION_MISSING", "RECOGNITION_MISSING"); ("RECOGNITION_INVALID", "RECOGNITION_MISSING")].
Definition POLICY_ID_TO_REASON_CODE (id : string) : option string :=
  map_get id [("emergency_deny", "EMERGENCY_DENIED"); ("approval_pending", "APPROVAL_PENDING"); ("evidence_required", "EVIDENCE_REQUIRED");
    ("external_standing", "RECOGNITION_HANDSHAKE_INVALID"); ("adapter_permission", "ADAPTER_DENIED"); ("domain_policy_pack", "DOMAIN_POLICY_DENIED");
    ("idempotency", "IDEMPOTENCY_VIOLATION"); ("execution_timeout", "EXECUTION_TIMEOUT_EXCEEDED"); ("side_effect_boundary", "SIDE_EFFECT_BOUNDARY_VIOLATION");
    ("post_execution_record", "POST_EXECUTION_RECORD_INVALID")].
Definition mapDecisionTypeToStatus (t : EnforcementDecisionType) : KernelDecisionStatus :=
  match t with
  | execute_allowed | dry_run_allowed => allowed
  | needs_approval | evidence_required | external_handshake_required => approval_required
  | _ => denied
  end.
Definition DECISION_TYPE_REASON_CODE (t : EnforcementDecisionType) : string :=
  match t with
  | execute_allowed => "ACTION_ALLOWED" | dry_run_allowed => "ACTION_ALLOWED_DRY_RUN" | duplicate_suppressed => "ACTION_DUPLICATE_SUPPRESSED" | needs_approval => "APPROVAL_REQUIRED"
  | evidence_required => "EVIDENCE_REQUIRED" | external_handshake_required => "RECOGNITION_HANDSHAKE_INVALID" | execution_blocked => "POLICY_ACTION_PROHIBITED"
  | adapter_denied => "ADAPTER_DENIED" | emergency_denied => "EMERGENCY_DENIED" | request_expired => "REQUEST_EXPIRED" | invalid_request => "REQUEST_INVALID"
  end.
Definition firstFailed (d : EnforcementDecision) : option EnforcementPolicyResult := List.find (λ r, negb (pl_passed r)) (de_policyResults d).
(** [codes.push(code)] unless it is undefined or listed. *)
Definition push_code (codes : list string) (code : option string) : list string :=
  match code with Some c => if bool_decide (c ∈ codes) then codes else codes ++ [c] | None => codes end.
Definition refined_code (d : EnforcementDecision) (f : EnforcementPolicyResult) : option string :=
  if str_eqb (pl_policyId f) "recognition_required" then RECOGNITION_REQUIRED_FAILURE_REASON_CODE (pl_reasonCode f)
  else if bool_decide (pl_policyId f ∈ RECOGNITION_GATED_POLICY_IDS) then de_recognitionDecisionType d ≫= RECOGNITION_TYPE_TO_REASON_CODE else None.
Definition mapDecisionToReasonCodes (d : EnforcementDecision) : list string :=
  let codes := match firstFailed d with Some f => push_code (push_code [] (refined_code d f)) (POLICY_ID_TO_REASON_CODE (pl_policyId f)) | None => [] end in
  push_code codes (Some (DECISION_TYPE_REASON_CODE (de_type d))).

(** ** The result of a decision *)

Definition RECOGNIZED_RECOGNITION_TYPES : list string := ["allow"; "require_human_approval"; "require_more_evidence"].
Definition buildRecognitionEvaluation (d : EnforcementDecision) : RecognitionEvaluation :=
  let attributable := match firstFailed d with Some f => bool_decide (pl_policyId f ∈ RECOGNITION_GATED_POLICY_IDS) | None => false end in
  {| rv_performed := is_some (de_recognitionDecisionType d); rv_decisionId := de_recognitionDecisionId d; rv_decisionType := de_recognitionDecisionType d;
     rv_recognized := (λ t, bool_decide (t ∈ RECOGNIZED_RECOGNITION_TYPES)) <$> de_recognitionDecisionType d;
     rv_reasonCode := if attributable then Some (de_reasonCode d) else None; rv_reason := if attributable then Some (de_reason d) else None |}.
Definition buildAuthorityEvaluation (d : EnforcementDecision) : AuthorityEvaluation :=
  {| av_performed := is_some (de_authorityDecisionId d) || is_some (de_authorityProofId d); av_decisionId := de_authorityDecisionId d; av_proofId := de_authorityProofId d;
     av_governedAuthority := None; av_representation := None |}.
Definition buildApprovalEvaluation (d : EnforcementDecision) : ApprovalEvaluation :=
  let asked := is_some (de_approvalRequestId d) || is_some (de_approvalDecisionId d) || bool_decide (de_type d = needs_approval) in
  {| pv_performed := asked || is_some (de_approvalProofId d); pv_status := if is_some (de_approvalProofId d) then ap_granted else if asked then ap_pending else ap_not_applicable;
     pv_requestId := de_approvalRequestId d; pv_decisionId := de_approvalDecisionId d; pv_proofId := de_approvalProofId d |}.
Definition buildEvidenceEvaluations (d : EnforcementDecision) : list EvidenceEvaluation :=
  (λ r, {| vv_policyId := pl_policyId r; vv_passed := pl_passed r; vv_reasonCode := pl_reasonCode r; vv_reason := pl_reason r |}) <$>
    List.filter (λ r, str_eqb (pl_policyId r) "evidence_required") (de_policyResults d).
Fixpoint policy_steps (sequence : Z) (l : list EnforcementPolicyResult) : list KernelTraceStep :=
  match l with
  | [] => []
  | r :: l => {| tr_sequence := sequence; tr_operator := pl_policyId r; tr_status := if pl_passed r then ts_passed else ts_failed; tr_reasonCodes := [pl_reasonCode r] |} ::
      policy_steps (sequence + 1) l
  end.
Definition buildTrace (d : EnforcementDecision) : KernelTrace :=
  let recognition := buildRecognitionEvaluation d in let authority := buildAuthorityEvaluation d in let approval := buildApprovalEvaluation d in
  let verdict := if default false (rv_recognized recognition) then ts_passed else ts_failed in
  {| tr_steps :=
       {| tr_sequence := 1; tr_operator := "recognition"; tr_status := if rv_performed recognition then verdict else ts_skipped;
          tr_reasonCodes := [default "RECOGNITION_MISSING" (rv_decisionType recognition)] |} ::
       {| tr_sequence := 2; tr_operator := "authority"; tr_status := if av_performed authority then verdict else ts_skipped; tr_reasonCodes := option_list (av_decisionId authority) |} ::
       {| tr_sequence := 3; tr_operator := "approval"; tr_status := match pv_status approval with ap_granted => ts_passed | ap_pending => ts_pending | ap_not_applicable => ts_skipped end;
          tr_reasonCodes := option_list (pv_requestId approval) |} :: policy_steps 4 (de_policyResults d);
     tr_decisionId := de_id d; tr_kernelVersion := AOC_KERNEL_VERSION |}.
Definition toKernelEvaluationResult (requestId : string) (d : EnforcementDecision) (correlationId : option string) : KernelResult :=
  {| kr_status := mapDecisionTypeToStatus (de_type d); kr_reasonCodes := mapDecisionToReasonCodes d; kr_summary := de_reason d; kr_context := None;
     other_fields := {| rs_requestId := requestId; rs_decisionId := de_id d; rs_recognition := buildRecognitionEvaluation d; rs_authority := buildAuthorityEvaluation d;
       rs_policies := de_policyResults d; rs_approval := buildApprovalEvaluation d; rs_evidence := buildEvidenceEvaluations d; rs_obligations := None; rs_grants := None;
       rs_externalAuthorization := None; rs_trace := buildTrace d; rs_evaluatedAt := de_decidedAt d; rs_kernelVersion := AOC_KERNEL_VERSION; rs_correlationId := correlationId |} |}.
Record KernelExecutionOutcome := {
  ko_status : ExecutionResultStatus; ko_executed : bool; ko_value : option JsValue; ko_errorMessage : option string; ko_startedAt : option string; ko_completedAt : option string;
  ko_withheldByObligation : bool;
}.
(** A value that is [undefined] is left out. *)
Definition defined_value (v : option JsValue) : option JsValue := match v with Some JsUndefined => None | _ => v end.
Definition toKernelExecutionOutcome (r : ExecutionResult) : KernelExecutionOutcome :=
  {| ko_status := xr_status r; ko_executed := xr_executed r; ko_value := defined_value (xr_value r); ko_errorMessage := xr_errorMessage r; ko_startedAt := xr_startedAt r;
     ko_completedAt := xr_completedAt r; ko_withheldByObligation := false |}.
Definition no_execution (withheld : bool) : KernelExecutionOutcome :=
  {| ko_status := not_executed; ko_executed := false; ko_value := None; ko_errorMessage := None; ko_startedAt := None; ko_completedAt := None; ko_withheldByObligation := withheld |}.

(** ** Governed authority and representation *)

Inductive GovernedAuthorityCoverage :=
  | Covered (positionId : string) | ResourceNotEnrolled | NoRightAuthority | InsufficientScope (positionId : string) | IncompatibleScope (positionId : string) | AuthorityExpired (positionId : string).
Definition coverage_name (c : GovernedAuthorityCoverage) : string :=
  match c with
  | Covered _ => "covered" | ResourceNotEnrolled => "resource_not_enrolled" | NoRightAuthority => "no_right_authority" | InsufficientScope _ => "insufficient_scope"
  | IncompatibleScope _ => "incompatible_scope" | AuthorityExpired _ => "expired"
  end.
Definition isGovernedAuthorityCovered (c : GovernedAuthorityCoverage) : bool := match c with Covered _ => true | _ => false end.
Inductive GovernedRepresentationCoverage :=
  | RepresentationNotRequired | Represented (id : string) (chain : list string) | NoRepresentation | RightNotRepresented (id : string) | ActionNotRepresented (id : string)
  | RepresentationScopeExceeded (id : string) | RepresentationScopeIncompatible (id : string) | RepresentationExpired (id : string) | RepresentationRevoked (id : string)
  | BasisWithdrawn (id : string).
Definition representation_name (c : GovernedRepresentationCoverage) : string :=
  match c with
  | RepresentationNotRequired => "not_required" | Represented _ _ => "represented" | NoRepresentation => "no_representation" | RightNotRepresented _ => "right_not_represented"
  | ActionNotRepresented _ => "action_not_represented" | RepresentationScopeExceeded _ => "scope_exceeded" | RepresentationScopeIncompatible _ => "incompatible_scope"
  | RepresentationExpired _ => "expired" | RepresentationRevoked _ => "revoked" | BasisWithdrawn _ => "basis_withdrawn"
  end.
Definition isGovernedRepresentationCovered (c : GovernedRepresentationCoverage) : bool := match c with Represented _ _ | RepresentationNotRequired => true | _ => false end.
Definition representativeAuthorityId (c : GovernedRepresentationCoverage) : option string :=
  match c with
  | Represented id _ | RightNotRepresented id | ActionNotRepresented id | RepresentationScopeExceeded id | RepresentationScopeIncompatible id | RepresentationExpired id
  | RepresentationRevoked id | BasisWithdrawn id => Some id
  | _ => None
  end.

Record GovernedAuthorityQuery := {
  gq_tenantId : string; gq_holderRef : string; gq_resourceKind : string; gq_resourceId : string; gq_governedRight : string; gq_requestedScope : option Json; gq_at : string }.
Record GovernedRepresentationQuery := { rq_authority : GovernedAuthorityQuery; rq_representativeRef : string; rq_action : string }.
(** A port throws ([None]) or answers. *)
Definition GovernedAuthorityProvider : Type := GovernedAuthorityQuery → option GovernedAuthorityCoverage.
Definition GovernedRepresentationProvider : Type := GovernedRepresentationQuery → option GovernedRepresentationCoverage.

Definition AUTHORITY_GOVERNED_RIGHT_MISSING : string := "AUTHORITY_GOVERNED_RIGHT_MISSING".
Definition toReasonCode (c : GovernedAuthorityCoverage) : option string :=
  match c with
  | Covered _ | ResourceNotEnrolled => None
  | NoRightAuthority => Some AUTHORITY_GOVERNED_RIGHT_MISSING
  | InsufficientScope _ | IncompatibleScope _ => Some "AUTHORITY_GOVERNED_SCOPE_EXCEEDED"
  | AuthorityExpired _ => Some "AUTHORITY_GOVERNED_AUTHORITY_EXPIRED"
  end.
Definition toRepresentationReasonCode (c : GovernedRepresentationCoverage) : option string :=
  match c with
  | RepresentationNotRequired | Represented _ _ => None
  | NoRepresentation | RightNotRepresented _ | ActionNotRepresented _ => Some "AUTHORITY_REPRESENTATION_MISSING"
  | RepresentationScopeExceeded _ | RepresentationScopeIncompatible _ => Some "AUTHORITY_REPRESENTATION_SCOPE_EXCEEDED"
  | RepresentationExpired _ | RepresentationRevoked _ | BasisWithdrawn _ => Some "AUTHORITY_REPRESENTATION_EXPIRED"
  end.

Record GovernedAuthorityFacts := {
  gf_governedAuthority : GovernedAuthorityEvaluation; gf_representation : option GovernedRepresentationEvaluation; gf_reasonCodes : list string; gf_summary : string }.
Definition NOT_PERFORMED : GovernedAuthorityFacts :=
  {| gf_governedAuthority := {| ga_performed := false; ga_enforced := false; ga_rights := [] |}; gf_representation := None; gf_reasonCodes := []; gf_summary := "" |}.
Definition blocked (rights : list string) (holderRef outcome summary : string) : GovernedAuthorityFacts :=
  {| gf_governedAuthority := {| ga_performed := true; ga_enforced := true;
       ga_rights := (λ r, {| ge_governedRight := r; ge_holderRef := holderRef; ge_outcome := outcome; ge_covered := false |}) <$> rights |};
     gf_representation := None; gf_reasonCodes := [AUTHORITY_GOVERNED_RIGHT_MISSING]; gf_summary := summary |}.

(** The scope of the questions, once tenant and resource are known. *)
Record GovernedScope := { gs_tenantId : string; gs_representativeRef : string; gs_holderRef : string; gs_resourceKind : string; gs_resourceId : string }.
Definition governed_scope q : GovernedScope + (string * string) :=
  match organizationId q with
  | None | Some "" => inr ("tenant_unknown", "This request engages governed rights but names no organization, so no governed authority state can be scoped to it.")
  | Some tenantId =>
      match targetId q with
      | None | Some "" => inr ("resource_unknown", "This request engages governed rights but identifies no target resource to hold authority over.")
      | Some resourceId =>
          inl {| gs_tenantId := tenantId; gs_representativeRef := ak_id (kq_actor q); gs_holderRef := default (ak_id (kq_actor q)) (an_governedAuthorityHolderRef (kq_action q));
                 gs_resourceKind := default (an_type (kq_action q)) (targetType q); gs_resourceId := resourceId |}
      end
  end.
Definition authority_query q (s : GovernedScope) (at_ right : string) : GovernedAuthorityQuery :=
  {| gq_tenantId := gs_tenantId s; gq_holderRef := gs_holderRef s; gq_resourceKind := gs_resourceKind s; gq_resourceId := gs_resourceId s; gq_governedRight := right;
     gq_requestedScope := an_governedRightsScope (kq_action q); gq_at := at_ |}.
Definition right_coverage (provider : GovernedAuthorityProvider) q (s : GovernedScope) (at_ right : string) : GovernedAuthorityCoverage :=
  default NoRightAuthority (provider (authority_query q s at_ right)).
Definition right_representation (provider : GovernedRepresentationProvider) q (s : GovernedScope) (at_ right : string) : GovernedRepresentationCoverage :=
  default NoRepresentation (provider {| rq_authority := authority_query q s at_ right; rq_representativeRef := gs_representativeRef s; rq_action := named_action q |}).

Definition representation_evaluation (s : GovernedScope) (required : bool) (rights : list GovernedRightRepresentationEvaluation) : GovernedRepresentationEvaluation :=
  {| gv_performed := true; gv_required := required; gv_holderRef := gs_holderRef s; gv_representativeRef := gs_representativeRef s; gv_rights := rights |}.
Definition resolveRepresentation (provider : option GovernedRepresentationProvider) q (s : GovernedScope) (rights : list string) (at_ : string) (enforced : bool) :
    option (GovernedRepresentationEvaluation * list string) :=
  match provider with
  | None => None
  | Some provider =>
      if str_eqb (gs_representativeRef s) (gs_holderRef s) then
        Some (representation_evaluation s false ((λ r, {| gr_governedRight := r; gr_outcome := "not_required"; gr_covered := true; gr_representativeAuthorityId := None; gr_chain := None |}) <$> rights), [])
      else if negb enforced then None
      else
        let answers := (λ r, (r, right_representation provider q s at_ r)) <$> rights in
        Some (representation_evaluation s true ((λ a : string * GovernedRepresentationCoverage, {| gr_governedRight := a.1; gr_outcome := representation_name a.2;
                gr_covered := isGovernedRepresentationCovered a.2; gr_representativeAuthorityId := representativeAuthorityId a.2;
                gr_chain := match a.2 with Represented _ chain => Some chain | _ => None end |}) <$> answers),
              foldl push_code [] (toRepresentationReasonCode ∘ snd <$> answers))
  end.

Definition failing_right (name outcome : string) : string := name +:+ " (" +:+ outcome +:+ ")".
Definition authority_summary (s : GovernedScope) (failing : list string) : string :=
  "'" +:+ gs_holderRef s +:+ "' does not hold the governed authority this action engages over '" +:+ gs_resourceKind s +:+ ":" +:+ gs_resourceId s +:+ "': " +:+ join ", " failing +:+ ".".
(** The possessive apostrophe is the character U+2019. *)
Definition apostrophe : string := String "226" (String "128" (String "153" "")).
Definition representation_summary (s : GovernedScope) (failing : list string) : string :=
  "'" +:+ gs_representativeRef s +:+ "' is not authorized to exercise '" +:+ gs_holderRef s +:+ "'" +:+ apostrophe +:+ "s governed authority over '" +:+ gs_resourceKind s +:+ ":" +:+
  gs_resourceId s +:+ "': " +:+ join ", " failing +:+ ".".
Definition resolveGovernedAuthorityFacts (provider : GovernedAuthorityProvider) (representation : option GovernedRepresentationProvider) q (at_ : string) : GovernedAuthorityFacts :=
  match default [] (an_governedRights (kq_action q)) with
  | [] => NOT_PERFORMED
  | rights =>
      match governed_scope q with
      | inr (outcome, summary) => blocked rights (default (ak_id (kq_actor q)) (an_governedAuthorityHolderRef (kq_action q))) outcome summary
      | inl s =>
          let answers := (λ r, (r, right_coverage provider q s at_ r)) <$> rights in
          let enforced := existsb (λ a : string * GovernedAuthorityCoverage, match a.2 with ResourceNotEnrolled => false | _ => true end) answers in
          let evaluated := (λ a : string * GovernedAuthorityCoverage, {| ge_governedRight := a.1; ge_holderRef := gs_holderRef s; ge_outcome := coverage_name a.2;
            ge_covered := isGovernedAuthorityCovered a.2 |}) <$> answers in
          let codes := foldl push_code [] (toReasonCode ∘ snd <$> answers) in
          let authority := {| ga_performed := true; ga_enforced := enforced; ga_rights := evaluated |} in
          let failing := (λ e, failing_right (ge_governedRight e) (ge_outcome e)) <$> List.filter (λ e, negb (ge_covered e) && negb (str_eqb (ge_outcome e) "resource_not_enrolled")) evaluated in
          let authoritySummary := match codes with [] => "" | _ => authority_summary s failing end in
          match resolveRepresentation representation q s rights at_ enforced with
          | None => {| gf_governedAuthority := authority; gf_representation := None; gf_reasonCodes := codes; gf_summary := authoritySummary |}
          | Some (evaluation, representationCodes) =>
              let unrepresented := (λ e, failing_right (gr_governedRight e) (gr_outcome e)) <$> List.filter (λ e, negb (gr_covered e)) (gv_rights evaluation) in
              let representationSummary := match representationCodes with [] => "" | _ => representation_summary s unrepresented end in
              {| gf_governedAuthority := authority; gf_representation := Some evaluation;
                 gf_reasonCodes := representationCodes ++ List.filter (λ c, negb (bool_decide (c ∈ representationCodes))) codes;
                 gf_summary := join " " (List.filter nonempty [representationSummary; authoritySummary]) |}
          end
      end
  end.
Definition authority_fields (facts : GovernedAuthorityFacts) (a : AuthorityEvaluation) : AuthorityEvaluation :=
  {| av_performed := av_performed a; av_decisionId := av_decisionId a; av_proofId := av_proofId a; av_governedAuthority := Some (gf_governedAuthority facts);
     av_representation := match gf_representation facts with Some r => Some r | None => av_representation a end |}.
Definition annotate_authority (facts : GovernedAuthorityFacts) : KernelResult → KernelResult := with_fields (λ f, set_authority (authority_fields facts (rs_authority f)) f).
(** [[...codes, ...others.filter((code) => !codes.includes(code))]] *)
Definition codes_first (codes others : list string) : list string := codes ++ List.filter (λ c, negb (bool_decide (c ∈ codes))) others.
Definition applyGovernedAuthorityStep (provider : GovernedAuthorityProvider) (representation : option GovernedRepresentationProvider) q k : KernelResult :=
  match default [] (an_governedRights (kq_action q)) with
  | [] => k
  | _ =>
      if negb (bool_decide (kr_status k ∈ VIABLE_STATUSES)) then k
      else
        let facts := resolveGovernedAuthorityFacts provider representation q (rs_evaluatedAt (other_fields k)) in
        match gf_reasonCodes facts with
        | [] => annotate_authority facts k
        | codes => annotate_authority facts (with_verdict denied (codes_first codes (kr_reasonCodes k)) (gf_summary facts) k)
        end
  end.

(** ** Governed constraints *)

Record GovernedConstraintQuery := { cq_tenantId : string; cq_holderRef : string; cq_resourceKind : string; cq_resourceId : string; cq_governedRights : list string; cq_action : string; cq_at : string }.
(** The port throws ([None]) or answers a context, which the kernel hands on. *)
Definition GovernedConstraintProvider : Type := GovernedConstraintQuery → option Json.
Definition resolveGovernedConstraintContext (provider : option GovernedConstraintProvider) q (at_ : string) : result KernelThrow (option Json) :=
  match provider, default [] (an_governedRights (kq_action q)), governed_scope q with
  | Some provider, (_ :: _) as rights, inl s =>
      match provider {| cq_tenantId := gs_tenantId s; cq_holderRef := gs_holderRef s; cq_resourceKind := gs_resourceKind s; cq_resourceId := gs_resourceId s;
        cq_governedRights := rights; cq_action := named_action q; cq_at := at_ |} with
      | Some c => Ok (Some c)
      | None => Throw ConstraintProviderError
      end
  | _, _, _ => Ok None
  end.

(** ** Obligations *)

Definition EFFECTIVE_PROFILE_UNTRUSTED_OBLIGATION : string := "frontera.effectiveProfile.untrusted".
Record ObligationDischargeQuery := {
  dq_obligationTypes : list string; dq_correlation : ObligationCorrelation; dq_actorId : string; dq_trustDomainId : string; dq_at : string; dq_organizationId : option string;
  dq_targetId : option string }.
Inductive ObligationAnswer := DischargesThrew | DischargesNoList | Discharges (l : list ObligationDischargeObservation).
Definition ObligationDischargeProvider : Type := ObligationDischargeQuery → ObligationAnswer.
Record KernelObligationOptions := {
  oo_provider : ObligationDischargeProvider; oo_sources : list ObligationDischargeSource; oo_requirements : list ObligationRequirement;
  oo_profileDeclarations : list (KernelGovernanceProfileKey * list ObligationRequirement); oo_resolveEffectiveProfile : option KernelEffectiveProfileResolver }.
Record KernelObligationCapability := {
  oc_provider : ObligationDischargeProvider; oc_service : ObligationLifecycleService; oc_byProfile : JsMap ObligationLifecycleService;
  oc_resolveEffectiveProfile : option KernelEffectiveProfileResolver; oc_refusal : ObligationLifecycleService }.

Section Obligations.
Context `{JsHost}.
Definition obligation_service (sources : list ObligationDischargeSource) (rs : list ObligationRequirement) : result KernelThrow ObligationLifecycleService :=
  match createObligationLifecycleService sources rs with Ok s => Ok s | Throw _ => Throw KernelConfigurationError end.
Fixpoint obligation_profiles (sources : list ObligationDischargeSource) (m : JsMap ObligationLifecycleService) (l : list (KernelGovernanceProfileKey * list ObligationRequirement)) :
    result KernelThrow (JsMap ObligationLifecycleService) :=
  match l with
  | [] => Ok m
  | (p, rs) :: l =>
      if is_some (map_get (governanceProfileKey p) m) then Throw KernelConfigurationError
      else let* svc := obligation_service sources rs in obligation_profiles sources (map_set (governanceProfileKey p) svc m) l
  end.
Definition new_obligation_capability (o : KernelObligationOptions) : result KernelThrow KernelObligationCapability :=
  guard* assertEffectiveProfileResolver (length (oo_profileDeclarations o)) (oo_resolveEffectiveProfile o) else KernelConfigurationError in
  let* refusal := obligation_service (oo_sources o) [{| req_obligationType := EFFECTIVE_PROFILE_UNTRUSTED_OBLIGATION; req_blocking := true; req_expiresAt := None |}] in
  let* svc := obligation_service (oo_sources o) (oo_requirements o) in
  let* m := obligation_profiles (oo_sources o) [] (oo_profileDeclarations o) in
  Ok {| oc_provider := oo_provider o; oc_service := svc; oc_byProfile := m; oc_resolveEffectiveProfile := oo_resolveEffectiveProfile o; oc_refusal := refusal |}.
(** The service, and whether the profile was refused. *)
Definition select_obligations (c : KernelObligationCapability) q : ObligationLifecycleService * bool :=
  match selectEffectiveProfile (oc_resolveEffectiveProfile c) (context_view q) with
  | Refused => (oc_refusal c, true)
  | Profile key => (default (oc_service c) (map_get key (oc_byProfile c)), false)
  | Deployment => (oc_service c, false)
  end.
Definition obligationCorrelationFor q : ObligationCorrelation :=
  {| oc_requestId := kq_requestId q; oc_action := named_action q; oc_resourceScope := an_resourceScope (kq_action q) |}.
Definition resolveKernelObligations (capability : option KernelObligationCapability) q (at_ : string) : option ObligationResolution :=
  match capability with
  | None => None
  | Some c =>
      let '(svc, refused) := select_obligations c q in
      let correlation := obligationCorrelationFor q in
      let failed := unresolvedObligationResolution (svc_declared svc) (declare svc correlation at_) at_ in
      match svc_declared svc with
      | [] => None
      | declaredTypes =>
          if refused then Some failed
          else match oc_provider c {| dq_obligationTypes := declaredTypes; dq_correlation := correlation; dq_actorId := ak_id (kq_actor q);
              dq_trustDomainId := ak_trustDomainId (kq_actor q); dq_at := at_; dq_organizationId := organizationId q; dq_targetId := targetId q |} with
          | DischargesThrew | DischargesNoList => Some failed
          | Discharges observations => Some (resolve_obligations svc observations correlation at_)
          end
      end
  end.

Definition state_name (s : ObligationState) : string :=
  match s with ob_required => "required" | ob_pending => "pending" | ob_discharged => "discharged" | ob_verified => "verified" | ob_waived => "waived" | ob_expired => "expired" end.
Definition STATE_TO_EXERCISE_REASON_CODE (s : ObligationState) : string :=
  match s with ob_discharged => "OBLIGATION_DISCHARGE_UNVERIFIED" | ob_expired => "OBLIGATION_EXPIRED" | _ => "OBLIGATION_PENDING" end.
Record KernelObligationFacts := { of_evaluation : ObligationEvaluation; of_eligible : bool }.
Definition toObligationInstanceEvaluation (i : ObligationInstance) : ObligationInstanceEvaluation :=
  {| oe_instance := i; oe_satisfied := obligationIsSatisfied i; oe_terminal := obligationIsTerminal i; oe_withholdsExercise := obligationWithholdsExercise i |}.
Definition resolveKernelObligationFacts (r : ObligationResolution) : KernelObligationFacts :=
  let withholding := List.filter obligationWithholdsExercise (or_obligations r) in
  let eligible := (length withholding =? 0)%nat in
  let described := join ", " ((λ i, oi_obligationType i +:+ " (" +:+ state_name (oi_state i) +:+ ")") <$> withholding) in
  {| of_evaluation := {| ov_performed := true; ov_resolved := or_resolved r; ov_declaredTypes := or_declaredTypes r; ov_obligations := toObligationInstanceEvaluation <$> or_obligations r;
       ov_exerciseEligibility := if eligible then ob_eligible else ob_blocked; ov_allBlockingObligationsSatisfied := eligible;
       ov_exerciseReasonCodes := foldl push_code [] ((λ i, Some (STATE_TO_EXERCISE_REASON_CODE (oi_state i))) <$> withholding);
       ov_summary := if eligible then None
         else Some ("The authorization stands; exercise is withheld until every blocking obligation is discharged: " +:+ described +:+ ".");
       ov_disregarded := or_disregarded r |};
     of_eligible := eligible |}.
Definition applyObligationStep (r : option ObligationResolution) k : KernelResult :=
  match r with None => k | Some r => with_fields (set_obligations (of_evaluation (resolveKernelObligationFacts r))) k end.
Definition isExecutableStatus (s : KernelDecisionStatus) : bool := bool_decide (s = allowed).
End Obligations.

(** ** The external port *)

Definition EXTERNAL_AUTHORIZATION_MAX_TIMEOUT_MS : Z := 30000.
Record ExternalAuthorizationInput := {
  ei_requestId : string; ei_actor : string; ei_domain : string; ei_organizationId : option string; ei_action : string; ei_capability : option string; ei_scope : string;
  ei_targetType : option string; ei_targetId : option string; ei_at : string }.
(** What wins the race of the port's answer with the timer, and whether the
    bound had passed when the winner was seen. *)
Inductive RaceWinner := PortAnswered (response : JsValue) | PortFailed | TimerFired.
Record ExternalAuthorizationProvider := { xp_race : ExternalAuthorizationInput → RaceWinner; xp_past_bound : ExternalAuthorizationInput → bool }.
Record KernelExternalAuthorizationCapability := { xc_provider : ExternalAuthorizationProvider; xc_timeoutMs : JsNumber }.
Definition new_external_capability (p : ExternalAuthorizationProvider) (timeoutMs : JsNumber) : result KernelThrow KernelExternalAuthorizationCapability :=
  guard* isSafeInteger timeoutMs && (1 <=? integer_value timeoutMs) && (integer_value timeoutMs <=? EXTERNAL_AUTHORIZATION_MAX_TIMEOUT_MS) else KernelConfigurationError in
  Ok {| xc_provider := p; xc_timeoutMs := timeoutMs |}.
Definition OUTCOME_REASON_CODE (o : ExternalOutcome) : option string :=
  match o with
  | ex_denied => Some "EXTERNAL_AUTHORIZATION_DENIED" | ex_unavailable => Some "EXTERNAL_AUTHORIZATION_UNAVAILABLE" | ex_timeout => Some "EXTERNAL_AUTHORIZATION_TIMEOUT"
  | ex_invalid_response => Some "EXTERNAL_AUTHORIZATION_INVALID_RESPONSE" | ex_allowed | ex_not_consulted => None
  end.
Definition OUTCOME_SUMMARY (o : ExternalOutcome) : string :=
  match o with
  | ex_denied => "The configured external authorization port denied an action the Kernel had allowed."
  | ex_unavailable => "The configured external authorization port failed instead of answering; an unanswered external check denies."
  | ex_timeout => "The configured external authorization port did not answer within its configured bound; the action is denied."
  | ex_invalid_response => "The configured external authorization port returned a response that is not a valid decision; the action is denied."
  | ex_allowed | ex_not_consulted => ""
  end.
Definition classify_response (v : JsValue) : ExternalOutcome :=
  match v with
  | JsObject true [(key, JsString d)] =>
      if negb (str_eqb key "decision") then ex_invalid_response else if str_eqb d "allow" then ex_allowed else if str_eqb d "deny" then ex_denied else ex_invalid_response
  | _ => ex_invalid_response
  end.
Record ExternalAuthorizationFacts := { xf_outcome : ExternalOutcome; xf_permits : bool }.
Definition toInput q (at_ : string) : ExternalAuthorizationInput :=
  {| ei_requestId := kq_requestId q; ei_actor := ak_id (kq_actor q); ei_domain := ak_trustDomainId (kq_actor q); ei_organizationId := organizationId q;
     ei_action := an_type (kq_action q); ei_capability := an_capability (kq_action q); ei_scope := an_resourceScope (kq_action q); ei_targetType := targetType q;
     ei_targetId := targetId q; ei_at := at_ |}.
Definition resolveExternalAuthorization (c : KernelExternalAuthorizationCapability) q (at_ : string) : ExternalAuthorizationFacts :=
  let i := toInput q at_ in
  let won := match xp_race (xc_provider c) i with PortAnswered v => classify_response v | PortFailed => ex_unavailable | TimerFired => ex_timeout end in
  let outcome := if xp_past_bound (xc_provider c) i then ex_timeout else won in
  {| xf_outcome := outcome; xf_permits := bool_decide (outcome = ex_allowed) |}.
Definition withTraceStep (x : ExternalAuthorizationEvaluation) (status : KernelTraceStepStatus) k : KernelResult :=
  let t := rs_trace (other_fields k) in
  let step := {| tr_sequence := default 0 (tr_sequence <$> last (tr_steps t)) + 1; tr_operator := "external_authorization"; tr_status := status; tr_reasonCodes := option_list (xe_reasonCode x) |} in
  with_fields (set_external x {| tr_steps := tr_steps t ++ [step]; tr_decisionId := tr_decisionId t; tr_kernelVersion := tr_kernelVersion t |}) k.
Definition applyExternalAuthorizationStep (facts : option ExternalAuthorizationFacts) k : KernelResult :=
  match facts with
  | None => k
  | Some f =>
      let narrows := bool_decide (kr_status k = allowed) && negb (xf_permits f) in
      let code := OUTCOME_REASON_CODE (xf_outcome f) in
      let annotated := withTraceStep {| xe_performed := true; xe_outcome := xf_outcome f; xe_narrowed := narrows; xe_reasonCode := code |} (if xf_permits f then ts_passed else ts_failed) k in
      match code with
      | Some c => if narrows then with_verdict denied (c :: List.filter (λ x, negb (str_eqb x c)) (kr_reasonCodes k)) (OUTCOME_SUMMARY (xf_outcome f)) annotated else annotated
      | None => annotated
      end
  end.
Definition recordExternalAuthorizationNotConsulted k : KernelResult :=
  withTraceStep {| xe_performed := false; xe_outcome := ex_not_consulted; xe_narrowed := false; xe_reasonCode := None |} ts_skipped k.

(** ** Grants *)

(** A lifetime is a whole number of seconds whose milliseconds are a finite
    double. *)
Record GrantDeclaration := { maximumGrantLifetimeSeconds : option Z }.
Definition assertValidGrantDeclaration (d : GrantDeclaration) : result KernelThrow () :=
  guard* match maximumGrantLifetimeSeconds d with None => true | Some s => 0 <? s end else KernelConfigurationError in Ok ().
Definition NOT_ANSWERABLE_BY_APPROVAL : list string := ["EVIDENCE_REQUIRED"; "EVIDENCE_INVALID"; "RECOGNITION_HANDSHAKE_INVALID"].
Definition AWAITING_APPROVAL : list string := ["APPROVAL_REQUIRED"; "APPROVAL_PENDING"].
Definition decisionAwaitsHumanApproval k : bool :=
  bool_decide (kr_status k = approval_required) && negb (existsb (λ c, bool_decide (c ∈ NOT_ANSWERABLE_BY_APPROVAL)) (kr_reasonCodes k)) &&
  existsb (λ c, bool_decide (c ∈ AWAITING_APPROVAL)) (kr_reasonCodes k).
Definition withVerifiedHumanApproval (source : GrantSourceAuthorization) k (digest : string) : GrantSourceAuthorization :=
  if negb (decisionAwaitsHumanApproval k) || negb (nonempty digest) then source
  else {| correlation := correlation source; subject := subject source; scope := scope source; authorizationPermitsExercise := true;
          allBlockingObligationsSatisfied := allBlockingObligationsSatisfied source; evaluatedAt := evaluatedAt source; validityCeilings := validityCeilings source;
          contextDigest := contextDigest source; approvalDigest := Some digest |}.

Definition grant_code_name (c : GrantReasonCode) : string :=
  match c with
  | GRANT_AUTHORIZATION_NOT_PERMITTED => "GRANT_AUTHORIZATION_NOT_PERMITTED" | GRANT_OBLIGATIONS_UNSATISFIED => "GRANT_OBLIGATIONS_UNSATISFIED"
  | GRANT_SOURCE_BOUNDS_INCOMPLETE => "GRANT_SOURCE_BOUNDS_INCOMPLETE" | GRANT_SCOPE_BROADENING => "GRANT_SCOPE_BROADENING" | GRANT_BOUND_INCOMPARABLE => "GRANT_BOUND_INCOMPARABLE"
  | GRANT_SUBJECT_INVALID => "GRANT_SUBJECT_INVALID" | GRANT_CORRELATION_INVALID => "GRANT_CORRELATION_INVALID" | GRANT_VALIDITY_INVALID => "GRANT_VALIDITY_INVALID"
  | GRANT_ELIGIBILITY_CHANGED => "GRANT_ELIGIBILITY_CHANGED" | GRANT_ALREADY_ISSUED => "GRANT_ALREADY_ISSUED" | GRANT_EXPIRED => "GRANT_EXPIRED" | GRANT_REVOKED => "GRANT_REVOKED"
  | GRANT_NOT_FOUND => "GRANT_NOT_FOUND" | GRANT_SEMANTICS_FORMAT_INVALID => "GRANT_SEMANTICS_FORMAT_INVALID"
  end.
Definition ineligible_summary (codes : list GrantReasonCode) : string :=
  "The authorization is reported exactly as the policy layers concluded it; no bounded grant may be derived from it yet: " +:+ join ", " (grant_code_name <$> codes) +:+ ".".

Section Grants.
Context `{JsHost} `{ContextHost}.
(** [toISOString] throws beyond the range of dates. *)
Definition deploymentGrantValidityCeiling (d : GrantDeclaration) (evaluatedAt : string) : result KernelThrow (option GrantValidityCeiling) :=
  match maximumGrantLifetimeSeconds d, date_parse evaluatedAt with
  | Some seconds, Some anchor =>
      match iso_of (anchor + seconds * 1000) with Some t => Ok (Some {| ceiling_source := c_deployment; notAfter := t |}) | None => Throw DateRangeError end
  | _, _ => Ok None
  end.
Definition grantCorrelationFor q (decisionId : string) : GrantCorrelation :=
  {| requestId := kq_requestId q; GrantAttenuation.decisionId := decisionId; cor_action := named_action q; resourceScope := an_resourceScope (kq_action q) |}.
Definition parameterBoundsFor (ps : list DeclaredGovernedParameter) : list GrantParameterBound :=
  match mapM (λ p, (λ b, {| pb_dimension := dimension (Parameters.declared p); pb_bound := b |}) <$> governedParameterBoundFor (declared_bound p) (parameter_value (Parameters.declared p))) ps with
  | Some bounds => bounds
  | None => []
  end.
Definition if_stated (s : string) (b : GrantBound) : option GrantBound := if nonempty s then Some b else None.
Definition sourceScopeFor q : GrantScope :=
  let a := kq_action q in
  {| s_action := if_stated (named_action q) (Identity (named_action q)); s_actionClass := Identity ∘ actionClass <$> an_semantics a; s_amount := None;
     s_counterparty := Identity <$> an_counterpartyId a; s_governanceProfile := Identity ∘ formatGovernanceProfileReference ∘ governanceProfile <$> an_semantics a;
     s_organization := Identity <$> organizationId q; s_resourceClass := Identity ∘ resourceClass <$> an_semantics a;
     s_resources := if_stated (an_resourceScope a) (SetOf [an_resourceScope a]); s_parameters := parameterBoundsFor <$> an_governedParameters a |}.
Definition validityCeilingsFor (d : GrantDeclaration) k : result KernelThrow (list GrantValidityCeiling) :=
  let* deployment := deploymentGrantValidityCeiling d (rs_evaluatedAt (other_fields k)) in
  let decision := match kr_context k ≫= ev_validUntil with
    | Some t => if is_some (date_parse t) then [{| ceiling_source := c_decision; notAfter := t |}] else []
    | None => []
    end in
  Ok (decision ++ option_list deployment).
Definition deriveGrantSourceAuthorization (d : GrantDeclaration) q k : result KernelThrow GrantSourceAuthorization :=
  let* ceilings := validityCeilingsFor d k in
  Ok {| correlation := grantCorrelationFor q (rs_decisionId (other_fields k)); subject := ak_id (kq_actor q); scope := sourceScopeFor q;
        authorizationPermitsExercise := bool_decide (kr_status k = allowed);
        allBlockingObligationsSatisfied := match rs_obligations (other_fields k) with None => true | Some o => ov_allBlockingObligationsSatisfied o end;
        evaluatedAt := rs_evaluatedAt (other_fields k); validityCeilings := ceilings; contextDigest := kr_context k ≫= ev_digest; approvalDigest := None |}.
Definition toBoundEvaluations (s : GrantScope) : list GrantBoundEvaluation :=
  omap (λ key, AxisBound key <$> grantScopeBound s key) (statedGrantBoundKeys s) ++ ((λ p, ParameterBound (pb_dimension p) (pb_bound p)) <$> default [] (s_parameters s)).
Definition resolveKernelGrantFacts (d : GrantDeclaration) q k : result KernelThrow GrantEvaluation :=
  let* source := deriveGrantSourceAuthorization d q k in
  let assessment := assessGrantEligibility source in
  Ok {| gx_performed := true; gx_eligibility := assessment.1; gx_correlation := correlation source; gx_subject := subject source; gx_sourceBounds := toBoundEvaluations (scope source);
        gx_validityCeilings := validityCeilings source; gx_ineligibilityReasonCodes := assessment.2;
        gx_summary := match assessment.1 with eligible => None | ineligible => Some (ineligible_summary assessment.2) end |}.
Definition applyGrantStep (d : option GrantDeclaration) q k : result KernelThrow KernelResult :=
  match d with None => Ok k | Some d => let* g := resolveKernelGrantFacts d q k in Ok (with_fields (set_grants g) k) end.
End Grants.

(** ** Invariants *)

(** [deepEqual] on data, whatever the order of the keys. [Object.is] holds of
    equal primitive values, and of objects only when they have the same parts. *)
Fixpoint deepEqual (a b : Json) {struct a} : bool :=
  json_eqb a b ||
  match a, b with
  | JArr l, JArr m => (fix every l m := match l, m with [], [] => true | x :: l, y :: m => deepEqual x y && every l m | _, _ => false end) l m
  | JObj fs, JObj gs =>
      bool_decide (sort_strings (fst <$> fs) = sort_strings (fst <$> gs)) &&
      (fix every fs := match fs with
       | [] => true
       | p :: fs => match map_get p.1 gs with Some y => deepEqual p.2 y | None => false end && every fs
       end) fs
  | _, _ => false
  end.
Lemma deepEqual_refl a : deepEqual a a = true.
Proof. destruct a; cbn [deepEqual]; by rewrite (proj2 (json_eqb_eq _ _) eq_refl). Qed.
Definition optionally_equal (a b : option Json) : bool := match a, b with None, None => true | Some a, Some b => deepEqual a b | _, _ => false end.
(** Requests with the same fields; their open-ended fields are compared deeply. *)
#[export] Instance ActorReference_eq_dec : EqDecision ActorReference.
Proof. solve_decision. Defined.
#[export] Instance TargetReference_eq_dec : EqDecision TargetReference.
Proof. solve_decision. Defined.
#[export] Instance OrganizationReference_eq_dec : EqDecision OrganizationReference.
Proof. solve_decision. Defined.
#[export] Instance GovernedParameter_eq_dec : EqDecision GovernedParameter.
Proof. solve_decision. Defined.
#[export] Instance GovernedParameterBoundKind_eq_dec : EqDecision GovernedParameterBoundKind.
Proof. solve_decision. Defined.
#[export] Instance ExecutionRiskLevel_eq_dec : EqDecision ExecutionRiskLevel.
Proof. solve_decision. Defined.
#[export] Instance DeclaredGovernedParameter_eq_dec : EqDecision DeclaredGovernedParameter.
Proof. solve_decision. Defined.
#[export] Instance GovernanceProfileReference_eq_dec : EqDecision GovernanceProfileReference.
Proof. solve_decision. Defined.
#[export] Instance GovernedActionSemantics_eq_dec : EqDecision GovernedActionSemantics.
Proof. solve_decision. Defined.
#[export] Instance ActionDescriptor_eq_dec : EqDecision ActionDescriptor.
Proof. solve_decision. Defined.
#[export] Instance KernelRequest_eq_dec : EqDecision KernelRequest.
Proof. solve_decision. Defined.
Definition closed_action (a : ActionDescriptor) : ActionDescriptor :=
  {| an_type := an_type a; an_domain := an_domain a; an_jurisdiction := an_jurisdiction a; an_country := an_country a; an_industry := an_industry a; an_customerId := an_customerId a;
     an_capability := an_capability a; an_resourceScope := an_resourceScope a; an_riskLevel := an_riskLevel a; an_sideEffectType := an_sideEffectType a; an_amount := an_amount a;
     an_currency := an_currency a; an_counterpartyId := an_counterpartyId a; an_dataDomains := an_dataDomains a; an_evidenceIds := an_evidenceIds a; an_parameters := None;
     an_semantics := an_semantics a; an_governedParameters := an_governedParameters a; an_governedRights := an_governedRights a; an_governedRightsScope := None;
     an_governedAuthorityHolderRef := an_governedAuthorityHolderRef a |}.
Definition closed_fields q : KernelRequest :=
  {| kq_requestId := kq_requestId q; kq_actor := kq_actor q; kq_action := closed_action (kq_action q); kq_target := kq_target q; kq_organization := kq_organization q; kq_context := None;
     kq_requestedAt := kq_requestedAt q; kq_correlationId := kq_correlationId q; kq_approvalProofId := kq_approvalProofId q; kq_approvalRequestId := kq_approvalRequestId q;
     kq_approvalDecisionId := kq_approvalDecisionId q; kq_visaId := kq_visaId q; kq_ingressGrantId := kq_ingressGrantId q; kq_handshakeProofId := kq_handshakeProofId q;
     kq_idempotencyKey := kq_idempotencyKey q; kq_expiresAt := kq_expiresAt q |}.
Definition requests_equal (before after : KernelRequest) : bool :=
  bool_decide (closed_fields before = closed_fields after) && optionally_equal (JObj <$> kq_context before) (JObj <$> kq_context after) &&
  optionally_equal (an_parameters (kq_action before)) (an_parameters (kq_action after)) &&
  optionally_equal (an_governedRightsScope (kq_action before)) (an_governedRightsScope (kq_action after)).
Definition assertRequestNotMutated (before after : KernelRequest) : result KernelThrow () :=
  guard* requests_equal before after else
    KernelInvariantError ("Kernel invariant violated: KernelEvaluationRequest " +:+ kq_requestId before +:+ " was mutated during evaluation.") in
  Ok ().
Definition assertRecognitionPrecedesAllow k : result KernelThrow () :=
  let r := rs_recognition (other_fields k) in
  guard* negb (bool_decide (kr_status k = allowed) && (negb (rv_performed r) || negb (bool_decide (rv_recognized r = Some true)))) else
    KernelInvariantError ("Kernel invariant violated: decision " +:+ rs_decisionId (other_fields k) +:+ " was 'allowed' without a performed, recognized recognition evaluation.") in
  Ok ().
Definition assertReasonCodesPresent k : result KernelThrow () :=
  guard* negb ((length (kr_reasonCodes k) =? 0)%nat) else
    KernelInvariantError ("Kernel invariant violated: decision " +:+ rs_decisionId (other_fields k) +:+ " carries no reason codes.") in
  Ok ().
Definition assertKernelInvariants (request requestSnapshot : KernelRequest) k : result KernelThrow () :=
  let* _ := assertRequestNotMutated requestSnapshot request in
  let* _ := assertReasonCodesPresent k in
  assertRecognitionPrecedesAllow k.

(** ** The operations *)

Record AocKernel := {
  ke_enforcement : EnforcementConfiguration;
  ke_authority : option GovernedAuthorityProvider;
  ke_representation : option GovernedRepresentationProvider;
  ke_constraints : option GovernedConstraintProvider;
  ke_context : option KernelContextCapability;
  ke_obligations : option KernelObligationCapability;
  ke_grants : option GrantDeclaration;
  ke_external : option KernelExternalAuthorizationCapability;
}.

Record AocKernelOptions := {
  ao_enforcement : EnforcementConfiguration; ao_authority : option GovernedAuthorityProvider; ao_representation : option GovernedRepresentationProvider;
  ao_constraints : option GovernedConstraintProvider; ao_contextResolution : option KernelContextResolutionOptions; ao_obligations : option KernelObligationOptions;
  ao_grants : option GrantDeclaration; ao_external : option (ExternalAuthorizationProvider * JsNumber); ao_emergencyDeny : option bool; ao_adapters : list EnforcementAdapter;
}.
Definition optionally {A B} (f : A → result KernelThrow B) (o : option A) : result KernelThrow (option B) := match o with None => Ok None | Some a => let* b := f a in Ok (Some b) end.
Definition register_adapters (l : list EnforcementAdapter) (rt : ActionEnforcementRuntime) : ActionEnforcementRuntime := foldl (λ rt a, (registerAdapter a rt).2) rt l.
Definition createAocKernel `{JsHost} (o : AocKernelOptions) : result KernelThrow (AocKernel * ActionEnforcementRuntime) :=
  let* context := optionally (λ c, match new_capability c with Ok c => Ok c | Throw _ => Throw KernelConfigurationError end) (ao_contextResolution o) in
  let* obligations := optionally new_obligation_capability (ao_obligations o) in
  let* grants := optionally (λ d, let* _ := assertValidGrantDeclaration d in Ok d) (ao_grants o) in
  let* external := optionally (λ p, new_external_capability p.1 p.2) (ao_external o) in
  Ok ({| ke_enforcement := ao_enforcement o; ke_authority := ao_authority o; ke_representation := ao_representation o; ke_constraints := ao_constraints o; ke_context := context;
         ke_obligations := obligations; ke_grants := grants; ke_external := external |},
      register_adapters (ao_adapters o) (createActionEnforcementRuntime (default false (ao_emergencyDeny o)))).

(** Operations on the enforcement runtime that may throw a kernel error. *)
Definition KM (A : Type) : Type := ActionEnforcementRuntime → result KernelThrow A * ActionEnforcementRuntime.
Definition kret {A} (a : A) : KM A := λ rt, (Ok a, rt).
Definition kbind {A B} (m : KM A) (f : A → KM B) : KM B := λ rt, match m rt with (Ok a, rt') => f a rt' | (Throw e, rt') => (Throw e, rt') end.
Definition pure {A} (r : result KernelThrow A) : KM A := λ rt, (r, rt).
(** [try] around an operation of the runtime. *)
Definition attempted {A} (m : M A) : KM (EnforcementThrow + A) := λ rt, match m rt with (Ok a, rt') => (Ok (inr a), rt') | (Throw e, rt') => (Ok (inl e), rt') end.
Definition of_context {A} (r : result ContextThrow A) : result KernelThrow A := match r with Ok a => Ok a | Throw e => Throw (KernelContextError e) end.
Local Notation "'run*' x ':=' m 'in' k" := (kbind m (fun x => k)) (at level 200, x name, m at level 100, k at level 200).

Section Operations.
Context `{JsHost} `{ContextHost} (K : AocKernel).
Notation cfg := (ke_enforcement K).

Definition kernel_now : KM string := λ rt, (Ok (clock_now (cfg_ctx cfg) (rt_calls rt)), tick rt).
Definition kernel_id (prefix : string) : KM string := λ rt, (Ok (ids_nextId (cfg_ctx cfg) (rt_calls rt) prefix), tick rt).
(** A result made without a decision of the guard. *)
Definition bare_result q (decisionId : string) (status : KernelDecisionStatus) (codes : list string) (summary : string) (authority : AuthorityEvaluation) (context : option ContextEvaluation)
    (at_ : string) : KernelResult :=
  {| kr_status := status; kr_reasonCodes := codes; kr_summary := summary; kr_context := context;
     other_fields := {| rs_requestId := kq_requestId q; rs_decisionId := decisionId;
       rs_recognition := {| rv_performed := false; rv_decisionId := None; rv_decisionType := None; rv_recognized := None; rv_reasonCode := None; rv_reason := None |};
       rs_authority := authority; rs_policies := [];
       rs_approval := {| pv_performed := false; pv_status := ap_not_applicable; pv_requestId := None; pv_decisionId := None; pv_proofId := None |}; rs_evidence := [];
       rs_obligations := None; rs_grants := None; rs_externalAuthorization := None;
       rs_trace := {| tr_steps := []; tr_decisionId := decisionId; tr_kernelVersion := AOC_KERNEL_VERSION |}; rs_evaluatedAt := at_; rs_kernelVersion := AOC_KERNEL_VERSION;
       rs_correlationId := kq_correlationId q |} |}.
Definition no_authority : AuthorityEvaluation := {| av_performed := false; av_decisionId := None; av_proofId := None; av_governedAuthority := None; av_representation := None |}.
Definition buildIndeterminateResult q (message : string) : KM KernelResult :=
  run* decisionId := kernel_id "kernel-indeterminate" in
  run* at_ := kernel_now in
  kret (bare_result q decisionId indeterminate ["KERNEL_INDETERMINATE"] ("Kernel evaluation could not complete: " +:+ message) no_authority None at_).

(** What a call gathers from the ports before it meets the guard. *)
Record Gathered := {
  gt_constraints : option Json; gt_resolution : option ContextResolution; gt_facts : option KernelContextFacts; gt_obligations : option ObligationResolution }.
Definition context_facts q (r : option ContextResolution) : result KernelThrow (option KernelContextFacts) :=
  match ke_context K, r with
  | Some c, Some r => let* f := of_context (resolveKernelContextFacts c r (context_view q)) in Ok (Some f)
  | _, _ => Ok None
  end.
Definition guard_input_of q (options : option KernelEvaluationOptions) (g : Gathered) : GuardActionRequestInput :=
  toGuardActionRequestInput q options (gt_constraints g) (gt_resolution g) (kf_admitted <$> gt_facts g).

(** [evaluate], up to the guard. *)
Definition evaluate_prepare q : KM Gathered :=
  run* _ := pure (validateKernelEvaluationRequest q) in
  run* t1 := kernel_now in
  run* constraints := pure (resolveGovernedConstraintContext (ke_constraints K) q t1) in
  run* t2 := kernel_now in
  run* resolution := pure (of_context (resolveKernelContext (ke_context K) (context_view q) t2)) in
  run* t3 := kernel_now in
  let obligations := resolveKernelObligations (ke_obligations K) q t3 in
  run* facts := pure (context_facts q resolution) in
  kret {| gt_constraints := constraints; gt_resolution := resolution; gt_facts := facts; gt_obligations := obligations |}.
(** An evaluation asks the external port only about what is allowed so far. *)
Definition external_layer q k : KernelResult :=
  match ke_external K with
  | None => k
  | Some c =>
      if bool_decide (kr_status k = allowed) then applyExternalAuthorizationStep (Some (resolveExternalAuthorization c q (rs_evaluatedAt (other_fields k)))) k
      else recordExternalAuthorizationNotConsulted k
  end.
(** The steps after the guard's decision. *)
Definition evaluate_steps q (g : Gathered) k : result KernelThrow KernelResult :=
  let authorityResult := match ke_authority K with None => k | Some p => applyGovernedAuthorityStep p (ke_representation K) q k end in
  let* contextResult := of_context (applyContextStep (ke_context K) (gt_resolution g) authorityResult (context_view q)) in
  let* r := applyGrantStep (ke_grants K) q (applyObligationStep (gt_obligations g) (external_layer q contextResult)) in
  let* _ := assertKernelInvariants q q r in
  Ok r.
Definition evaluate_decide q (options : option KernelEvaluationOptions) (g : Gathered) : KM KernelResult :=
  run* decision := attempted (guard_preflight cfg (guard_input_of q options g)) in
  match decision with
  | inl e => buildIndeterminateResult q "recognitionProvider failed during evaluation"
  | inr d => pure (evaluate_steps q g (toKernelEvaluationResult (kq_requestId q) d (kq_correlationId q)))
  end.
Definition evaluate q (options : option KernelEvaluationOptions) : KM KernelResult := run* g := evaluate_prepare q in evaluate_decide q options g.

(** [enforce]: a denial before the guard, or what its ports answered. *)
Record KernelEnforcementResult := { er_result : KernelResult; er_execution : KernelExecutionOutcome }.
Record EnforcePlan := { ep_gathered : Gathered; ep_authority : option GovernedAuthorityFacts; ep_external : option ExternalAuthorizationFacts }.
Definition denied_early q k : KM (KernelEnforcementResult + EnforcePlan) :=
  run* _ := pure (assertKernelInvariants q q k) in kret (inl {| er_result := k; er_execution := no_execution false |}).
(** The ports after the authority: constraints, context, obligations, and the
    external one last. *)
Definition enforce_gather q (authority : option GovernedAuthorityFacts) : KM (KernelEnforcementResult + EnforcePlan) :=
  run* t1 := kernel_now in
  run* constraints := pure (resolveGovernedConstraintContext (ke_constraints K) q t1) in
  run* t2 := kernel_now in
  run* resolution := pure (of_context (resolveKernelContext (ke_context K) (context_view q) t2)) in
  run* facts := pure (context_facts q resolution) in
  match facts with
  | Some {| kf_reasonCodes := (_ :: _) as codes; kf_summary := summary; kf_evaluation := evaluation |} =>
      run* decisionId := kernel_id "kernel-context-denied" in
      run* at_ := kernel_now in
      denied_early q (bare_result q decisionId denied codes summary no_authority (Some evaluation) at_)
  | _ =>
      run* t3 := kernel_now in
      let obligations := resolveKernelObligations (ke_obligations K) q t3 in
      run* external := match ke_external K with None => kret None | Some c => run* t4 := kernel_now in kret (Some (resolveExternalAuthorization c q t4)) end in
      kret (inr {| ep_gathered := {| gt_constraints := constraints; gt_resolution := resolution; gt_facts := facts; gt_obligations := obligations |};
                   ep_authority := authority; ep_external := external |})
  end.
Definition enforce_prepare q : KM (KernelEnforcementResult + EnforcePlan) :=
  run* _ := pure (validateKernelEvaluationRequest q) in
  run* authority := match ke_authority K with
    | None => kret None
    | Some p => run* t0 := kernel_now in kret (Some (resolveGovernedAuthorityFacts p (ke_representation K) q t0))
    end in
  match authority with
  | Some {| gf_reasonCodes := (_ :: _) as codes |} as authority =>
      run* decisionId := kernel_id "kernel-governed-authority-denied" in
      run* at_ := kernel_now in
      let evaluation := authority_fields (default NOT_PERFORMED authority) {| av_performed := true; av_decisionId := None; av_proofId := None; av_governedAuthority := None; av_representation := None |} in
      denied_early q (bare_result q decisionId denied codes (gf_summary (default NOT_PERFORMED authority)) evaluation None at_)
  | _ => enforce_gather q authority
  end.

(** What the plan adds to the guard's decision; [q] is the request as it is now,
    [snapshot] as it was received. *)
Definition enforce_steps (snapshot : KernelRequest) q (p : EnforcePlan) k : result KernelThrow KernelResult :=
  let withAuthority := match ep_authority p with None => k | Some f => annotate_authority f k end in
  let withContext := match gt_facts (ep_gathered p) with None => withAuthority | Some f => with_context (kf_evaluation f) withAuthority end in
  let withExternal := applyExternalAuthorizationStep (ep_external p) withContext in
  let* r := applyGrantStep (ke_grants K) q (applyObligationStep (gt_obligations (ep_gathered p)) withExternal) in
  let* _ := assertKernelInvariants q snapshot r in
  Ok r.
Definition plan_eligible (p : EnforcePlan) : bool := match gt_obligations (ep_gathered p) with None => true | Some r => of_eligible (resolveKernelObligationFacts r) end.
Definition plan_permitted (p : EnforcePlan) : bool := match ep_external p with None => true | Some f => xf_permits f end.
Definition indeterminate_enforcement q : KM KernelEnforcementResult :=
  run* k := buildIndeterminateResult q "recognitionProvider failed during enforcement" in kret {| er_result := k; er_execution := no_execution false |}.
Definition concluded (snapshot : KernelRequest) q (p : EnforcePlan) (o : EnforcementOutcome) : result KernelThrow KernelEnforcementResult :=
  let* r := enforce_steps snapshot q p (toKernelEvaluationResult (kq_requestId q) (eo_decision o) (kq_correlationId q)) in
  Ok {| er_result := r; er_execution := toKernelExecutionOutcome (eo_result o) |}.
(** The guard is met: the executor runs, or the call is over. *)
Definition enforce_go q (options : option KernelEvaluationOptions) (p : EnforcePlan) : KM (Execution + KernelEnforcementResult) :=
  let input := guard_input_of q options (ep_gathered p) in
  if negb (plan_eligible p) || negb (plan_permitted p) then
    run* decision := attempted (guard_preflight cfg input) in
    match decision with
    | inl e => run* r := indeterminate_enforcement q in kret (inr r)
    | inr d =>
        run* r := pure (enforce_steps q q p (toKernelEvaluationResult (kq_requestId q) d (kq_correlationId q))) in
        kret (inr {| er_result := r; er_execution := no_execution (isExecutableStatus (kr_status r)) |})
    end
  else
    run* outcome := attempted (guard_enforce cfg input) in
    match outcome with
    | inl (PostExecutionRecordMissing _) => pure (Throw KernelExecutionError)
    | inl _ => run* r := indeterminate_enforcement q in kret (inr r)
    | inr (inl x) => kret (inl x)
    | inr (inr o) => run* r := pure (concluded q q p o) in kret (inr r)
    end.
(** The executor settled, and left the request as [q]. *)
Definition enforce_finish (snapshot : KernelRequest) q (p : EnforcePlan) (x : Execution) (a : ExecutorAnswer) : KM KernelEnforcementResult :=
  run* outcome := attempted (run_finish cfg x a) in
  match outcome with
  | inl (PostExecutionRecordMissing _) => pure (Throw KernelExecutionError)
  | inl _ => indeterminate_enforcement q
  | inr o => pure (concluded snapshot q p o)
  end.
Definition enforce q (options : option KernelEvaluationOptions) : KM (KernelEnforcementResult + EnforcePlan * Execution) :=
  run* plan := enforce_prepare q in
  match plan with
  | inl r => kret (inl r)
  | inr p => run* out := enforce_go q options p in kret (match out with inl x => inr (p, x) | inr r => inl r end)
  end.
End Operations.
