(* ===== verification/KernelSafety.v ===== *)
(** * What the kernel guarantees

    Over [Kernel]: an evaluation is allowed exactly when every layer permits,
    and an enforcement invokes the executor exactly then, whatever happened to
    the enforcement runtime between the ports' answers and the guard; no layer
    widens what the ones before it concluded; a grant is derivable exactly from
    an allowed decision with its blocking obligations met. *)

From S2P Require Import Prelude Decimal Js JsMap StableJson HashChain Parameters GrantBounds GrantAttenuation Obligations ContextResolution ContextSafety ContextStep Enforcement EnforcementRuntime EnforcementSafety Kernel.

Local Open Scope Z_scope.
Local Open Scope frontera_scope.

Implicit Types (q : KernelRequest) (k : KernelResult) (rt : ActionEnforcementRuntime).

Lemma kbind_Ok {A B} (m : KM A) (f : A → KM B) rt b rt' : kbind m f rt = (Ok b, rt') ↔ ∃ a rt1, m rt = (Ok a, rt1) ∧ f a rt1 = (Ok b, rt').
Proof. unfold kbind. destruct (m rt) as [[a|e] rt1]; split; [intros E; by exists a, rt1|by intros (?&?&[= <- <-]&?)|done|by intros (?&?&?&?)]. Qed.
Lemma pure_Ok {A} (r : result KernelThrow A) rt a rt' : pure r rt = (Ok a, rt') ↔ r = Ok a ∧ rt' = rt.
Proof. unfold pure. split; [by intros [= -> ->]|by intros [-> ->]]. Qed.
Lemma attempted_Ok {A} (m : M A) rt out rt' : attempted m rt = (Ok out, rt') ↔ match out with inl e => m rt = (Throw e, rt') | inr a => m rt = (Ok a, rt') end.
Proof. unfold attempted. destruct (m rt) as [[a|e] rt1], out; split; by intros [= -> ->]. Qed.

(** ** Governed authority *)

Lemma push_code_nil codes code : push_code codes code = [] ↔ codes = [] ∧ code = None.
Proof. unfold push_code. destruct code as [c|]; [|naive_solver]. case_bool_decide; [destruct codes; [by apply not_elem_of_nil in H|naive_solver]|]. destruct codes; naive_solver. Qed.
Lemma push_codes_nil codes l : foldl push_code codes l = [] ↔ codes = [] ∧ Forall (λ c, c = None) l.
Proof.
  revert codes. induction l as [|c l IH]; intros codes; cbn; [split; [by intros ->|by intros []]|]. rewrite IH, push_code_nil, Forall_cons. naive_solver.
Qed.
Lemma toReasonCode_None c : toReasonCode c = None ↔ isGovernedAuthorityCovered c = true ∨ c = ResourceNotEnrolled.
Proof. destruct c; cbn; naive_solver. Qed.
Lemma toRepresentationReasonCode_None c : toRepresentationReasonCode c = None ↔ isGovernedRepresentationCovered c = true.
Proof. by destruct c. Qed.

(** The rights a request engages are held, and exercised by their holder or by
    one who represents it. *)
Definition rights_held (p : GovernedAuthorityProvider) (rp : option GovernedRepresentationProvider) q (at_ : string) : Prop :=
  let rights := default [] (an_governedRights (kq_action q)) in
  rights = [] ∨ ∃ s, governed_scope q = inl s ∧
    (∀ r, r ∈ rights → isGovernedAuthorityCovered (right_coverage p q s at_ r) = true ∨ right_coverage p q s at_ r = ResourceNotEnrolled) ∧
    (∀ rp', rp = Some rp' → gs_representativeRef s ≠ gs_holderRef s → (∃ r, r ∈ rights ∧ right_coverage p q s at_ r ≠ ResourceNotEnrolled) →
      ∀ r, r ∈ rights → isGovernedRepresentationCovered (right_representation rp' q s at_ r) = true).

Section Authority.
Context (p : GovernedAuthorityProvider) (rp : option GovernedRepresentationProvider) q (s : GovernedScope) (at_ : string).

Lemma coverage_codes rights : foldl push_code [] (toReasonCode ∘ snd <$> ((λ r, (r, right_coverage p q s at_ r)) <$> rights)) = [] ↔
  ∀ r, r ∈ rights → isGovernedAuthorityCovered (right_coverage p q s at_ r) = true ∨ right_coverage p q s at_ r = ResourceNotEnrolled.
Proof.
  rewrite push_codes_nil, !Forall_fmap, Forall_forall. split; [intros [_ Hall] r Hr|intros Hall; split; [done|intros r Hr]]; apply toReasonCode_None; by apply Hall.
Qed.
Lemma representation_codes rights (enforced : bool) : (enforced = true ↔ ∃ r, r ∈ rights ∧ right_coverage p q s at_ r ≠ ResourceNotEnrolled) →
  match resolveRepresentation rp q s rights at_ enforced with None => True | Some (_, codes) => codes = [] end ↔
  (∀ rp', rp = Some rp' → gs_representativeRef s ≠ gs_holderRef s → (∃ r, r ∈ rights ∧ right_coverage p q s at_ r ≠ ResourceNotEnrolled) →
    ∀ r, r ∈ rights → isGovernedRepresentationCovered (right_representation rp' q s at_ r) = true).
Proof.
  intros He. unfold resolveRepresentation. destruct rp as [rp'|]; [|naive_solver]. destruct (str_eqb (gs_representativeRef s) (gs_holderRef s)) eqn:Es.
  - apply str_eqb_eq in Es. naive_solver.
  - apply str_eqb_neq in Es. destruct enforced; cbn; [|by split; [intros _ ? _ _ Hex%He|]]. rewrite push_codes_nil, !Forall_fmap, Forall_forall. split.
    + intros [_ Hall] rp'' [= <-] _ _ r Hr. by apply toRepresentationReasonCode_None, Hall.
    + intros Hall. split; [done|]. intros r Hr. apply toRepresentationReasonCode_None. by apply (Hall rp'); [done|done|apply He|].
Qed.
End Authority.
Lemma enforced_iff p q s at_ rights : existsb (λ a : string * GovernedAuthorityCoverage, match a.2 with ResourceNotEnrolled => false | _ => true end)
    ((λ r, (r, right_coverage p q s at_ r)) <$> rights) = true ↔ ∃ r, r ∈ rights ∧ right_coverage p q s at_ r ≠ ResourceNotEnrolled.
Proof.
  rewrite existsb_exists. split.
  - intros (a&Ha&Hn). apply list_elem_of_In, list_elem_of_fmap in Ha as (r&->&Hr). cbn in Hn. exists r. split; [done|]. by destruct (right_coverage p q s at_ r).
  - intros (r&Hr&Hn). eexists. split; [apply list_elem_of_In, list_elem_of_fmap; by exists r|]. cbn. by destruct (right_coverage p q s at_ r).
Qed.
Lemma authority_facts_exact p rp q at_ : gf_reasonCodes (resolveGovernedAuthorityFacts p rp q at_) = [] ↔ rights_held p rp q at_.
Proof.
  unfold resolveGovernedAuthorityFacts, rights_held. destruct (default [] (an_governedRights (kq_action q))) as [|r0 rs]; [naive_solver|]. set (rights := r0 :: rs).
  destruct (governed_scope q) as [s|[outcome summary]]; [|naive_solver].
  pose proof (coverage_codes p q s at_ rights) as Hc. pose proof (representation_codes p rp q s at_ rights _ (enforced_iff p q s at_ rights)) as Hr. revert Hr.
  destruct (resolveRepresentation rp q s rights at_ _) as [[e codes]|]; intros Hr; cbn [gf_reasonCodes].
  - split.
    + intros [-> Hf]%app_nil. right. exists s. split_and!; [done| |by apply Hr]. apply Hc. revert Hf. by rewrite (List.filter_ext _ (λ _, true)), List.filter_true.
    + intros [?|(s'&[= <-]&H1&H2)]; [done|]. apply Hr in H2 as ->. apply Hc in H1. cbn [app]. match goal with |- List.filter _ ?l = _ => replace l with (@nil string) by (symmetry; exact H1) end. done.
  - rewrite Hc. naive_solver.
Qed.

(** ** Each step *)

Lemma viable_allowed : allowed ∈ VIABLE_STATUSES.
Proof. unfold VIABLE_STATUSES. set_solver. Qed.
Lemma with_fields_status f k : kr_status (with_fields f k) = kr_status k.
Proof. done. Qed.
(** What no step rewrites, that a result always has a reason code, and that no
    step makes it indeterminate. *)
Definition same_evaluation k k' : Prop :=
  rs_evaluatedAt (other_fields k') = rs_evaluatedAt (other_fields k) ∧ rs_recognition (other_fields k') = rs_recognition (other_fields k) ∧
  (kr_reasonCodes k ≠ [] → kr_reasonCodes k' ≠ []) ∧ (kr_status k ≠ indeterminate → kr_status k' ≠ indeterminate).
#[export] Instance same_evaluation_preorder : PreOrder same_evaluation.
Proof. split; [by intros k|]. intros x y z (E1&E2&E3&E4) (F1&F2&F3&F4). unfold same_evaluation. rewrite F1, F2, E1, E2. split_and!; auto. Qed.
(** A step that keeps the status exactly under a condition. *)
Definition narrows k k' (P : Prop) : Prop := (kr_status k' = allowed ↔ kr_status k = allowed ∧ P) ∧ same_evaluation k k'.
Lemma narrows_trans k1 k2 k3 P Q : narrows k1 k2 P → narrows k2 k3 Q → narrows k1 k3 (P ∧ Q).
Proof. intros [H1 E1] [H2 E2]. split; [|by transitivity k2]. rewrite H2, H1. tauto. Qed.
Lemma narrows_same k k' : kr_status k' = kr_status k → same_evaluation k k' → narrows k k' True.
Proof. intros E Hs. split; [rewrite E; tauto|done]. Qed.
Lemma narrows_iff k k' P Q : (P ↔ Q) → narrows k k' P → narrows k k' Q.
Proof. intros E [H1 H2]. split; [by rewrite H1, E|done]. Qed.

Lemma authority_step p rp q k : narrows k (applyGovernedAuthorityStep p rp q k) (rights_held p rp q (rs_evaluatedAt (other_fields k))).
Proof.
  unfold applyGovernedAuthorityStep. destruct (default [] (an_governedRights (kq_action q))) eqn:Er.
  { apply (narrows_iff _ _ True); [|by apply narrows_same]. unfold rights_held. rewrite Er. split; [by left|done]. }
  destruct (bool_decide (kr_status k ∈ VIABLE_STATUSES)) eqn:Hv; cbn [negb].
  - destruct (gf_reasonCodes (resolveGovernedAuthorityFacts _ _ _ _)) as [|c codes] eqn:Ec.
    + apply (narrows_iff _ _ True); [|by apply narrows_same]. rewrite <-authority_facts_exact. tauto.
    + split; [|split_and!; [done..|intros _; by destruct codes|done]]. rewrite <-authority_facts_exact, Ec. split; [done|by intros [_ ?]].
  - apply bool_decide_eq_false in Hv. split; [|done]. split; [intros Ha|intros [Ha _]]; by rewrite Ha in Hv; destruct Hv; apply viable_allowed.
Qed.

Section Steps.
Context `{JsHost} `{ContextHost}.

(** The context the deployment requires raises no objection. *)
Definition context_clear (c : option KernelContextCapability) (r : option ContextResolution) q : Prop :=
  match c, r with Some c, Some r => ∃ f, resolveKernelContextFacts c r (context_view q) = Ok f ∧ kf_reasonCodes f = [] | _, _ => True end.
Lemma context_step c r q k k' : applyContextStep c r k (context_view q) = Ok k' → narrows k k' (context_clear c r q).
Proof.
  unfold applyContextStep, context_clear. destruct c as [c|]; [|intros [= <-]; by apply narrows_same]. destruct r as [r|]; [|intros [= <-]; by apply narrows_same].
  intros (f&Ef&E)%result_bind_Ok. injection E as <-. rewrite Ef. destruct (bool_decide (kr_status k ∈ VIABLE_STATUSES)) eqn:Hv; cbn [negb orb].
  - destruct (kf_reasonCodes f) as [|c0 codes] eqn:Ec.
    + apply (narrows_iff _ _ True); [|by apply narrows_same]. split; [intros _; by exists f|done].
    + split; [split; [done|]|split_and!; [done..|intros _; by destruct codes|done]]. intros [_ (f'&[= <-]&Hn)]. by rewrite Ec in Hn.
  - apply bool_decide_eq_false in Hv. split; [cbn|done]. split; [intros Ha|intros [Ha _]]; by rewrite Ha in Hv; destruct Hv; apply viable_allowed.
Qed.
End Steps.

(** The external port answered, in time, with nothing but an allow. *)
Definition externally_allowed (c : KernelExternalAuthorizationCapability) q (at_ : string) : Prop :=
  xp_race (xc_provider c) (toInput q at_) = PortAnswered (JsObject true [("decision", JsString "allow")]) ∧ xp_past_bound (xc_provider c) (toInput q at_) = false.
Lemma classify_allowed v : classify_response v = ex_allowed ↔ v = JsObject true [("decision", JsString "allow")].
Proof.
  split; [|by intros ->]. unfold classify_response. destruct v as [| | | | | |[] [|[key []] [|? ?]]| |]; try done.
  destruct (str_eqb key "decision") eqn:E1; [cbn|done]. destruct (str_eqb s "allow") eqn:E2; [|by destruct (str_eqb s "deny")]. apply str_eqb_eq in E1 as ->, E2 as ->. done.
Qed.
Lemma classify_consulted v : classify_response v ≠ ex_not_consulted.
Proof.
  unfold classify_response. destruct v as [| | | | | |[] [|[key []] [|? ?]]| |]; try done. destruct (str_eqb key "decision"); [cbn|done].
  destruct (str_eqb s "allow"); [done|]. by destruct (str_eqb s "deny").
Qed.
Lemma external_permits c q at_ : xf_permits (resolveExternalAuthorization c q at_) = true ↔ externally_allowed c q at_.
Proof.
  unfold resolveExternalAuthorization, externally_allowed. cbn. rewrite bool_decide_eq_true. destruct (xp_past_bound _ _); [by split; [|intros [_ ?]]|].
  destruct (xp_race _ _) as [v| |]; [rewrite classify_allowed; split; [by intros ->|by intros [[= ->] _]]|by split; [|intros [? _]]..].
Qed.
(** A consulted port that does not permit has a reason code. *)
Lemma external_code c q at_ : xf_permits (resolveExternalAuthorization c q at_) = false → is_Some (OUTCOME_REASON_CODE (xf_outcome (resolveExternalAuthorization c q at_))).
Proof.
  cbn. intros Hn%bool_decide_eq_false. destruct (xp_past_bound _ _); [by eexists|]. destruct (xp_race _ _) as [v| |]; [|by eexists..].
  pose proof (classify_consulted v). destruct (classify_response v); try done; by eexists.
Qed.
Lemma external_step c q at_ k : narrows k (applyExternalAuthorizationStep (Some (resolveExternalAuthorization c q at_)) k) (externally_allowed c q at_).
Proof.
  pose proof (external_code c q at_) as Hcode. unfold applyExternalAuthorizationStep. destruct (xf_permits (resolveExternalAuthorization c q at_)) eqn:Ep.
  - apply (narrows_iff _ _ True); [rewrite <-external_permits, Ep; tauto|]. rewrite andb_false_r. destruct (OUTCOME_REASON_CODE _); by apply narrows_same.
  - destruct Hcode as [code ->]; [done|]. rewrite andb_true_r. apply (narrows_iff _ _ False); [rewrite <-external_permits, Ep; by split|].
    case_bool_decide as Ha; (split; [|done]); cbn; split; [done|by intros []|intros Hx; by destruct Ha|by intros []].
Qed.
Lemma obligation_step r k : narrows k (applyObligationStep r k) True.
Proof. destruct r; by apply narrows_same. Qed.
Lemma not_consulted_step k : narrows k (recordExternalAuthorizationNotConsulted k) True.
Proof. by apply narrows_same. Qed.

Lemma decision_determinate id d c : kr_status (toKernelEvaluationResult id d c) ≠ indeterminate.
Proof. cbn. by destruct (de_type d). Qed.
Lemma decision_coded id d c : kr_reasonCodes (toKernelEvaluationResult id d c) ≠ [].
Proof. cbv [toKernelEvaluationResult kr_reasonCodes mapDecisionToReasonCodes]. by intros [_ ?]%push_code_nil. Qed.
Lemma decision_allowed id d c : kr_status (toKernelEvaluationResult id d c) = allowed ↔ de_type d = execute_allowed ∨ de_type d = dry_run_allowed.
Proof. cbn. destruct (de_type d); cbn; naive_solver. Qed.

(** ** Grants and invariants *)

Section Closing.
Context `{JsHost} `{ContextHost}.

Lemma ceilings_throw d k e : validityCeilingsFor d k = Throw e → e = DateRangeError.
Proof.
  unfold validityCeilingsFor, deploymentGrantValidityCeiling. destruct (maximumGrantLifetimeSeconds d); [|done]. destruct (date_parse _); [|done].
  destruct (iso_of _); [done|]. by intros [= <-].
Qed.
Lemma grant_step d q k : match applyGrantStep d q k with Ok k' => narrows k k' True | Throw e => e = DateRangeError ∧ is_Some d end.
Proof.
  destruct d as [d|]; [|by apply narrows_same]. cbn. unfold resolveKernelGrantFacts, deriveGrantSourceAuthorization. destruct (validityCeilingsFor d k) eqn:E; [by apply narrows_same|].
  split; [by eapply ceilings_throw|by eexists].
Qed.
(** The recognition type of a decision is none the kernel lists. *)
Definition unlisted (t : option string) : Prop := ∀ t', t = Some t' → t' ∉ RECOGNIZED_RECOGNITION_TYPES.
Lemma requests_equal_refl q : requests_equal q q = true.
Proof.
  assert (∀ o, optionally_equal o o = true) as Ho by (intros [v|]; [apply deepEqual_refl|done]). unfold requests_equal. rewrite !Ho. by rewrite bool_decide_eq_true_2.
Qed.
Lemma invariants_cases q snapshot k d : kr_reasonCodes k ≠ [] → rs_recognition (other_fields k) = buildRecognitionEvaluation d →
  match assertKernelInvariants q snapshot k with
  | Ok _ => requests_equal snapshot q = true ∧ (kr_status k = allowed → ¬ unlisted (de_recognitionDecisionType d))
  | Throw e => (∃ m, e = KernelInvariantError m) ∧ (requests_equal snapshot q = false ∨ kr_status k = allowed ∧ unlisted (de_recognitionDecisionType d))
  end.
Proof.
  intros Hc Er. unfold assertKernelInvariants, assertRequestNotMutated, assertReasonCodesPresent, assertRecognitionPrecedesAllow, unlisted. rewrite Er.
  destruct (kr_reasonCodes k) as [|c l]; [done|]. destruct (requests_equal snapshot q); cbn; [|split; [by eexists|by left]].
  destruct (decide (kr_status k = allowed)) as [Ha|Ha].
  2: { rewrite bool_decide_eq_false_2 by done. cbn. by split; [|intros]. }
  rewrite bool_decide_eq_true_2 by done. destruct (de_recognitionDecisionType d) as [t|]; cbn.
  - case_bool_decide as Ht; cbn.
    + split; [done|]. intros _ Hu. injection Ht as Ht. apply bool_decide_eq_true in Ht. by apply (Hu t).
    + split; [by eexists|]. right. split; [done|]. intros ? [= <-] Hin. destruct Ht. by rewrite bool_decide_eq_true_2.
  - split; [by eexists|by right].
Qed.
End Closing.

(** ** Evaluation *)

Section Kernel.
Context `{JsHost} `{ContextHost} (K : AocKernel).
Notation cfg := (ke_enforcement K).

Definition rights_exercised q (at_ : string) : Prop := match ke_authority K with None => True | Some p => rights_held p (ke_representation K) q at_ end.
Definition port_permits q (at_ : string) : Prop := match ke_external K with None => True | Some c => externally_allowed c q at_ end.
(** Every layer of an evaluation besides the guard permits. *)
Definition layers_permit q (g : Gathered) (at_ : string) : Prop := rights_exercised q at_ ∧ context_clear (ke_context K) (gt_resolution g) q ∧ port_permits q at_.

Lemma context_step_answers q r k f : context_facts K q r = Ok f → ∃ k', applyContextStep (ke_context K) r k (context_view q) = Ok k'.
Proof.
  unfold context_facts, applyContextStep. destruct (ke_context K); [|by eexists]. destruct r; [|by eexists]. destruct (resolveKernelContextFacts _ _ _); [intros _; cbn; by eexists|done].
Qed.
Lemma authority_layer q k : narrows k (match ke_authority K with None => k | Some p => applyGovernedAuthorityStep p (ke_representation K) q k end) (rights_exercised q (rs_evaluatedAt (other_fields k))).
Proof. unfold rights_exercised. destruct (ke_authority K); [apply authority_step|by apply narrows_same]. Qed.
Lemma external_layer_step q k : narrows k (external_layer K q k) (port_permits q (rs_evaluatedAt (other_fields k))).
Proof.
  unfold external_layer, port_permits. destruct (ke_external K) as [c|]; [|by apply narrows_same]. case_bool_decide as Ha; [apply external_step|].
  split; [|apply not_consulted_step]. split; [by intros ?|by intros [? _]].
Qed.
Lemma evaluate_steps_exact q g f id d c : let k := toKernelEvaluationResult id d c in context_facts K q (gt_resolution g) = Ok f →
  match evaluate_steps K q g k with
  | Ok k' => narrows k k' (layers_permit q g (de_decidedAt d)) ∧ (kr_status k' = allowed → ¬ unlisted (de_recognitionDecisionType d))
  | Throw e => e = DateRangeError ∧ is_Some (ke_grants K) ∨
      (∃ m, e = KernelInvariantError m) ∧ kr_status k = allowed ∧ layers_permit q g (de_decidedAt d) ∧ unlisted (de_recognitionDecisionType d)
  end.
Proof.
  intros k Hf. unfold evaluate_steps. pose proof (authority_layer q k) as H1. set (k1 := match ke_authority K with None => k | Some _ => _ end) in *.
  destruct (context_step_answers q _ k1 f Hf) as [k2 E2]. rewrite E2. cbn [of_context mbind result_bind]. apply context_step in E2. pose proof (narrows_trans _ _ _ _ _ H1 E2) as H2.
  pose proof (external_layer_step q k2) as H3. rewrite (proj1 (proj2 H2)) in H3.
  pose proof (narrows_trans _ _ _ _ _ H2 (narrows_trans _ _ _ _ _ H3 (obligation_step (gt_obligations g) (external_layer K q k2)))) as H4.
  pose proof (grant_step (ke_grants K) q (applyObligationStep (gt_obligations g) (external_layer K q k2))) as Hg. destruct (applyGrantStep _ _ _) as [k5|e]; [|by left].
  cbn [mbind result_bind].
  pose proof (narrows_trans _ _ _ _ _ H4 Hg) as H5. apply (narrows_iff _ _ _ (layers_permit q g (de_decidedAt d))) in H5; [|unfold layers_permit; cbn; tauto].
  destruct H5 as [Hst Hs]. pose proof Hs as (_&Er&Hc&_). pose proof (invariants_cases q q k5 d (Hc (decision_coded id d c)) Er) as Hi. rewrite requests_equal_refl in Hi.
  destruct (assertKernelInvariants q q k5) as [u|e].
  - by destruct Hi as [_ ?]; split; [split|].
  - right. destruct Hi as (Hm&[[=]|[Ha Hu]]). apply Hst in Ha as [Ha Hl]. by split_and!.
Qed.

(** The request the guard builds. *)
Definition guard_request q (options : option KernelEvaluationOptions) (g : Gathered) (mode : EnforcementMode) (gq : EnforcementRequest) : Prop :=
  let i := guard_input_of q options g in ∃ id at_ e, gq = with_status (build_request (request_input i (default mode (gi_mode i)) None) id at_) rq_submitted [e].
Definition recognition_threw (gq : EnforcementRequest) : Prop := ∃ n now message, recognitionIntegration cfg n (verification_input gq now) = RecognitionThrew message.
Lemma preflight_called q options g rt out rt' : guard_preflight cfg (guard_input_of q options g) rt = (out, rt') → ∃ gq, guard_request q options g mode_preflight gq ∧
  match out with
  | Ok d => ∃ c, shown cfg rt gq c ∧ de_type d = ev_decisionType (evaluatePolicies (cfg_policies cfg) c) ∧ de_recognitionDecisionType d = cx_recognitionResult c ≫= rr_type
  | Throw e => recognition_threw gq
  end.
Proof.
  unfold guard_preflight, guard_buildRequest. intros E.
  destruct (create_Ok cfg (request_input (guard_input_of q options g) (default mode_preflight (gi_mode (guard_input_of q options g))) None) rt) as (id&at_&e&rt1&E1&Hq).
  eexists. split; [by exists id, at_, e|]. unfold mbind, M_bind in E. rewrite E1 in E. destruct out as [d|err].
  - apply bind_Ok in E as (c&rt2&Eg&Ec). destruct (gather_Ok _ _ _ _ _ Eg) as (Hs&_). apply conclude_Ok in Ec as (pack&did&dat&->). exists c. split; [by eapply shown_quiet|].
    by rewrite (sh_request _ _ _ _ Hs).
  - apply preflight_Throw in E as (_&n&now&message&Hr&_). by exists n, now, message.
Qed.
Definition default_policies : Prop := cfg_policies cfg = createDefaultEnforcementPolicyChain.
Lemma decision_cleared gq rt c d id cor : default_policies → shown cfg rt gq c → de_type d = ev_decisionType (evaluatePolicies (cfg_policies cfg) c) →
  kr_status (toKernelEvaluationResult id d cor) = allowed ↔ cleared c.
Proof.
  intros Hd Hs Ht. rewrite decision_allowed, Ht, Hd. destruct (chain_exact c (sh_mapped _ _ _ _ Hs)) as [-> ->]. destruct (decide (er_mode (cx_request c) = mode_dry_run)); tauto.
Qed.

Lemma prepared_facts q rt0 g rt1 : evaluate_prepare K q rt0 = (Ok g, rt1) → context_facts K q (gt_resolution g) = Ok (gt_facts g).
Proof.
  unfold evaluate_prepare. intros (u&r1&_&E)%kbind_Ok. apply kbind_Ok in E as (t1&r2&_&E). apply kbind_Ok in E as (cs&r3&_&E). apply kbind_Ok in E as (t2&r4&_&E).
  apply kbind_Ok in E as (res&r5&_&E). apply kbind_Ok in E as (t3&r6&_&E). apply kbind_Ok in E as (f&r7&[Ef _]%pure_Ok&E). by injection E as <- _.
Qed.
(** Why a preparation throws. *)
Definition unprepared q (e : KernelThrow) : Prop :=
  match e with
  | KernelValidationError _ => validateKernelEvaluationRequest q = Throw e
  | ConstraintProviderError => ∃ provider query, ke_constraints K = Some provider ∧ provider query = None
  | KernelContextError e => ∃ c, ke_context K = Some c ∧
      ((∃ t, resolveKernelContext (Some c) (context_view q) t = Throw e) ∨ ∃ r, resolveKernelContextFacts c r (context_view q) = Throw e)
  | _ => False
  end.
Lemma validation_throws q e : validateKernelEvaluationRequest q = Throw e → ∃ field, e = KernelValidationError field.
Proof. unfold validateKernelEvaluationRequest. intros Hv. repeat match type of Hv with (if ?b then _ else _) = _ => destruct b end; try done; injection Hv as <-; by eexists. Qed.
Lemma constraints_throw q t e : resolveGovernedConstraintContext (ke_constraints K) q t = Throw e → unprepared q e.
Proof.
  unfold resolveGovernedConstraintContext. destruct (ke_constraints K) as [p|] eqn:Ek; [|done]. destruct (default [] _); [done|]. destruct (governed_scope q); [|done].
  destruct (p _) eqn:Ep; [done|]. intros [= <-]. cbn. eauto.
Qed.
Lemma context_throws q t e : of_context (resolveKernelContext (ke_context K) (context_view q) t) = Throw e → unprepared q e.
Proof.
  destruct (ke_context K) as [c|] eqn:Ek; [|done]. destruct (resolveKernelContext _ _ t) eqn:Er; [done|]. intros [= <-]. cbn. exists c. split; [done|]. left. by exists t.
Qed.
Lemma facts_throw q r e : context_facts K q r = Throw e → unprepared q e.
Proof.
  unfold context_facts. destruct (ke_context K) as [c|] eqn:Ek; [|done]. destruct r as [r|]; [|done]. destruct (resolveKernelContextFacts c r _) eqn:Er; [done|]. intros [= <-]. cbn. eauto.
Qed.
Lemma prepare_throws q rt0 e rt1 : evaluate_prepare K q rt0 = (Throw e, rt1) → unprepared q e.
Proof.
  unfold evaluate_prepare, kbind, pure. destruct (validateKernelEvaluationRequest q) eqn:Ev.
  2: { intros [= <- _]. destruct (validation_throws _ _ Ev) as [field ->]. exact Ev. }
  cbn [kernel_now]. destruct (resolveGovernedConstraintContext _ q _) eqn:Ec; [|intros [= <- _]; by eapply constraints_throw].
  destruct (of_context _) eqn:Eo; [|intros [= <- _]; by eapply context_throws].
  destruct (context_facts K q _) eqn:Ef; [done|]. intros [= <- _]. by eapply facts_throw.
Qed.
Lemma indeterminate_Ok q m rt : ∃ k rt', buildIndeterminateResult K q m rt = (Ok k, rt') ∧ kr_status k = indeterminate.
Proof. do 2 eexists. split; [reflexivity|done]. Qed.

(** ** Enforcement *)

(** No blocking obligation is outstanding. *)
Definition obligations_met (r : option ObligationResolution) : Prop :=
  match r with None => True | Some r => ∀ i, i ∈ or_obligations r → obligationWithholdsExercise i = false end.
Lemma facts_eligible r : of_eligible (resolveKernelObligationFacts r) = true ↔ obligations_met (Some r).
Proof.
  cbn [of_eligible resolveKernelObligationFacts obligations_met]. rewrite Nat.eqb_eq, length_zero_iff_nil. split.
  - intros E i Hi. destruct (obligationWithholdsExercise i) eqn:Ew; [|done]. apply list_elem_of_In in Hi. assert (In i (List.filter obligationWithholdsExercise (or_obligations r))) as Hin by (by apply filter_In).
    by rewrite E in Hin.
  - intros Hall. destruct (List.filter _ _) as [|i l] eqn:E; [done|]. assert (In i (List.filter obligationWithholdsExercise (or_obligations r))) as [Hi Hw]%filter_In by (rewrite E; by left).
    by rewrite (Hall i) in Hw by (by apply list_elem_of_In).
Qed.
Lemma eligible_iff p : plan_eligible p = true ↔ obligations_met (gt_obligations (ep_gathered p)).
Proof. unfold plan_eligible. destruct (gt_obligations (ep_gathered p)) as [r|]; [apply facts_eligible|done]. Qed.

(** What a plan holds: the rights and the context it was made under, and the
    port's answer. *)
Record planned q (p : EnforcePlan) (ta tx : string) : Prop := {
  pn_rights : rights_exercised q ta;
  pn_context : context_clear (ke_context K) (gt_resolution (ep_gathered p)) q;
  pn_external : ep_external p = (λ c, resolveExternalAuthorization c q tx) <$> ke_external K;
}.
Lemma facts_clear q r f : context_facts K q r = Ok f → match f with Some f => kf_reasonCodes f = [] | None => True end → context_clear (ke_context K) r q.
Proof.
  unfold context_facts, context_clear. destruct (ke_context K); [|done]. destruct r; [|done]. destruct (resolveKernelContextFacts _ _ _) as [f'|]; [|done]. intros [= <-] Hn. by exists f'.
Qed.
Lemma facts_blocked q r f : context_facts K q r = Ok (Some f) → kf_reasonCodes f ≠ [] → ¬ context_clear (ke_context K) r q.
Proof.
  unfold context_facts, context_clear. destruct (ke_context K); [|done]. destruct r; [|done]. destruct (resolveKernelContextFacts _ _ _) as [f'|]; [|done]. intros [= <-] Hn (f2&[= <-]&?). done.
Qed.
Lemma denied_early_Ok q k rt : kr_status k = denied → kr_reasonCodes k ≠ [] → denied_early q k rt = (Ok (inl {| er_result := k; er_execution := no_execution false |}), rt).
Proof.
  intros Hs Hc. unfold denied_early, kbind, pure, assertKernelInvariants, assertRequestNotMutated, assertReasonCodesPresent, assertRecognitionPrecedesAllow.
  rewrite requests_equal_refl, Hs. by destruct (kr_reasonCodes k).
Qed.
Definition refused_early q (r : KernelEnforcementResult) : Prop :=
  er_execution r = no_execution false ∧ kr_status (er_result r) = denied ∧ ((∃ t, ¬ rights_exercised q t) ∨ ∃ res, ¬ context_clear (ke_context K) res q).
(** The preparation, once the rights are known to be held. *)
Lemma gathered q authority ta rt0 out rt1 : rights_exercised q ta → enforce_gather K q authority rt0 = (Ok out, rt1) →
  match out with inl r => refused_early q r | inr p => ∃ tx, planned q p ta tx end.
Proof.
  intros Hta. unfold enforce_gather. intros (t1&r4&_&E)%kbind_Ok. apply kbind_Ok in E as (cs&r5&_&E). apply kbind_Ok in E as (t2&r6&_&E). apply kbind_Ok in E as (res&r7&_&E).
  apply kbind_Ok in E as (f&r8&[Ef _]%pure_Ok&E).
  assert (match f with Some f => kf_reasonCodes f = [] | None => True end → match out with inl r => refused_early q r | inr p => ∃ tx, planned q p ta tx end) as Hgo.
  { intros Hn. apply (facts_clear _ _ _ Ef) in Hn as Hcl. assert (∃ t obligations r9, (kbind (match ke_external K with None => kret None | Some c => kbind (kernel_now K) (λ t4, kret (Some (resolveExternalAuthorization c q t4))) end)
      (λ external, kret (inr {| ep_gathered := {| gt_constraints := cs; gt_resolution := res; gt_facts := f; gt_obligations := obligations |}; ep_authority := authority; ep_external := external |}))) r9 =
        (Ok out, rt1) ∧ kernel_now K r8 = (Ok t, r9)) as (t&ob&r9&E'&_).
    { destruct f as [[ev [|c' codes'] sm adm]|]; [|done|]; apply kbind_Ok in E as (t3&r9&E3&E); by eexists _, _, _. }
    apply kbind_Ok in E' as (x&r10&Ex&E'). injection E' as <- _. revert Ex. destruct (ke_external K) as [c|] eqn:Ek; intros Ex.
    - apply kbind_Ok in Ex as (t4&r11&_&Ex). injection Ex as <- _. exists t4. split; [done|done|]. by rewrite Ek.
    - injection Ex as <- _. exists "". split; [done|done|]. by rewrite Ek. }
  destruct f as [[ev [|c' codes'] sm adm]|]; [by apply Hgo| |by apply Hgo].
  unfold kbind in E. cbn [kernel_id kernel_now] in E. rewrite denied_early_Ok in E by done. injection E as <- _. split_and!; [done..|]. right. exists res. by eapply facts_blocked.
Qed.
Lemma prepared q rt0 out rt1 : enforce_prepare K q rt0 = (Ok out, rt1) → match out with inl r => refused_early q r | inr p => ∃ ta tx, planned q p ta tx end.
Proof.
  unfold enforce_prepare. intros (u&r1&_&E)%kbind_Ok. apply kbind_Ok in E as (authority&r2&Ea&E).
  assert (∃ ta, match authority with Some f => gf_reasonCodes f = [] | None => True end ↔ rights_exercised q ta) as [ta Hta].
  { revert Ea. unfold rights_exercised. destruct (ke_authority K) as [p|]; [|intros [= <- _]; by exists ""]. intros (t0&r3&_&Ea)%kbind_Ok. injection Ea as <- _. exists t0. apply authority_facts_exact. }
  assert (rights_exercised q ta → enforce_gather K q authority r2 = (Ok out, rt1) → match out with inl r => refused_early q r | inr p => ∃ ta tx, planned q p ta tx end) as Hgo.
  { intros Hr Eg. apply (gathered q authority ta) in Eg; [|done]. destruct out; [done|by exists ta]. }
  destruct authority as [[ga gr [|c codes] gs]|]; [by apply Hgo; [apply Hta|]| |by apply Hgo; [apply Hta|]].
  unfold kbind in E. cbn [kernel_id kernel_now] in E. rewrite denied_early_Ok in E by done. injection E as <- _. split_and!; [done..|]. left. exists ta. by rewrite <-Hta.
Qed.

Lemma enforce_steps_exact q now p ta tx id d c : planned q p ta tx → let k := toKernelEvaluationResult id d c in
  match enforce_steps K q now p k with
  | Ok k' => requests_equal q now = true ∧ narrows k k' (port_permits q tx)
  | Throw e => e = DateRangeError ∧ is_Some (ke_grants K) ∨
      (∃ m, e = KernelInvariantError m) ∧ (requests_equal q now = false ∨ kr_status k = allowed ∧ unlisted (de_recognitionDecisionType d))
  end.
Proof.
  intros [_ _ Hx] k. unfold enforce_steps. set (k1 := match ep_authority p with None => k | Some _ => _ end). set (k2 := match gt_facts (ep_gathered p) with None => k1 | Some _ => _ end).
  assert (narrows k k2 True) as H2.
  { apply narrows_same; [unfold k2, k1; by destruct (gt_facts _), (ep_authority p)|]. unfold k2, k1. by destruct (gt_facts _), (ep_authority p). }
  assert (narrows k2 (applyExternalAuthorizationStep (ep_external p) k2) (port_permits q tx)) as H3.
  { rewrite Hx. unfold port_permits. destruct (ke_external K); [apply external_step|by apply narrows_same]. }
  set (k3 := applyExternalAuthorizationStep (ep_external p) k2) in *. clearbody k2 k3.
  pose proof (narrows_trans _ _ _ _ _ H2 (narrows_trans _ _ _ _ _ H3 (obligation_step (gt_obligations (ep_gathered p)) k3))) as H4.
  pose proof (grant_step (ke_grants K) now (applyObligationStep (gt_obligations (ep_gathered p)) k3)) as Hg. destruct (applyGrantStep _ _ _) as [k5|e]; [|by left]. cbn [result_bind].
  pose proof (narrows_trans _ _ _ _ _ H4 Hg) as H5. apply (narrows_iff _ _ _ (port_permits q tx)) in H5; [|tauto]. destruct H5 as [Hst Hs]. pose proof Hs as (_&Er&Hc&_).
  pose proof (invariants_cases now q k5 d (Hc (decision_coded id d c)) Er) as Hi. destruct (assertKernelInvariants now q k5) as [u|e]; [by destruct Hi; split_and!|].
  right. destruct Hi as (Hm&[Hne|[Ha Hu]]); [by split; [|left]|]. apply Hst in Ha as [Ha _]. by split; [|right].
Qed.
Lemma permitted_iff q p ta tx : planned q p ta tx → plan_permitted p = true ↔ port_permits q tx.
Proof. intros [_ _ Hx]. unfold plan_permitted, port_permits. rewrite Hx. destruct (ke_external K); [apply external_permits|done]. Qed.
Lemma guard_mode q options g mode gq : guard_request q options g mode gq → mode ≠ mode_dry_run → er_mode gq = mode_dry_run ↔ options ≫= dryRun = Some true.
Proof. intros (id&at_&e&->) Hm. cbn. case_bool_decide; cbn; naive_solver. Qed.

(** Nothing is executed, because a layer objects. *)
Definition may_execute q options (p : EnforcePlan) (tx : string) (c : EnforcementPolicyContext) : Prop :=
  cleared c ∧ options ≫= dryRun ≠ Some true ∧ obligations_met (gt_obligations (ep_gathered p)) ∧ port_permits q tx.
Definition withheld q options p tx rt gq (out : result KernelThrow (Execution + KernelEnforcementResult)) : Prop :=
  (recognition_threw gq ∨ ∃ c, shown cfg rt gq c ∧ ¬ may_execute q options p tx c) ∧
  match out with
  | Ok (inl _) => False
  | Ok (inr r) => ko_executed (er_execution r) = false
  | Throw e => e = DateRangeError ∧ is_Some (ke_grants K) ∨ ∃ m, e = KernelInvariantError m
  end.
(** The executor runs on an allowed decision. *)
Definition executes q options p tx rt gq (x : Execution) : Prop :=
  ex_request x = gq ∧ de_type (ex_decision x) = execute_allowed ∧ ∃ c, shown cfg rt gq c ∧ may_execute q options p tx c.
Lemma indeterminate_enforcement_Ok q rt : ∃ r rt', indeterminate_enforcement K q rt = (Ok r, rt') ∧ er_execution r = no_execution false ∧ kr_status (er_result r) = indeterminate.
Proof. do 2 eexists. split; [reflexivity|done]. Qed.
Lemma go_withheld q options p ta tx rt out rt' : planned q p ta tx → plan_eligible p && plan_permitted p = false → enforce_go K q options p rt = (out, rt') →
  ∃ gq, guard_request q options (ep_gathered p) mode_preflight gq ∧ withheld q options p tx rt gq out.
Proof.
  intros Hpl Hno E. unfold enforce_go in E. rewrite <-negb_andb, Hno in E. cbn [negb] in E. unfold kbind at 1, attempted in E.
  destruct (guard_preflight _ _ rt) as [[d|e] rt4] eqn:Eg; apply preflight_called in Eg as (gq&Hq&Hg); exists gq; (split; [exact Hq|]).
  - destruct Hg as (c&Hs&_). split.
    { right. exists c. split; [done|]. intros (_&_&Ho&Hx). apply eligible_iff in Ho. apply (permitted_iff _ _ _ _ Hpl) in Hx. by rewrite Ho, Hx in Hno. }
    pose proof (enforce_steps_exact q q p ta tx (kq_requestId q) d (kq_correlationId q) Hpl) as Hst. cbv zeta in Hst. unfold kbind, pure in E. destruct (enforce_steps _ _ _ _ _) as [k|e]; injection E as <- _; [done|].
    destruct Hst as [?|(?&_)]; [by left|by right].
  - split; [by left|]. destruct (indeterminate_enforcement_Ok q rt4) as (r&rt5&E5&Hr&_). unfold kbind in E. rewrite E5 in E. injection E as <- _. by rewrite Hr.
Qed.
Lemma go_guarded q options p ta tx rt out rt' : default_policies → planned q p ta tx → plan_eligible p && plan_permitted p = true → enforce_go K q options p rt = (out, rt') →
  ∃ gq, guard_request q options (ep_gathered p) mode_execute gq ∧ match out with Ok (inl x) => executes q options p tx rt gq x | _ => withheld q options p tx rt gq out end.
Proof.
  intros Hd Hpl Hyes E. unfold enforce_go in E. rewrite <-negb_andb, Hyes in E. cbn [negb] in E. unfold kbind at 1, attempted in E.
  apply andb_true_iff in Hyes as [Ho%eligible_iff Hx%(permitted_iff _ _ _ _ Hpl)].
  change (guard_enforce cfg (guard_input_of q options (ep_gathered p)) rt) with (verifyAndExecute cfg (guard_input_of q options (ep_gathered p)) None rt) in E.
  destruct (verifyAndExecute _ _ _ rt) as [res rt4] eqn:Eg. apply guard_called in Eg as (gq&[Hq Hg _ _]). exists gq. split; [exact Hq|]. pose proof (guard_mode _ _ _ _ _ Hq) as Hm.
  assert (∀ c, cleared c ∧ er_mode gq ≠ mode_dry_run ↔ may_execute q options p tx c) as Hmay by (intros c; unfold may_execute; rewrite Hm by done; tauto).
  destruct res as [[x|o]|e].
  - injection E as <- _. destruct Hg as (c&Hs&Hst). pose proof (gate_decides cfg _ _ _ _ _ Hd Hs Hst) as Hc. apply Hmay in Hc. destruct Hst as (?&?&_). split_and!; [done..|]. by exists c.
  - destruct Hg as (c&Hs&Hst). pose proof (gate_decides cfg _ _ _ _ _ Hd Hs Hst) as Hc. cbn in Hc. rewrite Hmay in Hc.
    pose proof (enforce_steps_exact q q p ta tx (kq_requestId q) (eo_decision o) (kq_correlationId q) Hpl) as Hst'. cbv zeta in Hst'. unfold kbind, pure, concluded in E.
    destruct (enforce_steps _ _ _ _ _) as [k|e]; injection E as <- _; (split; [right; by exists c|]); [apply Hst|]. destruct Hst' as [?|(?&_)]; [by left|by right].
  - destruct Hg as (n&now&message&Hr&->). destruct (indeterminate_enforcement_Ok q rt4) as (r&rt5&E5&Hno&_). unfold kbind in E. rewrite E5 in E. injection E as <- _.
    split; [left; by exists n, now, message|by rewrite Hno].
Qed.

(** *** The grant of an evaluation *)

Lemma grant_evaluated d q k k' : applyGrantStep (Some d) q k = Ok k' → ∃ source gr, deriveGrantSourceAuthorization d q k' = Ok source ∧ rs_grants (other_fields k') = Some gr ∧
  (gx_eligibility gr = eligible ↔ kr_status k' = allowed ∧ match rs_obligations (other_fields k) with None => True | Some o => ov_allBlockingObligationsSatisfied o = true end ∧
    isDerivableGrantSource source = true).
Proof.
  cbn [applyGrantStep]. intros (gr&Eg&E)%result_bind_Ok. injection E as <-. unfold resolveKernelGrantFacts in Eg. apply result_bind_Ok in Eg as (source&Es&E). injection E as <-.
  exists source. eexists. split_and!; [exact Es|reflexivity|]. cbn [gx_eligibility]. destruct (assessGrantEligibility source) as [el codes] eqn:Ea. cbn [fst].
  assert (el = eligible ↔ authorizationPermitsExercise source = true ∧ allBlockingObligationsSatisfied source = true ∧ isDerivableGrantSource source = true) as ->.
  { split; [intros ->; by apply assessGrantEligibility_eligible in Ea as (_&?)|]. intros Hs. assert (assessGrantEligibility source = (eligible, [])) as E by (by apply assessGrantEligibility_eligible).
    rewrite Ea in E. by injection E. }
  unfold deriveGrantSourceAuthorization in Es. apply result_bind_Ok in Es as (cs&_&E). injection E as <-. cbn. rewrite bool_decide_eq_true.
  destruct (rs_obligations (other_fields k)); tauto.
Qed.
Definition unobliged k : Prop := rs_obligations (other_fields k) = None.
Lemma obligations_recorded r k : unobliged k → match rs_obligations (other_fields (applyObligationStep r k)) with None => True | Some o => ov_allBlockingObligationsSatisfied o = true end ↔ obligations_met r.
Proof. intros Hk. destruct r as [r|]; [apply facts_eligible|]. cbn. by rewrite Hk. Qed.
Lemma external_unobliged q k : unobliged k → unobliged (external_layer K q k).
Proof.
  intros Hk. unfold external_layer. destruct (ke_external K) as [c|]; [|done]. case_bool_decide; [|done]. unfold applyExternalAuthorizationStep.
  destruct (OUTCOME_REASON_CODE _); [|done]. by destruct (bool_decide _ && _).
Qed.
Lemma context_step_unobliged c r k q k' : applyContextStep c r k (context_view q) = Ok k' → unobliged k → unobliged k'.
Proof.
  unfold applyContextStep. destruct c as [c|]; [|by intros [= <-]]. destruct r as [r|]; [|by intros [= <-]]. intros (f&_&E)%result_bind_Ok. injection E as <-.
  destruct (negb _); [done|]. by destruct (kf_reasonCodes f).
Qed.
Lemma authority_unobliged p rp q k : unobliged k → unobliged (applyGovernedAuthorityStep p rp q k).
Proof.
  intros Hk. unfold applyGovernedAuthorityStep. destruct (default [] _); [done|]. destruct (negb _); [done|]. by destruct (gf_reasonCodes _).
Qed.
End Kernel.

(** C5. What an evaluation answers, in full, under the default chain of policies.
    It throws before the guard only for a malformed request, a constraint
    provider that fails, or a context the deployment cannot classify. Otherwise,
    whatever happened to the enforcement runtime between the ports' answers and
    the guard: either the recognition provider threw and the answer is
    indeterminate; or it answered and the answer is not indeterminate, the
    policies were shown the state of the runtime and what the providers
    answered, and the answer is allowed exactly when they have no objection, the
    governed rights the request engages are held and represented, the required
    context is met, and the external port, if one is configured, answered allow
    within its bound. After the guard it throws only for a grant ceiling beyond
    the range of dates or, for a request every layer permits, for a recognition
    type the kernel does not list. *)
Theorem kernel_evaluate_exact `{JsHost} `{ContextHost} (K : AocKernel) q options rt0 gathered rt1 rt2 out rt3 :
  default_policies K → evaluate_prepare K q rt0 = (gathered, rt1) →
  match gathered with
  | Throw e => unprepared K q e
  | Ok g => evaluate_decide K q options g rt2 = (out, rt3) →
      ∃ gq, guard_request q options g mode_preflight gq ∧
      (recognition_threw K gq ∧ (∃ k, out = Ok k ∧ kr_status k = indeterminate) ∨
       ∃ c at_, shown (ke_enforcement K) rt2 gq c ∧
         match out with
         | Ok k => rs_evaluatedAt (other_fields k) = at_ ∧ kr_status k ≠ indeterminate ∧ (kr_status k = allowed ↔ cleared c ∧ layers_permit K q g at_)
         | Throw e => e = DateRangeError ∧ is_Some (ke_grants K) ∨
             (∃ m, e = KernelInvariantError m) ∧ cleared c ∧ layers_permit K q g at_ ∧ unlisted (cx_recognitionResult c ≫= rr_type)
         end)
  end.
Proof.
  intros Hd Hp. destruct gathered as [g|e]; [|by eapply prepare_throws]. intros E. apply prepared_facts in Hp as Hf. unfold evaluate_decide, kbind, attempted in E.
  destruct (guard_preflight _ _ rt2) as [[d|e] rt4] eqn:Eg; apply preflight_called in Eg as (gq&Hq&Hg); exists gq; (split; [exact Hq|]).
  - right. destruct Hg as (c&Hs&Ht&Hr). exists c, (de_decidedAt d). split; [exact Hs|]. unfold pure in E. injection E as <- _.
    pose proof (evaluate_steps_exact K q g _ (kq_requestId q) d (kq_correlationId q) Hf) as Hx. pose proof (decision_cleared K gq rt2 c d (kq_requestId q) (kq_correlationId q) Hd Hs Ht) as Hc.
    destruct (evaluate_steps _ _ _ _) as [k|e].
    + destruct Hx as [[Hst (Et&_&_&Hi)] _]. rewrite Hst, Hc. split_and!; [done|apply Hi, decision_determinate|done..].
    + rewrite <-Hr, <-Hc. exact Hx.
  - left. split; [exact Hg|]. destruct (indeterminate_Ok K q "recognitionProvider failed during evaluation" rt4) as (k&rt5&E5&Hk). rewrite E5 in E. injection E as <- _. by exists k.
Qed.

(** C7. A grant may be derived from an evaluation exactly when it is allowed, no
    blocking obligation is outstanding and the request states a derivable scope.
    An evaluation that is not indeterminate, in a deployment that declares
    grants, says so of the source it derives from the request and the result. *)
Theorem kernel_grant_exact `{JsHost} `{ContextHost} (K : AocKernel) q options g rt k rt' d :
  ke_grants K = Some d → evaluate_decide K q options g rt = (Ok k, rt') →
  kr_status k = indeterminate ∧ rs_grants (other_fields k) = None ∨
  ∃ source gr, deriveGrantSourceAuthorization d q k = Ok source ∧ rs_grants (other_fields k) = Some gr ∧
    (gx_eligibility gr = eligible ↔ kr_status k = allowed ∧ obligations_met (gt_obligations g) ∧ isDerivableGrantSource source = true).
Proof.
  intros Hd E. unfold evaluate_decide, kbind, attempted in E. destruct (guard_preflight _ _ rt) as [[dec|e] rt4]; [|left; by injection E as <- _].
  right. unfold pure in E. injection E as E _. unfold evaluate_steps in E. apply result_bind_Ok in E as (k2&Ec&E). apply result_bind_Ok in E as (k5&Eg&E). apply result_bind_Ok in E as (u&_&E). injection E as ->.
  rewrite Hd in Eg. apply grant_evaluated in Eg as (source&gr&Es&Er&He). exists source, gr. split_and!; [done..|]. rewrite He. do 2 f_equiv.
  assert (unobliged k2) as Hn; [|by apply obligations_recorded, (external_unobliged K)].
  destruct (applyContextStep _ _ _ _) eqn:Ea; [|done]. injection Ec as <-. apply (context_step_unobliged _ _ _ _ _ Ea). destruct (ke_authority K); [by apply authority_unobliged|done].
Qed.

(** C4. The kernel invokes the executor exactly when every layer permits, in the
    order it asks them. A preparation that ends the call does so with a denial
    and no execution, because a governed right is not held or the context is not
    met; otherwise the rights were held and the context met, and then, whatever
    happens to the enforcement runtime before the guard is called: the executor
    is invoked with the default chain of policies cleared, the request not a dry
    run, no blocking obligation outstanding and the external port answering
    allow; or nothing is executed, and the recognition provider threw or one of
    these fails. *)
Theorem kernel_executor_gate `{JsHost} `{ContextHost} (K : AocKernel) q options rt0 plan rt1 rt2 out rt3 :
  default_policies K → enforce_prepare K q rt0 = (Ok plan, rt1) →
  match plan with
  | inl r => refused_early K q r
  | inr p => enforce_go K q options p rt2 = (out, rt3) → ∃ ta tx mode gq, planned K q p ta tx ∧ guard_request q options (ep_gathered p) mode gq ∧
      match out with Ok (inl x) => executes K q options p tx rt2 gq x | _ => withheld K q options p tx rt2 gq out end
  end.
Proof.
  intros Hd Hp. apply prepared in Hp. destruct plan as [r|p]; [done|]. destruct Hp as (ta&tx&Hpl). intros E. exists ta, tx. destruct (plan_eligible p && plan_permitted p) eqn:Ep.
  - destruct (go_guarded K q options p ta tx rt2 out rt3 Hd Hpl Ep E) as (gq&Hq&Hg). by exists mode_execute, gq.
  - destruct (go_withheld K q options p ta tx rt2 out rt3 Hpl Ep E) as (gq&Hq&Hg). exists mode_preflight, gq. split_and!; [done..|]. destruct out as [[x|r]|e]; [by destruct Hg|done..].
Qed.

(** C6. An execution is reported as it happened. When the executor of an
    enforcement settles, at any later state of the runtime and having written
    anything to the caller's request object, the call answers an allowed result
    with the executor's value, or with its error and nothing executed; the
    answer is lost only to a grant ceiling beyond the range of dates, to a
    recognition type the kernel does not list, or to a request that differs from
    its snapshot, and the record the enforcement runtime keeps is never reported
    missing. Ports leave the request as it is. *)
Theorem kernel_reports_execution `{JsHost} `{ContextHost} (K : AocKernel) q options rt0 p rt1 rt2 x rt3 now a rt4 out rt5 :
  default_policies K → enforce_prepare K q rt0 = (Ok (inr p), rt1) → enforce_go K q options p rt2 = (Ok (inl x), rt3) → enforce_finish K q now p x a rt4 = (out, rt5) →
  match out with
  | Ok r => requests_equal q now = true ∧ kr_status (er_result r) = allowed ∧ match a with
      | Returned v => ko_executed (er_execution r) = true ∧ ko_value (er_execution r) = defined_value (Some v) ∧ ko_errorMessage (er_execution r) = None
      | Raised m => ko_executed (er_execution r) = false ∧ ko_value (er_execution r) = None ∧ ko_errorMessage (er_execution r) = Some m
      end
  | Throw e => e = DateRangeError ∧ is_Some (ke_grants K) ∨
      (∃ m, e = KernelInvariantError m) ∧ (requests_equal q now = false ∨ unlisted (de_recognitionDecisionType (ex_decision x)))
  end.
Proof.
  intros Hd Hp%prepared Eg E. destruct Hp as (ta&tx&Hpl). assert (∃ gq, executes K q options p tx rt2 gq x) as (gq&_&Ht&c&_&_&_&_&Hx).
  { destruct (plan_eligible p && plan_permitted p) eqn:Ep; [destruct (go_guarded K q options p ta tx rt2 _ rt3 Hd Hpl Ep Eg) as (gq&_&Hg); by exists gq|].
    destruct (go_withheld K q options p ta tx rt2 _ rt3 Hpl Ep Eg) as (gq&_&_&[]). }
  unfold enforce_finish, kbind, attempted, pure in E. destruct (run_finish_Ok (ke_enforcement K) x a rt4) as (o&rt6&Eo&Hf). rewrite Eo in E. injection E as <- _.
  unfold concluded. rewrite (fi_decision _ _ _ _ _ Hf). pose proof (enforce_steps_exact K q now p ta tx (kq_requestId now) (ex_decision x) (kq_correlationId now) Hpl) as Hst. cbv zeta in Hst.
  destruct (enforce_steps _ _ _ _ _) as [k|e].
  - destruct Hst as [Hq [Hst _]]. cbn [result_bind er_result er_execution]. split; [done|]. split; [apply Hst; split; [apply decision_allowed; by left|done]|].
    destruct Hf as [_ _ H1 H2 H3 _ _ _]. cbn. rewrite H1, H2, H3. by destruct a.
  - destruct Hst as [?|(?&[?|[_ ?]])]; [by left|right; by split; [|left]|right; by split; [|right]].
Qed.

(** ** A deployment *)
Module KernelDemo.

#[local] Existing Instance demo_host.
#[local] Existing Instance ContextDemo.demo_context_host.

(** The treasury holds the right to move its account, and the agent represents
    it; finance discharges the obligation; the port allows. *)
Definition holds_right : GovernedAuthorityProvider := λ query, Some (if str_eqb (gq_holderRef query) "treasury" then Covered "position-1" else NoRightAuthority).
Definition represents : GovernedRepresentationProvider := λ query, Some (if str_eqb (rq_representativeRef query) "agent-1" then Represented "mandate-1" ["mandate-1"] else NoRepresentation).
Definition finance : ObligationDischargeSource := {| Obligations.src_id := "finance"; Obligations.src_kind := "approval_runtime"; Obligations.src_name := "Finance approvals"; src_verificationClass := "independent" |}.
Definition discharges (l : list string) : ObligationDischargeProvider := λ query, Discharges ((λ t, {| obs_obligationType := t; obs_correlation := dq_correlation query; obs_sourceId := "finance";
  obs_outcome := oo_discharged; obs_observedAt := "900"; obs_subjectId := None; obs_reference := Some "approval-1" |}) <$> l).
Definition obligation_options (l : list string) : KernelObligationOptions :=
  {| oo_provider := discharges l; oo_sources := [finance]; oo_requirements := [{| req_obligationType := "finance.approval"; req_blocking := true; req_expiresAt := None |}];
     oo_profileDeclarations := []; oo_resolveEffectiveProfile := None |}.
Definition port (decision : string) : ExternalAuthorizationProvider :=
  {| xp_race := λ _, PortAnswered (JsObject true [("decision", JsString decision)]); xp_past_bound := λ _, false |}.
Definition options_of (cfg : EnforcementConfiguration) (discharged : list string) (decision : string) (lifetime : Z) : AocKernelOptions :=
  {| ao_enforcement := cfg; ao_authority := Some holds_right; ao_representation := Some represents; ao_constraints := None; ao_contextResolution := None;
     ao_obligations := Some (obligation_options discharged); ao_grants := Some {| maximumGrantLifetimeSeconds := Some lifetime |}; ao_external := Some (port decision, JInt 500);
     ao_emergencyDeny := None; ao_adapters := [] |}.
Definition no_kernel (cfg : EnforcementConfiguration) : AocKernel :=
  {| ke_enforcement := cfg; ke_authority := None; ke_representation := None; ke_constraints := None; ke_context := None; ke_obligations := None; ke_grants := None; ke_external := None |}.
Definition made (o : AocKernelOptions) : AocKernel := match createAocKernel o with Ok (k, _) => k | Throw _ => no_kernel (ao_enforcement o) end.
Definition standard : EnforcementConfiguration := EnforcementDemo.deployment true.
Definition kernel : AocKernel := made (options_of standard ["finance.approval"] "allow" 3600).

Definition transfer : KernelRequest :=
  {| kq_requestId := "request-1"; kq_actor := {| ak_id := "agent-1"; ak_principalId := None; ak_trustDomainId := "domain-1"; ak_type := None |};
     kq_action := {| an_type := "transfer"; an_domain := None; an_jurisdiction := None; an_country := None; an_industry := None; an_customerId := None; an_capability := None;
       an_resourceScope := "treasury"; an_riskLevel := None; an_sideEffectType := None; an_amount := None; an_currency := None; an_counterpartyId := None; an_dataDomains := None;
       an_evidenceIds := None; an_parameters := None; an_semantics := None; an_governedParameters := None; an_governedRights := Some ["move"]; an_governedRightsScope := None;
       an_governedAuthorityHolderRef := Some "treasury" |};
     kq_target := Some {| tk_id := Some "account-1"; tk_type := Some "account"; tk_name := None; tk_adapterId := None |};
     kq_organization := Some {| og_id := "org-1"; og_name := None |}; kq_context := None; kq_requestedAt := "900"; kq_correlationId := None; kq_approvalProofId := None;
     kq_approvalRequestId := None; kq_approvalDecisionId := None; kq_visaId := None; kq_ingressGrantId := None; kq_handshakeProofId := None; kq_idempotencyKey := Some "key-1";
     kq_expiresAt := None |}.
Definition fresh : ActionEnforcementRuntime := createActionEnforcementRuntime false.
Definition nothing_gathered : Gathered := {| gt_constraints := None; gt_resolution := None; gt_facts := None; gt_obligations := None |}.
Definition gathered_of (K : AocKernel) : Gathered := match (evaluate_prepare K transfer fresh).1 with Ok g => g | Throw _ => nothing_gathered end.
Definition no_plan : EnforcePlan := {| ep_gathered := nothing_gathered; ep_authority := None; ep_external := None |}.
Definition plan_of (K : AocKernel) : EnforcePlan := match (enforce_prepare K transfer fresh).1 with Ok (inr p) => p | _ => no_plan end.
Definition go (K : AocKernel) := enforce_go K transfer None (plan_of K) (enforce_prepare K transfer fresh).2.

Example kernel_made : match createAocKernel (options_of standard ["finance.approval"] "allow" 3600) with Ok _ => True | Throw _ => False end.
Proof. by vm_compute. Qed.
Example evaluated_allowed : kr_status <$> (match (evaluate kernel transfer None fresh).1 with Ok k => Some k | Throw _ => None end) = Some allowed.
Proof. by vm_compute. Qed.
Example executes_transfer : match (go kernel).1 with Ok (inl _) => True | _ => False end.
Proof. by vm_compute. Qed.

(** A runtime in which another key was used since the ports answered. *)
Definition later (K : AocKernel) : ActionEnforcementRuntime := (guard_preflight standard EnforcementDemo.order (evaluate_prepare K transfer fresh).2).2.
Definition other_transfer : KernelRequest :=
  {| kq_requestId := kq_requestId transfer; kq_actor := kq_actor transfer; kq_action := kq_action transfer; kq_target := kq_target transfer; kq_organization := kq_organization transfer;
     kq_context := None; kq_requestedAt := kq_requestedAt transfer; kq_correlationId := None; kq_approvalProofId := None; kq_approvalRequestId := None; kq_approvalDecisionId := None;
     kq_visaId := None; kq_ingressGrantId := None; kq_handshakeProofId := None; kq_idempotencyKey := Some "key-2"; kq_expiresAt := None |}.
Lemma kernel_evaluate_exact_witness : ∃ gq c at_, guard_request other_transfer None (gathered_of kernel) mode_preflight gq ∧ shown standard (later kernel) gq c ∧ cleared c ∧
  layers_permit kernel other_transfer (gathered_of kernel) at_.
Proof.
  assert (match (evaluate_decide kernel other_transfer None (gathered_of kernel) (later kernel)).1 with Ok k => bool_decide (kr_status k = allowed) | Throw _ => false end = true) as Hrun by (vm_compute; reflexivity).
  assert (evaluate_prepare kernel other_transfer fresh = (Ok (gathered_of kernel), (evaluate_prepare kernel other_transfer fresh).2)) as Hp by (vm_compute; reflexivity).
  destruct (kernel_evaluate_exact kernel other_transfer None fresh (Ok (gathered_of kernel)) _ (later kernel) (evaluate_decide kernel other_transfer None (gathered_of kernel) (later kernel)).1
    (evaluate_decide kernel other_transfer None (gathered_of kernel) (later kernel)).2 eq_refl Hp (surjective_pairing _)) as (gq&Hq&Hx).
  destruct (evaluate_decide kernel other_transfer None (gathered_of kernel) (later kernel)).1 as [k|e]; [|discriminate Hrun]. apply bool_decide_eq_true in Hrun.
  destruct Hx as [(_&k'&E&Hk)|(c&at_&Hs&_&_&Ha)]; [injection E as E; subst k'; rewrite Hrun in Hk; discriminate Hk|]. apply Ha in Hrun as [Hc Hl].
  exists gq, c, at_. exact (conj Hq (conj Hs (conj Hc Hl))).
Defined.

Lemma kernel_executor_gate_witness : ∃ ta tx mode gq x, planned kernel transfer (plan_of kernel) ta tx ∧ guard_request transfer None (ep_gathered (plan_of kernel)) mode gq ∧
  executes kernel transfer None (plan_of kernel) tx (enforce_prepare kernel transfer fresh).2 gq x.
Proof.
  assert (match (go kernel).1 with Ok (inl _) => true | _ => false end = true) as Hrun by (vm_compute; reflexivity).
  assert (enforce_prepare kernel transfer fresh = (Ok (inr (plan_of kernel)), (enforce_prepare kernel transfer fresh).2)) as Hp by (vm_compute; reflexivity).
  destruct (kernel_executor_gate kernel transfer None fresh (inr (plan_of kernel)) _ (enforce_prepare kernel transfer fresh).2 (go kernel).1 (go kernel).2 eq_refl Hp (surjective_pairing _))
    as (ta&tx&mode&gq&Hpl&Hq&Hx).
  destruct (go kernel).1 as [[x|r]|e]; [|discriminate Hrun..]. exists ta, tx, mode, gq, x. exact (conj Hpl (conj Hq Hx)).
Defined.
Lemma kernel_reports_execution_witness : ∃ x, (go kernel).1 = Ok (inl x) ∧
  match (enforce_finish kernel transfer transfer (plan_of kernel) x (Raised "timeout") fresh).1 with
  | Ok r => requests_equal transfer transfer = true ∧ kr_status (er_result r) = allowed ∧ ko_executed (er_execution r) = false ∧ ko_value (er_execution r) = None ∧ ko_errorMessage (er_execution r) = Some "timeout"
  | Throw e => e = DateRangeError ∧ is_Some (ke_grants kernel) ∨
      (∃ m, e = KernelInvariantError m) ∧ (requests_equal transfer transfer = false ∨ unlisted (de_recognitionDecisionType (ex_decision x)))
  end.
Proof.
  assert (match (go kernel).1 with Ok (inl _) => true | _ => false end = true) as Hrun by (vm_compute; reflexivity).
  assert (enforce_prepare kernel transfer fresh = (Ok (inr (plan_of kernel)), (enforce_prepare kernel transfer fresh).2)) as Hp by (vm_compute; reflexivity).
  pose proof (surjective_pairing (go kernel)) as Hg. destruct (go kernel).1 as [[x|r]|e]; [|discriminate Hrun..]. exists x. split; [reflexivity|].
  exact (kernel_reports_execution kernel transfer None fresh (plan_of kernel) _ _ x _ transfer (Raised "timeout") fresh _ _ eq_refl Hp Hg (surjective_pairing _)).
Defined.

Lemma kernel_grant_exact_witness : ∃ k source gr, deriveGrantSourceAuthorization {| maximumGrantLifetimeSeconds := Some 3600 |} transfer k = Ok source ∧ rs_grants (other_fields k) = Some gr ∧
  (gx_eligibility gr = eligible ↔ kr_status k = allowed ∧ obligations_met (gt_obligations (gathered_of kernel)) ∧ isDerivableGrantSource source = true).
Proof.
  assert (match (evaluate_decide kernel transfer None (gathered_of kernel) fresh).1 with Ok k => bool_decide (kr_status k = allowed) | Throw _ => false end = true) as Hrun by (vm_compute; reflexivity).
  pose proof (surjective_pairing (evaluate_decide kernel transfer None (gathered_of kernel) fresh)) as Hg. destruct (evaluate_decide kernel transfer None (gathered_of kernel) fresh).1 as [k|e]; [|discriminate Hrun]. apply bool_decide_eq_true in Hrun. exists k.
  destruct (kernel_grant_exact kernel transfer None (gathered_of kernel) fresh k _ {| maximumGrantLifetimeSeconds := Some 3600 |} eq_refl Hg) as [[Hk _]|Hx]; [|exact Hx].
  rewrite Hrun in Hk. discriminate Hk.
Defined.

(** An obligation not discharged, or a port that denies, withholds the executor. *)
Example withheld_by_obligation : match (go (made (options_of standard [] "allow" 3600))).1 with
  | Ok (inr r) => kr_status (er_result r) = allowed ∧ ko_withheldByObligation (er_execution r) = true | _ => False end.
Proof. by vm_compute. Qed.
Example denied_by_port : match (go (made (options_of standard ["finance.approval"] "deny" 3600))).1 with
  | Ok (inr r) => kr_status (er_result r) = denied ∧ kr_reasonCodes (er_result r) = ["EXTERNAL_AUTHORIZATION_DENIED"; "ACTION_ALLOWED"] | _ => False end.
Proof. by vm_compute. Qed.

(** A grant may be derived from this evaluation. *)
Example evaluated_grant : match (evaluate kernel transfer None fresh).1 with Ok k => gx_eligibility <$> rs_grants (other_fields k) = Some eligible | Throw _ => False end.
Proof. by vm_compute. Qed.

(** With a recognition type outside the kernel's list the executor runs, and the
    call then throws instead of answering. *)
Definition finished_of (K : AocKernel) : result KernelThrow KernelEnforcementResult :=
  match go K with (Ok (inl x), rt) => (enforce_finish K transfer transfer (plan_of K) x (Returned (JsBool true)) rt).1 | _ => Throw KernelConfigurationError end.
Example unlisted_type_lost : match (go (made (options_of EnforcementDemo.quarantine ["finance.approval"] "allow" 3600))).1 with Ok (inl _) => True | _ => False end ∧
  match finished_of (made (options_of EnforcementDemo.quarantine ["finance.approval"] "allow" 3600)) with Throw (KernelInvariantError _) => True | _ => False end.
Proof. by vm_compute. Qed.
(** An executor that writes to the request it was called for runs, and the call
    throws; writing nothing, it is answered. *)
Example written_request_lost : match go kernel with
  | (Ok (inl x), rt) => match (enforce_finish kernel transfer other_transfer (plan_of kernel) x (Returned (JsBool true)) rt).1 with Throw (KernelInvariantError _) => True | _ => False end
  | _ => False end ∧ match finished_of kernel with Ok r => ko_executed (er_execution r) = true | Throw _ => False end.
Proof. by vm_compute. Qed.
(** The order of the keys does not count, their values do. *)
Example keys_in_any_order : deepEqual (JObj [("a", JNo 1); ("b", JArr [JObj [("c", JNul); ("d", JUndef)]])]) (JObj [("b", JArr [JObj [("d", JUndef); ("c", JNul)]]); ("a", JNo 1)]) = true ∧
  deepEqual (JObj [("a", JNo 1)]) (JObj [("a", JNo 2)]) = false ∧ deepEqual (JObj [("a", JUndef)]) (JObj []) = false.
Proof. by vm_compute. Qed.
(** A maximal lifetime beyond the range of dates is accepted, every evaluation
    then throws, and an enforcement throws after it executed. *)
Example lifetime_accepted : match createAocKernel (options_of standard ["finance.approval"] "allow" 10000000000000) with Ok _ => True | Throw _ => False end.
Proof. by vm_compute. Qed.
Example lifetime_loses_execution : (evaluate (made (options_of standard ["finance.approval"] "allow" 10000000000000)) transfer None fresh).1 = Throw DateRangeError ∧
  match (go (made (options_of standard ["finance.approval"] "allow" 10000000000000))).1 with Ok (inl _) => True | _ => False end ∧
  finished_of (made (options_of standard ["finance.approval"] "allow" 10000000000000)) = Throw DateRangeError.
Proof. by vm_compute. Qed.
End KernelDemo.
