(* ===== verification/Recognition.v ===== *)
(** * The recognition runtime

    [recognition-runtime]: actors, trust domains, passports and capability
    tokens with their registries, the ten policies in their order, revocation,
    the hash-linked evidence ledger, and [verifyAction], which composes them with
    an authority graph, an approval runtime and the standing of external agents.

    One state holds the registries and the ledger; an operation is a computation
    on it that may throw. The clock, the generator of ids and the three
    integrations are functions of the number of calls made so far. Delegation
    depths are integers. An item of evidence is any JSON value, as the callers of
    the runtime hand them over unread: the property [type] of [null] throws. *)

From S2P Require Import Prelude Decimal Js JsMap StableJson HashChain.

Local Open Scope Z_scope.
Local Open Scope frontera_scope.

(** ** Records *)

Inductive ActorType := at_human | at_organization | at_agent | at_system | at_external | at_unknown.
Inductive ActorStatus := as_recognized | as_unrecognized | as_suspended | as_revoked | as_expired | as_unknown.
Inductive CredentialStatus := cr_valid | cr_expired | cr_suspended | cr_revoked.
#[export] Instance ActorType_eq_dec : EqDecision ActorType.
Proof. solve_decision. Defined.
#[export] Instance ActorStatus_eq_dec : EqDecision ActorStatus.
Proof. solve_decision. Defined.
#[export] Instance CredentialStatus_eq_dec : EqDecision CredentialStatus.
Proof. solve_decision. Defined.
Definition actor_type_name (t : ActorType) : string :=
  match t with at_human => "human" | at_organization => "organization" | at_agent => "agent" | at_system => "system" | at_external => "external" | at_unknown => "unknown" end.
Definition actor_status_name (s : ActorStatus) : string :=
  match s with
  | as_recognized => "recognized" | as_unrecognized => "unrecognized" | as_suspended => "suspended" | as_revoked => "revoked" | as_expired => "expired" | as_unknown => "unknown"
  end.

Record Actor := {
  ac_id : string; ac_type : ActorType; ac_displayName : string; ac_status : ActorStatus; ac_issuerId : option string; ac_trustDomainId : option string;
  ac_jurisdiction : option string; ac_metadata : option (JsMap string); ac_createdAt : string; ac_updatedAt : string }.
Inductive TrustDomainStatus := ts_active | ts_suspended | ts_retired.
Record TrustDomain := {
  td_id : string; td_name : string; td_issuerActorId : string; td_jurisdiction : option string; td_acceptedIssuerIds : list string; td_acceptedActorTypes : list ActorType;
  td_policyPackIds : list string; td_status : TrustDomainStatus; td_createdAt : string; td_updatedAt : string }.
Record RecognitionProof := { pr_algorithm : string; pr_signedBy : string; pr_signedAt : string; pr_digest : string }.
Inductive PassportType := human_passport | organization_passport | agent_passport | system_passport.
Record Passport := {
  pa_id : string; pa_type : PassportType; pa_subjectActorId : string; pa_issuerActorId : string; pa_trustDomainId : string; pa_jurisdiction : option string;
  pa_status : CredentialStatus; pa_issuedAt : string; pa_expiresAt : option string; pa_claims : JsMap string; pa_proof : RecognitionProof }.
Inductive RiskLevel := rl_low | rl_medium | rl_high | rl_critical | rl_prohibited.
Record DelegationPolicyRecord := { dp_delegable : bool; dp_delegatedFromTokenId : option string; dp_delegationDepth : Z; dp_maxDelegationDepth : Z }.
Record EvidenceRequirement := { er_action : string; er_requiredEvidenceTypes : list string }.
Record ApprovalRequirement := { pq_actions : list string; pq_requiredApproverActorIds : option (list string) }.
Record RecognitionCapabilityToken := {
  ct_id : string; ct_subjectActorId : string; ct_principalActorId : string; ct_issuerActorId : string; ct_trustDomainId : string; ct_capability : string; ct_actions : list string;
  ct_resourceScopes : list string; ct_jurisdiction : option string; ct_prohibitedActions : list string; ct_delegation : DelegationPolicyRecord;
  ct_evidenceRequirements : list EvidenceRequirement; ct_approvalRequirement : option ApprovalRequirement; ct_riskLevel : RiskLevel; ct_status : CredentialStatus; ct_issuedAt : string;
  ct_expiresAt : option string; ct_proof : option RecognitionProof }.
Record ActionRequest := {
  aq_id : string; aq_actorId : string; aq_passportId : option string; aq_capabilityTokenId : option string; aq_trustDomainId : string; aq_action : string; aq_resource : string;
  aq_principalActorId : option string; aq_context : option (JsMap string); aq_evidence : option (list Json); aq_requestedAt : string; aq_approvalProofId : option string;
  aq_approvalRequestId : option string; aq_approvalDecisionId : option string }.

Inductive RecognitionDecisionType :=
  | rd_allow | rd_deny | rd_require_human_approval | rd_require_more_evidence | rd_revoked | rd_expired | rd_unrecognized_actor | rd_invalid_passport | rd_invalid_capability
  | rd_out_of_scope | rd_policy_violation.
#[export] Instance RecognitionDecisionType_eq_dec : EqDecision RecognitionDecisionType.
Proof. solve_decision. Defined.
Definition recognition_type_name (t : RecognitionDecisionType) : string :=
  match t with
  | rd_allow => "allow" | rd_deny => "deny" | rd_require_human_approval => "require_human_approval" | rd_require_more_evidence => "require_more_evidence" | rd_revoked => "revoked"
  | rd_expired => "expired" | rd_unrecognized_actor => "unrecognized_actor" | rd_invalid_passport => "invalid_passport" | rd_invalid_capability => "invalid_capability"
  | rd_out_of_scope => "out_of_scope" | rd_policy_violation => "policy_violation"
  end.
Record PolicyResult := { pl_policyId : string; pl_passed : bool; pl_reasonCode : string; pl_reason : string }.
Record RecognitionDecision := {
  rd_id : string; rd_requestId : string; rd_type : RecognitionDecisionType; rd_recognized : bool; rd_reasonCode : string; rd_reason : string; rd_actorId : string; rd_trustDomainId : string;
  rd_evaluatedAt : string; rd_riskLevel : option RiskLevel; rd_requiredEvidence : option (list string); rd_requiredApproverActorIds : option (list string);
  rd_policyResults : list PolicyResult; rd_auditEventId : string; rd_authorityDecisionId : option string; rd_authorityProofId : option string; rd_approvalRequestId : option string;
  rd_approvalDecisionId : option string; rd_approvalProofId : option string }.

Inductive RecognitionThrow :=
  | ActorNotFoundError (id : string) | TrustDomainNotFoundError (id : string) | PassportNotFoundError (id : string) | CapabilityTokenNotFoundError (id : string)
  | DelegationNotPermittedError (reason : string) | EvidenceTypeError | IntegrationThrew.

(** ** Policies *)

Inductive RevocableEntityType := rev_actor | rev_passport | rev_capability_token.
Record RevocationCheckResult := { rk_revoked : bool; rk_revokedEntityType : option RevocableEntityType; rk_revokedEntityId : option string }.
Record CapabilityCheckResult := { cc_actionGranted : bool; cc_prohibited : bool; cc_inResourceScope : bool }.
Record PolicyContext := {
  px_now : string; px_actor : option Actor; px_principalActor : option Actor; px_trustDomain : option TrustDomain; px_passport : option Passport;
  px_capabilityToken : option RecognitionCapabilityToken; px_issuerAccepted : bool; px_capabilityCheck : option CapabilityCheckResult; px_revocation : RevocationCheckResult;
  px_externalStandingValid : option bool }.
Record PolicyOutcome := {
  pm_result : PolicyResult; pm_decisionType : option RecognitionDecisionType; pm_riskLevel : option RiskLevel; pm_requiredEvidence : option (list string);
  pm_requiredApproverActorIds : option (list string) }.
Definition Policy : Type := ActionRequest → PolicyContext → result RecognitionThrow PolicyOutcome.
Implicit Types (q : ActionRequest) (c : PolicyContext).

Definition passes (id code reason : string) : result RecognitionThrow PolicyOutcome :=
  Ok {| pm_result := {| pl_policyId := id; pl_passed := true; pl_reasonCode := code; pl_reason := reason |}; pm_decisionType := None; pm_riskLevel := None; pm_requiredEvidence := None;
        pm_requiredApproverActorIds := None |}.
Definition fails (id code reason : string) (t : RecognitionDecisionType) : result RecognitionThrow PolicyOutcome :=
  Ok {| pm_result := {| pl_policyId := id; pl_passed := false; pl_reasonCode := code; pl_reason := reason |}; pm_decisionType := Some t; pm_riskLevel := None; pm_requiredEvidence := None;
        pm_requiredApproverActorIds := None |}.

Definition RecognizedActorPolicy : Policy := λ q c,
  let id := "recognized_actor_required" in
  match px_actor c with
  | None => fails id "ACTOR_NOT_FOUND" "No actor is registered for this request." rd_unrecognized_actor
  | Some a =>
      match ac_status a with
      | as_revoked => fails id "ACTOR_REVOKED" ("Actor " +:+ ac_id a +:+ " has been revoked.") rd_revoked
      | as_expired => fails id "ACTOR_EXPIRED" ("Actor " +:+ ac_id a +:+ " recognition has expired.") rd_expired
      | as_suspended => fails id "ACTOR_SUSPENDED" ("Actor " +:+ ac_id a +:+ " is suspended.") rd_deny
      | as_recognized => passes id "ACTOR_RECOGNIZED" ("Actor " +:+ ac_id a +:+ " is recognized.")
      | s => fails id "ACTOR_NOT_RECOGNIZED" ("Actor " +:+ ac_id a +:+ " is not recognized (status: " +:+ actor_status_name s +:+ ").") rd_unrecognized_actor
      end
  end.
Definition ROGUE_ACTOR_TYPE : string := "ROGUE_ACTOR_TYPE".
Definition RogueActorPolicy : Policy := λ q c,
  let id := "rogue_actor_denied" in
  match px_actor c with
  | None => fails id "ROGUE_ACTOR_UNKNOWN" "Actor could not be classified against a trust domain." rd_unrecognized_actor
  | Some a =>
      if bool_decide (ac_type a = at_unknown) || (bool_decide (ac_type a = at_external) && negb (bool_decide (px_externalStandingValid c = Some true)))
      then fails id ROGUE_ACTOR_TYPE ("Actor " +:+ ac_id a +:+ " is of an untrusted type (" +:+ actor_type_name (ac_type a) +:+ ").") rd_unrecognized_actor
      else match px_trustDomain c with
           | None => fails id "ROGUE_ACTOR_NO_TRUST_DOMAIN" "Requested trust domain does not exist." rd_unrecognized_actor
           | Some d =>
               if negb (bool_decide (ac_type a ∈ td_acceptedActorTypes d))
               then fails id "ROGUE_ACTOR_TYPE_NOT_ACCEPTED" ("Trust domain " +:+ td_id d +:+ " does not accept actor type " +:+ actor_type_name (ac_type a) +:+ ".") rd_unrecognized_actor
               else match ac_issuerId a with
                    | Some issuer =>
                        if px_issuerAccepted c then passes id "ACTOR_NOT_ROGUE" ("Actor " +:+ ac_id a +:+ " is accepted by trust domain " +:+ td_id d +:+ ".")
                        else fails id "ROGUE_ACTOR_ISSUER_NOT_ACCEPTED" ("Trust domain " +:+ td_id d +:+ " does not accept issuer " +:+ issuer +:+ ".") rd_unrecognized_actor
                    | None => passes id "ACTOR_NOT_ROGUE" ("Actor " +:+ ac_id a +:+ " is accepted by trust domain " +:+ td_id d +:+ ".")
                    end
           end
  end.
Definition revocable_name (t : option RevocableEntityType) : string :=
  match t with Some rev_actor => "actor" | Some rev_passport => "passport" | Some rev_capability_token => "capability_token" | None => "entity" end.
Definition RevocationPolicy : Policy := λ q c,
  let id := "revocation_wins" in let r := px_revocation c in
  if rk_revoked r then fails id "REVOKED" (revocable_name (rk_revokedEntityType r) +:+ " " +:+ default "" (rk_revokedEntityId r) +:+ " has been revoked.") rd_revoked
  else passes id "NOT_REVOKED" "No revoked entities were found in this request.".
(** [expiresAt !== undefined && expiresAt <= now], on texts. *)
Definition expired_by (expiresAt : option string) (now : string) : bool := match expiresAt with Some e => String.leb e now | None => false end.
Definition ValidPassportPolicy : Policy := λ q c,
  let id := "valid_passport_required" in
  match aq_passportId q, px_passport c with
  | None, _ => fails id "PASSPORT_REQUIRED" "This request does not carry a passport." rd_invalid_passport
  | Some pid, None => fails id "PASSPORT_NOT_FOUND" ("No passport found for id " +:+ pid +:+ ".") rd_invalid_passport
  | Some _, Some p =>
      if bool_decide (pa_status p = cr_revoked) then fails id "PASSPORT_REVOKED" ("Passport " +:+ pa_id p +:+ " has been revoked.") rd_revoked
      else if expired_by (pa_expiresAt p) (px_now c) then fails id "PASSPORT_EXPIRED" ("Passport " +:+ pa_id p +:+ " has expired.") rd_expired
      else if bool_decide (pa_status p = cr_suspended) then fails id "PASSPORT_SUSPENDED" ("Passport " +:+ pa_id p +:+ " is suspended.") rd_invalid_passport
      else if negb (str_eqb (pa_subjectActorId p) (aq_actorId q))
      then fails id "PASSPORT_SUBJECT_MISMATCH" ("Passport " +:+ pa_id p +:+ " does not belong to actor " +:+ aq_actorId q +:+ ".") rd_invalid_passport
      else if negb (str_eqb (pa_trustDomainId p) (aq_trustDomainId q))
      then fails id "PASSPORT_TRUST_DOMAIN_MISMATCH" ("Passport " +:+ pa_id p +:+ " was not issued within trust domain " +:+ aq_trustDomainId q +:+ ".") rd_invalid_passport
      else passes id "PASSPORT_VALID" ("Passport " +:+ pa_id p +:+ " is valid.")
  end.
Definition ValidCapabilityPolicy : Policy := λ q c,
  let id := "valid_capability_required" in
  match aq_capabilityTokenId q, px_capabilityToken c with
  | None, _ => fails id "CAPABILITY_TOKEN_REQUIRED" "This request does not carry a capability token." rd_invalid_capability
  | Some tid, None => fails id "CAPABILITY_TOKEN_NOT_FOUND" ("No capability token found for id " +:+ tid +:+ ".") rd_invalid_capability
  | Some _, Some t =>
      if bool_decide (ct_status t = cr_revoked) then fails id "CAPABILITY_TOKEN_REVOKED" ("Capability token " +:+ ct_id t +:+ " has been revoked.") rd_revoked
      else if expired_by (ct_expiresAt t) (px_now c) then fails id "CAPABILITY_TOKEN_EXPIRED" ("Capability token " +:+ ct_id t +:+ " has expired.") rd_expired
      else if bool_decide (ct_status t = cr_suspended) then fails id "CAPABILITY_TOKEN_SUSPENDED" ("Capability token " +:+ ct_id t +:+ " is suspended.") rd_invalid_capability
      else if negb (str_eqb (ct_subjectActorId t) (aq_actorId q))
      then fails id "CAPABILITY_TOKEN_SUBJECT_MISMATCH" ("Capability token " +:+ ct_id t +:+ " does not belong to actor " +:+ aq_actorId q +:+ ".") rd_invalid_capability
      else if negb (str_eqb (ct_trustDomainId t) (aq_trustDomainId q))
      then fails id "CAPABILITY_TOKEN_TRUST_DOMAIN_MISMATCH" ("Capability token " +:+ ct_id t +:+ " was not issued within trust domain " +:+ aq_trustDomainId q +:+ ".") rd_invalid_capability
      else passes id "CAPABILITY_TOKEN_VALID" ("Capability token " +:+ ct_id t +:+ " is valid.")
  end.
Definition ProhibitedActionPolicy : Policy := λ q c,
  let id := "prohibited_action_denied" in
  if default false (cc_prohibited <$> px_capabilityCheck c)
  then fails id "ACTION_PROHIBITED" ("Action " +:+ aq_action q +:+ " is explicitly prohibited by this capability token.") rd_policy_violation
  else passes id "ACTION_NOT_PROHIBITED" ("Action " +:+ aq_action q +:+ " is not on the prohibited list.").
Definition ScopePolicy : Policy := λ q c,
  let id := "scope_required" in
  if negb (default false (cc_actionGranted <$> px_capabilityCheck c))
  then fails id "ACTION_NOT_GRANTED" ("Action " +:+ aq_action q +:+ " is not granted by this capability token.") rd_out_of_scope
  else if negb (default false (cc_inResourceScope <$> px_capabilityCheck c))
  then fails id "RESOURCE_OUT_OF_SCOPE" ("Resource " +:+ aq_resource q +:+ " is outside the capability token's resource scopes.") rd_out_of_scope
  else passes id "IN_SCOPE" ("Action " +:+ aq_action q +:+ " on " +:+ aq_resource q +:+ " is within scope.").
Definition number_text (n : Z) : string := text (bigint_to_string n).
Definition DelegationPolicy : Policy := λ q c,
  let id := "delegation_limited" in
  match px_capabilityToken c with
  | None => passes id "NO_DELEGATION_TO_CHECK" "No capability token to evaluate delegation limits for."
  | Some t =>
      let d := ct_delegation t in
      if dp_maxDelegationDepth d <? dp_delegationDepth d
      then fails id "DELEGATION_DEPTH_EXCEEDED" ("Capability token " +:+ ct_id t +:+ " delegation depth " +:+ number_text (dp_delegationDepth d) +:+ " exceeds its limit of " +:+
        number_text (dp_maxDelegationDepth d) +:+ ".") rd_policy_violation
      else passes id "DELEGATION_WITHIN_LIMITS" ("Capability token " +:+ ct_id t +:+ " delegation depth is within its limit.")
  end.
(** [item.type] *)
Definition evidence_type (item : Json) : result RecognitionThrow Json :=
  match item with JNul | JUndef => Throw EvidenceTypeError | JObj fs => Ok (default JUndef (map_get "type" fs)) | _ => Ok JUndef end.
Fixpoint evidence_types (l : list Json) : result RecognitionThrow (list Json) :=
  match l with [] => Ok [] | x :: l => let* t := evidence_type x in let* ts := evidence_types l in Ok (t :: ts) end.
Definition names_text (s : string) (v : Json) : bool := match v with JTxt t => str_eqb t s | _ => false end.
Definition EvidencePolicy : Policy := λ q c,
  let id := "evidence_required" in
  match List.find (λ e, str_eqb (er_action e) (aq_action q)) (default [] (ct_evidenceRequirements <$> px_capabilityToken c)) with
  | None => passes id "NO_EVIDENCE_REQUIRED" ("Action " +:+ aq_action q +:+ " does not require evidence.")
  | Some requirement =>
      let* provided := evidence_types (default [] (aq_evidence q)) in
      match List.filter (λ t, negb (existsb (names_text t) provided)) (er_requiredEvidenceTypes requirement) with
      | [] => passes id "EVIDENCE_SATISFIED" ("All required evidence for " +:+ aq_action q +:+ " was provided.")
      | missing =>
          Ok {| pm_result := {| pl_policyId := id; pl_passed := false; pl_reasonCode := "EVIDENCE_MISSING";
                  pl_reason := "Action " +:+ aq_action q +:+ " is missing required evidence: " +:+ join ", " missing +:+ "." |};
                pm_decisionType := Some rd_require_more_evidence; pm_riskLevel := None; pm_requiredEvidence := Some missing; pm_requiredApproverActorIds := None |}
      end
  end.
Definition approval_asked (t : option RecognitionCapabilityToken) (action : string) : option ApprovalRequirement :=
  match t ≫= ct_approvalRequirement with Some r => if bool_decide (action ∈ pq_actions r) then Some r else None | None => None end.
Definition ApprovalPolicy : Policy := λ q c,
  let id := "approval_required" in
  match approval_asked (px_capabilityToken c) (aq_action q) with
  | None => passes id "NO_APPROVAL_REQUIRED" ("Action " +:+ aq_action q +:+ " does not require human approval.")
  | Some r =>
      Ok {| pm_result := {| pl_policyId := id; pl_passed := false; pl_reasonCode := "HUMAN_APPROVAL_REQUIRED";
              pl_reason := "Action " +:+ aq_action q +:+ " requires human approval before it can proceed." |};
            pm_decisionType := Some rd_require_human_approval; pm_riskLevel := ct_riskLevel <$> px_capabilityToken c; pm_requiredEvidence := None;
            pm_requiredApproverActorIds := pq_requiredApproverActorIds r |}
  end.
Definition createDefaultPolicyChain : list Policy :=
  [RecognizedActorPolicy; RogueActorPolicy; RevocationPolicy; ValidPassportPolicy; ValidCapabilityPolicy; ProhibitedActionPolicy; ScopePolicy; DelegationPolicy; EvidencePolicy; ApprovalPolicy].

Record PolicyEvaluationResult := {
  pv_decisionType : RecognitionDecisionType; pv_reasonCode : string; pv_reason : string; pv_policyResults : list PolicyResult; pv_riskLevel : option RiskLevel;
  pv_requiredEvidence : option (list string); pv_requiredApproverActorIds : option (list string) }.
Fixpoint evaluate_from (results : list PolicyResult) (l : list Policy) q c : result RecognitionThrow PolicyEvaluationResult :=
  match l with
  | [] => Ok {| pv_decisionType := rd_allow; pv_reasonCode := "ALL_POLICIES_SATISFIED"; pv_reason := "All recognition policies were satisfied."; pv_policyResults := results;
                pv_riskLevel := ct_riskLevel <$> px_capabilityToken c; pv_requiredEvidence := None; pv_requiredApproverActorIds := None |}
  | p :: l =>
      let* o := p q c in
      let r := pm_result o in
      if pl_passed r then evaluate_from (results ++ [r]) l q c
      else Ok {| pv_decisionType := default rd_deny (pm_decisionType o); pv_reasonCode := pl_reasonCode r; pv_reason := pl_reason r; pv_policyResults := results ++ [r];
                 pv_riskLevel := pm_riskLevel o; pv_requiredEvidence := pm_requiredEvidence o; pv_requiredApproverActorIds := pm_requiredApproverActorIds o |}
  end.
Definition evaluatePolicies (l : list Policy) q c : result RecognitionThrow PolicyEvaluationResult := evaluate_from [] l q c.

(** ** Integrations *)

Record AuthorityChainRequestLike := {
  al_id : string; al_actorId : string; al_principalActorId : option string; al_trustDomainId : string; al_action : string; al_resourceScope : string; al_capabilityTokenId : option string;
  al_requestedAt : string }.
Record AuthorityDecisionLike := { ad_id : string; ad_type : string; ad_valid : bool; ad_reasonCode : string; ad_reason : string; ad_proofId : option string }.
Definition requiresAuthorityChain (t : option ActorType) (actorId : string) (principalActorId : option string) : bool :=
  bool_decide (t = Some at_agent) || match principalActorId with Some p => negb (str_eqb p actorId) | None => false end.
Definition mapAuthorityDecisionType (t : string) : RecognitionDecisionType :=
  default rd_policy_violation (map_get t [("scope_expansion_detected", rd_out_of_scope); ("ancestor_revoked", rd_revoked); ("ancestor_expired", rd_expired)]).

Record RecognitionApprovalVerificationInput := {
  ap_approvalProofId : option string; ap_approvalRequestId : option string; ap_approvalDecisionId : option string; ap_actionRequestId : string; ap_recognitionDecisionId : option string;
  ap_actorId : string; ap_principalActorId : option string; ap_trustDomainId : string; ap_action : string; ap_resourceScope : string; ap_capability : option string; ap_requestedAt : string }.
Inductive RecognitionApprovalVerificationResultType :=
  | approval_valid | approval_missing | approval_invalid | approval_expired | approval_revoked | invalid_approver | approval_out_of_scope | approval_insufficient_evidence
  | segregation_of_duties_violation | approval_quorum_not_met.
Record RecognitionApprovalVerificationResult := {
  vr_type : RecognitionApprovalVerificationResultType; vr_valid : bool; vr_approvalRequestId : option string; vr_approvalDecisionId : option string; vr_approvalProofId : option string;
  vr_reasonCode : string; vr_reason : string }.
Definition isHardBlockingApprovalResult (t : RecognitionApprovalVerificationResultType) : bool :=
  match t with approval_invalid | approval_revoked | invalid_approver | approval_out_of_scope | segregation_of_duties_violation => true | _ => false end.

Record ExternalStandingVerificationInput := {
  sv_actorId : string; sv_trustDomainId : string; sv_action : string; sv_resourceScope : string; sv_capability : option string; sv_requestedAt : string }.
Inductive ExternalStandingVerificationResultType :=
  | standing_valid | standing_missing | handshake_required | handshake_pending | handshake_rejected | handshake_quarantined | visa_expired | visa_revoked | ingress_denied | scope_denied
  | capability_denied | standing_approval_required.
#[export] Instance ExternalStandingVerificationResultType_eq_dec : EqDecision ExternalStandingVerificationResultType.
Proof. solve_decision. Defined.
Record ExternalStandingVerificationResult := { sr_type : ExternalStandingVerificationResultType; sr_reasonCode : string; sr_reason : string }.
Definition mapExternalStandingResultType (t : ExternalStandingVerificationResultType) : RecognitionDecisionType :=
  match t with
  | standing_valid => rd_allow
  | standing_missing | handshake_required | handshake_pending => rd_unrecognized_actor
  | handshake_rejected | handshake_quarantined | ingress_denied => rd_policy_violation
  | visa_expired => rd_expired | visa_revoked => rd_revoked | scope_denied => rd_out_of_scope | capability_denied => rd_invalid_capability
  | standing_approval_required => rd_require_human_approval
  end.

(** ** The runtime *)

Inductive AuditEventType :=
  | actor_registered | actor_status_changed | trust_domain_created | passport_issued | passport_suspended | passport_revoked | capability_token_issued | capability_token_suspended
  | capability_token_revoked | recognition_decision.
Definition audit_event_name (t : AuditEventType) : string :=
  match t with
  | actor_registered => "actor_registered" | actor_status_changed => "actor_status_changed" | trust_domain_created => "trust_domain_created" | passport_issued => "passport_issued"
  | passport_suspended => "passport_suspended" | passport_revoked => "passport_revoked" | capability_token_issued => "capability_token_issued"
  | capability_token_suspended => "capability_token_suspended" | capability_token_revoked => "capability_token_revoked" | recognition_decision => "recognition_decision"
  end.
Record RecordAuditEventInput := {
  ev_eventType : AuditEventType; ev_actorId : string; ev_trustDomainId : string; ev_requestId : option string; ev_decisionId : option string; ev_passportId : option string;
  ev_capabilityTokenId : option string; ev_payload : Json }.
Record AuditEvent := { au_id : string; au_input : RecordAuditEventInput; au_timestamp : string; au_previousHash : option string; au_eventHash : string }.
Definition audit_json (i : RecordAuditEventInput) (timestamp : string) (previousHash : option string) : Json := JObj [
  ("eventType", JTxt (audit_event_name (ev_eventType i))); ("actorId", JTxt (ev_actorId i)); ("trustDomainId", JTxt (ev_trustDomainId i)); ("requestId", opt_txt (ev_requestId i));
  ("decisionId", opt_txt (ev_decisionId i)); ("passportId", opt_txt (ev_passportId i)); ("capabilityTokenId", opt_txt (ev_capabilityTokenId i)); ("timestamp", JTxt timestamp);
  ("payload", ev_payload i); ("previousHash", opt_txt previousHash)].

Record RecognitionRuntime := {
  rn_actors : JsMap Actor; rn_domains : JsMap TrustDomain; rn_passports : JsMap Passport; rn_tokens : JsMap RecognitionCapabilityToken; rn_events : list AuditEvent; rn_calls : nat }.
(** An integration throws ([None]) or answers. *)
Record RecognitionConfiguration := {
  rc_now : nat → string; rc_next : nat → string → string; rc_policies : list Policy;
  rc_authorityGraph : option (nat → AuthorityChainRequestLike → option AuthorityDecisionLike);
  rc_approvalRuntime : option (nat → RecognitionApprovalVerificationInput → option RecognitionApprovalVerificationResult);
  rc_externalAgentHandshake : option (nat → ExternalStandingVerificationInput → option ExternalStandingVerificationResult) }.
Definition createAocRecognitionRuntime : RecognitionRuntime := {| rn_actors := []; rn_domains := []; rn_passports := []; rn_tokens := []; rn_events := []; rn_calls := 0 |}.

Definition RM (A : Type) : Type := RecognitionRuntime → result RecognitionThrow A * RecognitionRuntime.
#[export] Instance RM_ret : MRet RM := λ A a rt, (Ok a, rt).
#[export] Instance RM_bind : MBind RM := λ A B f m rt, match m rt with (Ok a, rt') => f a rt' | (Throw e, rt') => (Throw e, rt') end.
Definition rthrow {A} (e : RecognitionThrow) : RM A := λ rt, (Throw e, rt).
Definition rlift {A} (r : result RecognitionThrow A) : RM A := λ rt, (r, rt).
Definition rget : RM RecognitionRuntime := λ rt, (Ok rt, rt).
Definition rmodify (f : RecognitionRuntime → RecognitionRuntime) : RM unit := λ rt, (Ok (), f rt).
Definition rtick (rt : RecognitionRuntime) : RecognitionRuntime :=
  {| rn_actors := rn_actors rt; rn_domains := rn_domains rt; rn_passports := rn_passports rt; rn_tokens := rn_tokens rt; rn_events := rn_events rt; rn_calls := S (rn_calls rt) |}.
Definition set_actor (k : string) (a : Actor) (rt : RecognitionRuntime) : RecognitionRuntime :=
  {| rn_actors := map_set k a (rn_actors rt); rn_domains := rn_domains rt; rn_passports := rn_passports rt; rn_tokens := rn_tokens rt; rn_events := rn_events rt;
     rn_calls := rn_calls rt |}.
Definition set_domain (d : TrustDomain) (rt : RecognitionRuntime) : RecognitionRuntime :=
  {| rn_actors := rn_actors rt; rn_domains := map_set (td_id d) d (rn_domains rt); rn_passports := rn_passports rt; rn_tokens := rn_tokens rt; rn_events := rn_events rt;
     rn_calls := rn_calls rt |}.
Definition set_passport (k : string) (p : Passport) (rt : RecognitionRuntime) : RecognitionRuntime :=
  {| rn_actors := rn_actors rt; rn_domains := rn_domains rt; rn_passports := map_set k p (rn_passports rt); rn_tokens := rn_tokens rt; rn_events := rn_events rt;
     rn_calls := rn_calls rt |}.
Definition set_token (k : string) (t : RecognitionCapabilityToken) (rt : RecognitionRuntime) : RecognitionRuntime :=
  {| rn_actors := rn_actors rt; rn_domains := rn_domains rt; rn_passports := rn_passports rt; rn_tokens := map_set k t (rn_tokens rt); rn_events := rn_events rt;
     rn_calls := rn_calls rt |}.
Definition add_event (e : AuditEvent) (rt : RecognitionRuntime) : RecognitionRuntime :=
  {| rn_actors := rn_actors rt; rn_domains := rn_domains rt; rn_passports := rn_passports rt; rn_tokens := rn_tokens rt; rn_events := rn_events rt ++ [e]; rn_calls := rn_calls rt |}.

Section Runtime.
Context `{JsHost} (cfg : RecognitionConfiguration).

Definition clock : RM string := λ rt, (Ok (rc_now cfg (rn_calls rt)), rtick rt).
Definition next_id (prefix : string) : RM string := λ rt, (Ok (rc_next cfg (rn_calls rt) prefix), rtick rt).
Definition given_or_next (id : option string) (prefix : string) : RM string := match id with Some id => mret id | None => next_id prefix end.

(** *** Actors and trust domains *)

Record RegisterActorInput := {
  ra_id : option string; ra_type : ActorType; ra_displayName : string; ra_status : option ActorStatus; ra_issuerId : option string; ra_trustDomainId : option string;
  ra_jurisdiction : option string; ra_metadata : option (JsMap string) }.
Definition registerActor (i : RegisterActorInput) : RM Actor :=
  id ← given_or_next (ra_id i) "actor";
  timestamp ← clock;
  let a := {| ac_id := id; ac_type := ra_type i; ac_displayName := ra_displayName i; ac_status := default as_recognized (ra_status i); ac_issuerId := ra_issuerId i;
              ac_trustDomainId := ra_trustDomainId i; ac_jurisdiction := ra_jurisdiction i; ac_metadata := ra_metadata i; ac_createdAt := timestamp; ac_updatedAt := timestamp |} in
  rmodify (set_actor id a);; mret a.
Definition actor_with (s : ActorStatus) (at_ : string) (a : Actor) : Actor :=
  {| ac_id := ac_id a; ac_type := ac_type a; ac_displayName := ac_displayName a; ac_status := s; ac_issuerId := ac_issuerId a; ac_trustDomainId := ac_trustDomainId a;
     ac_jurisdiction := ac_jurisdiction a; ac_metadata := ac_metadata a; ac_createdAt := ac_createdAt a; ac_updatedAt := at_ |}.
Definition updateActorStatus (actorId : string) (s : ActorStatus) : RM Actor :=
  rt ← rget;
  match map_get actorId (rn_actors rt) with
  | None => rthrow (ActorNotFoundError actorId)
  | Some a => at_ ← clock; rmodify (set_actor actorId (actor_with s at_ a));; mret (actor_with s at_ a)
  end.
Definition classifyActor (actorId : string) (rt : RecognitionRuntime) : ActorStatus := default as_unknown (ac_status <$> map_get actorId (rn_actors rt)).

Record CreateTrustDomainInput := {
  ci_id : option string; ci_name : string; ci_issuerActorId : string; ci_jurisdiction : option string; ci_acceptedIssuerIds : list string; ci_acceptedActorTypes : list ActorType;
  ci_policyPackIds : option (list string) }.
Definition createTrustDomain (i : CreateTrustDomainInput) : RM TrustDomain :=
  id ← given_or_next (ci_id i) "trust-domain";
  timestamp ← clock;
  let d := {| td_id := id; td_name := ci_name i; td_issuerActorId := ci_issuerActorId i; td_jurisdiction := ci_jurisdiction i; td_acceptedIssuerIds := ci_acceptedIssuerIds i;
              td_acceptedActorTypes := ci_acceptedActorTypes i; td_policyPackIds := default [] (ci_policyPackIds i); td_status := ts_active; td_createdAt := timestamp;
              td_updatedAt := timestamp |} in
  rmodify (set_domain d);; mret d.
Definition isIssuerAccepted (trustDomainId : string) (issuerId : option string) (rt : RecognitionRuntime) : bool :=
  match map_get trustDomainId (rn_domains rt), issuerId with Some d, Some i => bool_decide (i ∈ td_acceptedIssuerIds d) | _, _ => false end.
Definition getDomainPolicies (trustDomainId : string) : RM (list string) :=
  rt ← rget; match map_get trustDomainId (rn_domains rt) with None => rthrow (TrustDomainNotFoundError trustDomainId) | Some d => mret (td_policyPackIds d) end.

(** *** Passports *)

Definition createProof (signedBy signedAt : string) (payload : Json) : RecognitionProof :=
  {| pr_algorithm := "sha256-deterministic"; pr_signedBy := signedBy; pr_signedAt := signedAt; pr_digest := createDigest payload |}.
Record IssuePassportInput := {
  ip_id : option string; ip_type : PassportType; ip_subjectActorId : string; ip_issuerActorId : string; ip_trustDomainId : string; ip_jurisdiction : option string;
  ip_expiresAt : option string; ip_claims : option (JsMap string) }.
(** The subject and the domain of a credential are known. *)
Definition known_parties (actorId trustDomainId : string) : RM unit :=
  rt ← rget;
  if negb (is_some (map_get actorId (rn_actors rt))) then rthrow (ActorNotFoundError actorId)
  else if negb (is_some (map_get trustDomainId (rn_domains rt))) then rthrow (TrustDomainNotFoundError trustDomainId) else mret ().
Definition issuePassport (i : IssuePassportInput) : RM Passport :=
  known_parties (ip_subjectActorId i) (ip_trustDomainId i);;
  id ← given_or_next (ip_id i) "passport";
  issuedAt ← clock;
  let claims := default [] (ip_claims i) in
  let p := {| pa_id := id; pa_type := ip_type i; pa_subjectActorId := ip_subjectActorId i; pa_issuerActorId := ip_issuerActorId i; pa_trustDomainId := ip_trustDomainId i;
              pa_jurisdiction := ip_jurisdiction i; pa_status := cr_valid; pa_issuedAt := issuedAt; pa_expiresAt := ip_expiresAt i; pa_claims := claims;
              pa_proof := createProof (ip_issuerActorId i) issuedAt (JObj [("id", JTxt id); ("subjectActorId", JTxt (ip_subjectActorId i)); ("trustDomainId", JTxt (ip_trustDomainId i));
                ("claims", JObj ((λ e : string * string, (e.1, JTxt e.2)) <$> claims))]) |} in
  rmodify (set_passport id p);; mret p.
Definition passport_with (s : CredentialStatus) (p : Passport) : Passport :=
  {| pa_id := pa_id p; pa_type := pa_type p; pa_subjectActorId := pa_subjectActorId p; pa_issuerActorId := pa_issuerActorId p; pa_trustDomainId := pa_trustDomainId p;
     pa_jurisdiction := pa_jurisdiction p; pa_status := s; pa_issuedAt := pa_issuedAt p; pa_expiresAt := pa_expiresAt p; pa_claims := pa_claims p; pa_proof := pa_proof p |}.
Definition passport_transition (id : string) (s : CredentialStatus) : RM Passport :=
  rt ← rget;
  match map_get id (rn_passports rt) with None => rthrow (PassportNotFoundError id) | Some p => rmodify (set_passport id (passport_with s p));; mret (passport_with s p) end.
Definition suspendPassport (id : string) : RM Passport := passport_transition id cr_suspended.
Definition service_revokePassport (id : string) : RM Passport := passport_transition id cr_revoked.
(** The verdict on a credential, as its code; the clock is read last. *)
Definition credential_verdict (name : string) (status : CredentialStatus) (expiresAt : option string) : RM (bool * string) :=
  match status with
  | cr_revoked => mret (false, name +:+ "_REVOKED")
  | cr_suspended => mret (false, name +:+ "_SUSPENDED")
  | _ => match expiresAt with
         | None => mret (true, name +:+ "_VALID")
         | Some e => now ← clock; mret (if String.leb e now then (false, name +:+ "_EXPIRED") else (true, name +:+ "_VALID"))
         end
  end.
Definition verifyPassport (id : string) : RM (bool * string) :=
  rt ← rget;
  match map_get id (rn_passports rt) with None => mret (false, "PASSPORT_NOT_FOUND") | Some p => credential_verdict "PASSPORT" (pa_status p) (pa_expiresAt p) end.

(** *** Capability tokens *)

Record IssueCapabilityTokenInput := {
  it_id : option string; it_subjectActorId : string; it_principalActorId : string; it_issuerActorId : string; it_trustDomainId : string; it_capability : string; it_actions : list string;
  it_resourceScopes : list string; it_jurisdiction : option string; it_prohibitedActions : option (list string); it_delegatedFromTokenId : option string; it_delegable : option bool;
  it_maxDelegationDepth : option Z; it_evidenceRequirements : option (list EvidenceRequirement); it_approvalRequirement : option ApprovalRequirement; it_riskLevel : RiskLevel;
  it_expiresAt : option string }.
(** The depth and the limit of a delegated token, or why it may not be issued. *)
Definition delegation_terms (i : IssueCapabilityTokenInput) (parent : RecognitionCapabilityToken) : result RecognitionThrow (Z * Z) :=
  let d := ct_delegation parent in
  let depth := dp_delegationDepth d + 1 in
  guard* bool_decide (ct_status parent = cr_valid) else DelegationNotPermittedError ("parent token " +:+ ct_id parent +:+ " is not valid") in
  guard* dp_delegable d else DelegationNotPermittedError ("parent token " +:+ ct_id parent +:+ " is not delegable") in
  guard* depth <=? dp_maxDelegationDepth d else
    DelegationNotPermittedError ("delegation depth " +:+ number_text depth +:+ " exceeds parent limit " +:+ number_text (dp_maxDelegationDepth d)) in
  guard* forallb (λ a, bool_decide (a ∈ ct_actions parent)) (it_actions i) else DelegationNotPermittedError "delegated actions exceed the scope of the parent token" in
  guard* forallb (λ s, bool_decide (s ∈ ct_resourceScopes parent)) (it_resourceScopes i) else
    DelegationNotPermittedError "delegated resource scopes exceed the scope of the parent token" in
  Ok (depth, Z.min (default (dp_maxDelegationDepth d) (it_maxDelegationDepth i)) (dp_maxDelegationDepth d)).
Definition token_terms (i : IssueCapabilityTokenInput) (rt : RecognitionRuntime) : result RecognitionThrow (Z * Z) :=
  match it_delegatedFromTokenId i with
  | None => Ok (0, default 0 (it_maxDelegationDepth i))
  | Some pid => match map_get pid (rn_tokens rt) with None => Throw (CapabilityTokenNotFoundError pid) | Some parent => delegation_terms i parent end
  end.
Definition build_token (i : IssueCapabilityTokenInput) (terms : Z * Z) (id issuedAt : string) : RecognitionCapabilityToken :=
  {| ct_id := id; ct_subjectActorId := it_subjectActorId i; ct_principalActorId := it_principalActorId i; ct_issuerActorId := it_issuerActorId i; ct_trustDomainId := it_trustDomainId i;
     ct_capability := it_capability i; ct_actions := it_actions i; ct_resourceScopes := it_resourceScopes i; ct_jurisdiction := it_jurisdiction i;
     ct_prohibitedActions := default [] (it_prohibitedActions i);
     ct_delegation := {| dp_delegable := default false (it_delegable i); dp_delegatedFromTokenId := it_delegatedFromTokenId i; dp_delegationDepth := terms.1; dp_maxDelegationDepth := terms.2 |};
     ct_evidenceRequirements := default [] (it_evidenceRequirements i); ct_approvalRequirement := it_approvalRequirement i; ct_riskLevel := it_riskLevel i; ct_status := cr_valid;
     ct_issuedAt := issuedAt; ct_expiresAt := it_expiresAt i;
     ct_proof := Some (createProof (it_issuerActorId i) issuedAt (JObj [("id", JTxt id); ("subjectActorId", JTxt (it_subjectActorId i)); ("capability", JTxt (it_capability i));
       ("actions", json_texts (it_actions i))])) |}.
Definition issueCapabilityToken (i : IssueCapabilityTokenInput) : RM RecognitionCapabilityToken :=
  known_parties (it_subjectActorId i) (it_trustDomainId i);;
  rt ← rget;
  terms ← rlift (token_terms i rt);
  id ← given_or_next (it_id i) "capability-token";
  issuedAt ← clock;
  rmodify (set_token id (build_token i terms id issuedAt));; mret (build_token i terms id issuedAt).
Definition importCapabilityToken (t : RecognitionCapabilityToken) : RM RecognitionCapabilityToken := rmodify (set_token (ct_id t) t);; mret t.
Definition verifyCapabilityToken (id : string) : RM (bool * string) :=
  rt ← rget;
  match map_get id (rn_tokens rt) with None => mret (false, "CAPABILITY_TOKEN_NOT_FOUND") | Some t => credential_verdict "CAPABILITY_TOKEN" (ct_status t) (ct_expiresAt t) end.
Definition within_scope (resource scope : string) : bool := str_eqb resource scope || String.prefix (scope +:+ ":") resource.
Definition checkCapabilityForAction (t : RecognitionCapabilityToken) (action resource : string) : CapabilityCheckResult :=
  {| cc_actionGranted := bool_decide (action ∈ ct_actions t) || is_some (approval_asked (Some t) action); cc_prohibited := bool_decide (action ∈ ct_prohibitedActions t);
     cc_inResourceScope := existsb (within_scope resource) (ct_resourceScopes t) |}.
Definition token_with (s : CredentialStatus) (t : RecognitionCapabilityToken) : RecognitionCapabilityToken :=
  {| ct_id := ct_id t; ct_subjectActorId := ct_subjectActorId t; ct_principalActorId := ct_principalActorId t; ct_issuerActorId := ct_issuerActorId t;
     ct_trustDomainId := ct_trustDomainId t; ct_capability := ct_capability t; ct_actions := ct_actions t; ct_resourceScopes := ct_resourceScopes t; ct_jurisdiction := ct_jurisdiction t;
     ct_prohibitedActions := ct_prohibitedActions t; ct_delegation := ct_delegation t; ct_evidenceRequirements := ct_evidenceRequirements t;
     ct_approvalRequirement := ct_approvalRequirement t; ct_riskLevel := ct_riskLevel t; ct_status := s; ct_issuedAt := ct_issuedAt t; ct_expiresAt := ct_expiresAt t;
     ct_proof := ct_proof t |}.
Definition token_transition (id : string) (s : CredentialStatus) : RM RecognitionCapabilityToken :=
  rt ← rget;
  match map_get id (rn_tokens rt) with None => rthrow (CapabilityTokenNotFoundError id) | Some t => rmodify (set_token id (token_with s t));; mret (token_with s t) end.
Definition suspendCapabilityToken (id : string) : RM RecognitionCapabilityToken := token_transition id cr_suspended.
Definition service_revokeCapabilityToken (id : string) : RM RecognitionCapabilityToken := token_transition id cr_revoked.

(** *** The evidence ledger and revocation *)

Definition recordAuditEvent (i : RecordAuditEventInput) : RM AuditEvent :=
  timestamp ← clock;
  rt ← rget;
  let previousHash := au_eventHash <$> last (rn_events rt) in
  id ← next_id "audit-event";
  let e := {| au_id := id; au_input := i; au_timestamp := timestamp; au_previousHash := previousHash; au_eventHash := createDigest (audit_json i timestamp previousHash) |} in
  rmodify (add_event e);; mret e.
Record AuditTrailFilter := { af_actorId : option string; af_trustDomainId : option string; af_requestId : option string }.
Definition filter_matches (wanted : option string) (v : option string) : bool := match wanted with None => true | Some w => bool_decide (v = Some w) end.
Definition getAuditTrail (filter : option AuditTrailFilter) (rt : RecognitionRuntime) : list AuditEvent :=
  match filter with
  | None => rn_events rt
  | Some f => List.filter (λ e, filter_matches (af_actorId f) (Some (ev_actorId (au_input e))) && filter_matches (af_trustDomainId f) (Some (ev_trustDomainId (au_input e))) &&
                filter_matches (af_requestId f) (ev_requestId (au_input e))) (rn_events rt)
  end.
Record ActionProofExport := { pe_requestId : string; pe_events : list AuditEvent; pe_rootHash : option string; pe_exportedAt : string }.
Definition exportActionProof (requestId : string) : RM (option ActionProofExport) :=
  rt ← rget;
  match getAuditTrail (Some {| af_actorId := None; af_trustDomainId := None; af_requestId := Some requestId |}) rt with
  | [] => mret None
  | events => at_ ← clock; mret (Some {| pe_requestId := requestId; pe_events := events; pe_rootHash := au_eventHash <$> last events; pe_exportedAt := at_ |})
  end.

Definition revocation_event (t : AuditEventType) (actorId trustDomainId : string) (passportId tokenId : option string) (payload : Json) : RecordAuditEventInput :=
  {| ev_eventType := t; ev_actorId := actorId; ev_trustDomainId := trustDomainId; ev_requestId := None; ev_decisionId := None; ev_passportId := passportId; ev_capabilityTokenId := tokenId;
     ev_payload := payload |}.
Definition revokeActor (actorId trustDomainId : string) : RM Actor :=
  a ← updateActorStatus actorId as_revoked;
  _ ← recordAuditEvent (revocation_event actor_status_changed actorId trustDomainId None None (JObj [("status", JTxt "revoked")])); mret a.
Definition revokePassport (passportId trustDomainId : string) : RM Passport :=
  p ← service_revokePassport passportId;
  _ ← recordAuditEvent (revocation_event passport_revoked (pa_subjectActorId p) trustDomainId (Some passportId) None (JObj [])); mret p.
Definition revokeCapabilityToken (tokenId trustDomainId : string) : RM RecognitionCapabilityToken :=
  t ← service_revokeCapabilityToken tokenId;
  _ ← recordAuditEvent (revocation_event capability_token_revoked (ct_subjectActorId t) trustDomainId None (Some tokenId) (JObj [])); mret t.
Definition checkRevocation (actorId : string) (passportId tokenId : option string) (rt : RecognitionRuntime) : RevocationCheckResult :=
  let found t id := {| rk_revoked := true; rk_revokedEntityType := Some t; rk_revokedEntityId := Some id |} in
  match List.find (λ a, bool_decide (ac_status a = as_revoked)) (option_list (map_get actorId (rn_actors rt))) with
  | Some a => found rev_actor (ac_id a)
  | None =>
      match List.find (λ p, bool_decide (pa_status p = cr_revoked)) (option_list (passportId ≫= λ id, map_get id (rn_passports rt))) with
      | Some p => found rev_passport (pa_id p)
      | None =>
          match List.find (λ t, bool_decide (ct_status t = cr_revoked)) (option_list (tokenId ≫= λ id, map_get id (rn_tokens rt))) with
          | Some t => found rev_capability_token (ct_id t)
          | None => {| rk_revoked := false; rk_revokedEntityType := None; rk_revokedEntityId := None |}
          end
      end
  end.

(** *** Verification of an action *)

Definition RECOGNIZED_DECISION_TYPES : list RecognitionDecisionType := [rd_allow; rd_require_human_approval; rd_require_more_evidence].
(** A call of an integration. *)
Definition call_out {I A} (f : nat → I → option A) (i : I) : RM A := λ rt, match f (rn_calls rt) i with Some a => (Ok a, rtick rt) | None => (Throw IntegrationThrew, rtick rt) end.
Definition standing_input q (t : option RecognitionCapabilityToken) (now : string) : ExternalStandingVerificationInput :=
  {| sv_actorId := aq_actorId q; sv_trustDomainId := aq_trustDomainId q; sv_action := aq_action q; sv_resourceScope := aq_resource q; sv_capability := ct_capability <$> t;
     sv_requestedAt := now |}.
Definition external_standing q (a : option Actor) (t : option RecognitionCapabilityToken) (now : string) : RM (option ExternalStandingVerificationResult) :=
  match rc_externalAgentHandshake cfg with
  | Some f =>
      if bool_decide (ac_type <$> a = Some at_external) then
        r ← call_out f (standing_input q t now); mret (Some r)
      else mret None
  | None => mret None
  end.
Definition build_context q (rt : RecognitionRuntime) (now : string) (standing : option ExternalStandingVerificationResult) : PolicyContext :=
  let actor := map_get (aq_actorId q) (rn_actors rt) in
  let token := aq_capabilityTokenId q ≫= λ id, map_get id (rn_tokens rt) in
  {| px_now := now; px_actor := actor; px_principalActor := aq_principalActorId q ≫= λ id, map_get id (rn_actors rt); px_trustDomain := map_get (aq_trustDomainId q) (rn_domains rt);
     px_passport := aq_passportId q ≫= λ id, map_get id (rn_passports rt); px_capabilityToken := token;
     px_issuerAccepted := isIssuerAccepted (aq_trustDomainId q) (actor ≫= ac_issuerId) rt;
     px_capabilityCheck := (λ t, checkCapabilityForAction t (aq_action q) (aq_resource q)) <$> token;
     px_revocation := checkRevocation (aq_actorId q) (aq_passportId q) (aq_capabilityTokenId q) rt;
     px_externalStandingValid := (λ r, bool_decide (sr_type r = standing_valid)) <$> standing |}.

(** What the integrations make of the verdict of the policies. *)
Record RecognitionVerdict := {
  ve_type : RecognitionDecisionType; ve_reasonCode : string; ve_reason : string; ve_authorityDecisionId : option string; ve_authorityProofId : option string;
  ve_approvalRequestId : option string; ve_approvalDecisionId : option string; ve_approvalProofId : option string }.
Definition first_verdict (r : PolicyEvaluationResult) : RecognitionVerdict :=
  {| ve_type := pv_decisionType r; ve_reasonCode := pv_reasonCode r; ve_reason := pv_reason r; ve_authorityDecisionId := None; ve_authorityProofId := None; ve_approvalRequestId := None;
     ve_approvalDecisionId := None; ve_approvalProofId := None |}.
Definition authority_request q (now : string) : AuthorityChainRequestLike :=
  {| al_id := aq_id q; al_actorId := aq_actorId q; al_principalActorId := aq_principalActorId q; al_trustDomainId := aq_trustDomainId q; al_action := aq_action q;
     al_resourceScope := aq_resource q; al_capabilityTokenId := aq_capabilityTokenId q; al_requestedAt := now |}.
Definition authority_verdict q (c : PolicyContext) (v : RecognitionVerdict) : RM RecognitionVerdict :=
  match rc_authorityGraph cfg with
  | Some f =>
      if bool_decide (ve_type v ∈ RECOGNIZED_DECISION_TYPES) && requiresAuthorityChain (ac_type <$> px_actor c) (aq_actorId q) (aq_principalActorId q) then
        d ← call_out f (authority_request q (px_now c));
        mret {| ve_type := if ad_valid d then ve_type v else mapAuthorityDecisionType (ad_type d); ve_reasonCode := if ad_valid d then ve_reasonCode v else ad_reasonCode d;
                ve_reason := if ad_valid d then ve_reason v else ad_reason d; ve_authorityDecisionId := Some (ad_id d); ve_authorityProofId := ad_proofId d;
                ve_approvalRequestId := ve_approvalRequestId v; ve_approvalDecisionId := ve_approvalDecisionId v; ve_approvalProofId := ve_approvalProofId v |}
      else mret v
  | None => mret v
  end.
Definition approval_input q (t : option RecognitionCapabilityToken) (decisionId now : string) : RecognitionApprovalVerificationInput :=
  {| ap_approvalProofId := aq_approvalProofId q; ap_approvalRequestId := aq_approvalRequestId q; ap_approvalDecisionId := aq_approvalDecisionId q; ap_actionRequestId := aq_id q;
     ap_recognitionDecisionId := Some decisionId; ap_actorId := aq_actorId q; ap_principalActorId := aq_principalActorId q; ap_trustDomainId := aq_trustDomainId q;
     ap_action := aq_action q; ap_resourceScope := aq_resource q; ap_capability := ct_capability <$> t; ap_requestedAt := now |}.
Definition approval_verdict q (c : PolicyContext) (decisionId : string) (v : RecognitionVerdict) : RM RecognitionVerdict :=
  match rc_approvalRuntime cfg with
  | Some f =>
      if bool_decide (ve_type v = rd_require_human_approval) then
        r ← call_out f (approval_input q (px_capabilityToken c) decisionId (px_now c));
        mret {| ve_type := match vr_type r with approval_valid => rd_allow | t => if isHardBlockingApprovalResult t then rd_policy_violation else ve_type v end;
                ve_reasonCode := vr_reasonCode r; ve_reason := vr_reason r; ve_authorityDecisionId := ve_authorityDecisionId v; ve_authorityProofId := ve_authorityProofId v;
                ve_approvalRequestId := vr_approvalRequestId r; ve_approvalDecisionId := vr_approvalDecisionId r; ve_approvalProofId := vr_approvalProofId r |}
      else mret v
  | None => mret v
  end.
Definition standing_verdict (standing : option ExternalStandingVerificationResult) (v : RecognitionVerdict) : RecognitionVerdict :=
  match standing with
  | Some r =>
      if negb (bool_decide (sr_type r = standing_valid)) && bool_decide (ve_type v = rd_unrecognized_actor) && str_eqb (ve_reasonCode v) ROGUE_ACTOR_TYPE then
        {| ve_type := mapExternalStandingResultType (sr_type r); ve_reasonCode := sr_reasonCode r; ve_reason := sr_reason r; ve_authorityDecisionId := ve_authorityDecisionId v;
           ve_authorityProofId := ve_authorityProofId v; ve_approvalRequestId := ve_approvalRequestId v; ve_approvalDecisionId := ve_approvalDecisionId v;
           ve_approvalProofId := ve_approvalProofId v |}
      else v
  | None => v
  end.
Definition policy_result_json (r : PolicyResult) : Json :=
  JObj [("policyId", JTxt (pl_policyId r)); ("passed", JBol (pl_passed r)); ("reasonCode", JTxt (pl_reasonCode r)); ("reason", JTxt (pl_reason r))].
Definition decision_event q (decisionId : string) (v : RecognitionVerdict) (results : list PolicyResult) : RecordAuditEventInput :=
  {| ev_eventType := recognition_decision; ev_actorId := aq_actorId q; ev_trustDomainId := aq_trustDomainId q; ev_requestId := Some (aq_id q); ev_decisionId := Some decisionId;
     ev_passportId := aq_passportId q; ev_capabilityTokenId := aq_capabilityTokenId q;
     ev_payload := JObj [("action", JTxt (aq_action q)); ("resource", JTxt (aq_resource q)); ("decisionType", JTxt (recognition_type_name (ve_type v)));
       ("reasonCode", JTxt (ve_reasonCode v)); ("policyResults", JArr (policy_result_json <$> results)); ("authorityDecisionId", opt_txt (ve_authorityDecisionId v));
       ("approvalRequestId", opt_txt (ve_approvalRequestId v))] |}.
Definition build_recognition q (decisionId now auditEventId : string) (r : PolicyEvaluationResult) (v : RecognitionVerdict) : RecognitionDecision :=
  {| rd_id := decisionId; rd_requestId := aq_id q; rd_type := ve_type v; rd_recognized := bool_decide (ve_type v ∈ RECOGNIZED_DECISION_TYPES); rd_reasonCode := ve_reasonCode v;
     rd_reason := ve_reason v; rd_actorId := aq_actorId q; rd_trustDomainId := aq_trustDomainId q; rd_evaluatedAt := now; rd_riskLevel := pv_riskLevel r;
     rd_requiredEvidence := pv_requiredEvidence r; rd_requiredApproverActorIds := pv_requiredApproverActorIds r; rd_policyResults := pv_policyResults r; rd_auditEventId := auditEventId;
     rd_authorityDecisionId := ve_authorityDecisionId v; rd_authorityProofId := ve_authorityProofId v; rd_approvalRequestId := ve_approvalRequestId v;
     rd_approvalDecisionId := ve_approvalDecisionId v; rd_approvalProofId := ve_approvalProofId v |}.
Definition verifyAction q : RM RecognitionDecision :=
  now ← clock;
  rt ← rget;
  standing ← external_standing q (map_get (aq_actorId q) (rn_actors rt)) (aq_capabilityTokenId q ≫= λ id, map_get id (rn_tokens rt)) now;
  let c := build_context q rt now standing in
  r ← rlift (evaluatePolicies (rc_policies cfg) q c);
  decisionId ← next_id "decision";
  v1 ← authority_verdict q c (first_verdict r);
  v2 ← approval_verdict q c decisionId v1;
  let v := standing_verdict standing v2 in
  e ← recordAuditEvent (decision_event q decisionId v (pv_policyResults r));
  mret (build_recognition q decisionId now (au_id e) r v).

(** [buildActionRequest] stamps the id, unless it is given, and the time. *)
Definition buildActionRequest q (id : option string) : RM ActionRequest :=
  id ← given_or_next id "action-request";
  at_ ← clock;
  mret {| aq_id := id; aq_actorId := aq_actorId q; aq_passportId := aq_passportId q; aq_capabilityTokenId := aq_capabilityTokenId q; aq_trustDomainId := aq_trustDomainId q;
          aq_action := aq_action q; aq_resource := aq_resource q; aq_principalActorId := aq_principalActorId q; aq_context := aq_context q; aq_evidence := aq_evidence q;
          aq_requestedAt := at_; aq_approvalProofId := aq_approvalProofId q; aq_approvalRequestId := aq_approvalRequestId q; aq_approvalDecisionId := aq_approvalDecisionId q |}.
Definition submitActionRequest q : RM RecognitionDecision := verifyAction q.
End Runtime.
