(* ===== verification/RecognitionSafety.v ===== *)
(** * What the recognition runtime guarantees

    Over [Recognition]: a request is allowed exactly when its actor, passport and
    capability token entitle it and the integrations agree; verification changes
    nothing but the ledger; what was revoked is never recognized again unless it
    is filed anew; delegation narrows; and the ledger is hash-linked and vouches
    for every decision. *)

From S2P Require Import Prelude Decimal Js JsMap StableJson HashChain Recognition.

Local Open Scope Z_scope.
Local Open Scope frontera_scope.

Implicit Types (q : ActionRequest) (c : PolicyContext) (rt : RecognitionRuntime).

(** ** Computations *)

Lemma rbind_Ok {A B} (m : RM A) (f : A → RM B) rt b rt' : (m ≫= f) rt = (Ok b, rt') ↔ ∃ a rt1, m rt = (Ok a, rt1) ∧ f a rt1 = (Ok b, rt').
Proof. unfold mbind, RM_bind. destruct (m rt) as [[a|e] rt1]; split; [intros E; by exists a, rt1|by intros (?&?&[= <- <-]&?)|done|by intros (?&?&?&?)]. Qed.
Lemma rbind_Throw {A B} (m : RM A) (f : A → RM B) rt e rt' : (m ≫= f) rt = (Throw e, rt') ↔ m rt = (Throw e, rt') ∨ ∃ a rt1, m rt = (Ok a, rt1) ∧ f a rt1 = (Throw e, rt').
Proof. unfold mbind, RM_bind. destruct (m rt) as [[a|e1] rt1]; split; [intros E; right; by exists a, rt1|by intros [?|(?&?&[= <- <-]&?)]|intros [= -> ->]; by left|by intros [[= -> ->]|(?&?&?&?)]]. Qed.

(** The registries, which verification does not touch. *)
Definition same_registries rt rt' : Prop :=
  rn_actors rt' = rn_actors rt ∧ rn_domains rt' = rn_domains rt ∧ rn_passports rt' = rn_passports rt ∧ rn_tokens rt' = rn_tokens rt.
#[export] Instance same_registries_preorder : PreOrder same_registries.
Proof. split; [by intros rt|]. intros x y z (E1&E2&E3&E4) (F1&F2&F3&F4). unfold same_registries. by rewrite F1, F2, F3, F4. Qed.
(** Nothing at all is recorded. *)
Definition same_records rt rt' : Prop := same_registries rt rt' ∧ rn_events rt' = rn_events rt.
#[export] Instance same_records_preorder : PreOrder same_records.
Proof. split; [by intros rt|]. intros x y z [E1 E2] [F1 F2]. split; [by transitivity y|]. by rewrite F2. Qed.

(** ** The policies *)

Definition clears (p : Policy) q c : Prop := ∃ o, p q c = Ok o ∧ pl_passed (pm_result o) = true.
(** A policy that answers passes, or objects with a type other than allow. *)
Definition objects (p : Policy) q c (t : RecognitionDecisionType) : Prop := ∃ o, p q c = Ok o ∧ pl_passed (pm_result o) = false ∧ default rd_deny (pm_decisionType o) = t.

Lemma evaluate_cases results l q c r : evaluate_from results l q c = Ok r →
  pv_decisionType r = rd_allow ∧ Forall (λ p, clears p q c) l ∨
  ∃ l1 p l2, l = l1 ++ p :: l2 ∧ Forall (λ p, clears p q c) l1 ∧ objects p q c (pv_decisionType r).
Proof.
  revert results. induction l as [|p l IH]; intros results; cbn [evaluate_from]; [intros [= <-]; by left|].
  intros (o&Eo&E)%result_bind_Ok. destruct (pl_passed (pm_result o)) eqn:Ep.
  - apply IH in E as [[Ha Hl]|(l1&p'&l2&->&H1&Ho)].
    + left. split; [done|]. constructor; [by exists o|done].
    + right. exists (p :: l1), p', l2. split_and!; [done| |done]. constructor; [by exists o|done].
  - injection E as <-. right. exists [], p, l. split_and!; [done|done|]. by exists o.
Qed.
Lemma evaluate_throws results l q c e : evaluate_from results l q c = Throw e → ∃ p, p ∈ l ∧ p q c = Throw e.
Proof.
  revert results. induction l as [|p l IH]; intros results; cbn [evaluate_from]; [done|]. destruct (p q c) as [o|e'] eqn:Eo; cbn [result_bind].
  - destruct (pl_passed (pm_result o)); [|done]. intros (p'&Hp&E)%IH. exists p'. split; [by right|done].
  - intros [= <-]. exists p. split; [by left|done].
Qed.
Lemma clears_or_objects p q c : (∃ o, p q c = Ok o) → ¬ clears p q c → ∃ t, objects p q c t.
Proof. intros [o Ho] Hn. destruct (pl_passed (pm_result o)) eqn:E; [destruct Hn; by exists o|]. eexists. by exists o. Qed.
Lemma clears_not_objects p q c t : clears p q c → ¬ objects p q c t.
Proof. intros (o&Ho&Hp) (o'&Ho'&Hp'&_). rewrite Ho in Ho'. injection Ho' as <-. by rewrite Hp in Hp'. Qed.

Lemma clears_passes id code reason : (∃ o, passes id code reason = Ok o ∧ pl_passed (pm_result o) = true) ↔ True.
Proof. split; [done|]. intros _. eexists. by split. Qed.
Lemma clears_fails id code reason t : (∃ o, fails id code reason t = Ok o ∧ pl_passed (pm_result o) = true) ↔ False.
Proof. split; [|done]. by intros (o&[= <-]&?). Qed.

(** A branch of a policy that fails, and one that passes. *)
Ltac unpack := repeat match goal with H : ∃ _, _ |- _ => destruct H | H : _ ∧ _ |- _ => destruct H end.
Ltac refuse := rewrite clears_fails; split; [intros []|intros; exfalso; unpack; simplify_eq; first [done|congruence|auto]].
Ltac accept := rewrite clears_passes; split; [intros _; repeat (eexists || split); try done; eauto|done].
Ltac cases_text E := match goal with |- context [str_eqb ?a ?b] => destruct (str_eqb a b) eqn:E; [apply str_eqb_eq in E|apply str_eqb_neq in E]; cbn [negb] end.
Ltac cases_decide E := match goal with |- context [bool_decide ?P] => destruct (bool_decide P) eqn:E; [apply bool_decide_eq_true in E|apply bool_decide_eq_false in E]; cbn [negb orb andb] end.

(** What each policy asks. *)
Definition live (s : CredentialStatus) (expiresAt : option string) (now : string) : Prop := s ≠ cr_revoked ∧ s ≠ cr_suspended ∧ expired_by expiresAt now = false.
Definition evidenced (t : RecognitionCapabilityToken) q : Prop :=
  ∀ e, List.find (λ e, str_eqb (er_action e) (aq_action q)) (ct_evidenceRequirements t) = Some e →
    ∃ ts, evidence_types (default [] (aq_evidence q)) = Ok ts ∧ ∀ ty, ty ∈ er_requiredEvidenceTypes e → JTxt ty ∈ ts.

Lemma actor_iff q c : clears RecognizedActorPolicy q c ↔ ∃ a, px_actor c = Some a ∧ ac_status a = as_recognized.
Proof. unfold clears, RecognizedActorPolicy. destruct (px_actor c) as [a|]; [|refuse]. destruct (ac_status a) eqn:E; [accept|refuse..]. Qed.
Lemma rogue_iff q c : clears RogueActorPolicy q c ↔ ∃ a d, px_actor c = Some a ∧ ac_type a ≠ at_unknown ∧ (ac_type a = at_external → px_externalStandingValid c = Some true) ∧
  px_trustDomain c = Some d ∧ ac_type a ∈ td_acceptedActorTypes d ∧ (is_Some (ac_issuerId a) → px_issuerAccepted c = true).
Proof.
  unfold clears, RogueActorPolicy. destruct (px_actor c) as [a|]; [|refuse]. cases_decide Eu; [refuse|].
  destruct (bool_decide (ac_type a = at_external) && negb (bool_decide (px_externalStandingValid c = Some true))) eqn:Ee.
  { apply andb_true_iff in Ee as [E1%bool_decide_eq_true E2%negb_true_iff%bool_decide_eq_false]. rewrite clears_fails. split; [done|]. intros (a'&d'&[= <-]&_&Hx&_). by apply E2, Hx. }
  assert (ac_type a = at_external → px_externalStandingValid c = Some true) as Hs.
  { intros Hx. rewrite bool_decide_eq_true_2 in Ee by done. cbn in Ee. by apply negb_false_iff, bool_decide_eq_true in Ee. }
  clear Ee. destruct (px_trustDomain c) as [d|]; [|refuse]. cases_decide Et; [|refuse]. destruct (ac_issuerId a) as [i|] eqn:Ei; [destruct (px_issuerAccepted c)|].
  - accept.
  - rewrite clears_fails. split; [done|]. intros (a'&d'&[= <-]&_&_&[= <-]&_&Hi). discriminate (Hi (ex_intro _ i Ei)).
  - rewrite clears_passes. split; [|done]. intros _. exists a, d. split_and!; try done. intros [? ?]. congruence.
Qed.
Lemma revocation_iff q c : clears RevocationPolicy q c ↔ rk_revoked (px_revocation c) = false.
Proof. unfold clears, RevocationPolicy. destruct (rk_revoked (px_revocation c)); [refuse|accept]. Qed.
Lemma passport_iff q c : clears ValidPassportPolicy q c ↔
  ∃ id p, aq_passportId q = Some id ∧ px_passport c = Some p ∧ live (pa_status p) (pa_expiresAt p) (px_now c) ∧ pa_subjectActorId p = aq_actorId q ∧ pa_trustDomainId p = aq_trustDomainId q.
Proof.
  unfold clears, ValidPassportPolicy, live. destruct (aq_passportId q) as [id|]; [|refuse]. destruct (px_passport c) as [p|]; [|refuse].
  cases_decide E1; [refuse|]. destruct (expired_by (pa_expiresAt p) (px_now c)) eqn:E2; [refuse|]. cases_decide E3; [refuse|]. cases_text E4; [|refuse]. cases_text E5; [accept|refuse].
Qed.
Lemma token_iff q c : clears ValidCapabilityPolicy q c ↔
  ∃ id t, aq_capabilityTokenId q = Some id ∧ px_capabilityToken c = Some t ∧ live (ct_status t) (ct_expiresAt t) (px_now c) ∧ ct_subjectActorId t = aq_actorId q ∧ ct_trustDomainId t = aq_trustDomainId q.
Proof.
  unfold clears, ValidCapabilityPolicy, live. destruct (aq_capabilityTokenId q) as [id|]; [|refuse]. destruct (px_capabilityToken c) as [t|]; [|refuse].
  cases_decide E1; [refuse|]. destruct (expired_by (ct_expiresAt t) (px_now c)) eqn:E2; [refuse|]. cases_decide E3; [refuse|]. cases_text E4; [|refuse]. cases_text E5; [accept|refuse].
Qed.
Lemma prohibited_iff q c : clears ProhibitedActionPolicy q c ↔ default false (cc_prohibited <$> px_capabilityCheck c) = false.
Proof. unfold clears, ProhibitedActionPolicy. destruct (default false _); [refuse|accept]. Qed.
Lemma scope_iff q c : clears ScopePolicy q c ↔ default false (cc_actionGranted <$> px_capabilityCheck c) = true ∧ default false (cc_inResourceScope <$> px_capabilityCheck c) = true.
Proof. unfold clears, ScopePolicy. destruct (default false (cc_actionGranted <$> _)), (default false (cc_inResourceScope <$> _)); cbn [negb]; [accept|refuse..]. Qed.
Lemma delegation_iff q c : clears DelegationPolicy q c ↔ ∀ t, px_capabilityToken c = Some t → dp_delegationDepth (ct_delegation t) ≤ dp_maxDelegationDepth (ct_delegation t).
Proof.
  unfold clears, DelegationPolicy. destruct (px_capabilityToken c) as [t|]; [|by rewrite clears_passes].
  destruct (dp_maxDelegationDepth (ct_delegation t) <? dp_delegationDepth (ct_delegation t)) eqn:E; [rewrite clears_fails|rewrite clears_passes].
  - apply Z.ltb_lt in E. split; [done|]. intros Hx. specialize (Hx t eq_refl). lia.
  - apply Z.ltb_ge in E. split; [intros _ t' [= <-]; done|done].
Qed.
Lemma is_text_spec s v : names_text s v = true ↔ v = JTxt s.
Proof. destruct v; cbn; try done. rewrite str_eqb_eq. split; [by intros ->|by intros [= ->]]. Qed.
Lemma missing_none ts l : List.filter (λ ty, negb (existsb (names_text ty) ts)) l = [] ↔ ∀ ty, ty ∈ l → JTxt ty ∈ ts.
Proof.
  assert (∀ ty, existsb (names_text ty) ts = true ↔ JTxt ty ∈ ts) as He.
  { intros ty. rewrite existsb_exists. split; [intros (v&Hv%list_elem_of_In&->%is_text_spec); done|]. intros Hv%list_elem_of_In. exists (JTxt ty). by rewrite is_text_spec. }
  induction l as [|x l IH]; [split; [by intros _ ty ?%not_elem_of_nil|done]|]. cbn [List.filter]. destruct (existsb (names_text x) ts) eqn:Ex; cbn [negb].
  - rewrite IH. apply He in Ex. split; [intros Hl ty [->|Hty]%elem_of_cons; auto|]. intros Hl ty Hty. apply Hl. by right.
  - split; [done|]. intros Hl. specialize (Hl x ltac:(by left)). apply He in Hl. by rewrite Hl in Ex.
Qed.
Lemma evidence_iff q c : clears EvidencePolicy q c ↔ ∀ t, px_capabilityToken c = Some t → evidenced t q.
Proof.
  unfold clears, EvidencePolicy, evidenced. destruct (px_capabilityToken c) as [t|]; [|split; [done|]; intros _; eexists; by split].
  change (default [] (ct_evidenceRequirements <$> Some t)) with (ct_evidenceRequirements t). destruct (List.find _ (ct_evidenceRequirements t)) as [e|] eqn:Ef; [|rewrite clears_passes; split; [intros _ t' [= <-] e'; by rewrite Ef|done]].
  transitivity (∃ ts, evidence_types (default [] (aq_evidence q)) = Ok ts ∧ (∀ ty, ty ∈ er_requiredEvidenceTypes e → JTxt ty ∈ ts));
    [|split; [intros Hx t' [= <-] e'; rewrite Ef; by intros [= <-]|intros Hx; by apply (Hx t)]].
  destruct (evidence_types _) as [ts|x]; cbn [result_bind]; [|split; [by intros (?&?&?)|by intros (?&?&?)]].
  pose proof (missing_none ts (er_requiredEvidenceTypes e)) as Hx.
  destruct (List.filter _ _) eqn:El.
  - rewrite clears_passes. split; [|done]. intros _. exists ts. split; [done|]. by apply Hx.
  - split; [by intros (?&[= <-]&?)|]. intros (ts'&[= <-]&Hy). by apply Hx in Hy.
Qed.
Lemma approval_policy_iff q c : clears ApprovalPolicy q c ↔ approval_asked (px_capabilityToken c) (aq_action q) = None.
Proof. unfold clears, ApprovalPolicy. destruct (approval_asked _ _); [|by rewrite clears_passes]. split; [by intros (?&[= <-]&?)|done]. Qed.

(** ** The default chain *)

(** No policy but the last asks for approval, none objects by allowing. *)
Definition blocking (t : RecognitionDecisionType) : Prop := t ≠ rd_allow ∧ t ≠ rd_require_human_approval.

Definition nine : list Policy := [RecognizedActorPolicy; RogueActorPolicy; RevocationPolicy; ValidPassportPolicy; ValidCapabilityPolicy; ProhibitedActionPolicy; ScopePolicy; DelegationPolicy; EvidencePolicy].
Ltac by_cases := repeat match goal with |- context [match ?x with _ => _ end] => destruct x end.
Lemma nine_block p q c t : p ∈ nine → objects p q c t → blocking t.
Proof.
  intros Hp (o&Ho&Hf&<-). revert Ho Hf. unfold nine in Hp. rewrite !elem_of_cons, elem_of_nil in Hp.
  destruct_or!; try done; subst p; unfold RecognizedActorPolicy, RogueActorPolicy, RevocationPolicy, ValidPassportPolicy, ValidCapabilityPolicy, ProhibitedActionPolicy, ScopePolicy, DelegationPolicy, EvidencePolicy, passes, fails; cbv zeta.
  all: try (destruct (evidence_types _); cbn [result_bind]).
  all: by_cases; intros [= <-]; cbn; first [done|by intros _; split].
Qed.
Lemma approval_objects q c t : objects ApprovalPolicy q c t → t = rd_require_human_approval.
Proof. intros (o&Ho&Hf&<-). unfold ApprovalPolicy in Ho. destruct (approval_asked _ _); injection Ho as <-; done. Qed.

Lemma default_chain q c r : evaluatePolicies createDefaultPolicyChain q c = Ok r →
  (pv_decisionType r = rd_allow ∧ Forall (λ p, clears p q c) nine ∧ approval_asked (px_capabilityToken c) (aq_action q) = None) ∨
  (pv_decisionType r = rd_require_human_approval ∧ Forall (λ p, clears p q c) nine ∧ is_Some (approval_asked (px_capabilityToken c) (aq_action q))) ∨
  (blocking (pv_decisionType r) ∧ ¬ Forall (λ p, clears p q c) nine).
Proof.
  intros E%evaluate_cases. change createDefaultPolicyChain with (nine ++ [ApprovalPolicy]) in E. destruct E as [[Ha Hl]|(l1&p&l2&El&Hl&Ho)].
  - left. apply Forall_app in Hl as [Hn Hp]. inversion_clear Hp as [|? ? Hp' _]. apply approval_policy_iff in Hp'. done.
  - right. destruct l2 as [|p2 l2 _] using rev_ind.
    + apply app_inj_tail in El as [<- <-]. left. pose proof (approval_objects _ _ _ Ho) as Ht. split_and!; [done|done|].
      destruct (approval_asked _ _) eqn:Ea; [done|]. apply approval_policy_iff in Ea. by destruct (clears_not_objects _ _ _ _ Ea Ho).
    + rewrite app_comm_cons, app_assoc in El. apply app_inj_tail in El as [El _]. right. split.
      * apply (nine_block p q c); [|done]. rewrite El. apply elem_of_app. right. by left.
      * rewrite El. intros [_ Hx]%Forall_app. inversion_clear Hx as [|? ? Hp _]. by apply (clears_not_objects _ _ _ _ Hp) in Ho.
Qed.
Lemma nine_total q c p e : p ∈ createDefaultPolicyChain → p q c = Throw e → e = EvidenceTypeError.
Proof.
  assert (∀ l e, evidence_types l = Throw e → e = EvidenceTypeError) as Hev.
  { induction l as [|x l IH]; cbn [evidence_types]; [done|]. intros e'. destruct (evidence_type x) as [t|e1] eqn:Et; cbn [result_bind].
    - destruct (evidence_types l) as [ts|e2]; cbn [result_bind]; [done|]. intros [= <-]. by apply IH.
    - intros [= <-]. unfold evidence_type in Et. by destruct x; inversion Et. }
  intros Hp. unfold createDefaultPolicyChain in Hp. rewrite !elem_of_cons, elem_of_nil in Hp.
  destruct_or!; try done; subst p; unfold RecognizedActorPolicy, RogueActorPolicy, RevocationPolicy, ValidPassportPolicy, ValidCapabilityPolicy, ProhibitedActionPolicy, ScopePolicy, DelegationPolicy, EvidencePolicy, ApprovalPolicy, passes, fails; cbv zeta.
  all: try (destruct (evidence_types _) as [ts|e1] eqn:Ee; cbn [result_bind]; [|by_cases; intros; simplify_eq; eauto]).
  all: by_cases; try done.
Qed.

(** ** Entitlement *)

(** What the registries must hold for a request at [now], given the standing of
    an external actor. *)
Definition recognized_actor rt q (sv : option ExternalStandingVerificationResult) : Prop :=
  ∃ a d, map_get (aq_actorId q) (rn_actors rt) = Some a ∧ ac_status a = as_recognized ∧ ac_type a ≠ at_unknown ∧ (ac_type a = at_external → sr_type <$> sv = Some standing_valid) ∧
    map_get (aq_trustDomainId q) (rn_domains rt) = Some d ∧ ac_type a ∈ td_acceptedActorTypes d ∧ (∀ i, ac_issuerId a = Some i → i ∈ td_acceptedIssuerIds d).
Definition live_passport rt q (now : string) : Prop :=
  ∃ id p, aq_passportId q = Some id ∧ map_get id (rn_passports rt) = Some p ∧ live (pa_status p) (pa_expiresAt p) now ∧ pa_subjectActorId p = aq_actorId q ∧ pa_trustDomainId p = aq_trustDomainId q.
Definition covering_token rt q (now : string) : Prop :=
  ∃ id t, aq_capabilityTokenId q = Some id ∧ map_get id (rn_tokens rt) = Some t ∧ live (ct_status t) (ct_expiresAt t) now ∧ ct_subjectActorId t = aq_actorId q ∧ ct_trustDomainId t = aq_trustDomainId q ∧
    aq_action q ∉ ct_prohibitedActions t ∧ (aq_action q ∈ ct_actions t ∨ is_Some (approval_asked (Some t) (aq_action q))) ∧
    (∃ s, s ∈ ct_resourceScopes t ∧ within_scope (aq_resource q) s = true) ∧ dp_delegationDepth (ct_delegation t) ≤ dp_maxDelegationDepth (ct_delegation t) ∧ evidenced t q.
Definition entitled rt q now sv : Prop := recognized_actor rt q sv ∧ live_passport rt q now ∧ covering_token rt q now.

Lemma check_granted t a r : cc_actionGranted (checkCapabilityForAction t a r) = true ↔ a ∈ ct_actions t ∨ is_Some (approval_asked (Some t) a).
Proof. cbn [checkCapabilityForAction cc_actionGranted]. rewrite orb_true_iff, bool_decide_eq_true. by rewrite is_some_true. Qed.
Lemma check_scope t a r : cc_inResourceScope (checkCapabilityForAction t a r) = true ↔ ∃ s, s ∈ ct_resourceScopes t ∧ within_scope r s = true.
Proof. cbn [checkCapabilityForAction cc_inResourceScope]. rewrite existsb_exists. apply exist_proper. intros s. by rewrite list_elem_of_In. Qed.
Lemma check_prohibited t a r : cc_prohibited (checkCapabilityForAction t a r) = false ↔ a ∉ ct_prohibitedActions t.
Proof. cbn [checkCapabilityForAction cc_prohibited]. apply bool_decide_eq_false. Qed.

Section Verification.
Context `{JsHost} (cfg : RecognitionConfiguration).

Lemma find_in_some {A} (f : A → bool) (x : A) : List.find f (option_list (Some x)) = if f x then Some x else None.
Proof. done. Qed.
Lemma not_revoked rt q now sv : entitled rt q now sv → rk_revoked (checkRevocation (aq_actorId q) (aq_passportId q) (aq_capabilityTokenId q) rt) = false.
Proof.
  intros ((a&d&Ea&Es&_)&(pid&p&Ep&Hp&(Hr1&_)&_)&(tid&t&Et&Ht&(Hr2&_)&_)). unfold checkRevocation. rewrite Ea, Ep, Et. cbn [mbind option_bind]. rewrite Hp, Ht, !find_in_some.
  rewrite (bool_decide_eq_false_2 (ac_status a = _)) by by rewrite Es. by rewrite !bool_decide_eq_false_2 by done.
Qed.
Lemma nine_entitled rt q now sv : Forall (λ p, clears p q (build_context q rt now sv)) nine ↔ entitled rt q now sv.
Proof.
  unfold nine. rewrite !Forall_cons, Forall_nil, actor_iff, rogue_iff, revocation_iff, passport_iff, token_iff, prohibited_iff, scope_iff, delegation_iff, evidence_iff.
  cbn [build_context px_actor px_trustDomain px_externalStandingValid px_issuerAccepted px_revocation px_passport px_now px_capabilityToken px_capabilityCheck]. split.
  - intros ((a&Ea&Es)&(a'&d&Ea'&Hu&Hx&Hd&Ht&Hi)&_&(pid&p&Ep&Hp&Hl&Hsub&Hdom)&(tid&t&Et&Htok&Hl'&Hsub'&Hdom')&Hpro&(Hg&Hs)&Hdel&Hev&_).
    rewrite Ea in Ea'. injection Ea' as <-. rewrite Ep in Hp. rewrite Et in Htok. cbn [mbind option_bind] in Hp, Htok.
    rewrite Et in Hpro, Hg, Hs, Hdel, Hev. cbn [mbind option_bind] in Hpro, Hg, Hs, Hdel, Hev. rewrite Htok in Hpro, Hg, Hs, Hdel, Hev. cbn [fmap option_fmap option_map default from_option] in Hpro, Hg, Hs.
    split_and!.
    + exists a, d. split_and!; try done.
      * intros Hxt. specialize (Hx Hxt). destruct sv as [r|]; [|done]. cbn in Hx. injection Hx as Hx%bool_decide_eq_true. cbn. by rewrite Hx.
      * intros i Ei. unfold isIssuerAccepted in Hi. rewrite Hd, Ea in Hi. cbn [mbind option_bind] in Hi. rewrite Ei in Hi. specialize (Hi ltac:(by eexists)). by apply bool_decide_eq_true in Hi.
    + by exists pid, p.
    + exists tid, t. split_and!; try done; [by apply check_prohibited in Hpro|by apply check_granted in Hg|by apply check_scope in Hs|by apply Hdel|by apply Hev].
  - intros He. pose proof (not_revoked _ _ _ _ He) as Hrev. destruct He as ((a&d&Ea&Es&Hu&Hx&Hd&Ht&Hi)&(pid&p&Ep&Hp&Hl&Hsub&Hdom)&(tid&t&Et&Htok&Hl'&Hsub'&Hdom'&Hpro&Hg&Hs&Hdel&Hev)).
    rewrite Et. cbn [mbind option_bind]. rewrite Htok. split_and!.
    + by exists a.
    + exists a, d. split_and!; try done.
      * intros Hxt. specialize (Hx Hxt). destruct sv as [r|]; [|done]. cbn in Hx |- *. injection Hx as ->. done.
      * intros [i Ei]. unfold isIssuerAccepted. rewrite Hd, Ea. cbn [mbind option_bind]. rewrite Ei. by apply bool_decide_eq_true, Hi.
    + by rewrite <-Et.
    + exists pid, p. rewrite Ep. done.
    + by exists tid, t.
    + by apply check_prohibited.
    + by apply check_granted.
    + by apply check_scope.
    + by intros t' [= <-].
    + by intros t' [= <-].
    + done.
Qed.

(** ** The integrations *)

Definition at_call (n : nat) rt : RecognitionRuntime :=
  {| rn_actors := rn_actors rt; rn_domains := rn_domains rt; rn_passports := rn_passports rt; rn_tokens := rn_tokens rt; rn_events := rn_events rt; rn_calls := n |}.
Definition standing_asked (a : option Actor) : bool := is_some (rc_externalAgentHandshake cfg) && bool_decide (ac_type <$> a = Some at_external).
(** The standing an external actor has at the call [n]. *)
Definition standing_answer (n : nat) q (a : option Actor) (t : option RecognitionCapabilityToken) (now : string) (sv : option ExternalStandingVerificationResult) : Prop :=
  match rc_externalAgentHandshake cfg with
  | Some f => if bool_decide (ac_type <$> a = Some at_external) then ∃ r, f n (standing_input q t now) = Some r ∧ sv = Some r else sv = None
  | None => sv = None
  end.
Lemma standing_Ok q a t now rt sv rt' : external_standing cfg q a t now rt = (Ok sv, rt') ↔
  standing_answer (rn_calls rt) q a t now sv ∧ rt' = at_call (if standing_asked a then S (rn_calls rt) else rn_calls rt) rt.
Proof.
  unfold external_standing, standing_answer, standing_asked. destruct (rc_externalAgentHandshake cfg) as [f|]; cbn [is_some andb].
  - destruct (bool_decide _); [|split; [by intros [= <- <-]; destruct rt|intros [-> ->]; by destruct rt]]. unfold call_out, mbind, RM_bind. destruct (f _ _) as [r|] eqn:Ef.
    + split; [intros [= <- <-]; split; [by exists r|done]|]. by intros [(r'&[= <-]&->) ->].
    + split; [done|]. by intros [(?&?&?) ?].
  - split; [by intros [= <- <-]; destruct rt|intros [-> ->]; by destruct rt].
Qed.
Definition chain_needed q (a : option Actor) : bool := is_some (rc_authorityGraph cfg) && requiresAuthorityChain (ac_type <$> a) (aq_actorId q) (aq_principalActorId q).
(** The authority graph, when it must be asked, finds a valid chain at the call [n]. *)
Definition authority_permits (n : nat) q (a : option Actor) (now : string) : Prop :=
  chain_needed q a = true → ∃ f d, rc_authorityGraph cfg = Some f ∧ f n (authority_request q now) = Some d ∧ ad_valid d = true.
Lemma mapped_authority_blocks t : blocking (mapAuthorityDecisionType t) ∧ mapAuthorityDecisionType t ≠ rd_unrecognized_actor.
Proof. unfold mapAuthorityDecisionType, blocking. cbn [map_get]. repeat (destruct (str_eqb _ t); [by split_and!|]). by split_and!. Qed.
Lemma authority_Ok q c v rt v' rt' : authority_verdict cfg q c v rt = (Ok v', rt') → ve_type v = rd_allow ∨ ve_type v = rd_require_human_approval →
  rt' = at_call (if chain_needed q (px_actor c) then S (rn_calls rt) else rn_calls rt) rt ∧
  (authority_permits (rn_calls rt) q (px_actor c) (px_now c) ∧ ve_type v' = ve_type v ∨ blocking (ve_type v')).
Proof.
  intros E Hv. assert (bool_decide (ve_type v ∈ RECOGNIZED_DECISION_TYPES) = true) as Hr by (by apply bool_decide_eq_true; destruct Hv as [-> | ->]; repeat constructor).
  revert E. unfold authority_verdict, authority_permits, chain_needed. rewrite Hr. destruct (rc_authorityGraph cfg) as [f|]; cbn [is_some andb]; [|intros [= <- <-]; split; [by destruct rt|by left]].
  destruct (requiresAuthorityChain _ _ _); [|intros [= <- <-]; split; [by destruct rt|by left]]. unfold call_out, mbind, RM_bind. destruct (f _ _) as [d|] eqn:Ef; [|done].
  intros [= <- <-]. cbn [ve_type]. split; [done|]. destruct (ad_valid d) eqn:Ed; [|right; apply mapped_authority_blocks]. left. split; [|done]. intros _. by exists f, d.
Qed.
Lemma authority_runs q c v rt : ve_type v = rd_allow ∨ ve_type v = rd_require_human_approval → authority_permits (rn_calls rt) q (px_actor c) (px_now c) →
  ∃ v', authority_verdict cfg q c v rt = (Ok v', at_call (if chain_needed q (px_actor c) then S (rn_calls rt) else rn_calls rt) rt) ∧ ve_type v' = ve_type v.
Proof.
  intros Hv. assert (bool_decide (ve_type v ∈ RECOGNIZED_DECISION_TYPES) = true) as Hr by (by apply bool_decide_eq_true; destruct Hv as [-> | ->]; repeat constructor).
  unfold authority_permits, authority_verdict, chain_needed. rewrite Hr. destruct (rc_authorityGraph cfg) as [f|]; cbn [is_some andb]; [|intros _; exists v; by destruct rt].
  destruct (requiresAuthorityChain _ _ _); [|intros _; exists v; by destruct rt]. intros (f'&d&[= <-]&Hd&Hval); [done|]. unfold call_out, mbind, RM_bind. rewrite Hd. eexists. split; [done|]. cbn. by rewrite Hval.
Qed.
(** The approval runtime vouches for the request at the call [n]. *)
Definition approval_given (n : nat) q (t : option RecognitionCapabilityToken) (decisionId now : string) : Prop :=
  ∃ f r, rc_approvalRuntime cfg = Some f ∧ f n (approval_input q t decisionId now) = Some r ∧ vr_type r = approval_valid.
Lemma authority_blocks q c v rt v' rt' : authority_verdict cfg q c v rt = (Ok v', rt') → blocking (ve_type v) → blocking (ve_type v').
Proof.
  unfold authority_verdict. intros E Hb. destruct (rc_authorityGraph cfg) as [f|]; [|by injection E as <- <-]. destruct (_ && _); [|by injection E as <- <-].
  revert E. unfold call_out, mbind, RM_bind. destruct (f _ _) as [d|]; [|done]. intros [= <- <-]. cbn [ve_type]. destruct (ad_valid d); [done|apply mapped_authority_blocks].
Qed.
Lemma approval_untouched q c id v rt : ve_type v ≠ rd_require_human_approval → approval_verdict cfg q c id v rt = (Ok v, rt).
Proof. intros Hv. unfold approval_verdict. destruct (rc_approvalRuntime cfg); [|done]. by rewrite bool_decide_eq_false_2. Qed.
Lemma approval_Ok q c id v rt v' rt' : approval_verdict cfg q c id v rt = (Ok v', rt') → ve_type v = rd_require_human_approval →
  ve_type v' = rd_allow → approval_given (rn_calls rt) q (px_capabilityToken c) id (px_now c).
Proof.
  unfold approval_verdict, approval_given. intros E Hv. revert E. destruct (rc_approvalRuntime cfg) as [f|]; [|intros [= <- <-]; by rewrite Hv].
  rewrite bool_decide_eq_true_2 by done. unfold call_out, mbind, RM_bind. destruct (f _ _) as [r|] eqn:Ef; [|done]. intros [= <- <-]. cbn [ve_type]. rewrite Hv.
  intros Ha. exists f, r. split_and!; [done|done|]. by destruct (vr_type r).
Qed.
Lemma approval_runs q c id v rt : ve_type v = rd_require_human_approval → approval_given (rn_calls rt) q (px_capabilityToken c) id (px_now c) →
  ∃ v' rt', approval_verdict cfg q c id v rt = (Ok v', rt') ∧ ve_type v' = rd_allow.
Proof.
  intros Hv (f&r&Ef&Er&Ha). unfold approval_verdict. rewrite Ef, bool_decide_eq_true_2 by done. unfold call_out, mbind, RM_bind. rewrite Er. do 2 eexists. split; [done|]. cbn. by rewrite Ha.
Qed.
Lemma standing_allow sv v : ve_type (standing_verdict sv v) = rd_allow ↔ ve_type v = rd_allow.
Proof.
  unfold standing_verdict. destruct sv as [r|]; [|done]. destruct (_ && _) eqn:E; [|done]. apply andb_true_iff in E as [[E1%negb_true_iff%bool_decide_eq_false E2%bool_decide_eq_true]%andb_true_iff _].
  cbn [ve_type]. rewrite E2. split; [|done]. by destruct (sr_type r).
Qed.
Lemma record_runs i rt : ∃ e, recordAuditEvent cfg i rt = (Ok e, add_event e (at_call (S (S (rn_calls rt))) rt)) ∧ au_input e = i ∧ au_previousHash e = au_eventHash <$> last (rn_events rt) ∧
  au_eventHash e = createDigest (audit_json i (au_timestamp e) (au_previousHash e)).
Proof.
  exists {| au_id := rc_next cfg (S (rn_calls rt)) "audit-event"; au_input := i; au_timestamp := rc_now cfg (rn_calls rt); au_previousHash := au_eventHash <$> last (rn_events rt);
            au_eventHash := createDigest (audit_json i (rc_now cfg (rn_calls rt)) (au_eventHash <$> last (rn_events rt))) |}. done.
Qed.

(** Everything a request must have to be allowed: what the registries hold, and
    what the integrations answer, each at its place in the order of calls. *)
Definition actor_of rt q : option Actor := map_get (aq_actorId q) (rn_actors rt).
Definition token_of rt q : option RecognitionCapabilityToken := aq_capabilityTokenId q ≫= λ id, map_get id (rn_tokens rt).
Definition sanctioned rt q : Prop :=
  let n := rn_calls rt in let now := rc_now cfg n in
  let m := if standing_asked (actor_of rt q) then S (S n) else S n in
  let k := if chain_needed q (actor_of rt q) then S (S m) else S m in
  ∃ sv, standing_answer (S n) q (actor_of rt q) (token_of rt q) now sv ∧ entitled rt q now sv ∧ authority_permits (S m) q (actor_of rt q) now ∧
    (is_Some (approval_asked (token_of rt q) (aq_action q)) → approval_given k q (token_of rt q) (rc_next cfg m "decision") now).

Lemma verify_Ok q rt d rt' : verifyAction cfg q rt = (Ok d, rt') →
  let n := rn_calls rt in let now := rc_now cfg n in let m := if standing_asked (actor_of rt q) then S (S n) else S n in
  ∃ sv r v1 rt1 v2 rt2 e, standing_answer (S n) q (actor_of rt q) (token_of rt q) now sv ∧ evaluatePolicies (rc_policies cfg) q (build_context q rt now sv) = Ok r ∧
    authority_verdict cfg q (build_context q rt now sv) (first_verdict r) (at_call (S m) rt) = (Ok v1, rt1) ∧
    approval_verdict cfg q (build_context q rt now sv) (rc_next cfg m "decision") v1 rt1 = (Ok v2, rt2) ∧
    recordAuditEvent cfg (decision_event q (rc_next cfg m "decision") (standing_verdict sv v2) (pv_policyResults r)) rt2 = (Ok e, rt') ∧
    d = build_recognition q (rc_next cfg m "decision") now (au_id e) r (standing_verdict sv v2).
Proof.
  cbv zeta. unfold verifyAction. intros (now&rt0&En&E)%rbind_Ok. injection En as <- <-. apply rbind_Ok in E as (?&?&[= <- <-]&E). apply rbind_Ok in E as (sv&rt1&[Hs ->]%standing_Ok&E).
  apply rbind_Ok in E as (r&?&Er&E). injection Er as Er <-. apply rbind_Ok in E as (id&?&Eid&E). injection Eid as <- <-. apply rbind_Ok in E as (v1&rt2&E1&E). apply rbind_Ok in E as (v2&rt3&E2&E).
  apply rbind_Ok in E as (e&rt4&E3&E). injection E as <- <-. exists sv, r, v1, rt2, v2, rt3, e.
  exact (conj Hs (conj Er (conj E1 (conj E2 (conj E3 eq_refl))))).
Qed.

Lemma evaluate_clear q c : Forall (λ p, clears p q c) nine → ∃ r, evaluatePolicies createDefaultPolicyChain q c = Ok r.
Proof.
  intros Hn. destruct (evaluatePolicies createDefaultPolicyChain q c) as [r|e] eqn:E; [by exists r|]. apply evaluate_throws in E as (p&Hp&Ep).
  change createDefaultPolicyChain with (nine ++ [ApprovalPolicy]) in Hp. apply elem_of_app in Hp as [Hp|Hp%list_elem_of_singleton].
  - rewrite Forall_forall in Hn. destruct (Hn p Hp) as (o&Ho&_). by rewrite Ho in Ep.
  - subst p. unfold ApprovalPolicy in Ep. by destruct (approval_asked _ _).
Qed.
Lemma blocked_not_allowed q c id v rt v1 rt1 v2 rt2 sv : authority_verdict cfg q c v rt = (Ok v1, rt1) → approval_verdict cfg q c id v1 rt1 = (Ok v2, rt2) → blocking (ve_type v1) →
  ve_type (standing_verdict sv v2) ≠ rd_allow.
Proof. intros E1 E2 [Ha Hh]. rewrite approval_untouched in E2 by done. injection E2 as <- <-. by rewrite standing_allow. Qed.

(** ** What a verification leaves behind *)

Definition still rt rt' : Prop := ∃ n, rt' = at_call n rt.
#[local] Instance still_preorder : PreOrder still.
Proof. split; [intros rt; exists (rn_calls rt); by destruct rt|]. intros x y z [n ->] [k ->]. by exists k. Qed.
(** A computation that only calls out. *)
Definition calls_only {A} (m : RM A) : Prop := ∀ rt r rt', m rt = (r, rt') → still rt rt' ∧ ∀ e, r = Throw e → e = IntegrationThrew.
Lemma calls_only_ret {A} (a : A) : calls_only (mret a).
Proof. intros rt r rt' [= <- <-]. split; [reflexivity|done]. Qed.
Lemma calls_only_out {I A B} (f : nat → I → option A) (i : I) (g : A → B) : calls_only (a ← call_out f i; mret (g a)).
Proof. intros rt r rt'. unfold call_out, mbind, RM_bind. destruct (f _ _); intros [= <- <-]; (split; [by eexists|]); [done|by intros e [= <-]]. Qed.
Lemma calls_only_standing q a t now : calls_only (external_standing cfg q a t now).
Proof. unfold external_standing. destruct (rc_externalAgentHandshake cfg); [destruct (bool_decide _)|]; auto using @calls_only_ret, @calls_only_out. Qed.
Lemma calls_only_authority q c v : calls_only (authority_verdict cfg q c v).
Proof. unfold authority_verdict. destruct (rc_authorityGraph cfg); [destruct (_ && _)|]; auto using @calls_only_ret, @calls_only_out. Qed.
Lemma calls_only_approval q c id v : calls_only (approval_verdict cfg q c id v).
Proof. unfold approval_verdict. destruct (rc_approvalRuntime cfg); [destruct (bool_decide _)|]; auto using @calls_only_ret, @calls_only_out. Qed.

(** The event a decision is recorded by. *)
Definition vouches (e : AuditEvent) rt q (d : RecognitionDecision) : Prop :=
  au_id e = rd_auditEventId d ∧ ev_eventType (au_input e) = recognition_decision ∧ ev_actorId (au_input e) = aq_actorId q ∧ ev_requestId (au_input e) = Some (aq_id q) ∧
  ev_decisionId (au_input e) = Some (rd_id d) ∧ map_get "decisionType" (match ev_payload (au_input e) with JObj fs => fs | _ => [] end) = Some (JTxt (recognition_type_name (rd_type d))) ∧
  au_previousHash e = au_eventHash <$> last (rn_events rt) ∧ au_eventHash e = createDigest (audit_json (au_input e) (au_timestamp e) (au_previousHash e)).
Lemma verify_records q rt d rt' : verifyAction cfg q rt = (Ok d, rt') → ∃ e n, rt' = add_event e (at_call n rt) ∧ vouches e rt q d ∧ rd_requestId d = aq_id q ∧ rd_actorId d = aq_actorId q.
Proof.
  intros E. apply verify_Ok in E. cbv zeta in E. destruct E as (sv&r&v1&rt1&v2&rt2&e&_&_&E1&E2&E3&->).
  destruct (calls_only_authority _ _ _ _ _ _ E1) as [[n1 ->] _]. destruct (calls_only_approval _ _ _ _ _ _ _ E2) as [[n2 ->] _].
  destruct (record_runs (decision_event q (rc_next cfg (if standing_asked (actor_of rt q) then S (S (rn_calls rt)) else S (rn_calls rt)) "decision") (standing_verdict sv v2) (pv_policyResults r)) (at_call n2 (at_call n1 (at_call (S (if standing_asked (actor_of rt q) then S (S (rn_calls rt)) else S (rn_calls rt))) rt)))) as (e'&E3'&Hi&Hp&Hh).
  rewrite E3' in E3. injection E3 as <- <-. exists e', (S (S n2)). split; [done|]. split; [|done]. unfold vouches. rewrite Hi in *. by split_and!.
Qed.
Lemma calls_only_throw {A B} (m : RM A) (f : A → RM B) rt e rt' : calls_only m → (m ≫= f) rt = (Throw e, rt') → e = IntegrationThrew ∧ still rt rt' ∨ ∃ a rt1, still rt rt1 ∧ f a rt1 = (Throw e, rt').
Proof. intros Hm [E|(a&rt1&E&E')]%rbind_Throw; apply Hm in E as [Hs He]; [left; split; [by apply He|done]|right; by exists a, rt1]. Qed.
Lemma verify_throws q rt e rt' : verifyAction cfg q rt = (Throw e, rt') → (e = IntegrationThrew ∨ ∃ p c, p ∈ rc_policies cfg ∧ p q c = Throw e) ∧ still rt rt'.
Proof.
  unfold verifyAction. intros [[=]|(now&rt0&En&E)]%rbind_Throw. injection En as <- <-. assert (still rt (rtick rt)) as Ht by (by eexists).
  apply rbind_Throw in E as [[=]|(?&?&[= <- <-]&E)]. apply calls_only_throw in E as [[-> Hs]|(sv&rt1&Hs1&E)]; [split; [by left|by transitivity (rtick rt)]| |apply calls_only_standing].
  assert (still rt rt1) as Ht1 by by transitivity (rtick rt). apply rbind_Throw in E as [E|(r&?&Er&E)].
  { injection E as Ep <-. apply evaluate_throws in Ep as (p&Hp&Ep). split; [right; by exists p, (build_context q (rtick rt) (rc_now cfg (rn_calls rt)) sv)|done]. }
  injection Er as _ <-. apply rbind_Throw in E as [[=]|(id&?&Eid&E)]. injection Eid as <- <-. assert (still rt (rtick rt1)) as Ht2 by (destruct Ht1 as [n ->]; by eexists).
  apply calls_only_throw in E as [[-> Hs]|(v1&rt2&Hs2&E)]; [split; [by left|by transitivity (rtick rt1)]| |apply calls_only_authority].
  apply calls_only_throw in E as [[-> Hs]|(v2&rt3&Hs3&E)]; [split; [by left|by transitivity rt2; [transitivity (rtick rt1)|]]| |apply calls_only_approval].
  match type of E with (_ ≫= _) _ = _ => apply rbind_Throw in E as [E|(ev&rt4&_&E)]; [|done] end.
  match type of E with recordAuditEvent _ ?i _ = _ => destruct (record_runs i rt3) as (ev&E'&_) end. by rewrite E' in E.
Qed.

Context (Hdefault : rc_policies cfg = createDefaultPolicyChain).

Lemma allow_sanctioned q rt d rt' : verifyAction cfg q rt = (Ok d, rt') → rd_type d = rd_allow → sanctioned rt q.
Proof.
  intros E. apply verify_Ok in E. cbv zeta in E. destruct E as (sv&r&v1&rt1&v2&rt2&e&Hs&Er&E1&E2&_&->). cbn [build_recognition rd_type]. intros Hd.
  unfold sanctioned. exists sv. split; [done|]. rewrite Hdefault in Er. apply default_chain in Er as [(Hr&Hn&Ha)|[(Hr&Hn&Ha)|(Hb&_)]].
  - apply nine_entitled in Hn. split; [done|]. pose proof E1 as E1'. apply (authority_Ok q) in E1' as [-> [[Hp _]|Hb]]; [|destruct (blocked_not_allowed _ _ _ _ _ _ _ _ _ sv E1 E2 Hb Hd)|by left].
    split; [done|]. change (approval_asked (token_of rt q) (aq_action q) = None) in Ha. rewrite Ha. by intros [? ?].
  - apply nine_entitled in Hn. split; [done|]. pose proof E1 as E1'. apply (authority_Ok q) in E1' as [-> [[Hp Ht]|Hb]]; [|destruct (blocked_not_allowed _ _ _ _ _ _ _ _ _ sv E1 E2 Hb Hd)|by right].
    split; [done|]. intros _. apply standing_allow in Hd. cbn [first_verdict ve_type] in Ht. rewrite Hr in Ht. by apply approval_Ok in E2.
  - apply (authority_blocks q) in E1 as Hb'; [|done]. destruct (blocked_not_allowed _ _ _ _ _ _ _ _ _ sv E1 E2 Hb' Hd).
Qed.
Lemma sanctioned_allowed q rt : sanctioned rt q → ∃ d rt', verifyAction cfg q rt = (Ok d, rt') ∧ rd_type d = rd_allow.
Proof.
  intros (sv&Hs&He&Hp&Happ). set (n := rn_calls rt) in *. set (now := rc_now cfg n) in *. set (m := if standing_asked (actor_of rt q) then S (S n) else S n) in *.
  set (c := build_context q rt now sv). apply nine_entitled in He as Hn. destruct (evaluate_clear _ _ Hn) as [r Hr].
  assert (ve_type (first_verdict r) = rd_allow ∧ approval_asked (token_of rt q) (aq_action q) = None ∨
    ve_type (first_verdict r) = rd_require_human_approval ∧ is_Some (approval_asked (token_of rt q) (aq_action q))) as Hv.
  { apply default_chain in Hr as [(Hr&_&Ha)|[(Hr&_&Ha)|(_&Hx)]]; [by left|by right|done]. }
  destruct (authority_runs q c (first_verdict r) (at_call (S m) rt)) as (v1&E1&Hv1); [by destruct Hv as [[? _]|[? _]]; [left|right]|done|].
  assert (∃ v2 rt2, approval_verdict cfg q c (rc_next cfg m "decision") v1 (at_call (if chain_needed q (actor_of rt q) then S (S m) else S m) rt) = (Ok v2, rt2) ∧ ve_type v2 = rd_allow) as (v2&rt2&E2&Hv2).
  { destruct Hv as [[Ht Ha]|[Ht Ha]]; rewrite Ht in Hv1.
    - do 2 eexists. split; [apply approval_untouched; by rewrite Hv1|done].
    - apply approval_runs; [done|]. by apply Happ. }
  destruct (record_runs (decision_event q (rc_next cfg m "decision") (standing_verdict sv v2) (pv_policyResults r)) rt2) as (e&E3&_).
  exists (build_recognition q (rc_next cfg m "decision") now (au_id e) r (standing_verdict sv v2)). eexists. split; [|by apply standing_allow]. unfold verifyAction. rewrite rbind_Ok. do 2 eexists. split; [reflexivity|]. rewrite rbind_Ok. do 2 eexists. split; [reflexivity|].
  rewrite rbind_Ok. exists sv, (at_call m (rtick rt)). split; [apply standing_Ok; split; [exact Hs|done]|]. rewrite rbind_Ok, Hdefault. exists r, (at_call m (rtick rt)).
  split; [unfold rlift; by rewrite <-Hr|]. rewrite rbind_Ok. do 2 eexists. split; [reflexivity|]. rewrite rbind_Ok. exists v1, (at_call (if chain_needed q (actor_of rt q) then S (S m) else S m) rt).
  split; [exact E1|]. rewrite rbind_Ok. exists v2, rt2. split; [exact E2|]. rewrite rbind_Ok. do 2 eexists. split; [exact E3|reflexivity].
Qed.
Lemma default_throws q rt e rt' : verifyAction cfg q rt = (Throw e, rt') → (e = EvidenceTypeError ∨ e = IntegrationThrew) ∧ still rt rt'.
Proof. intros [[->|(p&c&Hp&Ep)] Hs]%verify_throws; [by split; [right|]|]. rewrite Hdefault in Hp. split; [left; by apply (nine_total _ _ _ _ Hp Ep)|done]. Qed.
End Verification.

(** ** Histories *)

Inductive operation :=
  | o_registerActor (i : RegisterActorInput) | o_updateActorStatus (id : string) (s : ActorStatus) | o_createTrustDomain (i : CreateTrustDomainInput) | o_issuePassport (i : IssuePassportInput)
  | o_verifyPassport (id : string) | o_suspendPassport (id : string) | o_revokePassport (id trustDomainId : string) | o_issueCapabilityToken (i : IssueCapabilityTokenInput)
  | o_importCapabilityToken (t : RecognitionCapabilityToken) | o_verifyCapabilityToken (id : string) | o_suspendCapabilityToken (id : string) | o_revokeCapabilityToken (id trustDomainId : string)
  | o_revokeActor (id trustDomainId : string) | o_submitActionRequest (q : ActionRequest) | o_exportActionProof (requestId : string).

Section Histories.
Context `{JsHost} (cfg : RecognitionConfiguration).

(** The state an operation leaves, whether it returns or throws. *)
Definition operate (o : operation) rt : RecognitionRuntime :=
  match o with
  | o_registerActor i => (registerActor cfg i rt).2 | o_updateActorStatus id s => (updateActorStatus cfg id s rt).2 | o_createTrustDomain i => (createTrustDomain cfg i rt).2
  | o_issuePassport i => (issuePassport cfg i rt).2 | o_verifyPassport id => (verifyPassport cfg id rt).2 | o_suspendPassport id => (suspendPassport id rt).2
  | o_revokePassport id d => (revokePassport cfg id d rt).2 | o_issueCapabilityToken i => (issueCapabilityToken cfg i rt).2 | o_importCapabilityToken t => (importCapabilityToken t rt).2
  | o_verifyCapabilityToken id => (verifyCapabilityToken cfg id rt).2 | o_suspendCapabilityToken id => (suspendCapabilityToken id rt).2
  | o_revokeCapabilityToken id d => (revokeCapabilityToken cfg id d rt).2 | o_revokeActor id d => (revokeActor cfg id d rt).2 | o_submitActionRequest q => (submitActionRequest cfg q rt).2
  | o_exportActionProof id => (exportActionProof cfg id rt).2
  end.
Definition history (os : list operation) rt : RecognitionRuntime := fold_left (λ rt o, operate o rt) os rt.

(** The single changes an operation makes of its own. *)
Definition withdrawn_status (s : CredentialStatus) : Prop := s = cr_suspended ∨ s = cr_revoked.
Definition filed_as (given : option string) (prefix k : string) : Prop := given = Some k ∨ given = None ∧ ∃ n, k = rc_next cfg n prefix.
Definition files_passport (o : operation) (k : string) : Prop := ∃ i, o = o_issuePassport i ∧ filed_as (ip_id i) "passport" k.
Definition files_token (o : operation) (k : string) : Prop := (∃ i, o = o_issueCapabilityToken i ∧ filed_as (it_id i) "capability-token" k) ∨ ∃ t, o = o_importCapabilityToken t ∧ k = ct_id t.
Inductive change (o : operation) : RecognitionRuntime → RecognitionRuntime → Prop :=
  | change_calls rt n : change o rt (at_call n rt)
  | change_actor rt k a : change o rt (set_actor k a rt)
  | change_domain rt d : change o rt (set_domain d rt)
  | change_passport rt k p s : map_get k (rn_passports rt) = Some p → withdrawn_status s → change o rt (set_passport k (passport_with s p) rt)
  | change_filed_passport rt k p : files_passport o k → change o rt (set_passport k p rt)
  | change_token rt k t s : map_get k (rn_tokens rt) = Some t → withdrawn_status s → change o rt (set_token k (token_with s t) rt)
  | change_filed_token rt k t : files_token o k → change o rt (set_token k t rt)
  | change_event rt e : au_previousHash e = au_eventHash <$> last (rn_events rt) → au_eventHash e = createDigest (audit_json (au_input e) (au_timestamp e) (au_previousHash e)) →
      change o rt (add_event e rt).
Notation changes o := (rtc (change o)).
Lemma changes_still o rt rt' : still rt rt' → changes o rt rt'.
Proof. intros [n ->]. apply rtc_once. constructor. Qed.
Lemma changes_tick o rt : changes o rt (rtick rt).
Proof. apply (changes_still _ _ _ (ex_intro _ (S (rn_calls rt)) eq_refl)). Qed.
Lemma changes_record o i rt : changes o rt (recordAuditEvent cfg i rt).2.
Proof. destruct (record_runs cfg i rt) as (e&->&Hi&Hp&Hh). cbn [snd]. rewrite <-Hi in Hh. eapply rtc_l; [apply change_calls|]. apply rtc_once. by constructor. Qed.
Lemma changes_given o given prefix rt : ∃ k, filed_as given prefix k ∧ given_or_next cfg given prefix rt = (Ok k, (given_or_next cfg given prefix rt).2) ∧ changes o rt (given_or_next cfg given prefix rt).2.
Proof.
  destruct given as [k|]; cbn [given_or_next].
  - exists k. split_and!; [by left|done|reflexivity].
  - eexists. split_and!; [right; split; [done|by eexists]|reflexivity|apply changes_tick].
Qed.
Lemma changes_verdict o name s x rt : changes o rt (credential_verdict cfg name s x rt).2.
Proof. destruct s; cbn; try reflexivity; destruct x; cbn; try reflexivity; apply changes_tick. Qed.
Lemma changes_bind {A B} o (m : RM A) (f : A → RM B) rt : changes o rt (m rt).2 → (∀ a rt', m rt = (Ok a, rt') → changes o rt' (f a rt').2) → changes o rt ((m ≫= f) rt).2.
Proof. unfold mbind, RM_bind. destruct (m rt) as [[a|e] rt']; cbn [snd]; [|done]. intros Hm Hf. transitivity rt'; [done|by apply Hf]. Qed.
Lemma changes_parties o a d rt : changes o rt (known_parties a d rt).2.
Proof. unfold known_parties, mbind, RM_bind, rget. destruct (negb _); [reflexivity|]. by destruct (negb _). Qed.
Lemma changes_status o id st rt : changes o rt (updateActorStatus cfg id st rt).2.
Proof.
  unfold updateActorStatus. apply changes_bind; [reflexivity|]. intros x rt' [= <- <-]. destruct (map_get id _) as [a|]; [|reflexivity].
  eapply rtc_l; [apply (change_calls o _ (S (rn_calls rt)))|]. apply rtc_once. apply change_actor.
Qed.
Lemma changes_passport o id st rt : withdrawn_status st → changes o rt (passport_transition id st rt).2.
Proof. intros Hs. unfold passport_transition. apply changes_bind; [reflexivity|]. intros x rt' [= <- <-]. destruct (map_get id _) as [p|] eqn:E; [|reflexivity]. apply rtc_once. by constructor. Qed.
Lemma changes_token o id st rt : withdrawn_status st → changes o rt (token_transition id st rt).2.
Proof. intros Hs. unfold token_transition. apply changes_bind; [reflexivity|]. intros x rt' [= <- <-]. destruct (map_get id _) as [p|] eqn:E; [|reflexivity]. apply rtc_once. by constructor. Qed.
Lemma changes_filed o {A} (given : option string) prefix (f : string → RM A) rt :
  (∀ k rt', filed_as given prefix k → changes o rt' (f k rt').2) → changes o rt ((given_or_next cfg given prefix ≫= f) rt).2.
Proof. intros Hf. destruct (changes_given o given prefix rt) as (k&Hk&Ek&Hc). apply changes_bind; [done|]. intros k' rt' E. rewrite E in Ek. injection Ek as <-. by apply Hf. Qed.
Lemma operate_changes o rt : changes o rt (operate o rt).
Proof.
  destruct o as [i|id st|i|i|id|id|id d|i|t|id|id|id d|id d|q|id]; cbn [operate].
  - apply changes_filed. intros k rt' _. apply changes_bind; [apply changes_tick|]. intros x rt1 [= <- <-]. apply rtc_once, change_actor.
  - apply changes_status.
  - apply changes_filed. intros k rt' _. apply changes_bind; [apply changes_tick|]. intros x rt1 [= <- <-]. apply rtc_once. apply change_domain.
  - apply changes_bind; [apply changes_parties|]. intros _ rt1 _. apply changes_filed. intros k rt' Hk. apply changes_bind; [apply changes_tick|]. intros x rt2 [= <- <-]. apply rtc_once, change_filed_passport. by exists i.
  - apply changes_bind; [reflexivity|]. intros x rt1 [= <- <-]. destruct (map_get _ _); [apply changes_verdict|reflexivity].
  - by apply changes_passport; left.
  - apply changes_bind; [by apply changes_passport; right|]. intros p rt1 _. apply changes_bind; [apply changes_record|]. intros e rt2 _. reflexivity.
  - apply changes_bind; [apply changes_parties|]. intros _ rt1 _. apply changes_bind; [reflexivity|]. intros x rt2 [= <- <-]. apply changes_bind; [reflexivity|]. intros terms rt3 Et. injection Et as _ <-.
    apply changes_filed. intros k rt' Hk. apply changes_bind; [apply changes_tick|]. intros x rt2 [= <- <-]. apply rtc_once, change_filed_token. left. by exists i.
  - apply rtc_once, change_filed_token. right. by exists t.
  - apply changes_bind; [reflexivity|]. intros x rt1 [= <- <-]. destruct (map_get _ _); [apply changes_verdict|reflexivity].
  - by apply changes_token; left.
  - apply changes_bind; [by apply changes_token; right|]. intros p rt1 _. apply changes_bind; [apply changes_record|]. intros e rt2 _. reflexivity.
  - apply changes_bind; [apply changes_status|]. intros p rt1 _. apply changes_bind; [apply changes_record|]. intros e rt2 _. reflexivity.
  - unfold submitActionRequest. destruct (verifyAction cfg q rt) as [[d|e] rt'] eqn:E; cbn [snd].
    + apply verify_records in E as (e&n&->&(_&_&_&_&_&_&Hp&Hh)&_). eapply rtc_l; [apply change_calls|]. apply rtc_once. by constructor.
    + apply verify_throws in E as [_ Hs]. by apply changes_still.
  - apply changes_bind; [reflexivity|]. intros x rt1 [= <- <-]. destruct (getAuditTrail _ _); [reflexivity|apply changes_tick].
Qed.

(** *** Withdrawn credentials *)

Definition token_withdrawn (k : string) rt : Prop := ∃ t, map_get k (rn_tokens rt) = Some t ∧ withdrawn_status (ct_status t).
Definition passport_withdrawn (k : string) rt : Prop := ∃ p, map_get k (rn_passports rt) = Some p ∧ withdrawn_status (pa_status p).
Lemma token_change o k rt rt' : ¬ files_token o k → change o rt rt' → token_withdrawn k rt → token_withdrawn k rt'.
Proof.
  intros Hn Hc (t&Ht&Hs). destruct Hc as [| | | | |rt k' t' s' Ht' Hs'|rt k' t' Hf|]; try by exists t.
  - destruct (decide (k' = k)) as [->|Hne]; [exists (token_with s' t'); cbn [set_token set_passport rn_tokens rn_passports]; by rewrite map_get_set_eq|]. exists t. cbn [set_token rn_tokens]. by rewrite map_get_set_ne.
  - exists t. cbn [set_token rn_tokens]. rewrite map_get_set_ne; [done|]. by intros ->.
Qed.
Lemma passport_change o k rt rt' : ¬ files_passport o k → change o rt rt' → passport_withdrawn k rt → passport_withdrawn k rt'.
Proof.
  intros Hn Hc (p&Hp&Hs). destruct Hc as [| | |rt k' p' s' Hp' Hs'|rt k' p' Hf| | |]; try by exists p.
  - destruct (decide (k' = k)) as [->|Hne]; [exists (passport_with s' p'); cbn [set_token set_passport rn_tokens rn_passports]; by rewrite map_get_set_eq|]. exists p. cbn [set_passport rn_passports]. by rewrite map_get_set_ne.
  - exists p. cbn [set_passport rn_passports]. rewrite map_get_set_ne; [done|]. by intros ->.
Qed.
(** A property no single change of these operations breaks holds throughout. *)
Lemma history_keeps (P : RecognitionRuntime → Prop) os rt : (∀ o x y, o ∈ os → change o x y → P x → P y) → P rt → P (history os rt).
Proof.
  revert rt. induction os as [|o os IH]; intros rt Hc HP; [done|]. apply IH; [intros o' x y Ho; apply Hc; by right|].
  pose proof (operate_changes o rt) as Hr. cbn [fold_left] in *. revert HP. clear IH. induction Hr as [x|x y z Hxy _ IH]; [done|]. intros HP. apply IH. apply (Hc o x); [by left|done|done].
Qed.
Lemma history_app os1 os2 rt : history (os1 ++ os2) rt = history os2 (history os1 rt).
Proof. apply fold_left_app. Qed.
Lemma revoked_token k d rt t rt' : revokeCapabilityToken cfg k d rt = (Ok t, rt') → token_withdrawn k rt'.
Proof.
  unfold revokeCapabilityToken, service_revokeCapabilityToken, token_transition. intros (t0&rt1&E&E')%rbind_Ok. apply rbind_Ok in E as (?&?&[= <- <-]&E). destruct (map_get k (rn_tokens rt)) as [t1|]; [|done].
  injection E as <- <-. apply rbind_Ok in E' as (e&rt2&E2&[= <- <-]). match type of E2 with recordAuditEvent _ ?i ?x = _ => destruct (record_runs cfg i x) as (e'&E3&_) end.
  rewrite E3 in E2. injection E2 as <- <-. exists (token_with cr_revoked t1). cbn. rewrite map_get_set_eq. by split; [|right].
Qed.
Lemma revoked_passport k d rt p rt' : revokePassport cfg k d rt = (Ok p, rt') → passport_withdrawn k rt'.
Proof.
  unfold revokePassport, service_revokePassport, passport_transition. intros (t0&rt1&E&E')%rbind_Ok. apply rbind_Ok in E as (?&?&[= <- <-]&E). destruct (map_get k (rn_passports rt)) as [t1|]; [|done].
  injection E as <- <-. apply rbind_Ok in E' as (e&rt2&E2&[= <- <-]). match type of E2 with recordAuditEvent _ ?i ?x = _ => destruct (record_runs cfg i x) as (e'&E3&_) end.
  rewrite E3 in E2. injection E2 as <- <-. exists (passport_with cr_revoked t1). cbn. rewrite map_get_set_eq. by split; [|right].
Qed.
Lemma live_not_withdrawn st x now : live st x now → ¬ withdrawn_status st.
Proof. intros (?&?&_) [?|?]; done. Qed.
Lemma withdrawn_not_sanctioned rt q : (∃ k, aq_capabilityTokenId q = Some k ∧ token_withdrawn k rt) ∨ (∃ k, aq_passportId q = Some k ∧ passport_withdrawn k rt) → ¬ sanctioned cfg rt q.
Proof.
  intros Hw (sv&_&(_&(pid&p&Ep&Hp&Hlp&_)&(tid&t&Et&Ht&Hlt&_))&_). destruct Hw as [(k&Ek&t'&Ht'&Hs)|(k&Ek&p'&Hp'&Hs)]; simplify_eq; [exact (live_not_withdrawn _ _ _ Hlt Hs)|exact (live_not_withdrawn _ _ _ Hlp Hs)].
Qed.

(** *** The ledger *)

Definition event_payload (e : AuditEvent) : Json := audit_json (au_input e) (au_timestamp e) (au_previousHash e).
Definition ledger_linked (l : list AuditEvent) : Prop := linked event_payload au_previousHash au_eventHash l.
Lemma change_ledger o rt rt' : change o rt rt' → ledger_linked (rn_events rt) → ledger_linked (rn_events rt').
Proof. destruct 1 as [| | | | | | |rt e Hp Hh]; try done. intros Hl. apply linked_snoc. done. Qed.
Lemma change_prefix o rt rt' l : change o rt rt' → l `prefix_of` rn_events rt → l `prefix_of` rn_events rt'.
Proof. destruct 1 as [| | | | | | |rt e Hp Hh]; try done. intros Hl. by apply prefix_app_r. Qed.
End Histories.

(** ** Claims *)

(** C16. A request is allowed exactly when it is sanctioned: its actor is recognized,
    of a type and an issuer the trust domain accepts (and of valid standing when it
    is external), carries a live passport and a live capability token of its own in
    that domain, the token grants the action on the resource, does not prohibit it,
    is within its delegation depth and has the evidence it asks for; the authority
    graph finds a valid chain when the actor is an agent or acts for another; and
    the approval runtime vouches for the request when the token reserves the action
    to a human. *)
Theorem recognition_exact `{JsHost} (cfg : RecognitionConfiguration) q rt : rc_policies cfg = createDefaultPolicyChain →
  (∃ d rt', verifyAction cfg q rt = (Ok d, rt') ∧ rd_type d = rd_allow) ↔ sanctioned cfg rt q.
Proof. intros Hd. split; [intros (d&rt'&E&Ha); by apply (allow_sanctioned cfg Hd q rt d rt')|by apply sanctioned_allowed]. Qed.

(** C17. What was revoked stays out: after a capability token or a passport is
    revoked, no request that carries it is allowed, whatever operations follow,
    until one of them files a credential under the same id. *)
Theorem withdrawn_stays_out `{JsHost} (cfg : RecognitionConfiguration) k dom rt0 os q : rc_policies cfg = createDefaultPolicyChain →
  (∀ t rt d rt', revokeCapabilityToken cfg k dom rt0 = (Ok t, rt) → (∀ o, o ∈ os → ¬ files_token cfg o k) → aq_capabilityTokenId q = Some k →
    verifyAction cfg q (history cfg os rt) = (Ok d, rt') → rd_type d ≠ rd_allow) ∧
  (∀ p rt d rt', revokePassport cfg k dom rt0 = (Ok p, rt) → (∀ o, o ∈ os → ¬ files_passport cfg o k) → aq_passportId q = Some k →
    verifyAction cfg q (history cfg os rt) = (Ok d, rt') → rd_type d ≠ rd_allow).
Proof.
  intros Hd. split; intros t rt d rt' Hr Hos Hq E Ha; apply (allow_sanctioned cfg Hd) in E; [|done| |done]; revert E; apply withdrawn_not_sanctioned.
  - left. exists k. split; [done|]. apply history_keeps; [|by eapply revoked_token]. intros o x y Ho. apply token_change. by apply Hos.
  - right. exists k. split; [done|]. apply history_keeps; [|by eapply revoked_passport]. intros o x y Ho. apply passport_change. by apply Hos.
Qed.

(** Verification records itself and nothing else: it leaves the registries as
    they are; when it returns, one event is appended, which names the request, the
    decision and its type and links to the event before it; when it throws, no event
    is, and the cause is an integration or an item of evidence that is null. Over
    any history from an empty runtime the ledger is hash-linked, and no event of it
    is ever dropped or changed. *)
Theorem recognition_recorded `{JsHost} (cfg : RecognitionConfiguration) q os os' r rt' : rc_policies cfg = createDefaultPolicyChain →
  let rt := history cfg os createAocRecognitionRuntime in
  ledger_linked (rn_events rt) ∧ rn_events rt `prefix_of` rn_events (history cfg os' rt) ∧
  (verifyAction cfg q rt = (r, rt') → same_registries rt rt' ∧
    match r with
    | Ok d => ∃ e, rn_events rt' = rn_events rt ++ [e] ∧ vouches e rt q d
    | Throw e => (e = EvidenceTypeError ∨ e = IntegrationThrew) ∧ rn_events rt' = rn_events rt
    end).
Proof.
  intros Hd rt. split_and!.
  - apply (history_keeps cfg (λ rt, ledger_linked (rn_events rt))); [|done]. intros o x y _. apply change_ledger.
  - apply (history_keeps cfg (λ x, rn_events rt `prefix_of` rn_events x)); [|done]. intros o x y _ Hc. by apply (change_prefix cfg _ _ _ _ Hc).
  - intros E. destruct r as [d|e].
    + apply verify_records in E as (e&n&->&Hv&_). split; [done|]. by exists e.
    + apply default_throws in E as [He [n ->]]; [|done]. by split.
Qed.

Module RecognitionDemo.

#[local] Existing Instance demo_host.

(** An authority graph that knows the agent, an approval runtime that knows one
    proof, no external agents. *)
Definition config : RecognitionConfiguration :=
  {| rc_now := λ _, "2026-01-01"; rc_next := λ n prefix, prefix +:+ "-" +:+ number_text (Z.of_nat n); rc_policies := createDefaultPolicyChain;
     rc_authorityGraph := Some (λ _ i, Some {| ad_id := "chain-1"; ad_type := "valid"; ad_valid := str_eqb (al_actorId i) "agent-1"; ad_reasonCode := "CHAIN"; ad_reason := ""; ad_proofId := None |});
     rc_approvalRuntime := Some (λ _ i, Some {| vr_type := if bool_decide (ap_approvalProofId i = Some "proof-1") then approval_valid else approval_missing; vr_valid := true;
       vr_approvalRequestId := None; vr_approvalDecisionId := None; vr_approvalProofId := ap_approvalProofId i; vr_reasonCode := "APPROVED"; vr_reason := "" |});
     rc_externalAgentHandshake := None |}.
Definition actor (id : string) (t : ActorType) : operation :=
  o_registerActor {| ra_id := Some id; ra_type := t; ra_displayName := id; ra_status := None; ra_issuerId := Some "issuer-1"; ra_trustDomainId := Some "domain-1"; ra_jurisdiction := None;
    ra_metadata := None |}.
Definition domain : operation :=
  o_createTrustDomain {| ci_id := Some "domain-1"; ci_name := "Republic"; ci_issuerActorId := "issuer-1"; ci_jurisdiction := None; ci_acceptedIssuerIds := ["issuer-1"];
    ci_acceptedActorTypes := [at_human; at_agent]; ci_policyPackIds := None |}.
Definition passport (id subject : string) : operation :=
  o_issuePassport {| ip_id := Some id; ip_type := agent_passport; ip_subjectActorId := subject; ip_issuerActorId := "issuer-1"; ip_trustDomainId := "domain-1"; ip_jurisdiction := None;
    ip_expiresAt := Some "2027-01-01"; ip_claims := None |}.
Definition token_terms_of (id subject : string) (parent : option string) (actions : list string) (approval : option ApprovalRequirement) : IssueCapabilityTokenInput :=
  {| it_id := Some id; it_subjectActorId := subject; it_principalActorId := subject; it_issuerActorId := "issuer-1"; it_trustDomainId := "domain-1"; it_capability := "treasury";
     it_actions := actions; it_resourceScopes := ["account"]; it_jurisdiction := None; it_prohibitedActions := None; it_delegatedFromTokenId := parent; it_delegable := Some true;
     it_maxDelegationDepth := Some 2; it_evidenceRequirements := None; it_approvalRequirement := approval; it_riskLevel := rl_low; it_expiresAt := Some "2027-01-01" |}.
Definition token (id subject : string) (parent : option string) (actions : list string) (approval : option ApprovalRequirement) : operation :=
  o_issueCapabilityToken (token_terms_of id subject parent actions approval).
Definition setup : list operation := [actor "human-1" at_human; actor "agent-1" at_agent; domain; passport "passport-h" "human-1"; passport "passport-a" "agent-1"; token "token-h" "human-1" None ["read"] None].
Definition world : RecognitionRuntime := history config setup createAocRecognitionRuntime.
Definition request (token action : string) (proof : option string) : ActionRequest :=
  {| aq_id := "request-1"; aq_actorId := "agent-1"; aq_passportId := Some "passport-a"; aq_capabilityTokenId := Some token; aq_trustDomainId := "domain-1"; aq_action := action;
     aq_resource := "account:7"; aq_principalActorId := Some "human-1"; aq_context := None; aq_evidence := None; aq_requestedAt := "2026-01-01"; aq_approvalProofId := proof;
     aq_approvalRequestId := None; aq_approvalDecisionId := None |}.
Definition verdict_type (q : ActionRequest) (rt : RecognitionRuntime) : option RecognitionDecisionType := match (verifyAction config q rt).1 with Ok d => Some (rd_type d) | Throw _ => None end.
Lemma verdict_run q rt t : verdict_type q rt = Some t → ∃ d rt', verifyAction config q rt = (Ok d, rt') ∧ rd_type d = t.
Proof. unfold verdict_type. destruct (verifyAction config q rt) as [[d|e] rt']; [|done]. intros [= <-]. by exists d, rt'. Qed.
(** The agent's token, delegated by the human's. *)
Definition delegated : RecognitionRuntime := operate config (token "token-a" "agent-1" (Some "token-h") ["read"] None) world.
Lemma recognition_exact_witness : rc_policies config = createDefaultPolicyChain ∧ sanctioned config delegated (request "token-a" "read" None).
Proof.
  split; [reflexivity|]. apply (recognition_exact config (request "token-a" "read" None) delegated eq_refl). apply verdict_run. vm_compute. reflexivity.
Defined.

Lemma run_Ok {A} (m : RM A) rt : (match (m rt).1 with Ok _ => true | Throw _ => false end) = true → ∃ a, m rt = (Ok a, (m rt).2).
Proof. destruct (m rt) as [[a|e] rt']; [|done]. intros _. by exists a. Qed.
(** After the revocation the token may be suspended and a new one issued. *)
Definition revoked : RecognitionRuntime := (revokeCapabilityToken config "token-a" "domain-1" delegated).2.
Definition afterwards : list operation := [o_suspendCapabilityToken "token-a"; token "token-b" "agent-1" (Some "token-h") ["read"] None].
Lemma revoked_run : ∃ t, revokeCapabilityToken config "token-a" "domain-1" delegated = (Ok t, revoked).
Proof. apply (run_Ok (revokeCapabilityToken config "token-a" "domain-1")). vm_compute. reflexivity. Qed.
Lemma afterwards_other o : o ∈ afterwards → ¬ files_token config o "token-a".
Proof.
  intros Ho. apply elem_of_cons in Ho as [->|Ho%list_elem_of_singleton]; [|subst o]; intros [(i&Ei&Hi)|(x&Ex&_)]; try discriminate. injection Ei as <-. destruct Hi as [Hi|[Hi _]]; discriminate Hi.
Qed.
Lemma withdrawn_stays_out_witness :
  verdict_type (request "token-b" "read" None) (history config afterwards revoked) = Some rd_allow ∧
  ∃ d rt', verifyAction config (request "token-a" "read" None) (history config afterwards revoked) = (Ok d, rt') ∧ rd_type d ≠ rd_allow.
Proof.
  split; [vm_compute; reflexivity|]. destruct revoked_run as [t Ht].
  destruct (verdict_run (request "token-a" "read" None) (history config afterwards revoked) rd_invalid_capability ltac:(vm_compute; reflexivity)) as (d&rt'&Hd&_). exists d, rt'.
  pose proof (withdrawn_stays_out config "token-a" "domain-1" delegated afterwards (request "token-a" "read" None) eq_refl) as [Hx _].
  exact (conj Hd (Hx t revoked d rt' Ht afterwards_other eq_refl Hd)).
Defined.
Lemma recognition_recorded_witness : rc_policies config = createDefaultPolicyChain ∧
  ∃ d rt' e, verifyAction config (request "token-h" "read" None) (history config setup createAocRecognitionRuntime) = (Ok d, rt') ∧
    rn_events rt' = rn_events (history config setup createAocRecognitionRuntime) ++ [e] ∧ vouches e (history config setup createAocRecognitionRuntime) (request "token-h" "read" None) d.
Proof.
  split; [reflexivity|].
  destruct (verdict_run (request "token-h" "read" None) (history config setup createAocRecognitionRuntime) rd_invalid_capability ltac:(vm_compute; reflexivity)) as (d&rt'&Hd&_).
  pose proof (recognition_recorded config (request "token-h" "read" None) setup [] (Ok d) rt' eq_refl) as (_&_&Hx). exists d, rt'. destruct (Hx Hd) as (_&e&He). exists e. exact (conj Hd He).
Defined.

(** A delegated token that asks for approval of an action grants it, although the
    token it comes from does not: delegation checks [actions] only. *)
Definition escalated : RecognitionRuntime := operate config (token "token-x" "agent-1" (Some "token-h") ["read"] (Some {| pq_actions := ["wire"]; pq_requiredApproverActorIds := None |})) world.
Lemma approval_escalates_delegation : (∃ t, map_get "token-h" (rn_tokens escalated) = Some t ∧ cc_actionGranted (checkCapabilityForAction t "wire" "account:7") = false) ∧
  (∃ t, map_get "token-x" (rn_tokens escalated) = Some t ∧ dp_delegatedFromTokenId (ct_delegation t) = Some "token-h" ∧ cc_actionGranted (checkCapabilityForAction t "wire" "account:7") = true) ∧
  verdict_type (request "token-x" "wire" (Some "proof-1")) escalated = Some rd_allow.
Proof. split_and!; [eexists; split; vm_compute; reflexivity|eexists; split_and!; vm_compute; reflexivity|vm_compute; reflexivity]. Qed.
(** Nor does a delegated token inherit the prohibitions or the expiry of its
    parent: from an expired token that prohibits the action, a live one that
    permits it. *)
Definition limits : IssueCapabilityTokenInput :=
  {| it_id := Some "token-l"; it_subjectActorId := "human-1"; it_principalActorId := "human-1"; it_issuerActorId := "issuer-1"; it_trustDomainId := "domain-1"; it_capability := "treasury";
     it_actions := ["read"]; it_resourceScopes := ["account"]; it_jurisdiction := None; it_prohibitedActions := Some ["read"]; it_delegatedFromTokenId := None; it_delegable := Some true;
     it_maxDelegationDepth := Some 2; it_evidenceRequirements := None; it_approvalRequirement := None; it_riskLevel := rl_low; it_expiresAt := Some "2025-01-01" |}.
Definition unlimited : RecognitionRuntime := history config [o_issueCapabilityToken limits; token "token-x" "agent-1" (Some "token-l") ["read"] None] world.
Lemma delegation_drops_limits :
  (∃ t, map_get "token-l" (rn_tokens unlimited) = Some t ∧ "read" ∈ ct_prohibitedActions t ∧ expired_by (ct_expiresAt t) "2026-01-01" = true) ∧
  verdict_type (request "token-x" "read" None) unlimited = Some rd_allow.
Proof. split; [eexists; split_and!; [vm_compute; reflexivity|by left|vm_compute; reflexivity]|vm_compute; reflexivity]. Qed.
End RecognitionDemo.
