(* ===== verification/KernelAuthority.v ===== *)
(** * The kernel authority store

    [enterprise/kernel-authority]: the events that provision and revoke
    authority, their digests, the record a chain of events stands for, the rules
    by which an event is appended, the in-memory store, and the service operators
    provision through.

    One state holds the store; an operation returns a value or the code of the
    error it rejects with (messages are left out), and the state it leaves. The
    clock and the generator of ids are functions of the number of calls made so
    far. A payload is a JSON value whose numbers are integers; kinds and event
    types are those the types list. *)

From S2P Require Import Prelude Decimal Js JsMap Monetary Parameters ExerciseControl StableJson HashChain.

Local Open Scope Z_scope.
Local Open Scope frontera_scope.

(** ** Contracts *)

Definition AOC_KERNEL_AUTHORITY_RUNTIME_VERSION : string := "1.0.0".
Definition KERNEL_AUTHORITY_SCHEMA_VERSION : string := "aoc.kernel-authority.schema.v1".
Inductive KernelAuthorityEntityKind := ek_actor | ek_trust_domain | ek_passport | ek_capability_token | ek_root_issuer | ek_authority_grant | ek_delegation_grant.
#[export] Instance KernelAuthorityEntityKind_eq_dec : EqDecision KernelAuthorityEntityKind.
Proof. solve_decision. Defined.
Definition entity_kind_name (k : KernelAuthorityEntityKind) : string :=
  match k with
  | ek_actor => "actor" | ek_trust_domain => "trust-domain" | ek_passport => "passport" | ek_capability_token => "capability-token" | ek_root_issuer => "root-issuer"
  | ek_authority_grant => "authority-grant" | ek_delegation_grant => "delegation-grant"
  end.
(** The index of a kind in [KERNEL_AUTHORITY_ENTITY_KINDS]. *)
Definition entity_kind_index (k : KernelAuthorityEntityKind) : Z :=
  match k with ek_actor => 0 | ek_trust_domain => 1 | ek_passport => 2 | ek_capability_token => 3 | ek_root_issuer => 4 | ek_authority_grant => 5 | ek_delegation_grant => 6 end.
Inductive KernelAuthorityEventType := KernelAuthorityEntityProvisioned | KernelAuthorityEntityRevoked.
#[export] Instance KernelAuthorityEventType_eq_dec : EqDecision KernelAuthorityEventType.
Proof. solve_decision. Defined.
Definition event_type_name (t : KernelAuthorityEventType) : string :=
  match t with KernelAuthorityEntityProvisioned => "KernelAuthorityEntityProvisioned" | KernelAuthorityEntityRevoked => "KernelAuthorityEntityRevoked" end.
Inductive KernelAuthorityEntityStatus := es_active | es_revoked.
#[export] Instance KernelAuthorityEntityStatus_eq_dec : EqDecision KernelAuthorityEntityStatus.
Proof. solve_decision. Defined.
Record KernelAuthorityAccessContext := { ax_system : bool; ax_organizationId : option string; ax_actorId : option string }.
Record KernelAuthorityExternalSubject := { xs_system : string; xs_subjectId : string }.
Record AppendKernelAuthorityEventInput := {
  ai_organizationId : string; ai_entityKind : KernelAuthorityEntityKind; ai_entityId : string; ai_eventType : KernelAuthorityEventType; ai_payload : Json; ai_occurredAt : option string;
  ai_idempotencyKey : option string }.
(** An event without its digest, and with it. *)
Record UnsignedEvent := {
  ue_eventId : string; ue_organizationId : string; ue_entityKind : KernelAuthorityEntityKind; ue_entityId : string; ue_eventType : KernelAuthorityEventType; ue_sequence : Z; ue_payload : Json;
  ue_provisionedBy : string; ue_occurredAt : string; ue_persistedAt : string; ue_previousEventDigest : option string; ue_schemaVersion : string; ue_runtimeVersion : string }.
Record KernelAuthorityEvent := { kv_unsigned : UnsignedEvent; kv_eventDigest : string }.
Record KernelAuthorityRecord := {
  kr_organizationId : string; kr_entityKind : KernelAuthorityEntityKind; kr_entityId : string; kr_trustDomainId : option string; kr_status : KernelAuthorityEntityStatus; kr_payload : Json;
  kr_provisionedBy : string; kr_provisionedAt : string; kr_revokedBy : option string; kr_revokedAt : option string; kr_revocationReason : option string; kr_latestSequence : Z;
  kr_latestEventDigest : string }.
Inductive KernelAuthorityErrorCode :=
  | KERNEL_AUTHORITY_ENTITY_NOT_FOUND | KERNEL_AUTHORITY_ENTITY_CONFLICT | KERNEL_AUTHORITY_ENTITY_REVOKED | KERNEL_AUTHORITY_IDEMPOTENCY_CONFLICT
  | KERNEL_AUTHORITY_EXTERNAL_SUBJECT_CONFLICT | KERNEL_AUTHORITY_OPERATOR_CONTEXT_REQUIRED | KERNEL_AUTHORITY_TENANT_SCOPE_REQUIRED | KERNEL_AUTHORITY_ACCESS_SCOPE_VIOLATION
  | KERNEL_AUTHORITY_REFERENCE_INVALID | KERNEL_AUTHORITY_INTEGRITY_FAILED | KERNEL_AUTHORITY_STORE_UNAVAILABLE | KERNEL_AUTHORITY_VERSION_UNSUPPORTED
  | KERNEL_AUTHORITY_VALIDATION_ERROR | KERNEL_AUTHORITY_REFRESH_FAILED.
Notation attempt A := (result KernelAuthorityErrorCode A).

(** ** Access *)

Definition all_blank (s : string) : bool := bool_decide (js_trim (chars s) = []).
Definition canAccessKernelAuthorityOrganization (x : KernelAuthorityAccessContext) (organizationId : string) : bool := ax_system x || bool_decide (ax_organizationId x = Some organizationId).
Definition requireKernelAuthorityTenantScope (x : KernelAuthorityAccessContext) : attempt unit :=
  if negb (ax_system x) && negb (nonempty (default "" (ax_organizationId x))) then Throw KERNEL_AUTHORITY_TENANT_SCOPE_REQUIRED else Ok ().
Definition requireKernelAuthorityReadAccess (x : KernelAuthorityAccessContext) (organizationId : string) : attempt unit :=
  let* _ := requireKernelAuthorityTenantScope x in
  if canAccessKernelAuthorityOrganization x organizationId then Ok () else Throw KERNEL_AUTHORITY_ACCESS_SCOPE_VIOLATION.
Definition requireKernelAuthorityOperator (x : KernelAuthorityAccessContext) : attempt string :=
  if negb (ax_system x) then Throw KERNEL_AUTHORITY_OPERATOR_CONTEXT_REQUIRED
  else match ax_actorId x with
       | None => Throw KERNEL_AUTHORITY_OPERATOR_CONTEXT_REQUIRED
       | Some id => if all_blank id then Throw KERNEL_AUTHORITY_OPERATOR_CONTEXT_REQUIRED else Ok id
       end.

(** ** Digests *)

Definition canonicalSerialize (v : Json) : string := default "null" (json_stringify (sortValue v)).
Section Digests.
Context `{JsHost}.
Definition computeDigest (v : Json) : string := "sha256:" +:+ sha256_hex (canonicalSerialize v).
(** The text is serialized once more before it is hashed. *)
Definition computeKernelAuthorityPayloadDigest (payload : Json) : string := computeDigest (JTxt (canonicalSerialize payload)).
Definition unsigned_json (e : UnsignedEvent) : Json := JObj [
  ("eventId", JTxt (ue_eventId e)); ("organizationId", JTxt (ue_organizationId e)); ("entityKind", JTxt (entity_kind_name (ue_entityKind e))); ("entityId", JTxt (ue_entityId e));
  ("eventType", JTxt (event_type_name (ue_eventType e))); ("sequence", JNo (ue_sequence e)); ("payload", ue_payload e); ("provisionedBy", JTxt (ue_provisionedBy e));
  ("occurredAt", JTxt (ue_occurredAt e)); ("persistedAt", JTxt (ue_persistedAt e)); ("schemaVersion", JTxt (ue_schemaVersion e)); ("runtimeVersion", JTxt (ue_runtimeVersion e));
  ("previousEventDigest", opt_txt (ue_previousEventDigest e))].
Definition computeKernelAuthorityEventDigest (e : UnsignedEvent) : string := computeDigest (JTxt (canonicalSerialize (unsigned_json e))).
Definition buildKernelAuthorityEvent (e : UnsignedEvent) : KernelAuthorityEvent := {| kv_unsigned := e; kv_eventDigest := computeKernelAuthorityEventDigest e |}.

(** ** The record of a chain of events *)

Definition extractTrustDomainId (k : KernelAuthorityEntityKind) (entityId : string) (payload : Json) : option string :=
  if bool_decide (k = ek_trust_domain) then Some entityId
  else match json_field "trustDomainId" payload with Some (JTxt s) => if nonempty s then Some s else None | _ => None end.
(** What the events seen so far say of the entity. *)
Record ChainState := { cs_status : KernelAuthorityEntityStatus; cs_revokedBy : option string; cs_revokedAt : option string; cs_revocationReason : option string }.
Definition apply_event (s : ChainState) (e : UnsignedEvent) : ChainState :=
  match ue_eventType e with
  | KernelAuthorityEntityRevoked =>
      {| cs_status := es_revoked; cs_revokedBy := Some (ue_provisionedBy e); cs_revokedAt := Some (ue_occurredAt e);
         cs_revocationReason := match json_field "reason" (ue_payload e) with Some (JTxt r) => Some r | _ => None end |}
  | KernelAuthorityEntityProvisioned => s
  end.
Fixpoint replay_chain (index : Z) (previousDigest : option string) (s : ChainState) (events : list KernelAuthorityEvent) : attempt ChainState :=
  match events with
  | [] => Ok s
  | e :: events =>
      guard* ue_sequence (kv_unsigned e) =? index + 1 else KERNEL_AUTHORITY_INTEGRITY_FAILED in
      guard* bool_decide (ue_previousEventDigest (kv_unsigned e) = previousDigest) else KERNEL_AUTHORITY_INTEGRITY_FAILED in
      guard* str_eqb (computeKernelAuthorityEventDigest (kv_unsigned e)) (kv_eventDigest e) else KERNEL_AUTHORITY_INTEGRITY_FAILED in
      replay_chain (index + 1) (Some (kv_eventDigest e)) (apply_event s (kv_unsigned e)) events
  end.
Record KernelAuthorityChainHead := { hd_latestSequence : Z; hd_latestEventDigest : string }.
Definition build_record (first latest : KernelAuthorityEvent) (s : ChainState) : KernelAuthorityRecord :=
  let f := kv_unsigned first in
  {| kr_organizationId := ue_organizationId f; kr_entityKind := ue_entityKind f; kr_entityId := ue_entityId f; kr_trustDomainId := extractTrustDomainId (ue_entityKind f) (ue_entityId f) (ue_payload f);
     kr_status := cs_status s; kr_payload := ue_payload f; kr_provisionedBy := ue_provisionedBy f; kr_provisionedAt := ue_occurredAt f; kr_revokedBy := cs_revokedBy s;
     kr_revokedAt := cs_revokedAt s; kr_revocationReason := cs_revocationReason s; kr_latestSequence := ue_sequence (kv_unsigned latest); kr_latestEventDigest := kv_eventDigest latest |}.
Definition chain_start : ChainState := {| cs_status := es_active; cs_revokedBy := None; cs_revokedAt := None; cs_revocationReason := None |}.
Definition at_head (head : option KernelAuthorityChainHead) (latest : KernelAuthorityEvent) : bool :=
  match head with Some h => (ue_sequence (kv_unsigned latest) =? hd_latestSequence h) && str_eqb (kv_eventDigest latest) (hd_latestEventDigest h) | None => true end.
Definition reconstructKernelAuthorityRecord (events : list KernelAuthorityEvent) (expectedHead : option KernelAuthorityChainHead) : attempt KernelAuthorityRecord :=
  match events, last events with
  | first :: _, Some latest =>
      guard* bool_decide (ue_eventType (kv_unsigned first) = KernelAuthorityEntityProvisioned) else KERNEL_AUTHORITY_INTEGRITY_FAILED in
      let* s := replay_chain 0 None chain_start events in
      guard* at_head expectedHead latest else KERNEL_AUTHORITY_INTEGRITY_FAILED in
      Ok (build_record first latest s)
  | _, _ => Throw KERNEL_AUTHORITY_INTEGRITY_FAILED
  end.
End Digests.
Definition compareKernelAuthorityRecords (a b : KernelAuthorityRecord) : Z :=
  let d := entity_kind_index (kr_entityKind a) - entity_kind_index (kr_entityKind b) in
  if negb (d =? 0) then d else if str_ltb (kr_entityId a) (kr_entityId b) then -1 else if str_ltb (kr_entityId b) (kr_entityId a) then 1 else 0.
Definition readExternalSubject (payload : Json) : option KernelAuthorityExternalSubject :=
  match json_field "externalSubject" payload with
  | Some raw =>
      match json_field "system" raw, json_field "subjectId" raw with
      | Some (JTxt system), Some (JTxt subjectId) => if nonempty system && nonempty subjectId then Some {| xs_system := system; xs_subjectId := subjectId |} else None
      | _, _ => None
      end
  | None => None
  end.
Definition nul_text : string := String (ascii_of_nat 0) EmptyString.
Definition externalSubjectKey (organizationId : string) (s : KernelAuthorityExternalSubject) : string := organizationId +:+ nul_text +:+ xs_system s +:+ nul_text +:+ xs_subjectId s.

(** ** Constraints and bounds of a payload *)

Definition KERNEL_AUTHORITY_MAXIMUM_MONETARY_CONSTRAINTS : Z := 16.
Definition KERNEL_AUTHORITY_MAXIMUM_PARAMETER_BOUNDS : Z := 32.
Definition carries_authority (k : KernelAuthorityEntityKind) : bool := bool_decide (k = ek_authority_grant) || bool_decide (k = ek_delegation_grant).
Definition hasExactlyKeys (fs : JsMap Json) (keys : list string) : bool := (length fs =? length keys)%nat && forallb (λ k, bool_decide (k ∈ keys)) (map_keys fs).
Definition spending_limit_id (s : string) : bool :=
  match chars s with [] => false | c :: rest => is_alnum c && forallb (λ c, is_alnum c || one_of "._:-" c) rest && (Z.of_nat (length rest) <=? 63) end.
Definition asset_field (v : option Json) : bool := match v with Some (JTxt s) => asset_id_pattern s | _ => false end.
Definition isPositiveCanonicalDecimal (v : option Json) : bool :=
  match v with Some (JTxt s) => isCanonicalDecimal s MONETARY_DECIMAL_MAXIMUM_DIGITS && negb (str_eqb s "0") | _ => false end.
Definition isValidWindow (v : option Json) : bool :=
  match v with
  | Some (JObj fs) =>
      match map_get "kind" fs with
      | Some (JTxt "lifetime") => hasExactlyKeys fs ["kind"]
      | Some (JTxt "rolling") =>
          hasExactlyKeys fs ["kind"; "seconds"] &&
          match map_get "seconds" fs with Some (JNo n) => isSafeInteger (JInt n) && (1 <=? n) && (n <=? EXERCISE_CONTROL_MAXIMUM_ROLLING_SECONDS) | _ => false end
      | _ => false
      end
  | _ => false
  end.
(** [constraintViolation(constraint) === undefined] *)
Definition constraint_well_formed (constraint : Json) : bool :=
  match constraint with
  | JObj fs =>
      match map_get "type" fs with
      | Some (JTxt "max_amount") => hasExactlyKeys fs ["type"; "currency"; "value"] && asset_field (map_get "currency" fs) && isPositiveCanonicalDecimal (map_get "value" fs)
      | Some (JTxt "spending_limit") =>
          hasExactlyKeys fs ["type"; "limitId"; "currency"; "maximum"; "window"] && match map_get "limitId" fs with Some (JTxt s) => spending_limit_id s | _ => false end &&
          asset_field (map_get "currency" fs) && isPositiveCanonicalDecimal (map_get "maximum" fs) && isValidWindow (map_get "window" fs)
      | _ => false
      end
  | _ => false
  end.
(** The identity of a spending limit, as the text that is compared. *)
Definition limit_identity (constraint : Json) : option string :=
  match json_field "type" constraint with
  | Some (JTxt "spending_limit") => Some (stableStringify (JArr [default JUndef (json_field "limitId" constraint); default JUndef (json_field "currency" constraint)]))
  | _ => None
  end.
Fixpoint constraints_well_formed (seen : list string) (l : list Json) : bool :=
  match l with
  | [] => true
  | c :: l =>
      constraint_well_formed c &&
      match limit_identity c with
      | Some identity => negb (bool_decide (identity ∈ seen)) && constraints_well_formed (identity :: seen) l
      | None => constraints_well_formed seen l
      end
  end.
Definition validateKernelAuthorityMonetaryConstraints (k : KernelAuthorityEntityKind) (payload : Json) : attempt unit :=
  match json_field "constraints" payload with
  | None => Ok ()
  | Some v =>
      if negb (carries_authority k) then Throw KERNEL_AUTHORITY_VALIDATION_ERROR
      else match v with
           | JArr l => if (Z.of_nat (length l) <=? KERNEL_AUTHORITY_MAXIMUM_MONETARY_CONSTRAINTS) && constraints_well_formed [] l then Ok () else Throw KERNEL_AUTHORITY_VALIDATION_ERROR
           | _ => Throw KERNEL_AUTHORITY_VALIDATION_ERROR
           end
  end.
(** The bound a record states, when it has the shape of one. *)
Definition json_bound (fs : JsMap Json) : option GovernedParameterBound :=
  match map_get "kind" fs, map_get "type" fs with
  | Some (JTxt "exact"), Some (JTxt type) =>
      match map_get "value" fs with
      | Some (JNo n) => if str_eqb type "integer" then Some (BExact (VInteger (JInt n))) else None
      | Some (JTxt s) => if str_eqb type "token" then Some (BExact (VToken s)) else None
      | Some (JBol b) => if str_eqb type "boolean" then Some (BExact (VBoolean b)) else None
      | _ => None
      end
  | Some (JTxt "maximum"), Some (JTxt "integer") => match map_get "limit" fs with Some (JNo n) => Some (BMaximum (JInt n)) | _ => None end
  | _, _ => None
  end.
(** [boundViolation(entry)]: the dimension of an entry that has none. *)
Definition bound_dimension (entry : Json) : option string :=
  match entry with
  | JObj fs =>
      let keys := match map_get "kind" fs with Some (JTxt "maximum") => ["dimension"; "kind"; "type"; "limit"] | _ => ["dimension"; "kind"; "type"; "value"] end in
      match map_get "dimension" fs, json_bound fs with
      | Some (JTxt d), Some b => if hasExactlyKeys fs keys && isSemanticIdentifier d && isWellFormedGovernedParameterBound b then Some d else None
      | _, _ => None
      end
  | _ => None
  end.
Fixpoint bounds_ascend (previous : option string) (l : list Json) : bool :=
  match l with
  | [] => true
  | x :: l => match bound_dimension x with Some d => match previous with Some p => str_ltb p d | None => true end && bounds_ascend (Some d) l | None => false end
  end.
Definition validateKernelAuthorityParameterBounds (k : KernelAuthorityEntityKind) (payload : Json) : attempt unit :=
  match json_field "parameterBounds" payload with
  | None => Ok ()
  | Some v =>
      if negb (carries_authority k) then Throw KERNEL_AUTHORITY_VALIDATION_ERROR
      else match v with
           | JArr (_ :: _ as l) => if (Z.of_nat (length l) <=? KERNEL_AUTHORITY_MAXIMUM_PARAMETER_BOUNDS) && bounds_ascend None l then Ok () else Throw KERNEL_AUTHORITY_VALIDATION_ERROR
           | _ => Throw KERNEL_AUTHORITY_VALIDATION_ERROR
           end
  end.
(** Every constraint names an asset of the registry, at no more than its scale. *)
Definition within_registry (assets : MonetaryAssetRegistry) (constraint : Json) : bool :=
  match json_field "currency" constraint with
  | Some (JTxt currency) =>
      match resolve assets (JsString currency) with
      | Some asset =>
          let value := match json_field "type" constraint with Some (JTxt "max_amount") => json_field "value" constraint | _ => json_field "maximum" constraint end in
          match value with
          | Some (JTxt s) => isCanonicalDecimal s MONETARY_DECIMAL_MAXIMUM_DIGITS && match canonicalDecimalScale s with Ok n => Z.of_nat n <=? asset_scale asset | Throw _ => false end
          | _ => false
          end
      | None => false
      end
  | _ => false
  end.
Definition assertKernelAuthorityMonetaryConstraintsWithinRegistry (constraints : option Json) (assets : MonetaryAssetRegistry) : attempt unit :=
  match constraints with
  | Some (JArr l) => if forallb (within_registry assets) l then Ok () else Throw KERNEL_AUTHORITY_VALIDATION_ERROR
  | _ => Ok ()
  end.

(** ** Append rules *)

Definition validateKernelAuthorityAppendInput (i : AppendKernelAuthorityEventInput) : attempt unit :=
  guard* negb (all_blank (ai_organizationId i)) else KERNEL_AUTHORITY_VALIDATION_ERROR in
  guard* negb (all_blank (ai_entityId i)) else KERNEL_AUTHORITY_VALIDATION_ERROR in
  guard* match ai_payload i with JObj _ | JArr _ => true | _ => false end else KERNEL_AUTHORITY_VALIDATION_ERROR in
  match ai_eventType i with
  | KernelAuthorityEntityProvisioned =>
      let* _ := validateKernelAuthorityMonetaryConstraints (ai_entityKind i) (ai_payload i) in
      validateKernelAuthorityParameterBounds (ai_entityKind i) (ai_payload i)
  | KernelAuthorityEntityRevoked => Ok ()
  end.
Record IdempotencyClaim := { ic_payloadDigest : string; ic_entityKind : KernelAuthorityEntityKind; ic_entityId : string }.
#[export] Instance IdempotencyClaim_eq_dec : EqDecision IdempotencyClaim.
Proof. solve_decision. Defined.
Record KernelAuthorityAppendState := { sa_existingEvents : list KernelAuthorityEvent; sa_idempotencyClaim : option IdempotencyClaim; sa_conflictingExternalSubjectActorId : option string }.
Inductive KernelAuthorityAppendDecision :=
  | Replay (record : KernelAuthorityRecord) (payloadDigest : string)
  | Append (sequence : Z) (previousEventDigest : option string) (payloadDigest : string).
Section Append.
Context `{JsHost}.
Definition claim_of (i : AppendKernelAuthorityEventInput) : IdempotencyClaim :=
  {| ic_payloadDigest := computeKernelAuthorityPayloadDigest (ai_payload i); ic_entityKind := ai_entityKind i; ic_entityId := ai_entityId i |}.
(** The rules once the claim on the key has been settled. *)
Definition decide_append (i : AppendKernelAuthorityEventInput) (s : KernelAuthorityAppendState) (current : option KernelAuthorityRecord) : attempt KernelAuthorityAppendDecision :=
  let payloadDigest := computeKernelAuthorityPayloadDigest (ai_payload i) in
  match ai_eventType i, current with
  | KernelAuthorityEntityProvisioned, None =>
      match sa_conflictingExternalSubjectActorId s with Some _ => Throw KERNEL_AUTHORITY_EXTERNAL_SUBJECT_CONFLICT | None => Ok (Append 1 None payloadDigest) end
  | KernelAuthorityEntityProvisioned, Some r =>
      guard* negb (bool_decide (kr_status r = es_revoked)) else KERNEL_AUTHORITY_ENTITY_REVOKED in
      guard* str_eqb (computeKernelAuthorityPayloadDigest (kr_payload r)) payloadDigest else KERNEL_AUTHORITY_ENTITY_CONFLICT in
      Ok (Replay r payloadDigest)
  | KernelAuthorityEntityRevoked, None => Throw KERNEL_AUTHORITY_ENTITY_NOT_FOUND
  | KernelAuthorityEntityRevoked, Some r =>
      if bool_decide (kr_status r = es_revoked) then Ok (Replay r payloadDigest)
      else Ok (Append (Z.of_nat (length (sa_existingEvents s)) + 1) (kv_eventDigest <$> last (sa_existingEvents s)) payloadDigest)
  end.
Definition decideKernelAuthorityAppend (i : AppendKernelAuthorityEventInput) (s : KernelAuthorityAppendState) : attempt KernelAuthorityAppendDecision :=
  let* current := match sa_existingEvents s with [] => Ok None | l => let* r := reconstructKernelAuthorityRecord l None in Ok (Some r) end in
  match ai_idempotencyKey i, sa_idempotencyClaim s with
  | Some _, Some claim =>
      guard* bool_decide (claim = claim_of i) else KERNEL_AUTHORITY_IDEMPOTENCY_CONFLICT in
      match current with Some r => Ok (Replay r (computeKernelAuthorityPayloadDigest (ai_payload i))) | None => decide_append i s None end
  | _, _ => decide_append i s current
  end.
End Append.

(** ** The in-memory store *)

Record KernelAuthorityStore := { ks_chains : JsMap (list KernelAuthorityEvent); ks_idempotency : JsMap IdempotencyClaim; ks_externalSubjects : JsMap string; ks_closed : bool; ks_calls : nat }.
Definition empty_authority_store : KernelAuthorityStore := {| ks_chains := []; ks_idempotency := []; ks_externalSubjects := []; ks_closed := false; ks_calls := 0 |}.
Record StoreOptions := { op_now : nat → string; op_nextId : nat → string → string; op_runtimeVersion : string }.
Definition chainKey (organizationId : string) (k : KernelAuthorityEntityKind) (entityId : string) : string := organizationId +:+ " " +:+ entity_kind_name k +:+ " " +:+ entityId.
Definition idempotency_map_key (organizationId key : string) : string := organizationId +:+ " " +:+ key.
Definition assertOpen (s : KernelAuthorityStore) : attempt unit := if ks_closed s then Throw KERNEL_AUTHORITY_STORE_UNAVAILABLE else Ok ().
Definition loadChain (organizationId : string) (k : KernelAuthorityEntityKind) (entityId : string) (s : KernelAuthorityStore) : list KernelAuthorityEvent :=
  default [] (map_get (chainKey organizationId k entityId) (ks_chains s)).
Record AppendKernelAuthorityEventResult := { ar_event : option KernelAuthorityEvent; ar_record : KernelAuthorityRecord; ar_replayed : bool }.

Section Store.
Context `{JsHost} (opts : StoreOptions).
Definition declared_subject (i : AppendKernelAuthorityEventInput) : option KernelAuthorityExternalSubject :=
  if bool_decide (ai_entityKind i = ek_actor) && bool_decide (ai_eventType i = KernelAuthorityEntityProvisioned) then readExternalSubject (ai_payload i) else None.
Definition append_state (i : AppendKernelAuthorityEventInput) (s : KernelAuthorityStore) : KernelAuthorityAppendState :=
  {| sa_existingEvents := loadChain (ai_organizationId i) (ai_entityKind i) (ai_entityId i) s;
     sa_idempotencyClaim := ai_idempotencyKey i ≫= λ key, map_get (idempotency_map_key (ai_organizationId i) key) (ks_idempotency s);
     sa_conflictingExternalSubjectActorId :=
       match declared_subject i ≫= λ x, map_get (externalSubjectKey (ai_organizationId i) x) (ks_externalSubjects s) with
       | Some bound => if str_eqb bound (ai_entityId i) then None else Some bound
       | None => None
       end |}.
Definition new_event (i : AppendKernelAuthorityEventInput) (operatorId : string) (sequence : Z) (previous : option string) (n : nat) : KernelAuthorityEvent :=
  let timestamp := op_now opts n in
  buildKernelAuthorityEvent {| ue_eventId := op_nextId opts (S n) "kernel-authority-event"; ue_organizationId := ai_organizationId i; ue_entityKind := ai_entityKind i; ue_entityId := ai_entityId i;
    ue_eventType := ai_eventType i; ue_sequence := sequence; ue_payload := ai_payload i; ue_provisionedBy := operatorId; ue_occurredAt := default timestamp (ai_occurredAt i);
    ue_persistedAt := timestamp; ue_previousEventDigest := previous; ue_schemaVersion := KERNEL_AUTHORITY_SCHEMA_VERSION; ue_runtimeVersion := op_runtimeVersion opts |}.
(** The key is claimed for these terms; a claim that stands is not replaced. *)
Definition claim_key (i : AppendKernelAuthorityEventInput) (replace : bool) (m : JsMap IdempotencyClaim) : JsMap IdempotencyClaim :=
  match ai_idempotencyKey i with
  | Some key => let k := idempotency_map_key (ai_organizationId i) key in if replace || negb (is_some (map_get k m)) then map_set k (claim_of i) m else m
  | None => m
  end.
Definition append_to (i : AppendKernelAuthorityEventInput) (chain : list KernelAuthorityEvent) (s : KernelAuthorityStore) : KernelAuthorityStore :=
  {| ks_chains := map_set (chainKey (ai_organizationId i) (ai_entityKind i) (ai_entityId i)) chain (ks_chains s); ks_idempotency := claim_key i true (ks_idempotency s);
     ks_externalSubjects := match declared_subject i with
       | Some x => map_set (externalSubjectKey (ai_organizationId i) x) (ai_entityId i) (ks_externalSubjects s) | None => ks_externalSubjects s end;
     ks_closed := ks_closed s; ks_calls := S (S (ks_calls s)) |}.
Definition replay_in (i : AppendKernelAuthorityEventInput) (s : KernelAuthorityStore) : KernelAuthorityStore :=
  {| ks_chains := ks_chains s; ks_idempotency := claim_key i false (ks_idempotency s); ks_externalSubjects := ks_externalSubjects s; ks_closed := ks_closed s; ks_calls := ks_calls s |}.
Definition append_decision (x : KernelAuthorityAccessContext) (i : AppendKernelAuthorityEventInput) (s : KernelAuthorityStore) : attempt (string * KernelAuthorityAppendDecision) :=
  let* _ := assertOpen s in
  let* operatorId := requireKernelAuthorityOperator x in
  let* _ := validateKernelAuthorityAppendInput i in
  let* d := decideKernelAuthorityAppend i (append_state i s) in Ok (operatorId, d).
Definition appendEvent (x : KernelAuthorityAccessContext) (i : AppendKernelAuthorityEventInput) (s : KernelAuthorityStore) : attempt AppendKernelAuthorityEventResult * KernelAuthorityStore :=
  let existing := sa_existingEvents (append_state i s) in
  match append_decision x i s with
  | Throw e => (Throw e, s)
  | Ok (_, Replay r _) => (Ok {| ar_event := last existing; ar_record := r; ar_replayed := true |}, replay_in i s)
  | Ok (operatorId, Append sequence previous _) =>
      let e := new_event i operatorId sequence previous (ks_calls s) in
      (let* r := reconstructKernelAuthorityRecord (existing ++ [e]) None in Ok {| ar_event := Some e; ar_record := r; ar_replayed := false |}, append_to i (existing ++ [e]) s)
  end.
Definition getRecord (x : KernelAuthorityAccessContext) (organizationId : string) (k : KernelAuthorityEntityKind) (entityId : string) (s : KernelAuthorityStore) : attempt (option KernelAuthorityRecord) :=
  let* _ := assertOpen s in
  let* _ := requireKernelAuthorityReadAccess x organizationId in
  match loadChain organizationId k entityId s with [] => Ok None | l => let* r := reconstructKernelAuthorityRecord l None in Ok (Some r) end.
Record KernelAuthorityRecordQuery := { kq_organizationId : string; kq_entityKind : option KernelAuthorityEntityKind; kq_trustDomainId : option string; kq_status : option KernelAuthorityEntityStatus }.
Definition of_query (q : KernelAuthorityRecordQuery) (events : list KernelAuthorityEvent) : bool :=
  match events with
  | first :: _ => str_eqb (ue_organizationId (kv_unsigned first)) (kq_organizationId q) && match kq_entityKind q with Some k => bool_decide (ue_entityKind (kv_unsigned first) = k) | None => true end
  | [] => false
  end.
Definition record_of_query (q : KernelAuthorityRecordQuery) (r : KernelAuthorityRecord) : bool :=
  match kq_trustDomainId q with Some t => bool_decide (kr_trustDomainId r = Some t) | None => true end && match kq_status q with Some st => bool_decide (kr_status r = st) | None => true end.
Fixpoint collect_records (q : KernelAuthorityRecordQuery) (chains : list (list KernelAuthorityEvent)) : attempt (list KernelAuthorityRecord) :=
  match chains with
  | [] => Ok []
  | l :: chains =>
      if of_query q l then let* r := reconstructKernelAuthorityRecord l None in let* rs := collect_records q chains in Ok (if record_of_query q r then r :: rs else rs)
      else collect_records q chains
  end.
Definition record_le (a b : KernelAuthorityRecord) : Prop := compareKernelAuthorityRecords a b ≤ 0.
#[export] Instance record_le_dec : RelDecision record_le.
Proof. intros a b. unfold record_le. apply _. Defined.
Definition listRecords (x : KernelAuthorityAccessContext) (q : KernelAuthorityRecordQuery) (s : KernelAuthorityStore) : attempt (list KernelAuthorityRecord) :=
  let* _ := assertOpen s in
  let* _ := requireKernelAuthorityReadAccess x (kq_organizationId q) in
  let* rs := collect_records q (map_values (ks_chains s)) in Ok (merge_sort record_le rs).
Definition listEvents (x : KernelAuthorityAccessContext) (organizationId : string) (k : KernelAuthorityEntityKind) (entityId : string) (s : KernelAuthorityStore) : attempt (list KernelAuthorityEvent) :=
  let* _ := assertOpen s in
  let* _ := requireKernelAuthorityReadAccess x organizationId in Ok (loadChain organizationId k entityId s).
Definition findActorByExternalSubject (x : KernelAuthorityAccessContext) (organizationId : string) (subject : KernelAuthorityExternalSubject) (s : KernelAuthorityStore) : attempt (option KernelAuthorityRecord) :=
  let* _ := assertOpen s in
  let* _ := requireKernelAuthorityReadAccess x organizationId in
  match map_get (externalSubjectKey organizationId subject) (ks_externalSubjects s) with
  | None => Ok None
  | Some actorId => match loadChain organizationId ek_actor actorId s with [] => Ok None | l => let* r := reconstructKernelAuthorityRecord l None in Ok (Some r) end
  end.
Definition store_close (s : KernelAuthorityStore) : KernelAuthorityStore :=
  {| ks_chains := ks_chains s; ks_idempotency := ks_idempotency s; ks_externalSubjects := ks_externalSubjects s; ks_closed := true; ks_calls := ks_calls s |}.
Record KernelAuthorityStoreHealth := { he_healthy : bool; he_readable : bool; he_writable : bool; he_recordCount : nat }.
Definition health (s : KernelAuthorityStore) : KernelAuthorityStoreHealth :=
  {| he_healthy := negb (ks_closed s); he_readable := negb (ks_closed s); he_writable := negb (ks_closed s); he_recordCount := length (ks_chains s) |}.
End Store.

(** ** Provisioning *)

(** The store, and whether a committed event has not reached the live projection. *)
Record ProvisioningState := { ps_store : KernelAuthorityStore; ps_refreshPending : bool }.
(** What the service is composed with; [onCommitted] throws when it answers
    [false]. *)
Record ProvisioningOptions := {
  po_organizationId : string; po_onCommitted : option (nat → bool); po_monetaryAssets : option MonetaryAssetRegistry; po_store : StoreOptions }.
Record KernelAuthorityProvisioningOptions := { vo_idempotencyKey : option string; vo_occurredAt : option string }.
Record KernelAuthorityProvisioningResult := { pw_record : KernelAuthorityRecord; pw_replayed : bool }.
Definition REVOCABLE_ENTITY_KINDS : list KernelAuthorityEntityKind := [ek_actor; ek_passport; ek_capability_token; ek_authority_grant; ek_delegation_grant].
Section Provisioning.
Context `{JsHost} (opts : ProvisioningOptions).
Definition refresh (n : nat) (p : ProvisioningState) (r : AppendKernelAuthorityEventResult) (s : KernelAuthorityStore) : attempt KernelAuthorityProvisioningResult * ProvisioningState :=
  let answer := {| pw_record := ar_record r; pw_replayed := ar_replayed r |} in
  match po_onCommitted opts with
  | Some refreshed =>
      if negb (ar_replayed r) || ps_refreshPending p then
        if refreshed n then (Ok answer, {| ps_store := s; ps_refreshPending := false |}) else (Throw KERNEL_AUTHORITY_REFRESH_FAILED, {| ps_store := s; ps_refreshPending := true |})
      else (Ok answer, {| ps_store := s; ps_refreshPending := ps_refreshPending p |})
  | None => (Ok answer, {| ps_store := s; ps_refreshPending := ps_refreshPending p |})
  end.
Definition provisioning_append (x : KernelAuthorityAccessContext) (k : KernelAuthorityEntityKind) (entityId : string) (t : KernelAuthorityEventType) (payload : Json)
  (o : KernelAuthorityProvisioningOptions) (n : nat) (p : ProvisioningState) : attempt KernelAuthorityProvisioningResult * ProvisioningState :=
  if all_blank entityId then (Throw KERNEL_AUTHORITY_VALIDATION_ERROR, p)
  else
    match appendEvent (po_store opts) x {| ai_organizationId := po_organizationId opts; ai_entityKind := k; ai_entityId := entityId; ai_eventType := t; ai_payload := payload;
            ai_occurredAt := vo_occurredAt o; ai_idempotencyKey := vo_idempotencyKey o |} (ps_store p) with
    | (Throw e, s) => (Throw e, {| ps_store := s; ps_refreshPending := ps_refreshPending p |})
    | (Ok r, s) => refresh n p r s
    end.
Definition normalize (fs : JsMap Json) : Json := JObj (List.filter present fs).
Definition text_field (k : string) (fs : JsMap Json) : string := match map_get k fs with Some (JTxt s) => s | _ => "" end.
(** The id of an entity, as its input states it. *)
Definition entity_id_of (k : KernelAuthorityEntityKind) (fs : JsMap Json) : string :=
  match k with
  | ek_actor => text_field "actorId" fs | ek_trust_domain => text_field "trustDomainId" fs | ek_passport => text_field "passportId" fs
  | ek_capability_token => text_field "capabilityTokenId" fs | ek_root_issuer => text_field "trustDomainId" fs +:+ "::" +:+ text_field "actorId" fs
  | ek_authority_grant => text_field "authorityGrantId" fs | ek_delegation_grant => text_field "delegationGrantId" fs
  end.
Definition checkMonetary (constraints : option Json) : attempt unit :=
  match po_monetaryAssets opts with Some assets => assertKernelAuthorityMonetaryConstraintsWithinRegistry constraints assets | None => Ok () end.
(** The seven methods that provision: a grant's constraints are checked first. *)
Definition provision (x : KernelAuthorityAccessContext) (k : KernelAuthorityEntityKind) (fs : JsMap Json) (o : KernelAuthorityProvisioningOptions) (n : nat) (p : ProvisioningState) :
    attempt KernelAuthorityProvisioningResult * ProvisioningState :=
  match (if carries_authority k then checkMonetary (map_get "constraints" fs) else Ok ()) with
  | Throw e => (Throw e, p)
  | Ok _ => provisioning_append x k (entity_id_of k fs) KernelAuthorityEntityProvisioned (normalize fs) o n p
  end.
Definition provisioning_revoke (x : KernelAuthorityAccessContext) (k : KernelAuthorityEntityKind) (entityId reason : string) (o : KernelAuthorityProvisioningOptions) (n : nat) (p : ProvisioningState) :
    attempt KernelAuthorityProvisioningResult * ProvisioningState :=
  if negb (bool_decide (k ∈ REVOCABLE_ENTITY_KINDS)) then (Throw KERNEL_AUTHORITY_VALIDATION_ERROR, p)
  else if all_blank reason then (Throw KERNEL_AUTHORITY_VALIDATION_ERROR, p)
  else provisioning_append x k entityId KernelAuthorityEntityRevoked (JObj [("reason", JTxt reason)]) o n p.
End Provisioning.
