(* ===== verification/KernelAuthoritySafety.v ===== *)
(** * What the kernel authority store guarantees

    Over [KernelAuthority]: every chain the store holds reads back; what a record
    grants never changes and a revocation is terminal; an append acts on the
    entity it names as a machine with three states and on no other entity, where
    the names of organizations hold no space; one external subject is one actor;
    a reader sees its own organization; and a chain that ends at the recorded head
    is the chain that was written. *)

From S2P Require Import Prelude Decimal Js JsMap Monetary Parameters ExerciseControl StableJson HashChain KernelAuthority.

Local Open Scope Z_scope.
Local Open Scope frontera_scope.

(** ** Names without a separator *)

Fixpoint free_of (c : ascii) (s : string) : bool := match s with EmptyString => true | String d s => negb (bool_decide (d = c)) && free_of c s end.
Lemma split_at c a b x y : free_of c a = true → free_of c b = true → a +:+ String c x = b +:+ String c y → a = b ∧ x = y.
Proof.
  revert b. induction a as [|d a IH]; intros [|d' b]; cbn; intros Ha Hb E; simplify_eq; try done.
  - by rewrite bool_decide_eq_true_2 in Hb.
  - by rewrite bool_decide_eq_true_2 in Ha.
  - apply andb_true_iff in Ha as [_ Ha], Hb as [_ Hb]. match goal with E : _ = _ |- _ => apply IH in E as [-> ->]; done end.
Qed.
Definition spaceless : string → bool := free_of " ".
Lemma kind_spaceless k : spaceless (entity_kind_name k) = true.
Proof. by destruct k. Qed.
Lemma kind_name_inj k k' : entity_kind_name k = entity_kind_name k' → k = k'.
Proof. by destruct k, k'. Qed.
Lemma chainKey_inj o k i o' k' i' : spaceless o = true → spaceless o' = true → chainKey o k i = chainKey o' k' i' → o = o' ∧ k = k' ∧ i = i'.
Proof.
  intros Ho Ho' E. unfold chainKey in E. apply split_at in E as [-> E]; [|done|done]. apply split_at in E as [E ->]; [|apply kind_spaceless|apply kind_spaceless]. apply kind_name_inj in E as ->. done.
Qed.
Lemma externalSubjectKey_inj o x o' x' : free_of (ascii_of_nat 0) o = true → free_of (ascii_of_nat 0) o' = true → free_of (ascii_of_nat 0) (xs_system x) = true →
  free_of (ascii_of_nat 0) (xs_system x') = true → externalSubjectKey o x = externalSubjectKey o' x' → o = o' ∧ x = x'.
Proof.
  intros Ho Ho' Hx Hx' E. unfold externalSubjectKey, nul_text in E. apply split_at in E as [-> E]; [|done|done]. apply split_at in E as [E1 E2]; [|done|done]. destruct x, x'; cbn in *. by subst.
Qed.

Section Chains.
Context `{JsHost}.
Implicit Types (e p r : KernelAuthorityEvent) (s : KernelAuthorityStore) (i : AppendKernelAuthorityEventInput).

(** ** Chains *)

Definition signed e : Prop := kv_eventDigest e = computeKernelAuthorityEventDigest (kv_unsigned e).
Definition keyed (k : string) e : Prop := chainKey (ue_organizationId (kv_unsigned e)) (ue_entityKind (kv_unsigned e)) (ue_entityId (kv_unsigned e)) = k.
Record provisions (k : string) p : Prop := {
  pr_signed : signed p; pr_type : ue_eventType (kv_unsigned p) = KernelAuthorityEntityProvisioned; pr_sequence : ue_sequence (kv_unsigned p) = 1;
  pr_previous : ue_previousEventDigest (kv_unsigned p) = None; pr_keyed : keyed k p }.
Record revokes (k : string) p r : Prop := {
  rv_signed : signed r; rv_type : ue_eventType (kv_unsigned r) = KernelAuthorityEntityRevoked; rv_sequence : ue_sequence (kv_unsigned r) = 2;
  rv_previous : ue_previousEventDigest (kv_unsigned r) = Some (kv_eventDigest p); rv_keyed : keyed k r }.
(** A chain provisions its entity, and may then revoke it. *)
Inductive chain_sound (k : string) : list KernelAuthorityEvent → Prop :=
  | chain_live p : provisions k p → chain_sound k [p]
  | chain_withdrawn p r : provisions k p → revokes k p r → chain_sound k [p; r].
Definition sound s : Prop := ∀ k l, map_get k (ks_chains s) = Some l → chain_sound k l.

Lemma signed_check e : signed e → str_eqb (computeKernelAuthorityEventDigest (kv_unsigned e)) (kv_eventDigest e) = true.
Proof. intros ->. by apply str_eqb_eq. Qed.
Lemma reconstruct_live k p : provisions k p → reconstructKernelAuthorityRecord [p] None = Ok (build_record p p chain_start).
Proof.
  intros [Hs Ht Hq Hp _]. unfold reconstructKernelAuthorityRecord. cbn [last replay_chain at_head]. rewrite Ht, Hq, Hp, (signed_check _ Hs). cbn [result_bind bool_decide].
  rewrite !bool_decide_eq_true_2 by done. cbn [result_bind]. by unfold apply_event; rewrite Ht.
Qed.
Lemma reconstruct_withdrawn k p r : provisions k p → revokes k p r → reconstructKernelAuthorityRecord [p; r] None = Ok (build_record p r (apply_event chain_start (kv_unsigned r))).
Proof.
  intros [Hs Ht Hq Hp _] [Hs' Ht' Hq' Hp' _]. unfold reconstructKernelAuthorityRecord. cbn [last replay_chain at_head].
  rewrite Ht, Hq, Hp, Hq', Hp', (signed_check _ Hs), (signed_check _ Hs'). rewrite !bool_decide_eq_true_2 by done. cbn [result_bind]. by unfold apply_event at 2; rewrite Ht.
Qed.
(** What a chain says of its entity: its status, and what was provisioned. *)
Definition view_of (l : list KernelAuthorityEvent) : option (KernelAuthorityEntityStatus * Json) :=
  match l with
  | [p] => Some (es_active, ue_payload (kv_unsigned p))
  | p :: _ :: _ => Some (es_revoked, ue_payload (kv_unsigned p))
  | [] => None
  end.
Lemma reconstruct_sound k l : chain_sound k l → ∃ rec, reconstructKernelAuthorityRecord l None = Ok rec ∧ view_of l = Some (kr_status rec, kr_payload rec).
Proof.
  intros [p Hp|p r Hp Hr].
  - eexists. split; [by eapply reconstruct_live|done].
  - eexists. split; [by eapply reconstruct_withdrawn|]. cbn [view_of build_record kr_status kr_payload]. unfold apply_event. by rewrite (rv_type _ _ _ Hr).
Qed.
Lemma sound_chain s org k id : sound s → loadChain org k id s = [] ∨ chain_sound (chainKey org k id) (loadChain org k id s).
Proof. intros Hs. unfold loadChain. destruct (map_get _ _) as [l|] eqn:E; [right; by apply Hs|by left]. Qed.
Definition view s org k id : option (KernelAuthorityEntityStatus * Json) := view_of (loadChain org k id s).

(** ** The machine of an entity *)

(** Absent, live with its terms, or withdrawn with its terms. [taken] tells that
    another actor holds the external subject, [claim] what the key was claimed
    for. The answer: whether it is a replay, and the state that follows. *)
Definition entity_step i (taken : bool) (v : option (KernelAuthorityEntityStatus * Json)) : attempt (bool * option (KernelAuthorityEntityStatus * Json)) :=
  match ai_eventType i, v with
  | KernelAuthorityEntityProvisioned, None => if taken then Throw KERNEL_AUTHORITY_EXTERNAL_SUBJECT_CONFLICT else Ok (false, Some (es_active, ai_payload i))
  | KernelAuthorityEntityProvisioned, Some (es_active, terms) =>
      if str_eqb (computeKernelAuthorityPayloadDigest terms) (computeKernelAuthorityPayloadDigest (ai_payload i)) then Ok (true, v) else Throw KERNEL_AUTHORITY_ENTITY_CONFLICT
  | KernelAuthorityEntityProvisioned, Some (es_revoked, _) => Throw KERNEL_AUTHORITY_ENTITY_REVOKED
  | KernelAuthorityEntityRevoked, None => Throw KERNEL_AUTHORITY_ENTITY_NOT_FOUND
  | KernelAuthorityEntityRevoked, Some (es_active, terms) => Ok (false, Some (es_revoked, terms))
  | KernelAuthorityEntityRevoked, Some (es_revoked, _) => Ok (true, v)
  end.
Definition entity_machine i (taken : bool) (claim : option IdempotencyClaim) (v : option (KernelAuthorityEntityStatus * Json)) : attempt (bool * option (KernelAuthorityEntityStatus * Json)) :=
  match ai_idempotencyKey i, claim with
  | Some _, Some c => if bool_decide (c = claim_of i) then match v with Some _ => Ok (true, v) | None => entity_step i taken v end else Throw KERNEL_AUTHORITY_IDEMPOTENCY_CONFLICT
  | _, _ => entity_step i taken v
  end.

Context (opts : StoreOptions).
Definition chain_of i s : list KernelAuthorityEvent := loadChain (ai_organizationId i) (ai_entityKind i) (ai_entityId i) s.
Definition key_of i : string := chainKey (ai_organizationId i) (ai_entityKind i) (ai_entityId i).
Definition taken i s : bool := is_some (sa_conflictingExternalSubjectActorId (append_state i s)).
Definition claim_on i s : option IdempotencyClaim := sa_idempotencyClaim (append_state i s).
(** The decision of the rules follows the machine. *)
Lemma step_decides i s v : sound s → v = view_of (chain_of i s) →
  ∃ current, match chain_of i s with [] => Ok None | l => let* rec := reconstructKernelAuthorityRecord l None in Ok (Some rec) end = Ok current ∧
    v = (λ rec, (kr_status rec, kr_payload rec)) <$> current ∧
    match entity_step i (taken i s) v with
    | Throw e => decide_append i (append_state i s) current = Throw e
    | Ok (true, v') => v' = v ∧ ∃ rec d, decide_append i (append_state i s) current = Ok (Replay rec d)
    | Ok (false, v') => ∃ n prev d, decide_append i (append_state i s) current = Ok (Append n prev d) ∧
        ∀ op c, chain_sound (key_of i) (chain_of i s ++ [new_event opts i op n prev c]) ∧ view_of (chain_of i s ++ [new_event opts i op n prev c]) = v'
    end.
Proof.
  intros Hs ->. unfold chain_of. destruct (sound_chain s (ai_organizationId i) (ai_entityKind i) (ai_entityId i) Hs) as [El|Hl].
  - rewrite El. exists None. split; [done|]. split; [done|]. unfold entity_step, decide_append, taken. cbn [view_of]. destruct (ai_eventType i) eqn:Et; [|done].
    destruct (sa_conflictingExternalSubjectActorId _); cbn [is_some]; [done|]. do 3 eexists. split; [done|]. intros op c. split; [|done]. apply chain_live. by split.
  - assert (sa_existingEvents (append_state i s) = loadChain (ai_organizationId i) (ai_entityKind i) (ai_entityId i) s) as Ee by done.
    destruct Hl as [p Hp|p r Hp Hr]; (eexists; split; [first [rewrite (reconstruct_live _ _ Hp)|rewrite (reconstruct_withdrawn _ _ _ Hp Hr)]; done|]).
    + split; [done|]. unfold entity_step, decide_append. cbn [view_of build_record kr_status kr_payload chain_start cs_status]. destruct (ai_eventType i) eqn:Et.
      * rewrite bool_decide_eq_false_2 by done. cbn [negb]. destruct (str_eqb _ _); [|done]. split; [done|]. by do 2 eexists.
      * rewrite bool_decide_eq_false_2 by done. rewrite Ee. do 3 eexists. split; [done|]. intros op c. split; [|done]. apply chain_withdrawn; [done|]. by split.
    + unfold apply_event. rewrite (rv_type _ _ _ Hr). cbn [view_of build_record kr_status kr_payload cs_status fmap option_fmap option_map]. split; [done|]. unfold entity_step, decide_append.
      destruct (ai_eventType i) eqn:Et; cbn [kr_status build_record cs_status]; [done|]. split; [done|]. by do 2 eexists.
Qed.
Lemma machine_decides i s : sound s →
  match entity_machine i (taken i s) (claim_on i s) (view_of (chain_of i s)) with
  | Throw e => decideKernelAuthorityAppend i (append_state i s) = Throw e
  | Ok (true, v') => v' = view_of (chain_of i s) ∧ ∃ rec d, decideKernelAuthorityAppend i (append_state i s) = Ok (Replay rec d)
  | Ok (false, v') => ∃ n prev d, decideKernelAuthorityAppend i (append_state i s) = Ok (Append n prev d) ∧
      ∀ op c, chain_sound (key_of i) (chain_of i s ++ [new_event opts i op n prev c]) ∧ view_of (chain_of i s ++ [new_event opts i op n prev c]) = v'
  end.
Proof.
  intros Hs. destruct (step_decides i s _ Hs eq_refl) as (current&Ec&Ev&Hstep). unfold decideKernelAuthorityAppend, entity_machine, claim_on.
  change (sa_existingEvents (append_state i s)) with (chain_of i s). rewrite Ec. cbn [result_bind]. destruct (ai_idempotencyKey i) as [key|]; [|exact Hstep].
  destruct (sa_idempotencyClaim _) as [c|]; [|exact Hstep]. destruct (bool_decide (c = claim_of i)); [|done]. destruct current as [rec|].
  - rewrite Ev. cbn [fmap option_fmap option_map]. split; [done|]. by do 2 eexists.
  - rewrite Ev in *. exact Hstep.
Qed.

(** The call is one the store considers: it is open, the caller is a named
    operator, the input is valid. *)
Definition considered (x : KernelAuthorityAccessContext) i s (op : string) : Prop := assertOpen s = Ok () ∧ requireKernelAuthorityOperator x = Ok op ∧ validateKernelAuthorityAppendInput i = Ok ().
Lemma append_refused x i s : (∀ op, ¬ considered x i s op) → ∃ code, appendEvent opts x i s = (Throw code, s).
Proof.
  unfold considered, appendEvent, append_decision. intros Hn. destruct (assertOpen s) as [[]|e]; cbn [result_bind]; [|by exists e].
  destruct (requireKernelAuthorityOperator x) as [op|e]; cbn [result_bind]; [|by exists e]. destruct (validateKernelAuthorityAppendInput i) as [[]|e]; cbn [result_bind]; [|by exists e]. by destruct (Hn op).
Qed.
Lemma append_refines x i s op : sound s → considered x i s op →
  match entity_machine i (taken i s) (claim_on i s) (view_of (chain_of i s)) with
  | Throw code => appendEvent opts x i s = (Throw code, s)
  | Ok (replayed, v') => ∃ res s', appendEvent opts x i s = (Ok res, s') ∧ ar_replayed res = replayed ∧ view_of (chain_of i s') = v' ∧ sound s' ∧
      chain_of i s `prefix_of` chain_of i s' ∧ ∀ k, k ≠ key_of i → map_get k (ks_chains s') = map_get k (ks_chains s)
  end.
Proof.
  intros Hs (H1&H2&H3). pose proof (machine_decides i s Hs) as Hm. unfold appendEvent, append_decision. rewrite H1, H2, H3. cbn [result_bind].
  destruct (entity_machine _ _ _ _) as [[[] v']|e].
  - destruct Hm as (->&rec&d&->). cbn [result_bind]. do 2 eexists. split; [reflexivity|]. by split_and!.
  - destruct Hm as (n&prev&d&->&Hx). cbn [result_bind]. set (e := new_event opts i op n prev (ks_calls s)). destruct (Hx op (ks_calls s)) as [Hc Hv]. fold e in Hc, Hv.
    destruct (reconstruct_sound _ _ Hc) as (rec&Er&_). change (sa_existingEvents (append_state i s)) with (chain_of i s). rewrite Er. cbn [result_bind]. do 2 eexists. split; [reflexivity|].
    assert (chain_of i (append_to i (chain_of i s ++ [e]) s) = chain_of i s ++ [e]) as Ech by (unfold chain_of, loadChain at 1, append_to; cbn [ks_chains]; by rewrite map_get_set_eq).
    rewrite Ech. split_and!; [done|done| |by eexists|].
    + intros k l. unfold append_to. cbn [ks_chains]. rewrite map_get_set. destruct (str_eqb _ k) eqn:Ek; [apply str_eqb_eq in Ek as <-; by intros [= <-]|apply Hs].
    + intros k Hk. unfold append_to. cbn [ks_chains]. by apply map_get_set_ne.
  - rewrite Hm. done.
Qed.

(** ** Histories *)

Inductive store_operation := so_append (x : KernelAuthorityAccessContext) (i : AppendKernelAuthorityEventInput) | so_close.
Definition store_operate (o : store_operation) s : KernelAuthorityStore := match o with so_append x i => (appendEvent opts x i s).2 | so_close => store_close s end.
Definition store_history (os : list store_operation) s : KernelAuthorityStore := fold_left (λ s o, store_operate o s) os s.
(** Chains only grow. *)
Definition extends_store s s' : Prop := ∀ k l, map_get k (ks_chains s) = Some l → ∃ l', map_get k (ks_chains s') = Some l' ∧ l `prefix_of` l'.
#[local] Instance extends_store_preorder : PreOrder extends_store.
Proof. split; [intros s k l Hl; by exists l|]. intros a b c Hab Hbc k l Hl. destruct (Hab k l Hl) as (l1&H1&P1), (Hbc k l1 H1) as (l2&H2&P2). exists l2. split; [done|by transitivity l1]. Qed.
Lemma append_cases x i s : sound s → sound (appendEvent opts x i s).2 ∧ extends_store s (appendEvent opts x i s).2.
Proof.
  intros Hs. assert ((∃ op, considered x i s op) ∨ ∀ op, ¬ considered x i s op) as [[op Hc]|Hn].
  { unfold considered. destruct (requireKernelAuthorityOperator x) as [op|e]; [|right; by intros ? (_&?&_)]. destruct (assertOpen s) as [[]|]; [|right; by intros ? (?&_)].
    destruct (validateKernelAuthorityAppendInput i) as [[]|]; [left; by exists op|right; by intros ? (_&_&?)]. }
  - pose proof (append_refines x i s op Hs Hc) as Hm. destruct (entity_machine _ _ _ _) as [[rep v']|e]; [|by rewrite Hm].
    destruct Hm as (res&s'&->&_&_&Hs'&Hp&Ho). cbn [snd]. split; [done|]. intros k l Hl. destruct (decide (k = key_of i)) as [->|Hk]; [|exists l; by rewrite Ho].
    unfold chain_of, loadChain in Hp. fold (key_of i) in Hp. rewrite Hl in Hp. cbn [default from_option] in Hp. destruct (map_get (key_of i) (ks_chains s')) as [l'|]; [by exists l'|].
    destruct (Hs _ _ Hl); by apply prefix_nil_not in Hp.
  - destruct (append_refused x i s Hn) as [e ->]. done.
Qed.
Lemma operate_cases o s : sound s → sound (store_operate o s) ∧ extends_store s (store_operate o s).
Proof. intros Hs. destruct o as [x i|]; [by apply append_cases|]. split; [exact Hs|]. intros k l Hl. by exists l. Qed.
Lemma history_sound os s : sound s → sound (store_history os s) ∧ extends_store s (store_history os s).
Proof.
  revert s. induction os as [|o os IH]; intros s Hs; [done|]. destruct (operate_cases o s Hs) as [H1 H2]. destruct (IH _ H1) as [H3 H4]. split; [done|]. by transitivity (store_operate o s).
Qed.
Lemma empty_sound : sound empty_authority_store.
Proof. by intros k l. Qed.

(** An operation grows the chain of the entity it names by nothing or one event. *)
Lemma view_grows l l' k : chain_sound k l → chain_sound k l' → l `prefix_of` l' → ∀ st terms, view_of l = Some (st, terms) → ∃ st', view_of l' = Some (st', terms) ∧ (st = es_revoked → st' = es_revoked).
Proof.
  intros Hl Hl' Hp st terms. destruct Hl as [p _|p r _ _]; cbn [view_of]; intros [= <- <-].
  - destruct Hl' as [p' _|p' r' _ _]; cbn [view_of]; apply prefix_cons_inv_1 in Hp as <-; by eexists.
  - destruct Hl' as [p' _|p' r' _ _].
    + apply prefix_length in Hp. cbn in Hp. lia.
    + cbn [view_of]. apply prefix_cons_inv_1 in Hp as <-. by eexists.
Qed.
Lemma view_history os s org k id st terms : sound s → view s org k id = Some (st, terms) →
  ∃ st', view (store_history os s) org k id = Some (st', terms) ∧ (st = es_revoked → st' = es_revoked).
Proof.
  intros Hs Hv. destruct (history_sound os s Hs) as [Hs' Hx]. unfold view, loadChain in *. destruct (map_get _ (ks_chains s)) as [l|] eqn:El; [|done]. destruct (Hx _ _ El) as (l'&El'&Hp). rewrite El'.
  apply (view_grows l l' (chainKey org k id)); [by apply Hs|by apply Hs'|done|done].
Qed.
Lemma view_read s org k id x st terms : sound s → view s org k id = Some (st, terms) → assertOpen s = Ok () → requireKernelAuthorityReadAccess x org = Ok () →
  ∃ rec, getRecord x org k id s = Ok (Some rec) ∧ kr_status rec = st ∧ kr_payload rec = terms.
Proof.
  intros Hs Hv Ho Hx. unfold getRecord. rewrite Ho, Hx. cbn [result_bind]. unfold view in Hv. destruct (sound_chain s org k id Hs) as [El|Hl]; [by rewrite El in Hv|].
  destruct (reconstruct_sound _ _ Hl) as (rec&Er&Ev). rewrite Ev in Hv. injection Hv as <- <-. exists rec. split; [|done]. destruct (loadChain org k id s) eqn:El; [inversion Hl|]. by rewrite Er.
Qed.

(** ** One actor per external subject *)

Definition subjects_bound s : Prop := ∀ k p l x, map_get k (ks_chains s) = Some (p :: l) → ue_entityKind (kv_unsigned p) = ek_actor → readExternalSubject (ue_payload (kv_unsigned p)) = Some x →
  map_get (externalSubjectKey (ue_organizationId (kv_unsigned p)) x) (ks_externalSubjects s) = Some (ue_entityId (kv_unsigned p)).
Lemma append_first i (a : KernelAuthorityAppendState) n prev d : decideKernelAuthorityAppend i a = Ok (Append n prev d) → ai_eventType i = KernelAuthorityEntityProvisioned →
  sa_existingEvents a = [] ∧ sa_conflictingExternalSubjectActorId a = None.
Proof.
  unfold decideKernelAuthorityAppend. intros (current&Ec&E)%result_bind_Ok Et. assert (decide_append i a current = Ok (Append n prev d)) as E'.
  { destruct (ai_idempotencyKey i); [|done]. destruct (sa_idempotencyClaim a); [|done]. destruct (bool_decide _); [|done]. by destruct current. }
  unfold decide_append in E'. rewrite Et in E'. destruct current as [rec|].
  - destruct (negb _); [|done]. by destruct (str_eqb _ _).
  - split; [|by destruct (sa_conflictingExternalSubjectActorId a)]. destruct (sa_existingEvents a) as [|e l]; [done|]. by destruct (reconstructKernelAuthorityRecord (e :: l) None).
Qed.
Lemma append_bound x i s : subjects_bound s → subjects_bound (appendEvent opts x i s).2.
Proof.
  intros Hb. unfold appendEvent. destruct (append_decision x i s) as [[op [rec d|n prev d]]|e] eqn:Ed; [exact Hb| |exact Hb]. cbn [snd].
  unfold append_decision in Ed. apply result_bind_Ok in Ed as (?&_&Ed). apply result_bind_Ok in Ed as (op'&_&Ed). apply result_bind_Ok in Ed as (?&_&Ed). apply result_bind_Ok in Ed as (d'&Ed&[= -> ->]).
  set (e := new_event opts i op n prev (ks_calls s)). change (sa_existingEvents (append_state i s)) with (chain_of i s) in *.
  assert (declared_subject i = None ∨ ai_eventType i = KernelAuthorityEntityProvisioned) as Hd by (unfold declared_subject; destruct (ai_eventType i); [by right|left; by rewrite andb_false_r]).
  assert (∀ k v, map_get k (ks_externalSubjects s) = Some v → map_get k (ks_externalSubjects (append_to i (chain_of i s ++ [e]) s)) = Some v) as Hkeep.
  { intros k v Hk. unfold append_to. cbn [ks_externalSubjects]. destruct Hd as [->|Hp]; [done|]. destruct (append_first _ _ _ _ _ Ed Hp) as [_ Hc]. cbn [append_state sa_conflictingExternalSubjectActorId] in Hc.
    destruct (declared_subject i) as [y|]; [|done]. rewrite map_get_set. destruct (str_eqb _ k) eqn:Ek; [|done]. apply str_eqb_eq in Ek as <-. cbn [mbind option_bind] in Hc. rewrite Hk in Hc.
    destruct (str_eqb v (ai_entityId i)) eqn:Ev; [|done]. by apply str_eqb_eq in Ev as ->. }
  intros k p l y. unfold append_to at 1. cbn [ks_chains]. rewrite map_get_set. destruct (str_eqb _ k) eqn:Ek; [|intros Hl Hk Hy; apply Hkeep; by eapply Hb].
  intros [= El] Hk Hy. destruct (chain_of i s) as [|p0 l0] eqn:Ech; cbn [app] in El.
  - injection El as <- <-. cbn [e new_event buildKernelAuthorityEvent kv_unsigned ue_entityKind ue_payload ue_organizationId ue_entityId] in *. assert (ai_eventType i = KernelAuthorityEntityProvisioned) as Hp.
    { destruct (ai_eventType i) eqn:Et; [done|]. unfold decideKernelAuthorityAppend in Ed. change (sa_existingEvents (append_state i s)) with (chain_of i s) in Ed. rewrite Ech in Ed. cbn [result_bind] in Ed.
      unfold decide_append in Ed. rewrite Et in Ed. destruct (ai_idempotencyKey i); [|done]. destruct (sa_idempotencyClaim _); [|done]. by destruct (bool_decide _). }
    unfold append_to, declared_subject. cbn [ks_externalSubjects]. rewrite Hk, Hp, !bool_decide_eq_true_2 by done. cbn [andb]. rewrite Hy. apply map_get_set_eq.
  - injection El as <- <-. apply Hkeep. unfold chain_of, loadChain in Ech. fold (key_of i) in Ech, Ek. apply str_eqb_eq in Ek as <-. destruct (map_get (key_of i) (ks_chains s)) as [l1|] eqn:Em; [|done].
    cbn in Ech. subst l1. by eapply Hb.
Qed.
Lemma history_bound os s : subjects_bound s → subjects_bound (store_history os s).
Proof. revert s. induction os as [|o os IH]; intros s Hs; [done|]. apply IH. destruct o as [x i|]; [by apply append_bound|exact Hs]. Qed.

(** ** Tampering *)

(** The same event, up to the order in which its payload is written. *)
Definition same_unsigned (a b : UnsignedEvent) : Prop :=
  ue_eventId a = ue_eventId b ∧ ue_organizationId a = ue_organizationId b ∧ ue_entityKind a = ue_entityKind b ∧ ue_entityId a = ue_entityId b ∧ ue_eventType a = ue_eventType b ∧
  ue_sequence a = ue_sequence b ∧ normal (ue_payload a) = normal (ue_payload b) ∧ ue_provisionedBy a = ue_provisionedBy b ∧ ue_occurredAt a = ue_occurredAt b ∧ ue_persistedAt a = ue_persistedAt b ∧
  ue_previousEventDigest a = ue_previousEventDigest b.
Lemma event_type_name_inj t t' : event_type_name t = event_type_name t' → t = t'.
Proof. by destruct t, t'. Qed.
Lemma unsigned_json_inj a b : normal (unsigned_json a) = normal (unsigned_json b) → same_unsigned a b.
Proof.
  intros E. unfold unsigned_json in E. unfold same_unsigned. split; [field @same_text E "eventId"|]. split; [field @same_text E "organizationId"|].
  split; [apply kind_name_inj; field @same_text E "entityKind"|]. split; [field @same_text E "entityId"|]. split; [apply event_type_name_inj; field @same_text E "eventType"|].
  split; [assert (normal (JNo (ue_sequence a)) = normal (JNo (ue_sequence b))) as F by (field @same_value E "sequence"); by injection F|]. split; [field @same_value E "payload"|].
  split; [field @same_text E "provisionedBy"|]. split; [field @same_text E "occurredAt"|]. split; [field @same_text E "persistedAt"|field @same_option E "previousEventDigest"].
Qed.
(** No two of these events are serialized differently and share a digest. *)
Definition digests_distinguish (l l' : list KernelAuthorityEvent) : Prop := ∀ e e', e ∈ l → e' ∈ l' →
  computeKernelAuthorityEventDigest (kv_unsigned e) = computeKernelAuthorityEventDigest (kv_unsigned e') → canonicalSerialize (unsigned_json (kv_unsigned e)) = canonicalSerialize (unsigned_json (kv_unsigned e')).
Fixpoint links (prev : option string) (l : list KernelAuthorityEvent) : Prop :=
  match l with [] => True | e :: l => ue_previousEventDigest (kv_unsigned e) = prev ∧ signed e ∧ links (Some (kv_eventDigest e)) l end.
Lemma links_snoc prev l e : links prev (l ++ [e]) ↔ links prev l ∧ ue_previousEventDigest (kv_unsigned e) = (match last l with Some x => Some (kv_eventDigest x) | None => prev end) ∧ signed e.
Proof.
  revert prev. induction l as [|x l IH]; intros prev; cbn [app links]; [cbn; tauto|]. rewrite IH. destruct l as [|y l]; [cbn; tauto|]. rewrite last_cons_cons. destruct (last (y :: l)) eqn:E; [tauto|]. by apply last_None in E.
Qed.
Lemma replay_links n prev st l st' : replay_chain n prev st l = Ok st' → links prev l.
Proof.
  revert n prev st. induction l as [|e l IH]; intros n prev st; [done|]. cbn [replay_chain links]. destruct (_ =? _); [|done]. destruct (bool_decide _) eqn:E1; [|done]. destruct (str_eqb _ _) eqn:E2; [|done].
  intros E%IH. apply bool_decide_eq_true in E1. apply str_eqb_eq in E2. done.
Qed.
Lemma links_determined l l' : links None l → links None l' → digests_distinguish l l' → kv_eventDigest <$> last l = kv_eventDigest <$> last l' →
  Forall2 (λ e e', same_unsigned (kv_unsigned e) (kv_unsigned e') ∧ kv_eventDigest e = kv_eventDigest e') l l'.
Proof.
  revert l'. induction l as [|x l IH] using rev_ind; intros l' Hl Hl' Hd Hh; destruct l' as [|y l' _] using rev_ind; rewrite ?last_snoc in Hh; [done|done|done|].
  injection Hh as Hh. apply links_snoc in Hl as (Hl&Hpx&Hx), Hl' as (Hl'&Hpy&Hy). assert (same_unsigned (kv_unsigned x) (kv_unsigned y)) as Exy.
  { apply unsigned_json_inj, stableStringify_inj; [done|done|]. apply (Hd x y); [set_solver|set_solver|]. by rewrite <-Hx, <-Hy. }
  apply Forall2_app; [|by apply Forall2_cons_2; [split|apply Forall2_nil_2]]. apply IH; [done|done| |].
  - intros a b Ha Hb. apply Hd; set_solver.
  - destruct Exy as (_&_&_&_&_&_&_&_&_&_&Ep). rewrite Hpx, Hpy in Ep. destruct (last l), (last l'); cbn; congruence.
Qed.
Lemma reconstruct_head l head rec : reconstructKernelAuthorityRecord l (Some head) = Ok rec → links None l ∧ kv_eventDigest <$> last l = Some (hd_latestEventDigest head).
Proof.
  unfold reconstructKernelAuthorityRecord. destruct l as [|e l]; [done|]. destruct (last (e :: l)) as [latest|] eqn:El; [|done]. destruct (bool_decide _); [|done].
  intros (st&Er&E)%result_bind_Ok. destruct (at_head (Some head) latest) eqn:Eh; [|done]. cbn [at_head] in Eh. apply andb_true_iff in Eh as [_ Eh%str_eqb_eq]. split; [by eapply replay_links|]. cbn. by rewrite Eh.
Qed.
Definition same_events : list KernelAuthorityEvent → list KernelAuthorityEvent → Prop := Forall2 (λ e e', same_unsigned (kv_unsigned e) (kv_unsigned e') ∧ kv_eventDigest e = kv_eventDigest e').
Lemma replay_same l l' : same_events l l' → ∀ n prev prev' st st' a b, cs_status st = cs_status st' → replay_chain n prev st l = Ok a → replay_chain n prev' st' l' = Ok b → cs_status a = cs_status b.
Proof.
  induction 1 as [|e e' l l' [He _] _ IH]; intros n prev prev' st st' a b Hst; cbn [replay_chain]; [by intros [= <-] [= <-]|].
  do 2 (destruct (_ =? _); [|done]; destruct (bool_decide _); [|done]; destruct (str_eqb _ _); [|done]; intros Ea; revert Ea). intros Ea Eb. eapply IH; [|exact Ea|exact Eb].
  unfold apply_event. destruct He as (_&_&_&_&->&_). by destruct (ue_eventType (kv_unsigned e')).
Qed.
Lemma reconstruct_same l l' head rec rec' : same_events l l' → reconstructKernelAuthorityRecord l head = Ok rec → reconstructKernelAuthorityRecord l' head = Ok rec' →
  kr_organizationId rec = kr_organizationId rec' ∧ kr_entityKind rec = kr_entityKind rec' ∧ kr_entityId rec = kr_entityId rec' ∧ kr_status rec = kr_status rec' ∧
  normal (kr_payload rec) = normal (kr_payload rec').
Proof.
  intros Hs. unfold reconstructKernelAuthorityRecord. destruct Hs as [|e e' l l' He Hs]; [done|]. destruct (last (e :: l)); [|done]. destruct (bool_decide _); [|done]. intros (st&Er&E)%result_bind_Ok.
  destruct (last (e' :: l')); [|done]. destruct (bool_decide _); [|done]. intros (st'&Er'&E')%result_bind_Ok. destruct (at_head _ _); [|done]. destruct (at_head _ _); [|done]. injection E as <-. injection E' as <-.
  pose proof He as [(_&H1&H2&H3&_&_&H4&_) _]. split_and!; try done. cbn [build_record kr_status]. by eapply (replay_same (e :: l) (e' :: l')); [by constructor| |exact Er|exact Er'].
Qed.

(** ** Reading *)

Lemma collect_exact q chains : (∀ l, l ∈ chains → ∃ k, chain_sound k l) →
  ∃ rs, collect_records q chains = Ok rs ∧ ∀ rec, rec ∈ rs ↔ ∃ l, l ∈ chains ∧ of_query q l = true ∧ reconstructKernelAuthorityRecord l None = Ok rec ∧ record_of_query q rec = true.
Proof.
  induction chains as [|l chains IH]; intros Hs; [exists []; split; [done|]; intros rec; split; [by intros ?%not_elem_of_nil|by intros (l&?%not_elem_of_nil&_)]|].
  destruct IH as (rs&Ers&Hrs); [intros l' Hl'; apply Hs; by right|]. destruct (Hs l ltac:(by left)) as [k Hk]. destruct (reconstruct_sound k l Hk) as (r0&Er&_). cbn [collect_records]. rewrite Er, Ers. cbn [result_bind].
  destruct (of_query q l) eqn:Eq; [destruct (record_of_query q r0) eqn:Eo|]; eexists; (split; [done|]); intros rec.
  - rewrite elem_of_cons, Hrs. split; [intros [->|(l'&?&?)]; [exists l; by split; [left|]|exists l'; by split; [right|]]|].
    intros (l'&[->|Hl']%elem_of_cons&H1&H2&H3); [left; congruence|right; by exists l'].
  - rewrite Hrs. split; [intros (l'&?&?); exists l'; by split; [right|]|]. intros (l'&[->|Hl']%elem_of_cons&H1&H2&H3); [congruence|by exists l'].
  - rewrite Hrs. split; [intros (l'&?&?); exists l'; by split; [right|]|]. intros (l'&[->|Hl']%elem_of_cons&H1&H2&H3); [congruence|by exists l'].
Qed.
Lemma reconstruct_organization l rec q : reconstructKernelAuthorityRecord l None = Ok rec → of_query q l = true → kr_organizationId rec = kq_organizationId q.
Proof.
  unfold reconstructKernelAuthorityRecord, of_query. destruct l as [|e l]; [done|]. destruct (last (e :: l)); [|done]. destruct (bool_decide _); [|done]. intros (st&_&E)%result_bind_Ok. cbn [at_head] in E. injection E as <-.
  intros [E%str_eqb_eq _]%andb_true_iff. done.
Qed.
End Chains.

(** ** Claims *)

(** C18. An append acts on the entity it names as a machine with three states:
    absent, live with its terms, withdrawn with its terms. A call the store
    considers is refused with the machine's error and changes nothing, or answers
    as the machine does and leaves the entity in the machine's next state; where
    organization names hold no space, every other entity stays as it was. Any
    other call is refused and changes nothing. *)
Theorem authority_append_refines `{JsHost} (opts : StoreOptions) os x i :
  let s := store_history opts os empty_authority_store in let v := view s (ai_organizationId i) (ai_entityKind i) (ai_entityId i) in
  ((∃ op, considered x i s op) → match entity_machine i (taken i s) (claim_on i s) v with
    | Throw code => appendEvent opts x i s = (Throw code, s)
    | Ok (replayed, v') => ∃ res s', appendEvent opts x i s = (Ok res, s') ∧ ar_replayed res = replayed ∧ view s' (ai_organizationId i) (ai_entityKind i) (ai_entityId i) = v' ∧
        ∀ org k id, spaceless org = true → spaceless (ai_organizationId i) = true → (org, k, id) ≠ (ai_organizationId i, ai_entityKind i, ai_entityId i) → view s' org k id = view s org k id
    end) ∧
  ((∀ op, ¬ considered x i s op) → ∃ code, appendEvent opts x i s = (Throw code, s)).
Proof.
  intros s v. destruct (history_sound opts os _ empty_sound) as [Hs _]. fold s in Hs. split; [|apply append_refused]. intros [op Hc]. pose proof (append_refines opts x i s op Hs Hc) as Hm.
  change (view_of (chain_of i s)) with v in Hm. destruct (entity_machine _ _ _ v) as [[replayed v']|code]; [|exact Hm].
  destruct Hm as (res&s'&E&Hr&Hv&_&_&Ho). exists res, s'. split_and!; [done|done|exact Hv|]. intros org k id H1 H2 Hne. unfold view, loadChain. rewrite Ho; [done|].
  intros (->&->&->)%chainKey_inj; done.
Qed.

(** C19. Authority only narrows: what an entity was provisioned with never changes,
    and a revoked one stays revoked, whatever appends follow; and while the store
    is open, a caller that may read the organization reads exactly that: no chain
    the store wrote fails its integrity check. *)
Theorem authority_only_narrows `{JsHost} (opts : StoreOptions) os os' x org k id st terms :
  let s := store_history opts os empty_authority_store in let s' := store_history opts os' s in
  view s org k id = Some (st, terms) →
  ∃ st', view s' org k id = Some (st', terms) ∧ (st = es_revoked → st' = es_revoked) ∧
    (assertOpen s' = Ok () → requireKernelAuthorityReadAccess x org = Ok () → ∃ rec, getRecord x org k id s' = Ok (Some rec) ∧ kr_status rec = st' ∧ kr_payload rec = terms).
Proof.
  intros s s' Hv. destruct (history_sound opts os _ empty_sound) as [Hs _]. fold s in Hs. destruct (view_history opts os' s org k id st terms Hs Hv) as (st'&Hv'&Hr). fold s' in Hv'. exists st'. split_and!; [done|done|].
  intros Ho Hx. apply view_read; [by apply history_sound|done|done|done].
Qed.

(** C20. The head of a chain vouches for it: two chains that read back under the
    same recorded head hold the same events in the same order, and give the same
    entity, status and terms, as long as the digest tells apart what they hold. *)
Theorem authority_chain_determined `{JsHost} l l' head rec rec' :
  reconstructKernelAuthorityRecord l (Some head) = Ok rec → reconstructKernelAuthorityRecord l' (Some head) = Ok rec' → digests_distinguish l l' →
  same_events l l' ∧ kr_organizationId rec = kr_organizationId rec' ∧ kr_entityKind rec = kr_entityKind rec' ∧ kr_entityId rec = kr_entityId rec' ∧ kr_status rec = kr_status rec' ∧
  normal (kr_payload rec) = normal (kr_payload rec').
Proof.
  intros Er Er' Hd. assert (same_events l l') as Hs; [|split; [done|by eapply reconstruct_same]]. destruct (reconstruct_head _ _ _ Er) as [Hl Hh], (reconstruct_head _ _ _ Er') as [Hl' Hh'].
  apply links_determined; [done|done|done|]. by rewrite Hh, Hh'.
Qed.

(** One external subject is one actor: in any store the operations can reach,
    two actors of an organization that were provisioned with the same external
    subject are the same actor, and the lookup by subject names it. *)
Theorem one_actor_per_subject `{JsHost} (opts : StoreOptions) os k p l k' p' l' x :
  let s := store_history opts os empty_authority_store in
  map_get k (ks_chains s) = Some (p :: l) → map_get k' (ks_chains s) = Some (p' :: l') → ue_organizationId (kv_unsigned p) = ue_organizationId (kv_unsigned p') →
  ue_entityKind (kv_unsigned p) = ek_actor → ue_entityKind (kv_unsigned p') = ek_actor →
  readExternalSubject (ue_payload (kv_unsigned p)) = Some x → readExternalSubject (ue_payload (kv_unsigned p')) = Some x →
  k = k' ∧ p = p' ∧ map_get (externalSubjectKey (ue_organizationId (kv_unsigned p)) x) (ks_externalSubjects s) = Some (ue_entityId (kv_unsigned p)).
Proof.
  intros s Hk Hk' Ho Hp Hp' Hx Hx'. destruct (history_sound opts os _ empty_sound) as [Hs _]. fold s in Hs. assert (subjects_bound s) as Hb by (by apply history_bound).
  pose proof (Hb _ _ _ _ Hk Hp Hx) as E. pose proof (Hb _ _ _ _ Hk' Hp' Hx') as E'. rewrite <-Ho, E in E'. injection E' as E'. assert (∀ k p l, map_get k (ks_chains s) = Some (p :: l) → keyed k p) as Hkey.
  { intros k0 p0 l0 H0. specialize (Hs _ _ H0). inversion Hs as [? Hpr|? ? Hpr]; subst; apply Hpr. }
  assert (k = k') as <- by (rewrite <-(Hkey _ _ _ Hk), <-(Hkey _ _ _ Hk'); by rewrite Ho, Hp, Hp', E'). split; [done|]. rewrite Hk in Hk'. by injection Hk' as <- <-.
Qed.

Module KernelAuthorityDemo.

#[local] Existing Instance demo_host.

Definition options : StoreOptions := {| op_now := λ _, "2026-01-01"; op_nextId := λ n prefix, prefix +:+ "-" +:+ text (bigint_to_string (Z.of_nat n)); op_runtimeVersion := AOC_KERNEL_AUTHORITY_RUNTIME_VERSION |}.
Definition operator : KernelAuthorityAccessContext := {| ax_system := true; ax_organizationId := None; ax_actorId := Some "ops-1" |}.
Definition reader (org : string) : KernelAuthorityAccessContext := {| ax_system := false; ax_organizationId := Some org; ax_actorId := None |}.
Definition event (org : string) (k : KernelAuthorityEntityKind) (id : string) (t : KernelAuthorityEventType) (payload : JsMap Json) (key : option string) : AppendKernelAuthorityEventInput :=
  {| ai_organizationId := org; ai_entityKind := k; ai_entityId := id; ai_eventType := t; ai_payload := JObj payload; ai_occurredAt := None; ai_idempotencyKey := key |}.
Definition subject : JsMap Json := [("actorId", JTxt "agent-1"); ("externalSubject", JObj [("system", JTxt "crm"); ("subjectId", JTxt "7")])].
Definition provision_agent : AppendKernelAuthorityEventInput := event "org-1" ek_actor "agent-1" KernelAuthorityEntityProvisioned subject (Some "key-1").
Definition revoke_agent : AppendKernelAuthorityEventInput := event "org-1" ek_actor "agent-1" KernelAuthorityEntityRevoked [("reason", JTxt "lost")] None.
Definition provisioned : list store_operation := [so_append operator provision_agent].
Definition later : list store_operation := [so_append operator revoke_agent; so_append operator provision_agent].
Definition outcome (i : AppendKernelAuthorityEventInput) (s : KernelAuthorityStore) : attempt bool := match (appendEvent options operator i s).1 with Ok r => Ok (ar_replayed r) | Throw e => Throw e end.

(** Provisioned once, replayed on the same key, refused once it is revoked. *)
Example life_of_an_agent :
  outcome provision_agent empty_authority_store = Ok false ∧ outcome provision_agent (store_history options provisioned empty_authority_store) = Ok true ∧
  outcome (event "org-1" ek_actor "agent-1" KernelAuthorityEntityProvisioned [] None) (store_history options provisioned empty_authority_store) = Throw KERNEL_AUTHORITY_ENTITY_CONFLICT ∧
  outcome (event "org-1" ek_actor "agent-2" KernelAuthorityEntityProvisioned subject None) (store_history options provisioned empty_authority_store) = Throw KERNEL_AUTHORITY_EXTERNAL_SUBJECT_CONFLICT ∧
  outcome (event "org-1" ek_actor "agent-1" KernelAuthorityEntityProvisioned subject None) (store_history options (provisioned ++ later) empty_authority_store) = Throw KERNEL_AUTHORITY_ENTITY_REVOKED.
Proof. vm_compute. done. Qed.

Lemma authority_only_narrows_witness : ∃ st', view (store_history options later (store_history options provisioned empty_authority_store)) "org-1" ek_actor "agent-1" = Some (st', JObj subject).
Proof.
  destruct (authority_only_narrows options provisioned later (reader "org-1") "org-1" ek_actor "agent-1" es_active (JObj subject) ltac:(vm_compute; reflexivity)) as (st'&Hv&_). exists st'. exact Hv.
Defined.

(** A chain of two events, and the head the store records for it. *)
Definition chain : list KernelAuthorityEvent := loadChain "org-1" ek_actor "agent-1" (store_history options (provisioned ++ [so_append operator revoke_agent]) empty_authority_store).
Definition recorded_head : KernelAuthorityChainHead := {| hd_latestSequence := 2; hd_latestEventDigest := default "" (kv_eventDigest <$> last chain) |}.
Lemma chain_reads : ∃ rec, reconstructKernelAuthorityRecord chain (Some recorded_head) = Ok rec.
Proof. eexists. vm_compute. reflexivity. Qed.
Definition distinguishes (l : list KernelAuthorityEvent) : bool := forallb (λ e, forallb (λ e', negb (str_eqb (computeKernelAuthorityEventDigest (kv_unsigned e)) (computeKernelAuthorityEventDigest (kv_unsigned e'))) ||
  str_eqb (canonicalSerialize (unsigned_json (kv_unsigned e))) (canonicalSerialize (unsigned_json (kv_unsigned e')))) l) l.
Lemma distinguishes_spec l : distinguishes l = true → digests_distinguish l l.
Proof.
  unfold distinguishes. rewrite forallb_forall. intros Hl e e' He%list_elem_of_In He'%list_elem_of_In E. specialize (Hl e He). rewrite forallb_forall in Hl. specialize (Hl e' He'). rewrite E in Hl.
  rewrite (proj2 (str_eqb_eq _ _) eq_refl) in Hl. by apply str_eqb_eq in Hl.
Qed.
Lemma chain_distinguishes : digests_distinguish chain chain.
Proof. apply distinguishes_spec. vm_compute. reflexivity. Qed.
Lemma authority_chain_determined_witness : same_events chain chain.
Proof. destruct chain_reads as [rec Hr]. destruct (authority_chain_determined chain chain recorded_head rec rec Hr Hr chain_distinguishes) as [Hs _]. exact Hs. Defined.

Definition key : string := chainKey "org-1" ek_actor "agent-1".
Lemma one_actor_per_subject_witness : ∃ p l, map_get key (ks_chains (store_history options provisioned empty_authority_store)) = Some (p :: l) ∧
  map_get (externalSubjectKey (ue_organizationId (kv_unsigned p)) {| xs_system := "crm"; xs_subjectId := "7" |}) (ks_externalSubjects (store_history options provisioned empty_authority_store)) =
    Some (ue_entityId (kv_unsigned p)).
Proof.
  assert (∃ p l, map_get key (ks_chains (store_history options provisioned empty_authority_store)) = Some (p :: l) ∧ ue_organizationId (kv_unsigned p) = "org-1" ∧
    ue_entityKind (kv_unsigned p) = ek_actor ∧ readExternalSubject (ue_payload (kv_unsigned p)) = Some {| xs_system := "crm"; xs_subjectId := "7" |}) as (p&l&Hp&Ho&Hk&Hx).
  { do 2 eexists. vm_compute. done. }
  exists p, l. pose proof (one_actor_per_subject options provisioned key p l key p l {| xs_system := "crm"; xs_subjectId := "7" |} Hp Hp eq_refl Hk Hk Hx Hx) as (_&_&Hs). exact (conj Hp Hs).
Defined.

Lemma authority_append_refines_witness : ∃ res s', appendEvent options operator revoke_agent (store_history options provisioned empty_authority_store) = (Ok res, s') ∧
  view s' "org-1" ek_actor "agent-1" = Some (es_revoked, JObj subject).
Proof.
  pose proof (authority_append_refines options provisioned operator revoke_agent) as Hr. cbv zeta in Hr. destruct Hr as [Hr _]. specialize (Hr (ex_intro _ "ops-1" (conj eq_refl (conj eq_refl eq_refl)))).
  assert (entity_machine revoke_agent (taken revoke_agent (store_history options provisioned empty_authority_store)) (claim_on revoke_agent (store_history options provisioned empty_authority_store))
    (view (store_history options provisioned empty_authority_store) (ai_organizationId revoke_agent) (ai_entityKind revoke_agent) (ai_entityId revoke_agent)) = Ok (false, Some (es_revoked, JObj subject))) as Em
    by (vm_compute; reflexivity).
  rewrite Em in Hr. destruct Hr as (res&s'&E&_&Hv&_). exists res, s'. exact (conj E Hv).
Defined.

(** The key of a chain joins its parts with spaces, which names may hold: the
    passport [b] of organization [a actor] is filed under the key of the actor
    [passport b] of organization [a]. A reader of the first reads the record of
    the second, and an operator who revokes the one revokes the other. *)
Definition other_actor : AppendKernelAuthorityEventInput := event "a" ek_actor "passport b" KernelAuthorityEntityProvisioned [("actorId", JTxt "passport b")] None.
Definition crossed : KernelAuthorityStore := store_history options [so_append operator other_actor] empty_authority_store.
Definition revoke_passport : AppendKernelAuthorityEventInput := event "a actor" ek_passport "b" KernelAuthorityEntityRevoked [("reason", JTxt "lost")] None.
Lemma spaces_cross_organizations :
  (∃ rec, getRecord (reader "a actor") "a actor" ek_passport "b" crossed = Ok (Some rec) ∧ kr_organizationId rec = "a" ∧ kr_entityKind rec = ek_actor) ∧
  view crossed "a" ek_actor "passport b" = Some (es_active, JObj [("actorId", JTxt "passport b")]) ∧
  view (store_history options [so_append operator revoke_passport] crossed) "a" ek_actor "passport b" = Some (es_revoked, JObj [("actorId", JTxt "passport b")]).
Proof. split_and!; [eexists; vm_compute; done|vm_compute; done|vm_compute; done]. Qed.
End KernelAuthorityDemo.
