(* ===== verification/RecognitionBridge.v ===== *)
(** * The recognition bridge

    [enterprise/kernel-authority/recognition-bridge]: how a request of the
    enforcement runtime becomes a request of the recognition runtime over the
    hydrated records of one organization, and what its answer becomes. The
    records and the runtime are those the hydrated world holds at the call. The
    payload of a record has the fields its type declares. *)

From S2P Require Import Prelude Decimal Js JsMap StableJson HashChain Enforcement EnforcementRuntime Recognition KernelAuthority.

Local Open Scope Z_scope.
Local Open Scope frontera_scope.

(** ** Credentials *)

Record ResolvedRecognitionCredentials := { rs_passportId : option string; rs_capabilityTokenId : option string }.
Record CredentialRequest := { cq_actorId : string; cq_trustDomainId : string; cq_action : string; cq_resourceScope : string; cq_now : string }.
Definition payload_text (k : string) (r : KernelAuthorityRecord) : option string := match json_field k (kr_payload r) with Some (JTxt s) => Some s | _ => None end.
Definition payload_texts (k : string) (r : KernelAuthorityRecord) : list string :=
  match json_field k (kr_payload r) with Some (JArr l) => omap (λ v, match v with JTxt s => Some s | _ => None end) l | _ => [] end.
(** A credential of this kind, of the actor in the trust domain. *)
Definition credential_of (k : KernelAuthorityEntityKind) (q : CredentialRequest) (r : KernelAuthorityRecord) : bool :=
  bool_decide (kr_entityKind r = k) && bool_decide (payload_text "subjectActorId" r = Some (cq_actorId q)) && bool_decide (payload_text "trustDomainId" r = Some (cq_trustDomainId q)).
Definition usable (q : CredentialRequest) (r : KernelAuthorityRecord) : bool :=
  bool_decide (kr_status r = es_active) && match payload_text "expiresAt" r with None => true | Some e => str_ltb (cq_now q) e end.
Definition covering (q : CredentialRequest) (r : KernelAuthorityRecord) : bool :=
  bool_decide (cq_action q ∈ payload_texts "actions" r) && existsb (within_scope (cq_resourceScope q)) (payload_texts "resourceScopes" r).
(** The first that is usable, or else the first. *)
Definition first_usable (q : CredentialRequest) (l : list KernelAuthorityRecord) : option KernelAuthorityRecord :=
  match List.find (usable q) l with Some r => Some r | None => head l end.
Definition resolveRecognitionCredentials (records : list KernelAuthorityRecord) (q : CredentialRequest) : ResolvedRecognitionCredentials :=
  {| rs_passportId := kr_entityId <$> first_usable q (List.filter (credential_of ek_passport q) records);
     rs_capabilityTokenId := kr_entityId <$> first_usable q (List.filter (covering q) (List.filter (credential_of ek_capability_token q) records)) |}.

(** ** The provider *)

Definition metadata_of (i : RecognitionVerificationInput) : JsMap Json := default [] (ri_metadata i).
Definition metadata_text (k : string) (i : RecognitionVerificationInput) : option string := match map_get k (metadata_of i) with Some (JTxt s) => Some s | _ => None end.
Definition metadata_list (k : string) (i : RecognitionVerificationInput) : option (list Json) := match map_get k (metadata_of i) with Some (JArr l) => Some l | _ => None end.
Definition first_of (a b : option string) : option string := match a with Some x => Some x | None => b end.
(** A refusal before the world is consulted. *)
Definition organization_refusal (prefix code reason : string) (i : RecognitionVerificationInput) : RecognitionVerificationResult :=
  {| rr_id := Some (prefix +:+ default (ri_actorId i) (ri_actionRequestId i)); rr_type := Some "unrecognized_actor"; rr_allowed := Some false; rr_recognized := Some false;
     rr_reasonCode := Some code; rr_reason := Some reason; rr_authorityDecisionId := None; rr_authorityProofId := None; rr_approvalRequestId := None; rr_approvalDecisionId := None;
     rr_approvalProofId := None; rr_handshakeDecisionId := None; rr_handshakeProofId := None |}.
Definition decision_result (d : RecognitionDecision) : RecognitionVerificationResult :=
  {| rr_id := Some (rd_id d); rr_type := Some (recognition_type_name (rd_type d)); rr_allowed := Some (bool_decide (rd_type d = rd_allow)); rr_recognized := Some (rd_recognized d);
     rr_reasonCode := Some (rd_reasonCode d); rr_reason := Some (rd_reason d); rr_authorityDecisionId := rd_authorityDecisionId d; rr_authorityProofId := rd_authorityProofId d;
     rr_approvalRequestId := rd_approvalRequestId d; rr_approvalDecisionId := rd_approvalDecisionId d; rr_approvalProofId := rd_approvalProofId d; rr_handshakeDecisionId := None;
     rr_handshakeProofId := None |}.

Section Bridge.
Context `{JsHost} (cfg : RecognitionConfiguration) (organizationId : string).
(** What the request of the runtime says, before it is stamped. *)
Definition unstamped (records : list KernelAuthorityRecord) (i : RecognitionVerificationInput) (now : string) : ActionRequest :=
  let resolved := resolveRecognitionCredentials records
    {| cq_actorId := ri_actorId i; cq_trustDomainId := ri_trustDomainId i; cq_action := ri_action i; cq_resourceScope := ri_resourceScope i; cq_now := now |} in
  {| aq_id := ""; aq_actorId := ri_actorId i; aq_passportId := first_of (metadata_text "passportId" i) (rs_passportId resolved);
     aq_capabilityTokenId := first_of (metadata_text "capabilityTokenId" i) (rs_capabilityTokenId resolved); aq_trustDomainId := ri_trustDomainId i; aq_action := ri_action i;
     aq_resource := ri_resourceScope i; aq_principalActorId := ri_principalActorId i; aq_context := None; aq_evidence := metadata_list "evidence" i; aq_requestedAt := "";
     aq_approvalProofId := ri_approvalProofId i; aq_approvalRequestId := ri_approvalRequestId i; aq_approvalDecisionId := ri_approvalDecisionId i |}.
Definition provider_verifyAction (records : list KernelAuthorityRecord) (i : RecognitionVerificationInput) : RM RecognitionVerificationResult :=
  match metadata_text "organizationId" i with
  | None => mret (organization_refusal "recognition-organization-missing-" "RECOGNITION_ORGANIZATION_SCOPE_REQUIRED"
      ("This decision service is provisioned for organization '" +:+ organizationId +:+ "'; a request must name the organization it is made in.") i)
  | Some requested =>
      if negb (str_eqb requested organizationId)
      then mret (organization_refusal "recognition-organization-scope-" "RECOGNITION_ORGANIZATION_SCOPE_VIOLATION"
        ("This decision service is provisioned for organization '" +:+ organizationId +:+ "' and holds no authority state for organization '" +:+ requested +:+ "'.") i)
      else
        now ← clock cfg;
        q ← buildActionRequest cfg (unstamped records i now) (ri_actionRequestId i);
        d ← submitActionRequest cfg q;
        mret (decision_result d)
  end.
End Bridge.
