(* ===== verification/RecognitionBridgeSafety.v ===== *)
(** * From a guarded action to the credential it rests on

    Over [RecognitionBridge]: the bridge allows exactly the requests that name its
    organization and that the recognition runtime sanctions with the credentials
    it resolved; what it answers is always a type the enforcement runtime lists;
    so an executor is invoked only for a sanctioned request. *)

From S2P Require Import Prelude Decimal Js JsMap StableJson HashChain Enforcement EnforcementRuntime EnforcementSafety Recognition RecognitionSafety KernelAuthority RecognitionBridge.

Local Open Scope Z_scope.
Local Open Scope frontera_scope.

(** ** Credentials *)

(** Which records may serve as the credential of a kind. *)
Definition candidate (k : KernelAuthorityEntityKind) (q : CredentialRequest) (r : KernelAuthorityRecord) : bool :=
  credential_of k q r && match k with ek_capability_token => covering q r | _ => true end.
Lemma preferred_spec (q : CredentialRequest) l r : first_usable q l = Some r → r ∈ l ∧ ((∃ u, u ∈ l ∧ usable q u = true) → usable q r = true).
Proof.
  unfold first_usable. destruct (List.find (usable q) l) as [u|] eqn:Ef.
  - intros [= <-]. apply List.find_some in Ef as [Hu Huse]. split; [by apply list_elem_of_In|done].
  - intros Hh. destruct l as [|x l]; [done|]. injection Hh as <-. split; [by left|]. intros (u&Hu%list_elem_of_In&Huse). apply (List.find_none _ _ Ef) in Hu. by rewrite Hu in Huse.
Qed.
Lemma preferred_none (q : CredentialRequest) l : first_usable q l = None ↔ l = [].
Proof. unfold first_usable. destruct l as [|x l]; [done|]. split; [|done]. by destruct (List.find (usable q) (x :: l)). Qed.
Lemma resolved_token records q id : rs_capabilityTokenId (resolveRecognitionCredentials records q) = Some id →
  ∃ r, r ∈ records ∧ kr_entityId r = id ∧ candidate ek_capability_token q r = true ∧ ((∃ u, u ∈ records ∧ candidate ek_capability_token q u = true ∧ usable q u = true) → usable q r = true).
Proof.
  cbn [resolveRecognitionCredentials rs_capabilityTokenId]. intros (r&Hr&->)%fmap_Some_1. apply preferred_spec in Hr as [Hr Hu].
  assert (∀ u, u ∈ List.filter (covering q) (List.filter (credential_of ek_capability_token q) records) ↔ u ∈ records ∧ candidate ek_capability_token q u = true) as Hf.
  { intros u. rewrite list_elem_of_In, !filter_In, <-list_elem_of_In. unfold candidate. rewrite andb_true_iff. tauto. }
  apply Hf in Hr as [Hr Hc]. exists r. split_and!; [done|done|done|]. intros (u&Hu1&Hu2&Hu3). apply Hu. exists u. by rewrite Hf.
Qed.

(** ** The bridge *)

Section Bridge.
Context `{JsHost} (cfg : RecognitionConfiguration) (organizationId : string).
Implicit Types (i : RecognitionVerificationInput) (rt : RecognitionRuntime).

(** The request the runtime is given, and the call at which it begins. *)
Definition stamped (records : list KernelAuthorityRecord) i rt : ActionRequest * nat :=
  let n := rn_calls rt in let q := unstamped records i (rc_now cfg n) in
  let m := match ri_actionRequestId i with Some _ => S n | None => S (S n) end in
  ({| aq_id := default (rc_next cfg (S n) "action-request") (ri_actionRequestId i); aq_actorId := aq_actorId q; aq_passportId := aq_passportId q; aq_capabilityTokenId := aq_capabilityTokenId q;
      aq_trustDomainId := aq_trustDomainId q; aq_action := aq_action q; aq_resource := aq_resource q; aq_principalActorId := aq_principalActorId q; aq_context := aq_context q;
      aq_evidence := aq_evidence q; aq_requestedAt := rc_now cfg m; aq_approvalProofId := aq_approvalProofId q; aq_approvalRequestId := aq_approvalRequestId q;
      aq_approvalDecisionId := aq_approvalDecisionId q |}, S m).
Definition in_organization i : bool := bool_decide (metadata_text "organizationId" i = Some organizationId).
Lemma provider_run records i rt : in_organization i = true →
  provider_verifyAction cfg organizationId records i rt =
  match verifyAction cfg (stamped records i rt).1 (at_call (stamped records i rt).2 rt) with (Ok d, rt') => (Ok (decision_result d), rt') | (Throw e, rt') => (Throw e, rt') end.
Proof.
  unfold in_organization. intros E%bool_decide_eq_true. unfold provider_verifyAction. rewrite E, (proj2 (str_eqb_eq organizationId organizationId) eq_refl). cbn [negb].
  unfold stamped, mbind, RM_bind, clock, buildActionRequest, given_or_next, submitActionRequest. destruct (ri_actionRequestId i); reflexivity.
Qed.
Lemma provider_refusal records i rt : in_organization i = false → ∃ r, provider_verifyAction cfg organizationId records i rt = (Ok r, rt) ∧ rr_type r = Some "unrecognized_actor" ∧ rr_allowed r = Some false.
Proof.
  unfold in_organization. intros E%bool_decide_eq_false. unfold provider_verifyAction. destruct (metadata_text "organizationId" i) as [o|]; [|by eexists].
  destruct (str_eqb o organizationId) eqn:Eo; [apply str_eqb_eq in Eo; congruence|by eexists].
Qed.
Context (Hdefault : rc_policies cfg = createDefaultPolicyChain).
Lemma provider_allows records i rt : (∃ r rt', provider_verifyAction cfg organizationId records i rt = (Ok r, rt') ∧ rr_allowed r = Some true) ↔
  in_organization i = true ∧ sanctioned cfg (at_call (stamped records i rt).2 rt) (stamped records i rt).1.
Proof.
  destruct (in_organization i) eqn:Eo.
  - rewrite provider_run by done. split.
    + intros (r&rt'&E&Ha). split; [done|]. destruct (verifyAction _ _ _) as [[d|e] rt1] eqn:Ev; [|done]. injection E as <- <-. injection Ha as Ha%bool_decide_eq_true. by eapply allow_sanctioned.
    + intros [_ Hs]. apply (sanctioned_allowed cfg Hdefault) in Hs as (d&rt'&Ev&Hd). rewrite Ev. do 2 eexists. split; [done|]. cbn. by rewrite bool_decide_eq_true_2.
  - destruct (provider_refusal records i rt Eo) as (r&E&_&Ha). rewrite E. split; [intros (r'&rt'&[= <- <-]&Ha'); congruence|by intros [? _]].
Qed.
End Bridge.

(** Every type the bridge answers is listed, and only [allow] executes. *)
Lemma listed_types t r : rr_type r = Some (recognition_type_name t) → mo_decisionType (mapRecognitionResult (Some r)) = execute_allowed ↔ t = rd_allow.
Proof. intros Hr. unfold mapRecognitionResult. rewrite Hr. by destruct t. Qed.

(** ** Claims *)

(** C21. The bridge allows a request exactly when it names the organization the
    bridge serves and the recognition runtime sanctions it with the credentials
    the caller named or, failing that, those resolved from the organization's
    records; and whatever it resolves as the capability token is a record of the
    actor in the trust domain whose actions and scopes cover the request, a usable
    one if there is one. *)
Theorem bridge_exact `{JsHost} (cfg : RecognitionConfiguration) organizationId records i rt : rc_policies cfg = createDefaultPolicyChain →
  ((∃ r rt', provider_verifyAction cfg organizationId records i rt = (Ok r, rt') ∧ rr_allowed r = Some true) ↔
    metadata_text "organizationId" i = Some organizationId ∧ sanctioned cfg (at_call (stamped cfg records i rt).2 rt) (stamped cfg records i rt).1) ∧
  ∀ q id, rs_capabilityTokenId (resolveRecognitionCredentials records q) = Some id →
    ∃ r, r ∈ records ∧ kr_entityId r = id ∧ candidate ek_capability_token q r = true ∧ ((∃ u, u ∈ records ∧ candidate ek_capability_token q u = true ∧ usable q u = true) → usable q r = true).
Proof.
  intros Hd. split; [|intros q id; apply resolved_token]. rewrite provider_allows by done. unfold in_organization. by rewrite bool_decide_eq_true.
Qed.

(** The recognition integration of an enforcement runtime is served by the bridge,
    over records and a runtime of which [P] holds at each call. *)
Definition served_over `{JsHost} (P : list KernelAuthorityRecord → RecognitionRuntime → Prop) (ecfg : EnforcementConfiguration) (cfg : RecognitionConfiguration) (organizationId : string) : Prop :=
  ∀ n i, ∃ records rt, P records rt ∧
  match (provider_verifyAction cfg organizationId records i rt).1 with
  | Ok r => recognitionIntegration ecfg n i = RecognitionResult (Some r)
  | Throw _ => ∃ message, recognitionIntegration ecfg n i = RecognitionThrew message
  end.
(** Whatever records and runtime the hydrated world holds at each call. *)
Definition served `{JsHost} : EnforcementConfiguration → RecognitionConfiguration → string → Prop := served_over (λ _ _, True).
(** The recognition request speaks of what the enforcement request does. *)
Definition same_action (q : ActionRequest) (e : EnforcementRequest) : Prop :=
  aq_actorId q = er_actorId e ∧ aq_trustDomainId q = er_trustDomainId e ∧ aq_action q = Enforcement.er_action e ∧ aq_resource q = er_resourceScope e.
Lemma executor_sanctioned `{JsHost} P (ecfg : EnforcementConfiguration) (cfg : RecognitionConfiguration) organizationId g t ert x ert' :
  cfg_policies ecfg = createDefaultEnforcementPolicyChain → rc_policies cfg = createDefaultPolicyChain → served_over P ecfg cfg organizationId →
  verifyAndExecute ecfg g t ert = (Ok (inl x), ert') →
  ∃ records rt n q, P records rt ∧ map_get "organizationId" (default [] (er_metadata (ex_request x))) = Some (JTxt organizationId) ∧ same_action q (ex_request x) ∧ sanctioned cfg (at_call n rt) q.
Proof.
  intros He Hd Hserved E. destruct (guard_called _ _ _ _ _ _ E) as (q&[_ (c&Hs&Hst) _ _]). destruct (gate_decides ecfg _ _ _ _ _ He Hs Hst) as [Hc _]. destruct Hst as (->&_).
  destruct (sh_recognition _ _ _ _ Hs) as [n Hn]. destruct (Hserved n (verification_input q (cx_now c))) as (records&rt&HP&Hr). pose proof (cl_recognized _ Hc) as Hm.
  destruct (in_organization organizationId (verification_input q (cx_now c))) eqn:Eo.
  - rewrite provider_run in Hr by done. set (p := stamped cfg records (verification_input q (cx_now c)) rt) in *. destruct (verifyAction cfg p.1 (at_call p.2 rt)) as [[d|e] rt'] eqn:Ev; cbn [fst] in Hr.
    + rewrite Hn in Hr. injection Hr as Hr. rewrite Hr in Hm. apply (listed_types (rd_type d)) in Hm; [|done]. exists records, rt, p.2, p.1.
      unfold in_organization, metadata_text in Eo. apply bool_decide_eq_true in Eo. split; [done|]. split; [|split; [by split_and!|by eapply allow_sanctioned]].
      unfold metadata_of in Eo. cbn [verification_input ri_metadata] in Eo. destruct (map_get "organizationId" (default [] (er_metadata q))) as [[]|]; try discriminate Eo. by injection Eo as ->.
    + destruct Hr as [m Hr]. by rewrite Hn in Hr.
  - destruct (provider_refusal cfg organizationId records _ rt Eo) as (r&Er&Ht&_). rewrite Er in Hr. cbn [fst] in Hr. rewrite Hn in Hr. injection Hr as Hr. rewrite Hr in Hm.
    by apply (listed_types rd_unrecognized_actor) in Hm.
Qed.

(** An executor rests on a credential: where the recognition integration is the
    bridge, the executor of a guarded action is invoked only if the request named
    the organization and the recognition runtime, as it stood at that call,
    sanctions a request for the same actor, trust domain, action and resource: a
    recognized actor with a live passport and a live token that covers the action,
    a valid chain of authority where one is needed, and an approval where the
    token asks for one. *)
Theorem executor_rests_on_credential `{JsHost} (ecfg : EnforcementConfiguration) (cfg : RecognitionConfiguration) organizationId g t ert x ert' :
  cfg_policies ecfg = createDefaultEnforcementPolicyChain → rc_policies cfg = createDefaultPolicyChain → served ecfg cfg organizationId →
  verifyAndExecute ecfg g t ert = (Ok (inl x), ert') →
  ∃ rt q, map_get "organizationId" (default [] (er_metadata (ex_request x))) = Some (JTxt organizationId) ∧ same_action q (ex_request x) ∧ sanctioned cfg rt q.
Proof. intros He Hd Hs E. destruct (executor_sanctioned _ _ _ _ _ _ _ _ _ He Hd Hs E) as (records&rt&n&q&_&Ho&Hq&Hsq). by exists (at_call n rt), q. Qed.

Module BridgeDemo.

#[local] Existing Instance demo_host.

Definition record (k : KernelAuthorityEntityKind) (id : string) (payload : JsMap Json) : KernelAuthorityRecord :=
  {| kr_organizationId := "org-1"; kr_entityKind := k; kr_entityId := id; kr_trustDomainId := Some "domain-1"; kr_status := es_active; kr_payload := JObj payload; kr_provisionedBy := "ops-1";
     kr_provisionedAt := "2026-01-01"; kr_revokedBy := None; kr_revokedAt := None; kr_revocationReason := None; kr_latestSequence := 1; kr_latestEventDigest := "" |}.
Definition of_agent : JsMap Json := [("subjectActorId", JTxt "agent-1"); ("trustDomainId", JTxt "domain-1")].
Definition records : list KernelAuthorityRecord :=
  [record ek_passport "passport-a" of_agent; record ek_capability_token "token-w" (of_agent ++ [("actions", json_texts ["read"]); ("resourceScopes", json_texts ["account"])])].
(** The token reads, and wires with a human's approval. *)
Definition world : RecognitionRuntime :=
  operate RecognitionDemo.config (RecognitionDemo.token "token-w" "agent-1" None ["read"] (Some {| pq_actions := ["wire"]; pq_requiredApproverActorIds := None |})) RecognitionDemo.world.
Definition input (action : string) (metadata : JsMap Json) : RecognitionVerificationInput :=
  {| ri_actionRequestId := None; ri_actorId := "agent-1"; ri_principalActorId := None; ri_trustDomainId := "domain-1"; ri_action := action; ri_capability := None; ri_resourceScope := "account:7";
     ri_requestedAt := "2026-01-01"; ri_approvalProofId := Some "proof-1"; ri_approvalRequestId := None; ri_approvalDecisionId := None; ri_visaId := None; ri_ingressGrantId := None;
     ri_handshakeProofId := None; ri_metadata := Some metadata |}.
Definition here : string * Json := ("organizationId", JTxt "org-1").
Definition answer (i : RecognitionVerificationInput) := provider_verifyAction RecognitionDemo.config "org-1" records i world.
Definition answered_type (i : RecognitionVerificationInput) : option string := match (answer i).1 with Ok r => rr_type r | Throw _ => None end.
Definition allowed (i : RecognitionVerificationInput) : bool := match (answer i).1 with Ok r => bool_decide (rr_allowed r = Some true) | Throw _ => false end.
Lemma allowed_run i : allowed i = true → ∃ r rt', provider_verifyAction RecognitionDemo.config "org-1" records i world = (Ok r, rt') ∧ rr_allowed r = Some true.
Proof. unfold allowed, answer. destruct (provider_verifyAction _ _ _ _ _) as [[r|e] rt']; cbn [fst]; [|done]. intros Ha%bool_decide_eq_true. by exists r, rt'. Qed.
Lemma bridge_exact_witness : rc_policies RecognitionDemo.config = createDefaultPolicyChain ∧ metadata_text "organizationId" (input "read" [here]) = Some "org-1" ∧
  sanctioned RecognitionDemo.config (at_call (stamped RecognitionDemo.config records (input "read" [here]) world).2 world) (stamped RecognitionDemo.config records (input "read" [here]) world).1.
Proof.
  split; [reflexivity|]. apply (bridge_exact RecognitionDemo.config "org-1" records (input "read" [here]) world eq_refl). apply allowed_run. vm_compute. reflexivity.
Defined.

(** An action the token grants only with approval is in its approval requirement,
    not among its actions, and the bridge looks at the actions alone: with the
    approval's proof at hand, the action is refused for want of a token unless
    the caller names the token itself. *)
Lemma approval_token_not_resolved : answered_type (input "wire" [here]) = Some "invalid_capability" ∧ answered_type (input "wire" [here; ("capabilityTokenId", JTxt "token-w")]) = Some "allow".
Proof. vm_compute. done. Qed.

(** An enforcement runtime the bridge serves. *)
Definition serve (i : RecognitionVerificationInput) : RecognitionAnswer := match (answer i).1 with Ok r => RecognitionResult (Some r) | Throw _ => RecognitionThrew "recognition failed" end.
Definition guarded : EnforcementConfiguration :=
  {| cfg_ctx := {| clock_now := λ _, "1000"; ids_nextId := λ n _, EnforcementDemo.unary n |}; recognitionIntegration := λ _ i, serve i; policyPackIntegration := None;
     cfg_policies := createDefaultEnforcementPolicyChain; allowRetryAfterFailure := false |}.
Lemma guarded_served : served guarded RecognitionDemo.config "org-1".
Proof.
  intros n i. exists records, world. split; [exact I|]. unfold guarded, serve, answer. cbn [recognitionIntegration]. destruct (provider_verifyAction _ _ _ _ _) as [[r|e] rt']; cbn [fst]; [done|by eexists].
Qed.
Definition read_account : GuardActionRequestInput :=
  {| gi_actorId := "agent-1"; gi_principalActorId := None; gi_trustDomainId := "domain-1"; gi_action := "read"; gi_capability := None; gi_resourceScope := "account:7";
     gi_targetId := None; gi_targetType := None; gi_targetName := None; gi_adapterId := None; gi_riskLevel := None; gi_sideEffectType := Some se_write; gi_description := None;
     gi_idempotencyKey := Some "key-1"; gi_mode := None; gi_expiresAt := None; gi_actionRequestId := None; gi_approvalProofId := None; gi_approvalRequestId := None;
     gi_approvalDecisionId := None; gi_visaId := None; gi_ingressGrantId := None; gi_handshakeProofId := None; gi_policyEvaluationInput := None; gi_metadata := Some [here] |}.
Lemma read_runs : ∃ x ert', verifyAndExecute guarded read_account None EnforcementDemo.fresh = (Ok (inl x), ert').
Proof.
  assert (match (verifyAndExecute guarded read_account None EnforcementDemo.fresh).1 with Ok (inl _) => true | _ => false end = true) as Hr by (vm_compute; reflexivity). revert Hr.
  destruct (verifyAndExecute guarded read_account None EnforcementDemo.fresh) as [[[x|o]|e] ert']; intros Hr; [by exists x, ert'|discriminate Hr..].
Qed.
Lemma executor_rests_on_credential_witness : ∃ x ert', verifyAndExecute guarded read_account None EnforcementDemo.fresh = (Ok (inl x), ert') ∧
  ∃ rt q, aq_actorId q = er_actorId (ex_request x) ∧ sanctioned RecognitionDemo.config rt q.
Proof.
  destruct read_runs as (x&ert'&Hx). exists x, ert'. split; [exact Hx|].
  destruct (executor_rests_on_credential guarded RecognitionDemo.config "org-1" read_account None EnforcementDemo.fresh x ert' eq_refl eq_refl guarded_served Hx) as (rt&q&_&(Ha&_)&Hs).
  exists rt, q. exact (conj Ha Hs).
Defined.
End BridgeDemo.
