(* ===== verification/KernelHydration.v ===== *)
(** * Hydration of the kernel's world

    [enterprise/kernel-authority/hydration]: the records of an organization,
    ordered so that a grant follows the one it depends on, are replayed into a new
    recognition runtime and a new authority graph, and the revoked ones are then
    revoked there. The two runtimes each read the clock in their own order. The
    approval and handshake runtimes, which start empty, enter as the integrations
    of the recognition runtime. The payload of a record has the fields its type
    declares. *)

From S2P Require Import Prelude Decimal Js JsMap Monetary Parameters StableJson HashChain AuthorityGraph AuthorityRuntime Enforcement EnforcementRuntime Recognition KernelAuthority RecognitionBridge.

Local Open Scope Z_scope.
Local Open Scope frontera_scope.

(** ** Reading a payload *)

Definition payload_str (k : string) (r : KernelAuthorityRecord) : string := default "" (payload_text k r).
Definition payload_bool (k : string) (r : KernelAuthorityRecord) : option bool := match json_field k (kr_payload r) with Some (JBol b) => Some b | _ => None end.
Definition payload_int (k : string) (r : KernelAuthorityRecord) : option Z := match json_field k (kr_payload r) with Some (JNo n) => Some n | _ => None end.
Definition json_text_list (l : list Json) : list string := omap (λ v, match v with JTxt s => Some s | _ => None end) l.
Definition payload_list (k : string) (r : KernelAuthorityRecord) : option (list string) := match json_field k (kr_payload r) with Some (JArr l) => Some (json_text_list l) | _ => None end.
Definition payload_map (k : string) (r : KernelAuthorityRecord) : option (JsMap string) :=
  match json_field k (kr_payload r) with Some (JObj fs) => Some (omap (λ e : string * Json, match e.2 with JTxt s => Some (e.1, s) | _ => None end) fs) | _ => None end.
Definition actor_type_named (s : string) : ActorType :=
  if str_eqb s "human" then at_human else if str_eqb s "organization" then at_organization else if str_eqb s "agent" then at_agent else if str_eqb s "system" then at_system
  else if str_eqb s "external" then at_external else at_unknown.
Definition authority_actor_type_named (s : string) : AuthorityActorType :=
  if str_eqb s "human" then AuthorityGraph.at_human else if str_eqb s "organization" then AuthorityGraph.at_organization else if str_eqb s "agent" then AuthorityGraph.at_agent
  else AuthorityGraph.at_system.
Definition passport_type_named (s : string) : PassportType :=
  if str_eqb s "human_passport" then human_passport else if str_eqb s "organization_passport" then organization_passport else if str_eqb s "agent_passport" then agent_passport
  else system_passport.
Definition risk_level_named (s : string) : RiskLevel :=
  if str_eqb s "low" then rl_low else if str_eqb s "medium" then rl_medium else if str_eqb s "high" then rl_high else if str_eqb s "critical" then rl_critical else rl_prohibited.
Definition json_requirement (v : Json) : EvidenceRequirement :=
  {| er_action := match json_field "action" v with Some (JTxt s) => s | _ => "" end;
     er_requiredEvidenceTypes := match json_field "requiredEvidenceTypes" v with Some (JArr l) => json_text_list l | _ => [] end |}.
Definition json_approval (v : Json) : ApprovalRequirement :=
  {| pq_actions := match json_field "actions" v with Some (JArr l) => json_text_list l | _ => [] end;
     pq_requiredApproverActorIds := match json_field "requiredApproverActorIds" v with Some (JArr l) => Some (json_text_list l) | _ => None end |}.
Definition json_text_of (k : string) (v : Json) : string := match json_field k v with Some (JTxt s) => s | _ => "" end.
Definition json_window (v : option Json) : SpendingWindow := match v ≫= json_field "seconds" with Some (JNo n) => sw_rolling n | _ => sw_lifetime end.
Definition json_constraint (v : Json) : AuthorityConstraint :=
  if str_eqb (json_text_of "type" v) "max_amount" then max_amount (json_text_of "currency" v) (json_text_of "value" v)
  else spending_limit (json_text_of "limitId" v) (json_text_of "currency" v) (json_text_of "maximum" v) (json_window (json_field "window" v)).
Definition payload_constraints (r : KernelAuthorityRecord) : option (list AuthorityConstraint) :=
  match json_field "constraints" (kr_payload r) with Some (JArr l) => Some (json_constraint <$> l) | _ => None end.

(** ** What each kind of record is replayed as *)

Definition actor_input (r : KernelAuthorityRecord) : RegisterActorInput :=
  {| ra_id := Some (payload_str "actorId" r); ra_type := actor_type_named (payload_str "type" r); ra_displayName := payload_str "displayName" r; ra_status := None; ra_issuerId := payload_text "issuerId" r;
     ra_trustDomainId := payload_text "trustDomainId" r; ra_jurisdiction := payload_text "jurisdiction" r; ra_metadata := payload_map "metadata" r |}.
Definition domain_input (r : KernelAuthorityRecord) : CreateTrustDomainInput :=
  {| ci_id := Some (payload_str "trustDomainId" r); ci_name := payload_str "name" r; ci_issuerActorId := payload_str "issuerActorId" r; ci_jurisdiction := payload_text "jurisdiction" r;
     ci_acceptedIssuerIds := payload_texts "acceptedIssuerIds" r; ci_acceptedActorTypes := actor_type_named <$> payload_texts "acceptedActorTypes" r;
     ci_policyPackIds := payload_list "policyPackIds" r |}.
Definition passport_input (r : KernelAuthorityRecord) : IssuePassportInput :=
  {| ip_id := Some (payload_str "passportId" r); ip_type := passport_type_named (payload_str "type" r); ip_subjectActorId := payload_str "subjectActorId" r; ip_issuerActorId := payload_str "issuerActorId" r;
     ip_trustDomainId := payload_str "trustDomainId" r; ip_jurisdiction := None; ip_expiresAt := payload_text "expiresAt" r; ip_claims := None |}.
Definition token_input (r : KernelAuthorityRecord) : IssueCapabilityTokenInput :=
  {| it_id := Some (payload_str "capabilityTokenId" r); it_subjectActorId := payload_str "subjectActorId" r; it_principalActorId := payload_str "principalActorId" r; it_issuerActorId := payload_str "issuerActorId" r;
     it_trustDomainId := payload_str "trustDomainId" r; it_capability := payload_str "capability" r; it_actions := payload_texts "actions" r; it_resourceScopes := payload_texts "resourceScopes" r;
     it_jurisdiction := payload_text "jurisdiction" r; it_prohibitedActions := payload_list "prohibitedActions" r; it_delegatedFromTokenId := None; it_delegable := payload_bool "delegable" r;
     it_maxDelegationDepth := payload_int "maxDelegationDepth" r;
     it_evidenceRequirements := match json_field "evidenceRequirements" (kr_payload r) with Some (JArr l) => Some (json_requirement <$> l) | _ => None end;
     it_approvalRequirement := match json_field "approvalRequirement" (kr_payload r) with Some (JObj _ as v) => Some (json_approval v) | _ => None end;
     it_riskLevel := risk_level_named (payload_str "riskLevel" r); it_expiresAt := payload_text "expiresAt" r |}.
Definition grant_input (r : KernelAuthorityRecord) : IssueAuthorityGrantInput :=
  {| ig_id := Some (payload_str "authorityGrantId" r); ig_issuerActorId := payload_str "issuerActorId" r; ig_subjectActorId := payload_str "subjectActorId" r; ig_trustDomainId := payload_str "trustDomainId" r;
     ig_roleId := payload_text "roleId" r; ig_capability := payload_str "capability" r; ig_actions := payload_texts "actions" r; ig_resourceScopes := payload_texts "resourceScopes" r;
     ig_canDelegate := payload_bool "canDelegate" r;
     ig_allowedDelegateActorTypes := (λ l : list string, authority_actor_type_named <$> l) <$> payload_list "allowedDelegateActorTypes" r; ig_maxDelegationDepth := payload_int "maxDelegationDepth" r;
     ig_nonDelegableActions := payload_list "nonDelegableActions" r; ig_constraints := payload_constraints r; ig_expiresAt := payload_text "expiresAt" r;
     ig_parentGrantId := payload_text "parentGrantId" r; ig_metadata := None; ig_allowRootBootstrap := None |}.
Definition delegation_input (r : KernelAuthorityRecord) : CreateDelegationGrantInput :=
  {| cd_id := Some (payload_str "delegationGrantId" r); cd_delegatorActorId := payload_str "delegatorActorId" r; cd_delegateActorId := payload_str "delegateActorId" r;
     cd_delegateActorType := authority_actor_type_named (payload_str "delegateActorType" r); cd_principalActorId := payload_text "principalActorId" r; cd_trustDomainId := payload_str "trustDomainId" r;
     cd_sourceAuthorityGrantId := payload_str "sourceAuthorityGrantId" r; cd_capability := payload_str "capability" r; cd_actions := payload_texts "actions" r;
     cd_resourceScopes := payload_texts "resourceScopes" r; cd_canRedelegate := payload_bool "canRedelegate" r; cd_nonDelegableActions := payload_list "nonDelegableActions" r;
     cd_constraints := payload_constraints r; cd_expiresAt := payload_text "expiresAt" r; cd_metadata := None |}.

(** ** The order of replay *)

(** A record is known by its place in the list. *)
Definition nonempty_text (o : option string) : option string := match o with Some s => if nonempty s then Some s else None | None => None end.
Definition intraKindDependencyOf (r : KernelAuthorityRecord) : option string :=
  match kr_entityKind r with
  | ek_authority_grant => nonempty_text (payload_text "parentGrantId" r)
  | ek_delegation_grant => nonempty_text (payload_text "sourceAuthorityGrantId" r)
  | _ => None
  end.
Definition kind_and_id (k : KernelAuthorityEntityKind) (id : string) : string := entity_kind_name k +:+ " " +:+ id.
Fixpoint index_records (n : nat) (records : list KernelAuthorityRecord) (m : JsMap nat) : JsMap nat :=
  match records with [] => m | r :: records => index_records (S n) records (map_set (kind_and_id (kr_entityKind r) (kr_entityId r)) n m) end.
(** What hydration rejects with; [OutOfFuel] is not an outcome of the code. *)
Inductive HydrationError := HydrationFailed (code : KernelAuthorityErrorCode) | RevocationThrew | OutOfFuel.
(** The places already ordered, the first one last. *)
Fixpoint place (records : list KernelAuthorityRecord) (byKindAndId : JsMap nat) (fuel : nat) (visiting : list nat) (n : nat) (placed : list nat) : result HydrationError (list nat) :=
  match fuel with
  | O => Throw OutOfFuel
  | S fuel =>
      if bool_decide (n ∈ placed) then Ok placed
      else if bool_decide (n ∈ visiting) then Throw (HydrationFailed KERNEL_AUTHORITY_REFERENCE_INVALID)
      else
        let* placed := match records !! n ≫= λ r, intraKindDependencyOf r ≫= λ id, map_get (kind_and_id (kr_entityKind r) id) byKindAndId with
                       | Some d => place records byKindAndId fuel (n :: visiting) d placed
                       | None => Ok placed
                       end in
        Ok (n :: placed)
  end.
Fixpoint place_all (records : list KernelAuthorityRecord) (byKindAndId : JsMap nat) (fuel : nat) (todo : list nat) (placed : list nat) : result HydrationError (list nat) :=
  match todo with [] => Ok placed | n :: todo => let* placed := place records byKindAndId fuel [] n placed in place_all records byKindAndId fuel todo placed end.
Definition orderByDependency (records : list KernelAuthorityRecord) : result HydrationError (list KernelAuthorityRecord) :=
  let* placed := place_all records (index_records 0 records []) (S (S (length records))) (seq 0 (length records)) [] in
  Ok (omap (λ n, records !! n) (reverse placed)).

(** ** Replay *)

Record KernelWorld := { kw_recognition : RecognitionRuntime; kw_authority : AuthorityGraphRuntime }.
Definition with_recognition (w : KernelWorld) (rt : RecognitionRuntime) : KernelWorld := {| kw_recognition := rt; kw_authority := kw_authority w |}.
Definition with_authority (w : KernelWorld) (rt : AuthorityGraphRuntime) : KernelWorld := {| kw_recognition := kw_recognition w; kw_authority := rt |}.
Section Hydration.
Context `{JsHost} (cfg : RecognitionConfiguration) (ctx : AuthorityRuntimeContext).
Definition on_recognition {A} (failure : HydrationError) (m : RM A) (w : KernelWorld) : result HydrationError KernelWorld :=
  match m (kw_recognition w) with (Ok _, rt) => Ok (with_recognition w rt) | (Throw _, _) => Throw failure end.
Definition on_authority {A} (failure : HydrationError) (m : AuthorityRuntime.M A) (w : KernelWorld) : result HydrationError KernelWorld :=
  match m (kw_authority w) with Ok (_, rt) => Ok (with_authority w rt) | Throw _ => Throw failure end.
Definition applyProvisioned (r : KernelAuthorityRecord) (w : KernelWorld) : result HydrationError KernelWorld :=
  let failure := HydrationFailed KERNEL_AUTHORITY_REFERENCE_INVALID in
  match (let* _ := validateKernelAuthorityMonetaryConstraints (kr_entityKind r) (kr_payload r) in validateKernelAuthorityParameterBounds (kr_entityKind r) (kr_payload r)) with
  | Throw _ => Throw (HydrationFailed KERNEL_AUTHORITY_INTEGRITY_FAILED)
  | Ok _ =>
      match kr_entityKind r with
      | ek_actor => on_recognition failure (registerActor cfg (actor_input r)) w
      | ek_trust_domain => on_recognition failure (createTrustDomain cfg (domain_input r)) w
      | ek_passport => on_recognition failure (issuePassport cfg (passport_input r)) w
      | ek_capability_token => on_recognition failure (issueCapabilityToken cfg (token_input r)) w
      | ek_root_issuer => on_authority failure (registerRootIssuer (payload_str "trustDomainId" r) (payload_str "actorId" r)) w
      | ek_authority_grant => on_authority failure (issueAuthorityGrant ctx (grant_input r)) w
      | ek_delegation_grant => on_authority failure (createDelegationGrant ctx (delegation_input r)) w
      end
  end.
Definition applyRevocation (r : KernelAuthorityRecord) (w : KernelWorld) : result HydrationError KernelWorld :=
  match kr_entityKind r with
  | ek_actor => on_recognition RevocationThrew (updateActorStatus cfg (kr_entityId r) as_revoked) w
  | ek_passport => on_recognition RevocationThrew (service_revokePassport (kr_entityId r)) w
  | ek_capability_token => on_recognition RevocationThrew (service_revokeCapabilityToken (kr_entityId r)) w
  | ek_authority_grant => on_authority RevocationThrew (update_store (updateGrantStatus (kr_entityId r) AuthorityGraph.as_revoked)) w
  | ek_delegation_grant => on_authority RevocationThrew (update_store (updateDelegationStatus (kr_entityId r) AuthorityGraph.as_revoked)) w
  | ek_trust_domain | ek_root_issuer => Ok w
  end.
Fixpoint apply_each (f : KernelAuthorityRecord → KernelWorld → result HydrationError KernelWorld) (l : list KernelAuthorityRecord) (w : KernelWorld) : result HydrationError KernelWorld :=
  match l with [] => Ok w | r :: l => let* w := f r w in apply_each f l w end.
Definition empty_world : KernelWorld := {| kw_recognition := createAocRecognitionRuntime; kw_authority := new_runtime |}.
Definition revoked_record (r : KernelAuthorityRecord) : bool := bool_decide (kr_status r = es_revoked).
Definition hydrateKernelAuthorityWorld (records : list KernelAuthorityRecord) : result HydrationError (KernelWorld * list KernelAuthorityRecord) :=
  let* ordered := orderByDependency records in
  let* provisioned := apply_each applyProvisioned ordered empty_world in
  let* w := apply_each applyRevocation (List.filter revoked_record records) provisioned in
  Ok (w, ordered).
End Hydration.
