(* ===== verification/KernelHydrationSafety.v ===== *)
(** * What hydration guarantees

    Over [KernelHydration]: the order of replay ends, holds every record once and
    puts a grant after the one it depends on; and in the world it builds, an actor,
    passport or token that still counts comes from a record that is active, with
    the terms of that record. Composed with the bridge and the enforcement
    runtime: an executor is invoked only on active records. *)

From S2P Require Import Prelude Decimal Js JsMap Monetary Parameters StableJson HashChain AuthorityGraph AuthorityRuntime Enforcement EnforcementRuntime EnforcementSafety Recognition RecognitionSafety KernelAuthority KernelAuthoritySafety RecognitionBridge RecognitionBridgeSafety KernelHydration.

Local Open Scope Z_scope.
Local Open Scope frontera_scope.

(** ** The order *)

Section Order.
Context (records : list KernelAuthorityRecord) (m : JsMap nat).
Local Notation N := (length records).
Definition dependency (n : nat) : option nat := records !! n ≫= λ r, intraKindDependencyOf r ≫= λ id, map_get (kind_and_id (kr_entityKind r) id) m.
Context (Hm : ∀ n d, dependency n = Some d → (d < N)%nat).

Lemma place_eq fuel visiting n placed : place records m (S fuel) visiting n placed =
  if bool_decide (n ∈ placed) then Ok placed else if bool_decide (n ∈ visiting) then Throw (HydrationFailed KERNEL_AUTHORITY_REFERENCE_INVALID)
  else let* placed := match dependency n with Some d => place records m fuel (n :: visiting) d placed | None => Ok placed end in Ok (n :: placed).
Proof. done. Qed.
(** Each record stands before (further from the head than) those that depend on it. *)
Fixpoint grounded (placed : list nat) : Prop := match placed with [] => True | n :: l => (∀ d, dependency n = Some d → d ∈ l) ∧ grounded l end.
Record placing (visiting : list nat) (placed : list nat) : Prop := { pl_nodup : NoDup placed; pl_bound : ∀ n, n ∈ placed → (n < N)%nat; pl_grounded : grounded placed }.
Lemma place_spec fuel visiting n placed placed' : place records m fuel visiting n placed = Ok placed' → placing visiting placed → (n < N)%nat →
  placing visiting placed' ∧ n ∈ placed' ∧ (∀ k, k ∈ placed → k ∈ placed') ∧ (∀ v, v ∈ visiting → v ∉ placed → v ∉ placed').
Proof.
  revert visiting n placed placed'. induction fuel as [|fuel IH]; intros visiting n placed placed'; [done|]. rewrite place_eq.
  destruct (bool_decide (n ∈ placed)) eqn:Ep; [apply bool_decide_eq_true in Ep; by intros [= <-] ? ?|]. apply bool_decide_eq_false in Ep.
  destruct (bool_decide (n ∈ visiting)) eqn:Ev; [done|]. apply bool_decide_eq_false in Ev. intros (placed1&E&[= <-])%result_bind_Ok Hp Hn.
  assert (placing visiting placed1 ∧ (∀ d, dependency n = Some d → d ∈ placed1) ∧ (∀ k, k ∈ placed → k ∈ placed1) ∧ n ∉ placed1 ∧ (∀ v, v ∈ visiting → v ∉ placed → v ∉ placed1)) as ([H1 H2 H3]&Hd&Hs&Hnot&Hv).
  { destruct (dependency n) as [d|] eqn:Ed.
    - apply IH in E as ([H1 H2 H3]&Hd&Hs&Hv); [|by destruct Hp; split|by eapply Hm]. split_and!; [by split|by intros ? [= <-]|done|apply Hv; [by left|done]|]. intros v Hvv. apply Hv. by right.
    - injection E as <-. by split_and!. }
  split; [|split_and!].
  - split; [by constructor|by intros k [->|Hk]%elem_of_cons; [|apply H2]|by split].
  - by left.
  - intros k Hk. right. by apply Hs.
  - intros v Hvv Hvn [->|Hx]%elem_of_cons; [done|]. by apply (Hv v).
Qed.
(** The fuel is enough: the records being visited are different. *)
Lemma place_fuel fuel visiting n placed : NoDup visiting → (∀ v, v ∈ visiting → (v < N)%nat) → (n < N)%nat → (N < length visiting + fuel)%nat → place records m fuel visiting n placed ≠ Throw OutOfFuel.
Proof.
  revert visiting n placed. induction fuel as [|fuel IH]; intros visiting n placed Hnd Hb Hn Hl.
  - assert (length visiting ≤ N)%nat; [|lia]. rewrite <-(length_seq N 0). apply submseteq_length, NoDup_submseteq; [done|]. intros v Hv. apply elem_of_seq. specialize (Hb v Hv). lia.
  - rewrite place_eq. destruct (bool_decide (n ∈ placed)); [done|]. destruct (bool_decide (n ∈ visiting)) eqn:Ev; [done|]. apply bool_decide_eq_false in Ev.
    destruct (dependency n) as [d|] eqn:Ed; [|done]. specialize (IH (n :: visiting) d placed). destruct (place records m fuel (n :: visiting) d placed) as [p|e]; [done|]. cbn [result_bind]. intros [= ->].
    apply IH; [by constructor|intros v [->|Hv]%elem_of_cons; auto|by eapply Hm|cbn [length]; lia|done].
Qed.
Lemma place_all_spec fuel todo placed placed' : place_all records m fuel todo placed = Ok placed' → placing [] placed → (∀ n, n ∈ todo → (n < N)%nat) →
  placing [] placed' ∧ (∀ k, k ∈ placed → k ∈ placed') ∧ ∀ n, n ∈ todo → n ∈ placed'.
Proof.
  revert placed. induction todo as [|n todo IH]; intros placed; cbn [place_all]; [intros [= <-] Hp _; split_and!; [done|done|by intros n ?%not_elem_of_nil]|].
  intros (placed1&E1&E)%result_bind_Ok Hp Hb. apply place_spec in E1 as (Hp1&Hn&Hs&_); [|done|apply Hb; by left]. apply IH in E as (Hp2&Hs2&Ht); [|done|intros k Hk; apply Hb; by right].
  split_and!; [done|auto|]. intros k [->|Hk]%elem_of_cons; auto.
Qed.
Lemma place_all_fuel fuel todo placed : (N < fuel)%nat → (∀ n, n ∈ todo → (n < N)%nat) → place_all records m fuel todo placed ≠ Throw OutOfFuel.
Proof.
  intros Hf. revert placed. induction todo as [|n todo IH]; intros placed Hb; cbn [place_all]; [done|]. pose proof (place_fuel fuel [] n placed) as Hp.
  destruct (place records m fuel [] n placed) as [p|e]; cbn [result_bind]; [apply IH; intros k Hk; apply Hb; by right|]. intros [= ->]. apply Hp; [constructor|by intros v ?%not_elem_of_nil|apply Hb; by left|cbn; lia|done].
Qed.
Definition depends (n d : nat) : Prop := dependency n = Some d.
(** A record is refused only where the ones that led to it lead back to it. *)
Lemma place_throws fuel visiting n placed e : place records m fuel visiting n placed = Throw e → e ≠ OutOfFuel → (∀ v, v ∈ visiting → tc depends v n) →
  e = HydrationFailed KERNEL_AUTHORITY_REFERENCE_INVALID ∧ ∃ k, tc depends k k.
Proof.
  revert visiting n placed. induction fuel as [|fuel IH]; intros visiting n placed; [by intros [= <-]|]. rewrite place_eq. destruct (bool_decide (n ∈ placed)); [done|].
  destruct (bool_decide (n ∈ visiting)) eqn:Ev; [intros [= <-] _ Hv; split; [done|]; exists n; apply Hv; by apply bool_decide_eq_true in Ev|].
  destruct (dependency n) as [d|] eqn:Ed; [|done]. destruct (place records m fuel (n :: visiting) d placed) as [p|e'] eqn:Ep; [done|]. cbn [result_bind]. intros [= ->] He Hv.
  apply IH in Ep; [done|done|]. intros v [->|Hvv]%elem_of_cons; [by apply tc_once|]. eapply tc_r; [by apply Hv|done].
Qed.
Lemma place_all_throws fuel todo placed e : place_all records m fuel todo placed = Throw e → e ≠ OutOfFuel → e = HydrationFailed KERNEL_AUTHORITY_REFERENCE_INVALID ∧ ∃ k, tc depends k k.
Proof.
  revert placed. induction todo as [|n todo IH]; intros placed; cbn [place_all]; [done|]. destruct (place records m fuel [] n placed) as [p|e'] eqn:Ep; cbn [result_bind]; [apply IH|].
  intros [= ->] He. apply place_throws in Ep; [done|done|]. by intros v ?%not_elem_of_nil.
Qed.
Lemma grounded_closed placed n d : grounded placed → tc depends n d → n ∈ placed → d ∈ placed.
Proof.
  intros Hg Ht. induction Ht as [n d Hd|n k d Hd _ IH]; intros Hn; [|apply IH]; clear -Hg Hn Hd; (induction placed as [|x l IHl]; [by apply not_elem_of_nil in Hn|]; destruct Hg as [Hx Hg];
    apply elem_of_cons in Hn as [->|Hn]; right; [by apply Hx|by apply IHl]).
Qed.
Lemma grounded_acyclic placed n : NoDup placed → grounded placed → n ∈ placed → ¬ tc depends n n.
Proof.
  induction 1 as [|x l Hx Hnd IH]; [by intros _ ?%not_elem_of_nil|]. intros [Hg1 Hg2] [->|Hn]%elem_of_cons Ht; [|by apply IH]. apply Hx.
  inversion Ht as [? ? Hd|? d ? Hd Ht']; subst; [by apply Hg1|]. by apply (grounded_closed l d); [| |apply Hg1].
Qed.
Lemma depends_bound n k : depends n k → (n < N)%nat.
Proof. unfold depends, dependency. intros (r&Hr&_)%bind_Some. by apply lookup_lt_Some in Hr. Qed.
End Order.

Lemma index_sound n rs m : (∀ k v, map_get k (index_records n rs m) = Some v → (∃ r, rs !! (v - n)%nat = Some r ∧ (n ≤ v)%nat ∧ kind_and_id (kr_entityKind r) (kr_entityId r) = k) ∨ map_get k m = Some v).
Proof.
  revert n m. induction rs as [|r rs IH]; intros n m k v; cbn [index_records]; [by right|]. intros [(r'&Hr&Hle&Hk)|Hv]%IH.
  - left. exists r'. split_and!; [|lia|done]. replace (v - n)%nat with (S (v - S n)) by lia. done.
  - rewrite map_get_set in Hv. destruct (str_eqb _ k) eqn:Ek; [|by right]. apply str_eqb_eq in Ek. injection Hv as <-. left. exists r. by rewrite Nat.sub_diag.
Qed.
Lemma index_found n rs m k : is_Some (map_get k m) ∨ (∃ r, r ∈ rs ∧ kind_and_id (kr_entityKind r) (kr_entityId r) = k) → is_Some (map_get k (index_records n rs m)).
Proof.
  revert n m. induction rs as [|r rs IH]; intros n m; cbn [index_records]; [intros [?|(r&?%not_elem_of_nil&_)]; done|]. intros Hx. apply IH. rewrite map_get_set. destruct (str_eqb _ k) eqn:Ek; [left; by eexists|].
  destruct Hx as [?|(r'&[->|Hr']%elem_of_cons&Hk)]; [by left|apply str_eqb_neq in Ek; congruence|right; by exists r'].
Qed.
Lemma kind_and_id_inj k i k' i' : kind_and_id k i = kind_and_id k' i' → k = k' ∧ i = i'.
Proof. unfold kind_and_id. intros E. apply split_at in E as [E ->]; [|apply kind_spaceless|apply kind_spaceless]. by apply kind_name_inj in E as ->. Qed.
Lemma omap_positions {A} (pre l : list A) : omap (λ n, (pre ++ l) !! n) (seq (length pre) (length l)) = l.
Proof.
  revert pre. induction l as [|x l IH]; intros pre; [done|]. cbn [length seq]. cbn [omap list_omap]. rewrite list_lookup_middle by done. f_equal. specialize (IH (pre ++ [x])). rewrite <-app_assoc, length_app in IH. cbn in IH.
  by replace (length pre + 1)%nat with (S (length pre)) in IH by lia.
Qed.
Lemma omap_split {A B} (f : A → option B) ns l1 r l2 : Forall (λ n, is_Some (f n)) ns → omap f ns = l1 ++ r :: l2 → ∃ a n b, ns = a ++ n :: b ∧ omap f a = l1 ∧ f n = Some r.
Proof.
  revert l1. induction ns as [|n ns IH]; intros l1 Hf E; [by destruct l1|]. inversion_clear Hf as [|? ? [x Hx] Hns]. cbn [omap list_omap] in E. rewrite Hx in E. destruct l1 as [|y l1].
  - injection E as -> _. by exists [], n, ns.
  - injection E as -> E. destruct (IH l1 Hns E) as (a&n'&b&->&Ha&Hn). exists (n :: a), n', b. split_and!; [done| |done]. cbn [omap list_omap]. by rewrite Hx, Ha.
Qed.

Section Ordered.
Context (records : list KernelAuthorityRecord).
Local Notation index := (index_records 0 records []).
Lemma dependency_spec n d : dependency records index n = Some d →
  ∃ r r' id, records !! n = Some r ∧ intraKindDependencyOf r = Some id ∧ records !! d = Some r' ∧ kr_entityKind r' = kr_entityKind r ∧ kr_entityId r' = id.
Proof.
  unfold dependency. intros (r&Hr&(id&Hid&Hd)%bind_Some)%bind_Some. apply index_sound in Hd as [(r'&Hr'&_&Hk)|Hd]; [|done]. rewrite Nat.sub_0_r in Hr'. apply kind_and_id_inj in Hk as [Hk <-].
  by exists r, r', (kr_entityId r').
Qed.
Lemma dependency_bound n d : dependency records index n = Some d → (d < length records)%nat.
Proof. intros (r&r'&id&_&_&Hr'&_)%dependency_spec. by apply lookup_lt_Some in Hr'. Qed.
Lemma order_throws e : orderByDependency records = Throw e → e = HydrationFailed KERNEL_AUTHORITY_REFERENCE_INVALID ∧ ∃ n, tc (depends records index) n n.
Proof.
  unfold orderByDependency. pose proof (place_all_fuel records index dependency_bound (S (S (length records))) (seq 0 (length records)) []) as Hf.
  destruct (place_all _ _ _ _ _) as [p|e'] eqn:Ep; cbn [result_bind]; [done|]. intros [= ->]. apply place_all_throws in Ep; [done|]. intros ->. apply Hf; [lia|by intros n [_ ?]%elem_of_seq|done].
Qed.
Lemma ordered_facts ordered : orderByDependency records = Ok ordered → ordered ≡ₚ records ∧
  ∀ l1 r l2, ordered = l1 ++ r :: l2 → ∀ id d, intraKindDependencyOf r = Some id → d ∈ records → kr_entityKind d = kr_entityKind r → kr_entityId d = id →
    ∃ d', d' ∈ l1 ∧ kr_entityKind d' = kr_entityKind r ∧ kr_entityId d' = id.
Proof.
  unfold orderByDependency. intros (placed&E&[= <-])%result_bind_Ok. apply (place_all_spec records index dependency_bound) in E as ([Hnd Hb Hg]&_&Hall); [|split; [constructor|by intros n ?%not_elem_of_nil|done]|by intros n [_ ?]%elem_of_seq].
  split.
  - assert (placed ≡ₚ seq 0 (length records)) as Hp.
    { apply NoDup_Permutation; [done|apply NoDup_seq|]. intros n. split; [intros Hn; apply elem_of_seq; specialize (Hb n Hn); lia|apply Hall]. }
    rewrite reverse_Permutation, Hp. by rewrite (omap_positions (A := KernelAuthorityRecord) [] records : omap (λ n, records !! n) (seq 0 (length records)) = records).
  - intros l1 r l2 El id d Hid Hd Hk Hi. apply omap_split in El as (a&n&b&En&<-&Hn).
    2:{ apply Forall_forall. intros n Hn. rewrite elem_of_reverse in Hn. apply lookup_lt_is_Some, Hb, Hn. }
    assert (∃ d', dependency records index n = Some d') as [d' Hd'].
    { unfold dependency. rewrite Hn. cbn [mbind option_bind]. rewrite Hid. cbn [mbind option_bind]. apply (index_found 0 records []). right. exists d. by rewrite Hk, Hi. }
    destruct (dependency_spec _ _ Hd') as (r0&r'&id'&Hr0&Hid'&Hr'&Hk'&Hi'). assert (r0 = r) as -> by congruence. assert (id' = id) as -> by congruence. exists r'. split_and!; [|done|done].
    assert (d' ∈ a) as Hda.
    { assert (placed = reverse b ++ n :: reverse a) as -> by (by rewrite <-(reverse_involutive placed), En, reverse_app, reverse_cons, <-app_assoc).
      clear -Hg Hd'. induction (reverse b) as [|x l IH]; cbn [app grounded] in Hg; [|by apply IH, Hg]. destruct Hg as [Hg _]. by apply elem_of_reverse, Hg. }
    apply list_elem_of_omap. by exists d'.
Qed.
(** The records can be ordered exactly when no one of them depends on itself. *)
Lemma order_acyclic : (∃ ordered, orderByDependency records = Ok ordered) ↔ ¬ ∃ n, tc (depends records index) n n.
Proof.
  split.
  - unfold orderByDependency. intros (ordered&(placed&E&_)%result_bind_Ok) (n&Hn). apply (place_all_spec records index dependency_bound) in E as ([Hnd Hb Hg]&_&Hall); [|split; [constructor|by intros k ?%not_elem_of_nil|done]|by intros k [_ ?]%elem_of_seq].
    apply (grounded_acyclic records index placed n); [done|done| |done]. apply Hall, elem_of_seq. assert (n < length records)%nat; [|lia]. inversion Hn as [? ? Hd|? k ? Hd _]; subst; by apply depends_bound in Hd.
  - intros Hn. destruct (orderByDependency records) as [ordered|e] eqn:E; [by exists ordered|]. by apply order_throws in E as [_ ?].
Qed.
End Ordered.

(** ** The world *)

(** Filed under the id its payload names, as the provisioning service files it. *)
Definition payload_fields (r : KernelAuthorityRecord) : JsMap Json := match kr_payload r with JObj fs => fs | _ => [] end.
Definition replayed_id (r : KernelAuthorityRecord) : string := entity_id_of (kr_entityKind r) (payload_fields r).
Definition well_named (r : KernelAuthorityRecord) : Prop := replayed_id r = kr_entityId r.
Lemma payload_field k r : text_field k (payload_fields r) = payload_str k r.
Proof. unfold text_field, payload_fields, payload_str, payload_text, json_field. destruct (kr_payload r) as [| | | | | |fs]; try done. by destruct (map_get k fs) as [[]|]. Qed.
Section Projection.
Context `{JsHost}.
(** What an entry of the runtime keeps of the record it was replayed from. *)
Definition actor_from (r : KernelAuthorityRecord) (k : string) (a : Actor) : Prop :=
  kr_entityKind r = ek_actor ∧ replayed_id r = k ∧ ac_type a = ra_type (actor_input r) ∧ ac_issuerId a = payload_text "issuerId" r.
Definition passport_from (r : KernelAuthorityRecord) (k : string) (p : Passport) : Prop :=
  kr_entityKind r = ek_passport ∧ replayed_id r = k ∧ pa_subjectActorId p = payload_str "subjectActorId" r ∧ pa_trustDomainId p = payload_str "trustDomainId" r ∧ pa_expiresAt p = payload_text "expiresAt" r.
Definition token_from (r : KernelAuthorityRecord) (k : string) (t : RecognitionCapabilityToken) : Prop :=
  kr_entityKind r = ek_capability_token ∧ replayed_id r = k ∧ ∃ terms id at_ s, t = token_with s (build_token (token_input r) terms id at_).
Record projection (records : list KernelAuthorityRecord) (rt : RecognitionRuntime) : Prop := {
  pj_actor : ∀ k a, map_get k (rn_actors rt) = Some a → ∃ r, r ∈ records ∧ actor_from r k a;
  pj_passport : ∀ k p, map_get k (rn_passports rt) = Some p → ∃ r, r ∈ records ∧ passport_from r k p;
  pj_token : ∀ k t, map_get k (rn_tokens rt) = Some t → ∃ r, r ∈ records ∧ token_from r k t }.
Lemma projection_calls records n rt : projection records rt → projection records (at_call n rt).
Proof. by intros [H1 H2 H3]. Qed.
Lemma projection_actor records r k a rt : r ∈ records → actor_from r k a → projection records rt → projection records (set_actor k a rt).
Proof. intros Hr Ha [H1 H2 H3]. split; [|done|done]. intros k' a'. cbn [set_actor rn_actors]. rewrite map_get_set. destruct (str_eqb k k') eqn:E; [|apply H1]. apply str_eqb_eq in E as <-. intros [= <-]. by exists r. Qed.
Lemma projection_passport records r k p rt : r ∈ records → passport_from r k p → projection records rt → projection records (set_passport k p rt).
Proof. intros Hr Ha [H1 H2 H3]. split; [done| |done]. intros k' p'. cbn [set_passport rn_passports]. rewrite map_get_set. destruct (str_eqb k k') eqn:E; [|apply H2]. apply str_eqb_eq in E as <-. intros [= <-]. by exists r. Qed.
Lemma projection_token records r k t rt : r ∈ records → token_from r k t → projection records rt → projection records (set_token k t rt).
Proof. intros Hr Ha [H1 H2 H3]. split; [done|done|]. intros k' t'. cbn [set_token rn_tokens]. rewrite map_get_set. destruct (str_eqb k k') eqn:E; [|apply H3]. apply str_eqb_eq in E as <-. intros [= <-]. by exists r. Qed.
Lemma projection_domain records d rt : projection records rt → projection records (set_domain d rt).
Proof. by intros [H1 H2 H3]. Qed.
End Projection.

Section World.
Context `{JsHost} (cfg : RecognitionConfiguration) (ctx : AuthorityRuntimeContext) (records : list KernelAuthorityRecord).

Lemma apply_each_keeps (f : KernelAuthorityRecord → KernelWorld → result HydrationError KernelWorld) (P : KernelWorld → Prop) l w w' :
  apply_each f l w = Ok w' → (∀ r x y, r ∈ l → f r x = Ok y → P x → P y) → P w → P w'.
Proof.
  revert w. induction l as [|r l IH]; intros w; cbn [apply_each]; [by intros [= <-]|]. intros (w1&E1&E)%result_bind_Ok Hf HP. apply (IH w1); [done|intros r' x y Hr; apply Hf; by right|]. by apply (Hf r w); [left| |].
Qed.
Lemma apply_each_all (f : KernelAuthorityRecord → KernelWorld → result HydrationError KernelWorld) (Q : KernelAuthorityRecord → KernelWorld → Prop) l w w' :
  apply_each f l w = Ok w' → (∀ r x y, f r x = Ok y → Q r y) → (∀ r r' x y, f r' x = Ok y → Q r x → Q r y) → ∀ r, r ∈ l → Q r w'.
Proof.
  intros E Hnew Hold. revert w E. induction l as [|r0 l IH]; intros w; cbn [apply_each]; [by intros _ r ?%not_elem_of_nil|]. intros (w1&E1&E)%result_bind_Ok r [->|Hr]%elem_of_cons; [|by apply (IH w1)].
  apply (apply_each_keeps f (Q r0) l w1); [done| |by eapply Hnew]. intros r' x y _. apply Hold.
Qed.
Lemma on_recognition_Ok {A} e (m : RM A) w w' : on_recognition e m w = Ok w' → ∃ a, m (kw_recognition w) = (Ok a, kw_recognition w').
Proof. unfold on_recognition. destruct (m (kw_recognition w)) as [[a|x] rt]; [|done]. intros [= <-]. by exists a. Qed.
Lemma on_authority_Ok {A} e (m : AuthorityRuntime.M A) w w' : on_authority e m w = Ok w' → kw_recognition w' = kw_recognition w.
Proof. unfold on_authority. destruct (m (kw_authority w)) as [[a rt]|x]; [|done]. by intros [= <-]. Qed.
Lemma parties_Ok a d rt x rt' : known_parties a d rt = (Ok x, rt') → rt' = rt.
Proof. unfold known_parties. intros (?&?&[= <- <-]&E)%rbind_Ok. destruct (negb _); [done|]. destruct (negb _); [done|]. by injection E as _ <-. Qed.

Lemma provisioned_projection r w w' : applyProvisioned cfg ctx r w = Ok w' → r ∈ records → projection records (kw_recognition w) → projection records (kw_recognition w').
Proof.
  unfold applyProvisioned. destruct (let* _ := _ in _); [|done]. intros E Hr Hp. destruct (kr_entityKind r) eqn:Ek; try (apply on_authority_Ok in E as ->; done); apply on_recognition_Ok in E as [x E].
  - injection E as _ <-. apply (projection_actor _ r); [done| |by apply (projection_calls _ (S (rn_calls (kw_recognition w))))]. unfold actor_from, replayed_id. rewrite Ek. cbn [entity_id_of]. by rewrite payload_field.
  - injection E as _ <-. by apply projection_domain, (projection_calls _ (S (rn_calls (kw_recognition w)))).
  - apply rbind_Ok in E as (?&rt1&->%parties_Ok&E). injection E as _ <-. apply (projection_passport _ r); [done| |by apply (projection_calls _ (S (rn_calls (kw_recognition w))))]. unfold passport_from, replayed_id. rewrite Ek. cbn [entity_id_of]. by rewrite payload_field.
  - apply rbind_Ok in E as (?&rt1&->%parties_Ok&E). apply rbind_Ok in E as (?&?&[= <- <-]&E). apply rbind_Ok in E as (terms&?&Et&E). injection Et as _ <-. injection E as _ <-.
    apply (projection_token _ r); [done| |by apply (projection_calls _ (S (rn_calls (kw_recognition w))))]. unfold token_from, replayed_id. rewrite Ek. cbn [entity_id_of]. rewrite payload_field. split_and!; [done|done|].
    by exists terms, (payload_str "capabilityTokenId" r), (rc_now cfg (rn_calls (kw_recognition w))), cr_valid.
Qed.
(** A record's revocation has been applied. *)
Definition out (r : KernelAuthorityRecord) (rt : RecognitionRuntime) : Prop :=
  match kr_entityKind r with
  | ek_actor => ∃ a, map_get (kr_entityId r) (rn_actors rt) = Some a ∧ ac_status a = as_revoked
  | ek_passport => passport_withdrawn (kr_entityId r) rt
  | ek_capability_token => token_withdrawn (kr_entityId r) rt
  | _ => True
  end.
(** What the revocation of a record does to the recognition runtime. *)
Inductive withdraws (r : KernelAuthorityRecord) (rt : RecognitionRuntime) : RecognitionRuntime → Prop :=
  | withdraws_nothing : kr_entityKind r ∉ [ek_actor; ek_passport; ek_capability_token] → withdraws r rt rt
  | withdraws_actor a at_ : kr_entityKind r = ek_actor → map_get (kr_entityId r) (rn_actors rt) = Some a → withdraws r rt (set_actor (kr_entityId r) (actor_with as_revoked at_ a) (rtick rt))
  | withdraws_passport p : kr_entityKind r = ek_passport → map_get (kr_entityId r) (rn_passports rt) = Some p → withdraws r rt (set_passport (kr_entityId r) (passport_with cr_revoked p) rt)
  | withdraws_token t : kr_entityKind r = ek_capability_token → map_get (kr_entityId r) (rn_tokens rt) = Some t → withdraws r rt (set_token (kr_entityId r) (token_with cr_revoked t) rt).
Lemma revocation_withdraws r w w' : applyRevocation cfg r w = Ok w' → withdraws r (kw_recognition w) (kw_recognition w').
Proof.
  unfold applyRevocation. intros E. destruct (kr_entityKind r) eqn:Ek; try (apply on_authority_Ok in E as ->; constructor; rewrite Ek, !elem_of_cons, elem_of_nil; by intuition congruence);
    try (injection E as <-; constructor; rewrite Ek, !elem_of_cons, elem_of_nil; by intuition congruence); apply on_recognition_Ok in E as [x E]; apply rbind_Ok in E as (?&?&[= <- <-]&E);
    destruct (map_get _ _) as [y|] eqn:Ey; try done; injection E as _ <-; by constructor.
Qed.
Lemma withdraws_out r rt rt' : withdraws r rt rt' → out r rt'.
Proof.
  intros Hw. unfold out. destruct Hw as [Hk|a at_ Hk Hg|p Hk Hg|t Hk Hg].
  - rewrite !elem_of_cons, elem_of_nil in Hk. destruct (kr_entityKind r); intuition.
  - rewrite Hk. cbn. rewrite map_get_set_eq. by eexists.
  - rewrite Hk. eexists. cbn. rewrite map_get_set_eq. by split; [|right].
  - rewrite Hk. eexists. cbn. rewrite map_get_set_eq. by split; [|right].
Qed.
Lemma withdraws_keeps r r' rt rt' : withdraws r' rt rt' → out r rt → out r rt'.
Proof.
  intros Hw. unfold out. destruct Hw as [Hk|a at_ Hk Hg|p Hk Hg|t Hk Hg]; [done|destruct (kr_entityKind r); try done..].
  - intros (a0&Ha&Hs). cbn [set_actor rn_actors rtick]. rewrite map_get_set. destruct (str_eqb _ _); [by eexists|by exists a0].
  - intros (p0&Ha&Hs). unfold passport_withdrawn. cbn [set_passport rn_passports]. rewrite map_get_set. destruct (str_eqb _ _); [eexists; by split; [|right]|by exists p0].
  - intros (t0&Ha&Hs). unfold token_withdrawn. cbn [set_token rn_tokens]. rewrite map_get_set. destruct (str_eqb _ _); [eexists; by split; [|right]|by exists t0].
Qed.
Lemma withdraws_projection r rt rt' : withdraws r rt rt' → projection records rt → projection records rt'.
Proof.
  intros Hw Hp. destruct Hw as [Hk|a at_ Hk Hg|p Hk Hg|t Hk Hg]; [done|..].
  - destruct (pj_actor _ _ Hp _ _ Hg) as (r0&Hr0&Hf). apply (projection_actor _ r0); [done|done|]. by apply (projection_calls _ (S (rn_calls rt))).
  - destruct (pj_passport _ _ Hp _ _ Hg) as (r0&Hr0&Hf). by apply (projection_passport _ r0).
  - destruct (pj_token _ _ Hp _ _ Hg) as (r0&Hr0&Hk0&Hi0&terms&id&at_&s&->). apply (projection_token _ r0); [done| |done]. split_and!; [done|done|]. by exists terms, id, at_, cr_revoked.
Qed.

(** The hydrated runtime is the projection of the records, and the revoked ones are out. *)
Lemma hydrated_facts w ordered : hydrateKernelAuthorityWorld cfg ctx records = Ok (w, ordered) →
  projection records (kw_recognition w) ∧ ∀ r, r ∈ records → kr_status r = es_revoked → out r (kw_recognition w).
Proof.
  unfold hydrateKernelAuthorityWorld. intros (o&Eo&E)%result_bind_Ok. apply result_bind_Ok in E as (w1&E1&E). apply result_bind_Ok in E as (w2&E2&[= <- <-]). apply ordered_facts in Eo as [Ho _]. split.
  - apply (apply_each_keeps _ (λ w, projection records (kw_recognition w)) _ _ _ E2); [intros r x y _ Hf; by apply (withdraws_projection r), revocation_withdraws|].
    apply (apply_each_keeps _ (λ w, projection records (kw_recognition w)) _ _ _ E1); [intros r x y Hr Hf; eapply provisioned_projection; [done|by rewrite <-Ho]|]. by split.
  - intros r Hr Hs. apply (apply_each_all _ (λ r w, out r (kw_recognition w)) _ _ _ E2); [intros r' x y Hf; by eapply withdraws_out, revocation_withdraws|intros r1 r2 x y Hf; by eapply withdraws_keeps, revocation_withdraws|].
    apply list_elem_of_In, filter_In. split; [by apply list_elem_of_In|]. by apply bool_decide_eq_true.
Qed.
End World.

(** ** Claims *)

(** C22. Hydration orders the records or says why it cannot: it never loops; the order
    holds every record of the organization exactly once; a grant or a delegation
    comes after the one of its kind it depends on; it fails only with the invalid
    reference, and exactly when some record depends on itself through others. *)
Theorem hydration_order records :
  match orderByDependency records with
  | Ok ordered => ordered ≡ₚ records ∧
      ∀ l1 r l2, ordered = l1 ++ r :: l2 → ∀ id d, intraKindDependencyOf r = Some id → d ∈ records → kr_entityKind d = kr_entityKind r → kr_entityId d = id →
        ∃ d', d' ∈ l1 ∧ kr_entityKind d' = kr_entityKind r ∧ kr_entityId d' = id
  | Throw e => e = HydrationFailed KERNEL_AUTHORITY_REFERENCE_INVALID
  end ∧
  ((∃ ordered, orderByDependency records = Ok ordered) ↔ ¬ ∃ n, tc (depends records (index_records 0 records [])) n n).
Proof. split; [|apply order_acyclic]. destruct (orderByDependency records) as [ordered|e] eqn:E; [by apply ordered_facts|by apply order_throws in E as [? _]]. Qed.

Lemma approval_record t action : is_Some (approval_asked (Some t) action) → ∃ a, ct_approvalRequirement t = Some a ∧ action ∈ pq_actions a.
Proof. unfold approval_asked. cbn [mbind option_bind]. destruct (ct_approvalRequirement t) as [a|]; [|by intros [? ?]]. destruct (bool_decide _) eqn:E; [|by intros [? ?]]. apply bool_decide_eq_true in E. by exists a. Qed.
(** The terms of an active token record that a request rests on. *)
Definition token_record_covers (t : KernelAuthorityRecord) (q : ActionRequest) (now : string) : Prop :=
  payload_str "subjectActorId" t = aq_actorId q ∧ payload_str "trustDomainId" t = aq_trustDomainId q ∧ expired_by (payload_text "expiresAt" t) now = false ∧
  aq_action q ∉ default [] (payload_list "prohibitedActions" t) ∧ (∃ s, s ∈ payload_texts "resourceScopes" t ∧ within_scope (aq_resource q) s = true) ∧
  (aq_action q ∈ payload_texts "actions" t ∨ ∃ a, it_approvalRequirement (token_input t) = Some a ∧ aq_action q ∈ pq_actions a).
Definition active_record (records : list KernelAuthorityRecord) (k : KernelAuthorityEntityKind) (id : string) (r : KernelAuthorityRecord) : Prop :=
  r ∈ records ∧ kr_entityKind r = k ∧ kr_entityId r = id ∧ kr_status r = es_active.

(** The request rests on an active actor, passport and token record at [now]. *)
Definition rests_on_active_records (records : list KernelAuthorityRecord) (q : ActionRequest) (now : string) : Prop :=
  ∃ a p t pid tid, active_record records ek_actor (aq_actorId q) a ∧ aq_passportId q = Some pid ∧ active_record records ek_passport pid p ∧
    payload_str "subjectActorId" p = aq_actorId q ∧ expired_by (payload_text "expiresAt" p) now = false ∧
    aq_capabilityTokenId q = Some tid ∧ active_record records ek_capability_token tid t ∧ token_record_covers t q now.
(** A runtime hydrated from the records, on which requests may have been verified since. *)
Definition hydrated_from `{JsHost} (cfg : RecognitionConfiguration) (ctx : AuthorityRuntimeContext) (records : list KernelAuthorityRecord) (rt : RecognitionRuntime) : Prop :=
  Forall well_named records ∧ ∃ w ordered, hydrateKernelAuthorityWorld cfg ctx records = Ok (w, ordered) ∧ same_registries (kw_recognition w) rt.
Lemma hydrated_sanctioned `{JsHost} cfg ctx records rt n q : hydrated_from cfg ctx records rt → sanctioned cfg (at_call n rt) q → rests_on_active_records records q (rc_now cfg n).
Proof.
  intros (Hnamed&w&ordered&[Hp Hout]%hydrated_facts&Hsame) (sv&_&((a&d&Ha&Hs&_)&(pid&p&Epid&Hpp&Hlp&Hsub&_)&(tid&t&Etid&Ht&Hlt&Hsubt&Hdom&Hpro&Hgr&Hsc&_))&_). rewrite Forall_forall in Hnamed.
  destruct Hsame as (Sa&_&Sp&St). cbn [at_call rn_actors rn_passports rn_tokens] in Ha, Hpp, Ht. rewrite Sa in Ha. rewrite Sp in Hpp. rewrite St in Ht.
  destruct (pj_actor _ _ Hp _ _ Ha) as (ra&Hra&Hka&Hia&_). destruct (pj_passport _ _ Hp _ _ Hpp) as (rp&Hrp&Hkp&Hip&Hsp&_&Hxp). destruct (pj_token _ _ Hp _ _ Ht) as (rk&Hrk&Hkk&Hik&terms&id&at_&s&->).
  rewrite (Hnamed _ Hra) in Hia. rewrite (Hnamed _ Hrp) in Hip. rewrite (Hnamed _ Hrk) in Hik.
  exists ra, rp, rk, pid, tid. split_and!; [split_and!; [done..|]|done|split_and!; [done..|]|congruence|by rewrite <-Hxp; apply Hlp|done|split_and!; [done..|]|].
  - destruct (kr_status ra) eqn:Est; [done|]. apply Hout in Est; [|done]. unfold out in Est. rewrite Hka, Hia in Est. destruct Est as (a'&Ha'&Hs'). cbn in Ha. congruence.
  - destruct (kr_status rp) eqn:Est; [done|]. apply Hout in Est; [|done]. unfold out in Est. rewrite Hkp, Hip in Est. destruct Est as (p'&Hp'&Hs'). cbn in Hpp. rewrite Hpp in Hp'. injection Hp' as <-. by destruct (live_not_withdrawn _ _ _ Hlp).
  - destruct (kr_status rk) eqn:Est; [done|]. apply Hout in Est; [|done]. unfold out in Est. rewrite Hkk, Hik in Est. destruct Est as (t'&Ht'&Hs'). cbn in Ht. rewrite Ht in Ht'. injection Ht' as <-. by destruct (live_not_withdrawn _ _ _ Hlt).
  - destruct Hlt as (_&_&Hx). unfold token_record_covers. split_and!; [done..|]. destruct Hgr as [?|Hgr]; [by left|]. right. apply approval_record in Hgr. done.
Qed.

(** In a hydrated world authority rests on active records: when every record is
    filed under the id its payload names, a request the recognition runtime
    sanctions has an actor, a passport and a capability token that are each an
    active record of the organization, never a revoked one, and the terms it is
    judged by (subject, trust domain, expiry, actions, prohibitions, scopes) are
    those the records state. *)
Theorem hydrated_rests_on_active_records `{JsHost} (cfg : RecognitionConfiguration) (ctx : AuthorityRuntimeContext) records w ordered rt n q : Forall well_named records →
  hydrateKernelAuthorityWorld cfg ctx records = Ok (w, ordered) → same_registries (kw_recognition w) rt → sanctioned cfg (at_call n rt) q → rests_on_active_records records q (rc_now cfg n).
Proof. intros Hn Hw Hs. apply (hydrated_sanctioned cfg ctx). split; [done|]. by exists w, ordered. Qed.


Module HydrationDemo.

#[local] Existing Instance demo_host.

Definition ctx : AuthorityRuntimeContext := {| AuthorityRuntime.clock_now := λ _, "2026-01-01"; AuthorityRuntime.ids_nextId := λ n prefix, prefix +:+ "-" +:+ number_text (Z.of_nat n) |}.
Definition filed (k : KernelAuthorityEntityKind) (id : string) (s : KernelAuthorityEntityStatus) (payload : JsMap Json) : KernelAuthorityRecord :=
  {| kr_organizationId := "org-1"; kr_entityKind := k; kr_entityId := id; kr_trustDomainId := Some "domain-1"; kr_status := s; kr_payload := JObj payload; kr_provisionedBy := "ops-1";
     kr_provisionedAt := "2026-01-01"; kr_revokedBy := None; kr_revokedAt := None; kr_revocationReason := None; kr_latestSequence := 1; kr_latestEventDigest := "" |}.
Definition held_by_agent : JsMap Json := [("subjectActorId", JTxt "agent-1"); ("issuerActorId", JTxt "issuer-1"); ("trustDomainId", JTxt "domain-1"); ("expiresAt", JTxt "2027-01-01")].
Definition token_record (id : string) (s : KernelAuthorityEntityStatus) : KernelAuthorityRecord :=
  filed ek_capability_token id s (("capabilityTokenId", JTxt id) :: held_by_agent ++ [("principalActorId", JTxt "human-1"); ("capability", JTxt "treasury"); ("actions", json_texts ["read"]);
    ("resourceScopes", json_texts ["account"]); ("riskLevel", JTxt "low")]).
Definition records : list KernelAuthorityRecord := [
  filed ek_actor "agent-1" es_active [("actorId", JTxt "agent-1"); ("type", JTxt "agent"); ("displayName", JTxt "Agent"); ("issuerId", JTxt "issuer-1")];
  filed ek_trust_domain "domain-1" es_active [("trustDomainId", JTxt "domain-1"); ("name", JTxt "Republic"); ("issuerActorId", JTxt "issuer-1"); ("acceptedIssuerIds", json_texts ["issuer-1"]);
    ("acceptedActorTypes", json_texts ["agent"])];
  filed ek_passport "passport-a" es_active (("passportId", JTxt "passport-a") :: held_by_agent); token_record "token-a" es_active; token_record "token-b" es_revoked].
Definition hydrated := hydrateKernelAuthorityWorld RecognitionDemo.config ctx records.
Definition world : RecognitionRuntime := match hydrated with Ok (w, _) => kw_recognition w | Throw _ => createAocRecognitionRuntime end.
Lemma hydrates : ∃ w ordered, hydrateKernelAuthorityWorld RecognitionDemo.config ctx records = Ok (w, ordered) ∧ kw_recognition w = world.
Proof.
  assert (match hydrated with Ok _ => true | Throw _ => false end = true) as Hh by (vm_compute; reflexivity). unfold world, hydrated in *. revert Hh.
  destruct (hydrateKernelAuthorityWorld RecognitionDemo.config ctx records) as [[w o]|e]; intros Hh; [by exists w, o|discriminate Hh].
Qed.
Lemma records_named : Forall well_named records.
Proof. unfold records. repeat constructor. Qed.
(** The active token serves; the revoked one, with the same terms, does not. *)
Lemma revoked_record_refused : RecognitionDemo.verdict_type (RecognitionDemo.request "token-b" "read" None) world = Some rd_revoked.
Proof. vm_compute. reflexivity. Qed.
Lemma agent_sanctioned : sanctioned RecognitionDemo.config (at_call 7 world) (RecognitionDemo.request "token-a" "read" None).
Proof.
  destruct (RecognitionDemo.verdict_run (RecognitionDemo.request "token-a" "read" None) (at_call 7 world) rd_allow ltac:(vm_compute; reflexivity)) as (d&rt'&Hd&Ha).
  by apply (allow_sanctioned RecognitionDemo.config eq_refl _ _ d rt').
Qed.
Lemma hydrated_rests_on_active_records_witness : Forall well_named records ∧ rests_on_active_records records (RecognitionDemo.request "token-a" "read" None) "2026-01-01".
Proof.
  split; [exact records_named|]. destruct hydrates as (w&o&Hw&Er). assert (same_registries (kw_recognition w) world) as Hs by (rewrite Er; reflexivity).
  exact (hydrated_rests_on_active_records RecognitionDemo.config ctx records w o world 7 (RecognitionDemo.request "token-a" "read" None) records_named Hw Hs agent_sanctioned).
Defined.

End HydrationDemo.
